(* ===== verification/_CoqProject ===== *)
-Q . S2P
Prelude.v
Strconv.v
Listpack.v
Intset.v
Backlog.v
Cluster.v
Glob.v
Bitmap.v
Object.v
Db.v
DbSpec.v
DbMemory.v
DbScan.v
Request.v
Aof.v
Quicklist.v
Lzf.v
Stream.v
StreamSpec.v
StreamGroups.v
Pubsub.v
Skiplist.v
Stripes.v
SkiplistSpec.v
SortedSet.v
Dict.v
Value.v
Reply.v
Locks.v
Acl.v
Context.v
Strings.v
StringSpec.v
Generic.v
GenericSpec.v
Dispatch.v
StreamCommands.v
StreamServer.v
StreamRef.v
Hashes.v
HashSpec.v
Sets.v
SetSpec.v
Copy.v
Lists.v
ListSpec.v
Bits.v
BitSpec.v
Lcs.v
Scans.v
Hll.v
HllCommands.v
Registry.v
CommandSpec.v
ServerSpec.v
HistorySpec.v
ScanSpec.v
HllSpec.v
Connection.v
LcsSpec.v
ReplicationSpec.v
ServerLaws.v
Departures.v
Rewrite.v
Crc64.v
Rdb.v
Snapshot.v
Replication.v
SyncSpec.v
Dump.v
