(* ===== verification/Prelude.v ===== *)
(** * Gopherdis: a verification library

    Gopherdis is a Redis-compatible in-memory server in Go.  A connection's bytes are parsed into
    requests ([parser/]), dispatched to command handlers ([commands/]) that read and change a
    sharded keyspace ([db/]) of typed objects ([object/], [datastruct/]), and the writes are fed to
    an append-only file ([aof/]) and to a replication backlog ([replication/]).  Beside the
    keyspace stand publish/subscribe ([pubsub/]), snapshots ([rdb/]), access control ([acl/]) and
    cluster slot ownership ([cluster/]).  This library models the components that hold the program's
    state and the commands that change it, and shows what each promises to the others: from the
    bytes of a container up to the histories of a whole server, its replicas and its files.

    ** The files

    - [Prelude] (this file): bytes, Go's integer widths, checked indexing and slicing ([None] is
      Go's panic), the shared tactics and list lemmas.  [Strconv]: the decimal conversions and the
      white-space functions of the standard library.
    - Keyspace.  [Db] models [db/sharded.go], [eviction.go], [keyspace.go] and [snapshot.go]:
      64 shards of [entries], [expires], [versions], one Definition per method.  [Object] is
      [object/types.go]; its class [PayloadSize] is what the keyspace asks of a payload.  [Glob] is
      [glob/glob.go].  [DbSpec]: every timed history of calls answers what one map with deadlines
      answers; an unchanged WATCH version means an unchanged entry.  [DbMemory]: the memory counter follows the calls to the byte
      and misses what containers grow in place, the eviction loop ends and removes only what the policy allows.
      [DbScan]: a SCAN iteration returns every key that stays; KEYS and snapshots are exact.
      [Stripes]: which lock a key has, and in which order two are taken.  [Locks]: the transaction lock and the stripes, taken by
      clients in any interleaving; a transaction runs alone, and there is no deadlock as long as stripes are taken in order.
    - Containers.  [Listpack], [Intset], [Quicklist] ([datastruct/]): every history of operations
      implements a list, a set, a list; the quicklist on a heap of linked nodes.  [Dict]: the
      dictionary and the set over Go's map.  [Skiplist], [SkiplistSpec], [SortedSet]: the sorted
      set, a skip list with spans on a heap beside a dictionary, implements a list sorted by score
      and member, ranks included.  [Bitmap]: the word loops of [datastruct/bitmap] do what the bits say
      one by one.
    - Streams.  [Stream] models [datastruct/stream]: ids, chunks, groups.  [StreamSpec]: the
      stream is a log.  [StreamGroups]: a consumer group is given every entry once.  [StreamCommands] models the
      handlers of [commands/stream.go] and [stream_info.go] on the keyspace, blocking reads as steps;
      [StreamServer], [StreamRef]: a history of stream commands answers what a map from keys to logs answers.
    - Values and replies.  [Value] ([object/object.go], [object/encoded.go], [encoding/limits.go]):
      the encodings of a string, hash, list or set and when they change; [represents] says which
      abstract value an object stands for.  [Reply] ([reply/], [commands/reply3.go],
      [parser/resp_parser.go]): the reply helpers of both protocol versions and their parser.
    - The server's state.  [Acl] ([acl/]): users, rules and permissions.  [Context]: the state a handler
      runs in (keyspace, containers, connection, sinks), a state monad over it, and one rule per
      database call against the dataset, a map from keys to values and deadlines.  [Dispatch]
      ([commands/command.go], [transaction.go], [propagate.go], [acl.go]): [Execute] as a whole,
      transactions, what is propagated.  [Registry]: the command table.
    - Commands.  [Strings], [Generic], [Hashes], [Sets], [Lists] model the handlers of
      [commands/string.go], [generic.go], [keyspace.go], [delex.go], [msetex.go], [hash*.go],
      [set*.go] and [list*.go].  [StringSpec], [GenericSpec], [HashSpec], [SetSpec], [ListSpec]: for
      each handler a function on the dataset that says what the command means, and the lemma that
      the handler does that from every state, in every encoding.  [Bits], [BitSpec] do the same for
      [commands/bitmap.go], where SETBIT changes the stored bytes in place, [Copy] for COPY ([clone.go]), and
      [Lcs], [LcsSpec] for LCS ([lcs.go]): its table and its walk back find a longest common subsequence.
      [Scans] are KEYS, SCAN, RANDOMKEY, HSCAN and SSCAN; [ScanSpec]: an iteration over a live server
      misses no key that stays.  [Hll] ([datastruct/hll]) and [HllCommands] ([commands/hll.go]): sketches and PFADD, PFMERGE;
      [HllSpec]: a key holds the sketch of the set of elements that reached it.
    - The whole server.  [CommandSpec]: the data commands as a client writes them, with their meaning.
      [ServerSpec], [HistorySpec]: every history of these commands, within their grammar, answers what the dataset answers, and
      transactions are atomic.  [ReplicationSpec]: who executes what the server feeds ends with
      its data, as long as what is fed is [followable].  [ServerLaws]: errors change nothing, stored objects are well typed, counters do not
      wrap.  [Connection] ([server/server.go]): the loop of [handleConnection], from the bytes a client sends to the
      bytes it receives.
    - Protocol and persistence.  [Request] ([parser/req_parser.go], [encodeCommand] of
      [aof/rewrite.go]): parsing is the inverse of encoding.  [Aof] ([aof/]): the double buffer, the
      log and its replay, the rewrite as a protocol of three steps interleaved with writes.
      [Rewrite] ([aof/rewrite.go]): loading a rewritten log restores the data.  [Backlog]
      ([replication/backlog.go]): what a replica that resumes receives.  [Replication] ([replication/manager.go],
      [client.go]): feeding, the queues of the replicas and the handshake on both sides; [SyncSpec]: a replica that joins
      ends with the primary's data, from the bytes of the connection.  [Lzf] ([rdb/lzf]),
      [Crc64], [Rdb]: the codecs of the snapshot format.  [Snapshot]: loading what was saved
      restores the data.  [Dump] ([commands/dump.go]): DUMP and RESTORE.
    - [Pubsub] ([pubsub/], [commands/pubsub.go]): the hub's tables and the subscribers'
      queues.  [Cluster] ([cluster/slot.go], [topology.go], [manager.go]): CRC16 and hash
      tags, slot bitmaps, assignment and live hand-over.

    ** How code becomes definitions

    A method is a function from its receiver's record to its results and the new record; the
    names are the code's.  Objects that alias each other (the nodes of the quicklist and of the skip
    list, the subscribers, the containers behind the objects of the keyspace, the users) are
    entries of an explicit heap.  A panic (nil dereference, index out of range, send on a closed
    channel) is [None], and so is a lock that a handler waits for while it holds it; the theorems show that it is not reached.  Go errors are constructors of a sum.
    Integers are [Z] with the wrap-around of their width written out where the code can reach it
    ([u8], [u16], [u32], [u64], [s32], [s64]).  A byte read from a string by an operation that needs its width goes
    through [u8], which is the identity on bytes.  Methods that hold a lock throughout are atomic
    steps; where the code releases a lock between two halves and the order matters, the halves are
    separate steps (the AOF rewrite).  Clocks, random choices and the order of map iteration are
    arguments ([oracle] in [Db], [env] in [Context], the level of a new node in [Skiplist]).

    Parameters.  Third-party code and what the sources only call are arguments: the request arena
    and the arena of a stream chunk (the allocator may refuse), the file an AOF writes to, the
    pattern matcher of [pubsub] ([path.Match]), the password hash and the digest [xxh3] of [env], the
    commands a rewrite emits for streams and sorted sets ([other]), the pairs of a sorted set in
    the snapshot format ([zset_pairs], [new_zset]).

    Hypotheses that recur.  [instant E T]: while one request runs the clock shows the
    same millisecond.  [limits_ok]: the encoding thresholds are ones the configuration accepts.  [orders_ok],
    [oracle_ok]: an iteration over a map visits its keys, in whatever order.  [cmd_ok]:
    the arguments fit the grammar and the deadlines a duration, and two keys that are locked together can be; [xcmd_ok] likewise, and the entries fit a chunk.  The theorems about a server's data hold
    without a memory limit; [DbMemory] has the limit.

    ** Fuel

    Loops that are not structural run on fuel that is derived from the state and shown to be
    enough: one round per node of a quicklist or skip list level, [S (Len db)] rounds for the
    eviction loop, one per chunk plus two for a stream's trim, one per byte for the LZF codec,
    the glob matcher, the request and snapshot readers and the word loops of a bitmap.  No theorem is
    conditional on the fuel.

    ** Where the code departs from its intent

    Some theorems state behaviour that the code cannot mean: [keepttl_on_expired_key_loses_value],
    [watch_misses_eviction], [empty_key_is_never_evicted], [rewrite_window_loses_command],
    [load_rejects_truncated_argument], [oversized_entry_is_lost], [emptied_stream_breaks_order],
    [claim_leaves_old_consumer], [unsubscribe_all_drops_patterns], [empty_member_has_no_rank],
    [assign_over_owned_range_disagrees], [denied_category_stays_denied],
    [default_password_not_required], [refused_set_nx_reaches_the_replica],
    [expireat_zero_deletes_on_the_replica], [late_load_loses_a_counter],
    [msetex_keepttl_inherits_a_past_deadline], [sintercard_numkeys_panics],
    [oversized_entry_stops_the_load], [volatile_stream_dates_the_next_key],
    [cut_file_is_accepted], [dump_expires_with_its_key], [crc64_differs_from_redis],
    [stale_spare_becomes_visible], [xread_without_count_never_reads_on], [waiting_reader_is_not_served],
    [xread_option_without_value_panics], [refused_xadd_leaves_a_stream], [replayed_xadd_gets_another_id],
    [pattern_type_hides_the_keys], [unfed_write_is_executed_twice], [reconnecting_replica_repeats_the_stream],
    [promoted_replica_resumes_inside_a_command], [same_stripe_never_returns], [rename_blocks_the_server],
    [renames_wait_for_each_other], [script_in_transaction_never_returns], [getex_error_sets_the_deadline],
    [smove_escapes_the_watch], [refused_command_does_not_abort_exec], [growing_hash_makes_the_counter_negative],
    [rename_within_a_stripe_hangs] (the last five in [Departures]).  They are kept beside the positive theorems because they mark
    the limits of the latter's hypotheses.

    ** What is not modelled

    Sockets, timers, the process and its flags ([server/], [cmd/]) and, of a connection, failed writes and pushed
    messages; Lua scripting ([scripting/], a bridge to a third-party interpreter); the retries of the
    replication client; the commands whose arguments and replies are floating-point numbers (sorted sets, geo, PFCOUNT,
    INCRBYFLOAT, HINCRBYFLOAT), because the decimal conversion of floats is not modelled; the handlers of SORT, random
    selection and administration; the contents of a copied stream; the cluster's load predictor and simulator; the
    SIMD build variants.  Goroutine scheduling and timers are represented by the granularity of the
    steps, and locks too outside of [Locks], but for the two that a handler may hold together ([LockKeys]). *)

From stdpp Require Export base list gmap strings numbers sorting.
From Stdlib Require Export ZArith Lia.
#[export] Set Default Proof Using "Type".
#[export] Unset Mangle Names.

Local Open Scope Z_scope.

(** ** Bytes, byte strings and Go's integer widths *)

(** A Go [byte] is an integer of [0 .. 255]; a [[]byte] or a [string] is a list of them. *)
Abbreviation byte := Z (only parsing).
Abbreviation bytes := (list Z) (only parsing).

Definition is_byte (b : Z) : Prop := 0 <= b < 256.
Definition is_bytes (l : bytes) : Prop := Forall is_byte l.

(** Go string literals as byte strings. *)
Fixpoint str (s : string) : bytes :=
  match s with
  | EmptyString => []
  | String c s' => Z.of_N (Ascii.N_of_ascii c) :: str s'
  end.

(** The line terminator of the protocol. *)
Definition crlf : bytes := [13; 10].

Definition u8 (z : Z) : Z := z mod 2 ^ 8.
Definition u16 (z : Z) : Z := z mod 2 ^ 16.
Definition u32 (z : Z) : Z := z mod 2 ^ 32.
Definition u64 (z : Z) : Z := z mod 2 ^ 64.

(** Two's complement reading of the low 64 bits: Go's [int64(x)] and, on the 64-bit
    platforms the server targets, [int(x)]. *)
Definition s64 (z : Z) : Z := (z + 2 ^ 63) mod 2 ^ 64 - 2 ^ 63.

(** [int32(x)] *)
Definition s32 (z : Z) : Z := (z + 2 ^ 31) mod 2 ^ 32 - 2 ^ 31.

Definition max_int64 : Z := 2 ^ 63 - 1.
Definition min_int64 : Z := - 2 ^ 63.
Definition is_int64 (z : Z) : Prop := min_int64 <= z <= max_int64.

(** The largest allocation, in bytes, for which [make] does not panic on the 64-bit platforms. *)
Definition maxAlloc : Z := 2 ^ 48.

Lemma s64_id (z : Z) : is_int64 z -> s64 z = z.
Proof. unfold is_int64, min_int64, max_int64, s64. intros. rewrite Z.mod_small; lia. Qed.

Lemma u64_id (z : Z) : 0 <= z < 2 ^ 64 -> u64 z = z.
Proof. apply Z.mod_small. Qed.

Lemma u8_range (z : Z) : is_byte (u8 z).
Proof. unfold is_byte, u8. pose proof (Z.mod_pos_bound z (2 ^ 8)). lia. Qed.

Lemma u8_id (z : Z) : is_byte z -> u8 z = z.
Proof. unfold is_byte, u8. intros. apply Z.mod_small. lia. Qed.

(** ** Slices

    Lengths and indices of Go slices are [int]s; an access out of range is a run-time
    panic, which the model returns as [None]. *)

Definition zlen {A} (l : list A) : Z := Z.of_nat (length l).

Definition go_at {A} (l : list A) (i : Z) : option A :=
  if i <? 0 then None else l !! Z.to_nat i.

Definition go_slice {A} (l : list A) (i j : Z) : option (list A) :=
  if (0 <=? i) && (i <=? j) && (j <=? zlen l)
  then Some (take (Z.to_nat (j - i)) (drop (Z.to_nat i) l)) else None.

Definition go_set {A} (l : list A) (i : Z) (x : A) : option (list A) :=
  if (0 <=? i) && (i <? zlen l) then Some (<[Z.to_nat i := x]> l) else None.

Declare Scope go_scope.
Delimit Scope go_scope with go.
Notation "l .[ i ]" := (go_at l i) (at level 1, left associativity, format "l .[ i ]") : go_scope.
Notation "l .[ i ':' j ]" := (go_slice l i j)
  (at level 1, left associativity, format "l .[ i ':' j ]") : go_scope.

Lemma zlen_nil (A : Type) : zlen (@nil A) = 0.
Proof. done. Qed.

Section slices.
Context {A : Type}.
Implicit Types (l k r : list A) (x : A) (i j : Z).

Lemma zlen_nonneg l : 0 <= zlen l.
Proof. unfold zlen. lia. Qed.

Lemma zlen_cons x l : zlen (x :: l) = 1 + zlen l.
Proof. unfold zlen. simpl. lia. Qed.

Lemma zlen_app l k : zlen (l ++ k) = zlen l + zlen k.
Proof. unfold zlen. rewrite length_app. lia. Qed.

Lemma zlen_insert l (n : nat) x : zlen (<[n := x]> l) = zlen l.
Proof. unfold zlen. by rewrite length_insert. Qed.

Lemma zlen_take l (n : nat) : Z.of_nat n <= zlen l -> zlen (take n l) = Z.of_nat n.
Proof. unfold zlen. rewrite length_take. lia. Qed.

Lemma zlen_drop l (n : nat) : Z.of_nat n <= zlen l -> zlen (drop n l) = zlen l - Z.of_nat n.
Proof. unfold zlen. rewrite length_drop. lia. Qed.

(** The window of length [zlen k] that starts after [l] in [l ++ k ++ r] is [k]. *)
Lemma go_slice_mid l k r i j :
  i = zlen l -> j = i + zlen k -> go_slice (l ++ k ++ r) i j = Some k.
Proof.
  intros -> ->. unfold go_slice.
  replace ((_ && _) && _) with true; cycle 1.
  { symmetry. rewrite !andb_true_iff, !Z.leb_le, !zlen_app. pose proof (zlen_nonneg l).
    pose proof (zlen_nonneg k). pose proof (zlen_nonneg r). lia. }
  replace (Z.to_nat (zlen l)) with (length l) by (unfold zlen; lia). rewrite drop_app_length.
  replace (Z.to_nat _) with (length k) by (unfold zlen; lia).
  by rewrite take_app_length.
Qed.

Lemma go_slice_suffix l k i j :
  i = zlen l -> j = i + zlen k -> go_slice (l ++ k) i j = Some k.
Proof. intros. rewrite <- (app_nil_r k) at 1. by apply go_slice_mid. Qed.

Lemma go_slice_prefix l k j : j = zlen l -> go_slice (l ++ k) 0 j = Some l.
Proof. intros. by apply (go_slice_mid []). Qed.

Lemma go_slice_length l i j k : go_slice l i j = Some k -> zlen k = j - i.
Proof.
  unfold go_slice. case_match eqn:E; [|done]. intros [= <-].
  rewrite !andb_true_iff, !Z.leb_le in E. unfold zlen in *.
  rewrite length_take, length_drop. lia.
Qed.

Lemma go_at_lookup l i : 0 <= i -> go_at l i = l !! Z.to_nat i.
Proof. unfold go_at. intros. case_match eqn:E; [lia|done]. Qed.

Lemma go_at_some l i : 0 <= i < zlen l -> is_Some (go_at l i).
Proof. intros. rewrite go_at_lookup by lia. apply lookup_lt_is_Some. unfold zlen in *. lia. Qed.

Lemma go_at_mid l x r i : i = zlen l -> go_at (l ++ x :: r) i = Some x.
Proof.
  intros ->. rewrite go_at_lookup by apply zlen_nonneg. unfold zlen.
  rewrite Nat2Z.id. by apply list_lookup_middle.
Qed.

Lemma go_at_range l i x : go_at l i = Some x -> 0 <= i < zlen l.
Proof.
  unfold go_at, zlen. case_match eqn:E; [done|]. intros H%lookup_lt_Some. lia.
Qed.

Lemma go_set_mid l x y r i : i = zlen l -> go_set (l ++ x :: r) i y = Some (l ++ y :: r).
Proof.
  intros ->. unfold go_set. rewrite zlen_app, zlen_cons. pose proof (zlen_nonneg l).
  pose proof (zlen_nonneg r).
  replace (_ && _) with true; cycle 1.
  { symmetry. rewrite andb_true_iff, Z.leb_le, Z.ltb_lt. lia. }
  f_equal. unfold zlen. rewrite Nat2Z.id, insert_app_r_alt by lia.
  by rewrite Nat.sub_diag.
Qed.

End slices.

Lemma zlen_map {A B} (f : A -> B) (l : list A) : zlen (f <$> l) = zlen l.
Proof. unfold zlen. by rewrite length_fmap. Qed.

(** ** Concatenations *)

(** The pieces of a concatenation are disjoint when their elements know where they come
    from. *)
Lemma NoDup_concat_home {A B} (home : A -> nat) (f : nat -> B -> list A) (n : nat) (l : list B) :
  (forall i x, l !! i = Some x -> NoDup (f (n + i)%nat x)) ->
  (forall i x a, l !! i = Some x -> a ∈ f (n + i)%nat x -> home a = (n + i)%nat) ->
  NoDup (concat (imap (fun i => f (n + i)%nat) l)).
Proof.
  revert n. induction l as [|y l IH]; intros n Hnd Hh; [constructor|]. simpl. apply NoDup_app. split_and!.
  - by apply (Hnd 0%nat).
  - intros a Ha Hin. apply (Hh 0%nat) in Ha; [|done].
    apply list_elem_of_In, in_concat in Hin as (u & Hu%list_elem_of_In & Ha2%list_elem_of_In).
    apply elem_of_lookup_imap in Hu as (i & z & -> & Hz).
    apply (Hh (S i)) in Ha2; [|done]. lia.
  - rewrite (imap_ext _ (fun i => f (S n + i)%nat)).
    + apply IH.
      * intros i x Hx. replace (S n + i)%nat with (n + S i)%nat by lia. by apply Hnd.
      * intros i x a Hx. replace (S n + i)%nat with (n + S i)%nat by lia. by apply Hh.
    + intros i x _. simpl. f_equal. lia.
Qed.

Lemma elem_of_concat_imap {A B} (f : nat -> B -> list A) (l : list B) a :
  a ∈ concat (imap f l) <-> exists i x, l !! i = Some x /\ a ∈ f i x.
Proof.
  rewrite list_elem_of_In, in_concat. split.
  - intros (u & Hu%list_elem_of_In & Ha%list_elem_of_In).
    apply elem_of_lookup_imap in Hu as (i & x & -> & Hx). eauto.
  - intros (i & x & Hx & Ha). exists (f i x). rewrite <- !list_elem_of_In. split; [|done].
    apply elem_of_lookup_imap. eauto.
Qed.

(** ** Bit arithmetic *)

Lemma testbit_small (x s i : Z) : 0 <= x < 2 ^ s -> s <= i -> Z.testbit x i = false.
Proof.
  intros Hx Hi. destruct (Z.eq_dec x 0) as [->|]; [apply Z.testbit_0_l|].
  apply Z.bits_above_log2; [lia|]. apply Z.log2_lt_pow2; [lia|].
  eapply Z.lt_le_trans; [apply Hx|]. apply Z.pow_le_mono_r; lia.
Qed.

(** A number without bits from [n] on is below [2 ^ n]. *)
Lemma bits_bound (z n : Z) :
  0 <= n -> (forall i, n <= i -> Z.testbit z i = false) -> 0 <= z < 2 ^ n.
Proof.
  intros Hn Hb. replace z with (z mod 2 ^ n); [apply Z.mod_pos_bound; lia|].
  apply Z.bits_inj'. intros i Hi. destruct (Z.lt_ge_cases i n).
  - by rewrite Z.mod_pow2_bits_low by lia.
  - by rewrite Z.mod_pow2_bits_high, Hb by lia.
Qed.

(** Or-ing a value shifted past a smaller one is an addition: how the code assembles
    integers from bytes. *)
Lemma lor_shiftl_add (x b s : Z) :
  0 <= s -> 0 <= x < 2 ^ s -> Z.lor x (Z.shiftl b s) = x + b * 2 ^ s.
Proof.
  intros Hs Hx. rewrite <- Z.shiftl_mul_pow2 by done. symmetry.
  rewrite Z.add_nocarry_lxor, Z.lxor_lor; [done| |]; apply Z.bits_inj'; intros i Hi;
    rewrite Z.land_spec, Z.bits_0, Z.shiftl_spec by done;
    (destruct (Z.lt_ge_cases i s);
      [rewrite (Z.testbit_neg_r b) by lia; apply andb_false_r
      |by rewrite (testbit_small x s i)]).
Qed.

(** ** Automation *)

Create HintDb go.
Create Rewrite HintDb zlen.
#[export] Hint Resolve zlen_nonneg u8_range : go.
#[export] Hint Rewrite @zlen_nil @zlen_cons @zlen_app @zlen_insert : zlen.

(** Normalise [zlen] of concatenations, expose the sign of the remaining lengths and
    call [lia]. *)
Ltac zlen_pose :=
  repeat match goal with
    | |- context [zlen ?l] =>
        lazymatch goal with
        | _ : 0 <= zlen l |- _ => fail
        | _ => pose proof (zlen_nonneg l)
        end
    | _ : context [zlen ?l] |- _ =>
        lazymatch goal with
        | _ : 0 <= zlen l |- _ => fail
        | _ => pose proof (zlen_nonneg l)
        end
    end.

Ltac zlen_lia := autorewrite with zlen in *; zlen_pose; lia.

(** Turn the boolean tests of the code into propositions. *)
Ltac bool_prop :=
  repeat match goal with
    | H : _ && _ = true |- _ => apply andb_true_iff in H as [??]
    | H : _ || _ = false |- _ => apply orb_false_iff in H as [??]
    | H : _ && _ = false |- _ => apply andb_false_iff in H
    | H : _ || _ = true |- _ => apply orb_true_iff in H
    | H : negb _ = true |- _ => apply negb_true_iff in H
    | H : negb _ = false |- _ => apply negb_false_iff in H
    | H : (_ <=? _) = true |- _ => apply Z.leb_le in H
    | H : (_ <=? _) = false |- _ => apply Z.leb_gt in H
    | H : (_ <? _) = true |- _ => apply Z.ltb_lt in H
    | H : (_ <? _) = false |- _ => apply Z.ltb_ge in H
    | H : (_ =? _) = true |- _ => apply Z.eqb_eq in H
    | H : (_ =? _) = false |- _ => apply Z.eqb_neq in H
    | H : bool_decide _ = true |- _ => apply bool_decide_eq_true in H
    | H : bool_decide _ = false |- _ => apply bool_decide_eq_false in H
    end.

(** Reduce the option monad's binds over known results, and nothing else. *)
Ltac go_bind := cbn [mbind option_bind]; cbv beta iota zeta.

(** [lia] with division and modulo by constants. *)
Ltac div_lia := Z.to_euclidean_division_equations; lia.
