(* ===== verification/Strconv.v ===== *)
(** * Decimal conversions

    The part of Go's [strconv] (and of [fmt]'s [%d] verb) that the server uses: the decimal
    rendering of an integer and the base-10, 64-bit parsers.  Every protocol component is
    built on them: RESP lengths, integer replies, stream IDs, the integer string encoding. *)

From S2P Require Import Prelude.
Local Open Scope Z_scope.

(** ** Rendering *)

(** The decimal digits of [n >= 0], most significant first, pushed in front of [acc].
    A number has at most [log2 n + 1] digits, which is the fuel [FormatUint] passes. *)
Fixpoint format_digits (fuel : nat) (n : Z) (acc : bytes) : bytes :=
  match fuel with
  | O => acc
  | S f =>
      if n <? 10 then (48 + n) :: acc
      else format_digits f (n / 10) ((48 + n mod 10) :: acc)
  end.

Definition FormatUint (n : Z) : bytes := format_digits (S (Z.to_nat (Z.log2 n))) n [].

(** [strconv.FormatInt(n, 10)], [strconv.Itoa(n)] and [%d]. *)
Definition FormatInt (n : Z) : bytes :=
  if n <? 0 then 45 :: FormatUint (- n) else FormatUint n.

(** ** Parsing

    [None] stands for a non-nil error (syntax or range): no caller distinguishes them. *)

Definition digit_of (c : Z) : option Z :=
  if (48 <=? c) && (c <=? 57) then Some (c - 48) else None.

Fixpoint parse_digits (max acc : Z) (s : bytes) : option Z :=
  match s with
  | [] => Some acc
  | c :: s' =>
      match digit_of c with
      | None => None
      | Some d => if max <? acc * 10 + d then None else parse_digits max (acc * 10 + d) s'
      end
  end.

Definition ParseUint_max (max : Z) (s : bytes) : option Z :=
  match s with [] => None | _ => parse_digits max 0 s end.

(** [strconv.ParseUint(s, 10, 64)] *)
Definition ParseUint (s : bytes) : option Z := ParseUint_max (2 ^ 64 - 1) s.

(** [strconv.ParseInt(s, 10, 64)]: an optional sign, the unsigned parser, the signed range. *)
Definition ParseInt (s : bytes) : option Z :=
  match s with
  | [] => None
  | c :: s' =>
      if c =? 45 then
        match ParseUint s' with
        | Some n => if 2 ^ 63 <? n then None else Some (- n)
        | None => None
        end
      else
        match ParseUint (if c =? 43 then s' else s) with
        | Some n => if 2 ^ 63 <=? n then None else Some n
        | None => None
        end
  end.

(** ** White space *)

(** The width of the white-space character a line starts with, 0 when it starts with none:
    the ASCII ones, and the UTF-8 encodings of U+0085, U+00A0, U+1680, U+2000-200A, U+2028,
    U+2029, U+202F, U+205F and U+3000, which [bytes.Fields] and [strings.TrimSpace] take for spaces too. *)
Definition space_width (l : bytes) : nat :=
  match l with
  | [] => 0%nat
  | b :: l =>
    if ((9 <=? b) && (b <=? 13)) || (b =? 32) then 1%nat
    else
      match l with
      | [] => 0%nat
      | c :: l =>
        if (b =? 194) && ((c =? 133) || (c =? 160)) then 2%nat
        else
          match l with
          | [] => 0%nat
          | d :: _ =>
            if ((b =? 225) && (c =? 154) && (d =? 128))
               || ((b =? 226) && (c =? 128) &&
                   (((128 <=? d) && (d <=? 138)) || (d =? 168) || (d =? 169) || (d =? 175)))
               || ((b =? 226) && (c =? 129) && (d =? 159))
               || ((b =? 227) && (c =? 128) && (d =? 128))
            then 3%nat else 0%nat
          end
      end
  end.

Fixpoint trim_left (fuel : nat) (l : bytes) : bytes :=
  match fuel with
  | O => l
  | S fuel => match space_width l with O => l | w => trim_left fuel (drop w l) end
  end.

(** The width of the white-space character a string ends with. *)
Definition last_space_width (l : bytes) : nat :=
  let ends w := Nat.eqb (space_width (drop (length l - w) l)) w in
  if ends 1%nat then 1%nat else if ends 2%nat then 2%nat else if ends 3%nat then 3%nat else 0%nat.

Fixpoint trim_right (fuel : nat) (l : bytes) : bytes :=
  match fuel with
  | O => l
  | S fuel => match last_space_width l with O => l | w => trim_right fuel (take (length l - w) l) end
  end.

(** [strings.TrimSpace] *)
Definition TrimSpace (l : bytes) : bytes :=
  let l := trim_left (length l) l in trim_right (length l) l.

(** ** Searching and case *)

(** [strings.IndexByte] and [bytes.IndexByte]: [-1] when the byte does not occur. *)
Fixpoint IndexByte (s : bytes) (c : Z) : Z :=
  match s with
  | [] => -1
  | x :: s' => if x =? c then 0
               else let r := IndexByte s' c in if r =? -1 then -1 else r + 1
  end.

(** ASCII case, byte by byte. *)
Definition upper_byte (c : Z) : Z := if (97 <=? c) && (c <=? 122) then c - 32 else c.
Definition lower_byte (c : Z) : Z := if (65 <=? c) && (c <=? 90) then c + 32 else c.

(** [strings.ToUpper], as far as a comparison with an ASCII name can tell: besides the ASCII
    letters, U+0131 and U+017F are the only characters whose upper case is ASCII.  Other characters
    are kept as they are. *)
Fixpoint ToUpper (s : bytes) : bytes :=
  match s with
  | [] => []
  | a :: s' =>
    match s' with
    | b :: s'' =>
      if (a =? 196) && (b =? 177) then 73 :: ToUpper s''
      else if (a =? 197) && (b =? 191) then 83 :: ToUpper s''
      else upper_byte a :: ToUpper s'
    | [] => [upper_byte a]
    end
  end.

(** [strings.ToLower] likewise: U+0130 and U+212A have an ASCII lower case. *)
Fixpoint ToLower (s : bytes) : bytes :=
  match s with
  | [] => []
  | a :: s' =>
    match s' with
    | b :: ((c :: s''') as s'') =>
      if (a =? 196) && (b =? 176) then 105 :: ToLower s''
      else if (a =? 226) && (b =? 132) && (c =? 170) then 107 :: ToLower s'''
      else lower_byte a :: ToLower s'
    | [b] => if (a =? 196) && (b =? 176) then [105] else [lower_byte a; lower_byte b]
    | [] => [lower_byte a]
    end
  end.

(** ** Properties *)

Definition is_digit (c : Z) : Prop := 48 <= c <= 57.

(** The value of a digit string, continued from [acc]. *)
Fixpoint digits_val (acc : Z) (s : bytes) : Z :=
  match s with [] => acc | c :: s' => digits_val (acc * 10 + (c - 48)) s' end.

Lemma digits_val_mono acc s : 0 <= acc -> Forall is_digit s -> acc <= digits_val acc s.
Proof.
  intros Ha Hs. revert acc Ha. induction Hs as [|c s Hc _ IH]; intros acc Ha; simpl; [lia|].
  unfold is_digit in Hc. etrans; [|apply IH]; lia.
Qed.

Lemma parse_digits_val max acc s :
  0 <= acc -> Forall is_digit s -> digits_val acc s <= max ->
  parse_digits max acc s = Some (digits_val acc s).
Proof.
  intros Ha Hs. revert acc Ha. induction Hs as [|c s Hc Hs IH]; intros acc Ha Hm; simpl; [done|].
  simpl in Hm. unfold is_digit in Hc. unfold digit_of.
  replace ((48 <=? c) && (c <=? 57)) with true by lia.
  assert (acc * 10 + (c - 48) <= digits_val (acc * 10 + (c - 48)) s)
    by (apply digits_val_mono; [lia|done]).
  case_match eqn:E; bool_prop; [lia|].
  apply IH; lia.
Qed.

Lemma format_digits_spec fuel n acc :
  0 <= n < 2 ^ Z.of_nat fuel -> (0 < fuel)%nat ->
  exists ds, format_digits fuel n acc = ds ++ acc /\ Forall is_digit ds /\ ds <> [] /\
    digits_val 0 ds = n /\ (forall c ds', ds = c :: ds' -> c = 48 -> n = 0).
Proof.
  revert n acc. induction fuel as [|f IH]; intros n acc Hn Hf; [lia|]. simpl.
  case_match eqn:E; bool_prop.
  { exists [48 + n]. unfold is_digit. simpl. repeat split; try done; try lia.
    - repeat constructor; lia.
    - intros c ds' [= <- <-]. lia. }
  rewrite Nat2Z.inj_succ, Z.pow_succ_r in Hn by lia.
  destruct f as [|f'].
  { change (2 ^ Z.of_nat 0) with 1 in Hn. lia. }
  destruct (IH (n / 10) ((48 + n mod 10) :: acc)) as (ds & Hd & Hdig & Hne & Hval & Hlead).
  { split; [apply Z.div_pos; lia|]. apply Z.div_lt_upper_bound; lia. }
  { lia. }
  exists (ds ++ [48 + n mod 10]). rewrite Hd, <- app_assoc. repeat split.
  - apply Forall_app; split; [done|]. repeat constructor; unfold is_digit;
      pose proof (Z.mod_pos_bound n 10); lia.
  - by destruct ds.
  - assert (Happ : forall l a m, digits_val a (l ++ [48 + m]) = digits_val a l * 10 + m).
    { induction l as [|x l IHl]; intros a m; simpl; [lia|]. apply IHl. }
    rewrite Happ, Hval. pose proof (Z.div_mod n 10). lia.
  - intros c ds' Heq Hc. destruct ds as [|d ds0]; [done|]. simpl in Heq. injection Heq as -> _.
    specialize (Hlead c ds0 eq_refl Hc). pose proof (Z.div_mod n 10).
    pose proof (Z.mod_pos_bound n 10). lia.
Qed.

Lemma FormatUint_spec n :
  0 <= n ->
  Forall is_digit (FormatUint n) /\ FormatUint n <> [] /\ digits_val 0 (FormatUint n) = n /\
  (forall c s, FormatUint n = c :: s -> c = 48 -> n = 0).
Proof.
  intros Hn. unfold FormatUint.
  destruct (format_digits_spec (S (Z.to_nat (Z.log2 n))) n []) as (ds & -> & H); [|lia|].
  - rewrite Nat2Z.inj_succ, Z2Nat.id by apply Z.log2_nonneg.
    destruct (Z.eq_dec n 0) as [->|]; [done|]. pose proof (Z.log2_spec n). lia.
  - by rewrite app_nil_r.
Qed.

Lemma FormatUint_digits n : 0 <= n -> Forall is_digit (FormatUint n).
Proof. intros. by apply FormatUint_spec. Qed.

Lemma FormatUint_not_nil n : 0 <= n -> FormatUint n <> [].
Proof. intros. by apply FormatUint_spec. Qed.

Lemma ParseUint_FormatUint n : 0 <= n < 2 ^ 64 -> ParseUint (FormatUint n) = Some n.
Proof.
  intros Hn. destruct (FormatUint_spec n) as (Hd & Hne & Hv & _); [lia|].
  unfold ParseUint, ParseUint_max. destruct (FormatUint n) as [|c s] eqn:E; [done|].
  rewrite parse_digits_val; rewrite ?Hv; [done|lia|done|lia].
Qed.

(** Parsing what [FormatInt] renders gives the number back, on the whole [int64] range. *)
Lemma ParseInt_FormatInt n : is_int64 n -> ParseInt (FormatInt n) = Some n.
Proof.
  unfold is_int64, min_int64, max_int64, FormatInt, ParseInt. intros Hn.
  destruct (Z.ltb_spec n 0) as [Es|Es].
  - cbv beta iota. rewrite (Z.eqb_refl 45), ParseUint_FormatUint by lia. case_match; bool_prop; [lia|].
    f_equal. lia.
  - destruct (FormatUint_spec n) as (Hd & Hne & _ & _); [lia|].
    pose proof (ParseUint_FormatUint n) as Hp.
    destruct (FormatUint n) as [|c s] eqn:E; [done|].
    apply Forall_cons in Hd as [Hc _]. unfold is_digit in Hc.
    replace (c =? 45) with false by lia. replace (c =? 43) with false by lia.
    rewrite Hp by lia. case_match; bool_prop; [lia|done].
Qed.

Lemma FormatInt_inj n m : is_int64 n -> is_int64 m -> FormatInt n = FormatInt m -> n = m.
Proof.
  intros Hn Hm Heq. pose proof (ParseInt_FormatInt n Hn) as H.
  rewrite Heq, ParseInt_FormatInt in H by done. congruence.
Qed.

Lemma FormatInt_nonneg n : 0 <= n -> FormatInt n = FormatUint n.
Proof. unfold FormatInt. intros. case_match; bool_prop; [lia|done]. Qed.

Lemma FormatInt_not_nil n : FormatInt n <> [].
Proof.
  unfold FormatInt. case_match; bool_prop; [done|]. by apply FormatUint_not_nil.
Qed.

(** The rendering uses digits and a leading minus sign only, so it can never contain a
    protocol delimiter. *)
Lemma FormatInt_chars n : Forall (fun c => c = 45 \/ is_digit c) (FormatInt n).
Proof.
  unfold FormatInt. case_match; bool_prop.
  - constructor; [by left|]. eapply Forall_impl; [apply FormatUint_digits; lia|]. auto.
  - eapply Forall_impl; [apply FormatUint_digits; lia|]. auto.
Qed.

Lemma parse_digits_bounds max acc s n :
  0 <= acc <= max -> parse_digits max acc s = Some n -> 0 <= n <= max.
Proof.
  revert acc. induction s as [|c s IH]; intros acc Ha; simpl; [congruence|].
  destruct (digit_of c) as [d|] eqn:Ed; [|done].
  destruct (Z.ltb_spec max (acc * 10 + d)); [done|]. apply IH.
  unfold digit_of in Ed. case_match; [|done]. simplify_eq. bool_prop. lia.
Qed.

Lemma ParseUint_bounds s n : ParseUint s = Some n -> 0 <= n < 2 ^ 64.
Proof.
  unfold ParseUint, ParseUint_max. destruct s; [done|]. intros H%parse_digits_bounds; lia.
Qed.

Lemma ParseInt_bounds s n : ParseInt s = Some n -> is_int64 n.
Proof.
  unfold is_int64, min_int64, max_int64, ParseInt. destruct s as [|c s]; [done|].
  repeat case_match; intros; simplify_eq; bool_prop;
    match goal with H : ParseUint _ = _ |- _ => apply ParseUint_bounds in H end; lia.
Qed.

#[export] Hint Resolve FormatUint_digits FormatUint_not_nil FormatInt_not_nil : go.

(** ** White space *)

Lemma space_width_plain b l : 33 <= b < 128 -> space_width (b :: l) = 0%nat.
Proof.
  intros Hb. unfold space_width.
  rewrite (proj2 (Z.leb_gt b 13)), (proj2 (Z.eqb_neq b 32)), andb_false_r by lia. simpl.
  destruct l as [|c [|d l]]; [done|..]; by rewrite !(proj2 (Z.eqb_neq b _)) by lia.
Qed.

Lemma space_width_plain_list l : Forall (fun b => 33 <= b < 128) l -> space_width l = 0%nat.
Proof. intros H. destruct H; [done|]. by apply space_width_plain. Qed.

(** Nothing to trim in printable ASCII. *)
Lemma TrimSpace_plain l : Forall (fun b => 33 <= b < 128) l -> TrimSpace l = l.
Proof.
  intros Hl. unfold TrimSpace.
  assert (trim_left (length l) l = l) as ->.
  { destruct l as [|b l]; [done|]. cbn [length trim_left]. by rewrite space_width_plain_list. }
  assert (last_space_width l = 0%nat) as Hw.
  { unfold last_space_width. by rewrite !space_width_plain_list by (by apply Forall_drop). }
  destruct (length l) eqn:E; [done|]. cbn [trim_right]. by rewrite Hw.
Qed.

(** ** Searching *)

Lemma IndexByte_app s c r : c ∉ s -> IndexByte (s ++ c :: r) c = zlen s.
Proof.
  induction s as [|x s IH]; intros Hn; cbn [app IndexByte].
  { by rewrite Z.eqb_refl. }
  apply not_elem_of_cons in Hn as [Hx Hn]. rewrite IH by done.
  destruct (Z.eqb_spec x c); [congruence|]. rewrite zlen_cons. zlen_pose.
  destruct (Z.eqb_spec (zlen s) (-1)); lia.
Qed.

Lemma IndexByte_absent s c : c ∉ s -> IndexByte s c = -1.
Proof.
  induction s as [|x s IH]; intros Hn; [done|]. apply not_elem_of_cons in Hn as [Hx Hn].
  cbn [IndexByte]. rewrite IH by done. destruct (Z.eqb_spec x c); [congruence|done].
Qed.

(** ** Case *)

Lemma ToUpper_ascii s : Forall (fun b => 0 <= b < 128) s -> ToUpper s = upper_byte <$> s.
Proof.
  induction 1 as [|a s Ha Hs IH]; [done|]. destruct Hs as [|b s Hb Hs]; [done|].
  cbn [ToUpper fmap list_fmap] in *. rewrite IH.
  by rewrite (proj2 (Z.eqb_neq a 196)), (proj2 (Z.eqb_neq a 197)) by lia.
Qed.

Lemma ToLower_ascii s : Forall (fun b => 0 <= b < 128) s -> ToLower s = lower_byte <$> s.
Proof.
  induction 1 as [|a s Ha Hs IH]; [done|]. destruct Hs as [|b s Hb Hs]; [done|].
  destruct Hs as [|c s Hc Hs]; cbn [ToLower fmap list_fmap] in *; rewrite ?IH;
    by rewrite (proj2 (Z.eqb_neq a 196)), ?(proj2 (Z.eqb_neq a 226)) by lia.
Qed.
