(* ===== verification/Listpack.v ===== *)
(** * Listpack: the packed encoding of small collections

    [datastruct/listpack/listpack.go].  A listpack is one flat buffer that holds every
    element as a uvarint length followed by its bytes, and a count.  The file models the
    buffer and every method on it, and shows that they implement a plain list of byte
    strings ([repr]), whatever the sequence of operations. *)

From S2P Require Import Prelude.
Local Open Scope Z_scope.

(** ** [encoding/binary]: the uvarint codec the package is built on *)

(** [binary.PutUvarint]: seven bits per byte, least significant first, the high bit set on
    every byte but the last.  A [uint64] takes at most [MaxVarintLen64 = 10] bytes. *)
Fixpoint put_uvarint (fuel : nat) (x : Z) : bytes :=
  match fuel with
  | O => []
  | S f => if 128 <=? x then Z.lor (u8 x) 128 :: put_uvarint f (Z.shiftr x 7) else [u8 x]
  end.
Definition MaxVarintLen64 : nat := 10.
Definition PutUvarint (x : Z) : bytes := put_uvarint MaxVarintLen64 x.

(** [binary.Uvarint]: the value and the number of bytes read; [0] bytes when the buffer is
    too short, a negative count on a 64-bit overflow. *)
Fixpoint uvarint_loop (i x s : Z) (buf : bytes) : Z * Z :=
  match buf with
  | [] => (0, 0)
  | b :: r =>
      if i =? 10 then (0, - (i + 1))
      else if b <? 128 then
        if (i =? 9) && (1 <? b) then (0, - (i + 1))
        else (Z.lor x (u64 (Z.shiftl b s)), i + 1)
      else uvarint_loop (i + 1) (Z.lor x (u64 (Z.shiftl (Z.land b 127) s))) (s + 7) r
  end.
Definition Uvarint (buf : bytes) : Z * Z := uvarint_loop 0 0 0 buf.

(** ** The structure and its operations *)

Record Listpack := mkLp { lp_buf : bytes; lp_n : Z }.

Definition New : Listpack := mkLp [] 0.
Definition Len (lp : Listpack) : Z := lp_n lp.
Definition Bytes (lp : Listpack) : Z := zlen (lp_buf lp).

Definition Append (lp : Listpack) (val : bytes) : Listpack :=
  mkLp (lp_buf lp ++ PutUvarint (zlen val) ++ val) (lp_n lp + 1).

(** [uvarintLen]: the header size of a length. *)
Fixpoint uvarintLen_loop (fuel : nat) (v n : Z) : Z :=
  match fuel with
  | O => n
  | S f => if 128 <=? v then uvarintLen_loop f (Z.shiftr v 7) (n + 1) else n
  end.
Definition uvarintLen (v : Z) : Z := uvarintLen_loop MaxVarintLen64 v 1.

(** [offsets]: walk the buffer, collecting the payload offset and length of every element.
    [None] is a panic (the cursor left the buffer) or exhausted fuel; on the buffers the
    package builds neither happens, see [offsets_repr]. *)
Fixpoint offsets_loop (fuel : nat) (buf : bytes) (i : Z) (starts lens : list Z)
    : option (list Z * list Z) :=
  match fuel with
  | O => None
  | S f =>
      if zlen buf <=? i then Some (starts, lens)
      else match go_slice buf i (zlen buf) with
           | None => None
           | Some tl =>
               let '(l, k) := Uvarint tl in
               if k <=? 0 then Some (starts, lens)
               else offsets_loop f buf (s64 (i + (k + s64 l))) (starts ++ [i + k])
                      (lens ++ [s64 l])
           end
  end.
Definition offsets (lp : Listpack) : option (list Z * list Z) :=
  offsets_loop (S (length (lp_buf lp))) (lp_buf lp) 0 [] [].

(** [Get]: the outer option is a panic, the inner one the [nil] slice. *)
Definition Get (lp : Listpack) (i : Z) : option (option bytes) :=
  if (i <? 0) || (lp_n lp <=? i) then Some None
  else
    '(starts, lens) ← offsets lp;
    if zlen starts <=? i then Some None
    else
      st ← go_at starts i; ln ← go_at lens i;
      v ← go_slice (lp_buf lp) st (st + ln);
      Some (Some v).

(** [ForEach]: the callback threads its captured variables as a state; returning [false]
    stops the walk. *)
Fixpoint ForEach_loop {S} (fuel : nat) (fn : S -> Z -> bytes -> S * bool) (buf : bytes)
    (idx i : Z) (st : S) : option S :=
  match fuel with
  | O => None
  | Datatypes.S f =>
      if zlen buf <=? i then Some st
      else match go_slice buf i (zlen buf) with
           | None => None
           | Some tl =>
               let '(l, k) := Uvarint tl in
               if k <=? 0 then Some st
               else
                 let start := i + k in
                 v ← go_slice buf start (s64 (start + s64 l));
                 let '(st', continue) := fn st idx v in
                 if negb continue then Some st'
                 else ForEach_loop f fn buf (idx + 1) (s64 (start + s64 l)) st'
           end
  end.
Definition ForEach {S} (lp : Listpack) (fn : S -> Z -> bytes -> S * bool) (st : S) : option S :=
  ForEach_loop (Datatypes.S (length (lp_buf lp))) fn (lp_buf lp) 0 0 st.

Definition Find (lp : Listpack) (val : bytes) (start stride : Z) : option Z :=
  ForEach lp (fun found i cur =>
    if (i <? start) || negb (Z.rem (i - start) stride =? 0) then (found, true)
    else if bool_decide (cur = val) then (i, false)
    else (found, true)) (-1).

Definition All (lp : Listpack) : option (list bytes) :=
  ForEach lp (fun out _ v => (out ++ [v], true)) [].

Definition ReplaceAt (lp : Listpack) (i : Z) (val : bytes) : option (Listpack * bool) :=
  if (i <? 0) || (lp_n lp <=? i) then Some (lp, false)
  else
    '(starts, lens) ← offsets lp;
    if zlen starts <=? i then Some (lp, false)
    else
      st ← go_at starts i; ln ← go_at lens i;
      let hdrStart := st - uvarintLen (u64 ln) in
      let tail := st + ln in
      a ← go_slice (lp_buf lp) 0 hdrStart;
      b ← go_slice (lp_buf lp) tail (zlen (lp_buf lp));
      Some (mkLp (a ++ PutUvarint (zlen val) ++ val ++ b) (lp_n lp), true).

Definition DeleteRange (lp : Listpack) (i count : Z) : option (Listpack * bool) :=
  if (i <? 0) || (count <=? 0) || (lp_n lp <? s64 (i + count)) then Some (lp, false)
  else
    '(starts, lens) ← offsets lp;
    if zlen starts <? s64 (i + count) then Some (lp, false)
    else
      st ← go_at starts i; ln ← go_at lens i;
      let from := st - uvarintLen (u64 ln) in
      let last := s64 (s64 (i + count) - 1) in
      st' ← go_at starts last; ln' ← go_at lens last;
      let to := st' + ln' in
      a ← go_slice (lp_buf lp) 0 from;
      b ← go_slice (lp_buf lp) to (zlen (lp_buf lp));
      Some (mkLp (a ++ b) (lp_n lp - count), true).

Definition InsertAt (lp : Listpack) (i : Z) (val : bytes) : option (Listpack * bool) :=
  if (i <? 0) || (lp_n lp <? i) then Some (lp, false)
  else if i =? lp_n lp then Some (Append lp val, true)
  else
    '(starts, lens) ← offsets lp;
    st ← go_at starts i; ln ← go_at lens i;
    let at_ := st - uvarintLen (u64 ln) in
    a ← go_slice (lp_buf lp) 0 at_;
    b ← go_slice (lp_buf lp) at_ (zlen (lp_buf lp));
    Some (mkLp (a ++ PutUvarint (zlen val) ++ val ++ b) (lp_n lp + 1), true).

(** ** The codec round trip *)

Lemma uvarint_byte (v : Z) : Z.lor (u8 v) 128 = v mod 128 + 128.
Proof.
  rewrite <- (Z.mul_1_l 128) at 3. change 128 with (2 ^ 7) at 2 3.
  rewrite <- lor_shiftl_add by (try apply Z.mod_pos_bound; lia).
  apply Z.bits_inj'. intros i Hi. rewrite !Z.lor_spec. unfold u8.
  change 128 with (Z.shiftl 1 7). rewrite Z.shiftl_spec by done.
  destruct (Z.lt_trichotomy i 7) as [?|[->|?]].
  - by rewrite !Z.mod_pow2_bits_low by lia.
  - by rewrite !orb_true_r.
  - rewrite (Z.mod_pow2_bits_high _ 7), (Z.mod_pow2_bits_high _ 8) by lia. done.
Qed.

Lemma uvarint_loop_put fuel i x s v rest :
  (0 < fuel)%nat -> i = 10 - Z.of_nat fuel -> s = 7 * i -> 0 <= i ->
  0 <= x < 2 ^ s -> 0 <= v -> x + v * 2 ^ s < 2 ^ 64 ->
  uvarint_loop i x s (put_uvarint fuel v ++ rest)
  = (x + v * 2 ^ s, i + zlen (put_uvarint fuel v)).
Proof.
  revert i x s v. induction fuel as [|f IH]; intros i x s v Hf Hi Hs H0 Hx Hv Hlt; [lia|].
  assert (Hs9 : i = 9 -> v <= 1).
  { intros ->. subst s. change (2 ^ (7 * 9)) with (2 ^ 63) in *. lia. }
  assert (Hpos : 0 < 2 ^ s) by (apply Z.pow_pos_nonneg; lia).
  cbn [put_uvarint]. destruct (Z.leb_spec 128 v) as [Hbig|Hsmall]; cbn [app uvarint_loop].
  - destruct (Z.eqb_spec i 10); [lia|]. rewrite uvarint_byte.
    pose proof (Z.mod_pos_bound v 128 ltac:(lia)).
    destruct (Z.ltb_spec (v mod 128 + 128) 128); [lia|].
    change 127 with (Z.ones 7). rewrite Z.land_ones by lia. change (2 ^ 7) with 128.
    replace ((v mod 128 + 128) mod 128) with (v mod 128)
      by (rewrite <- (Z.mul_1_l 128) at 3; rewrite Z.mod_add, Z.mod_mod; lia).
    assert (Hvd : v mod 128 * 2 ^ s <= v * 2 ^ s).
    { apply Z.mul_le_mono_nonneg_r; [lia|]. apply Z.mod_le; lia. }
    rewrite Z.shiftl_mul_pow2, u64_id by lia.
    rewrite <- Z.shiftl_mul_pow2, lor_shiftl_add by lia.
    assert (Hsplit : x + v mod 128 * 2 ^ s + Z.shiftr v 7 * 2 ^ (s + 7) = x + v * 2 ^ s).
    { rewrite Z.shiftr_div_pow2, Z.pow_add_r by lia. change (2 ^ 7) with 128.
      pose proof (Z.div_mod v 128 ltac:(lia)). nia. }
    assert (x + v mod 128 * 2 ^ s < 2 ^ (s + 7))
      by (rewrite Z.pow_add_r by lia; change (2 ^ 7) with 128; nia).
    assert (0 <= Z.shiftr v 7) by (apply Z.shiftr_nonneg; lia).
    assert (0 <= v mod 128 * 2 ^ s) by (apply Z.mul_nonneg_nonneg; lia).
    assert (0 < f)%nat by (destruct f; [exfalso|]; lia).
    rewrite IH, Hsplit, zlen_cons by lia. f_equal. lia.
  - rewrite u8_id by (unfold is_byte; lia).
    destruct (Z.eqb_spec i 10); [lia|]. destruct (Z.ltb_spec v 128); [|lia].
    replace ((i =? 9) && (1 <? v)) with false
      by (destruct (Z.eqb_spec i 9); [|done]; simpl; symmetry; apply Z.ltb_ge; lia).
    rewrite (u64_id (Z.shiftl v s)) by (rewrite Z.shiftl_mul_pow2; lia).
    by rewrite lor_shiftl_add by lia.
Qed.

Lemma Uvarint_PutUvarint v rest :
  0 <= v < 2 ^ 64 -> Uvarint (PutUvarint v ++ rest) = (v, zlen (PutUvarint v)).
Proof.
  intros. unfold Uvarint, PutUvarint, MaxVarintLen64. rewrite uvarint_loop_put; try done; try lia.
  f_equal; lia.
Qed.

Lemma uvarintLen_loop_put fuel v n :
  (0 < fuel)%nat -> 0 <= v < 2 ^ (7 * Z.of_nat fuel) ->
  uvarintLen_loop fuel v n = n - 1 + zlen (put_uvarint fuel v).
Proof.
  revert v n. induction fuel as [|f IH]; intros v n Hf Hv; [lia|]. cbn.
  destruct (Z.leb_spec 128 v) as [Hb|Hb]; [|rewrite zlen_cons, zlen_nil; lia].
  rewrite zlen_cons, Z.shiftr_div_pow2 by lia.
  assert (Hq : 0 <= v / 2 ^ 7 < 2 ^ (7 * Z.of_nat f)).
  { split; [apply Z.div_pos; lia|]. apply Z.div_lt_upper_bound; [lia|].
    rewrite <- Z.pow_add_r by lia. replace (7 + 7 * Z.of_nat f) with (7 * Z.of_nat (S f)) by lia.
    lia. }
  destruct f as [|f']; [|rewrite IH by lia; lia].
  change (2 ^ (7 * Z.of_nat 0)) with 1 in Hq. change (2 ^ (7 * Z.of_nat 1)) with 128 in Hv. lia.
Qed.

Lemma uvarintLen_put v : 0 <= v < 2 ^ 64 -> uvarintLen v = zlen (PutUvarint v).
Proof.
  intros. unfold uvarintLen, PutUvarint, MaxVarintLen64. rewrite uvarintLen_loop_put; [lia|lia|].
  change (2 ^ (7 * Z.of_nat 10)) with (2 ^ 70). lia.
Qed.

Lemma PutUvarint_pos v : 0 < zlen (PutUvarint v).
Proof.
  unfold PutUvarint, MaxVarintLen64. cbn [put_uvarint]. case_match; zlen_lia.
Qed.

Lemma PutUvarint_max v : zlen (PutUvarint v) <= 10.
Proof.
  unfold PutUvarint. change 10 with (Z.of_nat MaxVarintLen64). generalize MaxVarintLen64 as f. intros f.
  revert v. induction f as [|f IH]; intros v; cbn [put_uvarint]; [done|].
  case_match; [rewrite zlen_cons; specialize (IH (Z.shiftr v 7)); lia|].
  rewrite zlen_cons, zlen_nil. lia.
Qed.

(** ** Representation *)

(** One element as it is laid out, and a whole list of them. *)
Definition enc (x : bytes) : bytes := PutUvarint (zlen x) ++ x.
Definition encs (xs : list bytes) : bytes := concat (enc <$> xs).

(** A listpack represents the list [xs].  The buffer is an allocated Go slice, so its
    length is an [int]. *)
Record repr (lp : Listpack) (xs : list bytes) : Prop := {
  repr_buf : lp_buf lp = encs xs;
  repr_n : lp_n lp = zlen xs;
  repr_int : zlen (encs xs) <= max_int64;
}.

Lemma encs_app xs ys : encs (xs ++ ys) = encs xs ++ encs ys.
Proof. unfold encs. by rewrite fmap_app, concat_app. Qed.

Lemma encs_cons x xs : encs (x :: xs) = PutUvarint (zlen x) ++ x ++ encs xs.
Proof. unfold encs, enc. simpl. by rewrite <- app_assoc. Qed.

Lemma encs_length xs : zlen xs <= zlen (encs xs).
Proof.
  induction xs as [|x xs IH]; [done|]. rewrite encs_cons, zlen_cons, !zlen_app.
  pose proof (PutUvarint_pos (zlen x)). zlen_lia.
Qed.

Lemma encs_split xs i x :
  xs !! i = Some x ->
  encs xs = encs (take i xs) ++ PutUvarint (zlen x) ++ x ++ encs (drop (S i) xs).
Proof.
  intros Hi. rewrite <- (take_drop_middle xs i x Hi) at 1. by rewrite encs_app, encs_cons.
Qed.

(** The payload offsets of [xs] when its encoding starts at [off]. *)
Fixpoint starts_of (off : Z) (xs : list bytes) : list Z :=
  match xs with
  | [] => []
  | x :: r => (off + zlen (PutUvarint (zlen x))) :: starts_of (off + zlen (enc x)) r
  end.

Lemma starts_of_length off xs : length (starts_of off xs) = length xs.
Proof. revert off. induction xs; intros; simpl; [done|]. by f_equal. Qed.

Lemma starts_of_lookup off xs i x :
  xs !! i = Some x ->
  starts_of off xs !! i = Some (off + zlen (encs (take i xs)) + zlen (PutUvarint (zlen x))).
Proof.
  revert off i. induction xs as [|y ys IH]; intros off [|i] Hi; simplify_eq/=.
  - f_equal. change (encs []) with (@nil Z). zlen_lia.
  - rewrite (IH _ _ Hi). f_equal. rewrite encs_cons. unfold enc. rewrite !zlen_app. lia.
Qed.

Lemma zlen_int_uint (x : bytes) : zlen x <= max_int64 -> 0 <= zlen x < 2 ^ 64.
Proof. unfold max_int64. zlen_pose. lia. Qed.

(** One step of a buffer walk: at the start of an element the decoder finds its length and
    the next element begins right after it. *)
Lemma walk_step pre x xs :
  zlen (pre ++ encs (x :: xs)) <= max_int64 ->
  go_slice (pre ++ encs (x :: xs)) (zlen pre) (zlen (pre ++ encs (x :: xs)))
    = Some (encs (x :: xs)) /\
  Uvarint (encs (x :: xs)) = (zlen x, zlen (PutUvarint (zlen x))) /\
  s64 (zlen x) = zlen x /\
  go_slice (pre ++ encs (x :: xs)) (zlen pre + zlen (PutUvarint (zlen x)))
    (zlen pre + zlen (PutUvarint (zlen x)) + zlen x) = Some x /\
  s64 (zlen pre + zlen (PutUvarint (zlen x)) + zlen x) = zlen (pre ++ enc x) /\
  pre ++ encs (x :: xs) = (pre ++ enc x) ++ encs xs.
Proof.
  intros Hint. pose proof (PutUvarint_pos (zlen x)) as Hp.
  assert (Hl : zlen pre + zlen (PutUvarint (zlen x)) + zlen x + zlen (encs xs) <= max_int64).
  { rewrite encs_cons, !zlen_app in Hint. lia. }
  unfold enc. rewrite encs_cons, !zlen_app in *. zlen_pose. repeat split.
  - apply go_slice_suffix; [done|]. rewrite !zlen_app. lia.
  - apply Uvarint_PutUvarint, zlen_int_uint. lia.
  - apply s64_id. unfold is_int64, min_int64. lia.
  - rewrite app_assoc. apply go_slice_mid; rewrite ?zlen_app; lia.
  - rewrite s64_id; [lia|]. unfold is_int64, min_int64. lia.
  - by rewrite <- !app_assoc.
Qed.

Lemma offsets_loop_spec fuel pre xs starts lens :
  (length xs < fuel)%nat -> zlen (pre ++ encs xs) <= max_int64 ->
  offsets_loop fuel (pre ++ encs xs) (zlen pre) starts lens
  = Some (starts ++ starts_of (zlen pre) xs, lens ++ (zlen <$> xs)).
Proof.
  revert pre xs starts lens. induction fuel as [|f IH]; intros pre xs starts lens Hf Hint; [lia|].
  destruct xs as [|x xs]; cbn [offsets_loop].
  { change (encs []) with (@nil Z). rewrite app_nil_r, Z.leb_refl. simpl. by rewrite !app_nil_r. }
  pose proof (PutUvarint_pos (zlen x)).
  destruct (walk_step pre x xs Hint) as (Hs & Hu & H64 & _ & Hnext & Hsplit).
  rewrite Hs, Hu, H64.
  destruct (Z.leb_spec (zlen (pre ++ encs (x :: xs))) (zlen pre)) as [Hle|_].
  { rewrite encs_cons in Hle. zlen_lia. }
  destruct (Z.leb_spec (zlen (PutUvarint (zlen x))) 0); [lia|].
  rewrite Z.add_assoc, Hnext, Hsplit.
  rewrite IH; [|simpl in Hf; lia|by rewrite <- Hsplit].
  cbn [starts_of fmap list_fmap]. rewrite <- !app_assoc, zlen_app. done.
Qed.

(** The walk never fails on a represented buffer and finds exactly its elements. *)
Lemma offsets_repr lp xs : repr lp xs -> offsets lp = Some (starts_of 0 xs, zlen <$> xs).
Proof.
  intros [Hb _ Hint]. unfold offsets. rewrite Hb.
  apply (offsets_loop_spec _ [] xs [] []); [|done].
  pose proof (encs_length xs). unfold zlen in *. lia.
Qed.

(** ** Reading operations *)

(** The walk [ForEach] performs, on the represented list. *)
Fixpoint fold_stop {S} (fn : S -> Z -> bytes -> S * bool) (idx : Z) (xs : list bytes) (st : S) : S :=
  match xs with
  | [] => st
  | x :: r =>
      let '(st', continue) := fn st idx x in
      if negb continue then st' else fold_stop fn (idx + 1) r st'
  end.

Lemma ForEach_loop_spec {S} fuel (fn : S -> Z -> bytes -> S * bool) pre xs idx st :
  (length xs < fuel)%nat -> zlen (pre ++ encs xs) <= max_int64 ->
  ForEach_loop fuel fn (pre ++ encs xs) idx (zlen pre) st = Some (fold_stop fn idx xs st).
Proof.
  revert pre xs idx st. induction fuel as [|f IH]; intros pre xs idx st Hf Hint; [lia|].
  destruct xs as [|x xs]; cbn [ForEach_loop].
  { change (encs []) with (@nil Z). by rewrite app_nil_r, Z.leb_refl. }
  pose proof (PutUvarint_pos (zlen x)).
  destruct (walk_step pre x xs Hint) as (Hs & Hu & H64 & Hx & Hnext & Hsplit).
  rewrite Hs, Hu, H64.
  destruct (Z.leb_spec (zlen (pre ++ encs (x :: xs))) (zlen pre)) as [Hle|_].
  { rewrite encs_cons in Hle. zlen_lia. }
  destruct (Z.leb_spec (zlen (PutUvarint (zlen x))) 0); [lia|].
  rewrite s64_id, Hx; cycle 1.
  { unfold is_int64, min_int64. rewrite encs_cons in Hint. zlen_lia. }
  cbn [fold_stop mbind option_bind]. destruct (fn st idx x) as [st' [|]]; cbn [negb]; [|done].
  rewrite s64_id in Hnext.
  - rewrite Hnext, Hsplit. apply IH; [simpl in Hf; lia|by rewrite <- Hsplit].
  - unfold is_int64, min_int64. rewrite encs_cons in Hint. zlen_lia.
Qed.

Lemma ForEach_repr {S} lp xs (fn : S -> Z -> bytes -> S * bool) st :
  repr lp xs -> ForEach lp fn st = Some (fold_stop fn 0 xs st).
Proof.
  intros [Hb _ Hint]. unfold ForEach. rewrite Hb.
  apply (ForEach_loop_spec _ fn [] xs); [|done].
  pose proof (encs_length xs). unfold zlen in *. lia.
Qed.

Lemma All_repr lp xs : repr lp xs -> All lp = Some xs.
Proof.
  intros H. unfold All. rewrite (ForEach_repr lp xs) by done. f_equal.
  assert (Hg : forall ys idx acc,
    fold_stop (fun out (_ : Z) (v : bytes) => (out ++ [v], true)) idx ys acc = acc ++ ys).
  { induction ys as [|y ys IH]; intros idx acc; simpl; [by rewrite app_nil_r|].
    rewrite IH, <- app_assoc. done. }
  apply Hg.
Qed.

(** The positions [Find] looks at: [start], [start + stride], ... *)
Definition on_stride (start stride i : Z) : Prop := start <= i /\ (i - start) mod stride = 0.

(** The contract of [Find]: the first stride position that holds [val], or [-1]. *)
Definition first_at (xs : list bytes) (val : bytes) (start stride r : Z) : Prop :=
  (r = -1 /\ forall i x, xs !! i = Some x -> on_stride start stride (Z.of_nat i) -> x <> val) \/
  (exists n, r = Z.of_nat n /\ xs !! n = Some val /\ on_stride start stride r /\
     forall i x, (i < n)%nat -> xs !! i = Some x -> on_stride start stride (Z.of_nat i) ->
       x <> val).

Lemma Find_repr lp xs val start stride :
  repr lp xs -> 0 <= start -> 0 < stride ->
  exists r, Find lp val start stride = Some r /\ first_at xs val start stride r.
Proof.
  intros Hr Hst Hsd. unfold Find. rewrite (ForEach_repr lp xs) by done. eexists; split; [done|].
  match goal with |- first_at _ _ _ _ (fold_stop ?f _ _ _) => set (fn := f) end.
  assert (Hg : forall ys pre, xs = pre ++ ys ->
    (forall i x, (i < length pre)%nat -> xs !! i = Some x ->
       on_stride start stride (Z.of_nat i) -> x <> val) ->
    first_at xs val start stride (fold_stop fn (zlen pre) ys (-1))).
  { induction ys as [|y ys IH]; intros pre Hxs Hpre; cbn [fold_stop].
    { left. split; [done|]. intros i x Hi. apply Hpre; [|done].
      apply lookup_lt_Some in Hi. rewrite Hxs, app_nil_r in Hi. done. }
    assert (Hy : xs !! length pre = Some y) by (rewrite Hxs; by apply list_lookup_middle).
    specialize (IH (pre ++ [y])). rewrite zlen_app, zlen_cons, zlen_nil, Z.add_0_r in IH.
    assert (Hstep : forall P : Prop, (on_stride start stride (zlen pre) -> y <> val) ->
      ((forall i x, (i < length (pre ++ [y]))%nat -> xs !! i = Some x ->
       on_stride start stride (Z.of_nat i) -> x <> val) -> P) -> P).
    { intros P HyP HP. apply HP. intros i x Hi Hx Hon. rewrite length_app in Hi. simpl in Hi.
      destruct (decide (i = length pre)) as [->|]; [|apply (Hpre i); [lia|done..]].
      rewrite Hy in Hx. simplify_eq. by apply HyP. }
    unfold fn at 1.
    destruct ((zlen pre <? start) || negb (Z.rem (zlen pre - start) stride =? 0)) eqn:E.
    - cbn [negb]. apply Hstep; [|intros; apply IH; [by rewrite <- app_assoc|done]].
      intros [Hge Hmod]. apply orb_true_iff in E as [E|E]; bool_prop; [lia|].
      by rewrite Z.rem_mod_nonneg in E by lia.
    - case_bool_decide as Heq; cbn [negb].
      + bool_prop. subst y. right. exists (length pre). repeat split; try done.
        rewrite <- Z.rem_mod_nonneg by lia. done.
      + apply Hstep; [done|]. intros; apply IH; [by rewrite <- app_assoc|done]. }
  apply (Hg xs []); [done|]. simpl. lia.
Qed.

(** Where element [i] sits in the buffer, in the terms the operations compute. *)
Lemma locate lp xs i x :
  repr lp xs -> xs !! i = Some x ->
  go_at (starts_of 0 xs) (Z.of_nat i)
    = Some (zlen (encs (take i xs)) + zlen (PutUvarint (zlen x))) /\
  go_at (zlen <$> xs) (Z.of_nat i) = Some (zlen x) /\
  uvarintLen (u64 (zlen x)) = zlen (PutUvarint (zlen x)) /\
  lp_buf lp = encs (take i xs) ++ PutUvarint (zlen x) ++ x ++ encs (drop (S i) xs).
Proof.
  intros [Hb _ Hint] Hi. pose proof (encs_split xs i x Hi) as Hsp.
  assert (0 <= zlen x < 2 ^ 64).
  { apply zlen_int_uint. rewrite Hsp, !zlen_app in Hint. zlen_lia. }
  rewrite !go_at_lookup, Nat2Z.id by lia. repeat split.
  - rewrite (starts_of_lookup 0 xs i x Hi). f_equal.
  - by rewrite list_lookup_fmap, Hi.
  - rewrite u64_id by lia. by apply uvarintLen_put.
  - by rewrite Hb.
Qed.

Lemma Get_repr lp xs i :
  repr lp xs -> Get lp i = Some (if i <? 0 then None else xs !! Z.to_nat i).
Proof.
  intros Hr. unfold Get. rewrite (repr_n _ _ Hr).
  destruct (Z.ltb_spec i 0); [done|]. cbn [orb].
  destruct (Z.leb_spec (zlen xs) i).
  { rewrite lookup_ge_None_2; [done|]. unfold zlen in *. lia. }
  rewrite (offsets_repr _ _ Hr). cbn.
  destruct (Z.leb_spec (zlen (starts_of 0 xs)) i) as [Hl|_].
  { unfold zlen in *. rewrite starts_of_length in Hl. lia. }
  destruct (lookup_lt_is_Some_2 xs (Z.to_nat i)) as [x Hx]; [unfold zlen in *; lia|].
  destruct (locate lp xs _ x Hr Hx) as (H1 & H2 & _ & H4).
  rewrite Z2Nat.id in * by lia. rewrite Hx, H1, H2, H4. cbn.
  rewrite app_assoc, go_slice_mid; [done|by rewrite zlen_app|done].
Qed.

(** ** Mutating operations

    The abstract operations on lists that the methods implement, each with the boolean the
    method returns. *)

Inductive lp_op :=
  | OpAppend (v : bytes)
  | OpReplaceAt (i : Z) (v : bytes)
  | OpDeleteRange (i count : Z)
  | OpInsertAt (i : Z) (v : bytes).

Definition apply_op (lp : Listpack) (o : lp_op) : option (Listpack * bool) :=
  match o with
  | OpAppend v => Some (Append lp v, true)
  | OpReplaceAt i v => ReplaceAt lp i v
  | OpDeleteRange i c => DeleteRange lp i c
  | OpInsertAt i v => InsertAt lp i v
  end.

Definition spec_op (xs : list bytes) (o : lp_op) : list bytes * bool :=
  match o with
  | OpAppend v => (xs ++ [v], true)
  | OpReplaceAt i v =>
      if (i <? 0) || (zlen xs <=? i) then (xs, false) else (<[Z.to_nat i := v]> xs, true)
  | OpDeleteRange i c =>
      if (i <? 0) || (c <=? 0) || (zlen xs <? i + c) then (xs, false)
      else (take (Z.to_nat i) xs ++ drop (Z.to_nat (i + c)) xs, true)
  | OpInsertAt i v =>
      if (i <? 0) || (zlen xs <? i) then (xs, false)
      else (take (Z.to_nat i) xs ++ v :: drop (Z.to_nat i) xs, true)
  end.

(** The arguments are Go [int]s whose sum does not overflow, and the buffer the operation
    builds can be allocated. *)
Definition op_ok (xs : list bytes) (o : lp_op) : Prop :=
  zlen (encs (spec_op xs o).1) <= max_int64 /\
  match o with OpDeleteRange i c => (i + c <= max_int64) | _ => True end.

Lemma Append_repr lp xs v :
  repr lp xs -> zlen (encs (xs ++ [v])) <= max_int64 -> repr (Append lp v) (xs ++ [v]).
Proof.
  intros [Hb Hn Hint] Hfit. unfold Append. split; simpl; [|zlen_lia|done].
  rewrite Hb, encs_app, encs_cons. change (encs []) with (@nil Z). by rewrite app_nil_r.
Qed.

Lemma ReplaceAt_repr lp xs i v :
  repr lp xs -> op_ok xs (OpReplaceAt i v) ->
  exists lp', ReplaceAt lp i v = Some (lp', (spec_op xs (OpReplaceAt i v)).2) /\
    repr lp' (spec_op xs (OpReplaceAt i v)).1.
Proof.
  intros Hr [Hfit _]. unfold ReplaceAt. cbn [spec_op] in *. rewrite (repr_n _ _ Hr).
  destruct ((i <? 0) || (zlen xs <=? i)) eqn:E; [by exists lp|]. bool_prop. cbn [fst snd] in *.
  rewrite (offsets_repr _ _ Hr). go_bind.
  destruct (Z.leb_spec (zlen (starts_of 0 xs)) i) as [Hl|_].
  { unfold zlen in *. rewrite starts_of_length in Hl. lia. }
  destruct (lookup_lt_is_Some_2 xs (Z.to_nat i)) as [x Hx]; [unfold zlen in *; lia|].
  destruct (locate lp xs _ x Hr Hx) as (H1 & H2 & H3 & H4).
  rewrite Z2Nat.id in * by lia. rewrite H1, H2. go_bind. rewrite H3, H4.
  rewrite (go_slice_prefix (encs _)) by lia. go_bind.
  rewrite (app_assoc _ x), app_assoc.
  rewrite go_slice_suffix by (rewrite !zlen_app; lia). go_bind.
  eexists; split; [done|]. split; simpl; [|by rewrite zlen_insert|done].
  rewrite insert_take_drop by (apply lookup_lt_Some in Hx; lia).
  by rewrite encs_app, encs_cons.
Qed.

Lemma InsertAt_repr lp xs i v :
  repr lp xs -> op_ok xs (OpInsertAt i v) ->
  exists lp', InsertAt lp i v = Some (lp', (spec_op xs (OpInsertAt i v)).2) /\
    repr lp' (spec_op xs (OpInsertAt i v)).1.
Proof.
  intros Hr [Hfit _]. unfold InsertAt. cbn [spec_op] in *. rewrite (repr_n _ _ Hr).
  destruct ((i <? 0) || (zlen xs <? i)) eqn:E; [by exists lp|]. bool_prop. cbn [fst snd] in *.
  destruct (Z.eqb_spec i (zlen xs)) as [->|Hne].
  { replace (Z.to_nat (zlen xs)) with (length xs) in * by (unfold zlen; lia).
    rewrite firstn_all, drop_all in *. eexists; split; [done|]. by apply Append_repr. }
  rewrite (offsets_repr _ _ Hr). go_bind.
  destruct (lookup_lt_is_Some_2 xs (Z.to_nat i)) as [x Hx]; [unfold zlen in *; lia|].
  destruct (locate lp xs _ x Hr Hx) as (H1 & H2 & H3 & H4).
  rewrite Z2Nat.id in * by lia. rewrite H1, H2. go_bind. rewrite H3, H4.
  rewrite (go_slice_prefix (encs _)) by lia. go_bind.
  rewrite go_slice_suffix by (rewrite ?zlen_app; lia). go_bind.
  eexists; split; [done|]. split; simpl; [|rewrite zlen_app, zlen_cons|done].
  - rewrite (drop_S _ _ _ Hx), encs_app, !encs_cons. done.
  - unfold zlen in *. rewrite length_take, length_drop. lia.
Qed.

Lemma DeleteRange_repr lp xs i c :
  repr lp xs -> op_ok xs (OpDeleteRange i c) ->
  exists lp', DeleteRange lp i c = Some (lp', (spec_op xs (OpDeleteRange i c)).2) /\
    repr lp' (spec_op xs (OpDeleteRange i c)).1.
Proof.
  intros Hr [Hfit Hic]. unfold DeleteRange. cbn [spec_op] in *. rewrite (repr_n _ _ Hr).
  destruct ((i <? 0) || (c <=? 0)) eqn:E; cbn [orb] in *; [by exists lp|]. bool_prop.
  assert (Hs : s64 (i + c) = i + c) by (apply s64_id; unfold is_int64, min_int64; lia).
  assert (Hs' : s64 (i + c - 1) = i + c - 1) by (apply s64_id; unfold is_int64, min_int64; lia).
  rewrite Hs, Hs'. destruct (Z.ltb_spec (zlen xs) (i + c)); [by exists lp|].
  rewrite (offsets_repr _ _ Hr). cbn [fst snd] in *. go_bind.
  destruct (Z.ltb_spec (zlen (starts_of 0 xs)) (i + c)) as [Hl|_].
  { unfold zlen in *. rewrite starts_of_length in Hl. lia. }
  destruct (lookup_lt_is_Some_2 xs (Z.to_nat i)) as [x Hx]; [unfold zlen in *; lia|].
  destruct (lookup_lt_is_Some_2 xs (Z.to_nat (i + c - 1))) as [y Hy]; [unfold zlen in *; lia|].
  destruct (locate lp xs _ x Hr Hx) as (L1 & L2 & L3 & L4).
  destruct (locate lp xs _ y Hr Hy) as (K1 & K2 & K3 & K4).
  rewrite Z2Nat.id in * by lia. rewrite L1, L2. go_bind. rewrite K1, K2, L3. go_bind.
  assert (Ha : go_slice (lp_buf lp) 0 (zlen (encs (take (Z.to_nat i) xs)) +
      zlen (PutUvarint (zlen x)) - zlen (PutUvarint (zlen x))) = Some (encs (take (Z.to_nat i) xs)))
    by (rewrite L4; apply go_slice_prefix; lia).
  rewrite Ha. go_bind.
  rewrite K4, (app_assoc _ y), app_assoc, go_slice_suffix by (rewrite !zlen_app; lia). go_bind.
  replace (S (Z.to_nat (i + c - 1))) with (Z.to_nat (i + c)) in * by lia.
  eexists; split; [done|]. split; simpl; [|rewrite zlen_app|done].
  - by rewrite encs_app.
  - unfold zlen in *. rewrite length_take, length_drop. lia.
Qed.

Lemma apply_op_repr lp xs o :
  repr lp xs -> op_ok xs o ->
  exists lp', apply_op lp o = Some (lp', (spec_op xs o).2) /\ repr lp' (spec_op xs o).1.
Proof.
  intros Hr Hok. destruct o; cbn [apply_op].
  - eexists; split; [done|]. apply Append_repr; [done|apply Hok].
  - by apply ReplaceAt_repr.
  - by apply DeleteRange_repr.
  - by apply InsertAt_repr.
Qed.

(** *** Whole histories *)

Fixpoint run_ops (lp : Listpack) (os : list lp_op) : option (Listpack * list bool) :=
  match os with
  | [] => Some (lp, [])
  | o :: os' =>
      '(lp1, b) ← apply_op lp o; '(lp2, bs) ← run_ops lp1 os'; Some (lp2, b :: bs)
  end.

Fixpoint spec_ops (xs : list bytes) (os : list lp_op) : list bytes * list bool :=
  match os with
  | [] => (xs, [])
  | o :: os' => let '(ys, bs) := spec_ops (spec_op xs o).1 os' in (ys, (spec_op xs o).2 :: bs)
  end.

Fixpoint ops_ok (xs : list bytes) (os : list lp_op) : Prop :=
  match os with [] => True | o :: os' => op_ok xs o /\ ops_ok (spec_op xs o).1 os' end.

Lemma run_ops_repr os lp xs :
  repr lp xs -> ops_ok xs os ->
  exists lp', run_ops lp os = Some (lp', (spec_ops xs os).2) /\ repr lp' (spec_ops xs os).1.
Proof.
  revert lp xs. induction os as [|o os IH]; intros lp xs Hr Hok; [by exists lp|].
  destruct Hok as [Ho Hos]. destruct (apply_op_repr lp xs o Hr Ho) as (lp1 & H1 & Hr1).
  destruct (IH lp1 _ Hr1 Hos) as (lp2 & H2 & Hr2). cbn. rewrite H1. cbn. rewrite H2. cbn.
  destruct (spec_ops (spec_op xs o).1 os). by exists lp2.
Qed.

Lemma New_repr : repr New [].
Proof. split; [done..|]. unfold max_int64. change (zlen (encs [])) with 0. lia. Qed.

#[export] Hint Resolve New_repr Append_repr : go.

(** ** Properties *)

(** C25. Refinement.  Any history of [Append], [ReplaceAt], [DeleteRange] and [InsertAt] calls
    on a fresh listpack runs without a panic, returns the booleans the list specification
    returns, and leaves a listpack on which [All], [Len] and every [Get] (out-of-range indices
    included) answer as the resulting list does. *)
Theorem listpack_history os :
  ops_ok [] os ->
  exists lp, run_ops New os = Some (lp, (spec_ops [] os).2) /\
    All lp = Some (spec_ops [] os).1 /\ Len lp = zlen (spec_ops [] os).1 /\
    forall i, Get lp i = Some (if i <? 0 then None else (spec_ops [] os).1 !! Z.to_nat i).
Proof.
  intros Hok. destruct (run_ops_repr os New [] New_repr Hok) as (lp & Hrun & Hr).
  exists lp. split; [done|]. split; [by apply All_repr|].
  split; [apply Hr|]. intros i. by apply Get_repr.
Qed.

Definition demo_ops : list lp_op :=
  [OpAppend (str "field"); OpAppend (str "v"); OpInsertAt 0 (str "x"); OpReplaceAt 2 (str "long value");
   OpDeleteRange 0 1; OpReplaceAt 7 (str "out of range"); OpInsertAt 2 []].

Lemma listpack_history_witness :
  ops_ok [] demo_ops /\
  (exists lp, run_ops New demo_ops = Some (lp, [true; true; true; true; true; false; true]) /\
    All lp = Some [str "field"; str "long value"; []]).
Proof.
  assert (Hok : ops_ok [] demo_ops) by (repeat split; vm_compute; congruence).
  split; [exact Hok|].
  destruct (listpack_history demo_ops Hok) as (lp & Hrun & Hall & _). exists lp. split.
  - rewrite Hrun. vm_compute. reflexivity.
  - rewrite Hall. vm_compute. reflexivity.
Defined.

(** Search.  On a listpack that holds [xs], [Find val start stride] terminates and returns
    the first position of the form [start + k * stride] whose element equals [val], or [-1]
    when there is none.  With stride 2 this is the field lookup of a packed hash. *)
Theorem listpack_find_first lp xs val start stride :
  repr lp xs -> 0 <= start -> 0 < stride ->
  exists r, Find lp val start stride = Some r /\ first_at xs val start stride r.
Proof. apply Find_repr. Qed.

Lemma listpack_find_first_witness :
  exists r, Find (Append (Append New (str "k")) (str "k")) (str "k") 1 2 = Some r /\
    first_at [str "k"; str "k"] (str "k") 1 2 r.
Proof.
  apply listpack_find_first; [|lia|lia].
  apply (Append_repr _ [str "k"]); [apply (Append_repr _ [])|]; [apply New_repr|..];
    vm_compute; congruence.
Defined.

(** Codec round trip.  The uvarint header written for a length decodes to that length,
    consumes exactly the bytes written whatever follows them, and is as long as [uvarintLen]
    says: what keeps a listpack parseable from the front. *)
Theorem uvarint_roundtrip v rest :
  0 <= v < 2 ^ 64 ->
  Uvarint (PutUvarint v ++ rest) = (v, uvarintLen v) /\ 1 <= uvarintLen v <= 10.
Proof.
  intros Hv. rewrite Uvarint_PutUvarint, uvarintLen_put by done. split; [done|].
  pose proof (PutUvarint_pos v). pose proof (PutUvarint_max v). lia.
Qed.

Lemma uvarint_roundtrip_witness :
  Uvarint (PutUvarint 18446744073709551615 ++ [7]) = (18446744073709551615, 10).
Proof. exact (proj1 (uvarint_roundtrip 18446744073709551615 [7] ltac:(lia))). Defined.
