(* ===== verification/Intset.v ===== *)
(** * Intset: the sorted-array encoding of integer sets

    [datastruct/intset/intset.go].  The set is one sorted, duplicate-free [[]int64]; membership
    is [sort.Search]'s binary search.  The file models every method and shows that they
    implement a mathematical set of integers, and that [Parse] accepts exactly the canonical
    decimal strings, so that a member survives the trip through the integer encoding. *)

From S2P Require Import Prelude Strconv.
Local Open Scope Z_scope.

Record IntSet := mkIs { vals : list Z }.

Definition New : IntSet := mkIs [].
Definition Len (st : IntSet) : Z := zlen (vals st).

(** [Parse]: [ParseInt] followed by the check that the number renders back identically. *)
Definition Parse (s : bytes) : option Z :=
  if (zlen s =? 0) || (20 <? zlen s) then None
  else match ParseInt s with
       | None => None
       | Some n => if bool_decide (FormatInt n = s) then Some n else None
       end.

(** [sort.Search(n, func(i) vals[i] >= v)]: the interval halving loop.  [None] is an index
    panic or exhausted fuel; the interval shrinks at every turn, so [n + 1] turns are enough. *)
Fixpoint search_loop (fuel : nat) (vs : list Z) (v i j : Z) : option Z :=
  match fuel with
  | O => None
  | S f =>
      if i <? j then
        let h := Z.shiftr (i + j) 1 in
        x ← go_at vs h;
        if x <? v then search_loop f vs v (h + 1) j else search_loop f vs v i h
      else Some i
  end.

Definition search (st : IntSet) (v : Z) : option (Z * bool) :=
  i ← search_loop (S (length (vals st))) (vals st) v 0 (zlen (vals st));
  if i <? zlen (vals st) then (x ← go_at (vals st) i; Some (i, x =? v)) else Some (i, false).

(** [copy(l[d:], l[s:])] within one array: Go's [copy] moves as many elements as fit and
    handles the overlap. *)
Definition copy_within (l : list Z) (d s : Z) : option (list Z) :=
  if (0 <=? d) && (d <=? zlen l) && (0 <=? s) && (s <=? zlen l) then
    let m := Z.min (zlen l - d) (zlen l - s) in
    Some (take (Z.to_nat d) l ++ take (Z.to_nat m) (drop (Z.to_nat s) l)
          ++ drop (Z.to_nat (d + m)) l)
  else None.

Definition Add (st : IntSet) (v : Z) : option (IntSet * bool) :=
  '(i, found) ← search st v;
  if found : bool then Some (st, false)
  else
    let vs := vals st ++ [0] in
    vs' ← copy_within vs (i + 1) i;
    vs'' ← go_set vs' i v;
    Some (mkIs vs'', true).

Definition Remove (st : IntSet) (v : Z) : option (IntSet * bool) :=
  '(i, found) ← search st v;
  if negb found then Some (st, false)
  else
    a ← go_slice (vals st) 0 i;
    b ← go_slice (vals st) (i + 1) (zlen (vals st));
    Some (mkIs (a ++ b), true).

Definition Contains (st : IntSet) (v : Z) : option bool :=
  '(_, found) ← search st v; Some found.

Definition Members (st : IntSet) : list bytes := FormatInt <$> vals st.
Definition Values (st : IntSet) : list Z := vals st.

(** ** The invariant and the binary search *)

Definition wf (st : IntSet) : Prop := StronglySorted Z.lt (vals st).
Definition to_set (st : IntSet) : gset Z := list_to_set (vals st).

Lemma sorted_lookup_lt l i j x y :
  StronglySorted Z.lt l -> l !! i = Some x -> l !! j = Some y -> (i < j)%nat -> x < y.
Proof.
  intros Hs. revert i j. induction Hs as [|a l Hl IH Hall]; intros i j Hi Hj Hij; [done|].
  destruct j as [|j]; [lia|]. destruct i as [|i]; simpl in *.
  - simplify_eq. rewrite Forall_forall in Hall. apply Hall. by eapply list_elem_of_lookup_2.
  - eapply IH; eauto. lia.
Qed.

Lemma search_loop_spec fuel vs v i j :
  StronglySorted Z.lt vs -> 0 <= i <= j -> j <= zlen vs -> (Z.to_nat (j - i) < fuel)%nat ->
  (forall k x, Z.of_nat k < i -> vs !! k = Some x -> x < v) ->
  (forall k x, j <= Z.of_nat k -> vs !! k = Some x -> v <= x) ->
  exists r : nat, search_loop fuel vs v i j = Some (Z.of_nat r) /\ Z.of_nat r <= zlen vs /\
    (forall k x, (k < r)%nat -> vs !! k = Some x -> x < v) /\
    (forall k x, (r <= k)%nat -> vs !! k = Some x -> v <= x).
Proof.
  intros Hs. revert i j. induction fuel as [|f IH]; intros i j Hij Hj Hf Hlo Hhi; [lia|].
  cbn [search_loop]. destruct (Z.ltb_spec i j) as [Hlt|Hge].
  - rewrite Z.shiftr_div_pow2 by lia. change (2 ^ 1) with 2. set (h := (i + j) / 2).
    assert (Hh : i <= h < j) by (unfold h; div_lia).
    destruct (go_at_some vs h) as [x Hx]; [lia|]. rewrite Hx. go_bind.
    rewrite go_at_lookup in Hx by lia.
    destruct (Z.ltb_spec x v) as [Hxv|Hxv]; apply IH; try lia; try done.
    + intros k y Hk Hy. destruct (decide (k = Z.to_nat h)) as [->|];
        [rewrite Hx in Hy; simplify_eq; lia|].
      assert (y < x) by (eapply (sorted_lookup_lt vs k); eauto; lia). lia.
    + intros k y Hk Hy. destruct (decide (k = Z.to_nat h)) as [->|];
        [rewrite Hx in Hy; simplify_eq; lia|].
      assert (x < y) by (eapply (sorted_lookup_lt vs _ k); eauto; lia). lia.
  - exists (Z.to_nat i). rewrite Z2Nat.id by lia. repeat split; [lia|..]; intros k x Hk Hx.
    + apply (Hlo k); [lia|done].
    + apply (Hhi k); [lia|done].
Qed.

(** The search lands on the number of smaller members, and finds exactly the members. *)
Lemma search_spec st v :
  wf st ->
  exists r, search st v = Some (Z.of_nat r, bool_decide (v ∈ vals st)) /\ (r <= length (vals st))%nat /\
    (forall k x, (k < r)%nat -> vals st !! k = Some x -> x < v) /\
    (forall k x, (r <= k)%nat -> vals st !! k = Some x -> v <= x) /\
    (v ∈ vals st -> vals st !! r = Some v).
Proof.
  intros Hwf. unfold search. set (vs := vals st) in *. zlen_pose.
  destruct (search_loop_spec (S (length vs)) vs v 0 (zlen vs)) as (r & Hr & Hle & Hlo & Hhi);
    [done|lia|lia|unfold zlen; lia|lia| |].
  { intros k x Hk Hx. apply lookup_lt_Some in Hx. unfold zlen in Hk. lia. }
  assert (Hin : v ∈ vs -> vs !! r = Some v).
  { intros [k Hk]%list_elem_of_lookup. destruct (Nat.lt_trichotomy k r) as [Hlt|[->|Hgt]]; [|done|].
    - pose proof (Hlo k v Hlt Hk). lia.
    - destruct (lookup_lt_is_Some_2 vs r) as [y Hy].
      { apply lookup_lt_Some in Hk. lia. }
      pose proof (Hhi r y ltac:(lia) Hy).
      pose proof (sorted_lookup_lt vs r k y v Hwf Hy Hk Hgt). lia. }
  exists r. rewrite Hr. go_bind. split; [|split; [unfold zlen in *; lia|done]].
  destruct (Z.ltb_spec (Z.of_nat r) (zlen vs)) as [Hl|Hl].
  - destruct (go_at_some vs (Z.of_nat r)) as [y Hy]; [lia|]. rewrite Hy. go_bind.
    rewrite go_at_lookup, Nat2Z.id in Hy by lia.
    destruct (Z.eqb_spec y v) as [->|Hne].
    + rewrite bool_decide_true; [done|]. by eapply list_elem_of_lookup_2.
    + rewrite bool_decide_false; [done|]. intros Hv%Hin. congruence.
  - rewrite bool_decide_false; [done|]. intros Hv%Hin%lookup_lt_Some. unfold zlen in Hl. lia.
Qed.

Lemma sorted_split l r v :
  (forall k x, (k < r)%nat -> l !! k = Some x -> x < v) ->
  (forall k x, (r <= k)%nat -> l !! k = Some x -> v <= x) ->
  Forall (fun x => x < v) (take r l) /\ Forall (fun x => v <= x) (drop r l).
Proof.
  intros Hlo Hhi. split; apply Forall_lookup; intros k x Hk.
  - apply lookup_take_Some in Hk as [Hk ?]. by eapply Hlo.
  - rewrite lookup_drop in Hk. eapply Hhi; [|done]. lia.
Qed.

Lemma sorted_NoDup (l : list Z) : StronglySorted Z.lt l -> NoDup l.
Proof.
  induction 1 as [|a l Hl IH Hall]; constructor; [|done].
  intros Hin. rewrite Forall_forall in Hall. specialize (Hall a Hin). lia.
Qed.

Lemma StronglySorted_app_iff (l k : list Z) :
  StronglySorted Z.lt (l ++ k) <->
  StronglySorted Z.lt l /\ StronglySorted Z.lt k /\ forall x y, x ∈ l -> y ∈ k -> x < y.
Proof.
  induction l as [|a l IH]; simpl.
  - split; [intros H; repeat split; [constructor|done|]|by intros (_ & ? & _)].
    intros x y Hx. by apply elem_of_nil in Hx.
  - split.
    + intros H. apply StronglySorted_inv in H as [H Hall]. apply IH in H as (Hl & Hk & Hlk).
      rewrite Forall_app in Hall. destruct Hall as [Ha Hb]. repeat split; [by constructor|done|].
      intros x y Hx Hy. apply elem_of_cons in Hx as [->|Hx]; [|by apply Hlk].
      rewrite Forall_forall in Hb. by apply Hb.
    + intros (Hl & Hk & Hlk). apply StronglySorted_inv in Hl as [Hl Hall]. constructor.
      * apply IH. repeat split; [done..|]. intros; apply Hlk; [by right|done].
      * rewrite Forall_app. split; [done|]. apply Forall_forall. intros y Hy.
        apply Hlk; [by left|done].
Qed.

(** ** The operations *)

Lemma New_wf : wf New.
Proof. constructor. Qed.

Lemma copy_within_shift (l k : list Z) (x i : Z) :
  i = zlen l -> copy_within (l ++ k ++ [x]) (i + 1) i = Some (l ++ take 1 (k ++ [x]) ++ k).
Proof.
  intros ->. unfold copy_within. rewrite !zlen_app; change (zlen [x]) with 1. zlen_pose.
  replace (_ && _) with true by (symmetry; rewrite !andb_true_iff, !Z.leb_le; lia).
  f_equal. replace (Z.min _ _) with (zlen k) by lia.
  replace (Z.to_nat (zlen l + 1)) with (length l + 1)%nat by (unfold zlen; lia).
  replace (Z.to_nat (zlen l)) with (length l) by (unfold zlen; lia).
  replace (Z.to_nat (zlen k)) with (length k) by (unfold zlen; lia).
  replace (Z.to_nat (zlen l + 1 + zlen k)) with (length (l ++ k ++ [x]))
    by (rewrite !length_app; unfold zlen; simpl; lia).
  rewrite drop_all, app_nil_r, drop_app_length, take_app_length, take_app_add, <- app_assoc. done.
Qed.

Lemma Add_spec st v :
  wf st ->
  exists st', Add st v = Some (st', bool_decide (v ∉ vals st)) /\ wf st' /\
    to_set st' = {[v]} ∪ to_set st.
Proof.
  intros Hwf. unfold Add.
  destruct (search_spec st v Hwf) as (r & -> & Hle & Hlo & Hhi & Hin). go_bind.
  case_bool_decide as Hv.
  { exists st. rewrite bool_decide_false by tauto. repeat split; [done|].
    apply set_eq. intros x. unfold to_set. rewrite elem_of_union, elem_of_singleton,
      elem_of_list_to_set. naive_solver. }
  rewrite bool_decide_true by done.
  destruct (sorted_split (vals st) r v Hlo Hhi) as [Hl Hr].
  assert (Hzl : Z.of_nat r = zlen (take r (vals st))) by (unfold zlen; rewrite length_take; lia).
  pose proof (copy_within_shift (take r (vals st)) (drop r (vals st)) 0 _ Hzl) as Hcp.
  rewrite app_assoc, take_drop in Hcp. rewrite Hcp. go_bind.
  destruct (drop r (vals st) ++ [0]) as [|y t] eqn:Et; [by destruct (drop r (vals st))|].
  cbn [take app]. rewrite (go_set_mid _ _ v) by done. go_bind.
  eexists; split; [done|]. unfold wf, to_set in *. cbn [vals].
  rewrite <- (take_drop r (vals st)) in Hwf. apply StronglySorted_app_iff in Hwf as (Ha & Hb & Hab).
  assert (Hgt : Forall (Z.lt v) (drop r (vals st))).
  { rewrite Forall_forall in Hr |- *. intros x Hx. specialize (Hr x Hx).
    assert (x <> v); [|lia]. intros ->. apply Hv. rewrite <- (take_drop r (vals st)).
    apply elem_of_app. by right. }
  split.
  - apply StronglySorted_app_iff. repeat split; [done|by constructor|].
    intros x z Hx Hz. apply elem_of_cons in Hz as [->|Hz]; [|by apply Hab].
    rewrite Forall_forall in Hl. by apply Hl.
  - rewrite <- (take_drop r (vals st)) at 3.
    rewrite !list_to_set_app_L. simpl. set_solver.
Qed.

Lemma Remove_spec st v :
  wf st ->
  exists st', Remove st v = Some (st', bool_decide (v ∈ vals st)) /\ wf st' /\
    to_set st' = to_set st ∖ {[v]}.
Proof.
  intros Hwf. unfold Remove.
  destruct (search_spec st v Hwf) as (r & -> & Hle & Hlo & Hhi & Hin). go_bind.
  case_bool_decide as Hv; cbn [negb]; cycle 1.
  { exists st. repeat split; [done|]. unfold to_set. set_solver. }
  specialize (Hin Hv). pose proof (take_drop_middle _ _ _ Hin) as Hsp.
  assert (Hzl : Z.of_nat r = zlen (take r (vals st))) by (unfold zlen; rewrite length_take; lia).
  unfold wf, to_set in *. set (a := take r (vals st)) in *. set (b := drop (S r) (vals st)) in *.
  rewrite <- Hsp in *. clear Hsp.
  rewrite go_slice_prefix by done. go_bind.
  change (v :: b) with ([v] ++ b) at 1 2. rewrite app_assoc, go_slice_suffix
    by (rewrite !zlen_app; change (zlen [v]) with 1; lia). go_bind.
  eexists; split; [done|]. cbn [vals].
  apply StronglySorted_app_iff in Hwf as (Ha & Hvb & Hab).
  apply StronglySorted_inv in Hvb as [Hb Hvb]. rewrite Forall_forall in Hvb. split.
  - apply StronglySorted_app_iff. repeat split; [done..|]. intros; apply Hab; [done|by right].
  - apply set_eq. intros x. rewrite elem_of_difference, !elem_of_list_to_set, !elem_of_app,
      elem_of_cons, elem_of_singleton. split; [|tauto]. intros [Hx|Hx]; (split; [tauto|]); intros ->.
    + specialize (Hab v v Hx ltac:(by left)). lia.
    + specialize (Hvb v Hx). lia.
Qed.

Lemma Contains_spec st v : wf st -> Contains st v = Some (bool_decide (v ∈ vals st)).
Proof.
  intros Hwf. unfold Contains. destruct (search_spec st v Hwf) as (r & -> & _). done.
Qed.

(** *** Whole histories *)

Inductive is_op := OpAdd (v : Z) | OpRemove (v : Z).

Definition apply_op (st : IntSet) (o : is_op) : option (IntSet * bool) :=
  match o with OpAdd v => Add st v | OpRemove v => Remove st v end.

Definition spec_op (s : gset Z) (o : is_op) : gset Z * bool :=
  match o with
  | OpAdd v => ({[v]} ∪ s, bool_decide (v ∉ s))
  | OpRemove v => (s ∖ {[v]}, bool_decide (v ∈ s))
  end.

Fixpoint run_ops (st : IntSet) (os : list is_op) : option (IntSet * list bool) :=
  match os with
  | [] => Some (st, [])
  | o :: os' =>
      '(st1, b) ← apply_op st o; '(st2, bs) ← run_ops st1 os'; Some (st2, b :: bs)
  end.

Fixpoint spec_ops (s : gset Z) (os : list is_op) : gset Z * list bool :=
  match os with
  | [] => (s, [])
  | o :: os' => let '(s', bs) := spec_ops (spec_op s o).1 os' in (s', (spec_op s o).2 :: bs)
  end.

Lemma run_ops_spec os st :
  wf st ->
  exists st', run_ops st os = Some (st', (spec_ops (to_set st) os).2) /\ wf st' /\
    to_set st' = (spec_ops (to_set st) os).1.
Proof.
  revert st. induction os as [|o os IH]; intros st Hwf; [by exists st|]. cbn [run_ops spec_ops].
  assert (Hstep : exists st1, apply_op st o = Some (st1, (spec_op (to_set st) o).2) /\ wf st1 /\
      to_set st1 = (spec_op (to_set st) o).1).
  { destruct o as [v|v]; cbn [apply_op spec_op fst snd].
    - destruct (Add_spec st v Hwf) as (st1 & -> & ? & ?). exists st1. repeat split; try done.
      do 2 f_equal. apply bool_decide_ext. unfold to_set. by rewrite elem_of_list_to_set.
    - destruct (Remove_spec st v Hwf) as (st1 & -> & ? & ?). exists st1. repeat split; try done.
      do 2 f_equal. apply bool_decide_ext. unfold to_set. by rewrite elem_of_list_to_set. }
  destruct Hstep as (st1 & -> & Hwf1 & Hset). go_bind.
  destruct (IH st1 Hwf1) as (st2 & -> & Hwf2 & Hset2). go_bind. rewrite Hset in *.
  destruct (spec_ops (spec_op (to_set st) o).1 os). by exists st2.
Qed.

(** ** Parsing members *)

Lemma Parse_canonical s n : Parse s = Some n -> s = FormatInt n /\ is_int64 n.
Proof.
  unfold Parse. case_match; [done|]. destruct (ParseInt s) as [m|] eqn:E; [|done].
  case_bool_decide as Hf; [|done]. intros [= <-]. split; [done|]. by eapply ParseInt_bounds.
Qed.

Lemma digits_val_lower acc s :
  0 <= acc -> Forall is_digit s -> acc * 10 ^ Z.of_nat (length s) <= digits_val acc s.
Proof.
  intros Ha Hs. revert acc Ha. induction Hs as [|c s Hc Hs IH]; intros acc Ha;
    cbn [length digits_val]; [lia|].
  unfold is_digit in Hc. rewrite Nat2Z.inj_succ, Z.pow_succ_r by lia.
  specialize (IH (acc * 10 + (c - 48)) ltac:(lia)).
  assert (0 < 10 ^ Z.of_nat (length s)) by (apply Z.pow_pos_nonneg; lia). nia.
Qed.

Lemma FormatUint_length n : 0 <= n < 10 ^ 19 -> zlen (FormatUint n) <= 19.
Proof.
  intros Hn. destruct (FormatUint_spec n) as (Hd & Hne & Hv & Hlead); [lia|].
  destruct (FormatUint n) as [|c s] eqn:E; [done|].
  destruct (decide (c = 48)) as [->|Hc].
  { pose proof (Hlead 48 s eq_refl eq_refl) as H0. clear Hv. subst n. vm_compute in E.
    simplify_eq. zlen_lia. }
  apply Forall_cons in Hd as [Hc1 Hd]. unfold is_digit in Hc1. simpl in Hv.
  pose proof (digits_val_lower (0 * 10 + (c - 48)) s ltac:(lia) Hd) as Hlow. rewrite zlen_cons.
  destruct (Z.le_gt_cases (zlen s) 18) as [|Hgt]; [lia|]. exfalso.
  assert (10 ^ 19 <= 10 ^ Z.of_nat (length s)) by (apply Z.pow_le_mono_r; unfold zlen in Hgt; lia).
  simpl in Hlow. nia.
Qed.

Lemma Parse_FormatInt n : is_int64 n -> Parse (FormatInt n) = Some n.
Proof.
  intros Hn. unfold Parse. rewrite ParseInt_FormatInt by done.
  rewrite bool_decide_true by done.
  assert (Hlen : 0 < zlen (FormatInt n) <= 20); [|replace (_ || _) with false by lia; done].
  unfold is_int64, min_int64, max_int64 in Hn.
  pose proof (FormatInt_not_nil n) as Hne. unfold FormatInt in *.
  destruct (Z.ltb_spec n 0).
  - pose proof (FormatUint_length (- n)). rewrite zlen_cons. zlen_pose. lia.
  - pose proof (FormatUint_length n). destruct (FormatUint n); [done|]. rewrite zlen_cons in *.
    zlen_pose. lia.
Qed.

(** ** Properties *)

(** C26. Refinement.  Any history of [Add] and [Remove] on a fresh intset runs without a panic
    and returns the booleans of the set specification; afterwards the array is strictly sorted
    (the invariant the binary search needs), [Contains] decides membership in that set and
    [Values] lists each member once, in increasing order. *)
Theorem intset_history os :
  exists st, run_ops New os = Some (st, (spec_ops ∅ os).2) /\ wf st /\
    (forall v, Contains st v = Some (bool_decide (v ∈ (spec_ops ∅ os).1))) /\
    NoDup (Values st) /\ list_to_set (Values st) = (spec_ops ∅ os).1.
Proof.
  destruct (run_ops_spec os New New_wf) as (st & Hrun & Hwf & Hset).
  change (to_set New) with (∅ : gset Z) in *. exists st. split; [done|]. split; [done|].
  unfold to_set in Hset. rewrite <- Hset. split; [|split; [|done]].
  - intros v. rewrite Contains_spec by done. f_equal. apply bool_decide_ext.
    by rewrite elem_of_list_to_set.
  - by apply sorted_NoDup.
Qed.

(** [Parse] accepts a member exactly when it is the canonical decimal form of an [int64]:
    "012", "+1" or an out-of-range number stay out of the encoding, and what it accepts renders
    back to the same bytes. *)
Theorem intset_parse_canonical s n :
  Parse s = Some n <-> s = FormatInt n /\ is_int64 n.
Proof.
  split; [apply Parse_canonical|]. intros [-> Hn]. by apply Parse_FormatInt.
Qed.
