(* ===== verification/Backlog.v ===== *)
(** * Replication backlog

    [replication/backlog.go].  A fixed-size ring buffer keeps the most recent bytes of the
    replication stream, addressed by their global offset.  The file models the ring with its
    write pointer and shows that a replica that may resume partially is given exactly the bytes
    it missed. *)

From S2P Require Import Prelude.
Local Open Scope Z_scope.

Record Backlog := mkBl {
  bl_buf : bytes;
  bl_size : Z;
  firstOffset : Z;
  lastOffset : Z;
  bl_head : Z;
}.

Definition NewBacklog (capacity : Z) : Backlog :=
  let capacity := if capacity <=? 0 then 1024 * 1024 else capacity in
  mkBl (replicate (Z.to_nat capacity) 0) capacity 0 0 0.

(** The write loop of [Feed]: one byte at the write pointer, which wraps around. *)
Fixpoint feed_loop (buf : bytes) (size head : Z) (data : bytes) : option (bytes * Z) :=
  match data with
  | [] => Some (buf, head)
  | b :: data' =>
      buf' ← go_set buf head b;
      feed_loop buf' size (Z.rem (head + 1) size) data'
  end.

Definition Feed (b : Backlog) (data : bytes) : option Backlog :=
  let n := zlen data in
  if n =? 0 then Some b
  else
    '(buf, head) ← feed_loop (bl_buf b) (bl_size b) (bl_head b) data;
    let last := s64 (lastOffset b + n) in
    let first := if bl_size b <? s64 (last - firstOffset b) then s64 (last - bl_size b)
                 else firstOffset b in
    Some (mkBl buf (bl_size b) first last head).

Definition CanPartialSync (b : Backlog) (offset : Z) : bool :=
  (0 <? lastOffset b) && (firstOffset b <=? offset) && (offset <=? lastOffset b).

(** The read loop of [ReadFromOffset]: [count] bytes from index [startIdx + i], modulo the
    size. *)
Fixpoint read_loop (count : nat) (buf : bytes) (size startIdx i : Z) : option bytes :=
  match count with
  | O => Some []
  | S c =>
      x ← go_at buf (Z.rem (startIdx + i) size);
      r ← read_loop c buf size startIdx (i + 1);
      Some (x :: r)
  end.

(** The outer option is a panic, the inner one Go's [nil] for an offset out of the window. *)
Definition ReadFromOffset (b : Backlog) (offset : Z) : option (option bytes) :=
  if (offset <? firstOffset b) || (lastOffset b <? offset) then Some None
  else
    let bytesToRead := lastOffset b - offset in
    if bytesToRead <=? 0 then Some (Some [])
    else
      let startIdx := Z.rem (bl_head b - bytesToRead) (bl_size b) in
      let startIdx := if startIdx <? 0 then startIdx + bl_size b else startIdx in
      r ← read_loop (Z.to_nat bytesToRead) (bl_buf b) (bl_size b) startIdx 0;
      Some (Some r).

Definition Offsets (b : Backlog) : Z * Z := (firstOffset b, lastOffset b).

(** ** The ring holds a window of the stream *)

(** After the bytes [h] have been written, the ring's cells hold the last [size] of them, each
    at its offset modulo the size. *)
Record ring_ok (buf : bytes) (size head : Z) (h : bytes) : Prop := {
  ring_len : zlen buf = size;
  ring_pos : 0 < size;
  ring_head : head = zlen h mod size;
  ring_cells : forall off, 0 <= off -> zlen h - size <= off < zlen h ->
    buf !! Z.to_nat (off mod size) = h !! Z.to_nat off;
}.

(** Distinct offsets of one window occupy distinct cells. *)
Lemma ring_cell_inj (size a b : Z) :
  0 < size -> a mod size = b mod size -> - size < a - b < size -> a = b.
Proof.
  intros Hs Hm Hab. pose proof (Z.div_mod a size ltac:(lia)). pose proof (Z.div_mod b size ltac:(lia)).
  assert (a / size = b / size) by nia. congruence.
Qed.

Lemma ring_write buf size head h x :
  ring_ok buf size head h ->
  exists buf', go_set buf head x = Some buf' /\
    ring_ok buf' size (Z.rem (head + 1) size) (h ++ [x]).
Proof.
  intros [Hlen Hpos Hhead Hcells]. pose proof (Z.mod_pos_bound (zlen h) size Hpos) as Hb.
  pose proof (zlen_nonneg h) as Hh0.
  unfold go_set. replace (_ && _) with true by lia. eexists; split; [done|]. split.
  - by rewrite zlen_insert.
  - done.
  - rewrite Hhead, Z.rem_mod_nonneg by lia. rewrite zlen_app, zlen_cons, zlen_nil, Z.add_0_r.
    by rewrite Z.add_mod_idemp_l by lia.
  - intros off H0 Hoff. rewrite zlen_app, zlen_cons, zlen_nil in Hoff.
    pose proof (Z.mod_pos_bound off size Hpos) as Hob.
    destruct (decide (off = zlen h)) as [->|Hne].
    + rewrite <- Hhead, list_lookup_insert_eq by (unfold zlen in Hlen; lia).
      unfold zlen. rewrite Nat2Z.id. by rewrite list_lookup_middle.
    + rewrite list_lookup_insert_ne.
      * rewrite lookup_app_l by (unfold zlen in *; lia). apply Hcells; lia.
      * intros Heq. apply Hne. apply (ring_cell_inj size); [done|lia|lia].
Qed.

Lemma feed_loop_spec data buf size head h :
  ring_ok buf size head h ->
  exists buf' head', feed_loop buf size head data = Some (buf', head') /\
    ring_ok buf' size head' (h ++ data).
Proof.
  revert buf head h. induction data as [|x data IH]; intros buf head h Hr; cbn [feed_loop].
  { exists buf, head. by rewrite app_nil_r. }
  destruct (ring_write buf size head h x Hr) as (buf1 & -> & Hr1). go_bind.
  destruct (IH _ _ _ Hr1) as (buf2 & head2 & -> & Hr2). exists buf2, head2. split; [done|].
  by rewrite <- app_assoc in Hr2.
Qed.

(** The state of a backlog into which exactly the bytes [h] were fed. *)
Record holds (b : Backlog) (h : bytes) : Prop := {
  holds_ring : ring_ok (bl_buf b) (bl_size b) (bl_head b) h;
  holds_last : lastOffset b = zlen h;
  holds_first : firstOffset b = Z.max 0 (zlen h - bl_size b);
}.

Lemma NewBacklog_holds capacity : holds (NewBacklog capacity) [].
Proof.
  unfold NewBacklog. set (c := if capacity <=? 0 then _ else _).
  assert (0 < c) by (unfold c; case_match; bool_prop; lia).
  split; cbn [bl_buf bl_size bl_head lastOffset firstOffset]; [split|done|rewrite zlen_nil; lia].
  - unfold zlen. rewrite length_replicate. lia.
  - done.
  - by rewrite Z.mod_0_l by lia.
  - intros off H0 Hoff. change (zlen (@nil Z)) with 0 in Hoff. lia.
Qed.

Lemma Feed_holds b h data :
  holds b h -> zlen (h ++ data) <= max_int64 -> bl_size b <= max_int64 ->
  exists b', Feed b data = Some b' /\ holds b' (h ++ data) /\ bl_size b' = bl_size b.
Proof.
  intros [Hr Hl Hf] Hint Hsz. unfold Feed. pose proof (ring_pos _ _ _ _ Hr) as Hpos.
  destruct (Z.eqb_spec (zlen data) 0) as [Hz|Hz].
  { destruct data; [|zlen_lia]. exists b. rewrite app_nil_r. split; [done|]. split; [by split|done]. }
  destruct (feed_loop_spec data _ _ _ _ Hr) as (buf & head & -> & Hr'). go_bind.
  eexists; split; [done|]. split; [|done]. rewrite zlen_app in Hint. zlen_pose.
  rewrite Hl, Hf, (s64_id (zlen h + zlen data)) by (unfold is_int64, min_int64; lia).
  rewrite !s64_id by (unfold is_int64, min_int64, max_int64 in *; lia).
  split; simpl; [done|by rewrite zlen_app|]. rewrite zlen_app. case_match; bool_prop; lia.
Qed.

Lemma read_loop_spec count buf size startIdx i h off :
  0 <= startIdx + i -> 0 <= off -> (startIdx + i) mod size = off mod size ->
  (forall o, off <= o < off + Z.of_nat count -> buf !! Z.to_nat (o mod size) = h !! Z.to_nat o) ->
  off + Z.of_nat count <= zlen h -> 0 < size ->
  read_loop count buf size startIdx i = Some (take count (drop (Z.to_nat off) h)).
Proof.
  revert i off. induction count as [|c IH]; intros i off Hi Ho Hm Hcells Hle Hpos; cbn [read_loop].
  { by rewrite take_0. }
  destruct (lookup_lt_is_Some_2 h (Z.to_nat off)) as [x Hx]; [unfold zlen in Hle; lia|].
  rewrite Z.rem_mod_nonneg, Hm by lia. pose proof (Z.mod_pos_bound off size Hpos).
  rewrite go_at_lookup, Hcells, Hx by lia. go_bind.
  rewrite (IH (i + 1) (off + 1)); try lia.
  - go_bind. rewrite (drop_S _ _ _ Hx). simpl. replace (Z.to_nat (off + 1)) with (S (Z.to_nat off)) by lia.
    done.
  - rewrite Z.add_assoc, <- (Z.add_mod_idemp_l (startIdx + i)), <- (Z.add_mod_idemp_l off) by lia.
    by rewrite Hm.
  - intros o Hoo. apply Hcells. lia.
Qed.

Lemma ReadFromOffset_holds b h off :
  holds b h ->
  ReadFromOffset b off
  = Some (if bool_decide (Z.max 0 (zlen h - bl_size b) <= off <= zlen h)
          then Some (drop (Z.to_nat off) h) else None).
Proof.
  intros [[Hlen Hpos Hhead Hcells] Hl Hf]. unfold ReadFromOffset. rewrite Hl, Hf.
  pose proof (zlen_nonneg h) as Hh0.
  destruct ((off <? _) || _) eqn:E.
  { rewrite bool_decide_false; [done|]. apply orb_true_iff in E as [E|E]; bool_prop; lia. }
  bool_prop. rewrite bool_decide_true by lia.
  destruct (Z.leb_spec (zlen h - off) 0) as [Hle|Hgt].
  { rewrite drop_ge; [done|]. unfold zlen in *. lia. }
  set (size := bl_size b) in *. set (n := zlen h - off) in *.
  set (st := if Z.rem (bl_head b - n) size <? 0 then _ else _).
  assert (Hst : 0 <= st /\ st mod size = off mod size).
  { assert (Hr : (bl_head b - n) mod size = off mod size).
    { rewrite Hhead. rewrite Zminus_mod_idemp_l. f_equal. unfold n. lia. }
    pose proof (Z.rem_bound_abs (bl_head b - n) size ltac:(lia)) as Hrb.
    assert (Hrem : Z.rem (bl_head b - n) size mod size = off mod size).
    { rewrite <- Hr. rewrite (Z.quot_rem' (bl_head b - n) size) at 2.
      by rewrite Z.add_comm, Z.mul_comm, Z.mod_add by lia. }
    unfold st. destruct (Z.ltb_spec (Z.rem (bl_head b - n) size) 0); [|split; [lia|done]].
    split; [lia|]. rewrite <- (Z.mul_1_l size) at 2. rewrite Z.mod_add by lia. done. }
  destruct Hst as [Hst0 Hstm].
  rewrite (read_loop_spec _ _ _ _ _ h off); try lia.
  - go_bind. rewrite take_ge; [done|]. rewrite length_drop. unfold n, zlen. lia.
  - by rewrite Z.add_0_r.
  - intros o Ho. apply Hcells; lia.
Qed.

(** ** Properties *)

Fixpoint feed_all (b : Backlog) (datas : list bytes) : option Backlog :=
  match datas with [] => Some b | d :: ds => b' ← Feed b d; feed_all b' ds end.

Lemma feed_all_holds datas b h :
  holds b h -> zlen (h ++ concat datas) <= max_int64 -> bl_size b <= max_int64 ->
  exists b', feed_all b datas = Some b' /\ holds b' (h ++ concat datas) /\ bl_size b' = bl_size b.
Proof.
  revert b h. induction datas as [|d ds IH]; intros b h Hh Hint Hsz; cbn [feed_all concat].
  { exists b. by rewrite app_nil_r. }
  cbn [concat] in Hint. rewrite app_assoc in *.
  destruct (Feed_holds b h d Hh) as (b1 & -> & Hh1 & Hs1); [|done|].
  { rewrite zlen_app in Hint. zlen_pose. lia. }
  go_bind. destruct (IH b1 (h ++ d) Hh1) as (b2 & -> & Hh2 & Hs2); [done|by rewrite Hs1|].
  exists b2. repeat split; try apply Hh2. by rewrite Hs2, Hs1.
Qed.

(** Partial resynchronisation.  Feed any sequence of commands into a new backlog of any
    capacity.  Nothing panics; the advertised window is the last [capacity] bytes; whenever
    [CanPartialSync] accepts a replica's offset, [ReadFromOffset] returns exactly the suffix of
    the stream the replica has not seen, wherever the ring has wrapped; outside the window it
    returns nil. *)
Theorem backlog_partial_sync capacity datas off :
  let h := concat datas in
  let size := if capacity <=? 0 then 1024 * 1024 else capacity in
  capacity <= max_int64 -> zlen h <= max_int64 ->
  exists b, feed_all (NewBacklog capacity) datas = Some b /\
    Offsets b = (Z.max 0 (zlen h - size), zlen h) /\
    (CanPartialSync b off = true ->
       0 <= off <= zlen h /\ ReadFromOffset b off = Some (Some (drop (Z.to_nat off) h))) /\
    (~ (Z.max 0 (zlen h - size) <= off <= zlen h) -> ReadFromOffset b off = Some None).
Proof.
  intros h size Hc Hh.
  assert (Hsz : bl_size (NewBacklog capacity) <= max_int64).
  { unfold NewBacklog. simpl. unfold max_int64 in *. case_match; lia. }
  destruct (feed_all_holds datas (NewBacklog capacity) [] (NewBacklog_holds capacity) Hh Hsz)
    as (b & Hb & Hhold & Hbs).
  change (bl_size (NewBacklog capacity)) with size in Hbs. rewrite app_nil_l in Hhold.
  fold h in Hhold. exists b. split; [done|].
  pose proof (ReadFromOffset_holds b h off Hhold) as Hread. rewrite Hbs in Hread.
  unfold Offsets, CanPartialSync. rewrite (holds_last _ _ Hhold), (holds_first _ _ Hhold), Hbs.
  split; [done|]. split.
  - intros E. bool_prop. rewrite bool_decide_true in Hread by lia. split; [lia|done].
  - intros Hout. by rewrite bool_decide_false in Hread by done.
Qed.

Lemma backlog_partial_sync_witness :
  exists b, feed_all (NewBacklog 4) [str "SET k"; str "DEL"] = Some b /\
    CanPartialSync b 5 = true /\ ReadFromOffset b 5 = Some (Some (str "DEL")) /\
    ReadFromOffset b 2 = Some None.
Proof.
  assert (H4 : 4 <= max_int64) by (vm_compute; congruence).
  assert (Hl : zlen (concat [str "SET k"; str "DEL"]) <= max_int64) by (vm_compute; congruence).
  destruct (backlog_partial_sync 4 [str "SET k"; str "DEL"] 5 H4 Hl) as (b & Hb & Ho & Hin & _).
  destruct (backlog_partial_sync 4 [str "SET k"; str "DEL"] 2 H4 Hl) as (b' & Hb' & _ & _ & Hout).
  assert (Heq : b = b') by congruence. subst b'.
  assert (Hp : CanPartialSync b 5 = true).
  { vm_compute in Hb. injection Hb as <-. reflexivity. }
  exists b. split; [exact Hb|]. split; [exact Hp|]. split.
  - exact (proj2 (Hin Hp)).
  - apply Hout. vm_compute. intros [H _]. apply H. reflexivity.
Defined.
