(* ===== verification/Cluster.v ===== *)
(** * Cluster: hash slots, slot ownership and hand-over

    [cluster/slot.go], the slot bitmap of [cluster/topology.go] and the coordinator of
    [cluster/manager.go].  The file shows that the table-driven CRC16 is the CCITT/XMODEM
    polynomial division, that keys with the same hash tag share a slot, that the packed slot
    bitmap behaves as a set of slots, and what the coordinator's operations do to the slot map,
    the bitmaps and the epoch. *)

From S2P Require Import Prelude Strconv.
Local Open Scope Z_scope.

Definition NumSlots : Z := 16384.

(** ** CRC16 *)

Definition crc16tab : list Z :=
  [
   0x0000; 0x1021; 0x2042; 0x3063; 0x4084; 0x50a5; 0x60c6; 0x70e7;
   0x8108; 0x9129; 0xa14a; 0xb16b; 0xc18c; 0xd1ad; 0xe1ce; 0xf1ef;
   0x1231; 0x0210; 0x3273; 0x2252; 0x52b5; 0x4294; 0x72f7; 0x62d6;
   0x9339; 0x8318; 0xb37b; 0xa35a; 0xd3bd; 0xc39c; 0xf3ff; 0xe3de;
   0x2462; 0x3443; 0x0420; 0x1401; 0x64e6; 0x74c7; 0x44a4; 0x5485;
   0xa56a; 0xb54b; 0x8528; 0x9509; 0xe5ee; 0xf5cf; 0xc5ac; 0xd58d;
   0x3653; 0x2672; 0x1611; 0x0630; 0x76d7; 0x66f6; 0x5695; 0x46b4;
   0xb75b; 0xa77a; 0x9719; 0x8738; 0xf7df; 0xe7fe; 0xd79d; 0xc7bc;
   0x48c4; 0x58e5; 0x6886; 0x78a7; 0x0840; 0x1861; 0x2802; 0x3823;
   0xc9cc; 0xd9ed; 0xe98e; 0xf9af; 0x8948; 0x9969; 0xa90a; 0xb92b;
   0x5af5; 0x4ad4; 0x7ab7; 0x6a96; 0x1a71; 0x0a50; 0x3a33; 0x2a12;
   0xdbfd; 0xcbdc; 0xfbbf; 0xeb9e; 0x9b79; 0x8b58; 0xbb3b; 0xab1a;
   0x6ca6; 0x7c87; 0x4ce4; 0x5cc5; 0x2c22; 0x3c03; 0x0c60; 0x1c41;
   0xedae; 0xfd8f; 0xcdec; 0xddcd; 0xad2a; 0xbd0b; 0x8d68; 0x9d49;
   0x7e97; 0x6eb6; 0x5ed5; 0x4ef4; 0x3e13; 0x2e32; 0x1e51; 0x0e70;
   0xff9f; 0xefbe; 0xdfdd; 0xcffc; 0xbf1b; 0xaf3a; 0x9f59; 0x8f78;
   0x9188; 0x81a9; 0xb1ca; 0xa1eb; 0xd10c; 0xc12d; 0xf14e; 0xe16f;
   0x1080; 0x00a1; 0x30c2; 0x20e3; 0x5004; 0x4025; 0x7046; 0x6067;
   0x83b9; 0x9398; 0xa3fb; 0xb3da; 0xc33d; 0xd31c; 0xe37f; 0xf35e;
   0x02b1; 0x1290; 0x22f3; 0x32d2; 0x4235; 0x5214; 0x6277; 0x7256;
   0xb5ea; 0xa5cb; 0x95a8; 0x8589; 0xf56e; 0xe54f; 0xd52c; 0xc50d;
   0x34e2; 0x24c3; 0x14a0; 0x0481; 0x7466; 0x6447; 0x5424; 0x4405;
   0xa7db; 0xb7fa; 0x8799; 0x97b8; 0xe75f; 0xf77e; 0xc71d; 0xd73c;
   0x26d3; 0x36f2; 0x0691; 0x16b0; 0x6657; 0x7676; 0x4615; 0x5634;
   0xd94c; 0xc96d; 0xf90e; 0xe92f; 0x99c8; 0x89e9; 0xb98a; 0xa9ab;
   0x5844; 0x4865; 0x7806; 0x6827; 0x18c0; 0x08e1; 0x3882; 0x28a3;
   0xcb7d; 0xdb5c; 0xeb3f; 0xfb1e; 0x8bf9; 0x9bd8; 0xabbb; 0xbb9a;
   0x4a75; 0x5a54; 0x6a37; 0x7a16; 0x0af1; 0x1ad0; 0x2ab3; 0x3a92;
   0xfd2e; 0xed0f; 0xdd6c; 0xcd4d; 0xbdaa; 0xad8b; 0x9de8; 0x8dc9;
   0x7c26; 0x6c07; 0x5c64; 0x4c45; 0x3ca2; 0x2c83; 0x1ce0; 0x0cc1;
   0xef1f; 0xff3e; 0xcf5d; 0xdf7c; 0xaf9b; 0xbfba; 0x8fd9; 0x9ff8;
   0x6e17; 0x7e36; 0x4e55; 0x5e74; 0x2e93; 0x3eb2; 0x0ed1; 0x1ef0
  ].

Definition crc_step (crc b : Z) : Z :=
  Z.lxor (u16 (Z.shiftl crc 8))
         (nth (Z.to_nat (Z.lxor (u8 (Z.shiftr crc 8)) b)) crc16tab 0).

Definition CRC16 (data : bytes) : Z := fold_left crc_step data 0.

(** ** Hash tags *)

Definition ExtractHashTag (key : bytes) : bytes :=
  let sIdx := IndexByte key 123 in
  if sIdx =? -1 then key
  else
    let rest := drop (Z.to_nat (sIdx + 1)) key in
    let eIdx := IndexByte rest 125 in
    if eIdx =? -1 then key
    else
      let eIdx := sIdx + 1 + eIdx in
      if eIdx =? sIdx + 1 then key
      else take (Z.to_nat (eIdx - (sIdx + 1))) rest.

Definition KeySlot (key : bytes) : Z := CRC16 (ExtractHashTag key) mod NumSlots.

(** ** The reference CRC: division by x^16 + x^12 + x^5 + 1, one bit at a time *)

Definition crc_bit (c : Z) : Z :=
  let d := u16 (Z.shiftl c 1) in if Z.testbit c 15 then Z.lxor d 0x1021 else d.

Definition crc_bits (c : Z) : Z := Nat.iter 8 crc_bit c.

Definition crc_reference (data : bytes) : Z :=
  fold_left (fun crc b => crc_bits (Z.lxor crc (Z.shiftl b 8))) data 0.

Lemma u16_land z : u16 z = Z.land z (Z.ones 16).
Proof. unfold u16. by rewrite Z.land_ones. Qed.

Lemma u16_lxor a b : u16 (Z.lxor a b) = Z.lxor (u16 a) (u16 b).
Proof.
  rewrite !u16_land. apply Z.bits_inj'. intros i Hi.
  rewrite !Z.land_spec, !Z.lxor_spec, !Z.land_spec.
  by destruct (Z.testbit a i), (Z.testbit b i), (Z.testbit (Z.ones 16) i).
Qed.

Lemma crc_bit_lxor a b : crc_bit (Z.lxor a b) = Z.lxor (crc_bit a) (crc_bit b).
Proof.
  unfold crc_bit. rewrite Z.lxor_spec, Z.shiftl_lxor, u16_lxor.
  set (x := u16 _). set (y := u16 _). generalize x y. clear x y. intros x y.
  destruct (Z.testbit a 15), (Z.testbit b 15); simpl; apply Z.bits_inj'; intros i Hi;
    rewrite !Z.lxor_spec; by destruct (Z.testbit x i), (Z.testbit y i), (Z.testbit 4129 i).
Qed.

Lemma crc_bits_lxor a b : crc_bits (Z.lxor a b) = Z.lxor (crc_bits a) (crc_bits b).
Proof. unfold crc_bits. simpl. by rewrite !crc_bit_lxor. Qed.

(** A property of all bytes, decided by evaluation. *)
Lemma all_bytes (P : Z -> bool) :
  forallb (fun n => P (Z.of_nat n)) (seq 0 256) = true -> forall b, is_byte b -> P b = true.
Proof.
  intros H b Hb. unfold is_byte in Hb. rewrite forallb_forall in H.
  rewrite <- (Z2Nat.id b) by lia. apply H. apply in_seq. lia.
Qed.

Lemma crc_table_entry b : is_byte b -> nth (Z.to_nat b) crc16tab 0 = crc_bits (Z.shiftl b 8).
Proof.
  intros Hb. apply Z.eqb_eq.
  apply (all_bytes (fun b => nth (Z.to_nat b) crc16tab 0 =? crc_bits (Z.shiftl b 8))); [|done].
  vm_compute. reflexivity.
Qed.

Lemma crc_bits_low b : is_byte b -> crc_bits b = Z.shiftl b 8.
Proof.
  intros Hb. apply Z.eqb_eq.
  apply (all_bytes (fun b => crc_bits b =? Z.shiftl b 8)); [|done]. vm_compute. reflexivity.
Qed.

Lemma lxor_byte a b : is_byte a -> is_byte b -> is_byte (Z.lxor a b).
Proof.
  intros Ha Hb. apply (bits_bound _ 8); [lia|]. intros i Hi.
  by rewrite Z.lxor_spec, (testbit_small a 8), (testbit_small b 8).
Qed.

(** One table step is eight steps of the division. *)
Lemma crc_step_bits crc b :
  0 <= crc < 2 ^ 16 -> is_byte b -> crc_step crc b = crc_bits (Z.lxor crc (Z.shiftl b 8)).
Proof.
  intros Hc Hb. unfold crc_step. set (hi := Z.shiftr crc 8). set (lo := crc mod 2 ^ 8).
  assert (Hhi : is_byte hi).
  { unfold hi, is_byte. rewrite Z.shiftr_div_pow2 by lia. change (2 ^ 8) with 256. div_lia. }
  assert (Hlo : is_byte lo) by (unfold lo, is_byte; change (2 ^ 8) with 256; div_lia).
  assert (Hsplit : crc = Z.lxor lo (Z.shiftl hi 8)).
  { unfold hi, lo. apply Z.bits_inj'. intros i Hi.
    rewrite Z.lxor_spec, Z.shiftl_spec by lia. destruct (Z.lt_ge_cases i 8).
    - by rewrite Z.mod_pow2_bits_low, (Z.testbit_neg_r (Z.shiftr crc 8)), xorb_false_r by lia.
    - rewrite Z.mod_pow2_bits_high, Z.shiftr_spec by lia. by rewrite Z.sub_add, xorb_false_l. }
  clearbody hi lo.
  assert (Hu : u16 (Z.shiftl crc 8) = Z.shiftl lo 8).
  { unfold u16. rewrite Hsplit, Z.shiftl_lxor, Z.shiftl_shiftl by lia.
    apply Z.bits_inj'. intros i Hi. destruct (Z.lt_ge_cases i 16).
    - rewrite Z.mod_pow2_bits_low, Z.lxor_spec, !Z.shiftl_spec by lia.
      rewrite (Z.testbit_neg_r hi) by lia. by rewrite xorb_false_r.
    - rewrite Z.mod_pow2_bits_high, Z.shiftl_spec by lia. symmetry.
      apply (testbit_small _ 8); [exact Hlo|lia]. }
  rewrite Hu, u8_id, crc_table_entry by (try apply lxor_byte; done).
  rewrite Hsplit, Z.lxor_assoc, crc_bits_lxor, (crc_bits_low lo) by done.
  by rewrite Z.shiftl_lxor.
Qed.

Lemma u16_range z : 0 <= u16 z < 2 ^ 16.
Proof. unfold u16. apply Z.mod_pos_bound. lia. Qed.

Lemma crc_bits_range c : 0 <= crc_bits c < 2 ^ 16.
Proof.
  assert (Hbit : forall d, 0 <= crc_bit d < 2 ^ 16); [|unfold crc_bits; simpl; apply Hbit].
  intros d. unfold crc_bit.
  assert (Hx : forall x, u16 (Z.lxor (u16 x) 0x1021) = Z.lxor (u16 x) 0x1021).
  { intros x. rewrite u16_lxor. f_equal. unfold u16. by rewrite Z.mod_mod. }
  case_match; [rewrite <- Hx|]; apply u16_range.
Qed.

Lemma crc_fold data c :
  0 <= c < 2 ^ 16 -> is_bytes data ->
  fold_left crc_step data c
  = fold_left (fun crc b => crc_bits (Z.lxor crc (Z.shiftl b 8))) data c.
Proof.
  revert c. induction data as [|b data IH]; intros c Hc Hd; [done|].
  apply Forall_cons in Hd as [Hb Hd]. cbn [fold_left].
  rewrite (crc_step_bits c b Hc Hb). apply IH; [apply crc_bits_range|done].
Qed.

(** ** Hash tags *)

Lemma ExtractHashTag_tag pre tag post :
  123 ∉ pre -> 125 ∉ tag -> tag <> [] ->
  ExtractHashTag (pre ++ 123 :: tag ++ 125 :: post) = tag.
Proof.
  intros Hp Ht Hne. unfold ExtractHashTag. rewrite IndexByte_app by done. zlen_pose.
  destruct (Z.eqb_spec (zlen pre) (-1)); [lia|].
  replace (drop _ (pre ++ _)) with (tag ++ 125 :: post); cycle 1.
  { rewrite (cons_middle 123 pre), app_assoc, drop_app_length'; [done|].
    rewrite length_app. unfold zlen. simpl. lia. }
  rewrite IndexByte_app by done. zlen_pose.
  destruct (Z.eqb_spec (zlen tag) (-1)); [lia|].
  assert (zlen tag <> 0) by (destruct tag; [done|]; zlen_lia).
  destruct (Z.eqb_spec (zlen pre + 1 + zlen tag) (zlen pre + 1)); [lia|].
  replace (Z.to_nat _) with (length tag) by (unfold zlen; lia). by rewrite take_app_length.
Qed.

(** The table-driven CRC16 computes, on every byte string, the remainder of the bitwise
    division by the CCITT polynomial 0x1021 (XMODEM parameters), so slots agree with every
    other implementation of the Redis cluster specification. *)
Theorem crc16_is_ccitt data : is_bytes data -> CRC16 data = crc_reference data.
Proof. intros Hd. unfold CRC16, crc_reference. by apply crc_fold. Qed.

Lemma crc16_is_ccitt_witness :
  is_bytes (str "123456789") /\ crc_reference (str "123456789") = 0x31C3.
Proof.
  assert (Hd : is_bytes (str "123456789"))
    by (repeat (apply Forall_cons; split; [unfold is_byte; simpl; lia|]); apply Forall_nil; done).
  split; [exact Hd|]. rewrite <- (crc16_is_ccitt _ Hd). vm_compute. reflexivity.
Defined.

(** Slots.  A key is always mapped to a slot below 16384; two keys that contain the same
    non-empty tag between their first '{' and the next '}' go to the slot of the tag itself,
    whatever surrounds it; a key without '{' hashes as a whole. *)
Theorem key_slot_tagged pre tag post key :
  123 ∉ pre -> 125 ∉ tag -> tag <> [] -> 123 ∉ tag -> 123 ∉ key ->
  0 <= KeySlot key < NumSlots /\
  KeySlot (pre ++ 123 :: tag ++ 125 :: post) = KeySlot tag /\
  KeySlot key = CRC16 key mod NumSlots.
Proof.
  intros Hp Ht Hne Htb Hk. unfold KeySlot. split; [apply Z.mod_pos_bound; unfold NumSlots; lia|].
  rewrite ExtractHashTag_tag by done. unfold ExtractHashTag.
  by rewrite !IndexByte_absent by done.
Qed.

Lemma key_slot_tagged_witness :
  KeySlot (str "{user1000}.following") = KeySlot (str "user1000").
Proof.
  refine (proj1 (proj2 (key_slot_tagged [] (str "user1000") (str ".following") (str "foo") _ _ _ _ _)));
    try (intros H; vm_compute in H; discriminate);
    apply (bool_decide_unpack _); vm_compute; exact I.
Defined.

(** ** Topology: nodes and their slot bitmaps *)

Inductive NodeRole := RoleMaster | RoleReplica | RoleShadow | RoleFenced.
#[export] Instance NodeRole_eq_dec : EqDecision NodeRole.
Proof. solve_decision. Defined.

(** Telemetry; the [float64] fields are kept as their IEEE bit patterns, nothing here computes
    with them. *)
Record NodeMetrics := mkMetrics {
  EWMAMemory : Z; EWMALatency : Z; CPUUsage : Z; QueueDepth : Z; LastUpdated : Z }.

Record NodeVertex := mkNode {
  nv_ID : bytes;
  nv_Addr : bytes;
  nv_Role : NodeRole;
  nv_MasterID : bytes;
  nv_Slots : list Z;
  nv_Metrics : NodeMetrics;
  nv_DomainID : bytes;
}.

Definition set_slots (nv : NodeVertex) (l : list Z) : NodeVertex :=
  mkNode (nv_ID nv) (nv_Addr nv) (nv_Role nv) (nv_MasterID nv) l (nv_Metrics nv) (nv_DomainID nv).
Definition set_role (nv : NodeVertex) (r : NodeRole) : NodeVertex :=
  mkNode (nv_ID nv) (nv_Addr nv) r (nv_MasterID nv) (nv_Slots nv) (nv_Metrics nv) (nv_DomainID nv).

(** A composite literal [&NodeVertex{ID: .., Addr: .., ..}]: every other field is zero. *)
Definition new_vertex (id addr : bytes) (role : NodeRole) (domain : bytes) : NodeVertex :=
  mkNode id addr role [] (replicate 2048 0) (mkMetrics 0 0 0 0 0) domain.

Definition SetSlot (nv : NodeVertex) (slot : Z) : NodeVertex :=
  if NumSlots <=? slot then nv
  else set_slots nv (alter (fun b => Z.lor b (Z.shiftl 1 (slot mod 8))) (Z.to_nat (slot / 8)) (nv_Slots nv)).

Definition ClearSlot (nv : NodeVertex) (slot : Z) : NodeVertex :=
  if NumSlots <=? slot then nv
  else set_slots nv (alter (fun b => Z.land b (u8 (Z.lnot (Z.shiftl 1 (slot mod 8)))))
                       (Z.to_nat (slot / 8)) (nv_Slots nv)).

Definition HasSlot (nv : NodeVertex) (slot : Z) : bool :=
  if NumSlots <=? slot then false
  else negb (Z.land (nth (Z.to_nat (slot / 8)) (nv_Slots nv) 0) (Z.shiftl 1 (slot mod 8)) =? 0).

Definition OwnedSlots (nv : NodeVertex) : list Z := filter (fun s => HasSlot nv s = true) (seqZ 0 NumSlots).

(** The bitmap of a vertex is an array of 2048 bytes. *)
Definition node_wf (nv : NodeVertex) : Prop := length (nv_Slots nv) = 2048%nat /\ is_bytes (nv_Slots nv).

Lemma land_bit_test b k : 0 <= k -> negb (Z.land b (Z.shiftl 1 k) =? 0) = Z.testbit b k.
Proof.
  intros Hk. rewrite Z.shiftl_1_l. destruct (Z.testbit b k) eqn:E.
  - apply negb_true_iff, Z.eqb_neq. intros H0. apply (f_equal (fun z => Z.testbit z k)) in H0.
    by rewrite Z.land_spec, E, Z.pow2_bits_true, Z.bits_0 in H0.
  - apply negb_false_iff, Z.eqb_eq. apply Z.bits_inj'. intros i Hi.
    rewrite Z.land_spec, Z.bits_0. destruct (decide (i = k)) as [->|]; [by rewrite E|].
    by rewrite Z.pow2_bits_false, andb_false_r by lia.
Qed.

Lemma HasSlot_bit nv s :
  0 <= s < NumSlots ->
  HasSlot nv s = Z.testbit (nth (Z.to_nat (s / 8)) (nv_Slots nv) 0) (s mod 8).
Proof.
  unfold HasSlot. intros Hs. destruct (Z.leb_spec NumSlots s); [lia|].
  apply land_bit_test. div_lia.
Qed.

Lemma nth_alter (f : Z -> Z) (l : list Z) i j :
  nth j (alter f i l) 0 = if decide (i = j /\ (j < length l)%nat) then f (nth j l 0) else nth j l 0.
Proof.
  destruct (decide (j < length l)%nat) as [Hj|Hj].
  - destruct (lookup_lt_is_Some_2 l j Hj) as [x Hx].
    destruct (decide (i = j)) as [->|Hne].
    + rewrite decide_True by done. rewrite (nth_lookup_Some _ _ 0 x Hx).
      apply nth_lookup_Some. by rewrite list_lookup_alter_eq, Hx.
    + rewrite decide_False by tauto. rewrite (nth_lookup_Some _ _ 0 x Hx).
      apply nth_lookup_Some. by rewrite list_lookup_alter_ne.
  - rewrite decide_False by tauto. rewrite !nth_overflow; [done|lia|]. rewrite length_alter. lia.
Qed.

Lemma slot_cell (s t : Z) : s / 8 = t / 8 -> s mod 8 = t mod 8 -> s = t.
Proof. intros. rewrite (Z.div_mod s 8), (Z.div_mod t 8) by lia. congruence. Qed.

Lemma slot_cell_bound s : 0 <= s < NumSlots -> (Z.to_nat (s / 8) < 2048)%nat.
Proof. unfold NumSlots. intros. div_lia. Qed.

Lemma lnot_bit_test b k i :
  is_byte b -> 0 <= k < 8 -> 0 <= i < 8 ->
  Z.testbit (Z.land b (u8 (Z.lnot (Z.shiftl 1 k)))) i = Z.testbit b i && negb (i =? k).
Proof.
  intros _ Hk Hi. rewrite Z.land_spec. unfold u8.
  rewrite Z.mod_pow2_bits_low, Z.lnot_spec, Z.shiftl_1_l by lia. f_equal. f_equal.
  rewrite Z.pow2_bits_eqb by lia. apply Z.eqb_sym.
Qed.

Lemma SetSlot_wf nv s : node_wf nv -> 0 <= s -> node_wf (SetSlot nv s).
Proof.
  intros [Hl Hb] Hs. unfold SetSlot. case_match; [done|]. split; simpl.
  - by rewrite length_alter.
  - apply Forall_alter; [done|]. intros b _ Hbb. apply (bits_bound _ 8); [lia|]. intros i Hi.
    rewrite Z.lor_spec, (testbit_small b 8), Z.shiftl_1_l, Z.pow2_bits_false; [done|div_lia|done|lia].
Qed.

Lemma ClearSlot_wf nv s : node_wf nv -> node_wf (ClearSlot nv s).
Proof.
  intros [Hl Hb]. unfold ClearSlot. case_match; [done|]. split; simpl.
  - by rewrite length_alter.
  - apply Forall_alter; [done|]. intros b _ Hbb. apply (bits_bound _ 8); [lia|]. intros i Hi.
    by rewrite Z.land_spec, (testbit_small b 8).
Qed.

Lemma HasSlot_SetSlot nv s t :
  node_wf nv -> 0 <= s < NumSlots -> 0 <= t < NumSlots ->
  HasSlot (SetSlot nv s) t = (t =? s) || HasSlot nv t.
Proof.
  intros [Hl _] Hs Ht. rewrite !HasSlot_bit by done. unfold SetSlot.
  destruct (Z.leb_spec NumSlots s); [lia|]. simpl. rewrite nth_alter, Hl.
  pose proof (slot_cell_bound t Ht). unfold NumSlots in *. case_decide as Hd.
  - destruct Hd as [Hc _]. assert (s / 8 = t / 8) by div_lia.
    rewrite Z.lor_spec, Z.shiftl_1_l, Z.pow2_bits_eqb by div_lia.
    rewrite orb_comm. f_equal. destruct (Z.eqb_spec t s) as [->|Hne]; [by rewrite Z.eqb_refl|].
    apply Z.eqb_neq. intros Hm. apply Hne. by apply slot_cell.
  - destruct (Z.eqb_spec t s) as [->|]; [|done]. exfalso. apply Hd. split; [done|lia].
Qed.

Lemma HasSlot_ClearSlot nv s t :
  node_wf nv -> 0 <= s < NumSlots -> 0 <= t < NumSlots ->
  HasSlot (ClearSlot nv s) t = negb (t =? s) && HasSlot nv t.
Proof.
  intros [Hl Hb] Hs Ht. rewrite !HasSlot_bit by done. unfold ClearSlot.
  destruct (Z.leb_spec NumSlots s); [lia|]. simpl. rewrite nth_alter, Hl.
  pose proof (slot_cell_bound t Ht). unfold NumSlots in *. case_decide as Hd.
  - destruct Hd as [Hc _]. assert (s / 8 = t / 8) by div_lia.
    rewrite lnot_bit_test; [|  |div_lia|div_lia].
    + rewrite andb_comm. f_equal. f_equal.
      destruct (Z.eqb_spec t s) as [->|Hne]; [by rewrite Z.eqb_refl|].
      apply Z.eqb_neq. intros Hm. apply Hne. by apply slot_cell.
    + destruct (lookup_lt_is_Some_2 (nv_Slots nv) (Z.to_nat (t / 8))) as [x Hx]; [lia|].
      rewrite (nth_lookup_Some _ _ 0 x Hx). unfold is_bytes in Hb. rewrite Forall_lookup in Hb.
      by eapply Hb.
  - destruct (Z.eqb_spec t s) as [->|]; [|done]. exfalso. apply Hd. split; [done|lia].
Qed.

Lemma OwnedSlots_spec nv s : s ∈ OwnedSlots nv <-> 0 <= s < NumSlots /\ HasSlot nv s = true.
Proof.
  unfold OwnedSlots. rewrite list_elem_of_filter, elem_of_seqZ. unfold NumSlots. naive_solver lia.
Qed.

(** ** The coordinator *)

Record ReliefPlan := mkPlan { SourceNodeID : bytes; TargetNodeID : bytes; SlotsToShed : list Z }.

(** [cm_predictors] is the key set of the predictor map; the predictors themselves hold
    floating-point trends only and are not modelled. *)
Record ClusterManager := mkCm {
  selfNodeID : bytes;
  selfAddr : bytes;
  cm_epoch : Z;
  cm_slots : list bytes;
  cm_nodes : gmap bytes NodeVertex;
  cm_predictors : gset bytes;
  cm_shadows : gmap bytes bytes;
  ClusterEnabled : bool;
}.

Definition with_nodes (cm : ClusterManager) (ns : gmap bytes NodeVertex) : ClusterManager :=
  mkCm (selfNodeID cm) (selfAddr cm) (cm_epoch cm) (cm_slots cm) ns (cm_predictors cm)
    (cm_shadows cm) (ClusterEnabled cm).
Definition with_slots (cm : ClusterManager) (sl : list bytes) : ClusterManager :=
  mkCm (selfNodeID cm) (selfAddr cm) (cm_epoch cm) sl (cm_nodes cm) (cm_predictors cm)
    (cm_shadows cm) (ClusterEnabled cm).

Definition NewClusterManager (selfID addr : bytes) : ClusterManager :=
  mkCm selfID addr 0 (replicate (Z.to_nat NumSlots) [])
    {[selfID := new_vertex selfID addr RoleMaster []]} ∅ ∅ false.

Definition SetClusterEnabled (cm : ClusterManager) (enabled : bool) : ClusterManager :=
  mkCm (selfNodeID cm) (selfAddr cm) (cm_epoch cm) (cm_slots cm) (cm_nodes cm)
    (cm_predictors cm) (cm_shadows cm) enabled.

Definition CurrentEpoch (cm : ClusterManager) : Z := cm_epoch cm.

Definition AddNode (cm : ClusterManager) (id addr : bytes) (role : NodeRole) (domain : bytes)
    : ClusterManager :=
  mkCm (selfNodeID cm) (selfAddr cm) (cm_epoch cm) (cm_slots cm)
    (<[id := new_vertex id addr role domain]> (cm_nodes cm))
    ({[id]} ∪ cm_predictors cm) (cm_shadows cm) (ClusterEnabled cm).

(** [AssignSlotRange]'s loop [for s := start; s <= end && s < NumSlots; s++].  The counter is a
    [uint16]; it cannot wrap because it stops at [NumSlots]. *)
Fixpoint assign_loop (fuel : nat) (cm : ClusterManager) (nodeID : bytes) (s end_ : Z)
    : option ClusterManager :=
  match fuel with
  | O => None
  | S f =>
      if (s <=? end_) && (s <? NumSlots) then
        sl ← go_set (cm_slots cm) s nodeID;
        let cm := with_slots cm sl in
        let cm := match cm_nodes cm !! nodeID with
                  | Some node => with_nodes cm (<[nodeID := SetSlot node s]> (cm_nodes cm))
                  | None => cm
                  end in
        assign_loop f cm nodeID (u16 (s + 1)) end_
      else Some cm
  end.

Definition AssignSlotRange (cm : ClusterManager) (nodeID : bytes) (start end_ : Z)
    : option ClusterManager :=
  assign_loop (S (Z.to_nat NumSlots)) cm nodeID start end_.

Definition GetSlotNode (cm : ClusterManager) (slot : Z) : option bytes :=
  if NumSlots <=? slot then Some [] else go_at (cm_slots cm) slot.

Definition IsSlotLocal (cm : ClusterManager) (key : bytes) : option (bool * Z * bytes) :=
  let slot := KeySlot key in
  if negb (ClusterEnabled cm) then Some (true, slot, selfAddr cm)
  else
    ownerID ← go_at (cm_slots cm) slot;
    if bool_decide (ownerID = []) || bool_decide (ownerID = selfNodeID cm)
    then Some (true, slot, selfAddr cm)
    else match cm_nodes cm !! ownerID with
         | Some ownerNode => Some (false, slot, nv_Addr ownerNode)
         | None => Some (false, slot, selfAddr cm)
         end.

(** The promotion loop of [LiveHandover]: the target's bit and the slot map, slot by slot. *)
Fixpoint promote_loop (cm : ClusterManager) (target : bytes) (slots : list Z) : option ClusterManager :=
  match slots with
  | [] => Some cm
  | s :: rest =>
      let cm := with_nodes cm (alter (fun n => SetSlot n s) target (cm_nodes cm)) in
      sl ← go_set (cm_slots cm) s target;
      promote_loop (with_slots cm sl) target rest
  end.

Definition LiveHandover (cm : ClusterManager) (plan : ReliefPlan) : option ClusterManager :=
  let cm := mkCm (selfNodeID cm) (selfAddr cm) (u64 (cm_epoch cm + 1)) (cm_slots cm)
              (cm_nodes cm) (cm_predictors cm) (cm_shadows cm) (ClusterEnabled cm) in
  let cm :=
    match cm_nodes cm !! SourceNodeID plan with
    | Some src => with_nodes cm (<[SourceNodeID plan :=
                    fold_left ClearSlot (SlotsToShed plan) (set_role src RoleFenced)]> (cm_nodes cm))
    | None => cm
    end in
  cm ← match cm_nodes cm !! TargetNodeID plan with
       | Some tgt =>
           promote_loop (with_nodes cm (<[TargetNodeID plan := set_role tgt RoleMaster]> (cm_nodes cm)))
             (TargetNodeID plan) (SlotsToShed plan)
       | None => Some cm
       end;
  Some (mkCm (selfNodeID cm) (selfAddr cm) (cm_epoch cm) (cm_slots cm) (cm_nodes cm)
          (cm_predictors cm) (delete (SourceNodeID plan) (cm_shadows cm)) (ClusterEnabled cm)).

(** ** Invariants of the coordinator *)

(** The slot table has an entry per slot, the bitmaps are well formed, and no registered node
    has the empty ID that marks an unassigned slot. *)
Record cm_wf (cm : ClusterManager) : Prop := {
  cmw_slots : length (cm_slots cm) = Z.to_nat NumSlots;
  cmw_nodes : forall id nv, cm_nodes cm !! id = Some nv -> node_wf nv;
}.

(** The two records of slot ownership agree: a registered node has a slot's bit set exactly
    when the slot table names it. *)
Definition owners_agree (cm : ClusterManager) : Prop :=
  forall id nv s, cm_nodes cm !! id = Some nv -> 0 <= s < NumSlots ->
    HasSlot nv s = bool_decide (cm_slots cm !! Z.to_nat s = Some id).

Lemma new_vertex_wf id addr role dom : node_wf (new_vertex id addr role dom).
Proof.
  split; cbn [nv_Slots new_vertex]; [apply length_replicate|].
  apply Forall_replicate. unfold is_byte. lia.
Qed.

Lemma set_role_wf nv r : node_wf nv -> node_wf (set_role nv r).
Proof. done. Qed.

Lemma HasSlot_new id addr role dom s : HasSlot (new_vertex id addr role dom) s = false.
Proof.
  unfold HasSlot. case_match; [done|]. cbn [nv_Slots new_vertex].
  replace (nth _ _ _) with 0; [done|]. symmetry. set (n := Z.to_nat (s / 8)).
  destruct (decide (n < 2048)%nat).
  - apply nth_lookup_Some. by apply lookup_replicate_2.
  - apply nth_overflow. rewrite length_replicate. lia.
Qed.

Lemma clear_all_spec slots nv :
  node_wf nv -> Forall (fun s => 0 <= s < NumSlots) slots ->
  node_wf (fold_left ClearSlot slots nv) /\
  nv_Role (fold_left ClearSlot slots nv) = nv_Role nv /\
  forall t, 0 <= t < NumSlots ->
    HasSlot (fold_left ClearSlot slots nv) t = bool_decide (t ∉ slots) && HasSlot nv t.
Proof.
  revert nv. induction slots as [|s slots IH]; intros nv Hwf Hs; cbn [fold_left].
  { split; [done|]. split; [done|]. intros t _. by rewrite bool_decide_true by apply not_elem_of_nil. }
  apply Forall_cons in Hs as [Hs Hss].
  destruct (IH (ClearSlot nv s)) as (H1 & H2 & H3); [by apply ClearSlot_wf|done|].
  split; [done|]. split; [rewrite H2; unfold ClearSlot; by case_match|].
  intros t Ht. rewrite H3, HasSlot_ClearSlot, andb_assoc by done. f_equal.
  apply eq_true_iff_eq.
  rewrite andb_true_iff, negb_true_iff, Z.eqb_neq, !bool_decide_eq_true, not_elem_of_cons. tauto.
Qed.

Lemma go_set_slots (sl : list bytes) s (x : bytes) :
  length sl = Z.to_nat NumSlots -> 0 <= s < NumSlots ->
  go_set sl s x = Some (<[Z.to_nat s := x]> sl).
Proof.
  intros Hl Hs. unfold go_set, zlen. rewrite Hl, Z2Nat.id by (unfold NumSlots; lia).
  by replace (_ && _) with true by lia.
Qed.

Lemma slots_insert_lookup (sl : list bytes) s t (x : bytes) :
  length sl = Z.to_nat NumSlots -> 0 <= s < NumSlots -> 0 <= t ->
  <[Z.to_nat s := x]> sl !! Z.to_nat t = if t =? s then Some x else sl !! Z.to_nat t.
Proof.
  intros Hl Hs Ht. destruct (Z.eqb_spec t s) as [->|].
  - apply list_lookup_insert_eq. lia.
  - apply list_lookup_insert_ne. lia.
Qed.

(** What the promotion loop does: the target gets every slot of the plan in both records. *)
Lemma promote_loop_spec slots cm target tgt :
  cm_wf cm -> cm_nodes cm !! target = Some tgt -> Forall (fun s => 0 <= s < NumSlots) slots ->
  exists cm' tgt', promote_loop cm target slots = Some cm' /\ cm_wf cm' /\
    cm_nodes cm' = <[target := tgt']> (cm_nodes cm) /\ nv_Role tgt' = nv_Role tgt /\
    cm_epoch cm' = cm_epoch cm /\ cm_shadows cm' = cm_shadows cm /\
    (forall t, 0 <= t < NumSlots -> HasSlot tgt' t = bool_decide (t ∈ slots) || HasSlot tgt t) /\
    (forall t, 0 <= t < NumSlots -> cm_slots cm' !! Z.to_nat t
       = if bool_decide (t ∈ slots) then Some target else cm_slots cm !! Z.to_nat t).
Proof.
  revert cm tgt. induction slots as [|s slots IH]; intros cm tgt Hwf Ht Hs; cbn [promote_loop].
  { exists cm, tgt. rewrite insert_id by done. split; [done|]. split; [done|].
    repeat (split; [done|]). split; intros t _; by rewrite bool_decide_false by apply not_elem_of_nil. }
  apply Forall_cons in Hs as [Hs Hss].
  rewrite go_set_slots by (try apply Hwf; done). go_bind.
  match goal with |- context [promote_loop ?c _ _] => set (cm1 := c) end.
  assert (Hn1 : cm_nodes cm1 = <[target := SetSlot tgt s]> (cm_nodes cm)).
  { unfold cm1, with_nodes, with_slots; cbn [cm_nodes]. apply map_eq. intros i.
    rewrite lookup_alter, lookup_insert. case_decide as Hi; [|done]. subst i. by rewrite Ht. }
  assert (Hwf1 : cm_wf cm1).
  { split; [unfold cm1; cbn; rewrite length_insert; apply Hwf|]. rewrite Hn1. intros id nv.
    rewrite lookup_insert. case_decide; [|apply Hwf]. intros [= <-].
    apply SetSlot_wf; [by eapply Hwf|lia]. }
  destruct (IH cm1 (SetSlot tgt s)) as (cm' & tgt' & -> & Hwf' & Hn' & Hr & He & Hsh & Hb & Hsl);
    [done|by rewrite Hn1, lookup_insert_eq|done|].
  exists cm', tgt'. split; [done|]. split; [done|].
  split; [by rewrite Hn', Hn1, insert_insert_eq|].
  split; [rewrite Hr; unfold SetSlot; by case_match|]. split; [done|]. split; [done|].
  split; intros t Htr.
  - rewrite Hb, HasSlot_SetSlot, orb_assoc by (try done; by eapply Hwf). f_equal.
    apply eq_true_iff_eq. rewrite orb_true_iff, Z.eqb_eq, !bool_decide_eq_true, elem_of_cons. tauto.
  - rewrite Hsl by done. unfold cm1; cbn [cm_slots with_slots with_nodes].
    rewrite slots_insert_lookup by (try apply Hwf; lia).
    repeat case_bool_decide; try done; destruct (Z.eqb_spec t s); set_solver.
Qed.

Lemma live_handover_spec cm plan src tgt :
  cm_wf cm -> SourceNodeID plan <> TargetNodeID plan ->
  cm_nodes cm !! SourceNodeID plan = Some src -> cm_nodes cm !! TargetNodeID plan = Some tgt ->
  Forall (fun s => 0 <= s < NumSlots) (SlotsToShed plan) ->
  exists cm' src' tgt', LiveHandover cm plan = Some cm' /\ cm_wf cm' /\
    cm_epoch cm' = u64 (cm_epoch cm + 1) /\
    cm_nodes cm' = <[TargetNodeID plan := tgt']> (<[SourceNodeID plan := src']> (cm_nodes cm)) /\
    nv_Role src' = RoleFenced /\ nv_Role tgt' = RoleMaster /\
    cm_shadows cm' = delete (SourceNodeID plan) (cm_shadows cm) /\
    forall t, 0 <= t < NumSlots ->
      HasSlot src' t = bool_decide (t ∉ SlotsToShed plan) && HasSlot src t /\
      HasSlot tgt' t = bool_decide (t ∈ SlotsToShed plan) || HasSlot tgt t /\
      cm_slots cm' !! Z.to_nat t = if bool_decide (t ∈ SlotsToShed plan)
        then Some (TargetNodeID plan) else cm_slots cm !! Z.to_nat t.
Proof.
  intros Hwf Hne Hsrc Htgt Hs. unfold LiveHandover. cbn [cm_nodes]. rewrite Hsrc.
  set (src' := fold_left ClearSlot (SlotsToShed plan) (set_role src RoleFenced)).
  destruct (clear_all_spec (SlotsToShed plan) (set_role src RoleFenced)) as (Hw1 & Hr1 & Hb1);
    [exact (cmw_nodes _ Hwf _ _ Hsrc)|done|]. fold src' in Hw1, Hr1, Hb1.
  cbn [cm_nodes with_nodes]. rewrite lookup_insert_ne, Htgt by done.
  match goal with |- context [promote_loop ?c _ _] => set (cm1 := c) end.
  assert (Hwf1 : cm_wf cm1).
  { split; [apply Hwf|]. unfold cm1; cbn [cm_nodes with_nodes]. intros id nv.
    rewrite !lookup_insert. repeat case_decide; [| |apply Hwf]; intros [= <-]; [|done].
    exact (cmw_nodes _ Hwf _ _ Htgt). }
  destruct (promote_loop_spec (SlotsToShed plan) cm1 (TargetNodeID plan) (set_role tgt RoleMaster))
    as (cm' & tgt' & -> & Hwf' & Hn' & Hr & He & Hsh & Hb & Hsl);
    [done|by unfold cm1; cbn; rewrite lookup_insert_eq|done|].
  go_bind. eexists _, src', tgt'. split; [done|]. cbn.
  split; [split; apply Hwf'|]. split; [done|].
  split; [by rewrite Hn'; unfold cm1; cbn; rewrite insert_insert_eq|].
  split; [done|]. split; [done|]. split; [by rewrite Hsh|]. intros t Ht. split; [by rewrite Hb1|].
  split; [by rewrite Hb|]. by rewrite Hsl.
Qed.

(** The assignment loop, from [s] on: every slot up to the end (or the last slot) goes to the
    node in the table and, when the node is registered, in its bitmap. *)
Definition in_range (s end_ t : Z) : bool := (s <=? t) && (t <=? end_).

Lemma assign_loop_spec fuel cm id s end_ :
  cm_wf cm -> 0 <= s -> (Z.to_nat (NumSlots - s) < fuel)%nat ->
  exists cm', assign_loop fuel cm id s end_ = Some cm' /\ cm_wf cm' /\
    cm_epoch cm' = cm_epoch cm /\
    (forall t, 0 <= t < NumSlots -> cm_slots cm' !! Z.to_nat t
       = if in_range s end_ t then Some id else cm_slots cm !! Z.to_nat t) /\
    (forall n, n <> id -> cm_nodes cm' !! n = cm_nodes cm !! n) /\
    (cm_nodes cm !! id = None -> cm_nodes cm' !! id = None) /\
    (forall nv, cm_nodes cm !! id = Some nv -> exists nv', cm_nodes cm' !! id = Some nv' /\
       forall t, 0 <= t < NumSlots -> HasSlot nv' t = in_range s end_ t || HasSlot nv t).
Proof.
  revert cm s. induction fuel as [|f IH]; intros cm s Hwf Hs Hf; [lia|]. cbn [assign_loop].
  destruct ((s <=? end_) && (s <? NumSlots)) eqn:E; cycle 1.
  { assert (Hout : forall t, 0 <= t < NumSlots -> in_range s end_ t = false).
    { intros t Ht. unfold in_range. apply andb_false_iff in E as [E|E]; bool_prop; lia. }
    exists cm. split; [done|]. split; [done|]. split; [done|].
    split; [intros t Ht; by rewrite Hout|]. split; [done|]. split; [done|].
    intros nv Hnv. exists nv. split; [done|]. intros t Ht. by rewrite Hout. }
  bool_prop. rewrite go_set_slots by (try apply Hwf; lia). go_bind.
  match goal with |- context [assign_loop f ?c] => set (cm1 := c) end.
  assert (Hu : u16 (s + 1) = s + 1) by (unfold u16; apply Z.mod_small; unfold NumSlots in *; lia).
  assert (Hsl1 : cm_slots cm1 = <[Z.to_nat s := id]> (cm_slots cm)).
  { unfold cm1. cbn [cm_nodes with_slots]. by destruct (cm_nodes cm !! id). }
  assert (Hn1 : cm_nodes cm1 = alter (fun n => SetSlot n s) id (cm_nodes cm)).
  { unfold cm1. cbn [cm_nodes with_slots]. apply map_eq. intros i. rewrite lookup_alter.
    destruct (cm_nodes cm !! id) as [nv|] eqn:Ei; cbn [cm_nodes with_nodes with_slots].
    - rewrite lookup_insert. case_decide as Hi; [|done]. subst i. by rewrite ?Ei.
    - case_decide as Hi; [|done]. subst i. by rewrite ?Ei. }
  assert (He1 : cm_epoch cm1 = cm_epoch cm) 
    by (unfold cm1; cbn [cm_nodes with_slots]; by destruct (cm_nodes cm !! id)).
  assert (Hwf1 : cm_wf cm1).
  { split; [rewrite Hsl1, length_insert; apply Hwf|]. rewrite Hn1. intros i nv.
    rewrite lookup_alter. case_decide as Hi; [|apply Hwf]. subst i.
    destruct (cm_nodes cm !! id) as [n0|] eqn:Ei; [|done]. intros [= <-].
    apply SetSlot_wf; [exact (cmw_nodes _ Hwf _ _ Ei)|lia]. }
  rewrite Hu.
  destruct (IH cm1 (s + 1) Hwf1) as (cm' & -> & Hwf' & He & Hsl & Ho & Hno & Hnv); [lia|unfold NumSlots in *; lia|].
  exists cm'. split; [done|]. split; [done|]. split; [by rewrite He|].
  assert (Hir : forall t, in_range s end_ t = (t =? s) || in_range (s + 1) end_ t).
  { intros t. unfold in_range. destruct (Z.eqb_spec t s); lia. }
  split; [|split; [|split]].
  - intros t Ht. rewrite Hsl, Hsl1, slots_insert_lookup, Hir by (try apply Hwf; lia).
    by destruct (in_range (s + 1) end_ t), (t =? s).
  - intros n Hn. by rewrite Ho, Hn1, lookup_alter_ne.
  - intros Hi. apply Hno. by rewrite Hn1, lookup_alter_eq, Hi.
  - intros nv Hi. destruct (Hnv (SetSlot nv s)) as (nv' & Hnv' & Hb).
    { by rewrite Hn1, lookup_alter_eq, Hi. }
    exists nv'. split; [done|]. intros t Ht.
    rewrite Hb, HasSlot_SetSlot, Hir, orb_assoc by (try lia; exact (cmw_nodes _ Hwf _ _ Hi)).
    f_equal. apply orb_comm.
Qed.

Lemma AssignSlotRange_spec cm id start end_ :
  cm_wf cm -> 0 <= start ->
  exists cm', AssignSlotRange cm id start end_ = Some cm' /\ cm_wf cm' /\
    cm_epoch cm' = cm_epoch cm /\
    (forall t, 0 <= t < NumSlots -> cm_slots cm' !! Z.to_nat t
       = if in_range start end_ t then Some id else cm_slots cm !! Z.to_nat t) /\
    (forall n, n <> id -> cm_nodes cm' !! n = cm_nodes cm !! n) /\
    (cm_nodes cm !! id = None -> cm_nodes cm' !! id = None) /\
    (forall nv, cm_nodes cm !! id = Some nv -> exists nv', cm_nodes cm' !! id = Some nv' /\
       forall t, 0 <= t < NumSlots -> HasSlot nv' t = in_range start end_ t || HasSlot nv t).
Proof. intros. unfold AssignSlotRange. apply assign_loop_spec; [done|done|unfold NumSlots; lia]. Qed.

Lemma AssignSlotRange_agree cm id start end_ :
  cm_wf cm -> owners_agree cm -> 0 <= start -> is_Some (cm_nodes cm !! id) ->
  (forall t other, in_range start end_ t = true -> 0 <= t < NumSlots ->
     cm_slots cm !! Z.to_nat t = Some other -> other <> id -> cm_nodes cm !! other = None) ->
  exists cm', AssignSlotRange cm id start end_ = Some cm' /\ cm_wf cm' /\ owners_agree cm' /\
    (forall t, 0 <= t < NumSlots -> GetSlotNode cm' t
       = if in_range start end_ t then Some id else GetSlotNode cm t).
Proof.
  intros Hwf Hag Hst [nv Hnv] Hfree.
  destruct (AssignSlotRange_spec cm id start end_ Hwf Hst)
    as (cm' & Hrun & Hwf' & _ & Hsl & Ho & _ & Hid).
  exists cm'. split; [done|]. split; [done|]. split.
  - intros i n t Hi Ht. rewrite Hsl by done.
    destruct (decide (i = id)) as [->|Hne].
    + destruct (Hid nv Hnv) as (nv' & Hnv' & Hb). assert (n = nv') as -> by congruence.
      rewrite Hb by done. destruct (in_range start end_ t); simpl.
      * by rewrite bool_decide_true.
      * exact (Hag id nv t Hnv Ht).
    + rewrite Ho in Hi by done. rewrite (Hag i n t Hi Ht).
      destruct (in_range start end_ t) eqn:Er; [|done]. rewrite !bool_decide_false; [done|congruence|].
      intros Hown. specialize (Hfree t i Er Ht Hown Hne). congruence.
  - intros t Ht. unfold GetSlotNode. destruct (Z.leb_spec NumSlots t); [lia|].
    rewrite !go_at_lookup by lia. by apply Hsl.
Qed.

(** ** Reachable coordinator states *)

Lemma NewClusterManager_inv selfID addr :
  selfID <> [] -> cm_wf (NewClusterManager selfID addr) /\ owners_agree (NewClusterManager selfID addr).
Proof.
  intros Hne. split; [split|].
  - apply length_replicate.
  - intros id nv. cbn [cm_nodes NewClusterManager]. rewrite lookup_singleton.
    case_decide; [|done]. intros [= <-]. apply new_vertex_wf.
  - intros id nv s. cbn [cm_nodes cm_slots NewClusterManager]. rewrite lookup_singleton.
    case_decide as Hid; [|done]. intros [= <-] Hs. rewrite HasSlot_new. symmetry.
    apply bool_decide_eq_false. rewrite lookup_replicate_2 by lia. congruence.
Qed.

Lemma AddNode_inv cm id addr role dom :
  cm_wf cm -> owners_agree cm ->
  (forall s, 0 <= s < NumSlots -> cm_slots cm !! Z.to_nat s <> Some id) ->
  cm_wf (AddNode cm id addr role dom) /\ owners_agree (AddNode cm id addr role dom).
Proof.
  intros Hwf Hag Hfree. split; [split; [apply Hwf|]|]; cbn [cm_nodes AddNode].
  - intros i nv. rewrite lookup_insert. case_decide; [|apply Hwf]. intros [= <-].
    apply new_vertex_wf.
  - intros i nv s. cbn [cm_nodes cm_slots AddNode]. rewrite lookup_insert.
    case_decide as Hi; [|by apply Hag]. intros [= <-] Hs. subst i. rewrite HasSlot_new. symmetry.
    by apply bool_decide_eq_false, Hfree.
Qed.

Lemma LiveHandover_inv cm plan src tgt cm' :
  cm_wf cm -> owners_agree cm -> SourceNodeID plan <> TargetNodeID plan ->
  cm_nodes cm !! SourceNodeID plan = Some src -> cm_nodes cm !! TargetNodeID plan = Some tgt ->
  SlotsToShed plan = OwnedSlots src -> LiveHandover cm plan = Some cm' ->
  exists src' tgt', cm_wf cm' /\ owners_agree cm' /\
    CurrentEpoch cm' = u64 (CurrentEpoch cm + 1) /\
    cm_nodes cm' !! SourceNodeID plan = Some src' /\ nv_Role src' = RoleFenced /\
    OwnedSlots src' = [] /\
    cm_nodes cm' !! TargetNodeID plan = Some tgt' /\ nv_Role tgt' = RoleMaster /\
    cm_shadows cm' !! SourceNodeID plan = None /\
    forall t, 0 <= t < NumSlots -> GetSlotNode cm' t =
      if bool_decide (t ∈ OwnedSlots src) then Some (TargetNodeID plan) else GetSlotNode cm t.
Proof.
  intros Hwf Hag Hne Hsrc Htgt Hplan Hrun.
  assert (Hs : Forall (fun s => 0 <= s < NumSlots) (SlotsToShed plan)).
  { rewrite Hplan, Forall_forall. intros s Hs. by apply OwnedSlots_spec in Hs as [? _]. }
  destruct (live_handover_spec cm plan src tgt Hwf Hne Hsrc Htgt Hs)
    as (cm2 & src' & tgt' & Hrun2 & Hwf' & He & Hn & Hr1 & Hr2 & Hsh & Ht).
  assert (cm2 = cm') as -> by congruence. clear Hrun2.
  assert (Howned : forall t, 0 <= t < NumSlots -> HasSlot src t = bool_decide (t ∈ SlotsToShed plan)).
  { intros t Htr. apply eq_true_iff_eq. rewrite bool_decide_eq_true, Hplan, OwnedSlots_spec. tauto. }
  exists src', tgt'. rewrite Hn. split; [done|]. split; [|split; [done|]].
  - intros id nv t Hid Htr. rewrite Hn in Hid.
    destruct (Ht t Htr) as (Hts & Htt & Htsl). rewrite Htsl.
    pose proof (Hag _ _ t Hsrc Htr) as Hags. pose proof (Hag _ _ t Htgt Htr) as Hagt.
    rewrite Howned in Hags, Hts by done. rewrite Hagt in Htt.
    destruct (decide (id = TargetNodeID plan)) as [->|Hnt];
      [rewrite lookup_insert_eq in Hid; injection Hid as <-
      |rewrite lookup_insert_ne in Hid by done;
       destruct (decide (id = SourceNodeID plan)) as [->|Hns];
         [rewrite lookup_insert_eq in Hid; injection Hid as <-
         |rewrite lookup_insert_ne in Hid by done; pose proof (Hag id nv t Hid Htr) as Hago]].
    all: destruct (decide (t ∈ SlotsToShed plan)) as [Hin|Hin];
      [rewrite (bool_decide_true (t ∈ _)) in Htt, Hags, Hts |- * by done;
       rewrite (bool_decide_false (t ∉ _)) in Hts by tauto
      |rewrite (bool_decide_false (t ∈ _)) in Htt, Hags, Hts |- * by done;
       rewrite (bool_decide_true (t ∉ _)) in Hts by done].
    all: symmetry in Hags; apply bool_decide_eq_true in Hags || apply bool_decide_eq_false in Hags.
    + rewrite Htt. cbn [orb]. by rewrite bool_decide_true.
    + by rewrite Htt.
    + rewrite Hts, bool_decide_false by congruence. done.
    + rewrite Hts, bool_decide_false by done. done.
    + rewrite Hago, !bool_decide_false by congruence. done.
    + done.
  - rewrite lookup_insert_ne, !lookup_insert_eq, Hsh, lookup_delete_eq by done.
    repeat (split; [done|]). split.
    { destruct (OwnedSlots src') as [|s l] eqn:Eo; [done|]. exfalso.
      assert (Hin : s ∈ OwnedSlots src') by (rewrite Eo; by left).
      apply OwnedSlots_spec in Hin as [Hsr Hb]. destruct (Ht s Hsr) as (Hts & _ & _).
      rewrite Hts, Howned in Hb by done. apply andb_true_iff in Hb as [H1 H2].
      rewrite bool_decide_eq_true in H1, H2. tauto. }
    repeat (split; [done|]). intros t Htr. rewrite <- Hplan. unfold GetSlotNode.
    destruct (Z.leb_spec NumSlots t); [lia|]. rewrite !go_at_lookup by lia. by apply Ht.
Qed.

(** The operations that change the coordinator, and their histories. *)
Inductive cm_op :=
  | JoinNode (id addr : bytes) (role : NodeRole) (domain : bytes)
  | AssignRange (id : bytes) (start end_ : Z)
  | HandOver (plan : ReliefPlan)
  | Enable (b : bool).

Definition cm_apply (cm : ClusterManager) (op : cm_op) : option ClusterManager :=
  match op with
  | JoinNode id addr role domain => Some (AddNode cm id addr role domain)
  | AssignRange id start end_ => AssignSlotRange cm id start end_
  | HandOver plan => LiveHandover cm plan
  | Enable b => Some (SetClusterEnabled cm b)
  end.

Fixpoint cm_run (cm : ClusterManager) (ops : list cm_op) : option ClusterManager :=
  match ops with
  | [] => Some cm
  | op :: ops => cm ← cm_apply cm op; cm_run cm ops
  end.

(** What the operations leave to their callers: a node joins under an ID that no slot is assigned to; a range is assigned to a registered
    node when no other registered node owns a slot of it; a plan moves all that a registered source owns to another registered node, as the
    simulator plans it. *)
Definition disciplined (cm : ClusterManager) (op : cm_op) : Prop :=
  match op with
  | JoinNode id _ _ _ => forall s, 0 <= s < NumSlots -> cm_slots cm !! Z.to_nat s <> Some id
  | AssignRange id start end_ =>
    0 <= start /\ is_Some (cm_nodes cm !! id) /\
    (forall t other, in_range start end_ t = true -> 0 <= t < NumSlots ->
       cm_slots cm !! Z.to_nat t = Some other -> other <> id -> cm_nodes cm !! other = None)
  | HandOver plan =>
    SourceNodeID plan <> TargetNodeID plan /\ is_Some (cm_nodes cm !! TargetNodeID plan) /\
    exists src, cm_nodes cm !! SourceNodeID plan = Some src /\ SlotsToShed plan = OwnedSlots src
  | Enable _ => True
  end.

Fixpoint disciplined_run (cm : ClusterManager) (ops : list cm_op) : Prop :=
  match ops with
  | [] => True
  | op :: ops => disciplined cm op /\ forall cm', cm_apply cm op = Some cm' -> disciplined_run cm' ops
  end.

Lemma cm_apply_inv cm op :
  disciplined cm op -> cm_wf cm -> owners_agree cm -> exists cm', cm_apply cm op = Some cm' /\ cm_wf cm' /\ owners_agree cm'.
Proof.
  intros Hd Hwf Hag. destruct op as [id addr role dom|id st en|plan|b]; cbn [cm_apply disciplined] in *.
  - eexists. split; [done|]. by apply AddNode_inv.
  - destruct Hd as (Hs & Hid & Hfree). destruct (AssignSlotRange_agree cm id st en Hwf Hag Hs Hid Hfree) as (cm' & ? & ? & ? & _). eauto.
  - destruct Hd as (Hne & [tgt Htgt] & src & Hsrc & Hplan).
    assert (Hs : Forall (fun s => 0 <= s < NumSlots) (SlotsToShed plan)).
    { rewrite Hplan, Forall_forall. intros s Hs. by apply OwnedSlots_spec in Hs as [? _]. }
    destruct (live_handover_spec cm plan src tgt Hwf Hne Hsrc Htgt Hs) as (cm' & _ & _ & Hrun & _).
    destruct (LiveHandover_inv cm plan src tgt cm' Hwf Hag Hne Hsrc Htgt Hplan Hrun) as (? & ? & ? & ? & _). eauto.
  - eexists. split; [done|]. split; [split; apply Hwf|exact Hag].
Qed.

Lemma cm_run_inv ops cm :
  disciplined_run cm ops -> cm_wf cm -> owners_agree cm -> exists cm', cm_run cm ops = Some cm' /\ cm_wf cm' /\ owners_agree cm'.
Proof.
  revert cm. induction ops as [|op ops IH]; intros cm Hd Hwf Hag; [by exists cm|]. destruct Hd as [Hd Hds].
  destruct (cm_apply_inv cm op Hd Hwf Hag) as (cm1 & E & Hwf1 & Hag1). cbn [cm_run]. rewrite E. go_bind. auto.
Qed.

(** ** Properties of the coordinator *)

(** Hand-over.  Let the slot table and the node bitmaps agree, and let the plan shed all
    slots the failing node owns (what the simulator plans).  Then the hand-over succeeds, bumps
    the epoch by one, fences the source and leaves it without slots, makes the target a master
    that serves every shed slot, leaves every other slot's owner unchanged, removes the shadow
    entry, and the two ownership records still agree: no slot is served by two nodes. *)
Theorem live_handover_moves_ownership cm plan src tgt :
  cm_wf cm -> owners_agree cm -> SourceNodeID plan <> TargetNodeID plan ->
  cm_nodes cm !! SourceNodeID plan = Some src -> cm_nodes cm !! TargetNodeID plan = Some tgt ->
  SlotsToShed plan = OwnedSlots src ->
  exists cm' src' tgt', LiveHandover cm plan = Some cm' /\ owners_agree cm' /\
    CurrentEpoch cm' = u64 (CurrentEpoch cm + 1) /\
    cm_nodes cm' !! SourceNodeID plan = Some src' /\ nv_Role src' = RoleFenced /\
    OwnedSlots src' = [] /\
    cm_nodes cm' !! TargetNodeID plan = Some tgt' /\ nv_Role tgt' = RoleMaster /\
    cm_shadows cm' !! SourceNodeID plan = None /\
    forall t, 0 <= t < NumSlots -> GetSlotNode cm' t =
      if bool_decide (t ∈ OwnedSlots src) then Some (TargetNodeID plan) else GetSlotNode cm t.
Proof.
  intros Hwf Hag Hne Hsrc Htgt Hplan.
  assert (Hs : Forall (fun s => 0 <= s < NumSlots) (SlotsToShed plan)).
  { rewrite Hplan, Forall_forall. intros s Hs. by apply OwnedSlots_spec in Hs as [? _]. }
  destruct (live_handover_spec cm plan src tgt Hwf Hne Hsrc Htgt Hs) as (cm' & _ & _ & Hrun & _).
  destruct (LiveHandover_inv cm plan src tgt cm' Hwf Hag Hne Hsrc Htgt Hplan Hrun)
    as (src' & tgt' & _ & H). exists cm', src', tgt'. split; [done|exact H].
Qed.

(** Slot assignment.  Assigning a range to a registered node gives it exactly the slots
    of the range (clamped to the 16384 slots) in the table and in its bitmap, and keeps the two
    records in agreement, provided no other registered node owns a slot of the range. *)
Theorem assign_slot_range_agrees cm id start end_ :
  cm_wf cm -> owners_agree cm -> 0 <= start -> is_Some (cm_nodes cm !! id) ->
  (forall t other, in_range start end_ t = true -> 0 <= t < NumSlots ->
     cm_slots cm !! Z.to_nat t = Some other -> other <> id -> cm_nodes cm !! other = None) ->
  exists cm', AssignSlotRange cm id start end_ = Some cm' /\ cm_wf cm' /\ owners_agree cm' /\
    (forall t, 0 <= t < NumSlots -> GetSlotNode cm' t
       = if in_range start end_ t then Some id else GetSlotNode cm t).
Proof. apply AssignSlotRange_agree. Qed.

Definition demo_cluster : ClusterManager :=
  AddNode (NewClusterManager (str "A") (str "10.0.0.1:6379")) (str "B") (str "10.0.0.2:6379")
    RoleMaster (str "zone2").

Lemma demo_A : cm_nodes demo_cluster !! str "A"
  = Some (new_vertex (str "A") (str "10.0.0.1:6379") RoleMaster []).
Proof. unfold demo_cluster, AddNode, NewClusterManager. cbn [cm_nodes]. by simplify_map_eq. Qed.

Lemma demo_B : cm_nodes demo_cluster !! str "B"
  = Some (new_vertex (str "B") (str "10.0.0.2:6379") RoleMaster (str "zone2")).
Proof. unfold demo_cluster, AddNode. cbn [cm_nodes]. by simplify_map_eq. Qed.

Lemma demo_cluster_inv : cm_wf demo_cluster /\ owners_agree demo_cluster.
Proof.
  destruct (NewClusterManager_inv (str "A") (str "10.0.0.1:6379")) as [Hw Ha]; [done|].
  apply AddNode_inv; [done|done|]. intros s Hs. cbn [cm_slots NewClusterManager].
  rewrite lookup_replicate_2 by lia. done.
Qed.

Lemma demo_cluster_free id t other :
  0 <= t < NumSlots -> cm_slots demo_cluster !! Z.to_nat t = Some other -> other <> id ->
  cm_nodes demo_cluster !! other = None.
Proof.
  intros Ht Hl _. cbn [demo_cluster cm_slots AddNode NewClusterManager] in Hl.
  rewrite lookup_replicate_2 in Hl by lia. injection Hl as <-. reflexivity.
Qed.

Lemma mkPlan_sheds a b l : SlotsToShed (mkPlan a b l) = l.
Proof. reflexivity. Qed.

(** The demonstration cluster after slots 0 to 3 went to node A. *)
Lemma demo_assigned :
  exists cm src, AssignSlotRange demo_cluster (str "A") 0 3 = Some cm /\ cm_wf cm /\ owners_agree cm /\
    CurrentEpoch cm = 0 /\ cm_nodes cm !! str "A" = Some src /\
    cm_nodes cm !! str "B"
      = Some (new_vertex (str "B") (str "10.0.0.2:6379") RoleMaster (str "zone2")) /\
    (forall t, 0 <= t < NumSlots -> HasSlot src t = in_range 0 3 t) /\
    GetSlotNode cm 4 = Some [].
Proof.
  destruct demo_cluster_inv as [Hw Ha].
  assert (Hs : is_Some (cm_nodes demo_cluster !! str "A")) by (rewrite demo_A; by eexists).
  destruct (AssignSlotRange_agree demo_cluster (str "A") 0 3 Hw Ha ltac:(lia) Hs)
    as (cm & Hrun & Hw1 & Ha1 & Hown).
  { intros t other _. exact (demo_cluster_free _ t other). }
  destruct (AssignSlotRange_spec demo_cluster (str "A") 0 3 Hw ltac:(lia))
    as (cm2 & Hrun2 & _ & He & _ & Hoth & _ & Hnv).
  assert (cm2 = cm) as -> by (rewrite Hrun in Hrun2; by injection Hrun2).
  destruct (Hnv _ demo_A) as (src & Hsrc & Hbits). exists cm, src.
  split; [done|]. split; [done|]. split; [done|]. split; [exact He|]. split; [done|].
  split; [rewrite Hoth by done; exact demo_B|]. split.
  - intros t Ht. by rewrite Hbits, HasSlot_new, orb_false_r.
  - rewrite Hown by (unfold NumSlots; lia). vm_compute. reflexivity.
Qed.

Lemma assign_slot_range_agrees_witness :
  exists cm, AssignSlotRange demo_cluster (str "A") 0 3 = Some cm /\
    GetSlotNode cm 2 = Some (str "A") /\ GetSlotNode cm 4 = Some [].
Proof.
  destruct demo_cluster_inv as [Hw Ha].
  destruct (assign_slot_range_agrees demo_cluster (str "A") 0 3 Hw Ha ltac:(lia))
    as (cm & Hrun & _ & _ & Hown).
  - rewrite demo_A. by eexists.
  - intros t other _. exact (demo_cluster_free _ t other).
  - exists cm. split; [exact Hrun|]. rewrite !Hown by (unfold NumSlots; lia). split; vm_compute; reflexivity.
Defined.

Lemma live_handover_moves_ownership_witness :
  exists cm plan cm', AssignSlotRange demo_cluster (str "A") 0 3 = Some cm /\
    LiveHandover cm plan = Some cm' /\ CurrentEpoch cm' = 1 /\
    GetSlotNode cm' 2 = Some (str "B") /\ GetSlotNode cm' 4 = Some [].
Proof.
  destruct demo_assigned as (cm & src & Hrun & Hw & Ha & He & Hsrc & Htgt & Hbits & Hget4).
  destruct (live_handover_moves_ownership cm (mkPlan (str "A") (str "B") (OwnedSlots src)) src _
    Hw Ha ltac:(discriminate) Hsrc Htgt (mkPlan_sheds _ _ _))
    as (cm' & _ & _ & Hrun' & _ & Hep & _ & _ & _ & _ & _ & _ & Hget).
  exists cm, (mkPlan (str "A") (str "B") (OwnedSlots src)), cm'.
  split; [exact Hrun|]. split; [exact Hrun'|]. split; [|split].
  - rewrite Hep, He. reflexivity.
  - rewrite Hget, bool_decide_true; [reflexivity| |unfold NumSlots; lia].
    apply OwnedSlots_spec. split; [unfold NumSlots; lia|]. rewrite Hbits by (unfold NumSlots; lia).
    reflexivity.
  - rewrite Hget, bool_decide_false; [exact Hget4| |unfold NumSlots; lia].
    rewrite OwnedSlots_spec. intros [_ Hb]. rewrite Hbits in Hb by (unfold NumSlots; lia). discriminate.
Defined.

(** C35. Ownership.  Start with a new coordinator and let nodes join, assign ranges, hand slots over and switch enforcement in any order, as long
    as the callers keep to [disciplined]: nodes join under IDs that no slot is assigned to, ranges go to registered nodes and touch no slot of another
    registered node, plans move all that their source owns.  Then every operation succeeds, and at the end the slot table and the node bitmaps agree:
    CLUSTER SLOTS and CLUSTER NODES describe the same ownership, and two registered nodes never claim the same slot.  (The code does not check the
    discipline: [assign_over_owned_range_disagrees].) *)
Theorem cluster_ownership_invariant selfID addr ops :
  selfID <> [] -> disciplined_run (NewClusterManager selfID addr) ops ->
  exists cm, cm_run (NewClusterManager selfID addr) ops = Some cm /\ cm_wf cm /\ owners_agree cm /\
  forall id1 id2 nv1 nv2 s, 0 <= s < NumSlots ->
    cm_nodes cm !! id1 = Some nv1 -> cm_nodes cm !! id2 = Some nv2 ->
    HasSlot nv1 s = true -> HasSlot nv2 s = true -> id1 = id2.
Proof.
  intros Hne Hd. destruct (NewClusterManager_inv selfID addr Hne) as [Hwf0 Hag0].
  destruct (cm_run_inv ops _ Hd Hwf0 Hag0) as (cm & E & Hwf & Hag). exists cm. split_and!; [done..|].
  intros id1 id2 nv1 nv2 s Hs H1 H2 Hb1 Hb2.
  rewrite (Hag _ _ _ H1 Hs) in Hb1. rewrite (Hag _ _ _ H2 Hs) in Hb2.
  apply bool_decide_eq_true in Hb1, Hb2. congruence.
Qed.

(** Node B joins, slots 0 to 3 go to A, and then all that A owns goes to B. *)
Definition demo_ops (shed : list Z) : list cm_op :=
  [JoinNode (str "B") (str "10.0.0.2:6379") RoleMaster (str "zone2"); AssignRange (str "A") 0 3; Enable true; HandOver (mkPlan (str "A") (str "B") shed)].

Lemma cm_apply_assign cm id start end_ : cm_apply cm (AssignRange id start end_) = AssignSlotRange cm id start end_.
Proof. reflexivity. Qed.

Lemma demo_joins s : 0 <= s < NumSlots -> cm_slots (NewClusterManager (str "A") (str "10.0.0.1:6379")) !! Z.to_nat s <> Some (str "B").
Proof. intros Hs. cbn [cm_slots NewClusterManager]. rewrite lookup_replicate_2 by lia. discriminate. Qed.

Lemma demo_disciplined : exists shed, 2 ∈ shed /\ disciplined_run (NewClusterManager (str "A") (str "10.0.0.1:6379")) (demo_ops shed).
Proof.
  destruct demo_assigned as (cm & src & Hrun & Hw & Ha & He & Hsrc & Htgt & Hbits & _). exists (OwnedSlots src). split.
  { apply OwnedSlots_spec. split; [unfold NumSlots; lia|]. by rewrite Hbits by (unfold NumSlots; lia). }
  split; [exact demo_joins|]. intros cm0 E0. assert (cm0 = demo_cluster) as -> by (symmetry; exact (Some_inj _ _ E0)). clear E0.
  split; [split; [lia|split; [exact (ex_intro _ _ demo_A)|intros t other _; exact (demo_cluster_free _ t other)]]|].
  intros cm1 E1. rewrite cm_apply_assign, Hrun in E1. assert (cm1 = cm) as -> by (symmetry; exact (Some_inj _ _ E1)). clear E1.
  split; [exact I|]. intros cm2 E2. assert (cm2 = SetClusterEnabled cm true) as -> by (symmetry; exact (Some_inj _ _ E2)). clear E2.
  split; [|done]. split; [discriminate|]. split; [exact (ex_intro _ _ Htgt)|]. exists src. split; [exact Hsrc|exact (mkPlan_sheds _ _ _)].
Qed.

Lemma cluster_ownership_invariant_witness :
  exists shed cm, 2 ∈ shed /\ cm_run (NewClusterManager (str "A") (str "10.0.0.1:6379")) (demo_ops shed) = Some cm /\ owners_agree cm.
Proof.
  destruct demo_disciplined as (shed & H2 & Hd).
  destruct (cluster_ownership_invariant (str "A") (str "10.0.0.1:6379") (demo_ops shed)) as (cm & E & _ & Ha & _); [discriminate|exact Hd|].
  exists shed, cm. split; [exact H2|]. split; [exact E|exact Ha].
Defined.

(** Defect.  Without the discipline the agreement breaks: [AssignSlotRange] never
    clears the previous owner's bit, so after assigning slots 0-3 first to A and then to B both
    bitmaps claim slot 0 while the table names B alone. *)
Theorem assign_over_owned_range_disagrees :
  exists cm1 cm2 a b, AssignSlotRange demo_cluster (str "A") 0 3 = Some cm1 /\
    AssignSlotRange cm1 (str "B") 0 3 = Some cm2 /\
    cm_nodes cm2 !! str "A" = Some a /\ cm_nodes cm2 !! str "B" = Some b /\
    HasSlot a 0 = true /\ HasSlot b 0 = true /\ GetSlotNode cm2 0 = Some (str "B") /\
    ~ owners_agree cm2.
Proof.
  destruct demo_cluster_inv as [Hw Ha].
  destruct (AssignSlotRange_spec demo_cluster (str "A") 0 3 Hw ltac:(lia))
    as (cm1 & Hrun1 & Hw1 & _ & _ & Hoth1 & _ & Hnv1).
  destruct (AssignSlotRange_spec cm1 (str "B") 0 3 Hw1 ltac:(lia))
    as (cm2 & Hrun2 & _ & _ & Hsl2 & Hoth2 & _ & Hnv2).
  destruct (Hnv1 _ demo_A) as (a & Ha1 & Hba).
  specialize (Hoth1 (str "B") ltac:(done)). rewrite demo_B in Hoth1. destruct (Hnv2 _ Hoth1) as (b & Hb2 & Hbb).
  exists cm1, cm2, a, b. split; [done|]. split; [done|].
  assert (Ha2 : cm_nodes cm2 !! str "A" = Some a) by (rewrite Hoth2 by done; done).
  assert (Hbit : HasSlot a 0 = true) by (rewrite Hba by (unfold NumSlots; lia); done).
  assert (Hown : cm_slots cm2 !! Z.to_nat 0 = Some (str "B"))
    by (rewrite Hsl2 by (unfold NumSlots; lia); done).
  assert (Hbit' : HasSlot b 0 = true) by (rewrite Hbb by (unfold NumSlots; lia); done).
  split; [exact Ha2|]. split; [exact Hb2|]. split; [exact Hbit|]. split; [exact Hbit'|].
  split; [unfold GetSlotNode; rewrite go_at_lookup by lia; exact Hown|].
  intros Hag. specialize (Hag _ _ 0 Ha2 ltac:(unfold NumSlots; lia)). rewrite Hbit, Hown in Hag.
  symmetry in Hag. apply bool_decide_eq_true in Hag. discriminate.
Qed.
