(* ===== verification/Glob.v ===== *)
(** * Glob patterns ([glob/glob.go])

    [matchImpl] is a port of Redis' matcher.  Its [skipLongerMatches] flag is threaded as
    state (the code passes a [*bool]) and its recursion runs on fuel: every iteration of the
    code's loop consumes at least one pattern byte, so [S (length p)] is always enough.

    The reference is the relation [matches], which does not call the matcher: a pattern [spells] a list
    of tokens, in one way only ([spells_total], [spells_unique]), and a list of tokens [denotes] strings, a star any run, every
    other token one byte.  [glob_match_sound] and [glob_match_complete] show that the bail-out flag never changes the answer, and
    that the nesting limit does only for patterns of more than [maxNesting] stars. *)

From S2P Require Import Prelude.

Local Open Scope Z_scope.

(** ** The matcher *)

(** The bytes of the syntax. *)
Abbreviation c_star := 42 (only parsing).
Abbreviation c_quest := 63 (only parsing).
Abbreviation c_lbrack := 91 (only parsing).
Abbreviation c_rbrack := 93 (only parsing).
Abbreviation c_back := 92 (only parsing).
Abbreviation c_caret := 94 (only parsing).
Abbreviation c_dash := 45 (only parsing).

Definition maxNesting : Z := 1000.

Definition lower (c : byte) : byte :=
  if (65 <=? c) && (c <=? 90) then c + (97 - 65) else c.

Definition same_byte (fold : bool) (x c : byte) : bool :=
  if fold then lower x =? lower c else x =? c.

(** The range test of a class, with its swap of reversed bounds. *)
Definition in_class_range (fold : bool) (lo hi ch : byte) : bool :=
  let '(lo, hi) := if hi <? lo then (hi, lo) else (lo, hi) in
  let '(lo, hi, ch) := if fold then (lower lo, lower hi, lower ch) else (lo, hi, ch) in
  (lo <=? ch) && (ch <=? hi).

(** The loop over the items of a class: [p] is the pattern from [k] on. *)
Fixpoint class_loop (p : bytes) (c : byte) (fold matched : bool) (k : Z) : bool * Z :=
  match p with
  | [] => (matched, k)
  | x :: r =>
    if x =? c_rbrack then (matched, k + 1)
    else
      let single := class_loop r c fold (matched || same_byte fold x c) (k + 1) in
      if x =? c_back then
        match r with
        | y :: r' => class_loop r' c fold (matched || (y =? c)) (k + 2)
        | [] => single
        end
      else
        match r with
        | d :: h :: r' =>
          if (d =? c_dash) && negb (h =? c_rbrack)
          then class_loop r' c fold (matched || in_class_range fold x h c) (k + 3)
          else single
        | _ => single
        end
  end.

(** [matchOne p j c fold], on the pattern bytes from [j] on. *)
Definition matchOne (p : bytes) (c : byte) (fold : bool) : option (bool * Z) :=
  match p with
  | [] => None (* p[j] out of range *)
  | x :: r =>
    Some
      (if x =? c_quest then (true, 1)
       else if x =? c_lbrack then
         match r with
         | y :: r' =>
           if y =? c_caret
           then let '(m, k) := class_loop r' c fold false 2 in (negb m, k)
           else class_loop r c fold false 1
         | [] => class_loop r c fold false 1
         end
       else if x =? c_back then
         match r with
         | y :: _ => (same_byte fold y c, 2)
         | [] => (c =? c_back, 1)
         end
       else (same_byte fold x c, 1))
  end.

(** Both loops that step over a run of stars. *)
Fixpoint skip_stars (p : bytes) : bytes :=
  match p with
  | x :: r => if x =? c_star then skip_stars r else p
  | [] => []
  end.

Definition is_nil {A} (l : list A) : bool := match l with [] => true | _ => false end.

(** The retry loop of a star: [rec] is the recursive call on the pattern after it.  The
    result is the answer with the final value of [*skipLongerMatches]. *)
Fixpoint star_loop (rec : bytes -> bool -> bool * bool) (s : bytes) (skip : bool) : bool * bool :=
  match s with
  | [] => (false, true)
  | _ :: s' =>
    let '(r, skip) := rec s skip in
    if r then (true, skip)
    else if skip then (false, skip)
    else star_loop rec s' skip
  end.

Fixpoint matchImpl (fuel : nat) (p s : bytes) (fold skip : bool) (nesting : Z) : bool * bool :=
  match fuel with
  | O => (false, skip)
  | S fuel =>
    if maxNesting <? nesting then (false, skip) else
    match p, s with
    | x :: r, c :: s' =>
      if x =? c_star then
        let q := skip_stars r in
        if is_nil q then (true, skip)
        else star_loop (fun s skip => matchImpl fuel q s fold skip (nesting + 1)) s skip
      else if x =? c_quest then matchImpl fuel r s' fold skip nesting
      else if x =? c_lbrack then
        match matchOne p c fold with
        | Some (true, width) => matchImpl fuel (drop (Z.to_nat width) p) s' fold skip nesting
        | _ => (false, skip)
        end
      else
        let '(y, r) :=
          if x =? c_back then match r with y :: r' => (y, r') | [] => (x, r) end else (x, r) in
        if same_byte fold y c then matchImpl fuel r s' fold skip nesting else (false, skip)
    | _, _ =>
      let p := if is_nil s then skip_stars p else p in
      (is_nil p && is_nil s, skip)
    end
  end.

Definition matchBytes (p s : bytes) (fold : bool) : bool :=
  (matchImpl (S (length p)) p s fold false 0).1.

Definition Match (pattern s : bytes) : bool := matchBytes pattern s false.
Definition MatchFold (pattern s : bytes) : bool := matchBytes pattern s true.

(** ** The syntax and its meaning

    A pattern spells a list of tokens.  Nothing here calls the matcher. *)

Inductive item := Byte (x : byte) | Escaped (x : byte) | Range (lo hi : byte).

Inductive token := Star | Any | Literal (x : byte) | Class (negated : bool) (items : list item).

(** The items of a class and what follows its closing bracket; a class that is not closed ends with the pattern.  A dash makes a
    range unless the bracket follows it; a backslash at the very end is a byte like any other. *)
Inductive spells_items : bytes -> list item -> bytes -> Prop :=
  | spells_end : spells_items [] [] []
  | spells_close p : spells_items (c_rbrack :: p) [] p
  | spells_escaped x p its q : spells_items p its q -> spells_items (c_back :: x :: p) (Escaped x :: its) q
  | spells_range lo hi p its q : lo <> c_rbrack -> lo <> c_back -> hi <> c_rbrack -> spells_items p its q ->
      spells_items (lo :: c_dash :: hi :: p) (Range lo hi :: its) q
  | spells_byte x p its q : x <> c_rbrack -> (x = c_back -> p = []) -> (forall hi r, p = c_dash :: hi :: r -> hi = c_rbrack) -> spells_items p its q ->
      spells_items (x :: p) (Byte x :: its) q.

Inductive spells : bytes -> list token -> Prop :=
  | spells_nil : spells [] []
  | spells_star p ts : spells p ts -> spells (c_star :: p) (Star :: ts)
  | spells_any p ts : spells p ts -> spells (c_quest :: p) (Any :: ts)
  | spells_negated p its q ts : spells_items p its q -> spells q ts -> spells (c_lbrack :: c_caret :: p) (Class true its :: ts)
  | spells_class p its q ts : head p <> Some c_caret -> spells_items p its q -> spells q ts -> spells (c_lbrack :: p) (Class false its :: ts)
  | spells_escape x p ts : spells p ts -> spells (c_back :: x :: p) (Literal x :: ts)
  | spells_backslash : spells [c_back] [Literal c_back]
  | spells_literal x p ts : x ∉ [c_star; c_quest; c_lbrack; c_back] -> spells p ts -> spells (x :: p) (Literal x :: ts).

(** The ASCII letters in lower case, every other byte as it is. *)
Inductive lowercase (x : byte) : byte -> Prop :=
  | lowercase_capital : 65 <= x <= 90 -> lowercase x (x + 32)
  | lowercase_other : ~ 65 <= x <= 90 -> lowercase x x.

Definition same_letter (fold : bool) (x c : byte) : Prop := if fold then exists l, lowercase x l /\ lowercase c l else x = c.

(** The bounds of a range may be given in either order; with folding all three are compared in lower case. *)
Definition between (fold : bool) (lo hi c : byte) : Prop :=
  if fold then exists l h d, lowercase (Z.min lo hi) l /\ lowercase (Z.max lo hi) h /\ lowercase c d /\ l <= d <= h else Z.min lo hi <= c <= Z.max lo hi.

(** An escaped byte of a class stands for itself, folded or not. *)
Definition item_accepts (fold : bool) (c : byte) (it : item) : Prop :=
  match it with Byte x => same_letter fold x c | Escaped x => x = c | Range lo hi => between fold lo hi c end.

Definition token_accepts (fold : bool) (t : token) (c : byte) : Prop :=
  match t with
  | Star => False
  | Any => True
  | Literal x => same_letter fold x c
  | Class negated its => if negated then ~ Exists (item_accepts fold c) its else Exists (item_accepts fold c) its
  end.

(** A star stands for any run, every other token for one byte. *)
Inductive denotes (fold : bool) : list token -> bytes -> Prop :=
  | denotes_nil : denotes fold [] []
  | denotes_star ts s1 s2 : denotes fold ts s2 -> denotes fold (Star :: ts) (s1 ++ s2)
  | denotes_one t ts c s : token_accepts fold t c -> denotes fold ts s -> denotes fold (t :: ts) (c :: s).

Definition matches (fold : bool) (pattern s : bytes) : Prop := exists ts, spells pattern ts /\ denotes fold ts s.

(** The same with one step of the code for every token but a star: what the matcher is compared with first. *)
Inductive code_match (fold : bool) : bytes -> bytes -> Prop :=
  | code_match_nil : code_match fold [] []
  | code_match_star p s1 s2 : code_match fold p s2 -> code_match fold (c_star :: p) (s1 ++ s2)
  | code_match_one x p w c s :
      x <> c_star -> matchOne (x :: p) c fold = Some (true, w) ->
      code_match fold (drop (Z.to_nat w) (x :: p)) s -> code_match fold (x :: p) (c :: s).

Definition stars (p : bytes) : Z := zlen (filter (eq c_star) p).

(** ** Facts on the tokens *)

Lemma class_loop_width n p c fold m k : (length p <= n)%nat -> k <= (class_loop p c fold m k).2.
Proof.
  revert p m k. induction n as [|n IH]; intros [|x r] m k Hn; simpl in *; try lia.
  assert (forall r' m' k', (length r' <= length r)%nat -> k <= k' ->
    k <= (class_loop r' c fold m' k').2) as Hrec.
  { intros r' m' k' ??. specialize (IH r' m' k'). lia. }
  destruct (x =? c_rbrack); simpl; [lia|].
  destruct (x =? c_back), r as [|d [|h r']]; try (apply Hrec; simpl; lia).
  destruct (_ && _); apply Hrec; simpl; lia.
Qed.

(** The width of a class does not depend on the byte it is tried on. *)
Lemma class_loop_width_indep n p c c' fold m m' k :
  (length p <= n)%nat -> (class_loop p c fold m k).2 = (class_loop p c' fold m' k).2.
Proof.
  revert p m m' k. induction n as [|n IH]; intros [|x r] m m' k Hn; try (simpl in *; lia); [done..|].
  cbn [class_loop]. simpl in Hn. destruct (x =? c_rbrack); [done|].
  destruct (x =? c_back), r as [|d [|h r']]; try (apply IH; simpl in *; lia).
  destruct (_ && _); apply IH; simpl in *; lia.
Qed.

Lemma matchOne_width_indep p c c' fold m m' w w' :
  matchOne p c fold = Some (m, w) -> matchOne p c' fold = Some (m', w') -> w = w'.
Proof.
  assert (forall r m m' k, (class_loop r c fold m k).2 = (class_loop r c' fold m' k).2) as Hw.
  { intros r b b' k. by apply (class_loop_width_indep (length r)). }
  destruct p as [|x r]; [done|]. unfold matchOne. intros E%Some_inj E'%Some_inj. revert E E'.
  destruct (x =? c_quest); [congruence|]. destruct (x =? c_lbrack).
  - destruct r as [|y r].
    { simpl. congruence. }
    destruct (y =? c_caret).
    + pose proof (Hw r false false 2). repeat case_match; simpl in *; congruence.
    + intros E E'. pose proof (Hw (y :: r) false false 1) as Hk. by rewrite E, E' in Hk.
  - repeat case_match; congruence.
Qed.

Lemma matchOne_width p c fold m w : matchOne p c fold = Some (m, w) -> 1 <= w.
Proof.
  destruct p as [|x r]; [done|]. unfold matchOne. intros E%Some_inj. revert E.
  assert (forall r m k, k <= (class_loop r c fold m k).2) as Hw.
  { intros r' m' k. by apply (class_loop_width (length r')). }
  repeat case_match; intros E; try (injection E as <- <-; lia); try (injection E as <- <-).
  all: match goal with H : class_loop ?r _ _ ?b ?k = _ |- _ =>
         pose proof (Hw r b k) as Hk; rewrite H in Hk; simpl in Hk; lia end.
Qed.

(** What the loop does inline for every token but a star is [matchOne]. *)
Definition one_step (x : byte) (r : bytes) (c : byte) (fold : bool) : option bytes :=
  match matchOne (x :: r) c fold with
  | Some (true, w) => Some (drop (Z.to_nat w) (x :: r))
  | _ => None
  end.

Lemma lower_back c : lower c = c_back <-> c = c_back.
Proof. unfold lower. destruct (_ && _) eqn:E; bool_prop; lia. Qed.

Lemma matchImpl_step fuel x r c s fold skip nesting :
  x <> c_star -> nesting <= maxNesting ->
  matchImpl (S fuel) (x :: r) (c :: s) fold skip nesting =
  match one_step x r c fold with
  | Some p => matchImpl fuel p s fold skip nesting
  | None => (false, skip)
  end.
Proof.
  intros Hx Hn. cbn [matchImpl]. rewrite (proj2 (Z.ltb_ge _ _)) by done.
  rewrite (proj2 (Z.eqb_neq _ _)) by done. unfold one_step.
  destruct (Z.eqb_spec x c_quest) as [->|]; [done|].
  destruct (Z.eqb_spec x c_lbrack) as [->|]; [by repeat case_match|].
  unfold matchOne. rewrite (proj2 (Z.eqb_neq x c_quest)), (proj2 (Z.eqb_neq x c_lbrack)) by done.
  destruct (Z.eqb_spec x c_back) as [->|]; [|by destruct (same_byte _ _ _)].
  destruct r as [|y r]; [|by destruct (same_byte _ _ _)].
  replace (same_byte fold c_back c) with (c =? c_back); [by destruct (_ =? _)|].
  unfold same_byte. destruct fold; [|lia]. apply eq_true_iff_eq. rewrite !Z.eqb_eq.
  pose proof (lower_back c). change (lower c_back) with c_back. lia.
Qed.

Lemma one_step_suffix x r c fold p : one_step x r c fold = Some p -> p `suffix_of` r.
Proof.
  unfold one_step. destruct (matchOne _ _ _) as [[[] w]|] eqn:E; intros [= <-].
  apply matchOne_width in E. replace (Z.to_nat w) with (S (Z.to_nat (w - 1))) by lia.
  simpl. exists (take (Z.to_nat (w - 1)) r). by rewrite take_drop.
Qed.

Lemma skip_stars_suffix p : skip_stars p `suffix_of` p.
Proof.
  induction p as [|x p IH]; simpl; [done|]. destruct (x =? c_star); [|done].
  by apply suffix_cons_r.
Qed.

Lemma skip_stars_head p x q : skip_stars p = x :: q -> x <> c_star.
Proof.
  induction p as [|y p IH]; simpl; [done|].
  destruct (Z.eqb_spec y c_star); [done|congruence].
Qed.

Lemma stars_suffix p q : q `suffix_of` p -> stars q <= stars p.
Proof. intros [k ->]. unfold stars. rewrite filter_app. zlen_lia. Qed.

Lemma stars_cons_star p : stars (c_star :: p) = 1 + stars p.
Proof. unfold stars. rewrite filter_cons_True by done. by rewrite zlen_cons. Qed.

Lemma stars_nonneg p : 0 <= stars p.
Proof. apply zlen_nonneg. Qed.

(** ** Facts on the reference relation *)

Lemma code_match_stars_nil fold p : code_match fold p [] <-> skip_stars p = [].
Proof.
  split.
  - intros H. remember [] as s eqn:Hs. induction H as [|p s1 s2 H IH|]; simplify_eq/=; [done|].
    apply app_nil in Hs as [-> ->]. auto.
  - induction p as [|x p IH]; simpl; [constructor|].
    destruct (Z.eqb_spec x c_star) as [->|]; [|done]. intros. apply (code_match_star fold p [] []). auto.
Qed.

Lemma code_match_one_inv fold x r c s :
  x <> c_star ->
  code_match fold (x :: r) (c :: s) <-> exists p, one_step x r c fold = Some p /\ code_match fold p s.
Proof.
  intros Hx. unfold one_step. split.
  - inversion 1 as [| |? ? w ? ? ? E]; simplify_eq. rewrite E. eauto.
  - intros (p & E & H). destruct (matchOne _ _ _) as [[[] w]|] eqn:E'; simplify_eq.
    by eapply code_match_one.
Qed.

Lemma code_match_one_nil fold x r : x <> c_star -> ~ code_match fold (x :: r) [].
Proof. intros Hx. inversion 1; simplify_eq/=. Qed.

Lemma code_match_star_inv fold p s :
  code_match fold (c_star :: p) s <-> exists t, t `suffix_of` s /\ code_match fold p t.
Proof.
  split.
  - inversion 1; simplify_eq. eexists; split; [by eexists|done]. 
  - intros (t & [s1 ->] & H). by constructor.
Qed.

(** A run of stars is one star. *)
Lemma code_match_skip_stars fold r s :
  code_match fold (c_star :: r) s <-> code_match fold (c_star :: skip_stars r) s.
Proof.
  revert s. induction r as [|x r IH]; intros s; [done|]. simpl.
  destruct (Z.eqb_spec x c_star) as [->|]; [|done]. rewrite <- IH, !code_match_star_inv.
  setoid_rewrite code_match_star_inv. split.
  - intros (t & ? & u & ? & ?). exists u. split; [by etrans|done].
  - intros (t & ? & ?). eauto.
Qed.

(** ** Correctness *)

(** What a run with an unset flag reports: a match; a failure; or, with the flag raised, that
    no suffix of the string can match either. *)
Definition verdict (fold : bool) (p s : bytes) (res : bool * bool) : Prop :=
  match res with
  | (true, _) => code_match fold p s
  | (false, false) => ~ code_match fold p s
  | (false, true) => forall t, t `suffix_of` s -> ~ code_match fold p t
  end.

Lemma star_loop_verdict fold q rec s :
  ~ code_match fold q [] ->
  (forall t, t `suffix_of` s -> t <> [] -> verdict fold q t (rec t false)) ->
  verdict fold (c_star :: q) s (star_loop rec s false).
Proof.
  intros Hnil. induction s as [|c s IH]; intros Hrec; simpl.
  { intros t Ht. apply suffix_nil_inv in Ht as ->. rewrite code_match_star_inv.
    intros (u & ->%suffix_nil_inv & ?). done. }
  specialize (IH (fun t Ht => Hrec t (suffix_cons_r _ _ _ Ht))).
  specialize (Hrec (c :: s) (reflexivity _) ltac:(done)).
  destruct (rec (c :: s) false) as [[] []]; simpl in *.
  - apply (code_match_star fold q [] (c :: s)). done.
  - apply (code_match_star fold q [] (c :: s)). done.
  - intros t Ht. rewrite code_match_star_inv. intros (u & Hu & ?). apply (Hrec u); [by etrans|done].
  - assert (forall u, u `suffix_of` c :: s -> code_match fold q u -> u `suffix_of` s) as Hsh.
    { intros u [[|? k] Hk] Hm; simplify_eq/=; [done|by eexists]. }
    destruct (star_loop rec s false) as [[] []]; simpl in *.
    + apply code_match_star_inv in IH as (u & ? & ?). apply code_match_star_inv. eauto using suffix_cons_r.
    + apply code_match_star_inv in IH as (u & ? & ?). apply code_match_star_inv. eauto using suffix_cons_r.
    + intros t Ht. rewrite code_match_star_inv. intros (u & Hu & Hm).
      apply (IH s); [done|]. apply code_match_star_inv. exists u. split; [|done].
      apply Hsh; [by etrans|done].
    + rewrite code_match_star_inv. intros (u & Hu & Hm). apply IH, code_match_star_inv. eauto.
Qed.

Lemma no_suffix_step fold x r c s p :
  x <> c_star -> one_step x r c fold = Some p ->
  (forall t, t `suffix_of` s -> ~ code_match fold p t) ->
  forall t, t `suffix_of` c :: s -> ~ code_match fold (x :: r) t.
Proof.
  intros Hx E Hno [|d t] Ht; [by apply code_match_one_nil|].
  rewrite code_match_one_inv by done. intros (p' & E' & Hm).
  replace p' with p in Hm.
  - apply (Hno t); [|done]. destruct Ht as [[|? k] Hk]; simplify_eq/=; [done|].
    exists (k ++ [d]). by rewrite <- app_assoc.
  - revert E E'. unfold one_step.
    destruct (matchOne _ c _) as [[[] w]|] eqn:E1; [|done..].
    destruct (matchOne _ d _) as [[[] w']|] eqn:E2; [|done..].
    replace w' with w by (by eapply matchOne_width_indep). congruence.
Qed.

Lemma matchImpl_verdict fold fuel p s nesting :
  (length p < fuel)%nat -> nesting + stars p <= maxNesting ->
  verdict fold p s (matchImpl fuel p s fold false nesting).
Proof.
  revert p s nesting. induction fuel as [|fuel IH]; intros p s nesting Hf Hn; [lia|].
  pose proof (stars_nonneg p).
  destruct p as [|x r].
  { cbn [matchImpl]. rewrite (proj2 (Z.ltb_ge _ _)) by lia. destruct s; simpl; [constructor|by inversion 1]. }
  destruct s as [|c s].
  { cbn [matchImpl]. rewrite (proj2 (Z.ltb_ge _ _)) by lia. rewrite andb_true_r. cbn [is_nil].
    destruct (skip_stars (x :: r)) eqn:E; cbn [is_nil verdict]; rewrite code_match_stars_nil; congruence. }
  destruct (Z.eq_dec x c_star) as [->|Hx].
  - cbn [matchImpl]. rewrite (proj2 (Z.ltb_ge _ _)) by lia. rewrite Z.eqb_refl. cbv zeta.
    rewrite stars_cons_star in Hn. simpl in Hf.
    pose proof (stars_suffix _ _ (skip_stars_suffix r)).
    pose proof (suffix_length _ _ (skip_stars_suffix r)).
    assert (forall res, verdict fold (c_star :: skip_stars r) (c :: s) res ->
              verdict fold (c_star :: r) (c :: s) res) as Hv.
    { intros [[] []]; simpl; setoid_rewrite <- code_match_skip_stars; done. }
    apply Hv. destruct (skip_stars r) as [|y q] eqn:E; cbn [is_nil].
    { simpl. rewrite <- (app_nil_r (c :: s)). constructor. constructor. }
    apply star_loop_verdict.
    { apply code_match_one_nil. by eapply skip_stars_head. }
    intros t _ _. apply IH; lia.
  - rewrite matchImpl_step by lia.
    destruct (one_step x r c fold) as [p|] eqn:E; cycle 1.
    { simpl. rewrite code_match_one_inv by done. naive_solver. }
    pose proof (one_step_suffix _ _ _ _ _ E) as Hs. pose proof (suffix_length _ _ Hs).
    assert (stars r <= stars (x :: r)) by (apply stars_suffix; by apply suffix_cons_r).
    pose proof (stars_suffix _ _ Hs). simpl in Hf.
    specialize (IH p s nesting ltac:(lia) ltac:(lia)).
    destruct (matchImpl fuel p s fold false nesting) as [[] []]; simpl in *.
    + apply code_match_one_inv; eauto.
    + apply code_match_one_inv; eauto.
    + by eapply no_suffix_step.
    + rewrite code_match_one_inv by done. naive_solver.
Qed.

Lemma matchImpl_sound fold fuel p s skip nesting :
  (matchImpl fuel p s fold skip nesting).1 = true -> code_match fold p s.
Proof.
  revert p s skip nesting. induction fuel as [|fuel IH]; intros p s skip nesting; [done|].
  destruct (Z.le_gt_cases nesting maxNesting) as [Hn|Hn]; cycle 1.
  { cbn [matchImpl]. by rewrite (proj2 (Z.ltb_lt _ _)) by lia. }
  destruct p as [|x r].
  { cbn [matchImpl]. rewrite (proj2 (Z.ltb_ge _ _)) by lia. destruct s; simpl; [constructor|done]. }
  destruct s as [|c s].
  { cbn [matchImpl]. rewrite (proj2 (Z.ltb_ge _ _)) by lia. cbn [is_nil]. rewrite code_match_stars_nil.
    by destruct (skip_stars (x :: r)). }
  destruct (Z.eq_dec x c_star) as [->|Hx].
  - cbn [matchImpl]. rewrite (proj2 (Z.ltb_ge _ _)) by lia. rewrite Z.eqb_refl. cbv zeta.
    rewrite code_match_skip_stars. destruct (skip_stars r) as [|y q] eqn:E; cbn [is_nil].
    { intros _. rewrite <- (app_nil_r (c :: s)). constructor. constructor. }
    generalize (c :: s) as u. clear - IH. intros u. revert skip.
    induction u as [|d u IHu]; intros skip; [done|]. simpl.
    destruct (matchImpl fuel (y :: q) (d :: u) fold skip (nesting + 1)) as [[] sk] eqn:Er.
    { intros _. apply (code_match_star fold (y :: q) [] (d :: u)). eapply IH. by rewrite Er. }
    destruct sk; [done|]. intros H%IHu. apply code_match_star_inv in H as (t & ? & ?).
    apply code_match_star_inv. eauto using suffix_cons_r.
  - rewrite matchImpl_step by lia. destruct (one_step x r c fold) eqn:E; [|done].
    intros H%IH. apply code_match_one_inv; eauto.
Qed.

(** ** The steps of the code follow the syntax *)

Lemma lowercase_lower x l : lowercase x l <-> l = lower x.
Proof.
  unfold lower. destruct (_ && _) eqn:E; bool_prop; (split; [by inversion 1; lia|intros ->]).
  - apply lowercase_capital. lia.
  - apply lowercase_other. lia.
Qed.

Lemma same_byte_spec fold x c : same_byte fold x c = true <-> same_letter fold x c.
Proof.
  unfold same_byte, same_letter. destruct fold; rewrite Z.eqb_eq; [|done]. setoid_rewrite lowercase_lower. naive_solver.
Qed.

Lemma in_class_range_spec fold lo hi c : in_class_range fold lo hi c = true <-> between fold lo hi c.
Proof.
  unfold in_class_range, between.
  destruct (Z.ltb_spec hi lo); [rewrite Z.min_r, Z.max_l by lia|rewrite Z.min_l, Z.max_r by lia]; destruct fold; rewrite andb_true_iff, !Z.leb_le; try done; setoid_rewrite lowercase_lower; naive_solver.
Qed.

(** A class is read to the end of its spelling and accepts what one of its items does. *)
Lemma class_loop_spells p its q c fold m k : spells_items p its q ->
  exists b, class_loop p c fold m k = (b, k + zlen p - zlen q) /\ (b = true <-> m = true \/ Exists (item_accepts fold c) its) /\ q `suffix_of` p.
Proof.
  intros H. revert m k. induction H as [|p|x p its q H IH|lo hi p its q Hlo Hb Hhi H IH|x p its q Hx Hb Hd H IH]; intros m k; cbn [class_loop].
  - exists m. rewrite Exists_nil. split_and!; [f_equal; zlen_lia|naive_solver|done].
  - exists m. rewrite Exists_nil. split_and!; [f_equal; zlen_lia|naive_solver|by exists [c_rbrack]].
  - destruct (IH (m || (x =? c)) (k + 2)) as (b & E & Hbm & Hs). exists b. split_and!.
    + cbn. rewrite E. f_equal. zlen_lia.
    + rewrite Hbm, orb_true_iff, Exists_cons, Z.eqb_eq. cbn. naive_solver.
    + by do 2 apply suffix_cons_r.
  - rewrite (proj2 (Z.eqb_neq lo _)), (proj2 (Z.eqb_neq lo c_back)), (proj2 (Z.eqb_neq hi _)) by done.
    destruct (IH (m || in_class_range fold lo hi c) (k + 3)) as (b & E & Hbm & Hs). exists b. split_and!.
    + cbn. rewrite E. f_equal. zlen_lia.
    + rewrite Hbm, orb_true_iff, Exists_cons, in_class_range_spec. cbn. naive_solver.
    + by do 3 apply suffix_cons_r.
  - rewrite (proj2 (Z.eqb_neq x _)) by done. destruct (IH (m || same_byte fold x c) (k + 1)) as (b & E & Hbm & Hs). exists b. split_and!.
    + assert (class_loop p c fold (m || same_byte fold x c) (k + 1) = (b, k + zlen (x :: p) - zlen q)) as E' by (rewrite E; f_equal; zlen_lia).
      destruct (Z.eqb_spec x c_back) as [->|]; [rewrite Hb in * by done; exact E'|]. destruct p as [|d [|h p]]; [exact E'..|].
      destruct (Z.eqb_spec d c_dash) as [->|]; [|exact E']. pose proof (Hd h p eq_refl) as ->. exact E'.
    + rewrite Hbm, orb_true_iff, Exists_cons, same_byte_spec. cbn. naive_solver.
    + by apply suffix_cons_r.
Qed.

Lemma spells_items_total n p : (length p <= n)%nat -> exists its q, spells_items p its q.
Proof.
  revert p. induction n as [|n IH]; intros [|x p] Hn; cbn in Hn; try lia; try (by exists [], []; constructor).
  destruct (Z.eq_dec x c_rbrack) as [->|Hx]; [by exists [], p; constructor|].
  assert (exists its q, spells_items p its q) as (its1 & q1 & H1) by (apply IH; lia).
  destruct p as [|d p]; [exists (Byte x :: its1), q1; by constructor|].
  destruct (Z.eq_dec x c_back) as [->|Hb].
  { destruct (IH p) as (its & q & H); [cbn in *; lia|]. exists (Escaped d :: its), q. by constructor. }
  destruct p as [|h p]; [exists (Byte x :: its1), q1; by constructor|].
  destruct (Z.eq_dec d c_dash) as [->|Hd]; [destruct (Z.eq_dec h c_rbrack) as [->|Hh]|]; [exists (Byte x :: its1), q1; constructor; naive_solver| |exists (Byte x :: its1), q1; constructor; naive_solver].
  destruct (IH p) as (its & q & H); [cbn in *; lia|]. exists (Range x h :: its), q. by constructor.
Qed.

Lemma drop_suffix {A} (p q : list A) n : q `suffix_of` p -> n = zlen p - zlen q -> drop (Z.to_nat n) p = q.
Proof. intros [k ->] ->. rewrite zlen_app. replace (zlen k + zlen q - zlen q) with (zlen k) by lia. unfold zlen. rewrite Nat2Z.id. apply drop_app_length. Qed.

(** The head of a pattern that is not a star is one token, which [matchOne] tries and steps over. *)
Definition head_token (p : bytes) (t : token) (q : bytes) : Prop :=
  (forall ts, spells q ts -> spells p (t :: ts)) /\
  forall c fold, exists b w, matchOne p c fold = Some (b, w) /\ (b = true <-> token_accepts fold t c) /\ drop (Z.to_nat w) p = q.

Lemma class_head p its q : head p <> Some c_caret -> spells_items p its q -> head_token (c_lbrack :: p) (Class false its) q.
Proof.
  intros Hh H. split; [intros ts Hts; by eapply spells_class|]. intros c fold. destruct (class_loop_spells p its q c fold false 1 H) as (b & E & Hb & Hs).
  exists b, (1 + zlen p - zlen q). split_and!; [|rewrite Hb; cbn; naive_solver|apply drop_suffix; [by apply suffix_cons_r|zlen_lia]].
  cbn -[class_loop]. rewrite <- E. destruct p as [|y p]; [done|]. destruct (Z.eqb_spec y c_caret) as [->|]; done.
Qed.

Lemma negated_head p its q : spells_items p its q -> head_token (c_lbrack :: c_caret :: p) (Class true its) q.
Proof.
  intros H. split; [intros ts Hts; by eapply spells_negated|]. intros c fold. destruct (class_loop_spells p its q c fold false 2 H) as (b & E & Hb & Hs).
  exists (negb b), (2 + zlen p - zlen q). split_and!; [cbn -[class_loop]; by rewrite E| |apply drop_suffix; [by do 2 apply suffix_cons_r|zlen_lia]].
  cbn. destruct b; cbn; naive_solver.
Qed.

Lemma literal_head x p : x ∉ [c_star; c_quest; c_lbrack; c_back] -> head_token (x :: p) (Literal x) p.
Proof.
  intros Hx. split; [intros ts Hts; by apply spells_literal|]. intros c fold. exists (same_byte fold x c), 1. split_and!; [|apply same_byte_spec|done].
  cbn. rewrite !(proj2 (Z.eqb_neq x _)); [done|set_solver..].
Qed.

Lemma any_head p : head_token (c_quest :: p) Any p.
Proof. split; [by constructor|]. intros c fold. by exists true, 1. Qed.

Lemma escape_head x p : head_token (c_back :: x :: p) (Literal x) p.
Proof. split; [by constructor|]. intros c fold. exists (same_byte fold x c), 2. split_and!; [done|apply same_byte_spec|done]. Qed.

Lemma backslash_head : head_token [c_back] (Literal c_back) [].
Proof.
  split; [intros ts Hts; inversion Hts; subst; constructor|]. intros c fold. exists (c =? c_back), 1. split_and!; [done| |done].
  rewrite Z.eqb_eq. cbn. unfold same_letter. destruct fold; [|naive_solver]. setoid_rewrite lowercase_lower. change (lower c_back) with c_back.
  pose proof (lower_back c). naive_solver.
Qed.

Lemma head_token_total x p : x <> c_star -> exists t q, head_token (x :: p) t q.
Proof.
  intros Hx. destruct (Z.eq_dec x c_quest) as [->|]; [eauto using any_head|]. destruct (Z.eq_dec x c_lbrack) as [->|].
  { destruct p as [|y p]; [eexists _, []; apply class_head; [done|constructor]|]. destruct (Z.eq_dec y c_caret) as [->|].
    - destruct (spells_items_total _ p (le_n _)) as (its & q & H). eauto using negated_head.
    - destruct (spells_items_total _ (y :: p) (le_n _)) as (its & q & H). eexists _, q. apply class_head; [cbn; congruence|done]. }
  destruct (Z.eq_dec x c_back) as [->|]; [destruct p; eauto using escape_head, backslash_head|]. eexists _, p. apply literal_head. set_solver.
Qed.

(** In a reading, too, the first token is the one at the head. *)
Lemma spells_head p t ts : spells p (t :: ts) -> t <> Star -> exists x r q, p = x :: r /\ x <> c_star /\ head_token p t q /\ spells q ts.
Proof.
  inversion 1; simplify_eq; intros Ht; try done; (eexists _, _, _; split_and!; [done| | |done || constructor]); try done; try set_solver.
  all: eauto using any_head, negated_head, class_head, escape_head, literal_head, backslash_head.
Qed.

Lemma code_matches fold p s : code_match fold p s -> matches fold p s.
Proof.
  induction 1 as [|p s1 s2 _ (ts & Hp & Hs)|x p w c s Hx E _ (ts & Hp & Hs)]; [by exists []; repeat constructor|exists (Star :: ts); by repeat constructor|].
  destruct (head_token_total x p Hx) as (t & q & Hsp & Ht). destruct (Ht c fold) as (b & w' & E' & Hb & Hq). simplify_eq. exists (t :: ts). split; [auto|]. constructor; [by apply Hb|done].
Qed.

Lemma matches_code fold p s : matches fold p s -> code_match fold p s.
Proof.
  intros (ts & Hp & Hs). revert p Hp. induction Hs as [|ts s1 s2 _ IH|t ts c s Ht _ IH]; intros p Hp.
  - inversion Hp; subst; constructor.
  - inversion Hp; subst. constructor. auto.
  - destruct (spells_head p t ts Hp) as (x & r & q & -> & Hx & [_ Hh] & Hq); [by intros ->|]. destruct (Hh c fold) as (b & w & E & Hb & <-).
    eapply code_match_one; [done| |by apply IH]. rewrite E. do 2 f_equal. by apply Hb.
Qed.

(** Every pattern has a reading, and only one. *)
Lemma spells_items_unique p its q its' q' : spells_items p its q -> spells_items p its' q' -> its = its' /\ q = q'.
Proof. intros H. revert its' q'. induction H; inversion 1; simplify_eq; naive_solver. Qed.

Lemma spells_unique p ts ts' : spells p ts -> spells p ts' -> ts = ts'.
Proof.
  intros H. revert ts'. induction H; inversion 1; simplify_eq; try done; try set_solver; try (f_equal; by auto).
  all: match goal with H1 : spells_items _ _ _, H2 : spells_items _ _ _ |- _ => destruct (spells_items_unique _ _ _ _ _ H1 H2) as [-> ->] end; f_equal; auto.
Qed.

Lemma spells_total n p : (length p <= n)%nat -> exists ts, spells p ts.
Proof.
  revert p. induction n as [|n IH]; intros [|x p] Hn; cbn in Hn; try lia; try (by exists []; constructor).
  destruct (Z.eq_dec x c_star) as [->|Hx]; [destruct (IH p) as [ts ?]; [lia|]; exists (Star :: ts); by constructor|].
  destruct (head_token_total x p Hx) as (t & q & Hsp & Ht). destruct (Ht 0 false) as (b & w & E & _ & Hq). apply matchOne_width in E as Hw.
  destruct (IH q) as [ts Hts]; [|exists (t :: ts); auto]. subst q. rewrite length_drop. cbn. lia.
Qed.

(** ** Properties *)

(** C33. Soundness: whatever the pattern, a string the matcher accepts (case-sensitively or folded) matches it by the documented
    syntax: a star stands for any run, a question mark for any byte, a class for the bytes its items and ranges name, or for the
    others when it starts with a caret, a backslash for the byte after it, anything else for itself. *)
Theorem glob_match_sound pattern s fold : matchBytes pattern s fold = true -> matches fold pattern s.
Proof. intros H. by eapply code_matches, matchImpl_sound. Qed.

Lemma glob_match_sound_witness : matches false (str "h[^e]*o?") (str "hallo!").
Proof. apply glob_match_sound. vm_compute. reflexivity. Defined.

(** C34. Completeness up to the nesting limit: a pattern of at most [maxNesting] stars accepts every string that matches it by the
    documented syntax, so the [skipLongerMatches] bail-out never loses a match. *)
Theorem glob_match_complete pattern s fold :
  stars pattern <= maxNesting -> matches fold pattern s -> matchBytes pattern s fold = true.
Proof.
  intros Hn Hm%matches_code. pose proof (matchImpl_verdict fold (S (length pattern)) pattern s 0) as Hv.
  unfold matchBytes. destruct (matchImpl _ _ _ _ _ _) as [[] []]; simpl in *; [done..| |].
  - exfalso. eapply Hv; [lia|lia|done|done].
  - exfalso. apply Hv; [lia|lia|done].
Qed.

Lemma glob_match_complete_witness :
  stars (str "*[^a-c]\*") <= maxNesting /\ matchBytes (str "*[^a-c]\*") (str "xaD*") false = true.
Proof.
  split; [vm_compute; congruence|]. apply glob_match_complete; [vm_compute; congruence|].
  exists [Star; Class true [Range 97 99]; Literal 42]. split.
  - apply spells_star. eapply spells_negated; [apply spells_range; [lia..|apply spells_close]|]. apply spells_escape. apply spells_nil.
  - apply (denotes_star false _ (str "xa") (str "D*")). apply denotes_one; [|apply denotes_one; [reflexivity|constructor]].
    cbn. intros [H|H]%Exists_cons; [cbn in H; lia|inversion H].
Defined.
