(* ===== verification/Bitmap.v ===== *)
(** * Bitmaps ([datastruct/bitmap/bitmap.go])

    A string as an array of bits, the most significant bit of a byte first.  The code works on
    64-bit words, four at a time, with a tail of single words and bytes; the theorems say that it does what
    the bits say one by one.  A word is read from memory with [Uint64] and written back with [PutUint64], little
    end first.  A Go slice is its visible bytes and the [spare] ones between its length and its capacity: [SetBit]
    grows into them. *)

From S2P Require Import Prelude Strconv.
Local Open Scope Z_scope.

(** ** Loops *)

(** [for ; i+w <= n; i += w { a = body i a }] *)
Fixpoint for_loop {A} (fuel : nat) (w n : Z) (body : Z -> A -> option A) (i : Z) (a : A) : option (Z * A) :=
  if i + w <=? n then
    match fuel with
    | O => None
    | S fuel => a ← body i a; for_loop fuel w n body (i + w) a
    end
  else Some (i, a).

(** [for ; i+w <= n; i += w { if stop i { break } }] *)
Fixpoint skip_loop (fuel : nat) (w n : Z) (stop : Z -> option bool) (i : Z) : option Z :=
  if i + w <=? n then
    match fuel with
    | O => None
    | S fuel => b ← stop i; if (b : bool) then Some i else skip_loop fuel w n stop (i + w)
    end
  else Some i.

(** ** Words *)

(** [uint64(b[0]) | uint64(b[1])<<8 | ...] *)
Fixpoint le_word (l : bytes) : Z :=
  match l with
  | [] => 0
  | b :: l => Z.lor (u8 b) (Z.shiftl (le_word l) 8)
  end.

(** [byte(x), byte(x>>8), ...] *)
Fixpoint le_bytes (n : nat) (x : Z) : bytes :=
  match n with
  | O => []
  | S n => u8 x :: le_bytes n (Z.shiftr x 8)
  end.

(** [binary.LittleEndian.Uint64(b[i:i+8])] *)
Definition Uint64 (b : bytes) (i : Z) : option Z := le_word <$> go_slice b i (i + 8).

(** [binary.LittleEndian.PutUint64(b[i:i+8], x)] *)
Definition PutUint64 (b : bytes) (i x : Z) : option bytes :=
  _ ← go_slice b i (i + 8);
  Some (take (Z.to_nat i) b ++ le_bytes 8 x ++ drop (Z.to_nat (i + 8)) b).

(** The set bits among the lowest [n]. *)
Fixpoint count_bits (n : nat) (x : Z) : Z :=
  match n with
  | O => 0
  | S n => Z.b2z (Z.odd x) + count_bits n (Z.div2 x)
  end.

(** [bits.OnesCount64], [bits.OnesCount8] and [bits.LeadingZeros8] *)
Definition OnesCount64 (x : Z) : Z := count_bits 64 x.
Definition OnesCount8 (x : Z) : Z := count_bits 8 x.
Definition LeadingZeros8 (x : Z) : Z := if x =? 0 then 8 else 7 - Z.log2 x.

(** ** The operations *)

Record slice := mkSlice { buf : bytes; spare : bytes }.

Definition cap (s : slice) : Z := zlen (buf s) + zlen (spare s).

Definition grow (s : slice) (byteIdx : Z) : slice :=
  if zlen (buf s) <=? byteIdx then
    if byteIdx <? cap s then
      let all := buf s ++ spare s in
      mkSlice (take (Z.to_nat (byteIdx + 1)) all) (drop (Z.to_nat (byteIdx + 1)) all)
    else
      let newCap := (byteIdx + 1) * 2 in
      let newCap := if newCap <? 64 then 64 else newCap in
      mkSlice (buf s ++ replicate (Z.to_nat (byteIdx + 1 - zlen (buf s))) 0) (replicate (Z.to_nat (newCap - (byteIdx + 1))) 0)
  else s.

(** [b |= 1 << bitIdx] or [b &= ^(1 << bitIdx)] *)
Definition put_bit (b bitIdx val : Z) : Z :=
  if val =? 1 then Z.lor b (Z.shiftl 1 bitIdx) else Z.land b (Z.lnot (Z.shiftl 1 bitIdx)).

Definition SetBit (s : slice) (offset val : Z) : option (slice * Z) :=
  if offset <? 0 then Some (s, 0)
  else
    let byteIdx := Z.quot offset 8 in
    let bitIdx := 7 - Z.rem offset 8 in
    let s := grow s byteIdx in
    b ← go_at (buf s) byteIdx;
    buf' ← go_set (buf s) byteIdx (put_bit b bitIdx val);
    Some (mkSlice buf' (spare s), Z.land (Z.shiftr b bitIdx) 1).

Definition GetBit (buf : bytes) (offset : Z) : option Z :=
  if offset <? 0 then Some 0
  else
    let byteIdx := Z.quot offset 8 in
    if zlen buf <=? byteIdx then Some 0
    else
      b ← go_at buf byteIdx;
      Some (Z.land (Z.shiftr b (7 - Z.rem offset 8)) 1).

(** The bounds of a range of bytes: negative ones count from the end. *)
Definition from_end (n x : Z) : Z :=
  let x := if x <? 0 then n + x else x in
  if x <? 0 then 0 else x.

(** The three counting loops. *)
Definition count_words (sub : bytes) : option Z :=
  let fuel := length sub in
  let subLen := zlen sub in
  '(i, count) ← for_loop fuel 32 subLen (fun i count =>
    w0 ← Uint64 sub i; w1 ← Uint64 sub (i + 8); w2 ← Uint64 sub (i + 16); w3 ← Uint64 sub (i + 24);
    Some (count + (OnesCount64 w0 + OnesCount64 w1 + OnesCount64 w2 + OnesCount64 w3))) 0 0;
  '(i, count) ← for_loop fuel 8 subLen (fun i count => w ← Uint64 sub i; Some (count + OnesCount64 w)) i count;
  '(_, count) ← for_loop fuel 1 subLen (fun i count => b ← go_at sub i; Some (count + OnesCount8 b)) i count;
  Some count.

Definition BitCount (buf : bytes) (start end_ : Z) : option Z :=
  let n := zlen buf in
  if n =? 0 then Some 0
  else
    let start := from_end n start in
    let end_ := from_end n end_ in
    if (n <=? start) || (end_ <? start) then Some 0
    else
      let end_ := if n <=? end_ then n - 1 else end_ in
      sub ← go_slice buf start (end_ + 1);
      count_words sub.

Definition ones64 : Z := 0xFFFFFFFFFFFFFFFF.

(** The three skipping loops: past the bytes that are [z], four words, one word and one byte at a time; [t4] and [t]
    are the tests on words that end them. *)
Definition skip_words (t4 : Z -> Z -> Z -> Z -> bool) (t : Z -> bool) (z : Z) (sub : bytes) : option Z :=
  let fuel := length sub in
  let subLen := zlen sub in
  i ← skip_loop fuel 32 subLen (fun i =>
    w0 ← Uint64 sub i; w1 ← Uint64 sub (i + 8); w2 ← Uint64 sub (i + 16); w3 ← Uint64 sub (i + 24);
    Some (t4 w0 w1 w2 w3)) 0;
  i ← skip_loop fuel 8 subLen (fun i => w ← Uint64 sub i; Some (t w)) i;
  skip_loop fuel 1 subLen (fun i => b ← go_at sub i; Some (negb (u8 b =? z))) i.

(** The index of the first byte with a set bit, and of the first with a clear one. *)
Definition skip_zeros : bytes -> option Z :=
  skip_words (fun w0 w1 w2 w3 => negb (Z.lor (Z.lor (Z.lor w0 w1) w2) w3 =? 0)) (fun w => negb (w =? 0)) 0.
Definition skip_ones : bytes -> option Z :=
  skip_words (fun w0 w1 w2 w3 => negb (Z.land (Z.land (Z.land w0 w1) w2) w3 =? ones64)) (fun w => negb (w =? ones64)) 255.

Definition BitPos (buf : bytes) (bitVal start end_ : Z) (hasEnd : bool) : option Z :=
  let n := zlen buf in
  let start := from_end n start in
  let end_ := from_end n end_ in
  if n <=? start then Some (if (bitVal =? 0) && negb hasEnd then n * 8 else -1)
  else
    let end_ := if n <=? end_ then n - 1 else end_ in
    if end_ <? start then Some (-1)
    else
      sub ← go_slice buf start (end_ + 1);
      if bitVal =? 1 then
        i ← skip_zeros sub;
        if i <? zlen sub then b ← go_at sub i; Some ((start + i) * 8 + LeadingZeros8 (u8 b))
        else Some (-1)
      else
        i ← skip_ones sub;
        if i <? zlen sub then b ← go_at sub i; Some ((start + i) * 8 + LeadingZeros8 (u8 (Z.lnot b)))
        else Some (if negb hasEnd then n * 8 else -1).

(** The loops that combine [s] into [dst]. *)
Definition combine (op : Z -> Z -> Z) (dst s : bytes) : option bytes :=
  let fuel := length s in
  let sLen := zlen s in
  '(i, dst) ← for_loop fuel 32 sLen (fun i dst =>
    d0 ← Uint64 dst i; s0 ← Uint64 s i; d1 ← Uint64 dst (i + 8); s1 ← Uint64 s (i + 8);
    d2 ← Uint64 dst (i + 16); s2 ← Uint64 s (i + 16); d3 ← Uint64 dst (i + 24); s3 ← Uint64 s (i + 24);
    dst ← PutUint64 dst i (op d0 s0);
    dst ← PutUint64 dst (i + 8) (op d1 s1);
    dst ← PutUint64 dst (i + 16) (op d2 s2);
    PutUint64 dst (i + 24) (op d3 s3)) 0 dst;
  '(i, dst) ← for_loop fuel 8 sLen (fun i dst => d ← Uint64 dst i; w ← Uint64 s i; PutUint64 dst i (op d w)) i dst;
  '(_, dst) ← for_loop fuel 1 sLen (fun i dst => d ← go_at dst i; b ← go_at s i; go_set dst i (u8 (op d b))) i dst;
  Some dst.

(** [for ; i < maxLen; i++ { dst[i] = 0 }], from [i = sLen] *)
Definition clear_from (dst : bytes) (sLen : Z) : bytes :=
  take (Z.to_nat sLen) dst ++ replicate (length dst - Z.to_nat sLen) 0.

Fixpoint combine_all (op : Z -> Z -> Z) (clear : bool) (dst : bytes) (srcs : list bytes) : option bytes :=
  match srcs with
  | [] => Some dst
  | s :: srcs =>
    dst ← combine op dst s;
    combine_all op clear (if clear then clear_from dst (zlen s) else dst) srcs
  end.

Definition BitOp (op : bytes) (srcs : list bytes) : option bytes :=
  let op := ToUpper op in
  match srcs with
  | [] => Some []
  | s0 :: rest =>
    if bool_decide (op = str "NOT") then combine (fun _ w => Z.lnot w) (replicate (length s0) 0) s0
    else
      let maxLen := foldl (fun m s => if m <? zlen s then zlen s else m) 0 srcs in
      if maxLen =? 0 then Some []
      else
        let dst := replicate (Z.to_nat maxLen) 0 in
        if bool_decide (op = str "AND") then
          combine_all Z.land true ((u8 <$> s0) ++ replicate (Z.to_nat maxLen - length s0) 0) rest
        else if bool_decide (op = str "OR") then combine_all Z.lor false dst srcs
        else if bool_decide (op = str "XOR") then combine_all Z.lxor false dst srcs
        else Some dst
  end.

(** ** The bits of a string *)

(** Bit [i], counted from the most significant bit of the first byte; clear past the end. *)
Definition bit (l : bytes) (i : nat) : bool := Z.testbit (default 0 (l !! (i / 8)%nat)) (7 - Z.of_nat (i mod 8)).

Definition byte_bits (b : Z) : list bool := (fun i => Z.testbit b (7 - i)) <$> [0; 1; 2; 3; 4; 5; 6; 7].
Definition bits_of (l : bytes) : list bool := concat (byte_bits <$> l).

Definition count_true (l : list bool) : Z := zlen (filter (fun b => b = true) l).

(** ** Rules for the loops *)

(** An invariant of the body holds at the end, and the index has run as far as it can. *)
Lemma for_loop_rule {A} (I : Z -> A -> Prop) fuel w n body i a :
  0 < w -> I i a -> 0 <= i <= n -> n - i <= Z.of_nat fuel ->
  (forall j b, i <= j -> j + w <= n -> I j b -> exists b', body j b = Some b' /\ I (j + w) b') ->
  exists j b, for_loop fuel w n body i a = Some (j, b) /\ I j b /\ i <= j <= n /\ n < j + w.
Proof.
  intros Hw. revert i a. induction fuel as [|fuel IH]; intros i a Hi Hn Hf Hb; cbn [for_loop]; destruct (Z.leb_spec (i + w) n) as [Hle|Hgt].
  - lia.
  - exists i, a. split_and!; [done..|lia|lia|lia].
  - destruct (Hb i a) as (a' & -> & Ha'); [lia..|done|]. cbn [mbind option_bind]. destruct (IH (i + w) a') as (j & b & -> & ? & ? & ?); [done|lia|lia|intros; apply Hb; lia || done|].
    exists j, b. split_and!; [done..|lia|lia|lia].
  - exists i, a. split_and!; [done..|lia|lia|lia].
Qed.

Lemma skip_loop_rule (I : Z -> Prop) fuel w n stop i :
  0 < w -> I i -> 0 <= i <= n -> n - i <= Z.of_nat fuel ->
  (forall j, 0 <= j -> j + w <= n -> I j -> exists b, stop j = Some b /\ (b = false -> I (j + w))) ->
  exists j, skip_loop fuel w n stop i = Some j /\ I j /\ i <= j <= n /\ (j + w <= n -> stop j = Some true).
Proof.
  intros Hw. revert i. induction fuel as [|fuel IH]; intros i Hi Hn Hf Hb; cbn [skip_loop]; destruct (Z.leb_spec (i + w) n) as [Hle|Hgt].
  - lia.
  - exists i. split_and!; [done..|lia|lia|lia].
  - destruct (Hb i) as (b & Eb & Hn'); [lia..|done|]. rewrite Eb. cbn [mbind option_bind]. destruct b.
    { exists i. split_and!; [done..|lia|lia|done]. }
    destruct (IH (i + w)) as (j & -> & ? & ? & ?); [by apply Hn'|lia|lia|done|].
    exists j. split_and!; [done..|lia|lia|done].
  - exists i. split_and!; [done..|lia|lia|lia].
Qed.

(** ** Rules for words *)

(** A slice of eight bytes extends the prefix before it. *)
Lemma slice_take {A : Type} (l : list A) i w :
  0 <= i -> 0 <= w -> i + w <= zlen l ->
  exists k, go_slice l i (i + w) = Some k /\ zlen k = w /\ take (Z.to_nat (i + w)) l = take (Z.to_nat i) l ++ k.
Proof.
  intros Hi Hw Hl. exists (take (Z.to_nat w) (drop (Z.to_nat i) l)). split_and!.
  - unfold go_slice. rewrite !(proj2 (Z.leb_le _ _)) by lia. cbn [andb]. by replace (i + w - i) with w by lia.
  - unfold zlen in *. rewrite length_take, length_drop. lia.
  - replace (Z.to_nat (i + w)) with (Z.to_nat i + Z.to_nat w)%nat by lia.
    symmetry. apply take_take_drop.
Qed.

Lemma u8_bit x i : 0 <= i -> Z.testbit (u8 x) i = (i <? 8) && Z.testbit x i.
Proof.
  intros Hi. unfold u8. destruct (Z.ltb_spec i 8).
  - by rewrite Z.mod_pow2_bits_low by lia.
  - by rewrite Z.mod_pow2_bits_high by lia.
Qed.

Lemma le_word_bit b l i : 0 <= i -> Z.testbit (le_word (b :: l)) i = if i <? 8 then Z.testbit b i else Z.testbit (le_word l) (i - 8).
Proof.
  intros Hi. cbn [le_word]. rewrite Z.lor_spec, u8_bit by done. destruct (Z.ltb_spec i 8).
  - rewrite Z.shiftl_spec_low by done. by rewrite orb_false_r.
  - rewrite Z.shiftl_spec_high by lia. done.
Qed.

Lemma u8_eq x y : (forall i, 0 <= i < 8 -> Z.testbit x i = Z.testbit y i) -> u8 x = u8 y.
Proof.
  intros H. apply Z.bits_inj'. intros i Hi. rewrite !u8_bit by done. destruct (Z.ltb_spec i 8); [|done]. cbn. apply H. lia.
Qed.

Lemma u8_idem x : u8 (u8 x) = u8 x.
Proof. apply u8_eq. intros i Hi. rewrite u8_bit by lia. by rewrite (proj2 (Z.ltb_lt _ _)) by lia. Qed.

Lemma le_word_nonneg l : 0 <= le_word l.
Proof.
  induction l as [|b l IH]; cbn [le_word]; [done|]. apply Z.lor_nonneg. split; [apply u8_range|]. by apply Z.shiftl_nonneg.
Qed.

Lemma le_word_zero l : le_word l = 0 -> Forall (fun b => u8 b = 0) l.
Proof.
  induction l as [|b l IH]; intros H; [done|]. constructor.
  - change 0 with (u8 0). apply u8_eq. intros i Hi. assert (Z.testbit (le_word (b :: l)) i = Z.testbit 0 i) as Hb by by rewrite H.
    rewrite le_word_bit, (proj2 (Z.ltb_lt _ _)) in Hb by lia. done.
  - apply IH. apply Z.bits_inj'. intros i Hi. assert (Z.testbit (le_word (b :: l)) (i + 8) = Z.testbit 0 (i + 8)) as Hb by by rewrite H.
    rewrite le_word_bit, (proj2 (Z.ltb_ge _ _)), !Z.testbit_0_l in Hb by lia. rewrite Z.testbit_0_l. by replace (i + 8 - 8) with i in Hb by lia.
Qed.

Lemma le_word_ones l : (forall i, 0 <= i < 8 * zlen l -> Z.testbit (le_word l) i = true) -> Forall (fun b => u8 b = 255) l.
Proof.
  induction l as [|b l IH]; intros H; [done|]. rewrite zlen_cons in H. pose proof (zlen_nonneg l). constructor.
  - change 255 with (u8 255). apply u8_eq. intros i Hi. specialize (H i). rewrite le_word_bit, (proj2 (Z.ltb_lt _ _)) in H by lia. rewrite H by lia.
    change 255 with (Z.ones 8). symmetry. apply Z.ones_spec_low. lia.
  - apply IH. intros i Hi. specialize (H (i + 8)). rewrite le_word_bit, (proj2 (Z.ltb_ge _ _)) in H by lia. replace (i + 8 - 8) with i in H by lia. apply H. lia.
Qed.

Lemma count_bits_ext n x y : (forall i, 0 <= i < Z.of_nat n -> Z.testbit x i = Z.testbit y i) -> count_bits n x = count_bits n y.
Proof.
  revert x y. induction n as [|n IH]; intros x y H; [done|]. cbn [count_bits]. f_equal.
  - f_equal. rewrite <- !Z.bit0_odd. apply H. lia.
  - apply IH. intros i Hi. rewrite !Z.div2_spec, !Z.shiftr_spec by lia. apply H. lia.
Qed.

Lemma count_bits_add a b x : count_bits (a + b) x = count_bits a x + count_bits b (Z.shiftr x (Z.of_nat a)).
Proof.
  revert x. induction a as [|a IH]; intros x; [by rewrite Z.shiftr_0_r|]. cbn [Nat.add count_bits]. rewrite IH.
  rewrite Z.div2_spec, Z.shiftr_shiftr by lia. replace (Z.of_nat (S a)) with (1 + Z.of_nat a) by lia. lia.
Qed.

Lemma count_true_cons x l : count_true (x :: l) = Z.b2z x + count_true l.
Proof. unfold count_true. destruct x; [|done]. by rewrite filter_cons_True, zlen_cons by done. Qed.

Lemma byte_bits_count b : count_true (byte_bits b) = OnesCount8 b.
Proof.
  unfold OnesCount8, byte_bits. cbn [count_bits fmap list_fmap]. rewrite !count_true_cons. change (count_true []) with 0.
  rewrite !Z.div2_spec, !Z.shiftr_shiftr by lia. rewrite <- !Z.bit0_odd, !Z.shiftr_spec by lia.
  repeat match goal with |- context [Z.testbit b ?e] => let v := eval vm_compute in e in progress change (Z.testbit b e) with (Z.testbit b v) end. lia.
Qed.

Lemma count_true_app l k : count_true (l ++ k) = count_true l + count_true k.
Proof. unfold count_true. by rewrite filter_app, zlen_app. Qed.

Lemma bits_of_app l k : bits_of (l ++ k) = bits_of l ++ bits_of k.
Proof. unfold bits_of. by rewrite fmap_app, concat_app. Qed.

Lemma bits_of_one b : count_true (bits_of [b]) = OnesCount8 b.
Proof. unfold bits_of. cbn [fmap list_fmap concat]. by rewrite app_nil_r, byte_bits_count. Qed.

Lemma le_word_count l : count_bits (8 * length l) (le_word l) = count_true (bits_of l).
Proof.
  induction l as [|b l IH]; [done|]. cbn [length]. rewrite (Nat.mul_succ_r 8), Nat.add_comm, count_bits_add.
  change (b :: l) with ([b] ++ l). rewrite bits_of_app, count_true_app, <- IH. f_equal.
  - rewrite bits_of_one. apply count_bits_ext. intros i Hi.
    cbn [app]. rewrite le_word_bit by lia. by rewrite (proj2 (Z.ltb_lt _ _)) by lia.
  - apply count_bits_ext. intros i Hi. rewrite Z.shiftr_spec by lia. cbn [app]. rewrite le_word_bit, (proj2 (Z.ltb_ge _ _)) by lia. f_equal. lia.
Qed.

Lemma Uint64_at b i :
  0 <= i -> i + 8 <= zlen b -> exists k, Uint64 b i = Some (le_word k) /\ zlen k = 8 /\ take (Z.to_nat (i + 8)) b = take (Z.to_nat i) b ++ k.
Proof. intros Hi Hb. destruct (slice_take b i 8) as (k & Ek & ? & ?); [lia..|]. exists k. unfold Uint64. by rewrite Ek. Qed.

Lemma OnesCount64_word k : zlen k = 8 -> OnesCount64 (le_word k) = count_true (bits_of k).
Proof. intros Hk. rewrite <- le_word_count. unfold OnesCount64, zlen in *. f_equal. lia. Qed.

(** ** Counting *)

Lemma count_words_ok sub : count_words sub = Some (count_true (bits_of sub)).
Proof.
  set (I := fun i count => count = count_true (bits_of (take (Z.to_nat i) sub))).
  assert (forall i c k, I i c -> zlen k = 8 -> 0 <= i -> take (Z.to_nat (i + 8)) sub = take (Z.to_nat i) sub ++ k -> I (i + 8) (c + OnesCount64 (le_word k))) as Hword.
  { intros i c k Hi Hk ? Ht. unfold I in *. rewrite Ht, bits_of_app, count_true_app, OnesCount64_word by done. lia. }
  pose proof (zlen_nonneg sub). unfold count_words. cbv zeta.
  destruct (for_loop_rule I (length sub) 32 (zlen sub) (fun i count =>
    w0 ← Uint64 sub i; w1 ← Uint64 sub (i + 8); w2 ← Uint64 sub (i + 16); w3 ← Uint64 sub (i + 24);
    Some (count + (OnesCount64 w0 + OnesCount64 w1 + OnesCount64 w2 + OnesCount64 w3))) 0 0) as (i1 & c1 & -> & HI1 & Hb1 & _); [lia|done|lia|unfold zlen; lia| |].
  { intros i c Hi Hn HI. destruct (Uint64_at sub i) as (k0 & -> & ? & T0); [lia..|]. destruct (Uint64_at sub (i + 8)) as (k1 & -> & ? & T1); [lia..|].
    destruct (Uint64_at sub (i + 16)) as (k2 & -> & ? & T2); [lia..|]. destruct (Uint64_at sub (i + 24)) as (k3 & -> & ? & T3); [lia..|].
    eexists. split; [reflexivity|]. rewrite !Z.add_assoc. replace (i + 32) with (i + 8 + 8 + 8 + 8) by lia.
    apply Hword; [|done|lia|by replace (i + 8 + 8 + 8) with (i + 24) by lia; replace (i + 24 + 8) with (i + 24 + 8) by lia].
    apply Hword; [|done|lia|by replace (i + 8 + 8) with (i + 16) by lia].
    apply Hword; [|done|lia|done]. by apply Hword. }
  go_bind.
  destruct (for_loop_rule I (length sub) 8 (zlen sub) (fun i count => w ← Uint64 sub i; Some (count + OnesCount64 w)) i1 c1) as (i2 & c2 & -> & HI2 & Hb2 & _); [lia|done|lia|unfold zlen; lia| |].
  { intros i c Hi Hn HI. destruct (Uint64_at sub i) as (k0 & -> & ? & T0); [lia..|]. eexists. split; [reflexivity|]. apply Hword; (done || lia). }
  go_bind.
  destruct (for_loop_rule I (length sub) 1 (zlen sub) (fun i count => b ← go_at sub i; Some (count + OnesCount8 b)) i2 c2) as (i3 & c3 & -> & HI3 & Hb3 & He); [lia|done|lia|unfold zlen; lia| |].
  { intros i c Hi Hn HI. destruct (go_at_some sub i) as [b Eb]; [lia|]. rewrite Eb. eexists. split; [reflexivity|]. unfold I in *.
    rewrite go_at_lookup in Eb by lia. replace (Z.to_nat (i + 1)) with (S (Z.to_nat i)) by lia. rewrite (take_S_r _ _ b) by done.
    by rewrite bits_of_app, count_true_app, HI, bits_of_one. }
  go_bind. f_equal. unfold I in HI3. rewrite HI3. by rewrite take_ge by (unfold zlen in *; lia).
Qed.

(** The bytes of a range, both ends included. *)
Definition byte_range (b : bytes) (start end_ : Z) : bytes :=
  let lo := from_end (zlen b) start in
  let hi := from_end (zlen b) end_ in
  take (Z.to_nat (hi - lo + 1)) (drop (Z.to_nat lo) b).

Lemma from_end_nonneg n x : 0 <= from_end n x.
Proof. unfold from_end. cbv zeta. destruct (Z.ltb_spec x 0); [destruct (Z.ltb_spec (n + x) 0)|destruct (Z.ltb_spec x 0)]; lia. Qed.

Lemma byte_range_slice b start end_ :
  let lo := from_end (zlen b) start in
  let hi := from_end (zlen b) end_ in
  lo < zlen b -> lo <= hi -> go_slice b lo ((if zlen b <=? hi then zlen b - 1 else hi) + 1) = Some (byte_range b start end_).
Proof.
  intros lo hi Hlo Hhi. pose proof (from_end_nonneg (zlen b) start). fold lo in H. unfold byte_range. cbv zeta. fold lo hi.
  unfold go_slice. destruct (Z.leb_spec (zlen b) hi); rewrite !(proj2 (Z.leb_le _ _)) by lia; cbn [andb]; f_equal; [|f_equal; lia]. rewrite !take_ge; [done|..]; rewrite length_drop; unfold zlen in *; lia.
Qed.

Lemma byte_range_empty b start end_ :
  zlen b <= from_end (zlen b) start \/ from_end (zlen b) end_ < from_end (zlen b) start -> byte_range b start end_ = [].
Proof.
  intros [H|H]; unfold byte_range; cbv zeta.
  - rewrite drop_ge by (unfold zlen in *; lia). by rewrite take_nil.
  - by replace (Z.to_nat _) with 0%nat by lia.
Qed.

(** BITCOUNT counts the set bits of the range. *)
Lemma BitCount_ok b start end_ : BitCount b start end_ = Some (count_true (bits_of (byte_range b start end_))).
Proof.
  unfold BitCount. cbv zeta. destruct (Z.eqb_spec (zlen b) 0) as [Hb|_].
  { rewrite byte_range_empty; [done|]. left. rewrite Hb. apply from_end_nonneg. }
  destruct ((_ <=? _) || _) eqn:Ec.
  { rewrite byte_range_empty; [done|]. apply orb_true_iff in Ec as [?%Z.leb_le|?%Z.ltb_lt]; lia. }
  apply orb_false_iff in Ec as [?%Z.leb_gt ?%Z.ltb_ge]. rewrite byte_range_slice by done. go_bind. apply count_words_ok.
Qed.

(** ** Searching *)

(** The position of the first bit that is [v]. *)
Fixpoint first_bit (v : bool) (l : list bool) : option nat :=
  match l with
  | [] => None
  | b :: l => if Bool.eqb b v then Some O else S <$> first_bit v l
  end.

Lemma first_bit_skip v k l : first_bit v (replicate k (negb v) ++ l) = Nat.add k <$> first_bit v l.
Proof.
  induction k as [|k IH]; cbn [replicate app first_bit]; [by destruct (first_bit v l)|].
  replace (Bool.eqb (negb v) v) with false by by destruct v. rewrite IH. by destruct (first_bit v l).
Qed.

Lemma first_bit_app v l k : first_bit v (l ++ k) = match first_bit v l with Some i => Some i | None => Nat.add (length l) <$> first_bit v k end.
Proof.
  induction l as [|b l IH]; cbn [app first_bit length]; [by destruct (first_bit v k)|].
  destruct (Bool.eqb b v); [done|]. rewrite IH. destruct (first_bit v l); [done|]. by destruct (first_bit v k).
Qed.

Lemma byte_bits_u8 b : byte_bits (u8 b) = byte_bits b.
Proof.
  unfold byte_bits. apply list_fmap_ext. intros i x Hx. rewrite u8_bit; [rewrite (proj2 (Z.ltb_lt _ _)); [done|]|];
    apply list_elem_of_lookup_2 in Hx; repeat (apply elem_of_cons in Hx as [->|Hx]; [lia|]); by apply not_elem_of_nil in Hx.
Qed.

(** A statement about a byte, checked on all of them. *)
Lemma byte_check (P : Z -> bool) : forallb P (seqZ 0 256) = true -> forall b, P (u8 b) = true.
Proof.
  intros H b. rewrite forallb_forall in H. apply H. apply list_elem_of_In, elem_of_seqZ. pose proof (u8_range b). unfold is_byte in *. lia.
Qed.

Lemma first_set b : u8 b <> 0 -> first_bit true (byte_bits b) = Some (Z.to_nat (LeadingZeros8 (u8 b))) /\ 0 <= LeadingZeros8 (u8 b) < 8.
Proof.
  intros Hb. rewrite <- byte_bits_u8.
  pose proof (byte_check (fun b => (b =? 0) || bool_decide (first_bit true (byte_bits b) = Some (Z.to_nat (LeadingZeros8 b)) /\ 0 <= LeadingZeros8 b < 8)) eq_refl b) as H.
  apply orb_true_iff in H as [?%Z.eqb_eq|?%bool_decide_eq_true]; done.
Qed.

Lemma first_clear b :
  u8 b <> 255 -> first_bit false (byte_bits b) = Some (Z.to_nat (LeadingZeros8 (u8 (Z.lnot b)))) /\ 0 <= LeadingZeros8 (u8 (Z.lnot b)) < 8.
Proof.
  intros Hb. rewrite <- byte_bits_u8.
  replace (u8 (Z.lnot b)) with (u8 (Z.lnot (u8 b)));
    [|apply u8_eq; intros i Hi; rewrite !Z.lnot_spec, u8_bit by lia; by rewrite (proj2 (Z.ltb_lt _ _)) by lia].
  pose proof (byte_check (fun b => (b =? 255) || bool_decide (first_bit false (byte_bits b) = Some (Z.to_nat (LeadingZeros8 (u8 (Z.lnot b)))) /\ 0 <= LeadingZeros8 (u8 (Z.lnot b)) < 8)) eq_refl b) as H.
  apply orb_true_iff in H as [?%Z.eqb_eq|?%bool_decide_eq_true]; done.
Qed.

Lemma bits_of_same z v l : byte_bits z = replicate 8 v -> Forall (fun b => u8 b = z) l -> bits_of l = replicate (8 * length l) v.
Proof.
  intros Hz. induction 1 as [|b l Hb Hl IH]; [done|]. change (b :: l) with ([b] ++ l). rewrite bits_of_app, IH.
  unfold bits_of. cbn [fmap list_fmap concat]. rewrite app_nil_r, <- byte_bits_u8, Hb, Hz. rewrite <- replicate_add. f_equal. cbn [app length]. lia.
Qed.

Lemma Uint64_prefix (P : Z -> Prop) b i k :
  0 <= i -> take (Z.to_nat (i + 8)) b = take (Z.to_nat i) b ++ k -> Forall P k -> Forall P (take (Z.to_nat i) b) -> Forall P (take (Z.to_nat (i + 8)) b).
Proof. intros Hi -> Hk Ht. by apply Forall_app. Qed.

Lemma skip_words_ok t4 t z sub :
  (forall k0 k1 k2 k3, zlen k0 = 8 -> zlen k1 = 8 -> zlen k2 = 8 -> zlen k3 = 8 -> t4 (le_word k0) (le_word k1) (le_word k2) (le_word k3) = false ->
    Forall (fun b => u8 b = z) (k0 ++ k1 ++ k2 ++ k3)) ->
  (forall k, zlen k = 8 -> t (le_word k) = false -> Forall (fun b => u8 b = z) k) ->
  exists i, skip_words t4 t z sub = Some (Z.of_nat i) /\ (i <= length sub)%nat /\ Forall (fun b => u8 b = z) (take i sub) /\
    forall b, sub !! i = Some b -> u8 b <> z.
Proof.
  intros H4 H1. set (I := fun i => Forall (fun b => u8 b = z) (take (Z.to_nat i) sub)).
  pose proof (zlen_nonneg sub). unfold skip_words. cbv zeta.
  edestruct (skip_loop_rule I (length sub) 32 (zlen sub)) as (i1 & -> & HI1 & Hb1 & _); [lia|by apply Forall_nil|lia|unfold zlen; lia| |].
  { intros i Hi Hn HI. cbv beta. destruct (Uint64_at sub i) as (k0 & -> & ? & T0); [lia..|]. destruct (Uint64_at sub (i + 8)) as (k1 & -> & ? & T1); [lia..|].
    destruct (Uint64_at sub (i + 16)) as (k2 & -> & ? & T2); [lia..|]. destruct (Uint64_at sub (i + 24)) as (k3 & -> & ? & T3); [lia..|].
    eexists. split; [reflexivity|]. intros Hf. unfold I in *. apply H4 in Hf; [|done..]. replace (i + 32) with (i + 24 + 8) by lia.
    rewrite T3. replace (i + 24) with (i + 16 + 8) by lia. rewrite T2. replace (i + 16) with (i + 8 + 8) by lia. rewrite T1, T0.
    rewrite <- !(assoc_L (++)). by apply Forall_app. }
  go_bind.
  edestruct (skip_loop_rule I (length sub) 8 (zlen sub)) as (i2 & -> & HI2 & Hb2 & _); [lia|exact HI1|lia|unfold zlen; lia| |].
  { intros i Hi Hn HI. cbv beta. destruct (Uint64_at sub i) as (k0 & -> & ? & T0); [lia..|]. eexists. split; [reflexivity|]. intros Hf.
    unfold I in *. rewrite T0. apply Forall_app. split; [done|]. by apply H1. }
  go_bind.
  edestruct (skip_loop_rule I (length sub) 1 (zlen sub) (fun i => b ← go_at sub i; Some (negb (u8 b =? z)))) as (i3 & -> & HI3 & Hb3 & He); [lia|exact HI2|lia|unfold zlen; lia| |].
  { intros i Hi Hn HI. destruct (go_at_some sub i) as [b Eb]; [lia|]. rewrite Eb. eexists. split; [reflexivity|]. intros Hf%negb_false_iff%Z.eqb_eq.
    unfold I in *. rewrite go_at_lookup in Eb by lia. replace (Z.to_nat (i + 1)) with (S (Z.to_nat i)) by lia. rewrite (take_S_r _ _ b) by done.
    apply Forall_app. by split; [|constructor]. }
  exists (Z.to_nat i3). split_and!; [f_equal; lia|unfold zlen in *; lia|done|]. intros b Hb.
  pose proof (lookup_lt_Some _ _ _ Hb). rewrite go_at_lookup, Hb in He by lia. cbn in He. unfold zlen in He. specialize (He ltac:(lia)). injection He as He%negb_true_iff%Z.eqb_neq. done.
Qed.

Lemma skip_zeros_ok sub : exists i, skip_zeros sub = Some (Z.of_nat i) /\ (i <= length sub)%nat /\ Forall (fun b => u8 b = 0) (take i sub) /\
  forall b, sub !! i = Some b -> u8 b <> 0.
Proof.
  apply skip_words_ok.
  - intros k0 k1 k2 k3 _ _ _ _ H%negb_false_iff%Z.eqb_eq. rewrite !Z.lor_eq_0_iff in H. rewrite !Forall_app. destruct H as [[[]]]. split_and!; by apply le_word_zero.
  - intros k _ H%negb_false_iff%Z.eqb_eq. by apply le_word_zero.
Qed.

Lemma ones64_bits k w : zlen k = 8 -> w = ones64 -> (forall i, 0 <= i -> Z.testbit w i = true -> Z.testbit (le_word k) i = true) -> Forall (fun b => u8 b = 255) k.
Proof.
  intros Hk -> H. apply le_word_ones. intros i Hi. apply H; [lia|]. change ones64 with (Z.ones 64). apply Z.ones_spec_low. lia.
Qed.

Lemma skip_ones_ok sub : exists i, skip_ones sub = Some (Z.of_nat i) /\ (i <= length sub)%nat /\ Forall (fun b => u8 b = 255) (take i sub) /\
  forall b, sub !! i = Some b -> u8 b <> 255.
Proof.
  apply skip_words_ok.
  - intros k0 k1 k2 k3 ? ? ? ? H%negb_false_iff%Z.eqb_eq. rewrite !Forall_app.
    split_and!; (eapply ones64_bits; [done|exact H|]; intros i Hi; rewrite !Z.land_spec, !andb_true_iff; tauto).
  - intros k ? H%negb_false_iff%Z.eqb_eq. by eapply ones64_bits; [|exact H|].
Qed.

(** The search in a string of bits, past [i] bytes without a match, is the search in byte [i]. *)
Lemma first_bit_at v z sub i :
  byte_bits z = replicate 8 (negb v) -> (i <= length sub)%nat -> Forall (fun b => u8 b = z) (take i sub) ->
  first_bit v (bits_of sub) =
  match sub !! i with
  | None => None
  | Some b => Nat.add (8 * i) <$> (match first_bit v (byte_bits b) with Some j => Some j | None => Nat.add 8 <$> first_bit v (bits_of (drop (S i) sub)) end)
  end.
Proof.
  intros Hz Hi Hp. rewrite <- (take_drop i sub) at 1. rewrite bits_of_app, (bits_of_same z (negb v)), first_bit_skip by done.
  rewrite length_take, Nat.min_l by done. destruct (sub !! i) as [b|] eqn:Eb.
  - rewrite (drop_S _ b) by done. change (b :: drop (S i) sub) with ([b] ++ drop (S i) sub). rewrite bits_of_app.
    unfold bits_of at 1. cbn [fmap list_fmap concat]. rewrite app_nil_r, first_bit_app. done.
  - apply lookup_ge_None in Eb. by rewrite drop_ge.
Qed.

(** What BITPOS means: the first bit of the range that is [v]; a search for a clear bit in a string without a given end finds
    one after it. *)
Definition ref_bitpos (b : bytes) (v : bool) (start end_ : Z) (hasEnd : bool) : Z :=
  match first_bit v (bits_of (byte_range b start end_)) with
  | Some j => from_end (zlen b) start * 8 + Z.of_nat j
  | None => if negb v && negb hasEnd then zlen b * 8 else -1
  end.

Lemma BitPos_ok b (v : bool) start end_ hasEnd :
  (hasEnd = false -> end_ = -1) -> BitPos b (Z.b2z v) start end_ hasEnd = Some (ref_bitpos b v start end_ hasEnd).
Proof.
  intros He. unfold BitPos, ref_bitpos. cbv zeta. destruct (Z.leb_spec (zlen b) (from_end (zlen b) start)) as [Hs|Hs].
  { rewrite byte_range_empty by lia. by destruct v. }
  pose proof (from_end_nonneg (zlen b) start). destruct (Z.ltb_spec (if zlen b <=? from_end (zlen b) end_ then zlen b - 1 else from_end (zlen b) end_) (from_end (zlen b) start)) as [Hl|Hl].
  { destruct (Z.leb_spec (zlen b) (from_end (zlen b) end_)); [lia|]. rewrite byte_range_empty by lia. destruct hasEnd; [by destruct v|].
    rewrite (He eq_refl) in *. unfold from_end in Hl at 1. cbn in Hl. destruct (Z.ltb_spec (zlen b + -1) 0); lia. }
  rewrite byte_range_slice; [|done|destruct (Z.leb_spec (zlen b) (from_end (zlen b) end_)); lia]. go_bind. set (sub := byte_range b start end_). destruct v; cbn [Z.b2z Z.eqb negb andb].
  - destruct (skip_zeros_ok sub) as (i & -> & Hi & Hz & Hn). go_bind. rewrite (first_bit_at true 0 sub i) by done. destruct (Z.ltb_spec (Z.of_nat i) (zlen sub)) as [Hlt|Hge].
    + destruct (lookup_lt_is_Some_2 sub i) as [x Hx]; [unfold zlen in *; lia|]. rewrite go_at_lookup, Nat2Z.id, Hx by lia. go_bind.
      destruct (first_set x) as [-> ?]; [by apply Hn|]. cbn [fmap option_fmap option_map]. f_equal. lia.
    + by rewrite lookup_ge_None_2 by (unfold zlen in *; lia).
  - destruct (skip_ones_ok sub) as (i & -> & Hi & Hz & Hn). go_bind. rewrite (first_bit_at false 255 sub i) by done. destruct (Z.ltb_spec (Z.of_nat i) (zlen sub)) as [Hlt|Hge].
    + destruct (lookup_lt_is_Some_2 sub i) as [x Hx]; [unfold zlen in *; lia|]. rewrite go_at_lookup, Nat2Z.id, Hx by lia. go_bind.
      destruct (first_clear x) as [-> ?]; [by apply Hn|]. cbn [fmap option_fmap option_map]. f_equal. lia.
    + by rewrite lookup_ge_None_2 by (unfold zlen in *; lia).
Qed.

(** ** Combining *)

Section combining.
Variables (op : Z -> Z -> Z) (f : bool -> bool -> bool).
Hypothesis op_bits : forall x y i, 0 <= i -> Z.testbit (op x y) i = f (Z.testbit x i) (Z.testbit y i).

Lemma le_bytes_op d s : length d = length s -> le_bytes (length d) (op (le_word d) (le_word s)) = zip_with (fun x y => u8 (op x y)) d s.
Proof using op_bits.
  revert s. induction d as [|x d IH]; intros [|y s] Hl; [done..|]. injection Hl as Hl. cbn [length le_bytes zip_with]. f_equal.
  - apply u8_eq. intros i Hi. rewrite !op_bits, !le_word_bit, !(proj2 (Z.ltb_lt _ _)) by lia. done.
  - rewrite <- IH by done. f_equal. apply Z.bits_inj'. intros i Hi. rewrite Z.shiftr_spec, !op_bits, !le_word_bit, !(proj2 (Z.ltb_ge _ _)) by lia.
    by replace (i + 8 - 8) with i by lia.
Qed.

(** [s] laid over [dst], as far as it goes. *)
Definition laid_over (dst s : bytes) : bytes := zip_with (fun x y => u8 (op x y)) dst s ++ drop (length s) dst.

Variables (dst s : bytes).
Hypothesis Hlen : (length s <= length dst)%nat.

(** The state of the loops at index [i]: done up to there. *)
Definition done_to (i : Z) (d : bytes) : Prop := d = take (Z.to_nat i) (laid_over dst s) ++ drop (Z.to_nat i) dst.

Lemma laid_over_length : length (laid_over dst s) = length dst.
Proof using Hlen. unfold laid_over. rewrite length_app, length_zip_with, length_drop. lia. Qed.

Lemma laid_over_window i w :
  0 <= i -> 0 <= w -> i + w <= zlen s ->
  take (Z.to_nat w) (drop (Z.to_nat i) (laid_over dst s)) =
  zip_with (fun x y => u8 (op x y)) (take (Z.to_nat w) (drop (Z.to_nat i) dst)) (take (Z.to_nat w) (drop (Z.to_nat i) s)).
Proof using Hlen.
  intros Hi Hw Hs. unfold laid_over. unfold zlen in Hs. rewrite drop_app_le, take_app_le by (rewrite ?length_drop, length_zip_with; lia).
  by rewrite zip_with_drop, zip_with_take.
Qed.

Lemma done_length i d : 0 <= i <= zlen s -> done_to i d -> length d = length dst.
Proof using Hlen. intros Hi ->. unfold zlen in Hi. rewrite length_app, length_take, laid_over_length, length_drop. lia. Qed.

Lemma done_drop i d j : 0 <= i <= zlen s -> i <= j -> done_to i d -> drop (Z.to_nat j) d = drop (Z.to_nat j) dst.
Proof using Hlen.
  intros Hi Hj ->. unfold zlen in Hi. assert (length (take (Z.to_nat i) (laid_over dst s)) = Z.to_nat i) as Hl by (rewrite length_take, laid_over_length; lia).
  replace (Z.to_nat j) with (length (take (Z.to_nat i) (laid_over dst s)) + (Z.to_nat j - Z.to_nat i))%nat at 1 by lia.
  rewrite drop_app_add', drop_drop by lia. f_equal. lia.
Qed.

Lemma done_take i d : 0 <= i <= zlen s -> done_to i d -> take (Z.to_nat i) d = take (Z.to_nat i) (laid_over dst s).
Proof using Hlen. intros Hi ->. unfold zlen in Hi. rewrite take_app_le, take_take by (rewrite length_take, laid_over_length; lia). f_equal. lia. Qed.

Lemma done_word i d j : 0 <= i <= j -> j + 8 <= zlen s -> done_to i d -> Uint64 d j = Some (le_word (take 8 (drop (Z.to_nat j) dst))).
Proof using Hlen.
  intros Hi Hj Hd. unfold Uint64, go_slice. assert (zlen d = zlen dst) as Hz by (unfold zlen; f_equal; apply (done_length i); [lia|done]).
  assert (zlen s <= zlen dst) by (unfold zlen; lia).
  rewrite !(proj2 (Z.leb_le _ _)) by lia. cbn [andb]. replace (j + 8 - j) with 8 by lia. cbn. by rewrite (done_drop i) by (done || lia).
Qed.

Lemma src_word j : 0 <= j -> j + 8 <= zlen s -> Uint64 s j = Some (le_word (take 8 (drop (Z.to_nat j) s))).
Proof using Hlen. intros Hi Hj. unfold Uint64, go_slice. rewrite !(proj2 (Z.leb_le _ _)) by lia. cbn [andb]. by replace (j + 8 - j) with 8 by lia. Qed.

(** A word of the laid_over. *)
Lemma combine_word i d :
  0 <= i -> i + 8 <= zlen s -> done_to i d ->
  exists d', PutUint64 d i (op (le_word (take 8 (drop (Z.to_nat i) dst))) (le_word (take 8 (drop (Z.to_nat i) s)))) = Some d' /\ done_to (i + 8) d'.
Proof using op_bits Hlen.
  intros Hi Hs Hd. assert (zlen d = zlen dst) as Hz by (unfold zlen; f_equal; apply (done_length i); [lia|done]). assert (zlen s <= zlen dst) by (unfold zlen; lia).
  unfold PutUint64, go_slice. rewrite !(proj2 (Z.leb_le _ _)) by lia. cbn [andb mbind option_bind]. eexists. split; [reflexivity|]. unfold done_to.
  rewrite (done_take i d), (done_drop i d) by (done || lia). rewrite app_assoc. f_equal.
  replace (Z.to_nat (i + 8)) with (Z.to_nat i + Z.to_nat 8)%nat by lia. rewrite <- take_take_drop. f_equal. rewrite laid_over_window by lia.
  rewrite <- le_bytes_op by (rewrite !length_take, !length_drop; unfold zlen in *; lia). f_equal. rewrite length_take, length_drop. unfold zlen in *. lia.
Qed.

Lemma combine_ok : combine op dst s = Some (laid_over dst s).
Proof using op_bits Hlen.
  pose proof (zlen_nonneg s). unfold combine. cbv zeta.
  edestruct (for_loop_rule done_to (length s) 32 (zlen s)) as (i1 & d1 & -> & HI1 & Hb1 & _); [lia|by unfold done_to; rewrite take_0, drop_0|lia|unfold zlen; lia| |].
  { intros i d Hi Hn Hd. cbv beta. rewrite !(done_word i d) by (done || lia). rewrite !src_word by lia. cbn [mbind option_bind].
    destruct (combine_word i d) as (e0 & -> & H0); [done || lia..|]. cbn [mbind option_bind].
    destruct (combine_word (i + 8) e0) as (e1 & -> & H1); [done || lia..|]. cbn [mbind option_bind]. replace (i + 8 + 8) with (i + 16) in H1 by lia.
    destruct (combine_word (i + 16) e1) as (e2 & -> & H2); [done || lia..|]. cbn [mbind option_bind]. replace (i + 16 + 8) with (i + 24) in H2 by lia.
    destruct (combine_word (i + 24) e2) as (e3 & -> & H3); [done || lia..|]. replace (i + 24 + 8) with (i + 32) in H3 by lia. eauto. }
  go_bind.
  edestruct (for_loop_rule done_to (length s) 8 (zlen s)) as (i2 & d2 & -> & HI2 & Hb2 & _); [lia|exact HI1|lia|unfold zlen; lia| |].
  { intros i d Hi Hn Hd. cbv beta. rewrite (done_word i d), src_word by (done || lia). cbn [mbind option_bind]. apply combine_word; (done || lia). }
  go_bind.
  edestruct (for_loop_rule done_to (length s) 1 (zlen s)) as (i3 & d3 & -> & HI3 & Hb3 & He); [lia|exact HI2|lia|unfold zlen; lia| |].
  { intros i d Hi Hn Hd. cbv beta. assert (length d = length dst) as Hl by (apply (done_length i); [lia|done]). unfold zlen in Hn.
    destruct (lookup_lt_is_Some_2 s (Z.to_nat i)) as [y Hy]; [lia|]. destruct (lookup_lt_is_Some_2 dst (Z.to_nat i)) as [x Hx]; [lia|].
    assert (d !! Z.to_nat i = Some x) as Hdx. { rewrite <- (Nat.add_0_r (Z.to_nat i)), <- lookup_drop, (done_drop i), lookup_drop, Nat.add_0_r by (done || unfold zlen; lia). done. }
    rewrite !go_at_lookup, Hdx, Hy by lia. cbn [mbind option_bind]. unfold go_set, zlen. rewrite (proj2 (Z.leb_le _ _)), (proj2 (Z.ltb_lt _ _)) by lia. cbn [andb].
    eexists. split; [reflexivity|]. unfold done_to. rewrite insert_take_drop by lia. rewrite (done_take i d) by (done || unfold zlen; lia).
    replace (Z.to_nat (i + 1)) with (S (Z.to_nat i)) by lia. rewrite (take_S_r _ _ (u8 (op x y))).
    - rewrite <- (assoc_L (++)). cbn [app]. do 2 f_equal. replace (S (Z.to_nat i)) with (Z.to_nat (i + 1)) by lia. apply (done_drop i); [unfold zlen; lia|lia|done].
    - unfold laid_over. rewrite lookup_app_l by (rewrite length_zip_with; lia). rewrite lookup_zip_with, Hx, Hy. done. }
  go_bind. f_equal. unfold done_to in HI3. rewrite HI3. unfold zlen in *. replace (Z.to_nat i3) with (length s) by lia.
  unfold laid_over. rewrite take_app_le by (rewrite length_zip_with; lia). rewrite take_ge; [done|]. rewrite length_zip_with. lia.
Qed.
End combining.

(** *** Bit by bit *)

Lemma zeros_at n j : default 0 (replicate n 0 !! j) = 0.
Proof. destruct (replicate n 0 !! j) as [x|] eqn:Ex; [|done]. by apply lookup_replicate in Ex as [-> _]. Qed.

Lemma bit_past l i : (length l <= i / 8)%nat -> bit l i = false.
Proof. intros H. unfold bit. by rewrite lookup_ge_None_2, Z.testbit_0_l by done. Qed.

Lemma bit_index i : 0 <= 7 - Z.of_nat (i mod 8) < 8.
Proof. pose proof (Nat.mod_upper_bound i 8). lia. Qed.

Lemma bit_laid_over op f dst s i :
  (forall x y i, 0 <= i -> Z.testbit (op x y) i = f (Z.testbit x i) (Z.testbit y i)) -> (length s <= length dst)%nat ->
  bit (laid_over op dst s) i = if (i / 8 <? length s)%nat then f (bit dst i) (bit s i) else bit dst i.
Proof.
  intros Hop Hl. unfold bit, laid_over. pose proof (bit_index i). destruct (Nat.ltb_spec (i / 8) (length s)) as [Hi|Hi].
  - rewrite lookup_app_l by (rewrite length_zip_with; lia). rewrite lookup_zip_with.
    destruct (lookup_lt_is_Some_2 s (i / 8)) as [y Hy]; [done|]. destruct (lookup_lt_is_Some_2 dst (i / 8)) as [x Hx]; [lia|]. rewrite Hx, Hy.
    cbn [mbind option_bind from_option]; unfold id. rewrite u8_bit, Hop, (proj2 (Z.ltb_lt _ _)) by lia. done.
  - rewrite lookup_app_r; rewrite length_zip_with; [|lia]. rewrite lookup_drop. do 3 f_equal. lia.
Qed.

Lemma laid_over_bytes op dst s : is_bytes dst -> is_bytes (laid_over op dst s).
Proof.
  intros H. apply Forall_app. split; [|by apply Forall_drop]. apply Forall_lookup. intros j x. rewrite lookup_zip_with_Some. intros (a & b & -> & _). apply u8_range.
Qed.

Lemma bit_clear_from d n i : 0 <= n <= zlen d -> bit (clear_from d n) i = (Z.of_nat (i / 8) <? n) && bit d i.
Proof.
  intros Hn. unfold bit, clear_from. unfold zlen in Hn. destruct (Z.ltb_spec (Z.of_nat (i / 8)) n); cbn [andb].
  - rewrite lookup_app_l by (rewrite length_take; lia). by rewrite lookup_take_lt by lia.
  - rewrite lookup_app_r; rewrite length_take; [|lia]. rewrite zeros_at. apply Z.testbit_0_l.
Qed.

Lemma clear_from_length d n : 0 <= n <= zlen d -> length (clear_from d n) = length d.
Proof. intros Hn. unfold clear_from. unfold zlen in Hn. rewrite length_app, length_take, length_replicate. lia. Qed.

Lemma zeros_bytes n : is_bytes (replicate n 0).
Proof. apply Forall_replicate. unfold is_byte. lia. Qed.

Lemma combine_all_ok op f clear dst srcs :
  (forall x y i, 0 <= i -> Z.testbit (op x y) i = f (Z.testbit x i) (Z.testbit y i)) ->
  (forall b, f b false = if (clear : bool) then false else b) ->
  Forall (fun s => (length s <= length dst)%nat) srcs -> is_bytes dst ->
  exists r, combine_all op clear dst srcs = Some r /\ length r = length dst /\ is_bytes r /\
    forall i, bit r i = foldl (fun a s => f a (bit s i)) (bit dst i) srcs.
Proof.
  intros Hop Hf. revert dst. induction srcs as [|s srcs IH]; intros dst Hl Hd; [by exists dst|].
  apply Forall_cons in Hl as [Hs Hl]. cbn [combine_all]. rewrite (combine_ok op f Hop) by done. cbn [mbind option_bind].
  pose proof (laid_over_length op dst s Hs) as Hlen.
  assert (0 <= zlen s <= zlen (laid_over op dst s)) as Hz by (unfold zlen; lia).
  destruct (IH (if clear then clear_from (laid_over op dst s) (zlen s) else laid_over op dst s)) as (r & -> & Hr & Hb & Hi).
  - destruct clear; [rewrite clear_from_length by done|]; by rewrite Hlen.
  - pose proof (laid_over_bytes op dst s Hd). destruct clear; [|done]. apply Forall_app. split; [by apply Forall_take|apply zeros_bytes].
  - exists r. split; [done|]. split; [rewrite Hr; destruct clear; [rewrite clear_from_length by done|]; done|]. split; [done|].
    intros i. rewrite Hi. cbn [foldl]. f_equal. specialize (Hf (bit dst i)). pose proof (bit_past s i). destruct clear.
    + rewrite bit_clear_from, (bit_laid_over op f) by done. unfold zlen. destruct (Nat.ltb_spec (i / 8) (length s)).
      * rewrite (proj2 (Z.ltb_lt _ _)) by lia. done.
      * rewrite (proj2 (Z.ltb_ge _ _)) by lia. by rewrite H by done.
    + rewrite (bit_laid_over op f) by done. destruct (Nat.ltb_spec (i / 8) (length s)); [done|]. by rewrite H by done.
Qed.

(** The bytes of given bits. *)
Definition pack (l : list bool) : Z := foldl (fun a b => 2 * a + Z.b2z b) 0 l.
Definition bit_array (n : nat) (g : nat -> bool) : bytes := (fun j => pack ((fun t => g (8 * j + t)%nat) <$> seq 0 8)) <$> seq 0 n.

Lemma pack_byte_bits b : is_byte b -> pack (byte_bits b) = b.
Proof.
  intros Hb. rewrite <- (u8_id b Hb). pose proof (byte_check (fun b => pack (byte_bits b) =? b) eq_refl b) as H. by apply Z.eqb_eq in H.
Qed.

Lemma bit_byte l j x t : l !! j = Some x -> (t < 8)%nat -> bit l (8 * j + t) = Z.testbit x (7 - Z.of_nat t).
Proof.
  intros Hj Ht. unfold bit. rewrite Nat.mul_comm, Nat.div_add_l, Nat.div_small, Nat.add_0_r, Hj by lia.
  rewrite Nat.add_comm, Nat.Div0.mod_add, Nat.mod_small by lia. done.
Qed.

Lemma bit_array_eq n g r : length r = n -> is_bytes r -> (forall i, (i < 8 * n)%nat -> bit r i = g i) -> r = bit_array n g.
Proof.
  intros Hl Hb Hg. apply list_eq. intros j. unfold bit_array. rewrite list_lookup_fmap.
  destruct (decide (j < n)%nat) as [Hj|Hj].
  - rewrite lookup_seq_lt by done. cbn [fmap option_fmap option_map Nat.add]. destruct (lookup_lt_is_Some_2 r j) as [x Hx]; [lia|]. rewrite Hx. f_equal.
    rewrite <- (pack_byte_bits x) by (by eapply Forall_lookup_1). f_equal.
    cbn [seq fmap list_fmap]. rewrite <- !Hg by lia. rewrite !(bit_byte r j x) by (done || lia). done.
  - rewrite lookup_ge_None_2, lookup_seq_ge by lia. done.
Qed.

Lemma bit_array_lookup n g j : (j < n)%nat -> bit_array n g !! j = Some (pack ((fun t => g (8 * j + t)%nat) <$> seq 0 8)).
Proof. intros Hj. unfold bit_array. by rewrite list_lookup_fmap, lookup_seq_lt by done. Qed.

Lemma byte_bits_pack l : length l = 8%nat -> byte_bits (pack l) = l.
Proof.
  intros Hl. do 8 (destruct l as [|? l]; [done|]). destruct l; [|done].
  repeat match goal with b : bool |- _ => destruct b end; reflexivity.
Qed.

Lemma bit_of_array n g i : (i < 8 * n)%nat -> bit (bit_array n g) i = g i.
Proof.
  intros Hi. pose proof (Nat.div_mod_eq i 8) as He. pose proof (Nat.mod_upper_bound i 8 ltac:(lia)) as Hm.
  assert (i / 8 < n)%nat by (apply Nat.Div0.div_lt_upper_bound; lia). rewrite He at 1.
  rewrite (bit_byte _ (i / 8) _ (i mod 8) (bit_array_lookup n g (i / 8) H) Hm).
  set (l := (fun t => g (8 * (i / 8) + t)%nat) <$> seq 0 8). pose proof (byte_bits_pack l eq_refl) as Hp.
  assert (l !! (i mod 8)%nat = Some (g i)) as Hl by (unfold l; rewrite list_lookup_fmap, lookup_seq_lt by done; cbn [fmap option_fmap option_map Nat.add]; f_equal; f_equal; lia).
  rewrite <- Hp in Hl. unfold byte_bits in Hl. rewrite list_lookup_fmap in Hl. change [0; 1; 2; 3; 4; 5; 6; 7] with (seqZ 0 8) in Hl.
  rewrite lookup_seqZ_lt in Hl by lia. cbn [fmap option_fmap option_map] in Hl. injection Hl as <-. done.
Qed.

(** The longest operand, and what BITOP means: bit [i] of the result is the operation on the bits [i]. *)
Definition max_length (srcs : list bytes) : nat := foldr (fun s m => length s `max` m)%nat O srcs.

Definition ref_bitop (op : bytes) (srcs : list bytes) : bytes :=
  bit_array (max_length srcs) (fun i =>
    let bs := (fun s => bit s i) <$> srcs in
    if bool_decide (op = str "NOT") then negb (forallb id bs)
    else if bool_decide (op = str "AND") then forallb id bs
    else if bool_decide (op = str "OR") then existsb id bs
    else foldr xorb false bs).

Lemma max_length_loop srcs m : 0 <= m -> foldl (fun m s => if m <? zlen s then zlen s else m) m srcs = Z.max m (Z.of_nat (max_length srcs)).
Proof.
  revert m. induction srcs as [|s srcs IH]; intros m Hm; cbn [foldl max_length foldr]; [lia|].
  rewrite IH by (case_match; [apply zlen_nonneg|done]). fold (max_length srcs). unfold zlen. destruct (Z.ltb_spec m (Z.of_nat (length s))); lia.
Qed.

Lemma max_length_all srcs : Forall (fun s => (length s <= max_length srcs)%nat) srcs.
Proof.
  induction srcs as [|s srcs IH]; constructor; cbn [max_length foldr]; [lia|]. eapply Forall_impl; [exact IH|]. cbn. fold (max_length srcs). lia.
Qed.

Lemma bit_zeros n i : bit (replicate n 0) i = false.
Proof. unfold bit. rewrite zeros_at. apply Z.testbit_0_l. Qed.

Lemma bit_padded s n i : bit ((u8 <$> s) ++ replicate n 0) i = bit s i.
Proof.
  unfold bit. pose proof (bit_index i). destruct (decide (i / 8 < length s)%nat) as [Hi|Hi].
  - rewrite lookup_app_l, list_lookup_fmap by (rewrite length_fmap; lia). destruct (lookup_lt_is_Some_2 s (i / 8)) as [x ->]; [done|].
    cbn [fmap option_fmap option_map from_option]; unfold id. rewrite u8_bit, (proj2 (Z.ltb_lt _ _)) by lia. done.
  - rewrite lookup_app_r, zeros_at, (lookup_ge_None_2 s) by (rewrite ?length_fmap; lia). done.
Qed.

Lemma foldl_and b l : foldl andb b l = b && forallb id l.
Proof. revert b. induction l as [|x l IH]; intros b; cbn; [by rewrite andb_true_r|]. by rewrite IH, andb_assoc. Qed.
Lemma foldl_or b l : foldl orb b l = b || existsb id l.
Proof. revert b. induction l as [|x l IH]; intros b; cbn; [by rewrite orb_false_r|]. by rewrite IH, orb_assoc. Qed.
Lemma foldl_xor b l : foldl xorb b l = xorb b (foldr xorb false l).
Proof. revert b. induction l as [|x l IH]; intros b; cbn; [by destruct b|]. rewrite IH. by destruct b, x, (foldr xorb false l). Qed.

Lemma foldl_bits {A} (f : bool -> bool -> bool) (g : A -> bool) b l : foldl (fun a s => f a (g s)) b l = foldl f b (g <$> l).
Proof. revert b. induction l as [|x l IH]; intros b; [done|]. apply IH. Qed.

Definition is_bitop (op : bytes) : Prop := op = str "AND" \/ op = str "OR" \/ op = str "XOR" \/ op = str "NOT".

(** BITOP works bit by bit; NOT takes one operand. *)
Lemma BitOp_ok op srcs :
  is_bitop op -> srcs <> [] -> (op = str "NOT" -> length srcs = 1%nat) -> BitOp op srcs = Some (ref_bitop op srcs).
Proof.
  intros Hop Hne Hnot. unfold BitOp, ref_bitop. assert (ToUpper op = op) as -> by by destruct Hop as [-> | [-> | [-> | -> ]]]. cbv zeta.
  destruct srcs as [|s0 rest]; [done|]. clear Hne. destruct (bool_decide (op = str "NOT")) eqn:En.
  - apply bool_decide_eq_true in En. specialize (Hnot En). destruct rest; [|done].
    assert (forall x y i : Z, 0 <= i -> Z.testbit (Z.lnot y) i = (fun _ b => negb b) (Z.testbit x i) (Z.testbit y i)) as Hb by (intros; by apply Z.lnot_spec).
    assert (length s0 <= length (replicate (length s0) 0%Z))%nat as Hl by by rewrite length_replicate.
    rewrite (combine_ok (fun _ w => Z.lnot w) _ Hb _ _ Hl). f_equal. cbn [max_length foldr fmap list_fmap]. rewrite Nat.max_0_r.
    apply bit_array_eq; [by rewrite laid_over_length, length_replicate|apply laid_over_bytes, zeros_bytes|]. intros i Hi.
    rewrite (bit_laid_over _ (fun _ b => negb b)) by done. rewrite (proj2 (Nat.ltb_lt _ _)) by (apply Nat.Div0.div_lt_upper_bound; lia). cbn. by rewrite andb_true_r.
  - clear Hnot. rewrite max_length_loop by done. set (srcs := s0 :: rest). pose proof (max_length_all srcs) as Hmax. rewrite Z.max_r by lia.
    destruct (Z.eqb_spec (Z.of_nat (max_length srcs)) 0) as [H0|H0]; [by replace (max_length srcs) with O by lia|]. rewrite Nat2Z.id.
    destruct (bool_decide (op = str "AND")) eqn:Ea; [|destruct (bool_decide (op = str "OR")) eqn:Eo; [|rewrite bool_decide_true by (unfold is_bitop in Hop; bool_prop; tauto)]].
    + apply Forall_cons in Hmax as [Hs0 Hrest]. set (dst := (u8 <$> s0) ++ replicate (max_length srcs - length s0) 0).
      assert (length dst = max_length srcs) as Hd by (unfold dst; rewrite length_app, length_fmap, length_replicate; lia).
      destruct (combine_all_ok Z.land andb true dst rest) as (r & -> & Hr & Hbr & Hi).
      * intros. apply Z.land_spec.
      * by intros [].
      * by rewrite Hd.
      * apply Forall_app. split; [|apply zeros_bytes]. apply Forall_fmap, Forall_true. intros. apply u8_range.
      * f_equal. apply bit_array_eq; [congruence|done|]. intros i _. rewrite Hi. unfold dst. rewrite bit_padded, foldl_bits, foldl_and. done.
    + destruct (combine_all_ok Z.lor orb false (replicate (max_length srcs) 0) srcs) as (r & -> & Hr & Hbr & Hi); [intros; apply Z.lor_spec|by intros []|by rewrite length_replicate|apply zeros_bytes|].
      f_equal. apply bit_array_eq; [by rewrite Hr, length_replicate|done|]. intros i _. by rewrite Hi, bit_zeros, foldl_bits, foldl_or.
    + destruct (combine_all_ok Z.lxor xorb false (replicate (max_length srcs) 0) srcs) as (r & -> & Hr & Hbr & Hi); [intros; apply Z.lxor_spec|by intros []|by rewrite length_replicate|apply zeros_bytes|].
      f_equal. apply bit_array_eq; [by rewrite Hr, length_replicate|done|]. intros i _. rewrite Hi, bit_zeros, foldl_bits, foldl_xor. by destruct (foldr _ _ _).
Qed.

(** ** Single bits *)

Lemma bit_shift x k : 0 <= k -> Z.land (Z.shiftr x k) 1 = Z.b2z (Z.testbit x k).
Proof. intros Hk. change 1 with (Z.ones 1). rewrite Z.land_ones by lia. change (2 ^ 1) with 2. by rewrite <- Z.bit0_mod, Z.shiftr_spec by lia. Qed.

Lemma offset_split (off : Z) :
  0 <= off -> Z.quot off 8 = Z.of_nat (Z.to_nat off / 8) /\ Z.rem off 8 = Z.of_nat (Z.to_nat off mod 8).
Proof.
  intros H. rewrite Z.quot_div_nonneg, Z.rem_mod_nonneg by lia. rewrite Nat2Z.inj_div, Nat2Z.inj_mod, Z2Nat.id by done. done.
Qed.

Lemma GetBit_ok b off : 0 <= off -> GetBit b off = Some (Z.b2z (bit b (Z.to_nat off))).
Proof.
  intros Ho. unfold GetBit. rewrite (proj2 (Z.ltb_ge _ _)) by done. cbv zeta. destruct (offset_split off Ho) as [-> ->].
  pose proof (bit_index (Z.to_nat off)). destruct (Z.leb_spec (zlen b) (Z.of_nat (Z.to_nat off / 8))) as [Hl|Hl].
  - rewrite bit_past by (unfold zlen in *; lia). done.
  - rewrite go_at_lookup, Nat2Z.id by lia. destruct (lookup_lt_is_Some_2 b (Z.to_nat off / 8)) as [x Hx]; [unfold zlen in *; lia|]. rewrite Hx. go_bind.
    rewrite bit_shift by lia. unfold bit. by rewrite Hx.
Qed.

(** The bytes with bit [off] written, zeros in between. *)
Definition set_bit (b : bytes) (off : nat) (v : bool) : bytes :=
  let b := b ++ replicate (S (off / 8) - length b) 0 in
  alter (fun x => put_bit x (7 - Z.of_nat (off mod 8)) (Z.b2z v)) (off / 8)%nat b.

Lemma put_bit_spec x k v i : 0 <= k -> 0 <= i -> Z.testbit (put_bit x k (Z.b2z v)) i = if i =? k then v else Z.testbit x i.
Proof.
  intros Hk Hi. unfold put_bit. rewrite Z.shiftl_1_l. destruct v; [change (Z.b2z true =? 1) with true|change (Z.b2z false =? 1) with false]; cbv iota.
  - rewrite Z.lor_spec, Z.pow2_bits_eqb, (Z.eqb_sym k) by done. destruct (i =? k); [apply orb_true_r|apply orb_false_r].
  - rewrite Z.land_spec, Z.lnot_spec, Z.pow2_bits_eqb, (Z.eqb_sym k) by done. destruct (i =? k); [apply andb_false_r|apply andb_true_r].
Qed.

Lemma bit_zero_tail b n i : bit (b ++ replicate n 0) i = bit b i.
Proof.
  unfold bit. destruct (decide (i / 8 < length b)%nat).
  - by rewrite lookup_app_l.
  - rewrite lookup_app_r, zeros_at, (lookup_ge_None_2 b) by lia. done.
Qed.

Lemma set_bit_bits b off v i : bit (set_bit b off v) i = if (i =? off)%nat then v else bit b i.
Proof.
  unfold set_bit. cbv zeta. set (b' := b ++ _). rewrite <- (bit_zero_tail b (S (off / 8) - length b) i). fold b'. unfold bit. pose proof (bit_index i). pose proof (bit_index off).
  destruct (decide (i / 8 = off / 8)%nat) as [He|He].
  - rewrite He, list_lookup_alter_eq. destruct (lookup_lt_is_Some_2 b' (off / 8)) as [x Hx].
    { unfold b'. rewrite length_app, length_replicate. lia. }
    rewrite Hx. cbn [fmap option_fmap option_map from_option]; unfold id. rewrite put_bit_spec by lia.
    destruct (Nat.eqb_spec i off) as [->|Hne]; [by rewrite Z.eqb_refl|]. rewrite (proj2 (Z.eqb_neq _ _)); [done|].
    pose proof (Nat.div_mod_eq i 8). pose proof (Nat.div_mod_eq off 8). lia.
  - rewrite list_lookup_alter_ne by done. destruct (Nat.eqb_spec i off) as [->|]; done.
Qed.

Lemma set_bit_length b off v : length (set_bit b off v) = (length b `max` S (off / 8))%nat.
Proof. unfold set_bit. rewrite length_alter, length_app, length_replicate. lia. Qed.

(** Growing into spare capacity shows what is there: the string gains zeros only when the spare bytes are zeros. *)
Definition zeroed (s : slice) : Prop := spare s = replicate (length (spare s)) 0.

Lemma grow_ok s (j : nat) :
  zeroed s -> zeroed (grow s (Z.of_nat j)) /\ buf (grow s (Z.of_nat j)) = buf s ++ replicate (S j - length (buf s)) 0.
Proof.
  intros Hz. unfold grow, zeroed. destruct (Z.leb_spec (zlen (buf s)) (Z.of_nat j)) as [Hl|Hl].
  2: { unfold zlen in Hl. replace (S j - length (buf s))%nat with O by lia. by rewrite app_nil_r. }
  unfold zlen in Hl. replace (Z.to_nat (Z.of_nat j + 1)) with (S j) by lia.
  destruct (Z.ltb_spec (Z.of_nat j) (cap s)) as [Hc|Hc]; cbn [buf spare].
  - unfold cap, zlen in Hc. rewrite Hz, drop_app_ge, drop_replicate, length_replicate, take_app_ge, take_replicate by lia. split; [done|].
    do 2 f_equal. lia.
  - rewrite length_replicate. split; [done|]. do 2 f_equal. unfold zlen. lia.
Qed.

Lemma SetBit_ok s off (v : bool) :
  zeroed s -> 0 <= off ->
  exists s', SetBit s off (Z.b2z v) = Some (s', Z.b2z (bit (buf s) (Z.to_nat off))) /\ buf s' = set_bit (buf s) (Z.to_nat off) v /\ zeroed s'.
Proof.
  intros Hz Ho. unfold SetBit. rewrite (proj2 (Z.ltb_ge _ _)) by done. cbv zeta. destruct (offset_split off Ho) as [-> ->].
  set (n := Z.to_nat off). pose proof (bit_index n). destruct (grow_ok s (n / 8) Hz) as [Hz' Hb].
  set (s1 := grow s (Z.of_nat (n / 8))) in *. destruct (lookup_lt_is_Some_2 (buf s1) (n / 8)) as [x Hx].
  { rewrite Hb, length_app, length_replicate. lia. }
  rewrite go_at_lookup, Nat2Z.id, Hx by lia. cbn [mbind option_bind]. unfold go_set. pose proof (lookup_lt_Some _ _ _ Hx).
  rewrite (proj2 (Z.leb_le _ _)), (proj2 (Z.ltb_lt _ _)) by (unfold zlen; lia). cbn [andb mbind option_bind]. rewrite Nat2Z.id.
  eexists (mkSlice _ _). split_and!; [| |unfold zeroed; cbn [spare]; exact Hz'].
  - rewrite bit_shift by lia. rewrite <- (bit_zero_tail (buf s) (S (n / 8) - length (buf s))), <- Hb. unfold bit. rewrite Hx. reflexivity.
  - cbn [buf]. unfold set_bit. cbv zeta. rewrite <- Hb. apply list_eq. intros k. destruct (decide (k = (n / 8)%nat)) as [->|Hk].
    + rewrite list_lookup_insert_eq, list_lookup_alter_eq, Hx by done. done.
    + by rewrite list_lookup_insert_ne, list_lookup_alter_ne by done.
Qed.

(** A slice with old bytes behind its end: bit 9 reads as set although the string was one byte long. *)
Example stale_spare_becomes_visible :
  SetBit (mkSlice [0] [255; 7]) 8 1 = Some (mkSlice [0; 255] [7], 1) /\ bit [0] 8 = false.
Proof. split; reflexivity. Qed.

(** ** Properties *)

(** C38. The word loops compute what the bits say.  For any strings and any bounds, whatever the alignment: BITOP's result has, at
    every position up to the longest operand, the operation applied to the operands' bits there (a bit past the end of an operand
    being clear); BITCOUNT is the number of set bits of the bytes in its range; and BITPOS is the position of the first bit of
    that value in its range, or the position after the string for a clear bit looked for without an end, or -1.  None of the loops
    indexes out of range. *)
Theorem word_loops_are_bitwise op srcs b (v : bool) start end_ hasEnd :
  is_bitop op -> srcs <> [] -> (op = str "NOT" -> length srcs = 1%nat) -> (hasEnd = false -> end_ = -1) ->
  (exists r, BitOp op srcs = Some r /\ length r = max_length srcs /\
     forall i, (i < 8 * max_length srcs)%nat ->
       bit r i = (if bool_decide (op = str "NOT") then negb (forallb (fun s => bit s i) srcs)
                  else if bool_decide (op = str "AND") then forallb (fun s => bit s i) srcs
                  else if bool_decide (op = str "OR") then existsb (fun s => bit s i) srcs
                  else foldr (fun s acc => xorb (bit s i) acc) false srcs)) /\
  BitCount b start end_ = Some (count_true (bits_of (byte_range b start end_))) /\
  BitPos b (Z.b2z v) start end_ hasEnd = Some (ref_bitpos b v start end_ hasEnd).
Proof.
  intros Hop Hne Hnot He. split_and!; [|apply BitCount_ok|by apply BitPos_ok]. exists (ref_bitop op srcs). split; [by apply BitOp_ok|].
  unfold ref_bitop. split; [unfold bit_array; by rewrite length_fmap, length_seq|]. intros i Hi. rewrite bit_of_array by done. cbv beta zeta.
  assert (forall f : bool -> bool -> bool, forall z, foldr f z ((fun s => bit s i) <$> srcs) = foldr (fun s acc => f (bit s i) acc) z srcs) as Hf by (intros; apply foldr_fmap).
  assert (forallb id ((fun s => bit s i) <$> srcs) = forallb (fun s => bit s i) srcs) as -> by (clear; induction srcs; cbn; congruence).
  assert (existsb id ((fun s => bit s i) <$> srcs) = existsb (fun s => bit s i) srcs) as -> by (clear; induction srcs; cbn; congruence).
  by rewrite Hf.
Qed.

Lemma word_loops_are_bitwise_witness :
  BitOp (str "XOR") [replicate 40 255; replicate 33 15] = Some (replicate 33 240 ++ replicate 7 255) /\
  BitCount (replicate 45 3) 1 (-2) = Some 86 /\ BitPos (replicate 45 0 ++ [1]) 1 2 (-1) false = Some 367.
Proof.
  destruct (word_loops_are_bitwise (str "XOR") [replicate 40 255; replicate 33 15] (replicate 45 3) true 1 (-2) true) as ((r & Hr & Hl & _) & Hc & _).
  - right. right. by left.
  - done.
  - done.
  - done.
  - split_and!; [vm_compute; reflexivity|rewrite Hc; vm_compute; reflexivity|vm_compute; reflexivity].
Defined.
