(* ===== verification/Object.v ===== *)
(** * Stored objects ([object/types.go])

    [Robj] is the container of every stored value.  Its payload [Ptr] is an [any] in the
    code, filled by the packages above this one; the record is polymorphic in it, and
    [PayloadSize] is what the database needs to know about a payload: the bytes the memory
    estimator charges for it at the moment of a call ([Context.heap_size] reads the containers as they are then; they change between
    the calls). *)

From S2P Require Import Prelude.

Local Open Scope Z_scope.

Inductive ObjectType :=
  | OBJ_STRING | OBJ_LIST | OBJ_SET | OBJ_ZSET | OBJ_HASH | OBJ_MODULE | OBJ_STREAM | OBJ_ARRAY.

#[export] Instance ObjectType_eq_dec : EqDecision ObjectType.
Proof. solve_decision. Defined.

Inductive ObjectEncoding :=
  | OBJ_ENCODING_RAW | OBJ_ENCODING_INT | OBJ_ENCODING_HT | OBJ_ENCODING_ZIPMAP
  | OBJ_ENCODING_LINKEDLIST | OBJ_ENCODING_ZIPLIST | OBJ_ENCODING_INTSET
  | OBJ_ENCODING_SKIPLIST | OBJ_ENCODING_EMBSTR | OBJ_ENCODING_QUICKLIST
  | OBJ_ENCODING_STREAM | OBJ_ENCODING_LISTPACK.

#[export] Instance ObjectEncoding_eq_dec : EqDecision ObjectEncoding.
Proof. solve_decision. Defined.

Record Robj (P : Type) := mkRobj {
  o_Type : ObjectType;
  o_Encoding : ObjectEncoding;
  o_Lru : Z;   (* uint32 *)
  o_Ptr : P
}.
Arguments mkRobj {P}.
Arguments o_Type {P}.
Arguments o_Encoding {P}.
Arguments o_Lru {P}.
Arguments o_Ptr {P}.

(** [atomic.StoreUint32(&val.Lru, t)]. *)
Definition store_lru {P} (t : Z) (o : Robj P) : Robj P :=
  mkRobj (o_Type o) (o_Encoding o) (u32 t) (o_Ptr o).

(** What a client can observe of an object: everything but its access clock. *)
Definition face {P} (o : Robj P) : ObjectType * ObjectEncoding * P :=
  (o_Type o, o_Encoding o, o_Ptr o).

Lemma face_store_lru {P} t (o : Robj P) : face (store_lru t o) = face o.
Proof. done. Qed.

(** The contribution of a payload to the memory estimate, never negative. *)
Class PayloadSize (P : Type) := {
  payload_size : P -> Z;
  payload_size_nonneg p : 0 <= payload_size p
}.
