(* ===== verification/Db.v ===== *)
(** * The keyspace ([db/sharded.go], [db/eviction.go], [db/keyspace.go], [db/snapshot.go])

    The state is the code's: sixty-four shards, each with its [entries], [expires] and
    [versions] maps, and the atomic counters of the database.  An operation is a function of
    the database and of the clock (nanoseconds since the epoch; the operation reads it once),
    that returns its result with the new database; the shard and key locks make each of them
    atomic.  The order in which Go ranges over a map and the shards [rand.Intn] draws are
    arguments ([oracle]).

    The reference of the operations is one map from keys to values with a deadline
    ([spec_step]): [db_refines_map] shows that sharding, lazy expiration and the active expiry
    cycle cannot be observed.  Further groups: the memory accounting and the eviction loop,
    WATCH's version counters, SCAN's guarantee, the snapshot iterator. *)

From S2P Require Import Prelude Object Glob.

Local Open Scope Z_scope.

Definition NumShards : Z := 64.

(** ** Clock *)

Definition UnixMilli (t : Z) : Z := t / 10 ^ 6.
Definition Unix (t : Z) : Z := t / 10 ^ 9.
(** [Duration.Milliseconds] truncates towards zero. *)
Definition Milliseconds (d : Z) : Z := Z.quot d (10 ^ 6).

(** ** State *)

Inductive EvictionPolicy :=
  | NoEviction | AllKeysLRU | VolatileLRU | AllKeysRandom | VolatileRandom | VolatileTTL.

#[export] Instance EvictionPolicy_eq_dec : EqDecision EvictionPolicy.
Proof. solve_decision. Defined.

Inductive DbError := ErrOOM.

#[export] Instance DbError_eq_dec : EqDecision DbError.
Proof. solve_decision. Defined.

Record shard (P : Type) := mkShard {
  entries : gmap bytes (Robj P);
  expires : gmap bytes Z;
  versions : gmap bytes Z   (* uint64 *)
}.
Arguments mkShard {P}.
Arguments entries {P}.
Arguments expires {P}.
Arguments versions {P}.

(** [onExpired] tells whether a hook is registered; [notified] is the trace of its calls. *)
Record ShardedDB (P : Type) := mkDb {
  shards : list (shard P);
  maxMemory : Z;
  evictionPolicy : EvictionPolicy;
  usedMemory : Z;
  watchers : Z;
  noActiveExpire : Z;
  expiredKeys : Z;
  onExpired : bool;
  notified : list bytes
}.
Arguments mkDb {P}.
Arguments shards {P}.
Arguments maxMemory {P}.
Arguments evictionPolicy {P}.
Arguments usedMemory {P}.
Arguments watchers {P}.
Arguments noActiveExpire {P}.
Arguments expiredKeys {P}.
Arguments onExpired {P}.
Arguments notified {P}.

(** What Go leaves open: the [n]-th draw of [rand.Intn(NumShards)] in a round of the eviction
    loop, and the order in which a map is ranged over. *)
Record oracle (P : Type) := mkOracle {
  intn : nat -> nat -> Z;
  range_expires : nat -> nat -> gmap bytes Z -> list bytes;
  range_entries : nat -> nat -> gmap bytes (Robj P) -> list bytes
}.
Arguments mkOracle {P}.
Arguments intn {P}.
Arguments range_expires {P}.
Arguments range_entries {P}.

(** An oracle follows Go: every key of the map once, and a shard of the array. *)
Record oracle_ok {P} (o : oracle P) : Prop := {
  oracle_intn a b : 0 <= intn o a b < NumShards;
  oracle_expires a b m : range_expires o a b m ≡ₚ (map_to_list m).*1;
  oracle_entries a b m : range_entries o a b m ≡ₚ (map_to_list m).*1
}.

Section operations.
Context {P : Type} `{PS : PayloadSize P}.
Implicit Types (db : ShardedDB P) (s : shard P) (key : bytes) (val : Robj P).

Definition empty_shard : shard P := mkShard ∅ ∅ ∅.

Definition NewShardedDB : ShardedDB P :=
  mkDb (replicate (Z.to_nat NumShards) empty_shard) 0 NoEviction 0 0 0 0 false [].

(** Field updates of the database. *)
Definition with_shards db (l : list (shard P)) : ShardedDB P :=
  mkDb l (maxMemory db) (evictionPolicy db) (usedMemory db) (watchers db)
    (noActiveExpire db) (expiredKeys db) (onExpired db) (notified db).
Definition with_used db (z : Z) : ShardedDB P :=
  mkDb (shards db) (maxMemory db) (evictionPolicy db) z (watchers db)
    (noActiveExpire db) (expiredKeys db) (onExpired db) (notified db).
Definition with_watchers db (z : Z) : ShardedDB P :=
  mkDb (shards db) (maxMemory db) (evictionPolicy db) (usedMemory db) z
    (noActiveExpire db) (expiredKeys db) (onExpired db) (notified db).

Definition SetMaxMemory db (maxMem : Z) : ShardedDB P :=
  mkDb (shards db) maxMem (evictionPolicy db) (usedMemory db) (watchers db)
    (noActiveExpire db) (expiredKeys db) (onExpired db) (notified db).
Definition MaxMemory db : Z := maxMemory db.
Definition SetEvictionPolicy db (p : EvictionPolicy) : ShardedDB P :=
  mkDb (shards db) (maxMemory db) p (usedMemory db) (watchers db)
    (noActiveExpire db) (expiredKeys db) (onExpired db) (notified db).
Definition UsedMemory db : Z := usedMemory db.
Definition addMem db (delta : Z) : ShardedDB P := with_used db (usedMemory db + delta).
Definition subMem db (delta : Z) : ShardedDB P := with_used db (usedMemory db - delta).
Definition SetActiveExpire db (enabled : bool) : ShardedDB P :=
  mkDb (shards db) (maxMemory db) (evictionPolicy db) (usedMemory db) (watchers db)
    (if enabled then 0 else 1) (expiredKeys db) (onExpired db) (notified db).
Definition SetExpiredCallback db : ShardedDB P :=
  mkDb (shards db) (maxMemory db) (evictionPolicy db) (usedMemory db) (watchers db)
    (noActiveExpire db) (expiredKeys db) true (notified db).
Definition ExpiredKeys db : Z := expiredKeys db.

(** [notifyExpired]: the counter, then one call of the hook per key. *)
Definition notifyExpired db (keys : list bytes) : ShardedDB P :=
  match keys with
  | [] => db
  | _ =>
    mkDb (shards db) (maxMemory db) (evictionPolicy db) (usedMemory db) (watchers db)
      (noActiveExpire db) (expiredKeys db + zlen keys) (onExpired db)
      (if onExpired db then notified db ++ keys else notified db)
  end.

Definition fnv32 (key : bytes) : Z :=
  fold_left (fun hash b => u32 (Z.lxor hash b * 16777619)) key 2166136261.

Definition GetShardIdx (key : bytes) : Z := fnv32 key mod NumShards.

(** [db.shards[i]], and the store of its new contents.  The index is always in range. *)
Definition shard_at db (i : Z) : shard P := default empty_shard (shards db !! Z.to_nat i).
Definition put_shard db (i : Z) (s : shard P) : ShardedDB P :=
  with_shards db (<[Z.to_nat i := s]> (shards db)).

Definition getShard db key : shard P := shard_at db (GetShardIdx key).

Definition isExpired s key (now : Z) : bool :=
  match expires s !! key with
  | None => false
  | Some exp => if exp =? 0 then false else exp <=? now
  end.

(** [versions[key]++] on a Go map of [uint64]. *)
Definition incr_version (v : gmap bytes Z) key : gmap bytes Z :=
  <[key := u64 (default 0 (v !! key) + 1)]> v.

Definition bumpVersion db s key : shard P :=
  if 0 <? watchers db then mkShard (entries s) (expires s) (incr_version (versions s) key) else s.

(** [payload_size] is that of the live container: every call of the database is given the sizes of its moment. *)
Definition estimateObjectSize key val : Z := zlen key + 16 + payload_size (o_Ptr val).

(** The removal of a key from shard [i]: its size is given back, both maps forget it and its
    version is bumped. *)
Definition remove_key db (i : Z) key : ShardedDB P :=
  let s := shard_at db i in
  let db := match entries s !! key with
            | Some old => subMem db (estimateObjectSize key old)
            | None => db
            end in
  put_shard db i (bumpVersion db (mkShard (delete key (entries s)) (delete key (expires s)) (versions s)) key).

(** The store of a value, common to the three setters: [exp] is what becomes of the deadline. *)
Definition store_entry db key val (exp : gmap bytes Z -> gmap bytes Z) : ShardedDB P :=
  let i := GetShardIdx key in
  let s := shard_at db i in
  let db := match entries s !! key with
            | Some old => subMem db (estimateObjectSize key old)
            | None => db
            end in
  let s := mkShard (<[key := val]> (entries s)) (exp (expires s)) (versions s) in
  addMem (put_shard db i (bumpVersion db s key)) (estimateObjectSize key val).

(** ** Reads and writes of one key *)

Definition Get (t : Z) db key : option (Robj P) * ShardedDB P :=
  let i := GetShardIdx key in
  let s := getShard db key in
  if isExpired s key (UnixMilli t) then
    let reclaimed := bool_decide (is_Some (entries s !! key)) in
    let db := remove_key db i key in
    (None, if reclaimed then notifyExpired db [key] else db)
  else
    match entries s !! key with
    | Some val =>
      let val := store_lru (Unix t) val in
      (Some val, put_shard db i (mkShard (<[key := val]> (entries s)) (expires s) (versions s)))
    | None => (None, db)
    end.

Definition SetKeepTTL (t : Z) db key val : ShardedDB P :=
  store_entry db key (store_lru (Unix t) val) id.

Definition SetExpireAt (t : Z) db key (exp : Z) : bool * ShardedDB P :=
  let i := GetShardIdx key in
  let s := getShard db key in
  if isExpired s key (UnixMilli t) then (false, remove_key db i key)
  else
    match entries s !! key with
    | None => (false, db)
    | Some _ =>
      (true, put_shard db i
         (bumpVersion db (mkShard (entries s) (<[key := exp]> (expires s)) (versions s)) key))
    end.

Definition SetExpire (t : Z) db key (ttl : Z) : bool * ShardedDB P :=
  SetExpireAt t db key (s64 (UnixMilli t + Milliseconds ttl)).

Definition Del (t : Z) db key : bool * ShardedDB P :=
  let i := GetShardIdx key in
  let s := getShard db key in
  if isExpired s key (UnixMilli t) then (false, remove_key db i key)
  else
    match entries s !! key with
    | Some _ => (true, remove_key db i key)
    | None => (false, db)
    end.

Definition Exists (t : Z) db key : bool :=
  let s := getShard db key in
  if isExpired s key (UnixMilli t) then false else bool_decide (is_Some (entries s !! key)).

(** The duration is in nanoseconds. *)
Definition TTL (t : Z) db key : Z * Z :=
  let s := getShard db key in
  let now := UnixMilli t in
  if isExpired s key now then (0, -2)
  else
    match entries s !! key with
    | None => (0, -2)
    | Some _ =>
      match expires s !! key with
      | None => (0, -1)
      | Some exp =>
        if exp =? 0 then (0, -1)
        else
          let remMs := s64 (exp - now) in
          if remMs <? 0 then (0, -2) else (s64 (remMs * 10 ^ 6), 0)
      end
    end.

Definition GetWithTTL (t : Z) db key : option (Robj P * Z) :=
  let s := getShard db key in
  if isExpired s key (UnixMilli t) then None
  else
    match entries s !! key with
    | None => None
    | Some val => Some (val, default 0 (expires s !! key))
    end.

Definition Persist (t : Z) db key : bool * ShardedDB P :=
  let i := GetShardIdx key in
  let s := getShard db key in
  if isExpired s key (UnixMilli t) then (false, db)
  else
    match entries s !! key with
    | None => (false, db)
    | Some _ =>
      if default 0 (expires s !! key) =? 0 then (false, db)
      else (true, put_shard db i
              (bumpVersion db (mkShard (entries s) (delete key (expires s)) (versions s)) key))
    end.

Definition MemoryUsage (t : Z) db key : Z * ShardedDB P :=
  match Get t db key with
  | (Some obj, db) => (estimateObjectSize key obj, db)
  | (None, db) => (0, db)
  end.

(** ** WATCH versions *)

Definition AddWatchers db (n : Z) : ShardedDB P := with_watchers db (watchers db + n).

Definition RemoveWatchers db (n : Z) : ShardedDB P :=
  let db := with_watchers db (watchers db - n) in
  if 0 <? watchers db then db
  else with_shards db ((fun s => mkShard (entries s) (expires s) ∅) <$> shards db).

Definition Touch db key : ShardedDB P :=
  if watchers db =? 0 then db
  else
    let s := getShard db key in
    put_shard db (GetShardIdx key)
      (mkShard (entries s) (expires s) (incr_version (versions s) key)).

Definition GetVersion db key : Z := default 0 (versions (getShard db key) !! key).

(** ** The whole keyspace *)

Definition FlushAll db : ShardedDB P :=
  with_used
    (with_shards db
       ((fun s => mkShard ∅ ∅
           (if 0 <? watchers db
            then foldr (fun key v => incr_version v key) (versions s) ((map_to_list (entries s)).*1)
            else ∅)) <$> shards db)) 0.

Definition Len db : Z := foldr (fun s n => Z.of_nat (size (entries s)) + n) 0 (shards db).

(** The keys of one shard that a walk reports: live ones that match. *)
Definition live_matches (s : shard P) (now : Z) (matches : bytes -> bool) (order : list bytes)
    : list bytes :=
  filter (fun k => isExpired s k now = false /\ matches k = true) order.

Definition Keys (o : oracle P) (t : Z) db (pattern : bytes) : list bytes :=
  let matches k := bool_decide (pattern = str "*") || Match pattern k in
  concat (imap (fun i s => live_matches s (UnixMilli t) matches (range_entries o i 0 (entries s)))
            (shards db)).

(** [Scan]'s loop over the shards from [idx] on. *)
Fixpoint scan_loop (fuel : nat) (o : oracle P) db (now : Z) (matches : bytes -> bool)
    (count idx : Z) (out : list bytes) : Z * list bytes :=
  match fuel with
  | O => (idx, out)
  | S fuel =>
    if idx <? NumShards then
      let s := shard_at db idx in
      let out := out ++ live_matches s now matches (range_entries o (Z.to_nat idx) 0 (entries s)) in
      if count <=? zlen out then (idx + 1, out)
      else scan_loop fuel o db now matches count (idx + 1) out
    else (idx, out)
  end.

Definition Scan (o : oracle P) (t : Z) db (cursor : Z) (pattern : bytes) (count : Z)
    : Z * list bytes :=
  let count := if count <=? 0 then 10 else count in
  let matches k := bool_decide (pattern = []) || bool_decide (pattern = str "*") || Match pattern k in
  let '(idx, out) := scan_loop (Z.to_nat NumShards) o db (UnixMilli t) matches count cursor [] in
  if NumShards <=? idx then (0, out) else (idx, out).

(** [RandomKey]: the first live key from a random shard on. *)
Fixpoint random_loop (fuel : nat) (o : oracle P) db (now start : Z) (n : nat) : bytes :=
  match fuel with
  | O => []
  | S fuel =>
    let i := (start + Z.of_nat n) mod NumShards in
    let s := shard_at db i in
    match filter (fun k => isExpired s k now = false) (range_entries o (Z.to_nat i) 0 (entries s)) with
    | k :: _ => k
    | [] => random_loop fuel o db now start (S n)
    end
  end.

Definition RandomKey (o : oracle P) (t : Z) db : bytes :=
  random_loop (Z.to_nat NumShards) o db (UnixMilli t) (intn o 0 0) 0.

(** A snapshot entry, and the walk that hands each shard's live entries to [fn]; an error of
    [fn] stops it. *)
Record DBEntry := mkEntry { e_Key : bytes; e_Val : Robj P; e_ExpireAt : Z }.

Definition shard_snapshot (o : oracle P) (now : Z) (i : nat) (s : shard P) : list DBEntry :=
  omap (fun k =>
    if isExpired s k now then None
    else match entries s !! k with
         | Some v => Some (mkEntry k v (default 0 (expires s !! k)))
         | None => None
         end) (range_entries o i 0 (entries s)).

Fixpoint snapshot_loop {A E} (o : oracle P) (now : Z) (fn : A -> list DBEntry -> A * option E)
    (i : nat) (l : list (shard P)) (a : A) : A * option E :=
  match l with
  | [] => (a, None)
  | s :: l =>
    match shard_snapshot o now i s with
    | [] => snapshot_loop o now fn (S i) l a
    | es =>
      match fn a es with
      | (a, Some e) => (a, Some e)
      | (a, None) => snapshot_loop o now fn (S i) l a
      end
    end
  end.

Definition ForEachShardSnapshot {A E} (o : oracle P) (t : Z) db
    (fn : A -> list DBEntry -> A * option E) (a : A) : A * option E :=
  snapshot_loop o (UnixMilli t) fn 0 (shards db) a.

(** ** Active expiry *)

(** The sampling loop over [s.expires]: keys left, keys sampled so far, keys reclaimed. *)
Fixpoint sample_loop (now i sampleSize : Z) (keys : list bytes) (sampled : Z) db
    (reclaimed : list bytes) : ShardedDB P * list bytes :=
  match keys with
  | [] => (db, reclaimed)
  | k :: keys =>
    let '(db, reclaimed) :=
      match expires (shard_at db i) !! k with
      | Some exp =>
        if (0 <? exp) && (exp <=? now) then (remove_key db i k, reclaimed ++ [k]) else (db, reclaimed)
      | None => (db, reclaimed)
      end in
    if sampleSize <=? sampled + 1 then (db, reclaimed)
    else sample_loop now i sampleSize keys (sampled + 1) db reclaimed
  end.

(** The sixteen rounds of one shard. *)
Fixpoint expire_shard (rounds : nat) (o : oracle P) (now i : Z) (iter : nat) db (total : Z)
    : ShardedDB P * Z :=
  match rounds with
  | O => (db, total)
  | S rounds =>
    let s := shard_at db i in
    let numExpires := Z.of_nat (size (expires s)) in
    if numExpires =? 0 then (db, total)
    else
      let sampleSize := Z.min 20 numExpires in
      let '(db, reclaimed) :=
        sample_loop now i sampleSize (range_expires o (Z.to_nat i) iter (expires s)) 0 db [] in
      let db := notifyExpired db reclaimed in
      let expired := zlen reclaimed in
      let total := total + expired in
      if Z.quot (expired * 100) sampleSize <? 25 then (db, total)
      else expire_shard rounds o now i (S iter) db total
  end.

Fixpoint expire_shards (n : nat) (o : oracle P) (now i : Z) db (total : Z) : ShardedDB P * Z :=
  match n with
  | O => (db, total)
  | S n =>
    let '(db, total) := expire_shard 16 o now i 0 db total in
    expire_shards n o now (i + 1) db total
  end.

Definition ActiveExpireCycle (o : oracle P) (t : Z) db : Z * ShardedDB P :=
  let '(db, total) := expire_shards (Z.to_nat NumShards) o (UnixMilli t) 0 db 0 in (total, db).

(** ** Eviction *)

Definition volatile (p : EvictionPolicy) : bool :=
  match p with VolatileLRU | VolatileRandom | VolatileTTL => true | _ => false end.

(** [bestKey], [bestShardIdx], [bestScore]. *)
Definition best : Type := bytes * Z * Z.

(** The loop over the candidates of one shard.  The flag reports the [goto EVICT_FOUND] of the
    random policies. *)
Fixpoint candidate_loop (p : EvictionPolicy) (s : shard P) (i : Z) (keys : list bytes)
    (sampled : Z) (b : best) : best * bool :=
  match keys with
  | [] => (b, false)
  | k :: keys =>
    let '(bestKey, _, bestScore) := b in
    match entries s !! k with
    | None => candidate_loop p s i keys sampled b
    | Some obj =>
      if volatile p && negb (bool_decide (is_Some (expires s !! k)))
      then candidate_loop p s i keys sampled b
      else
        let next b := if 5 <=? sampled + 1 then (b, false)
                      else candidate_loop p s i keys (sampled + 1) b in
        match p with
        | AllKeysRandom | VolatileRandom => ((k, i, bestScore), true)
        | AllKeysLRU | VolatileLRU =>
          let lru := o_Lru obj in
          next (if bool_decide (bestKey = []) || (lru <? bestScore) then (k, i, lru) else b)
        | VolatileTTL =>
          let exp := default 0 (expires s !! k) in
          next (if bool_decide (bestKey = []) || (exp <? bestScore) then (k, i, exp) else b)
        | NoEviction => next b
        end
    end
  end.

(** The search over random shards. *)
Fixpoint attempt_loop (fuel : nat) (o : oracle P) (round attempt : nat) (p : EvictionPolicy) db
    (b : best) : best :=
  match fuel with
  | O => b
  | S fuel =>
    let i := intn o round attempt in
    let s := shard_at db i in
    if (volatile p && bool_decide (expires s = ∅)) || bool_decide (entries s = ∅)
    then attempt_loop fuel o round (S attempt) p db b
    else
      let '(b, found) := candidate_loop p s i (range_entries o round attempt (entries s)) 0 b in
      if found then b
      else if bool_decide (b.1.1 = []) then attempt_loop fuel o round (S attempt) p db b
      else b
  end.

(** One eviction: the size is given back and both maps forget the key. *)
Definition evict_key db (i : Z) key : ShardedDB P :=
  let s := shard_at db i in
  match entries s !! key with
  | Some obj =>
    put_shard (subMem db (estimateObjectSize key obj)) i
      (mkShard (delete key (entries s)) (delete key (expires s)) (versions s))
  | None => db
  end.

(** The eviction loop; [None] is a loop still running when its fuel is spent. *)
Fixpoint evict_loop (fuel : nat) (o : oracle P) (round : nat) (maxMem : Z) (p : EvictionPolicy) db
    : option (option DbError * ShardedDB P) :=
  match fuel with
  | O => None
  | S fuel =>
    if maxMem <? UsedMemory db then
      let '(bestKey, bestShardIdx, _) :=
        attempt_loop (Z.to_nat (NumShards * 2)) o round 0 p db ([], -1, 0) in
      if bool_decide (bestKey = []) || (bestShardIdx <? 0) then Some (Some ErrOOM, db)
      else evict_loop fuel o (S round) maxMem p (evict_key db bestShardIdx bestKey)
    else Some (None, db)
  end.

Definition FreeMemoryIfNeeded (o : oracle P) db : option (option DbError * ShardedDB P) :=
  let maxMem := maxMemory db in
  if maxMem <=? 0 then Some (None, db)
  else if UsedMemory db <=? maxMem then Some (None, db)
  else
    match evictionPolicy db with
    | NoEviction => Some (Some ErrOOM, db)
    | p => evict_loop (S (Z.to_nat (Len db))) o 0 maxMem p db
    end.

(** The memory check in front of [Set] and [SetWithExpire]. *)
Definition make_room (o : oracle P) db (newSize : Z) : option (option DbError * ShardedDB P) :=
  let maxMem := maxMemory db in
  if (0 <? maxMem) && (maxMem <? UsedMemory db + newSize) then
    '(err, db) ← FreeMemoryIfNeeded o db;
    match err with
    | Some e => Some (Some e, db)
    | None =>
      if (maxMem <? UsedMemory db + newSize) && bool_decide (evictionPolicy db = NoEviction)
      then Some (Some ErrOOM, db) else Some (None, db)
    end
  else Some (None, db).

Definition Set_ (o : oracle P) (t : Z) db key val : option (option DbError * ShardedDB P) :=
  let val := store_lru (Unix t) val in
  '(err, db) ← make_room o db (estimateObjectSize key val);
  match err with
  | Some e => Some (Some e, db)
  | None => Some (None, store_entry db key val (delete key))
  end.

Definition SetWithExpire (o : oracle P) (t : Z) db key val (ttl : Z)
    : option (option DbError * ShardedDB P) :=
  let val := store_lru (Unix t) val in
  '(err, db) ← make_room o db (estimateObjectSize key val);
  match err with
  | Some e => Some (Some e, db)
  | None => Some (None, store_entry db key val <[key := UnixMilli (t + ttl)]>)
  end.

(** One tick of the background goroutine of [StartCron]. *)
Definition cron_tick (o : oracle P) (t : Z) db : option (ShardedDB P) :=
  let db := if noActiveExpire db =? 0 then (ActiveExpireCycle o t db).2 else db in
  r ← FreeMemoryIfNeeded o db; Some r.2.

End operations.

(** ** Cells: what a shard knows of one key *)

Section cells.
Context {P : Type} `{PS : PayloadSize P}.
Implicit Types (db : ShardedDB P) (s : shard P) (key k : bytes) (val : Robj P) (o : oracle P).

Definition cell_of s k : option (Robj P) * option Z * option Z :=
  (entries s !! k, expires s !! k, versions s !! k).

Definition cell db k := cell_of (getShard db k) k.

Definition bump db (v : option Z) : option Z :=
  if 0 <? watchers db then Some (u64 (default 0 v + 1)) else v.

(** Every shard exists and holds only keys that hash to it, only stored keys have a
    deadline, and version counters fit their width. *)
Record db_wf db : Prop := {
  wf_len : length (shards db) = Z.to_nat NumShards;
  wf_home i s k : shards db !! i = Some s -> cell_of s k <> (None, None, None) ->
    i = Z.to_nat (GetShardIdx k);
  wf_expires k x : (cell db k).1.2 = Some x -> is_Some (cell db k).1.1;
  wf_version k x : (cell db k).2 = Some x -> 0 <= x < 2 ^ 64
}.

Lemma GetShardIdx_range k : 0 <= GetShardIdx k < NumShards.
Proof. apply Z.mod_pos_bound. done. Qed.

Lemma shards_lookup db (i : Z) :
  length (shards db) = Z.to_nat NumShards -> 0 <= i < NumShards ->
  shards db !! Z.to_nat i = Some (shard_at db i).
Proof.
  intros Hl Hi. unfold shard_at. destruct (lookup_lt_is_Some_2 (shards db) (Z.to_nat i)) as [s ->]; [lia|done].
Qed.

Lemma shard_at_put db i j s :
  length (shards db) = Z.to_nat NumShards -> 0 <= i < NumShards -> 0 <= j < NumShards ->
  shard_at (put_shard db i s) j = if decide (i = j) then s else shard_at db j.
Proof.
  intros Hl Hi Hj. unfold shard_at, put_shard, with_shards. cbn [shards].
  destruct (decide (i = j)) as [->|].
  - rewrite list_lookup_insert_eq by lia. done.
  - by rewrite list_lookup_insert_ne by lia.
Qed.

(** A store into the home shard of [k] that leaves the other keys alone changes one cell. *)
Lemma cell_put db k s k' :
  length (shards db) = Z.to_nat NumShards ->
  (forall j, j <> k -> cell_of s j = cell_of (getShard db k) j) ->
  cell (put_shard db (GetShardIdx k) s) k' = if decide (k' = k) then cell_of s k else cell db k'.
Proof.
  intros Hl Hs. unfold cell, getShard. rewrite shard_at_put by auto using GetShardIdx_range.
  destruct (decide (k' = k)) as [->|Hk]; [by rewrite decide_True|].
  destruct (decide (_ = _)) as [E|]; [|done]. rewrite Hs by done. unfold getShard. by rewrite E.
Qed.

Lemma wf_put db k s :
  db_wf db ->
  (forall j, j <> k -> cell_of s j = cell_of (getShard db k) j) ->
  (forall x, expires s !! k = Some x -> is_Some (entries s !! k)) ->
  (forall x, versions s !! k = Some x -> 0 <= x < 2 ^ 64) ->
  db_wf (put_shard db (GetShardIdx k) s).
Proof.
  intros [Hl Hh He Hv] Hs Hx Hvs. split.
  - simpl. by rewrite length_insert.
  - intros i s' j. simpl. pose proof (GetShardIdx_range k).
    destruct (decide (i = Z.to_nat (GetShardIdx k))) as [->|Hi].
    + rewrite list_lookup_insert_eq by lia. intros [= <-] Hj.
      destruct (decide (j = k)) as [->|Hjk]; [done|]. rewrite Hs in Hj by done.
      eapply Hh; [|done]. by apply shards_lookup.
    + rewrite list_lookup_insert_ne by done. apply Hh.
  - intros j x. rewrite !cell_put by done. destruct (decide (j = k)); [apply Hx|apply He].
  - intros j x. rewrite !cell_put by done. destruct (decide (j = k)); [apply Hvs|apply Hv].
Qed.

(** Fields that no lookup reads. *)
Lemma wf_shards_eq db db' : shards db' = shards db -> db_wf db -> db_wf db'.
Proof.
  intros E [Hl Hh He Hv]. split; rewrite ?E; [done..| |];
    intros k x; unfold cell, getShard, shard_at; rewrite E; [apply He|apply Hv].
Qed.

Lemma wf_addMem db n : db_wf db -> db_wf (addMem db n).
Proof. by apply wf_shards_eq. Qed.

Lemma cell_shards_eq db db' k : shards db' = shards db -> cell db' k = cell db k.
Proof. intros E. unfold cell, getShard, shard_at. by rewrite E. Qed.

Lemma notifyExpired_shards db ks : shards (notifyExpired db ks) = shards db.
Proof. by destruct ks. Qed.

Lemma cell_bumpVersion db s k j :
  cell_of (bumpVersion db s k) j =
  (entries s !! j, expires s !! j, if decide (j = k) then bump db (versions s !! j) else versions s !! j).
Proof.
  unfold bumpVersion, bump, cell_of. destruct (0 <? watchers db); simpl; [|by case_decide].
  unfold incr_version. destruct (decide (j = k)) as [->|].
  - by rewrite lookup_insert_eq.
  - by rewrite lookup_insert_ne.
Qed.

(** Bumped counters fit their width. *)
Lemma bumpVersion_u64 db0 db s k x :
  db_wf db -> versions s = versions (getShard db k) ->
  versions (bumpVersion db0 s k) !! k = Some x -> 0 <= x < 2 ^ 64.
Proof.
  intros Hwf Hs. pose proof (wf_version _ Hwf k) as Hv. unfold bumpVersion.
  destruct (0 <? watchers db0); simpl; [|by rewrite Hs; apply Hv].
  unfold incr_version. rewrite lookup_insert_eq. intros [= <-]. by apply Z.mod_pos_bound.
Qed.

Lemma bump_shards_eq db db' v : watchers db' = watchers db -> bump db' v = bump db v.
Proof. unfold bump. by intros ->. Qed.

(** *** Removal and store *)

Definition gone db k : option (Robj P) * option Z * option Z := (None, None, bump db (cell db k).2).

Lemma remove_key_put db k :
  exists db0, shards db0 = shards db /\ watchers db0 = watchers db /\
    remove_key db (GetShardIdx k) k =
    put_shard db0 (GetShardIdx k) (bumpVersion db0
      (mkShard (delete k (entries (getShard db k))) (delete k (expires (getShard db k)))
         (versions (getShard db k))) k).
Proof.
  exists (match entries (getShard db k) !! k with
          | Some old => subMem db (estimateObjectSize k old) | None => db end).
  unfold remove_key, getShard. by destruct (entries _ !! k).
Qed.

Lemma cell_remove_key db k k' :
  db_wf db -> cell (remove_key db (GetShardIdx k) k) k' = if decide (k' = k) then gone db k else cell db k'.
Proof.
  intros Hwf. destruct (remove_key_put db k) as (db0 & E & Ew & ->).
  rewrite cell_put; [|by rewrite E; apply Hwf|].
  - destruct (decide (k' = k)) as [->|]; [|by apply cell_shards_eq].
    rewrite cell_bumpVersion, decide_True by done. simpl. unfold gone.
    by rewrite !lookup_delete_eq, (bump_shards_eq db).
  - intros j Hj. rewrite cell_bumpVersion, decide_False by done. simpl.
    rewrite !lookup_delete_ne by done. unfold getShard, shard_at. by rewrite E.
Qed.

Lemma wf_remove_key db k : db_wf db -> db_wf (remove_key db (GetShardIdx k) k).
Proof.
  intros Hwf. destruct (remove_key_put db k) as (db0 & E & Ew & ->).
  apply wf_put.
  - by eapply wf_shards_eq.
  - intros j Hj. rewrite cell_bumpVersion, decide_False by done. simpl.
    rewrite !lookup_delete_ne by done. unfold getShard, shard_at. by rewrite E.
  - intros x. unfold bumpVersion. destruct (0 <? _); simpl; by rewrite lookup_delete_eq.
  - intros x. by apply (bumpVersion_u64 _ db).
Qed.

Lemma store_entry_put db k v f :
  exists db0 n, shards db0 = shards db /\ watchers db0 = watchers db /\
    store_entry db k v f =
    addMem (put_shard db0 (GetShardIdx k) (bumpVersion db0
      (mkShard (<[k := v]> (entries (getShard db k))) (f (expires (getShard db k)))
         (versions (getShard db k))) k)) n.
Proof.
  exists (match entries (getShard db k) !! k with
          | Some old => subMem db (estimateObjectSize k old) | None => db end), (estimateObjectSize k v).
  unfold store_entry, getShard. by destruct (entries _ !! k).
Qed.

Lemma cell_store_entry db k v f k' :
  db_wf db -> (forall m j, j <> k -> f m !! j = m !! j) ->
  cell (store_entry db k v f) k' =
  if decide (k' = k) then (Some v, f (expires (getShard db k)) !! k, bump db (cell db k).2) else cell db k'.
Proof.
  intros Hwf Hf. destruct (store_entry_put db k v f) as (db0 & n & E & Ew & ->).
  transitivity (cell (put_shard db0 (GetShardIdx k) (bumpVersion db0
      (mkShard (<[k := v]> (entries (getShard db k))) (f (expires (getShard db k)))
         (versions (getShard db k))) k)) k'); [by apply cell_shards_eq|].
  rewrite cell_put; [|by rewrite E; apply Hwf|].
  - destruct (decide (k' = k)) as [->|]; [|by apply cell_shards_eq].
    rewrite cell_bumpVersion, decide_True by done. simpl.
    by rewrite lookup_insert_eq, (bump_shards_eq db).
  - intros j Hj. rewrite cell_bumpVersion, decide_False by done. simpl.
    rewrite lookup_insert_ne, Hf by done. unfold getShard, shard_at. by rewrite E.
Qed.

Lemma wf_store_entry db k v f :
  db_wf db -> (forall m j, j <> k -> f m !! j = m !! j) -> db_wf (store_entry db k v f).
Proof.
  intros Hwf Hf. destruct (store_entry_put db k v f) as (db0 & n & E & Ew & ->).
  apply wf_addMem, wf_put.
  - by eapply wf_shards_eq.
  - intros j Hj. rewrite cell_bumpVersion, decide_False by done. simpl.
    rewrite lookup_insert_ne, Hf by done. unfold getShard, shard_at. by rewrite E.
  - intros x _. unfold bumpVersion. destruct (0 <? _); simpl; rewrite lookup_insert_eq; eauto.
  - intros x. by apply (bumpVersion_u64 _ db).
Qed.

End cells.
