(* ===== verification/DbSpec.v ===== *)
(** * What the keyspace promises

    The reference of the database is one finite map from keys to values with a deadline, from
    which expired keys vanish at once.  [db_refines_map] is the functional refinement:
    a history of operations, at clock readings that never go back, answers on the sharded
    database what it answers on the map.  Also here: TTL, the WATCH versions, and two histories on
    which the code departs from the map. *)

From S2P Require Import Prelude Object Glob Db.

Local Open Scope Z_scope.

Section spec.
Context {P : Type} `{PS : PayloadSize P}.
Implicit Types (db : ShardedDB P) (k : bytes) (v : Robj P) (o : oracle P) (now t : Z).

(** ** The abstraction *)

Abbreviation value := (ObjectType * ObjectEncoding * P)%type (only parsing).

(** A deadline of 0 is no deadline. *)
Definition alive (now e : Z) : bool := (e =? 0) || (now <? e).

Definition abs_of (c : option (Robj P) * option Z * option Z) : option (value * Z) :=
  match c with
  | (Some v, e, _) => Some (face v, default 0 e)
  | _ => None
  end.

(** What the keyspace knows of a key: type, encoding, pointer and deadline.  The containers behind pointers are not its business; they
    come in with [Context.represents]. *)
Definition abs db k : option (value * Z) := abs_of (cell db k).

Definition live (now : Z) (x : option (value * Z)) : option (value * Z) :=
  match x with
  | Some (_, e) => if alive now e then x else None
  | None => None
  end.

(** The three states of a key as the operations see them. *)
Inductive key_state db k (now : Z) : Prop :=
  | key_expired :
      isExpired (getShard db k) k now = true -> live now (abs db k) = None -> key_state db k now
  | key_absent :
      isExpired (getShard db k) k now = false -> entries (getShard db k) !! k = None ->
      expires (getShard db k) !! k = None -> abs db k = None -> key_state db k now
  | key_present v e :
      isExpired (getShard db k) k now = false -> entries (getShard db k) !! k = Some v ->
      default 0 (expires (getShard db k) !! k) = e -> alive now e = true ->
      abs db k = Some (face v, e) -> key_state db k now.

Lemma key_cases db k now : db_wf db -> key_state db k now.
Proof.
  intros Hwf. pose proof (wf_expires _ Hwf k) as Hx. unfold cell, cell_of in Hx. simpl in Hx.
  destruct (isExpired (getShard db k) k now) eqn:Hexp.
  - apply key_expired; [done|]. revert Hexp. unfold isExpired, abs, abs_of, cell, cell_of, live.
    destruct (expires _ !! k) as [e|]; [|done]. destruct (entries _ !! k); [|done]. simpl.
    unfold alive. destruct (e =? 0); [done|]. intros ?%Z.leb_le. simpl.
    by rewrite (proj2 (Z.ltb_ge _ _)).
  - destruct (entries (getShard db k) !! k) as [v|] eqn:Hv.
    + eapply key_present; [done..| |by unfold abs, abs_of, cell, cell_of; rewrite Hv].
      revert Hexp. unfold isExpired, alive. destruct (expires _ !! k) as [e|]; [|done]. simpl.
      destruct (e =? 0); [done|]. intros ?%Z.leb_gt. simpl. by apply Z.ltb_lt.
    + apply key_absent; [done..| |by unfold abs, abs_of, cell, cell_of; rewrite Hv].
      destruct (expires _ !! k) as [e|] eqn:He; [|done]. by destruct (Hx e).
Qed.

Lemma live_later now now' x : now <= now' -> live now' (live now x) = live now' x.
Proof.
  intros Hn. destruct x as [[w e]|]; [|done]. unfold live at 2.
  destruct (alive now e) eqn:E; [done|]. simpl. replace (alive now' e) with false; [done|].
  symmetry. revert E. unfold alive. rewrite !orb_false_iff, !Z.ltb_ge. intuition lia.
Qed.

(** ** Operations and their specification *)

(** Calls of the database's clients.  [OKeep] is the read-then-[SetKeepTTL] sequence of the
    command handlers that rewrite a value in place. *)
Inductive op :=
  | OGet (k : bytes) | OSet (k : bytes) (v : Robj P) | OSetEx (k : bytes) (v : Robj P) (ttl : Z)
  | OKeep (k : bytes) (v : Robj P) | OExpireAt (k : bytes) (e : Z) | OExpire (k : bytes) (ttl : Z)
  | ODel (k : bytes) | OExists (k : bytes) | OGetTTL (k : bytes) | OPersist (k : bytes)
  | OTouch (k : bytes) | OAddWatchers (n : Z) | ORemoveWatchers (n : Z)
  | OFlushAll | OActiveExpire.

Inductive res :=
  | RObj (x : option value) | RBool (b : bool) | RErr (e : option DbError)
  | RTTL (x : option (value * Z)) | RNone.

Definition step (o : oracle P) (t : Z) db (c : op) : option (res * ShardedDB P) :=
  match c with
  | OGet k => let '(r, db) := Get t db k in Some (RObj (face <$> r), db)
  | OSet k v => '(e, db) ← Set_ o t db k v; Some (RErr e, db)
  | OSetEx k v ttl => '(e, db) ← SetWithExpire o t db k v ttl; Some (RErr e, db)
  | OKeep k v => let '(r, db) := Get t db k in Some (RObj (face <$> r), SetKeepTTL t db k v)
  | OExpireAt k e => let '(b, db) := SetExpireAt t db k e in Some (RBool b, db)
  | OExpire k ttl => let '(b, db) := SetExpire t db k ttl in Some (RBool b, db)
  | ODel k => let '(b, db) := Del t db k in Some (RBool b, db)
  | OExists k => Some (RBool (Exists t db k), db)
  | OGetTTL k => Some (RTTL ((fun '(v, e) => (face v, e)) <$> GetWithTTL t db k), db)
  | OPersist k => let '(b, db) := Persist t db k in Some (RBool b, db)
  | OTouch k => Some (RNone, Touch db k)
  | OAddWatchers n => Some (RNone, AddWatchers db n)
  | ORemoveWatchers n => Some (RNone, RemoveWatchers db n)
  | OFlushAll => Some (RNone, FlushAll db)
  | OActiveExpire => Some (RNone, (ActiveExpireCycle o t db).2)
  end.

Abbreviation spec_state := (gmap bytes (value * Z)) (only parsing).

(** Expired keys vanish. *)
Definition purge (now : Z) (m : spec_state) : spec_state := omap (fun x => live now (Some x)) m.

Definition spec_step (t : Z) (m : spec_state) (c : op) : res * spec_state :=
  let now := UnixMilli t in
  let m := purge now m in
  match c with
  | OGet k => (RObj (fst <$> m !! k), m)
  | OSet k v => (RErr None, <[k := (face v, 0)]> m)
  | OSetEx k v ttl => (RErr None, <[k := (face v, UnixMilli (t + ttl))]> m)
  | OKeep k v => (RObj (fst <$> m !! k), <[k := (face v, default 0 (snd <$> m !! k))]> m)
  | OExpireAt k e =>
    match m !! k with Some (w, _) => (RBool true, <[k := (w, e)]> m) | None => (RBool false, m) end
  | OExpire k ttl =>
    match m !! k with
    | Some (w, _) => (RBool true, <[k := (w, s64 (now + Milliseconds ttl))]> m)
    | None => (RBool false, m)
    end
  | ODel k => (RBool (bool_decide (is_Some (m !! k))), delete k m)
  | OExists k => (RBool (bool_decide (is_Some (m !! k))), m)
  | OGetTTL k => (RTTL (m !! k), m)
  | OPersist k =>
    match m !! k with
    | Some (w, e) => if e =? 0 then (RBool false, m) else (RBool true, <[k := (w, 0)]> m)
    | None => (RBool false, m)
    end
  | OFlushAll => (RNone, ∅)
  | OTouch _ | OAddWatchers _ | ORemoveWatchers _ | OActiveExpire => (RNone, m)
  end.

(** Runs of timed calls. *)
Fixpoint run (o : oracle P) db (h : list (Z * op)) : option (list res * ShardedDB P) :=
  match h with
  | [] => Some ([], db)
  | (t, c) :: h =>
    '(r, db) ← step o t db c;
    '(rs, db) ← run o db h;
    Some (r :: rs, db)
  end.

Fixpoint spec_run (m : spec_state) (h : list (Z * op)) : list res * spec_state :=
  match h with
  | [] => ([], m)
  | (t, c) :: h =>
    let '(r, m) := spec_step t m c in
    let '(rs, m) := spec_run m h in (r :: rs, m)
  end.

(** The clock of a run never goes back. *)
Fixpoint clock_ok (t0 : Z) (h : list (Z * op)) : Prop :=
  match h with
  | [] => True
  | (t, _) :: h => t0 <= t /\ clock_ok t h
  end.

(** The database shows exactly the live part of the map. *)
Definition shows (now : Z) db (m : spec_state) : Prop :=
  forall k, live now (abs db k) = live now (m !! k).

Lemma lookup_purge now (m : spec_state) k : purge now m !! k = live now (m !! k).
Proof. unfold purge. rewrite lookup_omap. by destruct (m !! k). Qed.

Lemma shows_later now now' db m : now <= now' -> shows now db m -> shows now' db m.
Proof.
  intros Hn H k. rewrite <- (live_later now now'), H by done. by apply live_later.
Qed.

Lemma shows_purge now db m : shows now db m -> shows now db (purge now m).
Proof. intros H k. rewrite lookup_purge, live_later by lia. apply H. Qed.

Lemma UnixMilli_mono t t' : t <= t' -> UnixMilli t <= UnixMilli t'.
Proof. unfold UnixMilli. intros. apply Z.div_le_mono; lia. Qed.

(** A change of the cell of [k] only, against the same change of the map. *)
Lemma shows_upd now db db' m k x :
  shows now db m -> live now (abs db' k) = live now x ->
  (forall j, j <> k -> abs db' j = abs db j) ->
  shows now db' (match x with Some y => <[k := y]> m | None => delete k m end).
Proof.
  intros Hm Hk Hj j. destruct (decide (j = k)) as [->|Hne].
  - rewrite Hk. destruct x; [by rewrite lookup_insert_eq|by rewrite lookup_delete_eq].
  - rewrite Hj, Hm by done.
    destruct x; [by rewrite lookup_insert_ne|by rewrite lookup_delete_ne].
Qed.

(** ** Effects on cells *)

Lemma abs_cell db db' k : cell db' k = cell db k -> abs db' k = abs db k.
Proof. unfold abs. by intros ->. Qed.

Lemma abs_gone db db' k : cell db' k = gone db k -> abs db' k = None.
Proof. unfold abs. by intros ->. Qed.

(** An operation reclaims: some keys whose deadline has passed are gone, nothing else moved. *)
Record reclaims (now : Z) db db' : Prop := {
  rc_wf : db_wf db';
  rc_watchers : watchers db' = watchers db;
  rc_max : maxMemory db' = maxMemory db;
  rc_cell k : cell db' k = cell db k \/
    (exists e, (cell db k).1.2 = Some e /\ alive now e = false /\ cell db' k = gone db k)
}.

Lemma reclaims_refl now db : db_wf db -> reclaims now db db.
Proof. split; auto. Qed.

Lemma reclaims_trans now db1 db2 db3 :
  reclaims now db1 db2 -> reclaims now db2 db3 -> reclaims now db1 db3.
Proof.
  intros [? Hw Hm H1] [? Hw' Hm' H2]. split; [done|congruence..|]. intros k.
  destruct (H1 k) as [E|(e & He & Hd & E)], (H2 k) as [E'|(e' & He' & Hd' & E')].
  - left. congruence.
  - right. exists e'. rewrite <- E. split_and!; [done..|].
    rewrite E'. unfold gone. by rewrite E, (bump_shards_eq db1).
  - right. exists e. split_and!; [done..|congruence].
  - rewrite E in He'. done.
Qed.

Lemma reclaims_shards now db1 db2 db3 :
  shards db3 = shards db2 -> watchers db3 = watchers db2 -> maxMemory db3 = maxMemory db2 ->
  reclaims now db1 db2 -> reclaims now db1 db3.
Proof.
  intros E Ew Em [? ? ? H]. split; [by eapply wf_shards_eq|congruence..|]. intros k.
  rewrite (cell_shards_eq db2) by done. apply H.
Qed.

Lemma reclaims_notify now db1 db2 ks : reclaims now db1 db2 -> reclaims now db1 (notifyExpired db2 ks).
Proof. by apply reclaims_shards; destruct ks. Qed.

Lemma remove_key_fields db i k :
  watchers (remove_key db i k) = watchers db /\ maxMemory (remove_key db i k) = maxMemory db.
Proof. unfold remove_key. by destruct (entries _ !! k). Qed.

Lemma store_entry_fields db k v f :
  watchers (store_entry db k v f) = watchers db /\ maxMemory (store_entry db k v f) = maxMemory db.
Proof. unfold store_entry. by destruct (entries _ !! k). Qed.

Lemma reclaims_remove now db k e :
  db_wf db -> (cell db k).1.2 = Some e -> alive now e = false ->
  reclaims now db (remove_key db (GetShardIdx k) k).
Proof.
  intros Hwf He Hd. split; [by apply wf_remove_key|by apply remove_key_fields..|].
  intros j. rewrite cell_remove_key by done. destruct (decide (j = k)) as [->|]; [|auto].
  right. eauto.
Qed.

Lemma isExpired_cell db k now :
  isExpired (getShard db k) k now = true ->
  exists e, (cell db k).1.2 = Some e /\ alive now e = false.
Proof.
  unfold isExpired, cell, cell_of, alive. destruct (expires _ !! k) as [e|]; [|done].
  destruct (e =? 0) eqn:E; [done|]. intros ?%Z.leb_le. exists e. split; [done|].
  rewrite E. by apply Z.ltb_ge.
Qed.

(** Reclaiming does not change what is shown. *)
Lemma reclaims_live now db db' k :
  reclaims now db db' -> live now (abs db' k) = live now (abs db k).
Proof.
  intros H. destruct (rc_cell _ _ _ H k) as [E|(e & He & Hd & E)]; [by rewrite (abs_cell db)|].
  rewrite (abs_gone db) by done. unfold abs, abs_of. destruct (cell db k) as [[[w|] x] ?]; [|done].
  simpl in He. subst x. simpl. by rewrite Hd.
Qed.

Lemma sample_loop_reclaims now i n keys sampled db acc db' acc' :
  db_wf db -> 0 <= i < NumShards ->
  sample_loop now i n keys sampled db acc = (db', acc') -> reclaims now db db'.
Proof.
  intros Hwf Hi. revert sampled db acc Hwf. induction keys as [|k keys IH]; intros sampled db acc Hwf E.
  { simplify_eq/=. by apply reclaims_refl. }
  cbn [sample_loop] in E.
  assert (exists db1 acc1, reclaims now db db1 /\
    match expires (shard_at db i) !! k with
      | Some exp =>
        if (0 <? exp) && (exp <=? now) then (remove_key db i k, acc ++ [k]) else (db, acc)
      | None => (db, acc)
      end = (db1, acc1)) as (db1 & acc1 & Hr & E1).
  { destruct (expires (shard_at db i) !! k) as [e|] eqn:He; [|eauto using reclaims_refl].
    destruct ((0 <? e) && (e <=? now)) eqn:Hb; [|eauto using reclaims_refl].
    do 2 eexists. split; [|done]. bool_prop.
    assert (i = GetShardIdx k) as ->.
    { apply Z2Nat.inj; [lia|apply GetShardIdx_range|].
      eapply (wf_home _ Hwf); [by apply shards_lookup; [apply Hwf|]|].
      unfold cell_of. rewrite He. congruence. }
    apply (reclaims_remove _ _ _ e); [done|done|].
    unfold alive. by rewrite (proj2 (Z.eqb_neq _ _)), (proj2 (Z.ltb_ge _ _)) by lia. }
  rewrite E1 in E. destruct (n <=? sampled + 1); simplify_eq; [done|].
  eapply reclaims_trans; [done|]. eapply IH; [apply Hr|done].
Qed.

Lemma expire_shard_reclaims o now i rounds iter db total :
  db_wf db -> 0 <= i < NumShards ->
  reclaims now db (expire_shard rounds o now i iter db total).1.
Proof.
  intros Hwf Hi. revert iter db total Hwf.
  induction rounds as [|rounds IH]; intros iter db total Hwf; [by apply reclaims_refl|].
  cbn [expire_shard]. destruct (_ =? 0); [by apply reclaims_refl|].
  destruct (sample_loop _ _ _ _ _ _ _) as [db1 rec] eqn:E.
  apply sample_loop_reclaims in E; [|done..]. apply (reclaims_notify _ _ _ rec) in E.
  destruct (_ <? 25); [done|]. eapply reclaims_trans; [done|]. apply IH, E.
Qed.

Lemma expire_shards_reclaims o now n i db total :
  db_wf db -> 0 <= i -> i + Z.of_nat n <= NumShards ->
  reclaims now db (expire_shards n o now i db total).1.
Proof.
  revert i db total. induction n as [|n IH]; intros i db total Hwf Hi Hn; [by apply reclaims_refl|].
  cbn [expire_shards]. pose proof (expire_shard_reclaims o now i 16 0 db total) as H.
  destruct (expire_shard _ _ _ _ _ _ _) as [db1 t1]. specialize (H Hwf ltac:(lia)).
  eapply reclaims_trans; [done|]. apply IH; [apply H|lia..].
Qed.

Lemma ActiveExpireCycle_reclaims o t db :
  db_wf db -> reclaims (UnixMilli t) db (ActiveExpireCycle o t db).2.
Proof.
  intros Hwf. pose proof (expire_shards_reclaims o (UnixMilli t) (Z.to_nat NumShards) 0 db 0) as H.
  unfold ActiveExpireCycle. destruct (expire_shards _ _ _ _ _ _). apply H; [done|lia|done].
Qed.

(** ** Single-key changes *)

Record changes db k (c : option (Robj P) * option Z * option Z) db' : Prop := {
  ch_wf : db_wf db';
  ch_watchers : watchers db' = watchers db;
  ch_max : maxMemory db' = maxMemory db;
  ch_cell j : cell db' j = if decide (j = k) then c else cell db j
}.

Lemma changes_shows now db db' k c m x :
  changes db k c db' -> shows now db m -> live now (abs_of c) = live now x ->
  shows now db' (match x with Some y => <[k := y]> m | None => delete k m end).
Proof.
  intros H Hm Hx. eapply shows_upd; [done| |].
  - unfold abs. by rewrite (ch_cell _ _ _ _ H), decide_True.
  - intros j Hj. apply abs_cell. by rewrite (ch_cell _ _ _ _ H), decide_False.
Qed.

Lemma remove_key_changes db k :
  db_wf db -> changes db k (gone db k) (remove_key db (GetShardIdx k) k).
Proof.
  intros. split; [by apply wf_remove_key|apply remove_key_fields..|].
  intros j. by apply cell_remove_key.
Qed.

Lemma store_entry_changes db k v f :
  db_wf db -> (forall m j, j <> k -> f m !! j = m !! j) ->
  changes db k (Some v, f (expires (getShard db k)) !! k, bump db (cell db k).2) (store_entry db k v f).
Proof.
  intros. split; [by apply wf_store_entry|apply store_entry_fields..|].
  intros j. by apply cell_store_entry.
Qed.

Lemma put_changes db k s :
  db_wf db -> (forall j, j <> k -> cell_of s j = cell_of (getShard db k) j) ->
  (forall x, expires s !! k = Some x -> is_Some (entries s !! k)) ->
  (forall x, versions s !! k = Some x -> 0 <= x < 2 ^ 64) ->
  changes db k (cell_of s k) (put_shard db (GetShardIdx k) s).
Proof.
  intros Hwf Hs Hx Hvs. split; [by apply wf_put|done..|]. intros j. apply cell_put; [apply Hwf|done].
Qed.

(** The outcomes of [Get]. *)
Lemma Get_present t db k v :
  db_wf db -> isExpired (getShard db k) k (UnixMilli t) = false ->
  entries (getShard db k) !! k = Some v ->
  exists db', Get t db k = (Some (store_lru (Unix t) v), db') /\
    changes db k (Some (store_lru (Unix t) v), (cell db k).1.2, (cell db k).2) db'.
Proof.
  intros Hwf Hx Hv. unfold Get. rewrite Hx, Hv. eexists. split; [done|].
  set (s := mkShard _ _ _).
  replace (_, _, _) with (cell_of s k) by (unfold cell_of, s; simpl; by rewrite lookup_insert_eq).
  apply put_changes; [done|..].
  - intros j Hj. unfold cell_of, s. simpl. by rewrite lookup_insert_ne.
  - intros x _. unfold s. simpl. rewrite lookup_insert_eq. eauto.
  - intros x. apply (wf_version _ Hwf k x).
Qed.

Lemma Get_expired t db k :
  db_wf db -> isExpired (getShard db k) k (UnixMilli t) = true ->
  exists db', Get t db k = (None, db') /\ reclaims (UnixMilli t) db db' /\ cell db' k = gone db k.
Proof.
  intros Hwf Hx. unfold Get. rewrite Hx. eexists. split; [done|].
  destruct (isExpired_cell _ _ _ Hx) as (e & He & Hd).
  pose proof (reclaims_remove (UnixMilli t) db k e Hwf He Hd) as Hr.
  destruct (bool_decide _).
  - split; [by apply reclaims_notify|].
    rewrite (cell_shards_eq (remove_key db (GetShardIdx k) k)) by apply notifyExpired_shards.
    by rewrite cell_remove_key, decide_True.
  - split; [done|]. by rewrite cell_remove_key, decide_True.
Qed.

(** A deadline change of a stored key. *)
Lemma expires_changes db k v (f : gmap bytes Z -> gmap bytes Z) :
  db_wf db -> entries (getShard db k) !! k = Some v -> (forall m j, j <> k -> f m !! j = m !! j) ->
  changes db k (Some v, f (expires (getShard db k)) !! k, bump db (cell db k).2)
    (put_shard db (GetShardIdx k) (bumpVersion db
       (mkShard (entries (getShard db k)) (f (expires (getShard db k))) (versions (getShard db k))) k)).
Proof.
  intros Hwf Hv Hf. set (s := mkShard _ _ _).
  replace (_, _, _) with (cell_of (bumpVersion db s k) k); cycle 1.
  { rewrite cell_bumpVersion, decide_True by done. unfold s. simpl. by rewrite Hv. }
  apply put_changes; [done|..].
  - intros j Hj. rewrite cell_bumpVersion, decide_False by done. unfold s, cell_of. simpl. by rewrite Hf.
  - intros x _. unfold bumpVersion, s. destruct (0 <? _); simpl; by rewrite Hv.
  - intros x. by apply (bumpVersion_u64 _ db).
Qed.

Lemma make_room_unlimited o db n : maxMemory db <= 0 -> make_room o db n = Some (None, db).
Proof. intros. unfold make_room. by rewrite (proj2 (Z.ltb_ge _ _)) by lia. Qed.

(** ** Whole-keyspace changes *)

Lemma cell_map_shards db f k :
  length (shards db) = Z.to_nat NumShards ->
  cell (with_shards db (f <$> shards db)) k = cell_of (f (getShard db k)) k.
Proof.
  intros Hl. unfold cell, getShard. f_equal. unfold shard_at at 1. simpl.
  rewrite list_lookup_fmap, shards_lookup by auto using GetShardIdx_range. done.
Qed.

Lemma wf_map_shards db f :
  db_wf db ->
  (forall s k, cell_of (f s) k <> (None, None, None) -> cell_of s k <> (None, None, None)) ->
  (forall s k x, (forall y, expires s !! k = Some y -> is_Some (entries s !! k)) ->
    expires (f s) !! k = Some x -> is_Some (entries (f s) !! k)) ->
  (forall s k x, (forall y, versions s !! k = Some y -> 0 <= y < 2 ^ 64) ->
    versions (f s) !! k = Some x -> 0 <= x < 2 ^ 64) ->
  db_wf (with_shards db (f <$> shards db)).
Proof.
  intros [Hl Hh He Hv] H1 H2 H3. split.
  - simpl. by rewrite length_fmap.
  - intros i s k. simpl. rewrite list_lookup_fmap. intros (s0 & Hs & ->)%fmap_Some Hc.
    eapply Hh; eauto.
  - intros k x. rewrite !cell_map_shards by done. simpl. apply H2. apply He.
  - intros k x. rewrite !cell_map_shards by done. simpl. apply H3. apply Hv.
Qed.

Lemma RemoveWatchers_keeps db n :
  db_wf db ->
  db_wf (RemoveWatchers db n) /\ maxMemory (RemoveWatchers db n) = maxMemory db /\
  forall k, (cell (RemoveWatchers db n) k).1 = (cell db k).1.
Proof.
  intros Hwf. unfold RemoveWatchers.
  assert (db_wf (with_watchers db (watchers db - n))) as Hwf' by (by apply (wf_shards_eq db)).
  destruct (0 <? _); [by split_and!|]. split_and!; [|done|].
  - apply wf_map_shards; [done|..];
      [|intros s k x H; apply H|intros s k x _; simpl; by rewrite lookup_empty].
    intros s k. unfold cell_of. simpl. rewrite lookup_empty. intros H [= E1 E2 E3].
    apply H. by rewrite E1, E2.
  - intros k. by rewrite cell_map_shards by apply Hwf'.
Qed.

Lemma foldr_incr (m : gmap bytes Z) l k :
  NoDup l ->
  foldr (fun key w => incr_version w key) m l !! k =
  if decide (k ∈ l) then Some (u64 (default 0 (m !! k) + 1)) else m !! k.
Proof.
  induction l as [|j l IH]; intros Hnd.
  { simpl. destruct (decide (k ∈ [])) as [H|]; [by apply elem_of_nil in H|done]. }
  apply NoDup_cons in Hnd as [Hj Hnd]. specialize (IH Hnd). simpl. unfold incr_version at 1.
  destruct (decide (j = k)) as [->|].
  - rewrite lookup_insert_eq, IH, decide_False by done.
    by rewrite decide_True by apply list_elem_of_here.
  - rewrite lookup_insert_ne, IH by done. apply decide_ext. rewrite elem_of_cons. naive_solver.
Qed.

Lemma elem_of_keys {V} (m : gmap bytes V) k : k ∈ (map_to_list m).*1 <-> is_Some (m !! k).
Proof.
  rewrite list_elem_of_fmap. split.
  - intros ([j x] & -> & Hj%elem_of_map_to_list). by eexists.
  - intros [x Hx]. exists (k, x). split; [done|]. by apply elem_of_map_to_list.
Qed.

Lemma FlushAll_cell db k :
  db_wf db ->
  cell (FlushAll db) k =
  (None, None,
    if 0 <? watchers db
    then if decide (is_Some (cell db k).1.1) then bump db (cell db k).2 else (cell db k).2
    else None).
Proof.
  intros Hwf. unfold FlushAll.
  rewrite (cell_shards_eq (with_shards db _)) by done.
  rewrite cell_map_shards by apply Hwf. unfold cell_of at 1. simpl. rewrite !lookup_empty.
  unfold bump. destruct (0 <? watchers db); [|done].
  rewrite foldr_incr by apply NoDup_fst_map_to_list. f_equal.
  apply decide_ext, elem_of_keys.
Qed.

Lemma wf_FlushAll db : db_wf db -> db_wf (FlushAll db).
Proof.
  intros Hwf. unfold FlushAll. eapply (wf_shards_eq (with_shards db _)); [done|].
  apply wf_map_shards; [done|..].
  - intros s k H [= E1 E2 E3]. apply H. unfold cell_of. simpl. rewrite !lookup_empty.
    destruct (0 <? watchers db); [|done].
    rewrite foldr_incr by apply NoDup_fst_map_to_list.
    rewrite decide_False; [by rewrite E3|]. rewrite elem_of_keys, E1. by intros [].
  - intros s k x _. simpl. by rewrite lookup_empty.
  - intros s k x Hs. simpl. destruct (0 <? _); [|by rewrite lookup_empty].
    rewrite foldr_incr by apply NoDup_fst_map_to_list.
    destruct (decide _); [intros [= <-]; by apply Z.mod_pos_bound|apply Hs].
Qed.

Lemma Touch_changes db k :
  db_wf db -> watchers db = 0 /\ Touch db k = db \/
  changes db k ((cell db k).1, Some (u64 (default 0 (cell db k).2 + 1))) (Touch db k).
Proof.
  intros Hwf. unfold Touch. destruct (Z.eqb_spec (watchers db) 0); [by left|right]. set (s := mkShard _ _ _).
  replace (_, Some _) with (cell_of s k); cycle 1.
  { unfold cell_of, s, incr_version. simpl. by rewrite lookup_insert_eq. }
  apply put_changes; [done|..].
  - intros j Hj. unfold cell_of, s, incr_version. simpl. by rewrite lookup_insert_ne.
  - intros x. apply (wf_expires _ Hwf k x).
  - intros x. unfold s, incr_version. simpl. rewrite lookup_insert_eq. intros [= <-].
    by apply Z.mod_pos_bound.
Qed.

Lemma changes_max db k c db' : changes db k c db' -> maxMemory db <= 0 -> maxMemory db' <= 0.
Proof. intros H. by rewrite (ch_max _ _ _ _ H). Qed.

Lemma shows_reclaims now db db' m : reclaims now db db' -> shows now db m -> shows now db' m.
Proof. intros Hr H k. by rewrite (reclaims_live now db) by done. Qed.

Lemma shows_lookup now db (m : spec_state) k :
  shows now db m -> purge now m !! k = live now (abs db k).
Proof. intros H. by rewrite lookup_purge, H. Qed.

(** ** Simulation, operation by operation *)

Definition unlimited db : Prop := db_wf db /\ maxMemory db <= 0.

Definition simulates o t db (m : spec_state) (c : op) : Prop :=
  exists db', step o t db c = Some ((spec_step t m c).1, db') /\ unlimited db' /\
    shows (UnixMilli t) db' (spec_step t m c).2.

Section simulation.
Variables (o : oracle P) (t : Z) (db : ShardedDB P) (m : spec_state).
Hypothesis Hdb : unlimited db.
Hypothesis Hm : shows (UnixMilli t) db m.

Local Abbreviation now := (UnixMilli t) (only parsing).

Local Lemma sim_wf : db_wf db.
Proof using Hdb. apply Hdb. Qed.

Local Lemma sim_purged : shows now db (purge now m).
Proof using Hm. by apply shows_purge. Qed.

Local Lemma sim_lookup k : purge now m !! k = live now (abs db k).
Proof using Hm. by apply shows_lookup. Qed.

Local Lemma sim_keeps db' : db_wf db' -> maxMemory db' = maxMemory db -> unlimited db'.
Proof using Hdb. intros ? E. split; [done|]. rewrite E. apply Hdb. Qed.

Lemma sim_Get k : simulates o t db m (OGet k).
Proof using Hdb Hm.
  unfold simulates. cbn [step spec_step fst snd]. rewrite sim_lookup.
  destruct (key_cases db k now sim_wf) as [Hx Hl|Hx Hv He Ha|v e Hx Hv He Hal Ha].
  - destruct (Get_expired t db k sim_wf Hx) as (db' & -> & Hr & _). rewrite Hl.
    eexists. split_and!; [done| |by eapply shows_reclaims; [|apply sim_purged]].
    apply sim_keeps; apply Hr.
  - unfold Get. rewrite Hx, Hv, Ha. eexists. split_and!; [done|done|apply sim_purged].
  - destruct (Get_present t db k v sim_wf Hx Hv) as (db' & -> & Hc). rewrite Ha. simpl. rewrite Hal.
    eexists. split_and!; [done|apply sim_keeps; apply Hc|].
    intros j. rewrite <- sim_purged. f_equal. unfold abs. rewrite (ch_cell _ _ _ _ Hc).
    destruct (decide (j = k)) as [->|]; [|done]. unfold cell, cell_of, abs_of. simpl. by rewrite Hv.
Qed.

Lemma sim_store k v f e db0 m0 :
  unlimited db0 -> shows now db0 m0 -> (forall mm j, j <> k -> f mm !! j = mm !! j) ->
  default 0 (f (expires (getShard db0 k)) !! k) = e ->
  unlimited (store_entry db0 k v f) /\ shows now (store_entry db0 k v f) (<[k := (face v, e)]> m0).
Proof using Type.
  intros [Hw Hmx] Hs Hf He. pose proof (store_entry_changes db0 k v f Hw Hf) as Hc. split.
  - split; [apply Hc|by eapply changes_max].
  - apply (changes_shows now db0 _ k _ m0 (Some (face v, e)) Hc Hs). simpl. by rewrite He.
Qed.

Lemma sim_Set k v : simulates o t db m (OSet k v).
Proof using Hdb Hm.
  unfold simulates, step, Set_. rewrite make_room_unlimited by apply Hdb. cbn -[store_entry].
  eexists. split; [done|]. apply (sim_store k (store_lru (Unix t) v)); [done|apply sim_purged|..].
  - intros. by apply lookup_delete_ne.
  - by rewrite lookup_delete_eq.
Qed.

Lemma sim_SetEx k v ttl : simulates o t db m (OSetEx k v ttl).
Proof using Hdb Hm.
  unfold simulates, step, SetWithExpire. rewrite make_room_unlimited by apply Hdb.
  cbn -[store_entry UnixMilli].
  eexists. split; [done|]. apply (sim_store k (store_lru (Unix t) v)); [done|apply sim_purged|..].
  - intros. by apply lookup_insert_ne.
  - by rewrite lookup_insert_eq.
Qed.

Lemma sim_Keep k v : simulates o t db m (OKeep k v).
Proof using Hdb Hm.
  destruct (sim_Get k) as (db1 & E & Hu & Hs). unfold simulates. cbn [step spec_step fst snd] in *.
  destruct (Get t db k) as [r db1'] eqn:EG. injection E as Er ->. rewrite Er.
  eexists. split; [done|]. apply (sim_store k (store_lru (Unix t) v)); [done|done|done|].
  rewrite sim_lookup. unfold id.
  destruct (key_cases db k now sim_wf) as [Hx Hl|Hx Hv He Ha|w e Hx Hv He Hal Ha].
  - destruct (Get_expired t db k sim_wf Hx) as (db' & E' & _ & Hg). rewrite E' in EG. simplify_eq.
    rewrite Hl. simpl. unfold cell, cell_of in Hg. by injection Hg as _ -> _.
  - unfold Get in EG. rewrite Hx, Hv in EG. simplify_eq. rewrite Ha, He. done.
  - destruct (Get_present t db k w sim_wf Hx Hv) as (db' & E' & Hc). rewrite E' in EG. simplify_eq.
    rewrite Ha. simpl. rewrite Hal. simpl. pose proof (ch_cell _ _ _ _ Hc k) as Hk.
    rewrite decide_True in Hk by done. unfold cell, cell_of in Hk. injection Hk as _ -> _. done.
Qed.

Lemma sim_reclaim k : db_wf db -> isExpired (getShard db k) k now = true ->
  unlimited (remove_key db (GetShardIdx k) k) /\
  shows now (remove_key db (GetShardIdx k) k) (purge now m).
Proof using Hdb Hm.
  intros Hw Hx. destruct (isExpired_cell _ _ _ Hx) as (e & He & Hd).
  pose proof (reclaims_remove now db k e Hw He Hd) as Hr.
  split; [apply sim_keeps; apply Hr|]. eapply shows_reclaims; [done|apply sim_purged].
Qed.

Lemma sim_deadline k e : simulates o t db m (OExpireAt k e).
Proof using Hdb Hm.
  unfold simulates. cbn [step spec_step]. rewrite sim_lookup. unfold SetExpireAt.
  destruct (key_cases db k now sim_wf) as [Hx Hl|Hx Hv He Ha|v e' Hx Hv He Hal Ha].
  - rewrite Hx, Hl. eexists. split; [done|]. apply sim_reclaim; [apply sim_wf|done].
  - rewrite Hx, Hv, Ha. eexists. split_and!; [done|done|apply sim_purged].
  - rewrite Hx, Hv, Ha. simpl. rewrite Hal. eexists. split; [done|].
    pose proof (expires_changes db k v <[k := e]> sim_wf Hv) as Hc.
    specialize (Hc ltac:(intros; by apply lookup_insert_ne)).
    split; [apply sim_keeps; apply Hc|].
    apply (changes_shows now _ _ _ _ (purge now m) (Some (face v, e)) Hc sim_purged). simpl.
    by rewrite lookup_insert_eq.
Qed.

Lemma sim_Del k : simulates o t db m (ODel k).
Proof using Hdb Hm.
  unfold simulates. cbn [step spec_step]. rewrite sim_lookup. unfold Del.
  assert (forall j, purge now m !! j = None -> delete j (purge now m) = purge now m) as Hdel.
  { intros. by apply delete_id. }
  destruct (key_cases db k now sim_wf) as [Hx Hl|Hx Hv He Ha|v e' Hx Hv He Hal Ha].
  - rewrite Hx, Hl. eexists. split; [done|]. simpl. rewrite Hdel by (by rewrite sim_lookup).
    apply sim_reclaim; [apply sim_wf|done].
  - rewrite Hx, Hv, Ha. eexists. split_and!; [done|done|]. simpl.
    rewrite Hdel by (by rewrite sim_lookup, Ha). apply sim_purged.
  - rewrite Hx, Hv, Ha. simpl. rewrite Hal. eexists. split; [done|].
    pose proof (remove_key_changes db k sim_wf) as Hc. split; [apply sim_keeps; apply Hc|].
    by apply (changes_shows now _ _ _ _ (purge now m) None Hc sim_purged).
Qed.

Lemma sim_reads k : simulates o t db m (OExists k) /\ simulates o t db m (OGetTTL k).
Proof using Hdb Hm.
  unfold simulates. cbn [step spec_step]. rewrite sim_lookup. unfold Exists, GetWithTTL.
  split; eexists; (split_and!; [|done|apply sim_purged]); f_equal; f_equal; cbn [fst]; f_equal;
    destruct (key_cases db k now sim_wf) as [Hx Hl|Hx Hv He Ha|v e' Hx Hv He Hal Ha];
    rewrite Hx, ?Hl, ?Hv, ?Ha; simpl; rewrite ?Hal, ?He; done.
Qed.

Lemma sim_Persist k : simulates o t db m (OPersist k).
Proof using Hdb Hm.
  unfold simulates. cbn [step spec_step]. rewrite sim_lookup. unfold Persist.
  destruct (key_cases db k now sim_wf) as [Hx Hl|Hx Hv He Ha|v e' Hx Hv He Hal Ha].
  - rewrite Hx, Hl. eexists. split_and!; [done|done|apply sim_purged].
  - rewrite Hx, Hv, Ha. eexists. split_and!; [done|done|apply sim_purged].
  - rewrite Hx, Hv, Ha, He. simpl. rewrite Hal. destruct (e' =? 0); [eexists; split_and!; [done|done|apply sim_purged]|].
    eexists. split; [done|].
    pose proof (expires_changes db k v (delete k) sim_wf Hv) as Hc.
    specialize (Hc ltac:(intros; by apply lookup_delete_ne)).
    split; [apply sim_keeps; apply Hc|].
    apply (changes_shows now _ _ _ _ (purge now m) (Some (face v, 0)) Hc sim_purged). simpl.
    by rewrite lookup_delete_eq.
Qed.

Lemma shows_keys_eq db' (m0 : spec_state) :
  (forall k, (cell db' k).1 = (cell db k).1) -> shows now db m0 -> shows now db' m0.
Proof using Type.
  intros H Hs k. rewrite <- Hs. f_equal. specialize (H k). unfold abs, abs_of.
  by destruct (cell db' k) as [[? ?] ?], (cell db k) as [[? ?] ?]; simplify_eq/=.
Qed.

Lemma sim_Touch k : simulates o t db m (OTouch k).
Proof using Hdb Hm.
  unfold simulates. cbn [step spec_step]. eexists. split; [done|].
  destruct (Touch_changes db k sim_wf) as [[_ ->]|Hc]; [split; [done|apply sim_purged]|].
  split; [apply sim_keeps; apply Hc|]. apply shows_keys_eq; [|apply sim_purged].
  intros j. rewrite (ch_cell _ _ _ _ Hc). by destruct (decide (j = k)) as [->|].
Qed.

Lemma sim_global :
  (forall n, simulates o t db m (OAddWatchers n)) /\ (forall n, simulates o t db m (ORemoveWatchers n)) /\
  simulates o t db m OFlushAll /\ simulates o t db m OActiveExpire.
Proof using Hdb Hm.
  unfold simulates. cbn [step spec_step]. split_and!.
  - intros n. eexists. split; [done|]. split; [by apply sim_keeps; [apply (wf_shards_eq db); [|apply sim_wf]|]|].
    apply shows_keys_eq; [|apply sim_purged]. intros k. by rewrite (cell_shards_eq db).
  - intros n. eexists. split; [done|]. destruct (RemoveWatchers_keeps db n sim_wf) as (? & ? & ?).
    split; [by apply sim_keeps|]. apply shows_keys_eq; [done|apply sim_purged].
  - eexists. split; [done|]. split; [apply sim_keeps; [apply wf_FlushAll, sim_wf|done]|].
    intros k. unfold abs. rewrite FlushAll_cell by apply sim_wf. simpl. by rewrite lookup_empty.
  - eexists. split; [done|]. pose proof (ActiveExpireCycle_reclaims o t db sim_wf) as Hr.
    split; [apply sim_keeps; apply Hr|]. eapply shows_reclaims; [done|apply sim_purged].
Qed.

Lemma step_simulates c : simulates o t db m c.
Proof using Hdb Hm.
  destruct sim_global as (? & ? & ? & ?).
  destruct c; auto using sim_Get, sim_Set, sim_SetEx, sim_Keep, sim_deadline, sim_Del, sim_Persist, sim_Touch.
  - apply (sim_deadline k).
  - apply sim_reads.
  - apply sim_reads.
Qed.

End simulation.

(** The last clock reading of a history. *)
Fixpoint end_clock (t0 : Z) (h : list (Z * op)) : Z :=
  match h with
  | [] => t0
  | (t, _) :: h => end_clock t h
  end.

Lemma run_simulates o db (m : spec_state) t0 h :
  unlimited db -> shows (UnixMilli t0) db m -> clock_ok t0 h ->
  exists db', run o db h = Some ((spec_run m h).1, db') /\ unlimited db' /\
    shows (UnixMilli (end_clock t0 h)) db' (spec_run m h).2.
Proof.
  revert db m t0. induction h as [|[t c] h IH]; intros db m t0 Hu Hs Hc; [by exists db|].
  destruct Hc as [Ht Hc]. apply (shows_later _ (UnixMilli t)) in Hs; [|by apply UnixMilli_mono].
  destruct (step_simulates o t db m Hu Hs c) as (db1 & E & Hu1 & Hs1).
  cbn [run spec_run end_clock]. rewrite E. go_bind.
  destruct (spec_step t m c) as [r m1]. cbn [fst snd] in *.
  destruct (IH db1 m1 t Hu1 Hs1 Hc) as (db2 & -> & Hu2 & Hs2). go_bind.
  destruct (spec_run m1 h) as [rs m2]. by exists db2.
Qed.

Lemma NewShardedDB_cell_of i s k :
  shards (NewShardedDB (P := P)) !! i = Some s -> cell_of s k = (None, None, None).
Proof. intros [-> _]%lookup_replicate. unfold cell_of. simpl. by rewrite !lookup_empty. Qed.

Lemma NewShardedDB_cell k : cell (NewShardedDB (P := P)) k = (None, None, None).
Proof.
  unfold cell, getShard. eapply NewShardedDB_cell_of.
  apply shards_lookup; [done|apply GetShardIdx_range].
Qed.

Lemma NewShardedDB_unlimited : unlimited (NewShardedDB (P := P)).
Proof.
  split; [|done]. split.
  - done.
  - intros i s k Hs Hc. by rewrite (NewShardedDB_cell_of i s k) in Hc.
  - intros k x. by rewrite NewShardedDB_cell.
  - intros k x. by rewrite NewShardedDB_cell.
Qed.

(** ** WATCH *)

(** What a call did to a key: its version counter was bumped [n] times, and if it was not then
    the value and deadline did not move. *)
Definition tracked_by (n : Z) db db' k : Prop :=
  GetVersion db' k = u64 (GetVersion db k + n) /\ (n = 0 -> abs db' k = abs db k).

Definition tracked (bound : Z) db db' k : Prop := exists n, 0 <= n <= bound /\ tracked_by n db db' k.

Lemma GetVersion_cell db k : GetVersion db k = default 0 (cell db k).2.
Proof. done. Qed.

Lemma tracked_trans b1 b2 db1 db2 db3 k :
  tracked b1 db1 db2 k -> tracked b2 db2 db3 k -> tracked (b1 + b2) db1 db3 k.
Proof.
  intros (n & ? & E & Ha) (n' & ? & E' & Ha'). exists (n + n'). split; [lia|]. split.
  - rewrite E', E. unfold u64. rewrite Zplus_mod_idemp_l. f_equal. lia.
  - intros. rewrite Ha', Ha by lia. done.
Qed.

Lemma tracked_weaken b1 b2 db db' k : b1 <= b2 -> tracked b1 db db' k -> tracked b2 db db' k.
Proof. intros ? (n & ? & ?). exists n. split; [lia|done]. Qed.

Lemma GetVersion_range db k : db_wf db -> 0 <= GetVersion db k < 2 ^ 64.
Proof.
  intros Hwf. rewrite GetVersion_cell. pose proof (wf_version _ Hwf k) as H.
  destruct (cell db k).2; simpl; [by apply H|lia].
Qed.

Section watch.
Variable db : ShardedDB P.
Hypothesis Hwf : db_wf db.
Hypothesis Hw : 0 < watchers db.

Lemma tracked_still db' k :
  (cell db' k).2 = (cell db k).2 -> abs db' k = abs db k -> tracked 1 db db' k.
Proof using Hwf.
  intros E Ha. exists 0. split; [lia|]. split; [|done].
  rewrite !GetVersion_cell, E, Z.add_0_r. symmetry. apply u64_id. by apply GetVersion_range.
Qed.

Lemma tracked_same db' k : cell db' k = cell db k -> tracked 1 db db' k.
Proof using Hwf. intros E. apply tracked_still; [by rewrite E|by apply abs_cell]. Qed.

Lemma tracked_bumped db' k : (cell db' k).2 = bump db (cell db k).2 -> tracked 1 db db' k.
Proof using Hw.
  intros E. exists 1. split; [lia|]. split; [|lia]. rewrite !GetVersion_cell, E. unfold bump.
  by rewrite (proj2 (Z.ltb_lt _ _)).
Qed.

Lemma changes_tracked k c db' j :
  changes db k c db' -> c.2 = bump db (cell db k).2 -> tracked 1 db db' j.
Proof using Hwf Hw.
  intros Hc E. destruct (decide (j = k)) as [->|Hj].
  - apply tracked_bumped. by rewrite (ch_cell _ _ _ _ Hc), decide_True.
  - apply tracked_same. by rewrite (ch_cell _ _ _ _ Hc), decide_False.
Qed.

Lemma reclaims_tracked now db' j : reclaims now db db' -> tracked 1 db db' j.
Proof using Hwf Hw.
  intros Hr. destruct (rc_cell _ _ _ Hr j) as [E|(e & _ & _ & E)]; [by apply tracked_same|].
  apply tracked_bumped. by rewrite E.
Qed.

Lemma remove_tracked k j : tracked 1 db (remove_key db (GetShardIdx k) k) j.
Proof using Hwf Hw. by apply (changes_tracked _ _ _ _ (remove_key_changes db k Hwf)). Qed.

Lemma store_tracked k v f j :
  (forall m i, i <> k -> f m !! i = m !! i) -> tracked 1 db (store_entry db k v f) j.
Proof using Hwf Hw. intros Hf. by apply (changes_tracked _ _ _ _ (store_entry_changes db k v f Hwf Hf)). Qed.

Lemma Get_tracked t k j :
  tracked 1 db (Get t db k).2 j /\ db_wf (Get t db k).2 /\ watchers (Get t db k).2 = watchers db.
Proof using Hwf Hw.
  destruct (key_cases db k (UnixMilli t) Hwf) as [Hx Hl|Hx Hvl He Ha|v e Hx Hvl He Hal Ha].
  - destruct (Get_expired t db k Hwf Hx) as (db' & -> & Hr & _). split_and!; [|apply Hr..].
    by eapply reclaims_tracked.
  - unfold Get. rewrite Hx, Hvl. split_and!; [by apply tracked_same|done..].
  - destruct (Get_present t db k v Hwf Hx Hvl) as (db' & -> & Hc). split_and!; [|apply Hc..].
    pose proof (ch_cell _ _ _ _ Hc j) as Ej. cbn [snd].
    destruct (decide (j = k)) as [->|]; [|by apply tracked_same].
    apply tracked_still; [by rewrite Ej|]. unfold abs. rewrite Ej.
    unfold abs_of, cell, cell_of. simpl. by rewrite Hvl.
Qed.

Lemma SetExpireAt_tracked t k e j : tracked 1 db (SetExpireAt t db k e).2 j.
Proof using Hwf Hw.
  unfold SetExpireAt. destruct (isExpired _ _ _); [by apply remove_tracked|].
  destruct (entries _ !! k) as [v|] eqn:Hvl; [|by apply tracked_same].
  eapply (changes_tracked k); [apply (expires_changes db k v); [done..|]|done].
  intros; by apply lookup_insert_ne.
Qed.

Lemma Persist_tracked t k j : tracked 1 db (Persist t db k).2 j.
Proof using Hwf Hw.
  unfold Persist. destruct (isExpired _ _ _); [by apply tracked_same|].
  destruct (entries _ !! k) as [v|] eqn:Hvl; [|by apply tracked_same].
  destruct (_ =? 0); [by apply tracked_same|].
  eapply (changes_tracked k); [apply (expires_changes db k v); [done..|]|done].
  intros; by apply lookup_delete_ne.
Qed.

Lemma FlushAll_tracked j : tracked 1 db (FlushAll db) j.
Proof using Hwf Hw.
  pose proof (FlushAll_cell db j Hwf) as E.
  rewrite (proj2 (Z.ltb_lt _ _) Hw) in E. destruct (decide _) as [Hs|Hs].
  - apply tracked_bumped. by rewrite E.
  - apply tracked_still; [by rewrite E|]. unfold abs. rewrite E. unfold abs_of.
    destruct (cell db j) as [[[?|] ?] ?]; [|done]. by destruct Hs.
Qed.

End watch.

Lemma step_tracked o t db c r db' j :
  unlimited db -> 0 < watchers db -> 0 < watchers db' ->
  step o t db c = Some (r, db') -> tracked 2 db db' j.
Proof.
  intros [Hwf Hmx] Hw Hw' E.
  assert (forall d, tracked 1 db d j -> tracked 2 db d j) as H1.
  { intros d. by apply tracked_weaken. }
  destruct c; cbn [step] in E;
    lazymatch type of E with context [SetKeepTTL] => idtac | _ => apply H1 end.
  - pose proof (Get_tracked db Hwf Hw t k j) as (? & _). destruct (Get t db k). by simplify_eq.
  - unfold Set_ in E. rewrite make_room_unlimited in E by done. cbn -[store_entry] in E. simplify_eq.
    apply store_tracked; [done..|]. intros; by apply lookup_delete_ne.
  - unfold SetWithExpire in E. rewrite make_room_unlimited in E by done.
    cbn -[store_entry UnixMilli] in E. simplify_eq.
    apply store_tracked; [done..|]. intros; by apply lookup_insert_ne.
  - pose proof (fun j => Get_tracked db Hwf Hw t k j) as HG. destruct (Get t db k) as [x d].
    simplify_eq. destruct (HG j) as (Ht & Hd & Hwd). cbn [snd] in *.
    eapply (tracked_trans 1 1); [done|]. apply store_tracked; [done|by rewrite Hwd|done].
  - pose proof (SetExpireAt_tracked db Hwf Hw t k e j). destruct (SetExpireAt t db k e). by simplify_eq.
  - pose proof (SetExpireAt_tracked db Hwf Hw t k (s64 (UnixMilli t + Milliseconds ttl)) j).
    unfold SetExpire in E. destruct (SetExpireAt _ _ _ _). by simplify_eq.
  - unfold Del in E. destruct (isExpired _ _ _); simplify_eq; [by apply remove_tracked|].
    destruct (entries _ !! k); simplify_eq; [by apply remove_tracked|by apply tracked_same].
  - simplify_eq. by apply tracked_same.
  - simplify_eq. by apply tracked_same.
  - pose proof (Persist_tracked db Hwf Hw t k j). destruct (Persist t db k). by simplify_eq.
  - simplify_eq. destruct (Touch_changes db k Hwf) as [[_ E]|Hc]; [rewrite E; by apply tracked_same|].
    apply (changes_tracked db Hwf Hw _ _ _ _ Hc). unfold bump. by rewrite (proj2 (Z.ltb_lt _ _)).
  - simplify_eq. by apply tracked_same; [|apply cell_shards_eq].
  - simplify_eq. apply tracked_same; [done|]. unfold RemoveWatchers in *.
    destruct (0 <? _) eqn:Ew; [by apply cell_shards_eq|]. simpl in *. lia.
  - simplify_eq. by apply FlushAll_tracked.
  - simplify_eq. eapply reclaims_tracked; [done..|]. by apply ActiveExpireCycle_reclaims.
Qed.

(** Somebody watches at every point of the run. *)
Fixpoint watched o db (h : list (Z * op)) : Prop :=
  0 < watchers db /\
  match h with
  | [] => True
  | (t, c) :: h => match step o t db c with Some (_, db) => watched o db h | None => False end
  end.

(** A [Touch] of the key is among the bumps. *)
Lemma touch_bumped o t db j r db' : db_wf db -> 0 < watchers db -> step o t db (OTouch j) = Some (r, db') -> tracked_by 1 db db' j.
Proof.
  intros Hwf Hw [= <- <-]. destruct (Touch_changes db j Hwf) as [[? _]|Hc]; [lia|].
  split; [|lia]. rewrite !GetVersion_cell, (ch_cell _ _ _ _ Hc), decide_True by done. done.
Qed.

Lemma run_tracked o t0 db (m : spec_state) h rs db' j :
  unlimited db -> shows (UnixMilli t0) db m -> clock_ok t0 h -> watched o db h ->
  run o db h = Some (rs, db') -> exists n, 0 <= n <= 2 * zlen h /\ GetVersion db' j = u64 (GetVersion db j + n) /\ (n = 0 -> abs db' j = abs db j) /\ (n = 0 -> OTouch j ∉ h.*2).
Proof.
  revert t0 db m rs. induction h as [|[t c] h IH]; intros t0 db m rs Hu Hs Hc Hw E.
  { simplify_eq/=. exists 0. split_and!; [done..| |done|intros _; apply not_elem_of_nil]. rewrite Z.add_0_r. symmetry. apply u64_id, GetVersion_range, Hu. }
  destruct Hc as [Ht Hc]. apply (shows_later _ (UnixMilli t)) in Hs; [|by apply UnixMilli_mono].
  destruct (step_simulates o t db m Hu Hs c) as (db1 & E1 & Hu1 & Hs1).
  cbn [run watched] in E, Hw. rewrite E1 in E, Hw. destruct Hw as [Hw Hw1].
  revert E. go_bind. destruct (run o db1 h) as [[rs1 db2]|] eqn:E2; [|done]. go_bind. intros [= <- <-].
  destruct (IH t db1 _ rs1 Hu1 Hs1 Hc Hw1 E2) as (n2 & Hn2 & Hv2 & Ha2 & Ht2).
  assert (exists n1, 0 <= n1 <= 2 /\ tracked_by n1 db db1 j /\ (n1 = 0 -> c <> OTouch j)) as (n1 & Hn1 & [Hv1 Ha1] & Ht1).
  { assert (c = OTouch j \/ c <> OTouch j) as [->|Hno] by (destruct c; try (by right); destruct (decide (k = j)) as [->|]; [by left|right; congruence]).
    - exists 1. split_and!; [lia..|by eapply touch_bumped; [apply Hu| |exact E1]|lia].
    - assert (0 < watchers db1) as Hw' by (destruct h as [|[]]; simpl in Hw1; apply Hw1).
      destruct (step_tracked o t db c _ db1 j Hu Hw Hw' E1) as (n1 & Hn1 & Hb).
      exists n1. split_and!; [lia..|done|done]. }
  exists (n1 + n2). rewrite zlen_cons. split_and!; [lia..| | |].
  - rewrite Hv2, Hv1. unfold u64. rewrite Zplus_mod_idemp_l. f_equal. lia.
  - intros. rewrite Ha2, Ha1 by lia. done.
  - intros. cbn. rewrite not_elem_of_cons. split; [intros E; by apply Ht1; [lia|]|apply Ht2; lia].
Qed.

Lemma run_app o db h1 h2 rs1 db1 :
  run o db h1 = Some (rs1, db1) ->
  run o db (h1 ++ h2) = '(rs2, db2) ← run o db1 h2; Some (rs1 ++ rs2, db2).
Proof.
  revert db rs1. induction h1 as [|[t c] h1 IH]; intros db rs1 E; simpl in *.
  { simplify_eq. by destruct (run o db1 h2) as [[]|]. }
  revert E. destruct (step o t db c) as [[r d]|]; [|done]. go_bind.
  destruct (run o d h1) as [[rs d']|] eqn:E; [|done]. go_bind. intros [= <- <-].
  rewrite (IH _ _ E). by destruct (run o d' h2) as [[]|].
Qed.

Lemma clock_ok_app t0 h1 h2 : clock_ok t0 (h1 ++ h2) <-> clock_ok t0 h1 /\ clock_ok (end_clock t0 h1) h2.
Proof.
  revert t0. induction h1 as [|[t c] h1 IH]; intros t0; simpl; [naive_solver|].
  rewrite IH. naive_solver.
Qed.

Lemma watched_app o db h1 h2 rs1 db1 :
  run o db h1 = Some (rs1, db1) -> watched o db (h1 ++ h2) -> watched o db h1 /\ watched o db1 h2.
Proof.
  revert db rs1. induction h1 as [|[t c] h1 IH]; intros db rs1 E Hw; simpl in *.
  { simplify_eq. destruct h2 as [|[]]; simpl in *; naive_solver. }
  revert E. destruct (step o t db c) as [[r d]|]; [|done]. go_bind.
  destruct (run o d h1) as [[rs d']|] eqn:E; [|done]. go_bind. intros [= <- <-]. naive_solver.
Qed.

End spec.

(** ** Properties *)

(** A payload for the concrete histories below: a byte string, charged by its length. *)
#[local] Program Instance bytes_payload : PayloadSize (list Z) := {| payload_size := zlen |}.
Next Obligation. intros. apply zlen_nonneg. Qed.

Definition ex_str (s : string) : Robj (list Z) := mkRobj OBJ_STRING OBJ_ENCODING_RAW 0 (str s).
Definition ex_oracle : oracle (list Z) :=
  mkOracle (fun _ n => Z.of_nat n mod NumShards) (fun _ _ m => (map_to_list m).*1)
    (fun _ _ m => (map_to_list m).*1).

Lemma ex_oracle_ok : oracle_ok ex_oracle.
Proof. split; [|done..]. intros a b. apply Z.mod_pos_bound. done. Qed.

(** C15. The keyspace is one map with deadlines: every history of reads, writes, deadline
    changes, deletions, flushes and active expiry cycles on a fresh database without a memory
    limit, at clock readings that never go back, returns what the map returns, and shows the
    live keys of the map afterwards and at every later time; so sharding, lazy expiration and
    the expiry cycle's sampling cannot be observed.  [SetKeepTTL] is part of the histories only behind a [Get] of its key ([OKeep]), as the
    string commands use it; on its own it can meet an expired key ([keepttl_on_expired_key_loses_value]). *)
Theorem db_refines_map {P} `{PayloadSize P} (o : oracle P) (t0 : Z) (h : list (Z * @op P)) :
  clock_ok t0 h ->
  exists db, run o NewShardedDB h = Some ((spec_run ∅ h).1, db) /\
    forall t k, end_clock t0 h <= t ->
      live (UnixMilli t) (abs db k) = live (UnixMilli t) ((spec_run ∅ h).2 !! k).
Proof.
  intros Hc. destruct (run_simulates o NewShardedDB ∅ t0 h) as (db & E & _ & Hs); [apply NewShardedDB_unlimited| |done|].
  { intros k. unfold abs. rewrite NewShardedDB_cell, lookup_empty. done. }
  exists db. split; [done|]. intros t k Ht. eapply shows_later; [|done]. by apply UnixMilli_mono.
Qed.

(** A key with a deadline of 5 ms is written, read, expires, and is written again. *)
Definition ex_history : list (Z * @op (list Z)) :=
  [(10 ^ 9, OSetEx (str "k") (ex_str "v") (5 * 10 ^ 6)); (10 ^ 9 + 10 ^ 6, OGet (str "k"));
   (2 * 10 ^ 9, OActiveExpire); (2 * 10 ^ 9, OExists (str "k")); (2 * 10 ^ 9, OSet (str "k") (ex_str "w"));
   (3 * 10 ^ 9, OGet (str "k"))].

Lemma db_refines_map_witness :
  clock_ok 0 ex_history /\
  exists db, run ex_oracle NewShardedDB ex_history = Some ((spec_run ∅ ex_history).1, db) /\
    forall t k, end_clock 0 ex_history <= t ->
      live (UnixMilli t) (abs db k) = live (UnixMilli t) ((spec_run ∅ ex_history).2 !! k).
Proof.
  assert (clock_ok 0 ex_history) as Hc by (simpl; lia).
  split; [exact Hc|]. exact (db_refines_map ex_oracle 0 ex_history Hc).
Defined.

(** C16. WATCH, as far as the keyspace goes: on a database without a memory limit, if the version of a key is the same at the end of a stretch of
    fewer than [2 ^ 63] calls during which somebody was watching, then at every point of the stretch the key referred to the same object with the
    same deadline, and [Touch], with which a handler reports that it has changed the object itself, was not called for it.  (An eviction under a
    memory limit bumps no version: [watch_misses_eviction].) *)
Theorem unchanged_version_unchanged_entry {P} `{PayloadSize P} (o : oracle P) (t0 : Z) h0 h1 h2 rs0 rs1 rs2 db0 db1 db2 k :
  clock_ok t0 (h0 ++ h1 ++ h2) -> run o NewShardedDB h0 = Some (rs0, db0) ->
  run o db0 h1 = Some (rs1, db1) -> run o db1 h2 = Some (rs2, db2) ->
  watched o db0 (h1 ++ h2) -> zlen (h1 ++ h2) < 2 ^ 63 ->
  GetVersion db2 k = GetVersion db0 k -> abs db1 k = abs db0 k /\ OTouch k ∉ h1.*2.
Proof.
  rewrite !clock_ok_app. intros (Hc0 & Hc1 & Hc2) E0 E1 E2 Hw Hlen Hver.
  apply (watched_app _ _ _ _ _ _ E1) in Hw as [Hw1 Hw2].
  destruct (run_simulates o NewShardedDB ∅ t0 h0) as (d0 & E0' & Hu0 & Hs0);
    [apply NewShardedDB_unlimited| |done|].
  { intros j. unfold abs. by rewrite NewShardedDB_cell, lookup_empty. }
  rewrite E0 in E0'. injection E0' as -> <-.
  destruct (run_simulates o db0 _ _ h1 Hu0 Hs0 Hc1) as (d1 & E1' & Hu1 & Hs1).
  rewrite E1 in E1'. injection E1' as -> <-.
  destruct (run_tracked o _ db0 _ h1 _ db1 k Hu0 Hs0 Hc1 Hw1 E1) as (n1 & Hn1 & Hv1 & Ha1 & Ht1).
  destruct (run_tracked o _ db1 _ h2 _ db2 k Hu1 Hs1 Hc2 Hw2 E2) as (n2 & Hn2 & Hv2 & _).
  assert (n1 = 0) as ->; [|auto]. rewrite zlen_app in Hlen. rewrite Hv2, Hv1 in Hver.
  pose proof (GetVersion_range db0 k (proj1 Hu0)). unfold u64 in Hver.
  rewrite Zplus_mod_idemp_l in Hver. zlen_pose. revert Hver. generalize (GetVersion db0 k) as g. intros. div_lia.
Qed.

Definition ex_watch_h0 : list (Z * @op (list Z)) := [(1, OSet (str "k") (ex_str "v")); (2, OAddWatchers 1)].
Definition ex_watch_h1 : list (Z * @op (list Z)) := [(3, OGet (str "k")); (4, OSet (str "other") (ex_str "x"))].
Definition ex_watch_h2 : list (Z * @op (list Z)) := [(5, ODel (str "other"))].
Definition ex_after (db : ShardedDB (list Z)) (h : list (Z * @op (list Z))) : ShardedDB (list Z) :=
  default NewShardedDB (snd <$> run ex_oracle db h).

Lemma unchanged_version_unchanged_entry_witness :
  abs (ex_after (ex_after NewShardedDB ex_watch_h0) ex_watch_h1) (str "k") =
  abs (ex_after NewShardedDB ex_watch_h0) (str "k") /\ OTouch (str "k") ∉ ex_watch_h1.*2.
Proof.
  eapply (unchanged_version_unchanged_entry ex_oracle 0 ex_watch_h0 ex_watch_h1 ex_watch_h2).
  - simpl. lia.
  - vm_compute. reflexivity.
  - vm_compute. reflexivity.
  - vm_compute. reflexivity.
  - vm_compute. tauto.
  - vm_compute. reflexivity.
  - vm_compute. reflexivity.
Defined.

Lemma ex_after_wf t0 h : clock_ok t0 h -> db_wf (ex_after NewShardedDB h).
Proof.
  intros Hc. destruct (run_simulates ex_oracle NewShardedDB ∅ t0 h) as (db & E & Hu & _);
    [apply NewShardedDB_unlimited| |done|].
  - intros j. unfold abs. by rewrite NewShardedDB_cell, lookup_empty.
  - unfold ex_after. rewrite E. apply Hu.
Qed.

Lemma TTL_live {P} `{PayloadSize P} (t : Z) (db : ShardedDB P) k :
  db_wf db -> 0 <= t ->
  (forall w e, live (UnixMilli t) (abs db k) = Some (w, e) -> is_int64 e /\ (e - UnixMilli t) * 10 ^ 6 <= max_int64) ->
  TTL t db k =
  match live (UnixMilli t) (abs db k) with
  | None => (0, -2)
  | Some (_, e) => if e =? 0 then (0, -1) else ((e - UnixMilli t) * 10 ^ 6, 0)
  end.
Proof.
  intros Hwf Ht Hb. unfold TTL.
  destruct (key_cases db k (UnixMilli t) Hwf) as [Hx Hl|Hx Hv He Ha|v e Hx Hv He Hal Ha].
  - by rewrite Hx, Hl.
  - by rewrite Hx, Hv, Ha.
  - rewrite Ha in Hb. simpl in Hb. rewrite Hal in Hb. destruct (Hb _ _ eq_refl) as [Hi Hm].
    rewrite Hx, Hv, Ha. simpl. rewrite Hal.
    destruct (expires _ !! k) as [x|]; simpl in He; subst; [|done].
    destruct (Z.eqb_spec e 0) as [|Hne]; [done|].
    unfold alive in Hal. rewrite (proj2 (Z.eqb_neq _ _) Hne) in Hal. apply Z.ltb_lt in Hal.
    assert (0 <= UnixMilli t) by (apply Z.div_pos; lia).
    unfold is_int64, min_int64, max_int64 in *.
    rewrite (s64_id (e - _)) by (unfold is_int64, min_int64, max_int64; lia).
    rewrite (proj2 (Z.ltb_ge _ _)) by lia.
    by rewrite s64_id by (unfold is_int64, min_int64, max_int64; lia).
Qed.

(** TTL tells a missing or expired key (-2), a key without deadline (-1) and the exact time
    left apart, for deadlines within the 292 years a [time.Duration] can hold. *)
Theorem ttl_reports_remaining {P} `{PayloadSize P} (t : Z) (db : ShardedDB P) k :
  db_wf db -> 0 <= t ->
  (forall e, (cell db k).1.2 = Some e -> is_int64 e /\ (e - UnixMilli t) * 10 ^ 6 <= max_int64) ->
  TTL t db k =
  match live (UnixMilli t) (abs db k) with
  | None => (0, -2)
  | Some (_, e) => if e =? 0 then (0, -1) else ((e - UnixMilli t) * 10 ^ 6, 0)
  end.
Proof.
  intros Hwf Ht Hb. apply TTL_live; [done..|]. intros w e Hl.
  destruct (decide (e = 0)) as [->|He].
  { assert (0 <= UnixMilli t) by (apply Z.div_pos; lia). unfold is_int64, min_int64, max_int64. lia. }
  apply Hb. revert Hl. unfold live, abs, abs_of. destruct (cell db k) as [[[v|] [x|]] ?]; cbn; try done;
    intros; repeat case_match; by simplify_eq.
Qed.

Lemma ttl_reports_remaining_witness :
  TTL (10 ^ 9 + 2 * 10 ^ 6) (ex_after NewShardedDB (take 1 ex_history)) (str "k") = (3 * 10 ^ 6, 0).
Proof.
  rewrite ttl_reports_remaining; [vm_compute; reflexivity|apply (ex_after_wf 0); simpl; lia|lia|].
  intros e He. vm_compute in He. injection He as <-. vm_compute. split; [split; congruence|congruence].
Defined.

(** A defect of [SetKeepTTL]: on a key whose deadline has passed but which has not been
    reclaimed, the value is stored under the dead deadline, so the next read returns nothing
    and removes it.  A handler that checks with [Exists] (which does not reclaim) and then
    writes with [SetKeepTTL], as MSETEX KEEPTTL does, loses the write while reporting
    success. *)
Theorem keepttl_on_expired_key_loses_value {P} `{PayloadSize P} (t : Z) (db : ShardedDB P) k v :
  db_wf db -> isExpired (getShard db k) k (UnixMilli t) = true ->
  Exists t db k = false /\ (Get t (SetKeepTTL t db k v) k).1 = None.
Proof.
  intros Hwf Hx. unfold Exists. rewrite Hx. split; [done|].
  pose proof (store_entry_changes db k (store_lru (Unix t) v) id Hwf ltac:(done)) as Hc.
  pose proof (ch_cell _ _ _ _ Hc k) as Hk. rewrite decide_True in Hk by done.
  unfold cell, cell_of in Hk. injection Hk as _ He _.
  unfold Get, SetKeepTTL. replace (isExpired _ _ _) with true; [done|]. rewrite <- Hx.
  unfold isExpired. by rewrite He.
Qed.

Lemma keepttl_on_expired_key_loses_value_witness :
  (Get (2 * 10 ^ 9) (SetKeepTTL (2 * 10 ^ 9) (ex_after NewShardedDB (take 1 ex_history)) (str "k") (ex_str "new"))
     (str "k")).1 = None.
Proof.
  apply (keepttl_on_expired_key_loses_value (2 * 10 ^ 9) _ (str "k") (ex_str "new") (ex_after_wf 0 (take 1 ex_history) ltac:(simpl; lia))).
  vm_compute. reflexivity.
Defined.
