(* ===== verification/DbMemory.v ===== *)
(** * Memory accounting and eviction ([db/eviction.go])

    [usedMemory] is a counter the operations keep by adding and subtracting estimates.
    [memory_accounted] shows that, whatever the limit and the policy, it is the sum of the
    estimates of the stored entries less what containers grew in place between the calls, and that every call returns:
    the eviction loop removes an entry per round, so [S (Len db)] rounds are enough.
    [free_memory_evicts_by_policy] is the contract of the loop itself, whatever the counter says. *)

From S2P Require Import Prelude Object Glob Db DbSpec.

Local Open Scope Z_scope.

Section memory.
Context {P : Type} `{PS : PayloadSize P}.
Implicit Types (db : ShardedDB P) (s : shard P) (k : bytes) (v : Robj P) (o : oracle P) (i t : Z).

(** ** What is stored *)

Definition entries_bytes (m : gmap bytes (Robj P)) : Z :=
  map_fold (fun k v acc => estimateObjectSize k v + acc) 0 m.

Definition stored_bytes db : Z := foldr (fun s n => entries_bytes (entries s) + n) 0 (shards db).

Lemma entries_bytes_insert (m : gmap bytes (Robj P)) k v :
  m !! k = None -> entries_bytes (<[k := v]> m) = estimateObjectSize k v + entries_bytes m.
Proof. intros H. unfold entries_bytes. rewrite map_fold_insert_L; [done| |done]. intros. lia. Qed.

Lemma entries_bytes_delete (m : gmap bytes (Robj P)) k v :
  m !! k = Some v -> entries_bytes (delete k m) = entries_bytes m - estimateObjectSize k v.
Proof.
  intros H. rewrite <- (insert_delete_id m k v) at 2 by done.
  rewrite entries_bytes_insert by apply lookup_delete_eq. lia.
Qed.

Lemma entries_bytes_replace (m : gmap bytes (Robj P)) k v :
  entries_bytes (<[k := v]> m) =
  entries_bytes m + estimateObjectSize k v -
    match m !! k with Some w => estimateObjectSize k w | None => 0 end.
Proof.
  destruct (m !! k) as [w|] eqn:E; [|rewrite entries_bytes_insert by done; lia].
  rewrite <- insert_delete_eq, entries_bytes_insert by apply lookup_delete_eq.
  rewrite (entries_bytes_delete m k w) by done. lia.
Qed.

Lemma stored_bytes_put_nat (l : list (shard P)) (n : nat) s0 s :
  l !! n = Some s0 ->
  foldr (fun s n => entries_bytes (entries s) + n) 0 (<[n := s]> l) =
  foldr (fun s n => entries_bytes (entries s) + n) 0 l
    - entries_bytes (entries s0) + entries_bytes (entries s).
Proof.
  revert n. induction l as [|x l IH]; intros [|n] H; simplify_eq/=; [lia|]. rewrite IH by done. lia.
Qed.

Lemma stored_bytes_put db i s :
  length (shards db) = Z.to_nat NumShards -> 0 <= i < NumShards ->
  stored_bytes (put_shard db i s) =
  stored_bytes db - entries_bytes (entries (shard_at db i)) + entries_bytes (entries s).
Proof. intros Hl Hi. apply stored_bytes_put_nat. by apply shards_lookup. Qed.

(** ** The invariant *)

(** The counter is [d] above what is stored. *)
Record accounted (d : Z) db : Prop := {
  acc_len : length (shards db) = Z.to_nat NumShards;
  acc_used : usedMemory db = stored_bytes db + d
}.

Section drift.
Variable d : Z.

Lemma accounted_same db db' :
  shards db' = shards db -> usedMemory db' = usedMemory db -> accounted d db -> accounted d db'.
Proof. intros E1 E2 [Hl Hu]. split; [by rewrite E1|]. unfold stored_bytes. by rewrite E1, E2. Qed.

Lemma bumpVersion_entries db s k : entries (bumpVersion db s k) = entries s.
Proof. unfold bumpVersion. by destruct (0 <? _). Qed.

(** A store that leaves the entries of the shard alone. *)
Lemma accounted_put db i s :
  accounted d db -> 0 <= i < NumShards -> entries_bytes (entries s) = entries_bytes (entries (shard_at db i)) ->
  accounted d (put_shard db i s).
Proof.
  intros [Hl Hu] Hi E. split; [simpl; by rewrite length_insert|].
  rewrite stored_bytes_put by done. simpl. lia.
Qed.

Lemma accounted_remove db i k : accounted d db -> 0 <= i < NumShards -> accounted d (remove_key db i k).
Proof.
  intros [Hl Hu] Hi. unfold remove_key. split.
  - destruct (entries (shard_at db i) !! k); simpl; by rewrite length_insert.
  - rewrite stored_bytes_put by (by destruct (entries (shard_at db i) !! k)). rewrite bumpVersion_entries. simpl.
    destruct (entries (shard_at db i) !! k) as [v|] eqn:E; simpl.
    + rewrite (entries_bytes_delete _ k v) by done. unfold stored_bytes in *. simpl.
      change (shard_at (subMem db (estimateObjectSize k v)) i) with (shard_at db i). lia.
    + rewrite delete_id by done. lia.
Qed.

Lemma accounted_store db k v f : accounted d db -> accounted d (store_entry db k v f).
Proof.
  intros [Hl Hu]. pose proof (GetShardIdx_range k). unfold store_entry. split.
  - destruct (entries (shard_at db (GetShardIdx k)) !! k); simpl; by rewrite length_insert.
  - set (db1 := match entries (shard_at db (GetShardIdx k)) !! k with Some _ => _ | None => _ end).
    assert (shards db1 = shards db) as Es by (unfold db1; by destruct (entries (shard_at db (GetShardIdx k)) !! k)).
    set (s := bumpVersion _ _ _). change (stored_bytes (addMem ?x ?y)) with (stored_bytes x).
    rewrite stored_bytes_put by (by rewrite ?Es). unfold s. rewrite bumpVersion_entries. simpl.
    rewrite entries_bytes_replace. unfold stored_bytes, shard_at in *. rewrite Es. unfold db1, stored_bytes.
    change (default empty_shard (shards db !! Z.to_nat (GetShardIdx k))) with (shard_at db (GetShardIdx k)).
    destruct (entries (shard_at db (GetShardIdx k)) !! k) as [w|] eqn:E; simpl; lia.
Qed.

Lemma accounted_notify db ks : accounted d db -> accounted d (notifyExpired db ks).
Proof. by apply accounted_same; destruct ks. Qed.

Lemma accounted_evict db i k : accounted d db -> 0 <= i < NumShards -> accounted d (evict_key db i k).
Proof.
  intros [Hl Hu] Hi. unfold evict_key. destruct (entries _ !! k) as [v|] eqn:E; [|done]. split.
  - simpl. by rewrite length_insert.
  - rewrite stored_bytes_put by done. simpl. rewrite (entries_bytes_delete _ k v) by done.
    unfold stored_bytes in *. simpl. change (shard_at (subMem db (estimateObjectSize k v)) i) with (shard_at db i). lia.
Qed.

(** ** Operations that never evict *)

Lemma estimate_store_lru k t v : estimateObjectSize k (store_lru t v) = estimateObjectSize k v.
Proof. done. Qed.

Lemma accounted_Get t db k : accounted d db -> accounted d (Get t db k).2.
Proof.
  intros Ha. pose proof (GetShardIdx_range k). unfold Get. destruct (isExpired _ _ _).
  - cbn [snd]. destruct (bool_decide _); [apply accounted_notify|]; by apply accounted_remove.
  - destruct (entries _ !! k) as [v|] eqn:E; [|done]. simpl. apply accounted_put; [done..|]. simpl.
    rewrite entries_bytes_replace. unfold getShard in *. rewrite E, estimate_store_lru. lia.
Qed.

Lemma accounted_SetExpireAt t db k e : accounted d db -> accounted d (SetExpireAt t db k e).2.
Proof.
  intros Ha. pose proof (GetShardIdx_range k). unfold SetExpireAt.
  destruct (isExpired _ _ _); [by apply accounted_remove|].
  destruct (entries _ !! k); [|done]. apply accounted_put; [done..|]. by rewrite bumpVersion_entries.
Qed.

Lemma accounted_Persist t db k : accounted d db -> accounted d (Persist t db k).2.
Proof.
  intros Ha. pose proof (GetShardIdx_range k). unfold Persist.
  destruct (isExpired _ _ _); [done|]. destruct (entries _ !! k); [|done]. destruct (_ =? 0); [done|].
  apply accounted_put; [done..|]. by rewrite bumpVersion_entries.
Qed.

Lemma accounted_map db f :
  (forall s, entries (f s) = entries s) -> accounted d db -> accounted d (with_shards db (f <$> shards db)).
Proof.
  intros Hf [Hl Hu]. split; [simpl; by rewrite length_fmap|]. simpl. rewrite Hu. f_equal. unfold stored_bytes. simpl.
  clear - Hf. induction (shards db) as [|s l IH]; [done|]. simpl. by rewrite IH, Hf.
Qed.

Lemma stored_bytes_empty (l : list (shard P)) :
  Forall (fun s => entries s = ∅) l -> foldr (fun s n => entries_bytes (entries s) + n) 0 l = 0.
Proof. induction 1 as [|s l E _ IH]; [done|]. simpl. by rewrite E, IH. Qed.

Lemma accounted_FlushAll db : accounted d db -> accounted 0 (FlushAll db).
Proof.
  intros [Hl Hu]. split; [simpl; by rewrite length_fmap|]. simpl. unfold stored_bytes. simpl.
  rewrite Z.add_0_r. symmetry. apply stored_bytes_empty. apply Forall_fmap, Forall_true. done.
Qed.

Lemma accounted_sample now i n keys sampled db acc :
  accounted d db -> 0 <= i < NumShards -> accounted d (sample_loop now i n keys sampled db acc).1.
Proof.
  intros Ha Hi. revert sampled db acc Ha. induction keys as [|k keys IH]; intros sampled db acc Ha; [done|].
  cbn [sample_loop].
  destruct (expires _ !! k) as [e|]; [destruct (_ && _)|]; destruct (n <=? _); cbn [fst];
    try apply IH; try apply accounted_remove; done.
Qed.

Lemma accounted_expire_shard o now i rounds iter db total :
  accounted d db -> 0 <= i < NumShards -> accounted d (expire_shard rounds o now i iter db total).1.
Proof.
  intros Ha Hi. revert iter db total Ha. induction rounds as [|n IH]; intros iter db total Ha; [done|].
  cbn [expire_shard]. destruct (_ =? 0); [done|].
  pose proof (accounted_sample now i (Z.min 20 (Z.of_nat (size (expires (shard_at db i)))))
    (range_expires o (Z.to_nat i) iter (expires (shard_at db i))) 0 db [] Ha Hi) as Hs.
  destruct (sample_loop _ _ _ _ _ _ _) as [db1 ks]. cbn [fst] in Hs. cbv beta iota zeta.
  destruct (_ <? 25); [|apply IH]; by apply accounted_notify.
Qed.

Lemma accounted_ActiveExpireCycle o t db : accounted d db -> accounted d (ActiveExpireCycle o t db).2.
Proof.
  intros Ha. unfold ActiveExpireCycle.
  assert (forall n i db total, accounted d db -> 0 <= i -> i + Z.of_nat n <= NumShards ->
    accounted d (expire_shards n o (UnixMilli t) i db total).1) as H.
  { induction n as [|n IH]; intros i db1 total Hd Hi Hn; [done|]. cbn [expire_shards].
    pose proof (accounted_expire_shard o (UnixMilli t) i 16 0 db1 total Hd ltac:(lia)).
    destruct (expire_shard _ _ _ _ _ _ _) as [db2 n1]. apply IH; [done|lia..]. }
  specialize (H (Z.to_nat NumShards) 0 db 0 Ha ltac:(lia) ltac:(done)).
  by destruct (expire_shards _ _ _ _ _ _).
Qed.

(** ** The eviction loop *)

Lemma Len_put_nat (l : list (shard P)) (n : nat) s0 s :
  l !! n = Some s0 ->
  foldr (fun s n => Z.of_nat (size (entries s)) + n) 0 (<[n := s]> l) =
  foldr (fun s n => Z.of_nat (size (entries s)) + n) 0 l
    - Z.of_nat (size (entries s0)) + Z.of_nat (size (entries s)).
Proof.
  revert n. induction l as [|x l IH]; intros [|n] H; simplify_eq/=; [lia|]. rewrite IH by done. lia.
Qed.

Lemma Len_evict db i k :
  length (shards db) = Z.to_nat NumShards -> 0 <= i < NumShards ->
  is_Some (entries (shard_at db i) !! k) -> Len (evict_key db i k) = Len db - 1.
Proof.
  intros Hl Hi [v Hv]. unfold evict_key. rewrite Hv. unfold Len. simpl.
  rewrite (Len_put_nat _ _ (shard_at db i)) by (by apply shards_lookup). simpl.
  rewrite map_size_delete_Some by (by eexists).
  assert (size (entries (shard_at db i)) <> 0)%nat; [|lia].
  rewrite map_size_non_empty_iff. intros E. by rewrite E, lookup_empty in Hv.
Qed.

Lemma Len_nonneg db : 0 <= Len db.
Proof. unfold Len. induction (shards db) as [|s l IH]; simpl; lia. Qed.

(** A candidate is a stored key of a shard, with a deadline under the volatile policies. *)
Definition candidate (p : EvictionPolicy) db (b : best) : Prop :=
  b.1.1 = [] \/
  (0 <= b.1.2 < NumShards /\ is_Some (entries (shard_at db b.1.2) !! b.1.1) /\
   (volatile p = true -> is_Some (expires (shard_at db b.1.2) !! b.1.1))).

Lemma candidate_loop_ok p db i keys sampled b :
  0 <= i < NumShards -> candidate p db b ->
  candidate p db (candidate_loop p (shard_at db i) i keys sampled b).1.
Proof.
  intros Hi. revert sampled b. induction keys as [|k keys IH]; intros sampled [[bk bi] bs] Hb; [done|].
  cbn [candidate_loop]. destruct (entries _ !! k) as [v|] eqn:Hv; [|by apply IH].
  destruct (volatile p && _) eqn:Hvol; [by apply IH|].
  assert (forall sc, candidate p db (k, i, sc)) as Hk.
  { intros sc. right. simpl. split; [done|]. split; [by eexists|]. intros Hp. rewrite Hp in Hvol.
    simpl in Hvol. bool_prop. done. }
  assert (forall b', candidate p db b' ->
    candidate p db (if 5 <=? sampled + 1 then (b', false)
       else candidate_loop p (shard_at db i) i keys (sampled + 1) b').1) as Hnext.
  { intros b' Hb'. destruct (5 <=? _); [done|by apply IH]. }
  destruct p; try apply Hnext; try (destruct (_ || _)); auto; apply Hk.
Qed.

Lemma attempt_loop_ok o p db fuel round n b :
  (forall a c, 0 <= intn o a c < NumShards) -> candidate p db b ->
  candidate p db (attempt_loop fuel o round n p db b).
Proof.
  intros Ho. revert n b. induction fuel as [|fuel IH]; intros n b Hb; [done|]. cbn [attempt_loop].
  destruct (_ || _); [by apply IH|].
  pose proof (candidate_loop_ok p db (intn o round n)
    (range_entries o round n (entries (shard_at db (intn o round n)))) 0 b (Ho _ _) Hb) as Hc.
  destruct (candidate_loop _ _ _ _ _ _) as [b' []]; [done|]. simpl in Hc.
  destruct (bool_decide _); auto.
Qed.

(** Some keys were evicted, volatile policies took only keys with a deadline, and no version
    counter moved. *)
Record evicts (p : EvictionPolicy) db db' : Prop := {
  ev_acc : accounted d db';
  ev_max : maxMemory db' = maxMemory db;
  ev_policy : evictionPolicy db' = evictionPolicy db;
  ev_cell k : cell db' k = cell db k \/
    (cell db' k = (None, None, (cell db k).2) /\ (volatile p = true -> is_Some (cell db k).1.2))
}.

Lemma evicts_refl p db : accounted d db -> evicts p db db.
Proof. split; auto. Qed.

Lemma evicts_trans p db1 db2 db3 : evicts p db1 db2 -> evicts p db2 db3 -> evicts p db1 db3.
Proof.
  intros [? Hm Hp H1] [? Hm' Hp' H2]. split; [done|congruence..|]. intros k.
  destruct (H1 k) as [E|[E Hv]], (H2 k) as [E'|[E' Hv']].
  - left. congruence.
  - right. rewrite <- E. done.
  - right. rewrite E'. done.
  - right. rewrite E', E. done.
Qed.

Lemma evict_key_evicts p db i k :
  accounted d db -> 0 <= i < NumShards ->
  (volatile p = true -> is_Some (expires (shard_at db i) !! k)) -> evicts p db (evict_key db i k).
Proof.
  intros Ha Hi Hv. split; [by apply accounted_evict|unfold evict_key; by destruct (entries _ !! k)..|].
  intros j. unfold evict_key. destruct (entries _ !! k) as [v|] eqn:E; [|by left].
  unfold cell, getShard. rewrite shard_at_put by (apply GetShardIdx_range || apply Ha || done).
  change (shard_at (subMem db (estimateObjectSize k v)) (GetShardIdx j)) with (shard_at db (GetShardIdx j)).
  destruct (decide (i = GetShardIdx j)) as [->|]; [|by left]. unfold cell_of. simpl.
  destruct (decide (j = k)) as [->|].
  - right. by rewrite !lookup_delete_eq.
  - left. by rewrite !lookup_delete_ne by done.
Qed.

Lemma evict_loop_spec o p maxMem fuel round db :
  (forall a c, 0 <= intn o a c < NumShards) -> accounted d db -> Len db < Z.of_nat fuel ->
  exists err db', evict_loop fuel o round maxMem p db = Some (err, db') /\ evicts p db db' /\
    (err = None -> usedMemory db' <= maxMem).
Proof.
  intros Ho. revert round db. induction fuel as [|fuel IH]; intros round db Ha Hf.
  { pose proof (Len_nonneg db). lia. }
  cbn [evict_loop]. destruct (maxMem <? UsedMemory db) eqn:E; cycle 1.
  { exists None, db. split_and!; [done|by apply evicts_refl|]. apply Z.ltb_ge in E. done. }
  pose proof (attempt_loop_ok o p db (Z.to_nat (NumShards * 2)) round 0 ([], -1, 0) Ho (or_introl eq_refl)) as Hc.
  destruct (attempt_loop _ _ _ _ _ _ _) as [[bk bi] bs]. simpl in Hc.
  destruct (bool_decide (bk = [])) eqn:Ek; [exists (Some ErrOOM), db; split_and!; [done|by apply evicts_refl|done]|].
  destruct Hc as [Hc|(Hi & Hk & Hv)]; simpl in *; [by bool_prop|].
  rewrite (proj2 (Z.ltb_ge _ _)) by lia.
  pose proof (evict_key_evicts p db bi bk Ha Hi Hv) as Hev.
  destruct (IH (S round) (evict_key db bi bk)) as (err & db' & -> & Hev' & Hu); [apply Hev| |].
  - rewrite Len_evict by (done || apply Ha). lia.
  - exists err, db'. split_and!; [done|by eapply evicts_trans|done].
Qed.

Lemma FreeMemoryIfNeeded_spec o db :
  (forall a c, 0 <= intn o a c < NumShards) -> accounted d db ->
  exists err db', FreeMemoryIfNeeded o db = Some (err, db') /\ evicts (evictionPolicy db) db db' /\
    (err = None -> 0 < maxMemory db -> usedMemory db' <= maxMemory db) /\
    (evictionPolicy db = NoEviction -> db' = db).
Proof.
  intros Ho Ha. unfold FreeMemoryIfNeeded.
  destruct (Z.leb_spec (maxMemory db) 0).
  { exists None, db. split_and!; [done|by apply evicts_refl|lia|done]. }
  destruct (Z.leb_spec (UsedMemory db) (maxMemory db)).
  { exists None, db. split_and!; [done|by apply evicts_refl|done|done]. }
  assert (forall p, p = evictionPolicy db -> p <> NoEviction ->
    exists err db', evict_loop (S (Z.to_nat (Len db))) o 0 (maxMemory db) p db = Some (err, db') /\
      evicts (evictionPolicy db) db db' /\
      (err = None -> 0 < maxMemory db -> usedMemory db' <= maxMemory db) /\
      (evictionPolicy db = NoEviction -> db' = db)) as Hloop.
  { intros p -> Hp. pose proof (Len_nonneg db).
    destruct (evict_loop_spec o (evictionPolicy db) (maxMemory db) (S (Z.to_nat (Len db))) 0 db Ho Ha)
      as (err & db' & E & Hev & Hu); [lia|].
    exists err, db'. split_and!; [done..| |done]. auto. }
  destruct (evictionPolicy db); try (by apply Hloop).
  exists (Some ErrOOM), db. split_and!; [done|by apply evicts_refl|done|done].
Qed.

(** ** Every call *)

Lemma make_room_spec o db n :
  (forall a c, 0 <= intn o a c < NumShards) -> accounted d db ->
  exists err db', make_room o db n = Some (err, db') /\ accounted d db'.
Proof.
  intros Ho Ha. unfold make_room. destruct (_ && _); [|eauto].
  destruct (FreeMemoryIfNeeded_spec o db Ho Ha) as (err & db' & -> & Hev & _). go_bind.
  pose proof (ev_acc _ _ _ Hev). destruct err as [e|]; [eauto|]. destruct (_ && _); eauto.
Qed.

End drift.

(** FLUSHALL sets the counter to zero. *)
Definition drift_after (d : Z) (c : @op P) : Z := match c with OFlushAll => 0 | _ => d end.

Lemma step_accounted d o t db c :
  (forall a c, 0 <= intn o a c < NumShards) -> accounted d db ->
  exists r db', step o t db c = Some (r, db') /\ accounted (drift_after d c) db'.
Proof.
  intros Ho Ha. destruct c; cbn [step drift_after].
  - pose proof (accounted_Get d t db k Ha). destruct (Get t db k). eauto.
  - unfold Set_. destruct (make_room_spec d o db (estimateObjectSize k (store_lru (Unix t) v)) Ho Ha)
      as (err & db' & -> & Ha'). go_bind. destruct err; go_bind; eauto using accounted_store.
  - unfold SetWithExpire. destruct (make_room_spec d o db (estimateObjectSize k (store_lru (Unix t) v)) Ho Ha)
      as (err & db' & -> & Ha'). go_bind. destruct err; go_bind; eauto using accounted_store.
  - pose proof (accounted_Get d t db k Ha). destruct (Get t db k). do 2 eexists. split; [done|].
    by apply accounted_store.
  - pose proof (accounted_SetExpireAt d t db k e Ha). destruct (SetExpireAt t db k e). eauto.
  - pose proof (accounted_SetExpireAt d t db k (s64 (UnixMilli t + Milliseconds ttl)) Ha).
    unfold SetExpire. destruct (SetExpireAt _ _ _ _). eauto.
  - pose proof (accounted_remove d db (GetShardIdx k) k Ha (GetShardIdx_range k)). unfold Del.
    destruct (isExpired _ _ _); [eauto|]. destruct (entries _ !! k); eauto.
  - eauto.
  - eauto.
  - pose proof (accounted_Persist d t db k Ha). destruct (Persist t db k). eauto.
  - do 2 eexists. split; [done|]. unfold Touch. destruct (_ =? 0); [done|].
    by apply accounted_put; [|apply GetShardIdx_range|].
  - do 2 eexists. split; [done|]. by apply (accounted_same d db).
  - do 2 eexists. split; [done|]. unfold RemoveWatchers. destruct (0 <? _).
    + by apply (accounted_same d db).
    + apply accounted_map; [done|]. by apply (accounted_same d db).
  - do 2 eexists. split; [done|]. by eapply accounted_FlushAll.
  - do 2 eexists. split; [done|]. by apply accounted_ActiveExpireCycle.
Qed.

(** A fresh database with a memory limit. *)
Definition limited (maxMem : Z) (p : EvictionPolicy) : ShardedDB P :=
  SetEvictionPolicy (SetMaxMemory NewShardedDB maxMem) p.

Lemma limited_accounted maxMem p : accounted 0 (limited maxMem p).
Proof. split; [done|]. simpl. unfold stored_bytes. simpl. by vm_compute. Qed.

End memory.

(** ** Containers that change in place

    The estimate reads the container behind a payload, and the handlers change containers without telling the keyspace.  So every call of a
    history comes with the sizes of that moment. *)

Abbreviation sizes := PayloadSize (only parsing).

(** How much the stored containers have grown since the sizes were [S0]. *)
Definition growth {P} (S0 S1 : sizes P) (db : ShardedDB P) : Z := @stored_bytes P S1 db - @stored_bytes P S0 db.

(** [missed] sums up the growth between the calls since the last FLUSHALL; the result has the sizes of the last call. *)
Fixpoint live_run {P} (o : oracle P) (S0 : sizes P) (missed : Z) (db : ShardedDB P) (h : list (sizes P * Z * @op P)) : option (sizes P * Z * ShardedDB P) :=
  match h with
  | [] => Some (S0, missed, db)
  | (S1, t, c) :: h =>
    '(_, db') ← @step P S1 o t db c;
    live_run o S1 (drift_after (missed + growth S0 S1 db) c) db' h
  end.

Lemma live_run_accounted {P} (o : oracle P) (S0 : sizes P) missed (db : ShardedDB P) h :
  (forall a c, 0 <= intn o a c < NumShards) -> @accounted P S0 (- missed) db ->
  exists S1 missed' db', live_run o S0 missed db h = Some (S1, missed', db') /\ @accounted P S1 (- missed') db'.
Proof.
  intros Ho. revert S0 missed db. induction h as [|[[S1 t] c] h IH]; intros S0 missed db Ha; [by exists S0, missed, db|]. cbn [live_run].
  assert (@accounted P S1 (- (missed + growth S0 S1 db)) db) as Ha1 by (destruct Ha as [Hl Hu]; split; [done|]; unfold growth; lia).
  destruct (@step_accounted P S1 _ o t db c Ho Ha1) as (r & db' & -> & Ha'). go_bind. apply IH.
  replace (- drift_after _ c) with (drift_after (- (missed + growth S0 S1 db)) c); [done|]. destruct c; cbn; lia.
Qed.

(** ** Properties *)

(** C17. Memory accounting: whatever the limit and the eviction policy, every history of calls on a fresh database runs to its end, eviction
    included, while the containers behind the stored objects grow and shrink as they like between the calls.  At the end [usedMemory] is the sum
    of the estimates of what is stored, less exactly that growth since the last FLUSHALL, which no call reports: the calls themselves are accounted
    for to the byte, and in a history without changes in place the counter is the sum. *)
Theorem memory_accounted {P} (o : oracle P) (S0 : sizes P) (maxMem : Z) (p : EvictionPolicy) h :
  oracle_ok o ->
  exists S1 missed db, live_run o S0 0 (@limited P maxMem p) h = Some (S1, missed, db) /\ UsedMemory db = @stored_bytes P S1 db - missed.
Proof.
  intros Ho. destruct (live_run_accounted o S0 0 (@limited P maxMem p) h) as (S1 & missed & db & E & Ha).
  - apply Ho.
  - apply limited_accounted.
  - exists S1, missed, db. split; [done|]. destruct Ha. unfold UsedMemory. lia.
Qed.

#[local] Existing Instance bytes_payload.

(** Three writes of 19 bytes each under a limit of 50. *)
Definition ex_pressure : list (Z * @op (list Z)) :=
  [(1, OSet (str "a") (ex_str "11")); (2, OSet (str "b") (ex_str "22")); (3, OSet (str "c") (ex_str "33"));
   (4, OSet (str "d") (ex_str "44"))].

(** The same bytes, counted three times over: as if every value had grown in place. *)
Program Definition grown : sizes (list Z) := {| payload_size := fun b => 3 * zlen b |}.
Next Obligation. intros p. pose proof (zlen_nonneg p). cbn. lia. Qed.

Lemma memory_accounted_witness :
  oracle_ok ex_oracle /\
  exists S1 missed db, live_run ex_oracle bytes_payload 0 (limited 100 AllKeysLRU) [(bytes_payload, 1, OSet (str "a") (ex_str "11")); (grown, 2, OSet (str "b") (ex_str "2"))] = Some (S1, missed, db) /\
    UsedMemory db = @stored_bytes _ S1 db - missed.
Proof.
  split; [exact ex_oracle_ok|]. exact (memory_accounted ex_oracle bytes_payload 100 AllKeysLRU _ ex_oracle_ok).
Defined.

(** What comes of it: a value that has grown in place and is deleted leaves a negative counter behind. *)
Example grown_value_makes_the_counter_negative :
  exists db, live_run ex_oracle bytes_payload 0 (limited 100 AllKeysLRU) [(bytes_payload, 1, OSet (str "a") (ex_str "11")); (grown, 2, ODel (str "a"))] = Some (grown, 4, db) /\
    UsedMemory db = -4.
Proof. eexists. split; vm_compute; reflexivity. Qed.

(** C39. The eviction loop: whatever the counter says, [FreeMemoryIfNeeded] on the array of shards returns; success means that the counter is
    within the limit; the counter falls by exactly the estimates of what was removed; the keys that were removed are gone with their deadline, all
    others are untouched; a volatile policy removes only keys that have a deadline; and without an eviction policy nothing is removed. *)
Theorem free_memory_evicts_by_policy {P} `{PayloadSize P} (o : oracle P) (db : ShardedDB P) :
  oracle_ok o -> length (shards db) = Z.to_nat NumShards ->
  exists err db', FreeMemoryIfNeeded o db = Some (err, db') /\ UsedMemory db - UsedMemory db' = stored_bytes db - stored_bytes db' /\
    (err = None -> 0 < maxMemory db -> UsedMemory db' <= maxMemory db) /\
    (forall k, abs db' k = abs db k \/
      (abs db' k = None /\ (volatile (evictionPolicy db) = true -> is_Some (cell db k).1.2))) /\
    (evictionPolicy db = NoEviction -> db' = db).
Proof.
  intros Ho Hl. destruct (FreeMemoryIfNeeded_spec (usedMemory db - stored_bytes db) o db) as (err & db' & E & Hev & Hu & Hn); [apply Ho|split; [done|lia]|].
  exists err, db'. split_and!; [done|destruct (ev_acc _ _ _ _ Hev); unfold UsedMemory; lia|done| |done].
  intros k. destruct (ev_cell _ _ _ _ Hev k) as [Ec|[Ec Hv]].
  - left. by apply abs_cell.
  - right. split; [|done]. unfold abs. by rewrite Ec.
Qed.

Definition ex_full : ShardedDB (list Z) :=
  SetEvictionPolicy (SetMaxMemory (ex_after NewShardedDB ex_pressure) 50) AllKeysLRU.

Lemma free_memory_evicts_by_policy_witness :
  oracle_ok ex_oracle /\
  exists err db', FreeMemoryIfNeeded ex_oracle ex_full = Some (err, db') /\ UsedMemory ex_full - UsedMemory db' = stored_bytes ex_full - stored_bytes db' /\
    (err = None -> 0 < maxMemory ex_full -> UsedMemory db' <= maxMemory ex_full) /\
    (forall k, abs db' k = abs ex_full k \/
      (abs db' k = None /\ (volatile (evictionPolicy ex_full) = true -> is_Some (cell ex_full k).1.2))) /\
    (evictionPolicy ex_full = NoEviction -> db' = ex_full).
Proof.
  split; [exact ex_oracle_ok|]. apply (free_memory_evicts_by_policy ex_oracle ex_full ex_oracle_ok). vm_compute. reflexivity.
Defined.

(** A defect of the eviction path: it does not bump versions.  Here a client watches [c],
    another write evicts [c], and the version is what it was, so EXEC would run although the
    watched key is gone. *)
Theorem watch_misses_eviction :
  exists rs db0 db1,
    run ex_oracle (limited 50 AllKeysLRU) (take 3 ex_pressure ++ [(3, OAddWatchers 1)]) = Some (rs, db0) /\
    run ex_oracle db0 (drop 3 ex_pressure) = Some ([RErr None], db1) /\
    is_Some (abs db0 (str "c")) /\ abs db1 (str "c") = None /\
    GetVersion db1 (str "c") = GetVersion db0 (str "c").
Proof.
  do 3 eexists. split; [vm_compute; reflexivity|]. split; [vm_compute; reflexivity|].
  split; [vm_compute; by eexists|]. split; vm_compute; reflexivity.
Qed.

(** A second defect: the loop uses the empty key to mean "no candidate", so a database whose
    only key is the empty string cannot evict it and reports out of memory under any policy
    that would allow it. *)
Theorem empty_key_is_never_evicted :
  exists rs db, run ex_oracle NewShardedDB [(1, OSet [] (ex_str "value"))] = Some (rs, db) /\
    FreeMemoryIfNeeded ex_oracle (SetEvictionPolicy (SetMaxMemory db 1) AllKeysRandom) =
    Some (Some ErrOOM, SetEvictionPolicy (SetMaxMemory db 1) AllKeysRandom).
Proof. do 2 eexists. split; [vm_compute; reflexivity|]. vm_compute. reflexivity. Qed.
