(* ===== verification/DbScan.v ===== *)
(** * Walks over the keyspace ([db/keyspace.go], [db/snapshot.go])

    SCAN's cursor is a shard index.  [scan_returns_every_stable_key] is the guarantee a client
    relies on while other clients write: the database may differ from call to call.  KEYS and
    the snapshot iterator are shown to visit exactly the live keys, each once. *)

From S2P Require Import Prelude Object Glob Db DbSpec.

Local Open Scope Z_scope.

Section walks.
Context {P : Type} `{PS : PayloadSize P}.
Implicit Types (db : ShardedDB P) (s : shard P) (k : bytes) (o : oracle P) (now t : Z).

(** ** One shard *)

Lemma elem_of_live_matches o a b s now matches k :
  oracle_ok o ->
  k ∈ live_matches s now matches (range_entries o a b (entries s)) <->
  is_Some (entries s !! k) /\ isExpired s k now = false /\ matches k = true.
Proof.
  intros Ho. unfold live_matches. rewrite list_elem_of_filter, (oracle_entries _ Ho), elem_of_keys. naive_solver.
Qed.

(** A key lives in its home shard only. *)
Lemma home_shard db (i : Z) k :
  db_wf db -> 0 <= i < NumShards -> is_Some (entries (shard_at db i) !! k) -> i = GetShardIdx k.
Proof.
  intros Hwf Hi [v Hv]. apply Z2Nat.inj; [lia|apply GetShardIdx_range|].
  eapply (wf_home _ Hwf); [by apply shards_lookup; [apply Hwf|]|].
  unfold cell_of. rewrite Hv. congruence.
Qed.

Lemma Exists_true t db k :
  Exists t db k = true <->
  is_Some (entries (getShard db k) !! k) /\ isExpired (getShard db k) k (UnixMilli t) = false.
Proof. unfold Exists. destruct (isExpired _ _ _); rewrite ?bool_decide_eq_true; naive_solver. Qed.

Lemma shard_reports o a b t db matches (i : Z) k :
  oracle_ok o -> db_wf db -> 0 <= i < NumShards ->
  k ∈ live_matches (shard_at db i) (UnixMilli t) matches (range_entries o a b (entries (shard_at db i))) <->
  i = GetShardIdx k /\ Exists t db k = true /\ matches k = true.
Proof.
  intros Ho Hwf Hi. rewrite elem_of_live_matches, Exists_true by done. split.
  - intros (Hs & He & Hm). pose proof (home_shard db i k Hwf Hi Hs) as ->. done.
  - intros (-> & (Hs & He) & Hm). done.
Qed.

(** ** SCAN *)

(** A call visits the shards from its cursor to the index it stops at. *)
Lemma scan_loop_spec o t db matches count fuel idx out :
  oracle_ok o -> db_wf db -> 0 <= idx -> NumShards <= idx + Z.of_nat fuel ->
  exists idx' out', scan_loop fuel o db (UnixMilli t) matches count idx out = (idx', out') /\
    (idx < NumShards -> idx < idx' <= NumShards) /\ (NumShards <= idx -> idx' = idx) /\
    forall k, k ∈ out' <->
      k ∈ out \/ (idx <= GetShardIdx k < idx' /\ Exists t db k = true /\ matches k = true).
Proof.
  intros Ho Hwf. revert idx out. induction fuel as [|fuel IH]; intros idx out Hi Hf.
  { exists idx, out. split_and!; [done|lia|done|]. intros k. naive_solver lia. }
  cbn [scan_loop]. destruct (Z.ltb_spec idx NumShards); cycle 1.
  { exists idx, out. split_and!; [done|lia|done|]. intros k. pose proof (GetShardIdx_range k). naive_solver lia. }
  set (out1 := out ++ _).
  assert (forall k, k ∈ out1 <-> k ∈ out \/ (idx = GetShardIdx k /\ Exists t db k = true /\ matches k = true)) as H1.
  { intros k. unfold out1. rewrite elem_of_app, shard_reports by (done || lia). done. }
  destruct (count <=? zlen out1).
  - exists (idx + 1), out1. split_and!; [done|lia|lia|]. intros k. rewrite H1.
    split; (intros [?|(? & ?)]; [by left|right; split; [lia|done]]).
  - destruct (IH (idx + 1) out1 ltac:(lia) ltac:(lia)) as (idx' & out' & -> & H2 & H3 & H4).
    exists idx', out'. split_and!; [done|lia|lia|]. intros k. rewrite H4, H1.
    assert (idx + 1 <= idx') by lia. split.
    + intros [[?|(? & ?)]|(? & ?)]; [by left|right; split; [lia|done]..].
    + intros [?|(? & ?)]; [by left; left|].
      destruct (Z.eq_dec idx (GetShardIdx k)); [left; right; done|right; split; [lia|done]].
Qed.

(** The patterns SCAN takes to match everything, and the others. *)
Definition scan_matches (pattern k : bytes) : bool :=
  bool_decide (pattern = []) || bool_decide (pattern = str "*") || Match pattern k.

Lemma Scan_spec o t db cursor pattern count :
  oracle_ok o -> db_wf db -> 0 <= cursor < NumShards ->
  exists next out, Scan o t db cursor pattern count = ((if NumShards <=? next then 0 else next), out) /\
    cursor < next <= NumShards /\
    forall k, k ∈ out <->
      cursor <= GetShardIdx k < next /\ Exists t db k = true /\ scan_matches pattern k = true.
Proof.
  intros Ho Hwf Hc. unfold Scan.
  destruct (scan_loop_spec o t db (scan_matches pattern) (if count <=? 0 then 10 else count)
    (Z.to_nat NumShards) cursor [] Ho Hwf) as (idx & out & E & H1 & _ & H3); [lia|lia|].
  change (fun k => bool_decide (pattern = []) || bool_decide (pattern = str "*") || Match pattern k)
    with (scan_matches pattern). rewrite E.
  exists idx, out. split_and!; [by destruct (NumShards <=? idx)|lia|lia|].
  intros k. rewrite H3, elem_of_nil. tauto.
Qed.

(** A full iteration: the client calls again with the cursor it got until it gets 0.  Each call
    may find another database, another clock, and ask for another count. *)
Fixpoint scan_all o (pattern : bytes) (calls : list (ShardedDB P * Z * Z)) (cursor : Z)
    : option (list bytes) :=
  match calls with
  | [] => None
  | (db, t, count) :: calls =>
    let '(next, out) := Scan o t db cursor pattern count in
    if next =? 0 then Some out else rest ← scan_all o pattern calls next; Some (out ++ rest)
  end.

Definition seen_by (k : bytes) (call : ShardedDB P * Z * Z) : Prop := Exists call.1.2 call.1.1 k = true.

Lemma scan_all_spec o pattern calls cursor :
  oracle_ok o -> Forall (fun c => db_wf c.1.1) calls -> 0 <= cursor < NumShards ->
  NumShards - cursor <= zlen calls ->
  exists out, scan_all o pattern calls cursor = Some out /\
    (forall k, Forall (seen_by k) calls -> scan_matches pattern k = true ->
       cursor <= GetShardIdx k -> k ∈ out) /\
    (forall k, k ∈ out -> (exists c, c ∈ calls /\ seen_by k c) /\ scan_matches pattern k = true).
Proof.
  intros Ho. revert cursor. induction calls as [|[[db t] count] calls IH]; intros cursor Hwf Hc Hl.
  { rewrite zlen_nil in Hl. lia. }
  apply Forall_cons in Hwf as [Hw Hwf]. simpl in Hw. cbn [scan_all].
  destruct (Scan_spec o t db cursor pattern count Ho Hw Hc) as (next & out & -> & Hn & Hout).
  assert (forall k, k ∈ out -> (exists c, c ∈ (db, t, count) :: calls /\ seen_by k c) /\ scan_matches pattern k = true) as Hs.
  { intros k (_ & ? & ?)%Hout. split; [|done]. exists (db, t, count). split; [apply list_elem_of_here|done]. }
  destruct (Z.leb_spec NumShards next).
  - exists out. simpl. split_and!; [done| |done]. intros k [Hk _]%Forall_cons Hm Hi.
    apply Hout. pose proof (GetShardIdx_range k). split; [lia|done].
  - rewrite (proj2 (Z.eqb_neq _ _)) by lia. rewrite zlen_cons in Hl.
    destruct (IH next Hwf ltac:(lia) ltac:(lia)) as (rest & -> & Hall & Hsound). go_bind.
    exists (out ++ rest). split_and!; [done|..]; intros k.
    + intros [Hk Hks]%Forall_cons Hm Hi. rewrite elem_of_app.
      destruct (Z.lt_ge_cases (GetShardIdx k) next); [left; apply Hout; split; [lia|done]|right; auto].
    + rewrite elem_of_app. intros [?|Hr]; [auto|]. destruct (Hsound k Hr) as [(c & ? & ?) ?].
      split; [|done]. exists c. split; [by apply list_elem_of_further|done].
Qed.

(** ** Walks that visit every shard *)

Lemma shards_shard_at db (n : nat) s : db_wf db -> shards db !! n = Some s ->
  s = shard_at db (Z.of_nat n) /\ 0 <= Z.of_nat n < NumShards.
Proof.
  intros Hwf Hs. pose proof (lookup_lt_Some _ _ _ Hs) as Hl. rewrite (wf_len _ Hwf) in Hl.
  split; [|lia]. unfold shard_at. by rewrite Nat2Z.id, Hs.
Qed.

Lemma NoDup_live_matches o a b s now matches :
  oracle_ok o -> NoDup (live_matches s now matches (range_entries o a b (entries s))).
Proof.
  intros Ho. unfold live_matches. apply NoDup_filter. rewrite (oracle_entries _ Ho).
  apply NoDup_fst_map_to_list.
Qed.

Definition keys_matches (pattern k : bytes) : bool := bool_decide (pattern = str "*") || Match pattern k.

Lemma Keys_spec o t db pattern :
  oracle_ok o -> db_wf db ->
  NoDup (Keys o t db pattern) /\
  forall k, k ∈ Keys o t db pattern <-> Exists t db k = true /\ keys_matches pattern k = true.
Proof.
  intros Ho Hwf. unfold Keys. split.
  - apply (NoDup_concat_home (fun k => Z.to_nat (GetShardIdx k))
      (fun i s => live_matches s (UnixMilli t) (keys_matches pattern) (range_entries o i 0 (entries s))) 0).
    + intros i s _. by apply NoDup_live_matches.
    + intros i s k Hs. destruct (shards_shard_at db i s Hwf Hs) as [-> Hi]. simpl.
      rewrite shard_reports by done. intros (E & _). rewrite <- E. lia.
  - intros k. rewrite elem_of_concat_imap. split.
    + intros (i & s & Hs & Hk). destruct (shards_shard_at db i s Hwf Hs) as [-> Hi].
      by apply shard_reports in Hk as (_ & ? & ?).
    + intros [He Hm]. exists (Z.to_nat (GetShardIdx k)), (getShard db k). split.
      * apply shards_lookup; [apply Hwf|apply GetShardIdx_range].
      * by apply (shard_reports o _ 0 t db (keys_matches pattern)); [..|apply GetShardIdx_range|].
Qed.

(** ** Snapshots *)

Lemma elem_of_shard_snapshot o now (n : nat) s e :
  oracle_ok o ->
  e ∈ shard_snapshot o now n s <->
  isExpired s (e_Key e) now = false /\ entries s !! e_Key e = Some (e_Val e) /\
  e_ExpireAt e = default 0 (expires s !! e_Key e).
Proof.
  intros Ho. unfold shard_snapshot. rewrite list_elem_of_omap. setoid_rewrite (oracle_entries _ Ho).
  setoid_rewrite elem_of_keys. split.
  - intros (k & _ & E). destruct (isExpired s k now) eqn:Hx; [done|].
    destruct (entries s !! k) eqn:Hv; simplify_eq. simpl. by rewrite Hx, Hv.
  - intros (Hx & Hv & He). exists (e_Key e). rewrite Hx, Hv, <- He. split; [by eexists|]. by destruct e.
Qed.

Lemma NoDup_shard_snapshot o now (n : nat) s :
  oracle_ok o -> NoDup (e_Key <$> shard_snapshot o now n s).
Proof.
  intros Ho. unfold shard_snapshot.
  assert (NoDup (range_entries o n 0 (entries s))) as Hnd.
  { rewrite (oracle_entries _ Ho). apply NoDup_fst_map_to_list. }
  induction (range_entries o n 0 (entries s)) as [|k l IH]; [constructor|].
  apply NoDup_cons in Hnd as [Hk Hnd]. simpl. destruct (isExpired s k now); [auto|].
  destruct (entries s !! k) as [v|]; [|auto]. simpl. apply NoDup_cons. split; [|auto].
  rewrite list_elem_of_fmap. intros (e & -> & He). apply list_elem_of_omap in He as (j & Hj & E).
  destruct (isExpired s j now); [done|]. destruct (entries s !! j); simplify_eq. done.
Qed.

(** A callback that does not fail sees the snapshots of all shards, in order. *)
Lemma snapshot_loop_fold {A E} o now (fn : A -> list DBEntry -> A * option E) (step : A -> list DBEntry -> A) (ok : DBEntry -> Prop) (n : nat) l (a : A) :
  (forall a es, Forall ok es -> fn a es = (step a es, None)) -> (forall a, step a [] = a) -> (forall a es es', step (step a es) es' = step a (es ++ es')) ->
  Forall ok (concat (imap (fun i s => shard_snapshot o now (n + i) s) l)) ->
  snapshot_loop o now fn n l a = (step a (concat (imap (fun i s => shard_snapshot o now (n + i) s) l)), None).
Proof.
  intros Hfn Hnil Happ. revert n a. induction l as [|s l IH]; intros n a Hok; cbn [snapshot_loop]; [by rewrite Hnil|].
  assert (concat (imap (fun i s => shard_snapshot o now (n + i) s) (s :: l)) =
    shard_snapshot o now n s ++ concat (imap (fun i s => shard_snapshot o now (S n + i) s) l)) as Hcc.
  { simpl. rewrite Nat.add_0_r. do 2 f_equal. apply imap_ext. intros. simpl. f_equal. lia. }
  rewrite Hcc in *. apply Forall_app in Hok as [Hs Hl]. specialize (IH (S n)).
  destruct (shard_snapshot o now n s) as [|e es]; [by apply IH|]. by rewrite Hfn, IH, Happ by done.
Qed.

End walks.

(** What the shards hand out, one after the other: every live key once, with its value and deadline. *)
Lemma snapshot_entries {P} `{PayloadSize P} (o : oracle P) t (db : ShardedDB P) :
  oracle_ok o -> db_wf db ->
  let es := concat (imap (fun i s => shard_snapshot o (UnixMilli t) i s) (shards db)) in
  NoDup (e_Key <$> es) /\ forall k v x, mkEntry k v x ∈ es <-> GetWithTTL t db k = Some (v, x).
Proof.
  intros Ho Hwf es. unfold es. clear es.
  split.
  - change (NoDup (map e_Key (concat (imap (fun i s => shard_snapshot o (UnixMilli t) i s) (shards db))))).
    rewrite concat_map. change (map (map e_Key)) with (fmap (M := list) (fmap (M := list) (@e_Key P))).
    rewrite fmap_imap.
    apply (NoDup_concat_home (fun k => Z.to_nat (GetShardIdx k))
      (fun i s => e_Key <$> shard_snapshot o (UnixMilli t) i s) 0).
    + intros i s _. by apply NoDup_shard_snapshot.
    + intros i s k Hs. destruct (shards_shard_at db i s Hwf Hs) as [-> Hi].
      rewrite list_elem_of_fmap. intros (e & -> & He). apply elem_of_shard_snapshot in He as (_ & Hv & _); [|done].
      rewrite <- (home_shard db (Z.of_nat i) (e_Key e)) by (done || by eexists). lia.
  - intros k v x. rewrite elem_of_concat_imap. setoid_rewrite elem_of_shard_snapshot; [|done]. simpl.
    unfold GetWithTTL. split.
    + intros (i & s & Hs & Hx & Hv & ->). destruct (shards_shard_at db i s Hwf Hs) as [-> Hi].
      rewrite (home_shard db (Z.of_nat i) k Hwf Hi) in * by (by eexists).
      unfold getShard. by rewrite Hx, Hv.
    + destruct (isExpired _ _ _) eqn:Hx; [done|]. destruct (entries _ !! k) eqn:Hv; [|done]. intros [= -> <-].
      exists (Z.to_nat (GetShardIdx k)), (getShard db k). split; [|done].
      apply shards_lookup; [apply Hwf|apply GetShardIdx_range].
Qed.

(** ** Properties *)

#[local] Existing Instance bytes_payload.

Definition ex_db : ShardedDB (list Z) := ex_after NewShardedDB ex_history.

Lemma ex_db_wf : db_wf ex_db.
Proof. apply (ex_after_wf 0). simpl. lia. Qed.

(** SCAN's guarantee: an iteration that starts at cursor 0 and follows the returned cursors ends
    within [NumShards] calls; whatever happens to the database between the calls, it has then
    returned every key that was live and matched at each of them, and nothing that was not live
    at one of them. *)
Theorem scan_returns_every_stable_key {P} `{PayloadSize P} (o : oracle P) pattern calls :
  oracle_ok o -> Forall (fun c => db_wf c.1.1) calls -> NumShards <= zlen calls ->
  exists out, scan_all o pattern calls 0 = Some out /\
    (forall k, Forall (seen_by k) calls -> scan_matches pattern k = true -> k ∈ out) /\
    (forall k, k ∈ out -> (exists c, c ∈ calls /\ seen_by k c) /\ scan_matches pattern k = true).
Proof.
  intros Ho Hwf Hl. destruct (scan_all_spec o pattern calls 0 Ho Hwf) as (out & E & Ha & Hs); [done|lia|].
  exists out. split_and!; [done| |done]. intros k Hk Hm. apply Ha; [done..|]. apply GetShardIdx_range.
Qed.

Lemma scan_returns_every_stable_key_witness :
  exists out, scan_all ex_oracle (str "k*") (replicate 64 (ex_db, 4 * 10 ^ 9, 1)) 0 = Some out /\ str "k" ∈ out.
Proof.
  destruct (scan_returns_every_stable_key ex_oracle (str "k*") (replicate 64 (ex_db, 4 * 10 ^ 9, 1)))
    as (out & E & Hall & _).
  - exact ex_oracle_ok.
  - apply Forall_replicate. exact ex_db_wf.
  - vm_compute. congruence.
  - exists out. split; [exact E|]. apply Hall; [apply Forall_replicate; vm_compute; reflexivity|].
    vm_compute. reflexivity.
Defined.

(** KEYS returns exactly the live keys that match the pattern, each once. *)
Theorem keys_exact {P} `{PayloadSize P} (o : oracle P) t (db : ShardedDB P) pattern :
  oracle_ok o -> db_wf db ->
  NoDup (Keys o t db pattern) /\
  forall k, k ∈ Keys o t db pattern <-> Exists t db k = true /\ keys_matches pattern k = true.
Proof. apply Keys_spec. Qed.

Lemma keys_exact_witness : str "k" ∈ Keys ex_oracle (4 * 10 ^ 9) ex_db (str "?").
Proof.
  apply (keys_exact ex_oracle (4 * 10 ^ 9) ex_db (str "?") ex_oracle_ok ex_db_wf).
  vm_compute. split; reflexivity.
Defined.

(** A snapshot hands its callback every live key once, with its value and deadline, and
    nothing else: what persistence and replication write out is the keyspace. *)
Theorem snapshot_exact {P} `{PayloadSize P} (o : oracle P) t (db : ShardedDB P) :
  oracle_ok o -> db_wf db ->
  exists es, ForEachShardSnapshot (E := DbError) o t db (fun acc es => (acc ++ es, None)) [] = (es, None) /\
    NoDup (e_Key <$> es) /\
    forall k v x, mkEntry k v x ∈ es <-> GetWithTTL t db k = Some (v, x).
Proof.
  intros Ho Hwf. unfold ForEachShardSnapshot.
  rewrite (snapshot_loop_fold o (UnixMilli t) _ (fun acc es => acc ++ es) (fun _ => True));
    [|done|intros; by rewrite app_nil_r|intros; by rewrite app_assoc|by apply Forall_true].
  eexists. split; [done|].
  by apply snapshot_entries.
Qed.

Lemma snapshot_exact_witness :
  exists es, ForEachShardSnapshot (E := DbError) ex_oracle (4 * 10 ^ 9) ex_db (fun acc es => (acc ++ es, None)) []
    = (es, None) /\ NoDup (e_Key <$> es).
Proof.
  destruct (snapshot_exact ex_oracle (4 * 10 ^ 9) ex_db ex_oracle_ok ex_db_wf) as (es & E & Hnd & _).
  exists es. split; [exact E|exact Hnd].
Defined.
