(* ===== verification/Request.v ===== *)
(** * Client requests ([parser/req_parser.go])

    A [bufio.Reader] is the list of the bytes that are still to come before the end of the
    stream.  The arena of a connection (a third-party allocator) is a parameter: it may refuse
    an allocation, and what it hands out has the size that was asked for ([arena_ok]).

    [request_roundtrip]: a command written in the multi-bulk format (by the AOF, by the
    replication stream, by a client) is read back exactly, and the reader stands at the first
    byte after it. *)

From S2P Require Import Prelude Strconv.

Local Open Scope Z_scope.

Inductive ReqError := EOF | ErrInvalidMultiBulkLength | ErrInvalidBulkLength | ErrUnexpectedEOF.

Inductive parsed :=
  | POk (argv : list bytes) (rest : bytes)
  | PErr (e : ReqError).

Definition MaxMultiBulkLength : Z := 1024 * 1024.
Definition MaxBulkLength : Z := 512 * 1024 * 1024.

(** ** The reader *)

(** [r.ReadBytes(delim)]: up to and including the delimiter, or the end of the stream. *)
Fixpoint ReadBytes (delim : Z) (r : bytes) : option (bytes * bytes) :=
  match r with
  | [] => None
  | c :: r =>
    if c =? delim then Some ([c], r)
    else '(line, rest) ← ReadBytes delim r; Some (c :: line, rest)
  end.

Definition readLine (r : bytes) : option (bytes * bytes) :=
  '(line, rest) ← ReadBytes 10 r;
  let n := zlen line in
  if (2 <=? n) && bool_decide (go_at line (n - 2) = Some 13) then
    Some (take (Z.to_nat (n - 2)) line, rest)
  else if (1 <=? n) && bool_decide (go_at line (n - 1) = Some 10) then
    Some (take (Z.to_nat (n - 1)) line, rest)
  else Some (line, rest).

(** [io.ReadFull(r, buf)] with [len(buf) = n]. *)
Definition ReadFull (n : Z) (r : bytes) : option (bytes * bytes) :=
  if n <=? zlen r then Some (take (Z.to_nat n) r, drop (Z.to_nat n) r) else None.

(** ** The arena *)

Abbreviation arena := (option (Z -> option bytes)) (only parsing).

Definition arena_ok (a : arena) : Prop :=
  forall alloc n buf, a = Some alloc -> 0 <= n -> alloc n = Some buf -> zlen buf = n.

(** Go's [copy(dst, src)]. *)
Definition go_copy (dst src : bytes) : bytes := take (length dst) src ++ drop (length src) dst.

(** The copy of an argument into the arena; a refused allocation keeps the original. *)
Definition arena_copy (a : arena) (arg : bytes) : bytes :=
  match a with
  | None => arg
  | Some alloc => match alloc (zlen arg) with Some buf => go_copy buf arg | None => arg end
  end.

Lemma arena_copy_id a arg : arena_ok a -> arena_copy a arg = arg.
Proof.
  intros Ha. unfold arena_copy. destruct a as [alloc|]; [|done].
  destruct (alloc (zlen arg)) as [buf|] eqn:E; [|done].
  specialize (Ha alloc (zlen arg) buf eq_refl (zlen_nonneg _) E). unfold zlen in Ha. unfold go_copy.
  rewrite take_ge by lia. rewrite drop_ge by lia. apply app_nil_r.
Qed.

(** ** Multi-bulk requests *)

Fixpoint parse_args (n : nat) (a : arena) (r : bytes) (argv : list bytes) : parsed :=
  match n with
  | O => POk argv r
  | S n =>
    match readLine r with
    | None => PErr EOF
    | Some (bLine, r) =>
      if (zlen bLine <? 2) || negb (bool_decide (go_at bLine 0 = Some 36)) then PErr ErrInvalidBulkLength
      else
        match ParseInt (drop 1 bLine) with
        | None => PErr ErrInvalidBulkLength
        | Some bulkLen =>
          if (bulkLen <? 0) || (MaxBulkLength <? bulkLen) then PErr ErrInvalidBulkLength
          else
            match ReadFull (bulkLen + 2) r with
            | None => PErr ErrUnexpectedEOF
            | Some (buf, r) =>
              if bool_decide (go_at buf bulkLen = Some 13) && bool_decide (go_at buf (bulkLen + 1) = Some 10)
              then parse_args n a r (argv ++ [arena_copy a (take (Z.to_nat bulkLen) buf)])
              else PErr ErrInvalidBulkLength
            end
        end
    end
  end.

Definition parseMultiBulkRequest (a : arena) (r : bytes) : parsed :=
  match readLine r with
  | None => PErr EOF
  | Some (line, r) =>
    if (zlen line <? 2) || negb (bool_decide (go_at line 0 = Some 42)) then PErr ErrInvalidMultiBulkLength
    else
      match ParseInt (drop 1 line) with
      | None => PErr ErrInvalidMultiBulkLength
      | Some argc =>
        if (argc <=? 0) || (MaxMultiBulkLength <? argc) then PErr ErrInvalidMultiBulkLength
        else parse_args (Z.to_nat argc) a r []
      end
  end.

(** ** Inline requests *)

(** [bytes.Fields]: [cur] is the field being read. *)
Fixpoint fields_loop (fuel : nat) (l cur : bytes) : list bytes :=
  let flush := match cur with [] => [] | _ => [cur] end in
  match fuel with
  | O => flush
  | S fuel =>
    match l with
    | [] => flush
    | b :: l' =>
      match space_width l with
      | O => fields_loop fuel l' (cur ++ [b])
      | w => flush ++ fields_loop fuel (drop w l) []
      end
    end
  end.

Definition Fields (l : bytes) : list bytes := fields_loop (length l) l [].

Definition parseInlineRequest (a : arena) (r : bytes) : parsed :=
  match readLine r with
  | None => PErr EOF
  | Some (line, r) => POk (arena_copy a <$> Fields line) r
  end.

Definition ParseRequest (a : arena) (r : bytes) : parsed :=
  match r with
  | [] => PErr EOF
  | c :: _ => if c =? 42 then parseMultiBulkRequest a r else parseInlineRequest a r
  end.

(** ** Encoding *)

Definition encode_bulk (arg : bytes) : bytes := 36 :: FormatInt (zlen arg) ++ crlf ++ arg ++ crlf.

(** [encodeCommand] of [aof/rewrite.go]; [FeedCommand] of [replication/manager.go] builds the same
    bytes. *)
Definition encodeCommand (argv : list bytes) : bytes :=
  42 :: FormatInt (zlen argv) ++ crlf ++ concat (encode_bulk <$> argv).

(** ** Lines *)

Lemma ReadBytes_app delim l rest :
  delim ∉ l -> ReadBytes delim (l ++ delim :: rest) = Some (l ++ [delim], rest).
Proof.
  induction l as [|c l IH]; intros Hd; simpl.
  - by rewrite Z.eqb_refl.
  - rewrite not_elem_of_cons in Hd. rewrite (proj2 (Z.eqb_neq _ _)) by naive_solver.
    by rewrite IH by naive_solver.
Qed.

Lemma readLine_crlf l rest : 10 ∉ l -> readLine (l ++ crlf ++ rest) = Some (l, rest).
Proof.
  intros Hl. unfold readLine, crlf.
  change (l ++ [13; 10] ++ rest) with (l ++ [13] ++ 10 :: rest). rewrite app_assoc, ReadBytes_app; cycle 1.
  { rewrite elem_of_app, list_elem_of_singleton. naive_solver. }
  go_bind. rewrite <- app_assoc. simpl app.
  replace (zlen (l ++ [13; 10]) - 2) with (zlen l) by zlen_lia.
  rewrite (go_at_mid l 13 [10]) by done.
  rewrite (bool_decide_eq_true_2 (Some 13 = Some 13)) by done.
  rewrite (proj2 (Z.leb_le 2 _)) by zlen_lia. simpl.
  unfold zlen. by rewrite Nat2Z.id, take_app_length.
Qed.

Lemma no_newline_FormatInt n : 10 ∉ FormatInt n.
Proof.
  intros H. pose proof (FormatInt_chars n) as Hc. rewrite Forall_forall in Hc.
  destruct (Hc 10 H) as [|Hd]; [lia|]. unfold is_digit in Hd. lia.
Qed.

Lemma ReadFull_app l rest n : n = zlen l -> ReadFull n (l ++ rest) = Some (l, rest).
Proof.
  intros ->. unfold ReadFull. rewrite (proj2 (Z.leb_le _ _)) by zlen_lia.
  unfold zlen. by rewrite Nat2Z.id, take_app_length, drop_app_length.
Qed.

(** ** Round trip *)

Definition sendable (argv : list bytes) : Prop :=
  argv <> [] /\ zlen argv <= MaxMultiBulkLength /\ Forall (fun x => zlen x <= MaxBulkLength) argv.

Lemma is_int64_len {A} (l : list A) n : zlen l <= n -> n <= 2 ^ 62 -> is_int64 (zlen l).
Proof. unfold is_int64, min_int64, max_int64. zlen_pose. lia. Qed.

Lemma encode_bulk_app arg rest :
  encode_bulk arg ++ rest = (36 :: FormatInt (zlen arg)) ++ crlf ++ (arg ++ crlf) ++ rest.
Proof. unfold encode_bulk. by rewrite <- app_comm_cons, <- !app_assoc. Qed.

Lemma encodeCommand_app argv rest :
  encodeCommand argv ++ rest = (42 :: FormatInt (zlen argv)) ++ crlf ++ concat (encode_bulk <$> argv) ++ rest.
Proof. unfold encodeCommand. by rewrite <- app_comm_cons, <- !app_assoc. Qed.

Lemma parse_args_encoded a argv rest acc :
  arena_ok a -> Forall (fun x => zlen x <= MaxBulkLength) argv ->
  parse_args (length argv) a (concat (encode_bulk <$> argv) ++ rest) acc = POk (acc ++ argv) rest.
Proof.
  intros Ha Hf. revert acc. induction Hf as [|arg argv Hl Hf IH]; intros acc; [by rewrite app_nil_r|].
  cbn [length fmap list_fmap concat parse_args]. rewrite <- app_assoc, encode_bulk_app.
  rewrite readLine_crlf; cycle 1.
  { rewrite not_elem_of_cons. split; [done|apply no_newline_FormatInt]. }
  pose proof (FormatInt_not_nil (zlen arg)) as Hne.
  rewrite (proj2 (Z.ltb_ge (zlen (36 :: _)) 2)); cycle 1.
  { destruct (FormatInt (zlen arg)); [done|]. zlen_lia. }
  cbn [drop]. rewrite bool_decide_eq_true_2 by done. simpl negb. simpl orb.
  rewrite drop_0.   rewrite ParseInt_FormatInt by (eapply is_int64_len; [done|unfold MaxBulkLength; lia]).
  rewrite (proj2 (Z.ltb_ge _ 0)), (proj2 (Z.ltb_ge _ _)) by (zlen_pose; lia). simpl orb.
  rewrite ReadFull_app by (unfold crlf; zlen_lia).
  rewrite (go_at_mid arg 13 [10]) by done.
  change (arg ++ crlf) with (arg ++ [13] ++ [10]). rewrite app_assoc, (go_at_mid (arg ++ [13]) 10 []) by zlen_lia.
  rewrite !bool_decide_eq_true_2 by done. simpl andb.
  rewrite <- app_assoc. unfold zlen at 1. rewrite Nat2Z.id, take_app_length, arena_copy_id by done.
  rewrite IH. by rewrite <- app_assoc.
Qed.

Lemma ParseRequest_encoded a argv rest :
  arena_ok a -> sendable argv -> ParseRequest a (encodeCommand argv ++ rest) = POk argv rest.
Proof.
  intros Ha (Hne & Hn & Hf).
  transitivity (parseMultiBulkRequest a (encodeCommand argv ++ rest)); [done|].
  unfold parseMultiBulkRequest. rewrite encodeCommand_app.
  rewrite readLine_crlf; cycle 1.
  { rewrite not_elem_of_cons. split; [done|apply no_newline_FormatInt]. }
  pose proof (FormatInt_not_nil (zlen argv)) as Hne'.
  rewrite (proj2 (Z.ltb_ge (zlen (42 :: _)) 2)); cycle 1.
  { destruct (FormatInt (zlen argv)); [done|]. zlen_lia. }
  rewrite bool_decide_eq_true_2 by done. cbn [drop negb orb]. rewrite drop_0.
  rewrite ParseInt_FormatInt by (eapply is_int64_len; [done|unfold MaxMultiBulkLength; lia]).
  assert (0 < zlen argv) by (destruct argv; [done|zlen_lia]).
  rewrite (proj2 (Z.leb_gt _ 0)), (proj2 (Z.ltb_ge _ _)) by lia. cbn [orb].
  unfold zlen at 1. rewrite Nat2Z.id. by apply (parse_args_encoded a argv rest []).
Qed.

(** ** Progress *)

Lemma ReadBytes_split delim r line rest : ReadBytes delim r = Some (line, rest) -> r = line ++ rest /\ line <> [].
Proof.
  revert line. induction r as [|c r IH]; intros line; simpl; [done|].
  destruct (c =? delim); [intros [= <- <-]; done|].
  destruct (ReadBytes delim r) as [[l' r']|]; [|done]. go_bind. intros [= <- <-].
  destruct (IH l' eq_refl) as [-> _]. done.
Qed.

Lemma readLine_split r line rest :
  readLine r = Some (line, rest) -> exists pre, r = pre ++ rest /\ pre <> [].
Proof.
  unfold readLine. destruct (ReadBytes 10 r) as [[l r']|] eqn:E; [|done]. go_bind.
  apply ReadBytes_split in E. intros H. exists l.
  replace rest with r' by (repeat case_match; congruence). done.
Qed.

Lemma parse_args_suffix n a r acc argv rest :
  parse_args n a r acc = POk argv rest -> rest `suffix_of` r.
Proof.
  revert r acc. induction n as [|n IH]; intros r acc; cbn [parse_args]; [by intros [= _ <-]|].
  destruct (readLine r) as [[l r1]|] eqn:E; [|done]. apply readLine_split in E as (pre & -> & _).
  destruct (_ || _); [done|]. destruct (ParseInt _) as [len|]; [|done]. destruct (_ || _); [done|].
  unfold ReadFull. destruct (_ <=? _); [|done]. destruct (_ && _); [|done].
  intros H%IH. apply suffix_app_r. etrans; [done|]. apply suffix_drop.
Qed.

(** Every request that is read consumes at least one byte. *)
Lemma ParseRequest_progress a r argv rest :
  ParseRequest a r = POk argv rest -> (length rest < length r)%nat.
Proof.
  unfold ParseRequest. destruct r as [|c r0]; [done|]. set (r := c :: r0).
  assert (forall l r1, readLine r = Some (l, r1) -> (length r1 < length r)%nat) as Hl.
  { intros l r1 (pre & -> & Hp)%readLine_split. rewrite length_app. destruct pre; [done|simpl; lia]. }
  destruct (c =? 42).
  - unfold parseMultiBulkRequest. destruct (readLine r) as [[l r1]|] eqn:E; [|done].
    specialize (Hl l r1 eq_refl). destruct (_ || _); [done|]. destruct (ParseInt _); [|done].
    destruct (_ || _); [done|]. intros Hs%parse_args_suffix%suffix_length. lia.
  - unfold parseInlineRequest. destruct (readLine r) as [[l r1]|] eqn:E; [|done].
    intros [= _ <-]. by eapply Hl.
Qed.

(** ** Inline tokens *)

(** No white space starts anywhere in the token. *)
Definition spaceless (l : bytes) : Prop := Forall (fun b => 33 <= b < 128) l.

Lemma fields_loop_token fuel w l cur :
  spaceless w -> (length w <= fuel)%nat ->
  fields_loop fuel (w ++ l) cur = fields_loop (fuel - length w) l (cur ++ w).
Proof.
  intros Hw. revert fuel cur. induction Hw as [|b w Hb Hw IH]; intros fuel cur Hf.
  { simpl. by rewrite Nat.sub_0_r, app_nil_r. }
  simpl in Hf. destruct fuel as [|fuel]; [lia|]. cbn [app fields_loop length].
  rewrite space_width_plain by done. rewrite IH by lia. by rewrite <- app_assoc.
Qed.

(** Tokens separated by single spaces. *)
Fixpoint join_spaces (ws : list bytes) : bytes :=
  match ws with
  | [] => []
  | [w] => w
  | w :: ws => w ++ 32 :: join_spaces ws
  end.

Lemma Fields_join ws : Forall (fun w => w <> [] /\ spaceless w) ws -> Fields (join_spaces ws) = ws.
Proof.
  intros Hws. unfold Fields. assert (length (join_spaces ws) <= length (join_spaces ws))%nat as Hf by lia.
  revert Hf. generalize (length (join_spaces ws)) at 2 3 as fuel. induction Hws as [|w ws [Hne Hw] Hws IH]; intros fuel Hf.
  { by destruct fuel. }
  assert (forall fuel, fields_loop fuel [] w = [w]) as Hend by (intros []; by destruct w).
  destruct ws as [|w2 ws].
  { simpl in *. rewrite <- (app_nil_r w) at 1. rewrite fields_loop_token by done. simpl. apply Hend. }
  change (join_spaces (w :: w2 :: ws)) with (w ++ 32 :: join_spaces (w2 :: ws)) in *.
  rewrite length_app in Hf. cbn [length] in Hf. rewrite fields_loop_token by (done || lia).
  destruct (fuel - length w)%nat as [|f] eqn:E; [lia|]. cbn [fields_loop].
  replace (space_width (32 :: join_spaces (w2 :: ws))) with 1%nat by done. cbn [drop]. rewrite drop_0.
  rewrite IH by lia. by destruct w.
Qed.

(** ** Properties *)

(** Request round trip: a command in the multi-bulk format, whatever bytes its arguments hold,
    is parsed back to the same arguments, and the reader stops at the first byte after it, so
    pipelined commands cannot run into each other. *)
Theorem request_roundtrip (a : arena) argv rest :
  arena_ok a -> sendable argv -> ParseRequest a (encodeCommand argv ++ rest) = POk argv rest.
Proof. apply ParseRequest_encoded. Qed.

Lemma request_roundtrip_witness :
  ParseRequest (Some (fun n => if n <=? 4 then Some (replicate (Z.to_nat n) 0) else None))
    (encodeCommand [str "SET"; [13; 10; 36; 0; 255]; []] ++ str "PING") =
  POk [str "SET"; [13; 10; 36; 0; 255]; []] (str "PING").
Proof.
  apply request_roundtrip.
  - intros alloc n buf [= <-] Hn. destruct (n <=? 4); [|congruence]. intros [= <-].
    unfold zlen. rewrite length_replicate. lia.
  - split; [congruence|]. split; [vm_compute; congruence|].
    repeat constructor; vm_compute; congruence.
Defined.

(** Inline commands: words of printable ASCII separated by single spaces, ended by a line
    feed, are read back as those words. *)
Theorem inline_request_fields ws rest :
  ws <> [] -> Forall (fun w => w <> [] /\ spaceless w) ws ->
  (forall w ws', ws = w :: ws' -> forall b w', w = b :: w' -> b <> 42) ->
  ParseRequest None (join_spaces ws ++ crlf ++ rest) = POk ws rest.
Proof.
  intros Hne Hws Hstar.
  assert (forall l, Forall (fun w => w <> [] /\ spaceless w) l -> 10 ∉ join_spaces l) as Hnl.
  { induction 1 as [|w l [_ Hw] Hl IH]; [by apply not_elem_of_nil|].
    assert (10 ∉ w) by (intros Hin; unfold spaceless in Hw; rewrite Forall_forall in Hw; specialize (Hw _ Hin); lia).
    destruct l; [done|]. change (10 ∉ w ++ 32 :: join_spaces (l :: l0)).
    rewrite elem_of_app, elem_of_cons. naive_solver. }
  transitivity (parseInlineRequest None (join_spaces ws ++ crlf ++ rest)).
  - destruct ws as [|[|b w] ws]; [done|by apply Forall_cons in Hws as [[? _] _]|].
    specialize (Hstar _ _ eq_refl _ _ eq_refl). unfold ParseRequest.
    destruct ws; cbn [join_spaces app]; by rewrite (proj2 (Z.eqb_neq _ _)).
  - unfold parseInlineRequest. rewrite readLine_crlf by auto. rewrite Fields_join by done. simpl.
    f_equal. apply list_fmap_id.
Qed.

Lemma inline_request_fields_witness :
  ParseRequest None (join_spaces [str "SET"; str "k"; str "v"] ++ crlf ++ str "x") =
  POk [str "SET"; str "k"; str "v"] (str "x").
Proof.
  apply inline_request_fields.
  - congruence.
  - repeat constructor; (congruence || (vm_compute; congruence)).
  - intros w ws' [= <- _] b w' Hb. injection Hb as <- _. lia.
Defined.
