(* ===== verification/Aof.v ===== *)
(** * The append-only file ([aof/aof.go], [aof/double_buffer.go], [aof/rewrite.go])

    The file is the bytes on disk; a write to it is a parameter [wr] that returns the new contents
    and perhaps an error ([wr_ok]: a successful one appends).  The double buffer is modelled
    with its two arrays and their swap.  [Load] returns the commands it hands to the command
    table, in order.

    The rewrite is a protocol: the snapshot and the start of buffering are one step (the code holds
    the transaction lock), the drain of the buffered commands is a second one and the
    replacement of the file a third ([rw_begin], [rw_drain], [rw_swap]); [Feed]s of other
    goroutines may fall between them. *)

From S2P Require Import Prelude Strconv Request.

Local Open Scope Z_scope.

Inductive IOError := WriteError.

(** What stops a writer: a write that fails, or a panic. *)
Inductive stop := Failed (err : IOError) | Panicked.

Inductive FsyncPolicy := FsyncNo | FsyncEverySec | FsyncAlways.

#[export] Instance FsyncPolicy_eq_dec : EqDecision FsyncPolicy.
Proof. solve_decision. Defined.

Definition DefaultBufferSize : Z := 4 * 1024 * 1024.

(** ** The double buffer *)

Record DoubleBuffer := mkBuf {
  active : bytes;
  flushing : bytes;
  activeLen : Z;
  maxSize : Z;
  running : bool
}.

Definition NewDoubleBuffer (bufSize : Z) : DoubleBuffer :=
  let bufSize := if bufSize <=? 0 then DefaultBufferSize else bufSize in
  mkBuf (replicate (Z.to_nat bufSize) 0) (replicate (Z.to_nat bufSize) 0) 0 bufSize true.

(** A write to the file: old contents, data; new contents and the error. *)
Definition writer : Type := bytes -> bytes -> bytes * option IOError.

Definition wr_ok (wr : writer) : Prop := forall f d, wr f d = (f ++ d, None).

(** [flushLocked]: swap the buffers, then write the batch.  [None] is a slice panic. *)
Definition flushLocked (wr : writer) (f : bytes) (b : DoubleBuffer)
    : option (option IOError * bytes * DoubleBuffer) :=
  if activeLen b =? 0 then Some (None, f, b)
  else
    dataToFlush ← go_slice (active b) 0 (activeLen b);
    let b := mkBuf (flushing b) (active b) 0 (maxSize b) (running b) in
    if 0 <? zlen dataToFlush then let '(f, err) := wr f dataToFlush in Some (err, f, b)
    else Some (None, f, b).

(** [copy(active[l:l+n], data)]. *)
Definition copy_at (buf : bytes) (l : Z) (data : bytes) : option bytes :=
  _ ← go_slice buf l (l + zlen data);
  Some (take (Z.to_nat l) buf ++ data ++ drop (Z.to_nat (l + zlen data)) buf).

(** [Write]: the error, the bytes accepted, the file and the buffer. *)
Definition Write (wr : writer) (f : bytes) (b : DoubleBuffer) (data : bytes)
    : option (option IOError * Z * bytes * DoubleBuffer) :=
  let n := zlen data in
  if n =? 0 then Some (None, 0, f, b)
  else if maxSize b <? n then
    '(err, f, b) ← flushLocked wr f b;
    match err with
    | Some e => Some (Some e, 0, f, b)
    | None => let '(f, err) := wr f data in Some (err, match err with None => n | _ => 0 end, f, b)
    end
  else
    '(err, f, b) ← (if maxSize b <? activeLen b + n then flushLocked wr f b else Some (None, f, b));
    match err with
    | Some e => Some (Some e, 0, f, b)
    | None =>
      buf ← copy_at (active b) (activeLen b) data;
      Some (None, n, f, mkBuf buf (flushing b) (activeLen b + n) (maxSize b) (running b))
    end.

Definition Close (wr : writer) (f : bytes) (b : DoubleBuffer)
    : option (option IOError * bytes * DoubleBuffer) :=
  if running b then
    flushLocked wr f (mkBuf (active b) (flushing b) (activeLen b) (maxSize b) false)
  else Some (None, f, b).

(** ** The file *)

Record AOF := mkAof {
  a_file : bytes;
  fsyncPolicy : FsyncPolicy;
  currentSize : Z;
  doubleBuf : DoubleBuffer;
  isRewriting : bool;
  rewriteBuf : list bytes
}.

Definition OpenAOF (contents : bytes) (policy : FsyncPolicy) : AOF :=
  mkAof contents policy (zlen contents) (NewDoubleBuffer DefaultBufferSize) false [].

Definition CurrentSize (a : AOF) : Z := currentSize a.

(** [Flush]; [Sync] flushes and then asks the disk, which changes no contents. *)
Definition Flush (wr : writer) (a : AOF) : option (option IOError * AOF) :=
  '(err, f, b) ← flushLocked wr (a_file a) (doubleBuf a);
  Some (err, mkAof f (fsyncPolicy a) (currentSize a) b (isRewriting a) (rewriteBuf a)).

Definition Sync (wr : writer) (a : AOF) : option (option IOError * AOF) := Flush wr a.

Definition Feed (wr : writer) (a : AOF) (argv : list bytes) : option (option IOError * AOF) :=
  match argv with
  | [] => Some (None, a)
  | _ =>
    let encoded := encodeCommand argv in
    '(err, n, f, b) ← Write wr (a_file a) (doubleBuf a) encoded;
    match err with
    | Some e => Some (Some e, mkAof f (fsyncPolicy a) (currentSize a) b (isRewriting a) (rewriteBuf a))
    | None =>
      let a := mkAof f (fsyncPolicy a) (currentSize a + n) b (isRewriting a)
                 (if isRewriting a then rewriteBuf a ++ [encodeCommand argv] else rewriteBuf a) in
      if decide (fsyncPolicy a = FsyncAlways) then
        '(err, a) ← Flush wr a;
        match err with Some e => Some (Some e, a) | None => Sync wr a end
      else Some (None, a)
    end
  end.

(** [Load]: the commands executed, and the error.  [errors.Is] is asked for [io.EOF] and
    [io.ErrUnexpectedEOF]; the parser's own [ErrUnexpectedEOF] is neither. *)
Fixpoint load_loop (fuel : nat) (r : bytes) (done : list (list bytes)) : list (list bytes) * option ReqError :=
  match fuel with
  | O => (done, None)
  | S fuel =>
    match ParseRequest None r with
    | PErr EOF => (done, None)
    | PErr e => (done, Some e)
    | POk [] r => load_loop fuel r done
    | POk argv r => load_loop fuel r (done ++ [argv])
    end
  end.

Definition Load (wr : writer) (a : AOF) : option (list (list bytes) * option ReqError) :=
  '(_, a) ← Flush wr a;
  Some (load_loop (S (length (a_file a))) (a_file a) []).

(** ** Rewrite, step by step *)

(** Where the rewriting goroutine is, with the bytes of its temporary file. *)
Inductive rw_phase :=
  | Idle
  | Snapshotted (tmp : bytes)
  | Drained (tmp : bytes).

(** Under the transaction lock: buffering starts and the snapshot is written. *)
Definition rw_begin (a : AOF) (snap : bytes) : AOF * rw_phase :=
  (mkAof (a_file a) (fsyncPolicy a) (currentSize a) (doubleBuf a) true [], Snapshotted snap).

(** Under [rewriteMu]: the buffered commands are taken and buffering stops; they are then written
    after the snapshot. *)
Definition rw_drain (a : AOF) (tmp : bytes) : AOF * rw_phase :=
  (mkAof (a_file a) (fsyncPolicy a) (currentSize a) (doubleBuf a) false [],
   Drained (tmp ++ concat (rewriteBuf a))).

(** Flush and close of the old file, rename, reopen. *)
Definition rw_swap (wr : writer) (a : AOF) (tmp : bytes) : option (AOF * rw_phase) :=
  '(_, a) ← Flush wr a;
  '(_, f, b) ← Close wr (a_file a) (doubleBuf a);
  Some (mkAof tmp (fsyncPolicy a) (zlen tmp) (NewDoubleBuffer DefaultBufferSize) (isRewriting a) (rewriteBuf a),
        Idle).

(** ** The buffer loses nothing *)

(** What is in the file or on its way to it. *)
Record buf_ok (b : DoubleBuffer) : Prop := {
  bo_active : zlen (active b) = maxSize b;
  bo_flushing : zlen (flushing b) = maxSize b;
  bo_len : 0 <= activeLen b <= maxSize b
}.

Definition pending (b : DoubleBuffer) : bytes := take (Z.to_nat (activeLen b)) (active b).

Lemma pending_empty b : activeLen b = 0 -> pending b = [].
Proof. unfold pending. by intros ->. Qed.

Lemma NewDoubleBuffer_ok n : buf_ok (NewDoubleBuffer n).
Proof.
  unfold NewDoubleBuffer. destruct (Z.leb_spec n 0); split; cbn [active flushing activeLen maxSize];
    unfold zlen; rewrite ?length_replicate; unfold DefaultBufferSize; lia.
Qed.

Section success.
Variable wr : writer.
Hypothesis Hwr : wr_ok wr.

Lemma flushLocked_ok f b :
  buf_ok b -> exists b', flushLocked wr f b = Some (None, f ++ pending b, b') /\ buf_ok b' /\
    activeLen b' = 0 /\ maxSize b' = maxSize b.
Proof using Hwr.
  intros [Ha Hf Hl]. unfold flushLocked, pending. destruct (Z.eqb_spec (activeLen b) 0) as [E|E].
  - exists b. rewrite E. simpl. rewrite app_nil_r. split_and!; done.
  - unfold go_slice. rewrite Z.sub_0_r.
    rewrite (proj2 (Z.leb_le 0 (activeLen b))), (proj2 (Z.leb_le (activeLen b) (zlen _))) by lia. simpl.
    rewrite drop_0. eexists. rewrite zlen_take by lia. rewrite (proj2 (Z.ltb_lt 0 _)) by lia.
    rewrite Hwr. split_and!; [done| |done|done]. split; simpl; lia.
Qed.

Lemma copy_at_ok buf l data :
  0 <= l -> l + zlen data <= zlen buf ->
  exists buf', copy_at buf l data = Some buf' /\ zlen buf' = zlen buf /\
    take (Z.to_nat (l + zlen data)) buf' = take (Z.to_nat l) buf ++ data.
Proof using Type.
  intros Hl Hb. unfold copy_at, go_slice. zlen_pose.
  rewrite !(proj2 (Z.leb_le _ _)) by lia. simpl. eexists. split; [done|].
  unfold zlen in *. split.
  - rewrite !length_app, length_take, length_drop. lia.
  - rewrite app_assoc, take_app_length'; [done|]. rewrite length_app, length_take. lia.
Qed.

Lemma Write_ok f b data :
  buf_ok b -> exists f' b', Write wr f b data = Some (None, zlen data, f', b') /\ buf_ok b' /\
    f' ++ pending b' = f ++ pending b ++ data.
Proof using Hwr.
  intros Hb. unfold Write. destruct (Z.eqb_spec (zlen data) 0) as [E|E].
  { exists f, b. rewrite E. destruct data; [|zlen_lia]. by rewrite app_nil_r. }
  destruct (Z.ltb_spec (maxSize b) (zlen data)).
  { destruct (flushLocked_ok f b Hb) as (b' & -> & Hb' & H0 & _). go_bind. rewrite Hwr.
    eexists _, b'. split_and!; [done|done|]. rewrite (pending_empty b') by done.
    by rewrite app_nil_r, app_assoc. }
  assert (exists f1 b1, (if maxSize b <? activeLen b + zlen data then flushLocked wr f b else Some (None, f, b))
    = Some (None, f1, b1) /\ buf_ok b1 /\ f1 ++ pending b1 = f ++ pending b /\
    activeLen b1 + zlen data <= maxSize b1) as (f1 & b1 & -> & Hb1 & Hp & Hfit).
  { destruct (Z.ltb_spec (maxSize b) (activeLen b + zlen data)).
    - destruct (flushLocked_ok f b Hb) as (b' & -> & Hb' & H0' & Hm). eexists _, b'.
      split_and!; [done|done| |lia]. rewrite (pending_empty b') by done. by rewrite app_nil_r.
    - exists f, b. done. }
  go_bind. destruct Hb1 as [Ha1 Hf1 Hl1].
  destruct (copy_at_ok (active b1) (activeLen b1) data) as (buf & -> & Hlen & Htake); [lia|lia|]. go_bind.
  eexists _, _. split; [done|]. zlen_pose. split.
  - split; simpl; lia.
  - unfold pending at 1. simpl. rewrite Htake, app_assoc. change (take _ (active b1)) with (pending b1).
    by rewrite Hp, <- app_assoc.
Qed.

(** The log: the file and what is pending. *)
Definition log_of (a : AOF) : bytes := a_file a ++ pending (doubleBuf a).

Lemma Flush_ok a :
  buf_ok (doubleBuf a) -> exists a', Flush wr a = Some (None, a') /\ buf_ok (doubleBuf a') /\
    a_file a' = log_of a /\ log_of a' = log_of a /\
    isRewriting a' = isRewriting a /\ rewriteBuf a' = rewriteBuf a.
Proof using Hwr.
  intros Hb. unfold Flush. destruct (flushLocked_ok (a_file a) (doubleBuf a) Hb) as (b' & -> & Hb' & H0 & _).
  go_bind. eexists. split; [done|]. unfold log_of. simpl. split_and!; try done.
  rewrite (pending_empty b') by done. by rewrite app_nil_r.
Qed.

Lemma Feed_ok a argv :
  buf_ok (doubleBuf a) -> argv <> [] ->
  exists a', Feed wr a argv = Some (None, a') /\ buf_ok (doubleBuf a') /\
    log_of a' = log_of a ++ encodeCommand argv /\ isRewriting a' = isRewriting a /\
    rewriteBuf a' = (if isRewriting a then rewriteBuf a ++ [encodeCommand argv] else rewriteBuf a).
Proof using Hwr.
  intros Hb Hne. unfold Feed. destruct argv as [|x argv]; [done|].
  destruct (Write_ok (a_file a) (doubleBuf a) (encodeCommand (x :: argv)) Hb) as (f' & b' & -> & Hb' & Hp).
  go_bind. rewrite app_assoc in Hp. set (a1 := mkAof f' _ _ _ _ _).
  assert (log_of a1 = log_of a ++ encodeCommand (x :: argv)) as Hlog by done.
  destruct (decide _); [|by exists a1].
  destruct (Flush_ok a1 Hb') as (a2 & -> & Hb2 & _ & Hl2 & Hi2 & Hr2). go_bind.
  unfold Sync. destruct (Flush_ok a2 Hb2) as (a3 & -> & Hb3 & _ & Hl3 & Hi3 & Hr3).
  exists a3. split_and!; [done|done|by rewrite Hl3, Hl2|by rewrite Hi3, Hi2|by rewrite Hr3, Hr2].
Qed.

End success.

(** ** Loading *)

Definition log_bytes (cmds : list (list bytes)) : bytes := concat (encodeCommand <$> cmds).

Lemma load_loop_log cmds rest fuel acc :
  Forall sendable cmds -> (length (log_bytes cmds ++ rest) < fuel)%nat ->
  exists fuel', (length rest < fuel')%nat /\
    load_loop fuel (log_bytes cmds ++ rest) acc = load_loop fuel' rest (acc ++ cmds).
Proof.
  intros Hc. revert fuel acc. induction Hc as [|argv cmds Hs Hc IH]; intros fuel acc Hf.
  { exists fuel. by rewrite app_nil_r. }
  unfold log_bytes in *. cbn [fmap list_fmap concat] in *. rewrite <- app_assoc in *.
  destruct fuel as [|fuel]; [lia|]. cbn [load_loop].
  pose proof (ParseRequest_encoded None argv (concat (encodeCommand <$> cmds) ++ rest) ltac:(done) Hs) as E.
  rewrite E. apply ParseRequest_progress in E.
  destruct (IH fuel (acc ++ [argv]) ltac:(lia)) as (fuel' & Hf' & E').
  exists fuel'. split; [done|]. rewrite <- app_assoc in E'. simpl in E'.
  rewrite <- E'. destruct argv; [|done]. by destruct Hs as [? _].
Qed.

Lemma ReadBytes_none delim r : delim ∉ r -> ReadBytes delim r = None.
Proof.
  induction r as [|c r IH]; intros H; [done|]. rewrite not_elem_of_cons in H. simpl.
  rewrite (proj2 (Z.eqb_neq _ _)) by naive_solver. by rewrite IH by naive_solver.
Qed.

(** A log cut in the middle of a line ends the load quietly. *)
Lemma ParseRequest_cut_line r : 10 ∉ r -> ParseRequest None r = PErr EOF.
Proof.
  intros H. unfold ParseRequest. destruct r as [|c r]; [done|].
  unfold parseMultiBulkRequest, parseInlineRequest, readLine. rewrite ReadBytes_none by done.
  by destruct (c =? 42).
Qed.

(** A log cut in the middle of an argument does not. *)
Definition cut_command (arg part : bytes) : bytes :=
  42 :: FormatInt 1 ++ crlf ++ 36 :: FormatInt (zlen arg) ++ crlf ++ part.

Lemma ParseRequest_cut_argument arg part :
  zlen arg <= MaxBulkLength -> zlen part < zlen arg + 2 ->
  ParseRequest None (cut_command arg part) = PErr ErrUnexpectedEOF.
Proof.
  intros Hl Hp. transitivity (parseMultiBulkRequest None (cut_command arg part)); [done|].
  unfold parseMultiBulkRequest, cut_command.
  change (42 :: FormatInt 1 ++ crlf ++ 36 :: FormatInt (zlen arg) ++ crlf ++ part)
    with ((42 :: FormatInt 1) ++ crlf ++ (36 :: FormatInt (zlen arg)) ++ crlf ++ part).
  rewrite readLine_crlf by (rewrite not_elem_of_cons; split; [done|apply no_newline_FormatInt]).
  change (ParseInt (drop 1 (42 :: FormatInt 1))) with (Some 1).
  change ((zlen (42 :: FormatInt 1) <? 2) || negb (bool_decide (go_at (42 :: FormatInt 1) 0 = Some 42))) with false.
  cbv iota. change ((1 <=? 0) || (MaxMultiBulkLength <? 1)) with false. cbv iota.
  change (Z.to_nat 1) with 1%nat. cbn [parse_args].
  rewrite readLine_crlf by (rewrite not_elem_of_cons; split; [done|apply no_newline_FormatInt]).
  pose proof (FormatInt_not_nil (zlen arg)).
  rewrite (proj2 (Z.ltb_ge (zlen (36 :: _)) 2)); cycle 1.
  { destruct (FormatInt (zlen arg)); [done|]. zlen_lia. }
  rewrite bool_decide_eq_true_2 by done. cbn [drop negb orb]. rewrite drop_0.
  rewrite ParseInt_FormatInt by (eapply is_int64_len; [done|unfold MaxBulkLength; lia]).
  rewrite (proj2 (Z.ltb_ge _ 0)), (proj2 (Z.ltb_ge _ _)) by (zlen_pose; lia). simpl orb.
  unfold ReadFull. by rewrite (proj2 (Z.leb_gt _ _)) by lia.
Qed.

Lemma Load_file wr a a' :
  Flush wr a = Some (None, a') -> Load wr a = Some (load_loop (S (length (a_file a'))) (a_file a') []).
Proof. intros E. unfold Load. by rewrite E. Qed.

(** Feeding a list of commands. *)
Fixpoint feed_all (wr : writer) (a : AOF) (cmds : list (list bytes)) : option AOF :=
  match cmds with
  | [] => Some a
  | argv :: cmds => '(err, a) ← Feed wr a argv; match err with None => feed_all wr a cmds | Some _ => None end
  end.

Lemma feed_all_ok wr a cmds :
  wr_ok wr -> buf_ok (doubleBuf a) -> Forall sendable cmds ->
  exists a', feed_all wr a cmds = Some a' /\ buf_ok (doubleBuf a') /\ log_of a' = log_of a ++ log_bytes cmds /\
    isRewriting a' = isRewriting a /\
    rewriteBuf a' = (if isRewriting a then rewriteBuf a ++ (encodeCommand <$> cmds) else rewriteBuf a).
Proof.
  intros Hwr Hb Hc. revert a Hb. induction Hc as [|argv cmds [Hne _] Hc IH]; intros a Hb.
  { exists a. unfold log_bytes. simpl. rewrite !app_nil_r. split_and!; try done. by destruct (isRewriting a). }
  destruct (Feed_ok wr Hwr a argv Hb Hne) as (a1 & E1 & Hb1 & Hl1 & Hi1 & Hr1).
  cbn [feed_all]. rewrite E1. go_bind. destruct (IH a1 Hb1) as (a2 & -> & Hb2 & Hl2 & Hi2 & Hr2).
  exists a2. split_and!; [done|done| |congruence|].
  - rewrite Hl2, Hl1. unfold log_bytes. simpl. by rewrite <- app_assoc.
  - rewrite Hr2, Hi1, Hr1. destruct (isRewriting a); [|done]. simpl. by rewrite <- app_assoc.
Qed.

Lemma Load_log wr a cmds rest :
  wr_ok wr -> buf_ok (doubleBuf a) -> Forall sendable cmds -> log_of a = log_bytes cmds ++ rest ->
  exists fuel, (length rest < fuel)%nat /\ Load wr a = Some (load_loop fuel rest cmds).
Proof.
  intros Hwr Hb Hc Hl. destruct (Flush_ok wr Hwr a Hb) as (a' & E & _ & Hf & _).
  rewrite (Load_file wr a a' E), Hf, Hl.
  destruct (load_loop_log cmds rest (S (length (log_bytes cmds ++ rest))) [] Hc) as (fuel & Hfuel & ->); [lia|].
  by exists fuel.
Qed.

Lemma rw_swap_ok wr a tmp :
  wr_ok wr -> buf_ok (doubleBuf a) ->
  exists a', rw_swap wr a tmp = Some (a', Idle) /\ buf_ok (doubleBuf a') /\ log_of a' = tmp /\
    rewriteBuf a' = rewriteBuf a.
Proof.
  intros Hwr Hb. unfold rw_swap. destruct (Flush_ok wr Hwr a Hb) as (a1 & -> & Hb1 & _ & _ & _ & Hr). go_bind.
  assert (exists f b, Close wr (a_file a1) (doubleBuf a1) = Some (None, f, b)) as (f & b & ->).
  { unfold Close. destruct (running _); [|eauto].
    destruct (flushLocked_ok wr Hwr (a_file a1)
      (mkBuf (active (doubleBuf a1)) (flushing (doubleBuf a1)) (activeLen (doubleBuf a1)) (maxSize (doubleBuf a1)) false))
      as (b' & -> & _); [by destruct Hb1|eauto]. }
  go_bind. eexists. split_and!; [done|apply NewDoubleBuffer_ok| |done].
  unfold log_of. cbn [a_file doubleBuf]. by rewrite (pending_empty (NewDoubleBuffer _)), app_nil_r.
Qed.

(** ** Properties *)

(** C28. Durability of the log: with a disk that takes every write, a log opened on earlier commands
    and fed further ones replays exactly all of them, in order and without error, whatever the
    sync policy and however the writes were batched by the double buffer. *)
Theorem aof_replays_what_was_fed wr policy old new :
  wr_ok wr -> Forall sendable old -> Forall sendable new ->
  exists a, feed_all wr (OpenAOF (log_bytes old) policy) new = Some a /\
    Load wr a = Some (old ++ new, None).
Proof.
  intros Hwr Ho Hn.
  destruct (feed_all_ok wr (OpenAOF (log_bytes old) policy) new Hwr (NewDoubleBuffer_ok _) Hn)
    as (a & E & Hb & Hl & _).
  exists a. split; [done|].
  destruct (Load_log wr a (old ++ new) [] Hwr Hb) as (fuel & Hf & ->).
  - by apply Forall_app.
  - rewrite Hl. unfold log_of, log_bytes. rewrite fmap_app, concat_app.
    unfold OpenAOF. cbn [a_file doubleBuf].
    by rewrite (pending_empty (NewDoubleBuffer DefaultBufferSize)), !app_nil_r by done.
  - destruct fuel; [simpl in Hf; lia|]. done.
Qed.

(** A rewrite with no command fed between its drain and its swap loses nothing: the new log is
    the snapshot, then the commands fed since the snapshot, then those fed since the swap. *)
Theorem rewrite_keeps_concurrent_commands wr a snap during after :
  wr_ok wr -> buf_ok (doubleBuf a) -> Forall sendable during -> Forall sendable after ->
  exists a1 a2 a3,
    feed_all wr (rw_begin a snap).1 during = Some a1 /\
    rw_swap wr (rw_drain a1 snap).1 (snap ++ concat (rewriteBuf a1)) = Some (a2, Idle) /\
    feed_all wr a2 after = Some a3 /\
    log_of a3 = snap ++ log_bytes during ++ log_bytes after.
Proof.
  intros Hwr Hb Hd Ha.
  destruct (feed_all_ok wr (rw_begin a snap).1 during Hwr Hb Hd) as (a1 & E1 & Hb1 & Hl1 & Hi1 & Hr1).
  destruct (rw_swap_ok wr (rw_drain a1 snap).1 (snap ++ concat (rewriteBuf a1)) Hwr Hb1) as (a2 & E2 & Hb2 & Hl2 & _).
  destruct (feed_all_ok wr a2 after Hwr Hb2 Ha) as (a3 & E3 & _ & Hl3 & _).
  exists a1, a2, a3. split_and!; [done..|]. rewrite Hl3, Hl2, Hr1. simpl. by rewrite <- app_assoc.
Qed.

(** A disk that takes every write, and two commands. *)
Definition ex_wr : writer := fun f d => (f ++ d, None).
Definition ex_cmds : list (list bytes) := [[str "SET"; str "k"; [10; 13; 0]]; [str "INCR"; str "n"]].

Lemma ex_cmds_sendable : Forall sendable ex_cmds.
Proof.
  repeat constructor; try congruence; vm_compute; congruence.
Qed.

Lemma aof_replays_what_was_fed_witness :
  exists a, feed_all ex_wr (OpenAOF (log_bytes ex_cmds) FsyncAlways) ex_cmds = Some a /\
    Load ex_wr a = Some (ex_cmds ++ ex_cmds, None).
Proof.
  apply (aof_replays_what_was_fed ex_wr FsyncAlways ex_cmds ex_cmds); [|exact ex_cmds_sendable..].
  intros f d. reflexivity.
Defined.

Lemma rewrite_keeps_concurrent_commands_witness :
  exists a1 a2 a3,
    feed_all ex_wr (rw_begin (OpenAOF [] FsyncNo) (str "snap")).1 ex_cmds = Some a1 /\
    rw_swap ex_wr (rw_drain a1 (str "snap")).1 (str "snap" ++ concat (rewriteBuf a1)) = Some (a2, Idle) /\
    feed_all ex_wr a2 ex_cmds = Some a3 /\
    log_of a3 = str "snap" ++ log_bytes ex_cmds ++ log_bytes ex_cmds.
Proof.
  apply (rewrite_keeps_concurrent_commands ex_wr (OpenAOF [] FsyncNo) (str "snap") ex_cmds ex_cmds);
    [|apply NewDoubleBuffer_ok|exact ex_cmds_sendable..].
  intros f d. reflexivity.
Defined.

(** A defect of the rewrite: a command fed after the drain and before the swap is acknowledged
    but goes to the file that is about to be replaced; the new log does not have it. *)
Theorem rewrite_window_loses_command wr a tmp argv :
  wr_ok wr -> buf_ok (doubleBuf a) -> isRewriting a = false -> argv <> [] ->
  exists a1 a2, Feed wr a argv = Some (None, a1) /\ rw_swap wr a1 tmp = Some (a2, Idle) /\
    log_of a2 = tmp /\ rewriteBuf a2 = rewriteBuf a.
Proof.
  intros Hwr Hb Hi Hne. destruct (Feed_ok wr Hwr a argv Hb Hne) as (a1 & E1 & Hb1 & _ & Hi1 & Hr1).
  destruct (rw_swap_ok wr a1 tmp Hwr Hb1) as (a2 & E2 & _ & Hl2 & Hr2).
  exists a1, a2. split_and!; [done..|]. by rewrite Hr2, Hr1, Hi.
Qed.

Lemma rewrite_window_loses_command_witness :
  exists a1 a2, Feed ex_wr (OpenAOF [] FsyncNo) [str "INCR"; str "n"] = Some (None, a1) /\
    rw_swap ex_wr a1 (str "snap") = Some (a2, Idle) /\ log_of a2 = str "snap" /\
    rewriteBuf a2 = rewriteBuf (OpenAOF [] FsyncNo).
Proof.
  apply (rewrite_window_loses_command ex_wr (OpenAOF [] FsyncNo) (str "snap") [str "INCR"; str "n"]).
  - intros f d. reflexivity.
  - apply NewDoubleBuffer_ok.
  - reflexivity.
  - congruence.
Defined.

(** A defect of [Load]: a log whose last command was cut by a crash is accepted when the cut is
    inside a length line, but rejected with an error when it is inside an argument, because the
    parser reports its own [ErrUnexpectedEOF] and [Load] tests for [io.ErrUnexpectedEOF]. *)
Theorem load_rejects_truncated_argument wr policy cmds arg part cut :
  wr_ok wr -> Forall sendable cmds -> zlen arg <= MaxBulkLength -> zlen part < zlen arg + 2 -> 10 ∉ cut ->
  Load wr (OpenAOF (log_bytes cmds ++ cut) policy) = Some (cmds, None) /\
  Load wr (OpenAOF (log_bytes cmds ++ cut_command arg part) policy) = Some (cmds, Some ErrUnexpectedEOF).
Proof.
  intros Hwr Hc Hl Hp Hcut.
  assert (forall rest, log_of (OpenAOF (log_bytes cmds ++ rest) policy) = log_bytes cmds ++ rest) as Hlog.
  { intros rest. unfold log_of, OpenAOF. cbn [a_file doubleBuf].
    by rewrite (pending_empty (NewDoubleBuffer _)), app_nil_r. }
  split.
  - destruct (Load_log wr (OpenAOF (log_bytes cmds ++ cut) policy) cmds cut Hwr (NewDoubleBuffer_ok _) Hc (Hlog _))
      as (fuel & Hf & ->). destruct fuel; [lia|]. cbn [load_loop]. by rewrite ParseRequest_cut_line.
  - destruct (Load_log wr (OpenAOF (log_bytes cmds ++ cut_command arg part) policy) cmds _ Hwr
      (NewDoubleBuffer_ok _) Hc (Hlog _)) as (fuel & Hf & ->).
    destruct fuel; [lia|]. cbn [load_loop]. by rewrite ParseRequest_cut_argument.
Qed.

Lemma load_rejects_truncated_argument_witness :
  Load ex_wr (OpenAOF (log_bytes ex_cmds ++ str "*2") FsyncNo) = Some (ex_cmds, None) /\
  Load ex_wr (OpenAOF (log_bytes ex_cmds ++ cut_command (str "PING") (str "PI")) FsyncNo) =
    Some (ex_cmds, Some ErrUnexpectedEOF).
Proof.
  apply (load_rejects_truncated_argument ex_wr FsyncNo ex_cmds (str "PING") (str "PI") (str "*2")).
  - intros f d. reflexivity.
  - exact ex_cmds_sendable.
  - vm_compute. congruence.
  - vm_compute. reflexivity.
  - intros H. apply list_elem_of_In in H. vm_compute in H. destruct H as [H|[H|H]]; [congruence..|exact H].
Defined.
