(* ===== verification/Quicklist.v ===== *)
(** * The quicklist ([datastruct/quicklist/quicklist.go])

    An unrolled doubly-linked list.  The nodes live in a heap ([heap], allocated at [fresh]) and
    point to each other with [prev] and [next]; a nil dereference, or an index out of a chunk,
    is [None].  The walks of [LRange], [LIndex] and [LSet] run on fuel [nodeCount], one per node,
    which the invariant makes enough.

    The invariant [chain] describes the two linked chains of pointers; the refinement
    ([quicklist_history]) is to a plain list of byte strings. *)

From S2P Require Import Prelude.

Local Open Scope Z_scope.

Definition DefaultNodeCapacity : Z := 128.

Record QuicklistNode := mkQNode {
  prev : option nat;
  next : option nat;
  items : list bytes
}.

Record Quicklist := mkQl {
  heap : gmap nat QuicklistNode;
  fresh : nat;
  head : option nat;
  tail : option nat;
  count : Z;
  nodeCount : Z
}.

Definition NewQuicklist : Quicklist := mkQl ∅ 0 None None 0 0.

Definition Len (ql : Quicklist) : Z := count ql.

(** ** Pushes *)

(** The node a non-nil pointer names. *)
Definition deref (ql : Quicklist) (p : option nat) : option (nat * QuicklistNode) :=
  x ← p; n ← heap ql !! x; Some (x, n).

Definition first_node (ql : Quicklist) (val : bytes) : Quicklist :=
  let x := fresh ql in
  mkQl (<[x := mkQNode None None [val]]> (heap ql)) (S x) (Some x) (Some x) 1 1.

Definition LPush (ql : Quicklist) (val : bytes) : option Quicklist :=
  match head ql with
  | None => Some (first_node ql val)
  | Some _ =>
    '(x, n) ← deref ql (head ql);
    if zlen (items n) <? DefaultNodeCapacity then
      Some (mkQl (<[x := mkQNode (prev n) (next n) (val :: items n)]> (heap ql)) (fresh ql) (head ql) (tail ql)
              (count ql + 1) (nodeCount ql))
    else
      let y := fresh ql in
      let h := <[y := mkQNode None (Some x) [val]]> (heap ql) in
      let h := <[x := mkQNode (Some y) (next n) (items n)]> h in
      Some (mkQl h (S y) (Some y) (tail ql) (count ql + 1) (nodeCount ql + 1))
  end.

Definition RPush (ql : Quicklist) (val : bytes) : option Quicklist :=
  match tail ql with
  | None => Some (first_node ql val)
  | Some _ =>
    '(x, n) ← deref ql (tail ql);
    if zlen (items n) <? DefaultNodeCapacity then
      Some (mkQl (<[x := mkQNode (prev n) (next n) (items n ++ [val])]> (heap ql)) (fresh ql) (head ql) (tail ql)
              (count ql + 1) (nodeCount ql))
    else
      let y := fresh ql in
      let h := <[y := mkQNode (Some x) None [val]]> (heap ql) in
      let h := <[x := mkQNode (prev n) (Some y) (items n)]> h in
      Some (mkQl h (S y) (head ql) (Some y) (count ql + 1) (nodeCount ql + 1))
  end.

(** ** Pops *)

Definition LPop (ql : Quicklist) : option (option bytes * Quicklist) :=
  if count ql =? 0 then Some (None, ql)
  else
    match head ql with
    | None => Some (None, ql)
    | Some _ =>
      '(x, n) ← deref ql (head ql);
      val ← go_at (items n) 0;
      rest ← go_slice (items n) 1 (zlen (items n));
      let h := <[x := mkQNode (prev n) (next n) rest]> (heap ql) in
      if zlen rest =? 0 then
        match next n with
        | Some y =>
          m ← h !! y;
          Some (Some val, mkQl (<[y := mkQNode None (next m) (items m)]> h) (fresh ql) (Some y) (tail ql)
                  (count ql - 1) (nodeCount ql - 1))
        | None => Some (Some val, mkQl h (fresh ql) None None (count ql - 1) (nodeCount ql - 1))
        end
      else Some (Some val, mkQl h (fresh ql) (head ql) (tail ql) (count ql - 1) (nodeCount ql))
    end.

Definition RPop (ql : Quicklist) : option (option bytes * Quicklist) :=
  if count ql =? 0 then Some (None, ql)
  else
    match tail ql with
    | None => Some (None, ql)
    | Some _ =>
      '(x, n) ← deref ql (tail ql);
      let lastIdx := zlen (items n) - 1 in
      val ← go_at (items n) lastIdx;
      rest ← go_slice (items n) 0 lastIdx;
      let h := <[x := mkQNode (prev n) (next n) rest]> (heap ql) in
      if zlen rest =? 0 then
        match prev n with
        | Some y =>
          m ← h !! y;
          Some (Some val, mkQl (<[y := mkQNode (prev m) None (items m)]> h) (fresh ql) (head ql) (Some y)
                  (count ql - 1) (nodeCount ql - 1))
        | None => Some (Some val, mkQl h (fresh ql) None None (count ql - 1) (nodeCount ql - 1))
        end
      else Some (Some val, mkQl h (fresh ql) (head ql) (tail ql) (count ql - 1) (nodeCount ql))
    end.

(** ** Walks *)

Definition normalizeIndex (ql : Quicklist) (idx : Z) : Z := if idx <? 0 then count ql + idx else idx.

(** The items of a node between two positions, both inside it. *)
Fixpoint collect (l : list bytes) (n : nat) (i : Z) : option (list bytes) :=
  match n with
  | O => Some []
  | S n => x ← go_at l i; rest ← collect l n (i + 1); Some (x :: rest)
  end.

Fixpoint range_loop (fuel : nat) (ql : Quicklist) (start stop currIdx : Z) (currNode : option nat)
    (result : list bytes) : option (list bytes) :=
  match currNode with
  | None => Some result
  | Some x =>
    match fuel with
    | O => None
    | S fuel =>
      n ← heap ql !! x;
      let nodeLen := zlen (items n) in
      let nodeEnd := currIdx + nodeLen - 1 in
      result ←
        (if start <=? nodeEnd then
           let s := if currIdx <? start then start - currIdx else 0 in
           let e := if stop <? nodeEnd then stop - currIdx else nodeLen - 1 in
           part ← collect (items n) (Z.to_nat (e - s + 1)) s; Some (result ++ part)
         else Some result);
      if stop <=? nodeEnd then Some result
      else range_loop fuel ql start stop (currIdx + nodeLen) (next n) result
    end
  end.

Definition LRange (ql : Quicklist) (start stop : Z) : option (list bytes) :=
  if count ql =? 0 then Some []
  else
    let start := normalizeIndex ql start in
    let stop := normalizeIndex ql stop in
    let start := if start <? 0 then 0 else start in
    let stop := if count ql <=? stop then count ql - 1 else stop in
    if (stop <? start) || (count ql <=? start) then Some []
    else range_loop (Z.to_nat (nodeCount ql)) ql start stop 0 (head ql) [].

(** The walk of [LIndex] and [LSet] to the node that holds position [idx], with the offset. *)
Fixpoint find_loop (fuel : nat) (ql : Quicklist) (idx currIdx : Z) (currNode : option nat)
    : option (option (nat * QuicklistNode * Z)) :=
  match currNode with
  | None => Some None
  | Some x =>
    match fuel with
    | O => None
    | S fuel =>
      n ← heap ql !! x;
      let nodeLen := zlen (items n) in
      if idx <? currIdx + nodeLen then Some (Some (x, n, idx - currIdx))
      else find_loop fuel ql idx (currIdx + nodeLen) (next n)
    end
  end.

Definition LIndex (ql : Quicklist) (idx : Z) : option (option bytes) :=
  if count ql =? 0 then Some None
  else
    let idx := normalizeIndex ql idx in
    if (idx <? 0) || (count ql <=? idx) then Some None
    else
      r ← find_loop (Z.to_nat (nodeCount ql)) ql idx 0 (head ql);
      match r with
      | None => Some None
      | Some (_, n, off) => v ← go_at (items n) off; Some (Some v)
      end.

Definition LSet (ql : Quicklist) (idx : Z) (val : bytes) : option (bool * Quicklist) :=
  if count ql =? 0 then Some (false, ql)
  else
    let idx := normalizeIndex ql idx in
    if (idx <? 0) || (count ql <=? idx) then Some (false, ql)
    else
      r ← find_loop (Z.to_nat (nodeCount ql)) ql idx 0 (head ql);
      match r with
      | None => Some (false, ql)
      | Some (x, n, off) =>
        l ← go_set (items n) off val;
        Some (true, mkQl (<[x := mkQNode (prev n) (next n) l]> (heap ql)) (fresh ql) (head ql) (tail ql)
                      (count ql) (nodeCount ql))
      end.

(** ** The invariant *)

(** A chain of nodes: locations with their chunks, entered from [p] and left towards [q]. *)
Abbreviation chunks := (list (nat * list bytes)) (only parsing).

Definition first_loc (l : chunks) (q : option nat) : option nat :=
  match l with [] => q | (x, _) :: _ => Some x end.

Definition last_loc (p : option nat) (l : chunks) : option nat :=
  match last l with None => p | Some (x, _) => Some x end.

Fixpoint chain (h : gmap nat QuicklistNode) (p : option nat) (l : chunks) (q : option nat) : Prop :=
  match l with
  | [] => True
  | (x, c) :: l => h !! x = Some (mkQNode p (first_loc l q) c) /\ chain h (Some x) l q
  end.

Definition contents (l : chunks) : list bytes := concat (snd <$> l).

Record repr (ql : Quicklist) (l : chunks) : Prop := {
  r_chain : chain (heap ql) None l None;
  r_head : head ql = first_loc l None;
  r_tail : tail ql = last_loc None l;
  r_nodup : NoDup (fst <$> l);
  r_fresh : Forall (fun x => (x < fresh ql)%nat) (fst <$> l);
  r_full : Forall (fun c => 1 <= zlen c <= DefaultNodeCapacity) (snd <$> l);
  r_count : count ql = zlen (contents l);
  r_nodes : nodeCount ql = zlen l
}.

Lemma first_loc_app l1 l2 q : first_loc (l1 ++ l2) q = first_loc l1 (first_loc l2 q).
Proof. by destruct l1 as [|[]]. Qed.

Lemma last_loc_snoc p l x c : last_loc p (l ++ [(x, c)]) = Some x.
Proof. unfold last_loc. by rewrite last_snoc. Qed.

Lemma last_loc_cons p x c l : last_loc p ((x, c) :: l) = last_loc (Some x) l.
Proof. unfold last_loc. rewrite last_cons. by destruct (last l). Qed.

Lemma chain_app h p l1 l2 q :
  chain h p (l1 ++ l2) q <-> chain h p l1 (first_loc l2 q) /\ chain h (last_loc p l1) l2 q.
Proof.
  revert p. induction l1 as [|[x c] l1 IH]; intros p; simpl; [naive_solver|].
  rewrite last_loc_cons, IH, first_loc_app. naive_solver.
Qed.

(** A store outside a chain does not touch it. *)
Lemma chain_frame h p l q x n : x ∉ (fst <$> l) -> chain h p l q -> chain (<[x := n]> h) p l q.
Proof.
  revert p. induction l as [|[y c] l IH]; intros p; simpl; [done|].
  rewrite not_elem_of_cons. intros [Hne Hx] [Hy Hc]. rewrite lookup_insert_ne by done. auto.
Qed.

Lemma contents_cons x c l : contents ((x, c) :: l) = c ++ contents l.
Proof. done. Qed.

Lemma contents_snoc l x c : contents (l ++ [(x, c)]) = contents l ++ c.
Proof. unfold contents. rewrite fmap_app, concat_app. simpl. by rewrite app_nil_r. Qed.

Lemma fresh_notin (k : nat) (l : chunks) : Forall (fun x => (x < k)%nat) (fst <$> l) -> k ∉ (fst <$> l).
Proof. intros H Hin. rewrite Forall_forall in H. specialize (H k Hin). lia. Qed.

Lemma fresh_S (k : nat) (l : list nat) :
  Forall (fun x => (x < k)%nat) l -> Forall (fun x => (x < S k)%nat) l.
Proof. intros H. eapply Forall_impl; [done|]. simpl. lia. Qed.

(** ** The operations preserve it *)

Lemma repr_new : repr NewQuicklist [].
Proof. split; try done; constructor. Qed.

Lemma repr_first_node ql v : repr ql [] -> repr (first_node ql v) [(fresh ql, [v])].
Proof.
  intros [_ Hh Ht _ _ _ _ _]. split; simpl; try done.
  - by rewrite lookup_insert_eq.
  - apply NoDup_singleton.
  - constructor; [lia|constructor].
  - repeat constructor; unfold DefaultNodeCapacity; zlen_lia.
Qed.

Lemma LPush_repr ql l v :
  repr ql l -> exists ql' l', LPush ql v = Some ql' /\ repr ql' l' /\ contents l' = v :: contents l.
Proof.
  intros Hr. pose proof Hr as [Hc Hh Ht Hnd Hfr Hfu Hn Hk]. unfold LPush. rewrite Hh.
  destruct l as [|[x c] l]; simpl first_loc; cbv iota.
  { eexists _, _. split; [done|]. split; [by apply repr_first_node|done]. }
  destruct Hc as [Hx Hc]. unfold deref. simpl. rewrite Hx. go_bind. cbn [items prev next].
  cbn [fmap list_fmap fst snd] in Hnd, Hfr, Hfu.
  apply NoDup_cons in Hnd as [Hxl Hnd]. apply Forall_cons in Hfr as [Hxf Hfr]. apply Forall_cons in Hfu as [Hcf Hfu].
  destruct (Z.ltb_spec (zlen c) DefaultNodeCapacity).
  - eexists _, ((x, v :: c) :: l). split; [done|]. split; [|done].
    split; cbn [heap head tail count nodeCount fresh fmap list_fmap fst snd].
    + split; [by rewrite lookup_insert_eq|by apply chain_frame].
    + done.
    + rewrite Ht, !last_loc_cons. done.
    + by apply NoDup_cons.
    + by constructor.
    + constructor; [zlen_lia|done].
    + rewrite Hn, !contents_cons. zlen_lia.
    + rewrite Hk. zlen_lia.
  - assert (fresh ql ∉ (fst <$> l)) by (by apply fresh_notin).
    eexists _, ((fresh ql, [v]) :: (x, c) :: l). split; [done|]. split; [|done].
    split; cbn [heap head tail count nodeCount fresh fmap list_fmap fst snd].
    + split; [rewrite lookup_insert_ne, lookup_insert_eq by lia; done|].
      split; [by rewrite lookup_insert_eq|]. apply chain_frame; [done|]. by apply chain_frame.
    + done.
    + rewrite Ht, !last_loc_cons. done.
    + apply NoDup_cons. split; [|by apply NoDup_cons]. rewrite not_elem_of_cons. split; [lia|done].
    + constructor; [lia|]. constructor; [lia|by apply fresh_S].
    + constructor; [unfold DefaultNodeCapacity; zlen_lia|by constructor].
    + rewrite Hn, !contents_cons. zlen_lia.
    + rewrite Hk. zlen_lia.
Qed.

(** The pieces of a representation that ends with a given node. *)
Lemma repr_snoc_inv ql l x c :
  repr ql (l ++ [(x, c)]) ->
  chain (heap ql) None l (Some x) /\ heap ql !! x = Some (mkQNode (last_loc None l) None c) /\
  (x ∉ (fst <$> l)) /\ NoDup (fst <$> l) /\ (x < fresh ql)%nat /\ Forall (fun x => (x < fresh ql)%nat) (fst <$> l) /\
  1 <= zlen c <= DefaultNodeCapacity /\ Forall (fun c => 1 <= zlen c <= DefaultNodeCapacity) (snd <$> l) /\
  tail ql = Some x /\ count ql = zlen (contents l) + zlen c /\ nodeCount ql = zlen l + 1.
Proof.
  intros [Hc Hh Ht Hnd Hfr Hfu Hn Hk]. rewrite !fmap_app in *. simpl in *.
  apply chain_app in Hc as [Hc [Hx _]]. rewrite last_loc_snoc in Ht.
  apply NoDup_app in Hnd as (Hnd & Hd & _). apply Forall_app in Hfr as [Hfr Hxf]. apply Forall_app in Hfu as [Hfu Hcf].
  apply Forall_cons in Hxf as [Hxf _]. apply Forall_cons in Hcf as [Hcf _]. rewrite contents_snoc in Hn. split_and!; try done.
  - intros Hin. apply (Hd x Hin). by apply list_elem_of_singleton.
  - apply Hcf.
  - apply Hcf.
  - zlen_lia.
  - zlen_lia.
Qed.

Lemma repr_snoc ql l x c :
  chain (heap ql) None l (Some x) -> heap ql !! x = Some (mkQNode (last_loc None l) None c) ->
  x ∉ (fst <$> l) -> NoDup (fst <$> l) -> (x < fresh ql)%nat -> Forall (fun x => (x < fresh ql)%nat) (fst <$> l) ->
  1 <= zlen c <= DefaultNodeCapacity -> Forall (fun c => 1 <= zlen c <= DefaultNodeCapacity) (snd <$> l) ->
  head ql = first_loc (l ++ [(x, c)]) None -> tail ql = Some x ->
  count ql = zlen (contents l) + zlen c -> nodeCount ql = zlen l + 1 ->
  repr ql (l ++ [(x, c)]).
Proof.
  intros Hc Hx Hxl Hnd Hxf Hfr Hcf Hfu Hh Ht Hn Hk. split.
  - apply chain_app. split; [done|]. split; done.
  - done.
  - by rewrite last_loc_snoc.
  - rewrite fmap_app. apply NoDup_app. split_and!; [done| |apply NoDup_singleton].
    intros y Hy. simpl. rewrite list_elem_of_singleton. congruence.
  - rewrite fmap_app. apply Forall_app. split; [done|by apply Forall_singleton].
  - rewrite fmap_app. apply Forall_app. split; [done|by apply Forall_singleton].
  - rewrite contents_snoc. zlen_lia.
  - zlen_lia.
Qed.

Lemma first_loc_snoc_irrel l x c d : first_loc (l ++ [(x, c)]) None = first_loc (l ++ [(x, d)]) None.
Proof. by destruct l as [|[]]. Qed.

Lemma RPush_repr ql l v :
  repr ql l -> exists ql' l', RPush ql v = Some ql' /\ repr ql' l' /\ contents l' = contents l ++ [v].
Proof.
  intros Hr. unfold RPush. destruct l as [|[x c] l _] using rev_ind.
  { rewrite (r_tail _ _ Hr). eexists _, _. split; [done|]. split; [by apply repr_first_node|done]. }
  destruct (repr_snoc_inv _ _ _ _ Hr) as (Hc & Hx & Hxl & Hnd & Hxf & Hfr & Hcf & Hfu & Ht & Hn & Hk).
  pose proof (r_head _ _ Hr) as Hh. rewrite Ht. unfold deref. simpl. rewrite Hx. go_bind. cbn [items prev next].
  destruct (Z.ltb_spec (zlen c) DefaultNodeCapacity).
  - eexists _, (l ++ [(x, c ++ [v])]). split; [done|]. split; [|by rewrite !contents_snoc, app_assoc].
    apply repr_snoc; cbn [heap head tail count nodeCount fresh]; try done.
    + by apply chain_frame.
    + by rewrite lookup_insert_eq.
    + zlen_lia.
    + rewrite Hh. apply first_loc_snoc_irrel.
    + zlen_lia.
  - assert (fresh ql ∉ (fst <$> l)) by (by apply fresh_notin).
    eexists _, ((l ++ [(x, c)]) ++ [(fresh ql, [v])]). split; [done|]. split; [|by rewrite contents_snoc].
    apply repr_snoc; cbn [heap head tail count nodeCount fresh]; try done.
    + apply chain_app. split; [apply chain_frame; [done|]; by apply chain_frame|]. simpl.
      split; [|done]. by rewrite lookup_insert_eq.
    + rewrite last_loc_snoc. by rewrite lookup_insert_ne, lookup_insert_eq by lia.
    + rewrite fmap_app, not_elem_of_app. simpl. rewrite list_elem_of_singleton. split; [done|lia].
    + apply (r_nodup _ _ Hr).
    + lia.
    + apply fresh_S, (r_fresh _ _ Hr).
    + apply (r_full _ _ Hr).
    + rewrite Hh, first_loc_app. by destruct l as [|[]].
    + rewrite Hn, contents_snoc. zlen_lia.
    + rewrite Hk. zlen_lia.
Qed.

(** What a pop at one end returns of the list and leaves of it. *)
Definition pops_first (xs : list bytes) (r : option bytes) (ys : list bytes) : Prop :=
  match xs with [] => r = None /\ ys = [] | v :: xs => r = Some v /\ ys = xs end.

Definition pops_last (xs : list bytes) (r : option bytes) (ys : list bytes) : Prop :=
  (xs = [] /\ r = None /\ ys = []) \/ (exists v, xs = ys ++ [v] /\ r = Some v).

Lemma repr_empty ql : head ql = None -> tail ql = None -> count ql = 0 -> nodeCount ql = 0 -> repr ql [].
Proof. intros. split; try done; constructor. Qed.

Lemma LPop_repr ql l :
  repr ql l -> exists r ql' l', LPop ql = Some (r, ql') /\ repr ql' l' /\ pops_first (contents l) r (contents l').
Proof.
  intros Hr. pose proof Hr as [Hc Hh Ht Hnd Hfr Hfu Hn Hk]. unfold LPop.
  destruct l as [|[x c] l].
  { rewrite Hn. eexists _, _, []. by split_and!. }
  cbn [fmap list_fmap fst snd chain] in Hnd, Hfr, Hfu, Hc. destruct Hc as [Hx Hc].
  apply NoDup_cons in Hnd as [Hxl Hnd]. apply Forall_cons in Hfr as [Hxf Hfr]. apply Forall_cons in Hfu as [Hcf Hfu].
  destruct c as [|v c]; [rewrite zlen_nil in Hcf; lia|]. rewrite contents_cons in Hn. simpl app in Hn.
  rewrite (proj2 (Z.eqb_neq _ _)) by (rewrite Hn; zlen_lia). rewrite Hh. cbn [first_loc].
  unfold deref. simpl mbind. rewrite Hx. go_bind. cbn [items prev next].
  change (go_at (v :: c) 0) with (Some v). go_bind.
  rewrite (go_slice_suffix [v] c) by zlen_lia. go_bind.
  destruct c as [|w c]; cycle 1.
  { rewrite (proj2 (Z.eqb_neq _ _)) by zlen_lia. eexists _, _, ((x, w :: c) :: l).
    split; [done|]. split; [|done]. split; cbn [heap head tail count nodeCount fresh fmap list_fmap fst snd]; try done.
    - split; [by rewrite lookup_insert_eq|by apply chain_frame].
    - by rewrite Ht, !last_loc_cons.
    - by apply NoDup_cons.
    - by constructor.
    - constructor; [zlen_lia|done].
    - rewrite Hn, contents_cons. zlen_lia. }
  destruct l as [|[y d] l]; cbn [first_loc]; simpl (zlen [] =? 0); cbv iota.
  { eexists _, _, []. split; [done|]. split; [|done]. apply repr_empty; simpl; try done.
    - rewrite Hn. done.
    - rewrite Hk. done. }
  cbn [fmap list_fmap fst snd chain] in *. destruct Hc as [Hy Hc].
  rewrite not_elem_of_cons in Hxl. destruct Hxl as [Hxy Hxl].
  rewrite lookup_insert_ne by done. rewrite Hy. go_bind. cbn [items next].
  eexists _, _, ((y, d) :: l). split; [done|]. split; [|done].
  apply NoDup_cons in Hnd as [Hyl Hnd].
  split; cbn [heap head tail count nodeCount fresh fmap list_fmap fst snd]; try done.
  - split; [by rewrite lookup_insert_eq|]. apply chain_frame; [done|]. by apply chain_frame.
  - by apply NoDup_cons.
  - rewrite Hn. zlen_lia.
  - rewrite Hk. zlen_lia.
Qed.

Lemma RPop_repr ql l :
  repr ql l -> exists r ql' l', RPop ql = Some (r, ql') /\ repr ql' l' /\ pops_last (contents l) r (contents l').
Proof.
  intros Hr. unfold RPop. destruct l as [|[x c] l _] using rev_ind.
  { rewrite (r_count _ _ Hr). eexists _, _, []. split; [done|]. split; [done|]. by left. }
  destruct (repr_snoc_inv _ _ _ _ Hr) as (Hc & Hx & Hxl & Hnd & Hxf & Hfr & Hcf & Hfu & Ht & Hn & Hk).
  pose proof (r_head _ _ Hr) as Hh.
  destruct c as [|v c _] using rev_ind; [rewrite zlen_nil in Hcf; lia|].
  rewrite (proj2 (Z.eqb_neq _ _)) by (rewrite Hn; zlen_lia). rewrite Ht.
  unfold deref. simpl mbind. rewrite Hx. go_bind. cbn [items prev next].
  rewrite (go_at_mid c v []) by zlen_lia. go_bind.
  rewrite (go_slice_prefix c [v]) by zlen_lia. go_bind. rewrite zlen_app in Hcf, Hn.
  assert (forall l', contents l' = contents l ++ c -> pops_last (contents (l ++ [(x, c ++ [v])])) (Some v) (contents l')) as Hpop.
  { intros l' E. right. exists v. rewrite contents_snoc, E, app_assoc. done. }
  destruct (Z.eqb_spec (zlen c) 0) as [Ec|Ec]; cycle 1.
  { eexists _, _, (l ++ [(x, c)]). split; [done|]. split; [|apply Hpop; apply contents_snoc].
    apply repr_snoc; cbn [heap head tail count nodeCount fresh]; try done.
    - by apply chain_frame.
    - by rewrite lookup_insert_eq.
    - zlen_lia.
    - rewrite Hh. apply first_loc_snoc_irrel.
    - zlen_lia. }
  destruct c; [|zlen_lia]. destruct l as [|[y d] l _] using rev_ind.
  { unfold last_loc. simpl last. cbv iota. eexists _, _, []. split; [done|]. split; [|by apply Hpop].
    apply repr_empty; simpl; try done; [rewrite Hn; done|rewrite Hk; done]. }
  rewrite last_loc_snoc. apply chain_app in Hc as [Hc [Hy _]]. simpl in Hy.
  rewrite !fmap_app in *. simpl in *. rewrite not_elem_of_app, list_elem_of_singleton in Hxl. destruct Hxl as [Hxl Hxy].
  rewrite lookup_insert_ne by done. rewrite Hy. go_bind. cbn [items prev].
  apply NoDup_app in Hnd as (Hnd & Hd & _). apply Forall_app in Hfr as [Hfr Hyf]. apply Forall_app in Hfu as [Hfu Hdf].
  apply Forall_cons in Hyf as [Hyf _]. apply Forall_cons in Hdf as [Hdf _].
  assert (y ∉ (fst <$> l)) by (intros Hin; apply (Hd y Hin); by apply list_elem_of_singleton).
  eexists _, _, (l ++ [(y, d)]). split; [done|]. split; [|apply Hpop; by rewrite app_nil_r].
  apply repr_snoc; cbn [heap head tail count nodeCount fresh]; try done.
  - apply chain_frame; [done|]. by apply chain_frame.
  - by rewrite lookup_insert_eq.
  - rewrite Hh, first_loc_app. by destruct l as [|[]].
  - rewrite Hn, contents_snoc. zlen_lia.
  - rewrite Hk. zlen_lia.
Qed.

(** ** Walks *)

Lemma collect_ok l n i :
  0 <= i -> i + Z.of_nat n <= zlen l -> collect l n i = Some (take n (drop (Z.to_nat i) l)).
Proof.
  revert i. induction n as [|n IH]; intros i Hi Hl; [done|]. cbn [collect].
  destruct (go_at_some l i ltac:(lia)) as [x Hx]. rewrite Hx. go_bind. rewrite IH by lia. go_bind.
  rewrite go_at_lookup in Hx by done. rewrite (drop_S l x (Z.to_nat i)) by done.
  replace (Z.to_nat (i + 1)) with (S (Z.to_nat i)) by lia. done.
Qed.

(** The part of a list between two positions, when the list starts at position [cur]. *)
Definition window (start stop cur : Z) (l : list bytes) : list bytes :=
  take (Z.to_nat (stop - Z.max start cur + 1)) (drop (Z.to_nat (start - cur)) l).

Lemma window_app_skip start stop cur c l :
  cur + zlen c <= start -> window start stop cur (c ++ l) = window start stop (cur + zlen c) l.
Proof.
  intros H. unfold window. rewrite drop_app_ge by (unfold zlen in *; lia).
  f_equal; [zlen_pose; lia|]. f_equal. unfold zlen. lia.
Qed.

Lemma window_app_in start stop cur c l :
  start <= cur + zlen c -> cur + zlen c <= stop ->
  window start stop cur (c ++ l) = drop (Z.to_nat (start - cur)) c ++ window start stop (cur + zlen c) l.
Proof.
  intros H1 H2. unfold window. rewrite drop_app_le by (unfold zlen in *; lia).
  rewrite take_app_ge by (rewrite length_drop; unfold zlen in *; lia). f_equal.
  replace (Z.to_nat (start - (cur + zlen c))) with 0%nat by lia. rewrite drop_0. f_equal.
  rewrite length_drop. unfold zlen in *. lia.
Qed.

Lemma window_app_last start stop cur c l :
  start <= stop -> stop < cur + zlen c -> window start stop cur (c ++ l) = window start stop cur c.
Proof.
  intros H1 H2. unfold window. rewrite drop_app_le by (unfold zlen in *; lia).
  rewrite take_app_le; [done|]. rewrite length_drop. unfold zlen in *. lia.
Qed.

Lemma range_loop_ok ql start stop fuel l p cur acc :
  chain (heap ql) p l None -> Forall (fun c => 1 <= zlen c <= DefaultNodeCapacity) (snd <$> l) ->
  (length l <= fuel)%nat -> start <= stop -> cur <= stop -> 0 <= start -> 0 <= cur ->
  range_loop fuel ql start stop cur (first_loc l None) acc = Some (acc ++ window start stop cur (contents l)).
Proof.
  revert fuel p cur acc. induction l as [|[x c] l IH]; intros fuel p cur acc Hc Hf Hl Hss Hcs Hs0 Hc0.
  { unfold window, contents. cbn [fmap list_fmap concat first_loc]. rewrite drop_nil, take_nil, app_nil_r. by destruct fuel. }
  destruct Hc as [Hx Hc]. cbn [fmap list_fmap snd length] in *. apply Forall_cons in Hf as [Hcf Hf].
  destruct fuel as [|fuel]; [lia|]. cbn [range_loop first_loc]. rewrite Hx. go_bind. cbn [items next].
  rewrite contents_cons.
  destruct (Z.leb_spec start (cur + zlen c - 1)).
  - set (s := if cur <? start then start - cur else 0). set (e := if stop <? _ then _ else _).
    assert (s = Z.max 0 (start - cur)) as Hs by (unfold s; destruct (Z.ltb_spec cur start); lia).
    assert (e = Z.min (stop - cur) (zlen c - 1)) as He by (unfold e; destruct (Z.ltb_spec stop (cur + zlen c - 1)); lia).
    rewrite collect_ok by lia. go_bind. replace (Z.to_nat s) with (Z.to_nat (start - cur)) by lia.
    destruct (Z.leb_spec stop (cur + zlen c - 1)).
    + f_equal. f_equal. rewrite window_app_last by lia. unfold window. f_equal. lia.
    + rewrite (IH fuel (Some x)) by (done || lia). f_equal. rewrite window_app_in by lia. rewrite <- app_assoc. f_equal.
      f_equal. apply take_ge. rewrite length_drop. unfold zlen in *. lia.
  - go_bind. rewrite (proj2 (Z.leb_gt _ _)) by lia. rewrite (IH fuel (Some x)) by (done || lia).
    by rewrite window_app_skip by lia.
Qed.

Lemma find_loop_ok ql idx fuel l p cur :
  chain (heap ql) p l None -> (length l <= fuel)%nat -> cur <= idx < cur + zlen (contents l) ->
  exists l1 x c l2, l = l1 ++ (x, c) :: l2 /\
    find_loop fuel ql idx cur (first_loc l None) =
      Some (Some (x, mkQNode (last_loc p l1) (first_loc l2 None) c, idx - cur - zlen (contents l1))) /\
    0 <= idx - cur - zlen (contents l1) < zlen c.
Proof.
  revert fuel p cur. induction l as [|[x c] l IH]; intros fuel p cur Hc Hl Hi.
  { unfold contents in Hi. rewrite zlen_nil in Hi. lia. }
  destruct Hc as [Hx Hc]. cbn [length] in Hl. destruct fuel as [|fuel]; [lia|].
  cbn [find_loop first_loc]. rewrite Hx. go_bind. cbn [items next]. rewrite contents_cons, zlen_app in Hi.
  destruct (Z.ltb_spec idx (cur + zlen c)).
  - exists [], x, c, l. split; [done|]. unfold contents. rewrite zlen_nil, Z.sub_0_r. split; [done|lia].
  - destruct (IH fuel (Some x) (cur + zlen c) Hc ltac:(lia) ltac:(lia)) as (l1 & y & d & l2 & -> & E & Hr).
    exists ((x, c) :: l1), y, d, l2. split; [done|]. rewrite E, last_loc_cons, contents_cons, zlen_app.
    split; [do 3 f_equal; lia|lia].
Qed.

(** ** List semantics of the reads *)

Definition norm {A} (xs : list A) (idx : Z) : Z := if idx <? 0 then zlen xs + idx else idx.

(** LRANGE of a list: both ends clamped, empty when they cross. *)
Definition list_range (xs : list bytes) (start stop : Z) : list bytes :=
  let start := Z.max 0 (norm xs start) in
  let stop := Z.min (zlen xs - 1) (norm xs stop) in
  take (Z.to_nat (stop - start + 1)) (drop (Z.to_nat start) xs).

Lemma list_range_all (xs : list bytes) : list_range xs 0 (-1) = xs.
Proof. unfold list_range, norm. cbn [Z.ltb Z.compare]. rewrite drop_0. apply take_ge. unfold zlen. lia. Qed.

Lemma LRange_repr ql l start stop :
  repr ql l -> LRange ql start stop = Some (list_range (contents l) start stop).
Proof.
  intros Hr. pose proof Hr as [Hc Hh _ _ _ Hfu Hn Hk]. unfold LRange, list_range, normalizeIndex, norm. rewrite Hn.
  destruct (Z.eqb_spec (zlen (contents l)) 0) as [E|E].
  { destruct (contents l); [by rewrite drop_nil, take_nil|zlen_lia]. }
  set (s0 := if start <? 0 then _ else _). set (e0 := if stop <? 0 then _ else _).
  replace (if s0 <? 0 then 0 else s0) with (Z.max 0 s0) by (destruct (Z.ltb_spec s0 0); lia).
  replace (if zlen (contents l) <=? e0 then zlen (contents l) - 1 else e0) with (Z.min (zlen (contents l) - 1) e0)
    by (destruct (Z.leb_spec (zlen (contents l)) e0); lia).
  set (s := Z.max 0 s0). set (e := Z.min _ e0).
  destruct (Z.ltb_spec e s); simpl.
  { replace (Z.to_nat (e - s + 1)) with 0%nat by lia. done. }
  rewrite (proj2 (Z.leb_gt _ _)) by lia. rewrite Hh.
  rewrite (range_loop_ok ql s e _ l None) by (done || (rewrite ?Hk; unfold zlen; lia) || lia).
  simpl. unfold window. rewrite Z.sub_0_r. by replace (Z.max s 0) with s by lia.
Qed.

Lemma LIndex_repr ql l idx :
  repr ql l -> LIndex ql idx = Some (go_at (contents l) (norm (contents l) idx)).
Proof.
  intros Hr. pose proof Hr as [Hc Hh _ _ _ Hfu Hn Hk]. unfold LIndex, normalizeIndex, norm. rewrite Hn.
  set (i := if idx <? 0 then _ else _).
  assert (i < 0 \/ zlen (contents l) <= i -> go_at (contents l) i = None) as Hout.
  { intros Hi. unfold go_at. destruct (Z.ltb_spec i 0); [done|]. apply lookup_ge_None. unfold zlen in Hi. lia. }
  destruct (Z.eqb_spec (zlen (contents l)) 0) as [E|E]; [rewrite Hout; [done|lia]|].
  destruct (Z.ltb_spec i 0); simpl; [rewrite Hout; [done|lia]|].
  destruct (Z.leb_spec (zlen (contents l)) i); simpl; [rewrite Hout; [done|lia]|].
  rewrite Hh. destruct (find_loop_ok ql i (Z.to_nat (nodeCount ql)) l None 0 Hc) as (l1 & x & c & l2 & E1 & -> & Hr1).
  { rewrite Hk. unfold zlen. lia. }
  { lia. }
  go_bind. cbn [items]. destruct (go_at_some c (i - 0 - zlen (contents l1)) Hr1) as [v Hv]. rewrite Hv. go_bind. f_equal.
  rewrite E1. unfold contents. rewrite fmap_app, concat_app. cbn [fmap list_fmap snd concat]. fold (contents l1).
  rewrite go_at_lookup in Hv |- * by lia. rewrite lookup_app_r by (unfold zlen in *; lia).
  rewrite lookup_app_l by (unfold zlen in *; lia). rewrite <- Hv. f_equal. unfold zlen. lia.
Qed.

Lemma chain_replace h p l1 x c d l2 q :
  NoDup ((l1 ++ (x, c) :: l2).*1) -> chain h p (l1 ++ (x, c) :: l2) q ->
  chain (<[x := mkQNode (last_loc p l1) (first_loc l2 q) d]> h) p (l1 ++ (x, d) :: l2) q.
Proof.
  rewrite fmap_app. cbn [fmap list_fmap fst]. intros (_ & Hd & [Hx _]%NoDup_cons)%NoDup_app. rewrite !chain_app.
  intros [H1 [_ H2]]. assert (x ∉ l1.*1) by (intros Hin; apply (Hd x Hin); apply list_elem_of_here).
  split; [by apply chain_frame|]. split; [by rewrite lookup_insert_eq|by apply chain_frame].
Qed.

Lemma last_loc_replace p l1 x c d l2 : last_loc p (l1 ++ (x, c) :: l2) = last_loc p (l1 ++ (x, d) :: l2).
Proof. unfold last_loc. rewrite !last_app. rewrite !last_cons. by destruct (last l2). Qed.

(** LSET of a list. *)
Definition list_set (xs : list bytes) (idx : Z) (v : bytes) : bool * list bytes :=
  match go_set xs (norm xs idx) v with Some ys => (true, ys) | None => (false, xs) end.

Lemma LSet_repr ql l idx v :
  repr ql l -> exists ql' l', LSet ql idx v = Some ((list_set (contents l) idx v).1, ql') /\ repr ql' l' /\
    contents l' = (list_set (contents l) idx v).2.
Proof.
  intros Hr. pose proof Hr as [Hc Hh Ht Hnd Hfr Hfu Hn Hk]. unfold LSet, normalizeIndex, list_set, norm, go_set. rewrite Hn.
  set (i := if idx <? 0 then _ else _).
  destruct (Z.eqb_spec (zlen (contents l)) 0) as [E|E].
  { destruct (Z.leb_spec 0 i), (Z.ltb_spec i (zlen (contents l))); try lia; simpl; by exists ql, l. }
  destruct (Z.ltb_spec i 0); simpl; [rewrite (proj2 (Z.leb_gt 0 i)) by lia; by exists ql, l|].
  rewrite (proj2 (Z.leb_le 0 i)) by lia.
  destruct (Z.leb_spec (zlen (contents l)) i); simpl; [rewrite (proj2 (Z.ltb_ge _ _)) by lia; by exists ql, l|].
  rewrite (proj2 (Z.ltb_lt _ _)) by lia. rewrite Hh.
  destruct (find_loop_ok ql i (Z.to_nat (nodeCount ql)) l None 0 Hc) as (l1 & x & c & l2 & E1 & -> & Hr1).
  { rewrite Hk. unfold zlen. lia. }
  { lia. }
  go_bind. cbn [items prev next]. unfold go_set. set (off := i - 0 - zlen (contents l1)) in *.
  rewrite (proj2 (Z.leb_le _ _)), (proj2 (Z.ltb_lt _ _)) by lia. simpl.
  eexists _, (l1 ++ (x, <[Z.to_nat off := v]> c) :: l2). split; [done|].
  assert (contents (l1 ++ (x, <[Z.to_nat off := v]> c) :: l2) = <[Z.to_nat i := v]> (contents l)) as Hcont.
  { rewrite E1. unfold contents. rewrite !fmap_app, !concat_app. cbn [fmap list_fmap snd concat]. fold (contents l1).
    replace (Z.to_nat i) with (length (contents l1) + Z.to_nat off)%nat by (unfold off, zlen in *; lia).
    rewrite insert_app_r. f_equal. rewrite insert_app_l by (unfold zlen in *; lia). done. }
  split; [|done]. subst l.
  split; cbn [heap head tail count nodeCount fresh].
  - by apply (chain_replace _ _ _ _ c).
  - rewrite !first_loc_app. done.
  - rewrite Ht. apply last_loc_replace.
  - revert Hnd. rewrite !fmap_app. done.
  - revert Hfr. rewrite !fmap_app. done.
  - revert Hfu. rewrite !fmap_app. cbn [fmap list_fmap snd]. rewrite !Forall_app, !Forall_cons, zlen_insert. done.
  - rewrite Hcont, zlen_insert. done.
  - rewrite Hk. zlen_lia.
Qed.

(** ** Histories *)

Inductive qop := QLPush (v : bytes) | QRPush (v : bytes) | QLPop | QRPop | QLSet (idx : Z) (v : bytes).
Inductive qres := QUnit | QVal (r : option bytes) | QBool (b : bool).

Definition q_step (ql : Quicklist) (c : qop) : option (qres * Quicklist) :=
  match c with
  | QLPush v => ql ← LPush ql v; Some (QUnit, ql)
  | QRPush v => ql ← RPush ql v; Some (QUnit, ql)
  | QLPop => '(r, ql) ← LPop ql; Some (QVal r, ql)
  | QRPop => '(r, ql) ← RPop ql; Some (QVal r, ql)
  | QLSet idx v => '(b, ql) ← LSet ql idx v; Some (QBool b, ql)
  end.

(** The same operations on a list. *)
Definition l_step (xs : list bytes) (c : qop) : qres * list bytes :=
  match c with
  | QLPush v => (QUnit, v :: xs)
  | QRPush v => (QUnit, xs ++ [v])
  | QLPop => (QVal (hd_error xs), tl xs)
  | QRPop => (QVal (last xs), take (length xs - 1) xs)
  | QLSet idx v => let '(b, ys) := list_set xs idx v in (QBool b, ys)
  end.

Fixpoint q_run (ql : Quicklist) (h : list qop) : option (list qres * Quicklist) :=
  match h with
  | [] => Some ([], ql)
  | c :: h => '(r, ql) ← q_step ql c; '(rs, ql) ← q_run ql h; Some (r :: rs, ql)
  end.

Fixpoint l_run (xs : list bytes) (h : list qop) : list qres * list bytes :=
  match h with
  | [] => ([], xs)
  | c :: h => let '(r, xs) := l_step xs c in let '(rs, xs) := l_run xs h in (r :: rs, xs)
  end.

Lemma q_step_ok ql l c :
  repr ql l -> exists ql' l', q_step ql c = Some ((l_step (contents l) c).1, ql') /\ repr ql' l' /\
    contents l' = (l_step (contents l) c).2.
Proof.
  intros Hr. destruct c as [v|v| | |idx v]; cbn [q_step l_step].
  - destruct (LPush_repr ql l v Hr) as (ql' & l' & -> & ? & ?). by exists ql', l'.
  - destruct (RPush_repr ql l v Hr) as (ql' & l' & -> & ? & ?). by exists ql', l'.
  - destruct (LPop_repr ql l Hr) as (r & ql' & l' & -> & ? & Hp). exists ql', l'. unfold pops_first in Hp.
    destruct (contents l); destruct Hp as [-> ->]; done.
  - destruct (RPop_repr ql l Hr) as (r & ql' & l' & -> & ? & Hp). exists ql', l'.
    destruct Hp as [(-> & -> & ->)|(v & -> & ->)]; [done|]. cbn [fst snd]. go_bind.
    rewrite last_snoc. split_and!; [done..|]. symmetry. apply take_app_length'. rewrite length_app. cbn [length]. lia.
  - destruct (LSet_repr ql l idx v Hr) as (ql' & l' & -> & ? & Hc). exists ql', l'. rewrite Hc.
    by destruct (list_set (contents l) idx v).
Qed.

Lemma q_run_ok ql l h :
  repr ql l -> exists ql' l', q_run ql h = Some ((l_run (contents l) h).1, ql') /\ repr ql' l' /\
    contents l' = (l_run (contents l) h).2.
Proof.
  revert ql l. induction h as [|c h IH]; intros ql l Hr; [by exists ql, l|].
  destruct (q_step_ok ql l c Hr) as (ql1 & l1 & E1 & Hr1 & Hc1). cbn [q_run l_run]. rewrite E1. go_bind.
  destruct (IH ql1 l1 Hr1) as (ql2 & l2 & E2 & Hr2 & Hc2). rewrite E2. go_bind. rewrite Hc1 in *.
  destruct (l_step (contents l) c) as [r xs]. cbn [fst snd] in *.
  destruct (l_run xs h) as [rs ys]. by exists ql2, l2.
Qed.

(** ** Properties *)

(** C27. The quicklist is a list: every history of pushes, pops and sets on a new quicklist runs
    without a nil dereference or an index out of range and returns what the list operations
    return; and the quicklist reads back, by length, by position and by range (negative
    positions counted from the end), as the resulting list. *)
Theorem quicklist_history h :
  exists ql, q_run NewQuicklist h = Some ((l_run [] h).1, ql) /\
    Len ql = zlen (l_run [] h).2 /\
    (forall idx, LIndex ql idx = Some (go_at (l_run [] h).2 (norm (l_run [] h).2 idx))) /\
    (forall start stop, LRange ql start stop = Some (list_range (l_run [] h).2 start stop)).
Proof.
  destruct (q_run_ok NewQuicklist [] h repr_new) as (ql & l & E & Hr & Hc).
  change (contents []) with (@nil bytes) in *. rewrite <- Hc. exists ql. split_and!; [done|apply Hr|..].
  - intros idx. by apply LIndex_repr.
  - intros start stop. by apply LRange_repr.
Qed.
