(* ===== verification/Lzf.v ===== *)
(** * LZF compression of RDB strings ([rdb/lzf/lzf.go])

    [Compress] writes into a preallocated array and patches the control byte of a literal run
    when the run ends; the model keeps the array ([out], stores by index, [None] is a panic).
    The hash table is a map whose missing entries are -1.  [Decompress] is modelled on the input
    that is left and on the part of its output array written so far: nothing beyond is read.
    Loops run on fuel: the compressor advances by at least one input byte per round, the
    decompressor by at least one.

    [lzf_roundtrip]: whatever the input, what [Compress] returns is expanded by [Decompress] to
    the input, without a panic; on arbitrary bytes [Decompress] returns ([decompress_never_panics]). *)

From S2P Require Import Prelude.

Local Open Scope Z_scope.

Definition hLog : Z := 14.
Definition hSize : Z := 2 ^ hLog.
Definition maxOff : Z := 2 ^ 13.
Definition maxRef : Z := 255 + 7 + 2.
Definition minLen : Z := 20.

(** ** Compression *)

(** [findMatchLen(in[ip:], in[ref:], maxLen)]. *)
Fixpoint findMatchLen (input : bytes) (ip ref : Z) (maxLen : nat) : option Z :=
  match maxLen with
  | O => Some 0
  | S maxLen =>
    a ← go_at input ip; b ← go_at input ref;
    if a =? b then n ← findMatchLen input (ip + 1) (ref + 1) maxLen; Some (1 + n) else Some 0
  end.

Definition hash3 (input : bytes) (p : Z) : option Z :=
  a ← go_at input p; b ← go_at input (p + 1); c ← go_at input (p + 2);
  let v := Z.lor (Z.lor (Z.shiftl a 16) (Z.shiftl b 8)) c in
  Some (Z.land (Z.shiftr (u32 (v * 16777619)) (32 - hLog)) (hSize - 1)).

(** The test that a three-byte match starts at [ref]. *)
Definition matches3 (input : bytes) (ref ip : Z) : option bool :=
  a ← go_at input ref; b ← go_at input ip;
  if negb (a =? b) then Some false else
  a ← go_at input (ref + 1); b ← go_at input (ip + 1);
  if negb (a =? b) then Some false else
  a ← go_at input (ref + 2); b ← go_at input (ip + 2); Some (a =? b).

(** The loop variables [ip], [op], [lit] with the output array. *)
Record cstate := mkC { ip : Z; op : Z; lit : Z; out : bytes }.

(** The end of a literal run: patch its control byte, or take back the reserved one. *)
Definition close_run (s : cstate) : option (Z * bytes) :=
  if 0 <? lit s then o ← go_set (out s) (op s - lit s - 1) (u8 (lit s - 1)); Some (op s, o)
  else Some (op s - 1, out s).

(** A back reference of [matchLen] bytes at distance [off]. *)
Definition emit_match (s : cstate) (off matchLen : Z) : option cstate :=
  '(op, o) ← close_run s;
  let mLen := matchLen - 2 in
  '(op, o) ←
    (if mLen <? 7 then
       o ← go_set o op (u8 (Z.lor (Z.shiftr off 8) (Z.shiftl mLen 5))); Some (op + 1, o)
     else
       o ← go_set o op (u8 (Z.lor (Z.shiftr off 8) (Z.shiftl 7 5)));
       o ← go_set o (op + 1) (u8 (mLen - 7)); Some (op + 2, o));
  o ← go_set o op (u8 (Z.land off 255));
  Some (mkC (ip s + matchLen) (op + 2) 0 o).

(** One literal byte; a run of 32 is closed at once. *)
Definition emit_literal (input : bytes) (s : cstate) : option cstate :=
  b ← go_at input (ip s);
  o ← go_set (out s) (op s) b;
  let lit := lit s + 1 in
  let op := op s + 1 in
  if lit =? 32 then o ← go_set o (op - 32 - 1) 31; Some (mkC (ip s + 1) (op + 1) 0 o)
  else Some (mkC (ip s + 1) op lit o).

(** The main loop: [inl s] when it ends, [inr tt] when the output would not be shorter. *)
Fixpoint compress_loop (fuel : nat) (input : bytes) (htab : gmap Z Z) (s : cstate) : option (cstate + unit) :=
  match fuel with
  | O => None
  | S fuel =>
    let inLen := zlen input in
    if ip s <? inLen - 2 then
      h ← hash3 input (ip s);
      let ref := default (-1) (htab !! h) in
      let htab := <[h := ip s]> htab in
      let off := ip s - ref - 1 in
      m ← (if (0 <=? ref) && (off <? maxOff) then matches3 input ref (ip s) else Some false);
      if (m : bool) then
        let maxMatch := Z.min (inLen - ip s) maxRef in
        n ← findMatchLen input (ip s + 3) (ref + 3) (Z.to_nat (maxMatch - 3));
        s ← emit_match s off (3 + n);
        if inLen - 2 <=? ip s then Some (inl s)
        else if inLen <=? op s then Some (inr tt)
        else compress_loop fuel input htab s
      else
        s ← emit_literal input s;
        if inLen <=? op s then Some (inr tt) else compress_loop fuel input htab s
    else Some (inl s)
  end.

(** The trailing bytes. *)
Fixpoint trailing_loop (fuel : nat) (input : bytes) (s : cstate) : option cstate :=
  match fuel with
  | O => None
  | S fuel => if ip s <? zlen input then s ← emit_literal input s; trailing_loop fuel input s else Some s
  end.

(** [Some None] is the refusal [(nil, false)]. *)
Definition Compress (input : bytes) : option (option bytes) :=
  let inLen := zlen input in
  if inLen <? minLen then Some None
  else
    r ← compress_loop (S (length input)) input ∅ (mkC 0 1 0 (replicate (Z.to_nat (inLen + 32)) 0));
    match r with
    | inr _ => Some None
    | inl s =>
      s ← trailing_loop (S (length input)) input s;
      '(op, o) ← close_run s;
      if inLen <=? op then Some None else r ← go_slice o 0 op; Some (Some r)
    end.

(** ** Decompression *)

(** The byte-by-byte copy of an overlapping back reference. *)
Fixpoint copy_overlap (n : nat) (acc : bytes) (ref : Z) : option bytes :=
  match n with
  | O => Some acc
  | S n => b ← go_at acc ref; copy_overlap n (acc ++ [b]) (ref + 1)
  end.

(** [in] is [in[ip:]], [acc] is [out[:op]]; [inr tt] is [ErrCorruptedData]. *)
Fixpoint decompress_loop (fuel : nat) (input acc : bytes) (expectedLen : Z) : option (bytes + unit) :=
  match fuel with
  | O => None
  | S fuel =>
    match input with
    | [] => Some (inl acc)
    | ctrl :: input =>
      if ctrl <? 32 then
        let litLen := ctrl + 1 in
        if (zlen input <? litLen) || (expectedLen <? zlen acc + litLen) then Some (inr tt)
        else
          decompress_loop fuel (drop (Z.to_nat litLen) input) (acc ++ take (Z.to_nat litLen) input) expectedLen
      else
        let mLen := Z.shiftr ctrl 5 in
        let off := Z.shiftl (Z.land ctrl 31) 8 + 1 in
        match (if mLen =? 7 then match input with b :: input => Some (mLen + b, input) | [] => None end
               else Some (mLen, input)) with
        | None => Some (inr tt)
        | Some (_, []) => Some (inr tt)
        | Some (mLen, b :: input) =>
          let off := off + b in
          let mLen := mLen + 2 in
          let ref := zlen acc - off in
          if (ref <? 0) || (expectedLen <? zlen acc + mLen) then Some (inr tt)
          else
            acc ← (if ref + mLen <=? zlen acc
                   then chunk ← go_slice acc ref (ref + mLen); Some (acc ++ chunk)
                   else copy_overlap (Z.to_nat mLen) acc ref);
            decompress_loop fuel input acc expectedLen
        end
    end
  end.

Definition Decompress (input : bytes) (expectedLen : Z) : option (bytes + unit) :=
  if expectedLen <? 0 then None (* make of a negative length *)
  else
    r ← decompress_loop (S (length input)) input [] expectedLen;
    match r with
    | inr _ => Some (inr tt)
    | inl acc => if zlen acc =? expectedLen then Some (inl acc) else Some (inr tt)
    end.

(** ** Streams of tokens *)

(** The bytes of a back reference. *)
Definition ref_token (off mLen : Z) : bytes :=
  if mLen <? 7 then [Z.shiftr off 8 + Z.shiftl mLen 5; Z.land off 255]
  else [Z.shiftr off 8 + 224; mLen - 7; Z.land off 255].

(** [decodes enc dec]: the stream [enc] expands to [dec]. *)
Inductive decodes : bytes -> bytes -> Prop :=
  | decodes_nil : decodes [] []
  | decodes_lit enc dec l :
      decodes enc dec -> 1 <= zlen l <= 32 -> decodes (enc ++ (zlen l - 1) :: l) (dec ++ l)
  | decodes_ref enc dec l off :
      decodes enc dec -> 0 <= off < maxOff -> off < zlen dec -> 3 <= zlen l <= maxRef ->
      (forall i, 0 <= i < zlen l -> go_at (dec ++ l) (zlen dec + i) = go_at (dec ++ l) (zlen dec - off - 1 + i)) ->
      decodes (enc ++ ref_token off (zlen l - 2)) (dec ++ l).

(** ** The decompressor on tokens *)

Lemma dec_lit f l rest acc E :
  1 <= zlen l <= 32 -> zlen acc + zlen l <= E ->
  decompress_loop (S f) ((zlen l - 1) :: l ++ rest) acc E = decompress_loop f rest (acc ++ l) E.
Proof.
  intros Hl HE. cbn [decompress_loop]. rewrite (proj2 (Z.ltb_lt _ _)) by lia.
  replace (zlen l - 1 + 1) with (zlen l) by lia.
  rewrite (proj2 (Z.ltb_ge _ _)) by zlen_lia. rewrite (proj2 (Z.ltb_ge _ _)) by lia. simpl orb. cbv iota.
  unfold zlen. by rewrite Nat2Z.id, drop_app_length, take_app_length.
Qed.

(** The bytes a reference at distance [off] must produce. *)
Definition repeats (dec l : bytes) (off : Z) : Prop :=
  forall i, 0 <= i < zlen l -> go_at (dec ++ l) (zlen dec + i) = go_at (dec ++ l) (zlen dec - off - 1 + i).

Lemma go_at_app_l {A} (l k : list A) i : i < zlen l -> go_at (l ++ k) i = go_at l i.
Proof.
  intros Hi. unfold go_at. destruct (Z.ltb_spec i 0); [done|]. apply lookup_app_l. unfold zlen in Hi. lia.
Qed.

Lemma go_at_app_r {A} (l k : list A) i : 0 <= i -> go_at (l ++ k) (zlen l + i) = go_at k i.
Proof.
  intros Hi. rewrite !go_at_lookup by zlen_lia. rewrite lookup_app_r by (unfold zlen; lia). f_equal. unfold zlen. lia.
Qed.

Lemma copy_overlap_ok l acc ref :
  0 <= ref < zlen acc ->
  (forall i, 0 <= i < zlen l -> go_at (acc ++ l) (zlen acc + i) = go_at (acc ++ l) (ref + i)) ->
  copy_overlap (length l) acc ref = Some (acc ++ l).
Proof.
  revert acc ref. induction l as [|b l IH]; intros acc ref Hr Hl; [by rewrite app_nil_r|].
  cbn [length copy_overlap]. pose proof (Hl 0 ltac:(zlen_lia)) as H0.
  rewrite !Z.add_0_r, (go_at_mid acc b l) in H0 by done. rewrite (go_at_app_l acc) in H0 by lia. rewrite <- H0. go_bind.
  rewrite (IH (acc ++ [b]) (ref + 1)); [by rewrite <- app_assoc|zlen_lia|].
  intros i Hi. rewrite <- app_assoc. simpl app. replace (zlen (acc ++ [b]) + i) with (zlen acc + (1 + i)) by zlen_lia.
  replace (ref + 1 + i) with (ref + (1 + i)) by lia. apply Hl. zlen_lia.
Qed.

Lemma slice_of_repeats dec l off :
  0 <= off < zlen dec -> zlen dec - off - 1 + zlen l <= zlen dec -> repeats dec l off ->
  go_slice dec (zlen dec - off - 1) (zlen dec - off - 1 + zlen l) = Some l.
Proof.
  intros Ho Hl Hr. unfold go_slice. zlen_pose. rewrite !(proj2 (Z.leb_le _ _)) by lia. simpl. f_equal.
  apply list_eq. intros i. destruct (decide (i < length l)%nat) as [Hi|Hi]; cycle 1.
  { rewrite (lookup_ge_None_2 l) by lia. apply lookup_ge_None_2. rewrite length_take. unfold zlen in *. lia. }
  rewrite lookup_take_lt by (unfold zlen in *; lia). rewrite lookup_drop.
  specialize (Hr (Z.of_nat i) ltac:(unfold zlen; lia)).
  rewrite go_at_app_r in Hr by lia. rewrite go_at_app_l in Hr by (unfold zlen in *; lia).
  rewrite !go_at_lookup in Hr by lia. rewrite Nat2Z.id in Hr. rewrite Hr. f_equal. unfold zlen in *. lia.
Qed.

(** A back reference in the stream produces the bytes it stands for. *)
Lemma dec_copy dec l off E (k : bytes -> option (bytes + unit)) :
  0 <= off < zlen dec -> zlen dec + zlen l <= E -> repeats dec l off ->
  (let ref := zlen dec - (off + 1) in
   if (ref <? 0) || (E <? zlen dec + zlen l) then Some (inr tt)
   else
     acc ← (if ref + zlen l <=? zlen dec then chunk ← go_slice dec ref (ref + zlen l); Some (dec ++ chunk)
            else copy_overlap (Z.to_nat (zlen l)) dec ref);
     k acc) = k (dec ++ l).
Proof.
  intros Ho HE Hr. cbv zeta. replace (zlen dec - (off + 1)) with (zlen dec - off - 1) by lia.
  rewrite (proj2 (Z.ltb_ge _ 0)), (proj2 (Z.ltb_ge E _)) by lia. simpl orb. cbv iota.
  destruct (Z.leb_spec (zlen dec - off - 1 + zlen l) (zlen dec)).
  - by rewrite slice_of_repeats.
  - replace (Z.to_nat (zlen l)) with (length l) by (unfold zlen; lia). rewrite copy_overlap_ok; [done|lia|done].
Qed.

Lemma shiftr5 a m : 0 <= a < 32 -> Z.shiftr (a + m * 32) 5 = m.
Proof. intros Ha. rewrite Z.shiftr_div_pow2 by lia. change (2 ^ 5) with 32. rewrite Z.div_add by lia. rewrite Z.div_small; lia. Qed.

Lemma land31 a m : 0 <= a < 32 -> Z.land (a + m * 32) 31 = a.
Proof.
  intros Ha. change 31 with (Z.ones 5). rewrite Z.land_ones by lia. change (2 ^ 5) with 32.
  rewrite Z.mod_add by lia. by apply Z.mod_small.
Qed.

Lemma off_bytes off : 0 <= off < maxOff ->
  0 <= Z.shiftr off 8 < 32 /\ 0 <= Z.land off 255 < 256 /\
  Z.shiftl (Z.shiftr off 8) 8 + 1 + Z.land off 255 = off + 1.
Proof.
  intros Ho. unfold maxOff in Ho. rewrite Z.shiftr_div_pow2, Z.shiftl_mul_pow2 by lia.
  change 255 with (Z.ones 8). rewrite Z.land_ones by lia. change (2 ^ 8) with 256. change (2 ^ 13) with 8192 in Ho. div_lia.
Qed.

Lemma dec_ref f dec l rest off E :
  0 <= off < maxOff -> off < zlen dec -> 3 <= zlen l <= maxRef -> zlen dec + zlen l <= E -> repeats dec l off ->
  decompress_loop (S f) (ref_token off (zlen l - 2) ++ rest) dec E = decompress_loop f rest (dec ++ l) E.
Proof.
  intros Ho Hd Hl HE Hr. destruct (off_bytes off Ho) as (Hh & Hlo & Hoff). unfold ref_token, maxRef in *.
  rewrite Z.shiftl_mul_pow2 by lia. change (2 ^ 5) with 32.
  destruct (Z.ltb_spec (zlen l - 2) 7); cbn [app decompress_loop].
  - rewrite (proj2 (Z.ltb_ge _ 32)) by lia. rewrite shiftr5, land31 by done.
    rewrite (proj2 (Z.eqb_neq _ 7)) by lia. rewrite Hoff. replace (zlen l - 2 + 2) with (zlen l) by lia.
    apply (dec_copy dec l off E (fun a => decompress_loop f rest a E)); [lia|done|done].
  - change 224 with (7 * 32). rewrite (proj2 (Z.ltb_ge _ 32)) by lia. rewrite shiftr5, land31 by done.
    rewrite Z.eqb_refl. rewrite Hoff. replace (7 + (zlen l - 2 - 7) + 2) with (zlen l) by lia.
    apply (dec_copy dec l off E (fun a => decompress_loop f rest a E)); [lia|done|done].
Qed.

Lemma ref_token_length off m : (2 <= length (ref_token off m))%nat.
Proof. unfold ref_token. destruct (_ <? _); simpl; lia. Qed.

Lemma decodes_loop enc dec E :
  decodes enc dec -> zlen dec <= E ->
  exists n, (n <= length enc)%nat /\ forall f rest,
    decompress_loop (n + f) (enc ++ rest) [] E = decompress_loop f rest dec E.
Proof.
  induction 1 as [|enc dec l Hd IH Hl|enc dec l off Hd IH Ho Hod Hl Hr]; intros HE.
  - exists 0%nat. split; [lia|done].
  - destruct IH as (n & Hn & IH); [zlen_lia|]. exists (n + 1)%nat. rewrite length_app. simpl. split; [lia|].
    intros f rest. rewrite <- Nat.add_assoc, <- app_assoc, IH. simpl. apply dec_lit; [done|zlen_lia].
  - destruct IH as (n & Hn & IH); [zlen_lia|]. exists (n + 1)%nat.
    pose proof (ref_token_length off (zlen l - 2)). rewrite length_app. split; [lia|].
    intros f rest. rewrite <- Nat.add_assoc, <- app_assoc, IH. apply dec_ref; try done. zlen_lia.
Qed.

Lemma decodes_Decompress enc dec : decodes enc dec -> Decompress enc (zlen dec) = Some (inl dec).
Proof.
  intros Hd. destruct (decodes_loop enc dec (zlen dec) Hd ltac:(lia)) as (n & Hn & H).
  unfold Decompress. rewrite (proj2 (Z.ltb_ge _ 0)) by zlen_lia.
  replace (S (length enc)) with (n + S (length enc - n))%nat by lia.
  specialize (H (S (length enc - n)) []). rewrite app_nil_r in H. rewrite H. cbn [decompress_loop]. go_bind.
  by rewrite Z.eqb_refl.
Qed.

(** ** The compressor's invariant *)

(** The output is a finished stream for the input up to [ip - lit], a reserved control byte, the
    open literal run, and free space. *)
Record cinv (input : bytes) (s : cstate) (enc : bytes) (r : Z) (lits rest pre suf : bytes) : Prop := {
  ci_out : out s = enc ++ r :: lits ++ rest;
  ci_in : input = pre ++ lits ++ suf;
  ci_dec : decodes enc pre;
  ci_lit : lit s = zlen lits;
  ci_lits : zlen lits < 32;
  ci_ip : ip s = zlen pre + zlen lits;
  ci_op : op s = zlen enc + 1 + zlen lits;
  ci_len : zlen (out s) = zlen input + 32
}.

Definition compressing (input : bytes) (s : cstate) : Prop :=
  exists enc r lits rest pre suf, cinv input s enc r lits rest pre suf.

Lemma compressing_init input :
  minLen <= zlen input -> compressing input (mkC 0 1 0 (replicate (Z.to_nat (zlen input + 32)) 0)).
Proof.
  intros Hl. zlen_pose. exists [], 0, [], (replicate (Z.to_nat (zlen input + 31)) 0), [], input.
  split; simpl; try done.
  - by replace (Z.to_nat (zlen input + 32)) with (S (Z.to_nat (zlen input + 31))) by lia.
  - constructor.
  - unfold zlen at 1. rewrite length_replicate. lia.
Qed.

Lemma emit_literal_ok input s :
  compressing input s -> ip s < zlen input -> op s <= zlen input + 20 ->
  exists s', emit_literal input s = Some s' /\ compressing input s' /\ ip s' = ip s + 1 /\
    op s < op s' <= op s + 2.
Proof.
  intros (enc & r & lits & rest & pre & suf & [Ho Hi Hd Hl Hls Hip Hop Hlen]) Hlt Hslack.
  destruct suf as [|b suf]; [rewrite Hi in Hlt; zlen_lia|].
  destruct rest as [|x rest]; [rewrite Ho in Hlen; zlen_lia|].
  assert (go_at input (ip s) = Some b) as Hb by (rewrite Hip, Hi, app_assoc; apply go_at_mid; zlen_lia).
  unfold emit_literal. rewrite Hb. go_bind.
  replace (out s) with ((enc ++ r :: lits) ++ x :: rest) by (rewrite Ho, <- app_assoc; done).
  rewrite go_set_mid by zlen_lia. go_bind. rewrite Hl.
  destruct (Z.eqb_spec (zlen lits + 1) 32) as [E|E].
  - destruct rest as [|y rest]; [rewrite Ho in Hlen; zlen_lia|].
    replace ((enc ++ r :: lits) ++ b :: y :: rest) with (enc ++ r :: lits ++ b :: y :: rest) by (by rewrite <- app_assoc).
    rewrite go_set_mid by zlen_lia. go_bind. eexists. split; [done|]. cbn [ip op]. split; [|lia].
    exists (enc ++ 31 :: lits ++ [b]), y, [], rest, (pre ++ lits ++ [b]), suf. split; cbn [out ip op lit].
    + rewrite <- !app_assoc. simpl. by rewrite <- app_assoc.
    + rewrite Hi, <- !app_assoc. done.
    + replace 31 with (zlen (lits ++ [b]) - 1) by zlen_lia. constructor; [done|zlen_lia].
    + done.
    + done.
    + zlen_lia.
    + zlen_lia.
    + rewrite <- Hlen, Ho. zlen_lia.
  - eexists. split; [done|]. cbn [ip op]. split; [|lia].
    exists enc, r, (lits ++ [b]), rest, pre, suf. split; cbn [out ip op lit]; try done.
    + rewrite <- !app_assoc. done.
    + rewrite Hi, <- !app_assoc. done.
    + zlen_lia.
    + zlen_lia.
    + zlen_lia.
    + zlen_lia.
    + rewrite <- Hlen, Ho. zlen_lia.
Qed.

(** Closing the run leaves a finished stream for the input so far. *)
Lemma close_run_ok input s :
  compressing input s ->
  exists enc rest dec suf, close_run s = Some (zlen enc, enc ++ rest) /\ decodes enc dec /\
    input = dec ++ suf /\ ip s = zlen dec /\ zlen enc <= op s /\ op s <= zlen enc + 1 /\
    zlen (enc ++ rest) = zlen input + 32.
Proof.
  intros (enc & r & lits & rest & pre & suf & [Ho Hi Hd Hl Hls Hip Hop Hlen]).
  unfold close_run. rewrite Hl. destruct (Z.ltb_spec 0 (zlen lits)).
  - rewrite Ho, go_set_mid by lia. go_bind.
    exists (enc ++ (zlen lits - 1) :: lits), rest, (pre ++ lits), suf.
    rewrite u8_id by (unfold is_byte; lia). rewrite Hop. split_and!.
    + rewrite <- app_assoc. simpl. do 2 f_equal. zlen_lia.
    + constructor; [done|lia].
    + by rewrite <- app_assoc.
    + zlen_lia.
    + zlen_lia.
    + zlen_lia.
    + rewrite <- Hlen, Ho. zlen_lia.
  - destruct lits as [|]; [|zlen_lia]. exists enc, (r :: rest), pre, suf. rewrite Ho, Hop. simpl.
    split_and!; try done; [do 2 f_equal; zlen_lia|zlen_lia..|]. rewrite <- Hlen, Ho. zlen_lia.
Qed.

Lemma u8_ref_ctrl off m : 0 <= off < maxOff -> 0 <= m <= 7 ->
  u8 (Z.lor (Z.shiftr off 8) (Z.shiftl m 5)) = Z.shiftr off 8 + Z.shiftl m 5.
Proof.
  intros Ho Hm. destruct (off_bytes off Ho) as (Hh & _). rewrite lor_shiftl_add by (change (2 ^ 5) with 32; lia).
  rewrite Z.shiftl_mul_pow2 by lia. change (2 ^ 5) with 32. apply u8_id. unfold is_byte. lia.
Qed.

Lemma emit_match_ok input s off l suf' dec :
  compressing input s -> op s <= zlen input + 20 ->
  input = dec ++ l ++ suf' -> ip s = zlen dec ->
  0 <= off < maxOff -> off < zlen dec -> 3 <= zlen l <= maxRef -> repeats dec l off ->
  exists s', emit_match s off (zlen l) = Some s' /\ compressing input s' /\ ip s' = ip s + zlen l /\
    op s' <= op s + 4.
Proof.
  intros Hc Hslack Hi Hip Ho Hod Hl Hr. destruct (off_bytes off Ho) as (Hh & Hlo & _).
  destruct (close_run_ok input s Hc) as (enc & rest & dec' & suf & E & Hd & Hi' & Hip' & Hop1 & Hop2 & Hlen).
  assert (dec' = dec) as ->.
  { assert (take (length dec) input = dec) as <- by (rewrite Hi; apply take_app_length).
    assert (take (length dec') input = dec') as <- by (rewrite Hi'; apply take_app_length).
    f_equal. unfold zlen in *. lia. }
  unfold emit_match. rewrite E. go_bind.
  assert (exists rest' y, rest = take (length (ref_token off (zlen l - 2))) rest ++ y :: rest' /\
    (length (ref_token off (zlen l - 2)) <= length rest)%nat) as (rest' & y & Hrest & Hrl).
  { assert (4 <= length rest)%nat by (rewrite zlen_app in Hlen; unfold zlen in *; lia).
    assert (length (ref_token off (zlen l - 2)) <= 3)%nat by (unfold ref_token; destruct (_ <? _); simpl; lia).
    destruct (drop (length (ref_token off (zlen l - 2))) rest) as [|y rest'] eqn:Ed.
    { apply (f_equal length) in Ed. rewrite length_drop in Ed. simpl in Ed. lia. }
    exists rest', y. split; [|lia]. rewrite <- Ed. symmetry. apply take_drop. }
  set (tok := ref_token off (zlen l - 2)) in *.
  assert (exists s', (
    '(op, o) ← (if zlen l - 2 <? 7 then
         o ← go_set (enc ++ rest) (zlen enc) (u8 (Z.lor (Z.shiftr off 8) (Z.shiftl (zlen l - 2) 5))); Some (zlen enc + 1, o)
       else
         o ← go_set (enc ++ rest) (zlen enc) (u8 (Z.lor (Z.shiftr off 8) (Z.shiftl 7 5)));
         o ← go_set o (zlen enc + 1) (u8 (zlen l - 2 - 7)); Some (zlen enc + 2, o));
    o ← go_set o op (u8 (Z.land off 255));
    Some (mkC (ip s + zlen l) (op + 2) 0 o)) = Some s' /\
    out s' = enc ++ tok ++ y :: rest' /\ ip s' = ip s + zlen l /\ op s' = zlen enc + zlen tok + 1 /\ lit s' = 0)
    as (s' & E' & Hout & Hips & Hops & Hlits).
  { unfold tok, ref_token, maxRef in *. rewrite (u8_id (Z.land off 255)) by (unfold is_byte; lia).
    destruct (Z.ltb_spec (zlen l - 2) 7).
    - destruct rest as [|a [|b rest]]; simpl in Hrl; [lia..|]. simpl in Hrest. injection Hrest as Hrest.
      rewrite u8_ref_ctrl by lia. rewrite go_set_mid by done. go_bind.
      rewrite (cons_middle _ enc (b :: rest)), app_assoc, go_set_mid by zlen_lia. go_bind. eexists. split; [done|]. cbn [out ip op lit].
      split_and!; [|done|zlen_lia|done]. rewrite <- app_assoc. simpl. congruence.
    - destruct rest as [|a [|b [|c rest]]]; simpl in Hrl; [lia..|]. simpl in Hrest. injection Hrest as Hrest.
      rewrite u8_ref_ctrl by lia. rewrite (u8_id (zlen l - 2 - 7)) by (unfold is_byte; lia). rewrite go_set_mid by done. go_bind.
      rewrite (cons_middle _ enc (b :: c :: rest)), app_assoc, go_set_mid by zlen_lia. go_bind.
      rewrite (cons_middle _ (enc ++ [_]) (c :: rest)), (app_assoc (enc ++ [_])), go_set_mid by zlen_lia. go_bind.
      eexists. split; [done|]. cbn [out ip op lit].
      split_and!; [|done|zlen_lia|done]. rewrite <- !app_assoc. simpl. change (Z.shiftl 7 5) with 224. congruence. }
  exists s'. split; [exact E'|]. split.
  - exists (enc ++ tok), y, [], rest', (dec ++ l), suf'. split; try done.
    + rewrite Hout, <- app_assoc. done.
    + rewrite Hi, <- app_assoc. done.
    + by constructor.
    + rewrite Hips, Hip. zlen_lia.
    + rewrite Hops. zlen_lia.
    + rewrite Hout, <- Hlen, Hrest. rewrite !zlen_app. rewrite zlen_take by (unfold zlen; lia). fold (zlen tok). lia.
  - split; [done|]. rewrite Hops. assert (zlen tok <= 3) by (unfold tok, ref_token; destruct (_ <? _); zlen_lia). lia.
Qed.

(** ** The loops *)

Lemma findMatchLen_ok input i j n :
  0 <= i -> 0 <= j -> j <= i -> i + Z.of_nat n <= zlen input ->
  exists m, findMatchLen input i j n = Some m /\ 0 <= m <= Z.of_nat n /\
    forall d, 0 <= d < m -> go_at input (i + d) = go_at input (j + d).
Proof.
  revert i j. induction n as [|n IH]; intros i j Hi Hj Hji Hl; [exists 0; split_and!; [done|lia..]|].
  cbn [findMatchLen]. destruct (go_at_some input i) as [a Ha]; [lia|]. destruct (go_at_some input j) as [b Hb]; [lia|].
  rewrite Ha, Hb. go_bind. destruct (Z.eqb_spec a b) as [->|]; [|exists 0; split_and!; [done|lia..]].
  destruct (IH (i + 1) (j + 1)) as (m & -> & Hm & Hd); [lia..|]. go_bind. exists (1 + m). split_and!; [done|lia..|].
  intros d Hdd. destruct (Z.eq_dec d 0) as [->|]; [by rewrite !Z.add_0_r, Ha, Hb|].
  replace (i + d) with (i + 1 + (d - 1)) by lia. replace (j + d) with (j + 1 + (d - 1)) by lia. apply Hd. lia.
Qed.

Lemma hash3_ok input p : 0 <= p -> p < zlen input - 2 -> exists h, hash3 input p = Some h.
Proof.
  intros H1 H2. unfold hash3. destruct (go_at_some input p) as [a ->]; [lia|].
  destruct (go_at_some input (p + 1)) as [b ->]; [lia|]. destruct (go_at_some input (p + 2)) as [c ->]; [lia|]. eauto.
Qed.

Lemma matches3_ok input ref p :
  0 <= ref -> ref < p -> p < zlen input - 2 ->
  exists m, matches3 input ref p = Some m /\
    (m = true -> forall d, 0 <= d < 3 -> go_at input (p + d) = go_at input (ref + d)).
Proof.
  intros H0 H1 H2. unfold matches3.
  destruct (go_at_some input ref) as [a Ha]; [lia|]. destruct (go_at_some input p) as [b Hb]; [lia|].
  destruct (go_at_some input (ref + 1)) as [a1 Ha1]; [lia|]. destruct (go_at_some input (p + 1)) as [b1 Hb1]; [lia|].
  destruct (go_at_some input (ref + 2)) as [a2 Ha2]; [lia|]. destruct (go_at_some input (p + 2)) as [b2 Hb2]; [lia|].
  rewrite Ha, Hb, Ha1, Hb1, Ha2, Hb2. go_bind. destruct (Z.eqb_spec a b) as [->|]; simpl; [|by eexists].
  destruct (Z.eqb_spec a1 b1) as [->|]; simpl; [|by eexists]. eexists. split; [done|].
  intros ->%Z.eqb_eq d Hd. assert (d = 0 \/ d = 1 \/ d = 2) as [->|[->| ->]] by lia; rewrite ?Z.add_0_r; congruence.
Qed.

(** Every position the hash table knows is before the current one. *)
Definition past (htab : gmap Z Z) (p : Z) : Prop := forall h v, htab !! h = Some v -> 0 <= v < p.

Lemma past_insert htab h p q : past htab p -> 0 <= p < q -> past (<[h := p]> htab) q.
Proof.
  intros Hp Hq h' v. destruct (decide (h = h')) as [->|].
  - rewrite lookup_insert_eq. intros [= <-]. done.
  - rewrite lookup_insert_ne by done. intros ?%Hp. lia.
Qed.

Lemma go_at_take {A} (l : list A) n i : i < Z.of_nat n -> go_at (take n l) i = go_at l i.
Proof. intros Hi. unfold go_at. destruct (Z.ltb_spec i 0); [done|]. apply lookup_take_lt. lia. Qed.

(** The input from [ip] on repeats the input from [ref] on. *)
Lemma match_repeats input p ref n :
  0 <= ref < p -> p + n <= zlen input -> 0 <= n ->
  (forall d, 0 <= d < n -> go_at input (p + d) = go_at input (ref + d)) ->
  let dec := take (Z.to_nat p) input in let l := take (Z.to_nat n) (drop (Z.to_nat p) input) in
  input = dec ++ l ++ drop (Z.to_nat (p + n)) input /\ zlen dec = p /\ zlen l = n /\ repeats dec l (p - ref - 1).
Proof.
  intros Hr Hp Hn Hd dec l.
  assert (zlen dec = p) as Hdec by (unfold dec; rewrite zlen_take by (unfold zlen in *; lia); lia).
  assert (zlen l = n) as Hl by (unfold l, zlen in *; rewrite length_take, length_drop; lia).
  assert (dec ++ l = take (Z.to_nat (p + n)) input) as Hdl.
  { unfold dec, l. rewrite take_take_drop. f_equal. lia. }
  split_and!; [|done|done|].
  - rewrite app_assoc, Hdl, take_drop. done.
  - intros i Hi. rewrite Hdl, Hdec, Hl in *. rewrite !go_at_take by lia. rewrite Hd by lia. f_equal. lia.
Qed.

Lemma compressing_ip input s : compressing input s -> 0 <= ip s <= zlen input.
Proof. intros (enc & r & lits & rest & pre & suf & [? -> ? ? ? -> ? ?]). zlen_lia. Qed.

Lemma compress_loop_ok fuel input htab s :
  compressing input s -> past htab (ip s) -> op s <= zlen input -> zlen input < ip s + Z.of_nat fuel ->
  exists r, compress_loop fuel input htab s = Some r /\
    match r with
    | inl s' => compressing input s' /\ op s' <= zlen input + 4 /\ zlen input - 2 <= ip s'
    | inr _ => True
    end.
Proof.
  revert htab s. induction fuel as [|fuel IH]; intros htab s Hc Hp Hop Hf; pose proof (compressing_ip input s Hc) as Hip; [lia|].
  cbn [compress_loop]. destruct (Z.ltb_spec (ip s) (zlen input - 2)) as [Hlt|]; [|eexists; split; [done|]; split_and!; [done|lia..]].
  destruct (hash3_ok input (ip s)) as [h ->]; [lia..|]. go_bind.
  destruct (emit_literal_ok input s Hc) as (s1 & E1 & Hc1 & Hip1 & Hop1); [lia|lia|].
  assert (exists r, (s0 ← emit_literal input s;
     if zlen input <=? op s0 then Some (inr tt) else compress_loop fuel input (<[h := ip s]> htab) s0) = Some r /\
    match r with inl s' => compressing input s' /\ op s' <= zlen input + 4 /\ zlen input - 2 <= ip s' | inr _ => True end) as Hliteral.
  { rewrite E1. go_bind. destruct (Z.leb_spec (zlen input) (op s1)); [by eexists|].
    apply IH; [done| |lia|lia]. rewrite Hip1. apply past_insert; [done|lia]. }
  destruct (htab !! h) as [ref|] eqn:Eh; simpl default; cbn [andb]; [|exact Hliteral].
  pose proof (Hp h ref Eh) as Href. rewrite (proj2 (Z.leb_le 0 ref)) by lia. simpl andb.
  destruct (Z.ltb_spec (ip s - ref - 1) maxOff) as [Hoff|]; [|exact Hliteral].
  destruct (matches3_ok input ref (ip s)) as ([] & -> & Hm3); [lia..| |exact Hliteral]. go_bind. specialize (Hm3 eq_refl).
  destruct (findMatchLen_ok input (ip s + 3) (ref + 3) (Z.to_nat (Z.min (zlen input - ip s) maxRef - 3)))
    as (n & -> & Hn & Hmn); [unfold maxRef; lia..|]. go_bind. unfold maxRef in Hn.
  destruct (match_repeats input (ip s) ref (3 + n)) as (Hin & Hdec & Hl & Hrep); [lia|lia|lia| |].
  { intros d Hd. destruct (Z.lt_ge_cases d 3); [by apply Hm3; lia|].
    replace (ip s + d) with (ip s + 3 + (d - 3)) by lia. replace (ref + d) with (ref + 3 + (d - 3)) by lia. apply Hmn. lia. }
  set (dec := take _ input) in *. set (l := take _ (drop _ _)) in *.
  destruct (emit_match_ok input s (ip s - ref - 1) l _ dec Hc ltac:(lia) Hin ltac:(lia) ltac:(lia) ltac:(lia))
    as (s2 & E2 & Hc2 & Hip2 & Hop2); [unfold maxRef; lia|done|].
  rewrite Hl in E2, Hip2. rewrite E2. go_bind.
  destruct (Z.leb_spec (zlen input - 2) (ip s2)); [eexists; split; [done|]; split_and!; [done|lia..]|].
  destruct (Z.leb_spec (zlen input) (op s2)); [by eexists|].
  apply IH; [done| |lia|lia]. rewrite Hip2. apply past_insert; [done|lia].
Qed.

Lemma trailing_loop_ok fuel input s :
  compressing input s -> zlen input - ip s <= 2 -> op s + 2 * (zlen input - ip s) <= zlen input + 20 ->
  zlen input < ip s + Z.of_nat fuel ->
  exists s', trailing_loop fuel input s = Some s' /\ compressing input s' /\ ip s' = zlen input.
Proof.
  revert s. induction fuel as [|fuel IH]; intros s Hc Hi Ho Hf; pose proof (compressing_ip input s Hc); [lia|].
  cbn [trailing_loop]. destruct (Z.ltb_spec (ip s) (zlen input)); [|exists s; split_and!; [done|done|lia]].
  destruct (emit_literal_ok input s Hc) as (s1 & -> & Hc1 & Hip1 & Hop1); [lia|lia|]. go_bind. apply IH; [done|lia..].
Qed.

(** [Compress] returns, and what it returns is a stream for the input. *)
Lemma Compress_ok input :
  exists r, Compress input = Some r /\
    match r with None => True | Some enc => decodes enc input /\ zlen enc < zlen input end.
Proof.
  unfold Compress. destruct (Z.ltb_spec (zlen input) minLen); [by eexists|].
  destruct (compress_loop_ok (S (length input)) input ∅ (mkC 0 1 0 (replicate (Z.to_nat (zlen input + 32)) 0)))
    as (r & -> & Hr); [by apply compressing_init|intros ? ?; by rewrite lookup_empty| | |]; cbn [ip op].
  { unfold minLen in *. lia. }
  { unfold zlen. lia. }
  go_bind. destruct r as [s|]; [|by eexists]. destruct Hr as (Hc & Hop & Hip).
  pose proof (compressing_ip input s Hc).
  destruct (trailing_loop_ok (S (length input)) input s) as (s' & -> & Hc' & Hip'); [done|lia|lia|unfold zlen in *; lia|].
  go_bind. destruct (close_run_ok input s' Hc') as (enc & rest & dec & suf & -> & Hd & Hi & Hipd & _).
  go_bind. destruct (Z.leb_spec (zlen input) (zlen enc)); [by eexists|].
  rewrite go_slice_prefix by done. go_bind. eexists. split; [done|]. split; [|done].
  destruct suf; [by rewrite app_nil_r in Hi; subst|]. rewrite Hi in Hip'. rewrite Hip' in Hipd. zlen_lia.
Qed.

(** ** Properties *)

(** C29. LZF round trip: on every input [Compress] returns without an index out of range; when it
    returns a stream, the stream is shorter than the input and [Decompress] expands it to the
    input. *)
Theorem lzf_roundtrip input :
  exists r, Compress input = Some r /\
    match r with
    | None => True
    | Some enc => zlen enc < zlen input /\ Decompress enc (zlen input) = Some (inl input)
    end.
Proof.
  destruct (Compress_ok input) as (r & E & Hr). exists r. split; [done|].
  destruct r; [|done]. destruct Hr as [Hd Hl]. split; [done|]. by apply decodes_Decompress.
Qed.

Lemma copy_overlap_total n acc ref :
  0 <= ref < zlen acc -> exists r, copy_overlap n acc ref = Some r /\ zlen r = zlen acc + Z.of_nat n.
Proof.
  revert acc ref. induction n as [|n IH]; intros acc ref Hr; [exists acc; split; [done|lia]|].
  cbn [copy_overlap]. destruct (go_at_some acc ref Hr) as [b ->]. go_bind.
  destruct (IH (acc ++ [b]) (ref + 1)) as (r & -> & Hl); [zlen_lia|]. exists r. split; [done|]. zlen_lia.
Qed.

Lemma decompress_loop_total fuel input acc E :
  is_bytes input -> (length input < fuel)%nat -> exists r, decompress_loop fuel input acc E = Some r.
Proof.
  revert input acc. induction fuel as [|fuel IH]; intros input acc Hb Hf; [lia|].
  cbn [decompress_loop]. destruct input as [|ctrl input]; [by eexists|]. simpl in Hf.
  apply Forall_cons in Hb as [Hctrl Hb]. unfold is_byte in Hctrl.
  assert (forall n a, exists r, decompress_loop fuel (drop n input) a E = Some r) as Hrec.
  { intros n a. apply IH; [by apply Forall_drop|]. rewrite length_drop. lia. }
  destruct (ctrl <? 32); [destruct (_ || _); [by eexists|apply Hrec]|].
  assert (forall (k : nat) b mLen, is_byte b -> 0 <= mLen -> exists r,
    (let ref := zlen acc - (Z.shiftl (Z.land ctrl 31) 8 + 1 + b) in
     if (ref <? 0) || (E <? zlen acc + (mLen + 2)) then Some (inr tt)
     else
       acc0 ← (if ref + (mLen + 2) <=? zlen acc then chunk ← go_slice acc ref (ref + (mLen + 2)); Some (acc ++ chunk)
               else copy_overlap (Z.to_nat (mLen + 2)) acc ref);
       decompress_loop fuel (drop k input) acc0 E) = Some r) as Hcopy.
  { intros k b mLen Hbb Hm. cbv zeta. unfold is_byte in Hbb.
    assert (0 <= Z.shiftl (Z.land ctrl 31) 8) by (apply Z.shiftl_nonneg, Z.land_nonneg; lia).
    set (ref := zlen acc - _). destruct (Z.ltb_spec ref 0); simpl; [by eexists|]. destruct (_ <? _); [by eexists|].
    destruct (Z.leb_spec (ref + (mLen + 2)) (zlen acc)).
    - unfold go_slice. rewrite !(proj2 (Z.leb_le _ _)) by lia. simpl. apply Hrec.
    - destruct (copy_overlap_total (Z.to_nat (mLen + 2)) acc ref) as (r & -> & _); [unfold ref in *; lia|]. go_bind. apply Hrec. }
  assert (0 <= Z.shiftr ctrl 5) by (apply Z.shiftr_nonneg; lia).
  destruct (Z.shiftr ctrl 5 =? 7).
  - destruct input as [|b [|c input]]; [by eexists|by eexists|].
    apply Forall_cons in Hb as [Hb1 Hb]. apply Forall_cons in Hb as [Hb2 Hb].
    apply (Hcopy 2%nat); [done|unfold is_byte in *; lia].
  - destruct input as [|b input]; [by eexists|]. apply Forall_cons in Hb as [Hb1 Hb]. by apply (Hcopy 1%nat).
Qed.

(** Robustness of the decoder: on arbitrary bytes (a damaged or hostile RDB file) [Decompress]
    returns, never indexing out of range, and any output it returns has the announced length. *)
Theorem decompress_never_panics input expectedLen :
  is_bytes input -> 0 <= expectedLen ->
  exists r, Decompress input expectedLen = Some r /\ forall o, r = inl o -> zlen o = expectedLen.
Proof.
  intros Hb HE. unfold Decompress. rewrite (proj2 (Z.ltb_ge _ 0)) by lia.
  destruct (decompress_loop_total (S (length input)) input [] expectedLen Hb) as [r ->]; [lia|]. go_bind.
  destruct r as [acc|]; [|eexists; split; [done|congruence]].
  destruct (Z.eqb_spec (zlen acc) expectedLen); eexists; (split; [done|]); congruence.
Qed.

Lemma decompress_never_panics_witness :
  exists r, Decompress [255; 3; 1; 9] 40 = Some r /\ forall o, r = inl o -> zlen o = 40.
Proof.
  apply decompress_never_panics; [|lia]. repeat constructor; unfold is_byte; lia.
Defined.

(** A run of equal bytes does compress: one literal and one overlapping reference. *)
Example compress_run : Compress (replicate 24 97) = Some (Some [0; 97; 224; 14; 0]).
Proof. vm_compute. reflexivity. Qed.
