(* ===== verification/Stream.v ===== *)
(** * Streams ([datastruct/stream/stream.go], [chunk.go], [cgroup.go], [id.go])

    A stream is a list of chunks (the linked chain from [head] to [tail]), each with the records
    appended to it, deleted ones included.  Values are copied into the chunk's arena, which
    belongs to a third-party package: its state and its allocator are parameters ([fresh],
    [alloc]); an allocation may be refused, and then the record goes to a new chunk.

    The reference is a log: the list of the live entries in order.  [stream_history] shows that
    adding, trimming and deleting, and range queries in both directions, are the operations on
    the log, when the ids of the additions increase and every entry fits an empty chunk; the
    theorems on what happens otherwise stand beside it in [StreamSpec].  Consumer groups: [group_delivers_once] and the
    invariant of the pending lists. *)

From S2P Require Import Prelude Strconv.

Local Open Scope Z_scope.

(** ** Identifiers *)

Record StreamID := mkID { Ms : Z; Seq : Z }.

#[export] Instance StreamID_eq_dec : EqDecision StreamID.
Proof. solve_decision. Defined.

#[export] Instance StreamID_countable : Countable StreamID.
Proof.
  by refine (inj_countable' (fun i => (Ms i, Seq i)) (fun p => mkID p.1 p.2) _); intros [].
Defined.

Definition ZeroID : StreamID := mkID 0 0.
Definition MaxID : StreamID := mkID (2 ^ 64 - 1) (2 ^ 64 - 1).

Definition Compare (id other : StreamID) : Z :=
  if Ms id <? Ms other then -1
  else if Ms other <? Ms id then 1
  else if Seq id <? Seq other then -1
  else if Seq other <? Seq id then 1
  else 0.

(** [String] of an id. *)
Definition String_ (id : StreamID) : bytes := FormatUint (Ms id) ++ 45 :: FormatUint (Seq id).

(** [strings.Split(s, "-")]. *)
Fixpoint split_dash (s cur : bytes) : list bytes :=
  match s with
  | [] => [cur]
  | c :: s => if c =? 45 then cur :: split_dash s [] else split_dash s (cur ++ [c])
  end.

(** [now] is the clock in milliseconds; [None] is [ErrInvalidIDFormat]. *)
Definition ParseID (now : Z) (s : bytes) (lastID : StreamID) : option StreamID :=
  let s := TrimSpace s in
  if bool_decide (s = str "-") then Some ZeroID
  else if bool_decide (s = str "+") then Some MaxID
  else if bool_decide (s = str "*") then
    let nowMs := u64 now in
    let nowMs := if nowMs <? Ms lastID then Ms lastID else nowMs in
    Some (mkID nowMs (if nowMs =? Ms lastID then u64 (Seq lastID + 1) else 0))
  else
    match split_dash s [] with
    | [p] => ms ← ParseUint p; Some (mkID ms 0)
    | [p; q] =>
      ms ← ParseUint p;
      if bool_decide (q = str "*") then
        Some (mkID ms (if ms =? Ms lastID then u64 (Seq lastID + 1) else 0))
      else seq ← ParseUint q; Some (mkID ms seq)
    | _ => None
    end.

(** ** Chunks *)

Definition MaxChunkEntries : Z := 512.

Record EntryRecord := mkRec {
  r_ID : StreamID;
  r_FieldIDs : list Z;   (* uint16 *)
  r_Values : list bytes;
  r_Deleted : bool
}.

Record StreamEntry := mkSE { e_ID : StreamID; e_Fields : list bytes; e_Values : list bytes }.

Record StreamChunk (A : Type) := mkChunk {
  arena : A;
  entries : list EntryRecord;
  deletedCount : Z
}.
Arguments mkChunk {A}.
Arguments arena {A}.
Arguments entries {A}.
Arguments deletedCount {A}.

(** ** Consumer groups *)

Record NackEntry := mkNack {
  n_ID : StreamID; n_ConsumerName : bytes; n_DeliveryTime : Z; n_DeliveryCount : Z
}.

(** The pending list of a consumer maps ids to the entries of the group's list; only its key set is
    ever read. *)
Record Consumer := mkConsumer { c_Name : bytes; c_ActiveTime : Z; c_Pel : gset StreamID }.

Record ConsumerGroup := mkGroup {
  g_Name : bytes;
  g_LastDeliveredID : StreamID;
  g_Pel : gmap StreamID NackEntry;
  g_Consumers : gmap bytes Consumer
}.

Record PendingReportEntry := mkPending {
  p_ID : StreamID; p_ConsumerName : bytes; p_IdleTimeMs : Z; p_DeliveryCount : Z
}.

Definition NewConsumerGroup (name : bytes) (startID : StreamID) : ConsumerGroup :=
  mkGroup name startID ∅ ∅.

Definition GetOrCreateConsumer (now : Z) (cg : ConsumerGroup) (name : bytes) : ConsumerGroup * Consumer :=
  let c := match g_Consumers cg !! name with
           | None => mkConsumer name now ∅
           | Some c => mkConsumer (c_Name c) now (c_Pel c)
           end in
  (mkGroup (g_Name cg) (g_LastDeliveredID cg) (g_Pel cg) (<[name := c]> (g_Consumers cg)), c).

Definition AddPending (now : Z) (cg : ConsumerGroup) (consumerName : bytes) (id : StreamID) : ConsumerGroup :=
  let '(cg, c) := GetOrCreateConsumer now cg consumerName in
  let nack := match g_Pel cg !! id with
              | Some e => mkNack (n_ID e) consumerName now (n_DeliveryCount e + 1)
              | None => mkNack id consumerName now 1
              end in
  mkGroup (g_Name cg) (g_LastDeliveredID cg) (<[id := nack]> (g_Pel cg))
    (<[consumerName := mkConsumer (c_Name c) (c_ActiveTime c) ({[id]} ∪ c_Pel c)]> (g_Consumers cg)).

Definition cg_Ack (cg : ConsumerGroup) (id : StreamID) : bool * ConsumerGroup :=
  match g_Pel cg !! id with
  | None => (false, cg)
  | Some nack =>
    let consumers :=
      match g_Consumers cg !! n_ConsumerName nack with
      | Some c => <[n_ConsumerName nack := mkConsumer (c_Name c) (c_ActiveTime c) (c_Pel c ∖ {[id]})]> (g_Consumers cg)
      | None => g_Consumers cg
      end in
    (true, mkGroup (g_Name cg) (g_LastDeliveredID cg) (delete id (g_Pel cg)) consumers)
  end.

(** ** The stream *)

Inductive StreamError := ErrInvalidStreamID | ErrGroupNotFound | ErrGroupExists.

Record Stream (A : Type) := mkStream {
  chunks : list (StreamChunk A);
  length_ : Z;
  firstID : StreamID;
  lastID : StreamID;
  fields : list bytes;
  fieldMap : gmap bytes Z;
  cgroups : gmap bytes ConsumerGroup;
  waiters : gmap Z bool;   (* id -> a wake-up is in the channel *)
  nextWaitID : Z
}.
Arguments mkStream {A}.
Arguments chunks {A}.
Arguments length_ {A}.
Arguments firstID {A}.
Arguments lastID {A}.
Arguments fields {A}.
Arguments fieldMap {A}.
Arguments cgroups {A}.
Arguments waiters {A}.
Arguments nextWaitID {A}.

Section stream.
Context {A : Type} (fresh : A) (alloc : A -> Z -> option A).
Implicit Types (s : Stream A) (c : StreamChunk A) (id : StreamID).

Definition NewStream : Stream A := mkStream [] 0 ZeroID ZeroID [] ∅ ∅ ∅ 0.

Definition Len s : Z := length_ s.
Definition LastID s : StreamID := lastID s.
Definition FirstID s : StreamID := firstID s.

Definition NewChunk : StreamChunk A := mkChunk fresh [] 0.
Definition IsFull c : bool := MaxChunkEntries <=? zlen (entries c).
Definition NumActive c : Z := zlen (entries c) - deletedCount c.

(** The allocations of one record; empty values take no space.  The flag tells whether all were
    granted; those granted before a refusal stay taken. *)
Fixpoint alloc_values (a : A) (values : list bytes) : bool * A :=
  match values with
  | [] => (true, a)
  | v :: values =>
    if 0 <? zlen v then
      match alloc a (zlen v) with Some a => alloc_values a values | None => (false, a) end
    else alloc_values a values
  end.

Definition Append c id (fieldIDs : list Z) (values : list bytes) : bool * StreamChunk A :=
  if IsFull c then (false, c)
  else
    let '(ok, a) := alloc_values (arena c) values in
    if ok then (true, mkChunk a (entries c ++ [mkRec id fieldIDs values false]) (deletedCount c))
    else (false, mkChunk a (entries c) (deletedCount c)).

Definition with_chunks s (l : list (StreamChunk A)) (n : Z) : Stream A :=
  mkStream l n (firstID s) (lastID s) (fields s) (fieldMap s) (cgroups s) (waiters s) (nextWaitID s).
Definition with_groups s (g : gmap bytes ConsumerGroup) : Stream A :=
  mkStream (chunks s) (length_ s) (firstID s) (lastID s) (fields s) (fieldMap s) g (waiters s) (nextWaitID s).

Definition internField s (name : bytes) : Z * Stream A :=
  match fieldMap s !! name with
  | Some i => (i, s)
  | None =>
    let i := u16 (zlen (fields s)) in
    (i, mkStream (chunks s) (length_ s) (firstID s) (lastID s) (fields s ++ [name])
          (<[name := i]> (fieldMap s)) (cgroups s) (waiters s) (nextWaitID s))
  end.

Fixpoint intern_all s (names : list bytes) : list Z * Stream A :=
  match names with
  | [] => ([], s)
  | n :: names => let '(i, s) := internField s n in let '(ids, s) := intern_all s names in (i :: ids, s)
  end.

(** [notifyWaitersInternal]: a non-blocking send to every waiter. *)
Definition notifyWaitersInternal s : Stream A :=
  mkStream (chunks s) (length_ s) (firstID s) (lastID s) (fields s) (fieldMap s) (cgroups s)
    ((fun _ => true) <$> waiters s) (nextWaitID s).

(** ** Trimming *)

(** The marking loop over the head's records: it stops when the length is at most [maxLen]. *)
Fixpoint mark_oldest (recs : list EntryRecord) (len maxLen : Z) : list EntryRecord * Z :=
  match recs with
  | [] => ([], len)
  | r :: recs =>
    if r_Deleted r then let '(recs, len) := mark_oldest recs len maxLen in (r :: recs, len)
    else
      let r := mkRec (r_ID r) (r_FieldIDs r) (r_Values r) true in
      let len := len - 1 in
      if len <=? maxLen then (r :: recs, len)
      else let '(recs, len) := mark_oldest recs len maxLen in (r :: recs, len)
  end.

(** The loop of [trimInternal] on the chunks and the length; [None] is a loop that did not end. *)
Fixpoint trim_loop (fuel : nat) (l : list (StreamChunk A)) (len maxLen : Z) (approx : bool)
    : option (list (StreamChunk A) * Z) :=
  match fuel with
  | O => None
  | S fuel =>
    match l with
    | [] => Some (l, len)
    | c :: rest =>
      if len <=? maxLen then Some (l, len)
      else
        let activeInHead := NumActive c in
        if approx && (maxLen <=? len - activeInHead) then trim_loop fuel rest (len - activeInHead) maxLen approx
        else
          let '(recs, len') := mark_oldest (entries c) len maxLen in
          let c := mkChunk (arena c) recs (deletedCount c + (len - len')) in
          trim_loop fuel (if NumActive c =? 0 then rest else c :: rest) len' maxLen approx
    end
  end.

Definition trimInternal s (maxLen : Z) (approx : bool) : option (Z * Stream A) :=
  '(l, len) ← trim_loop (S (length (chunks s) + 1)) (chunks s) (length_ s) maxLen approx;
  Some (length_ s - len, with_chunks s l len).

Definition Trim s (maxLen : Z) (approx : bool) : option (Z * Stream A) := trimInternal s maxLen approx.

(** ** Adding *)

(** The tail of the chunk list gets the record, or a new tail does. *)
Definition append_tail (l : list (StreamChunk A)) id (fieldIDs : list Z) (values : list bytes)
    : list (StreamChunk A) :=
  match last l with
  | None => [(Append NewChunk id fieldIDs values).2]
  | Some t =>
    let front := take (length l - 1) l in
    match Append t id fieldIDs values with
    | (true, t) => front ++ [t]
    | (false, t) => front ++ [t; (Append NewChunk id fieldIDs values).2]
    end
  end.

(** [Add] from the interned field ids on; a new stream starts with an empty chunk. *)
Definition add_record s id (fieldIDs : list Z) (values : list bytes) (maxLen : Z) (approx : bool)
    : option (Stream A) :=
  let isNew := match chunks s with [] => true | _ => false end in
  let l := if isNew then [NewChunk] else chunks s in
  let s := mkStream (append_tail l id fieldIDs values) (length_ s + 1)
             (if isNew then id else firstID s) id (fields s) (fieldMap s) (cgroups s) (waiters s) (nextWaitID s) in
  s ← (if (0 <? maxLen) && (maxLen <? length_ s) then r ← trimInternal s maxLen approx; Some r.2 else Some s);
  Some (notifyWaitersInternal s).

Definition Add s id (fieldNames fieldVals : list bytes) (maxLen : Z) (approx : bool)
    : option ((StreamError + StreamID) * Stream A) :=
  if (0 <? length_ s) && (Compare id (lastID s) <=? 0) then Some (inl ErrInvalidStreamID, s)
  else
    let '(fieldIDs, s) := intern_all s fieldNames in
    s ← add_record s id fieldIDs fieldVals maxLen approx;
    Some (inr id, s).

(** [AddRaw]: names and values alternate; an odd trailing name is ignored. *)
Fixpoint unpair (pairs : list bytes) : list bytes * list bytes :=
  match pairs with
  | n :: v :: pairs => let '(ns, vs) := unpair pairs in (n :: ns, v :: vs)
  | _ => ([], [])
  end.

Definition AddRaw s id (pairs : list bytes) (maxLen : Z) (approx : bool)
    : option ((StreamError + StreamID) * Stream A) :=
  let '(names, vals) := unpair pairs in Add s id names vals maxLen approx.

(** ** Queries *)

(** [unpackEntry]; a field id past the table gives an empty name, a missing value a panic. *)
Definition unpackEntry s (rec : EntryRecord) : option StreamEntry :=
  vals ← mapM (fun i => r_Values rec !! i) (seq 0 (length (r_FieldIDs rec)));
  Some (mkSE (r_ID rec) ((fun f => default [] (fields s !! Z.to_nat f)) <$> r_FieldIDs rec) vals).

(** The record loop of both directions: [skip] is the [continue] of an id before the range, [past]
    the [return] of one after it.  The flag reports a [return]. *)
Fixpoint range_recs s (skip past : StreamID -> bool) (count : Z) (recs : list EntryRecord)
    (result : list StreamEntry) : option (list StreamEntry * bool) :=
  match recs with
  | [] => Some (result, false)
  | rec :: recs =>
    if r_Deleted rec || skip (r_ID rec) then range_recs s skip past count recs result
    else if past (r_ID rec) then Some (result, true)
    else
      entry ← unpackEntry s rec;
      let result := result ++ [entry] in
      if (0 <? count) && (count <=? zlen result) then Some (result, true)
      else range_recs s skip past count recs result
  end.

(** The chunk loop: [passes] is the test that skips a whole chunk. *)
Fixpoint range_chunks s (skip past : StreamID -> bool) (count : Z) (l : list (list EntryRecord * bool))
    (result : list StreamEntry) : option (list StreamEntry) :=
  match l with
  | [] => Some result
  | (recs, passed) :: l =>
    if passed then range_chunks s skip past count l result
    else
      '(result, stop) ← range_recs s skip past count recs result;
      if (stop : bool) then Some result else range_chunks s skip past count l result
  end.

(** The last record, when there is one, is before [start]; the first one is after it. *)
Definition ends_before (start : StreamID) (recs : list EntryRecord) : bool :=
  match last recs with Some r => Compare (r_ID r) start <? 0 | None => false end.
Definition begins_after (start : StreamID) (recs : list EntryRecord) : bool :=
  match recs with r :: _ => 0 <? Compare (r_ID r) start | [] => false end.

Definition Range s (start end_ : StreamID) (count : Z) (reverse : bool) : option (list StreamEntry) :=
  if negb reverse then
    range_chunks s (fun id => Compare id start <? 0) (fun id => 0 <? Compare id end_) count
      ((fun c => (entries c, ends_before start (entries c))) <$> chunks s) []
  else
    range_chunks s (fun id => 0 <? Compare id start) (fun id => Compare id end_ <? 0) count
      ((fun c => (rev (entries c), begins_after start (entries c))) <$> rev (chunks s)) [].

Definition mark_deleted (ids : gset StreamID) (r : EntryRecord) : EntryRecord :=
  if negb (r_Deleted r) && bool_decide (r_ID r ∈ ids) then mkRec (r_ID r) (r_FieldIDs r) (r_Values r) true else r.

Definition hits (ids : gset StreamID) (recs : list EntryRecord) : Z :=
  zlen (filter (fun r => r_Deleted r = false /\ r_ID r ∈ ids) recs).

Definition Delete s (ids : list StreamID) : Z * Stream A :=
  let idMap : gset StreamID := list_to_set ids in
  let deleted := foldr (fun c n => hits idMap (entries c) + n) 0 (chunks s) in
  (deleted,
   with_chunks s
     ((fun c => mkChunk (arena c) (mark_deleted idMap <$> entries c) (deletedCount c + hits idMap (entries c))) <$> chunks s)
     (length_ s - deleted)).

(** ** Groups *)

Definition CreateGroup s (name : bytes) (startID : StreamID) : option StreamError * Stream A :=
  match cgroups s !! name with
  | Some _ => (Some ErrGroupExists, s)
  | None => (None, with_groups s (<[name := NewConsumerGroup name startID]> (cgroups s)))
  end.

(** The snapshots for XINFO; the order of a map's entries is unspecified. *)
Definition Groups s : list (bytes * Z * Z * StreamID) :=
  (fun '(name, cg) => (name, Z.of_nat (size (g_Consumers cg)), Z.of_nat (size (g_Pel cg)), g_LastDeliveredID cg))
    <$> map_to_list (cgroups s).

Definition Consumers s (group : bytes) : option (list (bytes * Z * Z)) :=
  cg ← cgroups s !! group;
  Some ((fun '(name, c) => (name, Z.of_nat (size (c_Pel c)), c_ActiveTime c)) <$> map_to_list (g_Consumers cg)).

Definition SetGroupID s (name : bytes) id : bool * Stream A :=
  match cgroups s !! name with
  | None => (false, s)
  | Some cg => (true, with_groups s (<[name := mkGroup (g_Name cg) id (g_Pel cg) (g_Consumers cg)]> (cgroups s)))
  end.

Definition DestroyGroup s (name : bytes) : bool * Stream A :=
  match cgroups s !! name with
  | Some _ => (true, with_groups s (delete name (cgroups s)))
  | None => (false, s)
  end.

(** All records in chain order. *)
Definition all_recs s : list EntryRecord := concat (entries <$> chunks s).

(** The delivery loop over the records. *)
Fixpoint deliver_loop s (now : Z) (consumerName : bytes) (count : Z) (noAck : bool) (recs : list EntryRecord)
    (cg : ConsumerGroup) (result : list StreamEntry) : option (list StreamEntry * ConsumerGroup) :=
  match recs with
  | [] => Some (result, cg)
  | rec :: recs =>
    if r_Deleted rec || (Compare (r_ID rec) (g_LastDeliveredID cg) <=? 0)
    then deliver_loop s now consumerName count noAck recs cg result
    else
      entry ← unpackEntry s rec;
      let result := result ++ [entry] in
      let cg := if noAck then cg else AddPending now cg consumerName (r_ID rec) in
      let cg := mkGroup (g_Name cg) (r_ID rec) (g_Pel cg) (g_Consumers cg) in
      if (0 <? count) && (count <=? zlen result) then Some (result, cg)
      else deliver_loop s now consumerName count noAck recs cg result
  end.

(** The history loop: the consumer's pending records after [startID]. *)
Fixpoint history_loop s (pel : gset StreamID) (startID : StreamID) (count : Z) (recs : list EntryRecord)
    (result : list StreamEntry) : option (list StreamEntry) :=
  match recs with
  | [] => Some result
  | rec :: recs =>
    if r_Deleted rec || (Compare (r_ID rec) startID <=? 0) || negb (bool_decide (r_ID rec ∈ pel))
    then history_loop s pel startID count recs result
    else
      entry ← unpackEntry s rec;
      let result := result ++ [entry] in
      if (0 <? count) && (count <=? zlen result) then Some result
      else history_loop s pel startID count recs result
  end.

Definition ReadGroup s (now : Z) (groupName consumerName : bytes) (startID : StreamID) (isNew : bool) (count : Z)
    (noAck : bool) : option ((StreamError + list StreamEntry) * Stream A) :=
  match cgroups s !! groupName with
  | None => Some (inl ErrGroupNotFound, s)
  | Some cg =>
    if isNew then
      '(result, cg) ← deliver_loop s now consumerName count noAck (all_recs s) cg [];
      Some (inr result, with_groups s (<[groupName := cg]> (cgroups s)))
    else
      let '(cg, consumer) := GetOrCreateConsumer now cg consumerName in
      result ← history_loop s (c_Pel consumer) startID count (all_recs s) [];
      Some (inr result, with_groups s (<[groupName := cg]> (cgroups s)))
  end.

Fixpoint ack_loop (cg : ConsumerGroup) (ids : list StreamID) : Z * ConsumerGroup :=
  match ids with
  | [] => (0, cg)
  | id :: ids =>
    let '(b, cg) := cg_Ack cg id in
    let '(n, cg) := ack_loop cg ids in ((if b then 1 else 0) + n, cg)
  end.

Definition Ack s (groupName : bytes) (ids : list StreamID) : Z * Stream A :=
  match cgroups s !! groupName with
  | None => (0, s)
  | Some cg => let '(n, cg) := ack_loop cg ids in (n, with_groups s (<[groupName := cg]> (cgroups s)))
  end.

(** The report loop of XPENDING. *)
Fixpoint pending_loop (now : Z) (cg : ConsumerGroup) (start end_ : StreamID) (count : Z) (consumerFilter : bytes)
    (recs : list EntryRecord) (result : list PendingReportEntry) : list PendingReportEntry :=
  match recs with
  | [] => result
  | rec :: recs =>
    if r_Deleted rec || (Compare (r_ID rec) start <? 0)
    then pending_loop now cg start end_ count consumerFilter recs result
    else if 0 <? Compare (r_ID rec) end_ then result
    else
      match g_Pel cg !! r_ID rec with
      | Some nack =>
        if bool_decide (consumerFilter = []) || bool_decide (n_ConsumerName nack = consumerFilter) then
          let result := result ++ [mkPending (r_ID rec) (n_ConsumerName nack) (now - n_DeliveryTime nack) (n_DeliveryCount nack)] in
          if (0 <? count) && (count <=? zlen result) then result
          else pending_loop now cg start end_ count consumerFilter recs result
        else pending_loop now cg start end_ count consumerFilter recs result
      | None => pending_loop now cg start end_ count consumerFilter recs result
      end
  end.

Definition Pending s (now : Z) (groupName : bytes) (start end_ : StreamID) (count : Z) (consumerFilter : bytes)
    : list PendingReportEntry :=
  match cgroups s !! groupName with
  | None => []
  | Some cg => pending_loop now cg start end_ count consumerFilter (all_recs s) []
  end.

Fixpoint claim_loop (now : Z) (consumerName : bytes) (minIdleMs : Z) (ids : list StreamID) (cg : ConsumerGroup)
    (claimed : gset StreamID) : ConsumerGroup * gset StreamID :=
  match ids with
  | [] => (cg, claimed)
  | id :: ids =>
    match g_Pel cg !! id with
    | Some nack =>
      if minIdleMs <=? now - n_DeliveryTime nack
      then claim_loop now consumerName minIdleMs ids (AddPending now cg consumerName id) ({[id]} ∪ claimed)
      else claim_loop now consumerName minIdleMs ids cg claimed
    | None => claim_loop now consumerName minIdleMs ids cg claimed
    end
  end.

Definition Claim s (now : Z) (groupName consumerName : bytes) (minIdleMs : Z) (ids : list StreamID)
    : option (list StreamEntry * Stream A) :=
  match cgroups s !! groupName with
  | None => Some ([], s)
  | Some cg =>
    let '(cg, claimed) := claim_loop now consumerName minIdleMs ids cg ∅ in
    result ← mapM (unpackEntry s) (filter (fun r => r_Deleted r = false /\ r_ID r ∈ claimed) (all_recs s));
    Some (result, with_groups s (<[groupName := cg]> (cgroups s)))
  end.

Definition RegisterWaiter s : Z * Stream A :=
  let id := u64 (nextWaitID s + 1) in
  (id, mkStream (chunks s) (length_ s) (firstID s) (lastID s) (fields s) (fieldMap s) (cgroups s)
         (<[id := false]> (waiters s)) id).

Definition UnregisterWaiter s (id : Z) : Stream A :=
  mkStream (chunks s) (length_ s) (firstID s) (lastID s) (fields s) (fieldMap s) (cgroups s)
    (delete id (waiters s)) (nextWaitID s).

End stream.
