(* ===== verification/StreamSpec.v ===== *)
(** * Streams are logs

    The refinement of [Stream] to a list of entries, and the properties of consumer groups. *)

From S2P Require Import Prelude Strconv Stream.

Local Open Scope Z_scope.

(** ** The order of identifiers *)

Definition id_lt (a b : StreamID) : Prop := Ms a < Ms b \/ (Ms a = Ms b /\ Seq a < Seq b).

Lemma Compare_spec a b :
  (Compare a b < 0 <-> id_lt a b) /\ (0 < Compare a b <-> id_lt b a) /\ (Compare a b = 0 <-> a = b).
Proof.
  unfold Compare, id_lt. destruct a as [m s], b as [m' s']. simpl.
  destruct (Z.ltb_spec m m'), (Z.ltb_spec m' m), (Z.ltb_spec s s'), (Z.ltb_spec s' s);
    try lia; split_and!; try lia; (split; [try lia; intros; f_equal; lia|intros [= ? ?]; lia]).
Qed.

Lemma Compare_lt a b : (Compare a b <? 0) = true <-> id_lt a b.
Proof. rewrite Z.ltb_lt. apply Compare_spec. Qed.

Lemma Compare_gt a b : (0 <? Compare a b) = true <-> id_lt b a.
Proof. rewrite Z.ltb_lt. apply Compare_spec. Qed.

Lemma Compare_le a b : (Compare a b <=? 0) = true <-> ~ id_lt b a.
Proof. rewrite Z.leb_le. destruct (Compare_spec a b) as (_ & H & _). rewrite <- H. lia. Qed.

Lemma id_lt_trans a b c : id_lt a b -> id_lt b c -> id_lt a c.
Proof. unfold id_lt. lia. Qed.

Lemma id_lt_irrefl a : ~ id_lt a a.
Proof. unfold id_lt. lia. Qed.

#[export] Instance id_lt_transitive : Transitive id_lt.
Proof. intros ? ? ?. apply id_lt_trans. Qed.

(** ** Parsing an identifier *)

Lemma split_dash_plain l rest cur :
  Forall is_digit l -> split_dash (l ++ rest) cur = split_dash rest (cur ++ l).
Proof.
  intros H. revert cur. induction H as [|c l Hc _ IH]; intros cur; [by rewrite app_nil_r|]. cbn [app split_dash].
  unfold is_digit in Hc. rewrite (proj2 (Z.eqb_neq _ _)) by lia. rewrite IH. by rewrite <- app_assoc.
Qed.

(** Parsing the text of an id gives the id back, whatever the clock and the last id are. *)
Theorem stream_id_roundtrip (now : Z) id last :
  0 <= Ms id < 2 ^ 64 -> 0 <= Seq id < 2 ^ 64 -> ParseID now (String_ id) last = Some id.
Proof.
  intros Hm Hs. unfold ParseID, String_.
  assert (Forall is_digit (FormatUint (Ms id)) /\ Forall is_digit (FormatUint (Seq id))) as [Dm Ds]
    by (split; apply FormatUint_digits; lia).
  assert (exists c l, FormatUint (Ms id) = c :: l /\ is_digit c) as (c & l & Ec & Hc).
  { pose proof (FormatUint_not_nil (Ms id) ltac:(lia)). destruct Dm; [done|eauto]. }
  rewrite TrimSpace_plain.
  - unfold is_digit in Hc. rewrite !bool_decide_false by (rewrite Ec; intros [=]; lia).
    rewrite split_dash_plain by done. cbn [split_dash app Z.eqb Pos.eqb].
    rewrite <- (app_nil_r (FormatUint (Seq id))) at 1. rewrite split_dash_plain by done. cbn [split_dash app].
    rewrite !ParseUint_FormatUint by done. cbn [mbind option_bind].
    rewrite bool_decide_false; [by destruct id|]. change (str "*") with [42]. intros E. rewrite E in Ds. apply Forall_cons in Ds as [Hd _].
    unfold is_digit in Hd. lia.
  - apply Forall_app. split; [|constructor; [lia|]]; eapply Forall_impl; try eassumption;
      unfold is_digit; intros x Hx; simpl in Hx; lia.
Qed.

Lemma stream_id_roundtrip_witness :
  ParseID 1700000000000 (String_ (mkID 1526919030474 55)) (mkID 3 4) = Some (mkID 1526919030474 55).
Proof. apply stream_id_roundtrip; simpl; lia. Defined.

(** ** Filters *)

Lemma filter_none {B} (P : B -> Prop) `{forall x, Decision (P x)} (l : list B) : Forall (fun x => ~ P x) l -> filter P l = [].
Proof. induction 1; [done|]. by rewrite filter_cons_False. Qed.

Lemma filter_all {B} (P : B -> Prop) `{forall x, Decision (P x)} (l : list B) : Forall P l -> filter P l = l.
Proof. induction 1 as [|x l Hx _ IH]; [done|]. by rewrite filter_cons_True, IH. Qed.

Lemma filter_fmap {B C} (f : B -> C) (P : C -> Prop) `{forall x, Decision (P x)} (l : list B) :
  filter P (f <$> l) = f <$> filter (fun x => P (f x)) l.
Proof. induction l as [|x l IH]; [done|]. rewrite fmap_cons, !filter_cons, IH. by destruct (decide (P (f x))). Qed.

Lemma filter_rev {B} (P : B -> Prop) `{forall x, Decision (P x)} (l : list B) : filter P (rev l) = rev (filter P l).
Proof.
  induction l as [|x l IH]; [done|]. simpl rev. rewrite filter_app, IH, (filter_cons _ x l), filter_singleton by done.
  destruct (decide (P x)); [done|]. by rewrite app_nil_r.
Qed.

(** ** Live records *)

Definition live (recs : list EntryRecord) : list EntryRecord := filter (fun r => r_Deleted r = false) recs.

Lemma live_app l k : live (l ++ k) = live l ++ live k.
Proof. apply filter_app. Qed.

(** What a record keeps when it is marked deleted. *)
Definition core (r : EntryRecord) : StreamID * list Z * list bytes := (r_ID r, r_FieldIDs r, r_Values r).

Section trimming.
Context {A : Type}.
Implicit Types (c : StreamChunk A) (l : list (StreamChunk A)).

Definition recs_of l : list EntryRecord := concat (entries <$> l).

Definition counted c : Prop := NumActive c = zlen (live (entries c)).

Lemma recs_of_cons c l : recs_of (c :: l) = entries c ++ recs_of l.
Proof. done. Qed.

Lemma recs_of_app l k : recs_of (l ++ k) = recs_of l ++ recs_of k.
Proof. unfold recs_of. by rewrite fmap_app, concat_app. Qed.

Lemma mark_oldest_spec recs len maxLen recs' len' :
  maxLen < len -> mark_oldest recs len maxLen = (recs', len') ->
  exists k, 0 <= k <= zlen (live recs) /\ (k = len - maxLen \/ (k = zlen (live recs) /\ k <= len - maxLen)) /\
    live recs' = drop (Z.to_nat k) (live recs) /\ len' = len - k /\ (core <$> recs') = core <$> recs.
Proof.
  revert len recs' len'. induction recs as [|r recs IH]; intros len recs' len' Hl E; cbn [mark_oldest] in E.
  { simplify_eq. exists 0. unfold live. rewrite filter_nil, zlen_nil. split_and!; try done; lia. }
  unfold live in *. destruct (r_Deleted r) eqn:Hd.
  - destruct (mark_oldest recs len maxLen) as [recs1 len1] eqn:E1. simplify_eq.
    destruct (IH len recs1 len' Hl E1) as (k & ? & ? & Hlv & ? & Hid). exists k.
    rewrite !filter_cons_False by congruence. split_and!; [lia|lia|lia|done|done|]. by rewrite !fmap_cons, Hid.
  - rewrite (filter_cons_True _ _ recs) by done.
    destruct (Z.leb_spec (len - 1) maxLen).
    + simplify_eq. exists 1. rewrite filter_cons_False by done. zlen_pose. rewrite zlen_cons.
      split_and!; [lia|lia|left; lia|done|done|done].
    + destruct (mark_oldest recs (len - 1) maxLen) as [recs1 len1] eqn:E1. simplify_eq.
      destruct (IH (len - 1) recs1 len' ltac:(lia) E1) as (k & ? & ? & Hlv & ? & Hid). exists (1 + k).
      rewrite filter_cons_False by done. rewrite zlen_cons. split_and!; [lia|lia|lia| |lia|].
      * rewrite Hlv. by replace (Z.to_nat (1 + k)) with (S (Z.to_nat k)) by lia.
      * by rewrite !fmap_cons, Hid.
Qed.

(** What a trim to [maxLen] leaves of a list. *)
Definition keep_last {B} (maxLen : Z) (l : list B) : list B := drop (Z.to_nat (zlen l - Z.max 0 maxLen)) l.

Lemma keep_last_app {B} maxLen (k l : list B) :
  Z.max 0 maxLen <= zlen l -> keep_last maxLen (k ++ l) = keep_last maxLen l.
Proof.
  intros H. unfold keep_last. rewrite drop_app_ge by (rewrite zlen_app; unfold zlen in *; lia).
  f_equal. rewrite zlen_app. unfold zlen in *. lia.
Qed.

Lemma keep_last_all {B} maxLen (l : list B) : zlen l <= maxLen -> keep_last maxLen l = l.
Proof. intros H. unfold keep_last. by replace (Z.to_nat _) with 0%nat by lia. Qed.

Lemma zlen_keep_last {B} maxLen (l : list B) : zlen (keep_last maxLen l) = Z.min (zlen l) (Z.max 0 maxLen).
Proof. unfold keep_last, zlen in *. rewrite length_drop. lia. Qed.

Lemma trim_loop_spec fuel l len maxLen approx :
  Forall counted l -> len = zlen (live (recs_of l)) -> (length l + 1 < fuel)%nat ->
  exists l', trim_loop fuel l len maxLen approx = Some (l', zlen (live (recs_of l'))) /\
    live (recs_of l') = keep_last maxLen (live (recs_of l)) /\ Forall counted l' /\
    (core <$> recs_of l') `suffix_of` (core <$> recs_of l).
Proof.
  revert l len. induction fuel as [|fuel IH]; intros l len Hc Hlen Hf; [lia|]. cbn [trim_loop].
  destruct l as [|c l].
  { exists []. rewrite Hlen. change (live (recs_of (@nil (StreamChunk A)))) with (@nil EntryRecord).
    unfold keep_last. by rewrite drop_nil. }
  destruct (Z.leb_spec len maxLen).
  { exists (c :: l). rewrite Hlen in *. split_and!; [done|by rewrite keep_last_all|done|done]. }
  pose proof Hc as Hcc. apply Forall_cons in Hc as [Hc Hcl]. simpl in Hf.
  rewrite recs_of_cons, live_app, zlen_app in Hlen. unfold counted in Hc. zlen_pose.
  assert (forall l', (core <$> recs_of l') `suffix_of` (core <$> recs_of l) ->
    (core <$> recs_of l') `suffix_of` (core <$> recs_of (c :: l))) as Hsuf.
  { intros l' Hs. rewrite recs_of_cons, fmap_app. by apply suffix_app_r. }
  assert (forall n, n = len - zlen (live (entries c)) -> zlen (live (entries c)) <= len - maxLen ->
    exists l', trim_loop fuel l n maxLen approx = Some (l', zlen (live (recs_of l'))) /\
      live (recs_of l') = keep_last maxLen (live (recs_of (c :: l))) /\ Forall counted l' /\
      (core <$> recs_of l') `suffix_of` (core <$> recs_of (c :: l))) as Hdrop.
  { intros n -> Hn. destruct (IH l (len - zlen (live (entries c))) Hcl ltac:(lia) ltac:(lia)) as (l' & -> & Hk & ? & ?).
    exists l'. split_and!; [done| |done|auto]. rewrite recs_of_cons, live_app, keep_last_app; [done|lia]. }
  destruct (approx && (maxLen <=? len - NumActive c)) eqn:Ha.
  { bool_prop. apply Hdrop; lia. }
  destruct (mark_oldest (entries c) len maxLen) as [recs len'] eqn:E.
  destruct (mark_oldest_spec (entries c) len maxLen recs len' ltac:(lia) E) as (k & Hk & Hor & Hlv & -> & Hid).
  set (c' := mkChunk (arena c) recs _).
  assert (zlen recs = zlen (entries c)) as Hzl.
  { apply (f_equal length) in Hid. rewrite !length_fmap in Hid. unfold zlen. lia. }
  assert (NumActive c' = zlen (live (entries c)) - k) as Hna by (unfold NumActive, c' in *; simpl; lia).
  assert (zlen (live recs) = zlen (live (entries c)) - k) as Hzlv.
  { rewrite Hlv. unfold zlen. rewrite length_drop. unfold zlen in Hk. lia. }
  rewrite Hna. destruct (Z.eqb_spec (zlen (live (entries c)) - k) 0).
  { apply Hdrop; lia. }
  destruct Hor as [->|[? ?]]; [|lia]. destruct fuel as [|fuel]; [lia|]. cbn [trim_loop].
  rewrite (proj2 (Z.leb_le _ _)) by lia. exists (c' :: l). split_and!.
  - rewrite recs_of_cons, live_app, zlen_app. simpl. do 2 f_equal. lia.
  - rewrite !recs_of_cons, !live_app. simpl entries. rewrite Hlv. unfold keep_last.
    rewrite drop_app_le by (rewrite zlen_app; unfold zlen in *; lia). do 2 f_equal. rewrite zlen_app. lia.
  - constructor; [unfold counted; rewrite Hna; simpl; lia|done].
  - rewrite !recs_of_cons, !fmap_app. simpl entries. rewrite Hid. done.
Qed.

End trimming.

(** ** The shape of the records

    Ids strictly increase and do not exceed the last one; the field ids of a record are in the
    field table, one for each value. *)

Definition core_lt (a b : StreamID * list Z * list bytes) : Prop := id_lt a.1.1 b.1.1.

Definition core_ok (fs : list bytes) (last : StreamID) (k : StreamID * list Z * list bytes) : Prop :=
  ~ id_lt last k.1.1 /\ length k.1.2 = length k.2 /\ Forall (fun f => 0 <= f < zlen fs) k.1.2.

Definition shaped (fs : list bytes) (last : StreamID) (recs : list EntryRecord) : Prop :=
  StronglySorted core_lt (core <$> recs) /\ Forall (core_ok fs last) (core <$> recs).

Definition rec_lt (r r' : EntryRecord) : Prop := id_lt (r_ID r) (r_ID r').

Lemma sorted_cores recs : StronglySorted core_lt (core <$> recs) -> StronglySorted rec_lt recs.
Proof.
  induction recs as [|r recs IH]; [constructor|]. rewrite fmap_cons. intros [H1 H2]%StronglySorted_cons.
  constructor; [auto|]. rewrite Forall_fmap in H1. exact H1.
Qed.

Lemma shaped_suffix fs last recs recs' :
  (core <$> recs') `suffix_of` (core <$> recs) -> shaped fs last recs -> shaped fs last recs'.
Proof.
  intros [k Hk] [H1 H2]. unfold shaped. rewrite Hk in H1, H2. split; [by eapply StronglySorted_app_1_r|].
  by apply Forall_app in H2 as [_ ?].
Qed.

Lemma shaped_snoc fs last recs r :
  shaped fs last recs -> id_lt last (r_ID r) -> core_ok fs (r_ID r) (core r) -> shaped fs (r_ID r) (recs ++ [r]).
Proof.
  intros [H1 H2] Hl Hr. unfold shaped. rewrite fmap_app. simpl. split.
  - apply StronglySorted_app_2; [|done|by repeat constructor]. intros x y Hx ->%list_elem_of_singleton.
    rewrite Forall_forall in H2. destruct (H2 x Hx) as [Hn _]. unfold core_lt, id_lt in *. simpl. lia.
  - apply Forall_app. split; [|by apply Forall_singleton]. eapply Forall_impl; [done|].
    intros x (Hn & ? & ?). split; [|done]. unfold id_lt in *. lia.
Qed.

Lemma shaped_more_fields fs gs last recs : shaped fs last recs -> shaped (fs ++ gs) last recs.
Proof.
  intros [H1 H2]. split; [done|]. eapply Forall_impl; [done|]. intros x (? & ? & Hf). split_and!; try done.
  eapply Forall_impl; [done|]. intros f Hb. rewrite zlen_app. pose proof (zlen_nonneg gs). simpl in Hb. lia.
Qed.

Lemma sorted_rev {B} (R : relation B) l : StronglySorted R l -> StronglySorted (flip R) (rev l).
Proof.
  induction 1 as [|x l _ IH Hx]; [constructor|]. simpl. apply StronglySorted_app_2; [|done|by repeat constructor].
  intros y z Hy ->%list_elem_of_singleton. rewrite Forall_forall in Hx. apply Hx.
  rewrite list_elem_of_In, <- in_rev, <- list_elem_of_In in Hy. done.
Qed.

(** ** Range queries *)

(** The entry a record stands for. *)
Definition unpack (fs : list bytes) (r : EntryRecord) : StreamEntry :=
  mkSE (r_ID r) ((fun f => default [] (fs !! Z.to_nat f)) <$> r_FieldIDs r) (r_Values r).

Definition limit {B} (count : Z) (l : list B) : list B := if 0 <? count then take (Z.to_nat count) l else l.

Lemma mapM_lookup_seq {B} (l k : list B) :
  mapM (fun i => (k ++ l) !! i) (seq (length k) (length l)) = Some l.
Proof.
  revert k. induction l as [|x l IH]; intros k; [done|]. cbn [length seq mapM].
  rewrite list_lookup_middle by done. simpl.
  specialize (IH (k ++ [x])). rewrite length_app, <- app_assoc in IH. simpl in IH.
  rewrite Nat.add_1_r in IH. by rewrite IH.
Qed.

Section queries.
Context {A : Type}.
Implicit Types (s : Stream A) (c : StreamChunk A).

Lemma unpackEntry_ok s r last : core_ok (fields s) last (core r) -> unpackEntry s r = Some (unpack (fields s) r).
Proof.
  intros (_ & Hl & _). simpl in Hl. unfold unpackEntry. rewrite Hl.
  pose proof (mapM_lookup_seq (r_Values r) []) as E. cbn [app length] in E. by rewrite E.
Qed.

Lemma range_recs_app s skip past count l k result :
  range_recs s skip past count (l ++ k) result =
    ('(result, stop) ← range_recs s skip past count l result;
     if (stop : bool) then Some (result, true) else range_recs s skip past count k result).
Proof.
  revert result. induction l as [|r l IH]; intros result; [done|]. cbn [app range_recs].
  destruct (r_Deleted r || skip (r_ID r)); [apply IH|]. destruct (past (r_ID r)); [done|].
  destruct (unpackEntry s r) as [e|]; [|done]. simpl. by destruct ((0 <? count) && _).
Qed.

Lemma range_recs_skip s skip past count l result :
  Forall (fun r => skip (r_ID r) = true) l -> range_recs s skip past count l result = Some (result, false).
Proof. induction 1 as [|r l Hr _ IH]; [done|]. cbn [range_recs]. by rewrite Hr, orb_true_r. Qed.

(** Skipping a chunk is sound when the loop would have skipped each of its records. *)
Lemma range_chunks_concat s skip past count l result :
  Forall (fun p => p.2 = true -> Forall (fun r => skip (r_ID r) = true) p.1) l ->
  range_chunks s skip past count l result = fst <$> range_recs s skip past count (concat (fst <$> l)) result.
Proof.
  intros Hl. revert result. induction Hl as [|[recs b] l Hp _ IH]; intros result; [done|].
  cbn [range_chunks fmap list_fmap concat fst]. rewrite range_recs_app. simpl in Hp. destruct b.
  - rewrite range_recs_skip by auto. simpl. apply IH.
  - destruct (range_recs s skip past count recs result) as [[res [|]]|]; [done|apply IH|done].
Qed.

Definition wanted (skip past : StreamID -> bool) (id : StreamID) : Prop := skip id = false /\ past id = false.
#[export] Instance wanted_dec skip past id : Decision (wanted skip past id).
Proof. unfold wanted. apply _. Defined.

Lemma limit_full {B} count (l : list B) x k :
  0 < count -> zlen l + 1 = count -> limit count (l ++ x :: k) = l ++ [x].
Proof.
  intros Hc Hl. unfold limit. rewrite (proj2 (Z.ltb_lt _ _)) by done. rewrite cons_middle, app_assoc.
  apply take_app_length'. rewrite length_app. unfold zlen in Hl. simpl. lia.
Qed.

Lemma limit_room {B} count (l : list B) : (0 < count -> zlen l < count) -> limit count l = l.
Proof.
  intros H. unfold limit. destruct (Z.ltb_spec 0 count); [|done]. apply take_ge. unfold zlen in H. lia.
Qed.

(** The record loop on records sorted so that nothing is wanted after one that is past the range. *)
Lemma range_recs_spec s skip past count (R : relation EntryRecord) recs result :
  (forall r r', R r r' -> past (r_ID r) = true -> past (r_ID r') = true) ->
  StronglySorted R recs -> Forall (fun r => unpackEntry s r = Some (unpack (fields s) r)) recs ->
  (0 < count -> zlen result < count) ->
  fst <$> range_recs s skip past count recs result =
    Some (limit count (result ++ filter (fun e => wanted skip past (e_ID e)) (unpack (fields s) <$> live recs))).
Proof.
  intros HR Hs Hu. revert result. induction recs as [|r recs IH]; intros result Hres.
  { cbn. by rewrite app_nil_r, limit_room. }
  apply StronglySorted_cons in Hs as [Hr Hs]. apply Forall_cons in Hu as [Hur Hu].
  cbn [range_recs]. unfold live. rewrite filter_cons. destruct (r_Deleted r) eqn:Hd; cbn [orb].
  { rewrite decide_False by done. apply IH; done. }
  rewrite decide_True by done. rewrite fmap_cons, filter_cons.
  destruct (skip (r_ID r)) eqn:Hk.
  { rewrite decide_False by (unfold wanted; simpl; intuition congruence). apply IH; done. }
  destruct (past (r_ID r)) eqn:Hp.
  { rewrite decide_False by (unfold wanted; simpl; intuition congruence). cbn [fmap option_fmap option_map fst].
    rewrite (filter_none _ (unpack _ <$> _)), app_nil_r, limit_room; [done|done|]. rewrite Forall_fmap, Forall_forall.
    intros r' [_ Hin]%list_elem_of_filter. unfold wanted. simpl. rewrite Forall_forall in Hr.
    rewrite (HR r r' (Hr r' Hin) Hp). intuition congruence. }
  rewrite decide_True by done. rewrite Hur. cbn [mbind option_bind].
  rewrite zlen_app, zlen_cons, zlen_nil. destruct ((0 <? count) && _) eqn:Hc.
  - bool_prop. by rewrite limit_full by lia.
  - rewrite IH; [|done|done|rewrite zlen_app, zlen_cons, zlen_nil; bool_prop; lia]. by rewrite <- app_assoc.
Qed.

End queries.

(** ** The reference: a log *)

#[export] Instance id_lt_dec a b : Decision (id_lt a b).
Proof. unfold id_lt. apply _. Defined.

Definition between (lo hi : StreamID) (e : StreamEntry) : Prop := ~ id_lt (e_ID e) lo /\ ~ id_lt hi (e_ID e).

#[export] Instance between_dec lo hi e : Decision (between lo hi e).
Proof. unfold between. apply _. Defined.

Inductive stream_op :=
| OAdd (id : StreamID) (names vals : list bytes) (maxLen : Z) (approx : bool)
| OTrim (maxLen : Z) (approx : bool)
| ODelete (ids : list StreamID)
| ORange (start end_ : StreamID) (count : Z) (reverse : bool).

Inductive stream_out := OutError (e : StreamError) | OutID (id : StreamID) | OutCount (n : Z) | OutEntries (l : list StreamEntry).

(** The log and the last id ever added.  An addition must exceed that id; on a log that is not
    empty a smaller id is refused, on an empty one it is outside the contract ([None]). *)
Definition log_step (l : list StreamEntry) (last : StreamID) (o : stream_op)
    : option (stream_out * list StreamEntry * StreamID) :=
  match o with
  | OAdd id names vals maxLen _ =>
    if decide (id_lt last id) then
      let l := l ++ [mkSE id names vals] in Some (OutID id, if 0 <? maxLen then keep_last maxLen l else l, id)
    else if decide (l = []) then None else Some (OutError ErrInvalidStreamID, l, last)
  | OTrim maxLen _ => Some (OutCount (zlen l - zlen (keep_last maxLen l)), keep_last maxLen l, last)
  | ODelete ids =>
    Some (OutCount (zlen (filter (fun e => e_ID e ∈ ids) l)), filter (fun e => e_ID e ∉ ids) l, last)
  | ORange start end_ count reverse =>
    Some (OutEntries (limit count
            (if reverse : bool then filter (between end_ start) (rev l) else filter (between start end_) l)), l, last)
  end.

Fixpoint log_run (l : list StreamEntry) (last : StreamID) (ops : list stream_op)
    : option (list stream_out * list StreamEntry) :=
  match ops with
  | [] => Some ([], l)
  | o :: ops =>
    '(out, l, last) ← log_step l last o;
    '(outs, l) ← log_run l last ops; Some (out :: outs, l)
  end.

(** A field id of the table [fs] that stands for [name]. *)
Definition names_at (fs : list bytes) (i : Z) (name : bytes) : Prop := 0 <= i /\ fs !! Z.to_nat i = Some name.

Lemma names_at_spec fs ids names :
  Forall2 (names_at fs) ids names ->
  (fun f => default [] (fs !! Z.to_nat f)) <$> ids = names /\ length ids = length names /\
    Forall (fun f => 0 <= f < zlen fs) ids.
Proof.
  induction 1 as [|i name ids names [Hi Hl] _ (IH1 & IH2 & IH3)]; [done|]. rewrite fmap_cons, Hl, IH1. simpl.
  split_and!; [done|lia|]. constructor; [|done]. apply lookup_lt_Some in Hl. unfold zlen. lia.
Qed.

(** The tests that skip a chunk. *)
Lemma begins_after_skip start l :
  StronglySorted rec_lt l -> begins_after start l = true -> Forall (fun r => (0 <? Compare (r_ID r) start) = true) l.
Proof.
  intros Hs Hb. destruct l as [|r l]; [constructor|]. simpl in Hb.
  apply StronglySorted_cons in Hs as [Hlt _]. constructor; [done|]. eapply Forall_impl; [done|].
  intros r' Hrr. rewrite Compare_gt in *. by eapply id_lt_trans.
Qed.

Lemma ends_before_skip start l :
  StronglySorted rec_lt l -> ends_before start l = true -> Forall (fun r => (Compare (r_ID r) start <? 0) = true) l.
Proof.
  intros Hs Hb. unfold ends_before in Hb. destruct l as [|r l _] using rev_ind; [constructor|].
  rewrite last_snoc in Hb. apply Forall_app. split; [|by constructor]. apply Forall_forall. intros r' Hr'.
  rewrite Compare_lt in *. eapply id_lt_trans; [|done].
  apply (StronglySorted_app_1_elem_of _ _ _ r' r Hs Hr'). by apply list_elem_of_singleton.
Qed.

Lemma concat_rev_chunks {A} (f : StreamChunk A -> bool) l :
  concat (fst <$> ((fun c => (rev (entries c), f c)) <$> rev l)) = rev (recs_of l).
Proof.
  induction l as [|c l IH]; [done|]. simpl rev.
  rewrite recs_of_cons, rev_app_distr, <- IH, !fmap_app, concat_app. simpl. by rewrite app_nil_r.
Qed.

(** Marking records deleted. *)
Lemma core_mark ids r : core (mark_deleted ids r) = core r.
Proof. unfold mark_deleted. by destruct (negb _ && _). Qed.

Lemma live_mark ids l : live (mark_deleted ids <$> l) = filter (fun r => r_ID r ∉ ids) (live l).
Proof.
  unfold live. induction l as [|r l IH]; [done|]. rewrite fmap_cons.
  destruct (mark_deleted ids r) as [i f v d] eqn:E. unfold mark_deleted in E.
  destruct (r_Deleted r) eqn:Hd, (bool_decide (r_ID r ∈ ids)) eqn:Hin; simpl in E; subst.
  - rewrite !filter_cons_False by congruence. done.
  - rewrite !filter_cons_False by congruence. done.
  - apply bool_decide_eq_true in Hin. injection E as <- <- <- <-.
    rewrite filter_cons_False by done. rewrite filter_cons_True by done. rewrite filter_cons_False by tauto. done.
  - apply bool_decide_eq_false in Hin. rewrite filter_cons_True by done. rewrite (filter_cons_True _ _ l) by done.
    rewrite filter_cons_True by done. by rewrite IH.
Qed.

Lemma zlen_filter_split {B} (P : B -> Prop) `{forall x, Decision (P x)} (l : list B) :
  zlen (filter P l) + zlen (filter (fun x => ~ P x) l) = zlen l.
Proof.
  unfold zlen. rewrite <- Nat2Z.inj_add, <- length_app. by rewrite (filter_app_complement P l).
Qed.

Lemma hits_live ids l : hits ids l = zlen (filter (fun r => r_ID r ∈ ids) (live l)).
Proof. unfold hits, live. f_equal. rewrite list_filter_filter. apply list_filter_iff. tauto. Qed.

(** The names fit the 16-bit field ids. *)
Definition few (U : gset bytes) : Prop := Z.of_nat (size U) <= 65536.

Section history.
Context {A : Type} (fresh : A) (alloc : A -> Z -> option A).
Context (U : gset bytes) (HU : few U).
Implicit Types (s : Stream A) (c : StreamChunk A).

Definition stream_step s (o : stream_op) : option (stream_out * Stream A) :=
  match o with
  | OAdd id names vals maxLen approx =>
    '(r, s) ← Add fresh alloc s id names vals maxLen approx;
    Some (match r with inl e => OutError e | inr id => OutID id end, s)
  | OTrim maxLen approx => '(n, s) ← Trim s maxLen approx; Some (OutCount n, s)
  | ODelete ids => let '(n, s) := Delete s ids in Some (OutCount n, s)
  | ORange start end_ count reverse => l ← Range s start end_ count reverse; Some (OutEntries l, s)
  end.

Fixpoint stream_run s (ops : list stream_op) : option (list stream_out * Stream A) :=
  match ops with
  | [] => Some ([], s)
  | o :: ops => '(out, s) ← stream_step s o; '(outs, s) ← stream_run s ops; Some (out :: outs, s)
  end.

(** An empty arena has room for the values of one entry. *)
Definition fits (vals : list bytes) : Prop := (alloc_values alloc fresh vals).1 = true.

(** An addition has a value for each field name, names from [U] and values that fit a chunk. *)
Definition op_ok (o : stream_op) : Prop :=
  match o with
  | OAdd _ names vals _ _ => length names = length vals /\ Forall (.∈ U) names /\ fits vals
  | _ => True
  end.

(** *** The field table *)

Definition table (fs : list bytes) (m : gmap bytes Z) : Prop :=
  (forall name i, m !! name = Some i <-> 0 <= i /\ fs !! Z.to_nat i = Some name) /\ Forall (.∈ U) fs.

Lemma table_NoDup fs m : table fs m -> NoDup fs.
Proof.
  intros [H _]. apply NoDup_alt. intros i j x Hi Hj.
  assert (m !! x = Some (Z.of_nat i)) as E1 by (apply H; rewrite Nat2Z.id; split; [lia|done]).
  assert (m !! x = Some (Z.of_nat j)) as E2 by (apply H; rewrite Nat2Z.id; split; [lia|done]).
  rewrite E1 in E2. injection E2. lia.
Qed.

Lemma table_room fs m name : table fs m -> m !! name = None -> name ∈ U -> 0 <= zlen fs < 65536.
Proof using HU.
  intros Ht Hn Hin. assert (NoDup (name :: fs)) as Hnd.
  { constructor; [|by eapply table_NoDup]. intros [i Hi]%list_elem_of_lookup.
    assert (m !! name = Some (Z.of_nat i)) as E; [|congruence]. apply Ht. rewrite Nat2Z.id. split; [lia|done]. }
  assert (list_to_set (name :: fs) ⊆ U) as Hsub.
  { intros x Hx%elem_of_list_to_set. apply elem_of_cons in Hx as [->|Hx]; [done|].
    destruct Ht as [_ Ht]. rewrite Forall_forall in Ht. auto. }
  apply subseteq_size in Hsub. rewrite size_list_to_set in Hsub by done. simpl in Hsub. pose proof HU as Hfew. unfold few in Hfew. unfold zlen. lia.
Qed.

Definition with_fields s (fs : list bytes) (m : gmap bytes Z) : Stream A :=
  mkStream (chunks s) (length_ s) (firstID s) (lastID s) fs m (cgroups s) (waiters s) (nextWaitID s).

Lemma internField_spec s name :
  table (fields s) (fieldMap s) -> name ∈ U ->
  exists i ext m, internField s name = (i, with_fields s (fields s ++ ext) m) /\
    table (fields s ++ ext) m /\ names_at (fields s ++ ext) i name.
Proof using HU.
  intros Ht Hin. unfold internField. destruct (fieldMap s !! name) as [i|] eqn:E.
  { exists i, [], (fieldMap s). rewrite app_nil_r. split_and!; [by destruct s|done|by apply Ht]. }
  pose proof (table_room _ _ _ Ht E Hin) as Hr.
  assert (u16 (zlen (fields s)) = zlen (fields s)) as -> by (unfold u16; apply Z.mod_small; lia).
  eexists _, [name], _. split; [done|]. unfold names_at, zlen. rewrite Nat2Z.id, list_lookup_middle by done.
  split; [|split; [lia|done]]. destruct Ht as [Ht HF]. split; [|apply Forall_app; auto].
  intros x j. destruct (decide (x = name)) as [->|Hne].
  - rewrite lookup_insert_eq. split.
    + intros [= <-]. rewrite Nat2Z.id, list_lookup_middle by done. split; [lia|done].
    + intros [Hj Hl]. apply lookup_app_Some in Hl as [Hl|[Hge Hl]].
      * assert (fieldMap s !! name = Some j) by (by apply Ht). congruence.
      * apply list_lookup_singleton_Some in Hl as [? _]. f_equal. lia.
  - rewrite lookup_insert_ne by done. rewrite Ht. split; intros [Hj Hl]; (split; [done|]).
    + by apply lookup_app_l_Some.
    + apply lookup_app_Some in Hl as [Hl|[Hge Hl]]; [done|]. apply list_lookup_singleton_Some in Hl as [_ ?]. congruence.
Qed.

Lemma intern_all_spec names s :
  table (fields s) (fieldMap s) -> Forall (.∈ U) names ->
  exists ids ext m, intern_all s names = (ids, with_fields s (fields s ++ ext) m) /\
    table (fields s ++ ext) m /\ Forall2 (names_at (fields s ++ ext)) ids names.
Proof using HU.
  intros Ht Hn. revert s Ht. induction Hn as [|name names Hin _ IH]; intros s Ht; cbn [intern_all].
  { exists [], [], (fieldMap s). rewrite app_nil_r. split_and!; [by destruct s|done|constructor]. }
  destruct (internField_spec s name Ht Hin) as (i & ext & m & -> & Ht1 & Hi).
  destruct (IH (with_fields s (fields s ++ ext) m) Ht1) as (ids & ext' & m' & -> & Ht2 & H2).
  cbn [fields with_fields] in *. rewrite <- app_assoc in *. exists (i :: ids), (ext ++ ext'), m'.
  split_and!; [done|done|]. constructor; [|done]. destruct Hi as [? Hi]. split; [done|].
  rewrite app_assoc. by apply lookup_app_l_Some.
Qed.

(** *** The invariant and the operations *)

Definition recs s : list EntryRecord := recs_of (chunks s).

Record stream_ok s : Prop := {
  ok_counted : Forall counted (chunks s);
  ok_length : length_ s = zlen (live (recs s));
  ok_shaped : shaped (fields s) (lastID s) (recs s);
  ok_table : table (fields s) (fieldMap s)
}.

(** The log a stream stands for. *)
Definition log s : list StreamEntry := unpack (fields s) <$> live (recs s).

Lemma zlen_log s : stream_ok s -> zlen (log s) = length_ s.
Proof. intros [_ Hl _ _]. rewrite Hl. unfold log, zlen. by rewrite length_fmap. Qed.

Lemma keep_last_fmap {B C} (f : B -> C) maxLen l : keep_last maxLen (f <$> l) = f <$> keep_last maxLen l.
Proof. unfold keep_last, zlen. by rewrite fmap_drop, length_fmap. Qed.

Lemma Trim_spec s maxLen approx :
  stream_ok s ->
  exists s', Trim s maxLen approx = Some (zlen (log s) - zlen (log s'), s') /\ stream_ok s' /\
    log s' = keep_last maxLen (log s) /\ lastID s' = lastID s /\ cgroups s' = cgroups s.
Proof.
  intros Hok. pose proof (zlen_log s Hok) as Hz. destruct Hok as [Hc Hl Hs Ht]. unfold Trim, trimInternal.
  destruct (trim_loop_spec (S (length (chunks s) + 1)) (chunks s) (length_ s) maxLen approx Hc Hl ltac:(lia))
    as (l' & -> & Hlv & Hc' & Hsuf).
  eexists. split; [|split_and!]; [cbn [mbind option_bind]; apply f_equal, (f_equal (fun n => (n, _)))| | |simpl; done|simpl; done].
  - rewrite Hz. unfold recs. unfold log, zlen. by rewrite length_fmap.
  - split; simpl; [done|done| |done]. eapply shaped_suffix; done.
  - unfold log, recs. simpl. by rewrite Hlv, keep_last_fmap.
Qed.

(** *** Adding *)

Lemma Append_spec c id ids vals ok c' :
  Append alloc c id ids vals = (ok, c') -> counted c ->
  counted c' /\ entries c' = entries c ++ (if ok then [mkRec id ids vals false] else []).
Proof.
  unfold Append, counted, NumActive. intros E Hc. destruct (IsFull c); [simplify_eq; by rewrite app_nil_r|].
  destruct (alloc_values alloc (arena c) vals) as [[|] a]; simplify_eq; simpl; [|by rewrite app_nil_r].
  rewrite live_app. split; [|done]. change (live [mkRec id ids vals false]) with [mkRec id ids vals false].
  autorewrite with zlen. lia.
Qed.

Lemma Append_fresh id ids vals :
  fits vals -> exists c, Append alloc (NewChunk fresh) id ids vals = (true, c).
Proof.
  unfold fits, Append. change (IsFull (NewChunk fresh)) with false. simpl.
  destruct (alloc_values alloc fresh vals) as [[|] a]; [eauto|done].
Qed.

Lemma counted_new : counted (NewChunk fresh).
Proof. done. Qed.

Lemma append_tail_spec l id ids vals :
  fits vals -> Forall counted l ->
  Forall counted (append_tail fresh alloc l id ids vals) /\
  recs_of (append_tail fresh alloc l id ids vals) = recs_of l ++ [mkRec id ids vals false].
Proof.
  intros Hf Hl. unfold append_tail. destruct (Append_fresh id ids vals Hf) as [n Hn].
  destruct (Append_spec _ _ _ _ _ _ Hn counted_new) as [Hnc Hne]. simpl in Hne. rewrite Hn. simpl.
  destruct l as [|t l _] using rev_ind; [split; [by repeat constructor|unfold recs_of; simpl; by rewrite Hne]|].
  rewrite last_snoc, length_app. simpl. replace (length l + 1 - 1)%nat with (length l) by lia.
  rewrite take_app_length. apply Forall_app in Hl as [Hl Ht]. rewrite Forall_singleton in Ht.
  destruct (Append alloc t id ids vals) as [ok t'] eqn:E. destruct (Append_spec _ _ _ _ _ _ E Ht) as [Ht' He].
  destruct ok; (split; [apply Forall_app; auto|]); rewrite !recs_of_app, !recs_of_cons, He, ?Hne; simpl;
    by rewrite ?app_nil_r, ?app_assoc.
Qed.

Lemma add_record_spec s id ids vals maxLen approx :
  stream_ok s -> id_lt (lastID s) id -> core_ok (fields s) id (id, ids, vals) -> fits vals ->
  exists s', add_record fresh alloc s id ids vals maxLen approx = Some s' /\ stream_ok s' /\
    (let l := log s ++ [unpack (fields s) (mkRec id ids vals false)] in
     log s' = if 0 <? maxLen then keep_last maxLen l else l) /\ lastID s' = id /\ cgroups s' = cgroups s.
Proof.
  intros [Hc Hl Hs Ht] Hid Hr Hf. unfold add_record.
  set (l := match chunks s with [] => true | _ => false end).
  set (cs := if l then [NewChunk fresh] else chunks s).
  assert (Forall counted cs /\ recs_of cs = recs s) as [Hcs Hrs].
  { unfold cs, l, recs. destruct (chunks s); [by split; [repeat constructor|]|done]. }
  destruct (append_tail_spec cs id ids vals Hf Hcs) as [Hac Har]. rewrite Hrs in Har.
  set (s1 := mkStream (append_tail fresh alloc cs id ids vals) _ _ _ _ _ _ _ _).
  assert (log s1 = log s ++ [unpack (fields s) (mkRec id ids vals false)]) as Hlog.
  { unfold log, recs. simpl chunks. rewrite Har, live_app, fmap_app. done. }
  assert (stream_ok s1) as H1.
  { split; simpl; [done| |unfold recs; simpl; rewrite Har; by apply (shaped_snoc _ (lastID s))|done].
    unfold recs. simpl. rewrite Har, live_app, zlen_app. rewrite Hl. done. }
  assert (forall s', stream_ok s' -> stream_ok (notifyWaitersInternal s')) as Hnot by (intros s' []; by split).
  destruct (Z.ltb_spec 0 maxLen); cbn [andb].
  - destruct (Z.ltb_spec maxLen (length_ s1)).
    + destruct (Trim_spec s1 maxLen approx H1) as (s2 & E & H2 & Hl2 & Hi2 & Hg2). unfold Trim in E. rewrite E.
      exists (notifyWaitersInternal s2). split_and!; [done|auto|by rewrite <- Hlog|done|done].
    + eexists. split_and!; [done|auto| |done|done]. change (log (notifyWaitersInternal s1)) with (log s1).
      rewrite Hlog, keep_last_all; [done|]. rewrite <- Hlog, zlen_log by done. lia.
  - eexists. split_and!; [done|auto|done|done|done].
Qed.

Lemma unpack_more_fields fs gs last recs :
  Forall (core_ok fs last) (core <$> recs) -> unpack (fs ++ gs) <$> recs = unpack fs <$> recs.
Proof.
  intros Hf. apply list_fmap_ext. intros i r Hr. rewrite Forall_fmap, Forall_lookup in Hf.
  destruct (Hf i r Hr) as (_ & _ & Hb). unfold unpack. f_equal. apply list_fmap_ext. intros j f Hj.
  simpl in Hb. rewrite Forall_lookup in Hb. specialize (Hb j f Hj). simpl in Hb.
  rewrite lookup_app_l; [done|]. unfold zlen in Hb. lia.
Qed.

Lemma Forall_live {B} (P : B -> Prop) (f : EntryRecord -> B) l : Forall P (f <$> l) -> Forall P (f <$> live l).
Proof. rewrite !Forall_fmap, !Forall_forall. intros H r [_ Hr]%list_elem_of_filter. by apply H. Qed.

Lemma stream_Add_spec s id names vals maxLen approx :
  stream_ok s -> op_ok (OAdd id names vals maxLen approx) -> id_lt (lastID s) id ->
  exists s', Add fresh alloc s id names vals maxLen approx = Some (inr id, s') /\ stream_ok s' /\
    (let l := log s ++ [mkSE id names vals] in log s' = if 0 <? maxLen then keep_last maxLen l else l) /\
    lastID s' = id /\ cgroups s' = cgroups s.
Proof using HU.
  intros Hok (Hlen & Hn & Hf) Hid. unfold Add.
  assert ((Compare id (lastID s) <=? 0) = false) as ->.
  { apply not_true_iff_false. rewrite Compare_le. tauto. }
  rewrite andb_false_r. destruct Hok as [Hc Hl Hs Ht].
  destruct (intern_all_spec names s Ht Hn) as (ids & ext & m & -> & Ht1 & H2).
  destruct (names_at_spec _ _ _ H2) as (Hnames & Hil & Hib).
  set (s1 := with_fields s (fields s ++ ext) m).
  assert (stream_ok s1) as H1 by (split; [done|done|by apply shaped_more_fields|done]).
  destruct (add_record_spec s1 id ids vals maxLen approx H1 Hid) as (s' & -> & Hs' & Hlog & Hr); [|done|].
  { split_and!; [apply id_lt_irrefl|simpl; congruence|done]. }
  exists s'. split_and!; [done|done| |apply Hr|apply Hr].
  assert (log s1 = log s) as El by (eapply unpack_more_fields, Forall_live, Hs).
  rewrite El in Hlog. unfold unpack in Hlog. cbn [r_ID r_FieldIDs r_Values] in Hlog.
  change (fields s1) with (fields s ++ ext) in Hlog. rewrite Hnames in Hlog. done.
Qed.

(** *** Deleting *)

Lemma foldr_hits ids (l : list (StreamChunk A)) : foldr (fun c n => hits ids (entries c) + n) 0 l = hits ids (recs_of l).
Proof.
  induction l as [|c l IH]; [done|]. simpl. rewrite IH, recs_of_cons, !hits_live, live_app, filter_app, zlen_app. done.
Qed.

Lemma recs_of_map (f : EntryRecord -> EntryRecord) (g : StreamChunk A -> StreamChunk A) l :
  (forall c, entries (g c) = f <$> entries c) -> recs_of (g <$> l) = f <$> recs_of l.
Proof.
  intros H. induction l as [|c l IH]; [done|]. rewrite fmap_cons, !recs_of_cons, H, IH, fmap_app. done.
Qed.

Lemma Delete_spec s ids :
  stream_ok s ->
  exists s', Delete s ids = (zlen (filter (fun e => e_ID e ∈ ids) (log s)), s') /\ stream_ok s' /\
    log s' = filter (fun e => e_ID e ∉ ids) (log s) /\ lastID s' = lastID s /\ cgroups s' = cgroups s.
Proof.
  intros [Hc Hl Hs Ht]. unfold Delete. set (m := list_to_set ids). rewrite foldr_hits.
  assert (forall id, id ∈ m <-> id ∈ ids) as Hm by (intros id; apply elem_of_list_to_set).
  eexists. split; [apply (f_equal (fun n => (n, _)))|split_and!; [|simpl|done|done]].
  - rewrite hits_live. unfold log. rewrite filter_fmap. unfold zlen. rewrite length_fmap. f_equal. f_equal.
    apply list_filter_iff. intros r. apply Hm.
  - set (f := fun c => _). assert (forall c, entries (f c) = mark_deleted m <$> entries c) as Hf by done.
    split; unfold recs; simpl.
    + apply Forall_fmap. eapply Forall_impl; [done|]. unfold counted, NumActive. simpl. intros c Hcc.
      rewrite live_mark, hits_live. unfold zlen at 1. rewrite length_fmap. fold (zlen (entries c)).
      pose proof (zlen_filter_split (fun r => r_ID r ∈ m) (live (entries c))) as Hsp. cbv beta in Hsp. lia.
    + rewrite (recs_of_map _ _ _ Hf), live_mark, hits_live, Hl.
      pose proof (zlen_filter_split (fun r => r_ID r ∈ m) (live (recs_of (chunks s)))) as Hsp. cbv beta in Hsp.
      unfold recs. lia.
    + rewrite (recs_of_map _ _ _ Hf). unfold shaped. rewrite <- list_fmap_compose.
      rewrite (list_fmap_ext _ core (recs_of (chunks s))); [done|]. intros ? r _. apply core_mark.
    + done.
  - unfold log, recs. simpl. set (f := fun c => _).
    rewrite (recs_of_map (mark_deleted m) f) by done. rewrite live_mark, filter_fmap. f_equal.
    apply list_filter_iff. intros r. simpl. by rewrite Hm.
Qed.

(** *** Range queries in both directions *)

Lemma Range_spec s start end_ count reverse :
  stream_ok s ->
  Range s start end_ count reverse = Some (limit count
    (if reverse then filter (between end_ start) (rev (log s)) else filter (between start end_) (log s))).
Proof using fresh alloc.
  intros [_ _ [Hs Hr] _]. apply sorted_cores in Hs.
  assert (Forall (fun r => unpackEntry s r = Some (unpack (fields s) r)) (recs s)) as Hu.
  { rewrite Forall_fmap in Hr. eapply Forall_impl; [done|]. intros r. apply unpackEntry_ok. }
  assert (forall c, c ∈ chunks s -> StronglySorted rec_lt (entries c)) as Hcs.
  { intros c (l1 & l2 & E)%list_elem_of_split. unfold recs in Hs. rewrite E, recs_of_app, recs_of_cons in Hs.
    apply StronglySorted_app_1_r, StronglySorted_app_1_l in Hs. done. }
  unfold Range. destruct reverse; cbn [negb].
  - rewrite range_chunks_concat.
    + assert (concat (fst <$> ((fun c => (rev (entries c), begins_after start (entries c))) <$> rev (chunks s)))
        = rev (recs s)) as ->.
      { apply concat_rev_chunks. }
      rewrite (range_recs_spec _ _ _ _ (flip rec_lt)).
      * rewrite app_nil_l. unfold log, live. rewrite filter_rev.
        match goal with |- context [unpack (fields s) <$> rev ?l] => change (unpack (fields s) <$> rev l) with (map (unpack (fields s)) (rev l)) end.
        rewrite map_rev. do 2 f_equal.
        apply list_filter_iff. intros e. unfold wanted, between. rewrite <- !not_true_iff_false, Compare_gt, Compare_lt. tauto.
      * intros r r' H. unfold flip, rec_lt in H. rewrite !Compare_lt. intros ?. by eapply id_lt_trans.
      * by apply sorted_rev.
      * by apply Forall_rev.
      * rewrite zlen_nil. lia.
    + apply Forall_fmap, Forall_forall. intros c Hc%list_elem_of_In%in_rev%list_elem_of_In. simpl. intros Hb.
      apply Forall_rev. apply begins_after_skip; auto.
  - rewrite range_chunks_concat.
    + rewrite <- list_fmap_compose. fold (recs_of (chunks s)).
      rewrite (range_recs_spec _ _ _ _ rec_lt).
      * rewrite app_nil_l. unfold log. do 2 f_equal.
        apply list_filter_iff. intros e. unfold wanted, between. rewrite <- !not_true_iff_false, Compare_gt, Compare_lt. tauto.
      * intros r r' H. unfold rec_lt in H. rewrite !Compare_gt. intros ?. by eapply id_lt_trans.
      * done.
      * done.
      * rewrite zlen_nil. lia.
    + apply Forall_fmap, Forall_forall. intros c Hc. simpl. intros Hb. apply ends_before_skip; auto.
Qed.

Lemma NewStream_ok : stream_ok NewStream.
Proof.
  split; [constructor|done|split; constructor|]. split; [|constructor]. intros name i. simpl.
  rewrite lookup_empty, lookup_nil. split; [done|intros [_ ?]; done].
Qed.

(** *** One operation, and a history *)

Lemma Add_refused s id names vals maxLen approx :
  stream_ok s -> ~ id_lt (lastID s) id -> log s <> [] ->
  Add fresh alloc s id names vals maxLen approx = Some (inl ErrInvalidStreamID, s).
Proof.
  intros Hok Hid Hne. unfold Add. pose proof (zlen_log s Hok) as Hz.
  rewrite (proj2 (Compare_le _ _)) by done. rewrite (proj2 (Z.ltb_lt _ _)); [done|].
  rewrite <- Hz. destruct (log s); [done|]. rewrite zlen_cons. pose proof (zlen_nonneg l). lia.
Qed.

Lemma stream_step_spec s o out l' last' :
  stream_ok s -> op_ok o -> log_step (log s) (lastID s) o = Some (out, l', last') ->
  exists s', stream_step s o = Some (out, s') /\ stream_ok s' /\ log s' = l' /\ lastID s' = last' /\
    cgroups s' = cgroups s.
Proof using HU.
  intros Hok Ho E. destruct o as [id names vals maxLen approx|maxLen approx|ids|start end_ count reverse];
    cbn [log_step] in E; cbn [stream_step].
  - destruct (decide (id_lt (lastID s) id)).
    + injection E as <- <- <-. destruct (stream_Add_spec s id names vals maxLen approx Hok Ho) as (s' & -> & ? & ? & ? & ?); [done|].
      eexists; eauto.
    + destruct (decide (log s = [])); [done|]. simplify_eq. rewrite Add_refused by done. eexists; eauto.
  - simplify_eq. destruct (Trim_spec s maxLen approx Hok) as (s' & -> & ? & Hl & ? & ?). cbn [mbind option_bind].
    rewrite Hl. eexists; eauto.
  - simplify_eq. destruct (Delete_spec s ids Hok) as (s' & -> & ? & ? & ? & ?). eexists; eauto.
  - simplify_eq. rewrite Range_spec by done. cbn [mbind option_bind]. eexists; eauto.
Qed.

Lemma stream_run_spec ops s outs l' :
  stream_ok s -> Forall op_ok ops -> log_run (log s) (lastID s) ops = Some (outs, l') ->
  exists s', stream_run s ops = Some (outs, s') /\ stream_ok s' /\ log s' = l'.
Proof using HU.
  intros Hok Ho. revert s outs l' Hok. induction Ho as [|o ops Ho _ IH]; intros s outs l' Hok E; cbn [log_run] in E.
  { simplify_eq. by exists s. }
  destruct (log_step (log s) (lastID s) o) as [[[out l1] last1]|] eqn:E1; [|done]. cbn [mbind option_bind] in E.
  destruct (stream_step_spec s o out l1 last1 Hok Ho E1) as (s1 & Hst & Hok1 & <- & <- & _).
  destruct (log_run (log s1) (lastID s1) ops) as [[outs1 l2]|] eqn:E2; [|done]. simplify_eq/=.
  destruct (IH s1 outs1 l' Hok1 E2) as (s' & Hr & ? & ?). exists s'. cbn [stream_run].
  rewrite Hst. cbn [mbind option_bind]. by rewrite Hr.
Qed.

End history.

(** For every arena allocator and every history of additions, trims, deletions and range queries on a new
    stream: when every addition has a value for each field, at most 65536 field names in all, values
    that fit an empty chunk and, on an empty log, an id above the last one, then no operation fails
    or loops, and every result (ids, refusals, counts, entries of XRANGE and XREVRANGE with a count)
    is the one of the plain log of entries; in particular an approximate trim keeps exactly
    the last [maxLen] entries.  At the end the length is that of the log. *)
Theorem stream_history {A} (fresh : A) alloc U ops outs l :
  few U -> Forall (op_ok fresh alloc U) ops -> log_run [] ZeroID ops = Some (outs, l) ->
  exists s, stream_run fresh alloc NewStream ops = Some (outs, s) /\ log s = l /\ Len s = zlen l.
Proof.
  intros HU Ho E. destruct (stream_run_spec fresh alloc U HU ops NewStream outs l (NewStream_ok U) Ho E) as (s & ? & Hok & <-).
  exists s. split_and!; [done|done|]. symmetry. by eapply zlen_log.
Qed.

(** A bump allocator of 8 bytes, enough for the example's entries one at a time. *)
Definition tiny_alloc (used n : Z) : option Z := if used + n <=? 8 then Some (used + n) else None.

Definition sample_ops : list stream_op :=
  let e i v := OAdd (mkID i 0) [str "f"] [str v] 0 false in
  [e 1 "abcde"; e 2 "fgh"; e 3 "ijklmn"; e 2 "no"; ODelete [mkID 2 0]; OTrim 1 true;
   ORange ZeroID MaxID 0 false; e 5 "xy"; ORange MaxID ZeroID 1 true].

Lemma stream_history_witness :
  exists s, stream_run 0 tiny_alloc NewStream sample_ops =
    Some ([OutID (mkID 1 0); OutID (mkID 2 0); OutID (mkID 3 0); OutError ErrInvalidStreamID; OutCount 1; OutCount 1;
           OutEntries [mkSE (mkID 3 0) [str "f"] [str "ijklmn"]]; OutID (mkID 5 0);
           OutEntries [mkSE (mkID 5 0) [str "f"] [str "xy"]]], s) /\
    log s = [mkSE (mkID 3 0) [str "f"] [str "ijklmn"]; mkSE (mkID 5 0) [str "f"] [str "xy"]] /\ Len s = 2.
Proof.
  apply (stream_history 0 tiny_alloc {[str "f"]} sample_ops).
  - unfold few. rewrite size_singleton. lia.
  - assert (forall i v, (alloc_values tiny_alloc 0 [v]).1 = true ->
      op_ok 0 tiny_alloc {[str "f"]} (OAdd i [str "f"] [v] 0 false)) as H.
    { intros i v Hv. split_and!; [done| |done]. apply Forall_singleton, elem_of_singleton. done. }
    repeat constructor; apply H; reflexivity.
  - vm_compute. reflexivity.
Defined.

(** An entry that does not fit an empty chunk is lost and still counted: [Add] reports its id and
    the length grows, but no range query returns it ([Append] on the new chunk fails and its result
    is dropped). *)
Theorem oversized_entry_is_lost {A} (fresh : A) alloc id names vals :
  (alloc_values alloc fresh vals).1 = false ->
  exists s, Add fresh alloc NewStream id names vals 0 false = Some (inr id, s) /\ Len s = 1 /\
    forall start end_ count reverse, Range s start end_ count reverse = Some [].
Proof.
  intros Hf. unfold Add. cbn [length_ NewStream Z.ltb Z.compare andb].
  destruct (intern_all NewStream names) as [ids s] eqn:E.
  assert (chunks s = [] /\ length_ s = 0) as [Hc Hl].
  { assert (forall ns (t : Stream A) ids' t', intern_all t ns = (ids', t') -> chunks t' = chunks t /\ length_ t' = length_ t) as H.
    { induction ns as [|n ns IH]; intros t ids' t' Et; cbn [intern_all] in Et; [by simplify_eq|].
      destruct (internField t n) as [i t1] eqn:E1. destruct (intern_all t1 ns) as [ids1 t2] eqn:E2. simplify_eq.
      destruct (IH _ _ _ E2) as [-> ->]. unfold internField in E1. destruct (fieldMap t !! n); by simplify_eq. }
    apply (H _ _ _ _ E). }
  assert (exists a, Append alloc (NewChunk fresh) id ids vals = (false, mkChunk a [] 0)) as [a Ha].
  { unfold Append. change (IsFull (NewChunk fresh)) with false. simpl.
    destruct (alloc_values alloc fresh vals) as [[|] a]; [done|eauto]. }
  unfold add_record, append_tail. rewrite Hc, Hl. cbn [last length Nat.sub take app]. rewrite Ha.
  cbn [snd app length_ Z.ltb Z.compare andb mbind option_bind]. eexists. split_and!; [done|done|].
  intros start end_ count [|]; reflexivity.
Qed.

Lemma oversized_entry_is_lost_witness :
  exists s, Add 0 tiny_alloc NewStream (mkID 1 0) [str "f"] [str "a long value"] 0 false = Some (inr (mkID 1 0), s) /\
    Len s = 1 /\ forall start end_ count reverse, Range s start end_ count reverse = Some [].
Proof. apply (oversized_entry_is_lost 0 tiny_alloc). reflexivity. Defined.

(** The monotonicity test of [Add] looks at the length, not at the last id: after its only entry is
    deleted a stream accepts a smaller id, the records of the chunk are then out of order, and
    XREVRANGE from an id between the two skips the chunk and misses the live entry that XRANGE over
    the same interval returns. *)
Example emptied_stream_breaks_order :
  let add i := OAdd (mkID i 0) [str "f"] [str "v"] 0 false in
  fst <$> stream_run 0 tiny_alloc NewStream
    [add 10; ODelete [mkID 10 0]; add 5; ORange ZeroID (mkID 7 0) 0 false; ORange (mkID 7 0) ZeroID 0 true] =
  Some [OutID (mkID 10 0); OutCount 1; OutID (mkID 5 0);
        OutEntries [mkSE (mkID 5 0) [str "f"] [str "v"]]; OutEntries []].
Proof. vm_compute. reflexivity. Qed.
