(* ===== verification/StreamGroups.v ===== *)
(** * Consumer groups

    What [ReadGroup], [Ack] and [Claim] of [Stream] promise: every entry of the log reaches the group
    once and in order, whichever consumers read and whatever is added meanwhile; a delivered entry
    is pending for its consumer until it is acknowledged.  [claim_leaves_old_consumer] shows where a
    claim departs from that. *)

From S2P Require Import Prelude Strconv Stream StreamSpec.

Local Open Scope Z_scope.

(** [AddPending] makes [id] pending for the consumer and leaves the rest of the group as it is. *)
Lemma AddPending_spec now cg c id :
  let cg' := AddPending now cg c id in
  g_LastDeliveredID cg' = g_LastDeliveredID cg /\
  (exists nack, g_Pel cg' !! id = Some nack /\ n_ConsumerName nack = c) /\
  (forall id', id' <> id -> g_Pel cg' !! id' = g_Pel cg !! id') /\
  (exists con, g_Consumers cg' !! c = Some con /\ id ∈ c_Pel con) /\
  (forall n con id', g_Consumers cg !! n = Some con -> id' ∈ c_Pel con ->
     exists con', g_Consumers cg' !! n = Some con' /\ id' ∈ c_Pel con').
Proof.
  unfold AddPending, GetOrCreateConsumer. cbn [g_Pel g_Consumers g_LastDeliveredID]. split_and!.
  - done.
  - rewrite lookup_insert_eq. destruct (g_Pel cg !! id); eexists; split; done.
  - intros id' Hne. by rewrite lookup_insert_ne.
  - rewrite lookup_insert_eq. eexists. split; [done|]. simpl. set_solver.
  - intros n con id' Hn Hin. destruct (decide (n = c)) as [->|Hne].
    + rewrite lookup_insert_eq, Hn. eexists. split; [done|]. simpl. set_solver.
    + rewrite !lookup_insert_ne by done. eauto.
Qed.

(** [id] is pending in the group for consumer [c], in the group's list and in the consumer's. *)
Definition pending_for (cg : ConsumerGroup) (c : bytes) (id : StreamID) : Prop :=
  (exists nack, g_Pel cg !! id = Some nack /\ n_ConsumerName nack = c) /\
  (exists con, g_Consumers cg !! c = Some con /\ id ∈ c_Pel con).

Lemma AddPending_pending now cg c id : pending_for (AddPending now cg c id) c id.
Proof. destruct (AddPending_spec now cg c id) as (_ & ? & _ & ? & _). by split. Qed.

Lemma AddPending_keeps now cg c id c' id' :
  id' <> id -> pending_for cg c' id' -> pending_for (AddPending now cg c id) c' id'.
Proof.
  intros Hne [(nack & Hp & Hn) (con & Hc & Hin)]. destruct (AddPending_spec now cg c id) as (_ & _ & Hp' & _ & Hc').
  split; [|eauto]. exists nack. by rewrite Hp'.
Qed.

(** The cursor after delivering entries: the id of the last one. *)
Definition cursor (last : StreamID) (es : list StreamEntry) : StreamID := List.last (e_ID <$> es) last.

Section delivery.
Context {A : Type}.
Implicit Types (s : Stream A) (cg : ConsumerGroup).

(** The entries that the group has not been given yet. *)
Definition undelivered s (last : StreamID) : list StreamEntry := filter (fun e => id_lt last (e_ID e)) (log s).

(** How one read changes the group when it delivers [es]. *)
Record delivered (now : Z) (c : bytes) (noAck : bool) (es : list StreamEntry) cg cg' : Prop := {
  del_mono : ~ id_lt (g_LastDeliveredID cg') (g_LastDeliveredID cg);
  del_below : Forall (fun e => ~ id_lt (g_LastDeliveredID cg') (e_ID e)) es;
  del_cursor : g_LastDeliveredID cg' = cursor (g_LastDeliveredID cg) es;
  del_pending : noAck = false -> Forall (fun e => pending_for cg' c (e_ID e)) es;
  del_keeps : forall c' id, ~ id_lt (g_LastDeliveredID cg) id -> pending_for cg c' id -> pending_for cg' c' id
}.

Lemma delivered_nil (now : Z) (c : bytes) (noAck : bool) cg : delivered now c noAck [] cg cg.
Proof. split; [apply id_lt_irrefl|constructor|done|constructor|done]. Qed.

Lemma delivered_cons (now : Z) (c : bytes) (noAck : bool) (e : StreamEntry) (es : list StreamEntry) cg cg' :
  id_lt (g_LastDeliveredID cg) (e_ID e) ->
  (let cg1 := if noAck then cg else AddPending now cg c (e_ID e) in
   delivered now c noAck es (mkGroup (g_Name cg1) (e_ID e) (g_Pel cg1) (g_Consumers cg1)) cg') ->
  delivered now c noAck (e :: es) cg cg'.
Proof.
  intros Hlt [H0 Hb H1 H2 H3]. simpl in H0, H1, H3. split.
  - unfold id_lt in *. lia.
  - by constructor.
  - rewrite H1. unfold cursor. rewrite fmap_cons. destruct es as [|e' es]; [done|]. rewrite fmap_cons.
    generalize (e_ID e' :: (e_ID <$> es)). intros l. cbn [List.last]. destruct l as [|x l]; [done|].
    clear. revert x. induction l as [|y l IH]; intros x; [done|apply IH].
  - intros ->. constructor; [|auto]. apply H3; [apply id_lt_irrefl|]. apply AddPending_pending.
  - intros c' id Hid Hp. apply H3; [unfold id_lt in *; lia|]. destruct noAck; [done|].
    apply (AddPending_keeps now cg c (e_ID e)); [|done]. intros ->. tauto.
Qed.

Lemma deliver_loop_spec s now c count noAck rs cg result :
  StronglySorted rec_lt rs -> Forall (fun r => unpackEntry s r = Some (unpack (fields s) r)) rs ->
  (0 < count -> zlen result < count) ->
  exists es rest cg',
    deliver_loop s now c count noAck rs cg result = Some (result ++ es, cg') /\
    limit count (result ++ filter (fun e => id_lt (g_LastDeliveredID cg) (e_ID e)) (unpack (fields s) <$> live rs))
      = result ++ es /\
    filter (fun e => id_lt (g_LastDeliveredID cg) (e_ID e)) (unpack (fields s) <$> live rs) = es ++ rest /\
    filter (fun e => id_lt (g_LastDeliveredID cg') (e_ID e)) (unpack (fields s) <$> live rs) = rest /\
    delivered now c noAck es cg cg'.
Proof.
  intros Hs Hu. revert cg result. induction rs as [|r rs IH]; intros cg result Hres; cbn [deliver_loop].
  { exists [], [], cg. change (unpack (fields s) <$> live []) with (@nil StreamEntry).
    rewrite filter_nil, app_nil_r. split_and!; [done|by apply limit_room|done|done|apply delivered_nil]. }
  apply StronglySorted_cons in Hs as [Hr Hs]. apply Forall_cons in Hu as [Hur Hu]. specialize (IH Hs Hu).
  unfold live. rewrite filter_cons. destruct (r_Deleted r) eqn:Hd; cbn [orb].
  { rewrite decide_False by done. by apply IH. }
  rewrite decide_True by done. rewrite fmap_cons. fold (live rs).
  destruct (Compare (r_ID r) (g_LastDeliveredID cg) <=? 0) eqn:Hc.
  { apply Compare_le in Hc. destruct (IH cg result Hres) as (es & rest & cg' & -> & Hlim & Hf & Hf' & Hdel).
    exists es, rest, cg'. pose proof (del_mono _ _ _ _ _ _ Hdel). rewrite !filter_cons_False; [done| |done].
    cbn [e_ID unpack]. unfold id_lt in *. lia. }
  apply not_true_iff_false in Hc. rewrite Compare_le in Hc. apply dec_stable in Hc.
  rewrite Hur. cbn [mbind option_bind]. rewrite filter_cons_True by done.
  set (e := unpack (fields s) r). set (cg1 := mkGroup _ (r_ID r) _ _).
  assert (forall last, ~ id_lt (r_ID r) last ->
    filter (fun e => id_lt last (e_ID e)) (unpack (fields s) <$> live rs) = unpack (fields s) <$> live rs) as Hall.
  { intros last Hl. apply filter_all. rewrite Forall_fmap, Forall_forall. intros r' [_ Hin]%list_elem_of_filter.
    rewrite Forall_forall in Hr. specialize (Hr r' Hin). unfold rec_lt in Hr. cbn [compose e_ID unpack].
    unfold id_lt in *. lia. }
  rewrite (Hall (g_LastDeliveredID cg)) by (unfold id_lt in *; lia).
  rewrite zlen_app, zlen_cons, zlen_nil. destruct ((0 <? count) && _) eqn:Hcount.
  - bool_prop. exists [e], (unpack (fields s) <$> live rs), cg1. split_and!; [done| |done| |].
    + rewrite limit_full by lia. done.
    + rewrite filter_cons_False by apply id_lt_irrefl. apply Hall, id_lt_irrefl.
    + apply delivered_cons; [done|]. apply delivered_nil.
  - destruct (IH cg1 (result ++ [e])) as (es & rest & cg' & -> & Hlim & Hf & Hf' & Hdel).
    { rewrite zlen_app, zlen_cons, zlen_nil. bool_prop. lia. }
    rewrite Hall in Hf, Hlim by apply id_lt_irrefl. exists (e :: es), rest, cg'.
    rewrite <- !app_assoc in *. split_and!; [done|done|by rewrite Hf| |by apply delivered_cons].
    rewrite filter_cons_False; [done|]. apply (del_mono _ _ _ _ _ _ Hdel).
Qed.

End delivery.

(** ** Reads interleaved with additions *)

Inductive group_op :=
| GAdd (id : StreamID) (names vals : list bytes)
| GRead (now : Z) (consumer : bytes) (count : Z) (noAck : bool).

(** What one read delivered, and to whom. *)
Record delivery := mkDelivery { d_consumer : bytes; d_noAck : bool; d_entries : list StreamEntry }.

(** The entries a schedule adds, and that its ids increase from [last] on. *)
Definition added (ops : list group_op) : list StreamEntry :=
  omap (fun o => match o with GAdd id names vals => Some (mkSE id names vals) | _ => None end) ops.

Fixpoint increasing (last : StreamID) (ops : list group_op) : Prop :=
  match ops with
  | [] => True
  | GAdd id _ _ :: ops => id_lt last id /\ increasing id ops
  | _ :: ops => increasing last ops
  end.

Section groups.
Context {A : Type} (fresh : A) (alloc : A -> Z -> option A) (g : bytes).
Context (U : gset bytes) (HU : few U).
Implicit Types (s : Stream A) (cg : ConsumerGroup).

Fixpoint group_run s (ops : list group_op) : option (list delivery * Stream A) :=
  match ops with
  | [] => Some ([], s)
  | GAdd id names vals :: ops =>
    '(r, s) ← Add fresh alloc s id names vals 0 false;
    match r with inl _ => None | inr _ => group_run s ops end
  | GRead now consumer count noAck :: ops =>
    '(r, s) ← ReadGroup s now g consumer ZeroID true count noAck;
    match r with
    | inl _ => None
    | inr es => '(ds, s) ← group_run s ops; Some (mkDelivery consumer noAck es :: ds, s)
    end
  end.

Definition group_op_ok (o : group_op) : Prop :=
  match o with GAdd id names vals => op_ok fresh alloc U (OAdd id names vals 0 false) | GRead _ _ _ _ => True end.

Lemma ReadGroup_new s now c count noAck cg :
  stream_ok U s -> cgroups s !! g = Some cg ->
  exists es cg', ReadGroup s now g c ZeroID true count noAck = Some (inr es, with_groups s (<[g := cg']> (cgroups s))) /\
    es = limit count (undelivered s (g_LastDeliveredID cg)) /\
    undelivered s (g_LastDeliveredID cg) = es ++ undelivered s (g_LastDeliveredID cg') /\
    delivered now c noAck es cg cg'.
Proof.
  intros [_ _ [Hs Hr] _] Hg. unfold ReadGroup. rewrite Hg.
  destruct (deliver_loop_spec s now c count noAck (recs s) cg []) as (es & rest & cg' & E & Hlim & Hf & Hf' & Hd).
  - by apply sorted_cores.
  - rewrite Forall_fmap in Hr. eapply Forall_impl; [done|]. intros r. apply unpackEntry_ok.
  - rewrite zlen_nil. lia.
  - exists es, cg'. change (all_recs s) with (recs s). rewrite E. rewrite app_nil_l in Hlim.
    split_and!; [done|done| |done]. unfold undelivered, log. by rewrite Hf, Hf'.
Qed.

Lemma undelivered_ids s last : Forall (fun e => id_lt last (e_ID e)) (undelivered s last).
Proof. apply Forall_forall. intros e [? _]%list_elem_of_filter. done. Qed.

Lemma log_bounded s : stream_ok U s -> Forall (fun e => ~ id_lt (lastID s) (e_ID e)) (log s).
Proof.
  intros [_ _ [_ Hr] _]. unfold log. rewrite Forall_fmap, Forall_forall. intros r [_ Hin]%list_elem_of_filter.
  rewrite Forall_fmap, Forall_forall in Hr. apply (Hr r Hin).
Qed.

Lemma cursor_bounded (P : StreamID -> Prop) last es : P last -> Forall (fun e => P (e_ID e)) es -> P (cursor last es).
Proof.
  intros Hl Hes. unfold cursor. revert last Hl. induction Hes as [|e es He _ IH]; intros last Hl; [done|].
  rewrite fmap_cons. destruct es as [|e' es]; [done|]. apply (IH last Hl).
Qed.

(** The end of a run: all deliveries in order, then what is left, make up what there was and what
    was added; and everything delivered for acknowledgement is pending. *)
Definition run_ok s cg (ops : list group_op) (ds : list delivery) s' : Prop :=
  exists cg', cgroups s' !! g = Some cg' /\ stream_ok U s' /\
    concat (d_entries <$> ds) ++ undelivered s' (g_LastDeliveredID cg') =
      undelivered s (g_LastDeliveredID cg) ++ added ops /\
    Forall (fun d => d_noAck d = false -> Forall (fun e => pending_for cg' (d_consumer d) (e_ID e)) (d_entries d)) ds /\
    (forall c id, ~ id_lt (g_LastDeliveredID cg) id -> pending_for cg c id -> pending_for cg' c id).

Lemma group_run_spec ops s cg :
  stream_ok U s -> cgroups s !! g = Some cg -> ~ id_lt (lastID s) (g_LastDeliveredID cg) ->
  Forall group_op_ok ops -> increasing (lastID s) ops ->
  exists ds s', group_run s ops = Some (ds, s') /\ run_ok s cg ops ds s'.
Proof using HU.
  intros Hok Hg Hlast Hops. revert s cg Hok Hg Hlast.
  induction Hops as [|o ops Ho _ IH]; intros s cg Hok Hg Hlast Hinc; cbn [group_run].
  { exists [], s. split; [done|]. exists cg. rewrite app_nil_r. split_and!; done. }
  destruct o as [id names vals|now c count noAck].
  - destruct Hinc as [Hid Hinc].
    destruct (stream_Add_spec fresh alloc U HU s id names vals 0 false Hok Ho Hid) as (s1 & -> & Hok1 & Hl1 & Hi1 & Hg1).
    cbn [mbind option_bind]. simpl in Hl1.
    destruct (IH s1 cg Hok1) as (ds & s' & -> & cg' & ? & ? & E & ? & ?);
      [congruence|rewrite Hi1; unfold id_lt in *; lia|by rewrite Hi1|].
    exists ds, s'. split; [done|]. exists cg'. split_and!; try done. rewrite E. unfold undelivered. rewrite Hl1, filter_app.
    rewrite filter_cons_True, filter_nil by (simpl; unfold id_lt in *; lia). by rewrite <- app_assoc.
  - destruct (ReadGroup_new s now c count noAck cg Hok Hg) as (es & cg1 & -> & _ & Hund & [Hmono Hbelow Hcur Hpend Hkeep]).
    cbn [mbind option_bind]. set (s1 := with_groups s _).
    assert (stream_ok U s1) as Hok1 by (destruct Hok; by split).
    assert (Forall (fun e => ~ id_lt (lastID s) (e_ID e)) es) as Hb.
    { pose proof (log_bounded s Hok) as Hlb. rewrite Forall_forall in Hlb |- *. intros e He. apply Hlb.
      assert (e ∈ undelivered s (g_LastDeliveredID cg)) as [_ ?]%list_elem_of_filter by (rewrite Hund; set_solver). done. }
    destruct (IH s1 cg1 Hok1) as (ds & s' & -> & cg' & ? & ? & E & Hds & Hk').
    { simpl. by rewrite lookup_insert_eq. }
    { rewrite Hcur. by apply cursor_bounded. }
    { done. }
    exists (mkDelivery c noAck es :: ds), s'. split; [done|]. exists cg'. split_and!; [done|done| | |].
    + rewrite Hund, fmap_cons. cbn [concat d_entries added omap list_omap]. rewrite <- !app_assoc. f_equal. exact E.
    + constructor; [|done]. simpl. intros Hna. specialize (Hpend Hna). rewrite Forall_forall in *.
      intros e He. apply Hk'; [by apply Hbelow|by apply Hpend].
    + intros c' id Hid Hp. apply Hk'; [unfold id_lt in *; lia|]. by apply Hkeep.
Qed.

End groups.

(** C21. Reading new entries with any number of consumers, counts and acknowledgement modes, interleaved with additions of increasing ids
    whose entries fit a chunk, gives the group every entry once and in log order: the deliveries, put one after the other and followed by
    what is still undelivered, are what was undelivered at the start followed by the additions. No read fails; what was delivered for
    acknowledgement is pending for the consumer that got it. (An entry that does not fit an empty chunk is lost before it can be delivered:
    [oversized_entry_is_lost].) *)
Theorem group_delivers_once {A} (fresh : A) alloc g U ops s cg :
  few U -> stream_ok U s -> cgroups s !! g = Some cg -> ~ id_lt (lastID s) (g_LastDeliveredID cg) ->
  Forall (group_op_ok fresh alloc U) ops -> increasing (lastID s) ops ->
  exists ds s' cg', group_run fresh alloc g s ops = Some (ds, s') /\ cgroups s' !! g = Some cg' /\
    concat (d_entries <$> ds) ++ undelivered s' (g_LastDeliveredID cg') =
      undelivered s (g_LastDeliveredID cg) ++ added ops /\
    Forall (fun d => d_noAck d = false ->
      Forall (fun e => pending_for cg' (d_consumer d) (e_ID e)) (d_entries d)) ds.
Proof.
  intros HU Hok Hg Hlast Hops Hinc.
  destruct (group_run_spec fresh alloc g U HU ops s cg Hok Hg Hlast Hops Hinc) as (ds & s' & E & cg' & ? & _ & ? & ? & _).
  by exists ds, s', cg'.
Qed.

Definition sample_schedule : list group_op :=
  [GAdd (mkID 1 0) [str "f"] [str "a"]; GAdd (mkID 2 0) [str "f"] [str "b"]; GRead 5 (str "alice") 1 false;
   GAdd (mkID 3 0) [str "f"] [str "c"]; GRead 6 (str "bob") 0 false; GAdd (mkID 4 0) [str "f"] [str "d"]].

Definition sample_group : Stream Z := (CreateGroup NewStream (str "g") ZeroID).2.

Lemma group_delivers_once_witness :
  exists ds s' cg', group_run 0 tiny_alloc (str "g") sample_group sample_schedule = Some (ds, s') /\
    cgroups s' !! str "g" = Some cg' /\
    concat (d_entries <$> ds) ++ undelivered s' (g_LastDeliveredID cg') = [] ++ added sample_schedule /\
    Forall (fun d => d_noAck d = false ->
      Forall (fun e => pending_for cg' (d_consumer d) (e_ID e)) (d_entries d)) ds.
Proof.
  apply (group_delivers_once 0 tiny_alloc (str "g") {[str "f"]} sample_schedule sample_group
           (NewConsumerGroup (str "g") ZeroID)).
  - unfold few. rewrite size_singleton. lia.
  - destruct (@NewStream_ok Z {[str "f"]}). by split.
  - reflexivity.
  - apply id_lt_irrefl.
  - assert (forall i v, (alloc_values tiny_alloc 0 [v]).1 = true ->
      group_op_ok 0 tiny_alloc {[str "f"]} (GAdd i [str "f"] [v])) as H.
    { intros i v Hv. split_and!; [done| |done]. apply Forall_singleton, elem_of_singleton. done. }
    repeat constructor; apply H; reflexivity.
  - repeat split; left; reflexivity.
Defined.

(** ** Acknowledging *)

(** The pending ids among [ids]. *)
Definition acked (cg : ConsumerGroup) (ids : list StreamID) : gset StreamID := dom (g_Pel cg) ∩ list_to_set ids.

Lemma ack_loop_spec ids cg :
  exists cg', ack_loop cg ids = (Z.of_nat (size (acked cg ids)), cg') /\
    g_Pel cg' = filter (fun p => p.1 ∉ ids) (g_Pel cg) /\ g_LastDeliveredID cg' = g_LastDeliveredID cg.
Proof.
  revert cg. induction ids as [|id ids IH]; intros cg; cbn [ack_loop].
  { exists cg. split_and!; [do 2 f_equal; unfold acked; simpl; rewrite intersection_empty_r_L; by rewrite size_empty| |done].
    symmetry. apply map_filter_id. intros i x _. simpl. set_solver. }
  unfold cg_Ack. destruct (g_Pel cg !! id) as [nack|] eqn:E.
  - set (cg1 := mkGroup _ _ (delete id (g_Pel cg)) _). destruct (IH cg1) as (cg' & -> & Hp & Hl).
    exists cg'. split_and!; [| |done].
    + f_equal. unfold acked. change (g_Pel cg1) with (delete id (g_Pel cg)). rewrite dom_delete_L, list_to_set_cons.
      assert (dom (g_Pel cg) ∩ ({[id]} ∪ list_to_set ids) = {[id]} ∪ ((dom (g_Pel cg) ∖ {[id]}) ∩ list_to_set ids)) as ->.
      { apply set_eq. intros x. pose proof (elem_of_dom_2 _ _ _ E). destruct (decide (x = id)); set_solver. }
      assert (({[id]} : gset StreamID) ## (dom (g_Pel cg) ∖ {[id]}) ∩ list_to_set ids) as Hdis by set_solver.
      pose proof (size_union _ _ Hdis) as Hsz. rewrite size_singleton in Hsz. rewrite Hsz. lia.
    + rewrite Hp. simpl. apply map_eq. intros i. rewrite map_lookup_filter. destruct (decide (i = id)) as [->|Hne].
      * rewrite lookup_delete_eq. simpl. symmetry. apply map_lookup_filter_None. right. intros x _ Hx. apply Hx, list_elem_of_here.
      * rewrite lookup_delete_ne by done. rewrite map_lookup_filter. destruct (g_Pel cg !! i); [|done]. simpl.
        apply option_guard_iff. set_solver.
  - destruct (IH cg) as (cg' & -> & Hp & Hl). exists cg'. apply not_elem_of_dom in E. split_and!; [| |done].
    + assert (acked cg (id :: ids) = acked cg ids) as -> by (unfold acked; rewrite list_to_set_cons; set_solver). done.
    + rewrite Hp. apply map_filter_ext. intros i x Hi. simpl. apply elem_of_dom_2 in Hi. set_solver.
Qed.

(** [Ack] counts the distinct ids that were pending and removes exactly those from the group's
    pending entries; the cursor and the log stay. *)
Theorem ack_removes_pending {A} (s : Stream A) g ids cg :
  cgroups s !! g = Some cg ->
  exists s' cg', Ack s g ids = (Z.of_nat (size (acked cg ids)), s') /\
    cgroups s' !! g = Some cg' /\ g_Pel cg' = filter (fun p => p.1 ∉ ids) (g_Pel cg) /\
    g_LastDeliveredID cg' = g_LastDeliveredID cg /\ chunks s' = chunks s.
Proof.
  intros Hg. unfold Ack. rewrite Hg. destruct (ack_loop_spec ids cg) as (cg' & -> & ? & ?).
  eexists _, cg'. split_and!; [done|simpl; by rewrite lookup_insert_eq|done|done|done].
Qed.

Definition acked_group : ConsumerGroup :=
  AddPending 5 (AddPending 4 (NewConsumerGroup (str "g") ZeroID) (str "alice") (mkID 1 0)) (str "bob") (mkID 2 0).

Lemma ack_removes_pending_witness :
  exists s' cg', Ack (with_groups (NewStream (A := Z)) {[str "g" := acked_group]}) (str "g") [mkID 1 0; mkID 9 9; mkID 1 0] =
      (Z.of_nat (size (acked acked_group [mkID 1 0; mkID 9 9; mkID 1 0])), s') /\
    cgroups s' !! str "g" = Some cg' /\
    g_Pel cg' = filter (fun p => p.1 ∉ [mkID 1 0; mkID 9 9; mkID 1 0]) (g_Pel acked_group) /\
    g_LastDeliveredID cg' = ZeroID /\ chunks s' = [].
Proof. apply (ack_removes_pending (with_groups NewStream {[str "g" := acked_group]})). reflexivity. Defined.

(** ** Reading again, and claiming *)

Lemma history_loop_spec {A} (s : Stream A) pel start count rs result :
  Forall (fun r => unpackEntry s r = Some (unpack (fields s) r)) rs -> (0 < count -> zlen result < count) ->
  history_loop s pel start count rs result =
    Some (limit count (result ++ filter (fun e => id_lt start (e_ID e) /\ e_ID e ∈ pel) (unpack (fields s) <$> live rs))).
Proof.
  intros Hu. revert result. induction Hu as [|r rs Hur _ IH]; intros result Hres; cbn [history_loop].
  { change (unpack (fields s) <$> live []) with (@nil StreamEntry). by rewrite filter_nil, app_nil_r, limit_room. }
  unfold live. rewrite filter_cons. destruct (r_Deleted r) eqn:Hd; cbn [orb].
  { rewrite decide_False by done. by apply IH. }
  rewrite decide_True by done. rewrite fmap_cons. fold (live rs).
  destruct ((Compare (r_ID r) start <=? 0) || negb (bool_decide (r_ID r ∈ pel))) eqn:Hc.
  { rewrite filter_cons_False; [by apply IH|]. cbn [e_ID unpack]. intros [Hlt Hin]. bool_prop.
    destruct Hc as [Hc|Hc]; [by apply Compare_le in Hc|]. by rewrite bool_decide_true in Hc. }
  apply orb_false_iff in Hc as [Hc1 Hc2]. rewrite Hur. cbn [mbind option_bind]. rewrite zlen_app, zlen_cons, zlen_nil.
  rewrite filter_cons_True.
  - destruct ((0 <? count) && _) eqn:Hcount; bool_prop; [by rewrite limit_full by lia|].
    rewrite IH; [by rewrite <- app_assoc|]. rewrite zlen_app, zlen_cons, zlen_nil. lia.
  - apply not_true_iff_false in Hc1. rewrite Compare_le in Hc1. apply dec_stable in Hc1.
    by apply negb_false_iff, bool_decide_eq_true in Hc2.
Qed.

(** The entries after [start] that consumer [c] has pending. *)
Definition owned {A} (s : Stream A) cg (c : bytes) (start : StreamID) : list StreamEntry :=
  filter (fun e => id_lt start (e_ID e) /\ e_ID e ∈ default ∅ (c_Pel <$> g_Consumers cg !! c)) (log s).

(** Reading a consumer's history returns, in log order and up to the count, the entries after the
    given id that are in the log and in the consumer's own pending list; it delivers nothing. *)
Theorem history_returns_own_pending {A} U (s : Stream A) now g c start count noAck cg :
  stream_ok U s -> cgroups s !! g = Some cg ->
  exists cg', ReadGroup s now g c start false count noAck =
      Some (inr (limit count (owned s cg c start)), with_groups s (<[g := cg']> (cgroups s))) /\
    g_Pel cg' = g_Pel cg /\ g_LastDeliveredID cg' = g_LastDeliveredID cg.
Proof.
  intros [_ _ [_ Hr] _] Hg. unfold ReadGroup. rewrite Hg. unfold GetOrCreateConsumer, owned.
  rewrite history_loop_spec.
  - destruct (g_Consumers cg !! c); eexists; split_and!; done.
  - rewrite Forall_fmap in Hr. eapply Forall_impl; [exact Hr|]. intros r. apply unpackEntry_ok.
  - rewrite zlen_nil. lia.
Qed.

(** A claim by another consumer does not take the entry out of the old consumer's pending list: the new owner
    acknowledges it, the group no longer has it pending, and still the old consumer's list holds it
    ([AddPending] only adds, [Ack] removes from the current owner only), so that its next history
    read returns the entry again. *)
Theorem claim_leaves_old_consumer {A} (s : Stream A) now g c1 c2 minIdle id cg nack es s1 :
  cgroups s !! g = Some cg -> g_Pel cg !! id = Some nack -> pending_for cg c1 id -> c1 <> c2 ->
  minIdle <= now - n_DeliveryTime nack -> Claim s now g c2 minIdle [id] = Some (es, s1) ->
  exists s2 cg2 con, Ack s1 g [id] = (1, s2) /\ cgroups s2 !! g = Some cg2 /\ g_Pel cg2 !! id = None /\
    g_Consumers cg2 !! c1 = Some con /\ id ∈ c_Pel con.
Proof.
  intros Hg Hn [_ (con & Hcon & Hin)] Hne Hidle E. unfold Claim in E. rewrite Hg in E. cbn [claim_loop] in E.
  rewrite Hn, (proj2 (Z.leb_le _ _)) in E by done.
  set (cg1 := AddPending now cg c2 id) in *. destruct (mapM _ _) as [es1|]; [|done]. injection E as <- <-.
  destruct (AddPending_spec now cg c2 id) as (_ & (nack1 & Hp1 & Ho1) & _ & (con2 & Hc2 & _) & Hkeep). fold cg1 in Hp1, Hc2, Hkeep.
  destruct (Hkeep c1 con id Hcon Hin) as (con1 & Hc1 & Hin1).
  unfold Ack. cbn [cgroups with_groups]. rewrite lookup_insert_eq. cbn [ack_loop]. unfold cg_Ack. rewrite Hp1, Ho1, Hc2.
  eexists _, _, con1. split; [reflexivity|]. cbn [cgroups with_groups]. rewrite lookup_insert_eq. split; [done|].
  cbn [g_Pel g_Consumers]. rewrite lookup_delete_eq, lookup_insert_ne by done. done.
Qed.

Definition claim_stream : Stream Z :=
  with_groups NewStream {[str "g" := AddPending 4 (NewConsumerGroup (str "g") ZeroID) (str "alice") (mkID 1 0)]}.

Lemma claim_leaves_old_consumer_witness :
  exists s2 cg2 con, Ack (default NewStream (snd <$> Claim claim_stream 9 (str "g") (str "bob") 3 [mkID 1 0])) (str "g") [mkID 1 0] = (1, s2) /\
    cgroups s2 !! str "g" = Some cg2 /\ g_Pel cg2 !! mkID 1 0 = None /\
    g_Consumers cg2 !! str "alice" = Some con /\ mkID 1 0 ∈ c_Pel con.
Proof.
  apply (claim_leaves_old_consumer claim_stream 9 (str "g") (str "alice") (str "bob") 3 (mkID 1 0)
    (AddPending 4 (NewConsumerGroup (str "g") ZeroID) (str "alice") (mkID 1 0)) (mkNack (mkID 1 0) (str "alice") 4 1) []).
  - reflexivity.
  - reflexivity.
  - apply AddPending_pending.
  - discriminate.
  - simpl. lia.
  - reflexivity.
Defined.

Lemma history_returns_own_pending_witness :
  exists cg', ReadGroup claim_stream 9 (str "g") (str "alice") ZeroID false 0 false =
      Some (inr [], with_groups claim_stream (<[str "g" := cg']> (cgroups claim_stream))) /\
    g_Pel cg' = {[mkID 1 0 := mkNack (mkID 1 0) (str "alice") 4 1]} /\ g_LastDeliveredID cg' = ZeroID.
Proof.
  apply (history_returns_own_pending ∅ claim_stream 9 (str "g") (str "alice") ZeroID 0 false
    (AddPending 4 (NewConsumerGroup (str "g") ZeroID) (str "alice") (mkID 1 0))).
  - destruct (@NewStream_ok Z ∅). by split.
  - reflexivity.
Defined.
