(* ===== verification/Pubsub.v ===== *)
(** * Publish and subscribe ([pubsub/pubsub.go], [commands/pubsub.go])

    A subscriber is an object on a heap, named by its id (ids come from [NextSubscriberID], so they are the
    objects' identities); its outbound channel is a bounded queue that can be closed.  The hub routes by
    64 maps of channels and by one list of pattern entries.  The matcher of patterns calls
    [path.Match]: it is a parameter.

    [hub_tables_agree] shows that the hub's tables and the subscribers' own sets name the same subscriptions
    after every history, and [publish_delivers] what a publication puts into every queue. *)

From S2P Require Import Prelude Strconv.

Local Open Scope Z_scope.

Definition NumPubSubShards : Z := 64.
Definition DefaultMsgQueueSize : Z := 512.

Record Subscriber := mkSub {
  MsgCh : list bytes;      (* queued messages *)
  MsgCh_closed : bool;     (* [close(s.MsgCh)] was executed *)
  proto : Z;
  closed : bool;
  channels : gset bytes;
  patterns : gset bytes
}.

Record ShardedHub := mkHub {
  shards : list (gmap bytes (gset Z));
  hpatterns : list (bytes * Z);
  nextSubID : Z
}.

(** The hub and the subscribers it can reach. *)
Record World := mkWorld { hub : ShardedHub; heap : gmap Z Subscriber }.

Definition NewShardedHub : ShardedHub := mkHub (replicate (Z.to_nat NumPubSubShards) ∅) [] 0.

Definition NewSubscriber : Subscriber := mkSub [] false 0 false ∅ ∅.

(** ** Subscribers *)

Definition SetProto (s : Subscriber) (v : Z) : Subscriber :=
  mkSub (MsgCh s) (MsgCh_closed s) (s32 v) (closed s) (channels s) (patterns s).

Definition Proto (s : Subscriber) : Z := if proto s =? 0 then 2 else proto s.

Definition SubCount (s : Subscriber) : Z := Z.of_nat (size (channels s)) + Z.of_nat (size (patterns s)).

Definition HasSubscriptions (s : Subscriber) : bool := 0 <? SubCount s.

(** A non-blocking send; [None] is the panic of a send on a closed channel. *)
Definition TrySend (s : Subscriber) (msg : bytes) : option (bool * Subscriber) :=
  if closed s then Some (false, s)
  else if MsgCh_closed s then None
  else if zlen (MsgCh s) <? DefaultMsgQueueSize then
    Some (true, mkSub (MsgCh s ++ [msg]) (MsgCh_closed s) (proto s) (closed s) (channels s) (patterns s))
  else Some (false, s).

(** [None] is the panic of closing a channel twice. *)
Definition Close (s : Subscriber) : option Subscriber :=
  if closed s then Some s
  else if MsgCh_closed s then None
  else Some (mkSub (MsgCh s) true (proto s) true ∅ ∅).

Definition set_channels (s : Subscriber) (c : gset bytes) : Subscriber :=
  mkSub (MsgCh s) (MsgCh_closed s) (proto s) (closed s) c (patterns s).
Definition set_patterns (s : Subscriber) (p : gset bytes) : Subscriber :=
  mkSub (MsgCh s) (MsgCh_closed s) (proto s) (closed s) (channels s) p.

(** ** Frames *)

Definition pushPrefix (proto : Z) : byte := if proto =? 3 then 62 else 42.

Definition bulk (s : bytes) : bytes := str "$" ++ FormatInt (zlen s) ++ crlf ++ s ++ crlf.

Definition formatMessage (channel message : bytes) (proto : Z) : bytes :=
  pushPrefix proto :: str "3" ++ crlf ++ bulk (str "message") ++ bulk channel ++ bulk message.

Definition formatPMessage (pattern channel message : bytes) (proto : Z) : bytes :=
  pushPrefix proto :: str "4" ++ crlf ++ bulk (str "pmessage") ++ bulk pattern ++ bulk channel ++ bulk message.

Definition FormatSubscribeReply (action name : bytes) (count proto : Z) : bytes :=
  pushPrefix proto :: str "3" ++ crlf ++ bulk action ++ bulk name ++ str ":" ++ FormatInt count ++ crlf.

(** ** The hub *)

Definition fnv32 (key : bytes) : Z :=
  fold_left (fun hash b => u32 (Z.lxor hash b * 16777619)) key 2166136261.

Definition shard_idx (channel : bytes) : nat := Z.to_nat (fnv32 channel mod NumPubSubShards).
Definition getShard (h : ShardedHub) (channel : bytes) : gmap bytes (gset Z) := default ∅ (shards h !! shard_idx channel).
Definition put_shard (h : ShardedHub) (channel : bytes) (m : gmap bytes (gset Z)) : ShardedHub :=
  mkHub (<[shard_idx channel := m]> (shards h)) (hpatterns h) (nextSubID h).

(** Run an operation of one subscriber's object. *)
Definition with_sub {B} (w : World) (id : Z) (f : Subscriber -> option (B * Subscriber)) : option (B * World) :=
  s ← heap w !! id;
  '(b, s) ← f s;
  Some (b, mkWorld (hub w) (<[id := s]> (heap w))).

(** A new connection. *)
Definition connect (w : World) : Z * World :=
  let id := u64 (nextSubID (hub w) + 1) in
  (id, mkWorld (mkHub (shards (hub w)) (hpatterns (hub w)) id) (<[id := NewSubscriber]> (heap w))).

Definition Subscribe (w : World) (sub : Z) (channel : bytes) : option (Z * World) :=
  let shard := getShard (hub w) channel in
  let subs := default ∅ (shard !! channel) in
  let h := put_shard (hub w) channel (<[channel := {[sub]} ∪ subs]> shard) in
  with_sub (mkWorld h (heap w)) sub (fun s =>
    let s := set_channels s ({[channel]} ∪ channels s) in Some (SubCount s, s)).

Definition Unsubscribe (w : World) (sub : Z) (channel : bytes) : option (Z * World) :=
  let shard := getShard (hub w) channel in
  let h :=
    match shard !! channel with
    | Some subs =>
      let subs := subs ∖ {[sub]} in
      put_shard (hub w) channel (if bool_decide (subs = ∅) then delete channel shard else <[channel := subs]> shard)
    | None => hub w
    end in
  with_sub (mkWorld h (heap w)) sub (fun s =>
    let s := set_channels s (channels s ∖ {[channel]}) in Some (SubCount s, s)).

Definition set_hpatterns (h : ShardedHub) (l : list (bytes * Z)) : ShardedHub := mkHub (shards h) l (nextSubID h).

Definition PSubscribe (w : World) (sub : Z) (pattern : bytes) : option (Z * World) :=
  let oldList := hpatterns (hub w) in
  let alreadyExists := existsb (fun pe => bool_decide (pe.1 = pattern) && (pe.2 =? sub)) oldList in
  let h := if alreadyExists then hub w else set_hpatterns (hub w) (oldList ++ [(pattern, sub)]) in
  with_sub (mkWorld h (heap w)) sub (fun s =>
    let s := set_patterns s ({[pattern]} ∪ patterns s) in Some (SubCount s, s)).

Definition PUnsubscribe (w : World) (sub : Z) (pattern : bytes) : option (Z * World) :=
  let newList := filter (fun pe => ~ (pe.1 = pattern /\ pe.2 = sub)) (hpatterns (hub w)) in
  with_sub (mkWorld (set_hpatterns (hub w) newList) (heap w)) sub (fun s =>
    let s := set_patterns s (patterns s ∖ {[pattern]}) in Some (SubCount s, s)).

(** The loops of [UnsubscribeAll] over the names it collected. *)
Fixpoint for_names (f : World -> Z -> bytes -> option (Z * World)) (w : World) (sub : Z) (names : list bytes) : option World :=
  match names with
  | [] => Some w
  | n :: names => '(_, w) ← f w sub n; for_names f w sub names
  end.

Definition UnsubscribeAll (w : World) (sub : Z) : option World :=
  s ← heap w !! sub;
  w ← for_names Unsubscribe w sub (elements (channels s));
  for_names PUnsubscribe w sub (elements (patterns s)).

(** The end of a connection. *)
Definition disconnect (w : World) (sub : Z) : option World :=
  w ← UnsubscribeAll w sub;
  '(_, w) ← with_sub w sub (fun s => s ← Close s; Some (tt, s)); Some w.

Section publish.
Context (matchPattern : bytes -> bytes -> bool).

Fixpoint exact_loop (w : World) (channel message : bytes) (ids : list Z) (receivers : Z) : option (Z * World) :=
  match ids with
  | [] => Some (receivers, w)
  | id :: ids =>
    '(b, w) ← with_sub w id (fun s =>
      TrySend s (if Proto s =? 3 then formatMessage channel message 3 else formatMessage channel message 2));
    exact_loop w channel message ids (if (b : bool) then receivers + 1 else receivers)
  end.

Fixpoint pattern_loop (w : World) (channel message : bytes) (pes : list (bytes * Z)) (receivers : Z) : option (Z * World) :=
  match pes with
  | [] => Some (receivers, w)
  | (p, id) :: pes =>
    if matchPattern p channel then
      '(b, w) ← with_sub w id (fun s => TrySend s (formatPMessage p channel message (Proto s)));
      pattern_loop w channel message pes (if (b : bool) then receivers + 1 else receivers)
    else pattern_loop w channel message pes receivers
  end.

Definition Publish (w : World) (channel message : bytes) : option (Z * World) :=
  let subs := default ∅ (getShard (hub w) channel !! channel) in
  '(receivers, w) ← exact_loop w channel message (elements subs) 0;
  pattern_loop w channel message (hpatterns (hub w)) receivers.

Definition PubSubChannels (h : ShardedHub) (pattern : bytes) : list bytes :=
  filter (fun ch => bool_decide (pattern = []) || matchPattern pattern ch = true)
    (concat ((fun m => (map_to_list m).*1) <$> shards h)).

End publish.

Definition PubSubNumSub (h : ShardedHub) (chs : list bytes) : gmap bytes Z :=
  foldl (fun r ch => <[ch := Z.of_nat (size (default ∅ (getShard h ch !! ch)))]> r) ∅ chs.

Definition PubSubNumPat (h : ShardedHub) : Z := zlen (hpatterns h).

(** ** Subscriptions as the hub sees them *)

Definition routes (h : ShardedHub) (ch : bytes) : gset Z := default ∅ (getShard h ch !! ch).

(** A hub with all its shards. *)
Definition full (h : ShardedHub) : Prop := length (shards h) = Z.to_nat NumPubSubShards.

Lemma shard_idx_lt ch : (shard_idx ch < Z.to_nat NumPubSubShards)%nat.
Proof.
  unfold shard_idx. pose proof (Z.mod_pos_bound (fnv32 ch) NumPubSubShards ltac:(done)).
  apply Z2Nat.inj_lt; unfold NumPubSubShards in *; lia.
Qed.

Lemma getShard_put h ch ch' m :
  full h -> getShard (put_shard h ch m) ch' = if decide (shard_idx ch = shard_idx ch') then m else getShard h ch'.
Proof.
  intros Hf. unfold getShard, put_shard. cbn [shards]. pose proof (shard_idx_lt ch). unfold full in Hf.
  destruct (decide (shard_idx ch = shard_idx ch')) as [E|E].
  - rewrite <- E, list_lookup_insert_eq by lia. done.
  - by rewrite list_lookup_insert_ne.
Qed.

Lemma full_put h ch m : full h -> full (put_shard h ch m).
Proof. unfold full, put_shard. simpl. by rewrite length_insert. Qed.

(** What a store into the channel's shard changes. *)
Lemma lookup_put h ch ch' m :
  full h -> (forall c, c <> ch -> m !! c = getShard h ch !! c) ->
  getShard (put_shard h ch m) ch' !! ch' = if decide (ch' = ch) then m !! ch else getShard h ch' !! ch'.
Proof.
  intros Hf Hm. rewrite getShard_put by done. destruct (decide (ch' = ch)) as [->|Hne].
  - by rewrite decide_True.
  - destruct (decide (shard_idx ch = shard_idx ch')) as [E|E]; [|done]. rewrite Hm by done.
    unfold getShard. by rewrite E.
Qed.

(** ** The invariant *)

Record hub_ok (w : World) : Prop := {
  ok_full : full (hub w);
  ok_nonempty : forall ch, getShard (hub w) ch !! ch <> Some ∅;
  ok_nodup : NoDup (hpatterns (hub w));
  ok_channels : forall id ch, id ∈ routes (hub w) ch <-> exists s, heap w !! id = Some s /\ ch ∈ channels s;
  ok_patterns : forall id p, (p, id) ∈ hpatterns (hub w) <-> exists s, heap w !! id = Some s /\ p ∈ patterns s;
  ok_queues : forall id s, heap w !! id = Some s -> MsgCh_closed s = closed s /\ zlen (MsgCh s) <= DefaultMsgQueueSize;
  ok_ids : 0 <= nextSubID (hub w) /\ forall id, is_Some (heap w !! id) -> id <= nextSubID (hub w)
}.

Definition init_world : World := mkWorld NewShardedHub ∅.

Lemma init_ok : hub_ok init_world.
Proof.
  assert (forall ch, getShard NewShardedHub ch = ∅) as Hg.
  { intros ch. unfold getShard, NewShardedHub. cbn [shards]. rewrite lookup_replicate_2; [done|apply shard_idx_lt]. }
  split; simpl.
  - done.
  - intros ch. by rewrite Hg, lookup_empty.
  - constructor.
  - intros id ch. unfold routes. rewrite Hg, lookup_empty. simpl. split; [set_solver|]. intros (s & E & _).
    by rewrite lookup_empty in E.
  - intros id p. split; [by intros ?%elem_of_nil|]. intros (s & E & _). by rewrite lookup_empty in E.
  - intros id s E. by rewrite lookup_empty in E.
  - split; [done|]. intros id [s E]. by rewrite lookup_empty in E.
Qed.

(** A change of one subscriber's object that leaves its subscriptions alone. *)
Lemma sub_change_ok w id s s' :
  hub_ok w -> heap w !! id = Some s -> channels s' = channels s -> patterns s' = patterns s ->
  MsgCh_closed s' = closed s' -> zlen (MsgCh s') <= DefaultMsgQueueSize ->
  hub_ok (mkWorld (hub w) (<[id := s']> (heap w))).
Proof.
  intros [H1 H2 H3 H4 H5 H6 [H7 H8]] Hs Hc Hp Hcl Hq. split; simpl; try done.
  - intros i ch. rewrite H4. destruct (decide (i = id)) as [->|Hne].
    + rewrite lookup_insert_eq. split; intros (t & E & Hin); simplify_eq; eexists; (split; [done|]); congruence.
    + by rewrite lookup_insert_ne.
  - intros i p. rewrite H5. destruct (decide (i = id)) as [->|Hne].
    + rewrite lookup_insert_eq. split; intros (t & E & Hin); simplify_eq; eexists; (split; [done|]); congruence.
    + by rewrite lookup_insert_ne.
  - intros i t. destruct (decide (i = id)) as [->|Hne]; [|rewrite lookup_insert_ne by done; apply H6].
    rewrite lookup_insert_eq. intros [= <-]. done.
  - split; [done|]. intros i Hi. destruct (decide (i = id)) as [->|Hne]; [apply H8; eauto|].
    rewrite lookup_insert_ne in Hi by done. by apply H8.
Qed.

(** Replacing the channel side of the tables: the routes of [ch] become those of [m]. *)
Lemma channel_change_ok w id s ch m c' :
  hub_ok w -> heap w !! id = Some s -> (forall c, c <> ch -> m !! c = getShard (hub w) ch !! c) ->
  m !! ch <> Some ∅ ->
  (forall i, i <> id -> i ∈ default ∅ (m !! ch) <-> i ∈ routes (hub w) ch) ->
  (id ∈ default ∅ (m !! ch) <-> ch ∈ c') -> (forall c, c <> ch -> c ∈ c' <-> c ∈ channels s) ->
  hub_ok (mkWorld (put_shard (hub w) ch m) (<[id := set_channels s c']> (heap w))).
Proof.
  intros [H1 H2 H3 H4 H5 H6 [H7 H8]] Hs Hm Hne Hoth Hid Hc. split; cbn [hub heap].
  - by apply full_put.
  - intros c. rewrite lookup_put by done. destruct (decide (c = ch)); [done|apply H2].
  - done.
  - intros i c. unfold routes. rewrite lookup_put by done. destruct (decide (i = id)) as [->|Hi].
    + rewrite lookup_insert_eq. destruct (decide (c = ch)) as [->|Hcc].
      * rewrite Hid. split; [intros; by eexists|]. intros (t & [= <-] & ?). done.
      * change (default ∅ (getShard (hub w) c !! c)) with (routes (hub w) c). rewrite H4.
        split; intros (t & E & Hin); simplify_eq; eexists; (split; [done|]); by apply Hc.
    + rewrite lookup_insert_ne by done. rewrite <- H4. destruct (decide (c = ch)) as [->|Hcc]; [by apply Hoth|done].
  - intros i p. cbn [hpatterns put_shard]. rewrite H5. destruct (decide (i = id)) as [->|Hi].
    + rewrite lookup_insert_eq. split; intros (t & E & Hin); simplify_eq; eauto.
    + by rewrite lookup_insert_ne.
  - intros i t. destruct (decide (i = id)) as [->|Hi]; [|rewrite lookup_insert_ne by done; apply H6].
    rewrite lookup_insert_eq. intros [= <-]. exact (H6 id s Hs).
  - cbn [nextSubID put_shard]. split; [done|]. intros i Hi. destruct (decide (i = id)) as [->|Hne']; [apply H8; eauto|].
    rewrite lookup_insert_ne in Hi by done. by apply H8.
Qed.

(** The same for the pattern list. *)
Lemma pattern_change_ok w id s p l p' :
  hub_ok w -> heap w !! id = Some s -> NoDup l ->
  (forall q i, (q, i) <> (p, id) -> (q, i) ∈ l <-> (q, i) ∈ hpatterns (hub w)) ->
  ((p, id) ∈ l <-> p ∈ p') -> (forall q, q <> p -> q ∈ p' <-> q ∈ patterns s) ->
  hub_ok (mkWorld (set_hpatterns (hub w) l) (<[id := set_patterns s p']> (heap w))).
Proof.
  intros [H1 H2 H3 H4 H5 H6 [H7 H8]] Hs Hl Hoth Hid Hp. split; cbn [hub heap]; try done.
  - intros i c. change (routes (set_hpatterns (hub w) l) c) with (routes (hub w) c). rewrite H4.
    destruct (decide (i = id)) as [->|Hi].
    + rewrite lookup_insert_eq. split; intros (t & E & Hin); simplify_eq; eauto.
    + by rewrite lookup_insert_ne.
  - intros i q. cbn [hpatterns set_hpatterns]. destruct (decide ((q, i) = (p, id))) as [E|Hne].
    + simplify_eq. rewrite Hid, lookup_insert_eq. split; [intros; by eexists|]. intros (t & [= <-] & ?). done.
    + rewrite Hoth, H5 by done. destruct (decide (i = id)) as [->|Hi]; [|by rewrite lookup_insert_ne].
      rewrite lookup_insert_eq. split; intros (t & E & Hin); simplify_eq; eexists; (split; [done|]); (apply Hp; [congruence|done]).
  - intros i t. destruct (decide (i = id)) as [->|Hi]; [|rewrite lookup_insert_ne by done; apply H6].
    rewrite lookup_insert_eq. intros [= <-]. exact (H6 id s Hs).
  - cbn [nextSubID set_hpatterns]. split; [done|]. intros i Hi. destruct (decide (i = id)) as [->|Hne']; [apply H8; eauto|].
    rewrite lookup_insert_ne in Hi by done. by apply H8.
Qed.

(** ** The operations keep it *)

Section operations.
Context (w : World) (Hok : hub_ok w) (id : Z) (s : Subscriber) (Hs : heap w !! id = Some s).

Lemma Subscribe_ok ch : exists n w', Subscribe w id ch = Some (n, w') /\ hub_ok w' /\ heap w' !! id = Some (set_channels s ({[ch]} ∪ channels s)).
Proof using Hok Hs.
  unfold Subscribe, with_sub. cbn [heap]. rewrite Hs. eexists _, _. split; [done|]. cbn [heap]. rewrite lookup_insert_eq.
  split; [|done]. apply channel_change_ok; try done.
  - intros c Hc. by rewrite lookup_insert_ne.
  - rewrite lookup_insert_eq. intros [= E]. set_solver.
  - intros i Hi. rewrite lookup_insert_eq. unfold routes. simpl. set_solver.
  - rewrite lookup_insert_eq. set_solver.
  - set_solver.
Qed.

Lemma Unsubscribe_ok ch : exists n w', Unsubscribe w id ch = Some (n, w') /\ hub_ok w' /\ heap w' !! id = Some (set_channels s (channels s ∖ {[ch]})).
Proof using Hok Hs.
  unfold Unsubscribe, with_sub. cbn [heap]. rewrite Hs. eexists _, _. split; [done|]. cbn [heap hub]. rewrite lookup_insert_eq.
  split; [|done]. destruct (getShard (hub w) ch !! ch) as [subs|] eqn:E.
  - assert (routes (hub w) ch = subs) as Hr by (unfold routes; by rewrite E).
    case_bool_decide as He; apply channel_change_ok; try done.
    + intros c Hc. by rewrite lookup_delete_ne.
    + by rewrite lookup_delete_eq.
    + intros i Hi. rewrite lookup_delete_eq, Hr. simpl. set_solver.
    + rewrite lookup_delete_eq. simpl. set_solver.
    + set_solver.
    + intros c Hc. by rewrite lookup_insert_ne.
    + rewrite lookup_insert_eq. congruence.
    + intros i Hi. rewrite lookup_insert_eq, Hr. simpl. set_solver.
    + rewrite lookup_insert_eq. simpl. set_solver.
    + set_solver.
  - assert (ch ∉ channels s) as Hn.
    { intros Hin. assert (id ∈ routes (hub w) ch) as Hr by (apply (ok_channels w Hok); eauto).
      unfold routes in Hr. rewrite E in Hr. set_solver. }
    assert (channels s ∖ {[ch]} = channels s) as -> by set_solver.
    apply (sub_change_ok w id s); [done|done|done|done|apply (ok_queues w Hok id s Hs)..].
Qed.

Lemma PSubscribe_ok p : exists n w', PSubscribe w id p = Some (n, w') /\ hub_ok w' /\ heap w' !! id = Some (set_patterns s ({[p]} ∪ patterns s)).
Proof using Hok Hs.
  unfold PSubscribe, with_sub. cbn [heap]. rewrite Hs. eexists _, _. split; [done|]. cbn [hub heap]. rewrite lookup_insert_eq.
  split; [|done]. pose proof (ok_nodup w Hok) as Hnd.
  destruct (existsb _ _) eqn:E.
  - apply existsb_exists in E as ([q i] & Hin%list_elem_of_In & Hb). simpl in Hb.
    apply andb_true_iff in Hb as [->%bool_decide_eq_true ->%Z.eqb_eq].
    apply (ok_patterns w Hok) in Hin as (t & Ht & Hp). simplify_eq.
    assert ({[p]} ∪ patterns s = patterns s) as -> by set_solver.
    apply (sub_change_ok w id s); [done|done|done|done|apply (ok_queues w Hok id s Hs)..].
  - assert ((p, id) ∉ hpatterns (hub w)) as Hn.
    { intros Hin. apply not_true_iff_false in E. apply E, existsb_exists. exists (p, id).
      split; [by apply list_elem_of_In|]. simpl. by rewrite bool_decide_true, Z.eqb_refl. }
    apply (pattern_change_ok w id s p); try done.
    + apply NoDup_app. split; [done|]. split; [|apply NoDup_singleton]. intros x Hx ->%list_elem_of_singleton. done.
    + intros q i Hne. set_solver.
    + set_solver.
    + set_solver.
Qed.

Lemma PUnsubscribe_ok p : exists n w', PUnsubscribe w id p = Some (n, w') /\ hub_ok w' /\ heap w' !! id = Some (set_patterns s (patterns s ∖ {[p]})).
Proof using Hok Hs.
  unfold PUnsubscribe, with_sub. cbn [heap]. rewrite Hs. eexists _, _. split; [done|]. cbn [hub heap]. rewrite lookup_insert_eq.
  split; [|done]. apply (pattern_change_ok w id s p); try done.
  - apply NoDup_filter, Hok.
  - intros q i Hne. rewrite list_elem_of_filter. simpl. split; [tauto|]. intros Hin. split; [|done]. intros [-> ->]. done.
  - rewrite list_elem_of_filter. simpl. set_solver.
  - set_solver.
Qed.

End operations.

(** The loops of [UnsubscribeAll]: each call changes the object by [upd]. *)
Lemma for_names_ok f upd w id s names :
  (forall w s n, hub_ok w -> heap w !! id = Some s ->
     exists k w', f w id n = Some (k, w') /\ hub_ok w' /\ heap w' !! id = Some (upd s n)) ->
  hub_ok w -> heap w !! id = Some s ->
  exists w', for_names f w id names = Some w' /\ hub_ok w' /\ heap w' !! id = Some (foldl upd s names).
Proof.
  intros Hf. revert w s. induction names as [|n names IH]; intros w s Hok Hs; [by exists w|].
  destruct (Hf w s n Hok Hs) as (k & w1 & E & Hok1 & Hs1). cbn [for_names]. rewrite E. by eapply IH.
Qed.

Lemma foldl_channels s names :
  foldl (fun s n => set_channels s (channels s ∖ {[n]})) s names = set_channels s (channels s ∖ list_to_set names).
Proof.
  revert s. induction names as [|n names IH]; intros s; simpl.
  - destruct s. unfold set_channels. simpl. f_equal. set_solver.
  - rewrite IH. unfold set_channels. simpl. f_equal. set_solver.
Qed.

Lemma foldl_patterns s names :
  foldl (fun s n => set_patterns s (patterns s ∖ {[n]})) s names = set_patterns s (patterns s ∖ list_to_set names).
Proof.
  revert s. induction names as [|n names IH]; intros s; simpl.
  - destruct s. unfold set_patterns. simpl. f_equal. set_solver.
  - rewrite IH. unfold set_patterns. simpl. f_equal. set_solver.
Qed.

Lemma UnsubscribeAll_ok w id s :
  hub_ok w -> heap w !! id = Some s ->
  exists w' s', UnsubscribeAll w id = Some w' /\ hub_ok w' /\ heap w' !! id = Some s' /\
    channels s' = ∅ /\ patterns s' = ∅.
Proof.
  intros Hok Hs. unfold UnsubscribeAll. rewrite Hs. cbn [mbind option_bind].
  destruct (for_names_ok Unsubscribe (fun s n => set_channels s (channels s ∖ {[n]})) w id s (elements (channels s)))
    as (w1 & -> & Hok1 & Hs1); [intros; by apply Unsubscribe_ok|done|done|]. cbn [mbind option_bind].
  rewrite foldl_channels in Hs1. set (s1 := set_channels s _) in Hs1.
  destruct (for_names_ok PUnsubscribe (fun s n => set_patterns s (patterns s ∖ {[n]})) w1 id s1 (elements (patterns s)))
    as (w2 & -> & Hok2 & Hs2); [intros; by apply PUnsubscribe_ok|done|done|].
  rewrite foldl_patterns in Hs2. eexists w2, _. split_and!; [done|done|done| |];
    cbn [channels patterns set_channels set_patterns s1]; rewrite list_to_set_elements_L; set_solver.
Qed.

Lemma connect_ok w : hub_ok w -> nextSubID (hub w) + 1 < 2 ^ 64 -> hub_ok (connect w).2.
Proof.
  intros [H1 H2 H3 H4 H5 H6 [H7 H8]] Hn. unfold connect. simpl. rewrite u64_id by lia.
  assert (heap w !! (nextSubID (hub w) + 1) = None) as Hnew.
  { destruct (heap w !! _) eqn:E; [|done]. specialize (H8 _ (ex_intro _ _ E)). lia. }
  split; cbn [hub heap]; try done.
  - intros i c. change (routes _ c) with (routes (hub w) c). rewrite H4. destruct (decide (i = nextSubID (hub w) + 1)) as [->|Hi].
    + rewrite lookup_insert_eq, Hnew. split; intros (t & E & Hin); simplify_eq. set_solver.
    + by rewrite lookup_insert_ne.
  - intros i p. cbn [hpatterns]. rewrite H5. destruct (decide (i = nextSubID (hub w) + 1)) as [->|Hi].
    + rewrite lookup_insert_eq, Hnew. split; intros (t & E & Hin); simplify_eq. set_solver.
    + by rewrite lookup_insert_ne.
  - intros i t. destruct (decide (i = nextSubID (hub w) + 1)) as [->|Hi]; [|rewrite lookup_insert_ne by done; apply H6].
    rewrite lookup_insert_eq. intros [= <-]. done.
  - cbn [nextSubID]. split; [lia|]. intros i Hi. destruct (decide (i = nextSubID (hub w) + 1)) as [->|Hne]; [lia|].
    rewrite lookup_insert_ne in Hi by done. specialize (H8 i Hi). lia.
Qed.

(** ** Sending *)

(** What a queue becomes when frames are offered to it one by one. *)
Definition offer (s : Subscriber) (fs : list bytes) : Subscriber :=
  mkSub (if closed s then MsgCh s else take (Z.to_nat DefaultMsgQueueSize) (MsgCh s ++ fs))
    (MsgCh_closed s) (proto s) (closed s) (channels s) (patterns s).

(** All queued messages. *)
Definition queued (w : World) : Z := map_fold (fun _ s n => zlen (MsgCh s) + n) 0 (heap w).

Lemma queued_insert w h id s s' :
  heap w !! id = Some s ->
  queued (mkWorld h (<[id := s']> (heap w))) = queued w + zlen (MsgCh s') - zlen (MsgCh s).
Proof.
  intros E. unfold queued. cbn [heap].
  rewrite <- (insert_delete_id (heap w) id s) at 2 by done. rewrite <- (insert_delete_eq (heap w) id s').
  rewrite !map_fold_insert_L; [lia|intros; lia|apply lookup_delete_eq|intros; lia|apply lookup_delete_eq].
Qed.

Lemma offer_nil s : zlen (MsgCh s) <= DefaultMsgQueueSize -> offer s [] = s.
Proof.
  intros H. unfold offer. destruct s as [q cc p cl c pt]. simpl in *. rewrite app_nil_r, take_ge; [by destruct cl|].
  unfold zlen in H. lia.
Qed.

Lemma offer_app s fs gs :
  zlen (MsgCh s) <= DefaultMsgQueueSize -> offer (offer s fs) gs = offer s (fs ++ gs).
Proof.
  intros H. unfold offer. destruct s as [q cc p cl c pt]. simpl in *. f_equal. destruct cl; [done|].
  rewrite app_assoc. generalize (q ++ fs). intros l.
  destruct (decide (length l <= Z.to_nat DefaultMsgQueueSize)%nat).
  - by rewrite (take_ge l).
  - rewrite take_app_le by (rewrite length_take; lia). rewrite take_take, Nat.min_id.
    by rewrite take_app_le by lia.
Qed.

Lemma offer_bound s fs : zlen (MsgCh s) <= DefaultMsgQueueSize -> zlen (MsgCh (offer s fs)) <= DefaultMsgQueueSize.
Proof.
  intros H. unfold offer. destruct s as [q cc p cl c pt]. simpl in *. destruct cl; [done|].
  unfold zlen. rewrite length_take. unfold DefaultMsgQueueSize. lia.
Qed.

Lemma TrySend_offer s f :
  MsgCh_closed s = closed s -> zlen (MsgCh s) <= DefaultMsgQueueSize ->
  exists b, TrySend s f = Some (b, offer s [f]) /\
    zlen (MsgCh (offer s [f])) = zlen (MsgCh s) + (if b : bool then 1 else 0).
Proof.
  intros Hc Hq. unfold TrySend, offer. rewrite Hc. destruct s as [q cc p cl c pt]. simpl in *. subst cc.
  destruct cl; simpl.
  - exists false. split; [done|lia].
  - destruct (Z.ltb_spec (zlen q) DefaultMsgQueueSize) as [Hlt|Hge].
    + exists true. rewrite take_ge by (rewrite length_app; unfold zlen in Hlt; simpl; lia). split; [done|].
      rewrite zlen_app, zlen_cons, zlen_nil. lia.
    + exists false. rewrite take_app_length' by (unfold zlen in *; lia). split; [done|lia].
Qed.

(** The effect of a run of sends on the world: frames offered to each subscriber, by its id and
    protocol; [n] of them were queued. *)
Record offered (w w' : World) (n : Z) (fs : Z -> Z -> list bytes) : Prop := {
  off_hub : hub w' = hub w;
  off_heap : forall id, heap w' !! id = (fun s => offer s (fs id (Proto s))) <$> heap w !! id;
  off_count : queued w' = queued w + n
}.

Definition queues_ok (w : World) : Prop :=
  forall id s, heap w !! id = Some s -> MsgCh_closed s = closed s /\ zlen (MsgCh s) <= DefaultMsgQueueSize.

Lemma offered_queues w w' n fs : offered w w' n fs -> queues_ok w -> queues_ok w'.
Proof.
  intros [_ H _] Hq id s E. rewrite H in E. apply fmap_Some in E as (t & Ht & ->). destruct (Hq id t Ht).
  split; [done|by apply offer_bound].
Qed.

Lemma offered_nil w : queues_ok w -> offered w w 0 (fun _ _ => []).
Proof.
  intros Hq. split; [done| |lia]. intros id. destruct (heap w !! id) as [s|] eqn:E; [|done]. simpl.
  by rewrite offer_nil by apply (Hq id s E).
Qed.

Lemma offered_trans w w1 w2 n m fs gs :
  queues_ok w -> offered w w1 n fs -> offered w1 w2 m gs -> offered w w2 (n + m) (fun id p => fs id p ++ gs id p).
Proof.
  intros Hq [H1 H2 H3] [G1 G2 G3]. split; [congruence| |lia]. intros id. rewrite G2, H2.
  destruct (heap w !! id) as [s|] eqn:E; [|done]. simpl. f_equal.
  change (Proto (offer s _)) with (Proto s). apply offer_app, (Hq id s E).
Qed.

Lemma offered_ext w w' n fs gs : (forall id p, fs id p = gs id p) -> offered w w' n fs -> offered w w' n gs.
Proof.
  intros Hfg [H1 H2 H3]. split; [done| |done]. intros id. rewrite H2. destruct (heap w !! id); [|done]. simpl. by rewrite Hfg.
Qed.

(** One send. *)
Lemma send_offered w id s (frame : Subscriber -> bytes) (f : Z -> bytes) :
  queues_ok w -> heap w !! id = Some s -> (forall t, frame t = f (Proto t)) ->
  exists b w', with_sub w id (fun s => TrySend s (frame s)) = Some (b, w') /\
    offered w w' (if b : bool then 1 else 0) (fun i p => if decide (i = id) then [f p] else []).
Proof.
  intros Hq Hs Hf. unfold with_sub. rewrite Hs. cbn [mbind option_bind]. destruct (Hq id s Hs) as [Hc Hl].
  destruct (TrySend_offer s (frame s) Hc Hl) as (b & -> & Hz). cbn [mbind option_bind]. exists b. eexists. split; [done|].
  split; [done| |].
  - intros i. cbn [heap]. destruct (decide (i = id)) as [->|Hi].
    + rewrite lookup_insert_eq, Hs. simpl. by rewrite Hf.
    + rewrite lookup_insert_ne by done. destruct (heap w !! i) as [t|] eqn:Ht; [|done]. simpl.
      by rewrite offer_nil by apply (Hq i t Ht).
  - rewrite (queued_insert w _ id s) by done. lia.
Qed.

Section publishing.
Context (ch msg : bytes).

Lemma exact_loop_spec ids w r :
  queues_ok w -> NoDup ids -> Forall (fun id => is_Some (heap w !! id)) ids ->
  exists n w', exact_loop w ch msg ids r = Some (r + n, w') /\
    offered w w' n (fun id p => if decide (id ∈ ids) then [formatMessage ch msg p] else []).
Proof.
  intros Hq Hnd. revert w r Hq. induction Hnd as [|id ids Hni _ IH]; intros w r Hq Hin; cbn [exact_loop].
  { exists 0, w. rewrite Z.add_0_r. split; [done|]. eapply offered_ext; [|by apply offered_nil]. done. }
  apply Forall_cons in Hin as [[s Hs] Hin].
  destruct (send_offered w id s
    (fun s => if Proto s =? 3 then formatMessage ch msg 3 else formatMessage ch msg 2) (formatMessage ch msg))
    as (b & w1 & -> & H1); [done|done| |].
  { intros t. destruct (Z.eqb_spec (Proto t) 3) as [->|Hp]; [done|]. unfold formatMessage, pushPrefix.
    by rewrite (proj2 (Z.eqb_neq (Proto t) 3)) by done. }
  cbn [mbind option_bind]. destruct (IH w1 (if b then r + 1 else r)) as (n & w2 & -> & H2).
  { by eapply offered_queues. }
  { eapply Forall_impl; [done|]. intros i [t Ht]. rewrite (off_heap _ _ _ _ H1), Ht. by eexists. }
  exists ((if b then 1 else 0) + n), w2. split; [f_equal; f_equal; destruct b; lia|].
  eapply offered_ext; [|eapply offered_trans; done]. intros i p. simpl.
  destruct (decide (i = id)) as [->|Hi].
  - rewrite (decide_False (P := id ∈ ids)) by done. by rewrite decide_True by apply list_elem_of_here.
  - apply decide_ext. set_solver.
Qed.

Context (matchPattern : bytes -> bytes -> bool).

(** The frames that the pattern entries give a subscriber. *)
Definition pframes (pes : list (bytes * Z)) (id p : Z) : list bytes :=
  (fun pe => formatPMessage pe.1 ch msg p) <$> filter (fun pe => pe.2 = id /\ matchPattern pe.1 ch = true) pes.

Lemma pattern_loop_spec pes w r :
  queues_ok w -> Forall (fun pe => is_Some (heap w !! pe.2)) pes ->
  exists n w', pattern_loop matchPattern w ch msg pes r = Some (r + n, w') /\ offered w w' n (pframes pes).
Proof.
  revert w r. induction pes as [|[q id] pes IH]; intros w r Hq Hin; cbn [pattern_loop].
  { exists 0, w. rewrite Z.add_0_r. split; [done|]. by apply offered_nil. }
  apply Forall_cons in Hin as [[s Hs] Hin]. simpl in Hs. unfold pframes.
  destruct (matchPattern q ch) eqn:Hm.
  - destruct (send_offered w id s (fun s => formatPMessage q ch msg (Proto s)) (formatPMessage q ch msg))
      as (b & w1 & -> & H1); [done|done|done|].
    cbn [mbind option_bind]. destruct (IH w1 (if b then r + 1 else r)) as (n & w2 & -> & H2).
    { by eapply offered_queues. }
    { eapply Forall_impl; [done|]. intros pe [t Ht]. simpl. rewrite (off_heap _ _ _ _ H1), Ht. by eexists. }
    exists ((if b then 1 else 0) + n), w2. split; [f_equal; f_equal; destruct b; lia|].
    eapply offered_ext; [|eapply offered_trans; done]. intros i p. simpl. rewrite filter_cons. simpl.
    destruct (decide (i = id)) as [->|Hi]; [by rewrite decide_True|]. by rewrite decide_False by (intros [? _]; congruence).
  - destruct (IH w r Hq Hin) as (n & w2 & -> & H2). exists n, w2. split; [done|].
    eapply offered_ext; [|done]. intros i p. unfold pframes. rewrite filter_cons. simpl.
    by rewrite decide_False by (intros [_ ?]; congruence).
Qed.

(** What one publication offers to a subscriber. *)
Definition frames (w : World) (id p : Z) : list bytes :=
  (if decide (id ∈ routes (hub w) ch) then [formatMessage ch msg p] else []) ++ pframes (hpatterns (hub w)) id p.

Lemma Publish_spec w :
  hub_ok w -> exists n w', Publish matchPattern w ch msg = Some (n, w') /\ offered w w' n (frames w) /\ hub_ok w'.
Proof.
  intros Hok. pose proof Hok as [_ _ _ Hc Hp Hq _]. unfold Publish. fold (routes (hub w) ch).
  destruct (exact_loop_spec (elements (routes (hub w) ch)) w 0) as (n & w1 & -> & H1).
  { exact Hq. }
  { apply NoDup_elements. }
  { apply Forall_forall. intros id Hid%elem_of_elements. apply Hc in Hid as (s & -> & _). by eexists. }
  cbn [mbind option_bind]. rewrite (off_hub _ _ _ _ H1).
  destruct (pattern_loop_spec (hpatterns (hub w)) w1 (0 + n)) as (m & w2 & -> & H2).
  { by eapply offered_queues. }
  { apply Forall_forall. intros [q id] Hid. apply Hp in Hid as (s & Hs & _). simpl.
    rewrite (off_heap _ _ _ _ H1), Hs. by eexists. }
  exists (n + m), w2. assert (offered w w2 (n + m) (frames w)) as H.
  { eapply offered_ext; [|eapply offered_trans; [exact Hq|done|done]]. intros id p. unfold frames. f_equal.
    apply decide_ext. apply elem_of_elements. }
  split_and!; [done|done|]. pose proof (offered_queues _ _ _ _ H Hq) as Hq2.
  destruct H as [Hh Hheap _]. destruct Hok as [A1 A2 A3 A4 A5 _ [A7 A8]].
  split; rewrite ?Hh; try done.
  - intros id c. rewrite A4, Hheap. destruct (heap w !! id); simpl; naive_solver.
  - intros id q. rewrite A5, Hheap. destruct (heap w !! id); simpl; naive_solver.
  - split; [done|]. intros id Hi. apply A8. rewrite Hheap in Hi. by apply fmap_is_Some in Hi.
Qed.

End publishing.

(** ** The commands *)

(** The loops of the four commands: a confirmation per name. *)
Fixpoint name_loop (f : World -> Z -> bytes -> option (Z * World)) (action : bytes) (proto : Z) (w : World) (sub : Z)
    (names : list bytes) (buf : bytes) : option (bytes * World) :=
  match names with
  | [] => Some (buf, w)
  | n :: names =>
    '(count, w) ← f w sub n;
    name_loop f action proto w sub names (buf ++ FormatSubscribeReply action n count proto)
  end.

Definition subscribeCommand (w : World) (sub proto : Z) (args : list bytes) : option (bytes * World) :=
  name_loop Subscribe (str "subscribe") proto w sub args [].

Definition psubscribeCommand (w : World) (sub proto : Z) (args : list bytes) : option (bytes * World) :=
  name_loop PSubscribe (str "psubscribe") proto w sub args [].

Definition unsubscribeCommand (w : World) (sub proto : Z) (args : list bytes) : option (bytes * World) :=
  match args with
  | [] =>
    s ← heap w !! sub;
    let count := SubCount s in
    w ← UnsubscribeAll w sub;
    Some (FormatSubscribeReply (str "unsubscribe") [] count proto, w)
  | _ => name_loop Unsubscribe (str "unsubscribe") proto w sub args []
  end.

Definition punsubscribeCommand (w : World) (sub proto : Z) (args : list bytes) : option (bytes * World) :=
  match args with
  | [] =>
    s ← heap w !! sub;
    let count := SubCount s in
    w ← UnsubscribeAll w sub;
    Some (FormatSubscribeReply (str "punsubscribe") [] count proto, w)
  | _ => name_loop PUnsubscribe (str "punsubscribe") proto w sub args []
  end.

(** ** Histories *)

Inductive pub_op :=
| OpConnect
| OpSubscribe (id proto : Z) (names : list bytes)
| OpUnsubscribe (id proto : Z) (names : list bytes)
| OpPSubscribe (id proto : Z) (names : list bytes)
| OpPUnsubscribe (id proto : Z) (names : list bytes)
| OpDisconnect (id : Z)
| OpPublish (channel message : bytes)
| OpReceive (id : Z)
| OpSetProto (id v : Z).

Section histories.
Context (matchPattern : bytes -> bytes -> bool).

(** The next state; [None] is a panic. *)
Definition pub_step (w : World) (o : pub_op) : option World :=
  match o with
  | OpConnect => Some (connect w).2
  | OpSubscribe id proto names => snd <$> subscribeCommand w id proto names
  | OpUnsubscribe id proto names => snd <$> unsubscribeCommand w id proto names
  | OpPSubscribe id proto names => snd <$> psubscribeCommand w id proto names
  | OpPUnsubscribe id proto names => snd <$> punsubscribeCommand w id proto names
  | OpDisconnect id => disconnect w id
  | OpPublish ch m => snd <$> Publish matchPattern w ch m
  | OpReceive id => snd <$> with_sub w id (fun s =>
      Some (head (MsgCh s), mkSub (tail (MsgCh s)) (MsgCh_closed s) (proto s) (closed s) (channels s) (patterns s)))
  | OpSetProto id v => snd <$> with_sub w id (fun s => Some (tt, SetProto s v))
  end.

(** Commands come from connections that were made; the 64-bit id counter does not wrap. *)
Definition enabled (w : World) (o : pub_op) : Prop :=
  match o with
  | OpConnect => nextSubID (hub w) + 1 < 2 ^ 64
  | OpSubscribe id _ _ | OpUnsubscribe id _ _ | OpPSubscribe id _ _ | OpPUnsubscribe id _ _
  | OpDisconnect id | OpReceive id | OpSetProto id _ => is_Some (heap w !! id)
  | OpPublish _ _ => True
  end.

Inductive reachable : World -> Prop :=
| reach_init : reachable init_world
| reach_step w o w' : reachable w -> enabled w o -> pub_step w o = Some w' -> reachable w'.

Lemma name_loop_ok f action proto w id s names buf :
  (forall w s n, hub_ok w -> heap w !! id = Some s ->
     exists k w', f w id n = Some (k, w') /\ hub_ok w' /\ is_Some (heap w' !! id)) ->
  hub_ok w -> heap w !! id = Some s ->
  exists r w', name_loop f action proto w id names buf = Some (r, w') /\ hub_ok w'.
Proof.
  intros Hf. revert w s buf. induction names as [|n names IH]; intros w s buf Hok Hs; [by exists buf, w|].
  destruct (Hf w s n Hok Hs) as (k & w1 & E & Hok1 & [s1 Hs1]). cbn [name_loop]. rewrite E. by eapply IH.
Qed.

Lemma disconnect_ok w id s : hub_ok w -> heap w !! id = Some s -> exists w', disconnect w id = Some w' /\ hub_ok w'.
Proof.
  intros Hok Hs. unfold disconnect. destruct (UnsubscribeAll_ok w id s Hok Hs) as (w1 & s1 & -> & Hok1 & Hs1 & Hc & Hp).
  cbn [mbind option_bind]. unfold with_sub. rewrite Hs1. cbn [mbind option_bind]. unfold Close.
  destruct (ok_queues w1 Hok1 id s1 Hs1) as [Hcl Hq]. rewrite Hcl. destruct (closed s1) eqn:E; cbn [mbind option_bind];
    eexists; (split; [done|]); apply (sub_change_ok w1 id s1); try done; congruence.
Qed.

Lemma pub_step_ok w o : hub_ok w -> enabled w o -> exists w', pub_step w o = Some w' /\ hub_ok w'.
Proof.
  intros Hok He. destruct o as [|id pr ns|id pr ns|id pr ns|id pr ns|id|c m|id|id v]; simpl in He;
    try match type of He with is_Some _ => destruct He as [s Hs] end; cbn [pub_step].
  - eexists. split; [done|by apply connect_ok].
  - destruct (name_loop_ok Subscribe (str "subscribe") pr w id s ns []) as (r & w' & E & ?); [|done|done|].
    { intros w1 s1 n H1 Hs1. destruct (Subscribe_ok w1 H1 id s1 Hs1 n) as (k & w' & ? & ? & Hh). exists k, w'. by eauto. }
    unfold subscribeCommand. rewrite E. eauto.
  - destruct ns as [|n ns].
    + destruct (UnsubscribeAll_ok w id s Hok Hs) as (w' & s' & E & ? & _). simpl. rewrite Hs. simpl. rewrite E. simpl. eauto.
    + destruct (name_loop_ok Unsubscribe (str "unsubscribe") pr w id s (n :: ns) []) as (r & w' & E & ?); [|done|done|].
      { intros w1 s1 n1 H1 Hs1. destruct (Unsubscribe_ok w1 H1 id s1 Hs1 n1) as (k & w' & ? & ? & Hh). exists k, w'. by eauto. }
      unfold unsubscribeCommand. rewrite E. eauto.
  - destruct (name_loop_ok PSubscribe (str "psubscribe") pr w id s ns []) as (r & w' & E & ?); [|done|done|].
    { intros w1 s1 n H1 Hs1. destruct (PSubscribe_ok w1 H1 id s1 Hs1 n) as (k & w' & ? & ? & Hh). exists k, w'. by eauto. }
    unfold psubscribeCommand. rewrite E. eauto.
  - destruct ns as [|n ns].
    + destruct (UnsubscribeAll_ok w id s Hok Hs) as (w' & s' & E & ? & _). simpl. rewrite Hs. simpl. rewrite E. simpl. eauto.
    + destruct (name_loop_ok PUnsubscribe (str "punsubscribe") pr w id s (n :: ns) []) as (r & w' & E & ?); [|done|done|].
      { intros w1 s1 n1 H1 Hs1. destruct (PUnsubscribe_ok w1 H1 id s1 Hs1 n1) as (k & w' & ? & ? & Hh). exists k, w'. by eauto. }
      unfold punsubscribeCommand. rewrite E. eauto.
  - by eapply disconnect_ok.
  - destruct (Publish_spec c m matchPattern w Hok) as (n & w' & E & _ & ?). rewrite E. eauto.
  - unfold with_sub. rewrite Hs. eexists. split; [done|]. destruct (ok_queues w Hok id s Hs) as [Hc Hq].
    apply (sub_change_ok w id s); try done. simpl. destruct (MsgCh s); [done|]. rewrite zlen_cons in Hq. simpl. lia.
  - unfold with_sub. rewrite Hs. eexists. split; [done|]. destruct (ok_queues w Hok id s Hs) as [Hc Hq].
    by apply (sub_change_ok w id s).
Qed.

Lemma reachable_ok w : reachable w -> hub_ok w.
Proof.
  induction 1 as [|w o w' _ IH He E]; [apply init_ok|]. destruct (pub_step_ok w o IH He) as (w1 & E1 & ?). congruence.
Qed.

End histories.

(** C22. In every state that connections, (p)subscribe and (p)unsubscribe commands, publications, receives and disconnections can
    produce, the hub and the subscribers agree: a connection is routed a channel exactly when it is in its own set,
    has a pattern entry exactly when it is in its own set, no pattern entry is doubled, no channel without
    subscribers is listed; and no further command panics (a send never meets a closed queue). *)
Theorem hub_tables_agree matchPattern w :
  reachable matchPattern w ->
  (forall id ch, id ∈ routes (hub w) ch <-> exists s, heap w !! id = Some s /\ ch ∈ channels s) /\
  (forall id p, (p, id) ∈ hpatterns (hub w) <-> exists s, heap w !! id = Some s /\ p ∈ patterns s) /\
  NoDup (hpatterns (hub w)) /\ (forall ch, getShard (hub w) ch !! ch <> Some ∅) /\
  (forall o, enabled w o -> exists w', pub_step matchPattern w o = Some w').
Proof.
  intros Hr. apply reachable_ok in Hr. split_and!; try apply Hr.
  intros o He. destruct (pub_step_ok matchPattern w o Hr He) as (w' & ? & _). eauto.
Qed.

(** C23. A publication is offered exactly to those it concerns: each connection's queue gets one [message]
    frame when it is subscribed to the channel and then one [pmessage] frame for each matching pattern
    entry of its own, in the protocol it negotiated, up to the capacity of the queue (nothing when it
    is closed); every other queue is left as it is, and the reply is the number of frames queued. *)
Theorem publish_delivers matchPattern w ch msg :
  reachable matchPattern w ->
  exists n w', Publish matchPattern w ch msg = Some (n, w') /\ hub w' = hub w /\ n = queued w' - queued w /\
    forall id, heap w' !! id = (fun s => offer s (frames ch msg matchPattern w id (Proto s))) <$> heap w !! id.
Proof.
  intros Hr. apply reachable_ok in Hr. destruct (Publish_spec ch msg matchPattern w Hr) as (n & w' & E & [? ? ?] & _).
  exists n, w'. split_and!; [done|done|lia|done].
Qed.

(** UNSUBSCRIBE without arguments removes the pattern subscriptions too, and reports the number of subscriptions
    from before the removal. *)
Theorem unsubscribe_all_drops_patterns matchPattern w id s proto :
  reachable matchPattern w -> heap w !! id = Some s ->
  exists w', unsubscribeCommand w id proto [] =
      Some (FormatSubscribeReply (str "unsubscribe") [] (SubCount s) proto, w') /\
    forall p, (p, id) ∉ hpatterns (hub w').
Proof.
  intros Hr Hs. apply reachable_ok in Hr. destruct (UnsubscribeAll_ok w id s Hr Hs) as (w' & s' & E & Hok & Hs' & _ & Hp).
  exists w'. unfold unsubscribeCommand. rewrite Hs. cbn [mbind option_bind]. rewrite E. split; [done|].
  intros p Hin. apply (ok_patterns w' Hok) in Hin as (t & Ht & Hin). simplify_eq. set_solver.
Qed.

(** A hub with one subscriber of a channel and of a pattern. *)
Definition news_ops : list pub_op :=
  [OpConnect; OpConnect; OpSubscribe 1 2 [str "news"]; OpPSubscribe 1 2 [str "n"]; OpSubscribe 2 3 [str "sport"]].

Definition first_byte (p c : bytes) : bool := bool_decide (head p = head c).

Definition news_world : World := default init_world (foldl (fun w o => w ≫= fun w => pub_step first_byte w o) (Some init_world) news_ops).

Lemma news_reachable : reachable first_byte news_world.
Proof.
  assert (forall ops w w', reachable first_byte w ->
    foldl (fun w o => w ≫= fun w => pub_step first_byte w o) (Some w) ops = Some w' ->
    (fix en w ops := match ops with
       | [] => True
       | o :: ops => enabled w o /\ match pub_step first_byte w o with Some w => en w ops | None => True end
       end) w ops -> reachable first_byte w') as H.
  { induction ops as [|o ops IH]; intros w w' Hr E Hen; [by simplify_eq/=|]. simpl in E. destruct Hen as [He Hen].
    destruct (pub_step first_byte w o) as [w1|] eqn:E1.
    - apply (IH w1); [by eapply reach_step|done|done].
    - clear -E. exfalso. induction ops; simpl in E; [done|auto]. }
  apply (H news_ops init_world); [constructor| |].
  - vm_compute. reflexivity.
  - vm_compute. repeat split; eauto.
Qed.

Lemma hub_tables_agree_witness :
  (forall id ch, id ∈ routes (hub news_world) ch <-> exists s, heap news_world !! id = Some s /\ ch ∈ channels s) /\
  (forall id p, (p, id) ∈ hpatterns (hub news_world) <-> exists s, heap news_world !! id = Some s /\ p ∈ patterns s) /\
  NoDup (hpatterns (hub news_world)) /\ (forall ch, getShard (hub news_world) ch !! ch <> Some ∅) /\
  (forall o, enabled news_world o -> exists w', pub_step first_byte news_world o = Some w').
Proof. apply (hub_tables_agree first_byte), news_reachable. Defined.

Lemma publish_delivers_witness :
  exists n w', Publish first_byte news_world (str "news") (str "hi") = Some (n, w') /\ hub w' = hub news_world /\
    n = queued w' - queued news_world /\
    forall id, heap w' !! id =
      (fun s => offer s (frames (str "news") (str "hi") first_byte news_world id (Proto s))) <$> heap news_world !! id.
Proof. apply (publish_delivers first_byte), news_reachable. Defined.

Definition reader : Subscriber := mkSub [] false 0 false {[str "news"]} {[str "n"]}.

Lemma unsubscribe_all_drops_patterns_witness :
  SubCount reader = 2 /\
  exists w', unsubscribeCommand news_world 1 2 [] =
      Some (FormatSubscribeReply (str "unsubscribe") [] (SubCount reader) 2, w') /\ forall p, (p, 1) ∉ hpatterns (hub w').
Proof.
  split; [vm_compute; reflexivity|].
  apply (unsubscribe_all_drops_patterns first_byte news_world 1 reader 2 news_reachable). vm_compute. reflexivity.
Defined.
