(* ===== verification/Skiplist.v ===== *)
(** * The sorted set ([datastruct/skiplist/skiplist.go])

    A [ZSet] is a dictionary from members to scores beside a skip list.  The nodes of the list live on
    a heap; every node has an array of levels, each with the next node of that level and the
    distance to it (its span, a [uint64]).  A score is a [float64], represented by its 64 bits
    with the comparisons of IEEE 754 written out.  The level of a new node is drawn from the random
    numbers an insertion is given.

    The search loops walk at most once over the list per level; their fuel is the length plus one.

    The reference is a list of pairs sorted by score and member; [zset_history] is the refinement,
    and [SkiplistSpec] holds the invariant. *)

From S2P Require Import Prelude.

Local Open Scope Z_scope.

(** ** Scores: [float64] by its bits *)

(** The order of the magnitudes, with the sign of the first bit; both zeros have key 0. *)
Definition fkey (b : Z) : Z := if b <? 2 ^ 63 then b else - (b - 2 ^ 63).

(** An exponent of ones with a mantissa that is not zero. *)
Definition fnan (b : Z) : bool := 0x7FF0000000000000 <? Z.abs (fkey b).

Definition flt (a b : Z) : bool := negb (fnan a) && negb (fnan b) && (fkey a <? fkey b).
Definition feq (a b : Z) : bool := negb (fnan a) && negb (fnan b) && (fkey a =? fkey b).

(** ** Strings: [<] of Go *)

Fixpoint bytes_lt (a b : bytes) : bool :=
  match a, b with
  | _, [] => false
  | [], _ :: _ => true
  | x :: a, y :: b => (x <? y) || ((x =? y) && bytes_lt a b)
  end.

(** ** The skip list *)

Definition ZSkiplistMaxLevel : nat := 32.

Record ZSetElement := mkEl { Member : bytes; Score : Z }.

Record zskiplistLevel := mkLevel { forward : option nat; span : Z }.

Record zskiplistNode := mkNode {
  member : bytes;
  score : Z;
  backward : option nat;
  level : list zskiplistLevel
}.

Record zskiplist := mkSl {
  heap : gmap nat zskiplistNode;
  fresh : nat;   (* the next address of the heap *)
  header : nat;
  tail : option nat;
  length_ : Z;
  sl_level : nat
}.

Definition newZSkiplistNode (lv : nat) (score : Z) (member : bytes) : zskiplistNode :=
  mkNode member score None (replicate lv (mkLevel None 0)).

Definition newZSkiplist : zskiplist :=
  mkSl {[0%nat := newZSkiplistNode ZSkiplistMaxLevel 0 []]} 1 0 None 0 1.

(** The draws of [rand.Uint32]; the loop goes on while the low half is below a quarter of 65535. *)
Fixpoint random_loop (draws : list Z) : nat :=
  match draws with
  | r :: draws => if Z.land r 0xFFFF <? 16384 then S (random_loop draws) else O
  | [] => O
  end.
Definition randomLevel (draws : list Z) : nat := Nat.min (S (random_loop draws)) ZSkiplistMaxLevel.

(** [uint64] arithmetic *)
Definition add64 (a b : Z) : Z := u64 (a + b).
Definition sub64 (a b : Z) : Z := u64 (a - b).

(** Reading and writing [x.level[i]]; [None] is a nil dereference or an index out of range. *)
Definition getlev (h : gmap nat zskiplistNode) (x i : nat) : option zskiplistLevel := n ← h !! x; level n !! i.
Definition setlev (h : gmap nat zskiplistNode) (x i : nat) (lv : zskiplistLevel) : option (gmap nat zskiplistNode) :=
  n ← h !! x;
  _ ← level n !! i;
  Some (<[x := mkNode (member n) (score n) (backward n) (<[i := lv]> (level n))]> h).
Definition setback (h : gmap nat zskiplistNode) (x : nat) (b : option nat) : option (gmap nat zskiplistNode) :=
  n ← h !! x; Some (<[x := mkNode (member n) (score n) b (level n)]> h).

(** The inner loop of every search: follow level [i] while the next node is wanted; [go] sees the
    node and the rank it would be reached with. *)
Fixpoint walk (fuel : nat) (h : gmap nat zskiplistNode) (go : zskiplistNode -> Z -> bool) (i x : nat) (rank : Z)
    : option (nat * Z) :=
  match fuel with
  | O => None
  | S fuel =>
    lv ← getlev h x i;
    match forward lv with
    | None => Some (x, rank)
    | Some y =>
      n ← h !! y;
      if go n (add64 rank (span lv)) then walk fuel h go i y (add64 rank (span lv)) else Some (x, rank)
    end
  end.

Definition fuel_of (sl : zskiplist) : nat := S (Z.to_nat (length_ sl)).

(** The outer loop: [update] and [rank] of the levels below [n], index by index. *)
Fixpoint search (fuel : nat) (h : gmap nat zskiplistNode) (go : zskiplistNode -> Z -> bool) (n x : nat) (rank : Z)
    : option (list (nat * Z)) :=
  match n with
  | O => Some []
  | S i =>
    '(x, rank) ← walk fuel h go i x rank;
    rest ← search fuel h go i x rank;
    Some (rest ++ [(x, rank)])
  end.

(** The tests of the searches. *)
Definition before (score_ : Z) (member_ : bytes) (n : zskiplistNode) (_ : Z) : bool :=
  flt (score n) score_ || (feq (score n) score_ && bytes_lt (member n) member_).
Definition not_after (score_ : Z) (member_ : bytes) (n : zskiplistNode) (_ : Z) : bool :=
  flt (score n) score_ || (feq (score n) score_ && negb (bytes_lt member_ (member n))).

(** New levels start at the header, with the whole list as their span. *)
Fixpoint raise_loop (h : gmap nat zskiplistNode) (header : nat) (len : Z) (i k : nat) : option (gmap nat zskiplistNode) :=
  match k with
  | O => Some h
  | S k =>
    lv ← getlev h header i;
    h ← setlev h header i (mkLevel (forward lv) len);
    raise_loop h header len (S i) k
  end.

(** The levels of the new node [x]. *)
Fixpoint link_loop (h : gmap nat zskiplistNode) (x i : nat) (rank0 : Z) (us : list (nat * Z)) : option (gmap nat zskiplistNode) :=
  match us with
  | [] => Some h
  | (u, r) :: us =>
    lv ← getlev h u i;
    h ← setlev h x i (mkLevel (forward lv) (sub64 (span lv) (sub64 rank0 r)));
    h ← setlev h u i (mkLevel (Some x) (add64 (sub64 rank0 r) 1));
    link_loop h x (S i) rank0 us
  end.

(** The levels above it. *)
Fixpoint bump_loop (h : gmap nat zskiplistNode) (i : nat) (us : list (nat * Z)) : option (gmap nat zskiplistNode) :=
  match us with
  | [] => Some h
  | (u, _) :: us =>
    lv ← getlev h u i;
    h ← setlev h u i (mkLevel (forward lv) (add64 (span lv) 1));
    bump_loop h (S i) us
  end.

Definition insert (sl : zskiplist) (score : Z) (member : bytes) (draws : list Z) : option zskiplist :=
  us ← search (fuel_of sl) (heap sl) (before score member) (sl_level sl) (header sl) 0;
  let lv := randomLevel draws in
  let k := (lv - sl_level sl)%nat in
  h ← raise_loop (heap sl) (header sl) (length_ sl) (sl_level sl) k;
  let us := us ++ replicate k (header sl, 0) in
  let lmax := (sl_level sl + k)%nat in
  let x := fresh sl in
  let h := <[x := newZSkiplistNode lv score member]> h in
  '(u0, rank0) ← us !! 0%nat;
  h ← link_loop h x 0 rank0 (take lv us);
  h ← bump_loop h lv (drop lv us);
  h ← setback h x (if decide (u0 = header sl) then None else Some u0);
  lv0 ← getlev h x 0;
  '(h, t) ← match forward lv0 with
            | Some y => h ← setback h y (Some x); Some (h, tail sl)
            | None => Some (h, Some x)
            end;
  Some (mkSl h (S x) (header sl) t (add64 (length_ sl) 1) lmax).

Fixpoint unlink_loop (h : gmap nat zskiplistNode) (x i : nat) (us : list (nat * Z)) : option (gmap nat zskiplistNode) :=
  match us with
  | [] => Some h
  | (u, _) :: us =>
    lv ← getlev h u i;
    h ← (if decide (forward lv = Some x) then
           xlv ← getlev h x i;
           setlev h u i (mkLevel (forward xlv) (add64 (span lv) (sub64 (span xlv) 1)))
         else setlev h u i (mkLevel (forward lv) (sub64 (span lv) 1)));
    unlink_loop h x (S i) us
  end.

(** [for sl.level > 1 && sl.header.level[sl.level-1].forward == nil { sl.level-- }] *)
Fixpoint lower_level (h : gmap nat zskiplistNode) (header n : nat) : option nat :=
  match n with
  | S (S m as k) =>
    lv ← getlev h header k;
    match forward lv with None => lower_level h header k | Some _ => Some n end
  | _ => Some n
  end.

Definition deleteNode (sl : zskiplist) (x : nat) (us : list (nat * Z)) : option zskiplist :=
  h ← unlink_loop (heap sl) x 0 us;
  n ← h !! x;
  lv0 ← level n !! 0%nat;
  '(h, t) ← match forward lv0 with
            | Some y => h ← setback h y (backward n); Some (h, tail sl)
            | None => Some (h, backward n)
            end;
  lmax ← lower_level h (header sl) (sl_level sl);
  Some (mkSl h (fresh sl) (header sl) t (sub64 (length_ sl) 1) lmax).

Definition delete_ (sl : zskiplist) (score_ : Z) (member_ : bytes) : option (bool * zskiplist) :=
  us ← search (fuel_of sl) (heap sl) (before score_ member_) (sl_level sl) (header sl) 0;
  '(x, _) ← us !! 0%nat;
  lv0 ← getlev (heap sl) x 0;
  match forward lv0 with
  | None => Some (false, sl)
  | Some x =>
    n ← heap sl !! x;
    if feq (score n) score_ && bool_decide (member n = member_) then
      sl ← deleteNode sl x us; Some (true, sl)
    else Some (false, sl)
  end.

Fixpoint rank_loop (fuel : nat) (h : gmap nat zskiplistNode) (score_ : Z) (member_ : bytes) (n x : nat) (rank : Z) : option Z :=
  match n with
  | O => Some 0
  | S i =>
    '(x, rank) ← walk fuel h (not_after score_ member_) i x rank;
    nd ← h !! x;
    if bool_decide (member nd = member_) then Some rank else rank_loop fuel h score_ member_ i x rank
  end.

Definition getRank (sl : zskiplist) (score_ : Z) (member_ : bytes) : option Z :=
  rank_loop (fuel_of sl) (heap sl) score_ member_ (sl_level sl) (header sl) 0.

Fixpoint element_loop (fuel : nat) (h : gmap nat zskiplistNode) (rank : Z) (n x : nat) (traversed : Z) : option (option nat) :=
  match n with
  | O => Some None
  | S i =>
    '(x, traversed) ← walk fuel h (fun _ r => r <=? rank) i x traversed;
    if traversed =? rank then Some (Some x) else element_loop fuel h rank i x traversed
  end.

Definition getElementByRank (sl : zskiplist) (rank : Z) : option (option nat) :=
  element_loop (fuel_of sl) (heap sl) rank (sl_level sl) (header sl) 0.

(** ** The sorted set *)

Record ZSet := mkZSet { dict : gmap bytes Z; sl : zskiplist }.

Definition NewZSet : ZSet := mkZSet ∅ newZSkiplist.

Definition Len (zs : ZSet) : Z := s64 (length_ (sl zs)).

Definition Add (zs : ZSet) (member : bytes) (score : Z) (draws : list Z) : option (bool * bool * ZSet) :=
  match dict zs !! member with
  | Some curScore =>
    if negb (feq curScore score) then
      '(_, l) ← delete_ (sl zs) curScore member;
      l ← insert l score member draws;
      Some (false, true, mkZSet (<[member := score]> (dict zs)) l)
    else Some (false, false, zs)
  | None =>
    l ← insert (sl zs) score member draws;
    Some (true, false, mkZSet (<[member := score]> (dict zs)) l)
  end.

Definition Score_ (zs : ZSet) (member : bytes) : option Z := dict zs !! member.

Definition Remove (zs : ZSet) (member : bytes) : option (bool * ZSet) :=
  match dict zs !! member with
  | None => Some (false, zs)
  | Some score =>
    '(_, l) ← delete_ (sl zs) score member;
    Some (true, mkZSet (delete member (dict zs)) l)
  end.

(** The inner [option] is the code's [ok] result. *)
Definition Rank (zs : ZSet) (member : bytes) (reverse : bool) : option (option Z) :=
  match dict zs !! member with
  | None => Some None
  | Some score =>
    rank ← getRank (sl zs) score member;
    Some (if rank =? 0 then None
          else if reverse : bool then Some (s64 (sub64 (length_ (sl zs)) rank)) else Some (s64 (sub64 rank 1)))
  end.

(** The copying loop of [Range], [count] elements along [next]. *)
Fixpoint collect (h : gmap nat zskiplistNode) (next : zskiplistNode -> option (option nat)) (count : nat) (node : option nat)
    : option (list ZSetElement) :=
  match count, node with
  | S count, Some x =>
    n ← h !! x;
    y ← next n;
    rest ← collect h next count y;
    Some (mkEl (member n) (score n) :: rest)
  | _, _ => Some []
  end.

Definition Range (zs : ZSet) (start stop : Z) (reverse : bool) : option (list ZSetElement) :=
  let len := s64 (length_ (sl zs)) in
  if len =? 0 then Some []
  else
    let start := if start <? 0 then len + start else start in
    let stop := if stop <? 0 then len + stop else stop in
    let start := if start <? 0 then 0 else start in
    if (len <=? start) || (stop <? start) then Some []
    else
      let stop := if len <=? stop then len - 1 else stop in
      let count := Z.to_nat (stop - start + 1) in
      if negb reverse then
        node ← getElementByRank (sl zs) (u64 (start + 1));
        collect (heap (sl zs)) (fun n => forward <$> level n !! 0%nat) count node
      else
        node ← getElementByRank (sl zs) (u64 (len - start));
        collect (heap (sl zs)) (fun n => Some (backward n)) count node.
