(* ===== verification/Stripes.v ===== *)
(** * The key stripes ([db/sharded.go])

    [LockKey] hands out one of [NumKeyLocks] mutexes by the hash of the key.  The handlers that lock two keys put them in order first
    ([lock_order]); the order is that of the names, not of the stripes, and the second lock is left out only when the names are
    equal.  [stripes_ok] says that the two locks can be had: they are one, or two different ones.  The handlers use it in
    [Context.LockKeys], the interleavings are in [Locks]. *)

From S2P Require Import Prelude Skiplist Object Db.
Local Open Scope Z_scope.

Definition NumKeyLocks : Z := 1024.

Definition stripe (key : bytes) : Z := fnv32 key mod NumKeyLocks.

(** [first, second := src, dst; if first > second { swap }] *)
Definition lock_order (src dst : bytes) : bytes * bytes := if bytes_lt dst src then (dst, src) else (src, dst).

Lemma lock_order_cases src dst : lock_order src dst = (src, dst) \/ lock_order src dst = (dst, src).
Proof. unfold lock_order. case_match; auto. Qed.

Definition stripes_ok (src dst : bytes) : Prop := src = dst \/ stripe src <> stripe dst.

#[export] Instance stripes_ok_dec src dst : Decision (stripes_ok src dst).
Proof. unfold stripes_ok. apply _. Defined.
