(* ===== verification/SkiplistSpec.v ===== *)
(** * The skip list is a sorted list

    The invariant of [Skiplist]: the nodes, in order, with their heights, determine every pointer and
    every span ([arrow] computes a level's pointer from the cells that follow).  From it the searches, the
    insertion and the deletion, and then the operations of the sorted set. *)

From S2P Require Import Prelude Skiplist.

Local Open Scope Z_scope.

(** ** The order of elements *)

(** A bit pattern that is a number. *)
Definition number (b : Z) : Prop := fnan b = false.

Lemma flt_number a b : number a -> number b -> flt a b = (fkey a <? fkey b).
Proof. unfold number, flt. by intros -> ->. Qed.

Lemma feq_number a b : number a -> number b -> feq a b = (fkey a =? fkey b).
Proof. unfold number, feq. by intros -> ->. Qed.

Lemma bytes_lt_irrefl a : bytes_lt a a = false.
Proof. induction a as [|x a IH]; [done|]. simpl. by rewrite Z.ltb_irrefl, Z.eqb_refl, IH. Qed.

Lemma bytes_lt_trans a b c : bytes_lt a b = true -> bytes_lt b c = true -> bytes_lt a c = true.
Proof.
  revert b c. induction a as [|x a IH]; intros [|y b] [|z c]; simpl; try done. intros H1 H2.
  apply orb_true_iff in H1, H2. rewrite !andb_true_iff, !Z.ltb_lt, !Z.eqb_eq in *. apply orb_true_iff.
  rewrite andb_true_iff, Z.ltb_lt, Z.eqb_eq. destruct H1 as [H1|[-> H1]], H2 as [H2|[-> H2]]; try (left; lia).
  right. split; [done|]. by eapply IH.
Qed.

Lemma bytes_lt_total a b : bytes_lt a b = false -> bytes_lt b a = false -> a = b.
Proof.
  revert b. induction a as [|x a IH]; intros [|y b]; simpl; try done. intros H1 H2.
  apply orb_false_iff in H1 as [H1 H1'], H2 as [H2 H2']. apply Z.ltb_ge in H1, H2. assert (x = y) as -> by lia.
  rewrite Z.eqb_refl in *. f_equal. by apply IH.
Qed.

(** The order of the skip list, on keys of scores and on members. *)
Definition elem_lt (e f : ZSetElement) : Prop :=
  fkey (Score e) < fkey (Score f) \/ (fkey (Score e) = fkey (Score f) /\ bytes_lt (Member e) (Member f) = true).

#[export] Instance elem_lt_trans : Transitive elem_lt.
Proof.
  intros e f g [H1|[E1 H1]] [H2|[E2 H2]]; unfold elem_lt; try (left; lia).
  right. split; [lia|]. by eapply bytes_lt_trans.
Qed.

Lemma elem_lt_irrefl e : ~ elem_lt e e.
Proof. intros [H|[_ H]]; [lia|]. by rewrite bytes_lt_irrefl in H. Qed.

Lemma elem_lt_total e f : elem_lt e f \/ elem_lt f e \/ (fkey (Score e) = fkey (Score f) /\ Member e = Member f).
Proof.
  unfold elem_lt. destruct (Z.lt_trichotomy (fkey (Score e)) (fkey (Score f))) as [H|[H|H]]; [tauto| |tauto].
  destruct (bytes_lt (Member e) (Member f)) eqn:E1; [tauto|]. destruct (bytes_lt (Member f) (Member e)) eqn:E2.
  - right. left. right. split; [lia|done].
  - right. right. split; [done|]. by apply bytes_lt_total.
Qed.

(** ** Cells: the nodes in order *)

Record cell := mkCell { c_loc : nat; c_el : ZSetElement; c_h : nat }.

(** The level [i] pointer of the node before [l]. *)
Fixpoint arrow (i : nat) (l : list cell) : zskiplistLevel :=
  match l with
  | [] => mkLevel None 0
  | c :: l => if (i <? c_h c)%nat then mkLevel (Some (c_loc c)) 1
              else mkLevel (forward (arrow i l)) (1 + span (arrow i l))
  end.

Definition low (i : nat) (l : list cell) : Prop := Forall (fun c => (c_h c <= i)%nat) l.

Lemma arrow_skip i m l : low i m -> arrow i (m ++ l) = mkLevel (forward (arrow i l)) (zlen m + span (arrow i l)).
Proof.
  induction 1 as [|c m Hc _ IH]; simpl; [by destruct (arrow i l)|].
  rewrite (proj2 (Nat.ltb_ge _ _)) by done. rewrite IH. simpl. rewrite zlen_cons. f_equal. lia.
Qed.

Lemma arrow_hit i m c l : low i m -> (i < c_h c)%nat -> arrow i (m ++ c :: l) = mkLevel (Some (c_loc c)) (zlen m + 1).
Proof. intros Hm Hc. rewrite arrow_skip by done. simpl. by rewrite (proj2 (Nat.ltb_lt _ _)). Qed.

Lemma arrow_none i l : low i l -> arrow i l = mkLevel None (zlen l).
Proof. intros H. rewrite <- (app_nil_r l) at 1. rewrite arrow_skip by done. simpl. f_equal. lia. Qed.

(** Either nothing ahead reaches level [i], or there is a first cell that does. *)
Lemma low_or_hit i l : low i l \/ exists m c l', l = m ++ c :: l' /\ low i m /\ (i < c_h c)%nat.
Proof.
  induction l as [|c l IH]; [left; constructor|]. destruct (decide (c_h c <= i)%nat) as [Hc|Hc].
  - destruct IH as [IH|(m & d & l' & -> & Hm & Hd)]; [left; by constructor|].
    right. exists (c :: m), d, l'. split_and!; [done|by constructor|done].
  - right. exists [], c, l. split_and!; [done|constructor|lia].
Qed.

Lemma arrow_app_indep i m c l l1 l2 : (i < c_h c)%nat -> arrow i ((m ++ c :: l) ++ l1) = arrow i ((m ++ c :: l) ++ l2).
Proof.
  intros Hc. induction m as [|d m IH]; simpl; [by rewrite (proj2 (Nat.ltb_lt _ _))|].
  destruct (i <? c_h d)%nat; [done|]. by rewrite IH.
Qed.

Lemma arrow_span_bounds i l : 0 <= span (arrow i l) <= zlen l.
Proof.
  induction l as [|c l IH]; simpl; [rewrite zlen_nil; lia|]. rewrite zlen_cons. zlen_pose.
  destruct (i <? c_h c)%nat; simpl; lia.
Qed.

Lemma arrow_forward_in i l x : forward (arrow i l) = Some x -> x ∈ c_loc <$> l.
Proof.
  induction l as [|c l IH]; simpl; [done|]. destruct (i <? c_h c)%nat; simpl; intros E; simplify_eq; set_solver.
Qed.

(** ** The representation *)

Abbreviation nodes := (gmap nat zskiplistNode) (only parsing).

(** What a node holds apart from its levels, and how many it has. *)
Definition meta (h : nodes) (x : nat) : option (bytes * Z * option nat * nat) :=
  n ← h !! x; Some (member n, score n, backward n, length (level n)).

(** The node that ends a prefix of the cells (the header for the empty one) and its height. *)
Definition loc_of (hd : nat) (l : list cell) : nat := match last l with Some c => c_loc c | None => hd end.
Definition height_of (lmax : nat) (l : list cell) : nat := match last l with Some c => c_h c | None => lmax end.

Lemma loc_of_snoc hd l c : loc_of hd (l ++ [c]) = c_loc c.
Proof. unfold loc_of. by rewrite last_snoc. Qed.

Lemma height_of_snoc lmax l c : height_of lmax (l ++ [c]) = c_h c.
Proof. unfold height_of. by rewrite last_snoc. Qed.

Definition links (h : nodes) (hd lmax : nat) (cs : list cell) : Prop :=
  forall l1 l2 i, cs = l1 ++ l2 -> (i < height_of lmax l1)%nat -> getlev h (loc_of hd l1) i = Some (arrow i l2).

Definition metas (h : nodes) (cs : list cell) : Prop :=
  forall l1 c l2, cs = l1 ++ c :: l2 ->
    meta h (c_loc c) = Some (Member (c_el c), Score (c_el c), c_loc <$> last l1, c_h c).

Record repr (s : zskiplist) (cs : list cell) : Prop := {
  r_links : links (heap s) (header s) (sl_level s) cs;
  r_metas : metas (heap s) cs;
  r_header : meta (heap s) (header s) = Some ([], 0, None, ZSkiplistMaxLevel);
  r_upper : forall i, (sl_level s <= i < ZSkiplistMaxLevel)%nat -> exists sp, getlev (heap s) (header s) i = Some (mkLevel None sp);
  r_nodup : NoDup (header s :: (c_loc <$> cs));
  r_fresh : Forall (fun x => (x < fresh s)%nat) (header s :: (c_loc <$> cs));
  r_heights : Forall (fun c => (1 <= c_h c <= sl_level s)%nat) cs;
  r_lmax : (1 <= sl_level s <= ZSkiplistMaxLevel)%nat;
  r_tail : tail s = c_loc <$> last cs;
  r_len : length_ s = zlen cs
}.

(** Lists short enough for the 64-bit counters. *)
Definition small (cs : list cell) : Prop := zlen cs < 2 ^ 63 - 1.

Lemma add64_small a b : 0 <= a + b < 2 ^ 64 -> add64 a b = a + b.
Proof. apply u64_id. Qed.

Lemma sub64_small a b : 0 <= a - b < 2 ^ 64 -> sub64 a b = a - b.
Proof. apply u64_id. Qed.

(** [+=] with an unsigned decrement. *)
Lemma add64_dec a b : 0 <= a + b - 1 < 2 ^ 64 -> add64 a (sub64 b 1) = a + b - 1.
Proof. intros H. unfold add64, sub64, u64. rewrite Z.add_mod_idemp_r by lia. rewrite Z.mod_small; lia. Qed.

(** ** Searching *)

Definition node_of (n : zskiplistNode) (c : cell) : Prop := member n = Member (c_el c) /\ score n = Score (c_el c).

(** The test [go] separates the cells [A], which a search passes, from the cells [B]. *)
Definition splits (go : zskiplistNode -> Z -> bool) (A B : list cell) : Prop :=
  (forall l1 c l2 n, A = l1 ++ c :: l2 -> node_of n c -> go n (zlen l1 + 1) = true) /\
  (forall l1 c l2 n, B = l1 ++ c :: l2 -> node_of n c -> go n (zlen A + zlen l1 + 1) = false).

(** The last node of [A] that reaches level [i], and its rank. *)
Definition reaches (hd lmax : nat) (A : list cell) (i : nat) (u : nat * Z) : Prop :=
  exists l1 mid, A = l1 ++ mid /\ low i mid /\ (i < height_of lmax l1)%nat /\ u = (loc_of hd l1, zlen l1).

Section searching.
Context (h : nodes) (hd lmax : nat) (A B : list cell) (go : zskiplistNode -> Z -> bool).
Context (Hlinks : links h hd lmax (A ++ B)) (Hmetas : metas h (A ++ B)) (Hsmall : small (A ++ B)) (Hgo : splits go A B).

Lemma node_at l1 c l2 : A ++ B = l1 ++ c :: l2 -> exists n, h !! c_loc c = Some n /\ node_of n c.
Proof using Hmetas.
  intros E. pose proof (Hmetas _ _ _ E) as Hm. unfold meta in Hm. destruct (h !! c_loc c) as [n|]; [|done].
  cbn in Hm. injection Hm as ? ? ? ?. by exists n.
Qed.

Lemma walk_spec fuel i l1 mid :
  A = l1 ++ mid -> (i < height_of lmax l1)%nat -> (length mid < fuel)%nat ->
  exists l1' mid', A = l1' ++ mid' /\ low i mid' /\ (i < height_of lmax l1')%nat /\
    walk fuel h go i (loc_of hd l1) (zlen l1) = Some (loc_of hd l1', zlen l1').
Proof using Hlinks Hmetas Hsmall Hgo.
  revert l1 mid. induction fuel as [|fuel IH]; intros l1 mid EA Hi Hf; [lia|]. cbn [walk].
  assert (A ++ B = l1 ++ mid ++ B) as Ecs by (by rewrite EA, <- app_assoc).
  rewrite (Hlinks _ _ _ Ecs Hi). cbn [mbind option_bind].
  assert (zlen l1 + zlen mid + zlen B < 2 ^ 63) as Hsz.
  { unfold small in Hsmall. rewrite EA, !zlen_app in Hsmall. lia. }
  destruct (low_or_hit i mid) as [Hlow|(m & c & mid2 & -> & Hm & Hc)].
  - rewrite arrow_skip by done. exists l1, mid. split_and!; [done|done|done|].
    destruct (low_or_hit i B) as [HB|(m & c & B2 & HB & Hm & Hc)].
    + by rewrite (arrow_none _ _ HB).
    + rewrite HB, arrow_hit by done. cbn [forward span].
      destruct (node_at (A ++ m) c B2) as (n & -> & Hn); [rewrite HB, <- app_assoc; done|]. cbn [mbind option_bind].
      rewrite HB, zlen_app, zlen_cons in Hsz. zlen_pose. rewrite add64_small by lia.
      replace (zlen l1 + (zlen mid + (zlen m + 1))) with (zlen A + zlen m + 1) by (rewrite EA, zlen_app; lia).
      by rewrite (proj2 Hgo m c B2 n HB Hn).
  - rewrite <- app_assoc, <- app_comm_cons, arrow_hit by done. cbn [forward span].
    assert (A = (l1 ++ m) ++ c :: mid2) as EA2 by (by rewrite EA, <- app_assoc).
    destruct (node_at (l1 ++ m) c (mid2 ++ B)) as (n & -> & Hn); [rewrite EA2, <- !app_assoc; done|]. cbn [mbind option_bind].
    rewrite zlen_app, zlen_cons in Hsz. zlen_pose. rewrite add64_small by lia.
    replace (zlen l1 + (zlen m + 1)) with (zlen (l1 ++ m) + 1) by (rewrite zlen_app; lia).
    rewrite (proj1 Hgo _ _ _ n EA2 Hn).
    destruct (IH ((l1 ++ m) ++ [c]) mid2) as (l1' & mid' & ? & ? & ? & E).
    { rewrite <- (app_assoc (l1 ++ m)). exact EA2. }
    { by rewrite height_of_snoc. }
    { rewrite length_app in Hf. simpl in Hf. lia. }
    exists l1', mid'. split_and!; try done. rewrite loc_of_snoc, (zlen_app (l1 ++ m)), zlen_cons, zlen_nil in E.
    by rewrite <- E.
Qed.

Lemma sk_search_spec fuel n l1 mid :
  A = l1 ++ mid -> (n <= height_of lmax l1)%nat -> (length A < fuel)%nat ->
  exists us, search fuel h go n (loc_of hd l1) (zlen l1) = Some us /\ length us = n /\
    forall i u, us !! i = Some u -> reaches hd lmax A i u.
Proof using Hlinks Hmetas Hsmall Hgo.
  revert l1 mid. induction n as [|n IH]; intros l1 mid EA Hn Hf; cbn [search]; [by exists []|].
  destruct (walk_spec fuel n l1 mid) as (l1' & mid' & EA' & Hlow & Hh & ->); [done|lia|rewrite EA, length_app in Hf; lia|].
  cbn [mbind option_bind]. destruct (IH l1' mid') as (us & -> & Hlen & Hus); [done|lia|done|].
  cbn [mbind option_bind]. eexists. split; [done|]. split; [rewrite length_app; simpl; lia|].
  intros i u Hi. apply lookup_app_Some in Hi as [Hi|[Hge Hi]]; [by apply Hus|].
  apply list_lookup_singleton_Some in Hi as [? <-]. replace i with n by lia. by exists l1', mid'.
Qed.

End searching.

(** ** Stores *)

Lemma setlev_spec h x i lv :
  is_Some (getlev h x i) ->
  exists h', setlev h x i lv = Some h' /\
    (forall y j, getlev h' y j = if decide (y = x /\ j = i) then Some lv else getlev h y j) /\
    (forall y, meta h' y = meta h y).
Proof.
  unfold getlev, setlev, meta. destruct (h !! x) as [n|] eqn:Hx; [|by intros []]. cbn. intros [l0 Hl].
  rewrite Hl. cbn. eexists. split; [done|]. split.
  - intros y j. destruct (decide (y = x)) as [->|Hy].
    + rewrite lookup_insert_eq. cbn. rewrite Hx. cbn. destruct (decide (j = i)) as [->|Hj].
      * rewrite list_lookup_insert_eq by (by eapply lookup_lt_Some). by rewrite decide_True.
      * rewrite list_lookup_insert_ne by done. by rewrite decide_False by tauto.
    + rewrite lookup_insert_ne by done. by rewrite decide_False by tauto.
  - intros y. destruct (decide (y = x)) as [->|Hy].
    + rewrite lookup_insert_eq, Hx. cbn. by rewrite length_insert.
    + by rewrite lookup_insert_ne.
Qed.

Lemma setback_spec h x b m s b0 k :
  meta h x = Some (m, s, b0, k) ->
  exists h', setback h x b = Some h' /\ (forall y j, getlev h' y j = getlev h y j) /\
    (forall y, meta h' y = if decide (y = x) then Some (m, s, b, k) else meta h y).
Proof.
  unfold getlev, setback, meta. destruct (h !! x) as [n|] eqn:Hx; [|done]. cbn. intros [= <- <- <- <-].
  eexists. split; [done|]. split; intros y.
  - intros j. destruct (decide (y = x)) as [->|Hy]; [by rewrite lookup_insert_eq, Hx|by rewrite lookup_insert_ne].
  - destruct (decide (y = x)) as [->|Hy]; [by rewrite lookup_insert_eq|by rewrite lookup_insert_ne].
Qed.

Lemma meta_getlev h x m s b k i : meta h x = Some (m, s, b, k) -> (i < k)%nat -> is_Some (getlev h x i).
Proof.
  unfold meta, getlev. destruct (h !! x) as [n|]; [|done]. cbn. intros [= _ _ _ <-] Hi. by apply lookup_lt_is_Some.
Qed.

(** ** Prefixes of the cells *)

Lemma loc_of_lookup hd l : (hd :: (c_loc <$> l)) !! length l = Some (loc_of hd l).
Proof.
  destruct l as [|c l _] using rev_ind; [done|]. rewrite loc_of_snoc, length_app, Nat.add_1_r. simpl.
  rewrite fmap_app, lookup_app_r; rewrite length_fmap; [|done]. by rewrite Nat.sub_diag.
Qed.

Lemma loc_of_elem hd l m : loc_of hd l ∈ hd :: (c_loc <$> (l ++ m)).
Proof.
  rewrite fmap_app, app_comm_cons. apply elem_of_app. left. eapply list_elem_of_lookup_2, loc_of_lookup.
Qed.

Lemma loc_of_inj hd l1 m1 l2 m2 :
  NoDup (hd :: (c_loc <$> (l1 ++ m1))) -> l1 ++ m1 = l2 ++ m2 -> loc_of hd l1 = loc_of hd l2 -> l1 = l2.
Proof.
  intros Hnd E Hl.
  assert (forall l m, l1 ++ m1 = l ++ m -> (hd :: (c_loc <$> (l1 ++ m1))) !! length l = Some (loc_of hd l)) as H.
  { intros l m ->. rewrite fmap_app, app_comm_cons. apply lookup_app_l_Some, loc_of_lookup. }
  assert (length l1 = length l2) as Hlen.
  { eapply NoDup_lookup; [done|by eapply H|]. rewrite Hl. by eapply H. }
  by apply app_inj_1 in E as [-> _].
Qed.

(** A prefix that reaches level [i] is the last one to do so, or something behind it does. *)
Lemma reach_unique lmax i l1 mid l1' mid' :
  l1 ++ mid = l1' ++ mid' -> low i mid -> (i < height_of lmax l1)%nat -> (i < height_of lmax l1')%nat ->
  l1' = l1 \/ exists m c l, mid' = m ++ c :: l /\ (i < c_h c)%nat.
Proof.
  intros E Hlow Hh Hh'. apply app_eq_inv in E as [(w & -> & E)|(w & -> & E)].
  - destruct w as [|c w _] using rev_ind; [left; by rewrite app_nil_r|]. right.
    rewrite app_assoc, height_of_snoc in Hh. exists w, c, mid. split; [by rewrite E, <- app_assoc|done].
  - destruct w as [|c w _] using rev_ind; [left; by rewrite app_nil_r|]. exfalso.
    rewrite app_assoc, height_of_snoc in Hh'. rewrite E in Hlow.
    apply Forall_app in Hlow as [Hlow _]. apply Forall_app in Hlow as [_ Hc]. rewrite Forall_singleton in Hc. lia.
Qed.

(** ** Changing what follows [A]

    The update of a search at each level, one after the other, turns a chain whose levels see [X] behind
    [A] into one whose levels see [Y]. *)

Definition midlinks (h : nodes) (hd lmax : nat) (A : list cell) (j : nat) (X Y : list cell) : Prop :=
  forall l1 mid i, A = l1 ++ mid -> (i < height_of lmax l1)%nat ->
    getlev h (loc_of hd l1) i = Some (arrow i (mid ++ if (i <? j)%nat then Y else X)).

Lemma midlinks_step h h' hd lmax A j X Y l1 mid :
  NoDup (hd :: (c_loc <$> A)) -> midlinks h hd lmax A j X Y ->
  A = l1 ++ mid -> low j mid -> (j < height_of lmax l1)%nat ->
  (forall y i, y ∈ hd :: (c_loc <$> A) -> getlev h' y i =
     if decide (y = loc_of hd l1 /\ i = j) then Some (arrow j (mid ++ Y)) else getlev h y i) ->
  midlinks h' hd lmax A (S j) X Y.
Proof.
  intros Hnd Hm EA Hlow Hh Hh' l1' mid' i EA' Hi. rewrite Hh' by (rewrite EA'; apply loc_of_elem).
  destruct (decide (loc_of hd l1' = loc_of hd l1 /\ i = j)) as [[Hloc ->]|Hne].
  - assert (l1' = l1) as ->.
    { apply (loc_of_inj hd l1' mid' l1 mid); [by rewrite <- EA'|congruence|done]. }
    rewrite EA in EA'. apply app_inv_head in EA' as <-. by rewrite (proj2 (Nat.ltb_lt _ _)) by lia.
  - rewrite (Hm l1' mid' i EA' Hi). destruct (Nat.ltb_spec i j) as [Hij|Hij].
    { by rewrite (proj2 (Nat.ltb_lt _ _)) by lia. }
    destruct (Nat.ltb_spec i (S j)) as [Hij'|Hij']; [|done]. assert (i = j) as -> by lia.
    destruct (reach_unique lmax j l1 mid l1' mid') as [->|(m & c & l & -> & Hc)]; [congruence|done|done|done|tauto|].
    f_equal. by apply arrow_app_indep.
Qed.

(** Only levels of the nodes [S] may differ. *)
Definition levels_only (S : list nat) (h h' : nodes) : Prop :=
  (forall y j, y ∉ S -> getlev h' y j = getlev h y j) /\ (forall y, meta h' y = meta h y).

Lemma levels_only_refl S h : levels_only S h h.
Proof. done. Qed.

Lemma levels_only_trans S h1 h2 h3 : levels_only S h1 h2 -> levels_only S h2 h3 -> levels_only S h1 h3.
Proof. intros [H1 H2] [G1 G2]. split; [intros y j Hy; by rewrite G1, H1|intros y; by rewrite G2, H2]. Qed.

Lemma setlev_ok (S : list nat) h x i lv :
  x ∈ S -> is_Some (getlev h x i) ->
  exists h', setlev h x i lv = Some h' /\ levels_only S h h' /\
    forall y j, getlev h' y j = if decide (y = x /\ j = i) then Some lv else getlev h y j.
Proof.
  intros Hx Hi. destruct (setlev_spec h x i lv Hi) as (h' & E & Hl & Hm). exists h'. split_and!; [done| |done].
  split; [|done]. intros y j Hy. rewrite Hl. rewrite decide_False; [done|]. intros [-> _]. done.
Qed.

Section linking.
Context (hd lmax : nat) (A B : list cell) (c : cell).
Abbreviation x := (c_loc c).
Abbreviation own := (x :: hd :: (c_loc <$> A)).
Context (Hnd : NoDup own) (Hsmall : small (A ++ c :: B)).

Lemma sizes : zlen A + zlen B + 1 < 2 ^ 63 /\ 0 <= zlen A /\ 0 <= zlen B.
Proof using Hsmall. unfold small in Hsmall. rewrite zlen_app, zlen_cons in Hsmall. zlen_pose. lia. Qed.

Lemma own_loc l1 mid : A = l1 ++ mid -> loc_of hd l1 ∈ own /\ loc_of hd l1 <> x.
Proof using Hnd.
  intros EA. pose proof (loc_of_elem hd l1 mid) as Hin. rewrite <- EA in Hin. split; [by apply list_elem_of_further|].
  intros E. rewrite E in Hin. apply NoDup_cons in Hnd as [Hni _]. done.
Qed.

(** A store at the level [j] of its update. *)
Lemma update_ok h j X Y l1 mid :
  midlinks h hd lmax A j X Y -> A = l1 ++ mid -> low j mid -> (j < height_of lmax l1)%nat ->
  exists h', setlev h (loc_of hd l1) j (arrow j (mid ++ Y)) = Some h' /\ midlinks h' hd lmax A (S j) X Y /\
    levels_only own h h' /\ (forall i, getlev h' x i = getlev h x i) /\ (forall y i, i <> j -> getlev h' y i = getlev h y i).
Proof using Hnd.
  intros Hm EA Hlow Hh. destruct (own_loc l1 mid EA) as [Hin Hne].
  destruct (setlev_ok own h (loc_of hd l1) j (arrow j (mid ++ Y))) as (h' & E & Hlo & Hl); [done| |].
  { rewrite (Hm l1 mid j EA Hh). by eexists. }
  exists h'. split_and!; [done| |done| |].
  - eapply midlinks_step; [by apply NoDup_cons in Hnd as [_ ?]|done|done|done|done|]. intros y i _. apply Hl.
  - intros i. rewrite Hl, decide_False; [done|]. intros [E' _]. done.
  - intros y i Hij. by rewrite Hl, decide_False by tauto.
Qed.

Lemma update_read h j X Y l1 mid :
  midlinks h hd lmax A j X Y -> A = l1 ++ mid -> (j < height_of lmax l1)%nat ->
  getlev h (loc_of hd l1) j = Some (arrow j (mid ++ X)).
Proof. intros Hm EA Hh. rewrite (Hm l1 mid j EA Hh). by rewrite Nat.ltb_irrefl. Qed.

Lemma midlinks_frame h h' j X Y :
  (forall y i, y <> x -> getlev h' y i = getlev h y i) -> midlinks h hd lmax A j X Y -> midlinks h' hd lmax A j X Y.
Proof using Hnd.
  intros Hf Hm l1 mid i EA Hi. rewrite Hf; [by apply Hm|]. apply (own_loc l1 mid EA).
Qed.

Lemma link_loop_spec us h j m s b :
  (forall i u, us !! i = Some u -> reaches hd lmax A (j + i) u) -> (j + length us <= c_h c)%nat ->
  midlinks h hd lmax A j B (c :: B) -> meta h x = Some (m, s, b, c_h c) ->
  (forall i, (i < j)%nat -> getlev h x i = Some (arrow i B)) ->
  exists h', link_loop h x j (zlen A) us = Some h' /\ midlinks h' hd lmax A (j + length us) B (c :: B) /\
    levels_only own h h' /\ (forall i, (i < j + length us)%nat -> getlev h' x i = Some (arrow i B)) /\
    (forall y i, (j + length us <= i)%nat -> getlev h' y i = getlev h y i).
Proof using Hnd Hsmall.
  revert h j. induction us as [|[u r] us IH]; intros h j Hus Hj Hm Hx Hxl; cbn [link_loop].
  { exists h. rewrite Nat.add_0_r. split_and!; [done|done|apply levels_only_refl|done|done]. }
  simpl in Hj. destruct (Hus 0%nat (u, r) eq_refl) as (l1 & mid & EA & Hlow & Hh & [= -> ->]). rewrite Nat.add_0_r in *.
  pose proof sizes as Hsz. rewrite EA, zlen_app in Hsz. pose proof (arrow_span_bounds j B) as Hsp. zlen_pose.
  rewrite (update_read _ _ _ _ _ _ Hm EA Hh). rewrite arrow_skip by done. cbn [mbind option_bind forward span].
  assert (zlen A = zlen l1 + zlen mid) as HzA by (by rewrite EA, zlen_app).
  rewrite HzA, (sub64_small (zlen l1 + zlen mid) (zlen l1)) by lia.
  rewrite sub64_small by lia.
  destruct (setlev_ok own h x j (arrow j B)) as (h1 & E1 & Hlo1 & Hl1); [apply list_elem_of_here|eapply meta_getlev; [exact Hx|lia]|].
  replace (mkLevel (forward (arrow j B)) (zlen mid + span (arrow j B) - (zlen l1 + zlen mid - zlen l1))) with (arrow j B)
    by (destruct (arrow j B); simpl; f_equal; lia).
  rewrite E1. cbn [mbind option_bind].
  assert (midlinks h1 hd lmax A j B (c :: B)) as Hm1.
  { eapply midlinks_frame; [|done]. intros y i Hy. by rewrite Hl1, decide_False by tauto. }
  destruct (update_ok h1 j B (c :: B) l1 mid Hm1 EA Hlow Hh) as (h2 & E2 & Hm2 & Hlo2 & Hx2 & Ha2).
  rewrite arrow_hit in E2 by (done || lia). rewrite add64_small by lia.
  replace (zlen l1 + zlen mid - zlen l1 + 1) with (zlen mid + 1) by lia. rewrite E2. cbn [mbind option_bind].
  destruct (IH h2 (S j)) as (h3 & E3 & Hm3 & Hlo3 & Hx3 & Ha3).
  - intros i v Hi. rewrite Nat.add_succ_comm. by apply (Hus (S i)).
  - lia.
  - done.
  - rewrite (proj2 Hlo2), (proj2 Hlo1). done.
  - intros i Hi. rewrite Hx2, Hl1. destruct (decide (x = x /\ i = j)) as [[_ ->]|Hne]; [done|]. apply Hxl. lia.
  - exists h3. cbn [length]. rewrite <- !Nat.add_succ_comm. rewrite HzA in E3. split_and!; [done|done| |done|].
    + eapply levels_only_trans; [|done]. by eapply levels_only_trans.
    + intros y i Hi. rewrite Ha3, Ha2, Hl1 by lia. by rewrite decide_False by lia.
Qed.

Lemma bump_loop_spec us h j :
  (forall i u, us !! i = Some u -> reaches hd lmax A (j + i) u) -> (c_h c <= j)%nat ->
  midlinks h hd lmax A j B (c :: B) ->
  exists h', bump_loop h j us = Some h' /\ midlinks h' hd lmax A (j + length us) B (c :: B) /\
    levels_only own h h' /\ (forall i, getlev h' x i = getlev h x i) /\
    (forall y i, (j + length us <= i)%nat -> getlev h' y i = getlev h y i).
Proof using Hnd Hsmall.
  revert h j. induction us as [|[u r] us IH]; intros h j Hus Hj Hm; cbn [bump_loop].
  { exists h. rewrite Nat.add_0_r. by split_and!. }
  destruct (Hus 0%nat (u, r) eq_refl) as (l1 & mid & EA & Hlow & Hh & [= -> ->]). rewrite Nat.add_0_r in *.
  pose proof sizes as Hsz. rewrite EA, zlen_app in Hsz. pose proof (arrow_span_bounds j B) as Hsp. zlen_pose.
  rewrite (update_read _ _ _ _ _ _ Hm EA Hh). rewrite arrow_skip by done. cbn [mbind option_bind forward span].
  rewrite add64_small by lia.
  destruct (update_ok h j B (c :: B) l1 mid Hm EA Hlow Hh) as (h2 & E2 & Hm2 & Hlo2 & Hx2 & Ha2).
  rewrite arrow_skip in E2 by done. cbn [arrow] in E2. rewrite (proj2 (Nat.ltb_ge _ _)) in E2 by done. cbn [forward span] in E2.
  replace (zlen mid + span (arrow j B) + 1) with (zlen mid + (1 + span (arrow j B))) by lia. rewrite E2. cbn [mbind option_bind].
  destruct (IH h2 (S j)) as (h3 & E3 & Hm3 & Hlo3 & Hx3 & Ha3).
  - intros i v Hi. rewrite Nat.add_succ_comm. by apply (Hus (S i)).
  - lia.
  - done.
  - exists h3. cbn [length]. rewrite <- !Nat.add_succ_comm. split_and!; [done|done|by eapply levels_only_trans| |].
    + intros i. by rewrite Hx3, Hx2.
    + intros y i Hi. by rewrite Ha3, Ha2 by lia.
Qed.

Lemma unlink_loop_spec us h j :
  (forall i u, us !! i = Some u -> reaches hd lmax A (j + i) u) -> x ∉ c_loc <$> B ->
  midlinks h hd lmax A j (c :: B) B -> (forall i, (i < c_h c)%nat -> getlev h x i = Some (arrow i B)) ->
  exists h', unlink_loop h x j us = Some h' /\ midlinks h' hd lmax A (j + length us) (c :: B) B /\
    levels_only own h h' /\ (forall i, getlev h' x i = getlev h x i) /\
    (forall y i, (j + length us <= i)%nat -> getlev h' y i = getlev h y i).
Proof using Hnd Hsmall.
  revert h j. induction us as [|[u r] us IH]; intros h j Hus HB Hm Hx; cbn [unlink_loop].
  { exists h. rewrite Nat.add_0_r. by split_and!. }
  destruct (Hus 0%nat (u, r) eq_refl) as (l1 & mid & EA & Hlow & Hh & [= -> ->]). rewrite Nat.add_0_r in *.
  pose proof sizes as Hsz. rewrite EA, zlen_app in Hsz. pose proof (arrow_span_bounds j B) as Hsp. zlen_pose.
  rewrite (update_read _ _ _ _ _ _ Hm EA Hh). cbn [mbind option_bind].
  destruct (update_ok h j (c :: B) B l1 mid Hm EA Hlow Hh) as (h2 & E2 & Hm2 & Hlo2 & Hx2 & Ha2).
  rewrite arrow_skip in E2 by done.
  assert ((if decide (forward (arrow j (mid ++ c :: B)) = Some x)
      then xlv ← getlev h x j;
        setlev h (loc_of hd l1) j (mkLevel (forward xlv) (add64 (span (arrow j (mid ++ c :: B))) (sub64 (span xlv) 1)))
      else setlev h (loc_of hd l1) j (mkLevel (forward (arrow j (mid ++ c :: B))) (sub64 (span (arrow j (mid ++ c :: B))) 1))) = Some h2) as ->.
  { destruct (decide (j < c_h c)%nat) as [Hc|Hc].
    - rewrite arrow_hit by done. cbn [forward span]. rewrite decide_True by done. rewrite Hx by done. cbn [mbind option_bind].
      rewrite add64_dec by lia. rewrite <- E2. do 2 f_equal. lia.
    - rewrite arrow_skip by done. cbn [arrow]. rewrite (proj2 (Nat.ltb_ge _ _)) by lia. cbn [forward span].
      rewrite decide_False by (intros Hf; by apply arrow_forward_in in Hf).
      rewrite sub64_small by lia. rewrite <- E2. do 2 f_equal. lia. }
  cbn [mbind option_bind]. destruct (IH h2 (S j)) as (h3 & E3 & Hm3 & Hlo3 & Hx3 & Ha3).
  - intros i v Hi. rewrite Nat.add_succ_comm. by apply (Hus (S i)).
  - done.
  - done.
  - intros i Hi. rewrite Hx2. by apply Hx.
  - exists h3. cbn [length]. rewrite <- !Nat.add_succ_comm. split_and!; [done|done|by eapply levels_only_trans| |].
    + intros i. by rewrite Hx3, Hx2.
    + intros y i Hi. by rewrite Ha3, Ha2 by lia.
Qed.

End linking.

(** ** Assembling a chain *)

Lemma split_cases {T} (A D l1 l2 : list T) d :
  A ++ D = l1 ++ d :: l2 ->
  (exists k, A = l1 ++ d :: k /\ l2 = k ++ D) \/ (exists k, l1 = A ++ k /\ D = k ++ d :: l2).
Proof.
  intros E. apply app_eq_inv in E as [(k & -> & E)|(k & -> & E)]; [|right; eauto].
  destruct k as [|d' k]; simpl in E; [right; exists []; rewrite !app_nil_r; by subst|]. injection E as -> ->. left. eauto.
Qed.

Lemma links_app h hd lmax A D :
  links h hd lmax (A ++ D) <->
  (forall l1 mid i, A = l1 ++ mid -> (i < height_of lmax l1)%nat -> getlev h (loc_of hd l1) i = Some (arrow i (mid ++ D))) /\
  (forall l b l2 i, D = l ++ b :: l2 -> (i < c_h b)%nat -> getlev h (c_loc b) i = Some (arrow i l2)).
Proof.
  split.
  - intros H. split.
    + intros l1 mid i -> Hi. apply H; [by rewrite <- app_assoc|done].
    + intros l b l2 i -> Hi. specialize (H (A ++ l ++ [b]) l2 i).
      rewrite (app_assoc A l [b]), loc_of_snoc, height_of_snoc in H. apply H; [by rewrite <- !app_assoc|done].
  - intros [H1 H2] l1 l2 i E Hi. apply app_eq_inv in E as [(k & -> & ->)|(k & -> & E)]; [by apply H1|].
    destruct k as [|b k _] using rev_ind.
    + rewrite app_nil_r in *. specialize (H1 A [] i). rewrite app_nil_r in H1. subst. by apply H1.
    + rewrite app_assoc, loc_of_snoc, height_of_snoc in *. eapply (H2 k); [by rewrite E, <- app_assoc|done].
Qed.

Lemma raise_loop_spec h hd len i k :
  (forall j, (i <= j < i + k)%nat -> exists sp, getlev h hd j = Some (mkLevel None sp)) ->
  exists h', raise_loop h hd len i k = Some h' /\ levels_only [hd] h h' /\
    forall j, getlev h' hd j = if decide (i <= j < i + k)%nat then Some (mkLevel None len) else getlev h hd j.
Proof.
  revert h i. induction k as [|k IH]; intros h i Hup; cbn [raise_loop].
  { exists h. split_and!; [done|apply levels_only_refl|]. intros j. by rewrite decide_False by lia. }
  destruct (Hup i ltac:(lia)) as [sp Hi]. rewrite Hi. cbn [mbind option_bind forward].
  destruct (setlev_ok [hd] h hd i (mkLevel None len)) as (h1 & -> & Hlo & Hl); [apply list_elem_of_here|by rewrite Hi; eexists|].
  cbn [mbind option_bind]. destruct (IH h1 (S i)) as (h2 & -> & Hlo2 & Hl2).
  { intros j Hj. rewrite Hl, decide_False by lia. apply Hup. lia. }
  exists h2. split_and!; [done|by eapply levels_only_trans|]. intros j. rewrite Hl2, Hl.
  destruct (decide (S i <= j < S i + k)%nat) as [H|H]; [by rewrite decide_True by lia|].
  destruct (decide (hd = hd /\ j = i)) as [[_ ->]|Hne]; [by rewrite decide_True by lia|].
  rewrite decide_False; [done|]. intros Hj. apply Hne. split; [done|lia].
Qed.

Lemma reaches_mono hd lmax lmax' A i u : (lmax <= lmax')%nat -> reaches hd lmax A i u -> reaches hd lmax' A i u.
Proof.
  intros Hle (l1 & mid & EA & Hlow & Hh & ->). exists l1, mid. split_and!; try done.
  unfold height_of in *. destruct (last l1); [done|lia].
Qed.

(** At level 0 a search stops at the last cell it passes. *)
Lemma reaches_zero hd lmax A u : Forall (fun c => (1 <= c_h c)%nat) A -> reaches hd lmax A 0 u -> u = (loc_of hd A, zlen A).
Proof.
  intros HA (l1 & mid & -> & Hlow & _ & ->). destruct mid as [|c mid]; [by rewrite app_nil_r|].
  apply Forall_app in HA as [_ HA]. apply Forall_cons in HA as [Hc _]. apply Forall_cons in Hlow as [Hc' _]. lia.
Qed.

Lemma arrow_zero l : Forall (fun c => (1 <= c_h c)%nat) l -> forward (arrow 0 l) = c_loc <$> head l.
Proof. destruct 1 as [|c l Hc _]; [done|]. simpl. by rewrite (proj2 (Nat.ltb_lt _ _)) by lia. Qed.

Lemma low_le i k l : Forall (fun c => (1 <= c_h c <= k)%nat) l -> (k <= i)%nat -> low i l.
Proof. intros H Hk. eapply Forall_impl; [done|]. intros c ?. simpl in *. lia. Qed.

Lemma heights_pos k l : Forall (fun c => (1 <= c_h c <= k)%nat) l -> Forall (fun c => (1 <= c_h c)%nat) l.
Proof. intros H. eapply Forall_impl; [done|]. intros c ?. simpl in *. lia. Qed.

Lemma randomLevel_range draws : (1 <= randomLevel draws <= ZSkiplistMaxLevel)%nat.
Proof. unfold randomLevel, ZSkiplistMaxLevel. lia. Qed.

(** ** Insertion *)

(** The levels of an insertion: from the search to the linked node. *)
Lemma insert_levels s A B score_ member_ draws :
  let c := mkCell (fresh s) (mkEl member_ score_) (randomLevel draws) in
  let lmax := (sl_level s + (randomLevel draws - sl_level s))%nat in
  repr s (A ++ B) -> splits (before score_ member_) A B -> small (A ++ c :: B) ->
  exists us h1 h3,
    search (fuel_of s) (heap s) (before score_ member_) (sl_level s) (header s) 0 = Some us /\
    raise_loop (heap s) (header s) (length_ s) (sl_level s) (randomLevel draws - sl_level s) = Some h1 /\
    (us ++ replicate (randomLevel draws - sl_level s) (header s, 0)) !! 0%nat = Some (loc_of (header s) A, zlen A) /\
    (h2 ← link_loop (<[fresh s := newZSkiplistNode (randomLevel draws) score_ member_]> h1) (fresh s) 0 (zlen A)
            (take (randomLevel draws) (us ++ replicate (randomLevel draws - sl_level s) (header s, 0)));
     bump_loop h2 (randomLevel draws) (drop (randomLevel draws) (us ++ replicate (randomLevel draws - sl_level s) (header s, 0)))) = Some h3 /\
    links h3 (header s) lmax (A ++ c :: B) /\
    meta h3 (fresh s) = Some (member_, score_, None, randomLevel draws) /\
    (forall y, y <> fresh s -> meta h3 y = meta (heap s) y) /\
    (forall i, (lmax <= i < ZSkiplistMaxLevel)%nat -> exists sp, getlev h3 (header s) i = Some (mkLevel None sp)).
Proof.
  intros c lmax [Hlinks Hmetas Hhd Hup Hnd Hfr Hhts Hlmax Htail Hlen] Hgo Hsmall.
  set (lv := randomLevel draws) in *. set (k := (lv - sl_level s)%nat) in *.
  pose proof (randomLevel_range draws) as Hlv. fold lv in Hlv.
  assert (small (A ++ B)) as Hsm0 by (unfold small in *; rewrite !zlen_app, ?zlen_cons in *; lia).
  destruct (sk_search_spec (heap s) (header s) (sl_level s) A B (before score_ member_) Hlinks Hmetas Hsm0 Hgo
    (fuel_of s) (sl_level s) [] A) as (us & Eus & Hlus & Hus); [done|done| |].
  { unfold fuel_of. rewrite Hlen, zlen_app. unfold zlen. lia. }
  destruct (raise_loop_spec (heap s) (header s) (length_ s) (sl_level s) k) as (h1 & E1 & Hlo1 & Hl1).
  { intros j Hj. apply Hup. lia. }
  set (us' := us ++ replicate k (header s, 0)).
  assert (length us' = lmax) as Hlus' by (unfold us', lmax; rewrite length_app, length_replicate; lia).
  assert (forall i u, us' !! i = Some u -> reaches (header s) lmax A i u) as Hus'.
  { intros i u Hi. apply lookup_app_Some in Hi as [Hi|[Hge Hi]].
    - eapply reaches_mono; [|by apply Hus]. lia.
    - apply lookup_replicate in Hi as [-> Hi]. exists [], A. split_and!; [done| |unfold height_of, lmax; simpl; lia|done].
      apply Forall_app in Hhts as [HA _]. eapply low_le; [done|lia]. }
  assert (NoDup (c_loc c :: header s :: (c_loc <$> A))) as HndA.
  { apply NoDup_cons. split.
    - intros Hin. rewrite fmap_app, app_comm_cons in Hfr. apply Forall_app in Hfr as [Hfr _].
      rewrite Forall_forall in Hfr. specialize (Hfr _ Hin). simpl in Hfr. lia.
    - rewrite fmap_app, app_comm_cons in Hnd. by apply NoDup_app in Hnd as [? _]. }
  set (h2 := <[fresh s := newZSkiplistNode lv score_ member_]> h1).
  assert (forall y i, y <> fresh s -> getlev h2 y i = getlev h1 y i) as Hg2.
  { intros y i Hy. unfold getlev, h2. by rewrite lookup_insert_ne. }
  assert (midlinks h1 (header s) lmax A 0 B (c :: B)) as Hm1.
  { intros l1 mid i EA Hi. simpl. destruct l1 as [|d l1 _] using rev_ind.
    - unfold loc_of. simpl. rewrite Hl1. unfold height_of in Hi. simpl in Hi, EA. subst mid.
      destruct (decide (sl_level s <= i < sl_level s + k)%nat) as [Hr|Hr].
      + rewrite arrow_none; [by rewrite Hlen|]. eapply low_le; [done|lia].
      + apply (Hlinks [] (A ++ B)); [done|]. unfold height_of. simpl. lia.
    - rewrite loc_of_snoc, height_of_snoc in *. rewrite (proj1 Hlo1).
      + specialize (Hlinks (l1 ++ [d]) (mid ++ B) i). rewrite loc_of_snoc, height_of_snoc in Hlinks.
        apply Hlinks; [by rewrite EA, <- app_assoc|done].
      + intros E%list_elem_of_singleton. apply NoDup_cons in Hnd as [Hni _]. apply Hni. rewrite <- E, EA, !fmap_app. set_solver. }
  assert (midlinks h2 (header s) lmax A 0 B (c :: B)) as Hm2 by (by eapply midlinks_frame).
  destruct (link_loop_spec (header s) lmax A B c HndA Hsmall (take lv us') h2 0 member_ score_ None) as (h3 & E3 & Hm3 & Hlo3 & Hx3 & Ha3).
  { intros i u [Hi _]%lookup_take_Some. by apply Hus'. }
  { rewrite length_take. change (c_h c) with lv. lia. }
  { done. }
  { unfold meta, h2. simpl c_loc. rewrite lookup_insert_eq. cbn. by rewrite length_replicate. }
  { intros i Hi. lia. }
  destruct (bump_loop_spec (header s) lmax A B c HndA Hsmall (drop lv us') h3 lv) as (h4 & E4 & Hm4 & Hlo4 & Hx4 & Ha4).
  { intros i u Hi. rewrite lookup_drop in Hi. by apply Hus'. }
  { done. }
  { replace lv with (0 + length (take lv us'))%nat at 1; [done|]. rewrite length_take. lia. }
  exists us, h1, h4. split_and!; [done|done| | | | | |].
  - fold us'. destruct (us' !! 0%nat) as [u0|] eqn:E0; [|apply lookup_ge_None in E0; lia]. f_equal.
    apply (reaches_zero (header s) lmax); [|by apply Hus'].
    apply Forall_app in Hhts as [HA _]. by eapply heights_pos.
  - fold us' h2. change (c_loc c) with (fresh s) in E3. rewrite E3. exact E4.
  - apply links_app. split.
    + intros l1 mid i EA Hi. rewrite (Hm4 l1 mid i EA Hi). rewrite (proj2 (Nat.ltb_lt _ _)); [done|].
      rewrite length_drop. unfold height_of in Hi. destruct (last l1) as [d|] eqn:El; [|lia].
      apply last_Some in El as [l0 ->]. rewrite EA in Hhts. rewrite !Forall_app, Forall_singleton in Hhts. lia.
    + intros l b l2 i EB Hi. destruct l as [|c' l].
      * injection EB as <- <-. change (c_h c) with lv in Hi. rewrite Hx4. apply Hx3. rewrite length_take. lia.
      * injection EB as _ EB. subst B. assert (c_loc b ∉ c_loc c :: header s :: (c_loc <$> A)) as Hni.
        { intros [Hin|Hin]%elem_of_cons.
          - rewrite Forall_forall in Hfr. assert (c_loc b < fresh s)%nat; [|change (c_loc c) with (fresh s) in Hin; lia].
            apply Hfr. rewrite !fmap_app. set_solver.
          - rewrite fmap_app, app_comm_cons in Hnd. apply NoDup_app in Hnd as (_ & Hdis & _). apply (Hdis _ Hin).
            rewrite fmap_app. set_solver. }
        rewrite (proj1 Hlo4) by done. rewrite (proj1 Hlo3) by done. rewrite Hg2 by set_solver.
        rewrite (proj1 Hlo1) by set_solver. apply links_app in Hlinks as [_ Hlinks]. by eapply Hlinks.
  - rewrite (proj2 Hlo4), (proj2 Hlo3). unfold meta, h2. rewrite lookup_insert_eq. cbn. by rewrite length_replicate.
  - intros y Hy. rewrite (proj2 Hlo4), (proj2 Hlo3). unfold meta, h2. rewrite lookup_insert_ne by done.
    apply (proj2 Hlo1).
  - intros i Hi. rewrite Ha4, Ha3, Hg2, Hl1.
    + rewrite decide_False by (unfold lmax in Hi; lia). apply Hup. unfold lmax in Hi. lia.
    + intros E. rewrite Forall_forall in Hfr. specialize (Hfr (header s) (list_elem_of_here _ _)). simpl in Hfr. lia.
    + rewrite length_take. lia.
    + rewrite length_drop. lia.
Qed.

Lemma last_app_cons {T} (l k : list T) x : last (l ++ x :: k) = last (x :: k).
Proof. rewrite last_app. destruct (last (x :: k)) eqn:E; [done|]. by apply last_None in E. Qed.

(** The backward pointers of [A ++ c :: B], from those of [A ++ B]. *)
Lemma metas_insert h h' A B c :
  metas h (A ++ B) -> NoDup (c_loc <$> (A ++ c :: B)) ->
  meta h' (c_loc c) = Some (Member (c_el c), Score (c_el c), c_loc <$> last A, c_h c) ->
  (forall b B', B = b :: B' -> meta h' (c_loc b) = Some (Member (c_el b), Score (c_el b), Some (c_loc c), c_h b)) ->
  (forall y, y <> c_loc c -> Some y <> c_loc <$> head B -> meta h' y = meta h y) ->
  metas h' (A ++ c :: B).
Proof.
  intros Hm Hnd Hc Hb Hrest l1 d l2 E.
  assert (forall l m x, A ++ c :: B = l ++ x :: m -> x ∈ A ++ c :: B) as Hel by (intros l m x ->; set_solver).
  apply split_cases in E as [(k & -> & ->)|(k & -> & E)].
  - rewrite Hrest; [apply (Hm l1 d (k ++ B)); by rewrite <- app_assoc| |].
    + rewrite <- app_assoc, fmap_app in Hnd. apply NoDup_app in Hnd as (_ & _ & Hnd). apply NoDup_cons in Hnd as [Hnd _].
      intros Eq. apply Hnd. rewrite Eq. apply list_elem_of_fmap_2. set_solver.
    + destruct B as [|b B]; [done|]. simpl. intros [= Eq]. rewrite <- app_assoc, fmap_app in Hnd.
      apply NoDup_app in Hnd as (_ & _ & Hnd). apply NoDup_cons in Hnd as [Hnd _]. apply Hnd. rewrite Eq. apply list_elem_of_fmap_2. set_solver.
  - destruct k as [|c' k]; [injection E as <- <-; by rewrite app_nil_r|]. injection E as <- ->.
    rewrite fmap_app in Hnd. apply NoDup_app in Hnd as (_ & _ & Hnd). apply NoDup_cons in Hnd as [Hnc Hnd].
    destruct k as [|b k].
    + rewrite (Hb d l2) by done. by rewrite last_snoc.
    + rewrite Hrest.
      * rewrite (Hm (A ++ b :: k) d l2) by (by rewrite <- app_assoc). do 3 f_equal.
        by rewrite !last_app_cons.
      * intros Eq. apply Hnc. rewrite <- Eq. apply list_elem_of_fmap_2. set_solver.
      * simpl. intros [= Eq]. apply NoDup_cons in Hnd as [Hnd _]. apply Hnd. rewrite <- Eq. apply list_elem_of_fmap_2. set_solver.
Qed.

Lemma insert_repr s A B score_ member_ draws :
  let c := mkCell (fresh s) (mkEl member_ score_) (randomLevel draws) in
  repr s (A ++ B) -> splits (before score_ member_) A B -> small (A ++ c :: B) ->
  exists s', insert s score_ member_ draws = Some s' /\ repr s' (A ++ c :: B).
Proof.
  intros c Hr Hgo Hsmall. pose proof (insert_levels s A B score_ member_ draws Hr Hgo Hsmall)
    as (us & h1 & h3 & Es & Er & E0 & Elb & Hlinks & Hx & Hmeta & Hup).
  destruct Hr as [_ Hmetas Hhd _ Hnd Hfr Hhts Hlmax Htail Hlen]. pose proof (randomLevel_range draws) as Hlv.
  unfold insert. rewrite Es. cbn [mbind option_bind]. rewrite Er. cbn [mbind option_bind]. rewrite E0. cbn [mbind option_bind].
  set (lmax := (sl_level s + (randomLevel draws - sl_level s))%nat) in *.
  set (h2 := link_loop _ _ _ _ _) in *. destruct h2 as [h2|]; [|done]. cbn [mbind option_bind] in Elb |- *.
  rewrite Elb. cbn [mbind option_bind].
  assert (fresh s ∉ header s :: (c_loc <$> (A ++ B))) as Hnew.
  { intros Hin. rewrite Forall_forall in Hfr. specialize (Hfr _ Hin). simpl in Hfr. lia. }
  assert (NoDup (header s :: (c_loc <$> (A ++ c :: B)))) as Hnd'.
  { apply (NoDup_Permutation_proper (fresh s :: header s :: (c_loc <$> (A ++ B)))); [|by constructor].
    rewrite !fmap_app, fmap_cons. simpl. rewrite <- Permutation_middle. apply Permutation_swap. }
  assert ((if decide (loc_of (header s) A = header s) then None else Some (loc_of (header s) A)) = c_loc <$> last A) as ->.
  { unfold loc_of. destruct (last A) as [a|] eqn:Ea; [|by rewrite decide_True]. simpl. rewrite decide_False; [done|].
    intros E. apply NoDup_cons in Hnd as [Hni _]. apply Hni. apply last_Some in Ea as [l0 ->].
    rewrite <- E, !fmap_app. set_solver. }
  destruct (setback_spec h3 (fresh s) (c_loc <$> last A) _ _ _ _ Hx) as (h4 & -> & Hg4 & Hm4). cbn [mbind option_bind].
  assert (getlev h4 (fresh s) 0 = Some (arrow 0 B)) as ->.
  { rewrite Hg4. specialize (Hlinks (A ++ [c]) B 0%nat). rewrite loc_of_snoc, height_of_snoc in Hlinks.
    apply Hlinks; [by rewrite <- app_assoc|]. simpl. lia. }
  cbn [mbind option_bind]. assert (Forall (fun c => (1 <= c_h c <= lmax)%nat) (A ++ c :: B)) as Hhts'.
  { apply Forall_app in Hhts as [HA HB]. apply Forall_app. split; [|constructor]; try (eapply Forall_impl; [done|]; simpl; intros; lia).
    simpl. lia. }
  apply Forall_app in Hhts as [HA HB]. rewrite (arrow_zero B) by (by eapply heights_pos).
  assert (exists h5, (match c_loc <$> head B with
      | Some y => h ← setback h4 y (Some (fresh s)); Some (h, tail s)
      | None => Some (h4, Some (fresh s)) end) = Some (h5, c_loc <$> last (A ++ c :: B)) /\
      (forall y i, getlev h5 y i = getlev h4 y i) /\ metas h5 (A ++ c :: B) /\
      meta h5 (header s) = meta h4 (header s)) as (h5 & -> & Hg5 & Hm5 & Hhd5).
  { destruct B as [|b B]; simpl.
    - exists h4. split_and!; [by rewrite last_snoc|done| |done].
      apply (metas_insert (heap s)); [by rewrite app_nil_r in *|by apply NoDup_cons in Hnd' as [_ ?]| |done|].
      + rewrite Hm4. by rewrite decide_True.
      + intros y Hy _. rewrite Hm4, decide_False by done. by apply Hmeta.
    - assert (c_loc b <> fresh s) as Hbx by (intros E; apply Hnew; rewrite <- E, fmap_app; set_solver).
      destruct (setback_spec h4 (c_loc b) (Some (fresh s)) (Member (c_el b)) (Score (c_el b)) (c_loc <$> last A) (c_h b))
        as (h5 & -> & Hg5 & Hm5).
      { rewrite Hm4, decide_False by done. rewrite Hmeta by done. by apply (Hmetas A b B). }
      exists h5. cbn [mbind option_bind]. split_and!; [| done| |].
      + rewrite Htail. by rewrite !last_app_cons.
      + apply (metas_insert (heap s)); [done|by apply NoDup_cons in Hnd' as [_ ?]| | |].
        * rewrite Hm5, decide_False by (simpl; congruence). by rewrite Hm4, decide_True.
        * intros b' B' [= <- <-]. by rewrite Hm5, decide_True.
        * simpl. intros y Hy Hy'. rewrite Hm5, decide_False by congruence. rewrite Hm4, decide_False by done. by apply Hmeta.
      + rewrite Hm5, decide_False; [done|]. intros E. apply NoDup_cons in Hnd as [Hni _]. apply Hni. rewrite E, fmap_app. set_solver. }
  eexists. split; [done|]. split; simpl.
  - intros l1 l2 i El Hi. rewrite Hg5, Hg4. by apply Hlinks.
  - done.
  - rewrite Hhd5, Hm4, decide_False by set_solver. rewrite Hmeta by set_solver. done.
  - intros i Hi. rewrite Hg5, Hg4. by apply Hup.
  - done.
  - apply Forall_cons in Hfr as [Hf1 Hf2]. rewrite fmap_app in Hf2 |- *. apply Forall_app in Hf2 as [Hf2 Hf3].
    constructor; [lia|]. apply Forall_app. split; [|constructor; [simpl; lia|]];
      (eapply Forall_impl; [eassumption|]; simpl; intros; lia).
  - done.
  - unfold lmax. lia.
  - done.
  - unfold small in Hsmall. rewrite Hlen, !zlen_app, zlen_cons in *. zlen_pose. rewrite add64_small by lia. lia.
Qed.

(** ** Deletion *)

Lemma arrow_forward_none i l : forward (arrow i l) = None -> low i l.
Proof.
  induction l as [|c l IH]; intros E; [by apply Forall_nil|]. simpl in E.
  destruct (Nat.ltb_spec i (c_h c)); simpl in E; [done|]. apply Forall_cons. split; [done|by apply IH].
Qed.

Lemma lower_level_SS h hd n :
  lower_level h hd (S (S n)) =
    (lv ← getlev h hd (S n); match forward lv with None => lower_level h hd (S n) | Some _ => Some (S (S n)) end).
Proof. done. Qed.

Lemma lower_level_spec h hd n cs :
  (1 <= n)%nat -> (forall i, (i < n)%nat -> getlev h hd i = Some (arrow i cs)) ->
  exists m, lower_level h hd n = Some m /\ (1 <= m <= n)%nat /\ forall i, (m <= i < n)%nat -> low i cs.
Proof.
  induction n as [|[|n] IH]; intros Hn Hl; [lia|exists 1%nat; split_and!; [done|lia|lia|intros; lia]|].
  rewrite lower_level_SS, (Hl (S n)) by lia. cbn [mbind option_bind].
  destruct (forward (arrow (S n) cs)) as [y|] eqn:E; [exists (S (S n)); split_and!; [done|lia|lia|intros; lia]|].
  destruct IH as (m & E' & Hm & Hlow); [lia|intros; apply Hl; lia|]. exists m. split_and!; [done|lia|lia|].
  intros i Hi. destruct (decide (i = S n)) as [->|]; [by apply arrow_forward_none|apply Hlow; lia].
Qed.

(** The backward pointers of [A ++ B], from those of [A ++ c :: B]. *)
Lemma metas_delete h h' A B c :
  metas h (A ++ c :: B) -> NoDup (c_loc <$> (A ++ c :: B)) ->
  (forall b B', B = b :: B' -> meta h' (c_loc b) = Some (Member (c_el b), Score (c_el b), c_loc <$> last A, c_h b)) ->
  (forall y, y <> c_loc c -> Some y <> c_loc <$> head B -> meta h' y = meta h y) ->
  metas h' (A ++ B).
Proof.
  intros Hm Hnd Hb Hrest l1 d l2 E. rewrite fmap_app in Hnd. pose proof Hnd as (_ & Hdis & HndB)%NoDup_app.
  apply NoDup_cons in HndB as [Hnc HndB].
  apply split_cases in E as [(k & -> & ->)|(k & -> & E)].
  - assert (c_loc d ∉ c_loc <$> (c :: B)) as Hd by (apply Hdis, list_elem_of_fmap_2; set_solver).
    rewrite Hrest; [apply (Hm l1 d (k ++ c :: B)); by rewrite <- app_assoc|set_solver|].
    destruct B as [|b B]; [done|]. simpl. intros [= Eq]. apply Hd. rewrite Eq. set_solver.
  - subst B. destruct k as [|b k].
    + rewrite (Hb d l2) by done. by rewrite app_nil_r.
    + rewrite Hrest.
      * rewrite (Hm (A ++ c :: b :: k) d l2) by (by rewrite <- app_assoc). do 3 f_equal. by rewrite !last_app_cons.
      * intros Eq. apply Hnc. rewrite <- Eq. apply list_elem_of_fmap_2. set_solver.
      * simpl. intros [= Eq]. apply NoDup_cons in HndB as [HndB _]. apply HndB. rewrite <- Eq. apply list_elem_of_fmap_2. set_solver.
Qed.

Lemma deleteNode_repr s A B c us :
  repr s (A ++ c :: B) -> small (A ++ c :: B) -> length us = sl_level s ->
  (forall i u, us !! i = Some u -> reaches (header s) (sl_level s) A i u) ->
  exists s', deleteNode s (c_loc c) us = Some s' /\ repr s' (A ++ B).
Proof.
  intros [Hlinks Hmetas Hhd Hup Hnd Hfr Hhts Hlmax Htail Hlen] Hsmall Hlus Hus. unfold deleteNode.
  pose proof Hnd as [HhdN HndC]%NoDup_cons. pose proof HndC as HndC'. rewrite fmap_app in HndC'.
  apply NoDup_app in HndC' as (HndA & Hdis & HndB). apply NoDup_cons in HndB as [Hnc HndB].
  assert (NoDup (c_loc c :: header s :: (c_loc <$> A))) as Hown.
  { constructor; [|constructor; [|done]].
    - intros [E|Hin]%elem_of_cons; [apply HhdN; rewrite <- E, fmap_app; set_solver|]. apply (Hdis _ Hin). set_solver.
    - intros Hin. apply HhdN. rewrite fmap_app. set_solver. }
  apply links_app in Hlinks as [HlA HlB].
  destruct (unlink_loop_spec (header s) (sl_level s) A B c Hown Hsmall us (heap s) 0) as (h1 & -> & Hm1 & Hlo1 & Hx1 & Ha1).
  { done. } { done. }
  { intros l1 mid i EA Hi. simpl. by apply HlA. }
  { intros i Hi. by apply (HlB [] c B). }
  rewrite Hlus in *. cbn [mbind option_bind].
  assert (links h1 (header s) (sl_level s) (A ++ B)) as Hlinks1.
  { apply links_app. split.
    - intros l1 mid i EA Hi. rewrite (Hm1 l1 mid i EA Hi), (proj2 (Nat.ltb_lt _ _)); [done|]. simpl.
      unfold height_of in Hi. destruct (last l1) as [d|] eqn:El; [|lia].
      apply last_Some in El as [l0 ->]. rewrite EA in Hhts. rewrite !Forall_app, Forall_singleton in Hhts. lia.
    - intros l b l2 i EB Hi. rewrite (proj1 Hlo1); [apply (HlB (c :: l)); [by rewrite EB|done]|].
      assert (c_loc b ∈ c_loc <$> B) as Hin by (rewrite EB; apply list_elem_of_fmap_2; set_solver).
      intros [E|[E|Hin']%elem_of_cons]%elem_of_cons.
      + apply Hnc. by rewrite <- E.
      + apply HhdN. rewrite <- E, fmap_app. set_solver.
      + apply (Hdis _ Hin'). set_solver. }
  pose proof (Hmetas A c B eq_refl) as Hmc. rewrite <- (proj2 Hlo1) in Hmc.
  assert (getlev h1 (c_loc c) 0 = Some (arrow 0 B)) as Hlev0.
  { rewrite Hx1. apply (HlB [] c B); [done|]. rewrite Forall_app, Forall_cons in Hhts. lia. }
  unfold meta, getlev in Hmc, Hlev0. destruct (h1 !! c_loc c) as [n|] eqn:En; [|done]. cbn in Hmc, Hlev0.
  injection Hmc as _ _ Hback _. cbn [mbind option_bind]. rewrite Hlev0. cbn [mbind option_bind].
  assert (Forall (fun c => (1 <= c_h c <= sl_level s)%nat) (A ++ B)) as HhAB.
  { rewrite Forall_app, Forall_cons in Hhts. apply Forall_app. tauto. }
  rewrite (arrow_zero B), Hback by (apply Forall_app in HhAB as [_ ?]; by eapply heights_pos).
  assert (exists h2, (match c_loc <$> head B with
      | Some y => h ← setback h1 y (c_loc <$> last A); Some (h, tail s)
      | None => Some (h1, c_loc <$> last A) end) = Some (h2, c_loc <$> last (A ++ B)) /\
      (forall y i, getlev h2 y i = getlev h1 y i) /\ metas h2 (A ++ B) /\
      meta h2 (header s) = meta h1 (header s)) as (h2 & -> & Hg2 & Hm2 & Hhd2).
  { destruct B as [|b B]; simpl.
    - exists h1. split_and!; [by rewrite app_nil_r|done| |done].
      apply (metas_delete (heap s) _ _ _ c); [done|done|done|]. intros y _ _. apply Hlo1.
    - destruct (setback_spec h1 (c_loc b) (c_loc <$> last A) (Member (c_el b)) (Score (c_el b)) (Some (c_loc c)) (c_h b))
        as (h2 & -> & Hg2 & Hm2).
      { rewrite (proj2 Hlo1), (Hmetas (A ++ [c]) b B) by (by rewrite <- app_assoc). by rewrite last_snoc. }
      exists h2. cbn [mbind option_bind]. split_and!; [by rewrite Htail, !last_app_cons|done| |].
      + apply (metas_delete (heap s) _ _ _ c); [done|done| |].
        * intros b' B' [= <- <-]. by rewrite Hm2, decide_True.
        * simpl. intros y Hy Hy'. rewrite Hm2, decide_False by congruence. apply Hlo1.
      + rewrite Hm2, decide_False; [done|]. intros E. apply HhdN. rewrite E, fmap_app. set_solver. }
  cbn [mbind option_bind].
  destruct (lower_level_spec h2 (header s) (sl_level s) (A ++ B)) as (m & -> & Hm & Hlow); [lia| |].
  { intros i Hi. rewrite Hg2. by apply (Hlinks1 []). }
  cbn [mbind option_bind]. eexists. split; [done|]. split; simpl.
  - intros l1 l2 i El Hi. rewrite Hg2. apply Hlinks1; [done|]. unfold height_of in *. destruct (last l1); [done|lia].
  - done.
  - by rewrite Hhd2, (proj2 Hlo1).
  - intros i Hi. rewrite Hg2. destruct (decide (i < sl_level s)%nat) as [Hlt|Hge].
    + exists (zlen (A ++ B)). rewrite <- (arrow_none i) by (apply Hlow; lia). by apply (Hlinks1 []).
    + rewrite Ha1 by lia. apply Hup. lia.
  - constructor; [intros Hin; apply HhdN|]; rewrite ?fmap_app in *; [set_solver|]. apply NoDup_app. split_and!; [done|set_solver|done].
  - rewrite Forall_forall in Hfr |- *. intros y Hy. apply Hfr. rewrite fmap_app in Hy |- *. set_solver.
  - apply Forall_forall. intros d Hd. rewrite Forall_forall in HhAB. specialize (HhAB d Hd). simpl in HhAB.
    split; [lia|]. destruct (decide (m = sl_level s)) as [->|Hne]; [lia|].
    assert (low m (A ++ B)) as Hl by (apply Hlow; lia). unfold low in Hl. rewrite Forall_forall in Hl. by apply Hl.
  - lia.
  - done.
  - unfold small in Hsmall. rewrite Hlen, !zlen_app, zlen_cons in *. zlen_pose. rewrite sub64_small by lia. lia.
Qed.

Lemma delete_repr s A B c score_ member_ :
  repr s (A ++ c :: B) -> small (A ++ c :: B) -> splits (before score_ member_) A (c :: B) ->
  feq (Score (c_el c)) score_ = true -> Member (c_el c) = member_ ->
  exists s', delete_ s score_ member_ = Some (true, s') /\ repr s' (A ++ B).
Proof.
  intros Hr Hsmall Hgo Hsc Hmem. pose proof Hr as [Hlinks Hmetas _ _ _ _ Hhts Hlmax _ Hlen]. unfold delete_.
  destruct (sk_search_spec (heap s) (header s) (sl_level s) A (c :: B) (before score_ member_) Hlinks Hmetas Hsmall Hgo
    (fuel_of s) (sl_level s) [] A) as (us & Eus & Hlus & Hus); [done|done| |].
  { unfold fuel_of. rewrite Hlen, zlen_app. unfold zlen. lia. }
  change (loc_of (header s) []) with (header s) in Eus. change (zlen (@nil cell)) with 0 in Eus.
  rewrite Eus. cbn [mbind option_bind].
  destruct (us !! 0%nat) as [u0|] eqn:E0; [|apply lookup_ge_None in E0; lia].
  rewrite Forall_app, Forall_cons in Hhts.
  assert (u0 = (loc_of (header s) A, zlen A)) as ->.
  { apply (reaches_zero (header s) (sl_level s)); [|by apply Hus]. by eapply heights_pos, Hhts. }
  cbn [mbind option_bind]. rewrite (Hlinks A (c :: B) 0%nat eq_refl); cycle 1.
  { unfold height_of. destruct (last A) as [d|] eqn:El; [|lia]. apply last_Some in El as [l0 ->].
    rewrite Forall_app, Forall_singleton in Hhts. lia. }
  cbn [mbind option_bind arrow]. rewrite (proj2 (Nat.ltb_lt _ _)) by lia. cbn [forward].
  destruct (node_at (heap s) A (c :: B) Hmetas A c B eq_refl) as (n & -> & Hn1 & Hn2). cbn [mbind option_bind].
  rewrite Hn2, Hsc, Hn1, bool_decide_true by done. cbn [andb].
  destruct (deleteNode_repr s A B c us Hr Hsmall Hlus Hus) as (s' & -> & ?). eauto.
Qed.
