(* ===== verification/SortedSet.v ===== *)
(** * Sorted sets

    The operations of [ZSet] ([Skiplist]) implement a list of elements sorted by score and member:
    [zset_history].  [empty_member_has_no_rank] is the exception that the header node makes. *)

From S2P Require Import Prelude Skiplist SkiplistSpec.

Local Open Scope Z_scope.

#[export] Instance ZSetElement_eq_dec : EqDecision ZSetElement.
Proof. solve_decision. Defined.

#[export] Instance elem_lt_dec e f : Decision (elem_lt e f).
Proof. unfold elem_lt. apply _. Defined.

(** ** The reference *)

Definition z_score (l : list ZSetElement) (m : bytes) : option Z :=
  (fun p => Score p.2) <$> list_find (fun e => Member e = m) l.

Definition z_remove (m : bytes) (l : list ZSetElement) : list ZSetElement := filter (fun e => Member e <> m) l.

Definition z_insert (e : ZSetElement) (l : list ZSetElement) : list ZSetElement :=
  filter (fun f => elem_lt f e) l ++ e :: filter (fun f => ~ elem_lt f e) l.

Definition z_add (l : list ZSetElement) (m : bytes) (s : Z) : bool * bool * list ZSetElement :=
  match z_score l m with
  | Some cur => if feq cur s then (false, false, l) else (false, true, z_insert (mkEl m s) (z_remove m l))
  | None => (true, false, z_insert (mkEl m s) l)
  end.

Definition z_rank (l : list ZSetElement) (m : bytes) (reverse : bool) : option Z :=
  (fun p => if reverse : bool then zlen l - 1 - Z.of_nat p.1 else Z.of_nat p.1) <$> list_find (fun e => Member e = m) l.

(** Indices count from the end when negative, and are cut to the list. *)
Definition z_range (l : list ZSetElement) (start stop : Z) (reverse : bool) : list ZSetElement :=
  let len := zlen l in
  let start := Z.max 0 (if start <? 0 then len + start else start) in
  let stop := Z.min (len - 1) (if stop <? 0 then len + stop else stop) in
  if stop <? start then []
  else take (Z.to_nat (stop - start + 1)) (drop (Z.to_nat start) (if reverse : bool then rev l else l)).

(** ** The invariant *)

Record zs_ok (z : ZSet) (l : list ZSetElement) : Prop := {
  zs_repr : exists cs, repr (sl z) cs /\ c_el <$> cs = l;
  zs_sorted : StronglySorted elem_lt l;
  zs_numbers : Forall (fun e => number (Score e)) l;
  zs_members : NoDup (Member <$> l);
  zs_dict : forall m s, dict z !! m = Some s <-> mkEl m s ∈ l
}.

(** ** Splitting a sorted list *)

Lemma zsorted_split cs e :
  StronglySorted elem_lt (c_el <$> cs) ->
  exists A B, cs = A ++ B /\ Forall (fun c => elem_lt (c_el c) e) A /\ Forall (fun c => ~ elem_lt (c_el c) e) B.
Proof.
  induction cs as [|c cs IH]; [by exists [], []|]. rewrite fmap_cons. intros [Hc Hs]%StronglySorted_cons.
  destruct (decide (elem_lt (c_el c) e)) as [Hlt|Hge].
  - destruct (IH Hs) as (A & B & -> & HA & HB). exists (c :: A), B. split_and!; [done|by constructor|done].
  - exists [], (c :: cs). split_and!; [done|constructor|]. constructor; [done|]. rewrite Forall_fmap in Hc.
    eapply Forall_impl; [exact Hc|]. intros d Hd Hlt. apply Hge. simpl in Hd. by etrans.
Qed.

Lemma before_true n c e :
  node_of n c -> number (Score (c_el c)) -> number (Score e) -> forall r,
  before (Score e) (Member e) n r = true <-> elem_lt (c_el c) e.
Proof.
  intros [Hm Hs] H1 H2 r. unfold before, elem_lt. rewrite Hm, Hs, flt_number, feq_number by done.
  by rewrite orb_true_iff, andb_true_iff, Z.ltb_lt, Z.eqb_eq.
Qed.

Lemma not_after_true n c e :
  node_of n c -> number (Score (c_el c)) -> number (Score e) -> forall r,
  not_after (Score e) (Member e) n r = true <-> ~ elem_lt e (c_el c).
Proof.
  intros [Hm Hs] H1 H2 r. unfold not_after, elem_lt. rewrite Hm, Hs, flt_number, feq_number by done.
  rewrite orb_true_iff, andb_true_iff, Z.ltb_lt, Z.eqb_eq, negb_true_iff, <- not_true_iff_false.
  destruct (bytes_lt _ _); intuition (try discriminate; lia).
Qed.

Lemma splits_intro go A B (P : cell -> Prop) :
  (forall c, c ∈ A ++ B -> forall n r, node_of n c -> go n r = true <-> P c) ->
  Forall P A -> Forall (fun c => ~ P c) B -> splits go A B.
Proof.
  intros Hgo HA HB. rewrite Forall_forall in HA, HB. split; intros l1 c l2 n E Hn.
  - apply (Hgo c); [rewrite E; set_solver|done|apply HA; rewrite E; set_solver].
  - apply not_true_iff_false. rewrite (Hgo c); [apply HB; rewrite E; set_solver|rewrite E; set_solver|done].
Qed.

Lemma before_splits A B e :
  Forall (fun e => number (Score e)) (c_el <$> (A ++ B)) -> number (Score e) ->
  Forall (fun c => elem_lt (c_el c) e) A -> Forall (fun c => ~ elem_lt (c_el c) e) B ->
  splits (before (Score e) (Member e)) A B.
Proof.
  intros Hnum He. apply splits_intro. intros c Hc n r Hn. apply before_true; [done| |done].
  rewrite Forall_fmap, Forall_forall in Hnum. by apply Hnum.
Qed.

Lemma z_insert_split A B e :
  Forall (fun c => elem_lt (c_el c) e) A -> Forall (fun c => ~ elem_lt (c_el c) e) B ->
  z_insert e (c_el <$> (A ++ B)) = (c_el <$> A) ++ e :: (c_el <$> B).
Proof.
  intros HA HB. unfold z_insert. rewrite fmap_app, !filter_app.
  assert (filter (fun f => elem_lt f e) (c_el <$> A) = c_el <$> A /\ filter (fun f => ~ elem_lt f e) (c_el <$> A) = []) as [-> ->].
  { clear HB. induction HA as [|c A Hc _ [IH1 IH2]]; [done|]. rewrite fmap_cons, !filter_cons.
    rewrite decide_True, decide_False, IH1, IH2 by tauto. done. }
  assert (filter (fun f => elem_lt f e) (c_el <$> B) = [] /\ filter (fun f => ~ elem_lt f e) (c_el <$> B) = c_el <$> B) as [-> ->].
  { clear HA. induction HB as [|c B Hc _ [IH1 IH2]]; [done|]. rewrite fmap_cons, !filter_cons.
    rewrite decide_False, decide_True, IH1, IH2 by tauto. done. }
  by rewrite app_nil_r.
Qed.

(** ** The dictionary and the list *)

Lemma el_eta e : e = mkEl (Member e) (Score e).
Proof. by destruct e. Qed.

Lemma member_unique l e f : NoDup (Member <$> l) -> e ∈ l -> f ∈ l -> Member e = Member f -> e = f.
Proof.
  intros Hnd [i Hi]%list_elem_of_lookup [j Hj]%list_elem_of_lookup E.
  assert (i = j) as ->; [|congruence]. apply (NoDup_lookup (Member <$> l) i j (Member e)); [done|..].
  - by rewrite list_lookup_fmap, Hi.
  - by rewrite list_lookup_fmap, Hj, E.
Qed.

Lemma z_score_dict z l m : zs_ok z l -> z_score l m = dict z !! m.
Proof.
  intros [_ _ _ Hnd Hd]. unfold z_score. destruct (list_find _ l) as [[i e]|] eqn:E; simpl.
  - apply list_find_Some in E as (Hi & <- & _). symmetry. apply Hd. rewrite <- el_eta. by eapply list_elem_of_lookup_2.
  - symmetry. destruct (dict z !! m) as [s|] eqn:Hs; [|done]. apply Hd in Hs. apply list_find_None in E.
    rewrite Forall_forall in E. by apply E in Hs.
Qed.

(** A member's position. *)
Lemma member_split l m s :
  mkEl m s ∈ l -> NoDup (Member <$> l) -> exists l1 l2, l = l1 ++ mkEl m s :: l2 /\
    Forall (fun e => Member e <> m) l1 /\ Forall (fun e => Member e <> m) l2.
Proof.
  intros (l1 & l2 & ->)%list_elem_of_split Hnd. exists l1, l2. split; [done|].
  rewrite fmap_app, fmap_cons in Hnd. apply NoDup_app in Hnd as (_ & Hdis & Hnd). apply NoDup_cons in Hnd as [Hn _].
  split; apply Forall_forall; intros e He E.
  - apply (Hdis (Member e)); [by apply list_elem_of_fmap_2|]. rewrite E. apply list_elem_of_here.
  - apply Hn. simpl. rewrite <- E. by apply list_elem_of_fmap_2.
Qed.

Lemma z_remove_split l1 l2 m s :
  Forall (fun e => Member e <> m) l1 -> Forall (fun e => Member e <> m) l2 -> z_remove m (l1 ++ mkEl m s :: l2) = l1 ++ l2.
Proof.
  intros H1 H2. unfold z_remove. rewrite filter_app, filter_cons_False by (simpl; tauto).
  assert (forall l, Forall (fun e => Member e <> m) l -> filter (fun e => Member e <> m) l = l) as Hall.
  { induction 1 as [|e l He _ IH]; [done|]. by rewrite filter_cons_True, IH. }
  by rewrite !Hall.
Qed.

(** Cells of a member that the dictionary knows. *)
Lemma cell_split z l cs m s :
  zs_ok z l -> c_el <$> cs = l -> dict z !! m = Some s ->
  exists A c B, cs = A ++ c :: B /\ c_el c = mkEl m s /\
    Forall (fun e => Member e <> m) (c_el <$> A) /\ Forall (fun e => Member e <> m) (c_el <$> B) /\
    Forall (fun d => elem_lt (c_el d) (mkEl m s)) A /\ Forall (fun d => elem_lt (mkEl m s) (c_el d)) B.
Proof.
  intros [_ Hs _ Hnd Hd] Hcs Hm. apply Hd in Hm. destruct (member_split l m s Hm Hnd) as (l1 & l2 & El & H1 & H2).
  rewrite El in Hcs. apply fmap_app_inv in Hcs as (A & B' & E1 & E2 & ->).
  symmetry in E2. destruct B' as [|c B]; [done|]. rewrite fmap_cons in E2. injection E2 as Ec E2. subst l2. subst l1.
  exists A, c, B. rewrite El in Hs. apply StronglySorted_app in Hs as (Hlt & _ & Hs). apply StronglySorted_cons in Hs as [Hgt _].
  split_and!; try done.
  - apply Forall_forall. intros d Hd'. apply Hlt; [by apply list_elem_of_fmap_2|apply list_elem_of_here].
  - by rewrite Forall_fmap in Hgt.
Qed.

Lemma elem_lt_asym e f : elem_lt e f -> ~ elem_lt f e.
Proof. intros H1 H2. apply (elem_lt_irrefl e). by etrans. Qed.

(** Adding an element of a new member to the list. *)
Lemma insert_ok z l m s draws :
  zs_ok z l -> (forall e, e ∈ l -> Member e <> m) -> number s -> zlen l + 1 < 2 ^ 63 - 1 ->
  exists s', insert (sl z) s m draws = Some s' /\
    zs_ok (mkZSet (<[m := s]> (dict z)) s') (z_insert (mkEl m s) l).
Proof.
  intros [(cs & Hr & Hcs) Hs Hnum Hnd Hd] Hnew Hs_num Hsz. subst l.
  destruct (zsorted_split cs (mkEl m s) Hs) as (A & B & -> & HA & HB).
  set (c := mkCell (fresh (sl z)) (mkEl m s) (randomLevel draws)).
  destruct (insert_repr (sl z) A B s m draws Hr) as (s' & E & Hr').
  { by apply (before_splits A B (mkEl m s)). }
  { unfold small. rewrite zlen_map in Hsz. rewrite !zlen_app, zlen_cons in *. lia. }
  exists s'. split; [done|]. rewrite z_insert_split by done.
  assert (Forall (fun d => elem_lt (mkEl m s) (c_el d)) B) as HB'.
  { apply Forall_forall. intros d Hd'. rewrite Forall_forall in HB. destruct (elem_lt_total (mkEl m s) (c_el d)) as [H|[H|[_ H]]];
      [done|by apply HB in H|]. exfalso. apply (Hnew (c_el d)); [|by rewrite <- H]. apply list_elem_of_fmap_2. set_solver. }
  rewrite fmap_app in *. split; cbn [dict sl].
  - exists (A ++ c :: B). split; [done|]. by rewrite fmap_app, fmap_cons.
  - apply StronglySorted_app in Hs as (H1 & H2 & H3). apply StronglySorted_app_2; [|done|constructor; [done|by apply Forall_fmap]].
    intros e f He [->|Hf]%elem_of_cons; [|by apply H1]. apply list_elem_of_fmap in He as (d & -> & Hd').
    rewrite Forall_forall in HA. by apply HA.
  - apply Forall_app in Hnum as [H1 H2]. apply Forall_app. split; [done|]. by constructor.
  - rewrite fmap_app, fmap_cons in *. apply (NoDup_Permutation_proper (m :: (Member <$> (c_el <$> A)) ++ (Member <$> (c_el <$> B))));
      [by rewrite <- Permutation_middle|]. constructor; [|done].
    intros Hin. rewrite <- fmap_app in Hin. apply list_elem_of_fmap in Hin as (e & -> & He). by apply (Hnew e).
  - intros m' s0. destruct (decide (m' = m)) as [->|Hne].
    + rewrite lookup_insert_eq. split; [intros [= ->]; set_solver|]. intros [Hin|[[= ->]|Hin]%elem_of_cons]%elem_of_app; [|done|];
        exfalso; by apply (Hnew (mkEl m s0)); [set_solver|].
    + rewrite lookup_insert_ne by done. rewrite Hd. split; [set_solver|]. rewrite !elem_of_app, elem_of_cons. intros [?|[[= -> _]|?]]; tauto.
Qed.

(** Removing a member. *)
Lemma delete_ok z l m s :
  zs_ok z l -> dict z !! m = Some s -> zlen l < 2 ^ 63 - 1 ->
  exists s', delete_ (sl z) s m = Some (true, s') /\ zs_ok (mkZSet (delete m (dict z)) s') (z_remove m l) /\
    z_remove m l ⊆ l /\ forall e, e ∈ z_remove m l -> Member e <> m.
Proof.
  intros Hok Hm Hsz. pose proof Hok as [(cs & Hr & Hcs) Hs Hnum Hnd Hd].
  destruct (cell_split z l cs m s Hok Hcs Hm) as (A & c & B & -> & Hc & H1 & H2 & HA & HB). subst l.
  rewrite fmap_app, fmap_cons, Hc in *. rewrite z_remove_split by done.
  apply Forall_app in Hnum as [N1 N2]. apply Forall_cons in N2 as [N N2]. simpl in N.
  destruct (delete_repr (sl z) A B c s m Hr) as (s' & E & Hr').
  { unfold small. rewrite zlen_app, zlen_cons, !zlen_map in Hsz. rewrite zlen_app, zlen_cons. lia. }
  { apply (before_splits A (c :: B) (mkEl m s)).
    - rewrite fmap_app, fmap_cons, Hc. apply Forall_app. split; [done|by constructor].
    - done.
    - done.
    - constructor; [rewrite Hc; apply elem_lt_irrefl|]. eapply Forall_impl; [exact HB|]. intros d Hd'. by apply elem_lt_asym. }
  { rewrite Hc, feq_number by done. apply Z.eqb_refl. }
  { by rewrite Hc. }
  exists s'. split; [done|]. split_and!.
  - split; cbn [dict sl].
    + exists (A ++ B). by rewrite fmap_app.
    + apply StronglySorted_app in Hs as (G1 & G2 & G3). apply StronglySorted_cons in G3 as [_ G3].
      apply StronglySorted_app_2; [|done|done]. intros e f He Hf. apply G1; [done|]. by apply list_elem_of_further.
    + by apply Forall_app.
    + rewrite fmap_app in *. rewrite fmap_cons in Hnd. apply NoDup_app in Hnd as (G1 & G2 & G3). apply NoDup_cons in G3 as [_ G3].
      apply NoDup_app. split_and!; [done|set_solver|done].
    + intros m' s0. rewrite Forall_forall in H1, H2. destruct (decide (m' = m)) as [->|Hne].
      * rewrite lookup_delete_eq. split; [done|]. intros [Hin|Hin]%elem_of_app; [by apply H1 in Hin|by apply H2 in Hin].
      * rewrite lookup_delete_ne by done. rewrite Hd, !elem_of_app, elem_of_cons.
        split; [intros [?|[[= -> _]|?]]; tauto|tauto].
  - intros e. rewrite !elem_of_app, elem_of_cons. tauto.
  - intros e He. rewrite Forall_forall in H1, H2. apply elem_of_app in He as [?|?]; [by apply H1|by apply H2].
Qed.

(** ** Ranks *)

Lemma list_find_split {T} (P : T -> Prop) `{forall x, Decision (P x)} (l1 l2 : list T) x :
  Forall (fun y => ~ P y) l1 -> P x -> list_find P (l1 ++ x :: l2) = Some (length l1, x).
Proof.
  intros H1 Hx. apply list_find_Some. split_and!; [by rewrite list_lookup_middle|done|].
  intros j y Hj Hlt. rewrite lookup_app_l in Hj by done. rewrite Forall_lookup in H1. by eapply H1.
Qed.

(** Climbing down the levels of [A ++ [c]], which a rank search passes, until its node is met. *)
Lemma rank_loop_spec h hd lmax A c B s m fuel n l1 mid :
  links h hd lmax ((A ++ [c]) ++ B) -> metas h ((A ++ [c]) ++ B) -> small ((A ++ [c]) ++ B) ->
  splits (not_after s m) (A ++ [c]) B -> (exists n, h !! hd = Some n /\ member n <> m) ->
  Forall (fun d => (1 <= c_h d)%nat) (A ++ [c]) ->
  Member (c_el c) = m -> Forall (fun d => Member (c_el d) <> m) A ->
  A ++ [c] = l1 ++ mid -> (1 <= n <= height_of lmax l1)%nat -> (length (A ++ [c]) < fuel)%nat ->
  rank_loop fuel h s m n (loc_of hd l1) (zlen l1) = Some (zlen A + 1).
Proof.
  intros Hl Hm Hsm Hgo Hhd Hpos Hc HA. revert l1 mid. induction n as [|n IH]; intros l1 mid E Hn Hf; [lia|]. cbn [rank_loop].
  destruct (walk_spec h hd lmax (A ++ [c]) B (not_after s m) Hl Hm Hsm Hgo fuel n l1 mid) as (l1' & mid' & E' & Hlow & Hh & ->);
    [done|lia|rewrite E, length_app in Hf; lia|]. cbn [mbind option_bind].
  destruct mid' as [|d mid' _] using rev_ind.
  - rewrite app_nil_r in E'. subst l1'. rewrite loc_of_snoc.
    destruct (node_at h (A ++ [c]) B Hm A c B) as (nd & -> & Hnd & _); [by rewrite <- app_assoc|]. cbn [mbind option_bind].
    rewrite bool_decide_true by congruence. by rewrite zlen_app, zlen_cons, zlen_nil.
  - rewrite app_assoc in E'. apply app_inj_tail in E' as [EA <-].
    assert (exists nd, h !! loc_of hd l1' = Some nd /\ member nd <> m) as (nd & -> & Hnd).
    { destruct l1' as [|e l1' _] using rev_ind; [done|]. rewrite loc_of_snoc.
      destruct (node_at h (A ++ [c]) B Hm l1' e (mid' ++ [c] ++ B)) as (nd & -> & Hnd & _).
      { by rewrite EA, <- !app_assoc. }
      exists nd. split; [done|]. rewrite Hnd. rewrite EA, !Forall_app, Forall_singleton in HA. tauto. }
    cbn [mbind option_bind]. rewrite bool_decide_false by done.
    destruct n as [|n].
    + exfalso. rewrite Forall_app, Forall_singleton in Hpos. apply Forall_app in Hlow as [_ Hlow].
      rewrite Forall_singleton in Hlow. lia.
    + apply (IH l1' (mid' ++ [c])); [by rewrite EA, <- app_assoc|lia|done].
Qed.

Lemma header_node s cs : repr s cs -> exists n, heap s !! header s = Some n /\ member n = [].
Proof.
  intros [_ _ Hhd _ _ _ _ _ _ _]. unfold meta in Hhd. destruct (heap s !! header s) as [n|]; [|done].
  cbn in Hhd. injection Hhd as ? _ _ _. by exists n.
Qed.

Lemma Rank_ok z l m reverse :
  zs_ok z l -> m <> [] -> zlen l < 2 ^ 63 - 1 -> Rank z m reverse = Some (z_rank l m reverse).
Proof.
  intros Hok Hm Hsz. unfold Rank, z_rank. destruct (dict z !! m) as [s|] eqn:Ed; cycle 1.
  { pose proof (z_score_dict z l m Hok) as Hz. rewrite Ed in Hz. unfold z_score in Hz.
    destruct (list_find _ l); [done|]. done. }
  pose proof Hok as [(cs & Hr & Hcs) _ Hnum _ _].
  destruct (cell_split z l cs m s Hok Hcs Ed) as (A & c & B & -> & Hc & H1 & H2 & HA & HB). subst l.
  pose proof Hr as [Hl Hme _ _ _ _ Hhts Hlmax _ Hlen]. destruct (header_node _ _ Hr) as (hn & Hh & Hhm).
  rewrite Forall_fmap in Hnum, H1. assert (A ++ c :: B = (A ++ [c]) ++ B) as Ecs by (by rewrite <- app_assoc).
  rewrite zlen_map in Hsz. pose proof Hsz as Hsz'. rewrite zlen_app, zlen_cons in Hsz'. zlen_pose.
  assert (getRank (sl z) s m = Some (zlen A + 1)) as ->.
  { unfold getRank. rewrite Ecs in *.
    apply (rank_loop_spec (heap (sl z)) (header (sl z)) (sl_level (sl z)) A c B s m _ _ [] (A ++ [c])); try done.
    - apply (splits_intro _ _ _ (fun d => ~ elem_lt (mkEl m s) (c_el d))).
      + intros d Hd n r Hn. apply (not_after_true n d (mkEl m s)); [done|rewrite Forall_forall in Hnum; by apply Hnum|].
        rewrite !Forall_app, Forall_singleton in Hnum. cbn [compose] in Hnum. rewrite Hc in Hnum. simpl in *. tauto.
      + apply Forall_app. split; [|constructor; [rewrite Hc; apply elem_lt_irrefl|done]].
        eapply Forall_impl; [exact HA|]. intros d Hd. by apply elem_lt_asym.
      + eapply Forall_impl; [exact HB|]. simpl. tauto.
    - exists hn. split; [done|]. rewrite Hhm. done.
    - rewrite Forall_app in Hhts. by eapply heights_pos, Hhts.
    - by rewrite Hc.
    - unfold height_of. simpl. lia.
    - unfold fuel_of. rewrite Hlen, (zlen_app _ B). unfold zlen. lia. }
  cbn [mbind option_bind]. rewrite (proj2 (Z.eqb_neq _ _)) by lia. do 2 f_equal.
  rewrite fmap_app, fmap_cons, list_find_split; [|by rewrite Forall_fmap|by rewrite Hc].
  cbn [fmap option_fmap option_map fst]. rewrite length_fmap. rewrite Hlen.
  rewrite !sub64_small by (rewrite ?zlen_app, ?zlen_cons; lia).
  rewrite !zlen_app, !zlen_cons, !zlen_map. change (Z.of_nat (length A)) with (zlen A).
  destruct reverse; rewrite s64_id; unfold is_int64, min_int64, max_int64; [f_equal; lia|lia|f_equal; lia|lia].
Qed.

(** ** Elements by rank, and ranges *)

Lemma element_loop_spec h hd lmax A B fuel n l1 mid :
  links h hd lmax (A ++ B) -> metas h (A ++ B) -> small (A ++ B) ->
  Forall (fun d => (1 <= c_h d)%nat) A ->
  A = l1 ++ mid -> (1 <= n <= height_of lmax l1)%nat -> (length A < fuel)%nat ->
  element_loop fuel h (zlen A) n (loc_of hd l1) (zlen l1) = Some (Some (loc_of hd A)).
Proof.
  intros Hl Hm Hsm Hpos. revert l1 mid. induction n as [|n IH]; intros l1 mid E Hn Hf; [lia|]. cbn [element_loop].
  destruct (walk_spec h hd lmax A B (fun _ r => r <=? zlen A) Hl Hm Hsm) with (fuel := fuel) (i := n) (l1 := l1) (mid := mid)
    as (l1' & mid' & E' & Hlow & Hh & ->); [|done|lia|rewrite E, length_app in Hf; lia|].
  { split; intros k c k' nd -> _; rewrite ?zlen_app, ?zlen_cons; zlen_pose; [apply Z.leb_le|apply Z.leb_gt]; lia. }
  cbn [mbind option_bind]. destruct (Z.eqb_spec (zlen l1') (zlen A)) as [Ez|Ez].
  - rewrite E', zlen_app in Ez. destruct mid' as [|d mid']; [by rewrite E', app_nil_r|]. rewrite zlen_cons in Ez. zlen_pose. lia.
  - destruct n as [|n]; [|by apply (IH l1' mid'); [done|lia|done]]. exfalso. apply Ez.
    destruct mid' as [|d mid']; [by rewrite E', app_nil_r|]. apply Forall_cons in Hlow as [Hd _].
    rewrite E', Forall_app, Forall_cons in Hpos. lia.
Qed.

Lemma getElementByRank_ok s A B :
  repr s (A ++ B) -> small (A ++ B) -> getElementByRank s (zlen A) = Some (Some (loc_of (header s) A)).
Proof.
  intros [Hl Hme _ _ _ _ Hhts Hlmax _ Hlen] Hsm. unfold getElementByRank.
  apply (element_loop_spec _ _ (sl_level s) A B _ _ [] A); try done.
  - rewrite Forall_app in Hhts. by eapply heights_pos, Hhts.
  - unfold height_of. simpl. lia.
  - unfold fuel_of. rewrite Hlen, zlen_app. unfold zlen. lia.
Qed.

Lemma cell_node s cs P c Q :
  repr s cs -> cs = P ++ c :: Q ->
  exists n, heap s !! c_loc c = Some n /\ mkEl (member n) (score n) = c_el c /\
    forward <$> level n !! 0%nat = Some (c_loc <$> head Q) /\ backward n = c_loc <$> last P.
Proof.
  intros [Hl Hme _ _ _ _ Hhts _ _ _] E. pose proof (Hme P c Q E) as Hm. unfold meta in Hm.
  rewrite E, Forall_app, Forall_cons in Hhts.
  specialize (Hl (P ++ [c]) Q 0%nat). rewrite loc_of_snoc, height_of_snoc in Hl.
  assert (getlev (heap s) (c_loc c) 0 = Some (arrow 0 Q)) as Hlev by (apply Hl; [by rewrite E, <- app_assoc|lia]).
  unfold getlev in Hlev. destruct (heap s !! c_loc c) as [n|]; [|done]. cbn in Hm, Hlev. injection Hm as H1 H2 H3 _.
  exists n. split_and!; [done|rewrite H1, H2; by destruct (c_el c)| |done].
  rewrite Hlev. simpl. f_equal. apply arrow_zero. by eapply heights_pos, Hhts.
Qed.

Lemma collect_forward s cs count P Q :
  repr s cs -> cs = P ++ Q ->
  collect (heap s) (fun n => forward <$> level n !! 0%nat) count (c_loc <$> head Q) = Some (take count (c_el <$> Q)).
Proof.
  intros Hr. revert P Q. induction count as [|count IH]; intros P Q E; [by destruct (c_loc <$> head Q)|].
  destruct Q as [|c Q]; [done|]. simpl. destruct (cell_node s cs P c Q Hr E) as (n & -> & Hn & Hf & _). cbn [mbind option_bind].
  rewrite Hf. cbn [mbind option_bind]. rewrite (IH (P ++ [c]) Q) by (by rewrite E, <- app_assoc). cbn. by rewrite Hn.
Qed.

Lemma collect_backward s cs count P Q :
  repr s cs -> cs = P ++ Q ->
  collect (heap s) (fun n => Some (backward n)) count (c_loc <$> last P) = Some (take count (rev (c_el <$> P))).
Proof.
  intros Hr. revert P Q. induction count as [|count IH]; intros P Q E; [by destruct (c_loc <$> last P)|].
  destruct P as [|c P _] using rev_ind; [done|]. rewrite last_snoc, fmap_app, rev_app_distr. simpl.
  destruct (cell_node s cs P c Q Hr) as (n & -> & Hn & _ & Hb); [by rewrite E, <- app_assoc|]. cbn [mbind option_bind].
  rewrite Hb. rewrite (IH P (c :: Q)) by (by rewrite E, <- app_assoc). cbn. by rewrite Hn.
Qed.

Lemma Range_ok z l start stop reverse :
  zs_ok z l -> zlen l < 2 ^ 63 - 1 -> Range z start stop reverse = Some (z_range l start stop reverse).
Proof.
  intros [(cs & Hr & <-) _ _ _ _] Hsz. rewrite zlen_map in Hsz. pose proof (r_len _ _ Hr) as Hlen.
  unfold Range, z_range. rewrite Hlen, zlen_map. zlen_pose. rewrite s64_id by (unfold is_int64, min_int64, max_int64; lia).
  set (st := if start <? 0 then zlen cs + start else start). set (sp := if stop <? 0 then zlen cs + stop else stop).
  destruct (Z.eqb_spec (zlen cs) 0) as [E0|E0]; [by rewrite (proj2 (Z.ltb_lt _ _)) by lia|].
  replace (if st <? 0 then 0 else st) with (Z.max 0 st) by (destruct (Z.ltb_spec st 0); lia).
  destruct ((zlen cs <=? Z.max 0 st) || (sp <? Z.max 0 st)) eqn:Eb.
  { rewrite (proj2 (Z.ltb_lt _ _)); [done|]. bool_prop. lia. }
  bool_prop. replace (if zlen cs <=? sp then zlen cs - 1 else sp) with (Z.min (zlen cs - 1) sp) by (destruct (Z.leb_spec (zlen cs) sp); lia).
  rewrite (proj2 (Z.ltb_ge _ _)) by lia. set (a := Z.max 0 st) in *. set (n := Z.to_nat _).
  destruct reverse; cbn [negb]; rewrite u64_id by lia.
  - set (P := take (Z.to_nat (zlen cs - a)) cs). set (Q := drop (Z.to_nat (zlen cs - a)) cs).
    assert (cs = P ++ Q) as Ecs by (symmetry; apply take_drop).
    assert (zlen P = zlen cs - a) as HP by (unfold P, zlen in *; rewrite length_take; lia).
    rewrite <- HP, (getElementByRank_ok _ P Q) by (by rewrite <- Ecs). cbn [mbind option_bind].
    destruct (last P) as [p|] eqn:El; [|apply last_None in El; rewrite El, zlen_nil in HP; lia].
    replace (Some (loc_of (header (sl z)) P)) with (c_loc <$> last P) by (unfold loc_of; by rewrite El).
    rewrite (collect_backward _ cs n P Q Hr Ecs). do 2 f_equal.
    assert (zlen Q = a) as HQ by (rewrite Ecs, zlen_app in HP; lia). clearbody P Q. rewrite Ecs, fmap_app, rev_app_distr.
    rewrite drop_app_length'; [done|]. rewrite length_rev, length_fmap. unfold zlen in HQ. lia.
  - set (P := take (Z.to_nat (a + 1)) cs). set (Q := drop (Z.to_nat (a + 1)) cs).
    assert (cs = P ++ Q) as Ecs by (symmetry; apply take_drop).
    assert (zlen P = a + 1) as HP by (unfold P, zlen in *; rewrite length_take; lia).
    rewrite <- HP, (getElementByRank_ok _ P Q) by (by rewrite <- Ecs). cbn [mbind option_bind].
    destruct P as [|c P' _] eqn:EP using rev_ind; [rewrite zlen_nil in HP; lia|]. rewrite loc_of_snoc.
    change (Some (c_loc c)) with (c_loc <$> head (c :: Q)).
    rewrite zlen_app, zlen_cons, zlen_nil in HP.
    rewrite (collect_forward _ cs n P' (c :: Q) Hr) by (by rewrite Ecs, <- app_assoc). do 2 f_equal.
    rewrite Ecs, <- app_assoc, fmap_app, drop_app_length'; [done|]. rewrite length_fmap. unfold zlen in HP. lia.
Qed.

(** ** Histories *)

Inductive z_op :=
| ZAdd (m : bytes) (s : Z) (draws : list Z)
| ZRemove (m : bytes)
| ZScore (m : bytes)
| ZRank (m : bytes) (reverse : bool)
| ZRange (start stop : Z) (reverse : bool)
| ZLen.

Inductive z_out :=
| OutAdded (added updated : bool)
| OutRemoved (b : bool)
| OutScore (s : option Z)
| OutRank (r : option Z)
| OutElements (l : list ZSetElement)
| OutLen (n : Z).

Definition zset_step (z : ZSet) (o : z_op) : option (z_out * ZSet) :=
  match o with
  | ZAdd m s draws => '(a, u, z) ← Add z m s draws; Some (OutAdded a u, z)
  | ZRemove m => '(b, z) ← Remove z m; Some (OutRemoved b, z)
  | ZScore m => Some (OutScore (Score_ z m), z)
  | ZRank m reverse => r ← Rank z m reverse; Some (OutRank r, z)
  | ZRange start stop reverse => l ← Range z start stop reverse; Some (OutElements l, z)
  | ZLen => Some (OutLen (Len z), z)
  end.

Definition list_step (l : list ZSetElement) (o : z_op) : z_out * list ZSetElement :=
  match o with
  | ZAdd m s _ => let '(a, u, l) := z_add l m s in (OutAdded a u, l)
  | ZRemove m => (OutRemoved (bool_decide (is_Some (z_score l m))), z_remove m l)
  | ZScore m => (OutScore (z_score l m), l)
  | ZRank m reverse => (OutRank (z_rank l m reverse), l)
  | ZRange start stop reverse => (OutElements (z_range l start stop reverse), l)
  | ZLen => (OutLen (zlen l), l)
  end.

Fixpoint zset_run (z : ZSet) (ops : list z_op) : option (list z_out * ZSet) :=
  match ops with
  | [] => Some ([], z)
  | o :: ops => '(out, z) ← zset_step z o; '(outs, z) ← zset_run z ops; Some (out :: outs, z)
  end.

Fixpoint list_run (l : list ZSetElement) (ops : list z_op) : list z_out * list ZSetElement :=
  match ops with
  | [] => ([], l)
  | o :: ops => let '(out, l) := list_step l o in let '(outs, l) := list_run l ops in (out :: outs, l)
  end.

(** Scores are numbers (the commands refuse NaN); ranks are asked of members with a name. *)
Definition z_op_ok (o : z_op) : Prop :=
  match o with ZAdd _ s _ => number s | ZRank m _ => m <> [] | _ => True end.

Lemma zlen_filter_le {T} (P : T -> Prop) `{forall x, Decision (P x)} (l : list T) : zlen (filter P l) <= zlen l.
Proof. unfold zlen. pose proof (length_filter P l). lia. Qed.

Lemma zlen_insert_el e l : zlen (z_insert e l) = zlen l + 1.
Proof.
  unfold z_insert. rewrite zlen_app, zlen_cons.
  pose proof (filter_app_complement (fun f => elem_lt f e) l) as Hp. apply Permutation_length in Hp.
  rewrite length_app in Hp. unfold zlen. lia.
Qed.

Lemma z_remove_absent l m : z_score l m = None -> z_remove m l = l.
Proof.
  unfold z_score, z_remove. destruct (list_find _ l) as [[i e]|] eqn:E; [done|]. intros _. apply list_find_None in E.
  induction E as [|e l He _ IH]; [done|]. by rewrite filter_cons_True, IH.
Qed.

Lemma zset_step_ok z l o :
  zs_ok z l -> z_op_ok o -> zlen l + 1 < 2 ^ 63 - 1 ->
  exists z', zset_step z o = Some ((list_step l o).1, z') /\ zs_ok z' (list_step l o).2 /\ zlen (list_step l o).2 <= zlen l + 1.
Proof.
  intros Hok Ho Hsz. destruct o as [m s draws|m|m|m r|a b r|]; cbn [zset_step list_step]; simpl in Ho.
  - unfold Add, z_add. rewrite (z_score_dict z l m Hok). destruct (dict z !! m) as [cur|] eqn:Ed.
    + destruct (feq cur s); cbn [negb]; [exists z; split_and!; [done|done|simpl; lia]|].
      destruct (delete_ok z l m cur Hok Ed) as (s1 & -> & Hok1 & Hsub & Hno); [lia|]. cbn [mbind option_bind].
      pose proof (zlen_filter_le (fun e => Member e <> m) l) as Hle. fold (z_remove m l) in Hle.
      destruct (insert_ok _ _ m s draws Hok1 Hno Ho) as (s2 & E2 & Hok2); [lia|]. cbn [sl] in E2. rewrite E2.
      cbn [dict] in Hok2. rewrite insert_delete_eq in Hok2.
      eexists. split; [done|]. split; [done|]. simpl. rewrite zlen_insert_el. lia.
    + destruct (insert_ok z l m s draws Hok) as (s2 & -> & Hok2); [|done|lia|].
      { intros e He <-. destruct (zs_dict _ _ Hok (Member e) (Score e)) as [_ H]. rewrite <- el_eta, Ed in H. by specialize (H He). }
      eexists. split; [done|]. split; [done|]. simpl. rewrite zlen_insert_el. lia.
  - unfold Remove. rewrite (z_score_dict z l m Hok).
    pose proof (zlen_filter_le (fun e => Member e <> m) l) as Hle. fold (z_remove m l) in Hle.
    destruct (dict z !! m) as [cur|] eqn:Ed.
    + destruct (delete_ok z l m cur Hok Ed) as (s1 & -> & Hok1 & _); [lia|]. eexists. split; [done|]. split; [done|simpl; lia].
    + exists z. rewrite bool_decide_false by (by intros []). split; [done|]. simpl.
      rewrite z_remove_absent by (by rewrite (z_score_dict z l m Hok)). split; [done|lia].
  - exists z. unfold Score_. rewrite (z_score_dict z l m Hok). split_and!; [done|done|simpl; lia].
  - rewrite (Rank_ok z l m r Hok Ho) by lia. exists z. split_and!; [done|done|simpl; lia].
  - rewrite (Range_ok z l a b r Hok) by lia. exists z. split_and!; [done|done|simpl; lia].
  - exists z. split_and!; [|done|simpl; lia]. unfold Len. destruct Hok as [(cs & Hr & <-) _ _ _ _]. rewrite zlen_map in *.
    rewrite (r_len _ _ Hr). zlen_pose. by rewrite s64_id by (unfold is_int64, min_int64, max_int64; lia).
Qed.

Lemma zset_run_ok ops z l :
  zs_ok z l -> Forall z_op_ok ops -> zlen l + zlen ops < 2 ^ 63 - 1 ->
  exists z', zset_run z ops = Some ((list_run l ops).1, z') /\ zs_ok z' (list_run l ops).2.
Proof.
  intros Hok Ho. revert z l Hok. induction Ho as [|o ops Ho _ IH]; intros z l Hok Hsz; [by exists z|].
  cbn [zset_run list_run]. rewrite zlen_cons in Hsz. zlen_pose.
  destruct (zset_step_ok z l o Hok Ho) as (z1 & -> & Hok1 & Hle); [lia|]. cbn [mbind option_bind].
  destruct (list_step l o) as [out l1]. simpl in *. destruct (IH z1 l1 Hok1) as (z2 & -> & Hok2); [lia|].
  destruct (list_run l1 ops) as [outs l2]. by exists z2.
Qed.

Lemma newZSkiplist_repr : repr newZSkiplist [].
Proof.
  split; try done.
  - intros l1 l2 i E Hi. symmetry in E. apply app_nil in E as [-> ->]. unfold height_of in Hi. simpl in Hi.
    assert (i = 0%nat) as -> by lia. done.
  - intros l1 c l2 E. by destruct l1.
  - intros i Hi. exists 0. unfold getlev. simpl header. cbn [heap newZSkiplist]. rewrite lookup_singleton_eq. cbn [mbind option_bind level newZSkiplistNode].
    apply lookup_replicate_2. unfold ZSkiplistMaxLevel in *. lia.
  - apply NoDup_singleton.
  - apply Forall_singleton. simpl. lia.
  - unfold ZSkiplistMaxLevel. simpl. lia.
Qed.

Lemma NewZSet_ok : zs_ok NewZSet [].
Proof.
  split; [exists []; split; [apply newZSkiplist_repr|done]|constructor|constructor|constructor|].
  intros m s. simpl. rewrite lookup_empty. split; [done|]. by intros ?%elem_of_nil.
Qed.

(** C24. For every history of at most 2^63 - 3 operations on a new sorted set, with scores that are numbers, whatever levels the random
    numbers give the nodes, no operation dereferences nil or loops, and every answer (ZADD's added and updated flags, scores, ranks from
    either end of members other than the empty one, ranges by index in either direction, removals, lengths) is the one of a plain list that
    is kept sorted by score and then member. The list is sorted and has each member once. (The rank of the empty member can be missing:
    [empty_member_has_no_rank].) *)
Theorem zset_history ops :
  Forall z_op_ok ops -> zlen ops < 2 ^ 63 - 1 ->
  exists z, zset_run NewZSet ops = Some ((list_run [] ops).1, z) /\
    StronglySorted elem_lt (list_run [] ops).2 /\ NoDup (Member <$> (list_run [] ops).2).
Proof.
  intros Ho Hsz. destruct (zset_run_ok ops NewZSet [] NewZSet_ok Ho) as (z & E & [_ ? _ ? _]); [rewrite zlen_nil; lia|].
  by exists z.
Qed.

Definition sample_zops : list z_op :=
  [ZAdd (str "a") 5 [1; 1; 65535]; ZAdd (str "b") 3 [65535]; ZAdd (str "c") 9 [2; 65535]; ZAdd (str "a") 4 [65535];
   ZRank (str "a") false; ZRange 0 (-1) true; ZRemove (str "b"); ZLen].

Lemma zset_history_witness :
  exists z, zset_run NewZSet sample_zops = Some ((list_run [] sample_zops).1, z) /\
    StronglySorted elem_lt (list_run [] sample_zops).2 /\ NoDup (Member <$> (list_run [] sample_zops).2).
Proof. apply zset_history; [repeat constructor; discriminate|vm_compute; reflexivity]. Defined.

(** The empty string is a legal member, but its rank is not found: [getRank] compares members before
    it leaves the header, whose member is the empty string too, and returns 0. *)
Example empty_member_has_no_rank :
  fst <$> zset_run NewZSet [ZAdd (str "") 1 [65535]; ZScore (str ""); ZRange 0 (-1) false; ZAdd (str "x") 0 [65535];
                            ZAdd (str "y") 2 [1; 65535]; ZRank (str "") false] =
  Some [OutAdded true false; OutScore (Some 1); OutElements [mkEl (str "") 1]; OutAdded true false;
        OutAdded true false; OutRank None].
Proof. vm_compute. reflexivity. Qed.
