(* ===== verification/Dict.v ===== *)
(** * The hash and set containers ([datastruct/dict/dict.go], [datastruct/set/set.go])

    [Dict] keeps up to 64 fields in a slice of pairs, searched linearly, and moves to a Go map
    beyond that; [Set] is a Go map.  Both are shown to be what they replace: a dictionary is a
    finite map whatever its representation, and the walk over a dictionary visits every
    field once, in an order that only Go knows once the map is in use ([order]). *)

From S2P Require Import Prelude.
Local Open Scope Z_scope.

(** ** Dict *)

Record Pair := mkPair { p_Key : bytes; p_Value : bytes }.

(** [table = nil] is [None]. *)
Record Dict := mkDict { pairs : list Pair; table : option (gmap bytes bytes) }.

Definition NewDict : Dict := mkDict [] None.

(** [for i := range d.pairs { if d.pairs[i].Key == key ...}] *)
Fixpoint find_pair (key : bytes) (i : nat) (l : list Pair) : option nat :=
  match l with
  | [] => None
  | p :: l => if bool_decide (p_Key p = key) then Some i else find_pair key (S i) l
  end.

Definition dict_Set (d : Dict) (key val : bytes) : Dict * bool :=
  match table d with
  | Some t => (mkDict (pairs d) (Some (<[key := val]> t)), negb (bool_decide (is_Some (t !! key))))
  | None =>
    match find_pair key 0 (pairs d) with
    | Some i => (mkDict (<[i := mkPair key val]> (pairs d)) None, false)
    | None =>
      if 64 <=? zlen (pairs d) then
        let t := fold_left (fun t p => <[p_Key p := p_Value p]> t) (pairs d) ∅ in
        (mkDict [] (Some (<[key := val]> t)), true)
      else (mkDict (pairs d ++ [mkPair key val]) None, true)
    end
  end.

Definition dict_Get (d : Dict) (key : bytes) : option bytes :=
  match table d with
  | Some t => t !! key
  | None =>
    match find_pair key 0 (pairs d) with
    | Some i => p_Value <$> pairs d !! i
    | None => None
    end
  end.

Definition dict_Del (d : Dict) (key : bytes) : Dict * bool :=
  match table d with
  | Some t =>
    if bool_decide (is_Some (t !! key)) then (mkDict (pairs d) (Some (delete key t)), true) else (d, false)
  | None =>
    match find_pair key 0 (pairs d) with
    | Some i => (mkDict (take i (pairs d) ++ drop (S i) (pairs d)) None, true)
    | None => (d, false)
    end
  end.

Definition dict_Len (d : Dict) : Z :=
  match table d with
  | Some t => Z.of_nat (size t)
  | None => zlen (pairs d)
  end.

(** The fields in the order [ForEach] visits them; [order] is Go's, and it follows Go when it
    lists every entry of the map once. *)
Definition dict_entries (order : gmap bytes bytes -> list (bytes * bytes)) (d : Dict) : list (bytes * bytes) :=
  match table d with
  | Some t => order t
  | None => (fun p => (p_Key p, p_Value p)) <$> pairs d
  end.

Definition dict_ForEach {A : Type} (order : gmap bytes bytes -> list (bytes * bytes)) (d : Dict)
    (fn : A -> bytes -> bytes -> A) (st : A) : A :=
  fold_left (fun st e => fn st e.1 e.2) (dict_entries order d) st.

Definition dict_Keys order (d : Dict) : list bytes := (dict_entries order d).*1.
Definition dict_Values order (d : Dict) : list bytes := (dict_entries order d).*2.

Definition map_order_ok (order : gmap bytes bytes -> list (bytes * bytes)) : Prop :=
  forall m, order m ≡ₚ map_to_list m.

(** ** Set *)

Record Set_ := mkSet { set_m : gset bytes }.

Definition NewSet : Set_ := mkSet ∅.

Fixpoint set_Add (s : Set_) (members : list bytes) : Set_ * Z :=
  match members with
  | [] => (s, 0)
  | m :: members =>
    if bool_decide (m ∈ set_m s) then set_Add s members
    else let '(s, n) := set_Add (mkSet ({[m]} ∪ set_m s)) members in (s, 1 + n)
  end.

Fixpoint set_Remove (s : Set_) (members : list bytes) : Set_ * Z :=
  match members with
  | [] => (s, 0)
  | m :: members =>
    if bool_decide (m ∈ set_m s)
    then let '(s, n) := set_Remove (mkSet (set_m s ∖ {[m]})) members in (s, 1 + n)
    else set_Remove s members
  end.

Definition set_Contains (s : Set_) (member : bytes) : bool := bool_decide (member ∈ set_m s).
Definition set_Card (s : Set_) : Z := Z.of_nat (size (set_m s)).
Definition set_Members (order : gset bytes -> list bytes) (s : Set_) : list bytes := order (set_m s).

Definition set_order_ok (order : gset bytes -> list bytes) : Prop := forall s, order s ≡ₚ elements s.

(** [Pop]: the first [count] members of the walk are deleted during it. *)
Definition set_Pop (order : gset bytes -> list bytes) (s : Set_) (count : Z) : Set_ * list bytes :=
  if bool_decide (set_m s = ∅) then (s, [])
  else
    let count := if set_Card s <? count then set_Card s else count in
    let res := take (Z.to_nat (Z.max 1 count)) (order (set_m s)) in
    (mkSet (set_m s ∖ list_to_set res), res).

(** ** A dictionary is a finite map *)

Definition pair_map (l : list Pair) : gmap bytes bytes :=
  foldr (fun p m => <[p_Key p := p_Value p]> m) ∅ l.

Definition dict_map (d : Dict) : gmap bytes bytes := default (pair_map (pairs d)) (table d).

(** The pairs have distinct keys and are dropped with the promotion. *)
Record dict_wf (d : Dict) : Prop := {
  dw_nodup : NoDup (p_Key <$> pairs d);
  dw_table : is_Some (table d) -> pairs d = []
}.

Lemma pair_map_None l k : pair_map l !! k = None <-> k ∉ (p_Key <$> l).
Proof.
  induction l as [|p l IH]; simpl; [rewrite lookup_empty; split; [intros _; apply not_elem_of_nil|done]|].
  rewrite lookup_insert_None, IH, not_elem_of_cons. intuition congruence.
Qed.

Lemma find_pair_spec key i l :
  match find_pair key i l with
  | Some j => (i <= j)%nat /\ exists p, l !! (j - i)%nat = Some p /\ p_Key p = key
  | None => key ∉ (p_Key <$> l)
  end.
Proof.
  revert i. induction l as [|p l IH]; intros i; simpl; [apply not_elem_of_nil|].
  case_bool_decide as Hk.
  - split; [lia|]. rewrite Nat.sub_diag. by exists p.
  - specialize (IH (S i)). destruct (find_pair key (S i) l) as [j|].
    + destruct IH as (Hj & q & Hq & Hkq). split; [lia|]. exists q. split; [|done].
      by replace (j - i)%nat with (S (j - S i)) by lia.
    + rewrite not_elem_of_cons. split; [congruence|done].
Qed.

Lemma pair_map_lookup l i p :
  NoDup (p_Key <$> l) -> l !! i = Some p -> pair_map l !! p_Key p = Some (p_Value p).
Proof.
  revert i. induction l as [|q l IH]; intros [|i] Hnd Hi; simplify_eq/=; apply NoDup_cons in Hnd as [Hq Hnd].
  - by rewrite lookup_insert_eq.
  - rewrite lookup_insert_ne; [by eapply IH|]. intros E. apply Hq. rewrite E.
    apply list_elem_of_fmap. exists p. split; [done|]. by eapply list_elem_of_lookup_2.
Qed.

Lemma pair_map_app l k : NoDup (p_Key <$> l ++ k) -> pair_map (l ++ k) = pair_map l ∪ pair_map k.
Proof.
  induction l as [|p l IH]; simpl; [by rewrite (left_id_L ∅ (∪))|].
  intros [_ Hnd]%NoDup_cons. rewrite IH by done. by rewrite insert_union_l.
Qed.

Lemma pair_map_split l i p :
  NoDup (p_Key <$> l) -> l !! i = Some p ->
  exists l1 l2, l = l1 ++ p :: l2 /\ i = length l1 /\ (p_Key p ∉ p_Key <$> l1) /\ (p_Key p ∉ p_Key <$> l2).
Proof.
  intros Hnd Hi. exists (take i l), (drop (S i) l). assert (E : l = take i l ++ p :: drop (S i) l) by
    (symmetry; by apply take_drop_middle).
  rewrite E in Hnd. rewrite fmap_app in Hnd. cbn in Hnd. apply NoDup_app in Hnd as (_ & Hd & [H2 _]%NoDup_cons).
  split_and!; [done| |intros H; by apply (Hd _ H), list_elem_of_here|done].
  apply lookup_lt_Some in Hi. rewrite length_take. lia.
Qed.

Lemma pair_map_replace l i p v :
  NoDup (p_Key <$> l) -> l !! i = Some p ->
  pair_map (<[i := mkPair (p_Key p) v]> l) = <[p_Key p := v]> (pair_map l) /\
  (p_Key <$> <[i := mkPair (p_Key p) v]> l) = (p_Key <$> l).
Proof.
  intros Hnd Hi. split.
  - destruct (pair_map_split l i p Hnd Hi) as (l1 & l2 & -> & -> & H1 & H2).
    rewrite insert_app_r_alt, Nat.sub_diag by lia. cbn.
    clear Hi Hnd. induction l1 as [|q l1 IH]; simpl; [by rewrite insert_insert_eq|].
    cbn in H1. rewrite not_elem_of_cons in H1. rewrite IH by apply H1.
    apply insert_insert_ne. destruct H1 as [H1 _]. congruence.
  - rewrite list_fmap_insert. cbn. apply list_insert_id. rewrite list_lookup_fmap, Hi. done.
Qed.

Lemma pair_map_remove l i p :
  NoDup (p_Key <$> l) -> l !! i = Some p ->
  pair_map (take i l ++ drop (S i) l) = delete (p_Key p) (pair_map l) /\
  NoDup (p_Key <$> take i l ++ drop (S i) l).
Proof.
  intros Hnd Hi. destruct (pair_map_split l i p Hnd Hi) as (l1 & l2 & -> & -> & H1 & H2).
  rewrite take_app_length. replace (drop (S (length l1)) (l1 ++ p :: l2)) with l2; cycle 1.
  { rewrite drop_app_ge by lia. by replace (S (length l1) - length l1)%nat with 1%nat by lia. }
  split.
  - clear Hi Hnd. induction l1 as [|q l1 IH]; simpl.
    + rewrite delete_insert_eq, delete_id; [done|]. by apply pair_map_None.
    + cbn in H1. rewrite not_elem_of_cons in H1. rewrite IH by apply H1.
      rewrite delete_insert_ne; [done|]. destruct H1 as [H1 _]. congruence.
  - revert Hnd. rewrite !fmap_app. cbn. rewrite !NoDup_app, NoDup_cons. intros (? & Hd & _ & ?).
    split_and!; [done| |done]. intros x Hx Hx2. apply (Hd x Hx), list_elem_of_further, Hx2.
Qed.

Lemma pair_map_fold l m :
  NoDup (p_Key <$> l) -> fold_left (fun t p => <[p_Key p := p_Value p]> t) l m = pair_map l ∪ m.
Proof.
  revert m. induction l as [|p l IH]; intros m; simpl; [by rewrite (left_id_L ∅ (∪))|].
  intros [Hp Hnd]%NoDup_cons. rewrite IH by done. rewrite <- insert_union_l, insert_union_r; [done|].
  by apply pair_map_None.
Qed.

Lemma pair_map_size l : NoDup (p_Key <$> l) -> size (pair_map l) = length l.
Proof.
  induction l as [|p l IH]; [done|]. cbn. intros [Hp Hnd]%NoDup_cons.
  fold (pair_map l). rewrite map_size_insert_None by (by apply pair_map_None). by rewrite IH.
Qed.

Lemma pair_map_list l :
  NoDup (p_Key <$> l) -> map_to_list (pair_map l) ≡ₚ (fun p => (p_Key p, p_Value p)) <$> l.
Proof.
  induction l as [|p l IH]; [intros _; unfold pair_map; cbn [foldr]; by rewrite map_to_list_empty|]. cbn. intros [Hp Hnd]%NoDup_cons.
  fold (pair_map l). rewrite map_to_list_insert by (by apply pair_map_None). by rewrite IH.
Qed.

(** *** The operations *)

Lemma dict_Set_spec d key val :
  dict_wf d ->
  dict_wf (dict_Set d key val).1 /\ dict_map (dict_Set d key val).1 = <[key := val]> (dict_map d) /\
  (dict_Set d key val).2 = bool_decide (dict_map d !! key = None).
Proof.
  intros [Hnd Ht]. unfold dict_Set, dict_map. destruct (table d) as [t|] eqn:Et; cbn [default].
  { split_and!; [split; cbn; [done|intros _; by apply Ht]|done|].
    cbn. by destruct (t !! key). }
  pose proof (find_pair_spec key 0 (pairs d)) as Hf. destruct (find_pair key 0 (pairs d)) as [i|].
  - destruct Hf as (_ & p & Hp & <-). rewrite Nat.sub_0_r in Hp.
    destruct (pair_map_replace _ i p val Hnd Hp) as [E Ek]. cbn.
    split_and!; [split; cbn; [by rewrite Ek|by intros []]|done|].
    by rewrite (pair_map_lookup _ i p Hnd Hp).
  - destruct (64 <=? zlen (pairs d)); cbn.
    + rewrite pair_map_fold by done. rewrite (right_id_L ∅ (∪)).
      split_and!; [split; [constructor|done]|done|].
      symmetry. apply bool_decide_eq_true. by apply pair_map_None.
    + assert (NoDup (p_Key <$> pairs d ++ [mkPair key val])) as Hnd'.
      { rewrite fmap_app. apply NoDup_app. split_and!; [done| |apply NoDup_singleton].
        intros x Hx. cbn. rewrite list_elem_of_singleton. congruence. }
      split_and!; [split; cbn; [done|by intros []]| |].
      * rewrite pair_map_app by done. change (pair_map [mkPair key val]) with ({[key := val]} : gmap bytes bytes).
        symmetry. apply insert_union_singleton_r. by apply pair_map_None.
      * symmetry. apply bool_decide_eq_true. by apply pair_map_None.
Qed.

Lemma dict_Get_spec d key : dict_wf d -> dict_Get d key = dict_map d !! key.
Proof.
  intros [Hnd Ht]. unfold dict_Get, dict_map. destruct (table d) as [t|] eqn:Et; [done|]. cbn [default].
  pose proof (find_pair_spec key 0 (pairs d)) as Hf. destruct (find_pair key 0 (pairs d)) as [i|].
  - destruct Hf as (_ & p & Hp & <-). rewrite Nat.sub_0_r in Hp. rewrite Hp. symmetry. by eapply pair_map_lookup.
  - symmetry. by apply pair_map_None.
Qed.

Lemma dict_Del_spec d key :
  dict_wf d ->
  dict_wf (dict_Del d key).1 /\ dict_map (dict_Del d key).1 = delete key (dict_map d) /\
  (dict_Del d key).2 = bool_decide (is_Some (dict_map d !! key)).
Proof.
  intros Hwf. pose proof Hwf as [Hnd Ht]. unfold dict_Del, dict_map. destruct (table d) as [t|] eqn:Et; cbn [default].
  { case_bool_decide as Hk; cbn.
    - split_and!; [split; cbn; [done|intros _; by apply Ht]|done|]. symmetry. by apply bool_decide_eq_true.
    - rewrite Et. cbn. split_and!; [done| |by symmetry; apply bool_decide_eq_false].
      symmetry. apply delete_id. by apply eq_None_not_Some. }
  pose proof (find_pair_spec key 0 (pairs d)) as Hf. destruct (find_pair key 0 (pairs d)) as [i|].
  - destruct Hf as (_ & p & Hp & <-). rewrite Nat.sub_0_r in Hp.
    destruct (pair_map_remove _ i p Hnd Hp) as [E Hnd']. cbn.
    split_and!; [split; cbn; [done|by intros []]|done|].
    rewrite (pair_map_lookup _ i p Hnd Hp). symmetry. apply bool_decide_eq_true. eauto.
  - cbn. rewrite Et. cbn. apply pair_map_None in Hf. rewrite Hf. split_and!; [done| |done].
    symmetry. by apply delete_id.
Qed.

Lemma dict_Len_spec d : dict_wf d -> dict_Len d = Z.of_nat (size (dict_map d)).
Proof.
  intros [Hnd _]. unfold dict_Len, dict_map. destruct (table d); [done|]. cbn. by rewrite pair_map_size.
Qed.

Lemma dict_entries_spec order d :
  map_order_ok order -> dict_wf d -> dict_entries order d ≡ₚ map_to_list (dict_map d).
Proof.
  intros Ho [Hnd _]. unfold dict_entries, dict_map. destruct (table d); [apply Ho|]. cbn. by rewrite pair_map_list.
Qed.

Lemma NewDict_wf : dict_wf NewDict.
Proof. split; [constructor|done]. Qed.

(** ** Sets *)

Lemma set_Add_spec s ms :
  (set_Add s ms).1 = mkSet (list_to_set ms ∪ set_m s) /\
  (set_Add s ms).2 = Z.of_nat (size (list_to_set ms ∪ set_m s)) - Z.of_nat (size (set_m s)).
Proof.
  revert s. induction ms as [|m ms IH]; intros s; cbn.
  { rewrite (left_id_L ∅ (∪)). destruct s. split; [done|lia]. }
  case_bool_decide as Hm.
  - destruct (IH s) as [-> ->].
    replace ({[m]} ∪ list_to_set ms ∪ set_m s) with (list_to_set ms ∪ set_m s) by set_solver. done.
  - specialize (IH (mkSet ({[m]} ∪ set_m s))). destruct (set_Add _ ms) as [s' n]. cbn in *. destruct IH as [-> ->].
    replace (list_to_set ms ∪ ({[m]} ∪ set_m s)) with ({[m]} ∪ list_to_set ms ∪ set_m s) by set_solver.
    rewrite (size_union {[m]} (set_m s)) by set_solver. rewrite size_singleton. split; [done|lia].
Qed.

Lemma set_Remove_spec s ms :
  (set_Remove s ms).1 = mkSet (set_m s ∖ list_to_set ms) /\
  (set_Remove s ms).2 = Z.of_nat (size (set_m s)) - Z.of_nat (size (set_m s ∖ list_to_set ms)).
Proof.
  revert s. induction ms as [|m ms IH]; intros s; cbn.
  { rewrite difference_empty_L. destruct s. split; [done|lia]. }
  case_bool_decide as Hm.
  - specialize (IH (mkSet (set_m s ∖ {[m]}))). destruct (set_Remove _ ms) as [s' n]. cbn in *. destruct IH as [-> ->].
    rewrite <- (difference_difference_l_L (set_m s)).
    rewrite (size_difference (set_m s) {[m]}) by set_solver. rewrite size_singleton.
    assert (size (set_m s) <> 0%nat) by (intros H%size_empty_inv; set_solver). split; [done|lia].
  - destruct (IH s) as [-> ->].
    replace (set_m s ∖ ({[m]} ∪ list_to_set ms)) with (set_m s ∖ list_to_set ms) by set_solver. done.
Qed.

(** ** Properties *)

Inductive dict_op := DSet (k v : bytes) | DDel (k : bytes).

Definition dict_step (d : Dict) (c : dict_op) : Dict * bool :=
  match c with DSet k v => dict_Set d k v | DDel k => dict_Del d k end.

Definition map_step (m : gmap bytes bytes) (c : dict_op) : gmap bytes bytes * bool :=
  match c with
  | DSet k v => (<[k := v]> m, bool_decide (m !! k = None))
  | DDel k => (delete k m, bool_decide (is_Some (m !! k)))
  end.

Fixpoint dict_run (d : Dict) (h : list dict_op) : Dict * list bool :=
  match h with
  | [] => (d, [])
  | c :: h => let '(d, b) := dict_step d c in let '(d, bs) := dict_run d h in (d, b :: bs)
  end.

Fixpoint map_run (m : gmap bytes bytes) (h : list dict_op) : gmap bytes bytes * list bool :=
  match h with
  | [] => (m, [])
  | c :: h => let '(m, b) := map_step m c in let '(m, bs) := map_run m h in (m, b :: bs)
  end.

Lemma dict_step_ok d c :
  dict_wf d -> dict_wf (dict_step d c).1 /\ dict_map (dict_step d c).1 = (map_step (dict_map d) c).1 /\
    (dict_step d c).2 = (map_step (dict_map d) c).2.
Proof. intros Hd. destruct c; [by apply dict_Set_spec|by apply dict_Del_spec]. Qed.

Lemma dict_run_ok d h :
  dict_wf d -> dict_wf (dict_run d h).1 /\ dict_map (dict_run d h).1 = (map_run (dict_map d) h).1 /\
    (dict_run d h).2 = (map_run (dict_map d) h).2.
Proof.
  revert d. induction h as [|c h IH]; intros d Hd; [done|]. cbn [dict_run map_run].
  destruct (dict_step_ok d c Hd) as (Hd1 & E1 & E2). destruct (dict_step d c) as [d1 b].
  destruct (map_step (dict_map d) c) as [m1 b']. cbn in *. subst.
  destruct (IH d1 Hd1) as (Hd2 & E3 & E4). destruct (dict_run d1 h), (map_run _ h). cbn in *. by subst.
Qed.

(** Every history of writes and deletions on a new dictionary answers what a finite map
    answers, across the move from the slice of pairs to the hash table at the 65th field; lookups and
    the length read that map, and the walk visits every entry exactly once. *)
Theorem dict_history order h :
  map_order_ok order ->
  let d := (dict_run NewDict h).1 in let m := (map_run ∅ h).1 in
  (dict_run NewDict h).2 = (map_run ∅ h).2 /\ (forall k, dict_Get d k = m !! k) /\
  dict_Len d = Z.of_nat (size m) /\ dict_entries order d ≡ₚ map_to_list m.
Proof.
  intros Ho d m. destruct (dict_run_ok NewDict h NewDict_wf) as (Hd & Em & Eb).
  change (dict_map NewDict) with (∅ : gmap bytes bytes) in *. fold d m in Hd, Em. rewrite <- Em.
  split_and!; [done|intros; by apply dict_Get_spec|by apply dict_Len_spec|by apply dict_entries_spec].
Qed.

Definition ex_dict_ops : list dict_op :=
  ((fun n => DSet [Z.of_nat n] (str "v")) <$> seq 0 65) ++ [DSet [3] (str "w"); DDel [4]; DDel [4]].

Lemma dict_history_witness :
  map_order_ok map_to_list /\ dict_Len (dict_run NewDict ex_dict_ops).1 = 64.
Proof.
  assert (map_order_ok map_to_list) as Ho by (intros m; reflexivity). split; [exact Ho|].
  destruct (dict_history map_to_list ex_dict_ops Ho) as (_ & _ & E & _). rewrite E. vm_compute. reflexivity.
Defined.
