(* ===== verification/Value.v ===== *)
(** * Payloads and encodings ([object/object.go], [object/encoded.go], [encoding/encoding.go])

    An object's [Ptr] is a byte slice, a Go string, an [int64] or a pointer to a container; the
    containers themselves live in a heap that the handlers share with the keyspace, since a
    handler changes a container in place through the pointer it was given ([PRef]).

    [rvalue] is what a client means by a value, and [represents] says which payloads stand for
    it: an integer, an embedded and a raw string are the same bytes, a listpack and a
    dictionary are the same hash.  Every encoding decision of the code is invisible up to that
    relation, which the command files show for each command; here it is shown for the
    constructors that build a whole value at once. *)

From S2P Require Import Prelude Strconv Listpack Intset Quicklist Skiplist Dict Object.
Local Open Scope Z_scope.

(** ** Payloads *)

(** Containers by their Go type.  [CMap] and [CSetMap] are the plain maps of old snapshots;
    [COther] stands for the types this library's handlers never look into. *)
Inductive container :=
  | CListpack (lp : Listpack)
  | CQuicklist (ql : Quicklist)
  | CIntset (st : IntSet)
  | CSet (s : Set_)
  | CDict (d : Dict)
  | CMap (m : gmap bytes bytes)
  | CSetMap (m : gset bytes)
  | COther.

Inductive payload :=
  | PBytes (b : bytes)    (* []byte *)
  | PString (s : bytes)   (* string *)
  | PInt64 (n : Z)        (* int64 *)
  | PRef (l : nat).       (* a pointer to a container *)

Abbreviation robj := (Robj payload).

(** ** Constructors *)

Definition CreateObject (typ : ObjectType) (ptr : payload) : robj := mkRobj typ OBJ_ENCODING_RAW 0 ptr.
Definition CreateRawStringObject (val : bytes) : robj := mkRobj OBJ_STRING OBJ_ENCODING_RAW 0 (PBytes val).
Definition CreateStringObject (val : bytes) : robj := mkRobj OBJ_STRING OBJ_ENCODING_EMBSTR 0 (PString val).
Definition CreateStringObjectFromLongLong (val : Z) : robj := mkRobj OBJ_STRING OBJ_ENCODING_INT 0 (PInt64 val).

Definition embstrSizeLimit : Z := 44.

Definition parseExactInt64 (val : bytes) : option Z :=
  if (zlen val =? 0) || (20 <? zlen val) then None
  else match ParseInt val with
       | None => None
       | Some n => if bool_decide (FormatInt n = val) then Some n else None
       end.

Definition TryEncodeString (val : bytes) : robj :=
  match parseExactInt64 val with
  | Some n => CreateStringObjectFromLongLong n
  | None =>
    if zlen val <=? embstrSizeLimit then mkRobj OBJ_STRING OBJ_ENCODING_EMBSTR 0 (PString val)
    else CreateRawStringObject val
  end.

(** ** Accessors *)

(** [Bytes] and [String]: [None] stands for the [%v] rendering of a pointer, which no handler asks for. *)
Definition Bytes (o : robj) : option bytes :=
  match o_Ptr o with
  | PBytes b | PString b => Some b
  | PInt64 n => Some (FormatInt n)
  | PRef _ => None
  end.

(** [Int64]: [None] is the error. *)
Definition Int64 (o : robj) : option Z :=
  match o_Ptr o with
  | PInt64 n => Some n
  | PBytes b | PString b => ParseInt b
  | PRef _ => None
  end.

Definition TypeName (o : robj) : bytes :=
  match o_Type o with
  | OBJ_STRING => str "string" | OBJ_LIST => str "list" | OBJ_SET => str "set" | OBJ_ZSET => str "zset"
  | OBJ_HASH => str "hash" | OBJ_MODULE => str "module" | OBJ_STREAM => str "stream" | OBJ_ARRAY => str "array"
  end.

Definition EncodingName (o : robj) : bytes :=
  match o_Encoding o with
  | OBJ_ENCODING_RAW => str "raw" | OBJ_ENCODING_INT => str "int" | OBJ_ENCODING_HT => str "hashtable"
  | OBJ_ENCODING_ZIPMAP => str "zipmap" | OBJ_ENCODING_LINKEDLIST => str "linkedlist"
  | OBJ_ENCODING_ZIPLIST => str "ziplist" | OBJ_ENCODING_INTSET => str "intset"
  | OBJ_ENCODING_SKIPLIST => str "skiplist" | OBJ_ENCODING_EMBSTR => str "embstr"
  | OBJ_ENCODING_QUICKLIST => str "quicklist" | OBJ_ENCODING_STREAM => str "stream"
  | OBJ_ENCODING_LISTPACK => str "listpack"
  end.

(** ** Encoding thresholds *)

Record limits := mkLimits {
  HashMaxListpackEntries : Z; HashMaxListpackValue : Z;
  SetMaxIntsetEntries : Z; SetMaxListpackEntries : Z; SetMaxListpackValue : Z;
  ZsetMaxListpackEntries : Z; ZsetMaxListpackValue : Z;
  ListMaxListpackSize : Z
}.

Definition default_limits : limits := mkLimits 128 64 512 128 64 128 64 128.

(** [byName], as the position of the variable it points to. *)
Definition byName (name : bytes) : option nat :=
  if bool_decide (name = str "hash-max-listpack-entries" \/ name = str "hash-max-ziplist-entries") then Some 0%nat
  else if bool_decide (name = str "hash-max-listpack-value" \/ name = str "hash-max-ziplist-value") then Some 1%nat
  else if bool_decide (name = str "set-max-intset-entries") then Some 2%nat
  else if bool_decide (name = str "set-max-listpack-entries") then Some 3%nat
  else if bool_decide (name = str "set-max-listpack-value") then Some 4%nat
  else if bool_decide (name = str "zset-max-listpack-entries" \/ name = str "zset-max-ziplist-entries") then Some 5%nat
  else if bool_decide (name = str "zset-max-listpack-value" \/ name = str "zset-max-ziplist-value") then Some 6%nat
  else if bool_decide (name = str "list-max-listpack-size" \/ name = str "list-max-ziplist-size") then Some 7%nat
  else None.

Definition limits_list (L : limits) : list Z :=
  [HashMaxListpackEntries L; HashMaxListpackValue L; SetMaxIntsetEntries L; SetMaxListpackEntries L;
   SetMaxListpackValue L; ZsetMaxListpackEntries L; ZsetMaxListpackValue L; ListMaxListpackSize L].

Definition limits_of_list (l : list Z) : limits :=
  let f i := default 0 (l !! i) in
  mkLimits (f 0%nat) (f 1%nat) (f 2%nat) (f 3%nat) (f 4%nat) (f 5%nat) (f 6%nat) (f 7%nat).

Definition encoding_Set (L : limits) (name : bytes) (v : Z) : limits * bool :=
  match byName name with
  | None => (L, false)
  | Some i => (limits_of_list (<[i := v]> (limits_list L)), true)
  end.

Definition encoding_Get (L : limits) (name : bytes) : option Z :=
  i ← byName name; limits_list L !! i.

(** ** Whole values at once *)

Definition append_all (lp : Listpack) (items : list bytes) : Listpack := fold_left Listpack.Append items lp.

Fixpoint add_all (st : IntSet) (members : list bytes) : option IntSet :=
  match members with
  | [] => Some st
  | m :: members =>
    let n := default 0 (Intset.Parse m) in
    '(st, _) ← Intset.Add st n; add_all st members
  end.

Fixpoint push_all (ql : Quicklist) (items : list bytes) : option Quicklist :=
  match items with
  | [] => Some ql
  | it :: items => ql ← Quicklist.RPush ql it; push_all ql items
  end.

Definition max_len (l : list bytes) : Z := fold_left (fun m x => if m <? zlen x then zlen x else m) l 0.

Definition NewSetFrom (L : limits) (members : list bytes) : option (ObjectEncoding * container) :=
  let allInts := forallb (fun m => bool_decide (is_Some (Intset.Parse m))) members in
  let maxLen := max_len members in
  if allInts && (zlen members <=? SetMaxIntsetEntries L) then
    st ← add_all Intset.New members; Some (OBJ_ENCODING_INTSET, CIntset st)
  else if (zlen members <=? SetMaxListpackEntries L) && (maxLen <=? SetMaxListpackValue L) then
    Some (OBJ_ENCODING_LISTPACK, CListpack (append_all Listpack.New members))
  else Some (OBJ_ENCODING_HT, CSet (set_Add NewSet members).1).

Fixpoint set_pairs (d : Dict) (entries : list bytes) : Dict :=
  match entries with
  | f :: v :: entries => set_pairs (dict_Set d f v).1 entries
  | _ => d
  end.

Definition NewHashFrom (L : limits) (entries : list bytes) : ObjectEncoding * container :=
  let maxLen := max_len entries in
  if (Z.quot (zlen entries) 2 <=? HashMaxListpackEntries L) && (maxLen <=? HashMaxListpackValue L)
  then (OBJ_ENCODING_LISTPACK, CListpack (append_all Listpack.New entries))
  else (OBJ_ENCODING_HT, CDict (set_pairs NewDict entries)).

Definition list_budget (limit : Z) : Z :=
  if limit =? -1 then 4 * 1024 else if limit =? -3 then 16 * 1024
  else if limit =? -4 then 32 * 1024 else if limit =? -5 then 64 * 1024 else 8 * 1024.

Definition NewListFrom (L : limits) (items : list bytes) : option (ObjectEncoding * container) :=
  let total := fold_left (fun t it => t + (zlen it + 2)) items 0 in
  let maxLen := max_len items in
  let limit := ListMaxListpackSize L in
  let compact := (maxLen <=? 64) && (if 0 <=? limit then zlen items <=? limit else total <=? list_budget limit) in
  if compact then Some (OBJ_ENCODING_LISTPACK, CListpack (append_all Listpack.New items))
  else ql ← push_all NewQuicklist items; Some (OBJ_ENCODING_QUICKLIST, CQuicklist ql).

(** ** What a payload means *)

Inductive rvalue :=
  | RString (s : bytes)
  | RList (l : list bytes)
  | RSet (s : gset bytes)
  | RHash (m : gmap bytes bytes).

Definition type_of (v : rvalue) : ObjectType :=
  match v with RString _ => OBJ_STRING | RList _ => OBJ_LIST | RSet _ => OBJ_SET | RHash _ => OBJ_HASH end.

(** The listpacks of the server: few and short elements, so that the buffer's length fits an [int]. *)
Definition compact (xs : list bytes) : Prop := zlen xs <= 2 ^ 32 /\ Forall (fun x => zlen x <= 2 ^ 28) xs.

Definition flat (kvs : list (bytes * bytes)) : list bytes := concat ((fun kv => [kv.1; kv.2]) <$> kvs).

(** A container of encoding [e] holds [v]. *)
Definition holds (e : ObjectEncoding) (c : container) (v : rvalue) : Prop :=
  match v, e, c with
  | RList xs, OBJ_ENCODING_LISTPACK, CListpack lp => Listpack.repr lp xs /\ compact xs
  | RList xs, OBJ_ENCODING_QUICKLIST, CQuicklist ql => exists l, Quicklist.repr ql l /\ contents l = xs
  | RSet s, OBJ_ENCODING_INTSET, CIntset st =>
      Intset.wf st /\ Forall is_int64 (vals st) /\ s = list_to_set (FormatInt <$> vals st)
  | RSet s, OBJ_ENCODING_LISTPACK, CListpack lp =>
      exists xs, Listpack.repr lp xs /\ compact xs /\ NoDup xs /\ s = list_to_set xs
  | RSet s, OBJ_ENCODING_HT, CSet t => s = set_m t
  | RHash m, OBJ_ENCODING_LISTPACK, CListpack lp =>
      exists kvs, Listpack.repr lp (flat kvs) /\ compact (flat kvs) /\ NoDup kvs.*1 /\ m = list_to_map kvs
  | RHash m, OBJ_ENCODING_HT, CDict d => dict_wf d /\ m = dict_map d
  | _, _, _ => False
  end.

(** The strings: the encoding tag tells the Go type of the payload; a raw string keeps any bytes. *)
Definition is_string (e : ObjectEncoding) (p : payload) (s : bytes) : Prop :=
  match e, p with
  | OBJ_ENCODING_INT, PInt64 n => is_int64 n /\ s = FormatInt n
  | OBJ_ENCODING_EMBSTR, PString b => s = b
  | OBJ_ENCODING_RAW, PBytes b => s = b
  | _, _ => False
  end.

(** What a client sees of an object stands for [v] in heap [h]. *)
Definition represents (h : gmap nat container) (w : ObjectType * ObjectEncoding * payload) (v : rvalue) : Prop :=
  let '(ty, e, p) := w in
  ty = type_of v /\
  match v with
  | RString s => is_string e p s
  | _ => exists l c, p = PRef l /\ h !! l = Some c /\ holds e c v
  end.

(** ** Strings *)

Lemma parseExactInt64_spec val n : parseExactInt64 val = Some n <-> val = FormatInt n /\ is_int64 n.
Proof. apply intset_parse_canonical. Qed.

Lemma TryEncodeString_string val :
  o_Type (TryEncodeString val) = OBJ_STRING /\
  is_string (o_Encoding (TryEncodeString val)) (o_Ptr (TryEncodeString val)) val.
Proof.
  unfold TryEncodeString. destruct (parseExactInt64 val) as [n|] eqn:E.
  - apply parseExactInt64_spec in E as [-> Hn]. done.
  - by destruct (zlen val <=? embstrSizeLimit).
Qed.

Lemma Bytes_string o s : is_string (o_Encoding o) (o_Ptr o) s -> Bytes o = Some s.
Proof. unfold Bytes, is_string. destruct (o_Encoding o), (o_Ptr o); intros H; simplify_eq; try done. by destruct H as [_ ->]. Qed.

Lemma Int64_string o s : is_string (o_Encoding o) (o_Ptr o) s -> Int64 o = ParseInt s.
Proof.
  unfold Int64, is_string. destruct (o_Encoding o), (o_Ptr o); intros H; simplify_eq; try done.
  destruct H as [Hn ->]. symmetry. by apply ParseInt_FormatInt.
Qed.

(** ** Sizes *)

Lemma compact_fits xs : zlen xs <= 2 ^ 32 + 2 -> Forall (fun x => zlen x <= 2 ^ 28) xs -> zlen (encs xs) <= max_int64.
Proof.
  intros Hn Hx. assert (zlen (encs xs) <= zlen xs * (2 ^ 28 + 10)); [|unfold max_int64; lia].
  clear Hn. induction Hx as [|x xs Hx _ IH]; [done|]. rewrite encs_cons, !zlen_app, zlen_cons.
  pose proof (PutUvarint_max (zlen x)). lia.
Qed.

Lemma compact_nil : compact [].
Proof. split; [done|constructor]. Qed.

Lemma max_len_spec l : Forall (fun x => zlen x <= max_len l) l /\ 0 <= max_len l.
Proof.
  unfold max_len. assert (forall k m, m <= fold_left (fun m x => if m <? zlen x then zlen x else m) k m /\
    Forall (fun x : bytes => zlen x <= fold_left (fun m x => if m <? zlen x then zlen x else m) k m) k) as H.
  { induction k as [|x k IH]; intros m; [split; [done|constructor]|]. cbn [fold_left].
    destruct (IH (if m <? zlen x then zlen x else m)) as [H1 H2].
    destruct (Z.ltb_spec m (zlen x)); split; try lia; constructor; (done || lia). }
  destruct (H l 0). by split.
Qed.

Lemma max_len_le l n : max_len l <= n -> Forall (fun x => zlen x <= n) l.
Proof.
  intros Hn. destruct (max_len_spec l) as [H _]. eapply Forall_impl; [done|]. cbv beta. lia.
Qed.

Lemma append_all_repr lp xs ys :
  Listpack.repr lp xs -> compact (xs ++ ys) -> Listpack.repr (append_all lp ys) (xs ++ ys).
Proof.
  revert lp xs. induction ys as [|y ys IH]; intros lp xs Hr Hc; [by rewrite app_nil_r|].
  replace (xs ++ y :: ys) with ((xs ++ [y]) ++ ys) in * by (by rewrite <- app_assoc). apply IH; [|done].
  destruct Hc as [Hn Hf]. apply Append_repr; [done|]. apply compact_fits; [zlen_lia|]. by apply Forall_app in Hf as [??].
Qed.

Lemma add_all_spec st ms :
  Intset.wf st -> Forall (fun m => is_Some (Intset.Parse m)) ms ->
  exists st', add_all st ms = Some st' /\ Intset.wf st' /\
    forall v, v ∈ vals st' <-> v ∈ vals st \/ FormatInt v ∈ ms /\ is_int64 v.
Proof.
  intros Hwf Hms. revert st Hwf. induction Hms as [|m ms [n Hn] _ IH]; intros st Hwf.
  { exists st. split_and!; [done..|]. intros v. rewrite elem_of_nil. naive_solver. }
  cbn [add_all]. rewrite Hn. cbv zeta. cbn [default from_option].
  destruct (Intset.Add_spec st n Hwf) as (st1 & E & Hwf1 & Hset). unfold id. rewrite E. go_bind.
  destruct (IH st1 Hwf1) as (st2 & -> & Hwf2 & Hv). exists st2. split_and!; [done..|]. intros v.
  apply Parse_canonical in Hn as [-> Hn].
  assert (v ∈ Intset.to_set st1 <-> v ∈ ({[n]} ∪ Intset.to_set st : gset Z)) as H by (by rewrite Hset).
  unfold Intset.to_set in H. rewrite elem_of_union, elem_of_singleton, !elem_of_list_to_set in H.
  rewrite Hv, H, elem_of_cons. split.
  - intros [[->|?]|[? ?]]; eauto.
  - intros [?|[[E'|?] Hi]]; eauto. left. left. by apply FormatInt_inj in E'.
Qed.

Lemma push_all_spec ql l ys :
  Quicklist.repr ql l -> exists ql' l', push_all ql ys = Some ql' /\ Quicklist.repr ql' l' /\ contents l' = contents l ++ ys.
Proof.
  revert ql l. induction ys as [|y ys IH]; intros ql l Hr.
  { exists ql, l. by rewrite app_nil_r. }
  destruct (RPush_repr ql l y Hr) as (ql1 & l1 & E1 & Hr1 & Hc1). cbn [push_all]. rewrite E1. go_bind.
  destruct (IH ql1 l1 Hr1) as (ql2 & l2 & -> & Hr2 & Hc2). exists ql2, l2. split_and!; [done..|].
  by rewrite Hc2, Hc1, <- app_assoc.
Qed.

Lemma flat_cons k v kvs : flat ((k, v) :: kvs) = k :: v :: flat kvs.
Proof. done. Qed.

Lemma flat_length kvs : zlen (flat kvs) = 2 * zlen kvs.
Proof. induction kvs as [|[k v] kvs IH]; [done|]. rewrite flat_cons, !zlen_cons. lia. Qed.

Lemma flat_app kvs kvs' : flat (kvs ++ kvs') = flat kvs ++ flat kvs'.
Proof. unfold flat. by rewrite fmap_app, concat_app. Qed.

Lemma set_pairs_spec d kvs :
  dict_wf d -> NoDup kvs.*1 -> (forall k, k ∈ kvs.*1 -> dict_map d !! k = None) ->
  dict_wf (set_pairs d (flat kvs)) /\ dict_map (set_pairs d (flat kvs)) = list_to_map kvs ∪ dict_map d.
Proof.
  revert d. induction kvs as [|[k v] kvs IH]; intros d Hd Hnd Hk.
  { cbn. by rewrite (left_id_L ∅ (∪)). }
  rewrite flat_cons. cbn [set_pairs]. cbn in Hnd. apply NoDup_cons in Hnd as [Hkn Hnd].
  destruct (dict_Set_spec d k v Hd) as (Hd1 & E1 & _).
  destruct (IH (dict_Set d k v).1 Hd1 Hnd) as [Hd2 E2].
  { intros j Hj. rewrite E1, lookup_insert_ne; [|intros ->; done]. apply Hk. cbn. by apply list_elem_of_further. }
  split; [done|]. rewrite E2, E1. cbn.
  rewrite <- insert_union_l, insert_union_r; [done|]. by apply not_elem_of_list_to_map_1.
Qed.

(** Thresholds as an administrator may set them: any entry count up to [2 ^ 31], any value
    size up to 256 MB, and any byte budget for lists. *)
Record limits_ok (L : limits) : Prop := {
  lo_hash_n : HashMaxListpackEntries L <= 2 ^ 31;
  lo_hash_v : HashMaxListpackValue L <= 2 ^ 28;
  lo_set_n : SetMaxListpackEntries L <= 2 ^ 31;
  lo_set_v : SetMaxListpackValue L <= 2 ^ 28;
  lo_list : ListMaxListpackSize L <= 2 ^ 31
}.

Lemma default_limits_ok : limits_ok default_limits.
Proof. split; cbn; lia. Qed.

Lemma Forall_le_weaken (xs : list bytes) a b : a <= b -> Forall (fun x => zlen x <= a) xs -> Forall (fun x => zlen x <= b) xs.
Proof. intros ? H. eapply Forall_impl; [exact H|]. cbv beta. lia. Qed.

Lemma total_spec items t :
  t + zlen items <= fold_left (fun t (it : bytes) => t + (zlen it + 2)) items t.
Proof.
  revert t. induction items as [|x items IH]; intros t; cbn [fold_left]; [rewrite zlen_nil; lia|].
  rewrite zlen_cons. specialize (IH (t + (zlen x + 2))). zlen_pose. lia.
Qed.

Lemma list_budget_bound z : 0 <= list_budget z <= 64 * 1024.
Proof. unfold list_budget. repeat case_match; lia. Qed.

(** A list loaded as a whole holds its items, in order. *)
Lemma NewListFrom_holds L items :
  limits_ok L -> exists e c, NewListFrom L items = Some (e, c) /\ holds e c (RList items).
Proof.
  intros HL. unfold NewListFrom. case_match eqn:E.
  - exists OBJ_ENCODING_LISTPACK, (CListpack (append_all Listpack.New items)). split; [done|].
    assert (compact items) as Hc.
    { bool_prop. split; [|eapply Forall_le_weaken; [|by apply max_len_le]; lia].
      pose proof (lo_list _ HL). pose proof (total_spec items 0).
      pose proof (list_budget_bound (ListMaxListpackSize L)).
      destruct (0 <=? ListMaxListpackSize L); bool_prop; lia. }
    split; [|done]. by apply (append_all_repr _ []); [apply New_repr|].
  - destruct (push_all_spec NewQuicklist [] items repr_new) as (ql & l & -> & Hr & Hc). go_bind.
    eexists _, _. split; [done|]. by exists l.
Qed.

(** A hash loaded as a whole maps its fields to its values. *)
Lemma NewHashFrom_holds L kvs :
  limits_ok L -> NoDup kvs.*1 ->
  holds (NewHashFrom L (flat kvs)).1 (NewHashFrom L (flat kvs)).2 (RHash (list_to_map kvs)).
Proof.
  intros HL Hnd. unfold NewHashFrom. case_match eqn:E; cbn [fst snd holds].
  - bool_prop. exists kvs. pose proof (lo_hash_n _ HL). pose proof (lo_hash_v _ HL).
    assert (compact (flat kvs)) as Hc.
    { split; [rewrite flat_length in *; rewrite Z.mul_comm, Z.quot_mul in * by lia; lia|].
      eapply Forall_le_weaken; [|by apply max_len_le]. lia. }
    split_and!; [|done..]. by apply (append_all_repr _ []); [apply New_repr|].
  - destruct (set_pairs_spec NewDict kvs NewDict_wf Hnd) as [Hd E2].
    { intros k _. apply lookup_empty. }
    split; [done|]. rewrite E2. symmetry. apply (right_id_L ∅ (∪)).
Qed.

(** A set loaded as a whole has its members. *)
Lemma NewSetFrom_holds L members :
  limits_ok L -> NoDup members -> exists e c, NewSetFrom L members = Some (e, c) /\ holds e c (RSet (list_to_set members)).
Proof.
  intros HL Hnd. unfold NewSetFrom. case_match eqn:E; [|case_match eqn:E2].
  - bool_prop. assert (Forall (fun m => is_Some (Intset.Parse m)) members) as Hms.
    { apply Forall_forall. intros m Hm. rewrite forallb_forall in H.
      specialize (H m (proj1 (list_elem_of_In _ _) Hm)). by bool_prop. }
    destruct (add_all_spec Intset.New members New_wf Hms) as (st & -> & Hwf & Hv). go_bind.
    eexists _, _. split; [done|]. cbn. split_and!; [done| |].
    + apply Forall_forall. intros v [Hn|[_ ?]]%Hv; [by apply not_elem_of_nil in Hn|done].
    + apply set_eq. intros m. rewrite !elem_of_list_to_set, list_elem_of_fmap. split.
      * intros Hm. rewrite Forall_forall in Hms. destruct (Hms m Hm) as [n [-> Hn]%Parse_canonical].
        exists n. split; [done|]. apply Hv. by right.
      * intros (n & -> & [Hn|[? _]]%Hv); [by apply not_elem_of_nil in Hn|done].
  - bool_prop. pose proof (lo_set_n _ HL). pose proof (lo_set_v _ HL). eexists _, _. split; [done|].
    exists members. assert (compact members) as Hc.
    { split; [lia|]. eapply Forall_le_weaken; [|by apply max_len_le]. lia. }
    split_and!; [|done..]. by apply (append_all_repr _ []); [apply New_repr|].
  - eexists _, _. split; [done|]. cbn. destruct (set_Add_spec NewSet members) as [-> _]. cbn. set_solver.
Qed.

(** ** Properties *)

(** Encoding is invisible for strings: whatever encoding [TryEncodeString] picks for a byte string,
    reading the object back gives the same bytes, and the object is integer encoded exactly when the bytes are
    the canonical decimal form of a 64-bit integer, in which case the number is the one they spell. *)
Theorem string_encoding_roundtrip (val : bytes) :
  Bytes (TryEncodeString val) = Some val /\ o_Type (TryEncodeString val) = OBJ_STRING /\
  (forall n, o_Ptr (TryEncodeString val) = PInt64 n <-> val = FormatInt n /\ is_int64 n).
Proof.
  destruct (TryEncodeString_string val) as [Ht Hs]. split_and!; [by apply Bytes_string|done|]. intros n.
  rewrite <- parseExactInt64_spec. unfold TryEncodeString. destruct (parseExactInt64 val); [cbn; naive_solver|].
  by destruct (zlen val <=? embstrSizeLimit).
Qed.

(** The threshold table: a known name is set and read back, the other thresholds keep their values, and an unknown
    name changes nothing. *)
Theorem encoding_set_get L name v name' :
  (forall i, byName name = Some i -> encoding_Get (encoding_Set L name v).1 name = Some v) /\
  (byName name' <> byName name -> encoding_Get (encoding_Set L name v).1 name' = encoding_Get L name') /\
  (byName name = None -> encoding_Set L name v = (L, false)).
Proof.
  assert (forall i, byName name = Some i -> (i < 8)%nat) as Hi.
  { intros i H. unfold byName in H. repeat (case_bool_decide; [injection H as <-; lia|]). done. }
  assert (forall l, length l = 8%nat -> limits_list (limits_of_list l) = l) as Hl.
  { intros l Hl. do 8 (destruct l as [|? l]; [done|]). by destruct l. }
  unfold encoding_Get, encoding_Set. split_and!.
  - intros i E. rewrite E. cbn [fst mbind option_bind]. rewrite Hl by by rewrite length_insert.
    apply list_lookup_insert_eq. by apply Hi.
  - intros Hne. destruct (byName name) as [i|]; [|done]. destruct (byName name') as [j|]; [|done].
    cbn [fst mbind option_bind]. rewrite Hl by by rewrite length_insert. apply list_lookup_insert_ne. congruence.
  - by intros ->.
Qed.
