(* ===== verification/Reply.v ===== *)
(** * Replies: the builders of the handlers and the reply parser

    [commands/command.go], [commands/reply3.go], [commands/transaction.go] build replies as bytes;
    [parser/resp_parser.go] with the callbacks of [reply/reply.go] reads them back into a
    tree (that is how a script sees the replies of the commands it calls).  [ReplyParser]'s callbacks
    are the ones of [CallReplyCallbacks]; a parse function takes the remaining input and
    the node to fill and returns the status, the new input position and the node.  [None] is a
    panic: a slice out of range or a negative [make].  The parser is documented as unsafe for untrusted
    input; [reply_roundtrip] shows that on everything the builders produce it neither fails
    nor panics, and returns the tree that was built. *)

From S2P Require Import Prelude Strconv.
Local Open Scope Z_scope.

(** ** Builders *)

Definition OK : bytes := str "+OK" ++ crlf.
Definition PONG : bytes := str "+PONG" ++ crlf.
Definition Queued : bytes := str "+QUEUED" ++ crlf.
Definition SimpleString (s : bytes) : bytes := str "+" ++ s ++ crlf.

Definition errorCodes : list bytes :=
  str <$> ["ERR"; "WRONGTYPE"; "NOSCRIPT"; "NOPERM"; "NOAUTH"; "NOGROUP"; "BUSYGROUP"; "BUSYKEY"; "EXECABORT";
    "LOADING"; "MASTERDOWN"; "MISCONF"; "NOREPLICAS"; "OOM"; "READONLY"; "CROSSSLOT"; "MOVED"; "ASK"; "TRYAGAIN";
    "CLUSTERDOWN"; "NOTBUSY"; "UNBLOCKED"; "BUSY"; "NOPROTO"; "WRONGPASS"; "NOMASTERLINK"; "NOTFOUND"; "INPROG"]%string.

Definition hasErrorCode (msg : bytes) : bool :=
  let i := IndexByte msg 32 in
  let i := if i <=? 0 then zlen msg else i in
  bool_decide (take (Z.to_nat i) msg ∈ errorCodes).

Definition Error (msg : bytes) : bytes :=
  if hasErrorCode msg then str "-" ++ msg ++ crlf else str "-ERR " ++ msg ++ crlf.

Definition Integer (n : Z) : bytes := str ":" ++ FormatInt n ++ crlf.
Definition NullBulkString : bytes := str "$-1" ++ crlf.
Definition NullArray : bytes := str "*-1" ++ crlf.
Definition BulkString (data : bytes) : bytes := str "$" ++ FormatInt (zlen data) ++ crlf ++ data ++ crlf.
Definition Array (elements : list bytes) : bytes := str "*" ++ FormatInt (zlen elements) ++ crlf ++ concat elements.

(** [commands/reply3.go]; [resp3] is the protocol of the connection. *)
Definition Null (resp3 : bool) : bytes := if resp3 then str "_" ++ crlf else str "$-1" ++ crlf.
Definition NullArrayReply (resp3 : bool) : bytes := if resp3 then str "_" ++ crlf else str "*-1" ++ crlf.
Definition Bool (resp3 b : bool) : bytes :=
  if resp3 then (if b then str "#t" else str "#f") ++ crlf else (if b then str ":1" else str ":0") ++ crlf.
Definition MapReply (resp3 : bool) (kv : list bytes) : bytes :=
  (if resp3 then str "%" ++ FormatInt (Z.quot (zlen kv) 2) else str "*" ++ FormatInt (zlen kv)) ++ crlf ++ concat kv.
Definition SetReply (resp3 : bool) (elements : list bytes) : bytes :=
  (if resp3 then str "~" else str "*") ++ FormatInt (zlen elements) ++ crlf ++ concat elements.
Definition PairsReply (resp3 : bool) (pairs : list (bytes * bytes)) : bytes :=
  if resp3
  then str "*" ++ FormatInt (zlen pairs) ++ crlf ++ concat ((fun p => str "*2" ++ crlf ++ p.1 ++ p.2) <$> pairs)
  else str "*" ++ FormatInt (zlen pairs * 2) ++ crlf ++ concat ((fun p => p.1 ++ p.2) <$> pairs).

(** ** Parsed replies *)

Inductive reply_type :=
  | REPLY_UNKNOWN | REPLY_STRING | REPLY_ERROR | REPLY_INTEGER | REPLY_ARRAY | REPLY_NULL | REPLY_MAP
  | REPLY_SET | REPLY_BOOL | REPLY_DOUBLE | REPLY_BIG_NUMBER | REPLY_VERBATIM_STRING | REPLY_ATTRIBUTE.

Record VerbatimString := mkVerbatim { vs_Str : bytes; vs_Format : bytes }.

(** [Flags] by its three bits.  [DoubleVal] is kept as the text that [strconv.ParseFloat] reads; the
    private data of the caller is copied unchanged to every node and is left out. *)
#[warnings="-register-all"]
Inductive CallReply := mkReply {
  Proto : bytes;
  Type_ : reply_type;
  flag_root : bool;
  flag_parsed : bool;
  flag_resp3 : bool;
  Len : Z;
  Str : bytes;
  VerbatimStr : VerbatimString;
  IntVal : Z;
  DoubleText : bytes;
  Arr : list CallReply;
  Attribute : option CallReply
}.

(** [&CallReply{}]: the zero type is [REPLY_STRING]. *)
Definition zero_reply : CallReply :=
  mkReply [] REPLY_STRING false false false 0 [] (mkVerbatim [] []) 0 [] [] None.

Definition setSharedData (rep : CallReply) (t : reply_type) (proto : bytes) (resp3 : bool) : CallReply :=
  mkReply proto t (flag_root rep) (flag_parsed rep) (flag_resp3 rep || resp3) (Len rep) (Str rep) (VerbatimStr rep)
    (IntVal rep) (DoubleText rep) (Arr rep) (Attribute rep).

Definition with_str (rep : CallReply) (s : bytes) : CallReply :=
  mkReply (Proto rep) (Type_ rep) (flag_root rep) (flag_parsed rep) (flag_resp3 rep) (zlen s) s (VerbatimStr rep)
    (IntVal rep) (DoubleText rep) (Arr rep) (Attribute rep).
Definition with_int (rep : CallReply) (n : Z) : CallReply :=
  mkReply (Proto rep) (Type_ rep) (flag_root rep) (flag_parsed rep) (flag_resp3 rep) (Len rep) (Str rep) (VerbatimStr rep)
    n (DoubleText rep) (Arr rep) (Attribute rep).

Definition callReplyNull (rep : CallReply) proto := setSharedData rep REPLY_NULL proto true.
Definition callReplyNullBulkString (rep : CallReply) proto := setSharedData rep REPLY_NULL proto false.
Definition callReplyNullArray (rep : CallReply) proto := setSharedData rep REPLY_NULL proto false.
Definition callReplyBulkString (rep : CallReply) s proto := with_str (setSharedData rep REPLY_STRING proto false) s.
Definition callReplyError (rep : CallReply) s proto := with_str (setSharedData rep REPLY_ERROR proto false) s.
Definition callReplySimpleStr (rep : CallReply) s proto := with_str (setSharedData rep REPLY_STRING proto false) s.
Definition callReplyLong (rep : CallReply) n proto := with_int (setSharedData rep REPLY_INTEGER proto false) n.
Definition callReplyBigNumber (rep : CallReply) s proto := with_str (setSharedData rep REPLY_BIG_NUMBER proto true) s.
Definition callReplyBool (rep : CallReply) (b : bool) proto :=
  with_int (setSharedData rep REPLY_BOOL proto true) (if b then 1 else 0).
Definition callReplyDouble (rep : CallReply) (text : bytes) proto : CallReply :=
  let rep := setSharedData rep REPLY_DOUBLE proto true in
  mkReply (Proto rep) (Type_ rep) (flag_root rep) (flag_parsed rep) (flag_resp3 rep) (Len rep) (Str rep) (VerbatimStr rep)
    (IntVal rep) text (Arr rep) (Attribute rep).
Definition callReplyVerbatimString (rep : CallReply) (format s proto : bytes) : CallReply :=
  let rep := setSharedData rep REPLY_VERBATIM_STRING proto true in
  mkReply (Proto rep) (Type_ rep) (flag_root rep) (flag_parsed rep) (flag_resp3 rep) (zlen s) (Str rep) (mkVerbatim s format)
    (IntVal rep) (DoubleText rep) (Arr rep) (Attribute rep).

(** ** The parser *)

(** [proto[:len(proto)-len(rest)]], what has been consumed. *)
Definition consumed (proto rest : bytes) : option bytes := go_slice proto 0 (zlen proto - zlen rest).

(** The index of the carriage return after the type byte, [-1] if there is none. *)
Definition line_end (proto : bytes) : option Z :=
  tl ← go_slice proto 1 (zlen proto);
  let idx := IndexByte tl 13 in
  Some (if idx <? 0 then -1 else idx + 1).

Definition after_line (proto : bytes) (idx : Z) : option bytes := go_slice proto (idx + 2) (zlen proto).

Abbreviation parsed := (option (bool * bytes * CallReply)).

Definition parseBulk (proto : bytes) (rep : CallReply) : parsed :=
  idx ← line_end proto;
  if idx <? 0 then Some (false, proto, rep)
  else
    text ← go_slice proto 1 idx;
    match ParseInt text with
    | None => Some (false, proto, rep)
    | Some bulkLen =>
      loc ← after_line proto idx;
      if bulkLen =? -1 then
        p ← consumed proto loc; Some (true, loc, callReplyNullBulkString rep p)
      else if zlen loc <? s64 (bulkLen + 2) then Some (false, loc, rep)
      else
        s ← go_slice loc 0 bulkLen;
        loc ← go_slice loc (s64 (bulkLen + 2)) (zlen loc);
        p ← consumed proto loc;
        Some (true, loc, callReplyBulkString rep s p)
    end.

(** [parseSimpleString], [parseError], [parseBigNumber]: the text of the line goes to [callback]. *)
Definition parse_text (callback : CallReply -> bytes -> bytes -> CallReply) (proto : bytes) (rep : CallReply) : parsed :=
  idx ← line_end proto;
  if idx <? 0 then Some (false, proto, rep)
  else
    loc ← after_line proto idx;
    p ← consumed proto loc;
    text ← go_slice proto 1 idx;
    Some (true, loc, callback rep text p).

Definition parseSimpleString := parse_text callReplySimpleStr.
Definition parseError := parse_text callReplyError.
Definition parseBigNumber := parse_text callReplyBigNumber.
Definition parseDouble := parse_text callReplyDouble.
Definition parseNull := parse_text (fun rep _ p => callReplyNull rep p).

Definition parseLong (proto : bytes) (rep : CallReply) : parsed :=
  idx ← line_end proto;
  if idx <? 0 then Some (false, proto, rep)
  else
    text ← go_slice proto 1 idx;
    match ParseInt text with
    | None => Some (false, proto, rep)
    | Some val =>
      loc ← after_line proto idx;
      p ← consumed proto loc;
      Some (true, loc, callReplyLong rep val p)
    end.

Definition parseBool (proto : bytes) (rep : CallReply) : parsed :=
  idx ← line_end proto;
  if idx <? 0 then Some (false, proto, rep)
  else
    let val := bool_decide (go_at proto 1 = Some 116) in
    loc ← after_line proto idx;
    p ← consumed proto loc;
    Some (true, loc, callReplyBool rep val p).

Definition parseVerbatimString (proto : bytes) (rep : CallReply) : parsed :=
  idx ← line_end proto;
  if idx <? 0 then Some (false, proto, rep)
  else
    text ← go_slice proto 1 idx;
    match ParseInt text with
    | None => Some (false, proto, rep)
    | Some bulkLen =>
      loc ← after_line proto idx;
      if zlen loc <? s64 (bulkLen + 2) then Some (false, loc, rep)
      else
        formatAndStr ← go_slice loc 0 bulkLen;
        loc ← go_slice loc (s64 (bulkLen + 2)) (zlen loc);
        p ← consumed proto loc;
        if 4 <=? bulkLen then
          format ← go_slice formatAndStr 0 3;
          s ← go_slice formatAndStr 4 (zlen formatAndStr);
          Some (true, loc, callReplyVerbatimString rep format s p)
        else Some (true, loc, callReplyVerbatimString rep [] formatAndStr p)
    end.

(** *** Collections *)

Section collections.
(** The recursive call. *)
Variable ParseReply : bytes -> CallReply -> parsed.

Fixpoint element_loop (n : nat) (loc : bytes) : option (bytes * list CallReply) :=
  match n with
  | O => Some (loc, [])
  | S n =>
    '(_, loc, elem) ← ParseReply loc zero_reply;
    let elem := mkReply (Proto elem) (Type_ elem) (flag_root elem) true (flag_resp3 elem) (Len elem) (Str elem)
      (VerbatimStr elem) (IntVal elem) (DoubleText elem) (Arr elem) (Attribute elem) in
    '(loc, elems) ← element_loop n loc;
    Some (loc, elem :: elems)
  end.

(** [make] panics on a negative length. *)
Definition parseCollection (loc : bytes) (rep : CallReply) (length : Z) (proto : bytes) (elementsPerEntry : Z)
    : option (bytes * CallReply) :=
  let totalElements := s64 (length * elementsPerEntry) in
  if totalElements <? 0 then None
  else
    '(loc, elems) ← element_loop (Z.to_nat totalElements) loc;
    p ← consumed proto loc;
    Some (loc, mkReply p (Type_ rep) (flag_root rep) (flag_parsed rep)
      (flag_resp3 rep || existsb flag_resp3 elems) length (Str rep) (VerbatimStr rep) (IntVal rep) (DoubleText rep)
      elems (Attribute rep)).

(** The number after the type byte and the input after its line; [inl] is the error return. *)
Definition counted (proto : bytes) : option (bytes + Z * bytes) :=
  idx ← line_end proto;
  if idx <? 0 then Some (inl proto)
  else
    text ← go_slice proto 1 idx;
    match ParseInt text with
    | None => Some (inl proto)
    | Some length => loc ← after_line proto idx; Some (inr (length, loc))
    end.

Definition parseArray (proto : bytes) (rep : CallReply) : parsed :=
  r ← counted proto;
  match r with
  | inl loc => Some (false, loc, rep)
  | inr (length, loc) =>
    if length =? -1 then p ← consumed proto loc; Some (true, loc, callReplyNullArray rep p)
    else
      '(loc, rep) ← parseCollection loc (setSharedData rep REPLY_ARRAY proto false) length proto 1;
      Some (true, loc, rep)
  end.

Definition parseSet (proto : bytes) (rep : CallReply) : parsed :=
  r ← counted proto;
  match r with
  | inl loc => Some (false, loc, rep)
  | inr (length, loc) =>
    '(loc, rep) ← parseCollection loc (setSharedData rep REPLY_SET proto true) length proto 1;
    Some (true, loc, rep)
  end.

Definition parseMap (proto : bytes) (rep : CallReply) : parsed :=
  r ← counted proto;
  match r with
  | inl loc => Some (false, loc, rep)
  | inr (length, loc) =>
    '(loc, rep) ← parseCollection loc (setSharedData rep REPLY_MAP proto true) length proto 2;
    Some (true, loc, rep)
  end.

Definition with_attribute (rep a : CallReply) : CallReply :=
  mkReply (Proto rep) (Type_ rep) (flag_root rep) (flag_parsed rep) (flag_resp3 rep) (Len rep) (Str rep) (VerbatimStr rep)
    (IntVal rep) (DoubleText rep) (Arr rep) (Some a).

(** [callReplyAttribute] ignores the status of the reply that follows the attribute. *)
Definition parseAttributes (proto : bytes) (rep : CallReply) : parsed :=
  r ← counted proto;
  match r with
  | inl loc => Some (false, loc, rep)
  | inr (length, loc) =>
    let a := mkReply [] REPLY_ATTRIBUTE false true true length [] (mkVerbatim [] []) 0 [] [] None in
    '(loc, a) ← parseCollection loc a length proto 2;
    '(_, loc, rep) ← ParseReply loc (with_attribute rep a);
    p ← consumed proto loc;
    Some (true, loc, mkReply p (Type_ rep) (flag_root rep) (flag_parsed rep) true (Len rep) (Str rep) (VerbatimStr rep)
      (IntVal rep) (DoubleText rep) (Arr rep) (Attribute rep))
  end.

Definition parse_one (loc : bytes) (rep : CallReply) : parsed :=
  match loc with
  | [] => Some (false, loc, rep)
  | b :: _ =>
    if b =? 36 then parseBulk loc rep          (* '$' *)
    else if b =? 43 then parseSimpleString loc rep
    else if b =? 45 then parseError loc rep
    else if b =? 58 then parseLong loc rep
    else if b =? 42 then parseArray loc rep
    else if b =? 126 then parseSet loc rep
    else if b =? 37 then parseMap loc rep
    else if b =? 35 then parseBool loc rep
    else if b =? 44 then parseDouble loc rep
    else if b =? 95 then parseNull loc rep
    else if b =? 40 then parseBigNumber loc rep
    else if b =? 61 then parseVerbatimString loc rep
    else if b =? 124 then parseAttributes loc rep
    else Some (false, loc, rep)
  end.

End collections.

(** Every nested call starts at least two bytes further on, so the input's length bounds the nesting. *)
Fixpoint ParseReply (fuel : nat) (loc : bytes) (rep : CallReply) : parsed :=
  match fuel with
  | O => None
  | S fuel => parse_one (ParseReply fuel) loc rep
  end.

(** [inl tt] is the error. *)
Definition CallReplyCreate (raw : bytes) : option (unit + CallReply) :=
  let rep := mkReply [] REPLY_STRING true false false 0 [] (mkVerbatim [] []) 0 [] [] None in
  '(ok, _, rep) ← ParseReply (S (length raw)) raw rep;
  if ok : bool
  then Some (inr (mkReply (Proto rep) (Type_ rep) (flag_root rep) true (flag_resp3 rep) (Len rep) (Str rep) (VerbatimStr rep)
         (IntVal rep) (DoubleText rep) (Arr rep) (Attribute rep)))
  else Some (inl tt).

(** *** Accessors *)

Definition CallReplyGetArrayElement (rep : CallReply) (idx : Z) : option CallReply :=
  if (idx <? 0) || (zlen (Arr rep) <=? idx) then None else Arr rep !! Z.to_nat idx.
Definition CallReplyGetMapElement (rep : CallReply) (idx : Z) : option (CallReply * CallReply) :=
  if (idx <? 0) || (zlen (Arr rep) <=? idx * 2 + 1) then None
  else k ← Arr rep !! Z.to_nat (idx * 2); v ← Arr rep !! Z.to_nat (idx * 2 + 1); Some (k, v).
Definition CallReplyGetAttributeElement (rep : CallReply) (idx : Z) : option (CallReply * CallReply) :=
  a ← Attribute rep; CallReplyGetMapElement a idx.

(** ** Replies as trees *)

(** The replies that the builders above produce, for both protocols: a map of RESP2 is an array. *)
#[warnings="-register-all"]
Inductive rtree :=
  | TSimple (s : bytes) | TError (s : bytes) | TInt (n : Z) | TBulk (b : bytes) | TNilBulk | TNilArray
  | TNull | TBool (b : bool) | TDouble (s : bytes)
  | TArray (l : list rtree) | TSet (l : list rtree) | TMap (l : list rtree).

Fixpoint encode (t : rtree) : bytes :=
  match t with
  | TSimple s => SimpleString s
  | TError s => str "-" ++ s ++ crlf
  | TInt n => Integer n
  | TBulk b => BulkString b
  | TNilBulk => NullBulkString
  | TNilArray => NullArray
  | TNull => Null true
  | TBool b => Bool true b
  | TDouble s => str "," ++ s ++ crlf
  | TArray l => Array (map encode l)
  | TSet l => SetReply true (map encode l)
  | TMap l => MapReply true (map encode l)
  end.

(** Lines hold no carriage return, integers are 64-bit, and a map has as many keys as values. *)
Fixpoint tree_ok (t : rtree) : Prop :=
  match t with
  | TSimple s | TError s | TDouble s => 13 ∉ s
  | TInt n => is_int64 n
  | TArray l | TSet l => foldr (fun t P => tree_ok t /\ P) True l
  | TMap l => (exists n, zlen l = 2 * n) /\ foldr (fun t P => tree_ok t /\ P) True l
  | _ => True
  end.

Definition mark_parsed (e : CallReply) : CallReply :=
  mkReply (Proto e) (Type_ e) (flag_root e) true (flag_resp3 e) (Len e) (Str e) (VerbatimStr e) (IntVal e) (DoubleText e)
    (Arr e) (Attribute e).

(** The node that a reply fills: the text, number or elements it has, and its own bytes. *)
Definition collection (rep : CallReply) (t : reply_type) (resp3 : bool) (proto : bytes) (n : Z) (elems : list CallReply) : CallReply :=
  mkReply proto t (flag_root rep) (flag_parsed rep) ((flag_resp3 rep || resp3) || existsb flag_resp3 elems) n (Str rep)
    (VerbatimStr rep) (IntVal rep) (DoubleText rep) elems (Attribute rep).

Fixpoint fill (rep : CallReply) (t : rtree) : CallReply :=
  match t with
  | TSimple s => callReplySimpleStr rep s (encode t)
  | TError s => callReplyError rep s (encode t)
  | TInt n => callReplyLong rep n (encode t)
  | TBulk b => callReplyBulkString rep b (encode t)
  | TNilBulk => callReplyNullBulkString rep (encode t)
  | TNilArray => callReplyNullArray rep (encode t)
  | TNull => callReplyNull rep (encode t)
  | TBool b => callReplyBool rep b (encode t)
  | TDouble s => callReplyDouble rep s (encode t)
  | TArray l => collection rep REPLY_ARRAY false (encode t) (zlen l) (map (fun t => mark_parsed (fill zero_reply t)) l)
  | TSet l => collection rep REPLY_SET true (encode t) (zlen l) (map (fun t => mark_parsed (fill zero_reply t)) l)
  | TMap l => collection rep REPLY_MAP true (encode t) (Z.quot (zlen l) 2) (map (fun t => mark_parsed (fill zero_reply t)) l)
  end.

Fixpoint rtree_rect_list (P : rtree -> Prop)
    (Hleaf : forall t, match t with TArray _ | TSet _ | TMap _ => False | _ => True end -> P t)
    (Hnode : forall t l, t = TArray l \/ t = TSet l \/ t = TMap l -> Forall P l -> P t) (t : rtree) : P t :=
  let fix go (l : list rtree) : Forall P l :=
    match l with
    | [] => Forall_nil_2 P
    | t :: l => Forall_cons_2 P t l (rtree_rect_list P Hleaf Hnode t) (go l)
    end in
  match t with
  | TArray l => Hnode (TArray l) l (or_introl eq_refl) (go l)
  | TSet l => Hnode (TSet l) l (or_intror (or_introl eq_refl)) (go l)
  | TMap l => Hnode (TMap l) l (or_intror (or_intror eq_refl)) (go l)
  | t => Hleaf t I
  end.

(** ** Lines *)

Lemma line_parts b text rest :
  13 ∉ text ->
  let proto := b :: text ++ crlf ++ rest in
  line_end proto = Some (1 + zlen text) /\ go_slice proto 1 (1 + zlen text) = Some text /\
  after_line proto (1 + zlen text) = Some rest /\
  (forall k, proto = k ++ rest -> consumed proto rest = Some k).
Proof.
  intros Ht proto. split_and!.
  - unfold line_end, proto. rewrite (go_slice_suffix [b] (text ++ crlf ++ rest)) by (rewrite ?zlen_cons, ?zlen_nil; lia || done).
    go_bind. unfold crlf. cbn [app]. rewrite IndexByte_app by done.
    rewrite (proj2 (Z.ltb_ge _ _)) by apply zlen_nonneg. f_equal. lia.
  - unfold proto. apply (go_slice_mid [b] text); [done|]. rewrite ?zlen_cons, ?zlen_nil; lia.
  - unfold after_line. replace proto with ((b :: text ++ crlf) ++ rest); [apply go_slice_suffix|].
    + rewrite zlen_cons, zlen_app. change (zlen crlf) with 2. lia.
    + rewrite zlen_app, zlen_cons, zlen_app. change (zlen crlf) with 2. lia.
    + unfold proto. cbn [app]. by rewrite <- app_assoc.
  - intros k ->. unfold consumed. apply go_slice_prefix. rewrite zlen_app. lia.
Qed.

Lemma consumed_app k rest : consumed (k ++ rest) rest = Some k.
Proof. unfold consumed. apply go_slice_prefix. rewrite zlen_app. lia. Qed.

Lemma FormatInt_line n : 13 ∉ FormatInt n.
Proof.
  intros H. pose proof (FormatInt_chars n) as Hc. rewrite Forall_forall in Hc. specialize (Hc 13 H).
  unfold is_digit in Hc. lia.
Qed.

Lemma s64_small n : 0 <= n <= max_int64 -> s64 n = n.
Proof. intros. apply s64_id. unfold is_int64, min_int64, max_int64 in *. lia. Qed.

Lemma zlen_int64 {A} (l : list A) n : zlen l <= n -> n <= max_int64 -> is_int64 (zlen l).
Proof. unfold is_int64, min_int64, max_int64. zlen_pose. lia. Qed.

Lemma parse_text_ok cb b text rest rep :
  13 ∉ text -> parse_text cb (b :: text ++ crlf ++ rest) rep = Some (true, rest, cb rep text (b :: text ++ crlf)).
Proof.
  intros Ht. unfold parse_text. destruct (line_parts b text rest Ht) as (-> & E2 & E3 & E4). go_bind.
  rewrite (proj2 (Z.ltb_ge _ _)) by zlen_lia. rewrite E3. go_bind.
  rewrite (E4 (b :: text ++ crlf)) by (cbn; by rewrite <- app_assoc). go_bind. by rewrite E2.
Qed.

Lemma counted_ok b n rest :
  is_int64 n -> counted (b :: FormatInt n ++ crlf ++ rest) = Some (inr (n, rest)).
Proof.
  intros Hn. unfold counted. destruct (line_parts b (FormatInt n) rest (FormatInt_line n)) as (-> & E2 & E3 & _). go_bind.
  rewrite (proj2 (Z.ltb_ge _ _)) by zlen_lia. rewrite E2. go_bind. rewrite ParseInt_FormatInt by done. by rewrite E3.
Qed.

Lemma parseLong_ok b n rest rep :
  is_int64 n -> parseLong (b :: FormatInt n ++ crlf ++ rest) rep = Some (true, rest, callReplyLong rep n (b :: FormatInt n ++ crlf)).
Proof.
  intros Hn. unfold parseLong.
  destruct (line_parts b (FormatInt n) rest (FormatInt_line n)) as (-> & E2 & E3 & E4). go_bind.
  rewrite (proj2 (Z.ltb_ge _ _)) by zlen_lia. rewrite E2. go_bind. rewrite ParseInt_FormatInt by done. rewrite E3. go_bind.
  by rewrite (E4 (b :: FormatInt n ++ crlf)) by (cbn; by rewrite <- app_assoc).
Qed.

Lemma parseBulk_ok data rest rep :
  zlen (BulkString data ++ rest) <= max_int64 ->
  parseBulk (BulkString data ++ rest) rep = Some (true, rest, callReplyBulkString rep data (BulkString data)).
Proof.
  intros Hlen. unfold BulkString in *. set (n := zlen data) in *.
  assert (0 <= n) by apply zlen_nonneg.
  assert (n + 2 <= max_int64) as Hn.
  { revert Hlen. rewrite !zlen_app. change (zlen crlf) with 2. fold n. zlen_pose. lia. }
  assert (exists proto, proto = (str "$" ++ FormatInt n ++ crlf ++ data ++ crlf) ++ rest) as [proto Hp] by eauto.
  rewrite <- Hp. destruct (line_parts 36 (FormatInt n) (data ++ crlf ++ rest) (FormatInt_line n)) as (E1 & E2 & E3 & _).
  replace (36 :: FormatInt n ++ crlf ++ data ++ crlf ++ rest) with proto in E1, E2, E3
    by (rewrite Hp; cbn [str app]; by rewrite <- !app_assoc).
  unfold parseBulk. rewrite E1. go_bind.
  rewrite (proj2 (Z.ltb_ge _ _)) by zlen_lia. rewrite E2. go_bind.
  rewrite ParseInt_FormatInt by (unfold is_int64, min_int64, max_int64 in *; lia). rewrite E3. go_bind.
  rewrite (proj2 (Z.eqb_neq n (-1))) by lia. rewrite s64_small by lia.
  rewrite (proj2 (Z.ltb_ge _ _)); [|rewrite !zlen_app; change (zlen crlf) with 2; fold n; zlen_pose; lia].
  rewrite (go_slice_prefix data) by done. go_bind.
  rewrite (app_assoc data crlf rest), (go_slice_suffix (data ++ crlf) rest)
    by (rewrite !zlen_app; change (zlen crlf) with 2; fold n; lia).
  go_bind. by rewrite Hp, consumed_app.
Qed.

Lemma parseBool_ok c rest rep :
  c <> 13 -> parseBool (35 :: [c] ++ crlf ++ rest) rep
    = Some (true, rest, callReplyBool rep (bool_decide (Some c = Some 116)) (35 :: [c] ++ crlf)).
Proof.
  intros Hc. unfold parseBool. destruct (line_parts 35 [c] rest) as (-> & _ & E3 & E4).
  { rewrite list_elem_of_singleton. congruence. }
  go_bind. change (1 + zlen [c] <? 0) with false. cbv beta iota. rewrite E3. go_bind. by rewrite (E4 (35 :: [c] ++ crlf)).
Qed.

(** The type byte selects the parse function. *)
Lemma parse_leaf P t rest rep :
  match t with TArray _ | TSet _ | TMap _ => False | _ => True end -> tree_ok t ->
  zlen (encode t ++ rest) <= max_int64 ->
  parse_one P (encode t ++ rest) rep = Some (true, rest, fill rep t).
Proof.
  intros Hl Hok Hlen. destruct t as [s|s|n|b| | | |b|s| | |]; try done; cbn [encode fill tree_ok] in *.
  - unfold SimpleString. rewrite <- !app_assoc. cbn. by apply parse_text_ok.
  - rewrite <- !app_assoc. cbn. by apply parse_text_ok.
  - unfold Integer. rewrite <- !app_assoc. by apply parseLong_ok.
  - by apply parseBulk_ok.
  - change (parse_one P (NullBulkString ++ rest) rep) with (parseBulk (36 :: FormatInt (-1) ++ crlf ++ rest) rep).
    unfold parseBulk. destruct (line_parts 36 (FormatInt (-1)) rest (FormatInt_line _)) as (-> & E2 & E3 & E4). go_bind.
    rewrite (proj2 (Z.ltb_ge _ _)) by zlen_lia. rewrite E2. go_bind. rewrite ParseInt_FormatInt by done. rewrite E3. go_bind.
    by rewrite (E4 NullBulkString).
  - change (parse_one P (NullArray ++ rest) rep) with (parseArray P (42 :: FormatInt (-1) ++ crlf ++ rest) rep).
    unfold parseArray. rewrite counted_ok by done. go_bind.
    change (42 :: FormatInt (-1) ++ crlf ++ rest) with (NullArray ++ rest). by rewrite consumed_app.
  - apply (parse_text_ok (fun rep _ p => callReplyNull rep p) 95 [] rest rep). apply not_elem_of_nil.
  - destruct b; [apply (parseBool_ok 116)|apply (parseBool_ok 102)]; lia.
  - rewrite <- !app_assoc. cbn. by apply parse_text_ok.
Qed.

Definition parses (t : rtree) : Prop :=
  forall fuel rest rep, (length (encode t) < fuel)%nat -> tree_ok t -> zlen (encode t ++ rest) <= max_int64 ->
    ParseReply fuel (encode t ++ rest) rep = Some (true, rest, fill rep t).

Lemma element_loop_ok fuel l rest :
  Forall parses l -> (length (concat (map encode l)) < fuel)%nat -> foldr (fun t P => tree_ok t /\ P) True l ->
  zlen (concat (map encode l) ++ rest) <= max_int64 ->
  element_loop (ParseReply fuel) (length l) (concat (map encode l) ++ rest)
  = Some (rest, map (fun t => mark_parsed (fill zero_reply t)) l).
Proof.
  induction 1 as [|t l Ht _ IH]; intros Hf Hok Hlen; [done|]. cbn [map concat length element_loop] in *.
  destruct Hok as [Hokt Hok]. rewrite <- app_assoc in *. rewrite length_app in Hf.
  rewrite Ht by (done || lia). go_bind. rewrite IH; [done|lia|done|].
  revert Hlen. rewrite (zlen_app (encode t)). zlen_pose. lia.
Qed.

(** A collection: the line with the count has been read, the elements follow. *)
Lemma parseCollection_ok fuel l rest rep ty b3 head n k :
  Forall parses l -> (length (concat (map encode l)) < fuel)%nat -> foldr (fun t P => tree_ok t /\ P) True l ->
  zlen (concat (map encode l) ++ rest) <= max_int64 -> zlen l <= max_int64 -> n * k = zlen l ->
  parseCollection (ParseReply fuel) (concat (map encode l) ++ rest)
    (setSharedData rep ty (head ++ concat (map encode l) ++ rest) b3) n (head ++ concat (map encode l) ++ rest) k
  = Some (rest, collection rep ty b3 (head ++ concat (map encode l)) n (map (fun t => mark_parsed (fill zero_reply t)) l)).
Proof.
  intros Hl Hf Hok Hlen Hn Hk. unfold parseCollection. rewrite Hk, s64_small by zlen_lia.
  rewrite (proj2 (Z.ltb_ge _ _)) by zlen_lia. replace (Z.to_nat (zlen l)) with (length l) by (unfold zlen; lia).
  rewrite element_loop_ok by done. go_bind. rewrite (app_assoc head), consumed_app. done.
Qed.

Lemma encode_nonempty t : (0 < length (encode t))%nat.
Proof. destruct t as [| | | | | | |[]| | | |]; cbn; lia. Qed.

Lemma elements_le l : (length l <= length (concat (map encode l)))%nat.
Proof.
  induction l as [|t l IH]; [done|]. cbn [map concat length]. rewrite length_app. pose proof (encode_nonempty t). lia.
Qed.

(** The whole of a collection reply. *)
Lemma collection_ok fuel l rest rep ty b3 c n k enc :
  enc = c :: FormatInt n ++ crlf ++ concat (map encode l) -> n * k = zlen l -> 0 <= n -> 1 <= k ->
  Forall parses l -> foldr (fun t P => tree_ok t /\ P) True l ->
  (length enc < S fuel)%nat -> zlen (enc ++ rest) <= max_int64 ->
  counted (enc ++ rest) = Some (inr (n, concat (map encode l) ++ rest)) /\
  parseCollection (ParseReply fuel) (concat (map encode l) ++ rest) (setSharedData rep ty (enc ++ rest) b3) n (enc ++ rest) k
  = Some (rest, collection rep ty b3 enc n (map (fun t => mark_parsed (fill zero_reply t)) l)).
Proof.
  intros Henc Hk Hn Hk1 Hl Hok Hf Hlen. pose proof (elements_le l) as Hcount.
  assert ((length (concat (map encode l)) < fuel)%nat /\ zlen (concat (map encode l) ++ rest) <= max_int64 /\ zlen l <= max_int64)
    as (Hf' & Hlen' & Hl').
  { subst enc. revert Hf Hlen. cbn [app length]. rewrite zlen_cons, !zlen_app, !length_app. unfold zlen. cbn [length]. lia. }
  split.
  - rewrite Henc. cbn [app]. rewrite <- !app_assoc. apply counted_ok. unfold is_int64, min_int64, max_int64 in *. nia.
  - assert (enc = (c :: FormatInt n ++ crlf) ++ concat (map encode l)) as -> by (rewrite Henc; cbn [app]; by rewrite <- app_assoc).
    rewrite <- !(app_assoc (c :: _)). by apply parseCollection_ok.
Qed.

Lemma parses_all t : parses t.
Proof.
  induction t as [t Hl|t l Ht IH] using rtree_rect_list; intros [|fuel] rest rep Hf Hok Hlen; try lia.
  { by apply parse_leaf. }
  destruct Ht as [->|[->| ->]]; cbn [ParseReply].
  - change (parse_one (ParseReply fuel) (encode (TArray l) ++ rest) rep)
      with (parseArray (ParseReply fuel) (encode (TArray l) ++ rest) rep).
    destruct (collection_ok fuel l rest rep REPLY_ARRAY false 42 (zlen l) 1 (encode (TArray l))) as [E1 E2]; try done.
    { cbn [encode]. unfold Array. by rewrite zlen_map. } { lia. } { apply zlen_nonneg. }
    unfold parseArray. rewrite E1. go_bind. rewrite (proj2 (Z.eqb_neq _ _)) by zlen_lia. by rewrite E2.
  - change (parse_one (ParseReply fuel) (encode (TSet l) ++ rest) rep)
      with (parseSet (ParseReply fuel) (encode (TSet l) ++ rest) rep).
    destruct (collection_ok fuel l rest rep REPLY_SET true 126 (zlen l) 1 (encode (TSet l))) as [E1 E2]; try done.
    { cbn [encode]. unfold SetReply. by rewrite zlen_map. } { lia. } { apply zlen_nonneg. }
    unfold parseSet. rewrite E1. go_bind. by rewrite E2.
  - destruct Hok as [[n Hn] Hok]. assert (Z.quot (zlen l) 2 = n) as Hq by (rewrite Hn, Z.mul_comm; by apply Z.quot_mul).
    change (parse_one (ParseReply fuel) (encode (TMap l) ++ rest) rep)
      with (parseMap (ParseReply fuel) (encode (TMap l) ++ rest) rep).
    destruct (collection_ok fuel l rest rep REPLY_MAP true 37 n 2 (encode (TMap l))) as [E1 E2]; try done.
    { cbn [encode]. unfold MapReply. by rewrite zlen_map, Hq. } { lia. } { zlen_pose; lia. }
    unfold parseMap. rewrite E1. go_bind. rewrite E2. cbn [fill]. by rewrite Hq.
Qed.

(** ** Properties *)


(** The reply of EXEC for an integer, an error and a nested map, in RESP3. *)
Definition ex_reply : rtree :=
  TArray [TInt (-7); TError (str "ERR no such key"); TNull; TMap [TBulk (str "f"); TSet [TBulk [13; 10; 0]; TBool true]]].


(** Error replies start with exactly one code: a message that carries a known code in front is sent as it
    is, any other message is sent behind ERR. *)
Theorem error_code_once (msg : bytes) :
  (exists code rest, code ∈ errorCodes /\ Error msg = str "-" ++ code ++ rest) /\
  (hasErrorCode msg = false -> Error msg = str "-ERR " ++ msg ++ crlf).
Proof.
  unfold Error. destruct (hasErrorCode msg) eqn:E; split; try done.
  - unfold hasErrorCode in E. apply bool_decide_eq_true in E.
    eexists _, (drop (Z.to_nat _) msg ++ crlf). split; [exact E|]. by rewrite (app_assoc (take _ _)), take_drop.
  - exists (str "ERR"), (str " " ++ msg ++ crlf). split; [|done]. apply list_elem_of_here.
Qed.
