(* ===== verification/Locks.v ===== *)
(** * The locks of the keyspace ([db/sharded.go], and how the commands take them)

    Every command runs under the shared side of [txMu] ([BeginOp]), EXEC, EVAL and the rewrite of the log under the exclusive side
    ([BeginTx]); a handler that reads and then writes holds the stripe of its key in between ([LockKey]).  Here the clients are
    threads that take and release these locks in any interleaving; the locks of the shards are taken and released inside one
    method and never block.  Go's [RWMutex] lets no new reader in while a writer waits, so taking it exclusively is two steps.

    [transactions_run_alone]: while a client is inside a transaction no other one is inside a handler, and two handlers at work have
    locked different keys, which is why EXEC and a handler that holds the stripes of its keys are single steps of the other models.
    [ordered_locks_finish]: as long as no command takes two stripes out of order and no script runs inside a transaction, every run
    finishes.  The code guarantees neither: [same_stripe_never_returns], the commands on two keys order them by name, not by stripe,
    and block themselves when the stripes are the same; [script_in_transaction_never_returns], EVAL locks again what EXEC has locked. *)

From S2P Require Import Prelude Object Db Stripes Reply.
Local Open Scope Z_scope.

(** ** What a thread does *)

Inductive act :=
  | RLock | RUnlock            (* BeginOp, EndOp *)
  | WAnnounce | WAcquire       (* BeginTx: no new readers, then no readers *)
  | WUnlock                    (* EndTx *)
  | LockStripe (i : Z) | UnlockStripe (i : Z)
  | Work (tx : bool) (keys : list bytes).  (* a part of a handler, in a transaction or not, between the locks of [keys] *)

#[global] Instance act_eq_dec : EqDecision act.
Proof. solve_decision. Defined.

Definition BeginOp : list act := [RLock].
Definition EndOp : list act := [RUnlock].
Definition BeginTx : list act := [WAnnounce; WAcquire].
Definition EndTx : list act := [WUnlock].
Definition LockKey (key : bytes) : list act := [LockStripe (stripe key)].
Definition UnlockKey (key : bytes) : list act := [UnlockStripe (stripe key)].

(** The handlers, as far as the key locks go: none, one, or the two of RENAME, COPY, SMOVE and LMOVE.  A handler that returns before it
    locks, as RENAME and COPY do for [src = dst], is [NoKey]. *)
Inductive locking := NoKey | OneKey (key : bytes) | TwoKeys (src dst : bytes).

(** The body of a handler reads and then writes; it can be interrupted in between. *)
Definition work (tx : bool) (keys : list bytes) : list act := [Work tx keys; Work tx keys].

Definition handler_acts (tx : bool) (l : locking) : list act :=
  match l with
  | NoKey => work tx []
  | OneKey key => LockKey key ++ work tx [key] ++ UnlockKey key
  | TwoKeys src dst =>
    let '(first, second) := lock_order src dst in
    let same := bool_decide (second = first) in
    LockKey first ++ (if same then [] else LockKey second) ++ work tx [first; second] ++ (if same then [] else UnlockKey second) ++ UnlockKey first
  end.

(** What runs inside a transaction: commands without a [BeginOp] of their own, and EVAL, which starts a transaction wherever it is. *)
Inductive inner := Handler (l : locking) | Script (ls : list locking).

Definition inner_acts (c : inner) : list act :=
  match c with
  | Handler l => handler_acts true l
  | Script ls => BeginTx ++ concat (handler_acts true <$> ls) ++ EndTx
  end.

(** A command on its own, or a transaction: EXEC with its queue, EVAL with the commands it calls, the rewrite of the log with none.
    A blocking read is several sections. *)
Inductive section := Op (l : locking) | Tx (cs : list inner).

Definition section_acts (c : section) : list act :=
  match c with
  | Op l => BeginOp ++ handler_acts false l ++ EndOp
  | Tx cs => BeginTx ++ concat (inner_acts <$> cs) ++ EndTx
  end.

Definition client_acts (cs : list section) : list act := concat (section_acts <$> cs).

(** ** Interleavings *)

(** What a thread has of [txMu]. *)
Inductive mode := Out | Reader | Pending | Writer.

Record thread := mkThread { th_mode : mode; th_held : list Z; th_todo : list act }.

Definition writes (m : mode) : bool := match m with Pending | Writer => true | _ => false end.
Definition reads_ (m : mode) : bool := match m with Reader => true | _ => false end.

(** May a thread of [ts] do [a]?  A stripe is not reentrant. *)
Definition enabled (ts : list thread) (a : act) : bool :=
  match a with
  | RLock | WAnnounce => forallb (fun t => negb (writes (th_mode t))) ts
  | WAcquire => forallb (fun t => negb (reads_ (th_mode t))) ts
  | LockStripe i => forallb (fun t => negb (bool_decide (i ∈ th_held t))) ts
  | _ => true
  end.

Definition after (t : thread) (a : act) (rest : list act) : thread :=
  match a with
  | RLock => mkThread Reader (th_held t) rest
  | WAnnounce => mkThread Pending (th_held t) rest
  | WAcquire => mkThread Writer (th_held t) rest
  | RUnlock | WUnlock => mkThread Out (th_held t) rest
  | LockStripe i => mkThread (th_mode t) (i :: th_held t) rest
  | UnlockStripe i => mkThread (th_mode t) (filter (fun j => j <> i) (th_held t)) rest
  | Work _ _ => mkThread (th_mode t) (th_held t) rest
  end.

Inductive lstep : list thread -> list thread -> Prop :=
  | lstep_act ts i t a rest : ts !! i = Some t -> th_todo t = a :: rest -> enabled ts a = true -> lstep ts (<[i := after t a rest]> ts).

Definition clients (css : list (list section)) : list thread := (fun cs => mkThread Out [] (client_acts cs)) <$> css.

Definition finished (ts : list thread) : Prop := Forall (fun t => th_todo t = []) ts.

(** ** Locks taken in order *)

(** What is left to do fits what is held: locks are released by who holds them, stripes are taken in ascending order and under [txMu]. *)
Fixpoint fits (m : mode) (held : list Z) (todo : list act) : Prop :=
  match todo with
  | [] => m = Out /\ held = []
  | RLock :: p => m = Out /\ held = [] /\ fits Reader [] p
  | WAnnounce :: p => m = Out /\ held = [] /\ fits Pending [] p
  | WAcquire :: p => m = Pending /\ held = [] /\ fits Writer [] p
  | RUnlock :: p => m = Reader /\ held = [] /\ fits Out [] p
  | WUnlock :: p => m = Writer /\ held = [] /\ fits Out [] p
  | LockStripe i :: p => (m = Reader \/ m = Writer) /\ Forall (fun j => j < i) held /\ fits m (i :: held) p
  | UnlockStripe i :: p => (m = Reader \/ m = Writer) /\ i ∈ held /\ fits m (filter (fun j => j <> i) held) p
  | Work _ _ :: p => (m = Reader \/ m = Writer) /\ True /\ fits m held p
  end.

Definition fitting (t : thread) : Prop := fits (th_mode t) (th_held t) (th_todo t).

Lemma fits_step t a rest : fitting t -> th_todo t = a :: rest -> fitting (after t a rest).
Proof. unfold fitting. intros Hf E. rewrite E in Hf. destruct a; cbn in *; destruct Hf as (? & Hh & Hf); try (rewrite Hh); done. Qed.

Lemma lstep_fitting ts ts' : lstep ts ts' -> Forall fitting ts -> Forall fitting ts'.
Proof. intros [ts0 i t a rest Hi Ht _] Hf. apply Forall_insert; [done|]. eapply fits_step; [|done]. by eapply Forall_lookup_1 in Hf. Qed.

(** Blocked at a stripe. *)
Definition waits (t : thread) : option Z := match th_todo t with LockStripe i :: _ => Some i | _ => None end.

Lemma max_waiting (ts : list thread) : (exists t i, t ∈ ts /\ waits t = Some i) -> exists t i, t ∈ ts /\ waits t = Some i /\ forall t' j, t' ∈ ts -> waits t' = Some j -> j <= i.
Proof.
  induction ts as [|t ts IH]; intros (t0 & i0 & Hin & Hw); [by apply not_elem_of_nil in Hin|].
  destruct (decide (List.Exists (fun t => is_Some (waits t)) ts)) as [Hex|Hnone].
  - destruct IH as (t1 & i1 & H1 & Hw1 & Hmax). { apply Exists_exists in Hex as (t1 & H1 & [i1 Hw1]). by exists t1, i1. }
    destruct (waits t) as [i|] eqn:Ew; [destruct (Z.le_gt_cases i i1)|].
    + exists t1, i1. split_and!; [by right|done|]. intros t' j [->|H']%elem_of_cons Hj; [congruence|by eapply Hmax].
    + exists t, i. split_and!; [by left|done|]. intros t' j [->|H']%elem_of_cons Hj; [rewrite Ew in Hj; by injection Hj as <-|]. pose proof (Hmax t' j H' Hj). lia.
    + exists t1, i1. split_and!; [by right|done|]. intros t' j [->|H']%elem_of_cons Hj; [congruence|by eapply Hmax].
  - assert (forall t', t' ∈ ts -> waits t' = None) as Hno.
    { intros t' H'. destruct (waits t') eqn:E; [|done]. destruct Hnone. apply Exists_exists. exists t'. by rewrite E. }
    apply elem_of_cons in Hin as [->|Hin]; [|by rewrite Hno in Hw]. exists t, i0. split_and!; [by left|done|]. intros t' j [->|H']%elem_of_cons Hj; [rewrite Hw in Hj; by injection Hj as <-|by rewrite Hno in Hj].
Qed.

Lemma lstep_in ts t a rest : t ∈ ts -> th_todo t = a :: rest -> enabled ts a = true -> exists ts', lstep ts ts'.
Proof. intros [i Hi]%list_elem_of_lookup Ht He. eexists. by eapply lstep_act. Qed.

(** Who holds a stripe works or releases one next, or waits for a larger one. *)
Definition unlocks (a : act) : bool := match a with RUnlock | WUnlock | UnlockStripe _ | Work _ _ => true | _ => false end.

Lemma holder_next t i : fitting t -> i ∈ th_held t -> (exists a rest, th_todo t = a :: rest /\ unlocks a = true) \/ exists j, waits t = Some j /\ i < j.
Proof.
  unfold fitting, waits. intros Hf Hi. destruct (th_todo t) as [|a rest]; cbn in Hf; [destruct Hf as [_ Hf]; rewrite Hf in Hi; by apply not_elem_of_nil in Hi|].
  destruct a; destruct Hf as (Hm & Hh & _); try (rewrite Hh in Hi; by apply not_elem_of_nil in Hi); [right|left; by eauto..].
  eexists. split; [done|]. by eapply Forall_forall in Hh.
Qed.

Lemma unlocks_enabled ts a : unlocks a = true -> enabled ts a = true.
Proof. by destruct a. Qed.

(** Neither waiting for a stripe nor about to work or release something. *)
Lemma at_the_gate t : fitting t -> waits t = None -> (forall a rest, th_todo t = a :: rest -> unlocks a = false) ->
  (th_mode t = Out /\ forall a rest, th_todo t = a :: rest -> a = RLock \/ a = WAnnounce) \/ (th_mode t = Pending /\ exists rest, th_todo t = WAcquire :: rest).
Proof.
  unfold fitting, waits. intros Hf Hw Hu. destruct (th_todo t) as [|a rest]; cbn in Hf; [left; by destruct Hf|].
  specialize (Hu a rest eq_refl). destruct a; try done; destruct Hf as (? & ? & ?); [left|left|right]; split; eauto; intros ? ? [= <- <-]; auto.
Qed.

Lemma some_step_or ts : Forall fitting ts -> (exists ts', lstep ts ts') \/ (Forall (fun t => waits t = None) ts /\ Forall (fun t => forall a rest, th_todo t = a :: rest -> unlocks a = false) ts).
Proof.
  intros Hf. rewrite Forall_forall in Hf.
  destruct (decide (List.Exists (fun t => match th_todo t with a :: _ => unlocks a | [] => false end = true) ts)) as [Hex|Hno].
  { left. apply Exists_exists in Hex as (t & Hin & Ht). destruct (th_todo t) as [|a rest] eqn:E; [done|]. eapply lstep_in; eauto using unlocks_enabled. }
  assert (Forall (fun t => forall a rest, th_todo t = a :: rest -> unlocks a = false) ts) as Hu.
  { apply Forall_forall. intros t Hin a rest E. destruct (unlocks a) eqn:Ea; [|done]. destruct Hno. apply Exists_exists. exists t. by rewrite E. }
  destruct (decide (List.Exists (fun t => is_Some (waits t)) ts)) as [Hex|Hnow].
  - left. destruct (max_waiting ts) as (t & i & Hin & Hw & Hmax). { apply Exists_exists in Hex as (t & H1 & [i Hi]). by exists t, i. }
    assert (exists rest, th_todo t = LockStripe i :: rest) as [rest E]. { unfold waits in Hw. destruct (th_todo t) as [|[] ?]; naive_solver. }
    eapply lstep_in; [done..|]. cbn. apply forallb_forall. intros t' Hin'%list_elem_of_In. apply negb_true_iff, bool_decide_eq_false. intros Hi.
    destruct (holder_next t' i) as [(a & r & Ej & Ha)|(j & Hj & Hlt)]; eauto.
    + eapply Forall_forall in Hu; [|exact Hin']. specialize (Hu _ _ Ej). congruence.
    + pose proof (Hmax _ _ Hin' Hj). lia.
  - right. split; [|done]. apply Forall_forall. intros t Hin. destruct (waits t) eqn:E; [|done]. destruct Hnow. apply Exists_exists. exists t. by rewrite E.
Qed.

(** The locks are free of deadlock as long as every thread fits. *)
Lemma lstep_progress ts : Forall fitting ts -> finished ts \/ exists ts', lstep ts ts'.
Proof.
  intros Hf. destruct (some_step_or ts Hf) as [?|[Hw Hu]]; [by right|].
  assert (forall t, t ∈ ts -> (th_mode t = Out /\ forall a rest, th_todo t = a :: rest -> a = RLock \/ a = WAnnounce) \/ (th_mode t = Pending /\ exists rest, th_todo t = WAcquire :: rest)) as Hg.
  { intros t Hin. rewrite Forall_forall in Hf. rewrite Forall_forall in Hw. rewrite Forall_forall in Hu. apply at_the_gate; auto. exact (Hu t Hin). }
  destruct (decide (List.Exists (fun t => writes (th_mode t) = true) ts)) as [Hex|Hno].
  { right. apply Exists_exists in Hex as (t & Hin & Ht). destruct (Hg t Hin) as [[Hm _]|[_ [rest E]]]; [by rewrite Hm in Ht|].
    eapply lstep_in; [done..|]. cbn. apply forallb_forall. intros t' Hin'%list_elem_of_In. by destruct (Hg t' Hin') as [[-> _]|[-> _]]. }
  destruct (decide (List.Exists (fun t => bool_decide (th_todo t = []) = false) ts)) as [Hex|Hall].
  2: { left. apply Forall_forall. intros t Hin. destruct (bool_decide (th_todo t = [])) eqn:E; [by apply bool_decide_eq_true in E|]. destruct Hall. apply Exists_exists. by exists t. }
  right. apply Exists_exists in Hex as (t & Hin & Ht%bool_decide_eq_false). destruct (th_todo t) as [|a rest] eqn:E; [done|]. eapply lstep_in; [done..|].
  assert (forallb (fun t => negb (writes (th_mode t))) ts = true) as Hall.
  { apply forallb_forall. intros t' Hin'%list_elem_of_In. destruct (writes (th_mode t')) eqn:Ew; [|done]. destruct Hno. apply Exists_exists. by exists t'. }
  destruct (Hg t Hin) as [[_ Ha]|[Hm _]]; [by destruct (Ha _ _ E) as [->| ->]|]. destruct Hno. apply Exists_exists. exists t. by rewrite Hm.
Qed.

(** Every step does one of the actions left. *)
Definition steps_left (ts : list thread) : nat := sum_list_with (fun t => length (th_todo t)) ts.

Lemma lstep_left ts ts' : lstep ts ts' -> steps_left ts = S (steps_left ts').
Proof.
  intros [ts0 i t a rest Hi Ht _]. unfold steps_left. revert i Hi. induction ts0 as [|t0 ts0 IH]; intros [|i] Hi; cbn in *; [done..| |].
  - injection Hi as ->. rewrite Ht. by destruct a.
  - rewrite (IH i Hi). by rewrite Nat.add_succ_r.
Qed.

(** The two keys of a command are the same or lie, in the order they are taken, in ascending stripes. *)
Definition in_order (l : locking) : Prop :=
  match l with
  | TwoKeys src dst => src = dst \/ let '(first, second) := lock_order src dst in stripe first < stripe second
  | _ => True
  end.

(** And no script runs inside a transaction. *)
Definition inner_in_order (c : inner) : Prop := match c with Handler l => in_order l | Script _ => False end.

Definition section_in_order (c : section) : Prop := match c with Op l => in_order l | Tx cs => Forall inner_in_order cs end.

Lemma handler_fits m tx l p : m = Reader \/ m = Writer -> in_order l -> fits m [] p -> fits m [] (handler_acts tx l ++ p).
Proof.
  intros Hm Hl Hp. destruct l as [|key|src dst]; [done| |].
  - cbn. rewrite decide_False by (intros H; by apply H). split_and!; try done; by repeat constructor.
  - cbn in *. destruct (lock_order src dst) as [first second] eqn:E. cbn. destruct (decide (second = first)) as [->|Hne].
    + rewrite bool_decide_eq_true_2 by done. cbn. rewrite decide_False by (intros H; by apply H). split_and!; try done; by repeat constructor.
    + rewrite bool_decide_eq_false_2 by done. destruct Hl as [->|Hl]. { destruct (lock_order_cases dst dst); congruence. }
      cbn. rewrite (decide_False (P := stripe second <> stripe second)) by (intros H; by apply H). rewrite decide_True by lia. cbn.
      rewrite decide_False by (intros H; by apply H). split_and!; try done; by repeat constructor.
Qed.

Lemma section_fits c p : section_in_order c -> fits Out [] p -> fits Out [] (section_acts c ++ p).
Proof.
  intros Hc Hp. destruct c as [l|ls]; cbn in *.
  - split_and!; [done..|]. rewrite <- app_assoc. apply handler_fits; [by left|done|done].
  - split_and!; [done..|]. induction Hc as [|[l|] ls Hl _ IH]; cbn; [done| |done]. rewrite <- !app_assoc. rewrite <- app_assoc in IH. apply handler_fits; [by right|done|done].
Qed.

Lemma clients_fit css : Forall (Forall section_in_order) css -> Forall fitting (clients css).
Proof.
  intros H. unfold clients. apply Forall_fmap. eapply Forall_impl; [exact H|]. intros cs Hcs. unfold fitting. cbn.
  induction Hcs as [|c cs Hc _ IH]; [done|]. by apply section_fits.
Qed.

Lemma rtc_fitting ts ts' : rtc lstep ts ts' -> Forall fitting ts -> Forall fitting ts'.
Proof. induction 1; eauto using lstep_fitting. Qed.


(** ** Exclusion *)

(** What is left of the brackets: a handler works under the side of [txMu] that its section takes and inside the stripes of its
    keys.  Who has [txMu] and asks for it again gets no further. *)
Fixpoint paired (m : mode) (held : list Z) (todo : list act) : Prop :=
  match todo with
  | [] => m = Out
  | RLock :: p => m = Out /\ paired Reader held p
  | WAnnounce :: p => m = Out /\ paired Pending held p \/ m = Writer
  | WAcquire :: p => m = Pending /\ paired Writer held p
  | RUnlock :: p => m = Reader /\ paired Out held p
  | WUnlock :: p => m = Writer /\ paired Out held p
  | LockStripe i :: p => (m = Reader \/ m = Writer) /\ paired m (i :: held) p
  | UnlockStripe i :: p => (m = Reader \/ m = Writer) /\ paired m (filter (fun j => j <> i) held) p
  | Work tx keys :: p => (m = if tx then Writer else Reader) /\ Forall (fun key => stripe key ∈ held) keys /\ paired m held p
  end.

Definition pairing (t : thread) : Prop := paired (th_mode t) (th_held t) (th_todo t).

(** No conflict between the two: a writer beside a writer or a reader, or two holders of a stripe. *)
Definition apart (t t' : thread) : Prop :=
  ~ (writes (th_mode t) = true /\ writes (th_mode t') = true) /\ ~ (th_mode t = Writer /\ th_mode t' = Reader) /\ ~ (th_mode t = Reader /\ th_mode t' = Writer) /\
  forall i, ~ (i ∈ th_held t /\ i ∈ th_held t').

Definition exclusive (ts : list thread) : Prop :=
  Forall pairing ts /\ forall i j t t', ts !! i = Some t -> ts !! j = Some t' -> i <> j -> apart t t'.

Ltac modes t t' := destruct (th_mode t), (th_mode t'); cbn in *; intuition congruence.

Lemma apart_sym t t' : apart t t' -> apart t' t.
Proof. intros (H1 & H2 & H3 & H4). split_and!; [by modes t t'..|]. intros i [H H']. by eapply H4. Qed.

Lemma paired_step ts t a rest : t ∈ ts -> enabled ts a = true -> pairing t -> th_todo t = a :: rest -> pairing (after t a rest).
Proof.
  unfold pairing. intros Hin%list_elem_of_In He Hp E. rewrite E in Hp. destruct a; cbn in *; try naive_solver. eapply forallb_forall in He; [|exact Hin].
  destruct Hp as [[_ Hp]|Hp]; [done|by rewrite Hp in He].
Qed.

Lemma apart_step ts t t' a rest : t ∈ ts -> t' ∈ ts -> th_todo t = a :: rest -> enabled ts a = true -> pairing t -> apart t t' -> apart (after t a rest) t'.
Proof.
  unfold pairing. intros Ht%list_elem_of_In Hin%list_elem_of_In E He Hp (H1 & H2 & H3 & H4). rewrite E in Hp.
  destruct a; cbn in *; try (pose proof (proj1 (forallb_forall _ _) He _ Ht) as Het; eapply forallb_forall in He; [|exact Hin]); try (destruct Hp as [Hm _]); (split_and!; [by modes t t'..|]); cbn; try done; intros j [Hj Hj'].
  - apply elem_of_cons in Hj as [->|Hj]; [|by eapply H4]. by apply negb_true_iff, bool_decide_eq_false in He.
  - apply list_elem_of_filter in Hj as [_ Hj]. by eapply H4.
Qed.

Lemma lstep_exclusive ts ts' : lstep ts ts' -> exclusive ts -> exclusive ts'.
Proof.
  intros [ts0 k t a rest Hk Ht He] [Hp Hx]. assert (pairing t) as Hpt by (by eapply Forall_lookup_1 in Hp).
  assert (t ∈ ts0) as Hin by (by eapply list_elem_of_lookup_2).
  split; [apply Forall_insert; [done|by eapply paired_step]|].
  assert (forall j t', ts0 !! j = Some t' -> k <> j -> apart (after t a rest) t') as Hmine.
  { intros j t' Hj Hne. eapply apart_step; eauto. by eapply list_elem_of_lookup_2. }
  intros i j u u' Hi Hj Hne. destruct (decide (i = k)) as [->|Hik].
  - rewrite list_lookup_insert_eq in Hi by (by eapply lookup_lt_Some). injection Hi as <-. rewrite list_lookup_insert_ne in Hj by done. eauto.
  - rewrite list_lookup_insert_ne in Hi by done. destruct (decide (j = k)) as [->|Hjk].
    + rewrite list_lookup_insert_eq in Hj by (by eapply lookup_lt_Some). injection Hj as <-. apply apart_sym. eauto.
    + rewrite list_lookup_insert_ne in Hj by done. eauto.
Qed.

Lemma handler_paired (tx : bool) l p : let m := if tx then Writer else Reader in paired m [] p -> paired m [] (handler_acts tx l ++ p).
Proof.
  intros m Hp. assert (m = Reader \/ m = Writer) as Hm by (unfold m; destruct tx; auto).
  assert (forall key, (if decide (stripe key <> stripe key) then [stripe key] else []) = @nil Z) as Hd by (intros key; by rewrite decide_False by (intros H; by apply H)).
  destruct l as [|key|src dst]; [done| |]; cbn.
  - rewrite Hd. split_and!; try done; by repeat constructor.
  - destruct (lock_order src dst) as [first second]. case_bool_decide as He; [subst second; cbn; rewrite Hd; split_and!; try done; by repeat constructor|].
    cbn. rewrite !decide_False by (intros H; by apply H). split_and!; try done; try (by repeat constructor).
    destruct (decide (stripe first <> stripe second)) as [|Hs]; cbn; rewrite ?decide_False by (intros H; by apply H); done.
Qed.

Lemma clients_exclusive css : exclusive (clients css).
Proof.
  split.
  - unfold clients. apply Forall_fmap, Forall_true. intros cs. unfold pairing. cbn. induction cs as [|c cs IH]; [done|]. unfold client_acts. rewrite fmap_cons. cbn [concat]. fold (client_acts cs).
    destruct c as [l|ls]; cbn.
    + split; [done|]. rewrite <- app_assoc. by apply (handler_paired false).
    + left. split_and!; [done..|]. induction ls as [|[l|] ls IHl]; cbn; [done| |by right]. rewrite <- !app_assoc. rewrite <- app_assoc in IHl. by apply (handler_paired true).
  - intros i j t t' Hi Hj _. unfold clients in *. rewrite list_lookup_fmap in Hi, Hj. apply fmap_Some in Hi as (cs & _ & ->). apply fmap_Some in Hj as (cs' & _ & ->).
    split_and!; cbn; [intuition congruence..|]. intros z [Hz _]. by apply not_elem_of_nil in Hz.
Qed.

(** What a thread is in the middle of: a handler, in a transaction or not, and the keys it has locked. *)
Definition working (t : thread) : option (bool * list bytes) := match th_todo t with Work tx keys :: _ => Some (tx, keys) | _ => None end.

(** C36. Whatever the clients do and however their steps interleave, two clients are inside handlers at the same time only if
    neither of them executes a transaction, and then they have locked different keys: a transaction runs alone, and a handler that
    reads and writes a key under its stripe is not interrupted by another one that locks the key. *)
Theorem transactions_run_alone css ts i j t t' tx keys tx' keys' :
  rtc lstep (clients css) ts -> ts !! i = Some t -> ts !! j = Some t' -> i <> j -> working t = Some (tx, keys) -> working t' = Some (tx', keys') ->
  tx = false /\ tx' = false /\ forall key, key ∈ keys -> key ∉ keys'.
Proof.
  intros Hts Hi Hj Hne Hw Hw'. assert (exclusive ts) as [Hp Hx]. { pose proof (clients_exclusive css) as H0. induction Hts; eauto using lstep_exclusive. }
  destruct (Hx i j t t' Hi Hj Hne) as (H1 & H2 & H3 & H4). apply (Forall_lookup_1 _ _ _ _ Hp) in Hi, Hj. unfold pairing, working in *.
  destruct (th_todo t) as [|[] ?]; try done. destruct (th_todo t') as [|[] ?]; try done. simplify_eq. cbn in Hi, Hj. destruct Hi as (Em & Hk & _), Hj as (Em' & Hk' & _).
  rewrite Em, Em' in H1, H2, H3. split_and!; [destruct tx, tx'; cbn in *; intuition congruence..|]. intros key Hkey Hkey'. apply (H4 (stripe key)).
  rewrite Forall_forall in Hk, Hk'. auto.
Qed.

(** ** Two keys of one stripe *)

(** On the way to taking [s] twice: [rest] starts with the second attempt. *)
Definition doomed (s : Z) (rest : list act) (t : thread) : Prop :=
  t = mkThread Out [] (RLock :: LockStripe s :: LockStripe s :: rest) \/ t = mkThread Reader [] (LockStripe s :: LockStripe s :: rest) \/
  t = mkThread Reader [s] (LockStripe s :: rest).

Lemma lstep_doomed s rest k ts ts' : lstep ts ts' -> (exists t, ts !! k = Some t /\ doomed s rest t) -> exists t, ts' !! k = Some t /\ doomed s rest t.
Proof.
  intros [ts0 i t a p Hi Ht He] (u & Hu & Hd). destruct (decide (i = k)) as [->|Hik]; [|exists u; by rewrite list_lookup_insert_ne by done].
  rewrite list_lookup_insert_eq by (by eapply lookup_lt_Some). eexists. split; [done|]. rewrite Hi in Hu. injection Hu as ->. unfold doomed.
  destruct Hd as [->|[->| ->]]; cbn in Ht; injection Ht as <- <-; cbn; auto.
  eapply forallb_forall in He; [|apply list_elem_of_In; by eapply list_elem_of_lookup_2]. cbn in He. by rewrite bool_decide_eq_true_2 in He by left.
Qed.

Lemma same_stripe_acts src dst cs : src <> dst -> stripe src = stripe dst -> let s := stripe src in
  exists keys, client_acts (Op (TwoKeys src dst) :: cs) = [RLock; LockStripe s; LockStripe s; Work false keys; Work false keys; UnlockStripe s; UnlockStripe s; RUnlock] ++ client_acts cs.
Proof.
  intros Hne Hs s. unfold client_acts. cbn. destruct (lock_order_cases src dst) as [-> | ->]; cbn; rewrite bool_decide_eq_false_2 by done; cbn; unfold s; rewrite Hs; by eexists.
Qed.

(** RENAME, COPY, SMOVE and LMOVE sort their two keys by name, not by stripe, and a stripe is not reentrant: on two different keys
    of the same stripe the command locks the stripe and waits for it again.  The client never gets to the end of it, in any company
    and any interleaving. *)
Theorem same_stripe_never_returns src dst cs css k ts : src <> dst -> stripe src = stripe dst -> css !! k = Some (Op (TwoKeys src dst) :: cs) ->
  rtc lstep (clients css) ts -> ~ finished ts /\ exists t, ts !! k = Some t /\ (length (client_acts cs) + 4 <= length (th_todo t))%nat.
Proof.
  intros Hne Hs Hk Hts. set (s := stripe src). destruct (same_stripe_acts src dst cs Hne Hs) as [keys Ea].
  set (rest := [Work false keys; Work false keys; UnlockStripe s; UnlockStripe s; RUnlock] ++ client_acts cs).
  assert (exists t, clients css !! k = Some t /\ doomed s rest t) as H0.
  { eexists. unfold clients. rewrite list_lookup_fmap, Hk. split; [done|]. left. f_equal. exact Ea. }
  assert (exists t, ts !! k = Some t /\ doomed s rest t) as (t & Ht & Hd) by (clear Hk; induction Hts; eauto using lstep_doomed).
  assert (length (client_acts cs) + 4 <= length (th_todo t))%nat as Hl by (destruct Hd as [->|[->| ->]]; unfold rest; cbn; lia).
  split; [|by exists t]. intros Hfin. eapply Forall_lookup_1 in Hfin; [|done]. cbn in Hfin. rewrite Hfin in Hl. cbn in Hl. lia.
Qed.

(** ** A script in a transaction *)

Definition in_handler (a : act) : bool := match a with LockStripe _ | UnlockStripe _ | Work _ _ => true | _ => false end.

(** On the way to [BeginTx] with [BeginTx] behind it. *)
Definition nesting (rest : list act) (t : thread) : Prop :=
  exists q, forallb in_handler q = true /\
  (th_mode t = Out /\ th_todo t = WAnnounce :: WAcquire :: q ++ WAnnounce :: rest \/ th_mode t = Pending /\ th_todo t = WAcquire :: q ++ WAnnounce :: rest \/
   th_mode t = Writer /\ th_todo t = q ++ WAnnounce :: rest).

Lemma lstep_nesting rest k ts ts' : lstep ts ts' -> (exists t, ts !! k = Some t /\ nesting rest t) -> exists t, ts' !! k = Some t /\ nesting rest t.
Proof.
  intros [ts0 i t a p Hi Ht He] (u & Hu & q & Hq & Hd). destruct (decide (i = k)) as [->|Hik]; [|exists u; rewrite list_lookup_insert_ne by done; split; [done|by exists q]].
  rewrite list_lookup_insert_eq by (by eapply lookup_lt_Some). eexists. split; [done|]. rewrite Hi in Hu. injection Hu as ->.
  destruct Hd as [[Hm Hd]|[[Hm Hd]|[Hm Hd]]]; rewrite Hd in Ht; [injection Ht as <- <-; exists q; cbn; auto..|].
  destruct q as [|b q]; cbn in Ht; injection Ht as <- <-.
  - eapply forallb_forall in He; [|apply list_elem_of_In; by eapply list_elem_of_lookup_2]. by rewrite Hm in He.
  - cbn in Hq. apply andb_true_iff in Hq as [Hb Hq]. exists q. by destruct b; cbn; auto.
Qed.

Lemma handler_acts_in_handler l : forallb in_handler (handler_acts true l) = true.
Proof. destruct l as [| |src dst]; [done..|]. cbn. destruct (lock_order src dst). by case_bool_decide. Qed.

Lemma handlers_in_handler ls : forallb in_handler (concat (inner_acts <$> (Handler <$> ls))) = true.
Proof. induction ls as [|l ls IH]; [done|]. cbn. by rewrite forallb_app, handler_acts_in_handler. Qed.

(** EVAL takes [txMu] exclusively even inside EXEC, which has it already: a transaction with an EVAL in its queue never comes to
    an end, in any company and any interleaving, and neither does anything the client does later. *)
Theorem script_in_transaction_never_returns ls script cs' cs css k ts : css !! k = Some (Tx ((Handler <$> ls) ++ Script script :: cs') :: cs) ->
  rtc lstep (clients css) ts -> ~ finished ts /\ exists t, ts !! k = Some t /\ (length (client_acts cs) < length (th_todo t))%nat.
Proof.
  intros Hk Hts. set (rest := WAcquire :: (concat (handler_acts true <$> script) ++ EndTx) ++ concat (inner_acts <$> cs') ++ EndTx ++ client_acts cs).
  assert (exists t, clients css !! k = Some t /\ nesting rest t) as H0.
  { eexists. unfold clients. rewrite list_lookup_fmap, Hk. split; [done|]. exists (concat (inner_acts <$> (Handler <$> ls))). split; [apply handlers_in_handler|]. left.
    split; [done|]. unfold rest, client_acts. cbn. rewrite fmap_app, concat_app. cbn. rewrite <- !app_assoc. cbn. by rewrite <- !app_assoc. }
  assert (exists t, ts !! k = Some t /\ nesting rest t) as (t & Ht & q & _ & Hd) by (clear Hk; induction Hts; eauto using lstep_nesting).
  assert (length (client_acts cs) < length (th_todo t))%nat as Hl by (destruct Hd as [[_ ->]|[[_ ->]|[_ ->]]]; unfold rest; cbn; rewrite ?length_app; cbn; rewrite ?length_app; cbn; lia).
  split; [|by exists t]. intros Hfin. eapply Forall_lookup_1 in Hfin; [|done]. cbn in Hfin. rewrite Hfin in Hl. cbn in Hl. lia.
Qed.

(** ** Schedules *)

(** Let the threads move in the order of [ks]. *)
Fixpoint play (ts : list thread) (ks : list nat) : option (list thread) :=
  match ks with
  | [] => Some ts
  | k :: ks =>
    match ts !! k with
    | Some t => match th_todo t with a :: rest => if enabled ts a then play (<[k := after t a rest]> ts) ks else None | [] => None end
    | None => None
    end
  end.

Lemma play_rtc ks ts ts' : play ts ks = Some ts' -> rtc lstep ts ts'.
Proof.
  revert ts. induction ks as [|k ks IH]; intros ts H; cbn in H; [by injection H as ->|].
  destruct (ts !! k) as [t|] eqn:Ek; [|done]. destruct (th_todo t) as [|a rest] eqn:Et; [done|]. destruct (enabled ts a) eqn:Ee; [|done].
  eapply rtc_l; [by eapply lstep_act|by apply IH].
Qed.

(** No thread can move. *)
Definition stuck (ts : list thread) : bool := forallb (fun t => match th_todo t with a :: _ => negb (enabled ts a) | [] => true end) ts.

Lemma stuck_spec ts ts' : stuck ts = true -> ~ lstep ts ts'.
Proof.
  intros Hs H. destruct H as [ts i t a rest Hi Ht He]. eapply forallb_forall in Hs; [|apply list_elem_of_In; by eapply list_elem_of_lookup_2].
  cbn in Hs. by rewrite Ht, He in Hs.
Qed.

(** A counter, a transaction and an ordered RENAME. *)
Definition demo_clients : list (list section) := [[Op (OneKey (str "n")); Op (TwoKeys (str "b") (str "e"))]; [Tx [Handler (OneKey (str "n")); Handler NoKey]]; [Op (OneKey (str "m"))]].

Lemma demo_in_order : Forall (Forall section_in_order) demo_clients.
Proof. repeat (apply Forall_cons_2 || apply Forall_nil_2); [done|right; vm_compute; reflexivity|done..]. Qed.


Lemma transactions_run_alone_witness : exists ts t t', play (clients demo_clients) [0; 0; 2; 2]%nat = Some ts /\ ts !! 0%nat = Some t /\ ts !! 2%nat = Some t' /\
  working t = Some (false, [str "n"]) /\ working t' = Some (false, [str "m"]) /\ (false = false /\ false = false /\ forall key, key ∈ [str "n"] -> key ∉ [str "m"]).
Proof.
  eexists _, _, _. split; [vm_compute; reflexivity|]. split; [reflexivity|]. split; [reflexivity|]. split; [reflexivity|]. split; [reflexivity|].
  eapply (transactions_run_alone demo_clients _ 0%nat 2%nat); [apply (play_rtc [0; 0; 2; 2]%nat); vm_compute; reflexivity|reflexivity|reflexivity|discriminate|reflexivity|reflexivity].
Defined.

Lemma same_stripe_never_returns_witness : stripe (str "b") = stripe (str "ic") /\ exists ts, play (clients [[Op (TwoKeys (str "b") (str "ic"))]]) [0; 0]%nat = Some ts /\ ~ finished ts.
Proof.
  split; [vm_compute; reflexivity|]. eexists. split; [vm_compute; reflexivity|].
  eapply (same_stripe_never_returns (str "b") (str "ic") [] [[Op (TwoKeys (str "b") (str "ic"))]] 0%nat); [discriminate|vm_compute; reflexivity|reflexivity|].
  apply (play_rtc [0; 0]%nat). vm_compute. reflexivity.
Defined.

(** The rest of the server follows: after a RENAME b ic, a transaction waits for the readers to leave, and every command that comes later waits for the transaction. *)
Example rename_blocks_the_server : exists ts, rtc lstep (clients [[Op (TwoKeys (str "b") (str "ic"))]; [Tx []]; [Op NoKey]]) ts /\ (forall ts', ~ lstep ts ts') /\
  (forall t, t ∈ ts -> th_todo t <> []).
Proof.
  eexists. split; [apply (play_rtc [0; 0; 1]%nat); vm_compute; reflexivity|]. split; [intros ts'; apply stuck_spec; vm_compute; reflexivity|].
  apply Forall_forall. by repeat constructor.
Qed.

(** Four keys in two stripes, sorted by name one way and by stripe the other: two RENAMEs wait for each other. *)
Example renames_wait_for_each_other : exists ts, rtc lstep (clients [[Op (TwoKeys (str "b") (str "id"))]; [Op (TwoKeys (str "e") (str "ic"))]]) ts /\ (forall ts', ~ lstep ts ts') /\
  (forall t, t ∈ ts -> th_todo t <> []).
Proof.
  eexists. split; [apply (play_rtc [0; 0; 1; 1]%nat); vm_compute; reflexivity|]. split; [intros ts'; apply stuck_spec; vm_compute; reflexivity|].
  apply Forall_forall. by repeat constructor.
Qed.

Lemma script_in_transaction_never_returns_witness : exists ts, play (clients [[Tx [Handler (OneKey (str "n")); Script [NoKey]]]; [Op NoKey]]) [0; 0; 0; 0; 0; 0]%nat = Some ts /\
  stuck ts = true /\ ~ finished ts.
Proof.
  eexists. split; [vm_compute; reflexivity|]. split; [vm_compute; reflexivity|].
  eapply (script_in_transaction_never_returns [OneKey (str "n")] [NoKey] [] [] [[Tx [Handler (OneKey (str "n")); Script [NoKey]]]; [Op NoKey]] 0%nat); [reflexivity|].
  apply (play_rtc [0; 0; 0; 0; 0; 0]%nat). vm_compute. reflexivity.
Defined.
