(* ===== verification/Acl.v ===== *)
(** * Access control ([acl/user.go], [acl/manager.go])

    A [User] is a mutable object shared by the manager and by the connections that
    authenticated as it, so users live in a heap and the manager's map holds their locations;
    a deleted user stays in the heap for the connections that still point to it.  The password
    hash ([sha256] in hexadecimal) and [filepath.Match] are arguments.

    The meaning of a list of command rules is that the last one that speaks about a command
    decides ([rule_verdict]); the two sets and the flag of the code decide the same
    ([acl_last_rule_wins]), as long as no category rule is involved: a denied category cannot be
    allowed again ([denied_category_stays_denied]). *)

From S2P Require Import Prelude Strconv.
Local Open Scope Z_scope.

Definition CatRead : Z := 1.
Definition CatWrite : Z := 2.
Definition CatAdmin : Z := 4.
Definition CatFast : Z := 8.
Definition CatPubSub : Z := 16.

Record User := mkUser {
  Name : bytes;
  Enabled : bool;
  NoPass : bool;
  Passwords : gset bytes;
  AllCommands : bool;
  AllowedCommands : gset bytes;
  DisallowedCommands : gset bytes;
  AllowedCategories : Z;       (* uint64 *)
  DisallowedCategories : Z;
  AllKeys : bool;
  KeyPatterns : list bytes;
  AllChannels : bool;
  ChannelPatterns : list bytes
}.

Definition NewUser (name : bytes) (isDefault : bool) : User :=
  mkUser name isDefault isDefault ∅ isDefault ∅ ∅ 0 0 isDefault [] isDefault [].

Definition HasPrefix (s p : bytes) : bool := bool_decide (take (length p) s = p).

Definition parseCategory (cat : bytes) : Z :=
  if bool_decide (cat = str "read") then CatRead
  else if bool_decide (cat = str "write") then CatWrite
  else if bool_decide (cat = str "admin") then CatAdmin
  else if bool_decide (cat = str "fast") then CatFast
  else if bool_decide (cat = str "pubsub") then CatPubSub
  else 0.

(** Field updates. *)
Definition set_pass (u : User) (nopass : bool) (ps : gset bytes) : User :=
  mkUser (Name u) (Enabled u) nopass ps (AllCommands u) (AllowedCommands u) (DisallowedCommands u) (AllowedCategories u)
    (DisallowedCategories u) (AllKeys u) (KeyPatterns u) (AllChannels u) (ChannelPatterns u).
Definition set_enabled (u : User) (b : bool) : User :=
  mkUser (Name u) b (NoPass u) (Passwords u) (AllCommands u) (AllowedCommands u) (DisallowedCommands u) (AllowedCategories u)
    (DisallowedCategories u) (AllKeys u) (KeyPatterns u) (AllChannels u) (ChannelPatterns u).
Definition set_commands (u : User) (all : bool) (allowed denied : gset bytes) (acat dcat : Z) : User :=
  mkUser (Name u) (Enabled u) (NoPass u) (Passwords u) all allowed denied acat dcat (AllKeys u) (KeyPatterns u)
    (AllChannels u) (ChannelPatterns u).
Definition set_keys (u : User) (all : bool) (pats : list bytes) : User :=
  mkUser (Name u) (Enabled u) (NoPass u) (Passwords u) (AllCommands u) (AllowedCommands u) (DisallowedCommands u)
    (AllowedCategories u) (DisallowedCategories u) all pats (AllChannels u) (ChannelPatterns u).
Definition set_channels (u : User) (all : bool) (pats : list bytes) : User :=
  mkUser (Name u) (Enabled u) (NoPass u) (Passwords u) (AllCommands u) (AllowedCommands u) (DisallowedCommands u)
    (AllowedCategories u) (DisallowedCategories u) (AllKeys u) (KeyPatterns u) all pats.

Definition CanExecute (u : User) (cmdName : bytes) (cmdFlags : Z) : bool :=
  if negb (Enabled u) then false
  else if bool_decide (cmdName ∈ DisallowedCommands u) then false
  else if negb (Z.land (DisallowedCategories u) cmdFlags =? 0) then false
  else if bool_decide (cmdName ∈ AllowedCommands u) then true
  else if negb (Z.land (AllowedCategories u) cmdFlags =? 0) then true
  else AllCommands u.

(** The manager: names to locations; [u_heap] holds the objects. *)
Record Manager := mkManager { users : gmap bytes nat; u_heap : gmap nat User; u_next : nat }.

Definition NewManager : Manager := mkManager {[str "default" := 0%nat]} {[0%nat := NewUser (str "default") true]} 1.

Definition GetUser (m : Manager) (name : bytes) : option nat := users m !! name.

Definition GetOrCreateUser (m : Manager) (name : bytes) : nat * Manager :=
  match users m !! name with
  | Some l => (l, m)
  | None =>
    (u_next m, mkManager (<[name := u_next m]> (users m)) (<[u_next m := NewUser name false]> (u_heap m)) (S (u_next m)))
  end.

Definition DelUser (m : Manager) (name : bytes) : bool * Manager :=
  if bool_decide (name = str "default") then (false, m)
  else match users m !! name with
       | Some _ => (true, mkManager (delete name (users m)) (u_heap m) (u_next m))
       | None => (false, m)
       end.

Section users.
Variable HashPassword : bytes -> bytes.

Definition CheckPassword (u : User) (pass : bytes) : bool :=
  if negb (Enabled u) then false
  else if NoPass u then true
  else bool_decide (HashPassword pass ∈ Passwords u).

(** [ApplyRule] never returns an error: an unknown rule is ignored. *)
Definition ApplyRule (u : User) (rule : bytes) : User :=
  let rule := TrimSpace rule in
  let isr s := bool_decide (rule = str s) in
  if isr "on" then set_enabled u true
  else if isr "off" then set_enabled u false
  else if isr "nopass" then set_pass u true (Passwords u)
  else if isr "resetpass" then set_pass u false ∅
  else if HasPrefix rule (str ">") then set_pass u false ({[HashPassword (drop 1 rule)]} ∪ Passwords u)
  else if HasPrefix rule (str "#") then set_pass u false ({[ToLower (drop 1 rule)]} ∪ Passwords u)
  else if HasPrefix rule (str "<") then set_pass u (NoPass u) (Passwords u ∖ {[HashPassword (drop 1 rule)]})
  else if isr "+@all" || isr "allcommands" then set_commands u true (AllowedCommands u) ∅ (AllowedCategories u) 0
  else if isr "-@all" || isr "nocommands" then set_commands u false ∅ (DisallowedCommands u) 0 (DisallowedCategories u)
  else if HasPrefix rule (str "+@") then
    set_commands u (AllCommands u) (AllowedCommands u) (DisallowedCommands u)
      (Z.lor (AllowedCategories u) (parseCategory (ToLower (drop 2 rule)))) (DisallowedCategories u)
  else if HasPrefix rule (str "-@") then
    set_commands u (AllCommands u) (AllowedCommands u) (DisallowedCommands u)
      (AllowedCategories u) (Z.lor (DisallowedCategories u) (parseCategory (ToLower (drop 2 rule))))
  else if HasPrefix rule (str "+") then
    let cmd := ToLower (drop 1 rule) in
    set_commands u (AllCommands u) ({[cmd]} ∪ AllowedCommands u) (DisallowedCommands u ∖ {[cmd]})
      (AllowedCategories u) (DisallowedCategories u)
  else if HasPrefix rule (str "-") then
    let cmd := ToLower (drop 1 rule) in
    set_commands u (AllCommands u) (AllowedCommands u ∖ {[cmd]}) ({[cmd]} ∪ DisallowedCommands u)
      (AllowedCategories u) (DisallowedCategories u)
  else if isr "~*" || isr "allkeys" then set_keys u true (KeyPatterns u)
  else if isr "resetkeys" then set_keys u false []
  else if HasPrefix rule (str "~") then set_keys u (AllKeys u) (KeyPatterns u ++ [drop 1 rule])
  else if isr "&*" || isr "allchannels" then set_channels u true (ChannelPatterns u)
  else if isr "resetchannels" then set_channels u false []
  else if HasPrefix rule (str "&") then set_channels u (AllChannels u) (ChannelPatterns u ++ [drop 1 rule])
  else if isr "reset" then mkUser (Name u) false false ∅ false ∅ ∅ 0 0 false [] false []
  else u.

Definition CanAccessKey (Match : bytes -> bytes -> bool) (u : User) (key : bytes) : bool :=
  if negb (Enabled u) then false
  else if AllKeys u then true
  else existsb (fun pat => Match pat key) (KeyPatterns u).

Definition CanAccessChannel (Match : bytes -> bytes -> bool) (u : User) (channel : bytes) : bool :=
  if negb (Enabled u) then false
  else if AllChannels u then true
  else existsb (fun pat => Match pat channel) (ChannelPatterns u).

(** [None] is [ErrAuthFailed]. *)
Definition Auth (m : Manager) (username password : bytes) : option nat :=
  let username := if bool_decide (username = []) then str "default" else username in
  l ← GetUser m username;
  u ← u_heap m !! l;
  if CheckPassword u password then Some l else None.

(** ** The meaning of command rules *)

(** A rule about commands, parsed. *)
Inductive cmd_rule := AllowAll | DenyAll | Allow (cmd : bytes) | Deny (cmd : bytes).

(** The last rule that speaks about [cmd] decides; [d] is the verdict before the rules. *)
Fixpoint rule_verdict (d : bool) (cmd : bytes) (rs : list cmd_rule) : bool :=
  match rs with
  | [] => d
  | AllowAll :: rs => rule_verdict true cmd rs
  | DenyAll :: rs => rule_verdict false cmd rs
  | Allow c :: rs => rule_verdict (if bool_decide (c = cmd) then true else d) cmd rs
  | Deny c :: rs => rule_verdict (if bool_decide (c = cmd) then false else d) cmd rs
  end.

(** How a client writes it. *)
Definition rule_text (r : cmd_rule) : bytes :=
  match r with
  | AllowAll => str "+@all" | DenyAll => str "-@all" | Allow c => str "+" ++ c | Deny c => str "-" ++ c
  end.

(** Command names: lower-case letters, not empty. *)
Definition command_name (c : bytes) : Prop := c <> [] /\ Forall (fun b => 97 <= b <= 122) c.
Definition rule_ok (r : cmd_rule) : Prop := match r with Allow c | Deny c => command_name c | _ => True end.

Lemma ToLower_name c : command_name c -> ToLower c = c.
Proof.
  intros [_ Hc]. rewrite ToLower_ascii.
  - rewrite <- (list_fmap_id c) at 2. apply list_fmap_ext. intros i b Hb. rewrite Forall_lookup in Hc. specialize (Hc i b Hb).
    unfold lower_byte. by rewrite (proj2 (Z.leb_gt b 90)), andb_false_r by lia.
  - eapply Forall_impl; [done|]. cbv beta. lia.
Qed.

Lemma TrimSpace_rule b c : 33 <= b < 128 -> command_name c -> TrimSpace (b :: c) = b :: c.
Proof.
  intros Hb [_ Hc]. apply TrimSpace_plain. constructor; [done|]. eapply Forall_impl; [exact Hc|]. cbv beta. lia.
Qed.

(** The rule for one command takes the branch of its sign. *)
Lemma ApplyRule_single u sign c :
  sign = 43 \/ sign = 45 -> command_name c ->
  ApplyRule u (sign :: c) =
  if bool_decide (sign = 43)
  then set_commands u (AllCommands u) ({[c]} ∪ AllowedCommands u) (DisallowedCommands u ∖ {[c]}) (AllowedCategories u) (DisallowedCategories u)
  else set_commands u (AllCommands u) (AllowedCommands u ∖ {[c]}) ({[c]} ∪ DisallowedCommands u) (AllowedCategories u) (DisallowedCategories u).
Proof.
  intros Hs Hc. unfold ApplyRule. rewrite TrimSpace_rule by (done || lia).
  pose proof (ToLower_name c Hc) as Hlow. destruct Hc as [Hne Hc]. destruct c as [|x c]; [done|].
  apply Forall_cons in Hc as [Hx _].
  destruct Hs as [-> | ->]; cbv zeta; unfold HasPrefix; cbn [length take drop str];
    repeat match goal with
      | |- context [bool_decide (?a = ?b)] => rewrite (bool_decide_false (a = b)) by (intros [=]; lia)
      end; rewrite Hlow; done.
Qed.

Lemma ApplyRule_text u r :
  rule_ok r ->
  ApplyRule u (rule_text r) =
  match r with
  | AllowAll => set_commands u true (AllowedCommands u) ∅ (AllowedCategories u) 0
  | DenyAll => set_commands u false ∅ (DisallowedCommands u) 0 (DisallowedCategories u)
  | Allow c => set_commands u (AllCommands u) ({[c]} ∪ AllowedCommands u) (DisallowedCommands u ∖ {[c]}) (AllowedCategories u) (DisallowedCategories u)
  | Deny c => set_commands u (AllCommands u) (AllowedCommands u ∖ {[c]}) ({[c]} ∪ DisallowedCommands u) (AllowedCategories u) (DisallowedCategories u)
  end.
Proof. destruct r as [| |c|c]; intros Hr; [done|done|by apply (ApplyRule_single _ 43); [left|]|by apply (ApplyRule_single _ 45); [right|]]. Qed.

Lemma CanExecute_plain u cmd flags :
  Enabled u = true -> AllowedCategories u = 0 -> DisallowedCategories u = 0 ->
  CanExecute u cmd flags =
  negb (bool_decide (cmd ∈ DisallowedCommands u)) && (bool_decide (cmd ∈ AllowedCommands u) || AllCommands u).
Proof. intros He Ha Hd. unfold CanExecute. rewrite He, Ha, Hd, !Z.land_0_l. by repeat case_bool_decide. Qed.

Lemma rules_verdict rs u cmd flags :
  Enabled u = true -> AllowedCategories u = 0 -> DisallowedCategories u = 0 -> Forall rule_ok rs ->
  CanExecute (fold_left ApplyRule (rule_text <$> rs) u) cmd flags = rule_verdict (CanExecute u cmd flags) cmd rs.
Proof.
  intros He Ha Hd Hrs. revert u He Ha Hd. induction Hrs as [|r rs Hr _ IH]; intros u He Ha Hd; [done|].
  cbn [fmap list_fmap fold_left]. rewrite ApplyRule_text by done.
  rewrite IH by (destruct r; cbn; done).
  destruct r as [| |c|c]; cbn [rule_verdict]; f_equal; rewrite !CanExecute_plain by done;
    cbn [DisallowedCommands AllowedCommands AllCommands set_commands].
  - by rewrite bool_decide_false, orb_true_r by apply not_elem_of_empty.
  - by rewrite (bool_decide_false (cmd ∈ (∅ : gset bytes))), andb_false_r by apply not_elem_of_empty.
  - rewrite (bool_decide_ext (cmd ∈ {[c]} ∪ AllowedCommands u) (c = cmd \/ cmd ∈ AllowedCommands u)) by set_solver.
    rewrite (bool_decide_ext (cmd ∈ DisallowedCommands u ∖ {[c]}) (cmd ∈ DisallowedCommands u /\ c <> cmd)) by set_solver.
    destruct (decide (c = cmd)) as [->|Hc].
    + rewrite (bool_decide_false (_ /\ _)), !bool_decide_true by tauto. done.
    + rewrite (bool_decide_false (c = cmd)) by done.
      by rewrite (bool_decide_ext (_ \/ _) (cmd ∈ AllowedCommands u)), (bool_decide_ext (_ /\ _) (cmd ∈ DisallowedCommands u)) by tauto.
  - rewrite (bool_decide_ext (cmd ∈ {[c]} ∪ DisallowedCommands u) (c = cmd \/ cmd ∈ DisallowedCommands u)) by set_solver.
    rewrite (bool_decide_ext (cmd ∈ AllowedCommands u ∖ {[c]}) (cmd ∈ AllowedCommands u /\ c <> cmd)) by set_solver.
    destruct (decide (c = cmd)) as [->|Hc].
    + rewrite (bool_decide_true (_ \/ _)), (bool_decide_true (cmd = cmd)) by tauto. done.
    + rewrite (bool_decide_false (c = cmd)) by done.
      by rewrite (bool_decide_ext (_ \/ _) (cmd ∈ DisallowedCommands u)), (bool_decide_ext (_ /\ _) (cmd ∈ AllowedCommands u)) by tauto.
Qed.

End users.

(** ** Properties *)

(** C32. Command rules without categories mean what they say: for an enabled user to whom no category rule has been applied, after any list
    of rules [+@all], [-@all], [+cmd] and [-cmd] applied in order, a command is executable exactly when the last rule that speaks about it
    allows it (or, if none does, when it was executable before), whatever its category flags. (With category rules the last rule need not
    win: [denied_category_stays_denied].) *)
Theorem acl_last_rule_wins (HashPassword : bytes -> bytes) (rs : list cmd_rule) (u : User) (cmd : bytes) (flags : Z) :
  Enabled u = true -> AllowedCategories u = 0 -> DisallowedCategories u = 0 -> Forall rule_ok rs ->
  CanExecute (fold_left (ApplyRule HashPassword) (rule_text <$> rs) u) cmd flags = rule_verdict (CanExecute u cmd flags) cmd rs.
Proof. apply rules_verdict. Qed.

Lemma acl_last_rule_wins_witness :
  CanExecute (fold_left (ApplyRule id) [str "-@all"; str "+get"; str "-get"; str "+get"] (NewUser (str "u") true)) (str "get") CatRead = true.
Proof.
  rewrite (acl_last_rule_wins id [DenyAll; Allow (str "get"); Deny (str "get"); Allow (str "get")]).
  - reflexivity.
  - reflexivity.
  - reflexivity.
  - reflexivity.
  - assert (command_name (str "get")) as H by (split; [discriminate|cbn [str]; repeat (apply Forall_cons_2; [vm_compute; split; discriminate|]); apply Forall_nil_2]).
    repeat (apply Forall_cons_2; [first [exact I|exact H]|]). apply Forall_nil_2.
Defined.

(** A category that was denied stays denied: [+@read] after [-@read] does not allow reading commands again, nor does a
    rule that names the command, although the later rule should win. *)
Theorem denied_category_stays_denied (HashPassword : bytes -> bytes) :
  CanExecute (fold_left (ApplyRule HashPassword) [str "-@read"; str "+@read"; str "+get"] (NewUser (str "u") true)) (str "get") CatRead
  = false.
Proof. reflexivity. Qed.

(** A password on the default user protects nothing: a connection starts with the manager's default user, and giving
    that user a password leaves it able to run every command without AUTH. *)
Theorem default_password_not_required (HashPassword : bytes -> bytes) (p cmd : bytes) (flags : Z) :
  Forall (fun b => 33 <= b < 128) p ->
  let u := ApplyRule HashPassword (NewUser (str "default") true) (str ">" ++ p) in
  NoPass u = false /\ Passwords u = {[HashPassword p]} /\ CanExecute u cmd flags = true.
Proof.
  intros Hp. unfold ApplyRule. rewrite TrimSpace_plain by (cbn; constructor; [lia|done]). cbv zeta.
  cbn [app str]. unfold HasPrefix. cbn [length take].
  repeat match goal with
    | |- context [bool_decide (62 :: ?a = ?b)] => rewrite (bool_decide_false (62 :: a = b)) by (intros [=])
    end.
  rewrite (bool_decide_true ([62] = [62])) by done. cbn [set_pass NoPass Passwords]. split_and!; [done|set_solver|].
  by rewrite CanExecute_plain.
Qed.

(** AUTH succeeds exactly for an enabled user that needs no password or has the hash of the given one; the empty name is
    the default user's. *)
Theorem auth_iff (HashPassword : bytes -> bytes) (m : Manager) (name pass : bytes) (l : nat) :
  Auth HashPassword m name pass = Some l <->
  exists u, users m !! (if bool_decide (name = []) then str "default" else name) = Some l /\ u_heap m !! l = Some u /\
    Enabled u = true /\ (NoPass u = true \/ HashPassword pass ∈ Passwords u).
Proof.
  unfold Auth, GetUser. set (k := if bool_decide (name = []) then _ else _). destruct (users m !! k) as [l'|] eqn:E; cbn.
  2: { split; [done|]. intros (u & ? & _). congruence. }
  destruct (u_heap m !! l') as [u|] eqn:Eu; cbn.
  2: { split; [done|]. intros (u & [= ->] & ? & _). congruence. }
  unfold CheckPassword. split.
  - intros H. exists u. destruct (Enabled u); [|done]. cbn in H.
    destruct (NoPass u); [by simplify_eq; eauto|]. case_bool_decide; [|done]. simplify_eq. eauto.
  - intros (u' & [= ->] & Eu' & He & Hp). rewrite Eu in Eu'. injection Eu' as ->. rewrite He. cbn.
    destruct (NoPass u'); [done|]. destruct Hp as [|Hp]; [done|]. by rewrite bool_decide_true.
Qed.
