(* ===== verification/Context.v ===== *)
(** * The execution context of the handlers ([commands/command.go], [commands/transaction.go])

    [St] is what a handler can reach: the server's keyspace, the heap of its containers, the
    thresholds, the two sinks of the write stream (the append-only file and the replicas, as the
    traces of what they were fed), the users, the cluster manager, and the connection's own
    [Context] fields.  A handler is a computation in the state monad [M]; [None] is a panic or a
    loop that does not end.  What the program cannot know beforehand is in [env]: the readings of
    the clock, the choices of the eviction and expiry cycles, the order of map iteration.

    [abs_rel] relates a state to the dataset a client sees: a map from keys to values with
    deadlines.  The lemmas of this file are the rules for the primitive steps; the files of the commands
    use nothing else, so that they never look into shards, encodings or the heap. *)

From S2P Require Import Prelude Strconv Listpack Intset Quicklist Dict Object Value Db DbSpec Stripes Acl Cluster.
Local Open Scope Z_scope.

(** ** State *)

Record TxState := mkTx {
  InMulti : bool;
  QueuedCmds : list (list bytes);
  Watched : gmap bytes Z;
  DirtyCAS : bool
}.

Definition NewTxState : TxState := mkTx false [] ∅ false.

(** [s_lazy] is whether lazyfree-lazy-server-del is "yes".  [c_prop] is [Some argv] once a handler called
    [Propagate(argv)] ([argv] may be nil, [Some None]). *)
Record St := mkSt {
  s_db : ShardedDB payload;
  s_heap : gmap nat container;
  s_next : nat;
  s_lim : limits;
  s_lazy : bool;
  s_aof : option (list (list bytes));
  s_repl : option (list (list bytes));
  s_acl : Manager;
  s_cluster : option ClusterManager;
  c_Tx : option TxState;
  c_User : option nat;
  c_resp3 : bool;
  c_InTx : bool;
  c_prop : option (option (list bytes));
  s_tick : nat
}.

Definition set_db (db : ShardedDB payload) (s : St) : St :=
  mkSt db (s_heap s) (s_next s) (s_lim s) (s_lazy s) (s_aof s) (s_repl s) (s_acl s) (s_cluster s) (c_Tx s) (c_User s)
    (c_resp3 s) (c_InTx s) (c_prop s) (s_tick s).
Definition set_heap (h : gmap nat container) (n : nat) (s : St) : St :=
  mkSt (s_db s) h n (s_lim s) (s_lazy s) (s_aof s) (s_repl s) (s_acl s) (s_cluster s) (c_Tx s) (c_User s)
    (c_resp3 s) (c_InTx s) (c_prop s) (s_tick s).
Definition set_tick (n : nat) (s : St) : St :=
  mkSt (s_db s) (s_heap s) (s_next s) (s_lim s) (s_lazy s) (s_aof s) (s_repl s) (s_acl s) (s_cluster s) (c_Tx s) (c_User s)
    (c_resp3 s) (c_InTx s) (c_prop s) n.
Definition set_sinks (a r : option (list (list bytes))) (s : St) : St :=
  mkSt (s_db s) (s_heap s) (s_next s) (s_lim s) (s_lazy s) a r (s_acl s) (s_cluster s) (c_Tx s) (c_User s)
    (c_resp3 s) (c_InTx s) (c_prop s) (s_tick s).
Definition set_Tx (tx : option TxState) (s : St) : St :=
  mkSt (s_db s) (s_heap s) (s_next s) (s_lim s) (s_lazy s) (s_aof s) (s_repl s) (s_acl s) (s_cluster s) tx (c_User s)
    (c_resp3 s) (c_InTx s) (c_prop s) (s_tick s).
Definition set_InTx (b : bool) (s : St) : St :=
  mkSt (s_db s) (s_heap s) (s_next s) (s_lim s) (s_lazy s) (s_aof s) (s_repl s) (s_acl s) (s_cluster s) (c_Tx s) (c_User s)
    (c_resp3 s) b (c_prop s) (s_tick s).
Definition set_prop (p : option (option (list bytes))) (s : St) : St :=
  mkSt (s_db s) (s_heap s) (s_next s) (s_lim s) (s_lazy s) (s_aof s) (s_repl s) (s_acl s) (s_cluster s) (c_Tx s) (c_User s)
    (c_resp3 s) (c_InTx s) p (s_tick s).
Definition set_acl (m : Manager) (u : option nat) (s : St) : St :=
  mkSt (s_db s) (s_heap s) (s_next s) (s_lim s) (s_lazy s) (s_aof s) (s_repl s) m (s_cluster s) (c_Tx s) u
    (c_resp3 s) (c_InTx s) (c_prop s) (s_tick s).

(** What a run cannot foresee, by the number of the clock reading at which it happens. *)
Record env := mkEnv {
  clk : nat -> Z;                                              (* nanoseconds *)
  orc : nat -> oracle payload;
  dict_order : nat -> gmap bytes bytes -> list (bytes * bytes);
  set_order : nat -> gset bytes -> list bytes;
  hash_password : bytes -> bytes;
  xxh3 : bytes -> Z
}.

(** ** Computations *)

Definition M (A : Type) : Type := St -> option (A * St).

#[export] Instance M_ret : MRet M := fun A a s => Some (a, s).
#[export] Instance M_bind : MBind M := fun A B f m s => '(a, s) ← m s; f a s.

Definition panic {A} : M A := fun _ => None.
Definition gets {A} (f : St -> A) : M A := fun s => Some (f s, s).
Definition modify (f : St -> St) : M unit := fun s => Some (tt, f s).
(** A pure computation that may panic. *)
Definition lift {A} (x : option A) : M A := fun s => a ← x; Some (a, s).

(** The two [LockKey] calls of RENAME, COPY, SMOVE and LMOVE.  A handler starts without a stripe, so the first call returns; the second
    one, made unless the keys are equal, waits for ever when it asks for the stripe of the first.  What the other clients hold they
    give back ([Locks]). *)
Definition LockKeys (src dst : bytes) : M unit :=
  let '(first, second) := lock_order src dst in
  if bool_decide (second = first) then mret tt
  else if stripe second =? stripe first then fun _ => None
  else mret tt.

(** ** The keyspace, as the handlers call it *)

(** The bytes the memory estimator charges for a payload, with the containers as they are now. *)
Definition size_in (h : gmap nat container) (p : payload) : Z :=
  match p with
  | PBytes b | PString b => zlen b
  | PInt64 _ => 8
  | PRef l =>
    match h !! l with
    | Some (CListpack lp) => Listpack.Bytes lp
    | Some (CIntset st) => Intset.Len st * 8
    | Some (CMap m) => map_fold (fun k v n => zlen k + zlen v + 32 + n) 0 m
    | Some (CSetMap m) => set_fold (fun k n => zlen k + 16 + n) 0 m
    | _ => 64
    end
  end.

Lemma size_in_nonneg h p : 0 <= size_in h p.
Proof.
  destruct p as [b|b|n|l]; cbn; [apply zlen_nonneg..|lia|]. destruct (h !! l) as [[]|]; try lia.
  - apply zlen_nonneg.
  - unfold Intset.Len. zlen_pose. lia.
  - apply (map_fold_weak_ind (fun r _ => 0 <= r)); [lia|]. intros k v m' r _ ?. zlen_pose. lia.
  - apply (set_fold_ind_L (fun r _ => 0 <= r)); [lia|]. intros k X r _ ?. zlen_pose. lia.
Qed.

Definition heap_size (h : gmap nat container) : PayloadSize payload :=
  {| payload_size := size_in h; payload_size_nonneg := size_in_nonneg h |}.

(** What is fed to the file and to the replicas, when there are any. *)
Definition feed (argv : list bytes) (s : St) : St :=
  set_sinks ((fun l => l ++ [argv]) <$> s_aof s) ((fun l => l ++ [argv]) <$> s_repl s) s.

(** The database after a call, with the DELs that the expiry callback sent during it. *)
Definition put_db (db : ShardedDB payload) (s : St) : St :=
  let new := drop (length (notified (s_db s))) (notified db) in
  fold_left (fun s k => feed [str "DEL"; k] s) new (set_db db s).

Section primitives.
Variable E : env.

(** [time.Now()] *)
Definition now : M Z := fun s => Some (clk E (s_tick s), set_tick (S (s_tick s)) s).

(** One call of a keyspace method: it reads the clock once. *)
Definition db_call {A} (f : PayloadSize payload -> oracle payload -> Z -> ShardedDB payload -> option (A * ShardedDB payload)) : M A :=
  fun s =>
    '(a, db) ← f (heap_size (s_heap s)) (orc E (s_tick s)) (clk E (s_tick s)) (s_db s);
    Some (a, set_tick (S (s_tick s)) (put_db db s)).

Definition db_Get (k : bytes) : M (option robj) := db_call (fun P _ t db => Some (Get t db k)).
Definition db_Set (k : bytes) (v : robj) : M (option DbError) := db_call (fun P o t db => Set_ o t db k v).
Definition db_SetWithExpire (k : bytes) (v : robj) (ttl : Z) : M (option DbError) :=
  db_call (fun P o t db => SetWithExpire o t db k v ttl).
Definition db_SetKeepTTL (k : bytes) (v : robj) : M unit := db_call (fun P _ t db => Some (tt, SetKeepTTL t db k v)).
Definition db_SetExpireAt (k : bytes) (e : Z) : M bool := db_call (fun P _ t db => Some (SetExpireAt t db k e)).
Definition db_SetExpire (k : bytes) (ttl : Z) : M bool := db_call (fun P _ t db => Some (SetExpire t db k ttl)).
Definition db_Del (k : bytes) : M bool := db_call (fun P _ t db => Some (Del t db k)).
Definition db_Exists (k : bytes) : M bool := db_call (fun P _ t db => Some (Exists t db k, db)).
Definition db_TTL (k : bytes) : M (Z * Z) := db_call (fun P _ t db => Some (TTL t db k, db)).
Definition db_Persist (k : bytes) : M bool := db_call (fun P _ t db => Some (Persist t db k)).
(** These read no clock. *)
Definition db_Touch (k : bytes) : M unit := fun s => Some (tt, set_db (Touch (s_db s) k) s).
Definition db_GetVersion (k : bytes) : M Z := gets (fun s => GetVersion (s_db s) k).

(** *** Containers *)

Definition alloc (c : container) : M nat :=
  fun s => Some (s_next s, set_heap (<[s_next s := c]> (s_heap s)) (S (s_next s)) s).
Definition load (l : nat) : M container := fun s => c ← s_heap s !! l; Some (c, s).
Definition store (l : nat) (c : container) : M unit := fun s => Some (tt, set_heap (<[l := c]> (s_heap s)) (s_next s) s).

(** [ctx.Propagate(argv)] *)
Definition Propagate (argv : option (list bytes)) : M unit := modify (set_prop (Some argv)).

End primitives.

(** ** Reasoning *)

(** The computation returns, and [Q] holds of its result and final state. *)
Definition wp {A} (m : M A) (s : St) (Q : A -> St -> Prop) : Prop :=
  exists a s', m s = Some (a, s') /\ Q a s'.

Lemma wp_LockKeys src dst s (Q : unit -> St -> Prop) : stripes_ok src dst -> Q tt s -> wp (LockKeys src dst) s Q.
Proof.
  intros Hok HQ. exists tt, s. split; [|done]. unfold LockKeys. destruct (lock_order_cases src dst) as [-> | ->]; (case_bool_decide; [done|]);
    (destruct Hok as [->|Hok]; [done|]); by rewrite (proj2 (Z.eqb_neq _ _)).
Qed.

Lemma LockKeys_blocks src dst s : ~ stripes_ok src dst -> LockKeys src dst s = None.
Proof.
  unfold stripes_ok. intros Hno. assert (src <> dst /\ stripe src = stripe dst) as [Hne Hs] by (split; [tauto|destruct (Z.eq_dec (stripe src) (stripe dst)); tauto]).
  unfold LockKeys. destruct (lock_order_cases src dst) as [-> | ->]; rewrite bool_decide_false by done; by rewrite (proj2 (Z.eqb_eq _ _)).
Qed.

Lemma wp_ret {A} (a : A) s (Q : A -> St -> Prop) : Q a s -> wp (mret a) s Q.
Proof. intros. by exists a, s. Qed.

Lemma wp_bind {A B} (m : M A) (f : A -> M B) s (Q : B -> St -> Prop) :
  wp m s (fun a s' => wp (f a) s' Q) -> wp (m ≫= f) s Q.
Proof. intros (a & s' & E & b & s'' & E' & H). exists b, s''. split; [|done]. unfold mbind, M_bind. by rewrite E. Qed.

Lemma wp_mono {A} (m : M A) s (Q Q' : A -> St -> Prop) : wp m s Q -> (forall a s', Q a s' -> Q' a s') -> wp m s Q'.
Proof. intros (a & s' & E & H) HQ. exists a, s'. eauto. Qed.

Lemma wp_gets {A} (f : St -> A) s (Q : A -> St -> Prop) : Q (f s) s -> wp (gets f) s Q.
Proof. intros. by exists (f s), s. Qed.

Lemma wp_modify f s (Q : unit -> St -> Prop) : Q tt (f s) -> wp (modify f) s Q.
Proof. intros. by exists tt, (f s). Qed.

Lemma wp_lift {A} (x : option A) a s (Q : A -> St -> Prop) : x = Some a -> Q a s -> wp (lift x) s Q.
Proof. intros -> H. by exists a, s. Qed.

(** *** What the primitives leave alone *)

(** The connection's fields and everything that is not data. *)
Record same_conn (s s' : St) : Prop := {
  k_lim : s_lim s' = s_lim s;
  k_lazy : s_lazy s' = s_lazy s;
  k_acl : s_acl s' = s_acl s;
  k_cluster : s_cluster s' = s_cluster s;
  k_Tx : c_Tx s' = c_Tx s;
  k_User : c_User s' = c_User s;
  k_resp3 : c_resp3 s' = c_resp3 s;
  k_InTx : c_InTx s' = c_InTx s;
  k_prop : c_prop s' = c_prop s;
  k_watchers : watchers (s_db s') = watchers (s_db s)
}.

Lemma same_conn_refl s : same_conn s s.
Proof. by split. Qed.

Lemma same_conn_trans s1 s2 s3 : same_conn s1 s2 -> same_conn s2 s3 -> same_conn s1 s3.
Proof. intros [] []. split; congruence. Qed.

(** A sink after the deletions of [ks] were fed to it. *)
Definition fed (ks : list bytes) (sink : option (list (list bytes))) : option (list (list bytes)) :=
  (fun l => l ++ ((fun k => [str "DEL"; k]) <$> ks)) <$> sink.

Lemma fed_nil sink : fed [] sink = sink.
Proof. destruct sink as [l|]; [|done]. unfold fed. cbn. by rewrite app_nil_r. Qed.

Lemma fed_app ks ks' sink : fed ks' (fed ks sink) = fed (ks ++ ks') sink.
Proof. destruct sink as [l|]; [|done]. unfold fed. cbn. by rewrite fmap_app, app_assoc. Qed.

(** From [s] to [s'] the connection is the same, and nothing was fed to the sinks but deletions of keys that are not
    in [m]. *)
Record keeps (m : gmap bytes (rvalue * Z)) (s s' : St) : Prop := {
  k_conn :> same_conn s s';
  k_fed : exists ks, Forall (fun k => m !! k = None) ks /\ s_aof s' = fed ks (s_aof s) /\ s_repl s' = fed ks (s_repl s)
}.

(** Nothing was fed at all. *)
Definition quiet (s s' : St) : Prop := forall m, keeps m s s'.

Lemma keeps_refl m s : keeps m s s.
Proof. split; [apply same_conn_refl|]. exists []. by rewrite !fed_nil. Qed.

Lemma keeps_trans m s1 s2 s3 : keeps m s1 s2 -> keeps m s2 s3 -> keeps m s1 s3.
Proof.
  intros [C (ks & Hf & Ea & Er)] [C' (ks' & Hf' & Ea' & Er')]. split; [by eapply same_conn_trans|].
  exists (ks ++ ks'). split; [by apply Forall_app|]. by rewrite Ea', Er', Ea, Er, !fed_app.
Qed.

Lemma quiet_intro s s' : same_conn s s' -> s_aof s' = s_aof s -> s_repl s' = s_repl s -> quiet s s'.
Proof. intros C Ea Er m. split; [done|]. exists []. by rewrite !fed_nil. Qed.

Lemma quiet_conn s s' : quiet s s' -> same_conn s s'.
Proof. intros H. apply (H ∅). Qed.

Lemma quiet_refl s : quiet s s.
Proof. intros m. apply keeps_refl. Qed.

Lemma quiet_trans s1 s2 s3 : quiet s1 s2 -> quiet s2 s3 -> quiet s1 s3.
Proof. intros H H' m. by eapply keeps_trans. Qed.

Lemma keeps_quiet m s1 s2 s3 : keeps m s1 s2 -> quiet s2 s3 -> keeps m s1 s3.
Proof. intros H H'. by eapply keeps_trans. Qed.

Create HintDb keeps.
#[export] Hint Resolve keeps_refl quiet_trans : keeps.
#[export] Hint Resolve keeps_quiet | 5 : keeps.
#[export] Hint Resolve keeps_trans | 6 : keeps.

(** The chain of a handler's steps. *)
Ltac chain :=
  repeat match goal with
  | H : keeps ?m ?s ?s1, H' : quiet ?s1 ?s2 |- _ => assert (keeps m s s2) by exact (keeps_quiet m s s1 s2 H H'); clear H'
  | H : keeps ?m ?s ?s1, H' : keeps ?m ?s1 ?s2 |- _ => assert (keeps m s s2) by exact (keeps_trans m s s1 s2 H H'); clear H'
  | H : quiet ?s ?s1, H' : quiet ?s1 ?s2 |- _ => assert (quiet s s2) by exact (quiet_trans s s1 s2 H H'); clear H'
  end; first [assumption|match goal with H : quiet ?s ?s' |- keeps _ ?s ?s' => exact (H _) end|apply keeps_refl|apply quiet_refl].

Lemma put_db_fields db s :
  s_db (put_db db s) = db /\ s_heap (put_db db s) = s_heap s /\ s_next (put_db db s) = s_next s /\
  s_tick (put_db db s) = s_tick s /\ c_prop (put_db db s) = c_prop s /\
  (watchers db = watchers (s_db s) -> same_conn s (put_db db s)) /\
  s_aof (put_db db s) = fed (drop (length (notified (s_db s))) (notified db)) (s_aof s) /\
  s_repl (put_db db s) = fed (drop (length (notified (s_db s))) (notified db)) (s_repl s).
Proof.
  unfold put_db. set (new := drop _ _). clearbody new.
  assert (forall l s0, let s1 := fold_left (fun s k => feed [str "DEL"; k] s) l s0 in
    s_db s1 = s_db s0 /\ s_heap s1 = s_heap s0 /\ s_next s1 = s_next s0 /\ s_tick s1 = s_tick s0 /\ c_prop s1 = c_prop s0 /\
    same_conn s0 s1 /\ s_aof s1 = fed l (s_aof s0) /\ s_repl s1 = fed l (s_repl s0)) as H.
  { induction l as [|k l IH]; intros s0; cbn [fold_left]; [split_and!; [done..|apply same_conn_refl|by rewrite fed_nil|by rewrite fed_nil]|].
    destruct (IH (feed [str "DEL"; k] s0)) as (-> & -> & -> & -> & -> & Hk & -> & ->). split_and!; [done..| | |].
    - eapply same_conn_trans; [|done]. by split.
    - change (k :: l) with ([k] ++ l). by rewrite <- fed_app.
    - change (k :: l) with ([k] ++ l). by rewrite <- fed_app. }
  destruct (H new (set_db db s)) as (-> & -> & -> & -> & -> & Hk & -> & ->). split_and!; [done..| |done|done].
  intros Hw. eapply same_conn_trans; [|done]. by split.
Qed.

(** ** The dataset a client sees *)

(** The clock stands at millisecond [T] while a command runs. *)
Definition instant (E : env) (T : Z) : Prop := 0 <= T /\ forall i, 0 <= clk E i /\ UnixMilli (clk E i) = T.

(** Deadlines that a [time.Duration] from now can reach: up to the year 2262. *)
Definition max_deadline : Z := max_int64 / 10 ^ 6.

Lemma zero_deadline : 0 <= 0 <= max_deadline.
Proof. split; [lia|]. vm_compute. discriminate. Qed.

Abbreviation dataset := (gmap bytes (rvalue * Z)) (only parsing).

Definition view (T : Z) (s : St) (k : bytes) := live T (abs (s_db s) k).

Definition ref_of (w : ObjectType * ObjectEncoding * payload) : option nat :=
  match w.2 with PRef l => Some l | _ => None end.

(** Keys and deadlines are those of the keyspace, every payload represents its value, and no container is shared
    between two keys. *)
Record abs_rel (T : Z) (m : dataset) (s : St) : Prop := {
  ar_db : unlimited (s_db s);
  ar_lim : limits_ok (s_lim s);
  ar_keys k : match view T s k, m !! k with
              | Some (w, e), Some (v, e') => e' = e /\ represents (s_heap s) w v /\ 0 <= e <= max_deadline
              | None, None => True
              | _, _ => False
              end;
  ar_fresh k w e l : view T s k = Some (w, e) -> ref_of w = Some l -> (l < s_next s)%nat;
  ar_inj k k' w w' e e' l : view T s k = Some (w, e) -> view T s k' = Some (w', e') ->
    ref_of w = Some l -> ref_of w' = Some l -> k = k'
}.

Lemma live_idem T x : live T (live T (P := payload) x) = live T x.
Proof. apply live_later. lia. Qed.

(** The keyspace as a finite map. *)
Definition finite_view (T : Z) (s : St) : Prop :=
  exists ms : gmap bytes (ObjectType * ObjectEncoding * payload * Z), forall k, ms !! k = view T s k.

Lemma abs_rel_finite T m s : abs_rel T m s -> finite_view T s.
Proof.
  intros H. exists (map_imap (fun k _ => view T s k) m). intros k. rewrite map_lookup_imap. pose proof (ar_keys _ _ _ H k) as Hk.
  destruct (m !! k), (view T s k) as [[]|]; done.
Qed.

Lemma view_map T s : finite_view T s -> exists ms, shows T (s_db s) ms /\ purge T ms = ms /\ forall k, ms !! k = view T s k.
Proof.
  intros [ms Hms]. exists ms. split_and!; [| |done].
  - intros k. rewrite Hms. unfold view. by rewrite live_idem.
  - apply map_eq. intros k. rewrite lookup_purge, Hms. apply live_idem.
Qed.

Lemma represents_heap h h' w v :
  represents h w v -> (forall l, ref_of w = Some l -> h' !! l = h !! l) -> represents h' w v.
Proof.
  destruct w as [[ty e] p]. intros [Ht Hr] Hh. split; [done|].
  destruct v as [x|x|x|x]; [done|..]; destruct Hr as (l & c & -> & Hl & Hc); exists l, c; (split_and!; [done| |done]);
    by rewrite Hh.
Qed.

(** A step that changes key [k] to [x] and containers that no other key refers to. *)
Lemma abs_rel_update T m s s' k x :
  abs_rel T m s -> unlimited (s_db s') -> s_lim s' = s_lim s -> (s_next s <= s_next s')%nat ->
  (forall j, j <> k -> view T s' j = view T s j) ->
  (forall j w e l, j <> k -> view T s j = Some (w, e) -> ref_of w = Some l -> s_heap s' !! l = s_heap s !! l) ->
  match view T s' k, x with
  | Some (w, e), Some (v, e') => e' = e /\ represents (s_heap s') w v /\ 0 <= e <= max_deadline /\
      (forall l, ref_of w = Some l -> (l < s_next s')%nat /\
         forall j w' e', j <> k -> view T s j = Some (w', e') -> ref_of w' <> Some l)
  | None, None => True
  | _, _ => False
  end ->
  abs_rel T (partial_alter (fun _ => x) k m) s'.
Proof.
  intros H Hdb Hlim Hnext Hv Hh Hk. split; [done|by rewrite Hlim; apply H|..].
  - intros j. destruct (decide (j = k)) as [->|Hj].
    + rewrite lookup_partial_alter_eq. destruct (view T s' k) as [[w e]|], x as [[v e']|]; try done. by destruct Hk as (-> & ? & ? & _).
    + rewrite lookup_partial_alter_ne, Hv by done. pose proof (ar_keys _ _ _ H j) as Hkj.
      destruct (view T s j) as [[w e]|] eqn:Ew, (m !! j) as [[v e']|]; try done. destruct Hkj as (-> & Hr & He).
      split_and!; [done| |lia|lia]. eapply represents_heap; [done|]. intros l Hl. by eapply Hh.
  - intros j w e l Ew Hl. destruct (decide (j = k)) as [->|Hj].
    + rewrite Ew in Hk. destruct x as [[v e']|]; [|done]. destruct Hk as (_ & _ & _ & Hk). by apply Hk.
    + rewrite Hv in Ew by done. pose proof (ar_fresh _ _ _ H j w e l Ew Hl). lia.
  - intros j j' w w' e e' l Ew Ew' Hl Hl'.
    assert (forall i i' u u' d d', i = k -> i' <> k -> view T s' i = Some (u, d) -> view T s' i' = Some (u', d') ->
      ref_of u = Some l -> ref_of u' = Some l -> False) as Hcross.
    { intros i i' u u' d d' -> Hi' Eu Eu' Hu Hu'. rewrite Eu in Hk. destruct x as [[v e'']|]; [|done].
      destruct Hk as (_ & _ & _ & Hk). rewrite Hv in Eu' by done. by apply (proj2 (Hk l Hu) i' u' d'). }
    destruct (decide (j = k)) as [->|Hj], (decide (j' = k)) as [->|Hj']; [done| | |].
    + destruct (Hcross k j' w w' e e'); done.
    + destruct (Hcross k j w' w e' e); done.
    + rewrite Hv in Ew, Ew' by done. by eapply (ar_inj _ _ _ H).
Qed.

(** A step that no key can see. *)
Lemma abs_rel_same T m s s' :
  abs_rel T m s -> unlimited (s_db s') -> s_lim s' = s_lim s -> (s_next s <= s_next s')%nat ->
  (forall j, view T s' j = view T s j) ->
  (forall j w e l, view T s j = Some (w, e) -> ref_of w = Some l -> s_heap s' !! l = s_heap s !! l) ->
  abs_rel T m s'.
Proof.
  intros H Hdb Hlim Hnext Hv Hh. split; [done|by rewrite Hlim; apply H|..].
  - intros k. rewrite Hv. pose proof (ar_keys _ _ _ H k) as Hk.
    destruct (view T s k) as [[w e]|] eqn:Ew, (m !! k) as [[v e']|]; try done. destruct Hk as (-> & Hr & He).
    split_and!; [done| |lia|lia]. eapply represents_heap; [done|]. intros l Hl. by eapply Hh.
  - intros k w e l. rewrite Hv. intros Ew Hl. pose proof (ar_fresh _ _ _ H k w e l Ew Hl). lia.
  - intros k k' w w' e e' l. rewrite !Hv. apply H.
Qed.

(** Time passes between commands: keys whose deadline has come are gone. *)
Definition expire_dataset (T : Z) (m : dataset) : dataset := filter (fun kx => alive T kx.2.2 = true) m.

Lemma lookup_expire (T : Z) (m : dataset) (k : bytes) :
  expire_dataset T m !! k = match m !! k with Some (v, e) => if alive T e then Some (v, e) else None | None => None end.
Proof.
  unfold expire_dataset. rewrite map_lookup_filter. destruct (m !! k) as [[v e]|]; [|done]. cbn.
  destruct (alive T e); [by rewrite option_guard_True|by rewrite option_guard_False].
Qed.

Lemma abs_rel_later T T' m s : T <= T' -> abs_rel T m s -> abs_rel T' (expire_dataset T' m) s.
Proof.
  intros HT H. assert (forall k, view T' s k = live T' (view T s k)) as Hv by (intros k; symmetry; by apply live_later).
  assert (forall k w e, view T' s k = Some (w, e) -> view T s k = Some (w, e)) as Hv'.
  { intros k w e. rewrite Hv. destruct (view T s k) as [[w' e']|]; [|done]. cbn. by case_match. }
  split; [apply H..| | |].
  - intros k. rewrite lookup_expire, Hv. pose proof (ar_keys _ _ _ H k) as Hk.
    destruct (view T s k) as [[w e]|], (m !! k) as [[v e']|]; try done. destruct Hk as (-> & ? & ?). cbn. by destruct (alive T' e).
  - intros k w e l Ew. eapply (ar_fresh _ _ _ H). by apply Hv'.
  - intros k k' w w' e e' l Ew Ew'. eapply (ar_inj _ _ _ H); by apply Hv'.
Qed.

Lemma abs_rel_live T m s k v e : abs_rel T m s -> m !! k = Some (v, e) -> alive T e = true /\ 0 <= e <= max_deadline.
Proof.
  intros H Hm. pose proof (ar_keys _ _ _ H k) as Hk. rewrite Hm in Hk.
  destruct (view T s k) as [[w e']|] eqn:Ew; [|done]. destruct Hk as (-> & _ & He). split; [|done].
  revert Ew. unfold view, live. destruct (abs (s_db s) k) as [[? ?]|]; [|done]. case_match; [|done]. by intros [= -> ->].
Qed.

(** ** Rules of the keyspace calls *)

(** The calls that the handlers of data commands make. *)
Definition data_op (c : op (P := payload)) : bool :=
  match c with OAddWatchers _ | ORemoveWatchers _ | OFlushAll | OActiveExpire | OKeep _ _ => false | _ => true end.

Lemma step_watchers {PS : PayloadSize payload} o t (db : ShardedDB payload) c r db' :
  maxMemory db <= 0 -> data_op c = true -> step o t db c = Some (r, db') -> watchers db' = watchers db.
Proof.
  intros Hm Hd Hs. destruct c; cbn [data_op step] in *; try done.
  - destruct (Get t db k) as [x d] eqn:Eg. simplify_eq. unfold Get in Eg. destruct (isExpired _ _ _).
    + simplify_eq. transitivity (watchers (remove_key db (GetShardIdx k) k)); [|apply remove_key_fields].
      destruct (bool_decide _); [|done]. by unfold notifyExpired.
    + destruct (entries _ !! k); by simplify_eq.
  - unfold Set_ in Hs. rewrite make_room_unlimited in Hs by done. cbn -[store_entry] in Hs. simplify_eq. apply store_entry_fields.
  - unfold SetWithExpire in Hs. rewrite make_room_unlimited in Hs by done. cbn -[store_entry UnixMilli] in Hs. simplify_eq.
    apply store_entry_fields.
  - unfold SetExpireAt in Hs. destruct (isExpired _ _ _); simplify_eq; [apply remove_key_fields|].
    destruct (entries _ !! k); by simplify_eq.
  - unfold SetExpire, SetExpireAt in Hs. destruct (isExpired _ _ _); simplify_eq; [apply remove_key_fields|].
    destruct (entries _ !! k); by simplify_eq.
  - unfold Del in Hs. destruct (isExpired _ _ _); simplify_eq; [apply remove_key_fields|].
    destruct (entries _ !! k); simplify_eq; [apply remove_key_fields|done].
  - by simplify_eq.
  - by simplify_eq.
  - unfold Persist in Hs. destruct (isExpired _ _ _); [by simplify_eq|]. destruct (entries _ !! k); [|by simplify_eq].
    destruct (_ =? 0); by simplify_eq.
  - simplify_eq. unfold Touch. by destruct (_ =? 0).
Qed.

Definition is_get (c : op (P := payload)) : bool := match c with OGet _ => true | _ => false end.

Lemma store_entry_notified {PS : PayloadSize payload} (db : ShardedDB payload) k v f : notified (store_entry db k v f) = notified db.
Proof. unfold store_entry. by destruct (entries _ !! k). Qed.

Lemma remove_key_notified {PS : PayloadSize payload} (db : ShardedDB payload) i k : notified (remove_key db i k) = notified db.
Proof. unfold remove_key. by destruct (entries _ !! k). Qed.

(** Only a read reclaims a key in the name of the expiry hook. *)
Lemma step_notified {PS : PayloadSize payload} o t (db : ShardedDB payload) c r db' :
  maxMemory db <= 0 -> data_op c = true -> is_get c = false -> step o t db c = Some (r, db') -> notified db' = notified db.
Proof.
  intros Hm Hd Hg Hs. destruct c; cbn [data_op step] in *; try done.
  - unfold Set_ in Hs. rewrite make_room_unlimited in Hs by done. cbn -[store_entry] in Hs. simplify_eq. apply store_entry_notified.
  - unfold SetWithExpire in Hs. rewrite make_room_unlimited in Hs by done. cbn -[store_entry UnixMilli] in Hs. simplify_eq.
    apply store_entry_notified.
  - unfold SetExpireAt in Hs. destruct (isExpired _ _ _); simplify_eq; [apply remove_key_notified|].
    destruct (entries _ !! k); by simplify_eq.
  - unfold SetExpire, SetExpireAt in Hs. destruct (isExpired _ _ _); simplify_eq; [apply remove_key_notified|].
    destruct (entries _ !! k); by simplify_eq.
  - unfold Del in Hs. destruct (isExpired _ _ _); simplify_eq; [apply remove_key_notified|].
    destruct (entries _ !! k); simplify_eq; [apply remove_key_notified|done].
  - by simplify_eq.
  - by simplify_eq.
  - unfold Persist in Hs. destruct (isExpired _ _ _); [by simplify_eq|]. destruct (entries _ !! k); [|by simplify_eq].
    destruct (_ =? 0); by simplify_eq.
  - simplify_eq. unfold Touch. by destruct (_ =? 0).
Qed.

Lemma Get_notified {PS : PayloadSize payload} t (db : ShardedDB payload) k r db' :
  Get t db k = (r, db') -> exists ks, notified db' = notified db ++ ks /\
    Forall (fun j => j = k /\ r = None /\ expires (getShard db k) !! k <> None) ks.
Proof.
  unfold Get. destruct (isExpired _ _ _) eqn:Hx.
  - intros [<- <-]%pair_equal_spec. destruct (bool_decide _).
    + set (d := remove_key _ _ _). assert (notified d = notified db) as <- by apply remove_key_notified.
      unfold notifyExpired. cbn [notified]. destruct (onExpired d); [exists [k]|exists []].
      * split; [done|]. constructor; [|done]. split_and!; [done|done|]. intros Hn. unfold isExpired in Hx. by rewrite Hn in Hx.
      * by rewrite app_nil_r.
    + exists []. by rewrite remove_key_notified, app_nil_r.
  - intros Hg. exists []. rewrite app_nil_r. destruct (entries _ !! k); by simplify_eq.
Qed.

Lemma Del_gone {PS : PayloadSize payload} t (db : ShardedDB payload) k b db' :
  db_wf db -> Del t db k = (b, db') -> expires (getShard db' k) !! k = None.
Proof.
  intros Hwf Ed. assert (expires (getShard (remove_key db (GetShardIdx k) k) k) !! k = None) as Hr.
  { pose proof (ch_cell _ _ _ _ (remove_key_changes db k Hwf) k) as Hc. rewrite decide_True in Hc by done.
    unfold cell, cell_of, gone in Hc. by injection Hc as _ -> _. }
  unfold Del in Ed. destruct (key_cases db k (UnixMilli t) Hwf) as [Hx Hl|Hx Hv Hxe Hab|v' e' Hx Hv Hxe Hal Hab]; rewrite Hx, ?Hv in Ed; by simplify_eq.
Qed.

Lemma partial_alter_id' {A} (m : gmap bytes A) k x : m !! k = x -> partial_alter (fun _ => x) k m = m.
Proof. intros <-. apply partial_alter_self. Qed.

Section rules.
Variables (E : env) (T : Z).
Hypothesis Hclk : instant E T.

Local Lemma clk_milli i : UnixMilli (clk E i) = T.
Proof using Hclk. apply Hclk. Qed.

(** One call of the keyspace, as a step of the map of views. *)
Lemma db_step_view s c :
  unlimited (s_db s) -> finite_view T s -> data_op c = true ->
  exists ms db', purge T ms = ms /\ (forall k, ms !! k = view T s k) /\
    @step payload (heap_size (s_heap s)) (orc E (s_tick s)) (clk E (s_tick s)) (s_db s) c
      = Some ((spec_step (clk E (s_tick s)) ms c).1, db') /\
    unlimited db' /\ (forall k, live T (abs db' k) = live T ((spec_step (clk E (s_tick s)) ms c).2 !! k)) /\
    watchers db' = watchers (s_db s) /\ (is_get c = false -> notified db' = notified (s_db s)).
Proof using Hclk.
  intros Hu0 Hf Hd. destruct (view_map T s Hf) as (ms & Hs & Hp & Hv).
  set (PS := heap_size (s_heap s)). set (t := clk E (s_tick s)).
  destruct (step_simulates (orc E (s_tick s)) t (s_db s) ms Hu0) with (c := c) as (db' & Es & Hu & Hs').
  { unfold t. by rewrite clk_milli. }
  exists ms, db'. split_and!; [done..| | |].
  - unfold t in Hs'. rewrite clk_milli in Hs'. exact Hs'.
  - eapply step_watchers; [apply Hu0|done|exact Es].
  - intros Hg. eapply step_notified; [apply Hu0|done|done|exact Es].
Qed.

Lemma db_step m s c :
  abs_rel T m s -> data_op c = true ->
  exists ms db', purge T ms = ms /\ (forall k, ms !! k = view T s k) /\
    @step payload (heap_size (s_heap s)) (orc E (s_tick s)) (clk E (s_tick s)) (s_db s) c
      = Some ((spec_step (clk E (s_tick s)) ms c).1, db') /\
    unlimited db' /\ (forall k, live T (abs db' k) = live T ((spec_step (clk E (s_tick s)) ms c).2 !! k)) /\
    watchers db' = watchers (s_db s) /\ (is_get c = false -> notified db' = notified (s_db s)).
Proof using Hclk. intros H. apply db_step_view; [apply H|by eapply abs_rel_finite]. Qed.

(** The state after a call whose new database is [db']. *)
Lemma after_call db' s :
  let s' := set_tick (S (s_tick s)) (put_db db' s) in
  watchers db' = watchers (s_db s) ->
  s_db s' = db' /\ s_heap s' = s_heap s /\ s_next s' = s_next s /\ same_conn s s' /\
  s_aof s' = fed (drop (length (notified (s_db s))) (notified db')) (s_aof s) /\
  s_repl s' = fed (drop (length (notified (s_db s))) (notified db')) (s_repl s).
Proof.
  intros s' Hw. destruct (put_db_fields db' s) as (E1 & E2 & E3 & _ & _ & Hk & Ea & Er). split_and!; [done..| |done|done].
  eapply same_conn_trans; [by apply Hk|]. by split.
Qed.

(** A call that notifies nobody. *)
Lemma after_quiet db' s :
  let s' := set_tick (S (s_tick s)) (put_db db' s) in
  watchers db' = watchers (s_db s) -> notified db' = notified (s_db s) ->
  s_db s' = db' /\ s_heap s' = s_heap s /\ s_next s' = s_next s /\ same_conn s s' /\ quiet s s'.
Proof.
  intros s' Hw Hn. destruct (after_call db' s Hw) as (E1 & E2 & E3 & Hk & Ea & Er).
  rewrite Hn, drop_all, !fed_nil in Ea, Er. split_and!; [done..|]. by apply quiet_intro.
Qed.

(** What a reader of key [k] gets. *)
Definition reads (m : dataset) (s : St) (k : bytes) (r : option robj) : Prop :=
  match m !! k with
  | Some (v, e) => exists o, r = Some o /\ represents (s_heap s) (face o) v /\ view T s k = Some (face o, e)
  | None => r = None
  end.

(** A read of an absent key leaves no deadline of its behind. *)
Lemma Get_clean {PS : PayloadSize payload} m s k r db' :
  abs_rel T m s -> Get (clk E (s_tick s)) (s_db s) k = (r, db') -> m !! k = None -> expires (getShard db' k) !! k = None.
Proof using Hclk.
  intros H Eg Hm. destruct (ar_db _ _ _ H) as [Hwf _].
  pose proof (ar_keys _ _ _ H k) as Hkk. rewrite Hm in Hkk. unfold view in Hkk.
  destruct (key_cases (s_db s) k T Hwf) as [Hx Hl|Hx Hv Hxe Hab|v' e' Hx Hv Hxe Hal Hab].
  - rewrite <- (clk_milli (s_tick s)) in Hx. destruct (Get_expired _ _ _ Hwf Hx) as (db1 & E' & _ & Hg). rewrite E' in Eg.
    simplify_eq. unfold cell, cell_of, gone in Hg. by injection Hg as _ -> _.
  - unfold Get in Eg. rewrite clk_milli, Hx, Hv in Eg. by simplify_eq.
  - rewrite Hab in Hkk. cbn in Hkk. by rewrite Hal in Hkk.
Qed.

(** What a read of [k] feeds: at most the deletion of [k] itself, when it is absent with a deadline left behind. *)
Definition reaps (m : dataset) (k : bytes) (s s' : St) : Prop :=
  forall m' : dataset, (m !! k = None -> expires (getShard (s_db s) k) !! k <> None -> m' !! k = None) -> keeps m' s s'.

Lemma reaps_keeps (m : dataset) (k : bytes) (s s' : St) : reaps m k s s' -> keeps m s s'.
Proof. intros H. by apply H. Qed.

Lemma db_Get_view_rule m s k (Q : option robj -> St -> Prop) :
  abs_rel T m s ->
  (forall r s', abs_rel T m s' -> reaps m k s s' -> s_heap s' = s_heap s -> s_next s' = s_next s -> reads m s' k r ->
     (m !! k = None -> expires (getShard (s_db s') k) !! k = None) -> (forall j, view T s' j = view T s j) -> Q r s') ->
  wp (db_Get E k) s Q.
Proof using Hclk.
  intros H HQ. destruct (db_step m s (OGet k) H eq_refl) as (ms & db' & Hp & Hv & Es & Hu & Hs & Hw & _).
  cbn [step spec_step fst snd] in Es, Hs. rewrite clk_milli, Hp in Es, Hs.
  destruct (Get (clk E (s_tick s)) (s_db s) k) as [r db1] eqn:Eg. injection Es as Er ->.
  destruct (after_call db' s Hw) as (E1 & E2 & E3 & Hk & Ea & Er').
  set (s' := set_tick (S (s_tick s)) (put_db db' s)) in *.
  assert (forall j, view T s' j = view T s j) as Hview.
  { intros j. unfold view at 1. rewrite E1, Hs, Hv. unfold view. by rewrite live_idem. }
  exists r, s'. split; [unfold db_Get, db_call; cbn; by rewrite Eg|]. apply HQ; [| |done|done| | |done].
  - eapply abs_rel_same; [done|by rewrite E1|apply Hk|by rewrite E3|done|by rewrite E2].
  - intros m' Hm'. split; [done|]. pose (PS := heap_size (s_heap s)). destruct (Get_notified _ _ _ _ _ Eg) as (ks & Hn & Hks). rewrite Hn, drop_app_length in Ea, Er'.
    exists ks. split_and!; [|done|done]. eapply Forall_impl; [exact Hks|]. intros j (-> & -> & Hx). apply Hm'; [|done]. cbn in Er. rewrite Hv in Er.
    pose proof (ar_keys _ _ _ H k) as Hkk. destruct (view T s k) as [[w e]|], (m !! k) as [[v e']|]; done.
  - unfold reads. pose proof (ar_keys _ _ _ H k) as Hkk. rewrite Hv in Er. rewrite Hview.
    destruct (view T s k) as [[w e]|] eqn:Ew, (m !! k) as [[v e']|]; try done.
    + cbn in Er. destruct r as [o|]; [|done]. injection Er as <-. destruct Hkk as (-> & Hr & _).
      exists o. rewrite E2. done.
    + by destruct r.
  - rewrite E1. pose (PS := heap_size (s_heap s)). by eapply Get_clean.
Qed.

Lemma db_Get_rule m s k (Q : option robj -> St -> Prop) :
  abs_rel T m s ->
  (forall r s', abs_rel T m s' -> keeps m s s' -> s_heap s' = s_heap s -> s_next s' = s_next s -> reads m s' k r ->
     (m !! k = None -> expires (getShard (s_db s') k) !! k = None) -> Q r s') ->
  wp (db_Get E k) s Q.
Proof using Hclk. intros H HQ. apply (db_Get_view_rule m); [done|]. intros. apply HQ; try done. by eapply reaps_keeps. Qed.

Lemma db_Exists_rule m s k (Q : bool -> St -> Prop) :
  abs_rel T m s ->
  (forall s', abs_rel T m s' -> quiet s s' -> s_heap s' = s_heap s -> s_next s' = s_next s ->
     (forall j, view T s' j = view T s j) -> Q (bool_decide (is_Some (m !! k))) s') ->
  wp (db_Exists E k) s Q.
Proof using Hclk.
  intros H HQ. destruct (db_step m s (OExists k) H eq_refl) as (ms & db' & Hp & Hv & Es & Hu & Hs & Hw & _).
  cbn [step spec_step fst snd] in Es, Hs. rewrite clk_milli, Hp in Es, Hs. injection Es as Er <-.
  destruct (after_quiet (s_db s) s eq_refl eq_refl) as (E1 & E2 & E3 & Hk & Hq).
  set (s' := set_tick (S (s_tick s)) (put_db (s_db s) s)) in *.
  exists (Exists (clk E (s_tick s)) (s_db s) k), s'. split; [done|]. rewrite Er, Hv.
  replace (bool_decide (is_Some (view T s k))) with (bool_decide (is_Some (m !! k))).
  - assert (forall j, view T s' j = view T s j) by (intros j; unfold view; by rewrite E1).
    apply HQ; [|done..]. eapply abs_rel_same; [done|by rewrite E1; apply H|apply Hk|by rewrite E3|done|by rewrite E2].
  - pose proof (ar_keys _ _ _ H k) as Hkk. apply bool_decide_ext.
    destruct (view T s k) as [[w e]|], (m !! k) as [[v e']|]; naive_solver.
Qed.

(** An update of one key through the keyspace, with a payload that is not a container or that no other key uses. *)
Lemma db_update_view s c k x r :
  unlimited (s_db s) -> finite_view T s -> data_op c = true -> is_get c = false ->
  (forall ms, purge T ms = ms -> (forall j, ms !! j = view T s j) ->
     spec_step (clk E (s_tick s)) ms c = (r, partial_alter (fun _ => x) k ms)) ->
  exists db', @step payload (heap_size (s_heap s)) (orc E (s_tick s)) (clk E (s_tick s)) (s_db s) c = Some (r, db') /\
    let s' := set_tick (S (s_tick s)) (put_db db' s) in
    s_heap s' = s_heap s /\ s_next s' = s_next s /\ same_conn s s' /\ quiet s s' /\ unlimited (s_db s') /\
    view T s' k = live T x /\ (forall j, j <> k -> view T s' j = view T s j).
Proof using Hclk.
  intros Hu0 Hf Hd Hg Hc. destruct (db_step_view s c Hu0 Hf Hd) as (ms & db' & Hp & Hv & Es & Hu & Hs & Hw & Hn).
  rewrite (Hc ms Hp Hv) in Es, Hs. cbn [fst snd] in *. exists db'. split; [done|].
  destruct (after_quiet db' s Hw (Hn Hg)) as (E1 & E2 & E3 & Hk & Hq). cbv zeta. split_and!; [done..|by rewrite E1| |].
  - unfold view. rewrite E1, Hs. by rewrite lookup_partial_alter_eq.
  - intros j Hj. unfold view at 1. rewrite E1, Hs, lookup_partial_alter_ne, Hv by done. apply live_idem.
Qed.

Lemma db_update m s c k x r :
  abs_rel T m s -> data_op c = true -> is_get c = false ->
  (forall ms, purge T ms = ms -> (forall j, ms !! j = view T s j) ->
     spec_step (clk E (s_tick s)) ms c = (r, partial_alter (fun _ => x) k ms)) ->
  exists db', @step payload (heap_size (s_heap s)) (orc E (s_tick s)) (clk E (s_tick s)) (s_db s) c = Some (r, db') /\
    let s' := set_tick (S (s_tick s)) (put_db db' s) in
    s_heap s' = s_heap s /\ s_next s' = s_next s /\ same_conn s s' /\ quiet s s' /\ unlimited (s_db s') /\
    view T s' k = live T x /\ (forall j, j <> k -> view T s' j = view T s j).
Proof using Hclk. intros H. apply db_update_view; [apply H|by eapply abs_rel_finite]. Qed.

Lemma db_Del_gone_rule m s k (Q : bool -> St -> Prop) :
  abs_rel T m s ->
  (forall s', abs_rel T (delete k m) s' -> quiet s s' -> s_heap s' = s_heap s -> s_next s' = s_next s ->
     expires (getShard (s_db s') k) !! k = None -> Q (bool_decide (is_Some (m !! k))) s') ->
  wp (db_Del E k) s Q.
Proof using Hclk.
  intros H HQ. destruct (db_update m s (ODel k) k None (RBool (bool_decide (is_Some (view T s k))))) as (db' & Es & E2 & E3 & Hk & Hq & Hu & Ev & Hj); [done..| |].
  { intros ms Hp Hv. cbn [spec_step]. rewrite clk_milli, Hp, Hv. done. }
  cbn [step] in Es. destruct (Del (clk E (s_tick s)) (s_db s) k) as [b d] eqn:Ed. injection Es as Eb ->.
  eexists _, _. split; [unfold db_Del, db_call; cbn; by rewrite Ed|]. rewrite Eb.
  assert (s_db (set_tick (S (s_tick s)) (put_db db' s)) = db') as Hdb by apply put_db_fields.
  assert (expires (getShard db' k) !! k = None) as Hgone.
  { by rewrite <- (Del_gone (PS := heap_size (s_heap s)) _ _ _ _ _ (proj1 (ar_db _ _ _ H)) Ed). }
  replace (bool_decide (is_Some (view T s k))) with (bool_decide (is_Some (m !! k))).
  - apply HQ; [|done..|by rewrite Hdb]. apply (abs_rel_update T m s _ k None); [done..|apply Hk|by rewrite E3|done|by rewrite E2|by rewrite Ev].
  - pose proof (ar_keys _ _ _ H k) as Hkk. apply bool_decide_ext.
    destruct (view T s k) as [[w e]|], (m !! k) as [[v e']|]; naive_solver.
Qed.

Lemma db_Del_rule m s k (Q : bool -> St -> Prop) :
  abs_rel T m s ->
  (forall s', abs_rel T (delete k m) s' -> quiet s s' -> s_heap s' = s_heap s -> s_next s' = s_next s ->
     Q (bool_decide (is_Some (m !! k))) s') ->
  wp (db_Del E k) s Q.
Proof using Hclk. intros H HQ. apply (db_Del_gone_rule m); [done|]. intros. by apply HQ. Qed.

(** A container that no key refers to. *)
Definition unshared (s : St) (l : nat) : Prop :=
  (l < s_next s)%nat /\ forall j w e, view T s j = Some (w, e) -> ref_of w <> Some l.

(** An object that may be stored: its container, if it has one, is new. *)
Definition storable (s : St) (o : robj) (v : rvalue) : Prop :=
  represents (s_heap s) (face o) v /\ forall l, ref_of (face o) = Some l -> unshared s l.

Lemma face_lru t (o : robj) : face (store_lru t o) = face o.
Proof. done. Qed.

(** Storing an object under [k] with deadline [e]. *)
Lemma stored m s s' k o v e :
  abs_rel T m s -> storable s o v -> 0 <= e <= max_deadline -> alive T e = true ->
  s_heap s' = s_heap s -> s_next s' = s_next s -> same_conn s s' -> unlimited (s_db s') ->
  view T s' k = live T (Some (face o, e)) -> (forall j, j <> k -> view T s' j = view T s j) ->
  abs_rel T (<[k := (v, e)]> m) s'.
Proof.
  intros H [Hr Hsh] He Ha E2 E3 Hk Hu Ev Hj.
  apply (abs_rel_update T m s s' k (Some (v, e))); [done..|apply Hk|by rewrite E3|done|by rewrite E2|].
  rewrite Ev. cbn. rewrite Ha, E2, E3. split_and!; [done|done|lia|lia|].
  intros l Hl. destruct (Hsh l Hl) as [? Hno]. split; [done|]. intros j w' e' _. apply Hno.
Qed.

Lemma db_Set_rule m s k o v (Q : option DbError -> St -> Prop) :
  abs_rel T m s -> storable s o v ->
  (forall s', abs_rel T (<[k := (v, 0)]> m) s' -> quiet s s' -> s_heap s' = s_heap s -> s_next s' = s_next s ->
     view T s' k = Some (face o, 0) -> Q None s') ->
  wp (db_Set E k o) s Q.
Proof using Hclk.
  intros H Hst HQ. destruct (db_update m s (OSet k o) k (Some (face o, 0)) (RErr None)) as (db' & Es & E2 & E3 & Hk & Hq & Hu & Ev & Hj); [done..| |].
  { intros ms Hp Hv. cbn [spec_step]. by rewrite clk_milli, Hp. }
  cbn [step] in Es. destruct (Set_ _ _ _ k o) as [[e d]|] eqn:Ed; [|done]. injection Es as -> ->.
  eexists _, _. split; [unfold db_Set, db_call; cbn; by rewrite Ed|]. apply HQ; [|done..|by rewrite Ev].
  exact (stored m s _ k o v 0 H Hst zero_deadline eq_refl E2 E3 Hk Hu Ev Hj).
Qed.

Lemma UnixMilli_add t ms : UnixMilli (t + ms * 10 ^ 6) = UnixMilli t + ms.
Proof. unfold UnixMilli. by rewrite Z.div_add by lia. Qed.

Lemma alive_after e : T < e -> alive T e = true.
Proof. intros. unfold alive. rewrite (proj2 (Z.ltb_lt _ _)) by done. apply orb_true_r. Qed.

Lemma db_SetWithExpire_rule m s k o v ms (Q : option DbError -> St -> Prop) :
  abs_rel T m s -> storable s o v -> 0 < ms -> T + ms <= max_deadline ->
  (forall s', abs_rel T (<[k := (v, T + ms)]> m) s' -> quiet s s' -> s_heap s' = s_heap s -> s_next s' = s_next s ->
     view T s' k = Some (face o, T + ms) -> Q None s') ->
  wp (db_SetWithExpire E k o (ms * 10 ^ 6)) s Q.
Proof using Hclk.
  intros H Hst Hms Hd HQ.
  destruct (db_update m s (OSetEx k o (ms * 10 ^ 6)) k (Some (face o, T + ms)) (RErr None)) as (db' & Es & E2 & E3 & Hk & Hq & Hu & Ev & Hj); [done..| |].
  { intros mm Hp Hv. cbn [spec_step]. by rewrite UnixMilli_add, clk_milli, Hp. }
  cbn [step] in Es. destruct (SetWithExpire _ _ _ k o _) as [[e d]|] eqn:Ed; [|done]. injection Es as -> ->.
  eexists _, _. split; [unfold db_SetWithExpire, db_call; cbn -[SetWithExpire]; by rewrite Ed|]. assert (alive T (T + ms) = true) as Ha by (apply alive_after; lia). apply HQ; [|done..|by rewrite Ev; cbn; rewrite Ha].
  destruct Hclk. eapply stored; try done. lia.
Qed.

(** A new deadline for [k]: none in the past survives. *)
Definition with_deadline (m : dataset) (k : bytes) (e : Z) : dataset :=
  match m !! k with
  | Some (v, _) => if alive T e then <[k := (v, e)]> m else delete k m
  | None => m
  end.

(** The payload of [k] stays, its deadline becomes [e]. *)
Lemma redated m s s' k v e0 w e :
  abs_rel T m s -> m !! k = Some (v, e0) -> view T s k = Some (w, e0) -> e <= max_deadline ->
  s_heap s' = s_heap s -> s_next s' = s_next s -> same_conn s s' -> unlimited (s_db s') ->
  view T s' k = live T (Some (w, e)) -> (forall j, j <> k -> view T s' j = view T s j) ->
  abs_rel T (with_deadline m k e) s'.
Proof using Hclk.
  intros H Hm Hw He E2 E3 Hk Hu Ev Hj. unfold with_deadline. rewrite Hm. cbn in Ev.
  pose proof (ar_keys _ _ _ H k) as Hkk. rewrite Hw, Hm in Hkk. destruct Hkk as (_ & Hr & He0).
  destruct (alive T e) eqn:Ea.
  - apply (abs_rel_update T m s s' k (Some (v, e))); [done..|apply Hk|by rewrite E3|done|by rewrite E2|].
    rewrite Ev, E2, E3. destruct Hclk as [HT _]. split_and!; [done|done| |done|].
    + revert Ea. unfold alive. destruct (Z.eqb_spec e 0); [lia|]. cbn. intros ?%Z.ltb_lt. lia.
    + intros l Hl. split; [by eapply (ar_fresh _ _ _ H)|]. intros j w' e' Hjk Ew' Hl'.
      apply Hjk. by eapply (ar_inj _ _ _ H).
  - apply (abs_rel_update T m s s' k None); [done..|apply Hk|by rewrite E3|done|by rewrite E2|by rewrite Ev].
Qed.

Lemma unchanged m s s' :
  abs_rel T m s -> s_heap s' = s_heap s -> s_next s' = s_next s -> same_conn s s' -> unlimited (s_db s') ->
  (forall j, view T s' j = view T s j) -> abs_rel T m s'.
Proof. intros H E2 E3 Hk Hu Hj. eapply abs_rel_same; [done..|apply Hk|by rewrite E3|done|by rewrite E2]. Qed.

Lemma db_SetExpireAt_rule m s k e (Q : bool -> St -> Prop) :
  abs_rel T m s -> e <= max_deadline ->
  (forall s', abs_rel T (with_deadline m k e) s' -> quiet s s' -> s_heap s' = s_heap s -> s_next s' = s_next s ->
     Q (bool_decide (is_Some (m !! k))) s') ->
  wp (db_SetExpireAt E k e) s Q.
Proof using Hclk.
  intros H He HQ. pose proof (ar_keys _ _ _ H k) as Hkk.
  set (x := match view T s k with Some (w, _) => Some (w, e) | None => None end).
  destruct (db_update m s (OExpireAt k e) k x (RBool (bool_decide (is_Some (view T s k))))) as (db' & Es & E2 & E3 & Hk & Hq & Hu & Ev & Hj); [done..| |].
  { intros ms Hp Hv. cbn [spec_step]. rewrite clk_milli, Hp, Hv. unfold x. destruct (view T s k) as [[w e0]|] eqn:Ew; [done|].
    cbn. f_equal. symmetry. apply partial_alter_id'. by rewrite Hv. }
  cbn [step] in Es. destruct (SetExpireAt _ (s_db s) k e) as [b d] eqn:Ed. injection Es as Eb ->.
  eexists _, _. split; [unfold db_SetExpireAt, db_call; cbn -[SetExpireAt]; by rewrite Ed|]. rewrite Eb. unfold x in Ev.
  destruct (view T s k) as [[w e0]|] eqn:Ew, (m !! k) as [[v e']|] eqn:Em; try done.
  - destruct Hkk as (-> & Hr & _). rewrite !bool_decide_true in * by eauto.
    apply HQ; [|done..]. by eapply redated.
  - rewrite !bool_decide_false in * by (by intros [? [=]]). apply HQ; [|done..].
    unfold with_deadline. rewrite Em. eapply unchanged; [done..|]. intros j. destruct (decide (j = k)) as [->|]; [|by apply Hj].
    by rewrite Ev, Ew.
Qed.

Lemma db_Persist_rule m s k (Q : bool -> St -> Prop) :
  abs_rel T m s ->
  (forall s', abs_rel T (match m !! k with Some (v, _) => <[k := (v, 0)]> m | None => m end) s' -> quiet s s' ->
     s_heap s' = s_heap s -> s_next s' = s_next s ->
     Q (match m !! k with Some (_, e) => negb (e =? 0) | None => false end) s') ->
  wp (db_Persist E k) s Q.
Proof using Hclk.
  intros H HQ. pose proof (ar_keys _ _ _ H k) as Hkk.
  set (x := match view T s k with Some (w, _) => Some (w, 0) | None => None end).
  set (b := match view T s k with Some (_, e) => negb (e =? 0) | None => false end).
  destruct (db_update m s (OPersist k) k x (RBool b)) as (db' & Es & E2 & E3 & Hk & Hq & Hu & Ev & Hj); [done..| |].
  { intros ms Hp Hv. cbn [spec_step]. rewrite clk_milli, Hp, Hv. unfold x, b. destruct (view T s k) as [[w e0]|] eqn:Ew.
    - destruct (Z.eqb_spec e0 0) as [->|]; [|done]. cbn. f_equal. symmetry. apply partial_alter_id'. by rewrite Hv.
    - cbn. f_equal. symmetry. apply partial_alter_id'. by rewrite Hv. }
  cbn [step] in Es. destruct (Persist _ (s_db s) k) as [b' d] eqn:Ed. injection Es as Eb ->.
  eexists _, _. split; [unfold db_Persist, db_call; cbn -[Persist]; by rewrite Ed|]. rewrite Eb. unfold b, x in *.
  destruct (view T s k) as [[w e0]|] eqn:Ew, (m !! k) as [[v e']|] eqn:Em; try done.
  - destruct Hkk as (-> & Hr & _). apply HQ; [|done..].
    replace (<[k := (v, 0)]> m) with (with_deadline m k 0) by (unfold with_deadline; by rewrite Em).
    exact (redated m s _ k v e0 w 0 H Em Ew (proj2 zero_deadline) E2 E3 Hk Hu Ev Hj).
  - apply HQ; [|done..]. eapply unchanged; [done..|]. intros j. destruct (decide (j = k)) as [->|]; [|by apply Hj].
    by rewrite Ev, Ew.
Qed.

Lemma db_TTL_rule m s k (Q : Z * Z -> St -> Prop) :
  abs_rel T m s ->
  (forall s', abs_rel T m s' -> quiet s s' -> s_heap s' = s_heap s -> s_next s' = s_next s ->
     Q (match m !! k with None => (0, -2) | Some (_, e) => if e =? 0 then (0, -1) else ((e - T) * 10 ^ 6, 0) end) s') ->
  wp (db_TTL E k) s Q.
Proof using Hclk.
  intros H HQ. destruct (after_quiet (s_db s) s eq_refl eq_refl) as (E1 & E2 & E3 & Hk & Hq).
  set (s' := set_tick (S (s_tick s)) (put_db (s_db s) s)) in *.
  exists (TTL (clk E (s_tick s)) (s_db s) k), s'. split; [done|].
  pose proof (ar_keys _ _ _ H k) as Hkk.
  pose (P := heap_size (s_heap s)).
  rewrite (TTL_live (clk E (s_tick s)) (s_db s) k); [|apply (ar_db _ _ _ H)|apply Hclk|]; rewrite clk_milli; fold (view T s k).
  - replace (match view T s k with None => (0, -2) | Some (_, e) => if e =? 0 then (0, -1) else ((e - T) * 10 ^ 6, 0) end)
      with (match m !! k with None => (0, -2) | Some (_, e) => if e =? 0 then (0, -1) else ((e - T) * 10 ^ 6, 0) end)
      by (destruct (view T s k) as [[w e]|], (m !! k) as [[v e']|]; try done; by destruct Hkk as (-> & _)).
    apply HQ; [|done..]. eapply unchanged; [done..|by rewrite E1; apply H|]. intros j. unfold view. by rewrite E1.
  - intros w e Ew. rewrite Ew in Hkk. destruct (m !! k) as [[v e']|]; [|done]. destruct Hkk as (_ & _ & He), Hclk as [HT _].
    unfold max_deadline, is_int64, min_int64, max_int64 in *. div_lia.
Qed.

Lemma db_SetKeepTTL_rule m s k o v v0 e (Q : unit -> St -> Prop) :
  abs_rel T m s -> m !! k = Some (v0, e) -> storable s o v ->
  (forall s', abs_rel T (<[k := (v, e)]> m) s' -> quiet s s' -> s_heap s' = s_heap s -> s_next s' = s_next s ->
     view T s' k = Some (face o, e) -> Q tt s') ->
  wp (db_SetKeepTTL E k o) s Q.
Proof using Hclk.
  intros H Hm Hst HQ. destruct (abs_rel_live _ _ _ _ _ _ H Hm) as [Ha He].
  pose proof (ar_keys _ _ _ H k) as Hkk. rewrite Hm in Hkk.
  destruct (ar_db _ _ _ H) as [Hwf Hmx].
  set (P := heap_size (s_heap s)). set (o' := store_lru (Unix (clk E (s_tick s))) o).
  pose proof (store_entry_changes (s_db s) k o' id Hwf ltac:(done)) as Hc.
  set (db' := store_entry (s_db s) k o' id) in *.
  destruct (after_quiet db' s (ch_watchers _ _ _ _ Hc) (store_entry_notified _ _ _ _)) as (E1 & E2 & E3 & Hk & Hq).
  set (s' := set_tick (S (s_tick s)) (put_db db' s)) in *.
  assert (view T s' k = Some (face o, e)) as Ev.
  { unfold view. rewrite E1. unfold abs. rewrite (ch_cell _ _ _ _ Hc), decide_True by done. cbn [abs_of].
    change (id (expires (getShard (s_db s) k))) with (expires (getShard (s_db s) k)).
    destruct (view T s k) as [[w e']|] eqn:Ew; [|done]. destruct Hkk as (<- & _).
    destruct (key_cases (s_db s) k T Hwf) as [Hx Hl|Hx Hv Hxe Hab|v' e' Hx Hv Hxe Hal Hab]; unfold view in Ew.
    - congruence.
    - by rewrite Hab in Ew.
    - rewrite Hab in Ew. cbn in Ew. rewrite Hal in Ew. injection Ew as <- <-. rewrite Hxe. cbn [live]. by rewrite Ha. }
  exists tt, s'. split; [done|]. apply HQ; [|done..].
  eapply (stored m s s' k o v e); try done.
  - rewrite E1. split; [apply Hc|by eapply changes_max].
  - rewrite Ev. cbn. by rewrite Ha.
  - intros j Hj. unfold view. rewrite E1. f_equal. apply abs_cell. by rewrite (ch_cell _ _ _ _ Hc), decide_False.
Qed.

Lemma db_SetKeepTTL_new_rule m s k o v (Q : unit -> St -> Prop) :
  abs_rel T m s -> expires (getShard (s_db s) k) !! k = None -> storable s o v ->
  (forall s', abs_rel T (<[k := (v, 0)]> m) s' -> quiet s s' -> s_heap s' = s_heap s -> s_next s' = s_next s -> Q tt s') ->
  wp (db_SetKeepTTL E k o) s Q.
Proof using Hclk.
  intros H Hx Hst HQ. destruct (ar_db _ _ _ H) as [Hwf Hmx].
  set (P := heap_size (s_heap s)). set (o' := store_lru (Unix (clk E (s_tick s))) o).
  pose proof (store_entry_changes (s_db s) k o' id Hwf ltac:(done)) as Hc.
  set (db' := store_entry (s_db s) k o' id) in *.
  destruct (after_quiet db' s (ch_watchers _ _ _ _ Hc) (store_entry_notified _ _ _ _)) as (E1 & E2 & E3 & Hk & Hq).
  set (s' := set_tick (S (s_tick s)) (put_db db' s)) in *.
  exists tt, s'. split; [done|]. apply HQ; [|done..].
  apply (stored m s s' k o v 0); [done|done|apply zero_deadline|done|done|done|done| | |].
  - rewrite E1. split; [apply Hc|by eapply changes_max].
  - unfold view. rewrite E1. unfold abs. rewrite (ch_cell _ _ _ _ Hc), decide_True by done. cbn [abs_of].
    change (id (expires (getShard (s_db s) k))) with (expires (getShard (s_db s) k)). by rewrite Hx.
  - intros j Hj. unfold view. rewrite E1. f_equal. apply abs_cell. by rewrite (ch_cell _ _ _ _ Hc), decide_False.
Qed.

(** A deadline [ms] milliseconds from now, as a duration. *)
Lemma db_SetExpire_rule m s k ms (Q : bool -> St -> Prop) :
  abs_rel T m s -> 0 <= ms -> T + ms <= max_deadline ->
  (forall s', abs_rel T (with_deadline m k (T + ms)) s' -> quiet s s' -> s_heap s' = s_heap s -> s_next s' = s_next s ->
     Q (bool_decide (is_Some (m !! k))) s') ->
  wp (db_SetExpire E k (ms * 10 ^ 6)) s Q.
Proof using Hclk.
  intros H Hms Hd HQ. pose (PS := heap_size (s_heap s)).
  assert (forall s', SetExpire (clk E s') (s_db s) k (ms * 10 ^ 6) = SetExpireAt (clk E s') (s_db s) k (T + ms)) as Hse.
  { intros i. unfold SetExpire. rewrite clk_milli. unfold Milliseconds. rewrite Z.quot_mul by lia. f_equal. apply s64_id.
    destruct Hclk. unfold max_deadline, is_int64, min_int64, max_int64 in *. div_lia. }
  destruct (db_SetExpireAt_rule m s k (T + ms) Q H Hd HQ) as (a & s' & E1 & HQ'). exists a, s'. split; [|done].
  rewrite <- E1. unfold db_SetExpireAt, db_SetExpire, db_call. by rewrite Hse.
Qed.

(** A key is renamed: the object is stored under its new name, dated, and removed under the old one.  In between the
    two names share a container, so the steps are followed on the views. *)
Record moved (s s' : St) (k : bytes) (x : option (ObjectType * ObjectEncoding * payload * Z)) : Prop := {
  mv_heap : s_heap s' = s_heap s;
  mv_next : s_next s' = s_next s;
  mv_keeps : quiet s s';
  mv_db : unlimited (s_db s');
  mv_fin : finite_view T s';
  mv_view : view T s' k = live T x;
  mv_rest j : j <> k -> view T s' j = view T s j
}.

Lemma db_moved s c k x r :
  unlimited (s_db s) -> finite_view T s -> data_op c = true -> is_get c = false ->
  (forall ms, purge T ms = ms -> (forall j, ms !! j = view T s j) ->
     spec_step (clk E (s_tick s)) ms c = (r, partial_alter (fun _ => x) k ms)) ->
  exists db', @step payload (heap_size (s_heap s)) (orc E (s_tick s)) (clk E (s_tick s)) (s_db s) c = Some (r, db') /\
    moved s (set_tick (S (s_tick s)) (put_db db' s)) k x.
Proof using Hclk.
  intros Hu Hf Hd Hg Hc. destruct (db_update_view s c k x r Hu Hf Hd Hg Hc) as (db' & Es & E2 & E3 & Hk & Hq & Hu' & Ev & Hj).
  exists db'. split; [done|]. split; try done. destruct Hf as [ms Hms].
  exists (partial_alter (fun _ => live T x) k ms). intros j. destruct (decide (j = k)) as [->|].
  - by rewrite lookup_partial_alter_eq, Ev.
  - by rewrite lookup_partial_alter_ne, Hms, Hj.
Qed.

Lemma db_Set_moved s k o : unlimited (s_db s) -> finite_view T s -> wp (db_Set E k o) s (fun _ s' => moved s s' k (Some (face o, 0))).
Proof using Hclk.
  intros Hu Hf. destruct (db_moved s (OSet k o) k (Some (face o, 0)) (RErr None)) as (db' & Es & Hm); [done..| |].
  { intros ms Hp Hv. cbn [spec_step]. by rewrite clk_milli, Hp. }
  cbn [step] in Es. destruct (Set_ _ _ _ k o) as [[e d]|] eqn:Ed; [|done]. injection Es as -> ->.
  eexists _, _. split; [unfold db_Set, db_call; cbn; by rewrite Ed|done].
Qed.

Lemma db_SetExpireAt_moved s k w e0 e :
  unlimited (s_db s) -> finite_view T s -> view T s k = Some (w, e0) ->
  wp (db_SetExpireAt E k e) s (fun _ s' => moved s s' k (Some (w, e))).
Proof using Hclk.
  intros Hu Hf Hw. destruct (db_moved s (OExpireAt k e) k (Some (w, e)) (RBool true)) as (db' & Es & Hm); [done..| |].
  { intros ms Hp Hv. cbn [spec_step]. by rewrite clk_milli, Hp, Hv, Hw. }
  cbn [step] in Es. destruct (SetExpireAt _ (s_db s) k e) as [b d] eqn:Ed. injection Es as -> ->.
  eexists _, _. split; [unfold db_SetExpireAt, db_call; cbn -[SetExpireAt]; by rewrite Ed|done].
Qed.

Lemma db_Del_moved s k : unlimited (s_db s) -> finite_view T s -> wp (db_Del E k) s (fun _ s' => moved s s' k None).
Proof using Hclk.
  intros Hu Hf. destruct (db_moved s (ODel k) k None (RBool (bool_decide (is_Some (view T s k))))) as (db' & Es & Hm); [done..| |].
  { intros ms Hp Hv. cbn [spec_step]. rewrite clk_milli, Hp, Hv. done. }
  cbn [step] in Es. destruct (Del (clk E (s_tick s)) (s_db s) k) as [b d] eqn:Ed. injection Es as Eb ->.
  eexists _, _. split; [unfold db_Del, db_call; cbn; by rewrite Ed|done].
Qed.

Lemma renamed m s s' src dst v w e :
  abs_rel T m s -> src <> dst -> m !! src = Some (v, e) -> view T s src = Some (w, e) ->
  s_heap s' = s_heap s -> s_next s' = s_next s -> same_conn s s' -> unlimited (s_db s') ->
  view T s' src = None -> view T s' dst = Some (w, e) -> (forall j, j <> src -> j <> dst -> view T s' j = view T s j) ->
  abs_rel T (<[dst := (v, e)]> (delete src m)) s'.
Proof.
  intros H Hne Hm Hw E2 E3 Hk Hu Hs Hd Hj.
  assert (forall j x, view T s' j = Some x -> j <> src) as Hsrc by (intros j x Hx ->; congruence).
  assert (forall j u d, j <> dst -> view T s' j = Some (u, d) -> view T s j = Some (u, d)) as Hold.
  { intros j u d Hjd Hx. rewrite <- Hx. symmetry. apply Hj; [by eapply Hsrc|done]. }
  split; [done|rewrite (k_lim _ _ Hk); apply H|..].
  - intros j. destruct (decide (j = dst)) as [->|Hjd].
    + rewrite Hd, lookup_insert_eq. split; [done|]. rewrite E2. pose proof (ar_keys _ _ _ H src) as Hkk. rewrite Hw, Hm in Hkk. by destruct Hkk as (_ & ? & ?).
    + rewrite lookup_insert_ne by done. destruct (decide (j = src)) as [->|Hjs]; [by rewrite Hs, lookup_delete_eq|].
      rewrite lookup_delete_ne, Hj, E2 by done. apply H.
  - intros j u d l Hx Hl. rewrite E3. destruct (decide (j = dst)) as [->|Hjd].
    + rewrite Hd in Hx. simplify_eq. by eapply (ar_fresh _ _ _ H).
    + eapply (ar_fresh _ _ _ H); [|done]. by apply Hold.
  - intros j j' u u' d d' l Hx Hx' Hl Hl'. destruct (decide (j = dst)) as [->|Hjd], (decide (j' = dst)) as [->|Hjd'].
    + done.
    + rewrite Hd in Hx. simplify_eq. destruct (Hsrc _ _ Hx'). symmetry. eapply (ar_inj _ _ _ H); [exact Hw|by apply Hold|done..].
    + rewrite Hd in Hx'. simplify_eq. destruct (Hsrc _ _ Hx). eapply (ar_inj _ _ _ H); [by apply Hold|exact Hw|done..].
    + eapply (ar_inj _ _ _ H); [by apply Hold|by apply Hold|done..].
Qed.

Lemma db_Touch_rule m s k (Q : unit -> St -> Prop) :
  abs_rel T m s -> (forall s', abs_rel T m s' -> quiet s s' -> s_heap s' = s_heap s -> Q tt s') -> wp (db_Touch k) s Q.
Proof using Hclk.
  intros H HQ. exists tt, (set_db (Touch (s_db s) k) s). split; [done|].
  destruct (ar_db _ _ _ H) as [Hwf Hmx].
  assert (unlimited (Touch (s_db s) k) /\ watchers (Touch (s_db s) k) = watchers (s_db s) /\
    forall j, abs (Touch (s_db s) k) j = abs (s_db s) j) as (Hu & Hw & Ha).
  { destruct (Touch_changes (s_db s) k Hwf) as [[_ ->]|Hc]; [done|]. split_and!.
    - split; [apply Hc|by eapply changes_max].
    - apply Hc.
    - intros j. unfold abs. rewrite (ch_cell _ _ _ _ Hc). destruct (decide (j = k)) as [->|]; [|done].
      unfold abs_of. by destruct (cell (s_db s) k) as [[[]]]. }
  apply HQ; [|by apply quiet_intro|done]. eapply unchanged; [done|done|done|by split|done|].
  intros j. unfold view. cbn [s_db set_db]. by rewrite Ha.
Qed.

Lemma now_rule m s (Q : Z -> St -> Prop) :
  abs_rel T m s ->
  (forall t s', UnixMilli t = T -> abs_rel T m s' -> quiet s s' -> s_heap s' = s_heap s -> Q t s') -> wp (now E) s Q.
Proof using Hclk.
  intros H HQ. eexists _, _. split; [reflexivity|]. apply HQ; [apply clk_milli| |by apply quiet_intro|done].
  eapply unchanged; [exact H|done|done|by split|apply H|done].
Qed.

Lemma alloc_rule m s c (Q : nat -> St -> Prop) :
  abs_rel T m s ->
  (forall l s', abs_rel T m s' -> quiet s s' -> s_heap s' !! l = Some c -> unshared s' l ->
     (forall j w e i, view T s j = Some (w, e) -> ref_of w = Some i -> s_heap s' !! i = s_heap s !! i) ->
     (forall j, view T s' j = view T s j) -> Q l s') ->
  wp (alloc c) s Q.
Proof.
  intros H HQ. eexists _, _. split; [done|].
  assert (forall j w e l, view T s j = Some (w, e) -> ref_of w = Some l ->
    <[s_next s := c]> (s_heap s) !! l = s_heap s !! l) as Hh.
  { intros j w e l Ew Hl. apply lookup_insert_ne. pose proof (ar_fresh _ _ _ H j w e l Ew Hl). lia. }
  apply HQ; [|by apply quiet_intro|cbn; by rewrite lookup_insert_eq| |done|done].
  - eapply abs_rel_same; [done|apply H|done|cbn; lia|done|done].
  - split; [cbn; lia|]. intros j w e Ew Hl. pose proof (ar_fresh _ _ _ H j w e _ Ew Hl). lia.
Qed.

Lemma load_rule l c s (Q : container -> St -> Prop) : s_heap s !! l = Some c -> Q c s -> wp (load l) s Q.
Proof. intros E' HQ. exists c, s. split; [unfold load; by rewrite E'|done]. Qed.

(** A change in place: the key that refers to the container gets its new value. *)
Lemma store_rule m s k l c ty en e v' (Q : unit -> St -> Prop) :
  abs_rel T m s -> view T s k = Some ((ty, en, PRef l), e) ->
  represents (<[l := c]> (s_heap s)) (ty, en, PRef l) v' ->
  (forall s', abs_rel T (<[k := (v', e)]> m) s' -> quiet s s' -> s_heap s' = <[l := c]> (s_heap s) ->
     (forall j, view T s' j = view T s j) -> Q tt s') ->
  wp (store l c) s Q.
Proof.
  intros H Ev Hr HQ. eexists _, _. split; [done|]. apply HQ; [|by apply quiet_intro|done|done].
  pose proof (ar_keys _ _ _ H k) as Hkk. rewrite Ev in Hkk. destruct (m !! k) as [[v e']|] eqn:Em; [|done].
  destruct Hkk as (-> & _ & He).
  apply (abs_rel_update T m s _ k (Some (v', e))); [done|apply H|done|done|done| |].
  - intros j w e' i Hj Ew Hi. apply lookup_insert_ne. intros ->. apply Hj. by eapply (ar_inj _ _ _ H).
  - change (view T (set_heap (<[l := c]> (s_heap s)) (s_next s) s) k) with (view T s k). rewrite Ev.
    split_and!; [done|done|lia|lia|]. intros i [= <-]. split; [by eapply (ar_fresh _ _ _ H)|].
    intros j w' e' Hj Ew' Hi. apply Hj. by eapply (ar_inj _ _ _ H).
Qed.

(** A change of a container that no key refers to yet. *)
Lemma store_new_rule m s l c (Q : unit -> St -> Prop) :
  abs_rel T m s -> unshared s l ->
  (forall s', abs_rel T m s' -> quiet s s' -> s_heap s' = <[l := c]> (s_heap s) -> unshared s' l -> Q tt s') ->
  wp (store l c) s Q.
Proof.
  intros H [Hl Hno] HQ. eexists _, _. split; [done|]. apply HQ; [|by apply quiet_intro|done|by split].
  eapply abs_rel_same; [done|apply H|done|done|done|]. intros j w e i Ew Hi. apply lookup_insert_ne. intros ->. by eapply Hno.
Qed.

End rules.

(** ** Where a server starts *)

(** A server with no data ([NewServer]) and the context of one connection, which is the default user's; [sinks] says whether
    there is a log and a replication manager to feed.  The cluster manager is there, with the cluster mode off. *)
Definition initial (lim : limits) (sinks : bool) : St :=
  mkSt (SetExpiredCallback NewShardedDB) ∅ 0 lim false (if sinks then Some [] else None) (if sinks then Some [] else None) NewManager
    (Some (NewClusterManager (str "node_local") (str "127.0.0.1:6379")))
    (Some NewTxState) (Some 0%nat) false false None 0.

Lemma initial_abs T lim sinks : limits_ok lim -> abs_rel T ∅ (initial lim sinks).
Proof.
  intros Hl. assert (forall k, view T (initial lim sinks) k = None) as Hv.
  { intros k. unfold view, abs. change (cell (s_db (initial lim sinks)) k) with (cell (NewShardedDB (P := payload)) k). by rewrite NewShardedDB_cell. }
  split.
  - destruct (NewShardedDB_unlimited (P := payload)) as [Hwf Hm]. split; [|done]. by destruct Hwf as [H1 H2 H3 H4]; split.
  - done.
  - intros k. by rewrite Hv, lookup_empty.
  - intros k w e l. by rewrite Hv.
  - intros k k' w w' e e' l. by rewrite Hv.
Qed.

(** An environment whose clock is stopped; the choices are those of the elements' order. *)
Definition frozen (T : Z) : env :=
  mkEnv (fun _ => T * 10 ^ 6)
    (fun _ => mkOracle (fun _ _ => 0) (fun _ _ m => (map_to_list m).*1) (fun _ _ m => (map_to_list m).*1))
    (fun _ m => map_to_list m) (fun _ X => elements X) (fun p => p) (fun _ => 0).

Lemma frozen_instant T : 0 <= T -> instant (frozen T) T.
Proof. intros. split; [done|]. intros i. cbn. unfold UnixMilli. rewrite Z.div_mul by lia. lia. Qed.
