(* ===== verification/Strings.v ===== *)
(** * String commands ([commands/string.go])

    Every handler of the file but INCRBYFLOAT, in the order of the code.  [argv] is the request;
    an index out of range is a panic, which the arity check of the dispatcher rules out.  The
    key lock that a handler takes makes its steps one atomic computation. *)

From S2P Require Import Prelude Strconv Object Value Db DbSpec Reply Context.
Local Open Scope Z_scope.

Definition wrongtype : bytes := Error (str "WRONGTYPE Operation against a key holding the wrong kind of value").
Definition not_integer : bytes := Error (str "value is not an integer or out of range").
Definition syntax_error : bytes := Error (str "syntax error").

(** [argv[i]] *)
Definition arg (argv : list bytes) (i : Z) : M bytes := lift (go_at argv i).
(** [obj.Bytes()] *)
Definition obj_Bytes (o : robj) : M bytes := lift (Bytes o).

Definition is_type (o : robj) (t : ObjectType) : bool := bool_decide (o_Type o = t).

Definition resp3 : M bool := gets c_resp3.

Definition maxStringLength : Z := 512 * 1024 * 1024.

(** [commands/generic.go] *)
Definition maxExpireMillis : Z := 2 ^ 46.
Definition validExpireSeconds (secs : Z) : bool :=
  negb ((Z.quot maxExpireMillis 1000 <? secs) || (secs <? Z.quot (- maxExpireMillis) 1000)).
Definition validExpireMillis (ms : Z) : bool := (ms <=? maxExpireMillis) && (- maxExpireMillis <=? ms).

(** [time.Second] and [time.Millisecond] *)
Definition Second : Z := 10 ^ 9.
Definition Millisecond : Z := 10 ^ 6.

Section handlers.
Variable E : env.

Definition setrangeCommand (argv : list bytes) : M bytes :=
  key ← arg argv 1;
  a2 ← arg argv 2;
  match ParseInt a2 with
  | None => mret not_integer
  | Some offset =>
    if offset <? 0 then mret (Error (str "offset is out of range"))
    else
      value ← arg argv 3;
      if (maxStringLength <? offset) || (maxStringLength <? s64 (offset + zlen value))
      then mret (Error (str "string exceeds maximum allowed size (proto-max-bulk-len)"))
      else
        obj ← db_Get E key;
        let write (cur : bytes) : M bytes :=
          if zlen value =? 0 then mret (Integer (zlen cur))
          else
            let newLen := if zlen cur <? offset + zlen value then offset + zlen value else zlen cur in
            let buf := take (Z.to_nat newLen) (cur ++ replicate (Z.to_nat newLen) 0) in
            tail ← lift (go_slice buf offset (zlen buf));
            let buf := take (Z.to_nat offset) buf ++ take (length tail) (value ++ drop (length value) tail) in
            _ ← db_Set E key (CreateObject OBJ_STRING (PBytes buf));
            mret (Integer (zlen buf)) in
        match obj with
        | Some o =>
          if negb (is_type o OBJ_STRING) then mret wrongtype
          else cur ← obj_Bytes o; write cur
        | None => if zlen value =? 0 then mret (Integer 0) else write []
        end
  end.

Definition getrangeCommand (argv : list bytes) : M bytes :=
  key ← arg argv 1;
  a2 ← arg argv 2;
  a3 ← arg argv 3;
  match ParseInt a2, ParseInt a3 with
  | Some start, Some end_ =>
    obj ← db_Get E key;
    match obj with
    | None => mret (BulkString [])
    | Some o =>
      if negb (is_type o OBJ_STRING) then mret wrongtype
      else
        b ← obj_Bytes o;
        let n := zlen b in
        if n =? 0 then mret (BulkString [])
        else if (start <? 0) && (end_ <? 0) && (end_ <? start) then mret (BulkString [])
        else
          let start := if start <? 0 then start + n else start in
          let end_ := if end_ <? 0 then end_ + n else end_ in
          let start := if start <? 0 then 0 else start in
          let end_ := if end_ <? 0 then 0 else end_ in
          let end_ := if n <=? end_ then n - 1 else end_ in
          if (end_ <? start) || (n <=? start) then mret (BulkString [])
          else r ← lift (go_slice b start (end_ + 1)); mret (BulkString r)
    end
  | _, _ => mret not_integer
  end.

Definition getCommand (argv : list bytes) : M bytes :=
  key ← arg argv 1;
  obj ← db_Get E key;
  match obj with
  | None => mret NullBulkString
  | Some o =>
    if negb (is_type o OBJ_STRING) then mret wrongtype
    else b ← obj_Bytes o; mret (BulkString b)
  end.

(** *** SET *)

Record set_opts := mkSetOpts {
  so_ttl : option Z;         (* ttl, when hasTTL *)
  so_expAt : Z;
  so_nx : bool; so_xx : bool; so_get : bool; so_keep : bool;
  so_mode : option bytes;    (* compareMode, with compareTo *)
  so_to : bytes
}.

Definition no_opts : set_opts := mkSetOpts None 0 false false false false None [].

Definition bad_expire : bytes := Error (str "invalid expire time in 'set' command").

(** The option loop; [inl] is an error reply. *)
Fixpoint set_loop (o : set_opts) (args : list bytes) : bytes + set_opts :=
  match args with
  | [] => inr o
  | a :: rest =>
    let opt := ToUpper a in
    let eq s := bool_decide (opt = str s) in
    if eq "EX" || eq "PX" || eq "EXAT" || eq "PXAT" then
      match rest with
      | [] => inl syntax_error
      | b :: rest =>
        match ParseInt b with
        | None => inl not_integer
        | Some n =>
          if eq "EX" then
            if (n <=? 0) || negb (validExpireSeconds n) then inl bad_expire
            else set_loop (mkSetOpts (Some (s64 (n * Second))) (so_expAt o) (so_nx o) (so_xx o) (so_get o) (so_keep o) (so_mode o) (so_to o)) rest
          else if eq "PX" then
            if (n <=? 0) || negb (validExpireMillis n) then inl bad_expire
            else set_loop (mkSetOpts (Some (s64 (n * Millisecond))) (so_expAt o) (so_nx o) (so_xx o) (so_get o) (so_keep o) (so_mode o) (so_to o)) rest
          else
            set_loop (mkSetOpts (so_ttl o) (if eq "EXAT" then s64 (n * 1000) else n) (so_nx o) (so_xx o) (so_get o) (so_keep o) (so_mode o) (so_to o)) rest
        end
      end
    else if eq "NX" then set_loop (mkSetOpts (so_ttl o) (so_expAt o) true (so_xx o) (so_get o) (so_keep o) (so_mode o) (so_to o)) rest
    else if eq "XX" then set_loop (mkSetOpts (so_ttl o) (so_expAt o) (so_nx o) true (so_get o) (so_keep o) (so_mode o) (so_to o)) rest
    else if eq "IFEQ" || eq "IFNE" || eq "IFDEQ" || eq "IFDNE" then
      match rest with
      | [] => inl syntax_error
      | b :: rest =>
        if bool_decide (is_Some (so_mode o)) then inl syntax_error
        else set_loop (mkSetOpts (so_ttl o) (so_expAt o) (so_nx o) (so_xx o) (so_get o) (so_keep o) (Some opt) b) rest
      end
    else if eq "GET" then set_loop (mkSetOpts (so_ttl o) (so_expAt o) (so_nx o) (so_xx o) true (so_keep o) (so_mode o) (so_to o)) rest
    else if eq "KEEPTTL" then set_loop (mkSetOpts (so_ttl o) (so_expAt o) (so_nx o) (so_xx o) (so_get o) true (so_mode o) (so_to o)) rest
    else inl syntax_error
  end.

Definition isHexDigest (b : bytes) : bool :=
  (zlen b =? 16) &&
  forallb (fun c => ((48 <=? c) && (c <=? 57)) || ((97 <=? c) && (c <=? 102)) || ((65 <=? c) && (c <=? 70))) b.

(** [fmt.Sprintf("%016x", n)] *)
Fixpoint hex_digits (fuel : nat) (n : Z) (acc : bytes) : bytes :=
  match fuel with
  | O => acc
  | S f => let d := n mod 16 in hex_digits f (n / 16) ((if d <? 10 then 48 + d else 87 + d) :: acc)
  end.
Definition hex16 (n : Z) : bytes := hex_digits 16 n [].

(** Whether the comparison of SET holds on the current value; [inl] is the error reply. *)
Definition compare_match (mode to cur : bytes) : bytes + bool :=
  if bool_decide (mode = str "IFEQ") then inr (bool_decide (cur = to))
  else if bool_decide (mode = str "IFNE") then inr (negb (bool_decide (cur = to)))
  else if negb (isHexDigest to) then inl (Error (str "digest must be exactly 16 hexadecimal characters"))
  else
    let equal := bool_decide (lower_byte <$> hex16 (xxh3 E cur) = lower_byte <$> to) in
    inr (Bool.eqb equal (bool_decide (mode = str "IFDEQ"))).

Definition set_write (key val : bytes) (o : set_opts) : M unit :=
  let v := TryEncodeString val in
  match so_ttl o with
  | Some ttl => _ ← db_SetWithExpire E key v ttl; mret tt
  | None =>
    if 0 <? so_expAt o then _ ← db_Set E key v; _ ← db_SetExpireAt E key (so_expAt o); mret tt
    else if so_keep o then db_SetKeepTTL E key v
    else _ ← db_Set E key v; mret tt
  end.

Definition setCommand (argv : list bytes) : M bytes :=
  key ← arg argv 1;
  match set_loop no_opts (drop 3 argv) with
  | inl err => mret err
  | inr o =>
    if so_nx o && so_xx o then mret syntax_error
    else if bool_decide (is_Some (so_mode o)) && (so_nx o || so_xx o) then mret syntax_error
    else
      old ← db_Get E key;
      if so_get o && match old with Some ob => negb (is_type ob OBJ_STRING) | None => false end then mret wrongtype
      else
        oldReply ← (if so_get o then
                      match old with Some ob => b ← obj_Bytes ob; mret (BulkString b) | None => mret NullBulkString end
                    else mret []);
        r3 ← resp3;
        let skipped := if so_get o then oldReply else Null r3 in
        let exists_ := bool_decide (is_Some old) in
        if (so_nx o && exists_) || (so_xx o && negb exists_) then mret skipped
        else
          let finish : M bytes :=
            val ← arg argv 2;
            _ ← set_write key val o;
            mret (if so_get o then oldReply else OK) in
          match so_mode o with
          | None => finish
          | Some mode =>
            match old with
            | None =>
              if bool_decide (mode = str "IFNE" \/ mode = str "IFDNE") then finish
              else _ ← Propagate None; mret skipped
            | Some ob =>
              if negb (is_type ob OBJ_STRING) then mret wrongtype
              else
                cur ← obj_Bytes ob;
                match compare_match mode (so_to o) cur with
                | inl err => mret err
                | inr true => finish
                | inr false => _ ← Propagate None; mret skipped
                end
            end
          end
  end.

Definition setnxCommand (argv : list bytes) : M bytes :=
  key ← arg argv 1;
  ex ← db_Exists E key;
  if ex : bool then mret (Integer 0)
  else
    val ← arg argv 2;
    _ ← db_Set E key (TryEncodeString val);
    mret (Integer 1).

(** The quotient of two durations truncates. *)
Definition setexGeneric (argv : list bytes) (unit_ : Z) : M bytes :=
  key ← arg argv 1;
  a2 ← arg argv 2;
  match ParseInt a2 with
  | None => mret not_integer
  | Some n =>
    if (n <=? 0) || negb (validExpireMillis (Z.quot (s64 (n * unit_)) Millisecond))
    then mret (Error (str "invalid expire time in 'setex' command"))
    else
      val ← arg argv 3;
      _ ← db_SetWithExpire E key (TryEncodeString val) (s64 (n * unit_));
      mret OK
  end.

Definition setexCommand (argv : list bytes) : M bytes := setexGeneric argv Second.
Definition psetexCommand (argv : list bytes) : M bytes := setexGeneric argv Millisecond.

Definition getsetCommand (argv : list bytes) : M bytes :=
  key ← arg argv 1;
  old ← db_Get E key;
  if match old with Some o => negb (is_type o OBJ_STRING) | None => false end then mret wrongtype
  else
    val ← arg argv 2;
    _ ← db_Set E key (TryEncodeString val);
    match old with
    | None => mret NullBulkString
    | Some o => b ← obj_Bytes o; mret (BulkString b)
    end.

Definition getdelCommand (argv : list bytes) : M bytes :=
  key ← arg argv 1;
  obj ← db_Get E key;
  match obj with
  | None => mret NullBulkString
  | Some o =>
    if negb (is_type o OBJ_STRING) then mret wrongtype
    else
      b ← obj_Bytes o;
      _ ← db_Del E key;
      mret (BulkString b)
  end.

Definition bad_getex : bytes := Error (str "invalid expire time in 'getex' command").

(** The option loop of GETEX changes the deadline option by option. *)
Fixpoint getex_loop (key out : bytes) (args : list bytes) : M bytes :=
  match args with
  | [] => mret out
  | a :: rest =>
    let opt := ToUpper a in
    let eq s := bool_decide (opt = str s) in
    if eq "PERSIST" then _ ← db_Persist E key; mret out
    else
      match rest with
      | [] => mret syntax_error
      | b :: rest =>
        match ParseInt b with
        | None => mret not_integer
        | Some n =>
          if eq "EX" then
            if (n <=? 0) || negb (validExpireSeconds n) then mret bad_getex
            else _ ← db_SetExpire E key (s64 (n * Second)); getex_loop key out rest
          else if eq "PX" then
            if (n <=? 0) || negb (validExpireMillis n) then mret bad_getex
            else _ ← db_SetExpire E key (s64 (n * Millisecond)); getex_loop key out rest
          else if eq "EXAT" then
            if negb (validExpireMillis (s64 (n * 1000))) then mret bad_getex
            else _ ← db_SetExpireAt E key (s64 (n * 1000)); getex_loop key out rest
          else if eq "PXAT" then _ ← db_SetExpireAt E key n; getex_loop key out rest
          else mret syntax_error
        end
      end
  end.

Definition getexCommand (argv : list bytes) : M bytes :=
  key ← arg argv 1;
  obj ← db_Get E key;
  match obj with
  | None => mret NullBulkString
  | Some o =>
    if negb (is_type o OBJ_STRING) then mret wrongtype
    else b ← obj_Bytes o; getex_loop key (BulkString b) (drop 2 argv)
  end.

(** *** Several keys *)

Fixpoint any_exists (pairs : list bytes) : M bool :=
  match pairs with
  | k :: _ :: pairs => ex ← db_Exists E k; if ex : bool then mret true else any_exists pairs
  | _ => mret false
  end.

Fixpoint set_all (pairs : list bytes) : M unit :=
  match pairs with
  | k :: v :: pairs => _ ← db_Set E k (TryEncodeString v); set_all pairs
  | _ => mret tt
  end.

Definition msetnxCommand (argv : list bytes) : M bytes :=
  let pairs := drop 1 argv in
  if negb (Z.rem (zlen pairs) 2 =? 0) then mret (Error (str "wrong number of arguments for 'msetnx' command"))
  else
    ex ← any_exists pairs;
    if ex : bool then mret (Integer 0)
    else _ ← set_all pairs; mret (Integer 1).

Fixpoint get_all (keys : list bytes) : M (list bytes) :=
  match keys with
  | [] => mret []
  | k :: keys =>
    obj ← db_Get E k;
    r ← match obj with
        | None => mret NullBulkString
        | Some o => if negb (is_type o OBJ_STRING) then mret NullBulkString else b ← obj_Bytes o; mret (BulkString b)
        end;
    rs ← get_all keys;
    mret (r :: rs)
  end.

Definition mgetCommand (argv : list bytes) : M bytes :=
  elements ← get_all (drop 1 argv); mret (Array elements).

Definition msetCommand (argv : list bytes) : M bytes :=
  let pairs := drop 1 argv in
  if negb (Z.rem (zlen pairs) 2 =? 0) then mret (Error (str "wrong number of arguments for 'mset' command"))
  else _ ← set_all pairs; mret OK.

(** *** Counters *)

Definition incrGeneric (key : bytes) (delta : Z) : M bytes :=
  obj ← db_Get E key;
  let go (current : Z) : M bytes :=
    if ((0 <? delta) && (max_int64 - delta <? current)) || ((delta <? 0) && (current <? min_int64 - delta))
    then mret (Error (str "increment or decrement would overflow"))
    else
      let newVal := s64 (current + delta) in
      _ ← db_Set E key (CreateStringObjectFromLongLong newVal);
      mret (Integer newVal) in
  match obj with
  | None => go 0
  | Some o =>
    if negb (is_type o OBJ_STRING) then mret wrongtype
    else match Int64 o with
         | None => mret not_integer
         | Some val => go val
         end
  end.

Definition incrCommand (argv : list bytes) : M bytes := key ← arg argv 1; incrGeneric key 1.
Definition decrCommand (argv : list bytes) : M bytes := key ← arg argv 1; incrGeneric key (-1).

Definition incrbyCommand (argv : list bytes) : M bytes :=
  a2 ← arg argv 2;
  match ParseInt a2 with
  | None => mret not_integer
  | Some delta => key ← arg argv 1; incrGeneric key delta
  end.

Definition decrbyCommand (argv : list bytes) : M bytes :=
  a2 ← arg argv 2;
  match ParseInt a2 with
  | None => mret not_integer
  | Some delta =>
    if delta =? min_int64 then mret (Error (str "decrement would overflow"))
    else key ← arg argv 1; incrGeneric key (- delta)
  end.

Definition strlenCommand (argv : list bytes) : M bytes :=
  key ← arg argv 1;
  obj ← db_Get E key;
  match obj with
  | None => mret (Integer 0)
  | Some o =>
    if negb (is_type o OBJ_STRING) then mret wrongtype
    else b ← obj_Bytes o; mret (Integer (zlen b))
  end.

Definition appendCommand (argv : list bytes) : M bytes :=
  key ← arg argv 1;
  appendBytes ← arg argv 2;
  obj ← db_Get E key;
  let write (newBytes : bytes) : M bytes :=
    _ ← db_Set E key (CreateRawStringObject newBytes);
    mret (Integer (zlen newBytes)) in
  match obj with
  | None => write appendBytes
  | Some o =>
    if negb (is_type o OBJ_STRING) then mret wrongtype
    else b ← obj_Bytes o; write (b ++ appendBytes)
  end.

End handlers.
