(* ===== verification/StringSpec.v ===== *)
(** * String commands against the dataset

    For each handler of [Strings], a function on the dataset ([ref_...]) that says what the
    command means, and a lemma that the handler replies and changes the dataset accordingly from every
    state, whatever the encodings.  [does] packages the three things every lemma says: the handler
    returns, with that reply, in a state of that dataset, and nothing else of the connection
    changed. *)

From S2P Require Import Prelude Strconv Object Value Db DbSpec Reply Context Strings.
Local Open Scope Z_scope.

(** ** Steps *)

Lemma wp_arg {B} argv i a (k : bytes -> M B) s Q : go_at argv i = Some a -> wp (k a) s Q -> wp (arg argv i ≫= k) s Q.
Proof. intros Ha Hk. apply wp_bind. by apply (wp_lift _ a). Qed.

Lemma wp_bytes {B} o b (k : bytes -> M B) s Q : Bytes o = Some b -> wp (k b) s Q -> wp (obj_Bytes o ≫= k) s Q.
Proof. intros Ha Hk. apply wp_bind. by apply (wp_lift _ b). Qed.

Lemma is_type_spec o t : is_type o t = bool_decide (o_Type o = t).
Proof. done. Qed.

(** The answer of a read, for the handlers of strings. *)
Definition string_read (m : dataset) (k : bytes) (r : option robj) : Prop :=
  match m !! k with
  | None => r = None
  | Some (RString b, _) => exists o, r = Some o /\ is_type o OBJ_STRING = true /\ Bytes o = Some b /\ Int64 o = ParseInt b
  | Some _ => exists o, r = Some o /\ is_type o OBJ_STRING = false
  end.

Lemma reads_string T m s k r : reads T m s k r -> string_read m k r.
Proof.
  unfold reads, string_read. destruct (m !! k) as [[v e]|]; [|done]. intros (o & -> & Hr & _). unfold represents, face in Hr.
  destruct Hr as [Ht Hr]. unfold is_type. destruct v as [b|x|x|x]; exists o; rewrite Ht; try done.
  split_and!; [done|done|by apply Bytes_string|by apply Int64_string].
Qed.

Lemma storable_string T s o b :
  o_Type o = OBJ_STRING -> is_string (o_Encoding o) (o_Ptr o) b -> storable T s o (RString b).
Proof.
  intros Ht Hs. split; [done|]. intros l. unfold ref_of, face. cbn. unfold is_string in Hs.
  destruct (o_Encoding o), (o_Ptr o); done.
Qed.

Lemma storable_encoded T s b : storable T s (TryEncodeString b) (RString b).
Proof. apply storable_string; apply TryEncodeString_string. Qed.

Lemma storable_raw T s b : storable T s (CreateRawStringObject b) (RString b).
Proof. by apply storable_string. Qed.

Lemma storable_object T s b : storable T s (CreateObject OBJ_STRING (PBytes b)) (RString b).
Proof. by apply storable_string. Qed.

Lemma storable_int T s n : is_int64 n -> storable T s (CreateStringObjectFromLongLong n) (RString (FormatInt n)).
Proof. intros. by apply storable_string. Qed.

Lemma slice_bounds {A : Type} (b : list A) i j :
  0 <= i <= j -> j <= zlen b -> go_slice b i j = Some (take (Z.to_nat (j - i)) (drop (Z.to_nat i) b)).
Proof.
  intros [??] ?. unfold go_slice. by rewrite !(proj2 (Z.leb_le _ _)) by done.
Qed.

(** ** Meanings *)

(** A branch on the value of [k]. *)
Definition on_string {A : Type} (m : dataset) (k : bytes) (none : A) (some : bytes -> A) (wrong : A) : A :=
  match m !! k with
  | None => none
  | Some (RString b, _) => some b
  | Some _ => wrong
  end.

Definition ref_GET (m : dataset) (k : bytes) : bytes * dataset := (on_string m k NullBulkString BulkString wrongtype, m).

Definition ref_STRLEN (m : dataset) (k : bytes) : bytes * dataset :=
  (on_string m k (Integer 0) (fun b => Integer (zlen b)) wrongtype, m).

(** A counter: decimal text, absent is zero; the sum must fit 64 bits. *)
Definition ref_INCRBY (m : dataset) (k : bytes) (d : Z) : bytes * dataset :=
  let add (n : Z) :=
    if bool_decide (is_int64 (n + d)) then (Integer (n + d), <[k := (RString (FormatInt (n + d)), 0)]> m)
    else (Error (str "increment or decrement would overflow"), m) in
  on_string m k (add 0) (fun b => match ParseInt b with Some n => add n | None => (not_integer, m) end) (wrongtype, m).

Definition ref_APPEND (m : dataset) (k v : bytes) : bytes * dataset :=
  let put (b : bytes) := (Integer (zlen b), <[k := (RString b, 0)]> m) in
  on_string m k (put v) (fun b => put (b ++ v)) (wrongtype, m).

(** [v] laid over [b] from [off] on, with zeros in between. *)
Definition overlay (b : bytes) (off : nat) (v : bytes) : bytes :=
  take off (b ++ replicate off 0) ++ v ++ drop (off + length v) b.

Definition ref_SETRANGE (m : dataset) (k : bytes) (off : Z) (v : bytes) : bytes * dataset :=
  let put (b : bytes) :=
    if bool_decide (v = []) then (Integer (zlen b), m)
    else (Integer (Z.max (zlen b) (off + zlen v)), <[k := (RString (overlay b (Z.to_nat off) v), 0)]> m) in
  on_string m k (put []) put (wrongtype, m).

(** The bytes between two positions, both included, negative ones counted from the end; an end before the
    start of the string is its first byte, unless the positions are in the wrong order. *)
Definition substr (b : bytes) (i j : Z) : bytes :=
  let lo := if i <? 0 then Z.max 0 (zlen b + i) else i in
  let hi := if j <? 0 then Z.max 0 (zlen b + j) else j in
  if (i <? 0) && (j <? i) then [] else take (Z.to_nat (hi - lo + 1)) (drop (Z.to_nat lo) b).

Definition ref_GETRANGE (m : dataset) (k : bytes) (i j : Z) : bytes * dataset :=
  (on_string m k (BulkString []) (fun b => BulkString (substr b i j)) wrongtype, m).

Definition ref_GETSET (m : dataset) (k v : bytes) : bytes * dataset :=
  on_string m k (NullBulkString, <[k := (RString v, 0)]> m) (fun b => (BulkString b, <[k := (RString v, 0)]> m)) (wrongtype, m).

Definition ref_GETDEL (m : dataset) (k : bytes) : bytes * dataset :=
  on_string m k (NullBulkString, m) (fun b => (BulkString b, delete k m)) (wrongtype, m).

Definition ref_SETNX (m : dataset) (k v : bytes) : bytes * dataset :=
  match m !! k with Some _ => (Integer 0, m) | None => (Integer 1, <[k := (RString v, 0)]> m) end.

Definition put_pairs (m : dataset) (kvs : list (bytes * bytes)) : dataset :=
  foldl (fun m kv => <[kv.1 := (RString kv.2, 0)]> m) m kvs.

Definition ref_MSET (m : dataset) (kvs : list (bytes * bytes)) : bytes * dataset := (OK, put_pairs m kvs).

Definition ref_MSETNX (m : dataset) (kvs : list (bytes * bytes)) : bytes * dataset :=
  if existsb (fun kv => bool_decide (is_Some (m !! kv.1))) kvs then (Integer 0, m) else (Integer 1, put_pairs m kvs).

Definition ref_MGET (m : dataset) (ks : list bytes) : bytes * dataset :=
  (Array ((fun k => on_string m k NullBulkString BulkString NullBulkString) <$> ks), m).

(** SET: what becomes of the deadline, and on which condition the value is written. *)
Inductive set_expiry := XNone | XKeep | XSeconds (n : Z) | XMillis (n : Z) | XAtSeconds (n : Z) | XAtMillis (n : Z).
Inductive set_cond := CAlways | CNX | CXX | CIfEq (b : bytes) | CIfNe (b : bytes).

Definition set_deadline (T : Z) (m : dataset) (k : bytes) (x : set_expiry) : Z :=
  match x with
  | XNone => 0
  | XKeep => match m !! k with Some (_, e) => e | None => 0 end
  | XSeconds n => T + n * 1000
  | XMillis n => T + n
  | XAtSeconds n => n * 1000
  | XAtMillis n => n
  end.

(** Whether the condition holds; [None] when it does not apply to the type. *)
Definition set_holds (m : dataset) (k : bytes) (c : set_cond) : option bool :=
  match c with
  | CAlways => Some true
  | CNX => Some (negb (bool_decide (is_Some (m !! k))))
  | CXX => Some (bool_decide (is_Some (m !! k)))
  | CIfEq b => on_string m k (Some false) (fun b' => Some (bool_decide (b' = b))) None
  | CIfNe b => on_string m k (Some true) (fun b' => Some (negb (bool_decide (b' = b)))) None
  end.

(** What the handler asks to be propagated instead of its own request: nothing, when a comparison failed. *)
Definition set_override (m : dataset) (k : bytes) (c : set_cond) (p : option (option (list bytes))) : option (option (list bytes)) :=
  match c, set_holds m k c with
  | (CIfEq _ | CIfNe _), Some false => Some None
  | _, _ => p
  end.

Definition ref_SET (T : Z) (r3 : bool) (m : dataset) (k v : bytes) (x : set_expiry) (c : set_cond) (get : bool) : bytes * dataset :=
  let deadline := set_deadline T m k x in
  let old := on_string m k NullBulkString BulkString wrongtype in
  if get && on_string m k false (fun _ => false) true then (wrongtype, m)
  else match set_holds m k c with
       | None => (wrongtype, m)
       | Some false => (if get then old else Null r3, m)
       | Some true =>
         (if get then old else OK,
          if alive T deadline then <[k := (RString v, deadline)]> m else delete k m)
       end.

(** How a client writes it. *)
Definition expiry_args (x : set_expiry) : list bytes :=
  match x with
  | XNone => [] | XKeep => [str "KEEPTTL"]
  | XSeconds n => [str "EX"; FormatInt n] | XMillis n => [str "PX"; FormatInt n]
  | XAtSeconds n => [str "EXAT"; FormatInt n] | XAtMillis n => [str "PXAT"; FormatInt n]
  end.
Definition cond_args (c : set_cond) : list bytes :=
  match c with
  | CAlways => [] | CNX => [str "NX"] | CXX => [str "XX"] | CIfEq b => [str "IFEQ"; b] | CIfNe b => [str "IFNE"; b]
  end.

(** Deadlines that the code accepts and that fit a duration. *)
Definition expiry_ok (T : Z) (x : set_expiry) : Prop :=
  match x with
  | XNone | XKeep => True
  | XSeconds n => 0 < n /\ T + n * 1000 <= max_deadline
  | XMillis n => 0 < n /\ T + n <= max_deadline
  | XAtSeconds n => 0 < n /\ n * 1000 <= max_deadline
  | XAtMillis n => 0 < n <= max_deadline
  end.

Definition set_args (x : set_expiry) (c : set_cond) (get : bool) : list bytes :=
  expiry_args x ++ cond_args c ++ (if get then [str "GET"] else []).

(** SETEX and PSETEX: a lifetime in milliseconds. *)
Definition ref_SETEX (T : Z) (m : dataset) (k v : bytes) (ms : Z) : bytes * dataset := (OK, <[k := (RString v, T + ms)]> m).

(** GETEX: a read that gives the key another deadline, or none. *)
Definition ref_GETEX (T : Z) (m : dataset) (k : bytes) (x : option set_expiry) : bytes * dataset :=
  on_string m k (NullBulkString, m)
    (fun b => (BulkString b,
       match x with
       | None => with_deadline T m k 0
       | Some XNone | Some XKeep => m
       | Some x => with_deadline T m k (set_deadline T m k x)
       end))
    (wrongtype, m).

Definition getex_args (x : option set_expiry) : list bytes :=
  match x with None => [str "PERSIST"] | Some XKeep => [] | Some x => expiry_args x end.

(** ** The handlers *)

(** A read, by what is stored. *)
Ltac get_cases m k :=
  let r := fresh "r" in let s1 := fresh "s1" in let Hr := fresh "Hr" in
  intros r s1 ? ? Hr; unfold string_read in Hr; unfold on_string;
  destruct (m !! k) as [[[?b|?x|?x|?x] ?e]|] eqn:?Em;
  [destruct Hr as (?o & -> & ?Ht & ?Hb & ?Hi); rewrite ?Ht
  |destruct Hr as (?o & -> & ?Ht); rewrite ?Ht..
  |subst r].

(** The end of a handler that has just written. *)
Ltac replied := intros; apply wp_ret; split_and!; first [done|chain].

(** One turn of an option loop at a known keyword. *)
Ltac keyword :=
  repeat match goal with
  | |- context [bool_decide (ToUpper (str ?x) = ?b)] =>
    let a := constr:(str x) in
    let v := eval vm_compute in (bool_decide (ToUpper a = b)) in change (bool_decide (ToUpper a = b)) with v
  end; cbn [orb].

Section commands.
Variables (E : env) (T : Z).
Hypothesis Hclk : instant E T.

(** From a state of dataset [m], the handler replies [x.1] and leaves dataset [x.2]. *)
Definition does (h : M bytes) (m : dataset) (s : St) (x : bytes * dataset) : Prop :=
  wp h s (fun r s' => r = x.1 /\ abs_rel T x.2 s' /\ keeps m s s').

(** The same for a handler that may override its propagation. *)
Definition does_prop (h : M bytes) (m : dataset) (s : St) (x : bytes * dataset) (p : option (option (list bytes))) : Prop :=
  wp h s (fun r s' => r = x.1 /\ abs_rel T x.2 s' /\ keeps m s (set_prop (c_prop s) s') /\ c_prop s' = p).

Lemma abs_rel_prop m s p : abs_rel T m s -> abs_rel T m (set_prop p s).
Proof. intros []. by split. Qed.

Lemma keeps_prop m s s' p : keeps m s s' -> keeps m s (set_prop (c_prop s) (set_prop p s')).
Proof. intros [[] K]. split; [by split|done]. Qed.

Lemma keeps_prop_id m s s' : keeps m s s' -> keeps m s (set_prop (c_prop s) s') /\ c_prop s' = c_prop s.
Proof. intros [[] K]. split; [|done]. split; [by split|done]. Qed.

Lemma does_does_prop h m s x : does h m s x -> does_prop h m s x (c_prop s).
Proof. intros H. eapply wp_mono; [exact H|]. intros r s' (? & ? & Hk). by destruct (keeps_prop_id _ _ _ Hk). Qed.

(** A read, then a continuation. *)
Lemma wp_get {B} m s k (f : option robj -> M B) (Q : B -> St -> Prop) :
  abs_rel T m s ->
  (forall r s', abs_rel T m s' -> keeps m s s' -> string_read m k r -> wp (f r) s' Q) -> wp (db_Get E k ≫= f) s Q.
Proof using Hclk.
  intros H HQ. apply wp_bind. apply (db_Get_rule E T Hclk m); [done|]. intros r s' Ha Hk _ _ Hr _.
  apply HQ; [done..|]. by eapply reads_string.
Qed.

(** A write of a string, then a continuation. *)
Lemma wp_set {B} m s k o b (f : option DbError -> M B) (Q : B -> St -> Prop) :
  abs_rel T m s -> storable T s o (RString b) ->
  (forall s', abs_rel T (<[k := (RString b, 0)]> m) s' -> quiet s s' -> wp (f None) s' Q) -> wp (db_Set E k o ≫= f) s Q.
Proof using Hclk.
  intros H Hst HQ. apply wp_bind. apply (db_Set_rule E T Hclk m _ _ _ _ _ H Hst). intros s' Ha Hk _ _ _. by apply HQ.
Qed.

Lemma getCommand_ok m s n k : abs_rel T m s -> does (getCommand E [n; k]) m s (ref_GET m k).
Proof using Hclk.
  intros H. apply (wp_arg _ _ k); [done|]. apply (wp_get m); [done|]. unfold ref_GET. get_cases m k; cbn; try replied.
  apply (wp_bytes _ b); [done|]. replied.
Qed.

Lemma strlenCommand_ok m s n k : abs_rel T m s -> does (strlenCommand E [n; k]) m s (ref_STRLEN m k).
Proof using Hclk.
  intros H. apply (wp_arg _ _ k); [done|]. apply (wp_get m); [done|]. unfold ref_STRLEN. get_cases m k; cbn; try replied.
  apply (wp_bytes _ b); [done|]. replied.
Qed.

Lemma overflow_test c d :
  is_int64 c -> is_int64 d ->
  ((0 <? d) && (max_int64 - d <? c)) || ((d <? 0) && (c <? min_int64 - d)) = negb (bool_decide (is_int64 (c + d))).
Proof.
  unfold is_int64, min_int64, max_int64. intros. case_bool_decide; cbn [negb].
  - apply orb_false_iff. rewrite !andb_false_iff, !Z.ltb_ge. lia.
  - apply orb_true_iff. rewrite !andb_true_iff, !Z.ltb_lt. lia.
Qed.

Lemma incrGeneric_ok m s k d : abs_rel T m s -> is_int64 d -> does (incrGeneric E k d) m s (ref_INCRBY m k d).
Proof using Hclk.
  intros H Hd.
  assert (forall c s1, is_int64 c -> abs_rel T m s1 -> keeps m s s1 ->
    wp (if ((0 <? d) && (max_int64 - d <? c)) || ((d <? 0) && (c <? min_int64 - d))
        then mret (Error (str "increment or decrement would overflow"))
        else let newVal := s64 (c + d) in
             _ ← db_Set E k (CreateStringObjectFromLongLong newVal); mret (Integer newVal)) s1
      (fun r s' => let x := (if bool_decide (is_int64 (c + d)) then (Integer (c + d), <[k := (RString (FormatInt (c + d)), 0)]> m)
        else (Error (str "increment or decrement would overflow"), m)) in r = x.1 /\ abs_rel T x.2 s' /\ keeps m s s')) as Hgo.
  { intros c s1 Hc Ha Hk. rewrite overflow_test by done. case_bool_decide as Hs; cbn [negb]; [|replied].
    cbv zeta. rewrite s64_id by done. apply (wp_set m _ _ _ (FormatInt (c + d))); [done|by apply storable_int|].
    intros s2 Ha2 Hk2. replied. }
  apply (wp_get m); [done|]. unfold ref_INCRBY. get_cases m k; cbn [negb]; try replied.
  - rewrite Hi. destruct (ParseInt b) as [c|] eqn:Ec; [|replied]. apply Hgo; [by eapply ParseInt_bounds|done..].
  - apply Hgo; [by unfold is_int64, min_int64, max_int64|done..].
Qed.

Lemma incrCommand_ok m s n k : abs_rel T m s -> does (incrCommand E [n; k]) m s (ref_INCRBY m k 1).
Proof using Hclk. intros H. apply (wp_arg _ _ k); [done|]. by apply incrGeneric_ok. Qed.

Lemma decrCommand_ok m s n k : abs_rel T m s -> does (decrCommand E [n; k]) m s (ref_INCRBY m k (-1)).
Proof using Hclk. intros H. apply (wp_arg _ _ k); [done|]. by apply incrGeneric_ok. Qed.

Lemma incrbyCommand_ok m s n k d : abs_rel T m s -> is_int64 d -> does (incrbyCommand E [n; k; FormatInt d]) m s (ref_INCRBY m k d).
Proof using Hclk.
  intros H Hd. apply (wp_arg _ _ (FormatInt d)); [done|]. rewrite ParseInt_FormatInt by done.
  apply (wp_arg _ _ k); [done|]. by apply incrGeneric_ok.
Qed.

(** The most negative decrement has no opposite. *)
Lemma decrbyCommand_ok m s n k d :
  abs_rel T m s -> is_int64 d ->
  does (decrbyCommand E [n; k; FormatInt d]) m s
    (if d =? min_int64 then (Error (str "decrement would overflow"), m) else ref_INCRBY m k (- d)).
Proof using Hclk.
  intros H Hd. apply (wp_arg _ _ (FormatInt d)); [done|]. rewrite ParseInt_FormatInt by done.
  destruct (Z.eqb_spec d min_int64); [replied|].
  apply (wp_arg _ _ k); [done|]. apply incrGeneric_ok; [done|]. unfold is_int64, min_int64, max_int64 in *. lia.
Qed.

Lemma appendCommand_ok m s n k v : abs_rel T m s -> does (appendCommand E [n; k; v]) m s (ref_APPEND m k v).
Proof using Hclk.
  intros H. apply (wp_arg _ _ k); [done|]. apply (wp_arg _ _ v); [done|].
  apply (wp_get m); [done|]. unfold ref_APPEND. get_cases m k; cbn [negb]; try replied.
  - apply (wp_bytes _ b); [done|]. apply (wp_set m _ _ _ (b ++ v)); [done|apply storable_raw|].
    intros s2 Ha2 Hk2. replied.
  - apply (wp_set m _ _ _ v); [done|apply storable_raw|].
    intros s2 Ha2 Hk2. replied.
Qed.

Lemma overlay_spec (cur v : bytes) (off : Z) :
  0 <= off -> v <> [] ->
  let newLen := if zlen cur <? off + zlen v then off + zlen v else zlen cur in
  let buf := take (Z.to_nat newLen) (cur ++ replicate (Z.to_nat newLen) 0) in
  zlen buf = Z.max (zlen cur) (off + zlen v) /\
  go_slice buf off (zlen buf) = Some (drop (Z.to_nat off) buf) /\
  take (Z.to_nat off) buf ++ take (length (drop (Z.to_nat off) buf)) (v ++ drop (length v) (drop (Z.to_nat off) buf)) =
    overlay cur (Z.to_nat off) v.
Proof.
  intros Hoff Hv newLen buf. assert (0 < zlen v) as Hv0 by (destruct v; [done|]; rewrite zlen_cons; zlen_pose; lia).
  assert (Z.max (zlen cur) (off + zlen v) = newLen) as Hn by (unfold newLen; destruct (Z.ltb_spec (zlen cur) (off + zlen v)); lia).
  assert (length buf = Z.to_nat newLen) as Hlen.
  { unfold buf. rewrite length_take, length_app, length_replicate. lia. }
  assert (zlen buf = newLen) as Hz by (unfold zlen in *; lia).
  split_and!; [lia| |].
  - rewrite slice_bounds by lia. f_equal. apply take_ge. rewrite length_drop. lia.
  - rewrite (take_ge (v ++ _)) by (rewrite length_app, !length_drop; unfold zlen in *; lia). rewrite drop_drop. unfold overlay. f_equal; [|f_equal].
    + unfold buf. rewrite take_take, Nat.min_l by (unfold zlen in *; lia).
      rewrite !take_app, !take_replicate. do 2 f_equal. unfold zlen in *. lia.
    + unfold buf. unfold newLen, zlen in *. destruct (Z.ltb_spec (Z.of_nat (length cur)) (off + Z.of_nat (length v))).
      * rewrite !drop_ge; [done|lia|]. rewrite length_take, length_app, length_replicate. lia.
      * by rewrite take_app_le, take_ge by lia.
Qed.

Lemma setrangeCommand_ok m s n k off v :
  abs_rel T m s -> 0 <= off -> off + zlen v <= maxStringLength ->
  does (setrangeCommand E [n; k; FormatInt off; v]) m s (ref_SETRANGE m k off v).
Proof using Hclk.
  intros H Hoff Hlen. assert (is_int64 off /\ is_int64 (off + zlen v)) as [H1 H2].
  { zlen_pose. unfold is_int64, min_int64, max_int64, maxStringLength in *. lia. }
  assert (forall cur s1, abs_rel T m s1 -> keeps m s s1 -> v <> [] ->
    wp (let newLen := if zlen cur <? off + zlen v then off + zlen v else zlen cur in
        let buf := take (Z.to_nat newLen) (cur ++ replicate (Z.to_nat newLen) 0) in
        tail ← lift (go_slice buf off (zlen buf));
        let buf := take (Z.to_nat off) buf ++ take (length tail) (v ++ drop (length v) tail) in
        _ ← db_Set E k (CreateObject OBJ_STRING (PBytes buf));
        mret (Integer (zlen buf))) s1
      (fun r s' => r = Integer (Z.max (zlen cur) (off + zlen v)) /\
        abs_rel T (<[k := (RString (overlay cur (Z.to_nat off) v), 0)]> m) s' /\ keeps m s s')) as Hgo.
  { intros cur s1 Ha Hk Hv. destruct (overlay_spec cur v off Hoff Hv) as (Hz & Hs & Ho). cbv zeta in *.
    apply wp_bind. eapply wp_lift; [exact Hs|]. cbv beta. rewrite Ho.
    apply (wp_set m _ _ _ (overlay cur (Z.to_nat off) v)); [done|apply storable_object|].
    intros s2 Ha2 Hk2. apply wp_ret. split_and!; [|done|chain]. f_equal. rewrite <- Hz, <- Ho.
    set (buf := take (Z.to_nat _) _) in *. clearbody buf. clear -Hoff Hz. zlen_pose.
    unfold zlen in *. rewrite length_app, length_take, length_take, length_app, !length_drop. lia. }
  apply (wp_arg _ _ k); [done|]. apply (wp_arg _ _ (FormatInt off)); [done|]. rewrite ParseInt_FormatInt by done.
  rewrite (proj2 (Z.ltb_ge off 0)) by lia. apply (wp_arg _ _ v); [done|].
  rewrite s64_id by done. rewrite !(proj2 (Z.ltb_ge _ _)) by (zlen_pose; lia). cbn [orb].
  apply (wp_get m); [done|]. unfold ref_SETRANGE.
  assert ((zlen v =? 0) = bool_decide (v = [])) as Hv0.
  { destruct v; [done|]. rewrite bool_decide_false by done. apply Z.eqb_neq. rewrite zlen_cons. zlen_pose. lia. }
  get_cases m k; cbn [negb]; try replied.
  - apply (wp_bytes _ b); [done|]. cbv beta. rewrite Hv0. case_bool_decide; [replied|]. by apply Hgo.
  - rewrite Hv0. case_bool_decide; [replied|]. by apply (Hgo []).
Qed.

(** The slice that GETRANGE takes after its clamping. *)
Lemma substr_spec (b : bytes) (i j : Z) :
  b <> [] -> (i <? 0) && (j <? 0) && (j <? i) = false ->
  let n := zlen b in
  let lo := if i <? 0 then i + n else i in
  let hi := if j <? 0 then j + n else j in
  let lo := if lo <? 0 then 0 else lo in
  let hi := if hi <? 0 then 0 else hi in
  let hi := if n <=? hi then n - 1 else hi in
  if (hi <? lo) || (n <=? lo) then substr b i j = [] else go_slice b lo (hi + 1) = Some (substr b i j).
Proof.
  intros Hb Hij n lo0 hi0 lo hi1 hi.
  assert (0 < n) by (unfold n; destruct b; [done|]; rewrite zlen_cons; zlen_pose; lia).
  assert ((i <? 0) && (j <? i) = false) as Hc.
  { apply andb_false_iff. apply andb_false_iff in Hij as [[?|Hj]%andb_false_iff|?]; [auto| |auto].
    destruct (Z.ltb_spec i 0); [|auto]. right. apply Z.ltb_ge in Hj. apply Z.ltb_ge. lia. }
  assert (substr b i j = take (Z.to_nat (hi1 - lo + 1)) (drop (Z.to_nat lo) b)) as ->.
  { unfold substr. rewrite Hc. assert ((if i <? 0 then Z.max 0 (zlen b + i) else i) = lo) as ->.
    { unfold lo, lo0, n. destruct (Z.ltb_spec i 0); repeat case_match; lia. }
    assert ((if j <? 0 then Z.max 0 (zlen b + j) else j) = hi1) as -> by (unfold hi1, hi0, n; destruct (Z.ltb_spec j 0); repeat case_match; lia).
    done. }
  assert (0 <= lo) by (unfold lo; case_match; lia). assert (0 <= hi1) by (unfold hi1; case_match; lia).
  assert (hi = Z.min hi1 (n - 1)) as Hhi by (unfold hi; destruct (Z.leb_spec n hi1); lia). clearbody lo hi hi1.
  unfold n, zlen in *. destruct ((hi <? lo) || (Z.of_nat (length b) <=? lo)) eqn:Ed.
  - apply orb_true_iff in Ed as [Ed%Z.ltb_lt|Ed%Z.leb_le].
    + destruct (decide (hi1 < lo)); [by replace (Z.to_nat (hi1 - lo + 1)) with 0%nat by lia|]. rewrite drop_ge by lia. by destruct (Z.to_nat _).
    + rewrite drop_ge by lia. by destruct (Z.to_nat _).
  - apply orb_false_iff in Ed as [Ed%Z.ltb_ge Ed'%Z.leb_gt]. rewrite slice_bounds by (unfold zlen; lia). f_equal.
    destruct (decide (hi1 < Z.of_nat (length b))); [f_equal; lia|]. rewrite !take_ge by (rewrite length_drop; lia). done.
Qed.

Lemma getrangeCommand_ok m s n k i j :
  abs_rel T m s -> is_int64 i -> is_int64 j ->
  does (getrangeCommand E [n; k; FormatInt i; FormatInt j]) m s (ref_GETRANGE m k i j).
Proof using Hclk.
  intros H Hi Hj. do 3 (eapply wp_arg; [done|]). rewrite !ParseInt_FormatInt by done.
  apply (wp_get m); [done|]. unfold ref_GETRANGE. get_cases m k; cbn; try replied.
  apply (wp_bytes _ b); [done|]. destruct (Z.eqb_spec (zlen b) 0) as [Hz|Hz].
  { destruct b; [|rewrite zlen_cons in Hz; zlen_pose; lia]. unfold substr. rewrite drop_nil, take_nil. apply wp_ret. by destruct (_ && _). }
  destruct ((i <? 0) && (j <? 0) && (j <? i)) eqn:Ed.
  { apply andb_true_iff in Ed as [[Ei _]%andb_true_iff Ej]. unfold substr. rewrite Ei, Ej. replied. }
  pose proof (substr_spec b i j ltac:(by intros ->) Ed) as Hs. cbv zeta in Hs |- *. case_match.
  - rewrite Hs. replied.
  - apply wp_bind. eapply wp_lift; [done|]. replied.
Qed.

Lemma getsetCommand_ok m s n k v : abs_rel T m s -> does (getsetCommand E [n; k; v]) m s (ref_GETSET m k v).
Proof using Hclk.
  intros H. apply (wp_arg _ _ k); [done|]. apply (wp_get m); [done|]. unfold ref_GETSET. get_cases m k; cbn [negb]; try replied.
  - apply (wp_arg _ _ v); [done|]. apply (wp_set m _ _ _ v); [done|apply storable_encoded|]. intros s2 Ha2 Hk2.
    apply (wp_bytes _ b); [done|]. replied.
  - apply (wp_arg _ _ v); [done|]. apply (wp_set m _ _ _ v); [done|apply storable_encoded|]. replied.
Qed.

Lemma getdelCommand_ok m s n k : abs_rel T m s -> does (getdelCommand E [n; k]) m s (ref_GETDEL m k).
Proof using Hclk.
  intros H. apply (wp_arg _ _ k); [done|]. apply (wp_get m); [done|]. unfold ref_GETDEL. get_cases m k; cbn [negb]; try replied.
  apply (wp_bytes _ b); [done|]. apply wp_bind. apply (db_Del_rule E T Hclk m); [done|]. replied.
Qed.

Lemma setnxCommand_ok m s n k v : abs_rel T m s -> does (setnxCommand E [n; k; v]) m s (ref_SETNX m k v).
Proof using Hclk.
  intros H. apply (wp_arg _ _ k); [done|]. apply wp_bind. apply (db_Exists_rule E T Hclk m); [done|]. intros s1 H1 Hk1 _ _ _.
  unfold ref_SETNX. destruct (m !! k) as [x|]; [replied|]. cbn. apply (wp_arg _ _ v); [done|].
  apply (wp_set m _ _ _ v); [done|apply storable_encoded|]. replied.
Qed.

(** *** Several keys *)

Lemma set_all_ok kvs : forall m s s0 (Q : unit -> St -> Prop),
  abs_rel T m s -> quiet s0 s ->
  (forall s', abs_rel T (put_pairs m kvs) s' -> quiet s0 s' -> Q tt s') -> wp (set_all E (flat kvs)) s Q.
Proof using Hclk.
  induction kvs as [|[k v] kvs IH]; intros m s s0 Q H Hk HQ; [apply wp_ret; by apply HQ|].
  rewrite flat_cons. cbn [set_all]. apply (wp_set m _ _ _ v); [done|apply storable_encoded|]. intros s1 H1 Hk1.
  apply (IH _ _ s0 _ H1); [chain|done].
Qed.

Lemma flat_even kvs : negb (Z.rem (zlen (flat kvs)) 2 =? 0) = false.
Proof. rewrite flat_length, Z.mul_comm, Z.rem_mul by lia. done. Qed.

Lemma msetCommand_ok m s n kvs : abs_rel T m s -> does (msetCommand E (n :: flat kvs)) m s (ref_MSET m kvs).
Proof using Hclk.
  intros H. unfold msetCommand. change (drop 1 (n :: flat kvs)) with (flat kvs). rewrite flat_even. apply wp_bind.
  apply (set_all_ok kvs m s s); [done|apply quiet_refl|]. replied.
Qed.

Lemma any_exists_ok m kvs : forall s s0 (Q : bool -> St -> Prop),
  abs_rel T m s -> quiet s0 s ->
  (forall s', abs_rel T m s' -> quiet s0 s' -> Q (existsb (fun kv => bool_decide (is_Some (m !! kv.1))) kvs) s') ->
  wp (any_exists E (flat kvs)) s Q.
Proof using Hclk.
  induction kvs as [|[k v] kvs IH]; intros s s0 Q H Hk HQ; [apply wp_ret; by apply HQ|].
  rewrite flat_cons. cbn [any_exists existsb fst] in *. apply wp_bind. apply (db_Exists_rule E T Hclk m); [done|].
  intros s1 H1 Hk1 _ _ _. destruct (bool_decide _); cbn [orb] in HQ.
  - apply wp_ret. apply HQ; [done|chain].
  - apply (IH _ s0); [done|chain|done].
Qed.

Lemma msetnxCommand_ok m s n kvs : abs_rel T m s -> does (msetnxCommand E (n :: flat kvs)) m s (ref_MSETNX m kvs).
Proof using Hclk.
  intros H. unfold msetnxCommand. change (drop 1 (n :: flat kvs)) with (flat kvs). rewrite flat_even. apply wp_bind.
  apply (any_exists_ok m kvs s s); [done|apply quiet_refl|]. intros s1 H1 Hk1. unfold ref_MSETNX.
  destruct (existsb _ kvs); [replied|]. apply wp_bind.
  apply (set_all_ok kvs m s1 s); [done..|]. intros s2 H2 Hk2. replied.
Qed.

Lemma mgetCommand_ok m s n ks : abs_rel T m s -> does (mgetCommand E (n :: ks)) m s (ref_MGET m ks).
Proof using Hclk.
  intros H. unfold mgetCommand, ref_MGET. cbn [drop]. apply wp_bind.
  assert (forall s1, abs_rel T m s1 -> keeps m s s1 -> wp (get_all E ks) s1 (fun rs s' =>
    rs = (fun k => on_string m k NullBulkString BulkString NullBulkString) <$> ks /\ abs_rel T m s' /\ keeps m s s')) as Hgo.
  { induction ks as [|k ks IH]; intros s1 H1 Hk1; [replied|]. cbn [get_all fmap list_fmap].
    apply (wp_get m); [done|]. intros r s2 H2 Hk2 Hr.
    assert (forall rep, on_string m k NullBulkString BulkString NullBulkString = rep ->
      wp (rs ← get_all E ks; mret (rep :: rs)) s2 (fun rs s' =>
        rs = on_string m k NullBulkString BulkString NullBulkString :: ((fun k => on_string m k NullBulkString BulkString NullBulkString) <$> ks)
        /\ abs_rel T m s' /\ keeps m s s')) as Hrest.
    { intros rep ->. apply wp_bind. eapply wp_mono; [apply IH; [done|chain]|].
      intros rs s3 (-> & ? & ?). replied. }
    apply wp_bind. unfold string_read, on_string in *. destruct (m !! k) as [[[b|x|x|x] e]|]; [|destruct Hr as (o & -> & Ht)..|subst r].
    - destruct Hr as (o & -> & Ht & Hb & _). rewrite Ht. apply (wp_bytes _ b); [done|]. apply wp_ret. by apply Hrest.
    - rewrite Ht. apply wp_ret. by apply Hrest.
    - rewrite Ht. apply wp_ret. by apply Hrest.
    - rewrite Ht. apply wp_ret. by apply Hrest.
    - apply wp_ret. by apply Hrest. }
  eapply wp_mono; [apply Hgo; [done|apply keeps_refl]|]. intros rs s1 (-> & ? & ?). replied.
Qed.

(** *** SET with its options *)

(** What the option loop makes of the arguments. *)
Definition opts_of (x : set_expiry) (c : set_cond) (get : bool) : set_opts :=
  mkSetOpts (match x with XSeconds n => Some (n * 1000 * 10 ^ 6) | XMillis n => Some (n * 10 ^ 6) | _ => None end)
    (match x with XAtSeconds n => n * 1000 | XAtMillis n => n | _ => 0 end)
    (match c with CNX => true | _ => false end) (match c with CXX => true | _ => false end) get
    (match x with XKeep => true | _ => false end)
    (match c with CIfEq _ => Some (str "IFEQ") | CIfNe _ => Some (str "IFNE") | _ => None end)
    (match c with CIfEq b | CIfNe b => b | _ => [] end).

Lemma expiry_bounds x :
  expiry_ok T x ->
  match x with
  | XNone | XKeep => True
  | XSeconds n => is_int64 n /\ 0 < n /\ validExpireSeconds n = true /\ s64 (n * Second) = n * 1000 * 10 ^ 6
  | XMillis n => is_int64 n /\ 0 < n /\ validExpireMillis n = true /\ s64 (n * Millisecond) = n * 10 ^ 6
  | XAtSeconds n => is_int64 n /\ 0 < n /\ s64 (n * 1000) = n * 1000 /\ validExpireMillis (n * 1000) = true
  | XAtMillis n => is_int64 n /\ 0 < n /\ True
  end.
Proof using Hclk.
  destruct Hclk as [HT _].
  assert (max_deadline = 9223372036854) as Hmd by (by vm_compute).
  destruct x as [| |n|n|n|n]; cbn [expiry_ok]; rewrite ?Hmd; [exact (fun H => H)..| | | |]; intros [Hn Hd];
    (split; [unfold is_int64, min_int64, max_int64; lia|]; split; [lia|]).
  - split.
    + unfold validExpireSeconds, maxExpireMillis.
      change (Z.quot (- 2 ^ 46) 1000) with (-70368744177). change (Z.quot (2 ^ 46) 1000) with 70368744177.
      apply negb_true_iff, orb_false_iff. rewrite !Z.ltb_ge. lia.
    + unfold Second. rewrite s64_id; [lia|]. unfold is_int64, min_int64, max_int64. lia.
  - split.
    + unfold validExpireMillis, maxExpireMillis. apply andb_true_iff. rewrite !Z.leb_le. lia.
    + unfold Millisecond. rewrite s64_id; [lia|]. unfold is_int64, min_int64, max_int64. lia.
  - split.
    + rewrite s64_id; [lia|]. unfold is_int64, min_int64, max_int64. lia.
    + unfold validExpireMillis, maxExpireMillis. apply andb_true_iff. rewrite !Z.leb_le. lia.
  - exact I.
Qed.

Lemma set_loop_args x c get : expiry_ok T x -> set_loop no_opts (set_args x c get) = inr (opts_of x c get).
Proof using Hclk.
  intros Hx. pose proof (expiry_bounds x Hx) as Hb. unfold set_args.
  assert (forall o, set_loop o (cond_args c ++ (if get then [str "GET"] else [])) =
    if bool_decide (is_Some (so_mode o)) && match c with CIfEq _ | CIfNe _ => true | _ => false end then inl syntax_error
    else inr (mkSetOpts (so_ttl o) (so_expAt o) (match c with CNX => true | _ => so_nx o end) (match c with CXX => true | _ => so_xx o end)
      (so_get o || get) (so_keep o) (match c with CIfEq _ => Some (str "IFEQ") | CIfNe _ => Some (str "IFNE") | _ => so_mode o end)
      (match c with CIfEq b | CIfNe b => b | _ => so_to o end))) as Hc.
  { assert (forall o, set_loop o (if get then [str "GET"] else []) =
      inr (mkSetOpts (so_ttl o) (so_expAt o) (so_nx o) (so_xx o) (so_get o || get) (so_keep o) (so_mode o) (so_to o))) as Hg.
    { intros [? ? ? ? [] ? ? ?]; destruct get; cbn [set_loop]; keyword; reflexivity. }
    revert Hg. generalize (if get then [str "GET"] else []). intros rest Hg [? ? ? ? ? ? md ?].
    destruct c; cbn [cond_args app set_loop]; keyword; rewrite ?Hg; destruct md; reflexivity. }
  destruct x as [| |n|n|n|n]; cbn [expiry_args app]; [by rewrite Hc|cbn [set_loop]; keyword; by rewrite Hc|..];
    destruct Hb as (Hi & Hp%Z.leb_gt & Hb); cbn [set_loop]; keyword; rewrite (ParseInt_FormatInt _ Hi), ?Hp; cbn [orb].
  - destruct Hb as [-> ->]. by rewrite Hc.
  - destruct Hb as [-> ->]. by rewrite Hc.
  - destruct Hb as [-> _]. by rewrite Hc.
  - by rewrite Hc.
Qed.
Definition written (m : dataset) (k v : bytes) (e : Z) : dataset :=
  if alive T e then <[k := (RString v, e)]> m else delete k m.

Lemma written_after m k v e : T < e -> written m k v e = <[k := (RString v, e)]> m.
Proof. intros. unfold written. by rewrite alive_after. Qed.

Lemma set_write_ok m s s0 k v x c get (Q : unit -> St -> Prop) :
  abs_rel T m s -> quiet s0 s -> expiry_ok T x -> (x = XKeep -> m !! k = None -> expires (getShard (s_db s) k) !! k = None) ->
  (forall s', abs_rel T (written m k v (set_deadline T m k x)) s' -> quiet s0 s' -> Q tt s') ->
  wp (set_write E k v (opts_of x c get)) s Q.
Proof using Hclk.
  intros H Hk0 Hx Hnone HQ. unfold set_write, opts_of. cbn [so_ttl so_expAt so_keep]. pose proof (storable_encoded T s v) as Hst.
  assert (forall n, 0 < n -> n <= max_deadline -> set_deadline T m k x = n ->
    wp (_ ← db_Set E k (TryEncodeString v); _ ← db_SetExpireAt E k n; mret tt) s Q) as Hat.
  { intros n Hn Hd En. apply (wp_set m _ _ _ v); [done..|]. intros s1 H1 Hk1. apply wp_bind.
    apply (db_SetExpireAt_rule E T Hclk (<[k := (RString v, 0)]> m)); [done..|]. intros s2 H2 Hk2 _ _.
    apply wp_ret. apply HQ; [|chain]. rewrite En. unfold written, with_deadline in *.
    rewrite lookup_insert_eq, insert_insert_eq, delete_insert_eq in H2. done. }
  assert (forall ms, 0 < ms -> T + ms <= max_deadline -> set_deadline T m k x = T + ms ->
    wp (_ ← db_SetWithExpire E k (TryEncodeString v) (ms * 10 ^ 6); mret tt) s Q) as Hfor.
  { intros ms Hn Hd En. apply wp_bind. apply (db_SetWithExpire_rule E T Hclk m _ _ _ (RString v)); [done..|].
    intros s1 H1 Hk1 _ _ _. apply wp_ret. apply HQ; [|chain]. by rewrite En, written_after by lia. }
  destruct x as [| |n|n|n|n]; cbn [expiry_ok set_deadline] in *.
  - apply (wp_set m _ _ _ v); [done..|]. intros s1 H1 Hk1. apply wp_ret. apply HQ; [done|chain].
  - destruct (m !! k) as [[v0 e]|] eqn:Em.
    + apply (db_SetKeepTTL_rule E T Hclk m _ _ _ (RString v) v0 e); [done..|]. intros s1 H1 Hk1 _ _ _.
      apply HQ; [|chain]. unfold written. by rewrite (proj1 (abs_rel_live _ _ _ _ _ _ H Em)).
    + apply (db_SetKeepTTL_new_rule E T Hclk m _ _ _ (RString v)); [done|by apply Hnone|done|]. intros s1 H1 Hk1 _ _.
      apply HQ; [done|chain].
  - apply Hfor; [lia|lia|done].
  - apply Hfor; [lia|lia|done].
  - rewrite (proj2 (Z.ltb_lt 0 (n * 1000))) by lia. apply Hat; [lia|lia|done].
  - rewrite (proj2 (Z.ltb_lt 0 n)) by lia. apply Hat; [lia|lia|done].
Qed.

Lemma setCommand_ok m s n k v x c get :
  abs_rel T m s -> expiry_ok T x ->
  does_prop (setCommand E (n :: k :: v :: set_args x c get)) m s (ref_SET T (c_resp3 s) m k v x c get) (set_override m k c (c_prop s)).
Proof using Hclk.
  intros H Hx. apply (wp_arg _ _ k); [done|]. change (drop 3 (n :: k :: v :: set_args x c get)) with (set_args x c get).
  rewrite set_loop_args by exact Hx. cbn [so_nx so_xx so_mode so_get so_to opts_of].
  assert ((match c with CNX => true | _ => false end && match c with CXX => true | _ => false end)%bool = false) as -> by by destruct c.
  assert (bool_decide (is_Some (match c with CIfEq _ => Some (str "IFEQ") | CIfNe _ => Some (str "IFNE") | _ => None end)) &&
    (match c with CNX => true | _ => false end || match c with CXX => true | _ => false end) = false) as -> by by destruct c.
  apply wp_bind. apply (db_Get_rule E T Hclk m); [done|]. intros r s1 H1 Hk1 _ _ Hr%reads_string Hnone.
  set (finish := fun old : bytes => (val ← arg (n :: k :: v :: set_args x c get) 2; _ ← set_write E k val (opts_of x c get);
    mret (if get then old else OK)) : M bytes).
  assert (forall old, wp (finish old) s1 (fun r s' => r = (if get then old else OK) /\ abs_rel T (written m k v (set_deadline T m k x)) s' /\
    keeps m s (set_prop (c_prop s) s') /\ c_prop s' = c_prop s)) as Hfin.
  { intros old. apply (wp_arg _ _ v); [done|]. apply wp_bind.
    apply (set_write_ok m s1 s1); [done|apply quiet_refl|done|by intros _|]. intros s2 H2 Hk2. apply wp_ret. split_and!; [done..| |].
    - apply keeps_prop_id. chain.
    - by eapply keeps_prop_id, keeps_quiet. }
  unfold ref_SET. fold (written m k v (set_deadline T m k x)). rewrite <- (k_resp3 _ _ Hk1).
  assert (forall rep : bytes, wp (mret rep) s1 (fun r' s' => r' = rep /\ abs_rel T m s' /\ keeps m s (set_prop (c_prop s) s') /\ c_prop s' = c_prop s)) as Hdone.
  { intros rep. apply wp_ret. split_and!; [done..| |]; by apply (keeps_prop_id m). }
  assert (forall rep : bytes, wp (_ ← Propagate None; mret rep) s1 (fun r' s' => r' = rep /\ abs_rel T m s' /\ keeps m s (set_prop (c_prop s) s') /\ c_prop s' = Some None)) as Hskip.
  { intros rep. apply wp_bind, wp_modify, wp_ret. split_and!; [done|by apply abs_rel_prop|by apply keeps_prop|done]. }
  clear Hnone H1 H Hk1. unfold finish in Hfin. clear finish. unfold set_override, set_holds. generalize dependent (written m k v (set_deadline T m k x)).
  intros m' Hfin. generalize dependent (c_prop s). intros p0 Hfin Hdone Hskip. unfold string_read, on_string, resp3 in *.
  assert (forall d b : bytes, compare_match E (str "IFEQ") d b = inr (bool_decide (b = d))) as Heq by done.
  assert (forall d b : bytes, compare_match E (str "IFNE") d b = inr (negb (bool_decide (b = d)))) as Hne by done.
  destruct (m !! k) as [[[b|y|y|y] e]|] eqn:Em; [destruct Hr as (o & -> & Ht & Hb & _)|destruct Hr as (o & -> & Ht)..|subst r];
    rewrite ?Ht; repeat match goal with
    | |- context [bool_decide (is_Some (Some ?y))] => change (bool_decide (is_Some (Some y))) with true
    | |- context [bool_decide (is_Some (@None ?A))] => change (bool_decide (is_Some (@None A))) with false
    end; destruct get, c; cbn [negb andb orb];
    repeat first [apply Hdone|apply Hskip|apply Hfin|apply (wp_bytes _ b); [exact Hb|]|apply wp_bind, wp_gets|apply wp_bind, wp_ret
      |apply wp_bind, (wp_bytes _ b); [exact Hb|]|apply wp_ret|progress rewrite ?Heq, ?Hne, ?Ht|progress cbn [negb andb orb]|case_bool_decide];
    exact [].
Qed.
Lemma setexGeneric_ok m s n k v num unit_ ms :
  abs_rel T m s -> is_int64 num -> 0 < num -> num * unit_ = ms * 10 ^ 6 -> 0 < ms -> T + ms <= max_deadline ->
  does (setexGeneric E [n; k; FormatInt num; v] unit_) m s (ref_SETEX T m k v ms).
Proof using Hclk.
  intros H Hi Hn Hu Hms Hd. destruct (expiry_bounds (XMillis ms) (conj Hms Hd)) as (_ & _ & Hv & Hs).
  apply (wp_arg _ _ k); [done|]. apply (wp_arg _ _ (FormatInt num)); [done|]. rewrite (ParseInt_FormatInt _ Hi), (proj2 (Z.leb_gt num 0) Hn).
  unfold Millisecond in Hs |- *. rewrite Hu, Hs, Z.quot_mul, Hv by lia. cbn [orb negb].
  apply (wp_arg _ _ v); [done|]. apply wp_bind. apply (db_SetWithExpire_rule E T Hclk m _ _ _ (RString v)); [done|apply storable_encoded|done..|].
  intros s1 H1 Hk1 _ _ _. replied.
Qed.

Lemma setexCommand_ok m s n k v secs :
  abs_rel T m s -> 0 < secs -> T + secs * 1000 <= max_deadline ->
  does (setexCommand E [n; k; FormatInt secs; v]) m s (ref_SETEX T m k v (secs * 1000)).
Proof using Hclk.
  intros H Hs Hd. destruct (expiry_bounds (XSeconds secs) (conj Hs Hd)) as (Hi & _).
  apply setexGeneric_ok; [done|exact Hi|done|unfold Second; lia|lia|done].
Qed.

Lemma psetexCommand_ok m s n k v ms :
  abs_rel T m s -> 0 < ms -> T + ms <= max_deadline ->
  does (psetexCommand E [n; k; FormatInt ms; v]) m s (ref_SETEX T m k v ms).
Proof using Hclk.
  intros H Hs Hd. destruct (expiry_bounds (XMillis ms) (conj Hs Hd)) as (Hi & _).
  apply setexGeneric_ok; [done|exact Hi|done|done|lia|done].
Qed.

Lemma getexCommand_ok m s n k x :
  abs_rel T m s -> (forall y, x = Some y -> expiry_ok T y) ->
  does (getexCommand E (n :: k :: getex_args x)) m s (ref_GETEX T m k x).
Proof using Hclk.
  intros H Hx. apply (wp_arg _ _ k); [done|]. change (drop 2 (n :: k :: getex_args x)) with (getex_args x).
  apply (wp_get m); [done|]. unfold ref_GETEX. get_cases m k; cbn [negb]; try replied.
  apply (wp_bytes _ b); [done|].
  assert (forall d, d <= max_deadline -> wp (_ ← db_SetExpireAt E k d; mret (BulkString b)) s1 (fun r' s' =>
    r' = BulkString b /\ abs_rel T (with_deadline T m k d) s' /\ keeps m s s')) as Hat.
  { intros d Hd. apply wp_bind. apply (db_SetExpireAt_rule E T Hclk m); [done..|]. replied. }
  assert (forall ms, 0 < ms -> T + ms <= max_deadline -> wp (_ ← db_SetExpire E k (ms * 10 ^ 6); mret (BulkString b)) s1 (fun r' s' =>
    r' = BulkString b /\ abs_rel T (with_deadline T m k (T + ms)) s' /\ keeps m s s')) as Hfor.
  { intros ms Hms Hd. apply wp_bind. apply (db_SetExpire_rule E T Hclk m); [done|lia|done|]. replied. }
  destruct x as [x|].
  - specialize (Hx x eq_refl). pose proof (expiry_bounds x Hx) as Hb'.
    destruct x as [| |num|num|num|num]; cbn [getex_args expiry_args getex_loop set_deadline expiry_ok] in *; [replied..| | | |];
      keyword; destruct Hb' as (Hi' & Hp%Z.leb_gt & Hb'); rewrite (ParseInt_FormatInt _ Hi'), ?Hp; cbn [orb].
    + destruct Hb' as [-> ->]. cbn [negb]. apply Hfor; lia.
    + destruct Hb' as [-> ->]. cbn [negb]. apply Hfor; lia.
    + destruct Hb' as [-> ->]. cbn [negb]. apply Hat; lia.
    + apply Hat; lia.
  - cbn [getex_args getex_loop]. keyword. apply wp_bind. apply (db_Persist_rule E T Hclk m); [done|]. unfold with_deadline. rewrite Em.
    cbn [alive Z.eqb orb]. replied.
Qed.

End commands.
