(* ===== verification/Generic.v ===== *)
(** * Commands on keys ([commands/generic.go], [commands/keyspace.go], [commands/delex.go], [commands/msetex.go])

    The handlers that look at a key without looking into its value: existence, type, deletion,
    deadlines, renaming, and the two commands that combine a condition with a write. *)

From S2P Require Import Prelude Strconv Object Value Db DbSpec Reply Context Strings Stripes.
Local Open Scope Z_scope.

Section handlers.
Variable E : env.

Definition db_GetWithTTL (k : bytes) : M (option (robj * Z)) := db_call E (fun P _ t db => Some (GetWithTTL t db k, db)).

Definition pingCommand (argv : list bytes) : M bytes :=
  if zlen argv =? 1 then mret PONG else a ← arg argv 1; mret (BulkString a).

Definition echoCommand (argv : list bytes) : M bytes := a ← arg argv 1; mret (BulkString a).

(** A loop that counts the keys on which [f] answers yes. *)
Fixpoint count_keys (f : bytes -> M bool) (ks : list bytes) (n : Z) : M Z :=
  match ks with
  | [] => mret n
  | k :: ks => b ← f k; count_keys f ks (if b : bool then n + 1 else n)
  end.

Definition existsCommand (argv : list bytes) : M bytes := n ← count_keys (db_Exists E) (drop 1 argv) 0; mret (Integer n).
Definition delCommand (argv : list bytes) : M bytes := n ← count_keys (db_Del E) (drop 1 argv) 0; mret (Integer n).
Definition unlinkCommand (argv : list bytes) : M bytes := n ← count_keys (db_Del E) (drop 1 argv) 0; mret (Integer n).
Definition touchCommand (argv : list bytes) : M bytes :=
  n ← count_keys (fun k => o ← db_Get E k; mret (bool_decide (is_Some o))) (drop 1 argv) 0; mret (Integer n).

(** [int64(dur.Seconds())] for a duration of whole milliseconds: the truncated quotient. *)
Definition Seconds (d : Z) : Z := Z.quot d (10 ^ 9).

Definition ttlCommand (argv : list bytes) : M bytes :=
  key ← arg argv 1;
  '(dur, code) ← db_TTL E key;
  if code =? -2 then mret (Integer (-2))
  else if code =? -1 then mret (Integer (-1))
  else mret (Integer (Seconds dur)).

Definition pttlCommand (argv : list bytes) : M bytes :=
  key ← arg argv 1;
  '(d, code) ← db_TTL E key;
  if negb (code =? 0) then mret (Integer code) else mret (Integer (Milliseconds d)).

Definition expiretimeGeneric (key : bytes) (ms : bool) : M bytes :=
  '(d, code) ← db_TTL E key;
  if negb (code =? 0) then mret (Integer code)
  else
    t ← now E;
    let at_ := UnixMilli (t + d) in
    mret (Integer (if ms then at_ else Z.quot at_ 1000)).

Definition expiretimeCommand (argv : list bytes) : M bytes := key ← arg argv 1; expiretimeGeneric key false.
Definition pexpiretimeCommand (argv : list bytes) : M bytes := key ← arg argv 1; expiretimeGeneric key true.

Definition typeCommand (argv : list bytes) : M bytes :=
  key ← arg argv 1;
  obj ← db_Get E key;
  mret (match obj with None => SimpleString (str "none") | Some o => SimpleString (TypeName o) end).

Definition persistCommand (argv : list bytes) : M bytes :=
  key ← arg argv 1;
  b ← db_Persist E key;
  mret (if b : bool then Integer 1 else Integer 0).

(** *** Deadlines *)

(** The conditions NX, XX, GT and LT; [inl] is the error reply. *)
Fixpoint expire_loop (nx xx gt lt : bool) (args : list bytes) : bytes + (bool * bool * bool * bool) :=
  match args with
  | [] => inr (nx, xx, gt, lt)
  | a :: args =>
    let eq s := bool_decide (ToUpper a = str s) in
    if eq "NX" then expire_loop true xx gt lt args
    else if eq "XX" then expire_loop nx true gt lt args
    else if eq "GT" then expire_loop nx xx true lt args
    else if eq "LT" then expire_loop nx xx gt true args
    else inl (Error (str "Unsupported option " ++ a))
  end.

Inductive expire_kind := KExpire | KPexpire | KExpireat | KPexpireat.

(** From the key lock on: the conditions against the current deadline, then the new one. *)
Definition expire_apply (key : bytes) (nx xx gt lt : bool) (ms absMs : Z) : M bytes :=
  ex ← db_Exists E key;
  if negb ex then mret (Integer 0)
  else
    '(d, code) ← db_TTL E key;
    let current := if code =? 0 then s64 (ms + Milliseconds d) else 0 in
    let hasTTL := negb (current =? 0) in
    if (nx && hasTTL) || (xx && negb hasTTL) || (gt && (negb hasTTL || (absMs <=? current)))
       || (lt && hasTTL && (current <=? absMs))
    then mret (Integer 0)
    else
      b ← db_SetExpireAt E key absMs;
      mret (if b : bool then Integer 1 else Integer 0).

Definition expireGeneric (argv : list bytes) (kind : expire_kind) : M bytes :=
  a2 ← arg argv 2;
  match ParseInt a2 with
  | None => mret not_integer
  | Some n =>
    match expire_loop false false false false (drop 3 argv) with
    | inl err => mret err
    | inr (nx, xx, gt, lt) =>
      if (gt && lt) || (nx && (xx || gt || lt))
      then mret (Error (str "NX and XX, GT or LT options at the same time are not compatible"))
      else
        key ← arg argv 1;
        t ← now E;
        let ms := UnixMilli t in
        let finish := expire_apply key nx xx gt lt ms in
        match kind with
        | KExpire =>
          if negb (validExpireSeconds n) then mret (Error (str "invalid expire time in 'expire' command"))
          else finish (s64 (ms + n * 1000))
        | KPexpire =>
          if negb (validExpireMillis n) then mret (Error (str "invalid expire time in 'pexpire' command"))
          else finish (s64 (ms + n))
        | KExpireat => finish (s64 (n * 1000))
        | KPexpireat => finish n
        end
    end
  end.

Definition expireCommand (argv : list bytes) : M bytes := expireGeneric argv KExpire.
Definition pexpireCommand (argv : list bytes) : M bytes := expireGeneric argv KPexpire.
Definition expireatCommand (argv : list bytes) : M bytes := expireGeneric argv KExpireat.
Definition pexpireatCommand (argv : list bytes) : M bytes := expireGeneric argv KPexpireat.

(** *** Renaming *)

Definition no_such_key : bytes := Error (str "no such key").

(** The object moves: for a moment both names refer to it. *)
Definition renameGeneric (src dst : bytes) (failIfExists : bool) : M bytes :=
  if bool_decide (src = dst) then
    ex ← db_Exists E src;
    mret (if negb ex then no_such_key else if failIfExists then Integer 0 else OK)
  else
    _ ← LockKeys src dst;
    r ← db_GetWithTTL src;
    match r with
    | None => mret no_such_key
    | Some (obj, expireAt) =>
      taken ← (if failIfExists then db_Exists E dst else mret false);
      if taken : bool then mret (Integer 0)
      else
        _ ← db_Set E dst obj;
        _ ← (if 0 <? expireAt then db_SetExpireAt E dst expireAt else mret true);
        _ ← db_Del E src;
        mret (if failIfExists then Integer 1 else OK)
    end.

Definition renameCommand (argv : list bytes) : M bytes := a ← arg argv 1; b ← arg argv 2; renameGeneric a b false.
Definition renamenxCommand (argv : list bytes) : M bytes := a ← arg argv 1; b ← arg argv 2; renameGeneric a b true.

(** [strconv.Atoi] is [ParseInt] on a machine of 64 bits. *)
Definition selectCommand (argv : list bytes) : M bytes :=
  a ← arg argv 1;
  mret (match ParseInt a with
        | None => not_integer
        | Some n => if negb (n =? 0) then Error (str "DB index is out of range") else OK
        end).

Definition swapdbCommand (argv : list bytes) : M bytes :=
  x ← arg argv 1;
  y ← arg argv 2;
  mret (match ParseInt x, ParseInt y with
        | Some a, Some b => if negb (a =? 0) || negb (b =? 0) then Error (str "DB index is out of range") else OK
        | _, _ => Error (str "invalid first DB index")
        end).

Definition quitCommand (argv : list bytes) : M bytes := mret OK.

(** *** DELEX *)

Definition delex_arity : bytes := Error (str "wrong number of arguments for 'delex' command").

(** The condition and its operand; [inl] is the error reply. *)
Definition delex_args (argv : list bytes) : bytes + option (bytes * bytes) :=
  match argv with
  | [_; _] => inr None
  | _ :: _ :: a :: rest =>
    let mode := ToUpper a in
    if bool_decide (mode = str "IFEQ" \/ mode = str "IFNE" \/ mode = str "IFDEQ" \/ mode = str "IFDNE") then
      match rest with [operand] => inr (Some (mode, operand)) | _ => inl delex_arity end
    else inl (Error (str "Invalid condition for 'delex' command"))
  | _ => inl delex_arity
  end.

Definition delexCommand (argv : list bytes) : M bytes :=
  key ← arg argv 1;
  match delex_args argv with
  | inl err => mret err
  | inr cond =>
    obj ← db_Get E key;
    match obj with
    | None => _ ← Propagate None; mret (Integer 0)
    | Some o =>
      let go : M bytes :=
        b ← db_Del E key;
        if b : bool then _ ← Propagate (Some [str "DEL"; key]); mret (Integer 1)
        else _ ← Propagate None; mret (Integer 0) in
      match cond with
      | None => go
      | Some (mode, operand) =>
        if negb (is_type o OBJ_STRING) then mret (Error (str "DELEX conditions can only be used with string values"))
        else
          value ← obj_Bytes o;
          match compare_match E mode operand value with
          | inl err => mret err
          | inr true => go
          | inr false => _ ← Propagate None; mret (Integer 0)
          end
      end
    end
  end.

(** *** MSETEX *)

Definition bad_msetex : bytes := Error (str "invalid expire time in 'msetex' command").

(** The options after the pairs; only the fields of [set_opts] that MSETEX has are used. *)
Fixpoint msetex_loop (o : set_opts) (args : list bytes) : bytes + set_opts :=
  match args with
  | [] => inr o
  | a :: rest =>
    let opt := ToUpper a in
    let eq s := bool_decide (opt = str s) in
    let dated := bool_decide (is_Some (so_ttl o)) || (0 <? so_expAt o) in
    if eq "NX" then msetex_loop (mkSetOpts (so_ttl o) (so_expAt o) true (so_xx o) false (so_keep o) None []) rest
    else if eq "XX" then msetex_loop (mkSetOpts (so_ttl o) (so_expAt o) (so_nx o) true false (so_keep o) None []) rest
    else if eq "KEEPTTL" then
      if dated then inl syntax_error
      else msetex_loop (mkSetOpts (so_ttl o) (so_expAt o) (so_nx o) (so_xx o) false true None []) rest
    else if eq "EX" || eq "PX" || eq "EXAT" || eq "PXAT" then
      if dated || so_keep o then inl syntax_error
      else
        match rest with
        | [] => inl syntax_error
        | b :: rest =>
          match ParseInt b with
          | None => inl not_integer
          | Some n =>
            if eq "EX" then
              if (n <=? 0) || negb (validExpireSeconds n) then inl bad_msetex
              else msetex_loop (mkSetOpts (Some (s64 (n * Second))) (so_expAt o) (so_nx o) (so_xx o) false (so_keep o) None []) rest
            else if eq "PX" then
              if (n <=? 0) || negb (validExpireMillis n) then inl bad_msetex
              else msetex_loop (mkSetOpts (Some (s64 (n * Millisecond))) (so_expAt o) (so_nx o) (so_xx o) false (so_keep o) None []) rest
            else
              msetex_loop (mkSetOpts (so_ttl o) (if eq "EXAT" then s64 (n * 1000) else n) (so_nx o) (so_xx o) false (so_keep o) None []) rest
          end
        end
    else inl syntax_error
  end.

(** Whether a key of the batch fails the condition. *)
Fixpoint batch_refused (nx xx : bool) (pairs : list bytes) : M bool :=
  match pairs with
  | k :: _ :: pairs =>
    ex ← db_Exists E k;
    if (nx && ex) || (xx && negb ex) then mret true else batch_refused nx xx pairs
  | _ => mret false
  end.

Fixpoint msetex_all (o : set_opts) (pairs : list bytes) : M unit :=
  match pairs with
  | k :: v :: pairs => _ ← set_write E k v o; msetex_all o pairs
  | _ => mret tt
  end.

Definition msetexCommand (argv : list bytes) : M bytes :=
  a1 ← arg argv 1;
  match ParseInt a1 with
  | None => mret (Error (str "invalid numkeys value"))
  | Some numKeys =>
    if (numKeys <=? 0) || (2 ^ 31 - 1 <? numKeys) then mret (Error (str "invalid numkeys value"))
    else if zlen argv <? 2 + numKeys * 2 then mret (Error (str "wrong number of key-value pairs"))
    else
      pairs ← lift (go_slice argv 2 (2 + numKeys * 2));
      rest ← lift (go_slice argv (2 + numKeys * 2) (zlen argv));
      match msetex_loop no_opts rest with
      | inl err => mret err
      | inr o =>
        if so_nx o && so_xx o then mret syntax_error
        else
          refused ← batch_refused (so_nx o) (so_xx o) pairs;
          if refused : bool then mret (Integer 0)
          else _ ← msetex_all o pairs; mret (Integer 1)
      end
  end.

End handlers.
