(* ===== verification/GenericSpec.v ===== *)
(** * Commands on keys against the dataset

    What the handlers of [Generic] mean on the dataset, in the style of [StringSpec]. *)

From S2P Require Import Prelude Strconv Object Value Db DbSpec Reply Context Strings StringSpec Generic Stripes.
Local Open Scope Z_scope.

(** ** Meanings *)

Definition present (m : dataset) (k : bytes) : bool := bool_decide (is_Some (m !! k)).

Definition ref_EXISTS (m : dataset) (ks : list bytes) : bytes * dataset :=
  (Integer (foldl (fun n k => if present m k then n + 1 else n) 0 ks), m).

Definition ref_DEL (m : dataset) (ks : list bytes) : bytes * dataset :=
  let x := foldl (fun x k => (if present x.2 k then x.1 + 1 else x.1, delete k x.2)) (0, m) ks in (Integer x.1, x.2).

(** The time left, [unit] milliseconds at a time; -1 for a key without a deadline, -2 for no key. *)
Definition ref_TTL (T : Z) (m : dataset) (k : bytes) (unit_ : Z) : bytes * dataset :=
  (match m !! k with
   | None => Integer (-2)
   | Some (_, e) => if e =? 0 then Integer (-1) else Integer ((e - T) / unit_)
   end, m).

Definition ref_EXPIRETIME (m : dataset) (k : bytes) (unit_ : Z) : bytes * dataset :=
  (match m !! k with
   | None => Integer (-2)
   | Some (_, e) => if e =? 0 then Integer (-1) else Integer (e / unit_)
   end, m).

Definition type_name (v : rvalue) : bytes :=
  match v with RString _ => str "string" | RHash _ => str "hash" | RSet _ => str "set" | RList _ => str "list" end.

Definition ref_TYPE (m : dataset) (k : bytes) : bytes * dataset :=
  (SimpleString (match m !! k with Some (v, _) => type_name v | None => str "none" end), m).

Definition ref_PERSIST (T : Z) (m : dataset) (k : bytes) : bytes * dataset :=
  match m !! k with
  | Some (_, e) => if e =? 0 then (Integer 0, m) else (Integer 1, with_deadline T m k 0)
  | None => (Integer 0, m)
  end.

(** EXPIRE and its relatives, at the absolute deadline [e]: a key without a deadline counts as expiring at infinity. *)
Inductive expire_cond := ECAlways | ECNX | ECXX | ECGT | ECLT.

Definition ref_EXPIRE (T : Z) (m : dataset) (k : bytes) (e : Z) (c : expire_cond) : bytes * dataset :=
  match m !! k with
  | None => (Integer 0, m)
  | Some (_, e0) =>
    let ok := match c with
              | ECAlways => true
              | ECNX => e0 =? 0
              | ECXX => negb (e0 =? 0)
              | ECGT => negb (e0 =? 0) && (e0 <? e)
              | ECLT => (e0 =? 0) || (e <? e0)
              end in
    if ok then (Integer 1, with_deadline T m k e) else (Integer 0, m)
  end.

Definition expire_cond_args (c : expire_cond) : list bytes :=
  match c with ECAlways => [] | ECNX => [str "NX"] | ECXX => [str "XX"] | ECGT => [str "GT"] | ECLT => [str "LT"] end.

Definition expire_at (T : Z) (kind : expire_kind) (n : Z) : Z :=
  match kind with KExpire => T + n * 1000 | KPexpire => T + n | KExpireat => n * 1000 | KPexpireat => n end.

(** Arguments that neither overflow nor leave the range of the keyspace. *)
Definition expire_arg_ok (T : Z) (kind : expire_kind) (n : Z) : Prop :=
  - 2 ^ 36 <= n /\ expire_at T kind n <= max_deadline.

Definition ref_RENAME (m : dataset) (src dst : bytes) (nx : bool) : bytes * dataset :=
  match m !! src with
  | None => (no_such_key, m)
  | Some x =>
    if nx && present m dst then (Integer 0, m)
    else (if nx then Integer 1 else OK, <[dst := x]> (delete src m))
  end.

Definition ref_DELEX (m : dataset) (k : bytes) (c : option (bool * bytes)) : bytes * dataset :=
  match m !! k, c with
  | None, _ => (Integer 0, m)
  | Some _, None => (Integer 1, delete k m)
  | Some (RString b, _), Some (eq, b') =>
    if Bool.eqb eq (bool_decide (b = b')) then (Integer 1, delete k m) else (Integer 0, m)
  | Some _, Some _ => (Error (str "DELEX conditions can only be used with string values"), m)
  end.

(** DELEX always says what is to be propagated, except when it fails. *)
Definition delex_override (m : dataset) (k : bytes) (c : option (bool * bytes)) (p : option (option (list bytes))) : option (option (list bytes)) :=
  match m !! k, c with
  | None, _ => Some None
  | Some _, None => Some (Some [str "DEL"; k])
  | Some (RString b, _), Some (eq, b') => if Bool.eqb eq (bool_decide (b = b')) then Some (Some [str "DEL"; k]) else Some None
  | Some _, Some _ => p
  end.

Definition delex_cond_args (c : option (bool * bytes)) : list bytes :=
  match c with None => [] | Some (true, b) => [str "IFEQ"; b] | Some (false, b) => [str "IFNE"; b] end.

(** MSETEX: one condition on the whole batch, one deadline for all its keys. *)
Definition put_dated (T : Z) (m : dataset) (kvs : list (bytes * bytes)) (x : set_expiry) : dataset :=
  foldl (fun m kv => written T m kv.1 kv.2 (set_deadline T m kv.1 x)) m kvs.

Definition ref_MSETEX (T : Z) (m : dataset) (kvs : list (bytes * bytes)) (x : set_expiry) (nx : option bool) : bytes * dataset :=
  let refused := match nx with
                 | None => false
                 | Some true => existsb (fun kv => present m kv.1) kvs
                 | Some false => existsb (fun kv => negb (present m kv.1)) kvs
                 end in
  if refused then (Integer 0, m) else (Integer 1, put_dated T m kvs x).

Definition msetex_args (kvs : list (bytes * bytes)) (x : set_expiry) (nx : option bool) : list bytes :=
  FormatInt (zlen kvs) :: flat kvs ++
    match nx with None => [] | Some true => [str "NX"] | Some false => [str "XX"] end ++ expiry_args x.

(** ** The handlers *)

Section commands.
Variables (E : env) (T : Z).
Hypothesis Hclk : instant E T.

Local Notation does := (does T).

Lemma pingCommand_ok m s n : abs_rel T m s -> does (pingCommand [n]) m s (PONG, m).
Proof. intros. replied. Qed.

Lemma ping1Command_ok m s n a : abs_rel T m s -> does (pingCommand [n; a]) m s (BulkString a, m).
Proof. intros. apply (wp_arg _ _ a); [done|]. replied. Qed.

Lemma echoCommand_ok m s n a : abs_rel T m s -> does (echoCommand [n; a]) m s (BulkString a, m).
Proof. intros. apply (wp_arg _ _ a); [done|]. replied. Qed.

Lemma count_exists m ks : forall s s0 n (Q : Z -> St -> Prop),
  abs_rel T m s -> quiet s0 s ->
  (forall s', abs_rel T m s' -> quiet s0 s' -> Q (foldl (fun n k => if present m k then n + 1 else n) n ks) s') ->
  wp (count_keys (db_Exists E) ks n) s Q.
Proof using Hclk.
  induction ks as [|k ks IH]; intros s s0 n Q H Hk HQ; [apply wp_ret; by apply HQ|]. cbn [count_keys foldl] in *.
  apply wp_bind. apply (db_Exists_rule E T Hclk m); [done|]. intros s1 H1 Hk1 _ _ _. apply (IH _ s0); [done|chain|done].
Qed.

Lemma count_get m ks : forall s s0 n (Q : Z -> St -> Prop),
  abs_rel T m s -> keeps m s0 s ->
  (forall s', abs_rel T m s' -> keeps m s0 s' -> Q (foldl (fun n k => if present m k then n + 1 else n) n ks) s') ->
  wp (count_keys (fun k => o ← db_Get E k; mret (bool_decide (is_Some o))) ks n) s Q.
Proof using Hclk.
  induction ks as [|k ks IH]; intros s s0 n Q H Hk HQ; [apply wp_ret; by apply HQ|]. cbn [count_keys foldl] in *.
  apply wp_bind, wp_bind. apply (db_Get_rule E T Hclk m); [done|]. intros r s1 H1 Hk1 _ _ Hr _. apply wp_ret.
  replace (bool_decide (is_Some r)) with (present m k); [apply (IH _ s0); [done|chain|done]|].
  unfold reads, present in *. apply bool_decide_ext. destruct (m !! k) as [[]|]; [|by subst r]. destruct Hr as (o & -> & _). naive_solver.
Qed.

Lemma count_del ks : forall m s s0 n (Q : Z -> St -> Prop),
  abs_rel T m s -> quiet s0 s ->
  (let x := foldl (fun x k => (if present x.2 k then x.1 + 1 else x.1, delete k x.2)) (n, m) ks in
   forall s', abs_rel T x.2 s' -> quiet s0 s' -> Q x.1 s') ->
  wp (count_keys (db_Del E) ks n) s Q.
Proof using Hclk.
  induction ks as [|k ks IH]; intros m s s0 n Q H Hk HQ; [apply wp_ret; by apply HQ|]. cbn [count_keys foldl fst snd] in *.
  apply wp_bind. apply (db_Del_rule E T Hclk m); [done|]. intros s1 H1 Hk1 _ _.
  apply (IH (delete k m) _ s0); [done|chain|done].
Qed.

Lemma existsCommand_ok m s n ks : abs_rel T m s -> does (existsCommand E (n :: ks)) m s (ref_EXISTS m ks).
Proof using Hclk. intros H. apply wp_bind. apply (count_exists m ks s s); [done|apply quiet_refl|]. intros. replied. Qed.

Lemma touchCommand_ok m s n ks : abs_rel T m s -> does (touchCommand E (n :: ks)) m s (ref_EXISTS m ks).
Proof using Hclk. intros H. apply wp_bind. apply (count_get m ks s s); [done|apply keeps_refl|]. intros. replied. Qed.

Lemma delCommand_ok m s n ks : abs_rel T m s -> does (delCommand E (n :: ks)) m s (ref_DEL m ks).
Proof using Hclk. intros H. apply wp_bind. apply (count_del ks m s s); [done|apply quiet_refl|]. intros. replied. Qed.

Lemma unlinkCommand_ok m s n ks : abs_rel T m s -> does (unlinkCommand E (n :: ks)) m s (ref_DEL m ks).
Proof using Hclk. apply delCommand_ok. Qed.

Lemma deadline_after m s k v e : abs_rel T m s -> m !! k = Some (v, e) -> e <> 0 -> 0 <= T < e.
Proof using Hclk.
  intros H Hm He. destruct (abs_rel_live _ _ _ _ _ _ H Hm) as [Ha _]. revert Ha. unfold alive.
  destruct (Z.eqb_spec e 0); [done|]. cbn. intros ?%Z.ltb_lt. destruct Hclk. lia.
Qed.

Lemma ttlCommand_ok m s n k : abs_rel T m s -> does (ttlCommand E [n; k]) m s (ref_TTL T m k 1000).
Proof using Hclk.
  intros H. apply (wp_arg _ _ k); [done|]. apply wp_bind. apply (db_TTL_rule E T Hclk m); [done|]. intros s1 H1 Hk1 _ _. unfold ref_TTL.
  destruct (m !! k) as [[v e]|] eqn:Em; [|replied]. destruct (Z.eqb_spec e 0); [replied|].
  pose proof (deadline_after _ _ _ _ _ H Em ltac:(done)). apply wp_ret. split; [|done]. cbn. f_equal. unfold Seconds.
  rewrite Z.quot_div_nonneg by lia. change (10 ^ 9) with (1000 * 10 ^ 6). by rewrite Z.div_mul_cancel_r by lia.
Qed.

Lemma pttlCommand_ok m s n k : abs_rel T m s -> does (pttlCommand E [n; k]) m s (ref_TTL T m k 1).
Proof using Hclk.
  intros H. apply (wp_arg _ _ k); [done|]. apply wp_bind. apply (db_TTL_rule E T Hclk m); [done|]. intros s1 H1 Hk1 _ _. unfold ref_TTL.
  destruct (m !! k) as [[v e]|] eqn:Em; [|replied]. destruct (Z.eqb_spec e 0); [replied|].
  apply wp_ret. split; [|done]. cbn [fst negb Z.eqb]. f_equal. unfold Milliseconds. by rewrite Z.quot_mul, Z.div_1_r by lia.
Qed.

Lemma expiretimeGeneric_ok m s k (ms : bool) : abs_rel T m s ->
  does (expiretimeGeneric E k ms) m s (ref_EXPIRETIME m k (if ms then 1 else 1000)).
Proof using Hclk.
  intros H. apply wp_bind. apply (db_TTL_rule E T Hclk m); [done|]. intros s1 H1 Hk1 _ _. unfold ref_EXPIRETIME.
  destruct (m !! k) as [[v e]|] eqn:Em; [|replied]. destruct (Z.eqb_spec e 0); [replied|]. cbn [negb Z.eqb].
  pose proof (deadline_after _ _ _ _ _ H Em ltac:(done)).
  apply wp_bind. apply (now_rule E T Hclk m); [done|]. intros t s2 Ht H2 Hk2 _. rewrite UnixMilli_add, Ht.
  replace (T + (e - T)) with e by lia. apply wp_ret. split_and!; [|done|chain]. f_equal. destruct ms; [by rewrite Z.div_1_r|].
  by rewrite Z.quot_div_nonneg by lia.
Qed.

Lemma expiretimeCommand_ok m s n k : abs_rel T m s -> does (expiretimeCommand E [n; k]) m s (ref_EXPIRETIME m k 1000).
Proof using Hclk. intros H. apply (wp_arg _ _ k); [done|]. by apply (expiretimeGeneric_ok m s k false). Qed.

Lemma pexpiretimeCommand_ok m s n k : abs_rel T m s -> does (pexpiretimeCommand E [n; k]) m s (ref_EXPIRETIME m k 1).
Proof using Hclk. intros H. apply (wp_arg _ _ k); [done|]. by apply (expiretimeGeneric_ok m s k true). Qed.

Lemma typeCommand_ok m s n k : abs_rel T m s -> does (typeCommand E [n; k]) m s (ref_TYPE m k).
Proof using Hclk.
  intros H. apply (wp_arg _ _ k); [done|]. apply wp_bind. apply (db_Get_rule E T Hclk m); [done|]. intros r s1 H1 Hk1 _ _ Hr _.
  apply wp_ret. split; [|done]. unfold reads, ref_TYPE in *. destruct (m !! k) as [[v e]|]; [|by subst r].
  destruct Hr as (o & -> & Hr & _). cbn. f_equal. unfold represents, face in Hr. destruct Hr as [Ht _]. unfold TypeName. rewrite Ht. by destruct v.
Qed.

Lemma persistCommand_ok m s n k : abs_rel T m s -> does (persistCommand E [n; k]) m s (ref_PERSIST T m k).
Proof using Hclk.
  intros H. apply (wp_arg _ _ k); [done|]. apply wp_bind. apply (db_Persist_rule E T Hclk m); [done|]. intros s1 H1 Hk1 _ _.
  unfold ref_PERSIST, with_deadline in *. destruct (m !! k) as [[v e]|] eqn:Em; [|replied].
  destruct (Z.eqb_spec e 0) as [->|]; cbn [negb]; apply wp_ret; [|done]. rewrite insert_id in H1 by done. done.
Qed.

(** *** Deadlines *)

Lemma expire_bounds kind n :
  expire_arg_ok T kind n ->
  is_int64 n /\
  match kind with
  | KExpire => validExpireSeconds n = true /\ s64 (T + n * 1000) = T + n * 1000
  | KPexpire => validExpireMillis n = true /\ s64 (T + n) = T + n
  | KExpireat => s64 (n * 1000) = n * 1000
  | KPexpireat => True
  end.
Proof using Hclk.
  destruct Hclk as [HT _]. unfold expire_arg_ok. replace max_deadline with 9223372036854 by (by vm_compute).
  destruct kind; cbn [expire_at]; intros [Hn Hd]; (split; [unfold is_int64, min_int64, max_int64; lia|]).
  - split.
    + unfold validExpireSeconds, maxExpireMillis.
      change (Z.quot (- 2 ^ 46) 1000) with (-70368744177). change (Z.quot (2 ^ 46) 1000) with 70368744177.
      apply negb_true_iff, orb_false_iff. rewrite !Z.ltb_ge. lia.
    + apply s64_id. unfold is_int64, min_int64, max_int64. lia.
  - split.
    + unfold validExpireMillis, maxExpireMillis. apply andb_true_iff. rewrite !Z.leb_le. lia.
    + apply s64_id. unfold is_int64, min_int64, max_int64. lia.
  - apply s64_id. unfold is_int64, min_int64, max_int64. lia.
  - exact I.
Qed.

Lemma expireGeneric_ok m s n k kind num c :
  abs_rel T m s -> expire_arg_ok T kind num ->
  does (expireGeneric E (n :: k :: FormatInt num :: expire_cond_args c) kind) m s (ref_EXPIRE T m k (expire_at T kind num) c).
Proof using Hclk.
  intros H Hn. destruct (expire_bounds kind num Hn) as [Hi Hb].
  apply (wp_arg _ _ (FormatInt num)); [done|]. rewrite (ParseInt_FormatInt _ Hi).
  change (drop 3 (n :: k :: FormatInt num :: expire_cond_args c)) with (expire_cond_args c).
  assert (expire_loop false false false false (expire_cond_args c) =
    inr (match c with ECNX => true | _ => false end, match c with ECXX => true | _ => false end,
         match c with ECGT => true | _ => false end, match c with ECLT => true | _ => false end)) as -> by by destruct c.
  match goal with |- context [if ?b then mret (Error (str "NX and XX, GT or LT options at the same time are not compatible")) else _] =>
    replace b with false by by destruct c end.
  apply (wp_arg _ _ k); [done|]. apply wp_bind. apply (now_rule E T Hclk m); [done|]. intros t s1 Ht H1 Hk1 _. cbv zeta. rewrite Ht.
  assert (expire_at T kind num <= max_deadline -> wp (expire_apply E k (match c with ECNX => true | _ => false end)
      (match c with ECXX => true | _ => false end) (match c with ECGT => true | _ => false end) (match c with ECLT => true | _ => false end)
      T (expire_at T kind num)) s1 (fun r s' =>
    r = (ref_EXPIRE T m k (expire_at T kind num) c).1 /\ abs_rel T (ref_EXPIRE T m k (expire_at T kind num) c).2 s' /\ keeps m s s')) as Hfin.
  { generalize (expire_at T kind num). intros e He. apply wp_bind. apply (db_Exists_rule E T Hclk m); [done|].
    intros s2 H2 Hk2 _ _ _. unfold ref_EXPIRE. destruct (m !! k) as [[v e0]|] eqn:Em; [|replied].
    change (negb (bool_decide (is_Some (Some (v, e0))))) with false. cbv iota.
    apply wp_bind. apply (db_TTL_rule E T Hclk m); [done|]. intros s3 H3 Hk3 _ _. rewrite Em.
    assert (keeps m s s3) as Hk13 by chain.
    assert (wp (b ← db_SetExpireAt E k e; mret (if b : bool then Integer 1 else Integer 0)) s3
      (fun r s' => r = Integer 1 /\ abs_rel T (with_deadline T m k e) s' /\ keeps m s s')) as Hset.
    { apply wp_bind. apply (db_SetExpireAt_rule E T Hclk m); [done|done|]. intros s4 H4 Hk4 _ _. rewrite Em. apply wp_ret.
      split_and!; [done..|]. chain. }
    assert (wp (mret (Integer 0)) s3 (fun r s' => r = Integer 0 /\ abs_rel T m s' /\ keeps m s s')) as Hno by replied.
    destruct (Z.eqb_spec e0 0) as [->|He0].
    - cbn [negb andb orb Z.eqb]. destruct c; cbn [negb andb orb]; done.
    - pose proof (deadline_after _ _ _ _ _ H Em He0).
      assert (s64 (T + Milliseconds ((e0 - T) * 10 ^ 6)) = e0) as Hcur.
      { unfold Milliseconds. rewrite Z.quot_mul by lia. replace (T + (e0 - T)) with e0 by lia. apply s64_id.
        destruct (abs_rel_live _ _ _ _ _ _ H Em) as [_ He0d]. unfold max_deadline, is_int64, min_int64, max_int64 in *. div_lia. }
      cbn [Z.eqb]. rewrite Hcur. apply Z.eqb_neq in He0. rewrite !He0. cbn [negb].
      destruct c; cbn [negb andb orb]; rewrite ?orb_false_r; try done.
      + rewrite Z.ltb_antisym. by destruct (e <=? e0).
      + rewrite Z.ltb_antisym. by destruct (e0 <=? e). }
  assert (expire_at T kind num <= max_deadline) as Hmax by apply Hn. specialize (Hfin Hmax).
  destruct kind; cbn [expire_at] in *.
  - destruct Hb as [-> ->]. done.
  - destruct Hb as [-> ->]. done.
  - by rewrite Hb.
  - done.
Qed.

(** *** Renaming *)

Lemma db_GetWithTTL_rule m s k (Q : option (robj * Z) -> St -> Prop) :
  abs_rel T m s ->
  (forall r s', abs_rel T m s' -> quiet s s' -> s_heap s' = s_heap s -> s_next s' = s_next s ->
     match m !! k with
     | Some (v, e) => exists o, r = Some (o, e) /\ represents (s_heap s') (face o) v /\ view T s' k = Some (face o, e)
     | None => r = None
     end -> Q r s') ->
  wp (db_GetWithTTL E k) s Q.
Proof using Hclk.
  intros H HQ. destruct (after_quiet (s_db s) s eq_refl eq_refl) as (E1 & E2 & E3 & Hk & Hq).
  set (s' := set_tick (S (s_tick s)) (put_db (s_db s) s)) in *.
  exists (GetWithTTL (clk E (s_tick s)) (s_db s) k), s'. split; [done|].
  assert (forall j, view T s' j = view T s j) as Hv by (intros j; unfold view; by rewrite E1).
  apply HQ; [|done..|].
  { eapply unchanged; [done..|by rewrite E1; apply H|done]. }
  pose proof (ar_keys _ _ _ H k) as Hkk. rewrite Hv, E2. destruct (ar_db _ _ _ H) as [Hwf _]. unfold GetWithTTL.
  rewrite (proj2 (proj2 Hclk _)).
  destruct (key_cases (s_db s) k T Hwf) as [Hx Hl|Hx Hv' Hxe Hab|v' e' Hx Hv' Hxe Hal Hab]; rewrite Hx; unfold view in *.
  - rewrite Hl in Hkk. by destruct (m !! k) as [[]|].
  - rewrite Hv'. rewrite Hab in Hkk. cbn in Hkk. by destruct (m !! k) as [[]|].
  - rewrite Hv', Hxe. rewrite Hab in *. cbn in *. rewrite Hal in *. destruct (m !! k) as [[v e]|]; [|done].
    destruct Hkk as (-> & Hr & _). by exists v'.
Qed.

Lemma renameGeneric_ok m s src dst nx :
  abs_rel T m s -> src <> dst -> stripes_ok src dst -> does (renameGeneric E src dst nx) m s (ref_RENAME m src dst nx).
Proof using Hclk.
  intros H Hne Hl. unfold renameGeneric. rewrite bool_decide_false by done.
  apply wp_bind, wp_LockKeys; [exact Hl|]. apply wp_bind. apply db_GetWithTTL_rule with (m := m); [done|]. intros r s1 H1 Hk1 _ _ Hr. unfold ref_RENAME.
  destruct (m !! src) as [[v e]|] eqn:Em; [|subst r; replied]. destruct Hr as (o & -> & Hrep & Hview).
  apply wp_bind. assert (forall s2, abs_rel T m s2 -> keeps m s s2 -> view T s2 src = Some (face o, e) ->
    wp (_ ← db_Set E dst o; _ ← (if 0 <? e then db_SetExpireAt E dst e else mret true); _ ← db_Del E src; mret (if nx then Integer 1 else OK)) s2
      (fun r s' => r = (if nx then Integer 1 else OK) /\ abs_rel T (<[dst := (v, e)]> (delete src m)) s' /\ keeps m s s')) as Hmove.
  { intros s2 H2 Hk2 Hw. destruct (abs_rel_live _ _ _ _ _ _ H Em) as [Hal He].
    apply wp_bind. eapply wp_mono; [apply (db_Set_moved E T Hclk s2); [apply H2|by eapply abs_rel_finite]|]. intros ? s3 M3.
    apply wp_bind. apply (wp_mono _ _ (fun _ s4 => s_heap s4 = s_heap s2 /\ s_next s4 = s_next s2 /\ quiet s2 s4 /\ unlimited (s_db s4) /\
      finite_view T s4 /\ view T s4 dst = Some (face o, e) /\ forall j, j <> dst -> view T s4 j = view T s2 j)).
    { destruct M3 as [A1 A2 A3 A4 A5 A6 A7]. cbn in A6. destruct (Z.ltb_spec 0 e).
      - eapply wp_mono; [by apply (db_SetExpireAt_moved E T Hclk s3 dst (face o) 0 e)|]. intros ? s4 [B1 B2 B3 B4 B5 B6 B7]. cbn in B6. rewrite Hal in B6.
        split_and!; [congruence|congruence|by eapply quiet_trans|done..|]. intros j Hj. by rewrite B7, A7.
      - apply wp_ret. replace e with 0 by lia. done. }
    intros ? s4 (A1 & A2 & A3 & A4 & A5 & A6 & A7).
    apply wp_bind. eapply wp_mono; [by apply (db_Del_moved E T Hclk s4)|]. intros ? s5 [B1 B2 B3 B4 B5 B6 B7]. apply wp_ret.
    split_and!; [done| |chain].
    eapply (renamed T m s2 s5 src dst v (face o) e); [done..|congruence|congruence|by eapply same_conn_trans; apply quiet_conn|done|done| |].
    - by rewrite B7.
    - intros j Hj Hj'. by rewrite B7, A7. }
  destruct nx; cbn [andb].
  - eapply wp_mono; [apply (db_Exists_rule E T Hclk m) with (Q := fun b s' => b = present m dst /\ abs_rel T m s' /\ keeps m s s' /\ view T s' src = Some (face o, e)); [done|]|].
    + intros s2 H2 Hk2 _ _ Hv2. split_and!; [done..|chain|by rewrite Hv2].
    + intros b s2 (-> & H2 & Hk2 & Hw2). destruct (present m dst); [replied|]. by apply Hmove.
  - apply wp_ret. by apply Hmove.
Qed.

Lemma rename_ok m s src dst nx : stripes_ok src dst -> abs_rel T m s -> does (renameGeneric E src dst nx) m s (ref_RENAME m src dst nx).
Proof using Hclk.
  intros Hl H. destruct (decide (src = dst)) as [->|Hne]; [|by apply renameGeneric_ok].
  unfold renameGeneric. rewrite bool_decide_true by done. apply wp_bind. apply (db_Exists_rule E T Hclk m); [done|].
  intros s1 H1 Hk1 _ _ _. apply wp_ret. unfold ref_RENAME, present. destruct (m !! dst) as [x|] eqn:Em; [|done].
  destruct nx; [done|]. cbn [andb]. split_and!; [done| |done]. cbn [snd]. by rewrite insert_delete_id.
Qed.

Lemma renameCommand_ok m s n src dst : stripes_ok src dst -> abs_rel T m s -> does (renameCommand E [n; src; dst]) m s (ref_RENAME m src dst false).
Proof using Hclk. intros. do 2 (eapply wp_arg; [done|]). by apply rename_ok. Qed.

Lemma renamenxCommand_ok m s n src dst : stripes_ok src dst -> abs_rel T m s -> does (renamenxCommand E [n; src; dst]) m s (ref_RENAME m src dst true).
Proof using Hclk. intros. do 2 (eapply wp_arg; [done|]). by apply rename_ok. Qed.

(** *** Conditions *)

Lemma delexCommand_ok m s n k c : abs_rel T m s ->
  does_prop T (delexCommand E (n :: k :: delex_cond_args c)) m s (ref_DELEX m k c) (delex_override m k c (c_prop s)).
Proof using Hclk.
  intros H. apply (wp_arg _ _ k); [done|].
  assert (delex_args (n :: k :: delex_cond_args c) =
    inr ((fun x : bool * bytes => (if x.1 then str "IFEQ" else str "IFNE", x.2)) <$> c)) as -> by by destruct c as [[[] ?]|].
  apply (wp_get E T Hclk m); [done|]. intros r s1 H1 Hk1 Hr.
  assert (forall p (rep : bytes), wp (_ ← Propagate p; mret rep) s1 (fun r' s' => r' = rep /\ abs_rel T m s' /\
    keeps m s (set_prop (c_prop s) s') /\ c_prop s' = Some p)) as Hskip.
  { intros p rep. apply wp_bind, wp_modify, wp_ret. split_and!; [done|by apply abs_rel_prop|by apply keeps_prop|done]. }
  assert (forall rep : bytes, wp (mret rep) s1 (fun r' s' => r' = rep /\ abs_rel T m s' /\ keeps m s (set_prop (c_prop s) s') /\ c_prop s' = c_prop s)) as Hdone.
  { intros rep. apply wp_ret. split_and!; [done..| |]; by apply (keeps_prop_id m). }
  assert (is_Some (m !! k) -> wp (b ← db_Del E k; if b : bool then _ ← Propagate (Some [str "DEL"; k]); mret (Integer 1)
      else _ ← Propagate None; mret (Integer 0)) s1 (fun r' s' => r' = Integer 1 /\ abs_rel T (delete k m) s' /\
        keeps m s (set_prop (c_prop s) s') /\ c_prop s' = Some (Some [str "DEL"; k]))) as Hgo.
  { intros Hs. apply wp_bind. apply (db_Del_rule E T Hclk m); [done|]. intros s2 H2 Hk2 _ _. rewrite bool_decide_true by done.
    apply wp_bind, wp_modify, wp_ret. split_and!; [done|by apply abs_rel_prop| |done]. apply keeps_prop. chain. }
  unfold ref_DELEX, delex_override, string_read in *. destruct (m !! k) as [[v e]|] eqn:Em; [|subst r; by apply Hskip].
  specialize (Hgo ltac:(eauto)).
  destruct c as [[eq b']|]; cbn [fmap option_fmap option_map fst snd].
  - destruct v as [b|x|x|x]; [|destruct Hr as (o & -> & Ht); rewrite Ht; by apply Hdone..].
    destruct Hr as (o & -> & Ht & Hb & _). rewrite Ht. cbn [negb]. apply (wp_bytes _ b); [done|].
    assert (compare_match E (if eq then str "IFEQ" else str "IFNE") b' b = inr (Bool.eqb eq (bool_decide (b = b')))) as ->
      by by destruct eq; [change (compare_match E _ b' b) with (inr (A := bytes) (bool_decide (b = b')))|
        change (compare_match E _ b' b) with (inr (A := bytes) (negb (bool_decide (b = b'))))]; destruct (bool_decide _).
    by destruct (Bool.eqb eq _).
  - destruct v; destruct Hr as (o & -> & _); exact Hgo.
Qed.

Lemma batch_refused_ok m kvs nx xx : forall s s0 (Q : bool -> St -> Prop),
  abs_rel T m s -> quiet s0 s ->
  (forall s', abs_rel T m s' -> quiet s0 s' ->
     Q (existsb (fun kv => (nx && present m kv.1) || (xx && negb (present m kv.1))) kvs) s') ->
  wp (batch_refused E nx xx (flat kvs)) s Q.
Proof using Hclk.
  induction kvs as [|[k v] kvs IH]; intros s s0 Q H Hk HQ; [apply wp_ret; by apply HQ|].
  rewrite flat_cons. cbn [batch_refused existsb fst] in *. apply wp_bind. apply (db_Exists_rule E T Hclk m); [done|].
  intros s1 H1 Hk1 _ _ _. fold (present m k). destruct ((nx && present m k) || (xx && negb (present m k))); cbn [orb] in HQ.
  - apply wp_ret. apply HQ; [done|chain].
  - apply (IH _ s0); [done|chain|done].
Qed.

Lemma msetex_all_ok kvs x c get : expiry_ok T x -> x <> XKeep -> forall m s s0 (Q : unit -> St -> Prop),
  abs_rel T m s -> quiet s0 s ->
  (forall s', abs_rel T (put_dated T m kvs x) s' -> quiet s0 s' -> Q tt s') -> wp (msetex_all E (opts_of x c get) (flat kvs)) s Q.
Proof using Hclk.
  intros Hx Hkeep. induction kvs as [|[k v] kvs IH]; intros m s s0 Q H Hk HQ; [apply wp_ret; by apply HQ|].
  rewrite flat_cons. cbn [msetex_all]. apply wp_bind.
  apply (set_write_ok E T Hclk m s s0); [done|done|done|done|]. intros s1 H1 Hk1. by apply (IH _ _ s0 _ H1).
Qed.

Definition batch_cond (nx : option bool) : set_cond :=
  match nx with None => CAlways | Some true => CNX | Some false => CXX end.

Lemma msetex_loop_args x nx :
  expiry_ok T x ->
  msetex_loop no_opts (match nx with None => [] | Some true => [str "NX"] | Some false => [str "XX"] end ++ expiry_args x)
    = inr (opts_of x (batch_cond nx) false).
Proof using Hclk.
  intros Hx. pose proof (expiry_bounds E T Hclk x Hx) as Hb.
  assert (forall nx_ xx_, msetex_loop (mkSetOpts None 0 nx_ xx_ false false None []) (expiry_args x) =
    inr (mkSetOpts (so_ttl (opts_of x CAlways false)) (so_expAt (opts_of x CAlways false)) nx_ xx_ false (so_keep (opts_of x CAlways false)) None [])) as He.
  { intros nx_ xx_. destruct x as [| |n|n|n|n]; cbn [expiry_args]; [done|cbn [msetex_loop]; keyword; reflexivity|..];
      destruct Hb as (Hi & Hp%Z.leb_gt & Hb); cbn [msetex_loop]; keyword; rewrite (ParseInt_FormatInt _ Hi), ?Hp; cbn [orb].
    - destruct Hb as [-> ->]. done.
    - destruct Hb as [-> ->]. done.
    - destruct Hb as [-> _]. done.
    - done. }
  unfold no_opts. destruct nx as [[]|]; cbn [app].
  - cbn [msetex_loop]. keyword. cbn [so_ttl so_expAt so_nx so_xx so_keep]. by rewrite He.
  - cbn [msetex_loop]. keyword. cbn [so_ttl so_expAt so_nx so_xx so_keep]. by rewrite He.
  - by rewrite He.
Qed.

Lemma msetexCommand_ok m s n kvs x nx :
  abs_rel T m s -> expiry_ok T x -> x <> XKeep -> 0 < zlen kvs < 2 ^ 31 ->
  does (msetexCommand E (n :: msetex_args kvs x nx)) m s (ref_MSETEX T m kvs x nx).
Proof using Hclk.
  intros H Hx Hkeep Hlen. unfold msetex_args. apply (wp_arg _ _ (FormatInt (zlen kvs))); [done|].
  rewrite ParseInt_FormatInt by (unfold is_int64, min_int64, max_int64; lia).
  rewrite (proj2 (Z.leb_gt _ _)), (proj2 (Z.ltb_ge (2 ^ 31 - 1) _)) by lia. cbn [orb].
  set (opts := _ ++ expiry_args x). set (argv := n :: _).
  assert (zlen argv = 2 + zlen kvs * 2 + zlen opts) as Hz.
  { unfold argv. rewrite !zlen_cons, zlen_app, flat_length. lia. }
  rewrite Hz, (proj2 (Z.ltb_ge _ _)) by (zlen_pose; lia).
  apply wp_bind. eapply (wp_lift _ (flat kvs)).
  { change argv with ([n; FormatInt (zlen kvs)] ++ flat kvs ++ opts). apply go_slice_mid; [done|]. rewrite flat_length. lia. }
  apply wp_bind. eapply (wp_lift _ opts).
  { change argv with (([n; FormatInt (zlen kvs)] ++ flat kvs) ++ opts). apply go_slice_suffix; [|done].
    rewrite zlen_app, flat_length, !zlen_cons, zlen_nil. lia. }
  unfold opts. rewrite msetex_loop_args by exact Hx. cbn [so_nx so_xx opts_of].
  assert ((match batch_cond nx with CNX => true | _ => false end && match batch_cond nx with CXX => true | _ => false end)%bool = false) as -> by by destruct nx as [[]|].
  apply wp_bind. apply (batch_refused_ok m kvs _ _ s s); [done|apply quiet_refl|]. intros s1 H1 Hk1. unfold ref_MSETEX.
  match goal with |- context [existsb ?f kvs] => set (refused := existsb f kvs) end.
  assert (refused = match nx with
    | None => false | Some true => existsb (fun kv => present m kv.1) kvs | Some false => existsb (fun kv => negb (present m kv.1)) kvs end) as Hr.
  { unfold refused. clear. induction kvs as [|kv kvs IH]; [by destruct nx as [[]|]|]. cbn [existsb]. rewrite IH.
    destruct nx as [[]|]; cbn [batch_cond andb orb]; by rewrite ?orb_false_r. }
  rewrite <- Hr. destruct refused; [replied|].
  apply wp_bind. eapply (msetex_all_ok kvs x); [done|done|exact H1|exact Hk1|]. intros s2 H2 Hk2. replied.
Qed.

End commands.

(** MSETEX with KEEPTTL does not look at the key before it writes: when the key it replaces has expired but is still
    stored, the new value inherits the past deadline.  Here the key of a 10 ms lifetime is set again 20 ms later; the
    command reports success and the key is not there. *)
Definition two_instants (n : nat) : Z := if (n <? 1)%nat then 0 else 20 * 10 ^ 6.

(** The replies of a list of handlers run one after the other. *)
Fixpoint replies_of (cs : list (M bytes)) : M (list bytes) :=
  match cs with
  | [] => mret []
  | c :: cs => r ← c; rs ← replies_of cs; mret (r :: rs)
  end.

Example msetex_keepttl_inherits_a_past_deadline :
  let E := mkEnv two_instants (orc (frozen 0)) (dict_order (frozen 0)) (set_order (frozen 0)) (hash_password (frozen 0)) (xxh3 (frozen 0)) in
  fst <$> replies_of
    [psetexCommand E [str "PSETEX"; str "k"; str "10"; str "v"];
     msetexCommand E [str "MSETEX"; str "1"; str "k"; str "w"; str "KEEPTTL"];
     getCommand E [str "GET"; str "k"]] (initial default_limits false)
  = Some [OK; Integer 1; NullBulkString].
Proof. vm_compute. reflexivity. Qed.
