(* ===== verification/Dispatch.v ===== *)
(** * The dispatcher, transactions and propagation
      ([commands/command.go], [commands/transaction.go], [commands/propagate.go], [commands/acl.go])

    [Execute] is the way of every request: lookup, arity, permission, slot ownership, queueing, the
    handler, the version bump and the feeding of the append-only file and the replicas.  EXEC runs
    the queued requests through [Execute] again; the table is therefore built with a depth, and
    since EXEC itself is never queued two levels are enough. *)

From S2P Require Import Prelude Strconv Object Value Db DbSpec Reply Acl Cluster Context Strings Generic.
Local Open Scope Z_scope.

(** ** The table *)

Definition FlagWrite : Z := 1.
Definition FlagReadOnly : Z := 2.
Definition FlagAdmin : Z := 4.
Definition FlagFast : Z := 8.

Record Command := mkCommand {
  cmd_Name : bytes;
  Handler : list bytes -> M bytes;
  Arity : Z;
  Flags : Z
}.

Definition Table : Type := gmap bytes Command.

Definition NewTable : Table := ∅.

Definition Register (t : Table) (cmd : Command) : Table :=
  let name := ToLower (cmd_Name cmd) in
  <[name := mkCommand name (Handler cmd) (Arity cmd) (Flags cmd)]> t.

Definition toLowerASCII (s : bytes) : bytes :=
  if existsb (fun c => (65 <=? c) && (c <=? 90)) s then lower_byte <$> s else s.

Definition Lookup (t : Table) (name : bytes) : option Command :=
  match t !! name with
  | Some c => Some c
  | None => t !! toLowerASCII name
  end.

Definition Count (t : Table) : Z := Z.of_nat (size t).

Definition has_flag (flags f : Z) : bool := negb (Z.land flags f =? 0).

(** ** Propagation *)

(** What is propagated ([None]: nothing); the outer [None] is an index out of range. *)
Definition abs_deadline (now n : Z) (kind : expire_kind) : Z :=
  match kind with
  | KExpire => s64 (now + n * 1000)
  | KPexpire => s64 (now + n)
  | KExpireat => s64 (n * 1000)
  | KPexpireat => n
  end.

(** [serverDelVerb] *)
Definition serverDelVerb (lazy : bool) : bytes := if lazy then str "UNLINK" else str "DEL".

(** The option loop of [normalizeSet]; [inl] is an early return. *)
Fixpoint normalize_set_loop (lazy : bool) (argv : list bytes) (key : bytes) (now : Z) (out args : list bytes) : list bytes :=
  match args with
  | [] => out
  | a :: rest =>
    let opt := ToUpper a in
    let eq s := bool_decide (opt = str s) in
    if eq "PXAT" then
      match rest with
      | [] => argv
      | b :: rest =>
        if match ParseInt b with Some n => n <=? now | None => false end then [serverDelVerb lazy; key]
        else normalize_set_loop lazy argv key now (out ++ [a; b]) rest
      end
    else if eq "EX" || eq "PX" || eq "EXAT" then
      match rest with
      | [] => argv
      | b :: rest =>
        match ParseInt b with
        | None => argv
        | Some n =>
          let absMs := abs_deadline now n (if eq "EX" then KExpire else if eq "PX" then KPexpire else KExpireat) in
          if absMs <=? now then [serverDelVerb lazy; key]
          else normalize_set_loop lazy argv key now (out ++ [str "PXAT"; FormatInt absMs]) rest
        end
      end
    else if eq "NX" || eq "XX" then normalize_set_loop lazy argv key now out rest
    else if eq "IFEQ" || eq "IFNE" || eq "IFDEQ" || eq "IFDNE" then
      match rest with
      | [] => out
      | _ :: rest => normalize_set_loop lazy argv key now out rest
      end
    else if eq "GET" then normalize_set_loop lazy argv key now out rest
    else normalize_set_loop lazy argv key now (out ++ [a]) rest
  end.

Definition normalizeSet (lazy : bool) (argv : list bytes) (now : Z) : option (list bytes) :=
  a0 ← go_at argv 0; a1 ← go_at argv 1; a2 ← go_at argv 2;
  Some (normalize_set_loop lazy argv a1 now [a0; a1; a2] (drop 3 argv)).

(** GETEX: only the first option counts. *)
Definition normalizeGetex (argv : list bytes) (now : Z) : option (option (list bytes)) :=
  key ← go_at argv 1;
  Some (match drop 2 argv with
        | [] => None
        | a :: rest =>
          let opt := ToUpper a in
          let eq s := bool_decide (opt = str s) in
          if eq "PERSIST" then Some [str "PERSIST"; key]
          else
            match rest with
            | [] => None
            | b :: _ =>
              match ParseInt b with
              | None => None
              | Some n =>
                let finish absMs :=
                  if absMs <=? now then Some [str "DEL"; key] else Some [str "PEXPIREAT"; key; FormatInt absMs] in
                if eq "EX" then finish (abs_deadline now n KExpire)
                else if eq "PX" then finish (abs_deadline now n KPexpire)
                else if eq "EXAT" then finish (abs_deadline now n KExpireat)
                else if eq "PXAT" then finish n
                else None
              end
            end
        end).

Definition normalizeRestore (argv : list bytes) (now : Z) : list bytes :=
  match argv with
  | a0 :: a1 :: a2 :: rest =>
    if bool_decide (rest = []) then argv
    else if existsb (fun a => bool_decide (ToUpper a = str "ABSTTL")) (drop 4 argv) then argv
    else
      match ParseInt a2 with
      | None => argv
      | Some ttl => if ttl =? 0 then argv else a0 :: a1 :: FormatInt (s64 (now + ttl)) :: rest ++ [str "ABSTTL"]
      end
  | _ => argv
  end.

Definition normalizeForPropagation (lazy : bool) (now : Z) (cmdName : bytes) (argv : list bytes) (reply : bytes) : option (option (list bytes)) :=
  let isc s := bool_decide (cmdName = str s) in
  if isc "expire" || isc "pexpire" || isc "expireat" || isc "pexpireat" then
    if negb (bool_decide (reply = Integer 1)) || (zlen argv <? 3) then Some (Some argv)
    else
      key ← go_at argv 1; a2 ← go_at argv 2;
      match ParseInt a2 with
      | None => Some (Some argv)
      | Some n =>
        let absMs := abs_deadline now n
          (if isc "expire" then KExpire else if isc "pexpire" then KPexpire else if isc "expireat" then KExpireat else KPexpireat) in
        if absMs <=? now then Some (Some [str "DEL"; key]) else Some (Some [str "PEXPIREAT"; key; FormatInt absMs])
      end
  else if isc "setex" || isc "psetex" then
    if zlen argv <? 4 then Some (Some argv)
    else
      key ← go_at argv 1; a2 ← go_at argv 2; a3 ← go_at argv 3;
      match ParseInt a2 with
      | None => Some (Some argv)
      | Some n =>
        let absMs := abs_deadline now n (if isc "psetex" then KPexpire else KExpire) in
        Some (Some [str "SET"; key; a3; str "PXAT"; FormatInt absMs])
      end
  else if isc "set" then out ← normalizeSet lazy argv now; Some (Some out)
  else if isc "getex" then normalizeGetex argv now
  else if isc "getdel" then
    if bool_decide (reply = NullBulkString) || bool_decide (reply = Null true) then Some None
    else key ← go_at argv 1; Some (Some [str "DEL"; key])
  else if isc "restore" then Some (Some (normalizeRestore argv now))
  else Some (Some argv).

(** ** Execution *)

(** [ctx.Tx.DirtyCAS = true] when a transaction is being queued. *)
Definition poison : M unit :=
  modify (fun s => match c_Tx s with
                   | Some tx => if InMulti tx then set_Tx (Some (mkTx true (QueuedCmds tx) (Watched tx) true)) s else s
                   | None => s
                   end).

(** The category bits of a command, for the ACL. *)
Definition categories (flags : Z) : Z :=
  let bit f c x := if has_flag flags f then Z.lor x c else x in
  bit FlagFast CatFast (bit FlagAdmin CatAdmin (bit FlagWrite CatWrite (bit FlagReadOnly CatRead 0))).

(** [None] when the user may go on. *)
Definition acl_check (cmd : Command) : M (option bytes) :=
  fun s =>
    match c_User s with
    | None => Some (None, s)
    | Some l =>
      u ← u_heap (s_acl s) !! l;
      if negb (bool_decide (cmd_Name cmd = str "auth")) && negb (CanExecute u (cmd_Name cmd) (categories (Flags cmd)))
      then Some (Some (str "-NOPERM this user has no permissions to run the '" ++ cmd_Name cmd ++ str "' command" ++ crlf), s)
      else Some (None, s)
    end.

Definition cluster_check (cmd : Command) (argv : list bytes) : M (option bytes) :=
  fun s =>
    match s_cluster s, argv with
    | Some cm, _ :: key :: _ =>
      if ClusterEnabled cm &&
         negb (bool_decide (cmd_Name cmd = str "cluster" \/ cmd_Name cmd = str "auth" \/ cmd_Name cmd = str "ping" \/
                            cmd_Name cmd = str "info" \/ cmd_Name cmd = str "quit"))
      then
        '(isLocal, slot, ownerAddr) ← IsSlotLocal cm key;
        if isLocal : bool then Some (None, s)
        else Some (Some (str "-MOVED " ++ FormatInt slot ++ str " " ++ ownerAddr ++ crlf), s)
      else Some (None, s)
    | _, _ => Some (None, s)
    end.

Definition is_control (name : bytes) : bool :=
  bool_decide (name = str "exec" \/ name = str "discard" \/ name = str "multi" \/ name = str "watch").

Definition enqueue (argv : list bytes) : M unit :=
  modify (fun s => match c_Tx s with
                   | Some tx => set_Tx (Some (mkTx (InMulti tx) (QueuedCmds tx ++ [argv]) (Watched tx) (DirtyCAS tx))) s
                   | None => s
                   end).

Definition in_multi : M bool := gets (fun s => match c_Tx s with Some tx => InMulti tx | None => false end).

Section execute.
Variable E : env.

(** What happens after the handler of a writing command. *)
Definition after_write (cmd : Command) (argv : list bytes) (reply : bytes) : M unit :=
  _ ← match argv with _ :: key :: _ => db_Touch key | _ => mret tt end;
  sinks ← gets (fun s => bool_decide (is_Some (s_aof s)) || bool_decide (is_Some (s_repl s)));
  if sinks : bool then
    t ← now E;
    lazy ← gets s_lazy;
    out ← lift (normalizeForPropagation lazy (UnixMilli t) (cmd_Name cmd) argv reply);
    p ← gets c_prop;
    match default out p with
    | Some out => modify (feed out)
    | None => mret tt
    end
  else mret tt.

Definition is_error (reply : bytes) : bool := match reply with 45 :: _ => true | _ => false end.

(** The handler and what surrounds it. *)
Definition run_command (cmd : Command) (argv : list bytes) : M bytes :=
  _ ← modify (set_prop None);
  reply ← Handler cmd argv;
  if has_flag (Flags cmd) FlagWrite && negb (bool_decide (reply = [])) && negb (is_error reply) then
    _ ← after_write cmd argv reply; mret reply
  else mret reply.

Definition bad_arity (cmd : Command) (argv : list bytes) : bool :=
  ((0 <? Arity cmd) && negb (zlen argv =? Arity cmd)) || ((Arity cmd <? 0) && (zlen argv <? - Arity cmd)).

Definition Execute (t : Table) (argv : list bytes) : M bytes :=
  match argv with
  | [] => mret (Error (str "empty command"))
  | name :: _ =>
    match Lookup t name with
    | None => _ ← poison; mret (Error (str "unknown command '" ++ name ++ str "'"))
    | Some cmd =>
      if bad_arity cmd argv then
        _ ← poison; mret (Error (str "wrong number of arguments for '" ++ cmd_Name cmd ++ str "' command"))
      else
        denied ← acl_check cmd;
        match denied with
        | Some err => mret err
        | None =>
          moved ← cluster_check cmd argv;
          match moved with
          | Some err => mret err
          | None =>
            multi ← in_multi;
            if (multi : bool) && negb (is_control (cmd_Name cmd)) then _ ← enqueue argv; mret Queued
            else run_command cmd argv
          end
        end
    end
  end.

(** ** Transactions *)

(** [tx.clearWatch(database)] and [tx.Reset(database)], on the connection's own transaction. *)
Definition clearWatch : M unit :=
  modify (fun s => match c_Tx s with
                   | Some tx =>
                     if bool_decide (Watched tx = ∅) then s
                     else set_Tx (Some (mkTx (InMulti tx) (QueuedCmds tx) ∅ (DirtyCAS tx)))
                            (set_db (RemoveWatchers (s_db s) (Z.of_nat (size (Watched tx)))) s)
                   | None => s
                   end).

Definition Reset_ : M unit :=
  _ ← clearWatch;
  modify (fun s => match c_Tx s with Some tx => set_Tx (Some (mkTx false [] (Watched tx) false)) s | None => s end).

(** [if ctx.Tx == nil { ctx.Tx = NewTxState() }] *)
Definition ensure_tx : M TxState :=
  fun s => match c_Tx s with
           | Some tx => Some (tx, s)
           | None => Some (NewTxState, set_Tx (Some NewTxState) s)
           end.

Definition multiCommand (argv : list bytes) : M bytes :=
  tx ← ensure_tx;
  if InMulti tx then mret (Error (str "MULTI calls can not be nested"))
  else _ ← modify (set_Tx (Some (mkTx true [] (Watched tx) (DirtyCAS tx)))); mret OK.

Definition discardCommand (argv : list bytes) : M bytes :=
  multi ← in_multi;
  if negb multi then mret (Error (str "DISCARD without MULTI"))
  else _ ← Reset_; mret OK.

(** One key of WATCH: the watcher is registered before the version is read. *)
Definition watch_key (key : bytes) : M unit :=
  modify (fun s => match c_Tx s with
                   | Some tx =>
                     let db := if bool_decide (is_Some (Watched tx !! key)) then s_db s else AddWatchers (s_db s) 1 in
                     set_Tx (Some (mkTx (InMulti tx) (QueuedCmds tx) (<[key := GetVersion db key]> (Watched tx)) (DirtyCAS tx)))
                       (set_db db s)
                   | None => s
                   end).

Fixpoint watch_keys (ks : list bytes) : M unit :=
  match ks with
  | [] => mret tt
  | k :: ks => _ ← watch_key k; watch_keys ks
  end.

Definition watchCommand (argv : list bytes) : M bytes :=
  tx ← ensure_tx;
  if InMulti tx then mret (Error (str "WATCH inside MULTI is not allowed"))
  else _ ← watch_keys (drop 1 argv); mret OK.

Definition unwatchCommand (argv : list bytes) : M bytes :=
  _ ← clearWatch;
  _ ← modify (fun s => match c_Tx s with
                       | Some tx => set_Tx (Some (mkTx (InMulti tx) (QueuedCmds tx) (Watched tx) false)) s
                       | None => s
                       end);
  mret OK.

(** The queued requests, in order. *)
Fixpoint run_queue (ex : list bytes -> M bytes) (queued : list (list bytes)) : M (list bytes) :=
  match queued with
  | [] => mret []
  | argv :: queued => r ← ex argv; rs ← run_queue ex queued; mret (r :: rs)
  end.

Definition versions_unchanged (tx : TxState) : M bool :=
  gets (fun s => bool_decide (map_Forall (fun k v => GetVersion (s_db s) k = v) (Watched tx))).

Definition execCommand (ex : list bytes -> M bytes) (argv : list bytes) : M bytes :=
  o ← gets c_Tx;
  match o with
  | None => mret (Error (str "EXEC without MULTI"))
  | Some tx =>
    if negb (InMulti tx) then mret (Error (str "EXEC without MULTI"))
    else if DirtyCAS tx then
      _ ← Reset_; mret (Error (str "EXECABORT Transaction discarded because of previous errors."))
    else
      same ← versions_unchanged tx;
      if negb same then _ ← Reset_; mret NullArray
      else
        if bool_decide (QueuedCmds tx = []) then _ ← Reset_; mret (Array [])
        else
          _ ← modify (set_Tx (Some (mkTx false (QueuedCmds tx) (Watched tx) (DirtyCAS tx))));
          _ ← modify (set_InTx true);
          replies ← run_queue ex (QueuedCmds tx);
          _ ← Reset_;
          _ ← modify (set_InTx false);
          mret (Array replies)
  end.

(** ** ACL commands *)

Definition set_user (u : option nat) : M unit := modify (fun s => set_acl (s_acl s) u s).

Definition authCommand (argv : list bytes) : M bytes :=
  let '(username, password) :=
    match argv with
    | [_; p] => (str "default", p)
    | _ :: u :: p :: _ => (u, p)
    | _ => (str "default", [])
    end in
  m ← gets s_acl;
  match Auth (hash_password E) m username password with
  | None => mret (str "-WRONGPASS invalid username-password pair or user is disabled" ++ crlf)
  | Some l => _ ← set_user (Some l); mret OK
  end.

Definition list_users : M (list bytes) := gets (fun s => set_order E (s_tick s) (dom (users (s_acl s)))).

Definition user_line (m : Manager) (name : bytes) : option bytes :=
  l ← GetUser m name; u ← u_heap m !! l;
  Some (BulkString (str "user " ++ Acl.Name u ++ str " " ++ (if Enabled u then str "on" else str "off") ++ str " ~* &* +@all")).

Fixpoint del_users (m : Manager) (names : list bytes) (n : Z) : Manager * Z :=
  match names with
  | [] => (m, n)
  | name :: names => let '(b, m) := DelUser m name in del_users m names (if b then n + 1 else n)
  end.

Definition aclCommand (argv : list bytes) : M bytes :=
  a1 ← arg argv 1;
  m ← gets s_acl;
  let sub := ToUpper a1 in
  let isc s := bool_decide (sub = str s) in
  if isc "WHOAMI" then
    u ← gets c_User;
    match u with
    | Some l => x ← lift (u_heap m !! l); mret (BulkString (Acl.Name x))
    | None => mret (BulkString (str "default"))
    end
  else if isc "USERS" then names ← list_users; mret (Array (BulkString <$> names))
  else if isc "LIST" then
    names ← list_users;
    lines ← lift (mapM (user_line m) names);
    mret (Array lines)
  else if isc "SETUSER" then
    if zlen argv <? 3 then mret (Error (str "wrong number of arguments for 'acl setuser' command"))
    else
      username ← arg argv 2;
      let '(l, m) := GetOrCreateUser m username in
      u ← lift (u_heap m !! l);
      let u := fold_left (ApplyRule (hash_password E)) (drop 3 argv) u in
      _ ← modify (fun s => set_acl (mkManager (users m) (<[l := u]> (u_heap m)) (u_next m)) (c_User s) s);
      mret OK
  else if isc "GETUSER" then
    if zlen argv <? 3 then mret (Error (str "wrong number of arguments for 'acl getuser' command"))
    else
      username ← arg argv 2;
      match GetUser m username with
      | None => mret NullArray
      | Some l =>
        u ← lift (u_heap m !! l);
        mret (Array [BulkString (str "flags"); Array [BulkString (if Enabled u then str "on" else str "off")];
                     BulkString (str "passwords"); Array []; BulkString (str "commands"); BulkString (str "+@all");
                     BulkString (str "keys"); BulkString (str "~*"); BulkString (str "channels"); BulkString (str "&*")])
      end
  else if isc "DELUSER" then
    if zlen argv <? 3 then mret (Error (str "wrong number of arguments for 'acl deluser' command"))
    else
      let '(m, n) := del_users m (drop 2 argv) 0 in
      _ ← modify (fun s => set_acl m (c_User s) s);
      mret (Integer n)
  else mret (Error (str "unknown subcommand '" ++ sub ++ str "'")).

End execute.
