(* ===== verification/StreamCommands.v ===== *)
(** * Stream commands ([commands/stream.go], [commands/stream_info.go])

    Every handler of the two files.  A stream object's pointer refers to a container that the keyspace does not
    look into ([COther]); what it holds is kept beside the server's state, in [x_str].  A handler is a computation on both;
    [None] is a panic.  [ParseID] reads the clock only for an id of its own making; here every call takes a reading.

    XREAD with BLOCK that finds nothing parks: [Waits] is what it parks with, and [xread_event] is one turn of its loop,
    on a wake-up, a poll or the timer. *)

From S2P Require Import Prelude Strconv Stream Object Value Db Reply Context Strings.
Local Open Scope Z_scope.

Record XSt (A : Type) := mkX { x_st : St; x_str : gmap nat (Stream A) }.
Arguments mkX {A}.
Arguments x_st {A}.
Arguments x_str {A}.

Definition XM (A R : Type) : Type := XSt A -> option (R * XSt A).

#[export] Instance XM_ret A : MRet (XM A) := fun R r x => Some (r, x).
#[export] Instance XM_bind A : MBind (XM A) := fun R R' f m x => '(r, x) ← m x; f r x.

(** A step of the server, a pure computation that may panic. *)
Definition xlift {A R} (m : M R) : XM A R := fun x => '(r, s) ← m (x_st x); Some (r, mkX s (x_str x)).
Definition xpure {A R} (o : option R) : XM A R := fun x => r ← o; Some (r, x).
Definition xarg {A} (argv : list bytes) (i : Z) : XM A bytes := xpure (go_at argv i).

Definition invalid_id : bytes := Error (str "ERR Invalid stream ID specified as stream command argument").
Definition stream_error (e : StreamError) : bytes :=
  match e with
  | ErrInvalidStreamID => Error (str "ERR The ID specified in XADD is equal or smaller than the target stream top item")
  | ErrGroupNotFound => Error (str "NOGROUP No such key or consumer group")
  | ErrGroupExists => Error (str "BUSYGROUP Consumer Group name already exists")
  end.

(** ** Replies *)

Definition format_pairs (e : StreamEntry) : option bytes :=
  ps ← mapM (fun j => f ← e_Fields e !! j; v ← e_Values e !! j; Some (BulkString f ++ BulkString v)) (seq 0 (length (e_Fields e)));
  Some (concat ps).

Definition format_entry (e : StreamEntry) : option bytes :=
  p ← format_pairs e;
  Some (str "*2" ++ crlf ++ BulkString (String_ (e_ID e)) ++ str "*" ++ FormatInt (zlen (e_Fields e) * 2) ++ crlf ++ p).

Definition formatStreamEntries (es : list StreamEntry) : option bytes :=
  if bool_decide (es = []) then Some (str "*0" ++ crlf)
  else rs ← mapM format_entry es; Some (str "*" ++ FormatInt (zlen es) ++ crlf ++ concat rs).

(** ** Options *)

Record add_opts := mkAddOpts { ao_maxLen : Z; ao_approx : bool; ao_nomkstream : bool; ao_minID : option StreamID }.

Definition eq_or_tilde (b : bytes) : bool := bool_decide (b = str "=") || bool_decide (b = str "~").
Definition is_tilde (b : bytes) : bool := bool_decide (b = str "~").

Definition xadd_arity : bytes := Error (str "wrong number of arguments for 'xadd' command").
Definition xadd_syntax : bytes := Error (str "syntax error in XADD").
Definition xtrim_syntax : bytes := Error (str "syntax error in XTRIM").

(** [argv[idx:]] after the options of XREAD; [None] is the panic of an option without its value. *)
Fixpoint xread_loop (args : list bytes) (count blockMs : Z) : option (bytes + (Z * Z * list bytes)) :=
  match args with
  | [] => Some (inr (count, blockMs, []))
  | a :: rest =>
    let opt := ToUpper a in
    if bool_decide (opt = str "COUNT") then
      match rest with
      | [] => None
      | b :: rest => match ParseInt b with None => Some (inl not_integer) | Some c => xread_loop rest c blockMs end
      end
    else if bool_decide (opt = str "BLOCK") then
      match rest with
      | [] => None
      | b :: rest => match ParseInt b with None => Some (inl not_integer) | Some c => xread_loop rest count c end
      end
    else if bool_decide (opt = str "STREAMS") then Some (inr (count, blockMs, rest))
    else Some (inl (Error (str "syntax error in XREAD")))
  end.

Record group_opts := mkGroupOpts { go_group : bytes; go_consumer : bytes; go_count : Z; go_noAck : bool }.

Fixpoint xreadgroup_loop (args : list bytes) (o : group_opts) : option (bytes + (group_opts * list bytes)) :=
  match args with
  | [] => Some (inr (o, []))
  | a :: rest =>
    let opt := ToUpper a in
    if bool_decide (opt = str "GROUP") then
      match rest with
      | g :: c :: rest => xreadgroup_loop rest (mkGroupOpts g c (go_count o) (go_noAck o))
      | _ => None
      end
    else if bool_decide (opt = str "COUNT") then
      match rest with
      | [] => None
      | b :: rest =>
        match ParseInt b with
        | None => Some (inl not_integer)
        | Some n => xreadgroup_loop rest (mkGroupOpts (go_group o) (go_consumer o) n (go_noAck o))
        end
      end
    else if bool_decide (opt = str "NOACK") then xreadgroup_loop rest (mkGroupOpts (go_group o) (go_consumer o) (go_count o) true)
    else if bool_decide (opt = str "STREAMS") then Some (inr (o, rest))
    else Some (inl (Error (str "syntax error in XREADGROUP")))
  end.

(** [len(rem) == 0 || len(rem)%2 != 0] *)
Definition unpaired (rem : list bytes) : bool := (zlen rem =? 0) || negb (Z.rem (zlen rem) 2 =? 0).

(** [blockMs], the keys and what a parked XREAD waits on: the stream that its waiter is registered with. *)
Record blocked := mkBlocked {
  b_keys : list bytes; b_startIDs : list StreamID; b_count : Z; b_blockMs : Z; b_waiter : option (nat * Z)
}.

Inductive xread_result := Replies (r : bytes) | Waits (b : blocked).

(** What ends a turn of [select]. *)
Inductive wake_event := Woken | Polled | TimedOut.

Section handlers.
Context (E : env) {A : Type} (fresh : A) (arena_alloc : A -> Z -> option A).

Definition unix_ms : XM A Z := t ← xlift (now E); mret (UnixMilli t).
Definition parse_id (s : bytes) (last : StreamID) : XM A (option StreamID) := t ← unix_ms; mret (ParseID t s last).

Definition load_stream (l : nat) : XM A (Stream A) := fun x => st ← x_str x !! l; Some (st, x).
Definition store_stream (l : nat) (st : Stream A) : XM A unit := fun x => Some (tt, mkX (x_st x) (<[l := st]> (x_str x))).

(** [inl] is an error reply, [inr None] a nil stream. *)
Definition getOrCreateStream (key : bytes) (createIfMissing : bool) : XM A (bytes + option nat) :=
  obj ← xlift (db_Get E key);
  match obj with
  | Some o =>
    if negb (is_type o OBJ_STREAM) then mret (inl wrongtype)
    else match o_Ptr o with PRef l => _ ← load_stream l; mret (inr (Some l)) | _ => xpure None end
  | None =>
    if negb createIfMissing then mret (inr None)
    else
      l ← xlift (alloc COther);
      _ ← store_stream l NewStream;
      _ ← xlift (db_Set E key (CreateObject OBJ_STREAM (PRef l)));
      mret (inr (Some l))
  end.

(** [s, _ := getOrCreateStream(ctx, k, false)] *)
Definition find_stream (k : bytes) : XM A (option nat) :=
  r ← getOrCreateStream k false; mret (match r with inr l => l | inl _ => None end).

Definition trimBelowMinID (st : Stream A) (minID : StreamID) : option (Stream A) :=
  old ← Range st ZeroID minID 0 false;
  let ids := filter (fun id => (Compare id minID <? 0) = true) (e_ID <$> old) in
  Some (if 0 <? zlen ids then (Delete st ids).2 else st).

(** The option loop of XADD: the options and the arguments from the id on. *)
Fixpoint xadd_loop (args : list bytes) (o : add_opts) : XM A (bytes + (add_opts * list bytes)) :=
  match args with
  | [] => mret (inr (o, []))
  | a :: rest =>
    let opt := ToUpper a in
    if bool_decide (opt = str "NOMKSTREAM") then xadd_loop rest (mkAddOpts (ao_maxLen o) (ao_approx o) true (ao_minID o))
    else if bool_decide (opt = str "MAXLEN") || bool_decide (opt = str "MINID") then
      let isMinID := bool_decide (opt = str "MINID") in
      let value b approx (next : add_opts -> XM A (bytes + (add_opts * list bytes))) :=
        if isMinID then
          id ← parse_id b ZeroID;
          match id with
          | None => mret (inl invalid_id)
          | Some id => next (mkAddOpts (ao_maxLen o) approx (ao_nomkstream o) (Some id))
          end
        else
          match ParseInt b with
          | None => mret (inl not_integer)
          | Some lim => next (mkAddOpts lim approx (ao_nomkstream o) (ao_minID o))
          end in
      match rest with
      | [] => mret (inl xadd_syntax)
      | b :: rest =>
        if eq_or_tilde b then
          match rest with
          | [] => mret (inl xadd_syntax)
          | b' :: rest => value b' (ao_approx o || is_tilde b) (xadd_loop rest)
          end
        else value b (ao_approx o) (xadd_loop rest)
      end
    else mret (inr (o, args))
  end.

Definition xaddCommand (argv : list bytes) : XM A bytes :=
  key ← xarg argv 1;
  r ← xadd_loop (drop 2 argv) (mkAddOpts 0 false false None);
  match r with
  | inl e => mret e
  | inr (o, []) => mret xadd_arity
  | inr (o, idStr :: fieldsRaw) =>
    if (zlen fieldsRaw =? 0) || negb (Z.rem (zlen fieldsRaw) 2 =? 0) then mret xadd_arity
    else
      r ← getOrCreateStream key (negb (ao_nomkstream o));
      match r with
      | inl e => mret e
      | inr None => mret NullBulkString
      | inr (Some l) =>
        st ← load_stream l;
        id ← parse_id idStr (LastID st);
        match id with
        | None => mret invalid_id
        | Some id =>
          '(r, st) ← xpure (AddRaw fresh arena_alloc st id fieldsRaw (ao_maxLen o) (ao_approx o));
          _ ← store_stream l st;
          match r with
          | inl e => mret (stream_error e)
          | inr addedID =>
            _ ← match ao_minID o with
                | Some minID => st ← xpure (trimBelowMinID st minID); store_stream l st
                | None => mret tt
                end;
            mret (BulkString (String_ addedID))
          end
        end
      end
  end.

Definition genericRange (argv : list bytes) (reverse : bool) : XM A bytes :=
  key ← xarg argv 1;
  startStr ← xarg argv 2;
  endStr ← xarg argv 3;
  count ← (if 6 <=? zlen argv then
             a4 ← xarg argv 4;
             if bool_decide (ToUpper a4 = str "COUNT") then
               a5 ← xarg argv 5;
               mret (match ParseInt a5 with Some c => if c <? 0 then None else Some c | None => None end)
             else mret (Some 0)
           else mret (Some 0));
  match count with
  | None => mret not_integer
  | Some count =>
    r ← getOrCreateStream key false;
    match r with
    | inl e => mret e
    | inr None => mret (Array [])
    | inr (Some l) =>
      startID ← parse_id startStr ZeroID;
      match startID with
      | None => mret invalid_id
      | Some startID =>
        endID ← parse_id endStr ZeroID;
        match endID with
        | None => mret invalid_id
        | Some endID =>
          st ← load_stream l;
          es ← xpure (Range st startID endID count reverse);
          xpure (formatStreamEntries es)
        end
      end
    end
  end.

Definition xrangeCommand (argv : list bytes) : XM A bytes := genericRange argv false.
Definition xrevrangeCommand (argv : list bytes) : XM A bytes := genericRange argv true.

Definition xlenCommand (argv : list bytes) : XM A bytes :=
  key ← xarg argv 1;
  r ← getOrCreateStream key false;
  match r with
  | inl e => mret e
  | inr None => mret (Integer 0)
  | inr (Some l) => st ← load_stream l; mret (Integer (Stream.Len st))
  end.

(** The ids among the arguments; the others are passed over. *)
Fixpoint parse_ids (args : list bytes) : XM A (list StreamID) :=
  match args with
  | [] => mret []
  | a :: args =>
    id ← parse_id a ZeroID;
    ids ← parse_ids args;
    mret (match id with Some id => id :: ids | None => ids end)
  end.

Definition xdelCommand (argv : list bytes) : XM A bytes :=
  key ← xarg argv 1;
  r ← getOrCreateStream key false;
  match r with
  | inl e => mret e
  | inr None => mret (Integer 0)
  | inr (Some l) =>
    ids ← parse_ids (drop 2 argv);
    st ← load_stream l;
    let '(deleted, st) := Delete st ids in
    _ ← store_stream l st;
    mret (Integer deleted)
  end.

Definition xtrimCommand (argv : list bytes) : XM A bytes :=
  key ← xarg argv 1;
  a2 ← xarg argv 2;
  let opt := ToUpper a2 in
  if negb (bool_decide (opt = str "MAXLEN")) && negb (bool_decide (opt = str "MINID")) then mret xtrim_syntax
  else
    let '(approx, rest) :=
      match drop 3 argv with
      | b :: rest => if eq_or_tilde b then (is_tilde b, rest) else (false, b :: rest)
      | [] => (false, [])
      end in
    match rest with
    | [] => mret xtrim_syntax
    | b :: _ =>
      if bool_decide (opt = str "MINID") then
        minID ← parse_id b ZeroID;
        match minID with
        | None => mret invalid_id
        | Some minID =>
          r ← getOrCreateStream key false;
          match r with
          | inl e => mret e
          | inr None => mret (Integer 0)
          | inr (Some l) =>
            st ← load_stream l;
            st' ← xpure (trimBelowMinID st minID);
            _ ← store_stream l st';
            mret (Integer (Stream.Len st - Stream.Len st'))
          end
        end
      else
        match ParseInt b with
        | None => mret not_integer
        | Some lim =>
          r ← getOrCreateStream key false;
          match r with
          | inl e => mret e
          | inr None => mret (Integer 0)
          | inr (Some l) =>
            st ← load_stream l;
            '(deleted, st) ← xpure (Trim st lim approx);
            _ ← store_stream l st;
            mret (Integer deleted)
          end
        end
    end.

(** [startID] of XGROUP: the last id for a dollar sign. *)
Definition group_start (s : bytes) (st : Stream A) : XM A (option StreamID) :=
  if bool_decide (s = str "$") then mret (Some (LastID st)) else parse_id s ZeroID.

Definition xgroup_create (argv : list bytes) (key : bytes) : XM A bytes :=
  if zlen argv <? 5 then mret (Error (str "wrong number of arguments for 'xgroup create' command"))
  else
    groupName ← xarg argv 3;
    startStr ← xarg argv 4;
    r ← getOrCreateStream key true;
    match r with
    | inl e => mret e
    | inr None => xpure None
    | inr (Some l) =>
      st ← load_stream l;
      startID ← group_start startStr st;
      match startID with
      | None => mret invalid_id
      | Some startID =>
        let '(err, st) := CreateGroup st groupName startID in
        _ ← store_stream l st;
        mret (match err with Some e => stream_error e | None => OK end)
      end
    end.

Definition xgroup_setid (argv : list bytes) (key : bytes) : XM A bytes :=
  if zlen argv <? 5 then mret (Error (str "wrong number of arguments for 'xgroup setid' command"))
  else
    groupName ← xarg argv 3;
    r ← getOrCreateStream key false;
    match r with
    | inl e => mret e
    | inr None => mret (Error (str "NOGROUP No such key '" ++ key ++ str "' or consumer group '" ++ groupName ++ str "'"))
    | inr (Some l) =>
      idStr ← xarg argv 4;
      st ← load_stream l;
      startID ← group_start idStr st;
      match startID with
      | None => mret invalid_id
      | Some startID =>
        let '(ok, st) := SetGroupID st groupName startID in
        _ ← store_stream l st;
        mret (if ok : bool then OK
              else Error (str "NOGROUP No such consumer group '" ++ groupName ++ str "' for key name '" ++ key ++ str "'"))
      end
    end.

Definition xgroup_destroy (argv : list bytes) (key : bytes) : XM A bytes :=
  if zlen argv <? 4 then mret (Error (str "wrong number of arguments for 'xgroup destroy' command"))
  else
    groupName ← xarg argv 3;
    r ← getOrCreateStream key false;
    match r with
    | inl e => mret e
    | inr None => mret (Integer 0)
    | inr (Some l) =>
      st ← load_stream l;
      let '(ok, st) := DestroyGroup st groupName in
      _ ← store_stream l st;
      mret (Integer (if ok : bool then 1 else 0))
    end.

Definition xgroupCommand (argv : list bytes) : XM A bytes :=
  a1 ← xarg argv 1;
  key ← xarg argv 2;
  let subCmd := ToUpper a1 in
  if bool_decide (subCmd = str "CREATE") then xgroup_create argv key
  else if bool_decide (subCmd = str "SETID") then xgroup_setid argv key
  else if bool_decide (subCmd = str "CREATECONSUMER") || bool_decide (subCmd = str "DELCONSUMER") then
    if zlen argv <? 5 then mret (Error (str "wrong number of arguments for 'xgroup' command")) else mret (Integer 0)
  else if bool_decide (subCmd = str "DESTROY") then xgroup_destroy argv key
  else mret (Error (str "unknown subcommand '" ++ subCmd ++ str "'")).

(** ** XREAD *)

(** The first loop: where each stream is read from; [None] is an invalid id. *)
Fixpoint start_ids (keys idStrs : list bytes) : XM A (option (list StreamID)) :=
  match keys, idStrs with
  | k :: keys, i :: idStrs =>
    l ← find_stream k;
    lastID ← match l with Some l => st ← load_stream l; mret (LastID st) | None => mret ZeroID end;
    id ← (if bool_decide (i = str "$") then mret (Some lastID) else parse_id i ZeroID);
    match id with
    | None => mret None
    | Some id => ids ← start_ids keys idStrs; mret ((fun ids => id :: ids) <$> ids)
    end
  | _, _ => mret (Some [])
  end.

(** The entries after [startID] among those read, up to the count. *)
Fixpoint after_start (startID : StreamID) (count : Z) (es filtered : list StreamEntry) : list StreamEntry :=
  match es with
  | [] => filtered
  | e :: es =>
    if 0 <? Compare (e_ID e) startID then
      let filtered := filtered ++ [e] in
      if (0 <? count) && (count <=? zlen filtered) then filtered else after_start startID count es filtered
    else after_start startID count es filtered
  end.

Definition named_entries (k : bytes) (es : list StreamEntry) : option bytes :=
  r ← formatStreamEntries es; Some (Array [BulkString k; r]).

Fixpoint fetch (keys : list bytes) (startIDs : list StreamID) (count : Z) : XM A (list bytes) :=
  match keys, startIDs with
  | k :: keys, startID :: startIDs =>
    l ← find_stream k;
    found ← match l with
            | Some l =>
              st ← load_stream l;
              es ← xpure (Range st startID MaxID (s64 (count + 1)) false);
              let filtered := after_start startID count es [] in
              if 0 <? zlen filtered then r ← xpure (named_entries k filtered); mret [r] else mret []
            | None => mret []
            end;
    rs ← fetch keys startIDs count;
    mret (found ++ rs)
  | _, _ => mret []
  end.

Definition xreadCommand (argv : list bytes) : XM A xread_result :=
  o ← xpure (xread_loop (drop 1 argv) 0 (-1));
  match o with
  | inl e => mret (Replies e)
  | inr (count, blockMs, rem) =>
    if unpaired rem then mret (Replies (Error (str "syntax error in XREAD STREAMS")))
    else
      let numStreams := Nat.div2 (length rem) in
      let keys := take numStreams rem in
      ids ← start_ids keys (drop numStreams rem);
      match ids with
      | None => mret (Replies invalid_id)
      | Some ids =>
        results ← fetch keys ids count;
        if (0 <? zlen results) || (blockMs <? 0) then mret (Replies (Array results))
        else
          k0 ← xpure (keys !! 0%nat);
          l ← find_stream k0;
          waiter ← match l with
                   | Some l =>
                     st ← load_stream l;
                     let '(id, st) := RegisterWaiter st in
                     _ ← store_stream l st;
                     mret (Some (l, id))
                   | None => mret None
                   end;
          mret (Waits (mkBlocked keys ids count blockMs waiter))
      end
  end.

(** The deferred [UnregisterWaiter]. *)
Definition stop_waiting (b : blocked) : XM A unit :=
  match b_waiter b with
  | Some (l, id) => st ← load_stream l; store_stream l (UnregisterWaiter st id)
  | None => mret tt
  end.

(** Whether the event can happen; a wake-up is taken out of its channel. *)
Definition take_event (b : blocked) (ev : wake_event) : XM A bool :=
  match ev with
  | TimedOut => mret (0 <? b_blockMs b)
  | Polled => mret (match b_waiter b with None => true | Some _ => 1 <? zlen (b_keys b) end)
  | Woken =>
    match b_waiter b with
    | None => mret false
    | Some (l, id) =>
      st ← load_stream l;
      match waiters st !! id with
      | Some true =>
        _ ← store_stream l (mkStream (chunks st) (length_ st) (firstID st) (lastID st) (fields st) (fieldMap st) (cgroups st)
                              (<[id := false]> (waiters st)) (nextWaitID st));
        mret true
      | _ => mret false
      end
    end
  end.

(** One turn of the loop; [None] when it goes on waiting. *)
Definition xread_event (b : blocked) (ev : wake_event) : XM A (option bytes) :=
  ok ← take_event b ev;
  if negb ok then mret None
  else
    match ev with
    | TimedOut => _ ← stop_waiting b; mret (Some NullArray)
    | _ =>
      results ← fetch (b_keys b) (b_startIDs b) (b_count b);
      if 0 <? zlen results then _ ← stop_waiting b; mret (Some (Array results)) else mret None
    end.

(** ** Consumer groups *)

(** The loop over the streams; [inl] is an error reply. *)
Fixpoint read_groups (o : group_opts) (keys idStrs : list bytes) : XM A (bytes + list bytes) :=
  match keys, idStrs with
  | k :: keys, idStr :: idStrs =>
    r ← getOrCreateStream k false;
    match r with
    | inl e => mret (inl e)
    | inr None => read_groups o keys idStrs
    | inr (Some l) =>
      let isNew := bool_decide (idStr = str ">") in
      startID ← (if isNew then mret (Some ZeroID) else parse_id idStr ZeroID);
      match startID with
      | None => mret (inl invalid_id)
      | Some startID =>
        st ← load_stream l;
        t ← unix_ms;
        '(r, st) ← xpure (ReadGroup st t (go_group o) (go_consumer o) startID isNew (go_count o) (go_noAck o));
        _ ← store_stream l st;
        match r with
        | inl e => mret (inl (stream_error e))
        | inr es =>
          found ← (if 0 <? zlen es then r ← xpure (named_entries k es); mret [r] else mret []);
          rs ← read_groups o keys idStrs;
          mret (match rs with inl e => inl e | inr rs => inr (found ++ rs) end)
        end
      end
    end
  | _, _ => mret (inr [])
  end.

Definition xreadgroupCommand (argv : list bytes) : XM A bytes :=
  o ← xpure (xreadgroup_loop (drop 1 argv) (mkGroupOpts [] [] 0 false));
  match o with
  | inl e => mret e
  | inr (o, rem) =>
    if unpaired rem then mret (Error (str "syntax error in XREADGROUP STREAMS"))
    else
      let numStreams := Nat.div2 (length rem) in
      rs ← read_groups o (take numStreams rem) (drop numStreams rem);
      mret (match rs with inl e => e | inr rs => Array rs end)
  end.

Definition xackCommand (argv : list bytes) : XM A bytes :=
  key ← xarg argv 1;
  groupName ← xarg argv 2;
  r ← getOrCreateStream key false;
  match r with
  | inl e => mret e
  | inr None => mret (Integer 0)
  | inr (Some l) =>
    ids ← parse_ids (drop 3 argv);
    st ← load_stream l;
    let '(acked, st) := Ack st groupName ids in
    _ ← store_stream l st;
    mret (Integer acked)
  end.

Definition pending_reply (e : PendingReportEntry) : bytes :=
  Array [BulkString (String_ (p_ID e)); BulkString (p_ConsumerName e); Integer (p_IdleTimeMs e); Integer (p_DeliveryCount e)].

Definition xpendingCommand (argv : list bytes) : XM A bytes :=
  key ← xarg argv 1;
  groupName ← xarg argv 2;
  r ← getOrCreateStream key false;
  match r with
  | inl e => mret e
  | inr None => mret (Array [])
  | inr (Some l) =>
    '(startID, endID, count) ←
      (if 6 <=? zlen argv then
         a3 ← xarg argv 3;
         sID ← parse_id a3 ZeroID;
         a4 ← xarg argv 4;
         eID ← parse_id a4 MaxID;
         a5 ← xarg argv 5;
         mret (default ZeroID sID, default MaxID eID, default 10 (ParseInt a5))
       else mret (ZeroID, MaxID, 10));
    consumerFilter ← (if 7 <=? zlen argv then xarg argv 6 else mret []);
    st ← load_stream l;
    t ← unix_ms;
    mret (Array (pending_reply <$> Pending st t groupName startID endID count consumerFilter))
  end.

Definition xclaimCommand (argv : list bytes) : XM A bytes :=
  key ← xarg argv 1;
  groupName ← xarg argv 2;
  consumerName ← xarg argv 3;
  a4 ← xarg argv 4;
  match ParseInt a4 with
  | None => mret not_integer
  | Some minIdleMs =>
    r ← getOrCreateStream key false;
    match r with
    | inl e => mret e
    | inr None => mret (Array [])
    | inr (Some l) =>
      ids ← parse_ids (drop 5 argv);
      st ← load_stream l;
      t ← unix_ms;
      '(claimed, st) ← xpure (Claim st t groupName consumerName minIdleMs ids);
      _ ← store_stream l st;
      xpure (formatStreamEntries claimed)
    end
  end.

(** ** XINFO *)

Definition entry_fields (e : StreamEntry) : list bytes :=
  concat (imap (fun i f => BulkString f :: match e_Values e !! i with Some v => [BulkString v] | None => [] end) (e_Fields e)).

Definition emptyOrEntry (st : Stream A) (first : bool) : option bytes :=
  if Stream.Len st =? 0 then Some NullArray
  else
    es ← (if first then Range st ZeroID MaxID 1 false else Range st MaxID ZeroID 1 true);
    Some (match es with
          | [] => NullArray
          | e :: _ => Array [BulkString (String_ (e_ID e)); Array (entry_fields e)]
          end).

Definition label (s : string) : bytes := BulkString (str s).

Definition group_info (g : bytes * Z * Z * StreamID) : bytes :=
  let '(name, consumers, pending, last) := g in
  Array [label "name"; BulkString name; label "consumers"; Integer consumers; label "pending"; Integer pending;
         label "last-delivered-id"; BulkString (String_ last); label "entries-read"; Integer 0; label "lag"; Integer 0].

Definition consumer_info (t : Z) (c : bytes * Z * Z) : bytes :=
  let '(name, pending, active) := c in
  let idle := if t - active <? 0 then 0 else t - active in
  Array [label "name"; BulkString name; label "pending"; Integer pending; label "idle"; Integer idle; label "inactive"; Integer idle].

Definition xinfoCommand (argv : list bytes) : XM A bytes :=
  a1 ← xarg argv 1;
  let sub := ToUpper a1 in
  if bool_decide (sub = str "HELP") then
    mret (Array [label "XINFO <subcommand> [<arg> ...]. Subcommands are:"; label "STREAM <key>"; label "GROUPS <key>"; label "CONSUMERS <key> <groupname>"])
  else if zlen argv <? 3 then mret (Error (str "wrong number of arguments for 'xinfo' command"))
  else
    key ← xarg argv 2;
    r ← getOrCreateStream key false;
    match r with
    | inl e => mret e
    | inr None => mret (Error (str "no such key"))
    | inr (Some l) =>
      st ← load_stream l;
      if bool_decide (sub = str "STREAM") then
        first ← xpure (emptyOrEntry st true);
        last ← xpure (emptyOrEntry st false);
        mret (Array [label "length"; Integer (Stream.Len st); label "radix-tree-keys"; Integer (Stream.Len st); label "radix-tree-nodes"; Integer (Stream.Len st + 2);
                     label "last-generated-id"; BulkString (String_ (LastID st)); label "max-deleted-entry-id"; BulkString (String_ ZeroID);
                     label "entries-added"; Integer (Stream.Len st); label "groups"; Integer (zlen (Groups st));
                     label "first-entry"; first; label "last-entry"; last])
      else if bool_decide (sub = str "GROUPS") then mret (Array (group_info <$> Groups st))
      else if bool_decide (sub = str "CONSUMERS") then
        if zlen argv <? 4 then mret (Error (str "wrong number of arguments for 'xinfo consumers' command"))
        else
          group ← xarg argv 3;
          match Consumers st group with
          | None => mret (Error (str "NOGROUP No such consumer group '" ++ group ++ str "' for key name '" ++ key ++ str "'"))
          | Some cs => t ← unix_ms; mret (Array (consumer_info t <$> cs))
          end
      else mret (Error (str "unknown subcommand '" ++ a1 ++ str "'"))
    end.

End handlers.
