(* ===== verification/StreamServer.v ===== *)
(** * Stream commands mean operations on logs

    [stream_rel] relates the state that the handlers of [StreamCommands] work on to a map from keys to streams as a client
    sees them ([xstream]): the entries in order, the last id and the consumer groups.  Keys of other types are there too, as
    [XForeign].  The lemmas are the rules for the steps of the handlers; [StreamRef] uses nothing else. *)

From S2P Require Import Prelude Strconv Stream StreamSpec StreamGroups Object Value Db DbSpec Reply Context Strings StreamCommands.
Local Open Scope Z_scope.

Definition id_ok (id : StreamID) : Prop := 0 <= Ms id < 2 ^ 64 /\ 0 <= Seq id < 2 ^ 64.

Record xstream := mkXS { xs_log : list StreamEntry; xs_last : StreamID; xs_groups : gmap bytes ConsumerGroup }.

Definition empty_stream : xstream := mkXS [] ZeroID ∅.

Inductive xval := XStream (g : xstream) | XForeign.

Abbreviation xdata := (gmap bytes (xval * Z)) (only parsing).

Definition expire_xdata (T : Z) (m : xdata) : xdata := filter (fun kx => alive T kx.2.2 = true) m.

(** The map with a stream at [k], when one is to be made. *)
Definition ensured (m : xdata) (k : bytes) (create : bool) : xdata :=
  match m !! k with
  | None => if create then <[k := (XStream empty_stream, 0)]> m else m
  | Some _ => m
  end.

(** A change of the stream at [k]; its deadline stays. *)
Definition put_stream (m : xdata) (k : bytes) (g : xstream) : xdata :=
  match m !! k with Some (_, e) => <[k := (XStream g, e)]> m | None => m end.

(** ** Computations *)

Section xwp.
Context {A : Type}.

Definition xwp {R} (m : XM A R) (x : XSt A) (Q : R -> XSt A -> Prop) : Prop := exists r x', m x = Some (r, x') /\ Q r x'.

Lemma xwp_ret {R} (r : R) x (Q : R -> XSt A -> Prop) : Q r x -> xwp (mret r) x Q.
Proof. intros. by exists r, x. Qed.

Lemma xwp_bind {R R'} (m : XM A R) (f : R -> XM A R') x (Q : R' -> XSt A -> Prop) :
  xwp m x (fun r x' => xwp (f r) x' Q) -> xwp (m ≫= f) x Q.
Proof. intros (r & x' & E & r' & x'' & E' & H). exists r', x''. split; [|done]. unfold mbind, XM_bind. by rewrite E. Qed.

Lemma xwp_mono {R} (m : XM A R) x (Q Q' : R -> XSt A -> Prop) : xwp m x Q -> (forall r x', Q r x' -> Q' r x') -> xwp m x Q'.
Proof. intros (r & x' & E & H) HQ. exists r, x'. eauto. Qed.

Lemma xwp_pure {R} (o : option R) r x (Q : R -> XSt A -> Prop) : o = Some r -> Q r x -> xwp (xpure o) x Q.
Proof. intros -> H. by exists r, x. Qed.

Lemma xwp_arg {R} argv i a (k : bytes -> XM A R) x Q : go_at argv i = Some a -> xwp (k a) x Q -> xwp (xarg argv i ≫= k) x Q.
Proof. intros Hi H. apply xwp_bind. by apply (xwp_pure _ a). Qed.

Lemma xwp_lift {R} (m : M R) x (Q : R -> XSt A -> Prop) : wp m (x_st x) (fun r s => Q r (mkX s (x_str x))) -> xwp (xlift m) x Q.
Proof. intros (r & s & E & H). exists r, (mkX s (x_str x)). split; [|done]. unfold xlift. by rewrite E. Qed.

End xwp.

(** ** The relation *)

Section relation.
Context {A : Type} (U : gset bytes).

Record is_stream (st : Stream A) (g : xstream) : Prop := {
  is_ok : stream_ok U st;
  is_log : log st = xs_log g;
  is_last : lastID st = xs_last g;
  is_groups : cgroups st = xs_groups g;
  is_ids : Forall (fun e => id_ok (e_ID e)) (xs_log g);
  is_last_ok : id_ok (xs_last g)
}.

Definition xrep (str : gmap nat (Stream A)) (w : ObjectType * ObjectEncoding * payload) (v : xval) : Prop :=
  match v with
  | XForeign => w.1.1 <> OBJ_STREAM
  | XStream g => w.1.1 = OBJ_STREAM /\ exists l st, w.2 = PRef l /\ str !! l = Some st /\ is_stream st g
  end.

Record stream_rel (T : Z) (m : xdata) (x : XSt A) : Prop := {
  sr_db : unlimited (s_db (x_st x));
  sr_keys k : match view T (x_st x) k, m !! k with
              | Some (w, e), Some (v, e') => e' = e /\ xrep (x_str x) w v
              | None, None => True
              | _, _ => False
              end;
  sr_fresh k w e l : view T (x_st x) k = Some (w, e) -> ref_of w = Some l -> (l < s_next (x_st x))%nat;
  sr_inj k k' w w' e e' l : view T (x_st x) k = Some (w, e) -> view T (x_st x) k' = Some (w', e') ->
    ref_of w = Some l -> ref_of w' = Some l -> k = k'
}.

Lemma stream_rel_finite T m x : stream_rel T m x -> finite_view T (x_st x).
Proof.
  intros H. exists (map_imap (fun k _ => view T (x_st x) k) m). intros k. rewrite map_lookup_imap. pose proof (sr_keys _ _ _ H k) as Hk.
  destruct (m !! k), (view T (x_st x) k) as [[]|]; done.
Qed.

(** A step that no key can see. *)
Lemma stream_rel_same T m x x' :
  stream_rel T m x -> unlimited (s_db (x_st x')) -> (s_next (x_st x) <= s_next (x_st x'))%nat -> x_str x' = x_str x ->
  (forall k, view T (x_st x') k = view T (x_st x) k) -> stream_rel T m x'.
Proof.
  intros H Hu Hn Es Hv. split; [done|..].
  - intros k. rewrite Hv, Es. apply H.
  - intros k w e l. rewrite Hv. intros Hw Hl. pose proof (sr_fresh _ _ _ H k w e l Hw Hl). lia.
  - intros k k' w w' e e' l. rewrite !Hv. apply H.
Qed.

Lemma lookup_expire_x (T : Z) (m : xdata) (k : bytes) :
  expire_xdata T m !! k = match m !! k with Some (v, e) => if alive T e then Some (v, e) else None | None => None end.
Proof.
  unfold expire_xdata. rewrite map_lookup_filter. destruct (m !! k) as [[v e]|]; [|done]. cbn.
  destruct (alive T e); [by rewrite option_guard_True|by rewrite option_guard_False].
Qed.

Lemma stream_rel_later T T' m x : T <= T' -> stream_rel T m x -> stream_rel T' (expire_xdata T' m) x.
Proof.
  intros HT H. assert (forall k, view T' (x_st x) k = live T' (view T (x_st x) k)) as Hv by (intros k; symmetry; by apply live_later).
  assert (forall k w e, view T' (x_st x) k = Some (w, e) -> view T (x_st x) k = Some (w, e)) as Hv'.
  { intros k w e. rewrite Hv. destruct (view T (x_st x) k) as [[w' e']|]; [|done]. cbn. by case_match. }
  split; [apply H|..].
  - intros k. rewrite lookup_expire_x, Hv. pose proof (sr_keys _ _ _ H k) as Hk.
    destruct (view T (x_st x) k) as [[w e]|], (m !! k) as [[v e']|]; try done. destruct Hk as (-> & ?). cbn. by destruct (alive T' e).
  - intros k w e l Ew. eapply (sr_fresh _ _ _ H). by apply Hv'.
  - intros k k' w w' e e' l Ew Ew'. eapply (sr_inj _ _ _ H); by apply Hv'.
Qed.

(** The stream behind the pointer that key [k] holds. *)
Record at_key (T : Z) (m : xdata) (x : XSt A) (k : bytes) (l : nat) (st : Stream A) (g : xstream) : Prop := {
  ak_rel : stream_rel T m x;
  ak_view : exists en e, view T (x_st x) k = Some ((OBJ_STREAM, en, PRef l), e) /\ m !! k = Some (XStream g, e);
  ak_str : x_str x !! l = Some st;
  ak_is : is_stream st g
}.

End relation.

Arguments ak_rel {A U T m x k l st g}.
Arguments ak_str {A U T m x k l st g}.
Arguments ak_is {A U T m x k l st g}.

Lemma put_stream_same m k g e : m !! k = Some (XStream g, e) -> put_stream m k g = m.
Proof. intros Hm. unfold put_stream. rewrite Hm. by apply insert_id. Qed.

(** ** Rules *)

Section rules.
Context (E : env) (T : Z) {A : Type} (U : gset bytes).
Hypothesis Hclk : instant E T.
Implicit Types (x : XSt A).

Lemma unix_ms_rule m x (Q : Z -> XSt A -> Prop) :
  stream_rel U T m x -> (forall x', stream_rel U T m x' -> x_str x' = x_str x -> (forall k, view T (x_st x') k = view T (x_st x) k) -> Q T x') ->
  xwp (unix_ms E) x Q.
Proof using Hclk.
  intros H HQ. eexists _, _. split; [reflexivity|]. cbn. destruct Hclk as [_ Hc]. destruct (Hc (s_tick (x_st x))) as [_ ->].
  apply HQ; [|done|done]. eapply stream_rel_same; [exact H|apply H|done|done|done].
Qed.

Lemma parse_id_rule m x b last (Q : option StreamID -> XSt A -> Prop) :
  stream_rel U T m x -> (forall x', stream_rel U T m x' -> x_str x' = x_str x -> (forall k, view T (x_st x') k = view T (x_st x) k) -> Q (ParseID T b last) x') ->
  xwp (parse_id E b last) x Q.
Proof using Hclk. intros H HQ. apply xwp_bind. apply (unix_ms_rule m); [done|]. intros x' H' Es Hv. apply xwp_ret. by apply HQ. Qed.

(** A clock reading leaves a key's stream where it was. *)
Lemma at_key_same m x x' k l st g :
  at_key U T m x k l st g -> stream_rel U T m x' -> x_str x' = x_str x -> (forall k, view T (x_st x') k = view T (x_st x) k) -> at_key U T m x' k l st g.
Proof. intros [_ (en & e & Hv & Hm) Hs Hi] H' Es Ev. split; [done| |by rewrite Es|done]. exists en, e. by rewrite Ev. Qed.

Lemma load_rule_at m x k l st g (Q : Stream A -> XSt A -> Prop) : at_key U T m x k l st g -> Q st x -> xwp (load_stream l) x Q.
Proof. intros H HQ. exists st, x. split; [|done]. unfold load_stream. by rewrite (ak_str H). Qed.

(** A change in place. *)
Lemma store_rule_at m x k l st g st' g' (Q : unit -> XSt A -> Prop) :
  at_key U T m x k l st g -> is_stream U st' g' ->
  (forall x', at_key U T (put_stream m k g') x' k l st' g' -> Q tt x') -> xwp (store_stream l st') x Q.
Proof.
  intros [H (en & e & Hv & Hm) Hs Hi] Hi' HQ. eexists _, _. split; [done|]. apply HQ. unfold put_stream. rewrite Hm. split.
  - split; [apply H| |apply H|apply H]. cbn [x_st x_str]. intros j. destruct (decide (j = k)) as [->|Hj].
    + rewrite Hv, lookup_insert_eq. split; [done|]. split; [done|]. exists l, st'. by rewrite lookup_insert_eq.
    + rewrite lookup_insert_ne by done. pose proof (sr_keys _ _ _ _ H j) as Hk. destruct (view T (x_st x) j) as [[w d]|] eqn:Ew, (m !! j) as [[v d']|]; try done.
      destruct Hk as [-> Hk]. split; [done|]. destruct v as [gj|]; [|done]. destruct Hk as (Ht & i & sj & Hp & Hsj & Hij). split; [done|]. exists i, sj. split_and!; [done| |done].
      rewrite lookup_insert_ne; [done|]. intros <-. apply Hj. eapply (sr_inj _ _ _ _ H); [exact Ew|exact Hv|unfold ref_of; by rewrite Hp|done].
  - exists en, e. by rewrite lookup_insert_eq.
  - cbn. by rewrite lookup_insert_eq.
  - done.
Qed.

Lemma db_Get_stream_rule m x k (Q : option robj -> XSt A -> Prop) :
  stream_rel U T m x ->
  (forall r x', stream_rel U T m x' -> x_str x' = x_str x -> (fst <$> view T (x_st x') k) = face <$> r -> Q r x') ->
  xwp (xlift (db_Get E k)) x Q.
Proof using Hclk.
  intros H HQ. apply xwp_lift. set (s := x_st x) in *.
  destruct (db_step_view E T Hclk s (OGet k) (sr_db _ _ _ _ H) (stream_rel_finite _ _ _ _ H) eq_refl) as (ms & db' & Hp & Hv & Es & Hu & Hs & Hw & _).
  cbn [step spec_step fst snd] in Es, Hs. destruct Hclk as [_ Hc]. destruct (Hc (s_tick s)) as [_ Hms]. rewrite Hms, Hp in Es, Hs.
  destruct (Get (clk E (s_tick s)) (s_db s) k) as [r db1] eqn:Eg. injection Es as Er ->.
  destruct (after_call db' s Hw) as (E1 & E2 & E3 & Hk & _ & _). set (s' := set_tick (S (s_tick s)) (put_db db' s)) in *.
  assert (forall j, view T s' j = view T s j) as Hview.
  { intros j. unfold view. rewrite E1. rewrite Hs, Hv. unfold view. by rewrite live_idem. }
  exists r, s'. split; [unfold db_Get, db_call; cbn; by rewrite Eg|]. apply HQ; [|done|].
  - eapply stream_rel_same; [exact H|cbn [x_st]; by rewrite E1|cbn [x_st]; rewrite E3; done|done|done].
  - cbn [x_st]. rewrite Hview, <- Hv. done.
Qed.

(** A new stream under a key that is absent. *)
Lemma create_rule {R} (f : nat -> R) m x k (Q : R -> XSt A -> Prop) :
  stream_rel U T m x -> m !! k = None ->
  (forall l x', at_key U T (<[k := (XStream empty_stream, 0)]> m) x' k l NewStream empty_stream -> Q (f l) x') ->
  xwp (l ← xlift (alloc COther); _ ← store_stream l NewStream; _ ← xlift (db_Set E k (CreateObject OBJ_STREAM (PRef l))); mret (f l)) x Q.
Proof using Hclk.
  intros H Hm HQ. apply xwp_bind. eexists _, _. split; [reflexivity|]. apply xwp_bind. eexists _, _. split; [reflexivity|]. apply xwp_bind, xwp_lift.
  cbn [x_st x_str]. set (s := x_st x). set (l := s_next s). set (s1 := set_heap _ _ s).
  assert (forall j, view T s1 j = view T s j) as Hv1 by done.
  eapply wp_mono; [apply (db_Set_moved E T Hclk)|].
  { apply H. }
  { destruct (stream_rel_finite _ _ _ _ H) as [ms Hms]. exists ms. intros j. by rewrite Hms. }
  intros _ s2 [_ Hn _ Hu _ Hk Hj]. apply xwp_ret, HQ. cbn in Hk.
  assert (forall j, j <> k -> view T s2 j = view T s j) as Hj' by (intros j ?; rewrite Hj by done; apply Hv1).
  assert (is_stream U (NewStream (A := A)) empty_stream) as Hnew.
  { split; [apply NewStream_ok|done|done|done|constructor|]. split; cbn; lia. }
  split; [split; cbn [x_st x_str]| |cbn; by rewrite lookup_insert_eq|done].
  - done.
  - intros j. destruct (decide (j = k)) as [->|Hne].
    + rewrite Hk, lookup_insert_eq. split; [done|]. split; [done|]. exists l, NewStream. by rewrite lookup_insert_eq.
    + rewrite Hj', lookup_insert_ne by done. pose proof (sr_keys _ _ _ _ H j) as Hkk. fold s in Hkk. destruct (view T s j) as [[w d]|] eqn:Ew, (m !! j) as [[v d']|]; try done.
      destruct Hkk as [-> Hkk]. split; [done|]. destruct v as [gj|]; [|done]. destruct Hkk as (Ht & i & sj & Hp & Hsj & Hij). split; [done|]. exists i, sj. split_and!; [done| |done].
      rewrite lookup_insert_ne; [done|]. assert (i < s_next s)%nat by (eapply (sr_fresh _ _ _ _ H); [exact Ew|unfold ref_of; by rewrite Hp]). unfold l. lia.
  - intros j w e i Hw Hi. rewrite Hn. cbn. destruct (decide (j = k)) as [->|Hne].
    + rewrite Hk in Hw. injection Hw as <- <-. injection Hi as <-. unfold l. lia.
    + rewrite Hj' in Hw by done. pose proof (sr_fresh _ _ _ _ H j w e i Hw Hi). fold s in H0. lia.
  - assert (forall j w e i, j <> k -> view T s2 j = Some (w, e) -> ref_of w = Some i -> i <> l) as Hold.
    { intros j w e i Hne Hw Hi. rewrite Hj' in Hw by done. pose proof (sr_fresh _ _ _ _ H j w e i Hw Hi). fold s in H0. unfold l. lia. }
    intros j j' w w' e e' i Hw Hw' Hi Hi'. destruct (decide (j = k)) as [->|Hne], (decide (j' = k)) as [->|Hne']; [done|..].
    + rewrite Hk in Hw. injection Hw as <- <-. injection Hi as <-. by destruct (Hold j' w' e' l).
    + rewrite Hk in Hw'. injection Hw' as <- <-. injection Hi' as <-. by destruct (Hold j w e l).
    + rewrite Hj' in Hw, Hw' by done. by eapply (sr_inj _ _ _ _ H).
  - exists OBJ_ENCODING_RAW, 0. by rewrite lookup_insert_eq.
Qed.

(** What the handlers do first. *)
Lemma getOrCreateStream_rule m x k create (Q : bytes + option nat -> XSt A -> Prop) :
  stream_rel U T m x ->
  match ensured m k create !! k with
  | None => forall x', stream_rel U T m x' -> Q (inr None) x'
  | Some (XForeign, _) => forall x', stream_rel U T m x' -> Q (inl wrongtype) x'
  | Some (XStream g, _) => forall l st x', at_key U T (ensured m k create) x' k l st g -> Q (inr (Some l)) x'
  end -> xwp (getOrCreateStream E k create) x Q.
Proof using Hclk.
  intros H HQ. apply xwp_bind. apply (db_Get_stream_rule m); [done|]. intros r x1 H1 _ Hr. pose proof (sr_keys _ _ _ _ H1 k) as Hk. unfold ensured in HQ.
  destruct (m !! k) as [[v e]|] eqn:Em.
  - rewrite Em in HQ. destruct (view T (x_st x1) k) as [[w e']|] eqn:Ew; [|done]. destruct Hk as [-> Hk]. destruct r as [o|]; [|done]. cbn in Hr. injection Hr as ->.
    unfold is_type. destruct v as [g|]; cbn in Hk.
    + destruct Hk as (Ht & l & st & Hp & Hs & Hi). rewrite Ht, Hp. rewrite bool_decide_true by done. cbn [negb]. apply xwp_bind.
      assert (at_key U T m x1 k l st g) as Hat.
      { split; [done| |done|done]. exists (o_Encoding o), e'. split; [|done]. rewrite Ew. unfold face. by rewrite Ht, Hp. }
      eapply load_rule_at; [exact Hat|]. apply xwp_ret. by eapply HQ.
    + rewrite bool_decide_false by done. apply xwp_ret. by apply HQ.
  - destruct (view T (x_st x1) k) as [[w e']|]; [done|]. destruct r as [o|]; [done|]. destruct create; cbn [negb].
    + rewrite lookup_insert_eq in HQ. apply (create_rule (fun l => inr (Some l)) m); [done|done|]. intros l x' Hat. by eapply HQ.
    + rewrite Em in HQ. apply xwp_ret. by apply HQ.
Qed.

End rules.
