(* ===== verification/StreamRef.v ===== *)
(** * The meaning of the stream commands

    [xcmd] is the abstract syntax of the stream commands, [xargs] the way a client writes one and [ref_xcmd] its meaning on a map from
    keys to logs: the reply and the new map, at the millisecond at which it runs.  An XADD whose id is not above the last one of a
    stream that has been emptied has no meaning here ([None]): the code takes it and its log is then out of order.
    [streams_are_logs] is the theorem on histories. *)

From S2P Require Import Prelude Strconv Stream StreamSpec StreamGroups Object Value Db DbSpec Reply Context Strings StringSpec Dispatch StreamCommands StreamServer.
Local Open Scope Z_scope.

(** ** Replies *)

Definition entry_reply (e : StreamEntry) : bytes :=
  Array [BulkString (String_ (e_ID e)); Array (concat (zip_with (fun f v => [BulkString f; BulkString v]) (e_Fields e) (e_Values e)))].
Definition entries_reply (es : list StreamEntry) : bytes := Array (entry_reply <$> es).
Definition named_reply (k : bytes) (es : list StreamEntry) : bytes := Array [BulkString k; entries_reply es].

Definition paired (e : StreamEntry) : Prop := length (e_Fields e) = length (e_Values e).

(** ** Syntax *)

Inductive xid := IdAuto | IdSeq (ms : Z) | IdExact (id : StreamID).
Inductive xbound := BMin | BMax | BId (id : StreamID).
Inductive xcap := CapLen (approx : bool) (n : Z) | CapMin (approx : bool) (id : StreamID).

Definition xid_arg (i : xid) : bytes :=
  match i with IdAuto => str "*" | IdSeq ms => FormatUint ms ++ 45 :: str "*" | IdExact id => String_ id end.
Definition xbound_arg (b : xbound) : bytes := match b with BMin => str "-" | BMax => str "+" | BId id => String_ id end.
Definition approx_arg (approx : bool) : bytes := if approx then str "~" else str "=".
Definition xcap_args (c : xcap) : list bytes :=
  match c with CapLen a n => [str "MAXLEN"; approx_arg a; FormatInt n] | CapMin a id => [str "MINID"; approx_arg a; String_ id] end.
(** A dollar sign or an id; a "greater than" sign or an id. *)
Definition from_arg (i : option StreamID) : bytes := match i with None => str "$" | Some id => String_ id end.
Definition group_arg (i : option StreamID) : bytes := match i with None => str ">" | Some id => String_ id end.
Definition xcount_args (c : option Z) : list bytes := match c with None => [] | Some n => [str "COUNT"; FormatInt n] end.

Inductive xcmd :=
  | Xadd (k : bytes) (nomk : bool) (c : option xcap) (i : xid) (kvs : list (bytes * bytes))
  | Xrange (reverse : bool) (k : bytes) (a b : xbound) (count : option Z)
  | Xlen (k : bytes) | Xdel (k : bytes) (ids : list StreamID) | Xtrim (k : bytes) (c : xcap)
  | Xread (count : Z) (ks : list (bytes * option StreamID))
  | XgroupCreate (k g : bytes) (i : option StreamID) | XgroupSetid (k g : bytes) (i : option StreamID) | XgroupDestroy (k g : bytes)
  | Xreadgroup (g c : bytes) (count : option Z) (noAck : bool) (ks : list (bytes * option StreamID))
  | Xack (k g : bytes) (ids : list StreamID)
  | Xpending (k g : bytes) (a b : StreamID) (count : Z) (consumer : option bytes)
  | Xclaim (k g c : bytes) (minIdle : Z) (ids : list StreamID).

Definition xargs (c : xcmd) : list bytes :=
  match c with
  | Xadd k nomk c i kvs => str "XADD" :: k :: (if nomk then [str "NOMKSTREAM"] else []) ++ match c with Some c => xcap_args c | None => [] end ++ xid_arg i :: flat kvs
  | Xrange rv k a b n => (if rv then str "XREVRANGE" else str "XRANGE") :: k :: xbound_arg a :: xbound_arg b :: xcount_args n
  | Xlen k => [str "XLEN"; k]
  | Xdel k ids => str "XDEL" :: k :: (String_ <$> ids)
  | Xtrim k c => str "XTRIM" :: k :: xcap_args c
  | Xread n ks => str "XREAD" :: str "COUNT" :: FormatInt n :: str "STREAMS" :: ks.*1 ++ (from_arg <$> ks.*2)
  | XgroupCreate k g i => [str "XGROUP"; str "CREATE"; k; g; from_arg i]
  | XgroupSetid k g i => [str "XGROUP"; str "SETID"; k; g; from_arg i]
  | XgroupDestroy k g => [str "XGROUP"; str "DESTROY"; k; g]
  | Xreadgroup g c n noAck ks =>
      str "XREADGROUP" :: str "GROUP" :: g :: c :: xcount_args n ++ (if noAck then [str "NOACK"] else []) ++ str "STREAMS" :: ks.*1 ++ (group_arg <$> ks.*2)
  | Xack k g ids => str "XACK" :: k :: g :: (String_ <$> ids)
  | Xpending k g a b n c => [str "XPENDING"; k; g; String_ a; String_ b; FormatInt n] ++ match c with Some c => [c] | None => [] end
  | Xclaim k g c n ids => str "XCLAIM" :: k :: g :: c :: FormatInt n :: (String_ <$> ids)
  end.

(** ** Meaning *)

(** [f] on the stream at [k]. *)
Definition on_stream (m : xdata) (k : bytes) (none : bytes * xdata) (f : xstream -> bytes * xdata) : bytes * xdata :=
  match m !! k with Some (XStream g, _) => f g | Some (XForeign, _) => (wrongtype, m) | None => none end.

Definition with_log (g : xstream) (l : list StreamEntry) : xstream := mkXS l (xs_last g) (xs_groups g).
Definition with_group (g : xstream) (name : bytes) (cg : ConsumerGroup) : xstream := mkXS (xs_log g) (xs_last g) (<[name := cg]> (xs_groups g)).

(** The id that an XADD at millisecond [T] asks for. *)
Definition next_in (last : StreamID) (ms : Z) : StreamID := mkID ms (if ms =? Ms last then u64 (Seq last + 1) else 0).
Definition new_id (T : Z) (last : StreamID) (i : xid) : StreamID :=
  match i with IdAuto => next_in last (Z.max (u64 T) (Ms last)) | IdSeq ms => next_in last ms | IdExact id => id end.

Definition not_below (id : StreamID) (l : list StreamEntry) : list StreamEntry := filter (fun e => ~ id_lt (e_ID e) id) l.

(** What the trimming of XADD and of XTRIM leaves; for XADD a length that is not positive is no limit. *)
Definition cap_added (c : option xcap) (l : list StreamEntry) : list StreamEntry :=
  match c with
  | Some (CapLen _ n) => if 0 <? n then keep_last n l else l
  | Some (CapMin _ id) => not_below id l
  | None => l
  end.
Definition cap_trimmed (c : xcap) (l : list StreamEntry) : list StreamEntry :=
  match c with CapLen _ n => keep_last n l | CapMin _ id => not_below id l end.

Definition ref_XADD (T : Z) (m : xdata) (k : bytes) (nomk : bool) (c : option xcap) (i : xid) (kvs : list (bytes * bytes)) : option (bytes * xdata) :=
  let m' := ensured m k (negb nomk) in
  match m' !! k with
  | None => Some (NullBulkString, m)
  | Some (XForeign, _) => Some (wrongtype, m)
  | Some (XStream g, _) =>
    let id := new_id T (xs_last g) i in
    if decide (id_lt (xs_last g) id) then
      Some (BulkString (String_ id), put_stream m' k (mkXS (cap_added c (xs_log g ++ [mkSE id kvs.*1 kvs.*2])) id (xs_groups g)))
    else if decide (xs_log g = []) then None
    else Some (stream_error ErrInvalidStreamID, m')
  end.

Definition bound_id (b : xbound) : StreamID := match b with BMin => ZeroID | BMax => MaxID | BId id => id end.

Definition ref_XRANGE (m : xdata) (reverse : bool) (k : bytes) (a b : xbound) (count : option Z) : bytes * xdata :=
  on_stream m k (Array [], m) (fun g =>
    (entries_reply (limit (default 0 count)
       (if reverse then filter (between (bound_id b) (bound_id a)) (rev (xs_log g)) else filter (between (bound_id a) (bound_id b)) (xs_log g))), m)).

Definition ref_XLEN (m : xdata) (k : bytes) : bytes * xdata := on_stream m k (Integer 0, m) (fun g => (Integer (zlen (xs_log g)), m)).

Definition ref_XDEL (m : xdata) (k : bytes) (ids : list StreamID) : bytes * xdata :=
  on_stream m k (Integer 0, m) (fun g =>
    (Integer (zlen (filter (fun e => e_ID e ∈ ids) (xs_log g))), put_stream m k (with_log g (filter (fun e => e_ID e ∉ ids) (xs_log g))))).

Definition ref_XTRIM (m : xdata) (k : bytes) (c : xcap) : bytes * xdata :=
  on_stream m k (Integer 0, m) (fun g =>
    (Integer (zlen (xs_log g) - zlen (cap_trimmed c (xs_log g))), put_stream m k (with_log g (cap_trimmed c (xs_log g))))).

(** XREAD with a count: up to that many entries above the id, of every stream that has any; a dollar sign is the last id. *)
Definition read_from (m : xdata) (k : bytes) (i : option StreamID) : StreamID :=
  default (match m !! k with Some (XStream g, _) => xs_last g | _ => ZeroID end) i.
Definition newer (m : xdata) (k : bytes) (start : StreamID) (count : Z) : list StreamEntry :=
  match m !! k with Some (XStream g, _) => limit count (filter (fun e => id_lt start (e_ID e)) (xs_log g)) | _ => [] end.
Definition named (k : bytes) (es : list StreamEntry) : list bytes := if bool_decide (es = []) then [] else [named_reply k es].
Definition ref_XREAD (m : xdata) (count : Z) (ks : list (bytes * option StreamID)) : bytes * xdata :=
  (Array (concat ((fun ki => named ki.1 (newer m ki.1 (read_from m ki.1 ki.2) count)) <$> ks)), m).

(** *** Consumer groups *)

Definition group_error (k g : bytes) : bytes := Error (str "NOGROUP No such consumer group '" ++ g ++ str "' for key name '" ++ k ++ str "'").

Definition ref_XGROUP_CREATE (m : xdata) (k name : bytes) (i : option StreamID) : bytes * xdata :=
  let m' := ensured m k true in
  on_stream m' k (OK, m') (fun g =>
    match xs_groups g !! name with
    | Some _ => (stream_error ErrGroupExists, m')
    | None => (OK, put_stream m' k (with_group g name (NewConsumerGroup name (default (xs_last g) i))))
    end).

Definition ref_XGROUP_SETID (m : xdata) (k name : bytes) (i : option StreamID) : bytes * xdata :=
  on_stream m k (Error (str "NOGROUP No such key '" ++ k ++ str "' or consumer group '" ++ name ++ str "'"), m) (fun g =>
    match xs_groups g !! name with
    | None => (group_error k name, m)
    | Some cg => (OK, put_stream m k (with_group g name (mkGroup (g_Name cg) (default (xs_last g) i) (g_Pel cg) (g_Consumers cg))))
    end).

Definition ref_XGROUP_DESTROY (m : xdata) (k name : bytes) : bytes * xdata :=
  on_stream m k (Integer 0, m) (fun g =>
    match xs_groups g !! name with
    | None => (Integer 0, m)
    | Some _ => (Integer 1, put_stream m k (mkXS (xs_log g) (xs_last g) (delete name (xs_groups g))))
    end).

(** The delivery of entries to consumer [c]: each becomes pending for it, unless it is not to be acknowledged, and moves the cursor. *)
Definition deliver_one (T : Z) (c : bytes) (noAck : bool) (cg : ConsumerGroup) (e : StreamEntry) : ConsumerGroup :=
  let cg := if noAck then cg else AddPending T cg c (e_ID e) in mkGroup (g_Name cg) (e_ID e) (g_Pel cg) (g_Consumers cg).
Definition deliver_all (T : Z) (c : bytes) (noAck : bool) (cg : ConsumerGroup) (es : list StreamEntry) : ConsumerGroup := foldl (deliver_one T c noAck) cg es.

(** What one stream of an XREADGROUP delivers and what it makes of the group. *)
Definition ref_deliver (T : Z) (c : bytes) (count : Z) (noAck : bool) (i : option StreamID) (l : list StreamEntry) (cg : ConsumerGroup) : list StreamEntry * ConsumerGroup :=
  match i with
  | None => let es := limit count (filter (fun e => id_lt (g_LastDeliveredID cg) (e_ID e)) l) in (es, deliver_all T c noAck cg es)
  | Some start =>
    (limit count (filter (fun e => id_lt start (e_ID e) /\ e_ID e ∈ default ∅ (c_Pel <$> g_Consumers cg !! c)) l), (GetOrCreateConsumer T cg c).1)
  end.

(** The streams in turn: an error ends the command, but what was delivered before it stays delivered. *)
Fixpoint ref_read_groups (T : Z) (m : xdata) (name c : bytes) (count : Z) (noAck : bool) (ks : list (bytes * option StreamID)) : (bytes + list bytes) * xdata :=
  match ks with
  | [] => (inr [], m)
  | (k, i) :: ks =>
    match m !! k with
    | None => ref_read_groups T m name c count noAck ks
    | Some (XForeign, _) => (inl wrongtype, m)
    | Some (XStream g, _) =>
      match xs_groups g !! name with
      | None => (inl (stream_error ErrGroupNotFound), m)
      | Some cg =>
        let r := ref_deliver T c count noAck i (xs_log g) cg in
        let x := ref_read_groups T (put_stream m k (with_group g name r.2)) name c count noAck ks in
        (match x.1 with inl e => inl e | inr rs => inr (named k r.1 ++ rs) end, x.2)
      end
    end
  end.
Definition ref_XREADGROUP (T : Z) (m : xdata) (name c : bytes) (count : option Z) (noAck : bool) (ks : list (bytes * option StreamID)) : bytes * xdata :=
  let x := ref_read_groups T m name c (default 0 count) noAck ks in (match x.1 with inl e => e | inr rs => Array rs end, x.2).

Definition ref_XACK (m : xdata) (k name : bytes) (ids : list StreamID) : bytes * xdata :=
  on_stream m k (Integer 0, m) (fun g =>
    match xs_groups g !! name with
    | None => (Integer 0, m)
    | Some cg => (Integer (Z.of_nat (size (acked cg ids))), put_stream m k (with_group g name (ack_loop cg ids).2))
    end).

(** The pending entries between two ids that are still in the log, with the consumer, the idle time and the deliveries of each. *)
Definition pending_of (T : Z) (cg : ConsumerGroup) (consumer : bytes) (e : StreamEntry) : option PendingReportEntry :=
  nack ← g_Pel cg !! e_ID e;
  if bool_decide (consumer = []) || bool_decide (n_ConsumerName nack = consumer)
  then Some (mkPending (e_ID e) (n_ConsumerName nack) (T - n_DeliveryTime nack) (n_DeliveryCount nack)) else None.
Definition pendings (T : Z) (cg : ConsumerGroup) (a b : StreamID) (count : Z) (consumer : bytes) (l : list StreamEntry) : list PendingReportEntry :=
  limit count (omap (pending_of T cg consumer) (filter (between a b) l)).
Definition ref_XPENDING (T : Z) (m : xdata) (k name : bytes) (a b : StreamID) (count : Z) (consumer : option bytes) : bytes * xdata :=
  on_stream m k (Array [], m) (fun g =>
    (Array (pending_reply <$> match xs_groups g !! name with None => [] | Some cg => pendings T cg a b count (default [] consumer) (xs_log g) end), m)).

(** The claimed ones are those pending for long enough; they become pending for [c]. *)
Definition ref_XCLAIM (T : Z) (m : xdata) (k name c : bytes) (minIdle : Z) (ids : list StreamID) : bytes * xdata :=
  on_stream m k (Array [], m) (fun g =>
    match xs_groups g !! name with
    | None => (entries_reply [], m)
    | Some cg =>
      let r := claim_loop T c minIdle ids cg ∅ in
      (entries_reply (filter (fun e => e_ID e ∈ r.2) (xs_log g)), put_stream m k (with_group g name r.1))
    end).

Definition ref_xcmd (T : Z) (m : xdata) (c : xcmd) : option (bytes * xdata) :=
  match c with
  | Xadd k nomk c i kvs => ref_XADD T m k nomk c i kvs
  | Xrange rv k a b n => Some (ref_XRANGE m rv k a b n)
  | Xlen k => Some (ref_XLEN m k)
  | Xdel k ids => Some (ref_XDEL m k ids)
  | Xtrim k c => Some (ref_XTRIM m k c)
  | Xread n ks => Some (ref_XREAD m n ks)
  | XgroupCreate k g i => Some (ref_XGROUP_CREATE m k g i)
  | XgroupSetid k g i => Some (ref_XGROUP_SETID m k g i)
  | XgroupDestroy k g => Some (ref_XGROUP_DESTROY m k g)
  | Xreadgroup g c n noAck ks => Some (ref_XREADGROUP T m g c n noAck ks)
  | Xack k g ids => Some (ref_XACK m k g ids)
  | Xpending k g a b n c => Some (ref_XPENDING T m k g a b n c)
  | Xclaim k g c n ids => Some (ref_XCLAIM T m k g c n ids)
  end.

(** ** Replies are arrays of arrays *)

Lemma mapM_seq {B C} (f : nat -> option B) (g : C -> B) (l : list C) :
  (forall i c, l !! i = Some c -> f i = Some (g c)) -> mapM f (seq 0 (length l)) = Some (g <$> l).
Proof.
  intros H. apply mapM_Some. apply Forall2_same_length_lookup_2; [by rewrite length_seq, length_fmap|].
  intros i x y Hx Hy. apply lookup_seq in Hx as [-> _]. rewrite list_lookup_fmap in Hy. destruct (l !! i) as [c|] eqn:E; [|done]. cbn in Hy. injection Hy as <-. by apply H.
Qed.

Lemma format_entry_ok e : paired e -> format_entry e = Some (entry_reply e).
Proof.
  intros Hp. unfold format_entry, format_pairs, entry_reply. set (ps := zip (e_Fields e) (e_Values e)).
  assert (length (e_Fields e) = length ps) as Hl by (unfold ps; rewrite length_zip_with, <- Hp; lia).
  rewrite Hl, (mapM_seq _ (fun p => BulkString p.1 ++ BulkString p.2) ps).
  - cbn [mbind option_bind]. assert (zip_with (fun f v => [BulkString f; BulkString v]) (e_Fields e) (e_Values e) = (fun p => [BulkString p.1; BulkString p.2]) <$> ps) as ->.
    { rewrite zip_with_zip. apply list_fmap_ext. by intros ? [] _. }
    assert (zlen (e_Fields e) * 2 = zlen (concat ((fun p => [BulkString p.1; BulkString p.2]) <$> ps))) as Hz.
    { unfold zlen. rewrite Hl. clear. induction ps as [|p ps IH]; [done|]. rewrite fmap_cons. cbn [concat app length]. lia. }
    rewrite Hz. assert (concat ((fun p => BulkString p.1 ++ BulkString p.2) <$> ps) = concat (concat ((fun p => [BulkString p.1; BulkString p.2]) <$> ps))) as ->.
    { clear. induction ps as [|p ps IH]; [done|]. rewrite !fmap_cons. cbn [concat app]. by rewrite IH, <- app_assoc. }
    unfold Array at 1. cbn [concat]. by rewrite app_nil_r.
  - intros i [f v] Hi. unfold ps in Hi. apply lookup_zip_with_Some in Hi as (? & ? & [= <- <-] & Hf & Hv). by rewrite Hf, Hv.
Qed.

Lemma formatStreamEntries_ok es : Forall paired es -> formatStreamEntries es = Some (entries_reply es).
Proof.
  intros Hp. unfold formatStreamEntries. case_bool_decide as He; [by subst|].
  assert (mapM format_entry es = Some (entry_reply <$> es)) as ->.
  { apply mapM_Some, Forall2_fmap_r. clear He. induction Hp as [|e es He _ IH]; constructor; [by apply format_entry_ok|done]. }
  cbn. unfold entries_reply, Array, zlen. by rewrite length_fmap.
Qed.

(** ** Arguments *)

Lemma ToUpper_head c l : 0 <= c < 97 -> exists r, ToUpper (c :: l) = c :: r.
Proof.
  intros Hc. assert (upper_byte c = c) as Hu by (unfold upper_byte; by rewrite (proj2 (Z.leb_gt 97 c)) by lia).
  destruct l as [|b l]; cbn [ToUpper]; [rewrite Hu; eauto|]. rewrite !(proj2 (Z.eqb_neq c _)) by lia. cbn [andb]. rewrite Hu. eauto.
Qed.

(** An argument that begins with no letter is no option. *)
Lemma no_option c l (opt : bytes) (d : Z) (r : bytes) : 0 <= c < 65 -> opt = d :: r -> 65 <= d -> bool_decide (ToUpper (c :: l) = opt) = false.
Proof. intros Hc -> Hd. destruct (ToUpper_head c l) as [r' ->]; [lia|]. apply bool_decide_eq_false. intros [= ? _]. lia. Qed.

Lemma String_head id : id_ok id -> exists c l, String_ id = c :: l /\ is_digit c.
Proof.
  intros [Hm _]. unfold String_. pose proof (FormatUint_digits (Ms id) ltac:(lia)) as Dm. pose proof (FormatUint_not_nil (Ms id) ltac:(lia)).
  destruct Dm as [|c l Hc _]; [done|]. exists c, (l ++ 45 :: FormatUint (Seq id)). done.
Qed.

Definition xid_ok (i : xid) : Prop := match i with IdAuto => True | IdSeq ms => 0 <= ms < 2 ^ 64 | IdExact id => id_ok id end.

Lemma xid_head i : xid_ok i -> exists c l, xid_arg i = c :: l /\ 42 <= c < 65.
Proof.
  destruct i as [|ms|id]; cbn [xid_ok xid_arg]; intros Hi.
  - exists 42, []. split; [done|lia].
  - pose proof (FormatUint_digits ms ltac:(lia)) as Dm. pose proof (FormatUint_not_nil ms ltac:(lia)).
    destruct (FormatUint ms) as [|c l]; [done|]. apply Forall_cons in Dm as [Hc _]. eexists _, _. split; [reflexivity|]. unfold is_digit in Hc. lia.
  - destruct (String_head id Hi) as (c & l & -> & Hc). exists c, l. split; [done|]. unfold is_digit in Hc. lia.
Qed.

Lemma ParseID_exact T id last : id_ok id -> ParseID T (String_ id) last = Some id.
Proof. intros []. by apply stream_id_roundtrip. Qed.

Lemma ParseID_xid T last i : xid_ok i -> ParseID T (xid_arg i) last = Some (new_id T last i).
Proof.
  destruct i as [|ms|id]; cbn [xid_arg new_id xid_ok]; intros Hi.
  - unfold ParseID. change (TrimSpace (str "*")) with (str "*"). change (bool_decide (str "*" = str "-")) with false. change (bool_decide (str "*" = str "+")) with false.
    change (bool_decide (str "*" = str "*")) with true. cbv beta iota zeta. unfold next_in. f_equal.
    replace (if u64 T <? Ms last then Ms last else u64 T) with (Z.max (u64 T) (Ms last)); [done|]. destruct (Z.ltb_spec (u64 T) (Ms last)); lia.
  - unfold ParseID. pose proof (FormatUint_digits ms ltac:(lia)) as Dm. pose proof (FormatUint_not_nil ms ltac:(lia)) as Hne.
    rewrite TrimSpace_plain.
    + destruct (FormatUint ms) as [|c l] eqn:Ef; [done|]. rewrite <- Ef in *. assert (is_digit c) as Hc by (rewrite Ef in Dm; by apply Forall_cons in Dm as [? _]).
      unfold is_digit in Hc. rewrite !bool_decide_false by (rewrite Ef; intros [=]; lia). rewrite split_dash_plain by done. cbn [split_dash app Z.eqb Pos.eqb str].
      change (str "*") with [42]. cbn [split_dash app Z.eqb Pos.eqb]. rewrite ParseUint_FormatUint by done. cbn [mbind option_bind]. done.
    + apply Forall_app. split; [|change (str "*") with [42]; repeat constructor; lia]. eapply Forall_impl; [exact Dm|]. unfold is_digit. intros z Hz. cbn in Hz. lia.
  - by apply ParseID_exact.
Qed.

Definition xbound_ok (b : xbound) : Prop := match b with BId id => id_ok id | _ => True end.

Lemma ParseID_bound T last b : xbound_ok b -> ParseID T (xbound_arg b) last = Some (bound_id b).
Proof. destruct b as [| |id]; intros Hb; [done|done|]. by apply ParseID_exact. Qed.

(** Lists of arguments that are read back in two halves. *)
Lemma halves_keys {B} (l : list B) (f : B -> bytes) (g : B -> bytes) :
  let rem := (f <$> l) ++ (g <$> l) in Nat.div2 (length rem) = length l /\ take (length l) rem = f <$> l /\ drop (length l) rem = g <$> l /\ unpaired rem = bool_decide (l = []).
Proof.
  cbv zeta. assert (length ((f <$> l) ++ (g <$> l)) = (2 * length l)%nat) as Hl by (rewrite length_app, !length_fmap; lia).
  split_and!.
  - by rewrite Hl, Nat.div2_double.
  - by rewrite take_app_length' by (by rewrite length_fmap).
  - by rewrite drop_app_length' by (by rewrite length_fmap).
  - unfold unpaired, zlen. rewrite Hl. replace (Z.of_nat (2 * length l)) with (Z.of_nat (length l) * 2) by lia. rewrite Z.rem_mul by lia. cbn [Z.eqb negb orb]. rewrite orb_false_r.
    destruct l; [done|]. rewrite bool_decide_false by done. cbn [length]. apply Z.eqb_neq. lia.
Qed.

(** ** Streams and the operations on their logs *)

Lemma Forall_kept {B} (Q P : B -> Prop) `{forall b, Decision (P b)} (l : list B) : Forall Q l -> Forall Q (filter P l).
Proof. rewrite !Forall_forall. intros Hl b [_ Hb]%list_elem_of_filter. by apply Hl. Qed.

Lemma filter_ext_in {B} (P Q : B -> Prop) `{forall b, Decision (P b)} `{forall b, Decision (Q b)} (l : list B) :
  (forall b, b ∈ l -> P b <-> Q b) -> filter P l = filter Q l.
Proof.
  induction l as [|b l IH]; intros Hl; [done|]. rewrite !filter_cons, IH by (intros c Hc; by apply Hl, list_elem_of_further).
  destruct (Hl b (list_elem_of_here _ _)). do 2 case_decide; tauto || done.
Qed.

Definition entry_lt (a b : StreamEntry) : Prop := id_lt (e_ID a) (e_ID b).

Section streams.
Context {A : Type} (U : gset bytes).
Implicit Types (st : Stream A).

Lemma recs_unpack st : stream_ok U st -> Forall (fun r => unpackEntry st r = Some (unpack (fields st) r)) (recs st).
Proof. intros [_ _ [_ Hr] _]. rewrite Forall_fmap in Hr. eapply Forall_impl; [exact Hr|]. intros r. apply unpackEntry_ok. Qed.

Lemma log_paired st : stream_ok U st -> Forall paired (log st).
Proof.
  intros [_ _ [_ Hr] _]. apply Forall_fmap, Forall_kept. rewrite Forall_fmap in Hr. eapply Forall_impl; [exact Hr|]. intros r (_ & Hl & _).
  unfold paired. cbn in *. by rewrite length_fmap.
Qed.

Lemma sorted_filter {B} (R : relation B) (P : B -> Prop) `{forall b, Decision (P b)} l : StronglySorted R l -> StronglySorted R (filter P l).
Proof.
  induction 1 as [|b l _ IH Hb]; [constructor|]. rewrite filter_cons. case_decide; [|done]. constructor; [done|]. by apply Forall_kept.
Qed.

Lemma log_sorted st : stream_ok U st -> StronglySorted entry_lt (log st).
Proof.
  intros [_ _ [Hs _] _]. apply sorted_cores in Hs. unfold log. assert (StronglySorted rec_lt (StreamSpec.live (recs st))) as Hl by (by apply sorted_filter).
  revert Hl. generalize (StreamSpec.live (recs st)). induction l as [|r l IH]; intros Hl; [constructor|].
  apply StronglySorted_cons in Hl as [Hr Hl]. constructor; [auto|]. by apply Forall_fmap.
Qed.

Lemma is_stream_groups st g gs : is_stream U st g -> is_stream U (with_groups st gs) (mkXS (xs_log g) (xs_last g) gs).
Proof. intros [[] ? ? ? ? ?]. by split; [split|..]. Qed.

Lemma is_stream_same st g : is_stream U st g -> is_stream U st (with_log g (xs_log g)).
Proof. intros []. by split. Qed.

Lemma is_stream_len st g : is_stream U st g -> Stream.Len st = zlen (xs_log g).
Proof. intros [Hok <- _ _ _ _]. symmetry. by eapply zlen_log. Qed.

Lemma is_stream_paired st g : is_stream U st g -> Forall paired (xs_log g).
Proof. intros [Hok <- _ _ _ _]. by apply log_paired. Qed.

Lemma is_stream_sorted st g : is_stream U st g -> StronglySorted entry_lt (xs_log g).
Proof. intros [Hok <- _ _ _ _]. by apply log_sorted. Qed.

(** The change of the log by an operation that keeps some of its entries. *)
Lemma is_stream_shrunk st st' g l :
  is_stream U st g -> stream_ok U st' -> log st' = l -> lastID st' = lastID st -> cgroups st' = cgroups st -> (forall e, e ∈ l -> e ∈ xs_log g) ->
  is_stream U st' (with_log g l).
Proof.
  intros [Hok Hl Hi Hg Hids Hlast] Hok' Hl' Hi' Hg' Hsub. split; cbn; [done|done|congruence|congruence| |done].
  rewrite Forall_forall in *. intros e He. by apply Hids, Hsub.
Qed.

Lemma is_stream_delete st g ids :
  is_stream U st g -> exists st', Delete st ids = (zlen (filter (fun e => e_ID e ∈ ids) (xs_log g)), st') /\
    is_stream U st' (with_log g (filter (fun e => e_ID e ∉ ids) (xs_log g))).
Proof.
  intros H. destruct (Delete_spec U st ids (is_ok _ _ _ H)) as (st' & Ed & Hok & Hl & Hi & Hg). rewrite (is_log _ _ _ H) in Ed, Hl. exists st'. split; [done|].
  eapply is_stream_shrunk; [exact H|done|done|done|done|]. by intros e [_ ?]%list_elem_of_filter.
Qed.

Lemma is_stream_trim st g n approx :
  is_stream U st g -> exists st', Trim st n approx = Some (zlen (xs_log g) - zlen (keep_last n (xs_log g)), st') /\ is_stream U st' (with_log g (keep_last n (xs_log g))).
Proof.
  intros H. destruct (Trim_spec U st n approx (is_ok _ _ _ H)) as (st' & Et & Hok & Hl & Hi & Hg). rewrite Hl, (is_log _ _ _ H) in Et. rewrite (is_log _ _ _ H) in Hl. exists st'. split; [done|].
  eapply is_stream_shrunk; [exact H|done|done|done|done|]. intros e. unfold keep_last. intros He. rewrite <- (take_drop (Z.to_nat (zlen (xs_log g) - Z.max 0 n)) (xs_log g)). apply elem_of_app. by right.
Qed.

Lemma zero_least id : id_ok id -> ~ id_lt id ZeroID.
Proof. unfold id_ok, id_lt. cbn. lia. Qed.

Lemma max_greatest id : id_ok id -> ~ id_lt MaxID id.
Proof. unfold id_ok, id_lt. cbn. lia. Qed.

Lemma is_stream_min st g id (fresh : A) (alloc : A -> Z -> option A) :
  is_stream U st g -> exists st', trimBelowMinID st id = Some st' /\ is_stream U st' (with_log g (not_below id (xs_log g))).
Proof.
  intros H. unfold trimBelowMinID. rewrite (Range_spec fresh alloc U st) by apply H. cbn [mbind option_bind]. rewrite (is_log _ _ _ H). change (limit 0 ?l) with l.
  set (ids := filter _ _). assert (forall e, e ∈ xs_log g -> e_ID e ∈ ids <-> id_lt (e_ID e) id) as Hids.
  { intros e He. unfold ids. rewrite list_elem_of_filter, Compare_lt, list_elem_of_fmap. split; [by intros []|]. intros Hlt. split; [done|]. exists e. split; [done|].
    apply list_elem_of_filter. split; [|done]. pose proof (is_ids _ _ _ H) as Hi. rewrite Forall_forall in Hi. split; [by apply zero_least, Hi|]. intros ?. by eapply id_lt_irrefl, id_lt_trans. }
  assert (filter (fun e => e_ID e ∉ ids) (xs_log g) = not_below id (xs_log g)) as Hf.
  { unfold not_below. apply filter_ext_in. intros e He. by rewrite Hids. }
  destruct (Z.ltb_spec 0 (zlen ids)) as [Hl|Hl].
  - destruct (is_stream_delete st g ids H) as (st' & -> & Hst'). exists st'. split; [done|]. by rewrite <- Hf.
  - exists st. split; [done|]. rewrite <- Hf. destruct ids as [|i ids']; [|rewrite zlen_cons in Hl; zlen_pose; lia].
    rewrite filter_all; [by apply is_stream_same|]. apply Forall_forall. intros e _. apply not_elem_of_nil.
Qed.

(** *** Adding *)

Lemma unpair_flat kvs : unpair (flat kvs) = (kvs.*1, kvs.*2).
Proof. induction kvs as [|[f v] kvs IH]; [done|]. rewrite flat_cons. cbn [unpair fst snd]. by rewrite IH. Qed.

Lemma is_stream_add (fresh : A) alloc st g id kvs n approx :
  few U -> is_stream U st g -> id_ok id -> Forall (.∈ U) kvs.*1 -> fits fresh alloc kvs.*2 -> id_lt (xs_last g) id ->
  exists st', AddRaw fresh alloc st id (flat kvs) n approx = Some (inr id, st') /\
    let l := xs_log g ++ [mkSE id kvs.*1 kvs.*2] in is_stream U st' (mkXS (if 0 <? n then keep_last n l else l) id (xs_groups g)).
Proof.
  intros HU H Hid Hn Hf Hlt. unfold AddRaw. rewrite unpair_flat. destruct H as [Hok Hl Hi Hg Hids Hlast]. rewrite <- Hi in Hlt.
  destruct (stream_Add_spec fresh alloc U HU st id kvs.*1 kvs.*2 n approx Hok) as (st' & -> & Hok' & Hl' & Hi' & Hg'); [|done|].
  { split_and!; [by rewrite !length_fmap|done|done]. }
  exists st'. split; [done|]. cbv zeta in *. rewrite Hl in Hl'. split; cbn; [done|done|done|congruence| |done].
  assert (Forall (fun e => id_ok (e_ID e)) (xs_log g ++ [mkSE id kvs.*1 kvs.*2])) as Hall by (apply Forall_app; split; [done|by apply Forall_singleton]).
  destruct (0 <? n); [|done]. unfold keep_last. by apply Forall_drop.
Qed.

Lemma is_stream_refused (fresh : A) alloc st g id kvs n approx :
  is_stream U st g -> ~ id_lt (xs_last g) id -> xs_log g <> [] -> AddRaw fresh alloc st id (flat kvs) n approx = Some (inl ErrInvalidStreamID, st).
Proof.
  intros H Hid Hne. unfold AddRaw. rewrite unpair_flat. apply (Add_refused fresh alloc U); [apply H|by rewrite (is_last _ _ _ H)|by rewrite (is_log _ _ _ H)].
Qed.

(** *** Consumer groups *)

Lemma deliver_loop_group st now c count noAck rs cg result result' cg' :
  deliver_loop st now c count noAck rs cg result = Some (result', cg') -> exists es, result' = result ++ es /\ cg' = deliver_all now c noAck cg es.
Proof.
  revert cg result. induction rs as [|r rs IH]; intros cg result E; cbn [deliver_loop] in E.
  { injection E as <- <-. exists []. by rewrite app_nil_r. }
  destruct (r_Deleted r || _); [by apply IH|]. destruct (unpackEntry st r) as [e|] eqn:Eu; [|done]. cbn [mbind option_bind] in E.
  assert (e_ID e = r_ID r) as Hid. { unfold unpackEntry in Eu. destruct (mapM _ _); [|done]. by injection Eu as <-. }
  set (cg1 := mkGroup _ _ _ _) in E. assert (cg1 = deliver_one now c noAck cg e) as Ec by (unfold cg1, deliver_one; by rewrite Hid). clearbody cg1. subst cg1.
  destruct ((0 <? count) && _).
  - injection E as <- <-. by exists [e].
  - destruct (IH _ _ E) as (es & -> & ->). exists (e :: es). by rewrite <- app_assoc.
Qed.

Lemma is_stream_read st g T name c count noAck cg i :
  is_stream U st g -> xs_groups g !! name = Some cg ->
  let r := ref_deliver T c count noAck i (xs_log g) cg in
  exists st', ReadGroup st T name c (default ZeroID i) (bool_decide (i = None)) count noAck = Some (inr r.1, st') /\ is_stream U st' (with_group g name r.2).
Proof.
  intros H Hg. pose proof H as [Hok Hl Hi Hgs _ _]. rewrite <- Hgs in Hg. destruct i as [start|]; cbn [default ref_deliver fst snd].
  - rewrite bool_decide_false by done. destruct (history_returns_own_pending U st T name c start count noAck cg Hok Hg) as (cg' & Er & _ & _).
    exists (with_groups st (<[name := (GetOrCreateConsumer T cg c).1]> (cgroups st))). split; [|unfold with_group; rewrite <- Hgs; by apply is_stream_groups].
    unfold owned in Er. rewrite Hl in Er. unfold ReadGroup in Er |- *. rewrite Hg in Er |- *. destruct (GetOrCreateConsumer T cg c) as [cg1 con]. cbn [fst].
    destruct (history_loop _ _ _ _ _ _) as [es|]; [|done]. cbn [mbind option_bind] in Er |- *. by injection Er as -> _.
  - rewrite bool_decide_true by done. destruct (ReadGroup_new name U st T c count noAck cg Hok Hg) as (es & cg' & Er & Hes & _ & _).
    unfold undelivered in Hes. rewrite Hl in Hes. rewrite <- Hes.
    exists (with_groups st (<[name := cg']> (cgroups st))). split; [done|]. unfold with_group. rewrite <- Hgs.
    unfold ReadGroup in Er. rewrite Hg in Er. destruct (deliver_loop _ _ _ _ _ _ _ _) as [[es' cg1]|] eqn:Ed; [|done]. cbn [mbind option_bind] in Er.
    injection Er as <- Ecg. apply deliver_loop_group in Ed as (es & -> & ->). rewrite app_nil_l in *.
    assert (cg' = deliver_all T c noAck cg es) as ->; [|by apply is_stream_groups].
    apply (f_equal (fun gs => gs !! name)) in Ecg. rewrite !lookup_insert_eq in Ecg. by injection Ecg.
Qed.

(** The report loop stops at the first id past the range; after that none can be in it. *)
Lemma pending_loop_ok T cg a b count consumer fs rs result :
  StronglySorted rec_lt rs -> (0 < count -> zlen result < count) ->
  pending_loop T cg a b count consumer rs result = limit count (result ++ omap (pending_of T cg consumer) (filter (between a b) (unpack fs <$> StreamSpec.live rs))).
Proof.
  revert result. induction rs as [|r rs IH]; intros result Hs Hc; cbn [pending_loop].
  { change (unpack fs <$> StreamSpec.live []) with (@nil StreamEntry). cbn. by rewrite app_nil_r, limit_room. }
  apply StronglySorted_cons in Hs as [Hr Hs]. unfold StreamSpec.live. rewrite filter_cons. destruct (r_Deleted r) eqn:Hd; cbn [orb].
  { rewrite decide_False by done. by apply IH. }
  rewrite decide_True by done. rewrite fmap_cons. fold (StreamSpec.live rs). destruct (Compare (r_ID r) a <? 0) eqn:Ha.
  { apply Compare_lt in Ha. rewrite filter_cons_False by (intros [? _]; done). by apply IH. }
  destruct (0 <? Compare (r_ID r) b) eqn:Hb.
  { apply Compare_gt in Hb. rewrite filter_cons_False by (intros [_ ?]; done). rewrite filter_none; [cbn; by rewrite app_nil_r, limit_room|].
    apply Forall_fmap, Forall_kept. eapply Forall_impl; [exact Hr|]. intros r' Hlt [_ Hn]. apply Hn. cbn. by eapply id_lt_trans. }
  rewrite filter_cons_True by (split; cbn [e_ID unpack]; [by rewrite <- Compare_lt, Ha|by rewrite <- Compare_gt, Hb]).
  match goal with |- context [omap ?f (?y :: ?l)] => change (omap f (y :: l)) with (match f y with Some z => z :: omap f l | None => omap f l end) end.
  change (pending_of T cg consumer (unpack fs r)) with
    (nack ← g_Pel cg !! r_ID r; if bool_decide (consumer = []) || bool_decide (n_ConsumerName nack = consumer)
       then Some (mkPending (r_ID r) (n_ConsumerName nack) (T - n_DeliveryTime nack) (n_DeliveryCount nack)) else None).
  destruct (g_Pel cg !! r_ID r) as [nack|]; cbn [mbind option_bind]; [|by apply IH]. destruct (bool_decide _ || bool_decide _); [|by apply IH].
  rewrite zlen_app, zlen_cons, zlen_nil.
  destruct ((0 <? count) && _) eqn:Hcount; bool_prop; [by rewrite limit_full by lia|].
  rewrite IH; [by rewrite <- app_assoc|done|]. rewrite zlen_app, zlen_cons, zlen_nil. lia.
Qed.

Lemma is_stream_pending st g T name a b count consumer :
  is_stream U st g -> Pending st T name a b count consumer = match xs_groups g !! name with None => [] | Some cg => pendings T cg a b count consumer (xs_log g) end.
Proof.
  intros [[_ _ [Hs _] _] Hl _ Hg _ _]. unfold Pending. rewrite Hg. destruct (xs_groups g !! name) as [cg|]; [|done]. change (all_recs st) with (recs st).
  rewrite (pending_loop_ok _ _ _ _ _ _ (fields st)); [|by apply sorted_cores|rewrite zlen_nil; lia]. unfold pendings. rewrite app_nil_l. unfold log in Hl. by rewrite Hl.
Qed.

Lemma is_stream_claim st g T name c minIdle ids cg :
  is_stream U st g -> xs_groups g !! name = Some cg ->
  let r := claim_loop T c minIdle ids cg ∅ in
  exists st', Claim st T name c minIdle ids = Some (filter (fun e => e_ID e ∈ r.2) (xs_log g), st') /\ is_stream U st' (with_group g name r.1).
Proof.
  intros H Hg. pose proof H as [Hok Hl Hi Hgs _ _]. rewrite <- Hgs in Hg. unfold Claim. rewrite Hg. destruct (claim_loop _ _ _ _ _ _) as [cg' claimed]. cbn [fst snd].
  change (all_recs st) with (recs st).
  assert (mapM (unpackEntry st) (filter (fun r => r_Deleted r = false /\ r_ID r ∈ claimed) (recs st)) = Some (filter (fun e => e_ID e ∈ claimed) (xs_log g))) as ->.
  { rewrite <- Hl. unfold log. rewrite filter_fmap. apply mapM_Some, Forall2_fmap_r. unfold StreamSpec.live. rewrite list_filter_filter.
    rewrite (list_filter_iff _ (fun r => r_ID r ∈ claimed /\ r_Deleted r = false)) by (intros; tauto). apply Forall_Forall2_diag, Forall_kept. by apply recs_unpack. }
  cbn [mbind option_bind]. eexists. split; [done|]. unfold with_group. rewrite <- Hgs. by apply is_stream_groups.
Qed.

End streams.

(** ** The handlers *)

Definition xcap_ok (c : xcap) : Prop := match c with CapLen _ n => is_int64 n | CapMin _ id => id_ok id end.
Definition from_ok (i : option StreamID) : Prop := match i with Some id => id_ok id | None => True end.

Definition xcmd_ok {A} (fresh : A) (alloc : A -> Z -> option A) (U : gset bytes) (c : xcmd) : Prop :=
  match c with
  | Xadd _ _ c i kvs => kvs <> [] /\ Forall (.∈ U) kvs.*1 /\ fits fresh alloc kvs.*2 /\ xid_ok i /\ match c with Some c => xcap_ok c | None => True end
  | Xrange _ _ a b n => xbound_ok a /\ xbound_ok b /\ match n with Some n => 0 <= n /\ is_int64 n | None => True end
  | Xlen _ | XgroupDestroy _ _ => True
  | Xdel _ ids | Xack _ _ ids => Forall id_ok ids
  | Xtrim _ c => xcap_ok c
  | Xread n ks => 0 < n < max_int64 /\ ks <> [] /\ Forall from_ok ks.*2
  | XgroupCreate _ _ i | XgroupSetid _ _ i => from_ok i
  | Xreadgroup _ _ n _ ks => match n with Some n => is_int64 n | None => True end /\ ks <> [] /\ Forall from_ok ks.*2
  | Xpending _ _ a b n _ => id_ok a /\ id_ok b /\ is_int64 n
  | Xclaim _ _ _ n ids => is_int64 n /\ Forall id_ok ids
  end.

Lemma new_id_ok T last i : id_ok last -> xid_ok i -> id_ok (new_id T last i).
Proof.
  assert (forall z, 0 <= u64 z < 2 ^ 64) as Hu by (intros; unfold u64; by apply Z.mod_pos_bound).
  intros [Hm Hs] Hi. assert (forall ms, 0 <= ms < 2 ^ 64 -> id_ok (next_in last ms)) as Hn.
  { intros ms Hms. split; cbn; [done|]. destruct (ms =? Ms last); [apply Hu|lia]. }
  destruct i as [|ms|id]; cbn in *; [apply Hn; pose proof (Hu T); lia|by apply Hn|done].
Qed.

(** *** The entries past an id *)

Lemma after_start_spec start n es filtered :
  0 < n -> zlen filtered < n -> after_start start n es filtered = limit n (filtered ++ filter (fun e => id_lt start (e_ID e)) es).
Proof.
  intros Hn. revert filtered. induction es as [|e es IH]; intros filtered Hf; cbn [after_start].
  { rewrite filter_nil, app_nil_r, limit_room; [done|lia]. }
  destruct (0 <? Compare (e_ID e) start) eqn:Hc; [apply Compare_gt in Hc; rewrite filter_cons_True by done|rewrite filter_cons_False; [by apply IH|by rewrite <- Compare_gt, Hc]].
  rewrite (proj2 (Z.ltb_lt 0 n)) by done. cbn [andb]. rewrite zlen_app, zlen_cons, zlen_nil.
  destruct (n <=? _) eqn:Hle; bool_prop; [by rewrite limit_full by lia|]. rewrite IH; [by rewrite <- app_assoc|]. rewrite zlen_app, zlen_cons, zlen_nil. lia.
Qed.

(** From an id on and past it differ in the entry with that id. *)
Lemma from_start start l :
  StronglySorted entry_lt l ->
  let past := filter (fun e => id_lt start (e_ID e)) l in
  filter (fun e => ~ id_lt (e_ID e) start) l = past \/ exists e, e_ID e = start /\ filter (fun e => ~ id_lt (e_ID e) start) l = e :: past.
Proof.
  assert (forall a b c, ~ id_lt a b -> id_lt a c -> id_lt b c) as Htr by (unfold id_lt; lia).
  assert (forall a b, ~ id_lt a b -> ~ id_lt b a -> a = b) as Heq by (intros [] [] ? ?; unfold id_lt in *; cbn in *; f_equal; lia).
  assert (forall l', Forall (fun e => id_lt start (e_ID e)) l' -> filter (fun e => ~ id_lt (e_ID e) start) l' = l') as Hall.
  { intros l' Hl'. apply filter_all. eapply Forall_impl; [exact Hl'|]. intros e He Hn. by eapply id_lt_irrefl, id_lt_trans. }
  cbv zeta. induction 1 as [|e l _ IH He]; [by left|]. assert (~ id_lt (e_ID e) start -> Forall (fun e => id_lt start (e_ID e)) l) as Hrest.
  { intros Hn. eapply Forall_impl; [exact He|]. intros e' Hlt. by eapply Htr. }
  destruct (decide (id_lt (e_ID e) start)) as [Hlt|Hlt].
  { rewrite (filter_cons_False _ e l) by tauto. rewrite (filter_cons_False (fun e => id_lt start (e_ID e))); [exact IH|]. intros ?. by eapply id_lt_irrefl, id_lt_trans. }
  rewrite (filter_cons_True _ e l) by done. rewrite (Hall l (Hrest Hlt)). destruct (decide (id_lt start (e_ID e))) as [Hgt|Hgt].
  - left. rewrite filter_cons_True by done. by rewrite (filter_all (fun e => id_lt start (e_ID e)) l (Hrest Hlt)).
  - right. exists e. split; [by apply Heq|]. rewrite filter_cons_False by done. by rewrite (filter_all (fun e => id_lt start (e_ID e)) l (Hrest Hlt)).
Qed.

Lemma filtered_ok start n l :
  0 < n < max_int64 -> Forall (fun e => id_ok (e_ID e)) l -> StronglySorted entry_lt l ->
  after_start start n (limit (s64 (n + 1)) (filter (between start MaxID) l)) [] = limit n (filter (fun e => id_lt start (e_ID e)) l).
Proof.
  intros Hn Hids Hs. rewrite after_start_spec by (rewrite ?zlen_nil; lia). rewrite app_nil_l, s64_id by (unfold is_int64, min_int64, max_int64 in *; lia).
  rewrite (filter_ext_in (between start MaxID) (fun e => ~ id_lt (e_ID e) start)).
  2: { intros e He. rewrite Forall_forall in Hids. pose proof (max_greatest (e_ID e) (Hids e He)). unfold between. tauto. }
  unfold limit. rewrite !(proj2 (Z.ltb_lt 0 _)) by lia. replace (Z.to_nat (n + 1)) with (S (Z.to_nat n)) by lia.
  pose proof (from_start start l Hs) as Hf. cbv zeta in Hf. set (past := filter (fun e => id_lt start (e_ID e)) l) in *.
  assert (forall k, filter (fun e => id_lt start (e_ID e)) (take k past) = take k past) as Hp.
  { intros k. apply filter_all, Forall_take. apply Forall_forall. by intros e [? _]%list_elem_of_filter. }
  destruct Hf as [->|(e & He & ->)].
  - by rewrite Hp, take_take, Nat.min_l by lia.
  - cbn [take]. rewrite filter_cons_False by (rewrite He; apply id_lt_irrefl). by rewrite Hp, take_take, Nat.min_id.
Qed.

Section commands.
Context (E : env) (T : Z) {A : Type} (fresh : A) (alloc : A -> Z -> option A) (U : gset bytes).
Hypothesis Hclk : instant E T.
Hypothesis HU : few U.
Implicit Types (x : XSt A).

Definition xdoes (h : XM A bytes) x (r : bytes * xdata) : Prop := xwp h x (fun b x' => b = r.1 /\ stream_rel U T r.2 x').

Lemma parse_at m x k l st g b last (Q : option StreamID -> XSt A -> Prop) :
  at_key U T m x k l st g -> (forall x', at_key U T m x' k l st g -> Q (ParseID T b last) x') -> xwp (parse_id E b last) x Q.
Proof using Hclk. intros H HQ. eapply (parse_id_rule E T U Hclk m); [apply H|]. intros x' H' Es Ev. apply HQ. by eapply at_key_same. Qed.

Lemma clock_at m x k l st g (Q : Z -> XSt A -> Prop) :
  at_key U T m x k l st g -> (forall x', at_key U T m x' k l st g -> Q T x') -> xwp (unix_ms E) x Q.
Proof using Hclk. intros H HQ. eapply (unix_ms_rule E T U Hclk m); [apply H|]. intros x' H' Es Ev. apply HQ. by eapply at_key_same. Qed.

Lemma parse_ids_at m x k l st g ids (Q : list StreamID -> XSt A -> Prop) :
  Forall id_ok ids -> at_key U T m x k l st g -> (forall x', at_key U T m x' k l st g -> Q ids x') -> xwp (parse_ids E (String_ <$> ids)) x Q.
Proof using Hclk.
  intros Hids. revert x Q. induction Hids as [|id ids Hid _ IH]; intros x Q H HQ; [by apply xwp_ret, HQ|].
  rewrite fmap_cons. cbn [parse_ids]. apply xwp_bind. eapply parse_at; [exact H|]. intros x1 H1. rewrite ParseID_exact by done. apply xwp_bind.
  apply IH; [exact H1|]. intros x2 H2. apply xwp_ret. by apply HQ.
Qed.

(** A command on the stream at a key, with an answer of its own when there is none. *)
Lemma on_stream_rule m x k none f (h : nat -> XM A bytes) :
  stream_rel U T m x ->
  (forall g e l st x', m !! k = Some (XStream g, e) -> at_key U T m x' k l st g -> xdoes (h l) x' (f g)) ->
  xdoes (r ← getOrCreateStream E k false; match r with inl e => mret e | inr None => mret none | inr (Some l) => h l end) x (on_stream m k (none, m) f).
Proof using Hclk.
  intros H Hh. apply xwp_bind. apply (getOrCreateStream_rule E T U Hclk m); [done|]. assert (ensured m k false = m) as -> by (unfold ensured; by destruct (m !! k)).
  unfold on_stream. destruct (m !! k) as [[[g|] e]|] eqn:Em.
  - intros l st x' Hat. by eapply Hh.
  - intros x' H'. apply xwp_ret. by split.
  - intros x' H'. apply xwp_ret. by split.
Qed.

Lemma replied x m b : stream_rel U T m x -> xdoes (mret b) x (b, m).
Proof. intros H. apply xwp_ret. by split. Qed.

Lemma stream_stored m x k l st g st' g' b : at_key U T m x k l st g -> is_stream U st' g' -> xdoes (_ ← store_stream l st'; mret b) x (b, put_stream m k g').
Proof. intros H Hi. apply xwp_bind. eapply store_rule_at; [exact H|exact Hi|]. intros x' H'. apply xwp_ret. split; [done|apply H']. Qed.

(** A store that changes nothing a client can see. *)
Lemma restored m x k l st g e b : at_key U T m x k l st g -> m !! k = Some (XStream g, e) -> xdoes (_ ← store_stream l st; mret b) x (b, m).
Proof. intros H Em. rewrite <- (put_stream_same m k g e Em). eapply stream_stored; [exact H|apply H]. Qed.

Lemma xlen_ok m x k : stream_rel U T m x -> xdoes (xlenCommand E [str "XLEN"; k]) x (ref_XLEN m k).
Proof using Hclk.
  intros H. apply (xwp_arg _ _ k); [done|]. apply (on_stream_rule m x k (Integer 0)); [done|]. intros g e l st x' Em Hat. apply xwp_bind. eapply load_rule_at; [exact Hat|].
  rewrite (is_stream_len U st g (ak_is Hat)). apply replied, Hat.
Qed.

Lemma xrange_ok m x rv k a b n :
  stream_rel U T m x -> xbound_ok a -> xbound_ok b -> match n with Some n => 0 <= n /\ is_int64 n | None => True end ->
  xdoes (genericRange E (xargs (Xrange rv k a b n)) rv) x (ref_XRANGE m rv k a b n).
Proof using Hclk fresh alloc.
  intros H Ha Hb Hn. apply (xwp_arg _ _ k); [done|]. apply (xwp_arg _ _ (xbound_arg a)); [done|]. apply (xwp_arg _ _ (xbound_arg b)); [done|].
  apply xwp_bind. eapply (xwp_mono _ _ (fun c x' => c = Some (default 0 n) /\ x' = x)).
  { cbn [xargs xcount_args]. destruct n as [n|]; cbn [xcount_args]; [|by apply xwp_ret]. rewrite !zlen_cons, zlen_nil. cbn [Z.leb Z.compare Z.add Pos.add Pos.compare Pos.compare_cont Pos.succ].
    apply (xwp_arg _ _ (str "COUNT")); [done|]. keyword. apply (xwp_arg _ _ (FormatInt n)); [done|]. apply xwp_ret. destruct Hn as [Hn Hi].
    rewrite ParseInt_FormatInt by done. rewrite (proj2 (Z.ltb_ge n 0)) by done. done. }
  intros c x' [-> ->]. cbn [default]. apply (on_stream_rule m x k (Array [])); [done|]. intros g e l st x1 Em Hat.
  apply xwp_bind. eapply parse_at; [exact Hat|]. intros x2 H2. rewrite ParseID_bound by done. apply xwp_bind. eapply parse_at; [exact H2|]. intros x3 H3. rewrite ParseID_bound by done.
  apply xwp_bind. eapply load_rule_at; [exact H3|]. apply xwp_bind. eapply xwp_pure; [apply (Range_spec fresh alloc U); apply H3|].
  eapply xwp_pure; [apply formatStreamEntries_ok|].
  - pose proof (is_stream_paired U st g (ak_is H3)) as Hp. rewrite (is_log _ _ _ (ak_is H3)). unfold limit. destruct (0 <? default 0 n); [apply Forall_take|]; destruct rv; apply Forall_kept; try apply Forall_rev; done.
  - rewrite (is_log _ _ _ (ak_is H3)). split; [done|apply H3].
Qed.

Lemma xdel_ok m x k ids : stream_rel U T m x -> Forall id_ok ids -> xdoes (xdelCommand E (xargs (Xdel k ids))) x (ref_XDEL m k ids).
Proof using Hclk.
  intros H Hids. apply (xwp_arg _ _ k); [done|]. apply (on_stream_rule m x k (Integer 0)); [done|]. intros g e l st x1 Em Hat.
  apply xwp_bind. eapply parse_ids_at; [exact Hids|exact Hat|]. intros x2 H2. apply xwp_bind. eapply load_rule_at; [exact H2|].
  destruct (is_stream_delete U st g ids (ak_is H2)) as (st' & -> & Hi). by eapply stream_stored.
Qed.

Lemma xtrim_ok m x k c : stream_rel U T m x -> xcap_ok c -> xdoes (xtrimCommand E (xargs (Xtrim k c))) x (ref_XTRIM m k c).
Proof using Hclk fresh alloc.
  intros H Hc. apply (xwp_arg _ _ k); [done|]. destruct c as [a n|a id]; cbn [xargs xcap_args] in *.
  - apply (xwp_arg _ _ (str "MAXLEN")); [done|]. cbv zeta. keyword. cbn [negb andb drop].
    assert (eq_or_tilde (approx_arg a) = true /\ is_tilde (approx_arg a) = a) as [-> ->] by by destruct a. cbv beta iota. rewrite ParseInt_FormatInt by done.
    apply (on_stream_rule m x k (Integer 0)); [done|]. intros g e l st x1 Em Hat. apply xwp_bind. eapply load_rule_at; [exact Hat|].
    destruct (is_stream_trim U st g n a (ak_is Hat)) as (st' & Et & Hi). apply xwp_bind. eapply xwp_pure; [exact Et|]. by eapply stream_stored.
  - apply (xwp_arg _ _ (str "MINID")); [done|]. cbv zeta. keyword. cbn [negb andb drop].
    assert (eq_or_tilde (approx_arg a) = true) as -> by by destruct a. cbv beta iota.
    apply xwp_bind. apply (parse_id_rule E T U Hclk m); [done|]. intros x0 H0 _ _. rewrite ParseID_exact by done.
    apply (on_stream_rule m x0 k (Integer 0)); [done|]. intros g e l st x1 Em Hat. apply xwp_bind. eapply load_rule_at; [exact Hat|].
    destruct (is_stream_min U st g id fresh alloc (ak_is Hat)) as (st' & Et & Hi). apply xwp_bind. eapply xwp_pure; [exact Et|].
    rewrite (is_stream_len U st g (ak_is Hat)), (is_stream_len U st' _ Hi). by eapply stream_stored.
Qed.

(** *** Consumer groups *)

Lemma ack_count cg ids : (ack_loop cg ids).1 = Z.of_nat (size (acked cg ids)).
Proof. destruct (ack_loop_spec ids cg) as (cg' & -> & _). done. Qed.

Lemma xack_ok m x k name ids : stream_rel U T m x -> Forall id_ok ids -> xdoes (xackCommand E (xargs (Xack k name ids))) x (ref_XACK m k name ids).
Proof using Hclk.
  intros H Hids. apply (xwp_arg _ _ k); [done|]. apply (xwp_arg _ _ name); [done|]. apply (on_stream_rule m x k (Integer 0)); [done|]. intros g e l st x1 Em Hat.
  apply xwp_bind. eapply parse_ids_at; [exact Hids|exact Hat|]. intros x2 H2. apply xwp_bind. eapply load_rule_at; [exact H2|].
  unfold Ack. rewrite (is_groups _ _ _ (ak_is H2)). destruct (xs_groups g !! name) as [cg|]; [|by eapply restored].
  rewrite <- ack_count. destruct (ack_loop cg ids) as [n cg']. cbn [fst snd]. eapply stream_stored; [exact H2|]. apply is_stream_groups, H2.
Qed.

Lemma xpending_ok m x k name a b n c :
  stream_rel U T m x -> id_ok a -> id_ok b -> is_int64 n -> xdoes (xpendingCommand E (xargs (Xpending k name a b n c))) x (ref_XPENDING T m k name a b n c).
Proof using Hclk.
  intros H Ha Hb Hn. apply (xwp_arg _ _ k); [done|]. apply (xwp_arg _ _ name); [done|]. apply (on_stream_rule m x k (Array [])); [done|]. intros g e l st x1 Em Hat.
  assert ((6 <=? zlen (xargs (Xpending k name a b n c))) = true) as -> by by destruct c. apply xwp_bind.
  apply (xwp_arg _ _ (String_ a)); [done|]. apply xwp_bind. eapply parse_at; [exact Hat|]. intros x2 H2. rewrite ParseID_exact by done.
  apply (xwp_arg _ _ (String_ b)); [done|]. apply xwp_bind. eapply parse_at; [exact H2|]. intros x3 H3. rewrite ParseID_exact by done.
  apply (xwp_arg _ _ (FormatInt n)); [done|]. apply xwp_ret. rewrite ParseInt_FormatInt by done. cbn [default from_option]. unfold id. cbv beta iota.
  apply xwp_bind. eapply (xwp_mono _ _ (fun r x' => r = default [] c /\ x' = x3)).
  { destruct c as [c|]; [|by apply xwp_ret]. by eapply xwp_pure. }
  intros r x' [-> ->]. apply xwp_bind. eapply load_rule_at; [exact H3|]. apply xwp_bind. eapply clock_at; [exact H3|]. intros x4 H4.
  rewrite (is_stream_pending U st g T name a b n (default [] c) (ak_is H4)). apply replied, H4.
Qed.

Lemma xclaim_ok m x k name c n ids :
  stream_rel U T m x -> is_int64 n -> Forall id_ok ids -> xdoes (xclaimCommand E (xargs (Xclaim k name c n ids))) x (ref_XCLAIM T m k name c n ids).
Proof using Hclk.
  intros H Hn Hids. apply (xwp_arg _ _ k); [done|]. apply (xwp_arg _ _ name); [done|]. apply (xwp_arg _ _ c); [done|]. apply (xwp_arg _ _ (FormatInt n)); [done|].
  rewrite ParseInt_FormatInt by done. apply (on_stream_rule m x k (Array [])); [done|]. intros g e l st x1 Em Hat.
  apply xwp_bind. eapply parse_ids_at; [exact Hids|exact Hat|]. intros x2 H2. apply xwp_bind. eapply load_rule_at; [exact H2|]. apply xwp_bind. eapply clock_at; [exact H2|]. intros x3 H3.
  destruct (xs_groups g !! name) as [cg|] eqn:Eg.
  - destruct (is_stream_claim U st g T name c n ids cg (ak_is H3) Eg) as (st' & Ec & Hi). apply xwp_bind. eapply xwp_pure; [exact Ec|]. apply xwp_bind.
    eapply store_rule_at; [exact H3|exact Hi|]. intros x4 H4. eapply xwp_pure; [apply formatStreamEntries_ok|split; [done|apply H4]].
    apply Forall_kept. eapply (is_stream_paired U st), H3.
  - apply xwp_bind. eapply xwp_pure; [unfold Claim; rewrite (is_groups _ _ _ (ak_is H3)), Eg; done|]. apply xwp_bind.
    eapply store_rule_at; [exact H3|apply H3|]. intros x4 H4. rewrite (put_stream_same m k g e Em) in H4. eapply xwp_pure; [done|]. split; [done|apply H4].
Qed.

Lemma group_start_at m x k l st g i (Q : option StreamID -> XSt A -> Prop) :
  from_ok i -> at_key U T m x k l st g -> (forall x', at_key U T m x' k l st g -> Q (Some (default (xs_last g) i)) x') -> xwp (group_start E (from_arg i) st) x Q.
Proof using Hclk.
  intros Hi H HQ. unfold group_start. destruct i as [id|]; cbn [from_arg from_ok default] in *.
  - destruct (String_head id Hi) as (c & r & Es & Hc). rewrite bool_decide_false by (rewrite Es; unfold is_digit in Hc; intros [=]; lia).
    eapply parse_at; [exact H|]. intros x' H'. rewrite ParseID_exact by done. by apply HQ.
  - rewrite bool_decide_true by done. apply xwp_ret. unfold LastID. rewrite (is_last _ _ _ (ak_is H)). by apply HQ.
Qed.

Lemma xgroup_create_ok m x k name i : stream_rel U T m x -> from_ok i -> xdoes (xgroupCommand E (xargs (XgroupCreate k name i))) x (ref_XGROUP_CREATE m k name i).
Proof using Hclk.
  intros H Hi. apply (xwp_arg _ _ (str "CREATE")); [done|]. apply (xwp_arg _ _ k); [done|]. cbv zeta. keyword. unfold xgroup_create.
  change (zlen (xargs (XgroupCreate k name i)) <? 5) with false. cbv iota. apply (xwp_arg _ _ name); [done|]. apply (xwp_arg _ _ (from_arg i)); [done|].
  apply xwp_bind. apply (getOrCreateStream_rule E T U Hclk m); [done|]. unfold ref_XGROUP_CREATE, on_stream. cbv zeta.
  destruct (ensured m k true !! k) as [[[g|] e]|] eqn:Em.
  - intros l st x1 Hat. apply xwp_bind. eapply load_rule_at; [exact Hat|]. apply xwp_bind. eapply group_start_at; [exact Hi|exact Hat|]. intros x2 H2.
    unfold CreateGroup. rewrite (is_groups _ _ _ (ak_is H2)). destruct (xs_groups g !! name) as [cg|]; [by eapply restored|].
    eapply stream_stored; [exact H2|]. apply is_stream_groups, H2.
  - intros x1 H1. assert (ensured m k true = m) as ->; [|by apply replied]. revert Em. unfold ensured. destruct (m !! k) eqn:Ek; [done|]. by rewrite lookup_insert_eq.
  - exfalso. revert Em. unfold ensured. destruct (m !! k) eqn:Ek; [congruence|]. by rewrite lookup_insert_eq.
Qed.

Lemma xgroup_setid_ok m x k name i : stream_rel U T m x -> from_ok i -> xdoes (xgroupCommand E (xargs (XgroupSetid k name i))) x (ref_XGROUP_SETID m k name i).
Proof using Hclk.
  intros H Hi. apply (xwp_arg _ _ (str "SETID")); [done|]. apply (xwp_arg _ _ k); [done|]. cbv zeta. keyword. unfold xgroup_setid.
  change (zlen (xargs (XgroupSetid k name i)) <? 5) with false. cbv iota. apply (xwp_arg _ _ name); [done|].
  apply (on_stream_rule m x k (Error (str "NOGROUP No such key '" ++ k ++ str "' or consumer group '" ++ name ++ str "'"))); [done|]. intros g e l st x1 Em Hat.
  apply (xwp_arg _ _ (from_arg i)); [done|]. apply xwp_bind. eapply load_rule_at; [exact Hat|]. apply xwp_bind. eapply group_start_at; [exact Hi|exact Hat|]. intros x2 H2.
  unfold SetGroupID. rewrite (is_groups _ _ _ (ak_is H2)). destruct (xs_groups g !! name) as [cg|]; [|by eapply restored].
  eapply stream_stored; [exact H2|]. apply is_stream_groups, H2.
Qed.

Lemma xgroup_destroy_ok m x k name : stream_rel U T m x -> xdoes (xgroupCommand E (xargs (XgroupDestroy k name))) x (ref_XGROUP_DESTROY m k name).
Proof using Hclk.
  intros H. apply (xwp_arg _ _ (str "DESTROY")); [done|]. apply (xwp_arg _ _ k); [done|]. cbv zeta. keyword. unfold xgroup_destroy.
  change (zlen (xargs (XgroupDestroy k name)) <? 4) with false. cbv iota. apply (xwp_arg _ _ name); [done|].
  apply (on_stream_rule m x k (Integer 0)); [done|]. intros g e l st x1 Em Hat. apply xwp_bind. eapply load_rule_at; [exact Hat|].
  unfold DestroyGroup. rewrite (is_groups _ _ _ (ak_is Hat)). destruct (xs_groups g !! name) as [cg|]; [|by eapply restored].
  eapply stream_stored; [exact Hat|]. apply is_stream_groups, Hat.
Qed.

(** *** XADD *)

Definition cap_opts (nomk : bool) (c : option xcap) : add_opts :=
  match c with
  | None => mkAddOpts 0 false nomk None
  | Some (CapLen a n) => mkAddOpts n a nomk None
  | Some (CapMin a id) => mkAddOpts 0 a nomk (Some id)
  end.

Lemma xadd_loop_stop i rest o x (Q : bytes + (add_opts * list bytes) -> XSt A -> Prop) : xid_ok i -> Q (inr (o, xid_arg i :: rest)) x -> xwp (xadd_loop E (xid_arg i :: rest) o) x Q.
Proof.
  intros Hi HQ. destruct (xid_head i Hi) as (c & l & Ec & Hc). rewrite Ec in *. cbn [xadd_loop].
  rewrite (no_option c l (str "NOMKSTREAM") 78 (str "OMKSTREAM")), (no_option c l (str "MAXLEN") 77 (str "AXLEN")), (no_option c l (str "MINID") 77 (str "INID")) by (done || lia).
  cbn [orb]. by apply xwp_ret.
Qed.

Lemma xadd_loop_ok m x nomk c i rest (Q : bytes + (add_opts * list bytes) -> XSt A -> Prop) :
  stream_rel U T m x -> xid_ok i -> match c with Some c => xcap_ok c | None => True end ->
  (forall x', stream_rel U T m x' -> Q (inr (cap_opts nomk c, xid_arg i :: rest)) x') ->
  xwp (xadd_loop E ((if nomk then [str "NOMKSTREAM"] else []) ++ match c with Some c => xcap_args c | None => [] end ++ xid_arg i :: rest) (mkAddOpts 0 false false None)) x Q.
Proof using Hclk.
  intros H Hi Hc HQ. assert (forall o x', stream_rel U T m x' -> o = cap_opts nomk c -> xwp (xadd_loop E (xid_arg i :: rest) o) x' Q) as Hstop.
  { intros o x' H' ->. apply xadd_loop_stop; [done|]. by apply HQ. }
  generalize dependent (xid_arg i :: rest). intros tl HQ Hstop.
  assert (xwp (xadd_loop E (match c with Some c => xcap_args c | None => [] end ++ tl) (mkAddOpts 0 false nomk None)) x Q) as Hgo.
  { destruct c as [[a n|a id]|]; cbn [xcap_args app]; [..|by apply Hstop].
    - cbn [xadd_loop]. cbv zeta. keyword. assert (eq_or_tilde (approx_arg a) = true /\ is_tilde (approx_arg a) = a) as [-> ->] by by destruct a. cbv iota. rewrite ParseInt_FormatInt by done.
      cbn [ao_maxLen ao_approx ao_nomkstream ao_minID orb]. by apply Hstop.
    - cbn [xadd_loop]. cbv zeta. keyword. assert (eq_or_tilde (approx_arg a) = true /\ is_tilde (approx_arg a) = a) as [-> ->] by by destruct a. cbv iota.
      apply xwp_bind. apply (parse_id_rule E T U Hclk m); [done|]. intros x0 H0 _ _. rewrite ParseID_exact by done. cbn [ao_maxLen ao_approx ao_nomkstream ao_minID orb]. by apply Hstop. }
  destruct nomk; [|exact Hgo]. cbn [app xadd_loop]. cbv zeta. keyword. exact Hgo.
Qed.

Lemma odd_pairs kvs : kvs <> [] -> (zlen (flat kvs) =? 0) || negb (Z.rem (zlen (flat kvs)) 2 =? 0) = false.
Proof.
  intros Hne. rewrite flat_length. destruct kvs as [|p kvs]; [done|]. rewrite zlen_cons. zlen_pose. rewrite Z.mul_comm, Z.rem_mul by lia. cbn [Z.eqb negb]. rewrite orb_false_r. apply Z.eqb_neq. lia.
Qed.

Lemma xadd_ok m x k nomk c i kvs r :
  stream_rel U T m x -> xcmd_ok fresh alloc U (Xadd k nomk c i kvs) -> ref_XADD T m k nomk c i kvs = Some r ->
  xdoes (xaddCommand E fresh alloc (xargs (Xadd k nomk c i kvs))) x r.
Proof using Hclk HU.
  intros H (Hne & Hn & Hf & Hi & Hc) Hr. apply (xwp_arg _ _ k); [done|]. apply xwp_bind.
  change (drop 2 (xargs (Xadd k nomk c i kvs))) with ((if nomk then [str "NOMKSTREAM"] else []) ++ match c with Some c => xcap_args c | None => [] end ++ xid_arg i :: flat kvs).
  apply (xadd_loop_ok m); [done..|]. intros x1 H1. cbv beta iota. rewrite odd_pairs by done. apply xwp_bind.
  assert (ao_nomkstream (cap_opts nomk c) = nomk) as -> by by destruct c as [[]|]. apply (getOrCreateStream_rule E T U Hclk m); [done|].
  unfold ref_XADD in Hr. cbv zeta in Hr. set (m' := ensured m k (negb nomk)) in *. destruct (m' !! k) as [[[g|] e]|] eqn:Em.
  2, 3: injection Hr as <-; intros x2 H2; apply xwp_ret; by split.
  intros l st x2 H2. apply xwp_bind. eapply load_rule_at; [exact H2|]. apply xwp_bind. eapply parse_at; [exact H2|]. intros x3 H3.
  unfold LastID. rewrite (is_last _ _ _ (ak_is H3)), ParseID_xid by done. set (id := new_id T (xs_last g) i) in *.
  assert (id_ok id) as Hid by (apply new_id_ok; [apply H3|done]).
  destruct (decide (id_lt (xs_last g) id)) as [Hlt|Hlt].
  - injection Hr as <-. destruct (is_stream_add U fresh alloc st g id kvs (ao_maxLen (cap_opts nomk c)) (ao_approx (cap_opts nomk c)) HU (ak_is H3) Hid Hn Hf Hlt) as (st' & Ea & Hst').
    apply xwp_bind. eapply xwp_pure; [exact Ea|]. cbv beta iota. cbv zeta in Hst'. apply xwp_bind. eapply store_rule_at; [exact H3|exact Hst'|]. intros x4 H4. cbv beta iota.
    destruct c as [[a n|a mn]|]; cbn [cap_opts ao_minID ao_maxLen cap_added Z.ltb Z.compare] in *.
    1, 3: apply xwp_bind, xwp_ret, xwp_ret; split; [done|apply H4].
    apply xwp_bind. destruct (is_stream_min U st' _ mn fresh alloc (ak_is H4)) as (st2 & Em2 & Hst2). apply xwp_bind. eapply xwp_pure; [exact Em2|].
    eapply store_rule_at; [exact H4|exact Hst2|]. intros x5 H5. apply xwp_ret. split; [done|]. apply ak_rel in H5. revert H5. unfold put_stream. rewrite Em, lookup_insert_eq, insert_insert_eq. done.
  - destruct (decide (xs_log g = [])); [done|]. injection Hr as <-. apply xwp_bind. eapply xwp_pure; [apply (is_stream_refused U _ _ _ g); [apply H3|exact Hlt|done]|]. cbv beta iota. by eapply restored.
Qed.

(** *** Reading *)

Lemma named_entries_ok k es : Forall paired es -> named_entries k es = Some (named_reply k es).
Proof. intros Hp. unfold named_entries. by rewrite formatStreamEntries_ok. Qed.

(** The tail of both read loops: a stream is in the reply when it has entries to show. *)
Lemma found_rule k es x (Q : list bytes -> XSt A -> Prop) :
  Forall paired es -> Q (named k es) x -> xwp (if 0 <? zlen es then r ← xpure (named_entries k es); mret [r] else mret []) x Q.
Proof.
  intros Hp HQ. unfold named in HQ. destruct es as [|e es]; [by apply xwp_ret|]. rewrite bool_decide_false in HQ by done.
  rewrite (proj2 (Z.ltb_lt _ _)) by (rewrite zlen_cons; zlen_pose; lia). apply xwp_bind. eapply xwp_pure; [by apply named_entries_ok|]. by apply xwp_ret.
Qed.

Lemma Forall_limit {B} (P : B -> Prop) n l : Forall P l -> Forall P (limit n l).
Proof. intros. unfold limit. destruct (0 <? n); [by apply Forall_take|done]. Qed.

Lemma ref_deliver_paired c n noAck i l cg : Forall paired l -> Forall paired (ref_deliver T c n noAck i l cg).1.
Proof. intros Hp. destruct i; cbn [ref_deliver fst]; by apply Forall_limit, Forall_kept. Qed.

Lemma read_groups_ok name c n noAck ks : forall m x,
  stream_rel U T m x -> Forall from_ok ks.*2 ->
  xwp (read_groups E (mkGroupOpts name c n noAck) ks.*1 (group_arg <$> ks.*2)) x
    (fun r x' => r = (ref_read_groups T m name c n noAck ks).1 /\ stream_rel U T (ref_read_groups T m name c n noAck ks).2 x').
Proof using Hclk.
  induction ks as [|[k i] ks IH]; intros m x H Hks; [by apply xwp_ret|]. rewrite !fmap_cons in *. cbn [fst snd] in *. apply Forall_cons in Hks as [Hi Hks].
  cbn [read_groups ref_read_groups]. apply xwp_bind. apply (getOrCreateStream_rule E T U Hclk m); [done|]. assert (ensured m k false = m) as -> by (unfold ensured; by destruct (m !! k)).
  destruct (m !! k) as [[[g|] e]|] eqn:Em; [|intros x1 H1; by apply xwp_ret|intros x1 H1; by apply IH].
  intros l st x1 H1. assert (bool_decide (group_arg i = str ">") = bool_decide (i = None)) as ->.
  { destruct i as [id|]; [|done]. cbn [group_arg from_ok] in *. destruct (String_head id Hi) as (c0 & r & Es & Hc). rewrite Es. unfold is_digit in Hc.
    rewrite !bool_decide_false; [done|done|]. intros [=]; lia. }
  apply xwp_bind. eapply (xwp_mono _ _ (fun r x' => r = Some (default ZeroID i) /\ at_key U T m x' k l st g)).
  { destruct i as [id|]; [|by apply xwp_ret]. rewrite bool_decide_false by done. cbn [group_arg]. eapply parse_at; [exact H1|]. intros x' H'. by rewrite ParseID_exact by done. }
  intros r x2 [-> H2]. apply xwp_bind. eapply load_rule_at; [exact H2|]. apply xwp_bind. eapply clock_at; [exact H2|]. intros x3 H3. cbn [go_group go_consumer go_count go_noAck].
  destruct (xs_groups g !! name) as [cg|] eqn:Eg.
  - destruct (is_stream_read U st g T name c n noAck cg i (ak_is H3) Eg) as (st' & Er & Hst'). cbv zeta. set (d := ref_deliver T c n noAck i (xs_log g) cg) in *.
    apply xwp_bind. eapply xwp_pure; [exact Er|]. cbv beta iota. apply xwp_bind. eapply store_rule_at; [exact H3|exact Hst'|]. intros x4 H4. cbv beta iota. apply xwp_bind.
    apply found_rule; [by eapply ref_deliver_paired, (is_stream_paired U st), H3|]. apply xwp_bind. eapply xwp_mono; [apply IH; [apply H4|done]|].
    intros rs x5 [-> H5]. apply xwp_ret. split; [|done]. by destruct (ref_read_groups _ _ _ _ _ _ _).1.
  - apply xwp_bind. eapply xwp_pure; [unfold ReadGroup; rewrite (is_groups _ _ _ (ak_is H3)), Eg; done|]. cbv beta iota. apply xwp_bind.
    eapply store_rule_at; [exact H3|apply H3|]. intros x4 H4. rewrite (put_stream_same m k g e Em) in H4. apply xwp_ret. split; [done|apply H4].
Qed.

Lemma xreadgroup_ok m x name c n noAck ks :
  stream_rel U T m x -> match n with Some n => is_int64 n | None => True end -> ks <> [] -> Forall from_ok ks.*2 ->
  xdoes (xreadgroupCommand E (xargs (Xreadgroup name c n noAck ks))) x (ref_XREADGROUP T m name c n noAck ks).
Proof using Hclk.
  intros H Hn Hne Hks. unfold xreadgroupCommand, xdoes. set (rem := ks.*1 ++ (group_arg <$> ks.*2)).
  apply xwp_bind. eapply (xwp_pure _ (inr (mkGroupOpts name c (default 0 n) noAck, rem))).
  { cbn [xargs drop xreadgroup_loop]. cbv zeta. keyword. destruct n as [n|], noAck; cbn [xcount_args app xreadgroup_loop go_group go_consumer go_count go_noAck]; cbv zeta; keyword;
      rewrite ?ParseInt_FormatInt by done; cbn [xreadgroup_loop go_group go_consumer go_count go_noAck]; cbv zeta; keyword; done. }
  cbv beta iota. unfold rem. destruct (halves_keys ks fst (fun ki => group_arg ki.2)) as (E1 & E2 & E3 & E4). rewrite <- (list_fmap_compose snd group_arg) in *.
  change (group_arg ∘ snd) with (fun ki : bytes * option StreamID => group_arg ki.2). rewrite E4, bool_decide_false by done. cbv zeta. rewrite E1, E2, E3.
  apply xwp_bind. replace ((fun ki : bytes * option StreamID => group_arg ki.2) <$> ks) with (group_arg <$> ks.*2) by (by rewrite <- list_fmap_compose).
  eapply xwp_mono; [by eapply read_groups_ok|]. intros rs x' [-> H']. apply xwp_ret. split; [done|exact H'].
Qed.

(** *** XREAD *)

Lemma find_stream_rule m x k (Q : option nat -> XSt A -> Prop) :
  stream_rel U T m x ->
  match m !! k with
  | Some (XStream g, _) => forall l st x', at_key U T m x' k l st g -> Q (Some l) x'
  | _ => forall x', stream_rel U T m x' -> Q None x'
  end -> xwp (find_stream E k) x Q.
Proof using Hclk.
  intros H HQ. apply xwp_bind. apply (getOrCreateStream_rule E T U Hclk m); [done|]. assert (ensured m k false = m) as -> by (unfold ensured; by destruct (m !! k)).
  destruct (m !! k) as [[[g|] e]|]; [intros l st x' Hat|intros x' H'|intros x' H']; apply xwp_ret; by eapply HQ.
Qed.

Lemma start_ids_ok ks : forall m x (Q : option (list StreamID) -> XSt A -> Prop),
  stream_rel U T m x -> Forall from_ok ks.*2 ->
  (forall x', stream_rel U T m x' -> Q (Some ((fun ki => read_from m ki.1 ki.2) <$> ks)) x') -> xwp (start_ids E ks.*1 (from_arg <$> ks.*2)) x Q.
Proof using Hclk.
  induction ks as [|[k i] ks IH]; intros m x Q H Hks HQ; [by apply xwp_ret, HQ|]. rewrite !fmap_cons in *. cbn [fst snd start_ids] in *. apply Forall_cons in Hks as [Hi Hks].
  apply xwp_bind. apply (find_stream_rule m); [done|]. set (last := match m !! k with Some (XStream g, _) => xs_last g | _ => ZeroID end).
  assert (forall x', stream_rel U T m x' ->
    xwp (id ← (if bool_decide (from_arg i = str "$") then mret (Some last) else parse_id E (from_arg i) ZeroID);
         match id with None => mret None | Some id => ids ← start_ids E ks.*1 (from_arg <$> ks.*2); mret ((fun ids => id :: ids) <$> ids) end) x' Q) as Hgo.
  { intros x' H'. apply xwp_bind. eapply (xwp_mono _ _ (fun r x'' => r = Some (read_from m k i) /\ stream_rel U T m x'')).
    - unfold read_from. fold last. destruct i as [id|]; cbn [from_arg default from_ok] in *; [|rewrite bool_decide_true by done; by apply xwp_ret].
      destruct (String_head id Hi) as (c & r & Es & Hc). rewrite bool_decide_false by (rewrite Es; unfold is_digit in Hc; intros [=]; lia).
      apply (parse_id_rule E T U Hclk m); [done|]. intros x'' H'' _ _. by rewrite ParseID_exact by done.
    - intros r x'' [-> H'']. apply xwp_bind. eapply IH; [exact H''|done|]. intros x3 H3. apply xwp_ret. by apply HQ. }
  destruct (m !! k) as [[[g|] e]|].
  - intros l st x1 H1. apply xwp_bind, xwp_bind. eapply load_rule_at; [exact H1|]. apply xwp_ret. unfold LastID. rewrite (is_last _ _ _ (ak_is H1)). apply Hgo, H1.
  - intros x1 H1. apply xwp_bind, xwp_ret. by apply Hgo.
  - intros x1 H1. apply xwp_bind, xwp_ret. by apply Hgo.
Qed.

Lemma fetch_ok n ks : forall m x (f : bytes * option StreamID -> StreamID) (Q : list bytes -> XSt A -> Prop),
  stream_rel U T m x -> 0 < n < max_int64 ->
  (forall x', stream_rel U T m x' -> Q (concat ((fun ki => named ki.1 (newer m ki.1 (f ki) n)) <$> ks)) x') -> xwp (fetch E ks.*1 (f <$> ks) n) x Q.
Proof using Hclk fresh alloc.
  induction ks as [|[k i] ks IH]; intros m x f Q H Hn HQ; [by apply xwp_ret, HQ|]. rewrite !fmap_cons in *. cbn [fst snd fetch concat] in *.
  apply xwp_bind. apply (find_stream_rule m); [done|].
  assert (forall es x', named k (newer m k (f (k, i)) n) = es -> stream_rel U T m x' ->
    xwp (rs ← fetch E ks.*1 (f <$> ks) n; mret (es ++ rs)) x' Q) as Hgo.
  { intros es x' <- H'. apply xwp_bind. apply (IH m); [done|done|]. intros x'' H''. apply xwp_ret. by apply HQ. }
  unfold newer in Hgo at 1. destruct (m !! k) as [[[g|] e]|] eqn:Em.
  - intros l st x1 H1. apply xwp_bind, xwp_bind. eapply load_rule_at; [exact H1|]. apply xwp_bind. eapply xwp_pure; [apply (Range_spec fresh alloc U), H1|].
    cbv zeta. rewrite (is_log _ _ _ (ak_is H1)), filtered_ok; [|done|apply (is_ids _ _ _ (ak_is H1))|apply (is_stream_sorted U st), H1].
    apply found_rule; [by apply Forall_limit, Forall_kept, (is_stream_paired U st), H1|]. apply Hgo; [done|apply H1].
  - intros x1 H1. apply xwp_bind, xwp_ret. by apply Hgo.
  - intros x1 H1. apply xwp_bind, xwp_ret. by apply Hgo.
Qed.

Lemma xread_ok m x n ks :
  stream_rel U T m x -> 0 < n < max_int64 -> ks <> [] -> Forall from_ok ks.*2 ->
  xwp (xreadCommand E (xargs (Xread n ks))) x (fun r x' => r = Replies (ref_XREAD m n ks).1 /\ stream_rel U T m x').
Proof using Hclk fresh alloc.
  intros H Hn Hne Hks. apply xwp_bind. eapply (xwp_pure _ (inr (n, -1, ks.*1 ++ (from_arg <$> ks.*2)))).
  { cbn [xargs drop xread_loop]. cbv zeta. keyword. rewrite ParseInt_FormatInt by (unfold is_int64, min_int64, max_int64 in *; lia). cbn [xread_loop]. cbv zeta. by keyword. }
  cbv beta iota. destruct (halves_keys ks fst (fun ki => from_arg ki.2)) as (E1 & E2 & E3 & E4).
  replace (from_arg <$> ks.*2) with ((fun ki : bytes * option StreamID => from_arg ki.2) <$> ks) by (by rewrite <- list_fmap_compose).
  rewrite E4, bool_decide_false by done. cbv zeta. rewrite E1, E2, E3.
  replace ((fun ki : bytes * option StreamID => from_arg ki.2) <$> ks) with (from_arg <$> ks.*2) by (by rewrite <- list_fmap_compose).
  apply xwp_bind. apply (start_ids_ok ks m); [done|done|]. intros x1 H1. apply xwp_bind. apply (fetch_ok n ks m x1 (fun ki => read_from m ki.1 ki.2)); [done|done|].
  intros x2 H2. rewrite orb_true_r. apply xwp_ret. by split.
Qed.

(** *** Any of them *)

(** The registered handler; a read without BLOCK does not park. *)
Definition run_xcmd (c : xcmd) : XM A bytes :=
  match c with
  | Xadd _ _ _ _ _ => xaddCommand E fresh alloc (xargs c)
  | Xrange false _ _ _ _ => xrangeCommand E (xargs c)
  | Xrange true _ _ _ _ => xrevrangeCommand E (xargs c)
  | Xlen _ => xlenCommand E (xargs c)
  | Xdel _ _ => xdelCommand E (xargs c)
  | Xtrim _ _ => xtrimCommand E (xargs c)
  | Xread _ _ => r ← xreadCommand E (xargs c); match r with Replies b => mret b | Waits _ => xpure None end
  | XgroupCreate _ _ _ | XgroupSetid _ _ _ | XgroupDestroy _ _ => xgroupCommand E (xargs c)
  | Xreadgroup _ _ _ _ _ => xreadgroupCommand E (xargs c)
  | Xack _ _ _ => xackCommand E (xargs c)
  | Xpending _ _ _ _ _ _ => xpendingCommand E (xargs c)
  | Xclaim _ _ _ _ _ => xclaimCommand E (xargs c)
  end.

Lemma run_xcmd_ok m x c r : stream_rel U T m x -> xcmd_ok fresh alloc U c -> ref_xcmd T m c = Some r -> xdoes (run_xcmd c) x r.
Proof using Hclk HU.
  intros H Hc Hr. destruct c as [k nomk cap i kvs|rv k a b n|k|k ids|k c|n ks|k g i|k g i|k g|g c n noAck ks|k g ids|k g a b n c|k g c n ids]; cbn [ref_xcmd xcmd_ok run_xcmd] in *;
    [by eapply xadd_ok|..]; injection Hr as <-.
  - destruct Hc as (Ha & Hb & Hn). pose proof (xrange_ok m x rv k a b n H Ha Hb Hn) as Hx. by destruct rv.
  - by apply xlen_ok.
  - by apply xdel_ok.
  - by apply xtrim_ok.
  - destruct Hc as (? & ? & ?). apply xwp_bind. eapply xwp_mono; [by apply xread_ok|]. intros r x' [-> H']. by apply xwp_ret.
  - by apply xgroup_create_ok.
  - by apply xgroup_setid_ok.
  - by apply xgroup_destroy_ok.
  - destruct Hc as (? & ? & ?). by apply xreadgroup_ok.
  - by apply xack_ok.
  - destruct Hc as (? & ? & ?). by apply xpending_ok.
  - destruct Hc. by apply xclaim_ok.
Qed.

End commands.

(** ** Histories *)

Record xevent := mkXEvent { xe_env : env; xe_time : Z; xe_cmd : xcmd }.

Fixpoint x_in_order (T : Z) (evs : list xevent) : Prop :=
  match evs with [] => True | ev :: evs => T <= xe_time ev /\ x_in_order (xe_time ev) evs end.

Definition x_end_time (T : Z) (evs : list xevent) : Z := foldl (fun _ ev => xe_time ev) T evs.

Section histories.
Context {A : Type} (fresh : A) (alloc : A -> Z -> option A) (U : gset bytes).

Definition xevent_ok (ev : xevent) : Prop := instant (xe_env ev) (xe_time ev) /\ xcmd_ok fresh alloc U (xe_cmd ev).

Fixpoint xserve (evs : list xevent) : XM A (list bytes) :=
  match evs with
  | [] => mret []
  | ev :: evs => r ← run_xcmd (xe_env ev) fresh alloc (xe_cmd ev); rs ← xserve evs; mret (r :: rs)
  end.

End histories.

Fixpoint ref_xhistory (m : xdata) (evs : list xevent) : option (list bytes * xdata) :=
  match evs with
  | [] => Some ([], m)
  | ev :: evs =>
    '(r, m) ← ref_xcmd (xe_time ev) (expire_xdata (xe_time ev) m) (xe_cmd ev);
    '(rs, m) ← ref_xhistory m evs;
    Some (r :: rs, m)
  end.

Lemma initial_streams {A : Type} (U : gset bytes) T lim sinks : stream_rel U T ∅ (mkX (initial lim sinks) (∅ : gmap nat (Stream A))).
Proof.
  assert (forall k, view T (initial lim sinks) k = None) as Hv.
  { intros k. unfold view, abs. change (cell (s_db (initial lim sinks)) k) with (cell (NewShardedDB (P := payload)) k). by rewrite NewShardedDB_cell. }
  split; cbn [x_st x_str].
  - destruct (NewShardedDB_unlimited (P := payload)) as [Hwf Hm]. split; [|done]. by destruct Hwf as [H1 H2 H3 H4]; split.
  - intros k. by rewrite Hv, lookup_empty.
  - intros k w e l. by rewrite Hv.
  - intros k k' w w' e e' l. by rewrite Hv.
Qed.

Lemma xserve_ok {A : Type} (fresh : A) alloc U evs : forall T m x outs m',
  few U -> stream_rel U T m x -> x_in_order T evs -> Forall (xevent_ok fresh alloc U) evs -> ref_xhistory m evs = Some (outs, m') ->
  exists x', xserve fresh alloc evs x = Some (outs, x') /\ stream_rel U (x_end_time T evs) m' x'.
Proof.
  induction evs as [|ev evs IH]; intros T m x outs m' HU H Hord Hev Hr; cbn [ref_xhistory xserve] in *.
  { injection Hr as <- <-. by exists x. }
  destruct Hord as [HT Hord]. apply Forall_cons in Hev as [[Hi Hc] Hev].
  destruct (ref_xcmd (xe_time ev) _ _) as [[r m1]|] eqn:E1; [|done]. cbn [mbind option_bind] in Hr.
  destruct (ref_xhistory m1 evs) as [[rs m2]|] eqn:E2; [|done]. cbn [mbind option_bind] in Hr. injection Hr as <- <-.
  destruct (run_xcmd_ok (xe_env ev) (xe_time ev) fresh alloc U Hi HU (expire_xdata (xe_time ev) m) x (xe_cmd ev) (r, m1)) as (b & x1 & Eb & -> & H1); [by eapply stream_rel_later|done|done|].
  destruct (IH (xe_time ev) m1 x1 rs m2 HU H1 Hord Hev E2) as (x2 & Ex & H2). exists x2. split; [|exact H2].
  assert (xwp (r ← run_xcmd (xe_env ev) fresh alloc (xe_cmd ev); rs ← xserve fresh alloc evs; mret (r :: rs)) x (fun o x' => o = r :: rs /\ x' = x2)) as (o & x' & Eo & -> & ->); [|done].
  apply xwp_bind. exists r, x1. split; [done|]. apply xwp_bind. exists rs, x2. split; [done|]. by apply xwp_ret.
Qed.

(** C19. The stream commands are operations on logs. From any state that represents a map from keys to streams and other values, a history
    of XADD (with NOMKSTREAM, MAXLEN, MINID and ids of all three forms), XRANGE, XREVRANGE, XLEN, XDEL, XTRIM, XREAD with a positive count
    and without BLOCK, XGROUP, XREADGROUP over several streams, XACK, XPENDING and XCLAIM, written in their grammar at non-decreasing
    instants, is answered, byte for byte, as a map of plain logs with consumer groups answers it, wrong types and missing keys and groups
    included, and without a panic; at the end the state represents that map. The conditions ([xcmd_ok] and that [ref_xhistory] is defined):
    the fields are few enough for 16-bit numbers, every entry fits a chunk, and no stream that was emptied gets an id below its last one.
    (Outside of them: [xread_without_count_never_reads_on], [xread_option_without_value_panics], [oversized_entry_is_lost],
    [emptied_stream_breaks_order].) *)
Theorem streams_are_logs {A : Type} (fresh : A) alloc U evs T m x outs m' :
  few U -> stream_rel U T m x -> x_in_order T evs -> Forall (xevent_ok fresh alloc U) evs -> ref_xhistory m evs = Some (outs, m') ->
  exists x', xserve fresh alloc evs x = Some (outs, x') /\ stream_rel U (x_end_time T evs) m' x'.
Proof. apply xserve_ok. Qed.

(** Two streams and a group, over three instants. *)
Definition x_sample : list xevent :=
  let f v := [(str "f", str v)] in
  let at_ t c := mkXEvent (frozen t) t c in
  [at_ 5 (Xadd (str "s") false None IdAuto (f "a"%string)); at_ 5 (Xadd (str "s") false None IdAuto (f "b"%string));
   at_ 7 (Xadd (str "t") false (Some (CapLen true 1)) (IdExact (mkID 3 1)) (f "c"%string));
   at_ 7 (Xadd (str "s") true (Some (CapMin false (mkID 5 1))) (IdSeq 7) (f "d"%string));
   at_ 7 (XgroupCreate (str "s") (str "g") (Some ZeroID)); at_ 7 (XgroupCreate (str "s") (str "g") None);
   at_ 8 (Xreadgroup (str "g") (str "alice") (Some 1) false [(str "s", None)]);
   at_ 8 (Xreadgroup (str "g") (str "bob") None false [(str "s", None); (str "nokey", None); (str "t", None)]);
   at_ 9 (Xpending (str "s") (str "g") ZeroID MaxID 10 None); at_ 9 (Xack (str "s") (str "g") [mkID 5 1; mkID 6 6]);
   at_ 9 (Xread 2 [(str "s", Some (mkID 5 1)); (str "t", Some ZeroID)]); at_ 9 (Xrange true (str "s") BMax BMin (Some 1)); at_ 9 (Xlen (str "u"))].

Lemma id_ok_dec id : (0 <=? Ms id) && (Ms id <? 2 ^ 64) && (0 <=? Seq id) && (Seq id <? 2 ^ 64) = true -> id_ok id.
Proof. intros Hb. bool_prop. split; lia. Qed.

(** The side conditions of a concrete history. *)
Local Ltac x_events Hf :=
  repeat (apply Forall_cons; split); [..|by apply Forall_nil]; (split; [apply frozen_instant; vm_compute; discriminate|]); cbn [xcmd_ok xe_cmd xid_ok xcap_ok xbound_ok from_ok];
    repeat lazymatch goal with
      | |- True => exact I
      | |- id_ok _ => apply id_ok_dec; vm_compute; reflexivity
      | |- from_ok _ => cbn [from_ok]
      | |- _ /\ _ => split
      | |- is_int64 _ => split; vm_compute; discriminate
      | |- _ <= _ => vm_compute; discriminate
      | |- _ < _ => vm_compute; reflexivity
      | |- _ <> [] => discriminate
      | |- fits _ _ _ => vm_compute; reflexivity
      | |- Forall (fun z => z ∈ _) _ => apply Hf
      | |- Forall _ [] => apply Forall_nil_2
      | |- Forall _ (_ :: _) => apply Forall_cons_2
      | |- Forall _ _.*2 => cbn [fmap list_fmap snd]
      end.

Lemma streams_are_logs_witness :
  exists outs m' x', ref_xhistory ∅ x_sample = Some (outs, m') /\
    xserve 0 tiny_alloc x_sample (mkX (initial default_limits false) ∅) = Some (outs, x') /\ stream_rel {[str "f"]} 9 m' x' /\
    outs !! 3%nat = Some (BulkString (str "7-0")) /\ outs !! 7%nat = Some (stream_error ErrGroupNotFound) /\ outs !! 9%nat = Some (Integer 1).
Proof.
  assert ((fun o => (o.1 !! 3%nat, o.1 !! 7%nat, o.1 !! 9%nat)) <$> ref_xhistory ∅ x_sample =
    Some (Some (BulkString (str "7-0")), Some (stream_error ErrGroupNotFound), Some (Integer 1))) as Ho by (vm_compute; reflexivity).
  destruct (ref_xhistory ∅ x_sample) as [[outs m']|] eqn:Er; [|discriminate Ho]. injection Ho as H3 H7 H9.
  destruct (streams_are_logs 0 tiny_alloc {[str "f"]} x_sample 0 ∅ (mkX (initial default_limits false) ∅) outs m') as (x' & Ex & Hx).
  - unfold few. rewrite size_singleton. lia.
  - apply initial_streams.
  - cbn. lia.
  - assert (forall v, Forall (.∈ ({[str "f"]} : gset bytes)) [(str "f", str v)].*1) as Hf by (intros v; apply Forall_singleton, elem_of_singleton; done).
    x_events Hf.
  - exact Er.
  - exists outs, m', x'. split; [reflexivity|]. split; [exact Ex|]. split; [exact Hx|]. split; [exact H3|]. split; [exact H7|exact H9].
Defined.

(** ** Where the handlers go wrong *)

Lemma first_is_itself start e l :
  Forall (fun e => id_ok (e_ID e)) l -> StronglySorted entry_lt l -> e ∈ l -> e_ID e = start ->
  after_start start 0 (limit (s64 (0 + 1)) (filter (between start MaxID) l)) [] = [].
Proof.
  intros Hids Hs He <-. change (s64 (0 + 1)) with 1. rewrite (filter_ext_in (between (e_ID e) MaxID) (fun e' => ~ id_lt (e_ID e') (e_ID e))).
  2: { intros e' He'. rewrite Forall_forall in Hids. pose proof (max_greatest (e_ID e') (Hids e' He')). unfold between. tauto. }
  unfold limit. change (0 <? 1) with true. cbv iota. change (Z.to_nat 1) with 1%nat. destruct (from_start (e_ID e) l Hs) as [Hf|(e' & He' & ->)].
  - exfalso. assert (e ∈ filter (fun e' => ~ id_lt (e_ID e') (e_ID e)) l) as Hin by (apply list_elem_of_filter; split; [apply id_lt_irrefl|done]).
    rewrite Hf in Hin. apply list_elem_of_filter in Hin as [Hlt _]. by eapply id_lt_irrefl.
  - cbn [take after_start]. rewrite He'. destruct (0 <? Compare (e_ID e) (e_ID e)) eqn:Hc; [|done]. apply Compare_gt in Hc. by destruct (id_lt_irrefl (e_ID e)).
Qed.

(** Without COUNT, XREAD finds nothing after an entry that is still in the stream, however many newer entries there are: it asks for
    [count+1] entries from the id on, which is one, and then drops that one because it has the id itself.  So a client that
    continues from the last id it has seen never reads on, and neither does one that waits from the dollar sign of a stream that has entries. *)
Theorem xread_without_count_never_reads_on {A : Type} (fresh : A) (alloc : A -> Z -> option A) E T U m (x : XSt A) k g d e :
  instant E T -> stream_rel U T m x -> m !! k = Some (XStream g, d) -> e ∈ xs_log g ->
  exists x', xreadCommand E [str "XREAD"; str "STREAMS"; k; String_ (e_ID e)] x = Some (Replies (Array []), x') /\ stream_rel U T m x'.
Proof.
  intros Hclk H Em He. assert (id_ok (e_ID e)) as Hid.
  { pose proof (sr_keys _ _ _ _ H k) as Hk. rewrite Em in Hk. destruct (view T (x_st x) k) as [[w ?]|]; [|done]. destruct Hk as (_ & _ & l & st & _ & _ & Hi).
    pose proof (is_ids _ _ _ Hi) as Hids. rewrite Forall_forall in Hids. by apply Hids. }
  assert (xwp (xreadCommand E [str "XREAD"; str "STREAMS"; k; String_ (e_ID e)]) x (fun r x' => r = Replies (Array []) /\ stream_rel U T m x')) as (r & x' & Er & -> & H'); [|by exists x'].
  apply xwp_bind. eapply (xwp_pure _ (inr (0, -1, [k; String_ (e_ID e)]))); [done|]. cbv beta iota. change (unpaired [k; String_ (e_ID e)]) with false. cbv iota zeta.
  change (Nat.div2 (length [k; String_ (e_ID e)])) with 1%nat. cbn [take drop]. apply xwp_bind.
  apply (start_ids_ok E T U Hclk [(k, Some (e_ID e))] m x); [done|by apply Forall_singleton|]. intros x1 H1. cbn [fmap list_fmap fst snd read_from default].
  apply xwp_bind. cbn [fetch]. apply xwp_bind. apply (find_stream_rule E T U Hclk m); [done|]. rewrite Em. intros l st x2 H2.
  apply xwp_bind, xwp_bind. eapply load_rule_at; [exact H2|]. apply xwp_bind. eapply xwp_pure; [apply (Range_spec fresh alloc U), H2|]. cbv zeta iota.
  change (read_from m k (Some (e_ID e))) with (e_ID e). rewrite (is_log _ _ _ (ak_is H2)), (first_is_itself _ e); [|apply (is_ids _ _ _ (ak_is H2))|apply (is_stream_sorted U st), H2|done|done].
  apply xwp_ret, xwp_bind, xwp_ret, xwp_ret. apply xwp_ret. split; [done|apply H2].
Qed.

Definition two_entries : list xevent := (fun v => mkXEvent (frozen 5) 5 (Xadd (str "s") false None IdAuto [(str "f", str v)])) <$> ["a"; "b"]%string.

Lemma xread_without_count_never_reads_on_witness :
  exists outs x x', xserve 0 tiny_alloc two_entries (mkX (initial default_limits false) ∅) = Some (outs, x) /\
    outs = [BulkString (str "5-0"); BulkString (str "5-1")] /\
    xreadCommand (frozen 5) [str "XREAD"; str "STREAMS"; str "s"; String_ (mkID 5 0)] x = Some (Replies (Array []), x').
Proof.
  set (g := mkXS [mkSE (mkID 5 0) [str "f"] [str "a"]; mkSE (mkID 5 1) [str "f"] [str "b"]] (mkID 5 1) ∅).
  destruct (xserve_ok 0 tiny_alloc {[str "f"]} two_entries 5 ∅ (mkX (initial default_limits false) ∅) [BulkString (str "5-0"); BulkString (str "5-1")] {[str "s" := (XStream g, 0)]}) as (x & Ex & Hx).
  - unfold few. rewrite size_singleton. lia.
  - apply initial_streams.
  - cbn. lia.
  - assert (forall v, Forall (.∈ ({[str "f"]} : gset bytes)) [(str "f", str v)].*1) as Hf by (intros v; apply Forall_singleton, elem_of_singleton; done).
    unfold two_entries. cbn [fmap list_fmap]. x_events Hf.
  - vm_compute. reflexivity.
  - destruct (xread_without_count_never_reads_on 0 tiny_alloc (frozen 5) 5 {[str "f"]} {[str "s" := (XStream g, 0)]} x (str "s") g 0 (mkSE (mkID 5 0) [str "f"] [str "a"])) as (x' & Er & _).
    + apply frozen_instant. lia.
    + exact Hx.
    + apply lookup_singleton_eq.
    + apply list_elem_of_here.
    + exists [BulkString (str "5-0"); BulkString (str "5-1")], x, x'. split; [exact Ex|]. split; [reflexivity|exact Er].
Defined.

(** A client waits from the dollar sign of a stream with one entry; an XADD wakes it up, it finds nothing and sleeps on. *)
Example waiting_reader_is_not_served :
  let E := frozen 5 in
  let add v := xaddCommand E 0 tiny_alloc [str "XADD"; str "s"; str "*"; str "f"; str v] in
  fst <$> (_ ← add "a"%string;
           r ← xreadCommand E [str "XREAD"; str "BLOCK"; str "0"; str "STREAMS"; str "s"; str "$"];
           match r with
           | Replies _ => xpure None
           | Waits b => _ ← add "b"%string; r1 ← xread_event E b Woken; r2 ← xread_event E b Woken; r3 ← xread_event E b Polled; mret (r1, r2, r3)
           end) (mkX (initial default_limits false) ∅) = Some (None, None, None).
Proof. vm_compute. reflexivity. Qed.

(** With COUNT the same client is served. *)
Example waiting_reader_with_count_is_served :
  let E := frozen 5 in
  let add v := xaddCommand E 0 tiny_alloc [str "XADD"; str "s"; str "*"; str "f"; str v] in
  fst <$> (_ ← add "a"%string;
           r ← xreadCommand E [str "XREAD"; str "BLOCK"; str "0"; str "COUNT"; str "1"; str "STREAMS"; str "s"; str "$"];
           match r with
           | Replies _ => xpure None
           | Waits b => r1 ← xread_event E b Woken; _ ← add "b"%string; r2 ← xread_event E b Woken; mret (r1, r2)
           end) (mkX (initial default_limits false) ∅) =
    Some (None, Some (Array [named_reply (str "s") [mkSE (mkID 5 1) [str "f"] [str "b"]]])).
Proof. vm_compute. reflexivity. Qed.

(** An option without its value: the handler reads past the end of the request. *)
Example xread_option_without_value_panics E (x : XSt Z) : xreadCommand E [str "XREAD"; str "COUNT"; str "1"; str "BLOCK"] x = None.
Proof. reflexivity. Qed.

Example xreadgroup_option_without_value_panics E (x : XSt Z) :
  xreadgroupCommand E [str "XREADGROUP"; str "COUNT"; str "1"; str "COUNT"; str "1"; str "GROUP"; str "g"] x = None.
Proof. reflexivity. Qed.

(** The stream is made before the id is looked at: a refused XADD leaves an empty stream behind. *)
Example refused_xadd_leaves_a_stream :
  let E := frozen 5 in
  fst <$> (r ← xaddCommand E 0 tiny_alloc [str "XADD"; str "s"; str "x"; str "f"; str "a"]; b ← xlift (db_Exists E (str "s")); mret (r, b))
    (mkX (initial default_limits false) ∅) = Some (invalid_id, true).
Proof. vm_compute. reflexivity. Qed.

(** XADD with a star is passed on as it came, and the id is made again where it is executed again. *)
Example replayed_xadd_gets_another_id :
  let argv := [str "XADD"; str "s"; str "*"; str "f"; str "a"] in
  let reply_at t := fst <$> xaddCommand (frozen t) 0 tiny_alloc argv (mkX (initial default_limits false) ∅) in
  normalizeForPropagation false 5 (str "xadd") argv (BulkString (str "5-0")) = Some (Some argv) /\
  reply_at 5 = Some (BulkString (str "5-0")) /\ reply_at 9 = Some (BulkString (str "9-0")).
Proof. vm_compute. auto. Qed.
