(* ===== verification/Hashes.v ===== *)
(** * Hash commands ([commands/hash_encoding.go], [commands/hash.go], [commands/hash_ops.go])

    A [hashView] is a handle on the container of a hash: a listpack of alternating fields and
    values, or a dictionary.  A write that passes a threshold promotes the listpack: a new
    dictionary is allocated and published under the key with [SetKeepTTL].  Missing are
    HINCRBYFLOAT (floats) and HRANDFIELD (random choice). *)

From S2P Require Import Prelude Strconv Listpack Dict Object Value Db DbSpec Reply Context Strings.
Local Open Scope Z_scope.

(** Which of the fields [lp] and [d] is set, with its pointer. *)
Inductive hash_rep := HLp (l : nat) | HDict (l : nat).

Record hashView := mkHv { hv_key : bytes; hv_rep : hash_rep }.

Definition load_lp (l : nat) : M Listpack := c ← load l; match c with CListpack lp => mret lp | _ => panic end.
Definition load_dict (l : nat) : M Dict := c ← load l; match c with CDict d => mret d | _ => panic end.

(** The walk over a listpack that pairs every field with the value after it. *)
Definition lp_pairs (lp : Listpack) : option (list (bytes * bytes)) :=
  snd <$> Listpack.ForEach lp
    (fun (st : bytes * list (bytes * bytes)) i v =>
       (if Z.rem i 2 =? 0 then (v, st.2) else (st.1, st.2 ++ [(st.1, v)]), true)) ([], []).

Section views.
Variable E : env.

Definition hv_Len (h : hashView) : M Z :=
  match hv_rep h with
  | HDict l => d ← load_dict l; mret (dict_Len d)
  | HLp l => lp ← load_lp l; mret (Z.quot (Listpack.Len lp) 2)
  end.

Definition hv_Get (h : hashView) (field : bytes) : M (option bytes) :=
  match hv_rep h with
  | HDict l => d ← load_dict l; mret (dict_Get d field)
  | HLp l =>
    lp ← load_lp l;
    i ← lift (Listpack.Find lp field 0 2);
    if i <? 0 then mret None
    else v ← lift (Listpack.Get lp (i + 1)); mret (Some (default [] v))
  end.

(** The pairs in the order in which [ForEach] visits them. *)
Definition hv_entries (h : hashView) : M (list (bytes * bytes)) :=
  match hv_rep h with
  | HDict l => d ← load_dict l; order ← gets (fun s => dict_order E (s_tick s)); mret (dict_entries order d)
  | HLp l => lp ← load_lp l; lift (lp_pairs lp)
  end.

Definition hash_publish (key : bytes) (l : nat) (enc : ObjectEncoding) : M unit :=
  db_SetKeepTTL E key (mkRobj OBJ_HASH enc 0 (PRef l)).

Definition hash_promote (key : bytes) (lp : Listpack) : M hashView :=
  kvs ← lift (lp_pairs lp);
  l ← alloc (CDict (fold_left (fun d kv => (dict_Set d kv.1 kv.2).1) kvs NewDict));
  _ ← hash_publish key l OBJ_ENCODING_HT;
  mret (mkHv key (HDict l)).

Definition hash_shouldPromote (L : limits) (lp : Listpack) (field val : bytes) : option bool :=
  if (HashMaxListpackValue L <? zlen val) || (HashMaxListpackValue L <? zlen field) then Some true
  else
    i ← Listpack.Find lp field 0 2;
    if 0 <=? i then Some false else Some (HashMaxListpackEntries L <=? Z.quot (Listpack.Len lp) 2).

(** The view after the write, and whether the field is new. *)
Definition hv_Set (h : hashView) (field val : bytes) : M (hashView * bool) :=
  L ← gets s_lim;
  h ← match hv_rep h with
      | HDict _ => mret h
      | HLp l =>
        lp ← load_lp l;
        p ← lift (hash_shouldPromote L lp field val);
        if p : bool then hash_promote (hv_key h) lp else mret h
      end;
  match hv_rep h with
  | HDict l =>
    d ← load_dict l;
    let '(d, isNew) := dict_Set d field val in
    _ ← store l (CDict d); mret (h, isNew)
  | HLp l =>
    lp ← load_lp l;
    i ← lift (Listpack.Find lp field 0 2);
    if 0 <=? i then
      '(lp, _) ← lift (Listpack.ReplaceAt lp (i + 1) val);
      _ ← store l (CListpack lp); mret (h, false)
    else
      _ ← store l (CListpack (Listpack.Append (Listpack.Append lp field) val)); mret (h, true)
  end.

Definition hv_Del (h : hashView) (field : bytes) : M bool :=
  match hv_rep h with
  | HDict l =>
    d ← load_dict l;
    let '(d, b) := dict_Del d field in
    _ ← store l (CDict d); mret b
  | HLp l =>
    lp ← load_lp l;
    i ← lift (Listpack.Find lp field 0 2);
    if i <? 0 then mret false
    else
      '(lp, _) ← lift (Listpack.DeleteRange lp i 2);
      _ ← store l (CListpack lp); mret true
  end.

Definition internal_hash : bytes := Error (str "internal hash type error").

(** The legacy map is folded into a dictionary, which is published. *)
Definition newHashView (key : bytes) (obj : robj) : M (bytes + hashView) :=
  match o_Ptr obj with
  | PRef l =>
    c ← load l;
    match c with
    | CListpack _ => mret (inr (mkHv key (HLp l)))
    | CDict _ => mret (inr (mkHv key (HDict l)))
    | CMap m =>
      order ← gets (fun s => dict_order E (s_tick s));
      l' ← alloc (CDict (fold_left (fun d kv => (dict_Set d kv.1 kv.2).1) (order m) NewDict));
      _ ← hash_publish key l' OBJ_ENCODING_HT;
      mret (inr (mkHv key (HDict l')))
    | _ => mret (inl internal_hash)
    end
  | _ => mret (inl internal_hash)
  end.

Definition getOrCreateHash (key : bytes) : M (bytes + hashView) :=
  obj ← db_Get E key;
  match obj with
  | None =>
    l ← alloc (CListpack Listpack.New);
    _ ← db_Set E key (mkRobj OBJ_HASH OBJ_ENCODING_LISTPACK 0 (PRef l));
    mret (inr (mkHv key (HLp l)))
  | Some o => if negb (is_type o OBJ_HASH) then mret (inl wrongtype) else newHashView key o
  end.

(** [inr None] is a missing key. *)
Definition getHash (key : bytes) : M (bytes + option hashView) :=
  obj ← db_Get E key;
  match obj with
  | None => mret (inr None)
  | Some o =>
    if negb (is_type o OBJ_HASH) then mret (inl wrongtype)
    else
      r ← newHashView key o;
      mret (match r with inl err => inl err | inr h => inr (Some h) end)
  end.

(** ** Handlers *)

Fixpoint hset_pairs (h : hashView) (pairs : list bytes) (created : Z) : M Z :=
  match pairs with
  | f :: v :: pairs => '(h, isNew) ← hv_Set h f v; hset_pairs h pairs (if isNew : bool then created + 1 else created)
  | _ => mret created
  end.

Definition hsetGeneric (argv : list bytes) (name : bytes) : M bytes :=
  key ← arg argv 1;
  let pairs := drop 2 argv in
  if negb (Z.rem (zlen pairs) 2 =? 0) then mret (Error (str "wrong number of arguments for '" ++ name ++ str "' command"))
  else
    r ← getOrCreateHash key;
    match r with
    | inl err => mret err
    | inr h => n ← hset_pairs h pairs 0; mret (Integer n)
    end.

Definition hsetCommand (argv : list bytes) : M bytes := hsetGeneric argv (str "hset").

Definition hmsetCommand (argv : list bytes) : M bytes :=
  reply ← hsetGeneric argv (str "hmset");
  mret (match reply with 45 :: _ => reply | _ => OK end).

Definition hsetnxCommand (argv : list bytes) : M bytes :=
  key ← arg argv 1;
  field ← arg argv 2;
  r ← getOrCreateHash key;
  match r with
  | inl err => mret err
  | inr h =>
    v ← hv_Get h field;
    match v with
    | Some _ => mret (Integer 0)
    | None => val ← arg argv 3; _ ← hv_Set h field val; mret (Integer 1)
    end
  end.

Definition hgetCommand (argv : list bytes) : M bytes :=
  key ← arg argv 1;
  r ← getHash key;
  match r with
  | inl err => mret err
  | inr None => mret NullBulkString
  | inr (Some h) =>
    field ← arg argv 2;
    v ← hv_Get h field;
    mret (match v with None => NullBulkString | Some val => BulkString val end)
  end.

Definition hstrlenCommand (argv : list bytes) : M bytes :=
  key ← arg argv 1;
  r ← getHash key;
  match r with
  | inl err => mret err
  | inr None => mret (Integer 0)
  | inr (Some h) =>
    field ← arg argv 2;
    v ← hv_Get h field;
    mret (match v with None => Integer 0 | Some val => Integer (zlen val) end)
  end.

Fixpoint hdel_fields (h : hashView) (fields : list bytes) (deleted : Z) : M Z :=
  match fields with
  | [] => mret deleted
  | f :: fields => b ← hv_Del h f; hdel_fields h fields (if b : bool then deleted + 1 else deleted)
  end.

Definition hdelCommand (argv : list bytes) : M bytes :=
  key ← arg argv 1;
  r ← getHash key;
  match r with
  | inl err => mret err
  | inr None => mret (Integer 0)
  | inr (Some h) =>
    deleted ← hdel_fields h (drop 2 argv) 0;
    n ← hv_Len h;
    _ ← (if n =? 0 then db_Del E key else mret false);
    mret (Integer deleted)
  end.

Definition hexistsCommand (argv : list bytes) : M bytes :=
  key ← arg argv 1;
  r ← getHash key;
  match r with
  | inl err => mret err
  | inr None => mret (Integer 0)
  | inr (Some h) =>
    field ← arg argv 2;
    v ← hv_Get h field;
    mret (if bool_decide (is_Some v) then Integer 1 else Integer 0)
  end.

Definition hlenCommand (argv : list bytes) : M bytes :=
  key ← arg argv 1;
  r ← getHash key;
  match r with
  | inl err => mret err
  | inr None => mret (Integer 0)
  | inr (Some h) => n ← hv_Len h; mret (Integer n)
  end.

Definition hgetallCommand (argv : list bytes) : M bytes :=
  key ← arg argv 1;
  r ← getHash key;
  r3 ← resp3;
  match r with
  | inl err => mret err
  | inr None => mret (MapReply r3 [])
  | inr (Some h) =>
    n ← hv_Len h;
    if n =? 0 then mret (MapReply r3 [])
    else
      kvs ← hv_entries h;
      mret (MapReply r3 (concat ((fun kv => [BulkString kv.1; BulkString kv.2]) <$> kvs)))
  end.

(** HKEYS and HVALS write the header with [Len] and then one bulk string per visited pair. *)
Definition hash_column (proj : bytes * bytes -> bytes) (argv : list bytes) : M bytes :=
  key ← arg argv 1;
  r ← getHash key;
  match r with
  | inl err => mret err
  | inr None => mret (str "*0" ++ crlf)
  | inr (Some h) =>
    n ← hv_Len h;
    if n =? 0 then mret (str "*0" ++ crlf)
    else
      kvs ← hv_entries h;
      mret (str "*" ++ FormatInt n ++ crlf ++ concat ((fun kv => BulkString (proj kv)) <$> kvs))
  end.

Definition hkeysCommand : list bytes -> M bytes := hash_column fst.
Definition hvalsCommand : list bytes -> M bytes := hash_column snd.

Fixpoint hmget_fields (h : hashView) (fields : list bytes) : M bytes :=
  match fields with
  | [] => mret []
  | f :: fields =>
    v ← hv_Get h f;
    rest ← hmget_fields h fields;
    mret (match v with Some val => BulkString val | None => NullBulkString end ++ rest)
  end.

(** An error of [getHash] is swallowed: every field is null. *)
Definition hmgetCommand (argv : list bytes) : M bytes :=
  key ← arg argv 1;
  let fields := drop 2 argv in
  let header := str "*" ++ FormatInt (zlen argv - 2) ++ crlf in
  r ← getHash key;
  match r with
  | inr (Some h) => body ← hmget_fields h fields; mret (header ++ body)
  | _ => mret (header ++ concat ((fun _ => NullBulkString) <$> fields))
  end.

Definition hincrbyCommand (argv : list bytes) : M bytes :=
  key ← arg argv 1;
  field ← arg argv 2;
  a3 ← arg argv 3;
  match ParseInt a3 with
  | None => mret not_integer
  | Some incr =>
    r ← getOrCreateHash key;
    match r with
    | inl err => mret err
    | inr h =>
      existing ← hv_Get h field;
      match match existing with Some b => ParseInt b | None => Some 0 end with
      | None => mret (Error (str "hash value is not an integer"))
      | Some curVal =>
        if ((0 <? incr) && (max_int64 - incr <? curVal)) || ((incr <? 0) && (curVal <? min_int64 - incr))
        then mret (Error (str "increment or decrement would overflow"))
        else
          let newVal := s64 (curVal + incr) in
          _ ← hv_Set h field (FormatInt newVal);
          mret (Integer newVal)
      end
    end
  end.

End views.
