(* ===== verification/HashSpec.v ===== *)
(** * Hash commands against the dataset

    [hash_at] says that a view is on the container of a key whose value is the map [hm].  The rules
    for the operations of a view hide which encoding it has and when it is promoted; the lemmas on
    the handlers use nothing else. *)

From S2P Require Import Prelude Strconv Listpack Dict Object Value Db DbSpec Reply Context Strings StringSpec Hashes.
Local Open Scope Z_scope.

(** ** A listpack of pairs *)

Lemma flat_lookup kvs n :
  flat kvs !! (2 * n)%nat = fst <$> kvs !! n /\ flat kvs !! (2 * n + 1)%nat = snd <$> kvs !! n.
Proof.
  revert n. induction kvs as [|[k v] kvs IH]; intros n; [by rewrite !lookup_nil|]. rewrite flat_cons.
  destruct n as [|n]; [done|]. replace (2 * S n)%nat with (S (S (2 * n))) by lia. cbn. apply IH.
Qed.

Lemma flat_insert kvs n k v v' : kvs !! n = Some (k, v') -> <[(2 * n + 1)%nat := v]> (flat kvs) = flat (<[n := (k, v)]> kvs).
Proof.
  revert n. induction kvs as [|[j w] kvs IH]; intros n Hn; [done|]. rewrite flat_cons. destruct n as [|n].
  { cbn in Hn. by simplify_eq. }
  replace (2 * S n + 1)%nat with (S (S (2 * n + 1))) by lia. cbn [list_insert insert]. rewrite flat_cons. do 2 f_equal. by apply IH.
Qed.

Lemma flat_take_drop kvs n :
  take (2 * n) (flat kvs) ++ drop (2 * n + 2) (flat kvs) = flat (take n kvs ++ drop (S n) kvs).
Proof.
  revert n. induction kvs as [|[j w] kvs IH]; intros n.
  { unfold flat. cbn. by rewrite !take_nil, !drop_nil. }
  rewrite flat_cons. destruct n as [|n]; [done|].
  replace (2 * S n)%nat with (S (S (2 * n))) by lia. replace (S (S (2 * n)) + 2)%nat with (S (S (2 * n + 2))) by lia.
  cbn [take drop app]. rewrite flat_cons. cbn [app]. do 2 f_equal. apply IH.
Qed.

Lemma find_flat lp kvs f :
  Listpack.repr lp (flat kvs) -> exists i, Listpack.Find lp f 0 2 = Some i /\
    ((i = -1 /\ (f ∉ kvs.*1)) \/ exists n v, i = 2 * Z.of_nat n /\ kvs !! n = Some (f, v)).
Proof.
  intros Hr. destruct (Find_repr lp (flat kvs) f 0 2 Hr) as (i & E & Hi); [lia|lia|]. exists i. split; [done|].
  destruct Hi as [[-> Hno]|(n & -> & Hn & [_ Hmod] & _)].
  - left. split; [done|]. intros ([j v] & -> & Hj)%list_elem_of_fmap. apply list_elem_of_lookup in Hj as [n Hn].
    apply (Hno (2 * n)%nat j); [by rewrite (proj1 (flat_lookup kvs n)), Hn| |done]. split; [lia|].
    rewrite Z.sub_0_r, Nat2Z.inj_mul, Z.mul_comm. apply Z_mod_mult.
  - right. rewrite Z.sub_0_r in Hmod. apply Z.mod_divide in Hmod as [q Hq]; [|lia].
    assert (n = 2 * Z.to_nat q)%nat as -> by lia. rewrite (proj1 (flat_lookup kvs _)) in Hn.
    destruct (kvs !! Z.to_nat q) as [[j v]|] eqn:Ej; [|done]. cbn in Hn. simplify_eq. exists (Z.to_nat q), v. split; [lia|done].
Qed.

Lemma lp_pairs_repr lp kvs : Listpack.repr lp (flat kvs) -> lp_pairs lp = Some kvs.
Proof.
  intros Hr. unfold lp_pairs. rewrite (ForEach_repr lp _ _ _ Hr). cbn. f_equal.
  assert (forall kvs n acc f0, (Listpack.fold_stop
    (fun (st : bytes * list (bytes * bytes)) i v => (if Z.rem i 2 =? 0 then (v, st.2) else (st.1, st.2 ++ [(st.1, v)]), true))
    (2 * n) (flat kvs) (f0, acc)).2 = acc ++ kvs) as H; [|apply (H kvs 0 [] [])].
  clear. induction kvs as [|[k v] kvs IH]; intros n acc f0; [by rewrite app_nil_r|]. rewrite flat_cons.
  cbn [Listpack.fold_stop]. rewrite (Z.mul_comm 2 n), Z.rem_mul by lia. cbn [Z.eqb negb fst snd].
  replace (Z.rem (n * 2 + 1) 2 =? 0) with false.
  - cbn [negb fst snd]. replace (n * 2 + 1 + 1) with (2 * (n + 1)) by lia. rewrite IH, <- app_assoc. done.
  - symmetry. apply Z.eqb_neq. rewrite (Z.rem_eq (n * 2 + 1) 2) by lia.
    pose proof (Z.quot_rem' (n * 2 + 1) 2). lia.
Qed.

Lemma map_insert_pos (kvs : list (bytes * bytes)) n k v v' :
  NoDup kvs.*1 -> kvs !! n = Some (k, v') ->
  NoDup (<[n := (k, v)]> kvs).*1 /\ (list_to_map (<[n := (k, v)]> kvs) : gmap bytes bytes) = <[k := v]> (list_to_map kvs).
Proof.
  intros Hnd Hn. assert ((<[n := (k, v)]> kvs).*1 = kvs.*1) as Hk.
  { rewrite list_fmap_insert. apply list_insert_id. by rewrite list_lookup_fmap, Hn. }
  split; [by rewrite Hk|]. apply map_eq. intros j. apply option_eq. intros w.
  rewrite <- elem_of_list_to_map by by rewrite Hk. destruct (decide (j = k)) as [->|Hj].
  - rewrite lookup_insert_eq. rewrite elem_of_list_to_map by by rewrite Hk.
    assert ((list_to_map (<[n := (k, v)]> kvs) : gmap bytes bytes) !! k = Some v) as ->.
    { apply elem_of_list_to_map; [by rewrite Hk|]. apply list_elem_of_lookup. exists n. apply list_lookup_insert_eq. by eapply lookup_lt_Some. }
    done.
  - rewrite lookup_insert_ne by done. rewrite <- elem_of_list_to_map by done. rewrite !list_elem_of_lookup. split.
    + intros [i Hi]. exists i. destruct (decide (n = i)) as [->|Hni]; [|by rewrite list_lookup_insert_ne in Hi].
      rewrite list_lookup_insert_eq in Hi by (by eapply lookup_lt_Some). simplify_eq.
    + intros [i Hi]. exists i. rewrite list_lookup_insert_ne; [done|]. intros ->. simplify_eq.
Qed.

Lemma map_remove_pos (kvs : list (bytes * bytes)) n k v :
  NoDup kvs.*1 -> kvs !! n = Some (k, v) ->
  NoDup (take n kvs ++ drop (S n) kvs).*1 /\ (list_to_map (take n kvs ++ drop (S n) kvs) : gmap bytes bytes) = delete k (list_to_map kvs).
Proof.
  intros Hnd Hn. pose proof (take_drop_middle _ _ _ Hn) as Hs. rewrite <- Hs in Hnd. rewrite fmap_app, fmap_cons in Hnd.
  assert (NoDup (k :: (take n kvs ++ drop (S n) kvs).*1)) as Hnd'.
  { rewrite fmap_app. cbn in Hnd. by rewrite <- Permutation_middle in Hnd. }
  apply NoDup_cons in Hnd' as [Hk Hnd']. split; [done|].
  assert ((list_to_map kvs : gmap bytes bytes) = <[k := v]> (list_to_map (take n kvs ++ drop (S n) kvs))) as ->.
  { transitivity (list_to_map (take n kvs ++ (k, v) :: drop (S n) kvs) : gmap bytes bytes); [by rewrite Hs|].
    rewrite !list_to_map_app, list_to_map_cons. symmetry. apply insert_union_r.
    apply not_elem_of_list_to_map_1. intros Hin. apply Hk. rewrite fmap_app. apply elem_of_app. by left. }
  rewrite delete_insert_eq. symmetry. apply delete_id. by apply not_elem_of_list_to_map_1.
Qed.

(** ** A view on a hash *)

Definition loc_of (r : hash_rep) : nat := match r with HLp l | HDict l => l end.
Definition enc_of (r : hash_rep) : ObjectEncoding := match r with HLp _ => OBJ_ENCODING_LISTPACK | HDict _ => OBJ_ENCODING_HT end.

(** Go's maps are walked in some order, every entry once. *)
Record orders_ok (E : env) : Prop := {
  oo_dict n : map_order_ok (dict_order E n);
  oo_set n : set_order_ok (set_order E n)
}.

Section views.
Variables (E : env) (T : Z).
Hypothesis Hclk : instant E T.

Record hash_at (m : dataset) (s : St) (h : hashView) (hm : gmap bytes bytes) (e : Z) : Prop := {
  ha_rel : abs_rel T m s;
  ha_key : m !! hv_key h = Some (RHash hm, e);
  ha_view : view T s (hv_key h) = Some ((OBJ_HASH, enc_of (hv_rep h), PRef (loc_of (hv_rep h))), e)
}.

Lemma hash_at_holds m s h hm e :
  hash_at m s h hm e -> exists c, s_heap s !! loc_of (hv_rep h) = Some c /\ holds (enc_of (hv_rep h)) c (RHash hm).
Proof.
  intros [H Hk Hv]. pose proof (ar_keys _ _ _ H (hv_key h)) as Hkk. rewrite Hk, Hv in Hkk.
  destruct Hkk as (_ & [_ (l & c & [= <-] & Hl & Hh)] & _). eauto.
Qed.

(** The two shapes a view can have. *)
Lemma hash_at_cases m s h hm e :
  hash_at m s h hm e ->
  (exists l lp kvs, hv_rep h = HLp l /\ s_heap s !! l = Some (CListpack lp) /\ Listpack.repr lp (flat kvs) /\ compact (flat kvs) /\
     NoDup kvs.*1 /\ hm = list_to_map kvs) \/
  (exists l d, hv_rep h = HDict l /\ s_heap s !! l = Some (CDict d) /\ dict_wf d /\ hm = dict_map d).
Proof.
  intros H. destruct (hash_at_holds _ _ _ _ _ H) as (c & Hc & Hh). destruct h as [k [l|l]]; cbn in *.
  - left. destruct c; try done. destruct Hh as (kvs & ?). exists l, lp, kvs. naive_solver.
  - right. destruct c; try done. exists l, d. naive_solver.
Qed.

Lemma wp_load_lp l lp s (Q : Listpack -> St -> Prop) : s_heap s !! l = Some (CListpack lp) -> Q lp s -> wp (load_lp l) s Q.
Proof. intros Hl HQ. apply wp_bind. eapply load_rule; [done|]. by apply wp_ret. Qed.

Lemma wp_load_dict l d s (Q : Dict -> St -> Prop) : s_heap s !! l = Some (CDict d) -> Q d s -> wp (load_dict l) s Q.
Proof. intros Hl HQ. apply wp_bind. eapply load_rule; [done|]. by apply wp_ret. Qed.

Lemma hv_Get_rule m s h hm e f (Q : option bytes -> St -> Prop) :
  hash_at m s h hm e -> Q (hm !! f) s -> wp (hv_Get h f) s Q.
Proof.
  intros H HQ. unfold hv_Get. destruct (hash_at_cases _ _ _ _ _ H) as [(l & lp & kvs & -> & Hl & Hr & _ & Hnd & ->)|(l & d & -> & Hl & Hd & ->)].
  - apply wp_bind. eapply wp_load_lp; [done|]. destruct (find_flat lp kvs f Hr) as (i & Ei & Hi). apply wp_bind. eapply wp_lift; [done|].
    destruct Hi as [[-> Hno]|(n & v & -> & Hn)].
    + apply wp_ret. rewrite not_elem_of_list_to_map_1 in HQ by done. done.
    + rewrite (proj2 (Z.ltb_ge _ _)) by lia. apply wp_bind. eapply wp_lift; [by apply (Get_repr lp (flat kvs))|].
      rewrite (proj2 (Z.ltb_ge _ _)) by lia. replace (Z.to_nat _) with (2 * n + 1)%nat by lia.
      rewrite (proj2 (flat_lookup kvs n)), Hn. apply wp_ret.
      replace (Some (default [] (snd <$> Some (f, v)))) with ((list_to_map kvs : gmap bytes bytes) !! f); [done|].
      apply elem_of_list_to_map; [done|]. by eapply list_elem_of_lookup_2.
  - apply wp_bind. eapply wp_load_dict; [done|]. apply wp_ret. by rewrite dict_Get_spec.
Qed.

Lemma map_size_nodup (kvs : list (bytes * bytes)) : NoDup kvs.*1 -> size (list_to_map kvs : gmap bytes bytes) = length kvs.
Proof. intros Hnd. rewrite <- length_map_to_list. by rewrite map_to_list_to_map. Qed.

Lemma hv_Len_rule m s h hm e (Q : Z -> St -> Prop) :
  hash_at m s h hm e -> Q (Z.of_nat (size hm)) s -> wp (hv_Len h) s Q.
Proof.
  intros H HQ. unfold hv_Len. destruct (hash_at_cases _ _ _ _ _ H) as [(l & lp & kvs & -> & Hl & Hr & _ & Hnd & ->)|(l & d & -> & Hl & Hd & ->)].
  - apply wp_bind. eapply wp_load_lp; [done|]. apply wp_ret. unfold Listpack.Len. rewrite (repr_n _ _ Hr), flat_length.
    rewrite Z.mul_comm, Z.quot_mul by lia. by rewrite map_size_nodup in HQ.
  - apply wp_bind. eapply wp_load_dict; [done|]. apply wp_ret. by rewrite dict_Len_spec.
Qed.

Lemma hv_entries_rule m s h hm e (Q : list (bytes * bytes) -> St -> Prop) :
  orders_ok E -> hash_at m s h hm e -> (forall kvs, kvs ≡ₚ map_to_list hm -> Q kvs s) -> wp (hv_entries E h) s Q.
Proof.
  intros Ho H HQ. unfold hv_entries. destruct (hash_at_cases _ _ _ _ _ H) as [(l & lp & kvs & -> & Hl & Hr & _ & Hnd & ->)|(l & d & -> & Hl & Hd & ->)].
  - apply wp_bind. eapply wp_load_lp; [done|]. eapply wp_lift; [by apply lp_pairs_repr|]. apply HQ. by rewrite map_to_list_to_map.
  - apply wp_bind. eapply wp_load_dict; [done|]. apply wp_bind, wp_gets, wp_ret. apply HQ. apply dict_entries_spec; [apply Ho|done].
Qed.

(** A change in place of the container of [h]. *)
Lemma hash_store m s h hm e c hm' (Q : unit -> St -> Prop) :
  hash_at m s h hm e -> holds (enc_of (hv_rep h)) c (RHash hm') ->
  (forall s', hash_at (<[hv_key h := (RHash hm', e)]> m) s' h hm' e -> quiet s s' -> Q tt s') ->
  wp (store (loc_of (hv_rep h)) c) s Q.
Proof.
  intros [H Hk Hv] Hh HQ. eapply (store_rule T m s (hv_key h) _ _ _ _ _ (RHash hm')); [done|exact Hv| |].
  { split; [done|]. exists (loc_of (hv_rep h)), c. split_and!; [done| |done]. by rewrite lookup_insert_eq. }
  intros s' H' Hq _ Hview. apply HQ; [|done]. split; [done|by rewrite lookup_insert_eq|by rewrite Hview].
Qed.

Lemma fold_set_pairs kvs d : fold_left (fun d kv => (dict_Set d kv.1 kv.2).1) kvs d = set_pairs d (flat kvs).
Proof. revert d. induction kvs as [|[k v] kvs IH]; intros d; [done|]. rewrite flat_cons. cbn. apply IH. Qed.

Lemma hash_promote_rule m s key l lp kvs e (Q : hashView -> St -> Prop) :
  hash_at m s (mkHv key (HLp l)) (list_to_map kvs) e -> NoDup kvs.*1 -> Listpack.repr lp (flat kvs) ->
  (forall l' s', hash_at m s' (mkHv key (HDict l')) (list_to_map kvs) e -> quiet s s' -> Q (mkHv key (HDict l')) s') ->
  wp (hash_promote E key lp) s Q.
Proof using Hclk.
  intros H Hnd Hr HQ. apply wp_bind. eapply wp_lift; [by apply lp_pairs_repr|]. rewrite fold_set_pairs.
  destruct (set_pairs_spec NewDict kvs NewDict_wf Hnd) as [Hd E2]; [intros; apply lookup_empty|].
  change (dict_map NewDict) with (∅ : gmap bytes bytes) in E2. rewrite (right_id_L ∅ (∪)) in E2.
  apply wp_bind. apply (alloc_rule T m); [apply H|]. intros l' s1 H1 Hq1 Hl' Hu _ Hv1.
  apply wp_bind. apply (db_SetKeepTTL_rule E T Hclk m s1 key _ (RHash (list_to_map kvs)) (RHash (list_to_map kvs)) e); [done|apply H| |].
  { split; [|intros l0 [= <-]; done]. split; [done|]. exists l', (CDict (set_pairs NewDict (flat kvs))). split_and!; [done|done|]. by split. }
  intros s2 H2 Hq2 _ _ Hv2. rewrite insert_id in H2 by apply H. apply wp_ret. apply HQ; [|chain]. split; [done|apply H|done].
Qed.

Lemma compact_replace xs n v : compact xs -> zlen v <= 2 ^ 28 -> compact (<[n := v]> xs).
Proof. intros [Hn Hf] Hv. split; [by rewrite zlen_insert|]. by apply Forall_insert. Qed.

Lemma holds_insert L lp kvs f v :
  limits_ok L -> Listpack.repr lp (flat kvs) -> compact (flat kvs) -> NoDup kvs.*1 ->
  hash_shouldPromote L lp f v = Some false ->
  exists i, Listpack.Find lp f 0 2 = Some i /\
    if 0 <=? i
    then exists lp', Listpack.ReplaceAt lp (i + 1) v = Some (lp', true) /\ is_Some ((list_to_map kvs : gmap bytes bytes) !! f) /\
      holds OBJ_ENCODING_LISTPACK (CListpack lp') (RHash (<[f := v]> (list_to_map kvs)))
    else (list_to_map kvs : gmap bytes bytes) !! f = None /\
      holds OBJ_ENCODING_LISTPACK (CListpack (Listpack.Append (Listpack.Append lp f) v)) (RHash (<[f := v]> (list_to_map kvs))).
Proof.
  intros HL Hr Hc Hnd Hp. unfold hash_shouldPromote in Hp. pose proof (lo_hash_v _ HL). pose proof (lo_hash_n _ HL).
  destruct ((HashMaxListpackValue L <? zlen v) || (HashMaxListpackValue L <? zlen f)) eqn:Ev; [done|].
  apply orb_false_iff in Ev as [Ev%Z.ltb_ge Ef%Z.ltb_ge].
  destruct (find_flat lp kvs f Hr) as (i & Ei & Hi). exists i. split; [done|]. rewrite Ei in Hp. cbn in Hp.
  destruct Hi as [[-> Hno]|(n & w & -> & Hn)].
  - cbn in Hp. injection Hp as Hp. apply Z.leb_gt in Hp. unfold Listpack.Len in Hp. rewrite (repr_n _ _ Hr), flat_length, Z.mul_comm, Z.quot_mul in Hp by lia.
    split; [by apply not_elem_of_list_to_map_1|]. exists (kvs ++ [(f, v)]).
    assert (compact (flat (kvs ++ [(f, v)]))) as Hc'.
    { split; [rewrite flat_length, zlen_app, zlen_cons, zlen_nil; lia|]. rewrite flat_app. apply Forall_app. split; [apply Hc|].
      change (flat [(f, v)]) with [f; v]. constructor; [lia|]. constructor; [lia|constructor]. }
    split_and!; [|done| |].
    + rewrite flat_app. change (flat [(f, v)]) with [f; v].
      assert (compact (flat kvs ++ [f] ++ [v])) as Hc2 by by rewrite flat_app in Hc'.
      exact (append_all_repr lp (flat kvs) [f; v] Hr Hc2).
    + rewrite fmap_app. apply NoDup_app. split_and!; [done| |apply NoDup_singleton]. intros x Hx. cbn. rewrite list_elem_of_singleton. congruence.
    + rewrite list_to_map_app, list_to_map_cons, list_to_map_nil, insert_empty. apply insert_union_singleton_r. by apply not_elem_of_list_to_map_1.
  - rewrite (proj2 (Z.leb_le _ _)) by lia.
    assert (spec_op (flat kvs) (OpReplaceAt (2 * Z.of_nat n + 1) v) = (<[(2 * n + 1)%nat := v]> (flat kvs), true)) as Hs.
    { cbn [spec_op]. pose proof (lookup_lt_Some _ _ _ Hn). rewrite flat_length. unfold zlen in *.
      rewrite (proj2 (Z.ltb_ge _ _)), (proj2 (Z.leb_gt _ _)) by lia. cbn [orb]. do 2 f_equal. lia. }
    rewrite (flat_insert kvs n f v w Hn) in Hs.
    assert (compact (flat (<[n := (f, v)]> kvs))) as Hc'.
    { rewrite <- (flat_insert kvs n f v w Hn). apply compact_replace; [done|lia]. }
    destruct (ReplaceAt_repr lp (flat kvs) (2 * Z.of_nat n + 1) v Hr) as (lp' & El & Hr').
    { unfold op_ok. rewrite Hs. split; [|done]. cbn [fst]. destruct Hc'. apply compact_fits; [lia|done]. }
    rewrite Hs in El, Hr'. cbn [fst snd] in *. destruct (map_insert_pos kvs n f v w Hnd Hn) as [Hnd' Hm'].
    exists lp'. split_and!; [done| |].
    + exists w. apply elem_of_list_to_map; [done|]. by eapply list_elem_of_lookup_2.
    + exists (<[n := (f, v)]> kvs). by rewrite Hm'.
Qed.

Lemma hv_Set_rule m s h hm e f v (Q : hashView * bool -> St -> Prop) :
  hash_at m s h hm e ->
  (forall h' s', hash_at (<[hv_key h := (RHash (<[f := v]> hm), e)]> m) s' h' (<[f := v]> hm) e -> hv_key h' = hv_key h -> quiet s s' ->
     Q (h', bool_decide (hm !! f = None)) s') ->
  wp (hv_Set E h f v) s Q.
Proof using Hclk.
  intros H HQ. apply wp_bind, wp_gets.
  assert (forall l d s1, s_heap s1 !! l = Some (CDict d) -> dict_wf d -> hm = dict_map d -> hash_at m s1 (mkHv (hv_key h) (HDict l)) hm e -> quiet s s1 ->
    wp (d ← load_dict l; let '(d, isNew) := dict_Set d f v in _ ← store l (CDict d); mret (mkHv (hv_key h) (HDict l), isNew)) s1 Q) as Hdict.
  { intros l d s1 Hl Hd -> H1 Hq1. apply wp_bind. eapply wp_load_dict; [done|]. destruct (dict_Set_spec d f v Hd) as (Hd' & Em & Eb).
    destruct (dict_Set d f v) as [d' b]. cbn in *. subst b. apply wp_bind.
    apply (hash_store m s1 (mkHv (hv_key h) (HDict l)) _ e (CDict d') (<[f := v]> (dict_map d)) _ H1); [by split|].
    intros s2 H2 Hq2. apply wp_ret. apply HQ; [done|done|chain]. }
  destruct h as [key rep]. cbn [hv_key hv_rep] in *.
  destruct (hash_at_cases _ _ _ _ _ H) as [(l & lp & kvs & Hrep & Hl & Hr & Hc & Hnd & ->)|(l & d & Hrep & Hl & Hd & ->)]; cbn in Hrep; subst rep.
  - apply wp_bind, wp_bind. eapply wp_load_lp; [done|].
    assert (exists p, hash_shouldPromote (s_lim s) lp f v = Some p) as [p Hp].
    { unfold hash_shouldPromote. case_match; [eauto|]. destruct (find_flat lp kvs f Hr) as (i & -> & _). cbn. case_match; eauto. }
    apply wp_bind. eapply wp_lift; [done|]. destruct p.
    + eapply hash_promote_rule; [done..|]. intros l' s1 H1 Hq1. cbn [hv_rep].
      destruct (hash_at_cases _ _ _ _ _ H1) as [(? & ? & ? & ? & _)|(l2 & d & [= <-] & Hl' & Hd & Hm)]; [done|]. by eapply Hdict.
    + apply wp_ret. cbn [hv_rep]. apply wp_bind. eapply wp_load_lp; [done|].
      destruct (holds_insert (s_lim s) lp kvs f v) as (i & Ei & Hi); [apply (ar_lim _ _ _ (ha_rel _ _ _ _ _ H))|done..|].
      apply wp_bind. eapply wp_lift; [done|]. destruct (0 <=? i).
      * destruct Hi as (lp' & Er & [w Hs] & Hh). apply wp_bind. eapply wp_lift; [done|]. apply wp_bind.
        apply (hash_store m s (mkHv key (HLp l)) _ e (CListpack lp') (<[f := v]> (list_to_map kvs)) _ H Hh). intros s1 H1 Hq1. apply wp_ret.
        rewrite Hs in HQ. by apply HQ.
      * destruct Hi as (Hs & Hh). apply wp_bind.
        apply (hash_store m s (mkHv key (HLp l)) _ e (CListpack _) (<[f := v]> (list_to_map kvs)) _ H Hh). intros s1 H1 Hq1. apply wp_ret.
        rewrite Hs in HQ. by apply HQ.
  - apply wp_bind, wp_ret. cbn [hv_rep]. eapply Hdict; [done..|apply quiet_refl].
Qed.

Lemma hv_Del_rule m s h hm e f (Q : bool -> St -> Prop) :
  hash_at m s h hm e ->
  (forall s', hash_at (<[hv_key h := (RHash (delete f hm), e)]> m) s' h (delete f hm) e -> quiet s s' -> Q (bool_decide (is_Some (hm !! f))) s') ->
  wp (hv_Del h f) s Q.
Proof.
  intros H HQ. unfold hv_Del. destruct h as [key rep]. cbn [hv_key hv_rep] in *.
  destruct (hash_at_cases _ _ _ _ _ H) as [(l & lp & kvs & Hrep & Hl & Hr & Hc & Hnd & ->)|(l & d & Hrep & Hl & Hd & ->)]; cbn in Hrep; subst rep.
  - apply wp_bind. eapply wp_load_lp; [done|]. destruct (find_flat lp kvs f Hr) as (i & Ei & Hi). apply wp_bind. eapply wp_lift; [done|].
    destruct Hi as [[-> Hno]|(n & w & -> & Hn)].
    + apply not_elem_of_list_to_map_1 in Hno. rewrite Hno, (delete_id _ _ Hno) in HQ. apply wp_ret.
      apply HQ; [|apply quiet_refl]. by rewrite insert_id by apply H.
    + rewrite (proj2 (Z.ltb_ge _ _)) by lia.
      assert (spec_op (flat kvs) (OpDeleteRange (2 * Z.of_nat n) 2) = (flat (take n kvs ++ drop (S n) kvs), true)) as Hs.
      { cbn [spec_op]. pose proof (lookup_lt_Some _ _ _ Hn). rewrite flat_length. unfold zlen in *.
        rewrite (proj2 (Z.ltb_ge _ _)), (proj2 (Z.ltb_ge (2 * Z.of_nat (length kvs)) _)) by lia. cbn [orb Z.leb Z.compare].
        rewrite <- flat_take_drop. do 3 f_equal; lia. }
      assert (compact (flat (take n kvs ++ drop (S n) kvs))) as Hc'.
      { destruct Hc as [Hc1 Hc2]. rewrite <- flat_take_drop. split.
        - rewrite zlen_app. unfold zlen in *. rewrite length_take, length_drop. lia.
        - apply Forall_app. split; [by apply Forall_take|by apply Forall_drop]. }
      destruct (DeleteRange_repr lp (flat kvs) (2 * Z.of_nat n) 2 Hr) as (lp' & El & Hr').
      { unfold op_ok. rewrite Hs. cbn [fst]. destruct Hc'. split; [apply compact_fits; [lia|done]|].
        pose proof (lookup_lt_Some _ _ _ Hn). destruct Hc as [Hc1 _]. rewrite flat_length in Hc1. unfold max_int64, zlen in *. lia. }
      rewrite Hs in El, Hr'. cbn [fst snd] in *. destruct (map_remove_pos kvs n f w Hnd Hn) as [Hnd' Hm'].
      apply wp_bind. eapply wp_lift; [done|]. apply wp_bind.
      apply (hash_store m s (mkHv key (HLp l)) _ e (CListpack lp') (delete f (list_to_map kvs)) _ H).
      { exists (take n kvs ++ drop (S n) kvs). by rewrite Hm'. }
      intros s1 H1 Hq1. apply wp_ret.
      assert ((list_to_map kvs : gmap bytes bytes) !! f = Some w) as Ef by (apply elem_of_list_to_map; [done|]; by eapply list_elem_of_lookup_2).
      rewrite Ef in HQ. by apply HQ.
  - apply wp_bind. eapply wp_load_dict; [done|]. destruct (dict_Del_spec d f Hd) as (Hd' & Em & Eb).
    destruct (dict_Del d f) as [d' b]. cbn in Hd', Em, Eb. subst b. apply wp_bind.
    apply (hash_store m s (mkHv key (HDict l)) _ e (CDict d') (delete f (dict_map d)) _ H); [by split|].
    intros s1 H1 Hq1. apply wp_ret. by apply HQ.
Qed.

(** *** Opening a view *)

Lemma newHashView_rule m s key o hm e (Q : bytes + hashView -> St -> Prop) :
  abs_rel T m s -> m !! key = Some (RHash hm, e) -> view T s key = Some (face o, e) ->
  (forall h, hv_key h = key -> hash_at m s h hm e -> Q (inr h) s) -> wp (newHashView E key o) s Q.
Proof.
  intros H Hk Hv HQ. pose proof (ar_keys _ _ _ H key) as Hkk. rewrite Hk, Hv in Hkk.
  destruct Hkk as (_ & [Ht (l & c & Hp & Hl & Hh)] & _). unfold face in *. unfold newHashView. rewrite Hp in *.
  apply wp_bind. eapply load_rule; [done|]. cbn in Hh, Ht.
  destruct (o_Encoding o) eqn:Ee; try done; destruct c; try done; apply wp_ret; apply HQ; try done; split; try done; cbn; by rewrite Hv, Ht.
Qed.

(** What a lookup of a hash finds. *)
Definition found_hash (m : dataset) (k : bytes) (r : bytes + option hashView) (s : St) : Prop :=
  match m !! k with
  | None => r = inr None /\ abs_rel T m s
  | Some (RHash hm, e) => exists h, r = inr (Some h) /\ hv_key h = k /\ hash_at m s h hm e
  | Some _ => r = inl wrongtype /\ abs_rel T m s
  end.

Lemma reads_type m s k v e o : reads T m s k (Some o) -> m !! k = Some (v, e) ->
  is_type o (type_of v) = true /\ view T s k = Some (face o, e) /\ forall t, t <> type_of v -> is_type o t = false.
Proof.
  unfold reads. intros Hr Hm. rewrite Hm in Hr. destruct Hr as (o' & [= <-] & Hr & Hv). destruct Hr as [Ht _]. cbn in Ht.
  unfold is_type. rewrite Ht. split_and!; [by apply bool_decide_eq_true|done|]. intros t Hn. apply bool_decide_eq_false. congruence.
Qed.

Lemma getHash_rule m s k (Q : bytes + option hashView -> St -> Prop) :
  abs_rel T m s -> (forall r s', keeps m s s' -> found_hash m k r s' -> Q r s') -> wp (getHash E k) s Q.
Proof using Hclk.
  intros H HQ. apply wp_bind. apply (db_Get_rule E T Hclk m); [done|]. intros r s1 H1 Hk1 _ _ Hr _. unfold found_hash in HQ.
  destruct (m !! k) as [[v e]|] eqn:Em; [|unfold reads in Hr; rewrite Em in Hr; subst r; apply wp_ret; by apply HQ].
  assert (exists o, r = Some o) as [o ->] by (unfold reads in Hr; rewrite Em in Hr; naive_solver).
  destruct (reads_type _ _ _ _ _ _ Hr Em) as (Ht & Hv & Hno).
  destruct v as [b|l|st|hm]; cbn [type_of] in *; [rewrite (Hno OBJ_HASH) by done; apply wp_ret; by apply HQ..|].
  rewrite Ht. cbn [negb]. apply wp_bind. eapply newHashView_rule; [done..|]. intros h Hh Hat. apply wp_ret. apply HQ; [done|]. eauto.
Qed.

(** The hash of [k], created when there is none. *)
Lemma getOrCreateHash_rule m s k (Q : bytes + hashView -> St -> Prop) :
  abs_rel T m s ->
  (forall r s', keeps m s s' ->
     match m !! k with
     | None => exists h, r = inr h /\ hv_key h = k /\ hash_at (<[k := (RHash ∅, 0)]> m) s' h ∅ 0
     | Some (RHash hm, e) => exists h, r = inr h /\ hv_key h = k /\ hash_at m s' h hm e
     | Some _ => r = inl wrongtype /\ abs_rel T m s'
     end -> Q r s') ->
  wp (getOrCreateHash E k) s Q.
Proof using Hclk.
  intros H HQ. apply wp_bind. apply (db_Get_rule E T Hclk m); [done|]. intros r s1 H1 Hk1 _ _ Hr _.
  destruct (m !! k) as [[v e]|] eqn:Em.
  - assert (exists o, r = Some o) as [o ->] by (unfold reads in Hr; rewrite Em in Hr; naive_solver).
    destruct (reads_type _ _ _ _ _ _ Hr Em) as (Ht & Hv & Hno).
    destruct v as [b|l|st|hm]; cbn [type_of] in *; [rewrite (Hno OBJ_HASH) by done; apply wp_ret; by apply HQ..|].
    rewrite Ht. cbn [negb]. eapply newHashView_rule; [done..|]. intros h Hh Hat. apply HQ; [done|]. eauto.
  - unfold reads in Hr. rewrite Em in Hr. subst r. apply wp_bind. apply (alloc_rule T m); [done|]. intros l s2 H2 Hq2 Hl Hu _ Hv2.
    apply wp_bind. apply (db_Set_rule E T Hclk m s2 k _ (RHash ∅)); [done| |].
    { split; [|intros l0 [= <-]; done]. split; [done|]. exists l, (CListpack Listpack.New). split_and!; [done|done|]. exists []. 
      split_and!; [apply New_repr|apply compact_nil|constructor|done]. }
    intros s3 H3 Hq3 _ _ Hv3. apply wp_ret. apply HQ; [chain|]. eexists. split_and!; [done|done|]. split; [done|by rewrite lookup_insert_eq|done].
Qed.

End views.

(** ** Meanings *)

Definition on_hash {A : Type} (m : dataset) (k : bytes) (none : A) (some : gmap bytes bytes -> A) (wrong : A) : A :=
  match m !! k with
  | None => none
  | Some (RHash hm, _) => some hm
  | Some _ => wrong
  end.

Definition deadline_of (m : dataset) (k : bytes) : Z := match m !! k with Some (_, e) => e | None => 0 end.

Definition put_fields (hm : gmap bytes bytes) (kvs : list (bytes * bytes)) (n : Z) : Z * gmap bytes bytes :=
  foldl (fun x kv => (if bool_decide (x.2 !! kv.1 = None) then x.1 + 1 else x.1, <[kv.1 := kv.2]> x.2)) (n, hm) kvs.

(** HSET counts the new fields; the deadline of the key stays. *)
Definition ref_HSET (m : dataset) (k : bytes) (kvs : list (bytes * bytes)) : bytes * dataset :=
  let put hm := let x := put_fields hm kvs 0 in (Integer x.1, <[k := (RHash x.2, deadline_of m k)]> m) in
  on_hash m k (put ∅) put (wrongtype, m).

Definition ref_HMSET (m : dataset) (k : bytes) (kvs : list (bytes * bytes)) : bytes * dataset :=
  let put hm := (OK, <[k := (RHash (put_fields hm kvs 0).2, deadline_of m k)]> m) in
  on_hash m k (put ∅) put (wrongtype, m).

Definition ref_HSETNX (m : dataset) (k f v : bytes) : bytes * dataset :=
  let put (hm : gmap bytes bytes) :=
    match hm !! f with
    | Some _ => (Integer 0, m)
    | None => (Integer 1, <[k := (RHash (<[f := v]> hm), deadline_of m k)]> m)
    end in
  on_hash m k (put ∅) put (wrongtype, m).

Definition ref_HGET (m : dataset) (k f : bytes) : bytes * dataset :=
  (on_hash m k NullBulkString (fun hm => match hm !! f with Some v => BulkString v | None => NullBulkString end) wrongtype, m).

Definition ref_HSTRLEN (m : dataset) (k f : bytes) : bytes * dataset :=
  (on_hash m k (Integer 0) (fun hm => match hm !! f with Some v => Integer (zlen v) | None => Integer 0 end) wrongtype, m).

Definition ref_HEXISTS (m : dataset) (k f : bytes) : bytes * dataset :=
  (on_hash m k (Integer 0) (fun hm => Integer (if bool_decide (is_Some (hm !! f)) then 1 else 0)) wrongtype, m).

Definition ref_HLEN (m : dataset) (k : bytes) : bytes * dataset :=
  (on_hash m k (Integer 0) (fun hm => Integer (Z.of_nat (size hm))) wrongtype, m).

(** A hash without fields is no key. *)
Definition ref_HDEL (m : dataset) (k : bytes) (fs : list bytes) : bytes * dataset :=
  on_hash m k (Integer 0, m)
    (fun hm =>
       let x := foldl (fun x f => (if bool_decide (is_Some (x.2 !! f)) then x.1 + 1 else x.1, delete f x.2)) (0, hm) fs in
       (Integer x.1, if bool_decide (x.2 = ∅) then delete k m else <[k := (RHash x.2, deadline_of m k)]> m))
    (wrongtype, m).

(** A key of another type has no fields for HMGET. *)
Definition ref_HMGET (m : dataset) (k : bytes) (fs : list bytes) : bytes * dataset :=
  (Array ((fun f => on_hash m k NullBulkString (fun hm => match hm !! f with Some v => BulkString v | None => NullBulkString end) NullBulkString) <$> fs), m).

Definition ref_HINCRBY (m : dataset) (k f : bytes) (d : Z) : bytes * dataset :=
  let put (hm : gmap bytes bytes) :=
    match match hm !! f with Some b => ParseInt b | None => Some 0 end with
    | None => (Error (str "hash value is not an integer"), m)
    | Some n =>
      if bool_decide (is_int64 (n + d)) then (Integer (n + d), <[k := (RHash (<[f := FormatInt (n + d)]> hm), deadline_of m k)]> m)
      else (Error (str "increment or decrement would overflow"), m)
    end in
  on_hash m k (put ∅) put (wrongtype, m).

(** ** The handlers *)

(** The lookup of a hash, by what is stored. *)
Ltac hash_cases m k :=
  let r := fresh "r" in let s1 := fresh "s1" in let Hr := fresh "Hr" in
  intros r s1 ? Hr; unfold found_hash in Hr; unfold on_hash, deadline_of;
  destruct (m !! k) as [[[?b|?x|?x|?hm] ?e]|] eqn:?Em;
  [destruct Hr as [-> ?]; replied..|destruct Hr as (?h & -> & ?Hkey & ?Hat)|destruct Hr as [-> ?]].

Section commands.
Variables (E : env) (T : Z).
Hypothesis Hclk : instant E T.

Local Notation does := (does T).
Local Notation hash_at := (hash_at T).

Lemma hgetCommand_ok m s n k f : abs_rel T m s -> does (hgetCommand E [n; k; f]) m s (ref_HGET m k f).
Proof using Hclk.
  intros H. apply (wp_arg _ _ k); [done|]. apply wp_bind. apply (getHash_rule E T Hclk m); [done|]. unfold ref_HGET. hash_cases m k.
  - apply (wp_arg _ _ f); [done|]. apply wp_bind. eapply hv_Get_rule; [done|]. destruct Hat. apply wp_ret. by destruct (hm !! f).
  - replied.
Qed.

Lemma hstrlenCommand_ok m s n k f : abs_rel T m s -> does (hstrlenCommand E [n; k; f]) m s (ref_HSTRLEN m k f).
Proof using Hclk.
  intros H. apply (wp_arg _ _ k); [done|]. apply wp_bind. apply (getHash_rule E T Hclk m); [done|]. unfold ref_HSTRLEN. hash_cases m k.
  - apply (wp_arg _ _ f); [done|]. apply wp_bind. eapply hv_Get_rule; [done|]. destruct Hat. apply wp_ret. by destruct (hm !! f).
  - replied.
Qed.

Lemma hexistsCommand_ok m s n k f : abs_rel T m s -> does (hexistsCommand E [n; k; f]) m s (ref_HEXISTS m k f).
Proof using Hclk.
  intros H. apply (wp_arg _ _ k); [done|]. apply wp_bind. apply (getHash_rule E T Hclk m); [done|]. unfold ref_HEXISTS. hash_cases m k.
  - apply (wp_arg _ _ f); [done|]. apply wp_bind. eapply hv_Get_rule; [done|]. destruct Hat. apply wp_ret. by destruct (bool_decide _).
  - replied.
Qed.

Lemma hlenCommand_ok m s n k : abs_rel T m s -> does (hlenCommand E [n; k]) m s (ref_HLEN m k).
Proof using Hclk.
  intros H. apply (wp_arg _ _ k); [done|]. apply wp_bind. apply (getHash_rule E T Hclk m); [done|]. unfold ref_HLEN. hash_cases m k.
  - apply wp_bind. eapply hv_Len_rule; [done|]. destruct Hat. replied.
  - replied.
Qed.

Lemma hmget_fields_ok m s h hm e fs (Q : bytes -> St -> Prop) :
  hash_at m s h hm e ->
  Q (concat ((fun f => match hm !! f with Some v => BulkString v | None => NullBulkString end) <$> fs)) s -> wp (hmget_fields h fs) s Q.
Proof.
  intros H. revert Q. induction fs as [|f fs IH]; intros Q HQ; [by apply wp_ret|]. cbn [hmget_fields fmap list_fmap concat] in *.
  apply wp_bind. eapply hv_Get_rule; [done|]. apply wp_bind, IH, wp_ret. by destruct (hm !! f).
Qed.

Lemma hmgetCommand_ok m s n k fs : abs_rel T m s -> does (hmgetCommand E (n :: k :: fs)) m s (ref_HMGET m k fs).
Proof using Hclk.
  intros H. apply (wp_arg _ _ k); [done|].
  assert (forall f : bytes -> bytes, str "*" ++ FormatInt (zlen (n :: k :: fs) - 2) ++ crlf ++ concat (f <$> fs) = Array (f <$> fs)) as Harr.
  { intros f. unfold Array. rewrite !zlen_cons. unfold zlen. rewrite length_fmap. do 4 f_equal. lia. }
  apply wp_bind. apply (getHash_rule E T Hclk m); [done|]. unfold ref_HMGET.
  intros r s1 Hk1 Hr. unfold found_hash, on_hash in *. change (drop 2 (n :: k :: fs)) with fs.
  destruct (m !! k) as [[[b|x|x|hm] e]|]; [destruct Hr as [-> ?]; apply wp_ret; (split_and!; [|done|done]); rewrite <- !app_assoc; apply Harr..| |
    destruct Hr as [-> ?]; apply wp_ret; (split_and!; [|done|done]); rewrite <- !app_assoc; apply Harr].
  destruct Hr as (h & -> & Hkey & Hat). apply wp_bind. eapply hmget_fields_ok; [done|]. destruct Hat. apply wp_ret.
  split_and!; [|done|done]. rewrite <- !app_assoc. apply Harr.
Qed.

Lemma hset_pairs_ok kvs : forall m s h hm e c (Q : Z -> St -> Prop),
  hash_at m s h hm e ->
  (forall s', abs_rel T (<[hv_key h := (RHash (put_fields hm kvs c).2, e)]> m) s' -> quiet s s' -> Q (put_fields hm kvs c).1 s') ->
  wp (hset_pairs E h (flat kvs) c) s Q.
Proof using Hclk.
  induction kvs as [|[f v] kvs IH]; intros m s h hm e c Q H HQ.
  { apply wp_ret. apply HQ; [|apply quiet_refl]. cbn. rewrite insert_id; apply H. }
  rewrite flat_cons. cbn [hset_pairs]. apply wp_bind. apply (hv_Set_rule E T Hclk m s h hm e); [done|]. intros h' s1 H1 Hkey Hq1.
  eapply IH; [exact H1|]. intros s2 H2 Hq2. rewrite Hkey, insert_insert_eq in H2. apply (HQ s2); [exact H2|chain].
Qed.

Lemma hsetGeneric_ok m s n k kvs name :
  abs_rel T m s -> does (hsetGeneric E (n :: k :: flat kvs) name) m s (ref_HSET m k kvs).
Proof using Hclk.
  intros H. apply (wp_arg _ _ k); [done|]. change (drop 2 (n :: k :: flat kvs)) with (flat kvs). cbv zeta. rewrite flat_even.
  apply wp_bind. apply (getOrCreateHash_rule E T Hclk m); [done|]. intros r s1 Hk1 Hr. unfold ref_HSET, on_hash, deadline_of.
  destruct (m !! k) as [[[b|x|x|hm] e]|] eqn:Em; [destruct Hr as [-> ?]; replied..| |].
  - destruct Hr as (h & -> & <- & Hat). apply wp_bind. eapply hset_pairs_ok; [done|]. replied.
  - destruct Hr as (h & -> & <- & Hat). apply wp_bind. eapply hset_pairs_ok; [done|]. intros s2 H2 Hq2. rewrite insert_insert_eq in H2. replied.
Qed.

Lemma hsetCommand_ok m s n k kvs : abs_rel T m s -> does (hsetCommand E (n :: k :: flat kvs)) m s (ref_HSET m k kvs).
Proof using Hclk. apply hsetGeneric_ok. Qed.

Lemma hmsetCommand_ok m s n k kvs : abs_rel T m s -> does (hmsetCommand E (n :: k :: flat kvs)) m s (ref_HMSET m k kvs).
Proof using Hclk.
  intros H. apply wp_bind. eapply wp_mono; [by apply hsetGeneric_ok|]. intros r s' (-> & H' & Hk). apply wp_ret.
  unfold ref_HSET, ref_HMSET, on_hash in *. by destruct (m !! k) as [[[] ?]|].
Qed.

Lemma hsetnxCommand_ok m s n k f v : abs_rel T m s -> does (hsetnxCommand E [n; k; f; v]) m s (ref_HSETNX m k f v).
Proof using Hclk.
  intros H. apply (wp_arg _ _ k); [done|]. apply (wp_arg _ _ f); [done|].
  apply wp_bind. apply (getOrCreateHash_rule E T Hclk m); [done|]. intros r s1 Hk1 Hr. unfold ref_HSETNX, on_hash, deadline_of.
  destruct (m !! k) as [[[b|x|x|hm] e]|] eqn:Em; [destruct Hr as [-> ?]; replied..| |].
  - destruct Hr as (h & -> & <- & Hat). apply wp_bind. eapply hv_Get_rule; [done|]. destruct (hm !! f); [destruct Hat; replied|].
    apply (wp_arg _ _ v); [done|]. apply wp_bind. eapply hv_Set_rule; [done..|]. intros h' s2 [] _ Hq2. replied.
  - destruct Hr as (h & -> & <- & Hat). apply wp_bind. eapply hv_Get_rule; [done|]. rewrite lookup_empty.
    apply (wp_arg _ _ v); [done|]. apply wp_bind. eapply hv_Set_rule; [done..|]. intros h' s2 [H2 _ _] _ Hq2. rewrite insert_insert_eq in H2. replied.
Qed.

Lemma hincrby_tail m0 m s h hm e f d s0 :
  hash_at m s h hm e -> is_int64 d -> keeps m0 s0 s ->
  wp (existing ← hv_Get h f;
      match match existing with Some b => ParseInt b | None => Some 0 end with
      | None => mret (Error (str "hash value is not an integer"))
      | Some curVal =>
        if ((0 <? d) && (max_int64 - d <? curVal)) || ((d <? 0) && (curVal <? min_int64 - d))
        then mret (Error (str "increment or decrement would overflow"))
        else
          let newVal := s64 (curVal + d) in
          _ ← hv_Set E h f (FormatInt newVal);
          mret (Integer newVal)
      end) s
    (fun r s' =>
       let x := match match hm !! f with Some b => ParseInt b | None => Some 0 end with
                | None => (Error (str "hash value is not an integer"), m)
                | Some n =>
                  if bool_decide (is_int64 (n + d)) then (Integer (n + d), <[hv_key h := (RHash (<[f := FormatInt (n + d)]> hm), e)]> m)
                  else (Error (str "increment or decrement would overflow"), m)
                end in
       r = x.1 /\ abs_rel T x.2 s' /\ keeps m0 s0 s').
Proof using Hclk.
  intros H Hd Hk. apply wp_bind. eapply hv_Get_rule; [done|]. pose proof (ha_rel _ _ _ _ _ _ H).
  destruct (match hm !! f with Some b => ParseInt b | None => Some 0 end) as [c|] eqn:Ec; [|replied].
  assert (is_int64 c) as Hc.
  { destruct (hm !! f); [by eapply ParseInt_bounds|]. simplify_eq. by unfold is_int64, min_int64, max_int64. }
  rewrite overflow_test by done. case_bool_decide as Hs; cbn [negb]; [|replied].
  cbv zeta. rewrite s64_id by done. apply wp_bind. eapply hv_Set_rule; [done..|]. intros h' s2 [H2 _ _] _ Hq2. replied.
Qed.

Lemma hincrbyCommand_ok m s n k f d :
  abs_rel T m s -> is_int64 d -> does (hincrbyCommand E [n; k; f; FormatInt d]) m s (ref_HINCRBY m k f d).
Proof using Hclk.
  intros H Hd. do 3 (eapply wp_arg; [done|]). rewrite ParseInt_FormatInt by done.
  apply wp_bind. apply (getOrCreateHash_rule E T Hclk m); [done|]. intros r s1 Hk1 Hr. unfold ref_HINCRBY, on_hash, deadline_of.
  destruct (m !! k) as [[[b|x|x|hm] e]|] eqn:Em; [destruct Hr as [-> ?]; replied..| |].
  - destruct Hr as (h & -> & <- & Hat). by apply (hincrby_tail m m s1).
  - destruct Hr as (h & -> & <- & Hat). rewrite lookup_empty. cbv zeta iota. rewrite bool_decide_true by by rewrite Z.add_0_l.
    eapply wp_mono; [by apply (hincrby_tail m (<[hv_key h := (RHash ∅, 0)]> m) s1 h ∅ 0 f d s)|]. cbv zeta. rewrite lookup_empty, bool_decide_true by by rewrite Z.add_0_l.
    intros r s' (-> & H' & Hk'). cbn [snd] in H'. by rewrite insert_insert_eq in H'.
Qed.

Lemma hdel_fields_ok fs : forall m s h hm e c (Q : Z -> St -> Prop),
  hash_at m s h hm e ->
  (let x := foldl (fun x f => (if bool_decide (is_Some (x.2 !! f)) then x.1 + 1 else x.1, delete f x.2)) (c, hm) fs in
   forall s', hash_at (<[hv_key h := (RHash x.2, e)]> m) s' h x.2 e -> quiet s s' -> Q x.1 s') ->
  wp (hdel_fields h fs c) s Q.
Proof.
  induction fs as [|f fs IH]; intros m s h hm e c Q H HQ; cbv zeta in HQ.
  { apply wp_ret. apply (HQ s); [|apply quiet_refl]. cbn [foldl snd]. rewrite insert_id; [done|apply H]. }
  cbn [hdel_fields foldl fst snd] in *. apply wp_bind. eapply hv_Del_rule; [done|]. intros s1 H1 Hq1.
  eapply IH; [exact H1|]. intros s2 H2 Hq2. rewrite insert_insert_eq in H2. apply (HQ s2); [exact H2|chain].
Qed.

Lemma hdelCommand_ok m s n k fs : abs_rel T m s -> does (hdelCommand E (n :: k :: fs)) m s (ref_HDEL m k fs).
Proof using Hclk.
  intros H. apply (wp_arg _ _ k); [done|]. apply wp_bind. apply (getHash_rule E T Hclk m); [done|]. unfold ref_HDEL. hash_cases m k; [|replied].
  change (drop 2 (n :: k :: fs)) with fs. apply wp_bind. eapply hdel_fields_ok; [done|]. intros x s2 H2 Hq2. subst k. fold x.
  apply wp_bind. eapply hv_Len_rule; [done|]. destruct H2 as [H2 _ _]. case_bool_decide as Hx.
  - rewrite Hx in *. rewrite map_size_empty. cbn [Z.of_nat Z.eqb]. apply wp_bind. apply (db_Del_rule E T Hclk _ _ _ _ H2).
    intros s3 H3 Hq3 _ _. rewrite delete_insert_eq in H3. replied.
  - rewrite (proj2 (Z.eqb_neq _ _)); [|intros Hz; apply Hx, map_size_empty_inv; lia]. apply wp_bind, wp_ret. replied.
Qed.

(** HGETALL, HKEYS and HVALS list the entries in an order of their own. *)
Lemma hgetallCommand_ok m s n k :
  orders_ok E -> abs_rel T m s ->
  wp (hgetallCommand E [n; k]) s (fun r s' => abs_rel T m s' /\ keeps m s s' /\
    on_hash m k (r = MapReply (c_resp3 s) [])
      (fun hm => exists kvs, kvs ≡ₚ map_to_list hm /\ r = MapReply (c_resp3 s) (concat ((fun kv => [BulkString kv.1; BulkString kv.2]) <$> kvs)))
      (r = wrongtype)).
Proof using Hclk.
  intros Ho H. apply (wp_arg _ _ k); [done|]. apply wp_bind. apply (getHash_rule E T Hclk m); [done|].
  intros r s1 Hk1 Hr. apply wp_bind, wp_gets. rewrite (k_resp3 _ _ Hk1). unfold found_hash, on_hash in *.
  destruct (m !! k) as [[[b|x|x|hm] e]|]; [destruct Hr as [-> ?]; by apply wp_ret..| |destruct Hr as [-> ?]; by apply wp_ret].
  destruct Hr as (h & -> & Hkey & Hat). apply wp_bind. eapply hv_Len_rule; [done|]. destruct (Z.eqb_spec (Z.of_nat (size hm)) 0) as [Hz|Hz].
  - apply wp_ret. destruct Hat. split_and!; [done..|]. exists []. assert (hm = ∅) as -> by (apply map_size_empty_inv; lia). done.
  - apply wp_bind. eapply hv_entries_rule; [done..|]. intros kvs Hp. apply wp_ret. destruct Hat. split_and!; [done..|]. by exists kvs.
Qed.

Lemma hash_column_ok m s n k (proj : bytes * bytes -> bytes) :
  orders_ok E -> abs_rel T m s ->
  wp (hash_column E proj [n; k]) s (fun r s' => abs_rel T m s' /\ keeps m s s' /\
    on_hash m k (r = Array [])
      (fun hm => exists kvs, kvs ≡ₚ map_to_list hm /\ r = Array ((fun kv => BulkString (proj kv)) <$> kvs))
      (r = wrongtype)).
Proof using Hclk.
  intros Ho H. apply (wp_arg _ _ k); [done|]. apply wp_bind. apply (getHash_rule E T Hclk m); [done|].
  intros r s1 Hk1 Hr. unfold found_hash, on_hash in *.
  destruct (m !! k) as [[[b|x|x|hm] e]|]; [destruct Hr as [-> ?]; by apply wp_ret..| |destruct Hr as [-> ?]; by apply wp_ret].
  destruct Hr as (h & -> & Hkey & Hat). apply wp_bind. eapply hv_Len_rule; [done|]. destruct (Z.eqb_spec (Z.of_nat (size hm)) 0) as [Hz|Hz].
  - apply wp_ret. destruct Hat. split_and!; [done..|]. exists []. assert (hm = ∅) as -> by (apply map_size_empty_inv; lia). done.
  - apply wp_bind. eapply hv_entries_rule; [done..|]. intros kvs Hp. apply wp_ret. destruct Hat. split_and!; [done..|]. exists kvs. split; [done|].
    unfold Array. do 3 f_equal. unfold zlen. rewrite length_fmap, (Permutation_length Hp), length_map_to_list. done.
Qed.

End commands.
