(* ===== verification/Sets.v ===== *)
(** * Set commands ([commands/set_encoding.go], [commands/set.go], [commands/set_ops.go])

    A [setView] is a handle on the container of a set: an intset, a listpack or a hash set.  A member
    that does not fit moves the set to the next encoding, in a new container published under the
    key.  Missing is SRANDMEMBER (random choice). *)

From S2P Require Import Prelude Strconv Listpack Intset Dict Object Value Db DbSpec Reply Context Strings Hashes Stripes.
Local Open Scope Z_scope.

Inductive set_rep := SIs (l : nat) | SLp (l : nat) | SSet (l : nat).

Record setView := mkSv { sv_key : bytes; sv_rep : set_rep }.

Definition load_is (l : nat) : M IntSet := c ← load l; match c with CIntset st => mret st | _ => panic end.
Definition load_set (l : nat) : M Dict.Set_ := c ← load l; match c with CSet st => mret st | _ => panic end.

Definition maxRandCount : Z := Z.shiftl 1 24.

Section views.
Variable E : env.

Definition sv_Card (v : setView) : M Z :=
  match sv_rep v with
  | SSet l => st ← load_set l; mret (set_Card st)
  | SLp l => lp ← load_lp l; mret (Listpack.Len lp)
  | SIs l => st ← load_is l; mret (Intset.Len st)
  end.

Definition sv_Contains (v : setView) (m : bytes) : M bool :=
  match sv_rep v with
  | SSet l => st ← load_set l; mret (set_Contains st m)
  | SLp l => lp ← load_lp l; i ← lift (Listpack.Find lp m 0 1); mret (0 <=? i)
  | SIs l =>
    st ← load_is l;
    match Intset.Parse m with
    | Some n => lift (Intset.Contains st n)
    | None => mret false
    end
  end.

Definition sv_Members (v : setView) : M (list bytes) :=
  match sv_rep v with
  | SSet l => st ← load_set l; order ← gets (fun s => set_order E (s_tick s)); mret (set_Members order st)
  | SLp l => lp ← load_lp l; lift (Listpack.ForEach lp (fun out _ b => (out ++ [b], true)) [])
  | SIs l => st ← load_is l; mret (Intset.Members st)
  end.

Definition set_publish (key : bytes) (l : nat) (enc : ObjectEncoding) : M unit :=
  db_SetKeepTTL E key (mkRobj OBJ_SET enc 0 (PRef l)).

Definition toListpack (v : setView) : M setView :=
  ms ← sv_Members v;
  l ← alloc (CListpack (append_all Listpack.New ms));
  _ ← set_publish (sv_key v) l OBJ_ENCODING_LISTPACK;
  mret (mkSv (sv_key v) (SLp l)).

Definition toHashSet (v : setView) : M setView :=
  ms ← sv_Members v;
  l ← alloc (CSet (set_Add NewSet ms).1);
  _ ← set_publish (sv_key v) l OBJ_ENCODING_HT;
  mret (mkSv (sv_key v) (SSet l)).

(** The last step of [addOne], on the hash set. *)
Definition add_hash (v : setView) (m : bytes) : M (setView * bool) :=
  match sv_rep v with
  | SSet l =>
    st ← load_set l;
    let '(st, n) := set_Add st [m] in
    _ ← store l (CSet st); mret (v, 0 <? n)
  | _ => panic
  end.

(** Its middle step, on a listpack that may be full. *)
Definition add_lp (v : setView) (m : bytes) : M (setView * bool) :=
  match sv_rep v with
  | SLp l =>
    L ← gets s_lim;
    lp ← load_lp l;
    if (SetMaxListpackValue L <? zlen m) || (SetMaxListpackEntries L <=? Listpack.Len lp) then
      v ← toHashSet v; add_hash v m
    else _ ← store l (CListpack (Listpack.Append lp m)); mret (v, true)
  | _ => add_hash v m
  end.

Definition sv_addOne (v : setView) (m : bytes) : M (setView * bool) :=
  known ← sv_Contains v m;
  if known : bool then mret (v, false)
  else
    match sv_rep v with
    | SIs l =>
      L ← gets s_lim;
      st ← load_is l;
      let leave : M (setView * bool) :=
        v ← (if (zlen m <=? SetMaxListpackValue L) && (Intset.Len st <? SetMaxListpackEntries L) then toListpack v else toHashSet v);
        add_lp v m in
      match Intset.Parse m with
      | Some n =>
        if Intset.Len st <? SetMaxIntsetEntries L then
          '(st, b) ← lift (Intset.Add st n);
          _ ← store l (CIntset st); mret (v, b)
        else leave
      | None => leave
      end
    | _ => add_lp v m
    end.

Fixpoint sv_Add (v : setView) (members : list bytes) (added : Z) : M (setView * Z) :=
  match members with
  | [] => mret (v, added)
  | m :: members => '(v, b) ← sv_addOne v m; sv_Add v members (if b : bool then added + 1 else added)
  end.

(** One member of [Remove]: how many were removed. *)
Definition remove_one (v : setView) (m : bytes) : M Z :=
  match sv_rep v with
  | SSet l =>
    st ← load_set l;
    let '(st, n) := set_Remove st [m] in
    _ ← store l (CSet st); mret n
  | SLp l =>
    lp ← load_lp l;
    i ← lift (Listpack.Find lp m 0 1);
    if 0 <=? i then
      '(lp, _) ← lift (Listpack.DeleteRange lp i 1);
      _ ← store l (CListpack lp); mret 1
    else mret 0
  | SIs l =>
    st ← load_is l;
    match Intset.Parse m with
    | Some n =>
      '(st, b) ← lift (Intset.Remove st n);
      _ ← store l (CIntset st); mret (if b : bool then 1 else 0)
    | None => mret 0
    end
  end.

Fixpoint sv_Remove (v : setView) (members : list bytes) (removed : Z) : M Z :=
  match members with
  | [] => mret removed
  | m :: members => n ← remove_one v m; sv_Remove v members (removed + n)
  end.

Definition sv_Pop (v : setView) (count : Z) : M (list bytes) :=
  members ← sv_Members v;
  let count := if zlen members <? count then zlen members else count in
  picked ← lift (go_slice members 0 count);
  _ ← sv_Remove v picked 0;
  mret picked.

Definition internal_set : bytes := Error (str "internal set type error").

Definition newSetView (key : bytes) (obj : robj) : M (bytes + setView) :=
  match o_Ptr obj with
  | PRef l =>
    c ← load l;
    match c with
    | CIntset _ => mret (inr (mkSv key (SIs l)))
    | CListpack _ => mret (inr (mkSv key (SLp l)))
    | CSet _ => mret (inr (mkSv key (SSet l)))
    | CSetMap m =>
      order ← gets (fun s => set_order E (s_tick s));
      l' ← alloc (CSet (set_Add NewSet (order m)).1);
      _ ← set_publish key l' OBJ_ENCODING_HT;
      mret (inr (mkSv key (SSet l')))
    | _ => mret (inl internal_set)
    end
  | _ => mret (inl internal_set)
  end.

Definition getOrCreateSet (key : bytes) : M (bytes + setView) :=
  obj ← db_Get E key;
  match obj with
  | None =>
    l ← alloc (CIntset Intset.New);
    _ ← db_Set E key (mkRobj OBJ_SET OBJ_ENCODING_INTSET 0 (PRef l));
    mret (inr (mkSv key (SIs l)))
  | Some o => if negb (is_type o OBJ_SET) then mret (inl wrongtype) else newSetView key o
  end.

Definition getSetView (key : bytes) : M (bytes + option setView) :=
  obj ← db_Get E key;
  match obj with
  | None => mret (inr None)
  | Some o =>
    if negb (is_type o OBJ_SET) then mret (inl wrongtype)
    else
      r ← newSetView key o;
      mret (match r with inl err => inl err | inr v => inr (Some v) end)
  end.

(** ** Handlers *)

Definition saddCommand (argv : list bytes) : M bytes :=
  key ← arg argv 1;
  r ← getOrCreateSet key;
  match r with
  | inl err => mret err
  | inr v => '(_, added) ← sv_Add v (drop 2 argv) 0; mret (Integer added)
  end.

Definition sremCommand (argv : list bytes) : M bytes :=
  key ← arg argv 1;
  r ← getSetView key;
  match r with
  | inl err => mret err
  | inr None => mret (Integer 0)
  | inr (Some v) =>
    removed ← sv_Remove v (drop 2 argv) 0;
    n ← sv_Card v;
    _ ← (if n =? 0 then db_Del E key else mret false);
    mret (Integer removed)
  end.

Definition membersReply (r3 : bool) (members : list bytes) : bytes := SetReply r3 (BulkString <$> members).

Definition smembersCommand (argv : list bytes) : M bytes :=
  key ← arg argv 1;
  r ← getSetView key;
  r3 ← resp3;
  match r with
  | inl err => mret err
  | inr None => mret (Array [])
  | inr (Some v) => ms ← sv_Members v; mret (membersReply r3 ms)
  end.

Definition sismemberCommand (argv : list bytes) : M bytes :=
  key ← arg argv 1;
  member ← arg argv 2;
  r ← getSetView key;
  match r with
  | inl err => mret err
  | inr None => mret (Integer 0)
  | inr (Some v) => b ← sv_Contains v member; mret (if b : bool then Integer 1 else Integer 0)
  end.

Definition scardCommand (argv : list bytes) : M bytes :=
  key ← arg argv 1;
  r ← getSetView key;
  match r with
  | inl err => mret err
  | inr None => mret (Integer 0)
  | inr (Some v) => n ← sv_Card v; mret (Integer n)
  end.

(** [inl] is the error reply. *)
Definition spop_count (argv : list bytes) : bytes + Z :=
  match drop 2 argv with
  | [] => inr 1
  | a :: _ =>
    match ParseInt a with
    | None => inl (Error (str "value is out of range, must be positive"))
    | Some n =>
      if n <? 0 then inl (Error (str "value is out of range, must be positive"))
      else if maxRandCount <? n then inl (Error (str "value is out of range"))
      else inr n
    end
  end.

(** What SPOP sends to the sinks. *)
Definition spop_effect (verb key : bytes) (popped : list bytes) (emptied : bool) : option (list bytes) :=
  if bool_decide (popped = []) then None
  else if emptied then Some [verb; key]
  else Some (str "SREM" :: key :: popped).

Definition spopCommand (argv : list bytes) : M bytes :=
  key ← arg argv 1;
  let withCount := 3 <=? zlen argv in
  match spop_count argv with
  | inl err => mret err
  | inr count =>
    r ← getSetView key;
    r3 ← resp3;
    match r with
    | inl err => mret err
    | inr None => mret (if withCount then SetReply r3 [] else Null r3)
    | inr (Some v) =>
      popped ← sv_Pop v count;
      n ← sv_Card v;
      let emptied := n =? 0 in
      _ ← (if emptied then db_Del E key else mret false);
      lazy ← gets s_lazy;
      _ ← Propagate (spop_effect (if lazy : bool then str "UNLINK" else str "DEL") key popped emptied);
      if negb withCount then
        mret (match popped with [] => Null r3 | m :: _ => BulkString m end)
      else mret (membersReply r3 popped)
    end
  end.

Fixpoint mark_members (v : option setView) (ms : list bytes) : M (list bytes) :=
  match ms with
  | [] => mret []
  | m :: ms =>
    b ← match v with Some v => sv_Contains v m | None => mret false end;
    rest ← mark_members v ms;
    mret (Integer (if b : bool then 1 else 0) :: rest)
  end.

Definition smismemberCommand (argv : list bytes) : M bytes :=
  key ← arg argv 1;
  r ← getSetView key;
  match r with
  | inl err => mret err
  | inr v => elems ← mark_members v (drop 2 argv); mret (Array elems)
  end.

(** *** Set algebra *)

Inductive set_op := OpInter | OpUnion | OpDiff.

(** The operands, up to the first of another type. *)
Fixpoint get_sets (keys : list bytes) : M (bytes + list (option setView)) :=
  match keys with
  | [] => mret (inr [])
  | k :: keys =>
    r ← getSetView k;
    match r with
    | inl err => mret (inl err)
    | inr v =>
      rs ← get_sets keys;
      mret (match rs with inl err => inl err | inr vs => inr (v :: vs) end)
    end
  end.

Fixpoint in_all (m : bytes) (others : list (option setView)) : M bool :=
  match others with
  | [] => mret true
  | None :: _ => mret false
  | Some v :: others => b ← sv_Contains v m; if b : bool then in_all m others else mret false
  end.

Fixpoint in_some (m : bytes) (others : list (option setView)) : M bool :=
  match others with
  | [] => mret false
  | None :: others => in_some m others
  | Some v :: others => b ← sv_Contains v m; if b : bool then mret true else in_some m others
  end.

Fixpoint inter_loop (ms : list bytes) (others : list (option setView)) (limit : Z) (out : list bytes) : M (list bytes) :=
  match ms with
  | [] => mret out
  | m :: ms =>
    b ← in_all m others;
    if b : bool then
      let out := out ++ [m] in
      if (0 <? limit) && (limit <=? zlen out) then mret out else inter_loop ms others limit out
    else inter_loop ms others limit out
  end.

Fixpoint diff_loop (ms : list bytes) (others : list (option setView)) (out : list bytes) : M (list bytes) :=
  match ms with
  | [] => mret out
  | m :: ms => b ← in_some m others; diff_loop ms others (if b : bool then out else out ++ [m])
  end.

Definition add_unseen (out ms : list bytes) : list bytes :=
  fold_left (fun out m => if bool_decide (m ∈ out) then out else out ++ [m]) ms out.

(** [seen] holds exactly the members of [out]. *)
Fixpoint union_loop (sets : list (option setView)) (out : list bytes) : M (list bytes) :=
  match sets with
  | [] => mret out
  | None :: sets => union_loop sets out
  | Some v :: sets => ms ← sv_Members v; union_loop sets (add_unseen out ms)
  end.

Definition setOp (keys : list bytes) (op : set_op) (limit : Z) : M (bytes + list bytes) :=
  r ← get_sets keys;
  match r with
  | inl err => mret (inl err)
  | inr sets =>
    match op, sets with
    | OpUnion, _ => ms ← union_loop sets []; mret (inr ms)
    | _, [] | _, None :: _ => mret (inr [])
    | OpInter, Some v :: others => ms ← sv_Members v; out ← inter_loop ms others limit []; mret (inr out)
    | OpDiff, Some v :: others => ms ← sv_Members v; out ← diff_loop ms others []; mret (inr out)
    end
  end.

Definition algebra (op : set_op) (argv : list bytes) : M bytes :=
  r ← setOp (drop 1 argv) op 0;
  r3 ← resp3;
  mret (match r with inl err => err | inr ms => membersReply r3 ms end).

Definition sinterCommand : list bytes -> M bytes := algebra OpInter.
Definition sunionCommand : list bytes -> M bytes := algebra OpUnion.
Definition sdiffCommand : list bytes -> M bytes := algebra OpDiff.

Definition storeOp (op : set_op) (argv : list bytes) : M bytes :=
  dst ← arg argv 1;
  r ← setOp (drop 2 argv) op 0;
  match r with
  | inl err => mret err
  | inr [] => _ ← db_Del E dst; mret (Integer 0)
  | inr members =>
    _ ← db_Del E dst;
    r ← getOrCreateSet dst;
    match r with
    | inl err => mret err
    | inr v => _ ← sv_Add v members 0; mret (Integer (zlen members))
    end
  end.

Definition sinterstoreCommand : list bytes -> M bytes := storeOp OpInter.
Definition sunionstoreCommand : list bytes -> M bytes := storeOp OpUnion.
Definition sdiffstoreCommand : list bytes -> M bytes := storeOp OpDiff.

Definition bad_numkeys : bytes := Error (str "numkeys should be greater than 0").
Definition many_keys : bytes := Error (str "Number of keys can't be greater than number of args").
Definition bad_limit : bytes := Error (str "LIMIT can't be negative").

Definition sintercardCommand (argv : list bytes) : M bytes :=
  a1 ← arg argv 1;
  match ParseInt a1 with
  | None => mret bad_numkeys
  | Some numKeys =>
    if numKeys <=? 0 then mret bad_numkeys
    else if zlen argv <? s64 (2 + numKeys) then mret many_keys
    else
      rest ← lift (go_slice argv (s64 (2 + numKeys)) (zlen argv));
      let limit : bytes + Z :=
        match rest with
        | [] => inr 0
        | [a; b] =>
          if bool_decide (ToUpper a = str "LIMIT") then
            match ParseInt b with Some n => if n <? 0 then inl bad_limit else inr n | None => inl bad_limit end
          else inl syntax_error
        | _ => inl syntax_error
        end in
      match limit with
      | inl err => mret err
      | inr limit =>
        keys ← lift (go_slice argv 2 (s64 (2 + numKeys)));
        r ← setOp keys OpInter limit;
        mret (match r with inl err => err | inr ms => Integer (zlen ms) end)
      end
  end.

Fixpoint card_loop (limit : Z) (args : list bytes) : bytes + Z :=
  match args with
  | [] => inr limit
  | a :: rest =>
    if bool_decide (ToUpper a = str "APPROX") then card_loop limit rest
    else if bool_decide (ToUpper a = str "LIMIT") then
      match rest with
      | [] => inl syntax_error
      | b :: rest =>
        match ParseInt b with
        | Some n => if n <? 0 then inl bad_limit else card_loop n rest
        | None => inl bad_limit
        end
      end
    else inl syntax_error
  end.

Definition setCardGeneric (op : set_op) (argv : list bytes) : M bytes :=
  a1 ← arg argv 1;
  match ParseInt a1 with
  | None => mret bad_numkeys
  | Some numKeys =>
    if numKeys <=? 0 then mret bad_numkeys
    else if zlen argv <? s64 (2 + numKeys) then mret many_keys
    else
      rest ← lift (go_slice argv (s64 (2 + numKeys)) (zlen argv));
      match card_loop 0 rest with
      | inl err => mret err
      | inr limit =>
        keys ← lift (go_slice argv 2 (s64 (2 + numKeys)));
        r ← setOp keys op 0;
        mret (match r with
              | inl err => err
              | inr ms => Integer (if (0 <? limit) && (limit <? zlen ms) then limit else zlen ms)
              end)
      end
  end.

Definition sunioncardCommand : list bytes -> M bytes := setCardGeneric OpUnion.
Definition sdiffcardCommand : list bytes -> M bytes := setCardGeneric OpDiff.

Definition smoveCommand (argv : list bytes) : M bytes :=
  src ← arg argv 1;
  dst ← arg argv 2;
  member ← arg argv 3;
  _ ← LockKeys src dst;
  r ← getSetView src;
  match r with
  | inl err => mret err
  | inr srcSet =>
    dstObj ← db_Get E dst;
    if match dstObj with Some o => negb (is_type o OBJ_SET) | None => false end then mret wrongtype
    else
      match srcSet with
      | None => mret (Integer 0)
      | Some v =>
        b ← sv_Contains v member;
        if negb b then mret (Integer 0)
        else
          _ ← sv_Remove v [member] 0;
          n ← sv_Card v;
          _ ← (if n =? 0 then db_Del E src else mret false);
          r ← getOrCreateSet dst;
          match r with
          | inl err => mret err
          | inr d => _ ← sv_Add d [member] 0; mret (Integer 1)
          end
      end
  end.

End views.
