(* ===== verification/SetSpec.v ===== *)
(** * Set commands against the dataset

    [set_at] says that a view is on the container of a key whose value is the set [sm].  As for hashes,
    the rules for the operations of a view hide the three encodings and the moves between them; the
    lemmas on the handlers use nothing else. *)

From S2P Require Import Prelude Strconv Listpack Intset Dict Object Value Db DbSpec Reply Context Strings StringSpec Hashes HashSpec Sets Stripes.
Local Open Scope Z_scope.

Definition set_loc (r : set_rep) : nat := match r with SIs l | SLp l | SSet l => l end.
Definition set_enc (r : set_rep) : ObjectEncoding :=
  match r with SIs _ => OBJ_ENCODING_INTSET | SLp _ => OBJ_ENCODING_LISTPACK | SSet _ => OBJ_ENCODING_HT end.

(** ** Members of the compact encodings *)

Lemma FormatInt_length n : is_int64 n -> zlen (FormatInt n) <= 20.
Proof.
  intros Hn. unfold FormatInt. unfold is_int64, min_int64, max_int64 in Hn. case_match.
  - rewrite zlen_cons. assert (zlen (FormatUint (- n)) <= 19) by (apply FormatUint_length; lia). lia.
  - assert (zlen (FormatUint n) <= 19) by (apply FormatUint_length; lia). lia.
Qed.

Lemma elem_of_ints (ns : list Z) (n : Z) :
  Forall is_int64 ns -> is_int64 n -> FormatInt n ∈ (list_to_set (FormatInt <$> ns) : gset bytes) <-> n ∈ ns.
Proof.
  rewrite Forall_forall. intros Hf Hn. rewrite elem_of_list_to_set, list_elem_of_fmap. split; [|by eauto].
  intros (k & Hk & Hin). apply FormatInt_inj in Hk as ->; auto.
Qed.

Lemma NoDup_ints ns : Forall is_int64 ns -> NoDup ns -> NoDup (FormatInt <$> ns).
Proof.
  rewrite Forall_forall. intros Hf Hnd. apply NoDup_fmap_2_strong; [|done]. intros x y Hx Hy. apply FormatInt_inj; auto.
Qed.

(** A member that is no integer is in no intset. *)
Lemma not_int_member (ns : list Z) (b : bytes) :
  Forall is_int64 ns -> Intset.Parse b = None -> b ∉ (list_to_set (FormatInt <$> ns) : gset bytes).
Proof.
  intros Hf Hb Hin. apply elem_of_list_to_set, list_elem_of_fmap in Hin as (k & -> & Hk).
  rewrite Forall_forall in Hf. rewrite Parse_FormatInt in Hb by by apply Hf. done.
Qed.

Lemma size_set_nodup (xs : list bytes) : NoDup xs -> Z.of_nat (size (list_to_set xs : gset bytes)) = zlen xs.
Proof. intros. unfold zlen. by rewrite size_list_to_set. Qed.

Lemma find_member lp xs b :
  Listpack.repr lp xs -> exists i, Listpack.Find lp b 0 1 = Some i /\
    ((i = -1 /\ b ∉ xs) \/ exists n, i = Z.of_nat n /\ xs !! n = Some b).
Proof.
  intros Hr. destruct (Find_repr lp xs b 0 1 Hr) as (i & E & Hi); [lia|lia|]. exists i. split; [done|].
  destruct Hi as [[-> Hno]|(n & -> & Hn & _)]; [left|right; eauto]. split; [done|].
  intros [n Hn]%list_elem_of_lookup. apply (Hno n b); [done| |done]. split; [lia|apply Z.mod_1_r].
Qed.

(** A member taken out of a list without duplicates. *)
Lemma remove_member (xs : list bytes) n b :
  NoDup xs -> xs !! n = Some b ->
  NoDup (take n xs ++ drop (S n) xs) /\ (list_to_set (take n xs ++ drop (S n) xs) : gset bytes) = list_to_set xs ∖ {[b]}.
Proof.
  intros Hnd Hn. pose proof (take_drop_middle _ _ _ Hn) as Hs. assert (NoDup (b :: take n xs ++ drop (S n) xs)) as Hnd'.
  { rewrite Permutation_middle. by rewrite Hs. }
  apply NoDup_cons in Hnd' as [Hb Hnd']. split; [done|]. rewrite <- Hs at 3. rewrite !list_to_set_app_L, list_to_set_cons.
  rewrite elem_of_app in Hb. set_solver.
Qed.

Lemma size_add (b : bytes) (sm : gset bytes) : Z.of_nat (size ({[b]} ∪ sm)) = Z.of_nat (size sm) + (if bool_decide (b ∈ sm) then 0 else 1).
Proof.
  case_bool_decide; [replace ({[b]} ∪ sm) with sm by set_solver; lia|]. rewrite size_union, size_singleton by set_solver. lia.
Qed.

Lemma size_remove (b : bytes) (sm : gset bytes) : Z.of_nat (size (sm ∖ {[b]})) = Z.of_nat (size sm) - (if bool_decide (b ∈ sm) then 1 else 0).
Proof.
  case_bool_decide as Hb; [|replace (sm ∖ {[b]}) with sm by set_solver; lia].
  rewrite (size_difference sm {[b]}) by set_solver. rewrite size_singleton.
  assert (size sm <> 0%nat) by (intros H%size_empty_inv; set_solver). lia.
Qed.

(** ** A view on a set *)

Section views.
Variables (E : env) (T : Z).
Hypothesis Hclk : instant E T.

Record set_at (m : dataset) (s : St) (h : setView) (sm : gset bytes) (e : Z) : Prop := {
  sa_rel : abs_rel T m s;
  sa_key : m !! sv_key h = Some (RSet sm, e);
  sa_view : view T s (sv_key h) = Some ((OBJ_SET, set_enc (sv_rep h), PRef (set_loc (sv_rep h))), e)
}.

Inductive set_shape (s : St) (sm : gset bytes) : set_rep -> Prop :=
  | shape_is l st : s_heap s !! l = Some (CIntset st) -> Intset.wf st -> Forall is_int64 (vals st) ->
      sm = list_to_set (FormatInt <$> vals st) -> set_shape s sm (SIs l)
  | shape_lp l lp xs : s_heap s !! l = Some (CListpack lp) -> Listpack.repr lp xs -> compact xs -> NoDup xs ->
      sm = list_to_set xs -> set_shape s sm (SLp l)
  | shape_set l t : s_heap s !! l = Some (CSet t) -> sm = set_m t -> set_shape s sm (SSet l).

Lemma set_at_shape m s h sm e : set_at m s h sm e -> set_shape s sm (sv_rep h).
Proof.
  intros [H Hk Hv]. pose proof (ar_keys _ _ _ H (sv_key h)) as Hkk. rewrite Hk, Hv in Hkk.
  destruct Hkk as (_ & [_ (l & c & [= <-] & Hl & Hh)] & _). destruct (sv_rep h) as [l|l|l]; cbn in *; destruct c; try done.
  - destruct Hh as (? & ? & ?). by eapply shape_is.
  - destruct Hh as (xs & ? & ? & ? & ?). by eapply shape_lp.
  - by eapply shape_set.
Qed.

Lemma wp_load_is l st s (Q : IntSet -> St -> Prop) : s_heap s !! l = Some (CIntset st) -> Q st s -> wp (load_is l) s Q.
Proof. intros Hl HQ. apply wp_bind. eapply load_rule; [done|]. by apply wp_ret. Qed.

Lemma wp_load_set l st s (Q : Dict.Set_ -> St -> Prop) : s_heap s !! l = Some (CSet st) -> Q st s -> wp (load_set l) s Q.
Proof. intros Hl HQ. apply wp_bind. eapply load_rule; [done|]. by apply wp_ret. Qed.

Lemma sv_Card_rule m s h sm e (Q : Z -> St -> Prop) :
  set_at m s h sm e -> Q (Z.of_nat (size sm)) s -> wp (sv_Card h) s Q.
Proof.
  intros H HQ. unfold sv_Card.
  destruct (set_at_shape _ _ _ _ _ H) as [l st Hl Hwf Hf ->|l lp xs Hl Hr Hc Hnd ->|l t Hl ->]; apply wp_bind.
  - eapply wp_load_is; [done|]. apply wp_ret. rewrite size_set_nodup in HQ by by apply NoDup_ints; [|apply sorted_NoDup].
    unfold Intset.Len. by unfold zlen in *; rewrite length_fmap in HQ.
  - eapply wp_load_lp; [done|]. apply wp_ret. unfold Listpack.Len. rewrite (repr_n _ _ Hr). by rewrite size_set_nodup in HQ.
  - eapply wp_load_set; [done|]. by apply wp_ret.
Qed.

Lemma sv_Contains_rule m s h sm e b (Q : bool -> St -> Prop) :
  set_at m s h sm e -> Q (bool_decide (b ∈ sm)) s -> wp (sv_Contains h b) s Q.
Proof.
  intros H HQ. unfold sv_Contains.
  destruct (set_at_shape _ _ _ _ _ H) as [l st Hl Hwf Hf ->|l lp xs Hl Hr Hc Hnd ->|l t Hl ->]; apply wp_bind.
  - eapply wp_load_is; [done|]. destruct (Intset.Parse b) as [n|] eqn:En.
    + eapply wp_lift; [by apply Contains_spec|]. apply Parse_canonical in En as [-> Hn].
      by rewrite (bool_decide_ext _ _ (elem_of_ints (vals st) n Hf Hn)) in HQ.
    + apply wp_ret. by rewrite bool_decide_false in HQ by by apply not_int_member.
  - eapply wp_load_lp; [done|]. destruct (find_member lp xs b Hr) as (i & Ei & Hi). apply wp_bind. eapply wp_lift; [done|]. apply wp_ret.
    destruct Hi as [[-> Hno]|(n & -> & Hn)].
    + rewrite bool_decide_false in HQ; [done|]. by rewrite elem_of_list_to_set.
    + rewrite bool_decide_true in HQ; [|by apply elem_of_list_to_set; eapply list_elem_of_lookup_2].
      by rewrite (proj2 (Z.leb_le _ _)) by lia.
  - eapply wp_load_set; [done|]. by apply wp_ret.
Qed.

Lemma fold_collect xs i out : Listpack.fold_stop (fun out (_ : Z) b => (out ++ [b], true)) i xs out = out ++ xs.
Proof.
  revert i out. induction xs as [|x xs IH]; intros i out; cbn [Listpack.fold_stop]; [by rewrite app_nil_r|]. by rewrite IH, <- app_assoc.
Qed.

Lemma sv_Members_rule m s h sm e (Q : list bytes -> St -> Prop) :
  orders_ok E -> set_at m s h sm e -> (forall ms, ms ≡ₚ elements sm -> Q ms s) -> wp (sv_Members E h) s Q.
Proof.
  intros Ho H HQ. unfold sv_Members.
  destruct (set_at_shape _ _ _ _ _ H) as [l st Hl Hwf Hf ->|l lp xs Hl Hr Hc Hnd ->|l t Hl ->]; apply wp_bind.
  - eapply wp_load_is; [done|]. apply wp_ret. apply HQ. symmetry. apply elements_list_to_set. by apply NoDup_ints; [|apply sorted_NoDup].
  - eapply wp_load_lp; [done|]. eapply wp_lift; [by apply (ForEach_repr lp xs)|]. rewrite fold_collect. apply HQ. symmetry. by apply elements_list_to_set.
  - eapply wp_load_set; [done|]. apply wp_bind, wp_gets, wp_ret. apply HQ. apply Ho.
Qed.

(** A change in place of the container of [h]. *)
Lemma set_store m s h sm e c sm' (Q : unit -> St -> Prop) :
  set_at m s h sm e -> holds (set_enc (sv_rep h)) c (RSet sm') ->
  (forall s', set_at (<[sv_key h := (RSet sm', e)]> m) s' h sm' e -> quiet s s' -> Q tt s') ->
  wp (store (set_loc (sv_rep h)) c) s Q.
Proof.
  intros [H Hk Hv] Hh HQ. eapply (store_rule T m s (sv_key h) _ _ _ _ _ (RSet sm')); [done|exact Hv| |].
  { split; [done|]. exists (set_loc (sv_rep h)), c. split_and!; [done| |done]. by rewrite lookup_insert_eq. }
  intros s' H' Hq _ Hview. apply HQ; [|done]. split; [done|by rewrite lookup_insert_eq|by rewrite Hview].
Qed.

(** The set moves to a new container. *)
Lemma set_republish m s key r sm e c r' (Q : setView -> St -> Prop) :
  set_at m s (mkSv key r) sm e -> (forall l, set_enc (r' l) = set_enc (r' 0%nat) /\ set_loc (r' l) = l) -> holds (set_enc (r' 0%nat)) c (RSet sm) ->
  (forall l s', set_at m s' (mkSv key (r' l)) sm e -> s_heap s' !! l = Some c -> quiet s s' -> Q (mkSv key (r' l)) s') ->
  wp (l ← alloc c; _ ← set_publish E key l (set_enc (r' 0%nat)); mret (mkSv key (r' l))) s Q.
Proof using Hclk.
  intros H Hr' Hh HQ. apply wp_bind. apply (alloc_rule T m); [apply H|]. intros l s1 H1 Hq1 Hl Hu _ Hv1. destruct (Hr' l) as [He Hloc].
  apply wp_bind. apply (db_SetKeepTTL_rule E T Hclk m s1 key _ (RSet sm) (RSet sm) e); [done|apply H| |].
  { split; [|intros l0 [= <-]; done]. split; [done|]. exists l, c. by split_and!. }
  intros s2 H2 Hq2 Hheap _ Hv2. rewrite insert_id in H2 by apply H. apply wp_ret. apply HQ; [|by rewrite Hheap|chain].
  split; [done|apply H|]. cbn. by rewrite Hv2, He, Hloc.
Qed.

Lemma perm_to_set (xs : list bytes) (sm : gset bytes) : xs ≡ₚ elements sm -> NoDup xs /\ list_to_set xs = sm.
Proof.
  intros Hp. split; [rewrite Hp; apply NoDup_elements|]. apply set_eq. intros x. rewrite elem_of_list_to_set, Hp. apply elem_of_elements.
Qed.

Lemma toHashSet_rule m s h sm e (Q : setView -> St -> Prop) :
  orders_ok E -> set_at m s h sm e ->
  (forall l s', set_at m s' (mkSv (sv_key h) (SSet l)) sm e -> quiet s s' -> Q (mkSv (sv_key h) (SSet l)) s') -> wp (toHashSet E h) s Q.
Proof using Hclk.
  intros Ho H HQ. apply wp_bind. eapply sv_Members_rule; [done..|]. intros ms [Hnd Hms]%perm_to_set. destruct h as [key r].
  apply (set_republish m s key r sm e _ SSet); [done|done| |by intros; apply HQ].
  cbn. destruct (set_Add_spec NewSet ms) as [-> _]. cbn. by rewrite Hms, (right_id_L ∅ (∪)).
Qed.

Lemma toListpack_rule m s h sm e (Q : setView -> St -> Prop) :
  orders_ok E -> set_at m s h sm e -> compact (elements sm) ->
  (forall l s', set_at m s' (mkSv (sv_key h) (SLp l)) sm e -> quiet s s' -> Q (mkSv (sv_key h) (SLp l)) s') -> wp (toListpack E h) s Q.
Proof using Hclk.
  intros Ho H Hc HQ. apply wp_bind. eapply sv_Members_rule; [done..|]. intros ms Hp. destruct (perm_to_set _ _ Hp) as [Hnd Hms]. destruct h as [key r].
  assert (compact ms) as Hc'.
  { destruct Hc as [Hn Hf]. split; [unfold zlen in *; by rewrite Hp|by rewrite Hp]. }
  apply (set_republish m s key r sm e _ SLp); [done|done| |by intros; apply HQ].
  cbn. exists ms. split_and!; [|done..]. by apply (append_all_repr _ []); [apply New_repr|].
Qed.

Lemma add_hash_rule m s key l sm e b (Q : setView * bool -> St -> Prop) :
  set_at m s (mkSv key (SSet l)) sm e -> b ∉ sm ->
  (forall s', set_at (<[key := (RSet ({[b]} ∪ sm), e)]> m) s' (mkSv key (SSet l)) ({[b]} ∪ sm) e -> quiet s s' -> Q (mkSv key (SSet l), true) s') ->
  wp (add_hash (mkSv key (SSet l)) b) s Q.
Proof.
  intros H Hb HQ. pose proof (set_at_shape _ _ _ _ _ H) as Hsh. inversion Hsh as [| |? t Hl Hsm]; subst. unfold add_hash. cbn [sv_rep].
  apply wp_bind. eapply wp_load_set; [done|]. cbn [set_Add]. rewrite bool_decide_false by done. cbn [fst snd]. apply wp_bind.
  apply (set_store m s (mkSv key (SSet l)) _ e (CSet (mkSet ({[b]} ∪ set_m t))) ({[b]} ∪ set_m t) _ H); [done|].
  intros s' H' Hq. apply wp_ret. by apply HQ.
Qed.

(** A member that is not there is added. *)
Definition added (m : dataset) (s : St) (key : bytes) (sm : gset bytes) (e : Z) (b : bytes) (Q : setView * bool -> St -> Prop) : Prop :=
  forall h' s', set_at (<[key := (RSet ({[b]} ∪ sm), e)]> m) s' h' ({[b]} ∪ sm) e -> sv_key h' = key -> quiet s s' -> Q (h', true) s'.

Lemma added_quiet m s s1 key sm e b Q : added m s key sm e b Q -> quiet s s1 -> added m s1 key sm e b Q.
Proof. intros HQ Hq h' s' H' Hk Hq'. apply HQ; [done|done|chain]. Qed.

Lemma add_lp_rule m s h sm e b (Q : setView * bool -> St -> Prop) :
  orders_ok E -> set_at m s h sm e -> (forall l, sv_rep h <> SIs l) -> b ∉ sm -> added m s (sv_key h) sm e b Q -> wp (add_lp E h b) s Q.
Proof using Hclk.
  intros Ho H Hno Hb HQ. destruct h as [key [l|l|l]]; [by destruct (Hno l)| |].
  - pose proof (set_at_shape _ _ _ _ _ H) as Hsh. inversion Hsh as [|? lp xs Hl Hr Hc Hnd Hsm|]. subst. unfold add_lp. cbn [sv_rep].
    apply wp_bind, wp_gets, wp_bind. eapply wp_load_lp; [done|]. case_match eqn:Ev.
    + apply wp_bind. eapply toHashSet_rule; [done..|]. intros l' s1 H1 Hq1. eapply add_hash_rule; [done..|]. intros s2 H2 Hq2. apply HQ; [done|done|chain].
    + apply orb_false_iff in Ev as [Ev%Z.ltb_ge En%Z.leb_gt]. pose proof (ar_lim _ _ _ (sa_rel _ _ _ _ _ H)) as HL. pose proof (lo_set_v _ HL) as Hlv. pose proof (lo_set_n _ HL) as Hln.
      unfold Listpack.Len in En. rewrite (repr_n _ _ Hr) in En.
      assert (compact (xs ++ [b])) as Hc'.
      { split; [rewrite zlen_app, zlen_cons, zlen_nil; lia|]. apply Forall_app. split; [apply Hc|]. constructor; [lia|constructor]. }
      apply wp_bind. apply (set_store m s (mkSv key (SLp l)) _ e (CListpack (Listpack.Append lp b)) ({[b]} ∪ list_to_set xs) _ H).
      { exists (xs ++ [b]). split_and!; [|done| |].
        - exact (append_all_repr lp xs [b] Hr Hc').
        - apply NoDup_app. split_and!; [done| |apply NoDup_singleton]. intros x Hx. rewrite list_elem_of_singleton. intros ->. by rewrite elem_of_list_to_set in Hb.
        - rewrite list_to_set_app_L. cbn. set_solver. }
      intros s1 H1 Hq1. apply wp_ret. by apply HQ.
  - eapply add_hash_rule; [done..|]. intros s1 H1 Hq1. by apply HQ.
Qed.

Lemma intset_compact (st : IntSet) (L : limits) :
  limits_ok L -> Intset.wf st -> Forall is_int64 (vals st) -> Intset.Len st < SetMaxListpackEntries L ->
  compact (elements (list_to_set (FormatInt <$> vals st) : gset bytes)).
Proof.
  intros HL Hwf Hf Hn. pose proof (lo_set_n _ HL). assert (elements (list_to_set (FormatInt <$> vals st) : gset bytes) ≡ₚ FormatInt <$> vals st) as Hp.
  { apply elements_list_to_set. by apply NoDup_ints; [|apply sorted_NoDup]. }
  split.
  - unfold Intset.Len, zlen in *. rewrite Hp, length_fmap. lia.
  - rewrite Hp. apply Forall_fmap. eapply Forall_impl; [done|]. intros n ?%FormatInt_length. cbn. lia.
Qed.

Lemma sv_addOne_rule m s h sm e b (Q : setView * bool -> St -> Prop) :
  orders_ok E -> set_at m s h sm e ->
  (forall h' s', set_at (<[sv_key h := (RSet ({[b]} ∪ sm), e)]> m) s' h' ({[b]} ∪ sm) e -> sv_key h' = sv_key h -> quiet s s' ->
     Q (h', negb (bool_decide (b ∈ sm))) s') ->
  wp (sv_addOne E h b) s Q.
Proof using Hclk.
  intros Ho H HQ. apply wp_bind. eapply sv_Contains_rule; [done|]. revert HQ. case_bool_decide as Hb; cbn [negb]; intros HQ.
  { apply wp_ret. replace ({[b]} ∪ sm) with sm in HQ by set_solver.
    apply HQ; [|done|apply quiet_refl]. rewrite insert_id; [done|apply H]. }
  fold (added m s (sv_key h) sm e b Q) in HQ.
  destruct h as [key r]. pose proof (set_at_shape _ _ _ _ _ H) as Hsh. cbn [sv_rep sv_key] in *. destruct Hsh as [l st Hl Hwf Hf ->|l lp xs|l t];
    [|by eapply add_lp_rule..].
  cbn [sv_rep sv_key] in *. apply wp_bind, wp_gets, wp_bind. eapply wp_load_is; [done|]. cbv zeta.
  assert (wp (v ← (if (zlen b <=? SetMaxListpackValue (s_lim s)) && (Intset.Len st <? SetMaxListpackEntries (s_lim s))
                   then toListpack E (mkSv key (SIs l)) else toHashSet E (mkSv key (SIs l))); add_lp E v b) s Q) as Hleave.
  { apply wp_bind. case_match eqn:Ec.
    - apply andb_true_iff in Ec as [_ Hn%Z.ltb_lt]. eapply toListpack_rule; [done..| |].
      { eapply intset_compact; [apply (sa_rel _ _ _ _ _ H)|done..]. }
      intros l' s1 H1 Hq1. eapply add_lp_rule; [done..|by eapply added_quiet].
    - eapply toHashSet_rule; [done..|]. intros l' s1 H1 Hq1. eapply add_lp_rule; [done..|by eapply added_quiet]. }
  destruct (Intset.Parse b) as [n|] eqn:En; [|done]. destruct (Intset.Len st <? SetMaxIntsetEntries (s_lim s)); [|done].
  apply Parse_canonical in En as [-> Hn]. destruct (Intset.Add_spec st n Hwf) as (st' & Ea & Hwf' & Hset).
  assert (n ∉ vals st) as Hnn by by rewrite <- (elem_of_ints _ _ Hf Hn).
  rewrite bool_decide_true in Ea by done. apply wp_bind. eapply wp_lift; [done|]. apply wp_bind.
  assert (forall v, v ∈ vals st' <-> v = n \/ v ∈ vals st) as Hv.
  { intros v. pose proof (f_equal (fun X => v ∈ X) Hset) as Hx. unfold Intset.to_set in Hx. cbn in Hx.
    rewrite <- (elem_of_list_to_set (C := gset Z) v (vals st')), Hx. set_solver. }
  apply (set_store m s (mkSv key (SIs l)) _ e (CIntset st') ({[FormatInt n]} ∪ list_to_set (FormatInt <$> vals st)) _ H).
  { split_and!; [done| |].
    - apply Forall_forall. intros v [->|Hx]%Hv; [done|]. rewrite Forall_forall in Hf. by apply Hf.
    - apply set_eq. intros x. rewrite elem_of_union, elem_of_singleton, !elem_of_list_to_set, !list_elem_of_fmap. setoid_rewrite Hv. naive_solver. }
  intros s1 H1 Hq1. apply wp_ret. by apply HQ.
Qed.

(** The new members of a set, and how many they are. *)
Lemma sv_Add_rule ms : forall m s h sm e n (Q : setView * Z -> St -> Prop),
  orders_ok E -> set_at m s h sm e ->
  (forall h' s', set_at (<[sv_key h := (RSet (list_to_set ms ∪ sm), e)]> m) s' h' (list_to_set ms ∪ sm) e -> sv_key h' = sv_key h -> quiet s s' ->
     Q (h', n + (Z.of_nat (size (list_to_set ms ∪ sm)) - Z.of_nat (size sm))) s') ->
  wp (sv_Add E h ms n) s Q.
Proof using Hclk.
  induction ms as [|b ms IH]; intros m s h sm e n Q Ho H HQ.
  { apply wp_ret. cbn in HQ. rewrite (left_id_L ∅ (∪)) in HQ. replace n with (n + (Z.of_nat (size sm) - Z.of_nat (size sm))) by lia.
    apply HQ; [|done|apply quiet_refl]. rewrite insert_id; [done|apply H]. }
  cbn [sv_Add]. apply wp_bind. apply (sv_addOne_rule m s h sm e); [done..|]. intros h1 s1 H1 Hk1 Hq1.
  eapply IH; [done|exact H1|]. intros h2 s2 H2 Hk2 Hq2. rewrite Hk1, insert_insert_eq in H2.
  assert (list_to_set ms ∪ ({[b]} ∪ sm) = list_to_set (b :: ms) ∪ sm) as Hset by set_solver. rewrite Hset in *.
  replace (_ + (_ - Z.of_nat (size ({[b]} ∪ sm)))) with (n + (Z.of_nat (size (list_to_set (b :: ms) ∪ sm)) - Z.of_nat (size sm))).
  - apply HQ; [done|congruence|chain].
  - rewrite size_add. case_bool_decide; cbn [negb]; lia.
Qed.

Lemma remove_one_rule m s h sm e b (Q : Z -> St -> Prop) :
  set_at m s h sm e ->
  (forall s', set_at (<[sv_key h := (RSet (sm ∖ {[b]}), e)]> m) s' h (sm ∖ {[b]}) e -> quiet s s' -> Q (if bool_decide (b ∈ sm) then 1 else 0) s') ->
  wp (remove_one h b) s Q.
Proof.
  clear Hclk. intros H HQ. unfold remove_one.
  assert (b ∉ sm -> Q 0 s) as Hnone.
  { intros Hb. revert HQ. rewrite bool_decide_false by done. replace (sm ∖ {[b]}) with sm by set_solver. intros HQ.
    apply HQ; [|apply quiet_refl]. rewrite insert_id; [done|apply H]. }
  destruct h as [key r]. pose proof (set_at_shape _ _ _ _ _ H) as Hsh. cbn [sv_rep sv_key] in *.
  destruct Hsh as [l st Hl Hwf Hf ->|l lp xs Hl Hr Hc Hnd ->|l t Hl ->]; apply wp_bind.
  - eapply wp_load_is; [done|]. destruct (Intset.Parse b) as [n|] eqn:En; [|apply wp_ret; by apply Hnone, not_int_member].
    apply Parse_canonical in En as [-> Hn]. destruct (Intset.Remove_spec st n Hwf) as (st' & Ea & Hwf' & Hset).
    apply wp_bind. eapply wp_lift; [done|]. apply wp_bind.
    assert (forall v, v ∈ vals st' <-> v <> n /\ v ∈ vals st) as Hv.
    { intros v. pose proof (f_equal (fun X => v ∈ X) Hset) as Hx. unfold Intset.to_set in Hx. cbn in Hx.
      rewrite <- (elem_of_list_to_set (C := gset Z) v (vals st')), Hx. set_solver. }
    apply (set_store m s (mkSv key (SIs l)) _ e (CIntset st') (list_to_set (FormatInt <$> vals st) ∖ {[FormatInt n]}) _ H).
    { split_and!; [done| |].
      - apply Forall_forall. intros v [_ Hx]%Hv. rewrite Forall_forall in Hf. by apply Hf.
      - apply set_eq. intros x. rewrite elem_of_difference, elem_of_singleton, !elem_of_list_to_set, !list_elem_of_fmap. setoid_rewrite Hv.
        rewrite Forall_forall in Hf. split.
        + intros [(v & -> & Hin) Hne]. exists v. split; [done|]. split; [|done]. by intros ->.
        + intros (v & -> & Hne & Hin). split; [eauto|]. intros Heq. apply Hne, FormatInt_inj; auto. }
    intros s1 H1 Hq1. apply wp_ret. rewrite (bool_decide_ext _ _ (elem_of_ints _ _ Hf Hn)) in HQ. by apply HQ.
  - eapply wp_load_lp; [done|]. destruct (find_member lp xs b Hr) as (i & Ei & Hi). apply wp_bind. eapply wp_lift; [done|].
    destruct Hi as [[-> Hno]|(n & -> & Hn)]; [apply wp_ret, Hnone; by rewrite elem_of_list_to_set|].
    rewrite (proj2 (Z.leb_le _ _)) by lia. pose proof (lookup_lt_Some _ _ _ Hn) as Hlt.
    assert (Listpack.spec_op xs (OpDeleteRange (Z.of_nat n) 1) = (take n xs ++ drop (S n) xs, true)) as Hs.
    { cbn [Listpack.spec_op]. unfold zlen in *.
      rewrite (proj2 (Z.ltb_ge _ _)), (proj2 (Z.ltb_ge (Z.of_nat (length xs)) _)) by lia. cbn [orb Z.leb Z.compare]. do 3 f_equal; lia. }
    assert (compact (take n xs ++ drop (S n) xs)) as Hc'.
    { destruct Hc as [Hc1 Hc2]. split.
      - rewrite zlen_app. unfold zlen in *. rewrite length_take, length_drop. lia.
      - apply Forall_app. split; [by apply Forall_take|by apply Forall_drop]. }
    destruct (DeleteRange_repr lp xs (Z.of_nat n) 1 Hr) as (lp' & El & Hr').
    { unfold Listpack.op_ok. rewrite Hs. cbn [fst]. destruct Hc'. split; [apply compact_fits; [lia|done]|].
      destruct Hc as [Hc1 _]. unfold max_int64, zlen in *. lia. }
    rewrite Hs in El, Hr'. cbn [fst snd] in *. destruct (remove_member xs n b Hnd Hn) as [Hnd' Hm'].
    apply wp_bind. eapply wp_lift; [done|]. apply wp_bind.
    apply (set_store m s (mkSv key (SLp l)) _ e (CListpack lp') (list_to_set xs ∖ {[b]}) _ H).
    { exists (take n xs ++ drop (S n) xs). by rewrite Hm'. }
    intros s1 H1 Hq1. apply wp_ret. revert HQ. rewrite bool_decide_true by (apply elem_of_list_to_set; by eapply list_elem_of_lookup_2). intros HQ. by apply HQ.
  - eapply wp_load_set; [done|]. cbn [set_Remove]. revert HQ. case_bool_decide as Hb; intros HQ; apply wp_bind.
    + apply (set_store m s (mkSv key (SSet l)) _ e (CSet (mkSet (set_m t ∖ {[b]}))) (set_m t ∖ {[b]}) _ H); [done|].
      intros s1 H1 Hq1. apply wp_ret. by apply HQ.
    + apply (set_store m s (mkSv key (SSet l)) _ e (CSet t) (set_m t ∖ {[b]}) _ H); [cbn; set_solver|].
      intros s1 H1 Hq1. apply wp_ret. by apply HQ.
Qed.

Lemma sv_Remove_rule ms : forall m s h sm e n (Q : Z -> St -> Prop),
  set_at m s h sm e ->
  (forall s', set_at (<[sv_key h := (RSet (sm ∖ list_to_set ms), e)]> m) s' h (sm ∖ list_to_set ms) e -> quiet s s' ->
     Q (n + (Z.of_nat (size sm) - Z.of_nat (size (sm ∖ list_to_set ms)))) s') ->
  wp (sv_Remove h ms n) s Q.
Proof.
  clear Hclk. induction ms as [|b ms IH]; intros m s h sm e n Q H HQ.
  { apply wp_ret. cbn in HQ. rewrite difference_empty_L in HQ. replace n with (n + (Z.of_nat (size sm) - Z.of_nat (size sm))) by lia.
    apply HQ; [|apply quiet_refl]. rewrite insert_id; [done|apply H]. }
  cbn [sv_Remove]. apply wp_bind. apply (remove_one_rule m s h sm e); [done..|]. intros s1 H1 Hq1.
  eapply IH; [exact H1|]. intros s2 H2 Hq2. rewrite insert_insert_eq in H2.
  assert (sm ∖ {[b]} ∖ list_to_set ms = sm ∖ list_to_set (b :: ms)) as Hset by set_solver. rewrite Hset in *.
  replace (_ + (Z.of_nat (size (sm ∖ {[b]})) - _)) with (n + (Z.of_nat (size sm) - Z.of_nat (size (sm ∖ list_to_set (b :: ms))))).
  - apply HQ; [done|chain].
  - rewrite size_remove. case_bool_decide; lia.
Qed.

(** *** Opening a view *)

Lemma newSetView_rule m s key o sm e (Q : bytes + setView -> St -> Prop) :
  abs_rel T m s -> m !! key = Some (RSet sm, e) -> view T s key = Some (face o, e) ->
  (forall h, sv_key h = key -> set_at m s h sm e -> Q (inr h) s) -> wp (newSetView E key o) s Q.
Proof.
  intros H Hk Hv HQ. pose proof (ar_keys _ _ _ H key) as Hkk. rewrite Hk, Hv in Hkk.
  destruct Hkk as (_ & [Ht (l & c & Hp & Hl & Hh)] & _). unfold face in *. unfold newSetView. rewrite Hp in *.
  apply wp_bind. eapply load_rule; [done|]. cbn in Hh, Ht.
  destruct (o_Encoding o) eqn:Ee; try done; destruct c; try done; apply wp_ret; apply HQ; try done; split; try done; cbn; by rewrite Hv, Ht.
Qed.

(** What a lookup of a set finds. *)
Definition found_set (m : dataset) (k : bytes) (r : bytes + option setView) (s : St) : Prop :=
  match m !! k with
  | None => r = inr None /\ abs_rel T m s
  | Some (RSet sm, e) => exists h, r = inr (Some h) /\ sv_key h = k /\ set_at m s h sm e
  | Some _ => r = inl wrongtype /\ abs_rel T m s
  end.

Lemma reads_some m s k v e r : reads T m s k r -> m !! k = Some (v, e) -> exists o, r = Some o.
Proof. unfold reads. intros Hr Em. rewrite Em in Hr. naive_solver. Qed.

Lemma reads_none m s k r : reads T m s k r -> m !! k = None -> r = None.
Proof. unfold reads. intros Hr Em. by rewrite Em in Hr. Qed.

Lemma getSetView_rule m s k (Q : bytes + option setView -> St -> Prop) :
  abs_rel T m s -> (forall r s', keeps m s s' -> (forall j, view T s' j = view T s j) -> found_set m k r s' -> Q r s') -> wp (getSetView E k) s Q.
Proof using Hclk.
  intros H HQ. apply wp_bind. apply (db_Get_view_rule E T Hclk m); [done|]. intros r s1 H1 Hk1%reaps_keeps _ _ Hr _ Hview. unfold found_set in HQ.
  destruct (m !! k) as [[v e]|] eqn:Em; [|rewrite (reads_none _ _ _ _ Hr Em); apply wp_ret; by apply HQ].
  destruct (reads_some _ _ _ _ _ _ Hr Em) as [o ->]. destruct (reads_type T _ _ _ _ _ _ Hr Em) as (Ht & Hv & Hno).
  destruct v as [b|l|st|hm]; cbn [type_of] in *; [..|rewrite (Hno OBJ_SET) by done; apply wp_ret; by apply HQ];
    [rewrite (Hno OBJ_SET) by done; apply wp_ret; by apply HQ..|].
  rewrite Ht. cbn [negb]. apply wp_bind. eapply newSetView_rule; [done..|]. intros h Hh Hat. apply wp_ret. apply HQ; [done|done|]. eauto.
Qed.

Lemma set_at_view m s s' h sm e : set_at m s h sm e -> abs_rel T m s' -> (forall j, view T s' j = view T s j) -> set_at m s' h sm e.
Proof. intros [H Hk Hv] H' Hview. split; [done|done|by rewrite Hview]. Qed.

(** The set of [k], created when there is none. *)
Definition opened_set (m : dataset) (k : bytes) (r : bytes + setView) (s : St) : Prop :=
  match m !! k with
  | None => exists h, r = inr h /\ sv_key h = k /\ set_at (<[k := (RSet ∅, 0)]> m) s h ∅ 0
  | Some (RSet sm, e) => exists h, r = inr h /\ sv_key h = k /\ set_at m s h sm e
  | Some _ => r = inl wrongtype /\ abs_rel T m s
  end.

Lemma getOrCreateSet_reaps_rule m s k (Q : bytes + setView -> St -> Prop) :
  abs_rel T m s -> (forall r s', reaps m k s s' -> opened_set m k r s' -> Q r s') -> wp (getOrCreateSet E k) s Q.
Proof using Hclk.
  intros H HQ. apply wp_bind. apply (db_Get_view_rule E T Hclk m); [done|]. intros r s1 H1 Hk1 _ _ Hr _ _. unfold opened_set in HQ.
  destruct (m !! k) as [[v e]|] eqn:Em.
  - destruct (reads_some _ _ _ _ _ _ Hr Em) as [o ->]. destruct (reads_type T _ _ _ _ _ _ Hr Em) as (Ht & Hv & Hno).
    destruct v as [b|l|st|hm]; cbn [type_of] in *; [..|rewrite (Hno OBJ_SET) by done; apply wp_ret; by apply HQ];
      [rewrite (Hno OBJ_SET) by done; apply wp_ret; by apply HQ..|].
    rewrite Ht. cbn [negb]. eapply newSetView_rule; [done..|]. intros h Hh Hat. apply HQ; [done|]. eauto.
  - rewrite (reads_none _ _ _ _ Hr Em). apply wp_bind. apply (alloc_rule T m); [done|]. intros l s2 H2 Hq2 Hl Hu _ Hv2.
    apply wp_bind. apply (db_Set_rule E T Hclk m s2 k _ (RSet ∅)); [done| |].
    { split; [|intros l0 [= <-]; done]. split; [done|]. exists l, (CIntset Intset.New). split_and!; [done|done|].
      split_and!; [apply New_wf|constructor|done]. }
    intros s3 H3 Hq3 _ _ Hv3. apply wp_ret. apply HQ; [intros m' Hm'; specialize (Hk1 m' Hm'); chain|]. eexists. split_and!; [done|done|]. split; [done|by rewrite lookup_insert_eq|done].
Qed.

Lemma getOrCreateSet_rule m s k (Q : bytes + setView -> St -> Prop) :
  abs_rel T m s -> (forall r s', keeps m s s' -> opened_set m k r s' -> Q r s') -> wp (getOrCreateSet E k) s Q.
Proof using Hclk. intros H HQ. apply (getOrCreateSet_reaps_rule m); [done|]. intros r s' Hk%reaps_keeps. by apply HQ. Qed.

End views.

(** ** Meanings *)

Definition on_set {A : Type} (m : dataset) (k : bytes) (none : A) (some : gset bytes -> A) (wrong : A) : A :=
  match m !! k with
  | None => none
  | Some (RSet sm, _) => some sm
  | Some _ => wrong
  end.

Definition card (sm : gset bytes) : Z := Z.of_nat (size sm).

(** SADD counts the new members; the deadline of the key stays. *)
Definition ref_SADD (m : dataset) (k : bytes) (ms : list bytes) : bytes * dataset :=
  let put (sm : gset bytes) := (Integer (card (list_to_set ms ∪ sm) - card sm), <[k := (RSet (list_to_set ms ∪ sm), deadline_of m k)]> m) in
  on_set m k (put ∅) put (wrongtype, m).

(** A set without members is no key. *)
Definition shrink (m : dataset) (k : bytes) (sm : gset bytes) : dataset :=
  if bool_decide (sm = ∅) then delete k m else <[k := (RSet sm, deadline_of m k)]> m.

Definition ref_SREM (m : dataset) (k : bytes) (ms : list bytes) : bytes * dataset :=
  on_set m k (Integer 0, m) (fun sm => (Integer (card sm - card (sm ∖ list_to_set ms)), shrink m k (sm ∖ list_to_set ms))) (wrongtype, m).

Definition ref_SISMEMBER (m : dataset) (k b : bytes) : bytes * dataset :=
  (on_set m k (Integer 0) (fun sm => Integer (if bool_decide (b ∈ sm) then 1 else 0)) wrongtype, m).

Definition ref_SCARD (m : dataset) (k : bytes) : bytes * dataset :=
  (on_set m k (Integer 0) (fun sm => Integer (card sm)) wrongtype, m).

Definition ref_SMISMEMBER (m : dataset) (k : bytes) (ms : list bytes) : bytes * dataset :=
  let answer (sm : gset bytes) := Array ((fun b => Integer (if bool_decide (b ∈ sm) then 1 else 0)) <$> ms) in
  (on_set m k (answer ∅) answer wrongtype, m).

(** The operands of a set expression: an absent key is the empty set, a key of another type is an error. *)
Fixpoint operands (m : dataset) (keys : list bytes) : option (list (gset bytes)) :=
  match keys with
  | [] => Some []
  | k :: keys =>
    sm ← on_set m k (Some ∅) Some None;
    sms ← operands m keys;
    Some (sm :: sms)
  end.

Definition combine (op : set_op) (sms : list (gset bytes)) : gset bytes :=
  match op, sms with
  | OpUnion, _ => ⋃ sms
  | _, [] => ∅
  | OpInter, sm :: sms => foldr intersection sm sms
  | OpDiff, sm :: sms => sm ∖ ⋃ sms
  end.

Definition ref_STORE (m : dataset) (op : set_op) (dst : bytes) (keys : list bytes) : bytes * dataset :=
  match operands m keys with
  | None => (wrongtype, m)
  | Some sms =>
    let sm := combine op sms in
    (Integer (card sm), if bool_decide (sm = ∅) then delete dst m else <[dst := (RSet sm, 0)]> m)
  end.

Definition ref_SINTERCARD (m : dataset) (keys : list bytes) (limit : Z) : bytes * dataset :=
  (match operands m keys with
   | None => wrongtype
   | Some sms => Integer (if 0 <? limit then Z.min limit (card (combine OpInter sms)) else card (combine OpInter sms))
   end, m).

(** SMOVE takes the member out of the source, which goes when it was the last one, and then adds it. *)
Definition ref_SMOVE (m : dataset) (src dst b : bytes) : bytes * dataset :=
  let to := on_set m dst true (fun _ => true) false in
  on_set m src (if to then Integer 0 else wrongtype, m)
    (fun sm =>
       if negb to then (wrongtype, m)
       else if negb (bool_decide (b ∈ sm)) then (Integer 0, m)
       else
         let m1 := shrink m src (sm ∖ {[b]}) in
         (Integer 1, (ref_SADD m1 dst [b]).2))
    (wrongtype, m).

(** ** The handlers *)

Ltac set_cases m k :=
  let r := fresh "r" in let s1 := fresh "s1" in let Hr := fresh "Hr" in
  intros r s1 ? ? Hr; unfold found_set in Hr; unfold on_set, deadline_of;
  destruct (m !! k) as [[[?b|?x|?sm|?x] ?e]|] eqn:?Em;
  [destruct Hr as [-> ?]; try (by replied)..|destruct Hr as (?h & -> & ?Hkey & ?Hat)|destruct Hr as [-> ?]; try (by replied)|destruct Hr as [-> ?]].

Section commands.
Variables (E : env) (T : Z).
Hypothesis Hclk : instant E T.

Local Notation does := (does T).
Local Notation set_at := (set_at T).

Lemma sismemberCommand_ok m s n k b : abs_rel T m s -> does (sismemberCommand E [n; k; b]) m s (ref_SISMEMBER m k b).
Proof using Hclk.
  intros H. apply (wp_arg _ _ k); [done|]. apply (wp_arg _ _ b); [done|]. apply wp_bind. apply (getSetView_rule E T Hclk m); [done|]. unfold ref_SISMEMBER.
  set_cases m k; [|replied]. apply wp_bind. eapply sv_Contains_rule; [done|]. destruct Hat. apply wp_ret. by destruct (bool_decide (b ∈ sm)).
Qed.

Lemma scardCommand_ok m s n k : abs_rel T m s -> does (scardCommand E [n; k]) m s (ref_SCARD m k).
Proof using Hclk.
  intros H. apply (wp_arg _ _ k); [done|]. apply wp_bind. apply (getSetView_rule E T Hclk m); [done|]. unfold ref_SCARD.
  set_cases m k; [|replied]. apply wp_bind. eapply sv_Card_rule; [done|]. destruct Hat. replied.
Qed.

Lemma mark_members_ok m s h sm e ms (Q : list bytes -> St -> Prop) :
  set_at m s h sm e -> Q ((fun b => Integer (if bool_decide (b ∈ sm) then 1 else 0)) <$> ms) s -> wp (mark_members (Some h) ms) s Q.
Proof.
  intros H. revert Q. induction ms as [|b ms IH]; intros Q HQ; [by apply wp_ret|]. cbn [mark_members].
  apply wp_bind. eapply sv_Contains_rule; [done|]. apply wp_bind, IH, wp_ret, HQ.
Qed.

Lemma mark_none_ok s ms (Q : list bytes -> St -> Prop) :
  Q ((fun b => Integer (if bool_decide (b ∈ (∅ : gset bytes)) then 1 else 0)) <$> ms) s -> wp (mark_members None ms) s Q.
Proof.
  clear Hclk. revert Q. induction ms as [|b ms IH]; intros Q HQ; [by apply wp_ret|]. cbn [mark_members]. apply wp_bind, wp_ret, wp_bind, IH, wp_ret.
  cbn [fmap list_fmap] in HQ. by rewrite bool_decide_false in HQ by set_solver.
Qed.

Lemma smismemberCommand_ok m s n k ms : abs_rel T m s -> does (smismemberCommand E (n :: k :: ms)) m s (ref_SMISMEMBER m k ms).
Proof using Hclk.
  intros H. apply (wp_arg _ _ k); [done|]. apply wp_bind. apply (getSetView_rule E T Hclk m); [done|]. unfold ref_SMISMEMBER.
  set_cases m k; apply wp_bind.
  - eapply mark_members_ok; [done|]. destruct Hat. replied.
  - apply mark_none_ok. replied.
Qed.

Lemma saddCommand_ok m s n k ms : orders_ok E -> abs_rel T m s -> does (saddCommand E (n :: k :: ms)) m s (ref_SADD m k ms).
Proof using Hclk.
  intros Ho H. apply (wp_arg _ _ k); [done|]. apply wp_bind. apply (getOrCreateSet_rule E T Hclk m); [done|]. intros r s1 Hk1 Hr.
  unfold ref_SADD, on_set, deadline_of. unfold opened_set in Hr.
  destruct (m !! k) as [[[b|x|sm|x] e]|] eqn:Em; [destruct Hr as [-> ?]; replied..| |destruct Hr as [-> ?]; replied|].
  - destruct Hr as (h & -> & <- & Hat). apply wp_bind. eapply sv_Add_rule; [done..|]. intros h' s2 [] _ Hq2. rewrite Z.add_0_l. replied.
  - destruct Hr as (h & -> & <- & Hat). apply wp_bind. eapply sv_Add_rule; [done..|]. intros h' s2 [H2 _ _] _ Hq2.
    rewrite Z.add_0_l. rewrite insert_insert_eq in H2. replied.
Qed.

(** A set that has lost members, and its key when it has none left. *)
Lemma drop_if_empty {B : Type} (m0 m : dataset) s h sm e s0 (k : Z -> M B) (Q : B -> St -> Prop) :
  set_at m s h sm e -> keeps m0 s0 s ->
  (forall s', abs_rel T (if bool_decide (sm = ∅) then delete (sv_key h) m else m) s' -> keeps m0 s0 s' ->
     (sm = ∅ -> expires (getShard (s_db s') (sv_key h)) !! sv_key h = None) -> wp (k (card sm)) s' Q) ->
  wp (n ← sv_Card h; _ ← (if n =? 0 then db_Del E (sv_key h) else mret false); k n) s Q.
Proof using Hclk.
  intros H Hk HQ. apply wp_bind. eapply sv_Card_rule; [done|]. destruct H as [H _ _]. revert HQ. unfold card. case_bool_decide as Hx; intros HQ.
  - rewrite Hx, size_empty in *. cbn [Z.of_nat Z.eqb]. apply wp_bind. apply (db_Del_gone_rule E T Hclk _ _ _ _ H).
    intros s3 H3 Hq3 _ _ Hg. apply HQ; [done|chain|done].
  - rewrite (proj2 (Z.eqb_neq _ _)); [|intros Hz; apply Hx, leibniz_equiv, size_empty_inv; lia]. apply wp_bind, wp_ret. by apply HQ.
Qed.

Lemma shrink_eq (m : dataset) (k : bytes) (sm sm' : gset bytes) (e : Z) :
  m !! k = Some (RSet sm, e) -> (if bool_decide (sm' = ∅) then delete k (<[k := (RSet sm', e)]> m) else <[k := (RSet sm', e)]> m) = shrink m k sm'.
Proof. intros Hk. unfold shrink, deadline_of. rewrite Hk. case_bool_decide; [by rewrite delete_insert_eq|done]. Qed.

Lemma sremCommand_ok m s n k ms : abs_rel T m s -> does (sremCommand E (n :: k :: ms)) m s (ref_SREM m k ms).
Proof using Hclk.
  intros H. apply (wp_arg _ _ k); [done|]. apply wp_bind. apply (getSetView_rule E T Hclk m); [done|]. unfold ref_SREM.
  set_cases m k; [|replied]. subst k. apply wp_bind. eapply sv_Remove_rule; [done|]. intros s2 H2 Hq2. rewrite Z.add_0_l.
  eapply (drop_if_empty m); [done|chain|]. change (drop 2 _) with ms. intros s3 H3 Hk3 _. rewrite (shrink_eq _ _ sm) in H3 by done. replied.
Qed.

Lemma smembersCommand_ok m s n k :
  orders_ok E -> abs_rel T m s ->
  wp (smembersCommand E [n; k]) s (fun r s' => abs_rel T m s' /\ keeps m s s' /\
    on_set m k (r = Array []) (fun sm => exists ms, ms ≡ₚ elements sm /\ r = membersReply (c_resp3 s) ms) (r = wrongtype)).
Proof using Hclk.
  intros Ho H. apply (wp_arg _ _ k); [done|]. apply wp_bind. apply (getSetView_rule E T Hclk m); [done|].
  intros r s1 Hk1 Hview Hr. apply wp_bind, wp_gets. rewrite (k_resp3 _ _ Hk1). unfold found_set, on_set in *.
  destruct (m !! k) as [[[b|x|sm|x] e]|]; [destruct Hr as [-> ?]; by apply wp_ret..| |destruct Hr as [-> ?]; by apply wp_ret|destruct Hr as [-> ?]; by apply wp_ret].
  destruct Hr as (h & -> & Hkey & Hat). apply wp_bind. eapply sv_Members_rule; [done..|]. intros ms Hp. apply wp_ret. destruct Hat. split_and!; [done..|]. by exists ms.
Qed.

(** *** Set algebra *)

(** The views of the operands, and the sets they show. *)
Inductive operand (m : dataset) (s : St) : option setView -> gset bytes -> Prop :=
  | operand_none : operand m s None ∅
  | operand_some h sm e : set_at m s h sm e -> operand m s (Some h) sm.

Lemma operand_view m s s' v sm : operand m s v sm -> abs_rel T m s' -> (forall j, view T s' j = view T s j) -> operand m s' v sm.
Proof. intros [|h sm' e Hat] H' Hv; [constructor|]. econstructor. by eapply set_at_view. Qed.

Lemma get_sets_ok m keys : forall s (Q : bytes + list (option setView) -> St -> Prop),
  abs_rel T m s ->
  (forall r s', abs_rel T m s' -> keeps m s s' -> (forall j, view T s' j = view T s j) ->
     match operands m keys with
     | None => r = inl wrongtype
     | Some sms => exists vs, r = inr vs /\ Forall2 (operand m s') vs sms
     end -> Q r s') ->
  wp (get_sets E keys) s Q.
Proof using Hclk.
  induction keys as [|k keys IH]; intros s Q H HQ.
  { apply wp_ret. apply HQ; [done|apply keeps_refl|done|]. exists []. split; [done|constructor]. }
  cbn [get_sets operands] in *. apply wp_bind. apply (getSetView_rule E T Hclk m); [done|]. intros r s1 Hk1 Hv1 Hr.
  unfold found_set, on_set in *.
  assert (forall v sm, abs_rel T m s1 -> operand m s1 v sm ->
    (forall r s', abs_rel T m s' -> keeps m s s' -> (forall j, view T s' j = view T s j) ->
      match (sms ← operands m keys; Some (sm :: sms)) with
      | None => r = inl wrongtype
      | Some sms => exists vs, r = inr vs /\ Forall2 (operand m s') vs sms
      end -> Q r s') ->
    wp (rs ← get_sets E keys; mret (match rs with inl err => inl err | inr vs => inr (v :: vs) end)) s1 Q) as Hgo.
  { clear HQ Hr. intros v sm H1 Hop HQ. apply wp_bind. apply IH; [done|]. intros rs s2 H2 Hk2 Hv2 Hrs. apply wp_ret.
    apply HQ; [done|chain|intros j; by rewrite Hv2|]. destruct (operands m keys) as [sms|]; cbn; [|by subst rs].
    destruct Hrs as (vs & -> & Hall). exists (v :: vs). split; [done|]. constructor; [by eapply operand_view|done]. }
  destruct (m !! k) as [[[b|x|sm|x] e]|].
  1, 2, 4: destruct Hr as [-> ?]; apply wp_ret; by apply HQ.
  - destruct Hr as (h & -> & Hkey & Hat). eapply Hgo; [apply Hat|by econstructor|done].
  - destruct Hr as [-> H1]. eapply Hgo; [done|constructor|done].
Qed.

Lemma in_all_ok m s b vs sms (Q : bool -> St -> Prop) :
  Forall2 (operand m s) vs sms -> Q (forallb (fun sm => bool_decide (b ∈ sm)) sms) s -> wp (in_all b vs) s Q.
Proof.
  clear Hclk. intros Hall. induction Hall as [|v sm vs sms Hop Hall IH]; intros HQ; [by apply wp_ret|]. cbn [in_all forallb] in *.
  destruct Hop as [|h sm e Hat]; [apply wp_ret; by rewrite bool_decide_false in HQ by set_solver|].
  apply wp_bind. eapply sv_Contains_rule; [done|]. destruct (bool_decide (b ∈ sm)); [by apply IH|by apply wp_ret].
Qed.

Lemma in_some_ok m s b vs sms (Q : bool -> St -> Prop) :
  Forall2 (operand m s) vs sms -> Q (existsb (fun sm => bool_decide (b ∈ sm)) sms) s -> wp (in_some b vs) s Q.
Proof.
  clear Hclk. intros Hall. induction Hall as [|v sm vs sms Hop Hall IH]; intros HQ; [by apply wp_ret|]. cbn [in_some existsb] in *.
  destruct Hop as [|h sm e Hat]; [apply IH; by rewrite bool_decide_false in HQ by set_solver|].
  apply wp_bind. eapply sv_Contains_rule; [done|]. destruct (bool_decide (b ∈ sm)); [by apply wp_ret|by apply IH].
Qed.

Lemma perm_elements (xs : list bytes) (sm : gset bytes) : NoDup xs -> (forall b, b ∈ xs <-> b ∈ sm) -> xs ≡ₚ elements sm.
Proof. intros Hnd Hin. apply NoDup_Permutation; [done|apply NoDup_elements|]. intros b. by rewrite elem_of_elements. Qed.

(** At most [limit] results, when it is positive. *)
Definition cut (limit : Z) (xs : list bytes) : list bytes := if 0 <? limit then take (Z.to_nat limit) xs else xs.

Lemma cut_nil limit : cut limit [] = [].
Proof. unfold cut. case_match; [apply take_nil|done]. Qed.

Lemma inter_loop_ok m s vs sms limit ms : forall out (Q : list bytes -> St -> Prop),
  Forall2 (operand m s) vs sms -> (0 < limit -> zlen out < limit) ->
  Q (cut limit (out ++ filter (fun b => forallb (fun sm => bool_decide (b ∈ sm)) sms = true) ms)) s -> wp (inter_loop ms vs limit out) s Q.
Proof.
  clear Hclk. induction ms as [|b ms IH]; intros out Q Hall Hlim HQ.
  { apply wp_ret. cbn in HQ. rewrite app_nil_r in HQ. unfold cut in HQ. destruct (Z.ltb_spec 0 limit) as [Hl|]; [|done].
    specialize (Hlim Hl). rewrite take_ge in HQ by (unfold zlen in *; lia). done. }
  cbn [inter_loop]. apply wp_bind. eapply in_all_ok; [done|]. rewrite filter_cons in HQ.
  destruct (forallb (fun sm => bool_decide (b ∈ sm)) sms) eqn:Hb; [|apply IH; done].
  rewrite decide_True in HQ by done. case_match eqn:Hc.
  - apply andb_true_iff in Hc as [Hl%Z.ltb_lt Hz%Z.leb_le]. apply wp_ret. unfold cut in HQ. rewrite (proj2 (Z.ltb_lt _ _) Hl) in HQ.
    specialize (Hlim Hl). rewrite zlen_app, zlen_cons, zlen_nil in Hz.
    rewrite (cons_middle b out), app_assoc, take_app_length' in HQ; [done|]. rewrite length_app. cbn. unfold zlen in *. lia.
  - apply IH; [done| |].
    + intros Hl. rewrite (proj2 (Z.ltb_lt _ _) Hl) in Hc. by apply Z.leb_gt in Hc.
    + by rewrite <- app_assoc.
Qed.

Lemma diff_loop_ok m s vs sms ms : forall out (Q : list bytes -> St -> Prop),
  Forall2 (operand m s) vs sms ->
  Q (out ++ filter (fun b => existsb (fun sm => bool_decide (b ∈ sm)) sms = false) ms) s -> wp (diff_loop ms vs out) s Q.
Proof.
  clear Hclk. induction ms as [|b ms IH]; intros out Q Hall HQ; [apply wp_ret; by rewrite app_nil_r in HQ|].
  cbn [diff_loop]. apply wp_bind. eapply in_some_ok; [done|]. rewrite filter_cons in HQ. apply IH; [done|].
  destruct (existsb (fun sm => bool_decide (b ∈ sm)) sms); [by rewrite decide_False in HQ by done|].
  rewrite decide_True in HQ by done. by rewrite <- app_assoc.
Qed.

Lemma add_unseen_spec ms : forall out, NoDup out -> NoDup (add_unseen out ms) /\ forall b, b ∈ add_unseen out ms <-> b ∈ out \/ b ∈ ms.
Proof.
  clear Hclk. unfold add_unseen. induction ms as [|x ms IH]; intros out Hnd; cbn [fold_left]; [split; [done|]; set_solver|].
  case_bool_decide as Hx.
  - destruct (IH out Hnd) as [Hnd' Hin]. split; [done|]. intros b. rewrite Hin, elem_of_cons. naive_solver.
  - destruct (IH (out ++ [x])) as [Hnd' Hin].
    { apply NoDup_app. split_and!; [done| |apply NoDup_singleton]. intros y Hy. rewrite list_elem_of_singleton. by intros ->. }
    split; [done|]. intros b. rewrite Hin, elem_of_app, list_elem_of_singleton, elem_of_cons. tauto.
Qed.

Lemma union_loop_ok m s vs sms : forall out (Q : list bytes -> St -> Prop),
  orders_ok E -> Forall2 (operand m s) vs sms -> NoDup out ->
  (forall ms, NoDup ms -> (forall b, b ∈ ms <-> b ∈ out \/ b ∈ ⋃ sms) -> Q ms s) -> wp (union_loop E vs out) s Q.
Proof.
  clear Hclk. intros out Q Ho Hall. revert out. induction Hall as [|v sm vs sms Hop Hall IH]; intros out Hnd HQ.
  { apply wp_ret. apply HQ; [done|]. set_solver. }
  cbn [union_loop]. destruct Hop as [|h sm e Hat].
  - apply IH; [done|]. intros ms Hms Hin. apply HQ; [done|]. intros b. rewrite Hin. set_solver.
  - apply wp_bind. eapply sv_Members_rule; [done..|]. intros xs Hp. destruct (add_unseen_spec xs out Hnd) as [Hnd' Hin'].
    apply IH; [done|]. intros ms Hms Hin. apply HQ; [done|]. intros b. rewrite Hin, Hin', Hp, elem_of_elements. set_solver.
Qed.

Lemma inter_elem (b : bytes) (sm : gset bytes) (sms : list (gset bytes)) :
  b ∈ foldr intersection sm sms <-> b ∈ sm /\ forallb (fun sm => bool_decide (b ∈ sm)) sms = true.
Proof.
  clear Hclk. induction sms as [|x sms IH]; cbn; [naive_solver|]. rewrite elem_of_intersection, IH, andb_true_iff, bool_decide_eq_true. tauto.
Qed.

Lemma union_elem (b : bytes) (sms : list (gset bytes)) : b ∈ ⋃ sms <-> existsb (fun sm => bool_decide (b ∈ sm)) sms = true.
Proof.
  clear Hclk. induction sms as [|x sms IH]; cbn; [set_solver|]. rewrite elem_of_union, IH, orb_true_iff, bool_decide_eq_true. tauto.
Qed.

Lemma setOp_ok m s keys op limit (Q : bytes + list bytes -> St -> Prop) :
  orders_ok E -> abs_rel T m s ->
  (forall r s', abs_rel T m s' -> keeps m s s' ->
     match operands m keys with
     | None => r = inl wrongtype
     | Some sms => exists ms, ms ≡ₚ elements (combine op sms) /\ r = inr (match op with OpInter => cut limit ms | _ => ms end)
     end -> Q r s') ->
  wp (setOp E keys op limit) s Q.
Proof using Hclk.
  intros Ho H HQ. apply wp_bind. apply (get_sets_ok m); [done|]. intros r s1 H1 Hk1 _ Hr.
  destruct (operands m keys) as [sms|]; [|subst r; apply wp_ret; by apply HQ]. destruct Hr as (vs & -> & Hall).
  assert (forall ms (p : bytes -> bool) (sm sm' : gset bytes), ms ≡ₚ elements sm -> (forall b, b ∈ sm' <-> b ∈ sm /\ p b = true) ->
    filter (fun b => p b = true) ms ≡ₚ elements sm') as Hfilter.
  { intros ms p sm sm' Hp Hsm. apply perm_elements.
    - apply NoDup_filter. rewrite Hp. apply NoDup_elements.
    - intros b. rewrite list_elem_of_filter, Hp, elem_of_elements, Hsm. tauto. }
  destruct op.
  - destruct Hall as [|v sm vs sms Hop Hall]; [apply wp_ret; apply HQ; [done..|]; exists []; by rewrite cut_nil|].
    destruct Hop as [|h sm e Hat].
    { apply wp_ret. apply HQ; [done..|]. exists []. split; [|by rewrite cut_nil].
      replace (combine OpInter (∅ :: sms)) with (∅ : gset bytes); [done|]. apply set_eq. intros b. cbn. rewrite inter_elem. set_solver. }
    apply wp_bind. eapply sv_Members_rule; [done..|]. intros ms Hp. apply wp_bind. eapply inter_loop_ok; [done| |].
    { intros. rewrite zlen_nil. lia. }
    apply wp_ret. apply HQ; [done..|]. eexists. split; [|done]. eapply Hfilter; [done|]. intros b. apply inter_elem.
  - apply wp_bind. eapply union_loop_ok; [done..|constructor|]. intros ms Hnd Hin. apply wp_ret. apply HQ; [done..|]. exists ms. split; [|done].
    apply perm_elements; [done|]. intros b. rewrite Hin. cbn. set_solver.
  - destruct Hall as [|v sm vs sms Hop Hall]; [apply wp_ret; apply HQ; [done..|]; by exists []|].
    destruct Hop as [|h sm e Hat].
    { apply wp_ret. apply HQ; [done..|]. exists []. split; [|done]. replace (combine OpDiff (∅ :: sms)) with (∅ : gset bytes); [done|]. cbn. set_solver. }
    apply wp_bind. eapply sv_Members_rule; [done..|]. intros ms Hp. apply wp_bind. eapply diff_loop_ok; [done|].
    apply wp_ret. apply HQ; [done..|]. eexists. split; [|done].
    rewrite (list_filter_iff _ (fun b => negb (existsb (fun sm => bool_decide (b ∈ sm)) sms) = true)) by (intros b; by rewrite negb_true_iff).
    eapply (Hfilter ms (fun b => negb (existsb (fun sm => bool_decide (b ∈ sm)) sms))); [done|].
    intros b. cbn. rewrite elem_of_difference, union_elem, negb_true_iff, not_true_iff_false. done.
Qed.

Lemma algebra_ok m s n keys op :
  orders_ok E -> abs_rel T m s ->
  wp (algebra E op (n :: keys)) s (fun r s' => abs_rel T m s' /\ keeps m s s' /\
    match operands m keys with
    | None => r = wrongtype
    | Some sms => exists ms, ms ≡ₚ elements (combine op sms) /\ r = membersReply (c_resp3 s) ms
    end).
Proof using Hclk.
  intros Ho H. apply wp_bind. apply (setOp_ok m); [done..|]. intros r s1 H1 Hk1 Hr. apply wp_bind, wp_gets, wp_ret. rewrite (k_resp3 _ _ Hk1).
  split_and!; [done..|]. change (drop 1 (n :: keys)) with keys in Hr. destruct (operands m keys) as [sms|]; [|by subst r]. destruct Hr as (ms & Hp & ->). exists ms. by destruct op.
Qed.

Lemma perm_card (ms : list bytes) (sm : gset bytes) : ms ≡ₚ elements sm -> zlen ms = card sm /\ (ms = [] <-> sm = ∅) /\ list_to_set ms = sm.
Proof.
  clear Hclk. intros Hp. assert (zlen ms = card sm) as Hc by (unfold zlen, card; by rewrite Hp). split_and!; [done| |by apply perm_to_set].
  split; [intros ->; apply Permutation_nil_l in Hp; symmetry in Hp; apply leibniz_equiv, elements_empty_inv; by rewrite Hp|].
  intros ->. rewrite elements_empty in Hp. by apply Permutation_nil_r.
Qed.

Lemma storeOp_ok m s n dst keys op :
  orders_ok E -> abs_rel T m s -> does (storeOp E op (n :: dst :: keys)) m s (ref_STORE m op dst keys).
Proof using Hclk.
  intros Ho H. apply (wp_arg _ _ dst); [done|]. apply wp_bind. apply (setOp_ok m); [done..|]. change (drop 2 (n :: dst :: keys)) with keys.
  intros r s1 H1 Hk1 Hr. unfold ref_STORE. destruct (operands m keys) as [sms|]; [|subst r; replied]. cbv zeta.
  destruct Hr as (ms & Hp & Hr'). assert (r = inr ms) as -> by by destruct op. clear Hr'. destruct (perm_card _ _ Hp) as (Hc & He & Hset).
  rewrite (bool_decide_ext _ _ (symmetry He)). destruct ms as [|b ms].
  - rewrite bool_decide_true by done. apply wp_bind. apply (db_Del_rule E T Hclk _ _ _ _ H1). intros s2 H2 Hq2 _ _.
    rewrite <- Hc. replied.
  - rewrite bool_decide_false by done. apply wp_bind. apply (db_Del_gone_rule E T Hclk _ _ _ _ H1). intros s2 H2 Hq2 _ _ Hg.
    apply wp_bind. apply (getOrCreateSet_reaps_rule E T Hclk (delete dst m)); [done|]. intros r s3 Hk3 Hr. unfold opened_set in Hr.
    assert (keeps m s2 s3) by by apply Hk3.
    rewrite lookup_delete_eq in Hr. destruct Hr as (h & -> & <- & Hat). apply wp_bind. eapply sv_Add_rule; [done..|]. intros h' s4 [H4 _ _] _ Hq4.
    rewrite insert_insert_eq, insert_delete_eq, (right_id_L ∅ (∪)), Hset in H4. rewrite <- Hc. replied.
Qed.

Lemma sintercard_core m s keys limit :
  orders_ok E -> abs_rel T m s -> 0 <= limit ->
  does (r ← setOp E keys OpInter limit; mret (match r with inl err => err | inr ms => Integer (zlen ms) end)) m s (ref_SINTERCARD m keys limit).
Proof using Hclk.
  intros Ho H Hl. apply wp_bind. apply (setOp_ok m); [done..|]. intros r s1 H1 Hk1 Hr. unfold ref_SINTERCARD.
  destruct (operands m keys) as [sms|]; [|subst r; replied]. destruct Hr as (ms & Hp & ->). destruct (perm_card _ _ Hp) as (Hc & _ & _).
  rewrite <- Hc. apply wp_ret. split_and!; [|done|done]. cbn [fst]. f_equal. unfold cut. case_match; [|done].
  unfold zlen. rewrite length_take. lia.
Qed.

Lemma reads_set m s k r :
  reads T m s k r ->
  match r with Some o => negb (is_type o OBJ_SET) | None => false end = negb (on_set m k true (fun _ => true) false).
Proof.
  clear Hclk. intros Hr. unfold on_set. destruct (m !! k) as [[v e]|] eqn:Em; [|by rewrite (reads_none _ _ _ _ _ Hr Em)].
  destruct (reads_some _ _ _ _ _ _ _ Hr Em) as [o ->]. destruct (reads_type T _ _ _ _ _ _ Hr Em) as (Ht & _ & Hno).
  destruct v; cbn [type_of] in *; rewrite ?Ht, ?(Hno OBJ_SET) by done; done.
Qed.

Lemma shrink_lookup (m : dataset) (k j : bytes) (sm : gset bytes) : j <> k -> shrink m k sm !! j = m !! j.
Proof. intros Hj. unfold shrink. case_bool_decide; [by apply lookup_delete_ne|by apply lookup_insert_ne]. Qed.

(** The last step of SMOVE: [b] goes to [dst], which has no other type. *)
Lemma smove_add m m0 s s0 dst b :
  orders_ok E -> abs_rel T m s -> on_set m dst true (fun _ => true) false = true -> keeps m0 s0 s ->
  (m !! dst = None -> expires (getShard (s_db s) dst) !! dst <> None -> m0 !! dst = None) ->
  wp (r ← getOrCreateSet E dst; match r with inl err => mret err | inr d => _ ← sv_Add E d [b] 0; mret (Integer 1) end) s
    (fun r s' => r = Integer 1 /\ abs_rel T (ref_SADD m dst [b]).2 s' /\ keeps m0 s0 s').
Proof using Hclk.
  intros Ho H Hto Hk Hm0. apply wp_bind. apply (getOrCreateSet_reaps_rule E T Hclk m); [done|]. intros r s3 Hk3 Hr.
  specialize (Hk3 m0 Hm0). unfold opened_set in Hr. unfold ref_SADD, on_set, deadline_of in *.
  destruct (m !! dst) as [[[x|x|sm|x] e]|] eqn:Em; try done; destruct Hr as (h & -> & <- & Hat); apply wp_bind;
    (eapply sv_Add_rule; [done..|]); intros h' s4 [H4 _ _] _ Hq4; [|rewrite insert_insert_eq in H4]; replied.
Qed.

Lemma smoveCommand_ok m s n src dst b :
  orders_ok E -> stripes_ok src dst -> abs_rel T m s -> does (smoveCommand E [n; src; dst; b]) m s (ref_SMOVE m src dst b).
Proof using Hclk.
  intros Ho Hl H. do 3 (eapply wp_arg; [done|]). apply wp_bind, wp_LockKeys; [exact Hl|]. apply wp_bind. apply (getSetView_rule E T Hclk m); [done|]. unfold ref_SMOVE.
  set (to := on_set m dst true (fun _ => true) false). unfold on_set. cbv zeta. intros r s1 Hk1 Hv1 Hr. unfold found_set in Hr.
  destruct (m !! src) as [[[x|x|sm|x] e]|] eqn:Em; [destruct Hr as [-> ?]; by replied..| |destruct Hr as [-> ?]; by replied|].
  - destruct Hr as (h & -> & Hkey & Hat). apply wp_bind. apply (db_Get_view_rule E T Hclk m); [apply Hat|].
    intros r s2 H2 Hk2%reaps_keeps _ _ Hr _ Hv2. rewrite (reads_set _ _ _ _ Hr). fold to. destruct to eqn:Hto; cbn [negb]; [|by replied].
    assert (set_at m s2 h sm e) as Hat2 by by eapply set_at_view. apply wp_bind. eapply sv_Contains_rule; [done|]. case_bool_decide as Hb; cbn [negb]; [|by replied].
    apply wp_bind. eapply sv_Remove_rule; [done|]. intros s3 H3 Hq3. subst src.
    eapply (drop_if_empty m); [done|chain|]. intros s4 H4 Hk4 Hgone. rewrite (shrink_eq _ _ sm) in H4 by done.
    change (list_to_set [b] : gset bytes) with ({[b]} ∪ ∅ : gset bytes) in *. rewrite (right_id_L ∅ (∪)) in *. cbv zeta. cbn [fst snd].
    apply smove_add; [done|done| |chain|].
    + destruct (decide (dst = sv_key h)) as [->|Hne]; [|unfold to, on_set in *; by rewrite shrink_lookup].
      unfold on_set, shrink. case_bool_decide; [by rewrite lookup_delete_eq|by rewrite lookup_insert_eq].
    + destruct (decide (dst = sv_key h)) as [->|Hne]; [|by rewrite shrink_lookup].
      unfold shrink. case_bool_decide as He; [intros _ Hn; by destruct (Hn (Hgone He))|by rewrite lookup_insert_eq].
  - destruct Hr as [-> H1]. apply wp_bind. apply (db_Get_view_rule E T Hclk m); [done|].
    intros r s2 H2 Hk2%reaps_keeps _ _ Hr _ Hv2. rewrite (reads_set _ _ _ _ Hr). fold to. destruct to; cbn [negb]; by replied.
Qed.

Lemma elem_of_list_take_in (ms : list bytes) (n : nat) (b : bytes) : b ∈ take n ms -> b ∈ ms.
Proof. intros Hb. rewrite <- (take_drop n ms). apply elem_of_app. by left. Qed.

(** SPOP takes some of the members, as many as were asked for, and sends the members it took, or the deletion of the key, to the sinks. *)
Lemma spopCommand_ok m s n k rest count :
  orders_ok E -> abs_rel T m s -> spop_count (n :: k :: rest) = inr count ->
  wp (spopCommand E (n :: k :: rest)) s (fun r s' =>
    on_set m k (abs_rel T m s' /\ keeps m s s' /\ r = if bool_decide (rest = []) then Null (c_resp3 s) else SetReply (c_resp3 s) [])
      (fun sm => exists popped,
         NoDup popped /\ list_to_set popped ⊆ sm /\ zlen popped = Z.min count (card sm) /\
         abs_rel T (shrink m k (sm ∖ list_to_set popped)) s' /\ keeps m s (set_prop (c_prop s) s') /\
         c_prop s' = Some (spop_effect (if s_lazy s then str "UNLINK" else str "DEL") k popped (bool_decide (sm ∖ list_to_set popped = ∅))) /\
         r = if bool_decide (rest = []) then match popped with [] => Null (c_resp3 s) | b :: _ => BulkString b end
             else membersReply (c_resp3 s) popped)
      (abs_rel T m s' /\ keeps m s s' /\ r = wrongtype)).
Proof using Hclk.
  intros Ho H Hcount. apply (wp_arg _ _ k); [done|]. cbv zeta. rewrite Hcount.
  assert (0 <= count) as Hc0.
  { unfold spop_count in Hcount. destruct rest as [|a rest]; cbn in Hcount; [injection Hcount as <-; lia|]. destruct (ParseInt a); [|done].
    repeat case_match; try done. injection Hcount as <-. by apply Z.ltb_ge. }
  assert ((3 <=? zlen (n :: k :: rest)) = negb (bool_decide (rest = []))) as ->.
  { rewrite !zlen_cons. destruct rest as [|a rest]; [done|]. rewrite bool_decide_false by done. apply Z.leb_le. rewrite zlen_cons. zlen_pose. lia. }
  apply wp_bind. apply (getSetView_rule E T Hclk m); [done|]. intros r s1 Hk1 Hv1 Hr. apply wp_bind, wp_gets. rewrite (k_resp3 _ _ Hk1).
  unfold found_set in Hr. unfold on_set. destruct (m !! k) as [[[x|x|sm|x] e]|] eqn:Em;
    [destruct Hr as [-> ?]; by apply wp_ret..| |destruct Hr as [-> ?]; by apply wp_ret|destruct Hr as [-> ?]; apply wp_ret; by destruct (bool_decide (rest = []))].
  destruct Hr as (h & -> & Hkey & Hat). subst k.
  apply wp_bind. apply wp_bind. eapply sv_Members_rule; [done..|]. intros ms Hp. destruct (perm_card _ _ Hp) as (Hcard & _ & Hset). cbv zeta.
  assert ((if zlen ms <? count then zlen ms else count) = Z.min count (zlen ms)) as -> by (destruct (Z.ltb_spec (zlen ms) count); lia).
  zlen_pose. apply wp_bind. eapply wp_lift; [apply slice_bounds; lia|]. rewrite Z.sub_0_r. change (drop (Z.to_nat 0) ms) with ms.
  set (popped := take _ ms).
  assert (NoDup popped /\ list_to_set popped ⊆ sm /\ zlen popped = Z.min count (card sm)) as (Hnd & Hsub & Hlen).
  { subst popped. split_and!.
    - eapply (proj1 (NoDup_app _ (drop (Z.to_nat (Z.min count (zlen ms))) ms))). rewrite take_drop, Hp. apply NoDup_elements.
    - intros b Hb. rewrite elem_of_list_to_set in Hb. apply (elem_of_list_take_in _ (Z.to_nat (Z.min count (zlen ms)))) in Hb. by rewrite Hp, elem_of_elements in Hb.
    - rewrite <- Hcard. unfold zlen in *. rewrite length_take. lia. }
  apply wp_bind. eapply sv_Remove_rule; [done|]. intros s2 H2 Hq2. apply wp_ret.
  eapply (drop_if_empty m); [done|chain|]. intros s3 H3 Hk3 _. rewrite (shrink_eq _ _ sm) in H3 by done.
  apply wp_bind, wp_gets. apply wp_bind, wp_modify.
  assert (keeps m s s3) as Hk by chain. rewrite (k_lazy _ _ Hk).
  assert ((card (sm ∖ list_to_set popped) =? 0) = bool_decide (sm ∖ list_to_set popped = ∅)) as ->.
  { unfold card. case_bool_decide as He; [by rewrite He, size_empty|]. apply Z.eqb_neq. intros Hz. apply He, leibniz_equiv, size_empty_inv. lia. }
  assert (keeps m s (set_prop (c_prop s) (set_prop (Some (spop_effect (if s_lazy s then str "UNLINK" else str "DEL") (sv_key h) popped
    (bool_decide (sm ∖ list_to_set popped = ∅)))) s3))) by by apply keeps_prop.
  destruct (bool_decide (rest = [])); cbn [negb]; apply wp_ret; exists popped; split_and!; try done; by apply abs_rel_prop.
Qed.

End commands.
