(* ===== verification/Copy.v ===== *)
(** * COPY ([copyCommand] and [deepCopy] of [commands/keyspace.go], [commands/clone.go])

    The copy of a key: its value is rebuilt element by element into a container of its own, so that the two keys
    do not share one.  [copyCommand_ok] says what it means on the dataset; that a later change of either key leaves the other
    alone is then part of what every command means. *)

From S2P Require Import Prelude Strconv Listpack Intset Quicklist Object Db DbSpec Dict Value Reply Context Strings StringSpec Generic GenericSpec Hashes HashSpec Sets SetSpec Stripes.
Local Open Scope Z_scope.

(** [for _, n := range v.Values() { is.Add(n) }] *)
Fixpoint intset_add_values (st : IntSet) (ns : list Z) : option IntSet :=
  match ns with
  | [] => Some st
  | n :: ns => '(st, _) ← Intset.Add st n; intset_add_values st ns
  end.

Definition dict_of_pairs (kvs : list (bytes * bytes)) : Dict := fold_left (fun d kv => (dict_Set d kv.1 kv.2).1) kvs NewDict.

(** The rebuilt container, with the tags the copy gets when they differ from the original's.  A stream or a sorted set
    is rebuilt as another one, whose contents are not tracked. *)
Definition clone_container (dict_o : gmap bytes bytes -> list (bytes * bytes)) (set_o : gset bytes -> list bytes)
    (c : container) : option (option (ObjectType * ObjectEncoding) * container) :=
  match c with
  | CListpack lp => xs ← Listpack.All lp; Some (None, CListpack (append_all Listpack.New xs))
  | CDict d => Some (None, CDict (dict_of_pairs (dict_entries dict_o d)))
  | CMap m => Some (Some (OBJ_HASH, OBJ_ENCODING_HT), CDict (dict_of_pairs (dict_o m)))
  | CQuicklist ql => xs ← Quicklist.LRange ql 0 (-1); ql' ← push_all NewQuicklist xs; Some (None, CQuicklist ql')
  | CIntset st => st' ← intset_add_values Intset.New (Intset.Values st); Some (None, CIntset st')
  | CSet s => Some (None, CSet (set_Add NewSet (set_Members set_o s)).1)
  | CSetMap m => Some (Some (OBJ_SET, OBJ_ENCODING_HT), CSet (set_Add NewSet (set_o m)).1)
  | COther => Some (None, COther)
  end.

Definition same_object : bytes := Error (str "source and destination objects are the same").
Definition copy_unsupported : bytes := Error (str "COPY is not supported for this value type").

(** The option loop; [inl] is an error reply. *)
Fixpoint copy_loop (replace : bool) (args : list bytes) : bytes + bool :=
  match args with
  | [] => inr replace
  | a :: rest =>
    if bool_decide (ToUpper a = str "REPLACE") then copy_loop true rest
    else if bool_decide (ToUpper a = str "DB") then
      match rest with
      | [] => inl syntax_error
      | b :: rest =>
        match ParseInt b with
        | None => inl not_integer
        | Some n => if negb (n =? 0) then inl (Error (str "DB index is out of range")) else copy_loop replace rest
        end
      end
    else inl syntax_error
  end.

Section handlers.
Variable E : env.

(** [None] is [false]: a payload that is no container. *)
Definition cloneContainer (obj : robj) : M (option robj) :=
  match o_Ptr obj with
  | PRef l =>
    c ← load l;
    dict_o ← gets (fun s => dict_order E (s_tick s));
    set_o ← gets (fun s => set_order E (s_tick s));
    '(tags, c') ← lift (clone_container dict_o set_o c);
    l' ← alloc c';
    let '(ty, en) := default (o_Type obj, o_Encoding obj) tags in
    mret (Some (mkRobj ty en 0 (PRef l')))
  | _ => mret None
  end.

(** [inl] is an error reply. *)
Definition deepCopy (obj : robj) : M (bytes + robj) :=
  if is_type obj OBJ_STRING then b ← obj_Bytes obj; mret (inr (TryEncodeString b))
  else
    dup ← cloneContainer obj;
    mret (match dup with Some d => inr d | None => inl copy_unsupported end).

Definition copyCommand (argv : list bytes) : M bytes :=
  src ← arg argv 1;
  dst ← arg argv 2;
  match copy_loop false (drop 3 argv) with
  | inl e => mret e
  | inr replace =>
    if bool_decide (src = dst) then mret same_object
    else
      _ ← LockKeys src dst;
      r ← db_GetWithTTL E src;
      match r with
      | None => mret (Integer 0)
      | Some (obj, expireAt) =>
        taken ← (if negb replace then db_Exists E dst else mret false);
        if taken : bool then mret (Integer 0)
        else
          dup ← deepCopy obj;
          match dup with
          | inl e => mret e
          | inr dup =>
            _ ← db_Set E dst dup;
            _ ← (if 0 <? expireAt then db_SetExpireAt E dst expireAt else mret true);
            mret (Integer 1)
          end
      end
  end.

End handlers.

(** ** What it means *)

Definition ref_COPY (m : dataset) (src dst : bytes) (replace : bool) : bytes * dataset :=
  if bool_decide (src = dst) then (same_object, m)
  else
    match m !! src with
    | None => (Integer 0, m)
    | Some x => if negb replace && present m dst then (Integer 0, m) else (Integer 1, <[dst := x]> m)
    end.

Definition copy_args (replace : bool) : list bytes := if replace then [str "REPLACE"] else [].

(** ** A rebuilt container holds the same value *)

Lemma intset_add_values_ok st ns :
  Intset.wf st -> exists st', intset_add_values st ns = Some st' /\ Intset.wf st' /\ forall v, v ∈ vals st' <-> v ∈ vals st \/ v ∈ ns.
Proof.
  revert st. induction ns as [|n ns IH]; intros st Hwf; cbn [intset_add_values].
  { exists st. split_and!; [done..|]. intros v. rewrite elem_of_nil. naive_solver. }
  destruct (Intset.Add_spec st n Hwf) as (st1 & E & Hwf1 & Hset). rewrite E. go_bind.
  destruct (IH st1 Hwf1) as (st2 & -> & Hwf2 & Hv). exists st2. split_and!; [done..|]. intros v.
  assert (v ∈ Intset.to_set st1 <-> v ∈ ({[n]} ∪ Intset.to_set st : gset Z)) as H by (by rewrite Hset).
  unfold Intset.to_set in H. rewrite elem_of_union, elem_of_singleton, !elem_of_list_to_set in H. rewrite Hv, H, elem_of_cons. naive_solver.
Qed.

Lemma dict_of_pairs_ok kvs : NoDup kvs.*1 -> dict_wf (dict_of_pairs kvs) /\ dict_map (dict_of_pairs kvs) = list_to_map kvs.
Proof.
  intros Hnd. assert (dict_of_pairs kvs = set_pairs NewDict (flat kvs)) as ->.
  { unfold dict_of_pairs. generalize NewDict. clear Hnd. induction kvs as [|[k v] kvs IH]; intros d; [done|]. cbn [fold_left]. rewrite flat_cons. cbn [set_pairs fst snd]. apply IH. }
  destruct (set_pairs_spec NewDict kvs) as [Hwf Hm]; [apply NewDict_wf|done|by intros|]. split; [done|]. rewrite Hm. change (dict_map NewDict) with (∅ : gmap bytes bytes). by rewrite (right_id_L ∅ (∪)).
Qed.

Lemma clone_container_ok E n e c v :
  orders_ok E -> holds e c v ->
  exists c', clone_container (dict_order E n) (set_order E n) c = Some (None, c') /\ holds e c' v.
Proof.
  intros [Hd Hs] Hh. destruct v as [b|xs|sm|hm]; [destruct e, c; done|..]; destruct e, c; try done; cbn [clone_container holds] in *.
  - destruct Hh as (l & Hr & Hc). rewrite (LRange_repr ql l 0 (-1) Hr), Hc, list_range_all. cbn [mbind option_bind].
    destruct (push_all_spec NewQuicklist [] xs repr_new) as (ql' & l' & -> & Hr' & Hc'). cbn [mbind option_bind]. eexists. split; [done|]. cbn. by exists l'.
  - destruct Hh as [Hr Hc]. rewrite (All_repr lp xs Hr). cbn [mbind option_bind]. eexists. split; [done|]. cbn. split; [|done].
    by apply (append_all_repr Listpack.New [] xs); [apply New_repr|].
  - eexists. split; [done|]. cbn. destruct (set_Add_spec NewSet (set_Members (set_order E n) s)) as [-> _]. unfold set_Members.
    destruct (perm_to_set _ _ (Hs n (set_m s))) as [_ ->]. subst sm. cbn. by rewrite (right_id_L ∅ (∪)).
  - destruct Hh as (Hwf & Hf & ->). unfold Intset.Values. destruct (intset_add_values_ok Intset.New (vals st)) as (st' & -> & Hwf' & Hv); [apply SSorted_nil|].
    cbn [mbind option_bind]. eexists. split; [done|]. cbn. assert (forall v, v ∈ vals st' <-> v ∈ vals st) as Hv' by (intros v; rewrite Hv; cbn; rewrite elem_of_nil; tauto).
    split_and!; [done| |].
    + apply Forall_forall. intros v Hin. rewrite Forall_forall in Hf. by apply Hf, Hv'.
    + apply set_eq. intros x. rewrite !elem_of_list_to_set, !list_elem_of_fmap. split; intros (y & ? & ?); exists y; (split; [done|]); by apply Hv'.
  - destruct Hh as (xs & Hr & Hc & Hnd & ->). rewrite (All_repr lp xs Hr). cbn [mbind option_bind]. eexists. split; [done|]. cbn. exists xs. split_and!; [|done..].
    by apply (append_all_repr Listpack.New [] xs); [apply New_repr|].
  - destruct Hh as [Hwf ->]. eexists. split; [done|]. cbn. pose proof (dict_entries_spec (dict_order E n) d (Hd n) Hwf) as Hp.
    destruct (dict_of_pairs_ok (dict_entries (dict_order E n) d)) as [Hwf' Hm].
    { rewrite Hp. apply NoDup_fst_map_to_list. }
    split; [done|]. rewrite Hm. symmetry. rewrite <- (list_to_map_to_list (dict_map d)). apply list_to_map_proper; [rewrite Hp; apply NoDup_fst_map_to_list|exact Hp].
  - destruct Hh as (kvs & Hr & Hc & Hnd & ->). rewrite (All_repr lp _ Hr). cbn [mbind option_bind]. eexists. split; [done|]. cbn. exists kvs. split_and!; [|done..].
    by apply (append_all_repr Listpack.New [] (flat kvs)); [apply New_repr|].
Qed.

(** ** The handler *)

Section commands.
Variables (E : env) (T : Z).
Hypothesis Hclk : instant E T.
Hypothesis Ho : orders_ok E.

(** The copy is a value that the keyspace can store: nothing else refers to it. *)
Lemma deepCopy_ok m s o v (Q : bytes + robj -> St -> Prop) :
  abs_rel T m s -> represents (s_heap s) (face o) v -> (forall l, ref_of (face o) = Some l -> exists k e, view T s k = Some (face o, e)) ->
  (forall d s', abs_rel T m s' -> quiet s s' -> storable T s' d v -> Q (inr d) s') -> wp (deepCopy E o) s Q.
Proof using Ho Hclk.
  intros H Hr Hl HQ. unfold deepCopy, is_type. pose proof Hr as Hr0. unfold represents, face in Hr. destruct Hr as [Ht Hr]. rewrite Ht.
  destruct v as [b|xs|sm|hm]; cbn [type_of]; rewrite ?bool_decide_true, ?bool_decide_false by done.
  { apply (wp_bytes _ b); [by apply Bytes_string|]. apply wp_ret. apply HQ; [done|apply quiet_refl|apply storable_encoded]. }
  all: destruct Hr as (l & c & Ep & El & Hc); unfold cloneContainer; rewrite Ep; apply wp_bind, wp_bind; (eapply load_rule; [exact El|]);
    apply wp_bind, wp_gets; apply wp_bind, wp_gets; destruct (clone_container_ok E (s_tick s) _ _ _ Ho Hc) as (c' & Ec & Hc'); apply wp_bind; (eapply wp_lift; [exact Ec|]); cbv beta iota;
    apply wp_bind; (eapply (alloc_rule T m); [exact H|]); intros l' s' H' Q' El' Hu' _ _; cbn [default from_option]; unfold id; cbv beta iota; apply wp_ret, wp_ret; apply HQ; [exact H'|exact Q'|];
    (split; [split; [exact Ht|]; exists l', c'; split; [reflexivity|]; split; [exact El'|exact Hc']|]); intros i [= <-]; exact Hu'.
Qed.

Lemma copyCommand_ok m s n src dst replace : stripes_ok src dst -> abs_rel T m s -> does T (copyCommand E (n :: src :: dst :: copy_args replace)) m s (ref_COPY m src dst replace).
Proof using Hclk Ho.
  intros Hl H. apply (wp_arg _ _ src); [done|]. apply (wp_arg _ _ dst); [done|].
  assert (copy_loop false (drop 3 (n :: src :: dst :: copy_args replace)) = inr replace) as -> by by destruct replace.
  unfold ref_COPY. case_bool_decide as Hne; [replied|]. apply wp_bind, wp_LockKeys; [exact Hl|]. apply wp_bind. apply (db_GetWithTTL_rule E T Hclk m); [done|]. intros r s1 H1 Q1 _ _ Hr.
  destruct (m !! src) as [[v e]|] eqn:Em; [|subst r; replied]. destruct Hr as (o & -> & Hrep & Hview).
  assert (forall s2, abs_rel T m s2 -> keeps m s s2 -> represents (s_heap s2) (face o) v -> view T s2 src = Some (face o, e) ->
    wp (dup ← deepCopy E o; match dup with inl e => mret e | inr dup => _ ← db_Set E dst dup; _ ← (if 0 <? e then db_SetExpireAt E dst e else mret true); mret (Integer 1) end) s2
      (fun r s' => r = Integer 1 /\ abs_rel T (<[dst := (v, e)]> m) s' /\ keeps m s s')) as Hgo.
  { intros s2 H2 K2 Hrep2 Hv2. destruct (abs_rel_live _ _ _ _ _ _ H Em) as [Hal He]. apply wp_bind. eapply (deepCopy_ok m); [exact H2|exact Hrep2|by eauto|].
    intros d s3 H3 Q3 Hst. apply wp_bind. apply (db_Set_rule E T Hclk m _ _ _ v); [done|done|]. intros s4 H4 Q4 _ _ _. apply wp_bind.
    destruct (Z.ltb_spec 0 e).
    - apply (db_SetExpireAt_rule E T Hclk (<[dst := (v, 0)]> m)); [done|lia|]. intros s5 H5 Q5 _ _. apply wp_ret. split_and!; [done| |chain].
      unfold with_deadline in H5. rewrite lookup_insert_eq, Hal, insert_insert_eq in H5. done.
    - apply wp_ret, wp_ret. replace e with 0 by lia. split_and!; [done|done|chain]. }
  apply wp_bind. destruct replace; cbn [negb andb].
  - apply wp_ret. apply Hgo; [done|chain|done|done].
  - eapply wp_mono; [apply (db_Exists_rule E T Hclk m) with (Q := fun b s' => b = present m dst /\ abs_rel T m s' /\ keeps m s s' /\ represents (s_heap s') (face o) v /\ view T s' src = Some (face o, e)); [done|]|].
    + intros s2 H2 Hk2 Eh _ Hv2. split_and!; [done..|chain|by rewrite Eh|by rewrite Hv2].
    + intros b s2 (-> & H2 & Hk2 & Hr2 & Hw2). destruct (present m dst); [replied|]. by apply Hgo.
Qed.

End commands.
