(* ===== verification/Lists.v ===== *)
(** * List commands ([commands/list_encoding.go], [commands/list.go], [commands/list_ops.go])

    A [listView] is a handle on the container of a list: a listpack, or a quicklist once the list is
    long or has a long element.  The commands that reshape a list (LINSERT, LTRIM, LREM) read it
    as a whole and write it back with [replaceAll].  The indices of the Go code are 64-bit; where
    one is negated or decremented without a bound, the wrap-around is written out. *)

From S2P Require Import Prelude Strconv Listpack Quicklist Object Value Db DbSpec Reply Context Strings Generic Hashes Stripes.
Local Open Scope Z_scope.

(** Which of the fields [lp] and [ql] is set, with its pointer. *)
Inductive list_rep := LLp (l : nat) | LQl (l : nat).

Record listView := mkLv { lv_key : bytes; lv_rep : list_rep }.

Definition list_loc (r : list_rep) : nat := match r with LLp l | LQl l => l end.

Definition load_ql (l : nat) : M Quicklist := c ← load l; match c with CQuicklist ql => mret ql | _ => panic end.

Definition listMaxListpackValue : Z := 64.

Section views.
Variable E : env.

(** ** Reads *)

Definition lv_Len (v : listView) : M Z :=
  match lv_rep v with
  | LQl l => ql ← load_ql l; mret (Quicklist.Len ql)
  | LLp l => lp ← load_lp l; mret (Listpack.Len lp)
  end.

Definition lv_All (v : listView) : M (list bytes) :=
  match lv_rep v with
  | LQl l => ql ← load_ql l; lift (Quicklist.LRange ql 0 (-1))
  | LLp l => lp ← load_lp l; lift (Listpack.All lp)
  end.

(** The range of the compact encoding. *)
Definition lp_range (all : list bytes) (start stop : Z) : option (list bytes) :=
  let n := zlen all in
  if n =? 0 then Some []
  else
    let start := if start <? 0 then start + n else start in
    let stop := if stop <? 0 then stop + n else stop in
    let start := if start <? 0 then 0 else start in
    let stop := if n <=? stop then n - 1 else stop in
    if (stop <? start) || (n <=? start) then Some [] else go_slice all start (stop + 1).

Definition lv_LRange (v : listView) (start stop : Z) : M (list bytes) :=
  match lv_rep v with
  | LQl l => ql ← load_ql l; lift (Quicklist.LRange ql start stop)
  | LLp l => lp ← load_lp l; all ← lift (Listpack.All lp); lift (lp_range all start stop)
  end.

Definition lv_LIndex (v : listView) (i : Z) : M (option bytes) :=
  match lv_rep v with
  | LQl l => ql ← load_ql l; lift (Quicklist.LIndex ql i)
  | LLp l =>
    lp ← load_lp l;
    let n := Listpack.Len lp in
    let i := if i <? 0 then i + n else i in
    if (i <? 0) || (n <=? i) then mret None else b ← lift (Listpack.Get lp i); mret (Some (default [] b))
  end.

(** ** Changes of encoding *)

(** [l.obj.Encoding = enc], on the object that the keyspace may still hold. *)
Definition mark_encoding (key : bytes) (l : nat) (enc : ObjectEncoding) : M unit :=
  modify (fun s =>
    let db := s_db s in
    let sh := getShard db key in
    let mark (o : robj) : robj :=
      if match o_Ptr o with PRef l' => bool_decide (l' = l) | _ => false end then mkRobj (o_Type o) enc (o_Lru o) (o_Ptr o) else o in
    set_db (put_shard db (GetShardIdx key) (mkShard (alter mark key (entries sh)) (expires sh) (versions sh))) s).

Definition list_publish (v : listView) (l : nat) (enc : ObjectEncoding) : M unit :=
  _ ← mark_encoding (lv_key v) (list_loc (lv_rep v)) enc;
  db_SetKeepTTL E (lv_key v) (mkRobj OBJ_LIST enc 0 (PRef l)).

(** A view on a new quicklist of [items]. *)
Definition to_quicklist (v : listView) (items : list bytes) : M listView :=
  ql ← lift (push_all NewQuicklist items);
  l ← alloc (CQuicklist ql);
  _ ← list_publish v l OBJ_ENCODING_QUICKLIST;
  mret (mkLv (lv_key v) (LQl l)).

Definition list_promote (v : listView) (lp : Listpack) : M listView :=
  items ← lift (Listpack.All lp);
  to_quicklist v items.

Definition listWouldExceed (L : limits) (lp : Listpack) (addedBytes : Z) : bool :=
  let limit := ListMaxListpackSize L in
  if 0 <=? limit then limit <=? Listpack.Len lp else list_budget limit <? Listpack.Bytes lp + addedBytes.

Definition growWouldPromote (L : limits) (lp : Listpack) (val : bytes) : bool :=
  (listMaxListpackValue <? zlen val) || listWouldExceed L lp (zlen val).

(** [replaceAll]: the encoding that fits the new contents; a quicklist stays one. *)
Definition replaceAll (v : listView) (items : list bytes) : M listView :=
  L ← gets s_lim;
  let oversized := existsb (fun it => listMaxListpackValue <? zlen it) items in
  let total := fold_left (fun t it => t + (zlen it + 2)) items 0 in
  let limit := ListMaxListpackSize L in
  let tooBig := if 0 <=? limit then limit <? zlen items else list_budget limit <? total in
  if match lv_rep v with LQl _ => true | LLp _ => false end || oversized || tooBig then to_quicklist v items
  else
    l ← alloc (CListpack (append_all Listpack.New items));
    _ ← list_publish v l OBJ_ENCODING_LISTPACK;
    mret (mkLv (lv_key v) (LLp l)).

(** ** Writes *)

Definition lv_LSet (v : listView) (i : Z) (val : bytes) : M bool :=
  v ← match lv_rep v with
      | LLp l => if listMaxListpackValue <? zlen val then lp ← load_lp l; list_promote v lp else mret v
      | LQl _ => mret v
      end;
  match lv_rep v with
  | LQl l => ql ← load_ql l; '(b, ql) ← lift (Quicklist.LSet ql i val); _ ← store l (CQuicklist ql); mret b
  | LLp l =>
    lp ← load_lp l;
    let n := Listpack.Len lp in
    let i := if i <? 0 then i + n else i in
    if (i <? 0) || (n <=? i) then mret false
    else '(lp, b) ← lift (Listpack.ReplaceAt lp i val); _ ← store l (CListpack lp); mret b
  end.

(** LPUSH when [left], RPUSH otherwise. *)
Definition lv_Push (left : bool) (v : listView) (val : bytes) : M listView :=
  v ← match lv_rep v with
      | LLp l => lp ← load_lp l; L ← gets s_lim; if growWouldPromote L lp val then list_promote v lp else mret v
      | LQl _ => mret v
      end;
  match lv_rep v with
  | LQl l =>
    ql ← load_ql l;
    ql ← lift (if left then Quicklist.LPush ql val else Quicklist.RPush ql val);
    _ ← store l (CQuicklist ql); mret v
  | LLp l =>
    lp ← load_lp l;
    lp ← (if left then '(lp, _) ← lift (Listpack.InsertAt lp 0 val); mret lp else mret (Listpack.Append lp val));
    _ ← store l (CListpack lp); mret v
  end.

Definition lv_LPop (v : listView) : M (option bytes) :=
  match lv_rep v with
  | LQl l => ql ← load_ql l; '(r, ql) ← lift (Quicklist.LPop ql); _ ← store l (CQuicklist ql); mret r
  | LLp l =>
    lp ← load_lp l;
    if Listpack.Len lp =? 0 then mret None
    else
      b ← lift (Listpack.Get lp 0);
      '(lp, _) ← lift (Listpack.DeleteRange lp 0 1);
      _ ← store l (CListpack lp); mret (Some (default [] b))
  end.

Definition lv_RPop (v : listView) : M (option bytes) :=
  match lv_rep v with
  | LQl l => ql ← load_ql l; '(r, ql) ← lift (Quicklist.RPop ql); _ ← store l (CQuicklist ql); mret r
  | LLp l =>
    lp ← load_lp l;
    let n := Listpack.Len lp in
    if n =? 0 then mret None
    else
      b ← lift (Listpack.Get lp (n - 1));
      '(lp, _) ← lift (Listpack.DeleteRange lp (n - 1) 1);
      _ ← store l (CListpack lp); mret (Some (default [] b))
  end.

Definition lv_Pop (left : bool) (v : listView) : M (option bytes) := if left then lv_LPop v else lv_RPop v.

(** ** Opening a view *)

Definition newListView (key : bytes) (obj : robj) : M (bytes + listView) :=
  match o_Ptr obj with
  | PRef l =>
    c ← load l;
    match c with
    | CListpack _ => mret (inr (mkLv key (LLp l)))
    | CQuicklist _ => mret (inr (mkLv key (LQl l)))
    | _ => mret (inl (Error (str "internal list type error")))
    end
  | _ => mret (inl (Error (str "internal list type error")))
  end.

Definition getOrCreateList (key : bytes) : M (bytes + listView) :=
  obj ← db_Get E key;
  match obj with
  | None =>
    l ← alloc (CListpack Listpack.New);
    _ ← db_Set E key (mkRobj OBJ_LIST OBJ_ENCODING_LISTPACK 0 (PRef l));
    mret (inr (mkLv key (LLp l)))
  | Some o => if negb (is_type o OBJ_LIST) then mret (inl wrongtype) else newListView key o
  end.

(** [inr None] is a missing key. *)
Definition getListView (key : bytes) : M (bytes + option listView) :=
  obj ← db_Get E key;
  match obj with
  | None => mret (inr None)
  | Some o =>
    if negb (is_type o OBJ_LIST) then mret (inl wrongtype)
    else
      r ← newListView key o;
      mret (match r with inl err => inl err | inr v => inr (Some v) end)
  end.

Definition storeList (key : bytes) (items : list bytes) : M unit :=
  if bool_decide (items = []) then _ ← db_Del E key; mret tt
  else
    r ← getOrCreateList key;
    match r with
    | inl _ => mret tt
    | inr v => _ ← replaceAll v items; mret tt
    end.

(** ** Handlers: ends of a list *)

Fixpoint push_each (left : bool) (v : listView) (vals : list bytes) : M listView :=
  match vals with
  | [] => mret v
  | val :: vals => v ← lv_Push left v val; push_each left v vals
  end.

Definition pushGeneric (left : bool) (argv : list bytes) : M bytes :=
  key ← arg argv 1;
  r ← getOrCreateList key;
  match r with
  | inl err => mret err
  | inr v => v ← push_each left v (drop 2 argv); n ← lv_Len v; mret (Integer n)
  end.

Definition lpushCommand : list bytes -> M bytes := pushGeneric true.
Definition rpushCommand : list bytes -> M bytes := pushGeneric false.

Definition pushxGeneric (left : bool) (argv : list bytes) : M bytes :=
  key ← arg argv 1;
  r ← getListView key;
  match r with
  | inl err => mret err
  | inr None => mret (Integer 0)
  | inr (Some v) => v ← push_each left v (drop 2 argv); n ← lv_Len v; mret (Integer n)
  end.

Definition lpushxCommand : list bytes -> M bytes := pushxGeneric true.
Definition rpushxCommand : list bytes -> M bytes := pushxGeneric false.

Definition popGeneric (left : bool) (argv : list bytes) : M bytes :=
  key ← arg argv 1;
  r ← getListView key;
  match r with
  | inl err => mret err
  | inr None => mret NullBulkString
  | inr (Some v) =>
    b ← lv_Pop left v;
    match b with
    | None => mret NullBulkString
    | Some val =>
      n ← lv_Len v;
      _ ← (if n =? 0 then db_Del E key else mret false);
      mret (BulkString val)
    end
  end.

Definition lpopCommand : list bytes -> M bytes := popGeneric true.
Definition rpopCommand : list bytes -> M bytes := popGeneric false.

(** ** Handlers: reads *)

Definition lrangeCommand (argv : list bytes) : M bytes :=
  key ← arg argv 1; a2 ← arg argv 2; a3 ← arg argv 3;
  match ParseInt a2, ParseInt a3 with
  | Some start, Some stop =>
    r ← getListView key;
    match r with
    | inl err => mret err
    | inr None => mret (Array [])
    | inr (Some v) => items ← lv_LRange v start stop; mret (Array (BulkString <$> items))
    end
  | _, _ => mret not_integer
  end.

Definition llenCommand (argv : list bytes) : M bytes :=
  key ← arg argv 1;
  r ← getListView key;
  match r with
  | inl err => mret err
  | inr None => mret (Integer 0)
  | inr (Some v) => n ← lv_Len v; mret (Integer n)
  end.

Definition lindexCommand (argv : list bytes) : M bytes :=
  key ← arg argv 1; a2 ← arg argv 2;
  match ParseInt a2 with
  | None => mret not_integer
  | Some idx =>
    r ← getListView key;
    match r with
    | inl err => mret err
    | inr None => mret NullBulkString
    | inr (Some v) => b ← lv_LIndex v idx; mret (match b with None => NullBulkString | Some val => BulkString val end)
    end
  end.

(** ** Handlers: changes inside a list *)

Definition lsetCommand (argv : list bytes) : M bytes :=
  key ← arg argv 1; a2 ← arg argv 2;
  match ParseInt a2 with
  | None => mret not_integer
  | Some idx =>
    r ← getListView key;
    match r with
    | inl err => mret err
    | inr None => mret no_such_key
    | inr (Some v) =>
      val ← arg argv 3;
      b ← lv_LSet v idx val;
      mret (if b : bool then OK else Error (str "index out of range"))
    end
  end.

(** The position of the first element equal to [x]. *)
Fixpoint index_of (x : bytes) (items : list bytes) : option nat :=
  match items with
  | [] => None
  | it :: items => if bool_decide (it = x) then Some 0%nat else S <$> index_of x items
  end.

Definition linsertCommand (argv : list bytes) : M bytes :=
  key ← arg argv 1; a2 ← arg argv 2;
  let where_ := ToUpper a2 in
  if negb (bool_decide (where_ = str "BEFORE")) && negb (bool_decide (where_ = str "AFTER")) then mret syntax_error
  else
    pivot ← arg argv 3; element ← arg argv 4;
    r ← getListView key;
    match r with
    | inl err => mret err
    | inr None => mret (Integer 0)
    | inr (Some v) =>
      items ← lv_All v;
      match index_of pivot items with
      | None => mret (Integer (-1))
      | Some idx =>
        let idx := if bool_decide (where_ = str "AFTER") then S idx else idx in
        let out := take idx items ++ element :: drop idx items in
        _ ← storeList key out;
        mret (Integer (zlen out))
      end
    end.

Definition ltrimCommand (argv : list bytes) : M bytes :=
  key ← arg argv 1; a2 ← arg argv 2; a3 ← arg argv 3;
  match ParseInt a2, ParseInt a3 with
  | Some start, Some stop =>
    r ← getListView key;
    match r with
    | inl err => mret err
    | inr None => mret OK
    | inr (Some v) =>
      n ← lv_Len v;
      let start := if start <? 0 then start + n else start in
      let stop := if stop <? 0 then stop + n else stop in
      let start := if start <? 0 then 0 else start in
      let stop := if n <=? stop then n - 1 else stop in
      if (stop <? start) || (n <=? start) then _ ← db_Del E key; mret OK
      else items ← lv_LRange v start stop; _ ← storeList key items; mret OK
    end
  | _, _ => mret not_integer
  end.

(** The walk of LREM: which elements go, and how many went. *)
Fixpoint lrem_mark (limit : Z) (target : bytes) (items : list bytes) (removed : Z) : list bool * Z :=
  match items with
  | [] => ([], removed)
  | it :: rest =>
    if (limit =? 0) || (removed <? limit) then
      let hit := bool_decide (it = target) in
      let x := lrem_mark limit target rest (if hit then removed + 1 else removed) in
      (hit :: x.1, x.2)
    else ((fun _ => false) <$> items, removed)
  end.

(** The elements that are not marked. *)
Fixpoint unmarked (items : list bytes) (remove : list bool) : list bytes :=
  match items, remove with
  | it :: items, b :: remove => if b : bool then unmarked items remove else it :: unmarked items remove
  | _, _ => []
  end.

Definition lremCommand (argv : list bytes) : M bytes :=
  key ← arg argv 1; a2 ← arg argv 2;
  match ParseInt a2 with
  | None => mret not_integer
  | Some count =>
    target ← arg argv 3;
    r ← getListView key;
    match r with
    | inl err => mret err
    | inr None => mret (Integer 0)
    | inr (Some v) =>
      items ← lv_All v;
      let '(remove, removed) :=
        if count <? 0 then let x := lrem_mark (s64 (- count)) target (rev items) 0 in (rev x.1, x.2)
        else lrem_mark count target items 0 in
      if removed =? 0 then mret (Integer 0)
      else _ ← storeList key (unmarked items remove); mret (Integer removed)
    end
  end.

(** ** LPOS *)

Record lpos_opts := mkLpos { lpos_rank : Z; lpos_count : Z; lpos_maxlen : Z }.

Definition rank_zero : bytes :=
  Error (str "RANK can't be zero. Use 1 to start searching from the first matching element in the head of the list or -1 searching backward from the tail of the list").

Fixpoint lpos_options (o : lpos_opts) (args : list bytes) : bytes + lpos_opts :=
  match args with
  | [] => inr o
  | [_] => inl syntax_error
  | a :: b :: args =>
    match ParseInt b with
    | None => inl not_integer
    | Some n =>
      let eq s := bool_decide (ToUpper a = str s) in
      if eq "RANK" then if n =? 0 then inl rank_zero else lpos_options (mkLpos n (lpos_count o) (lpos_maxlen o)) args
      else if eq "COUNT" then
        if n <? 0 then inl (Error (str "COUNT can't be negative")) else lpos_options (mkLpos (lpos_rank o) n (lpos_maxlen o)) args
      else if eq "MAXLEN" then
        if n <? 0 then inl (Error (str "MAXLEN can't be negative")) else lpos_options (mkLpos (lpos_rank o) (lpos_count o) n) args
      else inl syntax_error
    end
  end.

(** The walk over positions and elements, forwards or backwards; [seen] counts the steps, [skip] the matches still to pass. *)
Fixpoint lpos_loop (o : lpos_opts) (target : bytes) (walk : list (Z * bytes)) (seen skip : Z) (found : list Z) : list Z :=
  match walk with
  | [] => found
  | (i, it) :: walk =>
    if (0 <? lpos_maxlen o) && (lpos_maxlen o <=? seen) then found
    else if negb (bool_decide (it = target)) then lpos_loop o target walk (seen + 1) skip found
    else
      let skip := s64 (skip - 1) in
      if 0 <? skip then lpos_loop o target walk (seen + 1) skip found
      else
        let found := found ++ [i] in
        if (0 <=? lpos_count o) && negb (lpos_count o =? 0) && (lpos_count o <=? zlen found) then found
        else lpos_loop o target walk (seen + 1) skip found
  end.

Definition positions (items : list bytes) : list (Z * bytes) := imap (fun i it => (Z.of_nat i, it)) items.

Definition lposCommand (argv : list bytes) : M bytes :=
  key ← arg argv 1; target ← arg argv 2;
  match lpos_options (mkLpos 1 (-1) 0) (drop 3 argv) with
  | inl err => mret err
  | inr o =>
    r ← getListView key;
    match r with
    | inl err => mret err
    | inr None => mret (if 0 <=? lpos_count o then Array [] else NullBulkString)
    | inr (Some v) =>
      items ← lv_All v;
      let found :=
        if 0 <? lpos_rank o then lpos_loop o target (positions items) 0 (lpos_rank o) []
        else lpos_loop o target (rev (positions items)) 0 (if lpos_rank o <? 0 then s64 (- lpos_rank o) else lpos_rank o) [] in
      mret (if 0 <=? lpos_count o then Array (Integer <$> found)
            else match found with [] => NullBulkString | f :: _ => Integer f end)
    end
  end.

(** ** LMOVE *)

Definition lmoveGeneric (src dst from to : bytes) : M bytes :=
  let side b := bool_decide (b = str "LEFT") || bool_decide (b = str "RIGHT") in
  if negb (side from) then mret syntax_error
  else if negb (side to) then mret syntax_error
  else
    _ ← LockKeys src dst;
    r ← getListView src;
    match r with
    | inl err => mret err
    | inr None => mret NullBulkString
    | inr (Some v) =>
      dstObj ← db_Get E dst;
      if match dstObj with Some o => negb (is_type o OBJ_LIST) | None => false end then mret wrongtype
      else
        b ← lv_Pop (bool_decide (from = str "LEFT")) v;
        match b with
        | None => mret NullBulkString
        | Some val =>
          n ← lv_Len v;
          _ ← (if n =? 0 then db_Del E src else mret false);
          r ← getOrCreateList dst;
          match r with
          | inl err => mret err
          | inr w => _ ← lv_Push (bool_decide (to = str "LEFT")) w val; mret (BulkString val)
          end
        end
    end.

Definition lmoveCommand (argv : list bytes) : M bytes :=
  src ← arg argv 1; dst ← arg argv 2; from ← arg argv 3; to ← arg argv 4;
  lmoveGeneric src dst (ToUpper from) (ToUpper to).

Definition rpoplpushCommand (argv : list bytes) : M bytes :=
  src ← arg argv 1; dst ← arg argv 2; lmoveGeneric src dst (str "RIGHT") (str "LEFT").

End views.
