(* ===== verification/ListSpec.v ===== *)
(** * List commands: meaning and correctness

    [list_at] says that a view is on the container of a key whose value is the list [xs]; the rules
    for the views hold for both encodings and for the moves between them.  The handlers are then
    proved against their meaning on the dataset. *)

From S2P Require Import Prelude Strconv Listpack Quicklist Object Value Db DbSpec Reply Context Strings StringSpec Generic GenericSpec Stripes.
From S2P Require Import Hashes HashSpec Sets SetSpec Lists.
Local Open Scope Z_scope.

Definition list_enc (r : list_rep) : ObjectEncoding := match r with LLp _ => OBJ_ENCODING_LISTPACK | LQl _ => OBJ_ENCODING_QUICKLIST end.

Section views.
Variables (E : env) (T : Z).
Hypothesis Hclk : instant E T.

Record list_at (m : dataset) (s : St) (v : listView) (xs : list bytes) (e : Z) : Prop := {
  la_rel : abs_rel T m s;
  la_key : m !! lv_key v = Some (RList xs, e);
  la_view : view T s (lv_key v) = Some ((OBJ_LIST, list_enc (lv_rep v), PRef (list_loc (lv_rep v))), e)
}.

(** The two shapes a view can have. *)
Lemma list_at_cases m s v xs e :
  list_at m s v xs e ->
  (exists l lp, lv_rep v = LLp l /\ s_heap s !! l = Some (CListpack lp) /\ Listpack.repr lp xs /\ compact xs) \/
  (exists l ql ch, lv_rep v = LQl l /\ s_heap s !! l = Some (CQuicklist ql) /\ Quicklist.repr ql ch /\ contents ch = xs).
Proof.
  clear Hclk. intros [H Hk Hv]. pose proof (ar_keys _ _ _ H (lv_key v)) as Hkk. rewrite Hk, Hv in Hkk.
  destruct Hkk as (_ & [_ (l & c & [= <-] & Hl & Hh)] & _). destruct v as [k [l|l]]; cbn in *; destruct c; try done.
  - left. destruct Hh. by exists l, lp.
  - right. destruct Hh as (ch & ? & ?). by exists l, ql, ch.
Qed.

Lemma wp_load_ql l ql s (Q : Quicklist -> St -> Prop) : s_heap s !! l = Some (CQuicklist ql) -> Q ql s -> wp (load_ql l) s Q.
Proof. clear Hclk. intros Hl HQ. apply wp_bind. eapply load_rule; [done|]. by apply wp_ret. Qed.

(** *** Reads *)

Lemma lv_Len_rule m s v xs e (Q : Z -> St -> Prop) : list_at m s v xs e -> Q (zlen xs) s -> wp (lv_Len v) s Q.
Proof.
  clear Hclk. intros H HQ. unfold lv_Len. destruct (list_at_cases _ _ _ _ _ H) as [(l & lp & -> & Hl & Hr & _)|(l & ql & ch & -> & Hl & Hr & <-)]; apply wp_bind.
  - eapply wp_load_lp; [done|]. apply wp_ret. unfold Listpack.Len. by rewrite (Listpack.repr_n _ _ Hr).
  - eapply wp_load_ql; [done|]. apply wp_ret. unfold Quicklist.Len. by rewrite (Quicklist.r_count _ _ Hr).
Qed.

Lemma lv_All_rule m s v xs e (Q : list bytes -> St -> Prop) : list_at m s v xs e -> Q xs s -> wp (lv_All v) s Q.
Proof.
  clear Hclk. intros H HQ. unfold lv_All. destruct (list_at_cases _ _ _ _ _ H) as [(l & lp & -> & Hl & Hr & _)|(l & ql & ch & -> & Hl & Hr & <-)]; apply wp_bind.
  - eapply wp_load_lp; [done|]. eapply wp_lift; [by apply All_repr|]. done.
  - eapply wp_load_ql; [done|]. eapply wp_lift; [by apply LRange_repr|]. by rewrite list_range_all.
Qed.

Lemma lp_range_spec xs start stop : lp_range xs start stop = Some (list_range xs start stop).
Proof.
  clear Hclk. unfold lp_range, list_range, norm. destruct (Z.eqb_spec (zlen xs) 0) as [E0|E0].
  { destruct xs; [|rewrite zlen_cons in E0; zlen_pose; lia]. by rewrite drop_nil, take_nil. }
  cbv zeta. rewrite !(Z.add_comm _ (zlen xs)). set (a := if start <? 0 then _ else _). set (b := if stop <? 0 then _ else _).
  replace (if a <? 0 then 0 else a) with (Z.max 0 a) by (destruct (Z.ltb_spec a 0); lia).
  replace (if zlen xs <=? b then zlen xs - 1 else b) with (Z.min (zlen xs - 1) b) by (destruct (Z.leb_spec (zlen xs) b); lia).
  destruct (Z.ltb_spec (Z.min (zlen xs - 1) b) (Z.max 0 a)) as [Hx|Hx]; cbn [orb].
  { f_equal. symmetry. replace (Z.to_nat _) with 0%nat by lia. done. }
  destruct (Z.leb_spec (zlen xs) (Z.max 0 a)) as [Hy|Hy]; [lia|]. rewrite slice_bounds by lia. do 3 f_equal. lia.
Qed.

Lemma lv_LRange_rule m s v xs e start stop (Q : list bytes -> St -> Prop) :
  list_at m s v xs e -> Q (list_range xs start stop) s -> wp (lv_LRange v start stop) s Q.
Proof.
  clear Hclk. intros H HQ. unfold lv_LRange. destruct (list_at_cases _ _ _ _ _ H) as [(l & lp & -> & Hl & Hr & _)|(l & ql & ch & -> & Hl & Hr & <-)]; apply wp_bind.
  - eapply wp_load_lp; [done|]. apply wp_bind. eapply wp_lift; [by apply All_repr|]. eapply wp_lift; [apply lp_range_spec|]. done.
  - eapply wp_load_ql; [done|]. eapply wp_lift; [by apply LRange_repr|]. done.
Qed.

Lemma go_at_range_none {A : Type} (xs : list A) i : i < 0 \/ zlen xs <= i -> go_at xs i = None.
Proof. clear Hclk. intros Hi. destruct (go_at xs i) eqn:Eg; [|done]. apply go_at_range in Eg. lia. Qed.

Lemma lv_LIndex_rule m s v xs e i (Q : option bytes -> St -> Prop) :
  list_at m s v xs e -> Q (go_at xs (norm xs i)) s -> wp (lv_LIndex v i) s Q.
Proof.
  clear Hclk. intros H HQ. unfold lv_LIndex. destruct (list_at_cases _ _ _ _ _ H) as [(l & lp & -> & Hl & Hr & _)|(l & ql & ch & -> & Hl & Hr & <-)]; apply wp_bind.
  - eapply wp_load_lp; [done|]. unfold Listpack.Len. rewrite (Listpack.repr_n _ _ Hr), (Z.add_comm i). cbv zeta. fold (norm xs i).
    destruct (Z.ltb_spec (norm xs i) 0); cbn [orb]; [apply wp_ret; by rewrite go_at_range_none in HQ by lia|].
    destruct (Z.leb_spec (zlen xs) (norm xs i)); [apply wp_ret; by rewrite go_at_range_none in HQ by lia|].
    apply wp_bind. eapply wp_lift; [by apply (Get_repr lp xs)|]. rewrite (proj2 (Z.ltb_ge _ _)) by lia. rewrite go_at_lookup in HQ by lia.
    destruct (xs !! Z.to_nat (norm xs i)) eqn:Ex; [by apply wp_ret|]. apply lookup_ge_None_1 in Ex. unfold zlen in *. lia.
  - eapply wp_load_ql; [done|]. eapply wp_lift; [by apply LIndex_repr|]. done.
Qed.

(** *** Changes *)

(** A change in place of the container of [v]. *)
Lemma list_store m s v xs e c ys (Q : unit -> St -> Prop) :
  list_at m s v xs e -> holds (list_enc (lv_rep v)) c (RList ys) ->
  (forall s', list_at (<[lv_key v := (RList ys, e)]> m) s' v ys e -> quiet s s' -> Q tt s') ->
  wp (store (list_loc (lv_rep v)) c) s Q.
Proof.
  clear Hclk. intros [H Hk Hv] Hh HQ. eapply (store_rule T m s (lv_key v) _ _ _ _ _ (RList ys)); [done|exact Hv| |].
  { split; [done|]. exists (list_loc (lv_rep v)), c. split_and!; [done| |done]. by rewrite lookup_insert_eq. }
  intros s' H' Hq _ Hview. apply HQ; [|done]. split; [done|by rewrite lookup_insert_eq|by rewrite Hview].
Qed.

(** The mark on the old object is gone as soon as the new one is stored. *)
Lemma SetKeepTTL_marked {PS : PayloadSize payload} t db key (mark : robj -> robj) val :
  db_wf db -> (forall o, o_Ptr (mark o) = o_Ptr o) ->
  SetKeepTTL t (put_shard db (GetShardIdx key)
    (mkShard (alter mark key (entries (getShard db key))) (expires (getShard db key)) (versions (getShard db key)))) key val = SetKeepTTL t db key val.
Proof.
  clear Hclk. intros Hwf Hm. unfold SetKeepTTL, store_entry, getShard. set (i := GetShardIdx key).
  pose proof (GetShardIdx_range key) as Hi. fold i in Hi. cbv zeta.
  rewrite shard_at_put by (try done; apply Hwf). rewrite decide_True by done. cbn [entries expires versions]. rewrite lookup_alter_eq.
  set (o := store_lru (Unix t) val). clearbody o.
  assert (<[key := o]> (alter mark key (entries (shard_at db i))) = <[key := o]> (entries (shard_at db i))) as ->.
  { apply map_eq. intros j. destruct (decide (j = key)) as [->|Hj]; [by rewrite !lookup_insert_eq|]. rewrite !lookup_insert_ne by done. by apply lookup_alter_ne. }
  destruct (entries (shard_at db i) !! key) as [old|]; cbn [fmap option_fmap option_map].
  - assert (estimateObjectSize key (mark old) = estimateObjectSize key old) as -> by (unfold estimateObjectSize; by rewrite Hm).
    unfold put_shard, addMem, subMem, bumpVersion, with_used, with_shards. cbn. by rewrite list_insert_insert_eq.
  - unfold put_shard, addMem, subMem, bumpVersion, with_used, with_shards. cbn. by rewrite list_insert_insert_eq.
Qed.

Lemma mark_absorbed key l enc o s (Q : unit -> St -> Prop) :
  db_wf (s_db s) -> wp (db_SetKeepTTL E key o) s Q -> wp (_ ← mark_encoding key l enc; db_SetKeepTTL E key o) s Q.
Proof.
  clear Hclk. intros Hwf HQ. apply wp_bind. unfold mark_encoding. apply wp_modify. destruct HQ as (r & s' & Er & HQ). exists r, s'. split; [|exact HQ].
  rewrite <- Er. unfold db_SetKeepTTL, db_call. cbn [s_heap s_tick s_db set_db]. cbv zeta. rewrite SetKeepTTL_marked; [done|done|].
  intros o'. by destruct (match o_Ptr o' with PRef _ => _ | _ => _ end).
Qed.

(** A new container takes the place of the old one. *)
Lemma list_publish_rule m s v xs e l c enc ys (Q : unit -> St -> Prop) :
  list_at m s v xs e -> s_heap s !! l = Some c -> holds enc c (RList ys) -> unshared T s l ->
  (forall s', abs_rel T (<[lv_key v := (RList ys, e)]> m) s' -> view T s' (lv_key v) = Some ((OBJ_LIST, enc, PRef l), e) -> quiet s s' -> Q tt s') ->
  wp (list_publish E v l enc) s Q.
Proof using Hclk.
  intros H Hl Hh Hu HQ. unfold list_publish. apply mark_absorbed; [apply (ar_db _ _ _ (la_rel _ _ _ _ _ H))|].
  apply (db_SetKeepTTL_rule E T Hclk m s (lv_key v) _ (RList ys) (RList xs) e); [apply H|apply H| |].
  - split; [|intros l0 [= <-]; exact Hu]. split; [done|]. by exists l, c.
  - intros s' H' Hq _ _ Hv. by apply HQ.
Qed.

Lemma list_at_quiet m s s' v xs e : list_at m s v xs e -> abs_rel T m s' -> view T s' (lv_key v) = view T s (lv_key v) -> list_at m s' v xs e.
Proof. clear Hclk. intros [H Hk Hv] H' Hv'. split; [done|done|by rewrite Hv']. Qed.

Lemma to_quicklist_rule m s v xs e ys (Q : listView -> St -> Prop) :
  list_at m s v xs e ->
  (forall l s', list_at (<[lv_key v := (RList ys, e)]> m) s' (mkLv (lv_key v) (LQl l)) ys e -> quiet s s' -> Q (mkLv (lv_key v) (LQl l)) s') ->
  wp (to_quicklist E v ys) s Q.
Proof using Hclk.
  intros H HQ. unfold to_quicklist. destruct (push_all_spec NewQuicklist [] ys repr_new) as (ql & ch & Eq & Hr & Hc).
  apply wp_bind. eapply wp_lift; [exact Eq|]. apply wp_bind. apply (alloc_rule T m); [apply H|]. intros l s1 H1 Hq1 Hl Hu _ Hv1.
  apply wp_bind. apply (list_publish_rule m s1 v xs e l (CQuicklist ql) OBJ_ENCODING_QUICKLIST ys); [by eapply list_at_quiet|done|by exists ch|done|].
  intros s2 H2 Hv2 Hq2. apply wp_ret. apply HQ; [|chain]. split; [done|by rewrite lookup_insert_eq|done].
Qed.

Lemma list_promote_rule m s v xs e lp (Q : listView -> St -> Prop) :
  list_at m s v xs e -> Listpack.repr lp xs ->
  (forall l s', list_at m s' (mkLv (lv_key v) (LQl l)) xs e -> quiet s s' -> Q (mkLv (lv_key v) (LQl l)) s') ->
  wp (list_promote E v lp) s Q.
Proof using Hclk.
  intros H Hr HQ. apply wp_bind. eapply wp_lift; [by apply All_repr|]. eapply to_quicklist_rule; [done|]. intros l s' H' Hq. apply HQ; [|done].
  by rewrite insert_id in H' by apply H.
Qed.

Lemma replaceAll_rule m s v xs e ys (Q : listView -> St -> Prop) :
  list_at m s v xs e -> (forall v' s', abs_rel T (<[lv_key v := (RList ys, e)]> m) s' -> quiet s s' -> Q v' s') -> wp (replaceAll E v ys) s Q.
Proof using Hclk.
  intros H HQ. apply wp_bind, wp_gets. cbv zeta. destruct (_ || _ || _) eqn:Hbig.
  - eapply to_quicklist_rule; [done|]. intros l s' H' Hq. apply HQ; [apply H'|done].
  - apply orb_false_iff in Hbig as [[_ Hov]%orb_false_iff Hbig].
    assert (compact ys) as Hc.
    { pose proof (lo_list _ (ar_lim _ _ _ (la_rel _ _ _ _ _ H))) as HL. pose proof (total_spec ys 0) as Ht. pose proof (list_budget_bound (ListMaxListpackSize (s_lim s))).
      split.
      - destruct (0 <=? ListMaxListpackSize (s_lim s)); [apply Z.ltb_ge in Hbig; lia|]. apply Z.ltb_ge in Hbig. lia.
      - apply Forall_forall. intros x Hx. destruct (Z.ltb_spec listMaxListpackValue (zlen x)) as [Hl|Hl]; [|unfold listMaxListpackValue in Hl; lia].
        assert (existsb (fun it => listMaxListpackValue <? zlen it) ys = true) as Hov'; [|congruence].
        apply existsb_exists. exists x. split; [by apply list_elem_of_In|by apply Z.ltb_lt]. }
    apply wp_bind. apply (alloc_rule T m); [apply H|]. intros l s1 H1 Hq1 Hl Hu _ Hv1.
    apply wp_bind. apply (list_publish_rule m s1 v xs e l (CListpack (append_all Listpack.New ys)) OBJ_ENCODING_LISTPACK ys); [by eapply list_at_quiet|done| |done|].
    { split; [|done]. by apply (append_all_repr _ []); [apply New_repr|]. }
    intros s2 H2 Hv2 Hq2. apply wp_ret. apply HQ; [done|chain].
Qed.

(** *** Writes *)

(** A listpack whose element [i] is replaced, or that has a new element, stays compact. *)
Lemma compact_fit xs : compact xs -> zlen (Listpack.encs xs) <= max_int64.
Proof. clear Hclk. intros [Hn Hf]. apply compact_fits; [lia|done]. Qed.

Lemma lv_LSet_ql_rule m s key l xs e i val (Q : bool -> St -> Prop) :
  list_at m s (mkLv key (LQl l)) xs e ->
  (forall s', abs_rel T (<[key := (RList (list_set xs i val).2, e)]> m) s' -> quiet s s' -> Q (list_set xs i val).1 s') ->
  wp (ql ← load_ql l; '(b, ql) ← lift (Quicklist.LSet ql i val); _ ← store l (CQuicklist ql); mret b) s Q.
Proof.
  clear Hclk. intros H HQ. destruct (list_at_cases _ _ _ _ _ H) as [(? & ? & [=] & _)|(l' & ql & ch & [= <-] & Hl & Hr & <-)].
  apply wp_bind. eapply wp_load_ql; [done|]. destruct (LSet_repr ql ch i val Hr) as (ql' & ch' & Es & Hr' & Hc'). apply wp_bind. eapply wp_lift; [exact Es|].
  apply wp_bind. apply (list_store m s (mkLv key (LQl l)) _ e (CQuicklist ql') (list_set (contents ch) i val).2 _ H); [by exists ch'|].
  intros s' [] Hq. apply wp_ret. by apply HQ.
Qed.

Lemma lv_LSet_rule m s v xs e i val (Q : bool -> St -> Prop) :
  list_at m s v xs e ->
  (forall s', abs_rel T (<[lv_key v := (RList (list_set xs i val).2, e)]> m) s' -> quiet s s' -> Q (list_set xs i val).1 s') ->
  wp (lv_LSet E v i val) s Q.
Proof using Hclk.
  intros H HQ. destruct v as [key rep]. cbn [lv_key] in *. unfold lv_LSet. cbn [lv_rep].
  destruct (list_at_cases _ _ _ _ _ H) as [(l & lp & Hrep & Hl & Hr & Hc)|(l & ql & ch & Hrep & Hl & Hr & Hx)]; cbn in Hrep; subst rep; apply wp_bind.
  2: { apply wp_ret. cbn [lv_rep]. by eapply lv_LSet_ql_rule. }
  destruct (Z.ltb_spec listMaxListpackValue (zlen val)) as [Hlong|Hshort].
  { apply wp_bind. eapply wp_load_lp; [done|]. eapply list_promote_rule; [done..|]. intros l' s1 H1 Hq1. cbn [lv_rep lv_key].
    eapply lv_LSet_ql_rule; [done|]. intros s2 H2 Hq2. apply HQ; [done|chain]. }
  apply wp_ret. cbn [lv_rep]. apply wp_bind. eapply wp_load_lp; [done|]. unfold Listpack.Len. rewrite (Listpack.repr_n _ _ Hr), (Z.add_comm i). cbv zeta.
  fold (norm xs i). unfold list_set, go_set in HQ.
  destruct ((norm xs i <? 0) || (zlen xs <=? norm xs i)) eqn:Hout.
  - apply wp_ret. destruct ((0 <=? norm xs i) && (norm xs i <? zlen xs)) eqn:Hin; [lia|]. apply HQ; [|apply quiet_refl]. cbn [snd]. rewrite insert_id; apply H.
  - assert ((0 <=? norm xs i) && (norm xs i <? zlen xs) = true) as Hin by lia. rewrite Hin in HQ. cbn [fst snd] in HQ.
    assert (Listpack.spec_op xs (Listpack.OpReplaceAt (norm xs i) val) = (<[Z.to_nat (norm xs i) := val]> xs, true)) as Hs by (cbn [Listpack.spec_op]; by rewrite Hout).
    assert (compact (<[Z.to_nat (norm xs i) := val]> xs)) as Hc' by (apply compact_replace; [done|unfold listMaxListpackValue in *; lia]).
    destruct (Listpack.ReplaceAt_repr lp xs (norm xs i) val Hr) as (lp' & El & Hr').
    { unfold Listpack.op_ok. rewrite Hs. split; [by apply compact_fit|done]. }
    rewrite Hs in El, Hr'. cbn [fst snd] in *. apply wp_bind. eapply wp_lift; [exact El|]. apply wp_bind.
    apply (list_store m s (mkLv key (LLp l)) xs e (CListpack lp') (<[Z.to_nat (norm xs i) := val]> xs) _ H); [by split|]. intros s1 [] Hq1. apply wp_ret. by apply HQ.
Qed.

(** An element at either end. *)
Definition pushed (left : bool) (xs : list bytes) (val : bytes) : list bytes := if left then val :: xs else xs ++ [val].

Lemma pushed_ql_rule m s key l xs e left val (Q : listView -> St -> Prop) :
  list_at m s (mkLv key (LQl l)) xs e ->
  (forall s', list_at (<[key := (RList (pushed left xs val), e)]> m) s' (mkLv key (LQl l)) (pushed left xs val) e -> quiet s s' -> Q (mkLv key (LQl l)) s') ->
  wp (ql ← load_ql l; ql ← lift (if left then Quicklist.LPush ql val else Quicklist.RPush ql val); _ ← store l (CQuicklist ql); mret (mkLv key (LQl l))) s Q.
Proof.
  clear Hclk. intros H HQ. destruct (list_at_cases _ _ _ _ _ H) as [(? & ? & [=] & _)|(l' & ql & ch & [= <-] & Hl & Hr & <-)].
  apply wp_bind. eapply wp_load_ql; [done|].
  assert (exists ql' ch', (if left then Quicklist.LPush ql val else Quicklist.RPush ql val) = Some ql' /\ Quicklist.repr ql' ch' /\
    contents ch' = pushed left (contents ch) val) as (ql' & ch' & Ep & Hr' & Hc') by (destruct left; [by apply LPush_repr|by apply RPush_repr]).
  apply wp_bind. eapply wp_lift; [exact Ep|]. apply wp_bind.
  apply (list_store m s (mkLv key (LQl l)) _ e (CQuicklist ql') (pushed left (contents ch) val) _ H); [by exists ch'|].
  intros s' H' Hq. apply wp_ret. by apply HQ.
Qed.

Lemma encs_long xs : zlen xs <= zlen (Listpack.encs xs).
Proof.
  clear Hclk. induction xs as [|x xs IH]; [done|]. rewrite Listpack.encs_cons, !zlen_app, zlen_cons. pose proof (Listpack.PutUvarint_pos (zlen x)). zlen_pose. lia.
Qed.

(** A listpack that takes one more element without being promoted. *)
Lemma pushed_compact L lp xs val left :
  limits_ok L -> Listpack.repr lp xs -> compact xs -> growWouldPromote L lp val = false -> compact (pushed left xs val).
Proof.
  clear Hclk. intros HL Hr [Hn Hf] [Hv%Z.ltb_ge Hg]%orb_false_iff. unfold listMaxListpackValue in Hv. split.
  - assert (zlen (pushed left xs val) = zlen xs + 1) as ->.
    { destruct left; cbn [pushed]; [rewrite zlen_cons; lia|by rewrite zlen_app]. }
    pose proof (lo_list _ HL). unfold listWouldExceed in Hg. unfold Listpack.Len, Listpack.Bytes in Hg. rewrite (Listpack.repr_n _ _ Hr), (Listpack.repr_buf _ _ Hr) in Hg.
    pose proof (list_budget_bound (ListMaxListpackSize L)). pose proof (encs_long xs). zlen_pose. destruct (0 <=? ListMaxListpackSize L); lia.
  - destruct left; cbn [pushed]; [constructor; [lia|done]|]. apply Forall_app. split; [done|]. constructor; [lia|done].
Qed.

Lemma lv_Push_rule m s v xs e left val (Q : listView -> St -> Prop) :
  list_at m s v xs e ->
  (forall v' s', list_at (<[lv_key v := (RList (pushed left xs val), e)]> m) s' v' (pushed left xs val) e -> lv_key v' = lv_key v -> quiet s s' -> Q v' s') ->
  wp (lv_Push E left v val) s Q.
Proof using Hclk.
  intros H HQ. destruct v as [key rep]. cbn [lv_key] in *. unfold lv_Push. cbn [lv_rep].
  destruct (list_at_cases _ _ _ _ _ H) as [(l & lp & Hrep & Hl & Hr & Hc)|(l & ql & ch & Hrep & Hl & Hr & Hx)]; cbn in Hrep; subst rep; apply wp_bind.
  2: { apply wp_ret. cbn [lv_rep]. eapply pushed_ql_rule; [done|]. intros s' H' Hq. by apply HQ. }
  apply wp_bind. eapply wp_load_lp; [done|]. apply wp_bind, wp_gets. destruct (growWouldPromote (s_lim s) lp val) eqn:Hg.
  { eapply list_promote_rule; [done..|]. intros l' s1 H1 Hq1. cbn [lv_rep lv_key] in *. eapply pushed_ql_rule; [done|]. intros s2 H2 Hq2. apply HQ; [done|done|chain]. }
  apply wp_ret. cbn [lv_rep]. apply wp_bind. eapply wp_load_lp; [done|].
  pose proof (pushed_compact (s_lim s) lp xs val left (ar_lim _ _ _ (la_rel _ _ _ _ _ H)) Hr Hc Hg) as Hc'.
  assert (exists lp', Listpack.repr lp' (pushed left xs val) /\ forall (Q' : Listpack -> St -> Prop), Q' lp' s ->
    wp (if left then '(lp, _) ← lift (Listpack.InsertAt lp 0 val); mret lp else mret (Listpack.Append lp val)) s Q') as (lp' & Hr' & Hp).
  { destruct left; cbn [pushed] in *.
    - destruct (Listpack.InsertAt_repr lp xs 0 val Hr) as (lp' & Ei & Hr').
      { split; [|done]. cbn [Listpack.spec_op]. destruct (Z.ltb_spec (zlen xs) 0); [zlen_pose; lia|]. cbn. by apply compact_fit. }
      cbn [Listpack.spec_op] in Ei, Hr'. destruct (Z.ltb_spec (zlen xs) 0); [zlen_pose; lia|]. cbn in Ei, Hr'. exists lp'. split; [done|]. intros Q' HQ'.
      apply wp_bind. eapply wp_lift; [exact Ei|]. by apply wp_ret.
    - exists (Listpack.Append lp val). split; [apply Listpack.Append_repr; [done|by apply compact_fit]|]. intros Q' HQ'. by apply wp_ret. }
  apply wp_bind, Hp. apply wp_bind. apply (list_store m s (mkLv key (LLp l)) xs e (CListpack lp') (pushed left xs val) _ H); [by split|].
  intros s1 H1 Hq1. apply wp_ret. by apply HQ.
Qed.

(** The element at either end, and what is left. *)
Definition popped (left : bool) (xs : list bytes) : option (bytes * list bytes) :=
  if left then match xs with x :: xs => Some (x, xs) | [] => None end
  else match last xs with Some x => Some (x, removelast xs) | None => None end.

Lemma popped_last xs x : popped false (xs ++ [x]) = Some (x, xs).
Proof. clear Hclk. unfold popped. by rewrite last_snoc, removelast_last. Qed.

Lemma lv_Pop_rule m s v xs e left (Q : option bytes -> St -> Prop) :
  list_at m s v xs e ->
  (forall s', match popped left xs with
     | Some (x, ys) => list_at (<[lv_key v := (RList ys, e)]> m) s' v ys e
     | None => list_at m s' v xs e
     end -> quiet s s' -> Q (fst <$> popped left xs) s') ->
  wp (lv_Pop left v) s Q.
Proof.
  clear Hclk. intros H HQ. destruct v as [key rep]. cbn [lv_key] in *.
  assert (forall l ql ch ql' ch' r, rep = LQl l -> s_heap s !! l = Some (CQuicklist ql) -> contents ch = xs -> Quicklist.repr ql' ch' ->
    popped left xs = (fun r => (r, contents ch')) <$> r -> (r = None -> contents ch' = xs) ->
    wp (_ ← store l (CQuicklist ql'); mret r) s Q) as Hql.
  { intros l ql ch ql' ch' r -> Hl Hx Hr' Hp Hnone. apply wp_bind.
    apply (list_store m s (mkLv key (LQl l)) xs e (CQuicklist ql') (contents ch') _ H); [by exists ch'|]. intros s' H' Hq. apply wp_ret.
    rewrite Hp in HQ. destruct r as [r|]; cbn in HQ; [by apply HQ|]. apply HQ; [|done]. rewrite (Hnone eq_refl) in H'. cbn [lv_key] in H'. by rewrite insert_id in H' by apply H. }
  assert (forall l lp i x ys, rep = LLp l -> s_heap s !! l = Some (CListpack lp) -> Listpack.repr lp xs -> compact xs -> 0 <= i -> xs !! Z.to_nat i = Some x ->
    ys = take (Z.to_nat i) xs ++ drop (Z.to_nat (i + 1)) xs -> popped left xs = Some (x, ys) ->
    wp (b ← lift (Listpack.Get lp i); '(lp, _) ← lift (Listpack.DeleteRange lp i 1); _ ← store l (CListpack lp); mret (Some (default [] b))) s Q) as Hlp.
  { intros l lp i x ys -> Hl Hr Hc Hi Hx -> Hp. rewrite Hp in HQ. apply wp_bind. eapply wp_lift; [by apply (Listpack.Get_repr lp xs)|].
    rewrite (proj2 (Z.ltb_ge _ _)), Hx by lia. pose proof (lookup_lt_Some _ _ _ Hx) as Hlt.
    assert (Listpack.spec_op xs (Listpack.OpDeleteRange i 1) = (take (Z.to_nat i) xs ++ drop (Z.to_nat (i + 1)) xs, true)) as Hs.
    { cbn [Listpack.spec_op]. rewrite (proj2 (Z.ltb_ge i 0)), (proj2 (Z.ltb_ge (zlen xs) (i + 1))) by (unfold zlen; lia). done. }
    assert (compact (take (Z.to_nat i) xs ++ drop (Z.to_nat (i + 1)) xs)) as Hc'.
    { destruct Hc as [Hn Hf]. split; [rewrite zlen_app; unfold zlen in *; rewrite length_take, length_drop; lia|]. apply Forall_app. split; [by apply Forall_take|by apply Forall_drop]. }
    destruct (Listpack.DeleteRange_repr lp xs i 1 Hr) as (lp' & Ed & Hr').
    { unfold Listpack.op_ok. rewrite Hs. split; [by apply compact_fit|]. destruct Hc as [Hn _]. unfold max_int64, zlen in *. lia. }
    rewrite Hs in Ed, Hr'. cbn [fst snd] in *. apply wp_bind. eapply wp_lift; [exact Ed|]. apply wp_bind.
    apply (list_store m s (mkLv key (LLp l)) xs e (CListpack lp') (take (Z.to_nat i) xs ++ drop (Z.to_nat (i + 1)) xs) _ H); [by split|]. intros s' H' Hq. apply wp_ret. by apply HQ. }
  assert (forall l lp, rep = LLp l -> Listpack.repr lp xs -> Listpack.Len lp = zlen xs) as Hlen by (intros l lp _ Hr; apply (Listpack.repr_n _ _ Hr)).
  unfold lv_Pop, lv_LPop, lv_RPop. cbn [lv_rep].
  destruct (list_at_cases _ _ _ _ _ H) as [(l & lp & Hrep & Hl & Hr & Hc)|(l & ql & ch & Hrep & Hl & Hr & Hx)]; cbn in Hrep; rewrite Hrep; destruct left; apply wp_bind.
  - eapply wp_load_lp; [done|]. rewrite (Hlen l lp Hrep Hr). destruct xs as [|x xs]; [apply wp_ret; by apply HQ; [|apply quiet_refl]|].
    rewrite (proj2 (Z.eqb_neq _ _)) by (rewrite zlen_cons; zlen_pose; lia). eapply (Hlp l lp 0 x xs); done.
  - eapply wp_load_lp; [done|]. rewrite (Hlen l lp Hrep Hr). destruct xs as [|x xs _] using rev_ind; [apply wp_ret; by apply HQ; [|apply quiet_refl]|].
    rewrite zlen_app, zlen_cons, zlen_nil. rewrite (proj2 (Z.eqb_neq _ _)) by (zlen_pose; lia). cbv zeta. replace (zlen xs + (1 + 0) - 1) with (zlen xs) by lia.
    assert (Z.to_nat (zlen xs) = length xs) as Hnat by (unfold zlen; lia). zlen_pose.
    eapply (Hlp l lp (zlen xs) x xs); [done..| | |apply popped_last].
    + rewrite Hnat. by apply list_lookup_middle.
    + rewrite Hnat, take_app_length, drop_ge; [by rewrite app_nil_r|]. rewrite length_app. cbn. unfold zlen. lia.
  - eapply wp_load_ql; [done|]. destruct (LPop_repr ql ch Hr) as (r & ql' & ch' & Ep & Hr' & Hp). apply wp_bind. eapply wp_lift; [exact Ep|].
    eapply (Hql l ql ch ql' ch' r); try done; rewrite Hx in Hp; unfold pops_first, popped in *; destruct xs; destruct Hp as [-> Hp]; subst; try done; by rewrite Hp.
  - eapply wp_load_ql; [done|]. destruct (RPop_repr ql ch Hr) as (r & ql' & ch' & Ep & Hr' & Hp). apply wp_bind. eapply wp_lift; [exact Ep|]. rewrite Hx in Hp.
    destruct Hp as [(-> & -> & Hy)|(y & -> & ->)]; [eapply (Hql l ql ch ql' ch'); done|]. eapply (Hql l ql ch ql' ch'); [done..| |done]. by rewrite popped_last.
Qed.

(** *** Opening a view *)

Lemma newListView_rule m s key o xs e (Q : bytes + listView -> St -> Prop) :
  abs_rel T m s -> m !! key = Some (RList xs, e) -> view T s key = Some (face o, e) ->
  (forall v, lv_key v = key -> list_at m s v xs e -> Q (inr v) s) -> wp (newListView key o) s Q.
Proof.
  clear Hclk. intros H Hk Hv HQ. pose proof (ar_keys _ _ _ H key) as Hkk. rewrite Hk, Hv in Hkk.
  destruct Hkk as (_ & [Ht (l & c & Hp & Hl & Hh)] & _). unfold face in *. unfold newListView. rewrite Hp in *.
  apply wp_bind. eapply load_rule; [done|]. cbn in Hh, Ht.
  destruct (o_Encoding o) eqn:Ee; try done; destruct c; try done; apply wp_ret; apply HQ; try done; split; try done; cbn; by rewrite Hv, Ht.
Qed.

(** What a lookup of a list finds. *)
Definition found_list (m : dataset) (k : bytes) (r : bytes + option listView) (s : St) : Prop :=
  match m !! k with
  | None => r = inr None /\ abs_rel T m s
  | Some (RList xs, e) => exists v, r = inr (Some v) /\ lv_key v = k /\ list_at m s v xs e
  | Some _ => r = inl wrongtype /\ abs_rel T m s
  end.

Lemma getListView_rule m s k (Q : bytes + option listView -> St -> Prop) :
  abs_rel T m s -> (forall r s', keeps m s s' -> found_list m k r s' -> Q r s') -> wp (getListView E k) s Q.
Proof using Hclk.
  intros H HQ. apply wp_bind. apply (db_Get_rule E T Hclk m); [done|]. intros r s1 H1 Hk1 _ _ Hr _. unfold found_list in HQ.
  destruct (m !! k) as [[v e]|] eqn:Em; [|rewrite (reads_none _ _ _ _ _ Hr Em); apply wp_ret; by apply HQ].
  destruct (reads_some _ _ _ _ _ _ _ Hr Em) as [o ->]. destruct (reads_type T _ _ _ _ _ _ Hr Em) as (Ht & Hv & Hno).
  destruct v as [b|xs|st|hm]; cbn [type_of] in *; [rewrite (Hno OBJ_LIST) by done; apply wp_ret; by apply HQ| |rewrite (Hno OBJ_LIST) by done; apply wp_ret; by apply HQ..].
  rewrite Ht. cbn [negb]. apply wp_bind. eapply newListView_rule; [done..|]. intros v Hv' Hat. apply wp_ret. apply HQ; [done|]. eauto.
Qed.

(** The list of [k], created when there is none. *)
Definition opened_list (m : dataset) (k : bytes) (r : bytes + listView) (s : St) : Prop :=
  match m !! k with
  | None => exists v, r = inr v /\ lv_key v = k /\ list_at (<[k := (RList [], 0)]> m) s v [] 0
  | Some (RList xs, e) => exists v, r = inr v /\ lv_key v = k /\ list_at m s v xs e
  | Some _ => r = inl wrongtype /\ abs_rel T m s
  end.

Lemma getOrCreateList_reaps_rule m s k (Q : bytes + listView -> St -> Prop) :
  abs_rel T m s -> (forall r s', reaps m k s s' -> opened_list m k r s' -> Q r s') -> wp (getOrCreateList E k) s Q.
Proof using Hclk.
  intros H HQ. apply wp_bind. apply (db_Get_view_rule E T Hclk m); [done|]. intros r s1 H1 Hk1 _ _ Hr _ _. unfold opened_list in HQ.
  destruct (m !! k) as [[v e]|] eqn:Em.
  - destruct (reads_some _ _ _ _ _ _ _ Hr Em) as [o ->]. destruct (reads_type T _ _ _ _ _ _ Hr Em) as (Ht & Hv & Hno).
    destruct v as [b|xs|st|hm]; cbn [type_of] in *; [rewrite (Hno OBJ_LIST) by done; apply wp_ret; by apply HQ| |rewrite (Hno OBJ_LIST) by done; apply wp_ret; by apply HQ..].
    rewrite Ht. cbn [negb]. eapply newListView_rule; [done..|]. intros v Hv' Hat. apply HQ; [done|]. eauto.
  - rewrite (reads_none _ _ _ _ _ Hr Em). apply wp_bind. apply (alloc_rule T m); [done|]. intros l s2 H2 Hq2 Hl Hu _ Hv2.
    apply wp_bind. apply (db_Set_rule E T Hclk m s2 k _ (RList [])); [done| |].
    { split; [|intros l0 [= <-]; done]. split; [done|]. exists l, (CListpack Listpack.New). split_and!; [done|done|]. split; [apply New_repr|apply compact_nil]. }
    intros s3 H3 Hq3 _ _ Hv3. apply wp_ret. apply HQ; [intros m' Hm'; specialize (Hk1 m' Hm'); chain|]. eexists. split_and!; [done|done|]. split; [done|by rewrite lookup_insert_eq|done].
Qed.

Lemma getOrCreateList_rule m s k (Q : bytes + listView -> St -> Prop) :
  abs_rel T m s -> (forall r s', keeps m s s' -> opened_list m k r s' -> Q r s') -> wp (getOrCreateList E k) s Q.
Proof using Hclk. intros H HQ. apply (getOrCreateList_reaps_rule m); [done|]. intros r s' Hk%reaps_keeps. by apply HQ. Qed.

End views.

(** ** Meanings *)

Definition on_list {A : Type} (m : dataset) (k : bytes) (none : A) (some : list bytes -> A) (wrong : A) : A :=
  match m !! k with
  | None => none
  | Some (RList xs, _) => some xs
  | Some _ => wrong
  end.

(** A list without elements is no key. *)
Definition put_list (m : dataset) (k : bytes) (xs : list bytes) : dataset :=
  match xs with [] => delete k m | _ => <[k := (RList xs, deadline_of m k)]> m end.

(** LPUSH puts its arguments in front one after the other, so that the last one comes first. *)
Definition pushed_all (left : bool) (xs vals : list bytes) : list bytes := if left then rev vals ++ xs else xs ++ vals.

Definition ref_PUSH (m : dataset) (left : bool) (k : bytes) (vals : list bytes) : bytes * dataset :=
  let put (xs : list bytes) := (Integer (zlen (pushed_all left xs vals)), put_list m k (pushed_all left xs vals)) in
  on_list m k (put []) put (wrongtype, m).

Definition ref_PUSHX (m : dataset) (left : bool) (k : bytes) (vals : list bytes) : bytes * dataset :=
  on_list m k (Integer 0, m) (fun xs => (Integer (zlen (pushed_all left xs vals)), put_list m k (pushed_all left xs vals))) (wrongtype, m).

Definition ref_POP (m : dataset) (left : bool) (k : bytes) : bytes * dataset :=
  on_list m k (NullBulkString, m)
    (fun xs => match popped left xs with Some (x, ys) => (BulkString x, put_list m k ys) | None => (NullBulkString, m) end) (wrongtype, m).

Definition ref_LRANGE (m : dataset) (k : bytes) (i j : Z) : bytes * dataset :=
  (on_list m k (Array []) (fun xs => Array (BulkString <$> list_range xs i j)) wrongtype, m).

Definition ref_LLEN (m : dataset) (k : bytes) : bytes * dataset :=
  (on_list m k (Integer 0) (fun xs => Integer (zlen xs)) wrongtype, m).

Definition ref_LINDEX (m : dataset) (k : bytes) (i : Z) : bytes * dataset :=
  (on_list m k NullBulkString (fun xs => match go_at xs (norm xs i) with Some x => BulkString x | None => NullBulkString end) wrongtype, m).

Definition ref_LSET (m : dataset) (k : bytes) (i : Z) (val : bytes) : bytes * dataset :=
  on_list m k (no_such_key, m)
    (fun xs => match list_set xs i val with (true, ys) => (OK, put_list m k ys) | (false, _) => (Error (str "index out of range"), m) end) (wrongtype, m).

Definition ref_LINSERT (m : dataset) (k : bytes) (after : bool) (pivot val : bytes) : bytes * dataset :=
  on_list m k (Integer 0, m)
    (fun xs => match index_of pivot xs with
       | None => (Integer (-1), m)
       | Some i =>
         let i := if after then S i else i in
         let ys := take i xs ++ val :: drop i xs in (Integer (zlen ys), put_list m k ys)
       end) (wrongtype, m).

Definition ref_LTRIM (m : dataset) (k : bytes) (i j : Z) : bytes * dataset :=
  on_list m k (OK, m) (fun xs => (OK, put_list m k (list_range xs i j))) (wrongtype, m).

(** At most [n] elements equal to [x] are taken out, from the front; all of them for [None]. *)
Fixpoint take_out (n : option nat) (x : bytes) (xs : list bytes) : list bytes :=
  match xs with
  | [] => []
  | y :: xs =>
    match n with
    | Some O => y :: xs
    | _ => if bool_decide (y = x) then take_out (pred <$> n) x xs else y :: take_out n x xs
    end
  end.

Definition ref_LREM (m : dataset) (k : bytes) (count : Z) (x : bytes) : bytes * dataset :=
  on_list m k (Integer 0, m)
    (fun xs =>
       let n := if count =? 0 then None else Some (Z.to_nat (Z.abs count)) in
       let ys := if count <? 0 then rev (take_out n x (rev xs)) else take_out n x xs in
       (Integer (zlen xs - zlen ys), if zlen ys =? zlen xs then m else put_list m k ys)) (wrongtype, m).

(** LPOS: the places of [x], in the direction of the rank and among the first [maxlen] elements looked at; the first
    [|rank| - 1] of them are passed over. *)
Definition places (x : bytes) (rank maxlen : Z) (xs : list bytes) : list Z :=
  let walk := if 0 <? rank then positions xs else rev (positions xs) in
  let walk := if 0 <? maxlen then take (Z.to_nat maxlen) walk else walk in
  drop (Z.to_nat (Z.abs rank - 1)) (fst <$> filter (fun p => p.2 = x) walk).

Definition ref_LPOS (m : dataset) (k x : bytes) (rank : Z) (count : option Z) (maxlen : Z) : bytes * dataset :=
  (on_list m k (match count with Some _ => Array [] | None => NullBulkString end)
     (fun xs => match count with
        | None => match places x rank maxlen xs with [] => NullBulkString | i :: _ => Integer i end
        | Some n => Array (Integer <$> (if n =? 0 then places x rank maxlen xs else take (Z.to_nat n) (places x rank maxlen xs)))
        end) wrongtype, m).

(** LMOVE takes from one list and gives to the other; a list is created with no deadline, also when it is the source that
    has just been emptied. *)
Definition ref_LMOVE (m : dataset) (src dst : bytes) (from to : bool) : bytes * dataset :=
  on_list m src (NullBulkString, m)
    (fun xs =>
       if on_list m dst true (fun _ => true) false
       then match popped from xs with
            | Some (x, ys) => (BulkString x, (ref_PUSH (put_list m src ys) to dst [x]).2)
            | None => (NullBulkString, m)
            end
       else (wrongtype, m)) (wrongtype, m).

(** ** The handlers *)

Ltac list_cases m k :=
  let r := fresh "r" in let s1 := fresh "s1" in let Hr := fresh "Hr" in
  intros r s1 ? Hr; unfold found_list in Hr; unfold on_list;
  destruct (m !! k) as [[[?b|?xs|?x|?x] ?e]|] eqn:?Em;
  [destruct Hr as [-> ?]; try (by replied)|destruct Hr as (?v & -> & ?Hkey & ?Hat)|destruct Hr as [-> ?]; try (by replied)..|destruct Hr as [-> ?]].

Lemma put_list_cons (m : dataset) (k : bytes) (xs : list bytes) : xs <> [] -> put_list m k xs = <[k := (RList xs, deadline_of m k)]> m.
Proof. by destruct xs. Qed.

Lemma put_list_same (m : dataset) (k : bytes) (xs : list bytes) e : m !! k = Some (RList xs, e) -> xs <> [] -> put_list m k xs = m.
Proof. intros Hk Hne. rewrite put_list_cons by done. unfold deadline_of. rewrite Hk. by apply insert_id. Qed.

Section commands.
Variables (E : env) (T : Z).
Hypothesis Hclk : instant E T.

Local Notation does := (does T).
Local Notation list_at := (list_at T).

Lemma push_each_rule left vals : forall m s v xs e (Q : listView -> St -> Prop),
  list_at m s v xs e ->
  (forall v' s', list_at (<[lv_key v := (RList (pushed_all left xs vals), e)]> m) s' v' (pushed_all left xs vals) e -> lv_key v' = lv_key v -> quiet s s' -> Q v' s') ->
  wp (push_each E left v vals) s Q.
Proof using Hclk.
  induction vals as [|val vals IH]; intros m s v xs e Q H HQ; cbn [push_each].
  { apply wp_ret. assert (pushed_all left xs [] = xs) as Hnil by (destruct left; [done|apply app_nil_r]). rewrite Hnil in HQ.
    apply HQ; [by rewrite insert_id by apply H|done|apply quiet_refl]. }
  apply wp_bind. eapply lv_Push_rule; [done|exact H|]. intros v1 s1 H1 Hk1 Hq1. eapply IH; [exact H1|]. intros v2 s2 H2 Hk2 Hq2.
  assert (pushed_all left (pushed left xs val) vals = pushed_all left xs (val :: vals)) as Hp.
  { destruct left; cbn [pushed pushed_all rev]; by rewrite <- app_assoc. }
  rewrite Hp, Hk1, insert_insert_eq in H2. apply HQ; [exact H2|congruence|chain].
Qed.

Lemma pushed_all_cons left xs vals : vals <> [] -> pushed_all left xs vals <> [].
Proof. clear Hclk. destruct vals as [|v vals]; [done|]. intros _. destruct left; cbn [pushed_all rev]; intros Hn; apply (f_equal length) in Hn; rewrite !length_app in Hn; cbn in Hn; lia. Qed.

Lemma pushGeneric_ok m s left n k vals : vals <> [] -> abs_rel T m s -> does (pushGeneric E left (n :: k :: vals)) m s (ref_PUSH m left k vals).
Proof using Hclk.
  intros Hv H. apply (wp_arg _ _ k); [done|]. apply wp_bind. apply (getOrCreateList_rule E T Hclk m); [done|]. intros r s1 Hk1 Hr.
  unfold opened_list in Hr. unfold ref_PUSH, on_list. change (drop 2 (n :: k :: vals)) with vals. cbv zeta.
  assert (forall xs, put_list m k (pushed_all left xs vals) = <[k := (RList (pushed_all left xs vals), deadline_of m k)]> m) as Hput by (intros; by apply put_list_cons, pushed_all_cons).
  destruct (m !! k) as [[[b|xs|x|x] e]|] eqn:Em; [destruct Hr as [-> ?]; by replied| |destruct Hr as [-> ?]; by replied..|];
    rewrite Hput; unfold deadline_of; rewrite Em; destruct Hr as (v & -> & <- & Hat); apply wp_bind; (eapply push_each_rule; [exact Hat|]); intros v' s2 H2 _ Hq2;
    apply wp_bind; (eapply lv_Len_rule; [exact H2|]); destruct H2 as [H2 _ _]; [|rewrite insert_insert_eq in H2]; replied.
Qed.

Lemma pushxGeneric_ok m s left n k vals : vals <> [] -> abs_rel T m s -> does (pushxGeneric E left (n :: k :: vals)) m s (ref_PUSHX m left k vals).
Proof using Hclk.
  intros Hv H. apply (wp_arg _ _ k); [done|]. apply wp_bind. apply (getListView_rule E T Hclk m); [done|]. unfold ref_PUSHX.
  list_cases m k; [|by replied]. change (drop 2 (n :: k :: vals)) with vals. rewrite put_list_cons by by apply pushed_all_cons. unfold deadline_of. rewrite Em. subst k.
  apply wp_bind. eapply push_each_rule; [exact Hat|]. intros v' s2 H2 _ Hq2. apply wp_bind. eapply lv_Len_rule; [exact H2|]. destruct H2 as [H2 _ _]. replied.
Qed.

(** What is left of a list after a pop, and its key when nothing is left. *)
Lemma drop_if_done {B : Type} (m0 m : dataset) s v xs e s0 (k : Z -> M B) (Q : B -> St -> Prop) :
  list_at m s v xs e -> keeps m0 s0 s ->
  (forall s', abs_rel T (if bool_decide (xs = []) then delete (lv_key v) m else m) s' -> keeps m0 s0 s' ->
     (xs = [] -> expires (getShard (s_db s') (lv_key v)) !! lv_key v = None) -> wp (k (zlen xs)) s' Q) ->
  wp (n ← lv_Len v; _ ← (if n =? 0 then db_Del E (lv_key v) else mret false); k n) s Q.
Proof using Hclk.
  intros H Hk HQ. apply wp_bind. eapply lv_Len_rule; [done|]. destruct H as [H _ _]. revert HQ. case_bool_decide as Hx; intros HQ.
  - subst xs. cbn [Z.eqb]. apply wp_bind. apply (db_Del_gone_rule E T Hclk _ _ _ _ H). intros s3 H3 Hq3 _ _ Hg. apply HQ; [done|chain|done].
  - rewrite (proj2 (Z.eqb_neq _ _)); [|destruct xs; [done|rewrite zlen_cons; zlen_pose; lia]]. apply wp_bind, wp_ret. by apply HQ.
Qed.

Lemma put_list_eq (m : dataset) (k : bytes) (xs ys : list bytes) (e : Z) :
  m !! k = Some (RList xs, e) -> (if bool_decide (ys = []) then delete k (<[k := (RList ys, e)]> m) else <[k := (RList ys, e)]> m) = put_list m k ys.
Proof. clear Hclk. intros Hk. unfold put_list, deadline_of. rewrite Hk. destruct ys; cbn; [by rewrite delete_insert_eq|done]. Qed.

Lemma popGeneric_ok m s left n k : abs_rel T m s -> does (popGeneric E left [n; k]) m s (ref_POP m left k).
Proof using Hclk.
  intros H. apply (wp_arg _ _ k); [done|]. apply wp_bind. apply (getListView_rule E T Hclk m); [done|]. unfold ref_POP.
  list_cases m k; [|by replied]. subst k. apply wp_bind. eapply lv_Pop_rule; [exact Hat|]. intros s2 H2 Hq2.
  destruct (popped left xs) as [[x ys]|] eqn:Ep; cbn [fmap option_fmap option_map fst]; [|destruct H2 as [H2 _ _]; by replied].
  eapply (drop_if_done m); [exact H2|chain|]. intros s3 H3 Hk3 _. rewrite (put_list_eq _ _ xs) in H3 by done. replied.
Qed.

Lemma llenCommand_ok m s n k : abs_rel T m s -> does (llenCommand E [n; k]) m s (ref_LLEN m k).
Proof using Hclk.
  intros H. apply (wp_arg _ _ k); [done|]. apply wp_bind. apply (getListView_rule E T Hclk m); [done|]. unfold ref_LLEN.
  list_cases m k; [|by replied]. apply wp_bind. eapply lv_Len_rule; [done|]. destruct Hat. replied.
Qed.

Lemma lrangeCommand_ok m s n k i j : is_int64 i -> is_int64 j -> abs_rel T m s -> does (lrangeCommand E [n; k; FormatInt i; FormatInt j]) m s (ref_LRANGE m k i j).
Proof using Hclk.
  intros Hi Hj H. do 3 (eapply wp_arg; [done|]). rewrite !ParseInt_FormatInt by done. apply wp_bind. apply (getListView_rule E T Hclk m); [done|]. unfold ref_LRANGE.
  list_cases m k; [|by replied]. apply wp_bind. eapply lv_LRange_rule; [done|]. destruct Hat. replied.
Qed.

Lemma lindexCommand_ok m s n k i : is_int64 i -> abs_rel T m s -> does (lindexCommand E [n; k; FormatInt i]) m s (ref_LINDEX m k i).
Proof using Hclk.
  intros Hi H. do 2 (eapply wp_arg; [done|]). rewrite ParseInt_FormatInt by done. apply wp_bind. apply (getListView_rule E T Hclk m); [done|]. unfold ref_LINDEX.
  list_cases m k; [|by replied]. apply wp_bind. eapply lv_LIndex_rule; [done|]. destruct Hat. replied.
Qed.

Lemma list_set_true xs i val ys : list_set xs i val = (true, ys) -> ys <> [].
Proof.
  clear Hclk. unfold list_set, go_set. destruct (_ && _) eqn:Hin; [|done]. intros [= <-] Hn. apply (f_equal length) in Hn. rewrite length_insert in Hn.
  destruct xs; [|done]. apply andb_true_iff in Hin as [H1 H2]. apply Z.leb_le in H1. apply Z.ltb_lt in H2. change (zlen []) with 0 in H2. lia.
Qed.

Lemma lsetCommand_ok m s n k i val : is_int64 i -> abs_rel T m s -> does (lsetCommand E [n; k; FormatInt i; val]) m s (ref_LSET m k i val).
Proof using Hclk.
  intros Hi H. do 2 (eapply wp_arg; [done|]). rewrite ParseInt_FormatInt by done. apply wp_bind. apply (getListView_rule E T Hclk m); [done|]. unfold ref_LSET.
  list_cases m k; [|by replied]. subst k. eapply wp_arg; [done|]. apply wp_bind. eapply lv_LSet_rule; [done|exact Hat|]. intros s2 H2 Hq2.
  destruct (list_set xs i val) as [[] ys] eqn:El; cbn [fst snd] in *.
  - rewrite put_list_cons by by eapply list_set_true. unfold deadline_of. rewrite Em. replied.
  - assert (ys = xs) as -> by (unfold list_set in El; destruct (go_set _ _ _); congruence). rewrite insert_id in H2 by done. replied.
Qed.

(** *** Commands that write the list back as a whole *)

Lemma storeList_rule m m0 s s0 k xs e ys (Q : unit -> St -> Prop) :
  abs_rel T m s -> m !! k = Some (RList xs, e) -> keeps m0 s0 s ->
  (forall s', abs_rel T (put_list m k ys) s' -> keeps m0 s0 s' -> Q tt s') -> wp (storeList E k ys) s Q.
Proof using Hclk.
  intros H Hk Hkeep HQ. unfold storeList. case_bool_decide as Hy.
  - subst ys. apply wp_bind. apply (db_Del_gone_rule E T Hclk _ _ _ _ H). intros s1 H1 Hq1 _ _ _. apply wp_ret. apply HQ; [done|chain].
  - apply wp_bind. apply (getOrCreateList_reaps_rule E T Hclk m); [done|]. intros r s1 Hk1 Hr. unfold opened_list in Hr. rewrite Hk in Hr.
    assert (keeps m0 s s1) as Hk1' by (apply Hk1; congruence).
    destruct Hr as (v & -> & <- & Hat). apply wp_bind. eapply replaceAll_rule; [done|exact Hat|]. intros v' s2 H2 Hq2. apply wp_ret. apply HQ; [|chain].
    rewrite put_list_cons by done. unfold deadline_of. by rewrite Hk.
Qed.

Lemma linsertCommand_ok m s n k w (after : bool) pivot val :
  ToUpper w = (if after then str "AFTER" else str "BEFORE") -> abs_rel T m s -> does (linsertCommand E [n; k; w; pivot; val]) m s (ref_LINSERT m k after pivot val).
Proof using Hclk.
  intros Hw H. do 2 (eapply wp_arg; [done|]). cbv zeta. rewrite Hw.
  assert (negb (bool_decide ((if after then str "AFTER" else str "BEFORE") = str "BEFORE")) && negb (bool_decide ((if after then str "AFTER" else str "BEFORE") = str "AFTER")) = false) as ->
    by (by destruct after).
  assert (bool_decide ((if after then str "AFTER" else str "BEFORE") = str "AFTER") = after) as -> by (by destruct after).
  do 2 (eapply wp_arg; [done|]). apply wp_bind. apply (getListView_rule E T Hclk m); [done|]. unfold ref_LINSERT.
  list_cases m k; [|by replied]. subst k. apply wp_bind. eapply lv_All_rule; [exact Hat|]. destruct (index_of pivot xs) as [i|]; [|destruct Hat; by replied].
  apply wp_bind. eapply (storeList_rule m m s1 s); [apply Hat|exact Em|chain|]. intros s2 H2 Hk2. replied.
Qed.

(** The bounds of LTRIM after normalisation. *)
Lemma list_range_clamped xs i j :
  let n := zlen xs in
  let a := if i <? 0 then i + n else i in
  let b := if j <? 0 then j + n else j in
  let a := if a <? 0 then 0 else a in
  let b := if n <=? b then n - 1 else b in
  if (b <? a) || (n <=? a) then list_range xs i j = [] else list_range xs a b = list_range xs i j.
Proof.
  clear Hclk. cbv zeta. unfold list_range, norm. rewrite !(Z.add_comm _ (zlen xs)). set (a := if i <? 0 then _ else _). set (b := if j <? 0 then _ else _).
  replace (if a <? 0 then 0 else a) with (Z.max 0 a) by (destruct (Z.ltb_spec a 0); lia).
  replace (if zlen xs <=? b then zlen xs - 1 else b) with (Z.min (zlen xs - 1) b) by (destruct (Z.leb_spec (zlen xs) b); lia).
  set (a' := Z.max 0 a). set (b' := Z.min (zlen xs - 1) b).
  destruct (Z.ltb_spec b' a') as [Hx|Hx]; cbn [orb]; [by replace (Z.to_nat (b' - a' + 1)) with 0%nat by lia|].
  destruct (Z.leb_spec (zlen xs) a') as [Hy|Hy]; [subst b'; lia|].
  rewrite (proj2 (Z.ltb_ge a' 0)), (proj2 (Z.ltb_ge b' 0)) by (subst a' b'; lia).
  replace (Z.max 0 a') with a' by lia. by replace (Z.min (zlen xs - 1) b') with b' by lia.
Qed.

Lemma ltrimCommand_ok m s n k i j : is_int64 i -> is_int64 j -> abs_rel T m s -> does (ltrimCommand E [n; k; FormatInt i; FormatInt j]) m s (ref_LTRIM m k i j).
Proof using Hclk.
  intros Hi Hj H. do 3 (eapply wp_arg; [done|]). rewrite !ParseInt_FormatInt by done. apply wp_bind. apply (getListView_rule E T Hclk m); [done|]. unfold ref_LTRIM.
  list_cases m k; [|by replied]. apply wp_bind. eapply lv_Len_rule; [done|]. cbv zeta. pose proof (list_range_clamped xs i j) as Hc. cbv zeta in Hc.
  destruct (_ || _).
  - rewrite Hc. apply wp_bind. destruct Hat as [Hat _ _]. apply (db_Del_gone_rule E T Hclk _ _ _ _ Hat). intros s2 H2 Hq2 _ _ _. replied.
  - apply wp_bind. eapply lv_LRange_rule; [exact Hat|]. rewrite Hc. apply wp_bind. eapply (storeList_rule m m s1 s); [apply Hat|exact Em|chain|]. intros s2 H2 Hk2. replied.
Qed.

Lemma unmarked_none (items : list bytes) : unmarked items ((fun _ => false) <$> items) = items.
Proof. clear Hclk. induction items as [|x items IH]; [done|]. cbn. by rewrite IH. Qed.

Lemma lrem_mark_spec limit target items : 0 <= limit -> forall removed, 0 <= removed -> (limit = 0 \/ removed <= limit) ->
  let x := lrem_mark limit target items removed in
  let ys := take_out (if limit =? 0 then None else Some (Z.to_nat (limit - removed))) target items in
  unmarked items x.1 = ys /\ x.2 = removed + (zlen items - zlen ys) /\ length x.1 = length items.
Proof.
  clear Hclk. intros Hl. induction items as [|it items IH]; intros removed Hr Hle; cbn [lrem_mark take_out]; [cbv zeta; cbn; rewrite zlen_nil; split_and!; [done|lia|done]|].
  destruct (Z.eqb_spec limit 0) as [Hz|Hz]; cbn [orb].
  - destruct (bool_decide (it = target)); cbv zeta in *; cbn [fst snd unmarked fmap option_fmap option_map]; rewrite ?zlen_cons.
    + destruct (IH (removed + 1) ltac:(lia) ltac:(by left)) as (-> & -> & Hlen). cbn [length]. split_and!; [done|lia|by rewrite Hlen].
    + destruct (IH removed Hr ltac:(by left)) as (-> & -> & Hlen). cbn [length]. split_and!; [done|lia|by rewrite Hlen].
  - destruct Hle as [|Hle]; [done|]. destruct (Z.ltb_spec removed limit) as [Hlt|Hge]; cbv zeta in *.
    + destruct (Z.to_nat (limit - removed)) as [|r] eqn:Er; [lia|].
      destruct (bool_decide (it = target)); cbn [fst snd unmarked fmap option_fmap option_map]; rewrite ?zlen_cons.
      * destruct (IH (removed + 1) ltac:(lia) ltac:(right; lia)) as (E1 & E2 & Hlen). replace (Z.to_nat (limit - (removed + 1))) with r in * by lia.
        cbn [Nat.pred]. rewrite E1, E2. cbn [length]. split_and!; [done|lia|by rewrite Hlen].
      * destruct (IH removed Hr ltac:(right; lia)) as (E1 & E2 & Hlen). rewrite Er in *. rewrite E1, E2. cbn [length]. split_and!; [done|lia|by rewrite Hlen].
    + replace (Z.to_nat (limit - removed)) with 0%nat by lia. cbn [fst snd]. rewrite unmarked_none. split_and!; [done|lia|by rewrite length_fmap].
Qed.

Lemma unmarked_app a b ra rb : length ra = length a -> unmarked (a ++ b) (ra ++ rb) = unmarked a ra ++ unmarked b rb.
Proof. clear Hclk. revert ra. induction a as [|x a IH]; intros [|r ra] Hlen; try done. cbn in *. rewrite IH by lia. by destruct r. Qed.

Lemma unmarked_rev a ra : length ra = length a -> unmarked (rev a) (rev ra) = rev (unmarked a ra).
Proof.
  clear Hclk. revert ra. induction a as [|x a IH]; intros [|r ra] Hlen; try done. cbn in *. rewrite unmarked_app by (rewrite !length_rev; lia). rewrite IH by lia.
  destruct r; cbn; [by rewrite app_nil_r|done].
Qed.

Lemma take_out_length n x xs : zlen (take_out n x xs) <= zlen xs.
Proof.
  clear Hclk. revert n. induction xs as [|y xs IH]; intros n; [done|]. cbn [take_out]. pose proof (IH n). pose proof (IH (pred <$> n)).
  destruct n as [[]|]; try done; destruct (bool_decide _); rewrite ?zlen_cons; lia.
Qed.

Lemma lremCommand_ok m s n k count x :
  is_int64 count -> min_int64 < count -> abs_rel T m s -> does (lremCommand E [n; k; FormatInt count; x]) m s (ref_LREM m k count x).
Proof using Hclk.
  intros Hi Hmin H. do 2 (eapply wp_arg; [done|]). rewrite ParseInt_FormatInt by done. eapply wp_arg; [done|]. apply wp_bind. apply (getListView_rule E T Hclk m); [done|]. unfold ref_LREM.
  list_cases m k; [|by replied]. apply wp_bind. eapply lv_All_rule; [exact Hat|]. cbv zeta.
  set (ys := if count <? 0 then rev (take_out _ x (rev xs)) else take_out _ x xs).
  assert (exists remove, (if count <? 0 then (rev (lrem_mark (s64 (- count)) x (rev xs) 0).1, (lrem_mark (s64 (- count)) x (rev xs) 0).2) else lrem_mark count x xs 0)
    = (remove, zlen xs - zlen ys) /\ unmarked xs remove = ys) as (remove & -> & Hun).
  { unfold is_int64, min_int64, max_int64 in *. subst ys. destruct (Z.ltb_spec count 0) as [Hneg|Hpos].
    - rewrite s64_id by (unfold is_int64, min_int64, max_int64; lia). destruct (lrem_mark_spec (- count) x (rev xs) ltac:(lia) 0 ltac:(lia) ltac:(right; lia)) as (E1 & E2 & E3).
      rewrite (proj2 (Z.eqb_neq (- count) 0)) in * by lia. rewrite (proj2 (Z.eqb_neq count 0)) by lia. replace (- count - 0) with (Z.abs count) in * by lia.
      eexists. split; [rewrite E2; f_equal; rewrite Z.add_0_l; unfold zlen; rewrite !length_rev; done|]. rewrite <- (rev_involutive xs) at 1. rewrite unmarked_rev by done. by rewrite E1.
    - destruct (lrem_mark_spec count x xs ltac:(lia) 0 ltac:(lia)) as (E1 & E2 & E3); [lia|]. replace (count - 0) with (Z.abs count) in * by lia.
      exists (lrem_mark count x xs 0).1. split; [|exact E1]. destruct (lrem_mark count x xs 0) as [r c]. cbn [fst snd] in *. f_equal. lia. }
  destruct (Z.eqb_spec (zlen xs - zlen ys) 0) as [Hz|Hz].
  - destruct Hat. rewrite (proj2 (Z.eqb_eq (zlen ys) (zlen xs))), Hz by lia. replied.
  - rewrite (proj2 (Z.eqb_neq (zlen ys) (zlen xs))) by lia. apply wp_bind. rewrite Hun. eapply (storeList_rule m m s1 s); [apply Hat|exact Em|chain|]. intros s2 H2 Hk2. replied.
Qed.

(** *** LPOS *)

Definition hits (x : bytes) (walk : list (Z * bytes)) : list Z := fst <$> filter (fun p => p.2 = x) walk.

Lemma hits_cons x i it walk : hits x ((i, it) :: walk) = if bool_decide (it = x) then i :: hits x walk else hits x walk.
Proof. clear Hclk. unfold hits. rewrite filter_cons. cbn [snd]. case_decide; case_bool_decide; done. Qed.

(** The places that count once [skip - 1] of them are passed over. *)
Definition pick (count skip : Z) (found H : list Z) : list Z :=
  let all := found ++ drop (Z.to_nat (skip - 1)) H in if count <=? 0 then all else take (Z.to_nat count) all.

Lemma pick_done count skip found : (count <= 0 \/ zlen found < count) -> pick count skip found [] = found.
Proof.
  clear Hclk. intros Hf. unfold pick. rewrite drop_nil, app_nil_r. destruct (Z.leb_spec count 0); [done|]. apply take_ge. unfold zlen in *. lia.
Qed.

Lemma pick_step count (f : Z -> list Z -> list Z) (hit : bool) i H skip found :
  min_int64 < skip <= max_int64 -> (count <= 0 \/ zlen found < count) ->
  (forall skip' found', skip - 1 <= skip' <= skip -> (count <= 0 \/ zlen found' < count) -> f skip' found' = pick count skip' found' H) ->
  (if negb hit then f skip found
   else if 0 <? s64 (skip - 1) then f (s64 (skip - 1)) found
   else if (0 <=? count) && negb (count =? 0) && (count <=? zlen (found ++ [i])) then found ++ [i] else f (s64 (skip - 1)) (found ++ [i]))
  = pick count skip found (if hit then i :: H else H).
Proof.
  clear Hclk. intros Hs Hf Hrec. destruct hit; cbn [negb]; [|apply Hrec; [lia|done]].
  rewrite s64_id by (unfold is_int64; lia). destruct (Z.ltb_spec 0 (skip - 1)) as [Hp|Hp].
  - rewrite Hrec by (done || lia). unfold pick. replace (Z.to_nat (skip - 1)) with (S (Z.to_nat (skip - 1 - 1))) by lia. done.
  - assert (forall g, pick count skip found (i :: g) = pick count (skip - 1) (found ++ [i]) g) as Hg.
    { intros g. unfold pick. replace (Z.to_nat (skip - 1)) with 0%nat by lia. replace (Z.to_nat (skip - 1 - 1)) with 0%nat by lia. rewrite !drop_0. by rewrite <- app_assoc. }
    rewrite Hg, zlen_app, zlen_cons, zlen_nil. zlen_pose. destruct ((0 <=? count) && negb (count =? 0) && (count <=? zlen found + (1 + 0))) eqn:Hstop.
    + unfold pick. rewrite (proj2 (Z.leb_gt count 0)) by lia. rewrite take_app_le by (rewrite length_app; cbn; unfold zlen in *; lia).
      symmetry. apply take_ge. rewrite length_app. cbn. unfold zlen in *. lia.
    + apply Hrec; [lia|]. rewrite zlen_app, zlen_cons, zlen_nil. lia.
Qed.

Lemma lpos_loop_spec o x walk : forall seen skip found,
  0 <= seen -> min_int64 + zlen walk <= skip <= max_int64 -> (lpos_count o <= 0 \/ zlen found < lpos_count o) ->
  lpos_loop o x walk seen skip found =
    pick (lpos_count o) skip found (hits x (if 0 <? lpos_maxlen o then take (Z.to_nat (lpos_maxlen o - seen)) walk else walk)).
Proof.
  clear Hclk. induction walk as [|[i it] walk IH]; intros seen skip found Hseen Hskip Hf; cbn [lpos_loop]; cbv zeta in *.
  { rewrite take_nil. replace (if 0 <? lpos_maxlen o then [] else []) with (@nil (Z * bytes)) by by destruct (0 <? lpos_maxlen o).
    symmetry. by apply pick_done. }
  rewrite zlen_cons in Hskip. zlen_pose. destruct (Z.ltb_spec 0 (lpos_maxlen o)) as [Hm|Hm]; cbn [andb].
  - destruct (Z.leb_spec (lpos_maxlen o) seen) as [Hend|Hgo].
    { replace (Z.to_nat (lpos_maxlen o - seen)) with 0%nat by lia. symmetry. by apply pick_done. }
    replace (Z.to_nat (lpos_maxlen o - seen)) with (S (Z.to_nat (lpos_maxlen o - (seen + 1)))) by lia. cbn [take]. rewrite hits_cons.
    apply (pick_step (lpos_count o) (fun skip found => lpos_loop o x walk (seen + 1) skip found)); [lia|done|]. intros skip' found' Hs' Hf'. apply IH; [lia|lia|done].
  - rewrite hits_cons. apply (pick_step (lpos_count o) (fun skip found => lpos_loop o x walk (seen + 1) skip found)); [lia|done|].
    intros skip' found' Hs' Hf'. apply IH; [lia|lia|done].
Qed.

(** How a client writes the options. *)
Definition lpos_args (rank : Z) (count : option Z) (maxlen : Z) : list bytes :=
  [str "RANK"; FormatInt rank; str "MAXLEN"; FormatInt maxlen] ++ match count with Some n => [str "COUNT"; FormatInt n] | None => [] end.

Lemma lpos_options_args rank count maxlen :
  is_int64 rank -> rank <> 0 -> 0 <= maxlen <= max_int64 -> (forall n, count = Some n -> 0 <= n <= max_int64) ->
  lpos_options (mkLpos 1 (-1) 0) (lpos_args rank count maxlen) = inr (mkLpos rank (default (-1) count) maxlen).
Proof.
  clear Hclk. intros Hr Hr0 Hm Hc. unfold lpos_args. cbn [app lpos_options]. rewrite !ParseInt_FormatInt by (done || (unfold is_int64, min_int64; lia)). keyword.
  rewrite (proj2 (Z.eqb_neq rank 0)), (proj2 (Z.ltb_ge maxlen 0)) by lia. cbn [lpos_rank lpos_count lpos_maxlen].
  destruct count as [c|]; [|done]. specialize (Hc c eq_refl). cbn [lpos_options]. rewrite ParseInt_FormatInt by (unfold is_int64, min_int64; lia). keyword.
  rewrite (proj2 (Z.ltb_ge c 0)) by lia. done.
Qed.

Lemma positions_length xs : zlen (positions xs) = zlen xs.
Proof. clear Hclk. unfold zlen, positions. by rewrite length_imap. Qed.

(** LPOS, on a list that fits into memory. *)
Lemma lposCommand_ok m s n k x rank count maxlen :
  is_int64 rank -> rank <> 0 -> min_int64 < rank -> 0 <= maxlen <= max_int64 -> (forall n, count = Some n -> 0 <= n <= max_int64) ->
  (forall xs e, m !! k = Some (RList xs, e) -> zlen xs < max_int64) ->
  abs_rel T m s -> does (lposCommand E (n :: k :: x :: lpos_args rank count maxlen)) m s (ref_LPOS m k x rank count maxlen).
Proof using Hclk.
  intros Hr Hr0 Hmin Hm Hc Hfit H. do 2 (eapply wp_arg; [done|]). 
  change (drop 3 (n :: k :: x :: lpos_args rank count maxlen)) with (lpos_args rank count maxlen). rewrite lpos_options_args by done.
  apply wp_bind. apply (getListView_rule E T Hclk m); [done|]. unfold ref_LPOS. cbn [lpos_count lpos_rank].
  assert ((0 <=? default (-1) count) = bool_decide (is_Some count)) as ->.
  { destruct count as [c|]; [|done]. specialize (Hc c eq_refl). rewrite bool_decide_true by done. apply Z.leb_le. cbn. lia. }
  list_cases m k; [|destruct count; by replied]. specialize (Hfit xs e eq_refl). apply wp_bind. eapply lv_All_rule; [exact Hat|]. cbv zeta.
  set (walk := if 0 <? rank then positions xs else rev (positions xs)).
  assert ((if 0 <? rank then lpos_loop (mkLpos rank (default (-1) count) maxlen) x (positions xs) 0 rank []
           else lpos_loop (mkLpos rank (default (-1) count) maxlen) x (rev (positions xs)) 0 (if rank <? 0 then s64 (- rank) else rank) [])
    = lpos_loop (mkLpos rank (default (-1) count) maxlen) x walk 0 (Z.abs rank) []) as ->.
  { subst walk. destruct (Z.ltb_spec 0 rank); [by rewrite Z.abs_eq by lia|]. rewrite (proj2 (Z.ltb_lt rank 0)) by lia.
    unfold is_int64, min_int64 in *. rewrite s64_id by (unfold is_int64, min_int64, max_int64; lia). by rewrite Z.abs_neq by lia. }
  assert (zlen walk = zlen xs) as Hw.
  { subst walk. destruct (0 <? rank); [apply positions_length|]. rewrite <- positions_length. unfold zlen. by rewrite length_rev. }
  rewrite lpos_loop_spec; [|lia| |]; cycle 1.
  { rewrite Hw. unfold is_int64, min_int64, max_int64 in *. lia. }
  { cbn [lpos_count]. change (zlen (@nil Z)) with 0. lia. }
  cbn [lpos_count lpos_maxlen]. rewrite Z.sub_0_r. unfold pick. cbv zeta. cbn [app].
  change (drop (Z.to_nat (Z.abs rank - 1)) (hits x (if 0 <? maxlen then take (Z.to_nat maxlen) walk else walk))) with (places x rank maxlen xs).
  destruct Hat as [Hat _ _]. destruct count as [c|]; cbn [default is_Some].
  - rewrite bool_decide_true by done. specialize (Hc c eq_refl). change (id c) with c. replace (c <=? 0) with (c =? 0) by (destruct (Z.eqb_spec c 0), (Z.leb_spec c 0); lia). replied.
  - rewrite bool_decide_false by (by intros []). replied.
Qed.

(** *** LMOVE *)

(** What a read of [dst] says about its type. *)
Lemma reads_list m s k r :
  reads T m s k r -> match r with Some o => negb (is_type o OBJ_LIST) | None => false end = negb (on_list m k true (fun _ => true) false).
Proof.
  clear Hclk. intros Hr. unfold on_list. destruct (m !! k) as [[v e]|] eqn:Em.
  - destruct (reads_some _ _ _ _ _ _ _ Hr Em) as [o ->]. destruct (reads_type T _ _ _ _ _ _ Hr Em) as (Ht & _ & Hno).
    destruct v; cbn [type_of] in *; [by rewrite (Hno OBJ_LIST)|by rewrite Ht|by rewrite (Hno OBJ_LIST)..].
  - by rewrite (reads_none _ _ _ _ _ Hr Em).
Qed.

Lemma put_list_lookup (m : dataset) (k j : bytes) (xs : list bytes) : j <> k -> put_list m k xs !! j = m !! j.
Proof. clear Hclk. intros Hj. destruct xs; cbn [put_list]; [by apply lookup_delete_ne|by apply lookup_insert_ne]. Qed.

(** The last step: [x] goes to [dst], which has no other type. *)
Lemma lmove_push m m0 s s0 dst to x :
  abs_rel T m s -> on_list m dst true (fun _ => true) false = true -> keeps m0 s0 s ->
  (m !! dst = None -> expires (getShard (s_db s) dst) !! dst <> None -> m0 !! dst = None) ->
  wp (r ← getOrCreateList E dst; match r with inl err => mret err | inr w => _ ← lv_Push E to w x; mret (BulkString x) end) s
    (fun r s' => r = BulkString x /\ abs_rel T (ref_PUSH m to dst [x]).2 s' /\ keeps m0 s0 s').
Proof using Hclk.
  intros H Hto Hk Hm0. apply wp_bind. apply (getOrCreateList_reaps_rule E T Hclk m); [done|]. intros r s1 Hk1 Hr.
  specialize (Hk1 m0 Hm0). unfold opened_list in Hr. unfold ref_PUSH, on_list in *. cbv zeta.
  assert (forall xs, pushed_all to xs [x] = pushed to xs x) as Hp by by destruct to.
  assert (forall xs, put_list m dst (pushed_all to xs [x]) = <[dst := (RList (pushed to xs x), deadline_of m dst)]> m) as Hput.
  { intros xs. rewrite put_list_cons by by apply pushed_all_cons. by rewrite Hp. }
  destruct (m !! dst) as [[[b|xs|b|b] e]|] eqn:Em; try done; rewrite Hput; unfold deadline_of; rewrite Em; destruct Hr as (v & -> & <- & Hat);
    apply wp_bind; (eapply lv_Push_rule; [done|exact Hat|]); intros v' s2 [H2 _ _] _ Hq2; [|rewrite insert_insert_eq in H2]; replied.
Qed.

Lemma lmoveGeneric_ok m s src dst (from to : bool) :
  stripes_ok src dst -> abs_rel T m s ->
  does (lmoveGeneric E src dst (if from then str "LEFT" else str "RIGHT") (if to then str "LEFT" else str "RIGHT")) m s (ref_LMOVE m src dst from to).
Proof using Hclk.
  intros Hl H. unfold lmoveGeneric. cbv zeta.
  assert (forall b : bool, bool_decide ((if b then str "LEFT" else str "RIGHT") = str "LEFT") = b) as Hside by (by intros []).
  assert (forall b : bool, bool_decide ((if b then str "LEFT" else str "RIGHT") = str "LEFT") || bool_decide ((if b then str "LEFT" else str "RIGHT") = str "RIGHT") = true) as Hok by (by intros []).
  rewrite !Hok, !Hside. cbn [negb]. apply wp_bind, wp_LockKeys; [exact Hl|]. apply wp_bind. apply (getListView_rule E T Hclk m); [done|]. unfold ref_LMOVE.
  set (ok := on_list m dst true (fun _ => true) false). list_cases m src; [|by replied].
  apply wp_bind. apply (db_Get_view_rule E T Hclk m); [apply Hat|]. intros r s2 H2 Hk2%reaps_keeps _ _ Hr _ Hv2. rewrite (reads_list _ _ _ _ Hr). fold ok.
  destruct ok eqn:Hto; cbn [negb]; [|by replied].
  assert (list_at m s2 v xs e) as Hat2 by (eapply list_at_quiet; [exact Hat|exact H2|apply Hv2]). subst src.
  apply wp_bind. eapply lv_Pop_rule; [exact Hat2|]. intros s3 H3 Hq3. destruct (popped from xs) as [[x ys]|] eqn:Ep; cbn [fmap option_fmap option_map fst]; [|destruct H3 as [H3 _ _]; by replied].
  eapply (drop_if_done m); [exact H3|chain|]. intros s4 H4 Hk4 Hgone. rewrite (put_list_eq _ _ xs) in H4 by done. apply lmove_push; [done| |chain|].
  - destruct (decide (dst = lv_key v)) as [->|Hne]; [|unfold ok, on_list in *; by rewrite put_list_lookup].
    unfold on_list. destruct ys; cbn [put_list]; [by rewrite lookup_delete_eq|by rewrite lookup_insert_eq].
  - destruct (decide (dst = lv_key v)) as [->|Hne]; [|by rewrite put_list_lookup].
    destruct ys; cbn [put_list]; [intros _ Hn; by destruct (Hn (Hgone eq_refl))|by rewrite lookup_insert_eq].
Qed.

Definition side (left : bool) : bytes := if left then str "LEFT" else str "RIGHT".

Lemma lmoveCommand_ok m s n src dst from to : stripes_ok src dst -> abs_rel T m s -> does (lmoveCommand E [n; src; dst; side from; side to]) m s (ref_LMOVE m src dst from to).
Proof using Hclk.
  intros Hl H. do 4 (eapply wp_arg; [done|]). assert (forall b, ToUpper (side b) = if b then str "LEFT" else str "RIGHT") as Hs by (by intros []). rewrite !Hs.
  by apply lmoveGeneric_ok.
Qed.

Lemma rpoplpushCommand_ok m s n src dst : stripes_ok src dst -> abs_rel T m s -> does (rpoplpushCommand E [n; src; dst]) m s (ref_LMOVE m src dst false true).
Proof using Hclk. intros Hl H. do 2 (eapply wp_arg; [done|]). by apply (lmoveGeneric_ok m s src dst false true). Qed.

End commands.
