(* ===== verification/Bits.v ===== *)
(** * Bitmap commands ([commands/bitmap.go])

    The five handlers.  SETBIT writes into the byte slice of a stored object when the bit lies
    within it ([write_through]) and replaces the object otherwise.  The slices that handlers store are allocated by
    [bytes.Clone], by the conversion of a string and by [SetBit] itself, all of which clear the memory behind the
    slice's end; how much there is does not matter to [SetBit] then ([SetBit_ok]), and the model has none. *)

From S2P Require Import Prelude Strconv Bitmap Object Value Db DbSpec Reply Context Strings.
Local Open Scope Z_scope.

Definition bad_offset : bytes := Error (str "bit offset is not an integer or out of range").
Definition bad_bit : bytes := Error (str "bit is not an integer or out of range").

(** The object of [key] with other bytes behind its pointer. *)
Definition rewrite_bytes (db : ShardedDB payload) (key b : bytes) : ShardedDB payload :=
  let s := getShard db key in
  match entries s !! key with
  | Some o =>
    put_shard db (GetShardIdx key)
      (mkShard (<[key := mkRobj (o_Type o) (o_Encoding o) (o_Lru o) (PBytes b)]> (entries s)) (expires s) (versions s))
  | None => db
  end.

(** [b[i] = x] through the pointer of the object stored under [key]. *)
Definition write_through (key b : bytes) : M unit := modify (fun s => set_db (rewrite_bytes (s_db s) key b) s).

Section handlers.
Variable E : env.

Definition setbitCommand (argv : list bytes) : M bytes :=
  key ← arg argv 1;
  a2 ← arg argv 2;
  match ParseInt a2 with
  | None => mret bad_offset
  | Some offset =>
    if (offset <? 0) || (2 ^ 32 - 1 <? offset) then mret bad_offset
    else
      a3 ← arg argv 3;
      match ParseInt a3 with
      | None => mret bad_bit
      | Some val =>
        if negb (val =? 0) && negb (val =? 1) then mret bad_bit
        else
          let byteIdx := Z.quot offset 8 in
          let bitIdx := 7 - Z.rem offset 8 in
          obj ← db_Get E key;
          let replace (raw : bytes) : M bytes :=
            '(grown, oldBit) ← lift (SetBit (mkSlice raw []) offset val);
            _ ← match obj with
                | Some _ => db_SetKeepTTL E key (CreateObject OBJ_STRING (PBytes (buf grown)))
                | None => _ ← db_Set E key (CreateRawStringObject (buf grown)); mret tt
                end;
            mret (Integer oldBit) in
          match obj with
          | Some o =>
            if negb (is_type o OBJ_STRING) then mret wrongtype
            else
              match o_Ptr o with
              | PBytes b =>
                if byteIdx <? zlen b then
                  x ← lift (go_at b byteIdx);
                  b' ← lift (go_set b byteIdx (put_bit x bitIdx val));
                  _ ← write_through key b';
                  mret (Integer (Z.land (Z.shiftr x bitIdx) 1))
                else replace b
              | _ => raw ← obj_Bytes o; replace raw
              end
          | None => replace []
          end
      end
  end.

Definition getbitCommand (argv : list bytes) : M bytes :=
  key ← arg argv 1;
  a2 ← arg argv 2;
  match ParseInt a2 with
  | None => mret bad_offset
  | Some offset =>
    if offset <? 0 then mret bad_offset
    else
      obj ← db_Get E key;
      match obj with
      | None => mret (Integer 0)
      | Some o =>
        if negb (is_type o OBJ_STRING) then mret wrongtype
        else
          match o_Ptr o with
          | PBytes b =>
            if zlen b <=? Z.quot offset 8 then mret (Integer 0)
            else x ← lift (go_at b (Z.quot offset 8)); mret (Integer (Z.land (Z.shiftr x (7 - Z.rem offset 8)) 1))
          | _ => raw ← obj_Bytes o; bit ← lift (GetBit raw offset); mret (Integer bit)
          end
      end
  end.

(** An optional argument of BITCOUNT and BITPOS: [strconv.Atoi(string(argv[i]))] when it is there. *)
Definition opt_int (argv : list bytes) (i dflt : Z) (k : Z -> M bytes) : M bytes :=
  if i <? zlen argv then
    a ← arg argv i;
    match ParseInt a with None => mret not_integer | Some n => k n end
  else k dflt.

Definition bitcountCommand (argv : list bytes) : M bytes :=
  key ← arg argv 1;
  obj ← db_Get E key;
  match obj with
  | None => mret (Integer 0)
  | Some o =>
    if negb (is_type o OBJ_STRING) then mret wrongtype
    else
      raw ← obj_Bytes o;
      opt_int argv 2 0 (fun start =>
      opt_int argv 3 (-1) (fun end_ =>
        count ← lift (BitCount raw start end_);
        mret (Integer count)))
  end.

Definition bitposCommand (argv : list bytes) : M bytes :=
  key ← arg argv 1;
  a2 ← arg argv 2;
  match ParseInt a2 with
  | None => mret bad_bit
  | Some bitVal =>
    if negb (bitVal =? 0) && negb (bitVal =? 1) then mret bad_bit
    else
      obj ← db_Get E key;
      let search (raw : bytes) : M bytes :=
        opt_int argv 3 0 (fun start =>
        opt_int argv 4 (-1) (fun end_ =>
          pos ← lift (BitPos raw bitVal start end_ (4 <? zlen argv));
          mret (Integer pos))) in
      match obj with
      | Some o =>
        if negb (is_type o OBJ_STRING) then mret wrongtype
        else raw ← obj_Bytes o; search raw
      | None => search []
      end
  end.

(** The operands; [None] is the error reply of a key that holds no string. *)
Fixpoint bitop_sources (keys : list bytes) : M (option (list bytes)) :=
  match keys with
  | [] => mret (Some [])
  | k :: keys =>
    obj ← db_Get E k;
    match obj with
    | Some o =>
      if negb (is_type o OBJ_STRING) then mret None
      else
        b ← obj_Bytes o;
        rest ← bitop_sources keys;
        mret (cons b <$> rest)
    | None => rest ← bitop_sources keys; mret (cons [] <$> rest)
    end
  end.

Definition bitopCommand (argv : list bytes) : M bytes :=
  a1 ← arg argv 1;
  let op := ToUpper a1 in
  destKey ← arg argv 2;
  let eq s := bool_decide (op = str s) in
  if negb (eq "AND") && negb (eq "OR") && negb (eq "XOR") && negb (eq "NOT")
  then mret (Error (str "unknown bitop operation '" ++ op ++ str "'"))
  else if eq "NOT" && negb (zlen argv =? 4) then mret (Error (str "BITOP NOT takes exactly one source key"))
  else
    keys ← lift (go_slice argv 3 (zlen argv));
    srcs ← bitop_sources keys;
    match srcs with
    | None => mret wrongtype
    | Some srcs =>
      dst ← lift (BitOp op srcs);
      _ ← (if 0 <? zlen dst then _ ← db_Set E destKey (CreateRawStringObject dst); mret tt
           else _ ← db_Del E destKey; mret tt);
      mret (Integer (zlen dst))
    end.

End handlers.
