(* ===== verification/BitSpec.v ===== *)
(** * Bitmap commands against the dataset

    What SETBIT, GETBIT, BITCOUNT, BITPOS and BITOP mean on the dataset, in terms of the bits of a
    string, and that the handlers do so whatever the encoding of the string. *)

From S2P Require Import Prelude Strconv Bitmap Object Value Db DbSpec Reply Context Strings StringSpec Bits.
Local Open Scope Z_scope.

(** ** Meanings *)

(** A key keeps its deadline; a new one has none. *)
Definition ref_SETBIT (m : dataset) (k : bytes) (off : Z) (v : bool) : bytes * dataset :=
  match m !! k with
  | None => (Integer 0, <[k := (RString (set_bit [] (Z.to_nat off) v), 0)]> m)
  | Some (RString b, e) => (Integer (Z.b2z (bit b (Z.to_nat off))), <[k := (RString (set_bit b (Z.to_nat off) v), e)]> m)
  | Some _ => (wrongtype, m)
  end.

Definition ref_GETBIT (m : dataset) (k : bytes) (off : Z) : bytes * dataset :=
  (on_string m k (Integer 0) (fun b => Integer (Z.b2z (bit b (Z.to_nat off)))) wrongtype, m).

(** A range as a client gives it: nothing, a start, or a start and an end. *)
Inductive bit_range := Whole | From (i : Z) | Between (i j : Z).
Definition range_start (r : bit_range) : Z := match r with Whole => 0 | From i | Between i _ => i end.
Definition range_end (r : bit_range) : Z := match r with Between _ j => j | _ => -1 end.
Definition range_closed (r : bit_range) : bool := match r with Between _ _ => true | _ => false end.
Definition range_args (r : bit_range) : list bytes :=
  match r with Whole => [] | From i => [FormatInt i] | Between i j => [FormatInt i; FormatInt j] end.
Definition range_ok (r : bit_range) : Prop := is_int64 (range_start r) /\ is_int64 (range_end r).

Definition ref_BITCOUNT (m : dataset) (k : bytes) (r : bit_range) : bytes * dataset :=
  (on_string m k (Integer 0) (fun b => Integer (count_true (bits_of (byte_range b (range_start r) (range_end r))))) wrongtype, m).

Definition ref_BITPOS (m : dataset) (k : bytes) (v : bool) (r : bit_range) : bytes * dataset :=
  let search b := Integer (ref_bitpos b v (range_start r) (range_end r) (range_closed r)) in
  (on_string m k (search []) search wrongtype, m).

Inductive bit_op := BAnd | BOr | BXor | BNot.
Definition bit_op_name (op : bit_op) : bytes :=
  match op with BAnd => str "AND" | BOr => str "OR" | BXor => str "XOR" | BNot => str "NOT" end.

(** The operands, absent keys being empty; [None] when a key holds no string. *)
Fixpoint bitop_operands (m : dataset) (keys : list bytes) : option (list bytes) :=
  match keys with
  | [] => Some []
  | k :: keys => b ← on_string m k (Some []) Some None; rest ← bitop_operands m keys; Some (b :: rest)
  end.

Definition ref_BITOP (m : dataset) (op : bit_op) (dst : bytes) (keys : list bytes) : bytes * dataset :=
  match bitop_operands m keys with
  | None => (wrongtype, m)
  | Some srcs =>
    let r := ref_bitop (bit_op_name op) srcs in
    (Integer (zlen r), if bool_decide (r = []) then delete dst m else <[dst := (RString r, 0)]> m)
  end.

(** ** The handlers *)

Section commands.
Variables (E : env) (T : Z).
Hypothesis Hclk : instant E T.

(** The bytes of a stored string change under its object. *)
Lemma write_through_rule m s k o e b b' (Q : unit -> St -> Prop) :
  abs_rel T m s -> m !! k = Some (RString b, e) -> view T s k = Some (face o, e) -> o_Ptr o = PBytes b -> o_Type o = OBJ_STRING -> o_Encoding o = OBJ_ENCODING_RAW ->
  (forall s', abs_rel T (<[k := (RString b', e)]> m) s' -> quiet s s' -> Q tt s') -> wp (write_through k b') s Q.
Proof.
  intros H Hm Hv Hp Ht He HQ. apply wp_modify. destruct (ar_db _ _ _ H) as [Hwf Hmx].
  destruct (abs_rel_live _ _ _ _ _ _ H Hm) as [Ha Hd].
  assert (exists o', entries (getShard (s_db s) k) !! k = Some o' /\ face o' = face o /\ default 0 (expires (getShard (s_db s) k) !! k) = e) as (o' & Eo & Hf & Hx).
  { unfold view, abs, abs_of, cell, cell_of in Hv. destruct (entries (getShard (s_db s) k) !! k) as [o'|]; [|done]. exists o'.
    cbn [live] in Hv. destruct (alive T _) in Hv; [|done]. split; [done|]. split; congruence. }
  unfold rewrite_bytes. rewrite Eo. set (sh := mkShard _ _ _).
  assert (changes (s_db s) k (cell_of sh k) (put_shard (s_db s) (GetShardIdx k) sh)) as Hc.
  { apply put_changes; [done|..].
    - intros j Hj. unfold cell_of, sh. cbn [entries expires versions]. by rewrite lookup_insert_ne.
    - intros x _. unfold sh. cbn [entries]. rewrite lookup_insert_eq. by eexists.
    - intros x. unfold sh. cbn [versions]. apply (wf_version _ Hwf k x). }
  set (db' := put_shard _ _ _) in *.
  assert (forall j, j <> k -> view T (set_db db' s) j = view T s j) as Hother.
  { intros j Hj. unfold view. cbn [s_db set_db]. f_equal. apply abs_cell. by rewrite (ch_cell _ _ _ _ Hc), decide_False. }
  assert (view T (set_db db' s) k = Some ((OBJ_STRING, OBJ_ENCODING_RAW, PBytes b'), e)) as Hk.
  { unfold view. cbn [s_db set_db]. unfold abs. rewrite (ch_cell _ _ _ _ Hc), decide_True by done. unfold cell_of, sh. cbn [entries expires versions abs_of].
    rewrite lookup_insert_eq. cbn [abs_of]. rewrite Hx. unfold face in Hf |- *. cbn [o_Type o_Encoding o_Ptr live]. injection Hf as -> -> _. by rewrite Ht, He, Ha. }
  apply HQ; [|apply quiet_intro; [|done|done]].
  - apply (abs_rel_update T m s _ k (Some (RString b', e))); [done|split; [apply Hc|by eapply changes_max]|done|done|done|done|]. rewrite Hk. done.
  - by split.
Qed.


(** A read that keeps what is needed to write through the object. *)
Lemma wp_get_object {B} m s k (f : option robj -> M B) (Q : B -> St -> Prop) :
  abs_rel T m s ->
  (forall r s', abs_rel T m s' -> keeps m s s' -> string_read m k r -> reads T m s' k r -> wp (f r) s' Q) -> wp (db_Get E k ≫= f) s Q.
Proof using Hclk.
  intros H HQ. apply wp_bind. apply (db_Get_rule E T Hclk m); [done|]. intros r s' Ha Hk _ _ Hr _.
  apply HQ; [done..| |done]. by eapply reads_string.
Qed.

(** A string object is one of three. *)
Lemma string_object T' m s k o b e :
  reads T' m s k (Some o) -> m !! k = Some (RString b, e) ->
  Bytes o = Some b -> view T' s k = Some (face o, e) /\ o_Type o = OBJ_STRING /\ (forall b', o_Ptr o = PBytes b' -> b' = b /\ o_Encoding o = OBJ_ENCODING_RAW).
Proof.
  unfold reads. intros Hr Hm Hb. rewrite Hm in Hr. destruct Hr as (o1 & [= <-] & Hr & Hv). unfold represents, face in Hr. cbn in Hr. destruct Hr as [Ht Hr].
  split_and!; [done..|]. intros b' Ep. rewrite Ep in Hr. unfold is_string in Hr. by destruct (o_Encoding o).
Qed.

Lemma offset_range off : 0 <= off <= 2 ^ 32 - 1 -> is_int64 off.
Proof. unfold is_int64, min_int64, max_int64. lia. Qed.

Lemma set_bit_here b off (v : bool) x :
  0 <= off -> go_at b (Z.quot off 8) = Some x ->
  go_set b (Z.quot off 8) (put_bit x (7 - Z.rem off 8) (Z.b2z v)) = Some (set_bit b (Z.to_nat off) v) /\
  Z.land (Z.shiftr x (7 - Z.rem off 8)) 1 = Z.b2z (bit b (Z.to_nat off)).
Proof.
  intros Ho Hx. pose proof (GetBit_ok b off Ho) as Hg. destruct (SetBit_ok (mkSlice b []) off v) as (s' & Hs & Hb & _); [done..|].
  pose proof (go_at_range _ _ _ Hx). unfold GetBit in Hg. rewrite (proj2 (Z.ltb_ge _ _)) in Hg by done. cbv zeta in Hg.
  rewrite (proj2 (Z.leb_gt _ _)), Hx in Hg by lia. injection Hg as Hg. split; [|done].
  unfold SetBit in Hs. rewrite (proj2 (Z.ltb_ge _ _)) in Hs by done. cbv zeta in Hs.
  replace (grow (mkSlice b []) (Z.quot off 8)) with (mkSlice b []) in Hs by (unfold grow; cbn [buf spare]; by rewrite (proj2 (Z.leb_gt _ _)) by lia).
  cbn [buf spare] in Hs. rewrite Hx in Hs. cbn [mbind option_bind] in Hs. destruct (go_set b _ _) as [b'|]; [|done]. injection Hs as <- _. cbn [buf] in Hb. by rewrite Hb.
Qed.

Lemma setbitCommand_ok m s n k off (v : bool) :
  abs_rel T m s -> 0 <= off <= 2 ^ 32 - 1 -> does T (setbitCommand E [n; k; FormatInt off; FormatInt (Z.b2z v)]) m s (ref_SETBIT m k off v).
Proof using Hclk.
  intros H Hoff. apply (wp_arg _ _ k); [done|]. apply (wp_arg _ _ (FormatInt off)); [done|]. rewrite ParseInt_FormatInt by by apply offset_range.
  rewrite !(proj2 (Z.ltb_ge _ _)) by lia. cbn [orb]. apply (wp_arg _ _ (FormatInt (Z.b2z v))); [done|].
  rewrite ParseInt_FormatInt by (destruct v; unfold is_int64, min_int64, max_int64; cbn [Z.b2z]; lia).
  replace (negb (Z.b2z v =? 0) && negb (Z.b2z v =? 1)) with false by by destruct v. cbv zeta.
  apply (wp_get_object m); [done|]. intros r s1 H1 K1 Hr Hrd. unfold string_read in Hr. unfold ref_SETBIT.
  assert (forall raw, exists s', SetBit (mkSlice raw []) off (Z.b2z v) = Some (s', Z.b2z (bit raw (Z.to_nat off))) /\ buf s' = set_bit raw (Z.to_nat off) v) as Hset.
  { intros raw. destruct (SetBit_ok (mkSlice raw []) off v) as (s' & ? & ? & _); [done|lia|]. by exists s'. }
  destruct (m !! k) as [[[b|x|x|x] e]|] eqn:Em.
  - destruct Hr as (o & -> & Ht & Hb & _). rewrite Ht. cbn [negb]. destruct (string_object _ _ _ _ _ _ _ Hrd Em Hb) as (Hv & Hty & Hp).
    assert (forall raw, raw = b -> wp ('(grown, oldBit) ← lift (SetBit (mkSlice raw []) off (Z.b2z v));
      _ ← db_SetKeepTTL E k (CreateObject OBJ_STRING (PBytes (buf grown))); mret (Integer oldBit)) s1
      (fun r s' => r = Integer (Z.b2z (bit b (Z.to_nat off))) /\ abs_rel T (<[k := (RString (set_bit b (Z.to_nat off) v), e)]> m) s' /\ keeps m s s')) as Hgo.
    { intros raw ->. destruct (Hset b) as (g & Eg & Hg). apply wp_bind. eapply wp_lift; [exact Eg|]. cbv beta iota. apply wp_bind.
      eapply (db_SetKeepTTL_rule E T Hclk m); [done|exact Em|rewrite Hg; apply storable_object|]. intros s2 H2 Q2 _ _ _. replied. }
    destruct (o_Ptr o) as [b0|b0|z|l] eqn:Ep; [|apply (wp_bytes _ b); [done|]; by apply Hgo..].
    destruct (Hp b0 eq_refl) as [-> He]. destruct (Z.ltb_spec (Z.quot off 8) (zlen b)) as [Hlt|Hge]; [|by apply Hgo].
    destruct (go_at_some b (Z.quot off 8)) as [x Hx]; [split; [apply Z.quot_pos; lia|done]|].
    destruct (set_bit_here b off v x) as [Es Eb]; [lia|done|]. apply wp_bind. eapply wp_lift; [exact Hx|]. cbv beta. apply wp_bind. eapply wp_lift; [exact Es|]. cbv beta.
    apply wp_bind. eapply (write_through_rule m s1 k o e b); [done..|]. intros s2 H2 Q2. rewrite Eb. replied.
  - destruct Hr as (o & -> & Ht). rewrite Ht. replied.
  - destruct Hr as (o & -> & Ht). rewrite Ht. replied.
  - destruct Hr as (o & -> & Ht). rewrite Ht. replied.
  - subst r. destruct (Hset []) as (g & Eg & Hg). apply wp_bind. eapply wp_lift; [exact Eg|]. cbv beta iota. apply wp_bind.
    apply (wp_set E T Hclk m _ _ _ (set_bit [] (Z.to_nat off) v)); [done|rewrite Hg; apply storable_raw|]. intros s2 H2 Q2. apply wp_ret.
    rewrite bit_past by (cbn; lia). replied.
Qed.

Lemma getbitCommand_ok m s n k off :
  abs_rel T m s -> 0 <= off -> is_int64 off -> does T (getbitCommand E [n; k; FormatInt off]) m s (ref_GETBIT m k off).
Proof using Hclk.
  intros H Hoff Ho. apply (wp_arg _ _ k); [done|]. apply (wp_arg _ _ (FormatInt off)); [done|]. rewrite ParseInt_FormatInt by done.
  rewrite (proj2 (Z.ltb_ge _ _)) by lia. apply (wp_get_object m); [done|]. intros r s1 H1 K1 Hr Hrd. unfold string_read in Hr. unfold ref_GETBIT, on_string.
  destruct (m !! k) as [[[b|x|x|x] e]|] eqn:Em.
  - destruct Hr as (o & -> & Ht & Hb & _). rewrite Ht. cbn [negb]. destruct (string_object _ _ _ _ _ _ _ Hrd Em Hb) as (Hv & Hty & Hp).
    pose proof (GetBit_ok b off Hoff) as Hg.
    destruct (o_Ptr o) as [b0|b0|z|l] eqn:Ep; [|apply (wp_bytes _ b); [done|]; apply wp_bind; eapply wp_lift; [exact Hg|]; replied..].
    destruct (Hp b0 eq_refl) as [-> He]. destruct (Z.leb_spec (zlen b) (Z.quot off 8)) as [Hge|Hlt].
    { unfold GetBit in Hg. rewrite (proj2 (Z.ltb_ge _ _)) in Hg by lia. cbv zeta in Hg. rewrite (proj2 (Z.leb_le _ _)) in Hg by done. injection Hg as Hg. rewrite <- Hg. replied. }
    destruct (go_at_some b (Z.quot off 8)) as [x Hx]; [split; [apply Z.quot_pos; lia|done]|].
    destruct (set_bit_here b off true x) as [_ Eb]; [lia|done|]. apply wp_bind. eapply wp_lift; [exact Hx|]. cbv beta. rewrite Eb. replied.
  - destruct Hr as (o & -> & Ht). rewrite Ht. replied.
  - destruct Hr as (o & -> & Ht). rewrite Ht. replied.
  - destruct Hr as (o & -> & Ht). rewrite Ht. replied.
  - subst r. replied.
Qed.

Lemma opt_int_ok {argv i a n d} (f : Z -> M bytes) s (Q : bytes -> St -> Prop) :
  go_at argv i = Some a -> ParseInt a = Some n -> wp (f n) s Q -> wp (opt_int argv i d f) s Q.
Proof.
  intros Ha Hn HQ. unfold opt_int. pose proof (go_at_range _ _ _ Ha). rewrite (proj2 (Z.ltb_lt _ _)) by lia.
  apply (wp_arg _ _ a); [done|]. by rewrite Hn.
Qed.

Lemma opt_int_none {argv i d} (f : Z -> M bytes) s (Q : bytes -> St -> Prop) : zlen argv <= i -> wp (f d) s Q -> wp (opt_int argv i d f) s Q.
Proof. intros Hi HQ. unfold opt_int. by rewrite (proj2 (Z.ltb_ge _ _)) by lia. Qed.

(** The two optional arguments that a range is written with, after [pre]. *)
Lemma range_ints pre r (f : Z -> Z -> M bytes) s (Q : bytes -> St -> Prop) :
  range_ok r -> wp (f (range_start r) (range_end r)) s Q ->
  wp (opt_int (pre ++ range_args r) (zlen pre) 0 (fun i => opt_int (pre ++ range_args r) (zlen pre + 1) (-1) (fun j => f i j))) s Q.
Proof.
  intros [Hi Hj] HQ. destruct r as [|i|i j]; cbn [range_args range_start range_end] in *.
  - apply opt_int_none; [rewrite app_nil_r; lia|]. apply opt_int_none; [rewrite app_nil_r; lia|]. done.
  - eapply opt_int_ok; [by apply go_at_mid|by apply ParseInt_FormatInt|]. apply opt_int_none; [rewrite zlen_app, zlen_cons, zlen_nil; lia|]. done.
  - eapply opt_int_ok; [by apply go_at_mid|by apply ParseInt_FormatInt|].
    eapply opt_int_ok; [|by apply (ParseInt_FormatInt j)|done]. change (pre ++ [FormatInt i; FormatInt j]) with (pre ++ [FormatInt i] ++ [FormatInt j]).
    rewrite app_assoc. apply go_at_mid. by rewrite zlen_app.
Qed.

Lemma bitcountCommand_ok m s n k r : abs_rel T m s -> range_ok r -> does T (bitcountCommand E (n :: k :: range_args r)) m s (ref_BITCOUNT m k r).
Proof using Hclk.
  intros H Hr0. apply (wp_arg _ _ k); [done|]. apply (wp_get E T Hclk m); [done|]. unfold ref_BITCOUNT. get_cases m k; cbn [negb]; try replied.
  apply (wp_bytes _ b); [done|]. apply (range_ints [n; k] r); [done|]. apply wp_bind. eapply wp_lift; [apply BitCount_ok|]. replied.
Qed.

Lemma bitposCommand_ok m s n k (v : bool) r :
  abs_rel T m s -> range_ok r -> does T (bitposCommand E (n :: k :: FormatInt (Z.b2z v) :: range_args r)) m s (ref_BITPOS m k v r).
Proof using Hclk.
  intros H Hr0. apply (wp_arg _ _ k); [done|]. apply (wp_arg _ _ (FormatInt (Z.b2z v))); [done|].
  rewrite ParseInt_FormatInt by (destruct v; unfold is_int64, min_int64, max_int64; cbn [Z.b2z]; lia).
  replace (negb (Z.b2z v =? 0) && negb (Z.b2z v =? 1)) with false by by destruct v. cbv zeta.
  assert ((4 <? zlen (n :: k :: FormatInt (Z.b2z v) :: range_args r)) = range_closed r) as Hcl by by destruct r.
  assert (forall raw s1, abs_rel T m s1 -> keeps m s s1 -> wp (opt_int (n :: k :: FormatInt (Z.b2z v) :: range_args r) 3 0 (fun start =>
    opt_int (n :: k :: FormatInt (Z.b2z v) :: range_args r) 4 (-1) (fun end_ =>
      pos ← lift (BitPos raw (Z.b2z v) start end_ (4 <? zlen (n :: k :: FormatInt (Z.b2z v) :: range_args r))); mret (Integer pos)))) s1
    (fun x s' => x = Integer (ref_bitpos raw v (range_start r) (range_end r) (range_closed r)) /\ abs_rel T m s' /\ keeps m s s')) as Hgo.
  { intros raw s1 H1 K1. rewrite Hcl. apply (range_ints [n; k; FormatInt (Z.b2z v)] r); [done|]. apply wp_bind. eapply wp_lift; [apply BitPos_ok; by destruct r|]. replied. }
  apply (wp_get E T Hclk m); [done|]. unfold ref_BITPOS. get_cases m k; cbn [negb]; try replied.
  - apply (wp_bytes _ b); [done|]. by apply Hgo.
  - by apply Hgo.
Qed.

Lemma bitop_sources_ok m s keys (Q : option (list bytes) -> St -> Prop) :
  abs_rel T m s -> (forall s', abs_rel T m s' -> keeps m s s' -> Q (bitop_operands m keys) s') -> wp (bitop_sources E keys) s Q.
Proof using Hclk.
  revert s Q. induction keys as [|k keys IH]; intros s Q H HQ; cbn [bitop_sources bitop_operands].
  { apply wp_ret, HQ; [done|apply keeps_refl]. }
  apply (wp_get E T Hclk m); [done|].
  assert (forall b s1, abs_rel T m s1 -> keeps m s s1 -> (rest ← bitop_operands m keys; Some (b :: rest)) = bitop_operands m (k :: keys) ->
    wp (rest ← bitop_sources E keys; mret (cons b <$> rest)) s1 Q) as Hgo.
  { intros b s1 H1 K1 Eb. apply wp_bind, IH; [done|]. intros s2 H2 K2. apply wp_ret. cbn [bitop_operands] in Eb.
    specialize (HQ s2 H2 (keeps_trans _ _ _ _ K1 K2)). cbn [bitop_operands] in HQ. rewrite <- Eb in HQ. by destruct (bitop_operands m keys). }
  cbn [bitop_operands] in Hgo. unfold on_string in *. get_cases m k; cbn [negb] in *; try (apply wp_ret; specialize (HQ s1); cbn [bitop_operands] in HQ; unfold on_string in HQ; rewrite Em in HQ; by apply HQ).
  - apply (wp_bytes _ b); [done|]. by apply Hgo.
  - by apply Hgo.
Qed.

Lemma bitop_operands_length m keys srcs : bitop_operands m keys = Some srcs -> length srcs = length keys.
Proof.
  revert srcs. induction keys as [|k keys IH]; intros srcs; cbn [bitop_operands]; [by intros [= <-]|]. destruct (on_string _ _ _ _ _); [|done]. cbn [mbind option_bind].
  destruct (bitop_operands m keys); [|done]. intros [= <-]. cbn. by rewrite (IH l0).
Qed.

Lemma bitopCommand_ok m s n op dst keys :
  abs_rel T m s -> keys <> [] -> (op = BNot -> length keys = 1%nat) ->
  does T (bitopCommand E (n :: bit_op_name op :: dst :: keys)) m s (ref_BITOP m op dst keys).
Proof using Hclk.
  intros H Hne Hnot. apply (wp_arg _ _ (bit_op_name op)); [done|]. cbv zeta. apply (wp_arg _ _ dst); [done|].
  assert (ToUpper (bit_op_name op) = bit_op_name op) as -> by by destruct op. assert (is_bitop (bit_op_name op)) as Hop by (unfold is_bitop; destruct op; tauto).
  replace (negb _ && negb _ && negb _ && negb _) with false by by destruct op.
  replace (bool_decide (bit_op_name op = str "NOT") && negb (zlen (n :: bit_op_name op :: dst :: keys) =? 4)) with false.
  2: { symmetry. apply andb_false_iff. case_bool_decide as Hb; [right|by left]. apply negb_false_iff, Z.eqb_eq. rewrite !zlen_cons. unfold zlen. rewrite Hnot; [done|]. by destruct op. }
  apply wp_bind. eapply wp_lift; [apply (go_slice_suffix [n; bit_op_name op; dst] keys); [done|rewrite !zlen_cons; cbn; lia]|]. cbv beta.
  apply wp_bind, (bitop_sources_ok m); [done|]. intros s1 H1 K1. unfold ref_BITOP. destruct (bitop_operands m keys) as [srcs|] eqn:Es; [|replied].
  apply bitop_operands_length in Es. apply wp_bind. eapply wp_lift.
  { apply BitOp_ok; [done|by destruct srcs, keys|]. intros Hb. rewrite Es. apply Hnot. by destruct op. }
  cbv beta zeta. set (r := ref_bitop _ _). destruct (Z.ltb_spec 0 (zlen r)) as [Hp|Hp].
  - rewrite bool_decide_false by (intros ->; done). apply wp_bind, wp_bind. apply (db_Set_rule E T Hclk m _ _ _ (RString r)); [done|apply storable_raw|].
    intros s2 H2 Q2 _ _ _. apply wp_ret. replied.
  - assert (r = []) as Hr by (destruct r; [done|]; rewrite zlen_cons in Hp; zlen_pose; lia). rewrite bool_decide_true by done. apply wp_bind, wp_bind. apply (db_Del_rule E T Hclk m); [done|].
    intros. apply wp_ret. replied.
Qed.

End commands.
