(* ===== verification/Lcs.v ===== *)
(** * The longest common subsequence ([commands/lcs.go])

    LCS fills a table of the lengths of the longest common subsequences of all prefixes and walks it
    back from its corner, collecting the bytes and the blocks of adjacent matches.  The table is
    the flat array of the code, with [at] and [set] as its index arithmetic; the theorem says that the
    reply is a common subsequence that no other one exceeds, and that the blocks of IDX spell it. *)

From S2P Require Import Prelude Strconv Bitmap Object Value Db DbSpec Reply Context Strings StringSpec.
Local Open Scope Z_scope.

(** ** The options *)

Record lcs_opts := mkLcsOpts { wantLen : bool; wantIdx : bool; withMatchLen : bool; minMatchLen : Z }.

(** The option loop; [inl] is an error reply. *)
Fixpoint lcs_loop (o : lcs_opts) (args : list bytes) : bytes + lcs_opts :=
  match args with
  | [] => inr o
  | a :: rest =>
    let eq s := bool_decide (ToUpper a = str s) in
    if eq "LEN" then lcs_loop (mkLcsOpts true (wantIdx o) (withMatchLen o) (minMatchLen o)) rest
    else if eq "IDX" then lcs_loop (mkLcsOpts (wantLen o) true (withMatchLen o) (minMatchLen o)) rest
    else if eq "WITHMATCHLEN" then lcs_loop (mkLcsOpts (wantLen o) (wantIdx o) true (minMatchLen o)) rest
    else if eq "MINMATCHLEN" then
      match rest with
      | [] => inl syntax_error
      | b :: rest =>
        match ParseInt b with
        | None => inl not_integer
        | Some n => lcs_loop (mkLcsOpts (wantLen o) (wantIdx o) (withMatchLen o) (if 0 <? n then n else minMatchLen o)) rest
        end
      end
    else inl syntax_error
  end.

(** ** The table *)

(** [flat[i*cols+j]] *)
Definition at_ (flat : list Z) (cols i j : Z) : option Z := go_at flat (i * cols + j).

Definition lcs_cell (a b : bytes) (i j : Z) (flat : list Z) : option (list Z) :=
  let cols := zlen b + 1 in
  x ← go_at a (i - 1);
  y ← go_at b (j - 1);
  if x =? y then v ← at_ flat cols (i - 1) (j - 1); go_set flat (i * cols + j) (u32 (v + 1))
  else
    up ← at_ flat cols (i - 1) j;
    left ← at_ flat cols i (j - 1);
    go_set flat (i * cols + j) (if left <=? up then up else left).

Definition lcs_table (a b : bytes) : option (list Z) :=
  let rows := zlen a + 1 in
  let cols := zlen b + 1 in
  if (s64 (rows * cols) <? 0) || (maxAlloc <? 4 * s64 (rows * cols)) then None
  else
    let flat := replicate (Z.to_nat (s64 (rows * cols))) 0 in
    '(_, flat) ← for_loop (length a) 1 rows (fun i flat =>
      '(_, flat) ← for_loop (length b) 1 cols (fun j flat => lcs_cell a b i j flat) 1 flat;
      Some flat) 1 flat;
    Some flat.

(** ** The way back *)

Record match_ := mkMatch { aStart : Z; aEnd : Z; bStart : Z; bEnd : Z; m_length : Z }.

Record walk := mkWalk {
  w_i : Z; w_j : Z;
  runEndA : Z; runEndB : Z; runLen : Z;
  result : bytes;
  matches : list match_
}.

(** The block that ends the current run, if there is one. *)
Definition close_run (w : walk) : walk :=
  if 0 <? runLen w
  then mkWalk (w_i w) (w_j w) (runEndA w) (runEndB w) 0 (result w)
         (matches w ++ [mkMatch (w_i w) (runEndA w) (w_j w) (runEndB w) (runLen w)])
  else w.

Definition walk_step (a b : bytes) (flat : list Z) (w : walk) : option walk :=
  let cols := zlen b + 1 in
  let i := w_i w in
  let j := w_j w in
  x ← go_at a (i - 1);
  y ← go_at b (j - 1);
  if x =? y then
    let ends := if runLen w =? 0 then (i - 1, j - 1) else (runEndA w, runEndB w) in
    Some (mkWalk (i - 1) (j - 1) ends.1 ends.2 (runLen w + 1) (result w ++ [x]) (matches w))
  else
    let w := close_run w in
    up ← at_ flat cols (i - 1) j;
    left ← at_ flat cols i (j - 1);
    Some (if left <? up
          then mkWalk (i - 1) j (runEndA w) (runEndB w) (runLen w) (result w) (matches w)
          else mkWalk i (j - 1) (runEndA w) (runEndB w) (runLen w) (result w) (matches w)).

Fixpoint walk_loop (fuel : nat) (a b : bytes) (flat : list Z) (w : walk) : option walk :=
  if (0 <? w_i w) && (0 <? w_j w) then
    match fuel with
    | O => None
    | S fuel => w ← walk_step a b flat w; walk_loop fuel a b flat w
    end
  else Some w.

Definition walk_back (a b : bytes) (flat : list Z) : option walk :=
  w ← walk_loop (length a + length b) a b flat (mkWalk (zlen a) (zlen b) 0 0 0 [] []);
  Some (close_run w).

(** ** The command *)

Definition match_reply (withLen : bool) (m : match_) : bytes :=
  let pair := [Array [Integer (aStart m); Integer (aEnd m)]; Array [Integer (bStart m); Integer (bEnd m)]] in
  Array (if withLen then pair ++ [Integer (m_length m)] else pair).

(** The reply of IDX. *)
Definition idx_reply (r3 : bool) (o : lcs_opts) (ms : list match_) (len : Z) : bytes :=
  MapReply r3
    [BulkString (str "matches"); Array (match_reply (withMatchLen o) <$> filter (fun m => ~ m_length m < minMatchLen o) ms);
     BulkString (str "len"); Integer len].

(** The computation once the operands are read. *)
Definition lcs_strings (r3 : bool) (o : lcs_opts) (a b : bytes) : option bytes :=
  flat ← lcs_table a b;
  len ← at_ flat (zlen b + 1) (zlen a) (zlen b);
  if wantLen o then Some (Integer len)
  else
    w ← walk_back a b flat;
    Some (if wantIdx o then idx_reply r3 o (matches w) len else BulkString (reverse (result w))).

Definition lcs_wrongtype : bytes := Error (str "The specified keys must contain string values").

Section handlers.
Variable E : env.

(** The operand, or an error reply. *)
Definition lcsOperand (key : bytes) : M (bytes + bytes) :=
  obj ← db_Get E key;
  match obj with
  | None => mret (inr [])
  | Some o =>
    if negb (is_type o OBJ_STRING) then mret (inl lcs_wrongtype)
    else b ← obj_Bytes o; mret (inr b)
  end.

Definition lcsCommand (argv : list bytes) : M bytes :=
  keyA ← arg argv 1;
  keyB ← arg argv 2;
  match lcs_loop (mkLcsOpts false false false 0) (drop 3 argv) with
  | inl e => mret e
  | inr o =>
    if wantLen o && wantIdx o then mret (Error (str "If you want both the length and indexes, please just use IDX."))
    else
      a ← lcsOperand keyA;
      match a with
      | inl e => mret e
      | inr a =>
        b ← lcsOperand keyB;
        match b with
        | inl e => mret e
        | inr b => r3 ← resp3; lift (lcs_strings r3 o a b)
        end
      end
  end.

End handlers.

(** ** Common subsequences *)

(** The length of the longest one, by the recurrence of the table, on reversed prefixes. *)
Fixpoint lcs_len (x : bytes) : bytes -> Z :=
  fix go (y : bytes) : Z :=
    match x, y with
    | c :: x', d :: y' => if c =? d then 1 + lcs_len x' y' else Z.max (lcs_len x' y) (go y')
    | _, _ => 0
    end.

Definition common (z a b : bytes) : Prop := z `sublist_of` a /\ z `sublist_of` b.
Definition longest (z a b : bytes) : Prop := common z a b /\ forall z', common z' a b -> zlen z' <= zlen z.

Lemma lcs_len_nil_l y : lcs_len [] y = 0.
Proof. by destruct y. Qed.
Lemma lcs_len_nil_r x : lcs_len x [] = 0.
Proof. by destruct x. Qed.
Lemma lcs_len_cons c x d y :
  lcs_len (c :: x) (d :: y) = if c =? d then 1 + lcs_len x y else Z.max (lcs_len x (d :: y)) (lcs_len (c :: x) y).
Proof. done. Qed.

Lemma lcs_len_bounds x y : 0 <= lcs_len x y <= Z.min (zlen x) (zlen y).
Proof.
  revert y. induction x as [|c x IHx]; intros y; [rewrite lcs_len_nil_l; pose proof (zlen_nonneg y); rewrite zlen_nil; lia|].
  induction y as [|d y IHy]; [rewrite lcs_len_nil_r; zlen_lia|]. rewrite lcs_len_cons, !zlen_cons. rewrite zlen_cons in IHy.
  pose proof (IHx y). pose proof (IHx (d :: y)) as H2. rewrite zlen_cons in H2. destruct (c =? d); lia.
Qed.

Lemma sublist_tail {A} (c : A) z d x : c :: z `sublist_of` d :: x -> z `sublist_of` x.
Proof.
  intros H. inversion H as [|? ? ? H1|? ? ? H1]; subst; [done|]. etrans; [|exact H1]. by apply sublist_cons.
Qed.

Lemma sublist_reversed {A} (z x : list A) : z `sublist_of` x -> reverse z `sublist_of` reverse x.
Proof.
  induction 1 as [|c z x H IH|c z x H IH]; [done|..]; rewrite !reverse_cons.
  - by apply sublist_app.
  - by apply sublist_inserts_r.
Qed.

Lemma sublist_other {A} (c : A) z d x : c <> d -> c :: z `sublist_of` d :: x -> c :: z `sublist_of` x.
Proof. intros Hne H. inversion H; subst; done. Qed.

Lemma lcs_len_max x y z : common z x y -> zlen z <= lcs_len x y.
Proof.
  revert y z. induction x as [|c x IHx]; intros y z [Hx Hy].
  { apply sublist_nil_r in Hx as ->. rewrite lcs_len_nil_l. done. }
  revert z Hx Hy. induction y as [|d y IHy]; intros z Hx Hy.
  { apply sublist_nil_r in Hy as ->. rewrite lcs_len_nil_r. done. }
  rewrite lcs_len_cons. destruct z as [|e z]; [destruct (Z.eqb_spec c d); [pose proof (lcs_len_bounds x y)|pose proof (lcs_len_bounds x (d :: y))]; rewrite zlen_nil; lia|].
  destruct (Z.eqb_spec c d) as [->|Hne].
  - rewrite zlen_cons. assert (zlen z <= lcs_len x y); [|lia]. apply IHx. split; by eapply sublist_tail.
  - destruct (decide (e = c)) as [->|He].
    + assert (zlen (c :: z) <= lcs_len (c :: x) y); [|lia]. apply IHy; [done|]. by eapply sublist_other.
    + assert (zlen (e :: z) <= lcs_len x (d :: y)); [|lia]. apply IHx. split; [|done]. by eapply sublist_other.
Qed.

(** ** The table holds the lengths *)

Section tables.
Variables (a b : bytes).
Hypothesis Hsize : 4 * ((zlen a + 1) * (zlen b + 1)) <= maxAlloc.

Local Abbreviation rows := (zlen a + 1) (only parsing).
Local Abbreviation cols := (zlen b + 1) (only parsing).

Definition prefix_len (i j : Z) : Z := lcs_len (reverse (take (Z.to_nat i) a)) (reverse (take (Z.to_nat j) b)).

Lemma prefix_len_0_l j : prefix_len 0 j = 0.
Proof. apply lcs_len_nil_l. Qed.
Lemma prefix_len_0_r i : prefix_len i 0 = 0.
Proof. apply lcs_len_nil_r. Qed.

Lemma reverse_prefix (l : bytes) i x : 0 < i -> go_at l (i - 1) = Some x -> reverse (take (Z.to_nat i) l) = x :: reverse (take (Z.to_nat (i - 1)) l).
Proof.
  intros Hi Hx. rewrite go_at_lookup in Hx by lia. replace (Z.to_nat i) with (S (Z.to_nat (i - 1))) by lia.
  by rewrite (take_S_r _ _ x), reverse_snoc by done.
Qed.

Lemma prefix_len_step i j x y :
  0 < i -> 0 < j -> go_at a (i - 1) = Some x -> go_at b (j - 1) = Some y ->
  prefix_len i j = if x =? y then 1 + prefix_len (i - 1) (j - 1) else Z.max (prefix_len (i - 1) j) (prefix_len i (j - 1)).
Proof.
  intros Hi Hj Hx Hy. unfold prefix_len. rewrite (reverse_prefix a i x), (reverse_prefix b j y) by done. apply lcs_len_cons.
Qed.

Lemma prefix_len_bound i j : 0 <= prefix_len i j < 2 ^ 24.
Proof using Hsize.
  unfold prefix_len. pose proof (lcs_len_bounds (reverse (take (Z.to_nat i) a)) (reverse (take (Z.to_nat j) b))) as H.
  unfold zlen in *. rewrite !length_reverse, !length_take in H. unfold maxAlloc in Hsize. split; [lia|].
  destruct (Z.le_gt_cases (2 ^ 24) (Z.min (Z.of_nat (length a)) (Z.of_nat (length b)))); nia.
Qed.

Lemma cell_index i j p q : 0 <= j < cols -> 0 <= q < cols -> p * cols + q = i * cols + j -> p = i /\ q = j.
Proof using. intros Hj Hq He. assert (p = i) by nia. subst. lia. Qed.

Lemma cell_range i j : 0 <= i < rows -> 0 <= j < cols -> 0 <= i * cols + j < rows * cols.
Proof using. intros. nia. Qed.

(** Filled row by row: the rows before [i], and row [i] before column [j]. *)
Record filled (i j : Z) (flat : list Z) : Prop := {
  fi_len : zlen flat = rows * cols;
  fi_at p q : 0 <= p < rows -> 0 <= q < cols ->
    at_ flat cols p q = Some (if (p <? i) || ((p =? i) && (q <? j)) then prefix_len p q else 0)
}.

Lemma lcs_cell_ok i j flat :
  0 < i < rows -> 0 < j < cols -> filled i j flat -> exists flat', lcs_cell a b i j flat = Some flat' /\ filled i (j + 1) flat'.
Proof using Hsize.
  intros Hi Hj Hf. destruct (go_at_some a (i - 1)) as [x Hx]; [lia|]. destruct (go_at_some b (j - 1)) as [y Hy]; [lia|].
  assert (exists v, lcs_cell a b i j flat = go_set flat (i * cols + j) v /\ v = prefix_len i j) as (v & -> & ->).
  { unfold lcs_cell. rewrite Hx, Hy. cbn [mbind option_bind]. rewrite (prefix_len_step i j x y) by (done || lia).
    rewrite !(fi_at _ _ _ Hf) by lia.
    replace ((i - 1 <? i) || _) with true by (symmetry; apply orb_true_iff; left; apply Z.ltb_lt; lia).
    replace ((i - 1 <? i) || _) with true by (symmetry; apply orb_true_iff; left; apply Z.ltb_lt; lia).
    replace ((i <? i) || ((i =? i) && (j - 1 <? j))) with true by (symmetry; apply orb_true_iff; right; apply andb_true_iff; split; [apply Z.eqb_refl|apply Z.ltb_lt; lia]).
    cbn [mbind option_bind]. destruct (x =? y); eexists; (split; [reflexivity|]).
    - pose proof (prefix_len_bound (i - 1) (j - 1)). unfold u32. rewrite Z.mod_small by lia. lia.
    - destruct (Z.leb_spec (prefix_len i (j - 1)) (prefix_len (i - 1) j)); lia. }
  pose proof (cell_range i j ltac:(lia) ltac:(lia)) as Hr. pose proof (fi_len _ _ _ Hf) as Hl.
  unfold go_set. rewrite (proj2 (Z.leb_le _ _)), (proj2 (Z.ltb_lt _ _)) by lia. cbn [andb]. eexists. split; [reflexivity|]. split; [by rewrite zlen_insert|].
  intros p q Hp Hq. unfold at_. pose proof (cell_range p q Hp Hq). rewrite go_at_lookup by lia. destruct (decide (p = i /\ q = j)) as [[-> ->]|Hne].
  - rewrite list_lookup_insert_eq by (unfold zlen in *; lia). rewrite (proj2 (Z.ltb_ge i i)), Z.eqb_refl, (proj2 (Z.ltb_lt j (j + 1))) by lia. done.
  - rewrite list_lookup_insert_ne.
    2: { intros He. apply Hne. apply (cell_index i j p q); [lia|lia|]. lia. }
    rewrite <- go_at_lookup by lia. change (at_ flat cols p q = Some (if (p <? i) || ((p =? i) && (q <? j + 1)) then prefix_len p q else 0)).
    rewrite (fi_at _ _ _ Hf) by done. do 2 f_equal. destruct (Z.eqb_spec p i) as [->|]; [|done]. cbn [andb]. f_equal.
    destruct (Z.ltb_spec q j), (Z.ltb_spec q (j + 1)); try done; lia.
Qed.

Lemma filled_next i flat : 0 <= i -> filled i cols flat -> filled (i + 1) 1 flat.
Proof using.
  intros Hi [Hl Ha]. split; [done|]. intros p q Hp Hq. rewrite Ha by done. f_equal. rewrite (proj2 (Z.ltb_lt q cols)), andb_true_r by lia.
  destruct (Z.ltb_spec p i), (Z.eqb_spec p i), (Z.ltb_spec p (i + 1)), (Z.eqb_spec p (i + 1)); cbn [orb andb]; try done; try lia.
  destruct (Z.ltb_spec q 1); [|done]. replace q with 0 by lia. by rewrite prefix_len_0_r.
Qed.

Lemma lcs_table_ok : exists flat, lcs_table a b = Some flat /\ forall p q, 0 <= p <= zlen a -> 0 <= q <= zlen b -> at_ flat cols p q = Some (prefix_len p q).
Proof using Hsize.
  pose proof (zlen_nonneg a). pose proof (zlen_nonneg b). unfold lcs_table. cbv zeta. assert (0 < rows * cols) by nia.
  rewrite s64_id by (unfold is_int64, min_int64, max_int64, maxAlloc in *; lia).
  replace ((rows * cols <? 0) || (maxAlloc <? 4 * (rows * cols))) with false by (symmetry; apply orb_false_iff; split; apply Z.ltb_ge; lia).
  edestruct (for_loop_rule (fun i flat => filled i 1 flat) (length a) 1 rows) as (i' & flat & -> & Hf & Hi & He); [lia| |lia|unfold zlen; lia| |].
  - split; [unfold zlen; rewrite length_replicate; unfold zlen in *; lia|]. intros p q Hp Hq. unfold at_. pose proof (cell_range p q Hp Hq).
    rewrite go_at_lookup by lia. rewrite lookup_replicate_2 by lia. f_equal.
    destruct (Z.ltb_spec p 1); cbn [orb]; [replace p with 0 by lia; by rewrite prefix_len_0_l|].
    destruct (p =? 1); [|done]. cbn [andb]. destruct (Z.ltb_spec q 1); [|done]. replace q with 0 by lia. by rewrite prefix_len_0_r.
  - intros i flat Hi Hn Hf. edestruct (for_loop_rule (filled i) (length b) 1 cols (fun j flat => lcs_cell a b i j flat) 1 flat) as (j' & flat' & -> & Hf' & Hj & He); [lia|done|lia|unfold zlen; lia| |].
    + intros j fl Hj Hjn Hfl. apply lcs_cell_ok; [lia|lia|done].
    + go_bind. eexists. split; [reflexivity|]. apply filled_next; [lia|]. by replace j' with cols in Hf' by lia.
  - go_bind. exists flat. split; [reflexivity|]. intros p q Hp Hq. rewrite (fi_at _ _ _ Hf) by lia. by rewrite (proj2 (Z.ltb_lt p i')) by lia.
Qed.
(** ** The way back *)

(** The bytes of a block, in either string. *)
Definition block (l : bytes) (start len : Z) : bytes := take (Z.to_nat len) (drop (Z.to_nat start) l).

(** A block is the same in both strings, and its ends are where the reply says. *)
Record block_ok (m : match_) : Prop := {
  bo_len : 0 < m_length m;
  bo_a : 0 <= aStart m /\ aEnd m = aStart m + m_length m - 1 /\ aEnd m < zlen a;
  bo_b : 0 <= bStart m /\ bEnd m = bStart m + m_length m - 1 /\ bEnd m < zlen b;
  bo_same : block a (aStart m) (m_length m) = block b (bStart m) (m_length m)
}.

(** What the blocks spell, the last one found being the first in the strings. *)
Definition spelled (ms : list match_) : bytes := concat (reverse ((fun m => block a (aStart m) (m_length m)) <$> ms)).

Record walked (w : walk) : Prop := {
  wk_i : 0 <= w_i w <= zlen a;
  wk_j : 0 <= w_j w <= zlen b;
  wk_len : zlen (result w) + prefix_len (w_i w) (w_j w) = prefix_len (zlen a) (zlen b);
  wk_a : reverse (result w) `sublist_of` drop (Z.to_nat (w_i w)) a;
  wk_b : reverse (result w) `sublist_of` drop (Z.to_nat (w_j w)) b;
  wk_run : 0 <= runLen w /\ w_i w + runLen w <= zlen a /\ w_j w + runLen w <= zlen b;
  wk_ends : 0 < runLen w -> runEndA w = w_i w + runLen w - 1 /\ runEndB w = w_j w + runLen w - 1;
  wk_same : block a (w_i w) (runLen w) = block b (w_j w) (runLen w);
  wk_spell : reverse (result w) = block a (w_i w) (runLen w) ++ spelled (matches w);
  wk_ms : Forall block_ok (matches w)
}.

Lemma block_0 l i : block l i 0 = [].
Proof. done. Qed.

Lemma block_cons l i n x : 0 < i -> 0 <= n -> go_at l (i - 1) = Some x -> block l (i - 1) (n + 1) = x :: block l i n.
Proof using.
  intros Hi Hn Hx. unfold block. rewrite go_at_lookup in Hx by lia. rewrite (drop_S _ x) by done.
  replace (Z.to_nat (n + 1)) with (S (Z.to_nat n)) by lia. cbn [take]. do 2 f_equal. f_equal. lia.
Qed.

Lemma drop_grow (l : bytes) i : 0 < i -> drop (Z.to_nat i) l `sublist_of` drop (Z.to_nat (i - 1)) l.
Proof using.
  intros Hi. replace (Z.to_nat i) with (Z.to_nat (i - 1) + 1)%nat by lia. rewrite <- drop_drop. apply sublist_drop.
Qed.

Lemma sublist_grow (l z : bytes) i x : 0 < i -> go_at l (i - 1) = Some x -> z `sublist_of` drop (Z.to_nat i) l -> x :: z `sublist_of` drop (Z.to_nat (i - 1)) l.
Proof using.
  intros Hi Hx Hz. rewrite go_at_lookup in Hx by lia. rewrite (drop_S _ x) by done. apply sublist_skip. by replace (S (Z.to_nat (i - 1))) with (Z.to_nat i) by lia.
Qed.

Lemma spelled_snoc ms m : spelled (ms ++ [m]) = block a (aStart m) (m_length m) ++ spelled ms.
Proof. unfold spelled. rewrite fmap_app. cbn [fmap list_fmap]. by rewrite reverse_snoc. Qed.

Lemma close_block_ok w : walked w -> walked (close_run w) /\ runLen (close_run w) = 0 /\ w_i (close_run w) = w_i w /\ w_j (close_run w) = w_j w /\ result (close_run w) = result w.
Proof using.
  intros Hw. unfold close_run. destruct (Z.ltb_spec 0 (runLen w)) as [Hr|Hr]; cbn [w_i w_j runLen result].
  2: { pose proof (wk_run _ Hw). split_and!; [done|lia|done..]. }
  split_and!; try done. destruct (wk_ends _ Hw Hr) as [Ea Eb]. pose proof (wk_run _ Hw). pose proof (wk_i _ Hw). pose proof (wk_j _ Hw).
  split; cbn [w_i w_j runLen runEndA runEndB result matches]; [apply Hw..|lia|lia|done| |].
  - rewrite block_0, spelled_snoc. cbn [app aStart m_length]. apply Hw.
  - apply Forall_app. split; [apply Hw|]. apply Forall_singleton. split; cbn [m_length aStart aEnd bStart bEnd]; [lia|lia|lia|apply Hw].
Qed.

Variable flat : list Z.
Hypothesis Hflat : forall p q, 0 <= p <= zlen a -> 0 <= q <= zlen b -> at_ flat cols p q = Some (prefix_len p q).

Lemma walk_step_ok w :
  walked w -> 0 < w_i w -> 0 < w_j w -> exists w', walk_step a b flat w = Some w' /\ walked w' /\ 0 <= w_i w' + w_j w' < w_i w + w_j w.
Proof using Hflat.
  intros Hw Hi Hj. pose proof (wk_i _ Hw). pose proof (wk_j _ Hw). pose proof (wk_run _ Hw) as Hrun.
  destruct (go_at_some a (w_i w - 1)) as [x Hx]; [lia|]. destruct (go_at_some b (w_j w - 1)) as [y Hy]; [lia|].
  unfold walk_step. cbv zeta. rewrite Hx, Hy. cbn [mbind option_bind]. pose proof (prefix_len_step _ _ _ _ Hi Hj Hx Hy) as Hs. pose proof (wk_len _ Hw) as Hlen.
  destruct (Z.eqb_spec x y) as [<-|Hne].
  - eexists. split; [reflexivity|]. cbn [w_i w_j]. split; [|lia]. split; cbn [w_i w_j runLen runEndA runEndB result matches]; [lia|lia|..].
    + rewrite zlen_app, zlen_cons, zlen_nil. lia.
    + rewrite reverse_snoc. apply (sublist_grow a); [lia|done|apply Hw].
    + rewrite reverse_snoc. apply (sublist_grow b); [lia|done|apply Hw].
    + lia.
    + intros _. destruct (Z.eqb_spec (runLen w) 0); cbn [fst snd]; [lia|]. destruct (wk_ends _ Hw); lia.
    + rewrite !(block_cons _ _ _ x) by (done || lia). f_equal. apply Hw.
    + rewrite reverse_snoc, (block_cons a _ _ x) by (done || lia). cbn [app]. f_equal. apply Hw.
    + apply Hw.
  - destruct (close_block_ok w Hw) as (Hc & Hr0 & Ei & Ej & Er). set (w1 := close_run w) in *.
    rewrite !Hflat by lia. cbn [mbind option_bind]. eexists. split; [reflexivity|].
    assert (forall i' j', (i' = w_i w - 1 /\ j' = w_j w \/ i' = w_i w /\ j' = w_j w - 1) -> prefix_len i' j' = prefix_len (w_i w) (w_j w) ->
      walked (mkWalk i' j' (runEndA w1) (runEndB w1) (runLen w1) (result w1) (matches w1))) as Hgo.
    { intros i' j' Hij Hp. pose proof (wk_a _ Hc) as Ha. pose proof (wk_b _ Hc) as Hb. pose proof (wk_spell _ Hc) as Hsp. rewrite Hr0, block_0 in Hsp. rewrite Ei in Ha. rewrite Ej in Hb.
      split; cbn [w_i w_j runLen runEndA runEndB result matches]; rewrite ?Hr0, ?block_0; [lia|lia| | | |lia|lia|done|done|apply Hc].
      - rewrite Er. lia.
      - destruct Hij as [[-> _]|[-> _]]; [|done]. etrans; [exact Ha|]. by apply drop_grow.
      - destruct Hij as [[_ ->]|[_ ->]]; [done|]. etrans; [exact Hb|]. by apply drop_grow. }
    destruct (Z.ltb_spec (prefix_len (w_i w) (w_j w - 1)) (prefix_len (w_i w - 1) (w_j w))) as [Hlt|Hge]; cbn [w_i w_j]; (split; [apply Hgo; lia|lia]).
Qed.

Lemma walk_loop_ok fuel w :
  walked w -> w_i w + w_j w <= Z.of_nat fuel -> exists w', walk_loop fuel a b flat w = Some w' /\ walked w' /\ (w_i w' = 0 \/ w_j w' = 0).
Proof using Hflat.
  revert w. induction fuel as [|fuel IH]; intros w Hw Hf; cbn [walk_loop]; pose proof (wk_i _ Hw); pose proof (wk_j _ Hw);
    destruct (Z.ltb_spec 0 (w_i w)), (Z.ltb_spec 0 (w_j w)); cbn [andb]; try (exists w; split_and!; [done..|lia]); [lia|].
  destruct (walk_step_ok w) as (w1 & -> & Hw1 & Hm); [done|lia|lia|]. cbn [mbind option_bind]. apply IH; [done|lia].
Qed.

(** The walk ends with a common subsequence of full length and blocks that spell it. *)
Lemma walk_back_ok : exists w, walk_back a b flat = Some w /\ longest (reverse (result w)) a b /\ zlen (result w) = prefix_len (zlen a) (zlen b) /\
  spelled (matches w) = reverse (result w) /\ Forall block_ok (matches w).
Proof using Hflat.
  unfold walk_back. destruct (walk_loop_ok (length a + length b) (mkWalk (zlen a) (zlen b) 0 0 0 [] [])) as (w & -> & Hw & He).
  - pose proof (zlen_nonneg a). pose proof (zlen_nonneg b).
    split; cbn [w_i w_j runLen runEndA runEndB result matches]; rewrite ?block_0; try done; try lia; apply sublist_nil_l.
  - cbn [w_i w_j]. unfold zlen. lia.
  - cbn [mbind option_bind]. destruct (close_block_ok w Hw) as (Hc & Hr0 & Ei & Ej & Er). exists (close_run w). split; [done|].
    assert (zlen (result w) = prefix_len (zlen a) (zlen b)) as Hlen.
    { rewrite <- (wk_len _ Hw). destruct He as [-> | ->]; rewrite ?prefix_len_0_l, ?prefix_len_0_r; lia. }
    rewrite Er. split_and!; [|done| |apply Hc].
    + split.
      * split; [etrans; [apply (wk_a _ Hw)|]; apply sublist_drop|etrans; [apply (wk_b _ Hw)|]; apply sublist_drop].
      * intros z [Ha Hb]. replace (zlen (reverse (result w))) with (zlen (result w)) by (unfold zlen; by rewrite length_reverse). rewrite Hlen.
        unfold prefix_len. rewrite !take_ge by (unfold zlen; lia). replace (zlen z) with (zlen (reverse z)) by (unfold zlen; by rewrite length_reverse).
        apply lcs_len_max. split; by apply sublist_reversed.
    + pose proof (wk_spell _ Hc) as Hsp. by rewrite Hr0, block_0, Er in Hsp.
Qed.
End tables.

(** ** The handler *)

(** What the computation replies, for every choice of options. *)
Definition lcs_answer (r3 : bool) (o : lcs_opts) (z : bytes) (ms : list match_) : bytes :=
  if wantLen o then Integer (zlen z) else if wantIdx o then idx_reply r3 o ms (zlen z) else BulkString z.

Lemma lcs_strings_ok r3 o a b :
  4 * ((zlen a + 1) * (zlen b + 1)) <= maxAlloc ->
  exists z ms, longest z a b /\ spelled a ms = z /\ Forall (block_ok a b) ms /\ lcs_strings r3 o a b = Some (lcs_answer r3 o z ms).
Proof.
  intros Hs. destruct (lcs_table_ok a b Hs) as (flat & Ef & Hflat). destruct (walk_back_ok a b flat Hflat) as (w & Ew & Hl & Hz & Hsp & Hb).
  exists (reverse (result w)), (matches w). split_and!; [done..|]. unfold lcs_strings, lcs_answer. rewrite Ef. cbn [mbind option_bind].
  pose proof (zlen_nonneg a). pose proof (zlen_nonneg b). rewrite Hflat by lia. cbn [mbind option_bind].
  replace (zlen (reverse (result w))) with (prefix_len a b (zlen a) (zlen b)) by (rewrite <- Hz; unfold zlen; by rewrite length_reverse).
  destruct (wantLen o); [done|]. rewrite Ew. cbn [mbind option_bind]. done.
Qed.

(** The bytes a key stands for; [None] when it holds no string. *)
Definition lcs_operand (m : dataset) (k : bytes) : option bytes := on_string m k (Some []) Some None.

Section commands.
Variables (E : env) (T : Z).
Hypothesis Hclk : instant E T.

Lemma lcsOperand_ok {B} m s k (f : bytes + bytes -> M B) (Q : B -> St -> Prop) :
  abs_rel T m s ->
  (forall s', abs_rel T m s' -> keeps m s s' -> wp (f (match lcs_operand m k with Some b => inr b | None => inl lcs_wrongtype end)) s' Q) ->
  wp (lcsOperand E k ≫= f) s Q.
Proof using Hclk.
  intros H HQ. apply wp_bind. apply (wp_get E T Hclk m); [done|]. unfold lcs_operand in HQ. unfold on_string in *.
  get_cases m k; cbn [negb]; try (apply wp_ret; by apply HQ). apply (wp_bytes _ b); [done|]. apply wp_ret. by apply HQ.
Qed.

Lemma lcsCommand_ok m s n k1 k2 args o a b :
  abs_rel T m s -> lcs_loop (mkLcsOpts false false false 0) args = inr o -> wantLen o && wantIdx o = false ->
  lcs_operand m k1 = Some a -> lcs_operand m k2 = Some b -> 4 * ((zlen a + 1) * (zlen b + 1)) <= maxAlloc ->
  exists z ms, longest z a b /\ spelled a ms = z /\ Forall (block_ok a b) ms /\
    does T (lcsCommand E (n :: k1 :: k2 :: args)) m s (lcs_answer (c_resp3 s) o z ms, m).
Proof using Hclk.
  intros H Ho Hw Ha Hb Hs. destruct (lcs_strings_ok (c_resp3 s) o a b Hs) as (z & ms & Hl & Hsp & Hbs & Er). exists z, ms. split_and!; [done..|].
  apply (wp_arg _ _ k1); [done|]. apply (wp_arg _ _ k2); [done|]. change (drop 3 (n :: k1 :: k2 :: args)) with args. rewrite Ho, Hw.
  apply (lcsOperand_ok m); [done|]. intros s1 H1 K1. rewrite Ha. apply (lcsOperand_ok m); [done|]. intros s2 H2 K2. rewrite Hb.
  assert (keeps m s s2) as K by by eapply keeps_trans. apply wp_bind, wp_gets. assert (c_resp3 s2 = c_resp3 s) as -> by apply K.
  eapply wp_lift; [exact Er|]. done.
Qed.

Lemma lcsCommand_wrongtype m s n k1 k2 args o :
  abs_rel T m s -> lcs_loop (mkLcsOpts false false false 0) args = inr o -> wantLen o && wantIdx o = false ->
  lcs_operand m k1 = None \/ lcs_operand m k2 = None -> does T (lcsCommand E (n :: k1 :: k2 :: args)) m s (lcs_wrongtype, m).
Proof using Hclk.
  intros H Ho Hw Hn. apply (wp_arg _ _ k1); [done|]. apply (wp_arg _ _ k2); [done|]. change (drop 3 (n :: k1 :: k2 :: args)) with args. rewrite Ho, Hw.
  apply (lcsOperand_ok m); [done|]. intros s1 H1 K1. destruct (lcs_operand m k1) as [a|]; [|replied].
  apply (lcsOperand_ok m); [done|]. intros s2 H2 K2. destruct (lcs_operand m k2) as [b|]; [by destruct Hn|replied].
Qed.
End commands.
