(* ===== verification/Scans.v ===== *)
(** * KEYS, SCAN, RANDOMKEY, HSCAN and SSCAN ([commands/keyspace.go], [commands/collscan.go])

    The handlers that walk over the keyspace or over one collection.  [scan_call] is SCAN up to the writing of its reply, so
    that an iteration can follow the cursors. *)

From S2P Require Import Prelude Strconv Glob Object Value Db Reply Context Strings Hashes Sets.
Local Open Scope Z_scope.

Definition invalid_cursor : bytes := Error (str "invalid cursor").

(** The options of SCAN: the pattern and the count; [inl] is an error reply. *)
Fixpoint scan_options (args : list bytes) (pattern : bytes) (count : Z) : bytes + (bytes * Z) :=
  match args with
  | [] => inr (pattern, count)
  | a :: rest =>
    let opt := ToUpper a in
    if bool_decide (opt = str "MATCH") then match rest with [] => inl syntax_error | b :: rest => scan_options rest b count end
    else if bool_decide (opt = str "COUNT") then
      match rest with
      | [] => inl syntax_error
      | b :: rest => match ParseInt b with Some n => if n <? 1 then inl syntax_error else scan_options rest pattern n | None => inl syntax_error end
      end
    else if bool_decide (opt = str "TYPE") then match rest with [] => inl syntax_error | _ :: rest => scan_options rest pattern count end
    else inl syntax_error
  end.

(** The first argument that reads TYPE, whatever it is the value of; [[]] is no filter. *)
Fixpoint scanTypeFilter (args : list bytes) : bytes :=
  match args with
  | a :: (b :: _) as rest => if bool_decide (ToUpper a = str "TYPE") then ToLower b else scanTypeFilter rest
  | _ => []
  end.

Record scanOpts := mkScanOpts { so_pattern : bytes; so_noValues : bool }.

Fixpoint parseScanOpts (args : list bytes) (o : scanOpts) : bytes + scanOpts :=
  match args with
  | [] => inr o
  | a :: rest =>
    let opt := ToUpper a in
    if bool_decide (opt = str "MATCH") then match rest with [] => inl syntax_error | b :: rest => parseScanOpts rest (mkScanOpts b (so_noValues o)) end
    else if bool_decide (opt = str "COUNT") then
      match rest with
      | [] => inl syntax_error
      | b :: rest => match ParseInt b with Some n => if n <? 1 then inl syntax_error else parseScanOpts rest o | None => inl syntax_error end
      end
    else if bool_decide (opt = str "NOVALUES") then parseScanOpts rest (mkScanOpts (so_pattern o) true)
    else inl syntax_error
  end.

Definition scanReply (elements : list bytes) : bytes := Array [BulkString (str "0"); Array elements].

(** [opts.pattern != "" && !glob.Match(opts.pattern, f)] is false. *)
Definition opts_match (o : scanOpts) (f : bytes) : bool := bool_decide (so_pattern o = []) || Match (so_pattern o) f.

Section handlers.
Variable E : env.

Definition db_Keys (pattern : bytes) : M (list bytes) := db_call E (fun P o t db => Some (Keys o t db pattern, db)).
Definition db_Scan (cursor : Z) (pattern : bytes) (count : Z) : M (Z * list bytes) := db_call E (fun P o t db => Some (Scan o t db cursor pattern count, db)).
Definition db_RandomKey : M bytes := db_call E (fun P o t db => Some (RandomKey o t db, db)).

Definition keysCommand (argv : list bytes) : M bytes :=
  pattern ← arg argv 1;
  keys ← db_Keys pattern;
  mret (Array (BulkString <$> keys)).

(** The filter by type looks every key up again. *)
Fixpoint of_type (typ : bytes) (keys : list bytes) : M (list bytes) :=
  match keys with
  | [] => mret []
  | k :: keys =>
    obj ← db_Get E k;
    rest ← of_type typ keys;
    mret (match obj with Some o => if bool_decide (TypeName o = typ) then k :: rest else rest | None => rest end)
  end.

Definition scan_call (argv : list bytes) : M (bytes + (Z * list bytes)) :=
  a1 ← arg argv 1;
  match ParseUint a1 with
  | None => mret (inl invalid_cursor)
  | Some cursor =>
    match scan_options (drop 2 argv) [] 10 with
    | inl e => mret (inl e)
    | inr (pattern, count) =>
      '(next, keys) ← db_Scan cursor pattern count;
      let typ := scanTypeFilter (drop 2 argv) in
      keys ← (if bool_decide (typ = []) then mret keys else of_type typ keys);
      mret (inr (next, keys))
    end
  end.

Definition scanCommand (argv : list bytes) : M bytes :=
  r ← scan_call argv;
  mret (match r with
        | inl e => e
        | inr (next, keys) => Array [BulkString (FormatUint next); Array (BulkString <$> keys)]
        end).

Definition randomkeyCommand (argv : list bytes) : M bytes :=
  k ← db_RandomKey;
  mret (if bool_decide (k = []) then NullBulkString else BulkString k).

(** [inl] is an error reply. *)
Definition scan_start (argv : list bytes) : M (bytes + scanOpts) :=
  a2 ← arg argv 2;
  match ParseUint a2 with
  | None => mret (inl invalid_cursor)
  | Some _ => mret (parseScanOpts (drop 3 argv) (mkScanOpts [] false))
  end.

Definition hscanCommand (argv : list bytes) : M bytes :=
  o ← scan_start argv;
  match o with
  | inl e => mret e
  | inr o =>
    key ← arg argv 1;
    r ← getHash E key;
    match r with
    | inl e => mret e
    | inr None => mret (scanReply [])
    | inr (Some h) =>
      kvs ← hv_entries E h;
      mret (scanReply (concat ((fun kv => if so_noValues o then [BulkString kv.1] else [BulkString kv.1; BulkString kv.2])
                                 <$> filter (fun kv => opts_match o kv.1 = true) kvs)))
    end
  end.

Definition sscanCommand (argv : list bytes) : M bytes :=
  o ← scan_start argv;
  match o with
  | inl e => mret e
  | inr o =>
    key ← arg argv 1;
    r ← getSetView E key;
    match r with
    | inl e => mret e
    | inr None => mret (scanReply [])
    | inr (Some v) =>
      ms ← sv_Members E v;
      mret (scanReply (BulkString <$> filter (fun b => opts_match o b = true) ms))
    end
  end.

End handlers.
