(* ===== verification/Hll.v ===== *)
(** * HyperLogLog sketches ([datastruct/hll/hll.go])

    A sketch is a string of bytes: a header and 16384 registers of six bits.  [GetRegister] and [SetRegister] work on bytes, [Add]
    on a word of 16 bits; both are shown to read and write the same bits.  A sketch depends only on the set of the elements that were
    added to it ([sketch_ext]), and merging sketches gives the sketch of the union ([merge_sketches]).  The estimate
    of the cardinality ([Count]) is floating-point arithmetic and is not modelled. *)

From S2P Require Import Prelude Request.
Local Open Scope Z_scope.

Definition HLL_P : Z := 14.
Definition HLL_Q : Z := 64 - HLL_P.
Definition HLL_REGISTERS : Z := Z.shiftl 1 HLL_P.
Definition HLL_BITS : Z := 6.
Definition HLL_REGISTER_MAX : Z := Z.shiftl 1 HLL_BITS - 1.
Definition HLL_HDR_SIZE : Z := 16.
Definition HLL_DENSE_SIZE : Z := HLL_HDR_SIZE + Z.quot (HLL_REGISTERS * HLL_BITS) 8.
Definition HLL_HASH_SEED : Z := 0xadc83b19.

Definition NewHLL : bytes := str "HYLL" ++ [0] ++ replicate 10 0 ++ [128] ++ replicate (Z.to_nat (HLL_DENSE_SIZE + 2 - HLL_HDR_SIZE)) 0.

(** A long string is used as it is, a shorter one is copied over a new sketch. *)
Definition FromBytes (buf : bytes) : bytes := if zlen buf <? HLL_DENSE_SIZE + 2 then go_copy NewHLL buf else buf.

Definition HllBytes (h : bytes) : bytes := if HLL_DENSE_SIZE <=? zlen h then take (Z.to_nat HLL_DENSE_SIZE) h else h.

(** ** The hash *)

(** [binary.LittleEndian.Uint64] *)
Definition uint_le (b : bytes) : Z := foldr (fun x acc => x + 256 * acc) 0 b.

Definition murmur_m : Z := 0xc6a4a7935bd1e995.
Definition murmur_r : Z := 47.

Fixpoint murmur_blocks (n : nat) (key : bytes) (h : Z) : Z :=
  match n with
  | O => h
  | S n =>
    let k := u64 (uint_le (take 8 key) * murmur_m) in
    let k := Z.lxor k (Z.shiftr k murmur_r) in
    let k := u64 (k * murmur_m) in
    murmur_blocks n (drop 8 key) (u64 (Z.lxor h k * murmur_m))
  end.

(** The cases that fall through: the last byte first. *)
Fixpoint murmur_tail (i : Z) (tail : bytes) (h : Z) : Z :=
  match tail with
  | [] => h
  | b :: tail => Z.lxor (murmur_tail (i + 1) tail h) (Z.shiftl b (8 * i))
  end.

Definition MurmurHash64A (key : bytes) (seed : Z) : Z :=
  let h := Z.lxor seed (u64 (zlen key * murmur_m)) in
  let nblocks := (length key / 8)%nat in
  let h := murmur_blocks nblocks key h in
  let tail := drop (nblocks * 8) key in
  let h := match tail with [] => h | _ => u64 (murmur_tail 0 tail h * murmur_m) end in
  let h := Z.lxor h (Z.shiftr h murmur_r) in
  let h := u64 (h * murmur_m) in
  Z.lxor h (Z.shiftr h murmur_r).

(** [bits.TrailingZeros64] *)
Fixpoint trailing_zeros (fuel : nat) (x : Z) : Z :=
  match fuel with
  | O => 0
  | S fuel => if Z.odd x then 0 else 1 + trailing_zeros fuel (Z.shiftr x 1)
  end.

Definition TrailingZeros64 (x : Z) : Z := trailing_zeros 64 x.

(** ** The registers *)

Definition GetRegister (h : bytes) (regnum : Z) : option Z :=
  let byteOffset := HLL_HDR_SIZE + Z.quot (regnum * HLL_BITS) 8 in
  let fb := Z.land (regnum * HLL_BITS) 7 in
  let fb8 := 8 - fb in
  b0 ← go_at h byteOffset;
  b1 ← (if byteOffset + 1 <? zlen h then go_at h (byteOffset + 1) else Some 0);
  Some (u8 (Z.land (Z.lor (Z.shiftr b0 fb) (u32 (Z.shiftl b1 fb8))) HLL_REGISTER_MAX)).

(** [^x] of a byte. *)
Definition not8 (x : Z) : Z := Z.lxor 255 x.
Definition not16 (x : Z) : Z := Z.lxor 65535 x.

(** [h.data[15] |= 0x80] *)
Definition invalidate (h : bytes) : option bytes := x ← go_at h 15; go_set h 15 (Z.lor x 128).

Definition SetRegister (h : bytes) (regnum val : Z) : option bytes :=
  let byteOffset := HLL_HDR_SIZE + Z.quot (regnum * HLL_BITS) 8 in
  let fb := Z.land (regnum * HLL_BITS) 7 in
  let fb8 := 8 - fb in
  let v := Z.land val HLL_REGISTER_MAX in
  b0 ← go_at h byteOffset;
  h ← go_set h byteOffset (Z.lor (Z.land b0 (not8 (u8 (Z.shiftl HLL_REGISTER_MAX fb)))) (u8 (Z.shiftl v fb)));
  h ← (if byteOffset + 1 <? zlen h then
         b1 ← go_at h (byteOffset + 1);
         go_set h (byteOffset + 1) (Z.lor (Z.land b1 (not8 (u8 (Z.shiftr HLL_REGISTER_MAX fb8)))) (u8 (Z.shiftr v fb8)))
       else Some h);
  invalidate h.

(** The register of an element and the rank it asks for. *)
Definition hll_index (elem : bytes) : Z := Z.land (MurmurHash64A elem HLL_HASH_SEED) (HLL_REGISTERS - 1).
Definition hll_rank (elem : bytes) : Z :=
  let hash := Z.shiftr (MurmurHash64A elem HLL_HASH_SEED) HLL_P in
  u8 (TrailingZeros64 (Z.lor hash (Z.shiftl 1 HLL_Q)) + 1).

Definition Add (h : bytes) (elem : bytes) : option (bytes * bool) :=
  let index := hll_index elem in
  let count := hll_rank elem in
  let bitOffset := index * HLL_BITS in
  let byteOffset := HLL_HDR_SIZE + Z.shiftr bitOffset 3 in
  let fb := Z.land bitOffset 7 in
  b0 ← go_at h byteOffset;
  b1 ← go_at h (byteOffset + 1);
  let w := b0 + 256 * b1 in
  let oldCount := u8 (Z.land (Z.shiftr w fb) HLL_REGISTER_MAX) in
  if oldCount <? count then
    let w := Z.land w (not16 (u16 (Z.shiftl HLL_REGISTER_MAX fb))) in
    let w := Z.lor w (u16 (Z.shiftl (Z.land count HLL_REGISTER_MAX) fb)) in
    h ← go_set h byteOffset (u8 w);
    h ← go_set h (byteOffset + 1) (u8 (Z.shiftr w 8));
    h ← invalidate h;
    Some (h, true)
  else Some (h, false).

Fixpoint merge_loop (n : nat) (i : Z) (h other : bytes) : option bytes :=
  match n with
  | O => Some h
  | S n =>
    rA ← GetRegister h i;
    rB ← GetRegister other i;
    h ← (if rA <? rB then SetRegister h i rB else Some h);
    merge_loop n (i + 1) h other
  end.

Definition Merge (h other : bytes) : option bytes :=
  h ← merge_loop (Z.to_nat HLL_REGISTERS) 0 h other;
  invalidate h.

(** ** Bits *)

Definition byte_at (h : bytes) (n : Z) : Z := default 0 (h !! Z.to_nat n).

(** Bit [k] of the registers. *)
Definition bit_at (h : bytes) (k : Z) : bool := Z.testbit (byte_at h (16 + k / 8)) (k mod 8).

Definition sized (h : bytes) : Prop := 12306 <= zlen h /\ is_bytes h.

Lemma byte_at_range h n : is_bytes h -> 0 <= byte_at h n < 256.
Proof. intros H. unfold byte_at. destruct (h !! Z.to_nat n) eqn:E; [|done]. by apply (Forall_lookup_1 _ _ _ _ H) in E. Qed.

Lemma go_at_byte h n : 0 <= n < zlen h -> go_at h n = Some (byte_at h n).
Proof.
  intros Hn. rewrite go_at_lookup by lia. unfold byte_at. destruct (h !! Z.to_nat n) eqn:E; [done|]. apply lookup_ge_None in E. unfold zlen in Hn. lia.
Qed.

Lemma go_set_byte h n x : sized h -> 0 <= n < zlen h -> 0 <= x < 256 ->
  exists h', go_set h n x = Some h' /\ sized h' /\ zlen h' = zlen h /\ forall m, 0 <= m -> byte_at h' m = if m =? n then x else byte_at h m.
Proof.
  intros [Hl Hb] Hn Hx. unfold go_set. replace (_ && _) with true by lia. eexists. split; [done|]. assert (zlen (<[Z.to_nat n := x]> h) = zlen h) as Hz by (by rewrite zlen_insert).
  split_and!; [split; [lia|by apply Forall_insert]|done|]. intros m Hm. unfold byte_at. destruct (Z.eqb_spec m n) as [->|Hne].
  - by rewrite list_lookup_insert_eq by (unfold zlen in Hn; lia).
  - rewrite list_lookup_insert_ne by lia. done.
Qed.

Lemma byte_high x j : 0 <= x < 256 -> 8 <= j -> Z.testbit x j = false.
Proof. intros Hx Hj. destruct (decide (x = 0)) as [->|]; [apply Z.bits_0|]. apply Z.bits_above_log2; [lia|]. apply Z.log2_lt_pow2; [lia|]. assert (2 ^ 8 <= 2 ^ j) by (apply Z.pow_le_mono_r; lia). lia. Qed.

Lemma mask_bit n j : 0 <= n -> Z.testbit (2 ^ n - 1) j = (0 <=? j) && (j <? n).
Proof.
  intros Hn. replace (2 ^ n - 1) with (Z.ones n) by (rewrite Z.ones_equiv; lia). destruct (Z.leb_spec 0 j); [|by rewrite Z.testbit_neg_r by lia].
  rewrite Z.testbit_ones by lia. destruct (Z.leb_spec 0 j); [done|lia].
Qed.

Lemma mod_bit n x j : 0 <= n -> 0 <= j -> Z.testbit (x mod 2 ^ n) j = (j <? n) && Z.testbit x j.
Proof. intros Hn Hj. destruct (Z.ltb_spec j n); [by apply Z.mod_pow2_bits_low|apply Z.mod_pow2_bits_high; lia]. Qed.

Lemma shiftl_bit x n j : 0 <= j -> Z.testbit (Z.shiftl x n) j = Z.testbit x (j - n).
Proof. intros Hj. by apply Z.shiftl_spec. Qed.

(** Two bytes that hold a register. *)
Lemma register_place i j : 0 <= i -> 0 <= j < 6 ->
  if (6 * i) mod 8 + j <? 8 then (6 * i + j) / 8 = 6 * i / 8 /\ (6 * i + j) mod 8 = (6 * i) mod 8 + j
  else (6 * i + j) / 8 = 6 * i / 8 + 1 /\ (6 * i + j) mod 8 = (6 * i) mod 8 + j - 8.
Proof.
  intros Hi Hj. pose proof (Z.div_mod (6 * i) 8 ltac:(lia)) as Hd. pose proof (Z.mod_pos_bound (6 * i) 8 ltac:(lia)) as Hm. set (q := 6 * i / 8) in *. set (r := (6 * i) mod 8) in *.
  destruct (Z.ltb_spec (r + j) 8); split; symmetry.
  - apply (Z.div_unique _ _ _ (r + j)); lia.
  - apply (Z.mod_unique _ _ q); lia.
  - apply (Z.div_unique _ _ _ (r + j - 8)); lia.
  - apply (Z.mod_unique _ _ (q + 1)); lia.
Qed.

Lemma register_bounds i : 0 <= i < 16384 -> 0 <= 6 * i / 8 <= 12287 /\ 0 <= (6 * i) mod 8 <= 7.
Proof. intros Hi. pose proof (Z.div_mod (6 * i) 8 ltac:(lia)). pose proof (Z.mod_pos_bound (6 * i) 8 ltac:(lia)). lia. Qed.

Lemma register_offset i : 0 <= i -> HLL_HDR_SIZE + Z.quot (i * HLL_BITS) 8 = 16 + 6 * i / 8 /\ Z.land (i * HLL_BITS) 7 = (6 * i) mod 8 /\
  HLL_HDR_SIZE + Z.shiftr (i * HLL_BITS) 3 = 16 + 6 * i / 8.
Proof.
  intros Hi. unfold HLL_HDR_SIZE, HLL_BITS. rewrite (Z.mul_comm i 6). split_and!.
  - by rewrite Z.quot_div_nonneg by lia.
  - change 7 with (Z.ones 3). by rewrite Z.land_ones by lia.
  - by rewrite Z.shiftr_div_pow2 by lia.
Qed.

(** The value whose bits are those of register [i]. *)
Definition is_register (h : bytes) (i v : Z) : Prop := 0 <= v < 64 /\ forall j, 0 <= j < 6 -> Z.testbit v j = bit_at h (6 * i + j).

Lemma small_bits v w n : 0 <= n -> 0 <= v < 2 ^ n -> 0 <= w < 2 ^ n -> (forall j, 0 <= j < n -> Z.testbit v j = Z.testbit w j) -> v = w.
Proof.
  intros Hn Hv Hw H. apply Z.bits_inj'. intros j Hj. destruct (Z.lt_ge_cases j n); [by apply H|].
  rewrite <- (Z.mod_small v (2 ^ n)), <- (Z.mod_small w (2 ^ n)) by lia. by rewrite !Z.mod_pow2_bits_high by lia.
Qed.

Lemma land63_range x : 0 <= x -> 0 <= Z.land x 63 < 64.
Proof. intros Hx. change 63 with (Z.ones 6). rewrite Z.land_ones by lia. apply Z.mod_pos_bound. lia. Qed.

Lemma land63_bit x j : 0 <= j < 6 -> Z.testbit (Z.land x 63) j = Z.testbit x j.
Proof. intros Hj. rewrite Z.land_spec. change 63 with (2 ^ 6 - 1). rewrite mask_bit, (proj2 (Z.leb_le 0 j)), (proj2 (Z.ltb_lt j 6)) by lia. apply andb_true_r. Qed.

Lemma GetRegister_ok h i : sized h -> 0 <= i < 16384 -> exists v, GetRegister h i = Some v /\ is_register h i v.
Proof.
  intros [Hl Hb] Hi. destruct (register_bounds i Hi) as [Ho Hfb]. destruct (register_offset i) as (E1 & E2 & _); [lia|].
  unfold GetRegister. rewrite E1, E2. cbv zeta. rewrite (go_at_byte h (16 + 6 * i / 8)) by lia. go_bind. rewrite (proj2 (Z.ltb_lt _ (zlen h))), go_at_byte by lia. go_bind.
  eexists. split; [done|]. set (b0 := byte_at h (16 + 6 * i / 8)). set (b1 := byte_at h (16 + 6 * i / 8 + 1)). change HLL_REGISTER_MAX with 63.
  pose proof (byte_at_range h (16 + 6 * i / 8) Hb) as H0. pose proof (byte_at_range h (16 + 6 * i / 8 + 1) Hb) as H1. fold b0 in H0. fold b1 in H1.
  assert (0 <= Z.shiftr b0 ((6 * i) mod 8)) as Hs0 by (apply Z.shiftr_nonneg; lia). assert (0 <= u32 (Z.shiftl b1 (8 - (6 * i) mod 8))) as Hs1 by (apply Z.mod_pos_bound; lia).
  assert (0 <= Z.lor (Z.shiftr b0 ((6 * i) mod 8)) (u32 (Z.shiftl b1 (8 - (6 * i) mod 8)))) as Hlor by (by apply Z.lor_nonneg).
  pose proof (land63_range _ Hlor) as Hr. unfold u8. rewrite Z.mod_small by lia. split; [exact Hr|]. intros j Hj. rewrite land63_bit by lia.
  rewrite Z.lor_spec, Z.shiftr_spec by lia. unfold u32. rewrite mod_bit, shiftl_bit by lia. rewrite (proj2 (Z.ltb_lt j 32)) by lia. cbn [andb].
  unfold bit_at. pose proof (register_place i j ltac:(lia) Hj) as Hp. destruct (Z.ltb_spec ((6 * i) mod 8 + j) 8) as [Hlt|Hge]; destruct Hp as [-> ->].
  - rewrite (Z.testbit_neg_r b1) by lia. rewrite orb_false_r. fold b0. f_equal. lia.
  - rewrite (byte_high b0) by lia. cbn [orb]. rewrite Z.add_assoc. fold b1. f_equal. lia.
Qed.

(** ** Writing a register *)

(** Register [i] is [v], the cached count is invalid and nothing else has changed. *)
Record wrote (h : bytes) (i v : Z) (h' : bytes) : Prop := {
  wr_sized : sized h';
  wr_len : zlen h' = zlen h;
  wr_bits k : 0 <= k < 98304 -> bit_at h' k = if (6 * i <=? k) && (k <? 6 * i + 6) then Z.testbit v (k - 6 * i) else bit_at h k;
  wr_rest m : 0 <= m < 15 \/ 12304 <= m -> byte_at h' m = byte_at h m;
  wr_cache : byte_at h' 15 = Z.lor (byte_at h 15) 128
}.

(** The new bytes hold the bits of [v] where the register lies. *)
Definition patched (old new v from : Z) : Prop :=
  0 <= new < 256 /\ forall b, 0 <= b < 8 -> Z.testbit new b = if (0 <=? b + from) && (b + from <? 6) then Z.testbit v (b + from) else Z.testbit old b.

Lemma invalidate_ok h : sized h -> exists h', invalidate h = Some h' /\ sized h' /\ zlen h' = zlen h /\
  forall m, 0 <= m -> byte_at h' m = if m =? 15 then Z.lor (byte_at h 15) 128 else byte_at h m.
Proof.
  intros Hs. pose proof Hs as [Hl Hb]. unfold invalidate. rewrite go_at_byte by lia. go_bind. pose proof (byte_at_range h 15 Hb) as Hx. apply go_set_byte; [done|lia|].
  split; [apply Z.lor_nonneg; lia|]. destruct (decide (Z.lor (byte_at h 15) 128 = 0)); [lia|]. assert (0 <= Z.lor (byte_at h 15) 128) by (apply Z.lor_nonneg; lia).
  change 256 with (2 ^ 8). apply Z.log2_lt_pow2; [lia|]. rewrite Z.log2_lor by lia. apply Z.max_lub_lt; [|done].
  destruct (decide (byte_at h 15 = 0)) as [->|]; [done|]. apply Z.log2_lt_pow2; lia.
Qed.

Lemma write_two h i v x0 x1 :
  sized h -> 0 <= i < 16384 -> patched (byte_at h (16 + 6 * i / 8)) x0 v (- ((6 * i) mod 8)) -> patched (byte_at h (16 + 6 * i / 8 + 1)) x1 v (8 - (6 * i) mod 8) ->
  exists h1 h2 h', go_set h (16 + 6 * i / 8) x0 = Some h1 /\ zlen h1 = zlen h /\ byte_at h1 (16 + 6 * i / 8 + 1) = byte_at h (16 + 6 * i / 8 + 1) /\
    go_set h1 (16 + 6 * i / 8 + 1) x1 = Some h2 /\ invalidate h2 = Some h' /\ wrote h i v h'.
Proof.
  intros Hs Hi [Hx0 Hp0] [Hx1 Hp1]. destruct (register_bounds i Hi) as [Ho Hfb]. pose proof Hs as [Hl Hb]. pose proof (Z.div_mod (6 * i) 8 ltac:(lia)) as Hd. set (q := 6 * i / 8) in *. set (fb := (6 * i) mod 8) in *.
  destruct (go_set_byte h (16 + q) x0 Hs) as (h1 & E1 & Hs1 & Hl1 & H1); [lia|lia|].
  destruct (go_set_byte h1 (16 + q + 1) x1 Hs1) as (h2 & E2 & Hs2 & Hl2 & H2); [lia|lia|]. destruct (invalidate_ok h2 Hs2) as (h' & E3 & Hs3 & Hl3 & H3).
  exists h1, h2, h'. split_and!; [done|done|rewrite H1 by lia; by rewrite (proj2 (Z.eqb_neq _ _)) by lia|done|done|].
  assert (forall m, 0 <= m -> m <> 15 -> byte_at h' m = if m =? 16 + q + 1 then x1 else if m =? 16 + q then x0 else byte_at h m) as Hm.
  { intros m H0 Hne. rewrite H3 by done. rewrite (proj2 (Z.eqb_neq m 15)), H2 by done. destruct (m =? 16 + q + 1); [done|]. by rewrite H1. }
  split; [done|lia| | |].
  - intros k Hk. pose proof (Z.div_mod k 8 ltac:(lia)) as Hkd. pose proof (Z.mod_pos_bound k 8 ltac:(lia)) as Hkm. unfold bit_at. rewrite Hm by lia.
    destruct (Z.eqb_spec (16 + k / 8) (16 + q + 1)) as [Eq|Hn1]; [|destruct (Z.eqb_spec (16 + k / 8) (16 + q)) as [Eq|Hn2]].
    + rewrite Hp1 by lia. replace (k mod 8 + (8 - fb)) with (k - 6 * i) by lia. rewrite Eq. destruct (Z.leb_spec 0 (k - 6 * i)), (Z.leb_spec (6 * i) k), (Z.ltb_spec (k - 6 * i) 6), (Z.ltb_spec k (6 * i + 6)); try lia; done.
    + rewrite Hp0 by lia. replace (k mod 8 + - fb) with (k - 6 * i) by lia. rewrite Eq. destruct (Z.leb_spec 0 (k - 6 * i)), (Z.leb_spec (6 * i) k), (Z.ltb_spec (k - 6 * i) 6), (Z.ltb_spec k (6 * i + 6)); try lia; done.
    + destruct (Z.leb_spec (6 * i) k), (Z.ltb_spec k (6 * i + 6)); cbn [andb]; [lia|done..].
  - intros m Hrange. rewrite Hm by lia. destruct (Z.eqb_spec m (16 + q + 1)) as [->|]; [|by rewrite (proj2 (Z.eqb_neq m (16 + q))) by lia].
    apply (small_bits _ _ 8); [lia|done|by apply byte_at_range|]. intros b Hb'. rewrite Hp1 by done. by rewrite (proj2 (Z.ltb_ge _ 6)), andb_false_r by lia.
  - rewrite H3 by lia. cbn [Z.eqb Pos.eqb]. rewrite H2, H1 by lia. rewrite (proj2 (Z.eqb_neq 15 (16 + q + 1))), (proj2 (Z.eqb_neq 15 (16 + q))) by lia. done.
Qed.

Lemma lor_land_byte x y z : 0 <= x -> 0 <= y -> 0 <= z -> (forall j, 8 <= j -> Z.testbit x j = false) -> (forall j, 8 <= j -> Z.testbit z j = false) -> 0 <= Z.lor (Z.land x y) z < 256.
Proof.
  intros Hx Hy Hz Hbx Hbz. assert (0 <= Z.lor (Z.land x y) z) as H0 by (apply Z.lor_nonneg; split; [by apply Z.land_nonneg; left|done]). split; [done|].
  assert (Z.lor (Z.land x y) z mod 2 ^ 8 = Z.lor (Z.land x y) z) as <-; [|by apply Z.mod_pos_bound].
  apply Z.bits_inj'. intros j Hj. rewrite mod_bit by lia. destruct (Z.ltb_spec j 8); [done|]. by rewrite Z.lor_spec, Z.land_spec, Hbx, Hbz.
Qed.

Lemma not8_bit x b : 0 <= b < 8 -> Z.testbit (not8 x) b = negb (Z.testbit x b).
Proof. intros Hb. unfold not8. rewrite Z.lxor_spec. change 255 with (2 ^ 8 - 1). rewrite mask_bit, (proj2 (Z.leb_le 0 b)), (proj2 (Z.ltb_lt b 8)) by lia. done. Qed.

Lemma SetRegister_ok h i v : sized h -> 0 <= i < 16384 -> 0 <= v < 64 -> exists h', SetRegister h i v = Some h' /\ wrote h i v h'.
Proof.
  intros Hs Hi Hv. destruct (register_bounds i Hi) as [Ho Hfb]. destruct (register_offset i) as (E1 & E2 & _); [lia|]. pose proof Hs as [Hl Hb].
  assert (Z.land v 63 = v) as Ev by (change 63 with (Z.ones 6); rewrite Z.land_ones by lia; by apply Z.mod_small).
  assert (forall b, 6 <= b -> Z.testbit v b = false) as Hvh by (intros b Hb6; rewrite <- (Z.mod_small v (2 ^ 6)) by lia; by apply Z.mod_pow2_bits_high; lia).
  assert (forall x, 0 <= u8 x) as Hu by (intros x; apply Z.mod_pos_bound; lia). assert (forall x, 0 <= not8 (u8 x)) as Hnn by (intros x; apply Z.lxor_nonneg; split; [intros; apply Hu|intros; lia]).
  assert (forall x j, 8 <= j -> Z.testbit (u8 x) j = false) as Huh by (intros; apply Z.mod_pow2_bits_high; lia).
  set (fb := (6 * i) mod 8) in *. set (o := 16 + 6 * i / 8) in *. set (b0 := byte_at h o). set (b1 := byte_at h (o + 1)).
  pose proof (byte_at_range h o Hb) as Hb0. pose proof (byte_at_range h (o + 1) Hb) as Hb1. fold b0 in Hb0. fold b1 in Hb1.
  destruct (write_two h i v (Z.lor (Z.land b0 (not8 (u8 (Z.shiftl 63 fb)))) (u8 (Z.shiftl v fb))) (Z.lor (Z.land b1 (not8 (u8 (Z.shiftr 63 (8 - fb))))) (u8 (Z.shiftr v (8 - fb)))))
    as (h1 & h2 & h' & W1 & L1 & B1 & W2 & W3 & HW); [done|done| | |].
  - split; [apply lor_land_byte; try done; [lia|by intros; apply byte_high; lia|by intros; apply Huh]|]. intros b Hb'. fold o. fold b0. fold fb.
    rewrite Z.lor_spec, Z.land_spec, not8_bit by done. unfold u8. rewrite !mod_bit, !shiftl_bit by lia. rewrite (proj2 (Z.ltb_lt b 8)) by lia. cbn [andb].
    change 63 with (2 ^ 6 - 1). rewrite mask_bit by lia. replace (b + - fb) with (b - fb) by lia.
    destruct (Z.leb_spec 0 (b - fb)); [destruct (Z.ltb_spec (b - fb) 6)|]; cbn [andb negb]; [by rewrite andb_false_r|rewrite (Hvh (b - fb)) by lia; by rewrite andb_true_r, orb_false_r|].
    rewrite (Z.testbit_neg_r v) by lia. by rewrite andb_true_r, orb_false_r.
  - split; [apply lor_land_byte; try done; [lia|by intros; apply byte_high; lia|by intros; apply Huh]|]. intros b Hb'. fold o. fold b1. fold fb.
    rewrite Z.lor_spec, Z.land_spec, not8_bit by done. unfold u8. rewrite !mod_bit, !Z.shiftr_spec by lia. rewrite (proj2 (Z.ltb_lt b 8)) by lia. cbn [andb].
    change 63 with (2 ^ 6 - 1). rewrite mask_bit by lia. rewrite (proj2 (Z.leb_le 0 (b + (8 - fb)))) by lia.
    destruct (Z.ltb_spec (b + (8 - fb)) 6); cbn [andb negb]; [by rewrite andb_false_r|]. rewrite (Hvh (b + (8 - fb))) by lia. by rewrite andb_true_r, orb_false_r.
  - unfold SetRegister. rewrite E1, E2. cbv zeta. fold o. fold fb. rewrite (go_at_byte h o) by (unfold o; lia). go_bind. change HLL_REGISTER_MAX with 63. rewrite Ev. fold b0. fold o in W1. rewrite W1. go_bind.
    rewrite L1, (proj2 (Z.ltb_lt _ _)) by (unfold o; lia). rewrite go_at_byte by (rewrite L1; unfold o; lia). fold o in B1. rewrite B1. fold b1. go_bind. fold o in W2. rewrite W2. go_bind. by exists h'.
Qed.

(** ** Adding an element *)

Lemma MurmurHash64A_nonneg key seed : 0 <= MurmurHash64A key seed.
Proof.
  unfold MurmurHash64A. cbv zeta. set (x := u64 _). assert (0 <= x) by (apply Z.mod_pos_bound; lia). apply Z.lxor_nonneg. split; intros; [|done]. by apply Z.shiftr_nonneg.
Qed.

Lemma trailing_zeros_nonneg fuel : forall x, 0 <= trailing_zeros fuel x.
Proof. induction fuel as [|fuel IH]; intros x; cbn [trailing_zeros]; [lia|]. destruct (Z.odd x); [lia|]. pose proof (IH (Z.shiftr x 1)). lia. Qed.

Lemma trailing_zeros_le fuel : forall x n, 0 <= n -> Z.testbit x n = true -> trailing_zeros fuel x <= n.
Proof.
  induction fuel as [|fuel IH]; intros x n Hn Hx; cbn [trailing_zeros]; [lia|]. destruct (Z.odd x) eqn:Eo; [lia|]. rewrite <- Z.bit0_odd in Eo.
  destruct (decide (n = 0)) as [->|]; [congruence|]. pose proof (IH (Z.shiftr x 1) (n - 1) ltac:(lia)) as H. rewrite Z.shiftr_spec in H by lia. replace (n - 1 + 1) with n in H by lia. specialize (H Hx). lia.
Qed.

Lemma hll_index_range e : 0 <= hll_index e < 16384.
Proof. unfold hll_index. change (HLL_REGISTERS - 1) with (Z.ones 14). rewrite Z.land_ones by lia. apply Z.mod_pos_bound. lia. Qed.

Lemma hll_rank_range e : 1 <= hll_rank e <= 51.
Proof.
  unfold hll_rank. cbv zeta. set (x := Z.lor _ _). pose proof (trailing_zeros_nonneg 64 x) as H0. assert (trailing_zeros 64 x <= 50) as H1.
  { apply trailing_zeros_le; [lia|]. unfold x. rewrite Z.lor_spec. change (Z.testbit (Z.shiftl 1 HLL_Q) 50) with true. apply orb_true_r. }
  unfold TrailingZeros64, u8. rewrite Z.mod_small by lia. lia.
Qed.

Lemma word_bit b0 b1 n : 0 <= b0 < 256 -> 0 <= b1 < 256 -> 0 <= n -> Z.testbit (b0 + 256 * b1) n = if n <? 8 then Z.testbit b0 n else Z.testbit b1 (n - 8).
Proof.
  intros H0 H1 Hn. destruct (Z.ltb_spec n 8).
  - rewrite <- (Z.mod_pow2_bits_low (b0 + 256 * b1) 8) by lia. f_equal. rewrite (Z.mul_comm 256), Z.mod_add by lia. apply Z.mod_small. lia.
  - replace n with (n - 8 + 8) at 1 by lia. rewrite <- Z.shiftr_spec by lia. f_equal. rewrite Z.shiftr_div_pow2 by lia. change (2 ^ 8) with 256. rewrite (Z.mul_comm 256), Z.div_add by lia. rewrite Z.div_small by lia. lia.
Qed.

(** What [Add] means for its register. *)
Lemma Add_ok h e v : sized h -> is_register h (hll_index e) v ->
  exists h' upd, Add h e = Some (h', upd) /\ upd = (v <? hll_rank e) /\ if v <? hll_rank e then wrote h (hll_index e) (hll_rank e) h' else h' = h.
Proof.
  intros Hs [Hv Hreg]. pose proof (hll_index_range e) as Hi. pose proof (hll_rank_range e) as Hr. unfold Add. cbv zeta. set (i := hll_index e) in *. set (c := hll_rank e) in *.
  destruct (register_bounds i Hi) as [Ho Hfb]. destruct (register_offset i) as (_ & E2 & E1); [lia|]. rewrite E1, E2. pose proof Hs as [Hl Hb].
  rewrite (go_at_byte h (16 + 6 * i / 8)) by lia. go_bind. rewrite go_at_byte by lia. go_bind. change HLL_REGISTER_MAX with 63.
  pose proof (byte_at_range h (16 + 6 * i / 8) Hb) as Hb0. pose proof (byte_at_range h (16 + 6 * i / 8 + 1) Hb) as Hb1.
  assert (Z.land c 63 = c) as Ec by (change 63 with (Z.ones 6); rewrite Z.land_ones by lia; apply Z.mod_small; lia). rewrite Ec.
  assert (forall b, 6 <= b -> Z.testbit c b = false) as Hch by (intros b Hb6; rewrite <- (Z.mod_small c (2 ^ 6)) by lia; by apply Z.mod_pow2_bits_high; lia).
  set (w := byte_at h (16 + 6 * i / 8) + 256 * byte_at h (16 + 6 * i / 8 + 1)). assert (0 <= w) as Hw by (unfold w; lia).
  assert (u8 (Z.land (Z.shiftr w ((6 * i) mod 8)) 63) = v) as ->.
  { assert (0 <= Z.shiftr w ((6 * i) mod 8)) as Hs0 by (by apply Z.shiftr_nonneg). pose proof (land63_range _ Hs0) as Hr0. unfold u8. rewrite Z.mod_small by lia.
    apply (small_bits _ _ 6); [lia|done|done|]. intros j Hj. rewrite land63_bit, Hreg, Z.shiftr_spec by lia. unfold w. rewrite word_bit by lia. unfold bit_at.
    pose proof (register_place i j ltac:(lia) Hj) as Hp. rewrite (Z.add_comm j). destruct (Z.ltb_spec ((6 * i) mod 8 + j) 8) as [Hlt|Hge]; destruct Hp as [-> ->]; [done|]. by rewrite Z.add_assoc. }
  destruct (Z.ltb_spec v c) as [Hlt|Hge]; [|by exists h, false]. set (w' := Z.lor _ _).
  assert (forall b, 0 <= b < 16 -> Z.testbit w' b = if (0 <=? b - (6 * i) mod 8) && (b - (6 * i) mod 8 <? 6) then Z.testbit c (b - (6 * i) mod 8) else Z.testbit w b) as Hw'.
  { intros b Hb'. unfold w'. rewrite Z.lor_spec, Z.land_spec. unfold not16, u16. rewrite Z.lxor_spec. change 65535 with (2 ^ 16 - 1). rewrite mask_bit, !mod_bit, !shiftl_bit by lia.
    change 63 with (2 ^ 6 - 1). rewrite mask_bit by lia. rewrite (proj2 (Z.leb_le 0 b)), (proj2 (Z.ltb_lt b 16)) by lia. cbn [andb xorb].
    destruct (Z.leb_spec 0 (b - (6 * i) mod 8)); [destruct (Z.ltb_spec (b - (6 * i) mod 8) 6)|]; cbn [andb negb]; [by rewrite andb_false_r|rewrite Hch by lia; by rewrite andb_true_r, orb_false_r|].
    rewrite (Z.testbit_neg_r c) by lia. by rewrite andb_true_r, orb_false_r. }
  destruct (write_two h i c (u8 w') (u8 (Z.shiftr w' 8))) as (h1 & h2 & h' & W1 & _ & _ & W2 & W3 & HW); [done|done| | |].
  - split; [apply Z.mod_pos_bound; lia|]. intros b Hb'. unfold u8. rewrite mod_bit, (proj2 (Z.ltb_lt b 8)), Hw' by lia. cbn [andb]. replace (b + - ((6 * i) mod 8)) with (b - (6 * i) mod 8) by lia.
    unfold w. rewrite word_bit, (proj2 (Z.ltb_lt b 8)) by lia. done.
  - split; [apply Z.mod_pos_bound; lia|]. intros b Hb'. unfold u8. rewrite mod_bit, (proj2 (Z.ltb_lt b 8)), Z.shiftr_spec, Hw' by lia. cbn [andb]. replace (b + (8 - (6 * i) mod 8)) with (b + 8 - (6 * i) mod 8) by lia.
    unfold w. rewrite word_bit, (proj2 (Z.ltb_ge (b + 8) 8)) by lia. by replace (b + 8 - 8) with b by lia.
  - rewrite W1. go_bind. rewrite W2. go_bind. rewrite W3. go_bind. by exists h', true.
Qed.

(** ** What a sketch holds *)

Definition reg (h : bytes) (i : Z) : Z := default 0 (GetRegister h i).

Lemma reg_ok h i : sized h -> 0 <= i < 16384 -> GetRegister h i = Some (reg h i) /\ is_register h i (reg h i).
Proof. intros Hs Hi. destruct (GetRegister_ok h i Hs Hi) as (v & Ev & Hv). unfold reg. by rewrite Ev. Qed.

Lemma is_register_unique h i v w : is_register h i v -> is_register h i w -> v = w.
Proof. intros [Hv Hv'] [Hw Hw']. apply (small_bits _ _ 6); [lia|done|done|]. intros j Hj. by rewrite Hv', Hw'. Qed.

Lemma wrote_reg h i v h' i' : sized h -> wrote h i v h' -> 0 <= v < 64 -> 0 <= i < 16384 -> 0 <= i' < 16384 -> reg h' i' = if i' =? i then v else reg h i'.
Proof.
  intros Hs HW Hv Hi Hi'. apply (is_register_unique h' i'); [apply reg_ok; [apply HW|done]|]. destruct (Z.eqb_spec i' i) as [->|Hne].
  - split; [done|]. intros j Hj. rewrite (wr_bits _ _ _ _ HW) by lia. rewrite (proj2 (Z.leb_le _ _)), (proj2 (Z.ltb_lt _ _)) by lia. cbn [andb]. f_equal. lia.
  - destruct (reg_ok h i' Hs Hi') as [_ [Hr Hbits]]. split; [done|]. intros j Hj. rewrite (wr_bits _ _ _ _ HW) by lia. rewrite Hbits by done.
    destruct (Z.leb_spec (6 * i) (6 * i' + j)), (Z.ltb_spec (6 * i' + j) (6 * i + 6)); cbn [andb]; [lia|done..].
Qed.

(** The largest rank that elements of [l] ask of register [i]. *)
Definition rank_of (l : list bytes) (i : Z) : Z := foldr (fun e acc => if hll_index e =? i then Z.max (hll_rank e) acc else acc) 0 l.

Lemma rank_of_le l i x : rank_of l i <= x <-> 0 <= x /\ forall e, e ∈ l -> hll_index e = i -> hll_rank e <= x.
Proof.
  induction l as [|e l IH]; cbn [rank_of foldr].
  - split; [intros H; split; [lia|]; intros e He; by apply not_elem_of_nil in He|by intros [? _]].
  - fold (rank_of l i). destruct (Z.eqb_spec (hll_index e) i) as [<-|Hne].
    + rewrite Z.max_lub_iff, IH. split.
      * intros (He & Hx & Hl). split; [done|]. intros e' [->|He']%elem_of_cons; [done|by apply Hl].
      * intros [Hx Hl]. split_and!; [by apply Hl; [left|]|done|]. intros e' He'. apply Hl. by right.
    + rewrite IH. split; intros [Hx Hl]; (split; [done|]); intros e' He'; [apply elem_of_cons in He' as [->|He']; [done|by apply Hl]|apply Hl; by right].
Qed.

Lemma rank_of_ge l i e : e ∈ l -> hll_index e = i -> hll_rank e <= rank_of l i.
Proof. intros He Hi. exact (proj2 (proj1 (rank_of_le l i (rank_of l i)) (Z.le_refl _)) e He Hi). Qed.

Lemma rank_of_range l i : 0 <= rank_of l i <= 51.
Proof. split; [exact (proj1 (proj1 (rank_of_le l i (rank_of l i)) (Z.le_refl _)))|]. apply rank_of_le. split; [lia|]. intros e _ _. apply hll_rank_range. Qed.

Lemma rank_of_app l1 l2 i : rank_of (l1 ++ l2) i = Z.max (rank_of l1 i) (rank_of l2 i).
Proof.
  apply Z.le_antisymm.
  - apply rank_of_le. split; [pose proof (rank_of_range l1 i); lia|]. intros e [He|He]%elem_of_app Hi; [pose proof (rank_of_ge l1 i e He Hi)|pose proof (rank_of_ge l2 i e He Hi)]; lia.
  - apply Z.max_lub; apply rank_of_le; (split; [apply rank_of_range|]); intros e He; apply rank_of_ge, elem_of_app; [by left|by right].
Qed.

Lemma rank_of_ext l1 l2 i : (forall e, e ∈ l1 <-> e ∈ l2) -> rank_of l1 i = rank_of l2 i.
Proof. intros H. apply Z.le_antisymm; apply rank_of_le; (split; [apply rank_of_range|]); intros e He; apply rank_of_ge; by apply H. Qed.

Record sketch_of (h : bytes) (l : list bytes) : Prop := {
  sk_sized : sized h;
  sk_len : zlen h = 12306;
  sk_regs i : 0 <= i < 16384 -> reg h i = rank_of l i;
  sk_rest m : 0 <= m < 16 \/ 12304 <= m -> byte_at h m = byte_at NewHLL m
}.

(** The registers and the header are all there is. *)
Lemma sketch_unique h h' l l' : sketch_of h l -> sketch_of h' l' -> (forall i, 0 <= i < 16384 -> rank_of l i = rank_of l' i) -> h = h'.
Proof.
  intros [Hs Hl Hr He] [Hs' Hl' Hr' He'] H.
  assert (forall m, 0 <= m -> byte_at h m = byte_at h' m) as Hb.
  { intros m Hm. destruct (decide (16 <= m < 12304)) as [Hin|]; [|rewrite He, He' by lia; done].
    apply (small_bits _ _ 8); [lia|apply byte_at_range, Hs|apply byte_at_range, Hs'|]. intros b Hb. set (k := 8 * (m - 16) + b).
    assert (forall x, Z.testbit (byte_at x m) b = bit_at x k) as Hk.
    { intros x. unfold bit_at. rewrite <- (Z.div_unique k 8 (m - 16) b), <- (Z.mod_unique k 8 (m - 16) b) by lia. f_equal. f_equal. lia. }
    rewrite !Hk. pose proof (Z.div_mod k 6 ltac:(lia)) as Hd. pose proof (Z.mod_pos_bound k 6 ltac:(lia)) as Hmod. assert (0 <= k / 6 < 16384) as Hi by lia.
    destruct (reg_ok h _ Hs Hi) as [_ [_ E1]], (reg_ok h' _ Hs' Hi) as [_ [_ E2]]. rewrite Hd, <- E1, <- E2 by done. by rewrite Hr, Hr', H. }
  apply list_eq_same_length with (n := length h); [unfold zlen in *; lia|unfold zlen in *; lia|]. intros n x y Hn Hx Hy. specialize (Hb (Z.of_nat n) ltac:(lia)). unfold byte_at in Hb. rewrite Nat2Z.id, Hx, Hy in Hb. done.
Qed.

Lemma NewHLL_len : zlen NewHLL = 12306.
Proof. unfold NewHLL, zlen. rewrite !length_app, !length_replicate. reflexivity. Qed.

Lemma NewHLL_zero m : 16 <= m -> byte_at NewHLL m = 0.
Proof.
  intros Hm. unfold byte_at, NewHLL. rewrite !app_assoc, lookup_app_r by (cbn; lia). destruct (_ !! _) eqn:E; [|done]. by apply lookup_replicate in E as [-> _].
Qed.

Lemma NewHLL_sketch : sketch_of NewHLL [].
Proof.
  assert (sized NewHLL) as Hs.
  { split; [by rewrite NewHLL_len|]. unfold NewHLL. repeat (apply Forall_app; split); [by repeat constructor..| |by repeat constructor|]; apply Forall_replicate; unfold is_byte; lia. }
  split; [done|exact NewHLL_len| |done]. intros i Hi. cbn [rank_of foldr]. apply (is_register_unique NewHLL i); [by apply reg_ok|]. split; [lia|]. intros j Hj.
  unfold bit_at. rewrite NewHLL_zero by (assert (0 <= (6 * i + j) / 8) by (apply Z.div_pos; lia); lia). by rewrite !Z.bits_0.
Qed.

(** ** Sketches of a list of elements *)

(** The loop of PFADD. *)
Fixpoint add_elems (h : bytes) (elems : list bytes) (updated : bool) : option (bytes * bool) :=
  match elems with
  | [] => Some (h, updated)
  | e :: elems => '(h, u) ← Add h e; add_elems h elems (updated || u)
  end.

(** The sketch of the elements [l]. *)
Definition sketch (l : list bytes) : bytes := match add_elems NewHLL l false with Some (h, _) => h | None => [] end.

Lemma cache_lor : Z.lor (byte_at NewHLL 15) 128 = byte_at NewHLL 15.
Proof. reflexivity. Qed.

Lemma wrote_sketch h l i v h' l' : sketch_of h l -> wrote h i v h' -> 0 <= v < 64 -> 0 <= i < 16384 ->
  (forall i', 0 <= i' < 16384 -> rank_of l' i' = if i' =? i then v else rank_of l i') -> sketch_of h' l'.
Proof.
  intros [Hs Hl Hr He] HW Hv Hi H. split; [apply HW|by rewrite (wr_len _ _ _ _ HW)| |].
  - intros i' Hi'. rewrite (wrote_reg h i v h' i'), H by done. destruct (i' =? i); [done|by apply Hr].
  - intros m Hm. destruct (decide (m = 15)) as [->|]; [rewrite (wr_cache _ _ _ _ HW), He by lia; exact cache_lor|]. rewrite (wr_rest _ _ _ _ HW) by lia. apply He. lia.
Qed.

Lemma Add_sketch h l e : sketch_of h l -> exists h', Add h e = Some (h', rank_of l (hll_index e) <? hll_rank e) /\ sketch_of h' (l ++ [e]).
Proof.
  intros Hk. pose proof Hk as [Hs _ Hr _]. pose proof (hll_index_range e) as Hi. pose proof (hll_rank_range e) as Hc. destruct (reg_ok h _ Hs Hi) as [_ Hreg].
  destruct (Add_ok h e _ Hs Hreg) as (h' & upd & Ea & -> & Hw). rewrite Hr in Ea, Hw by done. exists h'. split; [exact Ea|].
  assert (forall i, rank_of (l ++ [e]) i = if i =? hll_index e then Z.max (rank_of l i) (hll_rank e) else rank_of l i) as Hrank.
  { intros i. rewrite rank_of_app. cbn [rank_of foldr]. pose proof (rank_of_range l i). rewrite (Z.eqb_sym i). destruct (hll_index e =? i); lia. }
  destruct (Z.ltb_spec (rank_of l (hll_index e)) (hll_rank e)).
  - apply (wrote_sketch h l (hll_index e) (hll_rank e)); [done|done|lia|done|]. intros i' _. rewrite Hrank. destruct (Z.eqb_spec i' (hll_index e)) as [->|]; [lia|done].
  - subst h'. destruct Hk as [? ? ? ?]. split; [done..| |done]. intros i' Hi'. rewrite Hrank, Hr by done. destruct (Z.eqb_spec i' (hll_index e)) as [->|]; [lia|done].
Qed.

(** Elements that change a register. *)
Definition news (l els : list bytes) : bool := existsb (fun e => rank_of l (hll_index e) <? hll_rank e) els.

Lemma add_elems_sketch els : forall h l upd, sketch_of h l ->
  exists h', add_elems h els upd = Some (h', upd || news l els) /\ sketch_of h' (l ++ els).
Proof.
  induction els as [|e els IH]; intros h l upd Hk; cbn [add_elems].
  { exists h. unfold news. cbn. by rewrite orb_false_r, app_nil_r. }
  destruct (Add_sketch h l e Hk) as (h1 & -> & Hk1). go_bind. destruct (IH h1 (l ++ [e]) (upd || (rank_of l (hll_index e) <? hll_rank e)) Hk1) as (h' & -> & Hk').
  exists h'. rewrite <- app_assoc in Hk'. split; [|exact Hk']. f_equal. f_equal. rewrite <- orb_assoc. f_equal. unfold news. cbn [existsb].
  destruct (Z.ltb_spec (rank_of l (hll_index e)) (hll_rank e)) as [|Hle]; [done|]. cbn [orb]. clear -Hle. induction els as [|a els IH]; [done|]. cbn [existsb]. rewrite IH. f_equal. f_equal.
  rewrite rank_of_app. cbn [rank_of foldr]. pose proof (rank_of_range l (hll_index a)). pose proof (rank_of_range l (hll_index e)). destruct (Z.eqb_spec (hll_index e) (hll_index a)) as [<-|]; lia.
Qed.

Lemma sketch_ok l : sketch_of (sketch l) l.
Proof. unfold sketch. destruct (add_elems_sketch l NewHLL [] false NewHLL_sketch) as (h & -> & Hk). exact Hk. Qed.

(** A sketch is a function of the set of its elements. *)
Lemma sketch_ext l1 l2 : (forall e, e ∈ l1 <-> e ∈ l2) -> sketch l1 = sketch l2.
Proof. intros H. eapply sketch_unique; [apply sketch_ok|apply sketch_ok|]. intros i _. by apply rank_of_ext. Qed.

Lemma sketch_is h l : sketch_of h l -> h = sketch l.
Proof. intros H. eapply sketch_unique; [exact H|apply sketch_ok|done]. Qed.

(** Adding elements to a sketch; the flag says whether anything has changed. *)
Lemma add_elems_ok l els : add_elems (sketch l) els false = Some (sketch (l ++ els), negb (bool_decide (sketch (l ++ els) = sketch l))).
Proof.
  destruct (add_elems_sketch els (sketch l) l false (sketch_ok l)) as (h & -> & Hk). rewrite (sketch_is _ _ Hk). f_equal. f_equal. cbn [orb]. unfold news.
  destruct (existsb _ els) eqn:En; symmetry; [apply negb_true_iff, bool_decide_eq_false|apply negb_false_iff, bool_decide_eq_true].
  - apply existsb_exists in En as (e & He%list_elem_of_In & Hlt%Z.ltb_lt). intros Heq. pose proof (hll_index_range e) as Hi.
    pose proof (sk_regs _ _ (sketch_ok (l ++ els)) _ Hi) as H1. rewrite Heq, (sk_regs _ _ (sketch_ok l) _ Hi), rank_of_app in H1. pose proof (rank_of_ge els _ e He eq_refl). lia.
  - eapply sketch_unique; [apply sketch_ok..|]. intros i Hi. rewrite rank_of_app. apply Z.max_l. apply rank_of_le. split; [apply rank_of_range|]. intros e He <-.
    destruct (Z.le_gt_cases (hll_rank e) (rank_of l (hll_index e))) as [|Hgt]; [done|]. exfalso. assert (existsb (fun e => rank_of l (hll_index e) <? hll_rank e) els = true); [|congruence].
    apply existsb_exists. exists e. split; [by apply list_elem_of_In|by apply Z.ltb_lt].
Qed.

(** ** Merging *)

Lemma merge_loop_ok other l2 : sized other -> (forall i, 0 <= i < 16384 -> reg other i = rank_of l2 i) ->
  forall n i h, 0 <= i -> i + Z.of_nat n = 16384 -> sized h -> zlen h = 12306 -> (forall m, 0 <= m < 16 \/ 12304 <= m -> byte_at h m = byte_at NewHLL m) ->
  exists h', merge_loop n i h other = Some h' /\ sized h' /\ zlen h' = 12306 /\ (forall m, 0 <= m < 16 \/ 12304 <= m -> byte_at h' m = byte_at NewHLL m) /\
    forall i', 0 <= i' < 16384 -> reg h' i' = if i <=? i' then Z.max (reg h i') (rank_of l2 i') else reg h i'.
Proof.
  intros Hso Hro. induction n as [|n IH]; intros i h H0 Hn Hs Hl He; cbn [merge_loop].
  { exists h. split_and!; [done..|]. intros i' Hi'. by rewrite (proj2 (Z.leb_gt i i')) by lia. }
  destruct (reg_ok h i Hs) as [E1 [Hr1 _]]; [lia|]. destruct (reg_ok other i Hso) as [E2 _]; [lia|]. rewrite E1, E2, Hro by lia. go_bind. pose proof (rank_of_range l2 i) as Hr2.
  assert (exists h1, (if reg h i <? rank_of l2 i then SetRegister h i (rank_of l2 i) else Some h) = Some h1 /\ sized h1 /\ zlen h1 = 12306 /\
            (forall m, 0 <= m < 16 \/ 12304 <= m -> byte_at h1 m = byte_at NewHLL m) /\
            forall i', 0 <= i' < 16384 -> reg h1 i' = if i' =? i then Z.max (reg h i) (rank_of l2 i) else reg h i') as (h1 & -> & Hs1 & Hl1 & He1 & Hr).
  { destruct (Z.ltb_spec (reg h i) (rank_of l2 i)) as [Hlt|Hge].
    - destruct (SetRegister_ok h i (rank_of l2 i) Hs) as (h1 & Eh & HW); [lia|lia|]. exists h1. split_and!; [done|apply HW|by rewrite (wr_len _ _ _ _ HW)| |].
      + intros m Hm. destruct (decide (m = 15)) as [->|]; [rewrite (wr_cache _ _ _ _ HW), He by lia; exact cache_lor|]. rewrite (wr_rest _ _ _ _ HW) by lia. apply He. lia.
      + intros i' Hi'. rewrite (wrote_reg h i (rank_of l2 i) h1 i') by (done || lia). destruct (i' =? i); [lia|done].
    - exists h. split_and!; [done..|]. intros i' Hi'. destruct (Z.eqb_spec i' i) as [->|]; [lia|done]. }
  go_bind. destruct (IH (i + 1) h1) as (h' & Eh' & Hs' & Hl' & He' & Hr'); [lia|lia|done..|]. exists h'. split_and!; [done..|]. intros i' Hi'. rewrite Hr', Hr by done.
  destruct (Z.leb_spec (i + 1) i'), (Z.leb_spec i i'), (Z.eqb_spec i' i) as [->|]; try lia; done.
Qed.

Lemma Merge_ok l1 l2 other : sized other -> (forall i, 0 <= i < 16384 -> reg other i = rank_of l2 i) -> Merge (sketch l1) other = Some (sketch (l1 ++ l2)).
Proof.
  intros Hso Hro. destruct (sketch_ok l1) as [Hs Hl Hr He]. unfold Merge.
  destruct (merge_loop_ok other l2 Hso Hro (Z.to_nat HLL_REGISTERS) 0 (sketch l1)) as (h1 & -> & Hs1 & Hl1 & He1 & Hr1); [lia|by vm_compute|done..|]. go_bind.
  destruct (invalidate_ok h1 Hs1) as (h' & -> & Hs' & Hl' & Hm'). f_equal. apply sketch_is.
  assert (forall m, 0 <= m -> byte_at h' m = byte_at h1 m) as Hsame.
  { intros m Hm. rewrite Hm' by done. destruct (Z.eqb_spec m 15) as [->|]; [|done]. rewrite He1 by lia. exact cache_lor. }
  split; [done|lia| |intros m Hm; rewrite Hsame by lia; by apply He1].
  intros i Hi. rewrite rank_of_app, <- (Hr i) by done.
  assert (reg h' i = reg h1 i) as ->.
  { destruct (reg_ok h' i Hs' Hi) as [_ [Hv Hb]]. apply (is_register_unique h1 i); [|by apply reg_ok]. split; [exact Hv|]. intros j Hj. rewrite Hb by done. unfold bit_at.
    rewrite Hsame; [done|]. assert (0 <= (6 * i + j) / 8) by (apply Z.div_pos; lia). lia. }
  rewrite Hr1 by done. by rewrite (proj2 (Z.leb_le 0 i)) by lia.
Qed.

Lemma merge_sketches l1 l2 : Merge (sketch l1) (sketch l2) = Some (sketch (l1 ++ l2)).
Proof. apply Merge_ok; apply sketch_ok. Qed.

(** ** Storing a sketch *)

Lemma sketch_length l : length (sketch l) = Z.to_nat 12306.
Proof. pose proof (sk_len _ _ (sketch_ok l)) as H. unfold zlen in H. lia. Qed.

(** The two bytes behind the registers are not stored; they are zero. *)
Lemma FromBytes_sketch l : FromBytes (HllBytes (sketch l)) = sketch l.
Proof.
  pose proof (sketch_length l) as Hl. destruct (sketch_ok l) as [_ Hz _ He]. unfold HllBytes. change HLL_DENSE_SIZE with 12304. rewrite (proj2 (Z.leb_le _ _)) by lia.
  unfold FromBytes. change (HLL_DENSE_SIZE + 2) with 12306. assert (length (take (Z.to_nat 12304) (sketch l)) = Z.to_nat 12304) as Ht by (rewrite length_take; lia).
  rewrite (proj2 (Z.ltb_lt _ _)) by (unfold zlen; lia). unfold go_copy. pose proof NewHLL_len as Hn. unfold zlen in Hn. rewrite Ht, (take_ge (take _ _)) by lia.
  apply list_eq_same_length with (n := Z.to_nat 12306); [done|rewrite length_app, Ht, length_drop; lia|]. intros i x y Hi Hx Hy. destruct (decide (i < Z.to_nat 12304)%nat) as [Hlt|Hge].
  - rewrite lookup_app_l, lookup_take_lt in Hx by lia. congruence.
  - rewrite lookup_app_r, lookup_drop, Ht in Hx by lia. replace (Z.to_nat 12304 + (i - Z.to_nat 12304))%nat with i in Hx by lia. specialize (He (Z.of_nat i) ltac:(lia)). unfold byte_at in He. rewrite Nat2Z.id, Hx, Hy in He. done.
Qed.

Lemma FromBytes_empty : FromBytes [] = NewHLL.
Proof. reflexivity. Qed.
