(* ===== verification/HllCommands.v ===== *)
(** * HyperLogLog commands ([commands/hll.go])

    PFADD and PFMERGE on the stored strings.  [FromBytes] wraps the stored slice when it is longer than a sketch, and PFADD then writes into
    it before it stores the result ([write_through]); a sketch that PFADD has stored is shorter and is copied. *)

From S2P Require Import Prelude Hll Object Value Db DbSpec Reply Context Strings StringSpec Bits.
Local Open Scope Z_scope.

Section handlers.
Variable E : env.

(** The stored slice is the sketch's own. *)
Definition wraps (o : robj) : bool := match o_Ptr o with PBytes b => HLL_DENSE_SIZE + 2 <=? zlen b | _ => false end.

Definition pfaddCommand (argv : list bytes) : M bytes :=
  key ← arg argv 1;
  obj ← db_Get E key;
  let add (h : bytes) (wrapped exists_ : bool) : M bytes :=
    '(h, updated) ← lift (add_elems h (drop 2 argv) false);
    _ ← (if wrapped && updated then write_through key h else mret tt);
    _ ← (if negb exists_ || updated then _ ← db_Set E key (CreateRawStringObject (HllBytes h)); mret tt else mret tt);
    mret (Integer (if updated : bool then 1 else 0)) in
  match obj with
  | Some o => if negb (is_type o OBJ_STRING) then mret wrongtype else b ← obj_Bytes o; add (FromBytes b) (wraps o) true
  | None => add NewHLL false false
  end.

(** Merges the sketch of a key, if it has one; [None] is a key of another type. *)
Definition merge_key (merged : bytes) (key : bytes) : M (option bytes) :=
  obj ← db_Get E key;
  match obj with
  | Some o => if negb (is_type o OBJ_STRING) then mret None else b ← obj_Bytes o; h ← lift (Merge merged (FromBytes b)); mret (Some h)
  | None => mret (Some merged)
  end.

Fixpoint merge_keys (merged : bytes) (keys : list bytes) : M (option bytes) :=
  match keys with
  | [] => mret (Some merged)
  | k :: keys => r ← merge_key merged k; match r with Some merged => merge_keys merged keys | None => mret None end
  end.

(** The destination is merged like the sources. *)
Definition pfmergeCommand (argv : list bytes) : M bytes :=
  destKey ← arg argv 1;
  r ← merge_keys NewHLL (drop 1 argv);
  match r with
  | None => mret wrongtype
  | Some merged => _ ← db_Set E destKey (CreateRawStringObject (HllBytes merged)); mret OK
  end.

End handlers.

(** ** What they do to sketches *)

(** The key holds the sketch of [l], or nothing. *)
Definition holds_sketch (m : dataset) (k : bytes) (l : list bytes) : Prop :=
  match m !! k with None => l = [] | Some (RString b, _) => b = HllBytes (sketch l) | _ => False end.

Section commands.
Variables (E : env) (T : Z).
Hypothesis Hclk : instant E T.

Lemma pfaddCommand_ok m s n k els l :
  abs_rel T m s -> holds_sketch m k l ->
  does T (pfaddCommand E (n :: k :: els)) m s
    (let same := bool_decide (sketch (l ++ els) = sketch l) in
     (Integer (if same then 0 else 1), if bool_decide (m !! k = None) || negb same then <[k := (RString (HllBytes (sketch (l ++ els))), 0)]> m else m)).
Proof using Hclk.
  intros H Hk. unfold pfaddCommand. apply (wp_arg _ _ k); [done|]. apply (wp_get E T Hclk m); [done|]. unfold holds_sketch in Hk. change (drop 2 (n :: k :: els)) with els.
  get_cases m k; [|done..|].
  - cbn [negb]. subst b. apply (wp_bytes _ (HllBytes (sketch l))); [done|]. cbv zeta. rewrite FromBytes_sketch. apply wp_bind. eapply wp_lift; [apply add_elems_ok|].
    assert (wraps o = false) as ->.
    { unfold wraps. destruct (o_Ptr o) as [b0| | |] eqn:Ep; [|done..]. assert (Bytes o = Some b0) as Hb0 by (unfold Bytes; by rewrite Ep). rewrite Hb in Hb0. injection Hb0 as <-.
      apply Z.leb_gt. unfold HllBytes. change HLL_DENSE_SIZE with 12304. pose proof (sketch_length l). rewrite (proj2 (Z.leb_le _ _)) by (unfold zlen; lia). unfold zlen. rewrite length_take. lia. }
    cbn [andb]. apply wp_bind, wp_ret. rewrite (bool_decide_false (Some _ = None)) by done. cbn [negb orb]. case_bool_decide as Hs; cbn [negb]; [apply wp_bind, wp_ret; replied|].
    apply wp_bind. apply (wp_set E T Hclk m _ _ _ (HllBytes (sketch (l ++ els)))); [done|apply storable_raw|]. intros s2 H2 Q2. apply wp_ret. replied.
  - subst l. cbv zeta. apply wp_bind. eapply wp_lift; [apply (add_elems_ok [])|]. cbn [andb negb orb app]. apply wp_bind, wp_ret. rewrite (bool_decide_true (None = None)) by done. cbn [orb].
    apply wp_bind. apply (wp_set E T Hclk m _ _ _ (HllBytes (sketch els))); [done|apply storable_raw|]. intros s2 H2 Q2. apply wp_ret. change (sketch []) with (sketch ([] : list bytes)).
    case_bool_decide; replied.
Qed.

Lemma merge_keys_ok m (el : bytes -> list bytes) keys : (forall k, k ∈ keys -> holds_sketch m k (el k)) -> forall l s (Q : option bytes -> St -> Prop),
  abs_rel T m s -> (forall s', abs_rel T m s' -> keeps m s s' -> Q (Some (sketch (l ++ concat (el <$> keys)))) s') -> wp (merge_keys E (sketch l) keys) s Q.
Proof using Hclk.
  intros Hof. induction keys as [|k keys IH]; intros l s Q H HQ; cbn [merge_keys].
  { apply wp_ret. cbn in HQ. rewrite app_nil_r in HQ. apply HQ; [done|apply keeps_refl]. }
  assert (forall s1, abs_rel T m s1 -> keeps m s s1 -> wp (merge_keys E (sketch (l ++ el k)) keys) s1 Q) as Hgo.
  { intros s1 H1 K1. apply IH; [intros k' Hk'; apply Hof; by right|done|]. intros s2 H2 K2. cbn [fmap list_fmap concat] in HQ. rewrite <- app_assoc. apply HQ; [done|chain]. }
  apply wp_bind. unfold merge_key. apply (wp_get E T Hclk m); [done|]. pose proof (Hof k ltac:(by left)) as Hk. unfold holds_sketch in Hk. get_cases m k; [|done..|].
  - cbn [negb]. apply (wp_bytes _ b); [done|]. subst b. rewrite FromBytes_sketch. apply wp_bind. eapply wp_lift; [apply merge_sketches|]. apply wp_ret. by apply Hgo.
  - apply wp_ret. rewrite Hk, app_nil_r in Hgo. by apply Hgo.
Qed.

Lemma pfmergeCommand_ok m s n (el : bytes -> list bytes) dst srcs :
  abs_rel T m s -> (forall k, k ∈ dst :: srcs -> holds_sketch m k (el k)) ->
  does T (pfmergeCommand E (n :: dst :: srcs)) m s (OK, <[dst := (RString (HllBytes (sketch (el dst ++ concat (el <$> srcs)))), 0)]> m).
Proof using Hclk.
  intros H Hof. unfold pfmergeCommand. apply (wp_arg _ _ dst); [done|]. change (drop 1 (n :: dst :: srcs)) with (dst :: srcs). apply wp_bind.
  apply (merge_keys_ok m el (dst :: srcs) Hof []); [done|]. intros s1 H1 K1. cbn [app fmap list_fmap concat].
  apply (wp_set E T Hclk m _ _ _ (HllBytes (sketch (el dst ++ concat (el <$> srcs))))); [done|apply storable_raw|]. intros s2 H2 Q2. replied.
Qed.

End commands.
