(* ===== verification/Registry.v ===== *)
(** * The registered commands

    The rows that the [init] functions of the command files put into [DefaultTable], for the
    handlers this library has; and a server's request loop: EXEC runs what was queued through the
    dispatcher again, and since EXEC is never queued the inner dispatcher needs no EXEC of its own. *)

From S2P Require Import Prelude Strconv Object Value Db DbSpec Reply Acl Cluster Context Strings Generic Hashes Lists Sets Copy Bits Lcs Scans HllCommands Dispatch.
Local Open Scope Z_scope.

Definition reg (name : string) (h : list bytes -> M bytes) (arity flags : Z) : Command := mkCommand (str name) h arity flags.

Section table.
Variable E : env.

Definition string_rows : list Command :=
  [reg "get" (getCommand E) 2 (Z.lor FlagFast FlagReadOnly);
   reg "set" (setCommand E) (-3) FlagWrite;
   reg "mget" (mgetCommand E) (-2) (Z.lor FlagFast FlagReadOnly);
   reg "mset" (msetCommand E) (-3) FlagWrite;
   reg "incr" (incrCommand E) 2 (Z.lor FlagFast FlagWrite);
   reg "decr" (decrCommand E) 2 (Z.lor FlagFast FlagWrite);
   reg "incrby" (incrbyCommand E) 3 (Z.lor FlagFast FlagWrite);
   reg "decrby" (decrbyCommand E) 3 (Z.lor FlagFast FlagWrite);
   reg "strlen" (strlenCommand E) 2 (Z.lor FlagFast FlagReadOnly);
   reg "append" (appendCommand E) 3 FlagWrite;
   reg "setrange" (setrangeCommand E) 4 FlagWrite;
   reg "getrange" (getrangeCommand E) 4 FlagReadOnly;
   reg "setnx" (setnxCommand E) 3 (Z.lor FlagWrite FlagFast);
   reg "setex" (setexCommand E) 4 FlagWrite;
   reg "psetex" (psetexCommand E) 4 FlagWrite;
   reg "getset" (getsetCommand E) 3 (Z.lor FlagWrite FlagFast);
   reg "getdel" (getdelCommand E) 2 (Z.lor FlagWrite FlagFast);
   reg "getex" (getexCommand E) (-2) (Z.lor FlagWrite FlagFast);
   reg "msetnx" (msetnxCommand E) (-3) FlagWrite;
   reg "substr" (getrangeCommand E) 4 FlagReadOnly].

Definition generic_rows : list Command :=
  [reg "ping" pingCommand (-1) (Z.lor FlagFast FlagReadOnly);
   reg "echo" echoCommand 2 (Z.lor FlagFast FlagReadOnly);
   reg "exists" (existsCommand E) (-2) (Z.lor FlagFast FlagReadOnly);
   reg "del" (delCommand E) (-2) FlagWrite;
   reg "ttl" (ttlCommand E) 2 (Z.lor FlagFast FlagReadOnly);
   reg "type" (typeCommand E) 2 (Z.lor FlagFast FlagReadOnly);
   reg "expire" (expireCommand E) (-3) (Z.lor FlagWrite FlagFast);
   reg "pexpire" (pexpireCommand E) (-3) (Z.lor FlagWrite FlagFast);
   reg "expireat" (expireatCommand E) (-3) (Z.lor FlagWrite FlagFast);
   reg "pexpireat" (pexpireatCommand E) (-3) (Z.lor FlagWrite FlagFast)].

Definition keyspace_rows : list Command :=
  [reg "keys" (keysCommand E) 2 FlagReadOnly;
   reg "scan" (scanCommand E) (-2) FlagReadOnly;
   reg "randomkey" (randomkeyCommand E) 1 (Z.lor FlagReadOnly FlagFast);
   reg "touch" (touchCommand E) (-2) (Z.lor FlagReadOnly FlagFast);
   reg "unlink" (unlinkCommand E) (-2) (Z.lor FlagWrite FlagFast);
   reg "rename" (renameCommand E) 3 FlagWrite;
   reg "renamenx" (renamenxCommand E) 3 (Z.lor FlagWrite FlagFast);
   reg "persist" (persistCommand E) 2 (Z.lor FlagWrite FlagFast);
   reg "pttl" (pttlCommand E) 2 (Z.lor FlagReadOnly FlagFast);
   reg "copy" (copyCommand E) (-3) FlagWrite;
   reg "select" selectCommand 2 FlagFast;
   reg "swapdb" swapdbCommand 3 (Z.lor FlagWrite FlagFast);
   reg "quit" quitCommand (-1) FlagFast;
   reg "expiretime" (expiretimeCommand E) 2 (Z.lor FlagReadOnly FlagFast);
   reg "pexpiretime" (pexpiretimeCommand E) 2 (Z.lor FlagReadOnly FlagFast)].

Definition delex_rows : list Command := [reg "delex" (delexCommand E) (-2) (Z.lor FlagWrite FlagFast)].
Definition msetex_rows : list Command := [reg "msetex" (msetexCommand E) (-4) FlagWrite].

Definition hash_rows : list Command :=
  [reg "hset" (hsetCommand E) (-4) (Z.lor FlagFast FlagWrite);
   reg "hget" (hgetCommand E) 3 (Z.lor FlagFast FlagReadOnly);
   reg "hdel" (hdelCommand E) (-3) (Z.lor FlagFast FlagWrite);
   reg "hexists" (hexistsCommand E) 3 (Z.lor FlagFast FlagReadOnly);
   reg "hgetall" (hgetallCommand E) 2 FlagReadOnly;
   reg "hlen" (hlenCommand E) 2 (Z.lor FlagFast FlagReadOnly);
   reg "hkeys" (hkeysCommand E) 2 FlagReadOnly;
   reg "hvals" (hvalsCommand E) 2 FlagReadOnly;
   reg "hmget" (hmgetCommand E) (-3) (Z.lor FlagFast FlagReadOnly);
   reg "hmset" (hmsetCommand E) (-4) (Z.lor FlagFast FlagWrite);
   reg "hincrby" (hincrbyCommand E) 4 (Z.lor FlagFast FlagWrite)].

Definition hash_ops_rows : list Command :=
  [reg "hsetnx" (hsetnxCommand E) 4 (Z.lor FlagWrite FlagFast);
   reg "hstrlen" (hstrlenCommand E) 3 (Z.lor FlagReadOnly FlagFast)].

Definition list_rows : list Command :=
  [reg "lpush" (lpushCommand E) (-3) (Z.lor FlagFast FlagWrite);
   reg "rpush" (rpushCommand E) (-3) (Z.lor FlagFast FlagWrite);
   reg "lpop" (lpopCommand E) 2 (Z.lor FlagFast FlagWrite);
   reg "rpop" (rpopCommand E) 2 (Z.lor FlagFast FlagWrite);
   reg "lrange" (lrangeCommand E) 4 FlagReadOnly;
   reg "llen" (llenCommand E) 2 (Z.lor FlagFast FlagReadOnly);
   reg "lindex" (lindexCommand E) 3 (Z.lor FlagFast FlagReadOnly);
   reg "lset" (lsetCommand E) 4 FlagWrite].

Definition list_ops_rows : list Command :=
  [reg "linsert" (linsertCommand E) 5 FlagWrite;
   reg "ltrim" (ltrimCommand E) 4 FlagWrite;
   reg "lrem" (lremCommand E) 4 FlagWrite;
   reg "lpos" (lposCommand E) (-3) FlagReadOnly;
   reg "lmove" (lmoveCommand E) 5 FlagWrite;
   reg "rpoplpush" (rpoplpushCommand E) 3 FlagWrite;
   reg "lpushx" (lpushxCommand E) (-3) (Z.lor FlagWrite FlagFast);
   reg "rpushx" (rpushxCommand E) (-3) (Z.lor FlagWrite FlagFast)].

Definition set_rows : list Command :=
  [reg "sadd" (saddCommand E) (-3) (Z.lor FlagFast FlagWrite);
   reg "srem" (sremCommand E) (-3) (Z.lor FlagFast FlagWrite);
   reg "smembers" (smembersCommand E) 2 FlagReadOnly;
   reg "sismember" (sismemberCommand E) 3 (Z.lor FlagFast FlagReadOnly);
   reg "scard" (scardCommand E) 2 (Z.lor FlagFast FlagReadOnly);
   reg "spop" (spopCommand E) (-2) (Z.lor FlagFast FlagWrite)].

Definition set_ops_rows : list Command :=
  [reg "smismember" (smismemberCommand E) (-3) (Z.lor FlagReadOnly FlagFast);
   reg "sinter" (sinterCommand E) (-2) FlagReadOnly;
   reg "sunion" (sunionCommand E) (-2) FlagReadOnly;
   reg "sdiff" (sdiffCommand E) (-2) FlagReadOnly;
   reg "sinterstore" (sinterstoreCommand E) (-3) FlagWrite;
   reg "sunionstore" (sunionstoreCommand E) (-3) FlagWrite;
   reg "sdiffstore" (sdiffstoreCommand E) (-3) FlagWrite;
   reg "sintercard" (sintercardCommand E) (-3) FlagReadOnly;
   reg "sunioncard" (sunioncardCommand E) (-3) FlagReadOnly;
   reg "sdiffcard" (sdiffcardCommand E) (-3) FlagReadOnly;
   reg "smove" (smoveCommand E) 4 (Z.lor FlagWrite FlagFast)].

Definition bitmap_rows : list Command :=
  [reg "setbit" (setbitCommand E) 4 (Z.lor FlagWrite FlagFast);
   reg "getbit" (getbitCommand E) 3 (Z.lor FlagReadOnly FlagFast);
   reg "bitcount" (bitcountCommand E) (-2) FlagReadOnly;
   reg "bitpos" (bitposCommand E) (-3) FlagReadOnly;
   reg "bitop" (bitopCommand E) (-4) FlagWrite].

Definition collscan_rows : list Command :=
  [reg "hscan" (hscanCommand E) (-3) FlagReadOnly;
   reg "sscan" (sscanCommand E) (-3) FlagReadOnly].

Definition lcs_rows : list Command := [reg "lcs" (lcsCommand E) (-3) FlagReadOnly].

(** PFCOUNT is left out: its estimate is a floating-point number. *)
Definition hll_rows : list Command :=
  [reg "pfadd" (pfaddCommand E) (-2) (Z.lor FlagWrite FlagFast);
   reg "pfmerge" (pfmergeCommand E) (-2) FlagWrite].

(** EXEC is given the dispatcher that runs the queue. *)
Definition transaction_rows (ex : list bytes -> M bytes) : list Command :=
  [reg "multi" multiCommand 1 (Z.lor FlagFast FlagAdmin);
   reg "discard" discardCommand 1 (Z.lor FlagFast FlagAdmin);
   reg "watch" watchCommand (-2) (Z.lor FlagFast FlagAdmin);
   reg "unwatch" unwatchCommand 1 (Z.lor FlagFast FlagAdmin);
   reg "exec" (execCommand ex) 1 FlagAdmin].

Definition acl_rows : list Command :=
  [reg "auth" (authCommand E) (-2) (Z.lor FlagAdmin FlagFast);
   reg "acl" (aclCommand E) (-2) FlagAdmin].

Definition rows (ex : list bytes -> M bytes) : list Command :=
  string_rows ++ generic_rows ++ keyspace_rows ++ delex_rows ++ msetex_rows ++ hash_rows ++ hash_ops_rows ++
  list_rows ++ list_ops_rows ++ set_rows ++ set_ops_rows ++ bitmap_rows ++ lcs_rows ++ collscan_rows ++ hll_rows ++ transaction_rows ex ++ acl_rows.

Definition DefaultTable (ex : list bytes -> M bytes) : Table := fold_left Register (rows ex) NewTable.

(** What a request does: the queue of a transaction never holds EXEC. *)
Definition queued_request (argv : list bytes) : M bytes := Execute E (DefaultTable (fun _ => panic)) argv.
Definition request (argv : list bytes) : M bytes := Execute E (DefaultTable queued_request) argv.

(** ** Looking a command up *)

(** The names are distinct and in lower case. *)
Lemma names_distinct ex :
  NoDup (cmd_Name <$> rows ex) /\ Forall (fun n => ToLower n = n /\ toLowerASCII n = n) (cmd_Name <$> rows ex).
Proof.
  assert (cmd_Name <$> rows ex = cmd_Name <$> rows (fun _ => panic)) as -> by reflexivity.
  split; apply (bool_decide_unpack _); vm_compute; exact I.
Qed.

Lemma register_other cs t n : n ∉ ToLower ∘ cmd_Name <$> cs -> fold_left Register cs t !! n = t !! n.
Proof.
  revert t. induction cs as [|e cs IH]; intros t Hn; [done|]. cbn [fold_left]. rewrite fmap_cons, not_elem_of_cons in Hn. destruct Hn as [Hne Hn].
  rewrite IH by done. unfold Register. cbv zeta. by apply lookup_insert_ne.
Qed.

Lemma register_lookup cs t c :
  NoDup (cmd_Name <$> cs) -> Forall (fun n => ToLower n = n) (cmd_Name <$> cs) -> c ∈ cs -> fold_left Register cs t !! cmd_Name c = Some c.
Proof.
  intros Hnd Hf. assert (ToLower ∘ cmd_Name <$> cs = cmd_Name <$> cs) as Hlow.
  { apply list_fmap_ext. intros i d Hd. rewrite Forall_forall in Hf. apply Hf. apply list_elem_of_fmap. exists d. split; [done|]. by eapply list_elem_of_lookup_2. }
  revert t Hnd Hf Hlow. induction cs as [|d cs IH]; intros t Hnd Hf Hlow Hc; [by apply not_elem_of_nil in Hc|].
  rewrite !fmap_cons in *. apply NoDup_cons in Hnd as [Hd Hnd]. apply Forall_cons in Hf as [_ Hf]. injection Hlow as Hd' Hlow. cbn [fold_left].
  apply elem_of_cons in Hc as [->|Hc]; [|by apply IH].
  rewrite register_other by by rewrite Hlow. unfold Register. cbv zeta. unfold compose in Hd'. rewrite Hd'. destruct d. by apply lookup_insert_eq.
Qed.

(** However the client spells the name. *)
Lemma lookup_row ex c n : c ∈ rows ex -> toLowerASCII n = cmd_Name c -> Lookup (DefaultTable ex) n = Some c.
Proof.
  intros Hc Hn. destruct (names_distinct ex) as [Hnd Hf]. assert (Forall (fun n => ToLower n = n) (cmd_Name <$> rows ex)) as Hf1 by (eapply Forall_impl; [exact Hf|]; by intros ? []).
  unfold Lookup, DefaultTable. rewrite Hn, (register_lookup _ _ c Hnd Hf1 Hc).
  destruct (fold_left Register (rows ex) NewTable !! n) as [d|] eqn:Ed; [|done].
  assert (n ∈ cmd_Name <$> rows ex) as Hin.
  { destruct (decide (n ∈ cmd_Name <$> rows ex)) as [|Hno]; [done|]. rewrite register_other in Ed; [done|].
    intros (e & -> & He)%list_elem_of_fmap. rewrite Forall_fmap, Forall_forall in Hf1. specialize (Hf1 e He). unfold compose in *. rewrite Hf1 in *. apply Hno, list_elem_of_fmap. eauto. }
  rewrite Forall_forall in Hf. assert (n = cmd_Name c) as -> by by rewrite <- Hn, (proj2 (Hf _ Hin)).
  rewrite <- Ed. by apply register_lookup.
Qed.

End table.
