(* ===== verification/CommandSpec.v ===== *)
(** * Commands as a client means them

    [cmd] is the abstract syntax of the data commands, [args_of] the way a client writes one, and
    [ref_cmd] its meaning on the dataset: the reply and the new dataset.  [handler_ok] collects
    the lemmas of the command files: the registered handler of every command does what the command
    means, in any encoding. *)

From S2P Require Import Prelude Strconv Object Value Db DbSpec Reply Context Strings StringSpec Generic GenericSpec Hashes HashSpec Sets SetSpec Lists ListSpec Stripes.
From S2P Require Import Bitmap Bits BitSpec Copy Dispatch Registry.
Local Open Scope Z_scope.

Inductive cmd :=
  | Get (k : bytes) | Strlen (k : bytes) | Mget (ks : list bytes) | Getrange (k : bytes) (i j : Z)
  | Set' (k v : bytes) (x : set_expiry) (c : set_cond) (get : bool)
  | Setnx (k v : bytes) | Setex (k v : bytes) (secs : Z) | Psetex (k v : bytes) (ms : Z)
  | Getset (k v : bytes) | Getdel (k : bytes) | Getex (k : bytes) (x : option set_expiry)
  | Mset (kvs : list (bytes * bytes)) | Msetnx (kvs : list (bytes * bytes))
  | Incr (k : bytes) | Decr (k : bytes) | Incrby (k : bytes) (d : Z) | Decrby (k : bytes) (d : Z)
  | Append' (k v : bytes) | Setrange (k : bytes) (off : Z) (v : bytes)
  | Ping (a : option bytes) | Echo (a : bytes)
  | Exists' (ks : list bytes) | Del' (ks : list bytes) | Unlink (ks : list bytes) | Touch' (ks : list bytes)
  | Ttl (k : bytes) | Pttl (k : bytes) | Expiretime (k : bytes) | Pexpiretime (k : bytes)
  | Type' (k : bytes) | Persist' (k : bytes)
  | Expire (kind : expire_kind) (k : bytes) (n : Z) (c : expire_cond)
  | Rename (src dst : bytes) | Renamenx (src dst : bytes)
  | Delex (k : bytes) (c : option (bool * bytes))
  | Msetex (kvs : list (bytes * bytes)) (x : set_expiry) (nx : option bool)
  | Hset (k : bytes) (kvs : list (bytes * bytes)) | Hmset (k : bytes) (kvs : list (bytes * bytes)) | Hsetnx (k f v : bytes)
  | Hget (k f : bytes) | Hstrlen (k f : bytes) | Hexists (k f : bytes) | Hlen (k : bytes)
  | Hdel (k : bytes) (fs : list bytes) | Hmget (k : bytes) (fs : list bytes) | Hincrby (k f : bytes) (d : Z)
  | Sadd (k : bytes) (ms : list bytes) | Srem (k : bytes) (ms : list bytes)
  | Sismember (k b : bytes) | Scard (k : bytes) | Smismember (k : bytes) (ms : list bytes)
  | Sstore (op : set_op) (dst : bytes) (keys : list bytes) | Smove (src dst b : bytes)
  | Push (front : bool) (k : bytes) (vals : list bytes) | Pushx (front : bool) (k : bytes) (vals : list bytes) | Pop (front : bool) (k : bytes)
  | Lrange (k : bytes) (i j : Z) | Llen (k : bytes) | Lindex (k : bytes) (i : Z) | Lset (k : bytes) (i : Z) (v : bytes)
  | Linsert (k : bytes) (after : bool) (pivot v : bytes) | Ltrim (k : bytes) (i j : Z) | Lrem (k : bytes) (count : Z) (v : bytes)
  | Lmove (src dst : bytes) (from to : bool) | Rpoplpush (src dst : bytes)
  | Setbit (k : bytes) (off : Z) (v : bool) | Getbit (k : bytes) (off : Z) | Bitcount (k : bytes) (r : bit_range)
  | Bitpos (k : bytes) (v : bool) (r : bit_range) | Bitop (op : bit_op) (dst : bytes) (keys : list bytes)
  | Copy' (src dst : bytes) (replace : bool).

(** A command by its registered name. *)
Ltac cmd_cases c := destruct c; try match goal with kind : expire_kind |- _ => destruct kind end; try match goal with op : set_op |- _ => destruct op end;
  try match goal with front : bool |- context [Push ?b] => destruct b | front : bool |- context [Pushx ?b] => destruct b | front : bool |- context [Pop ?b] => destruct b end.

(** How a client writes the arguments. *)
Definition args_of (c : cmd) : list bytes :=
  match c with
  | Get k | Strlen k | Getdel k | Incr k | Decr k | Ttl k | Pttl k | Expiretime k | Pexpiretime k | Type' k | Persist' k | Hlen k | Scard k | Pop _ k | Llen k => [k]
  | Mget ks | Exists' ks | Del' ks | Unlink ks | Touch' ks => ks
  | Getrange k i j | Lrange k i j | Ltrim k i j => [k; FormatInt i; FormatInt j]
  | Set' k v x c get => k :: v :: set_args x c get
  | Setnx k v | Getset k v | Append' k v => [k; v]
  | Setex k v n | Psetex k v n => [k; FormatInt n; v]
  | Getex k x => k :: getex_args x
  | Mset kvs | Msetnx kvs => flat kvs
  | Incrby k d | Decrby k d => [k; FormatInt d]
  | Setrange k off v => [k; FormatInt off; v]
  | Ping a => match a with Some a => [a] | None => [] end
  | Echo a => [a]
  | Expire _ k n c => k :: FormatInt n :: expire_cond_args c
  | Rename src dst | Renamenx src dst => [src; dst]
  | Delex k c => k :: delex_cond_args c
  | Msetex kvs x nx => msetex_args kvs x nx
  | Hset k kvs | Hmset k kvs => k :: flat kvs
  | Hsetnx k f v => [k; f; v]
  | Hget k f | Hstrlen k f | Hexists k f => [k; f]
  | Hdel k fs | Hmget k fs => k :: fs
  | Hincrby k f d => [k; f; FormatInt d]
  | Sadd k ms | Srem k ms | Smismember k ms => k :: ms
  | Sismember k b => [k; b]
  | Sstore _ dst keys => dst :: keys
  | Smove src dst b => [src; dst; b]
  | Push _ k vals | Pushx _ k vals => k :: vals
  | Lindex k i => [k; FormatInt i]
  | Lset k i v | Lrem k i v => [k; FormatInt i; v]
  | Linsert k after pivot v => [k; if after then str "AFTER" else str "BEFORE"; pivot; v]
  | Lmove src dst from to => [src; dst; side from; side to]
  | Rpoplpush src dst => [src; dst]
  | Setbit k off v => [k; FormatInt off; FormatInt (Z.b2z v)]
  | Getbit k off => [k; FormatInt off]
  | Bitcount k r => k :: range_args r
  | Bitpos k v r => k :: FormatInt (Z.b2z v) :: range_args r
  | Bitop op dst keys => bit_op_name op :: dst :: keys
  | Copy' src dst replace => src :: dst :: copy_args replace
  end.

(** Arguments that the grammar allows: lists are not empty, numbers fit, and deadlines are ones a duration can reach; MSETEX does not keep
    deadlines, and two keys that are locked together are equal or in different stripes. *)
Definition cmd_ok (T : Z) (c : cmd) : Prop :=
  match c with
  | Mget l | Exists' l | Del' l | Unlink l | Touch' l | Hdel _ l | Hmget _ l | Sadd _ l | Srem _ l | Smismember _ l | Sstore _ _ l | Push _ _ l | Pushx _ _ l => l <> []
  | Mset kvs | Msetnx kvs | Hset _ kvs | Hmset _ kvs => kvs <> []
  | Getrange _ i j | Lrange _ i j | Ltrim _ i j => is_int64 i /\ is_int64 j
  | Lindex _ i | Lset _ i _ => is_int64 i
  | Lrem _ count _ => is_int64 count /\ min_int64 < count
  | Set' _ _ x _ _ => expiry_ok T x
  | Setex _ _ n => 0 < n /\ T + n * 1000 <= max_deadline
  | Psetex _ _ n => 0 < n /\ T + n <= max_deadline
  | Getex _ x => forall y, x = Some y -> expiry_ok T y
  | Incrby _ d | Decrby _ d | Hincrby _ _ d => is_int64 d
  | Setrange _ off v => 0 <= off /\ off + zlen v <= maxStringLength
  | Expire kind _ n _ => expire_arg_ok T kind n
  | Setbit _ off _ => 0 <= off <= 2 ^ 32 - 1
  | Getbit _ off => 0 <= off /\ is_int64 off
  | Bitcount _ r | Bitpos _ _ r => range_ok r
  | Bitop op _ keys => keys <> [] /\ (op = BNot -> length keys = 1%nat)
  | Msetex kvs x _ => expiry_ok T x /\ x <> XKeep /\ 0 < zlen kvs < 2 ^ 31
  | Rename src dst | Renamenx src dst | Smove src dst _ | Lmove src dst _ _ | Rpoplpush src dst | Copy' src dst _ => stripes_ok src dst
  | _ => True
  end.

Definition ref_cmd (T : Z) (r3 : bool) (m : dataset) (c : cmd) : bytes * dataset :=
  match c with
  | Get k => ref_GET m k | Strlen k => ref_STRLEN m k | Mget ks => ref_MGET m ks | Getrange k i j => ref_GETRANGE m k i j
  | Set' k v x c get => ref_SET T r3 m k v x c get
  | Setnx k v => ref_SETNX m k v | Setex k v n => ref_SETEX T m k v (n * 1000) | Psetex k v n => ref_SETEX T m k v n
  | Getset k v => ref_GETSET m k v | Getdel k => ref_GETDEL m k | Getex k x => ref_GETEX T m k x
  | Mset kvs => ref_MSET m kvs | Msetnx kvs => ref_MSETNX m kvs
  | Incr k => ref_INCRBY m k 1 | Decr k => ref_INCRBY m k (-1) | Incrby k d => ref_INCRBY m k d
  | Decrby k d => if d =? min_int64 then (Error (str "decrement would overflow"), m) else ref_INCRBY m k (- d)
  | Append' k v => ref_APPEND m k v | Setrange k off v => ref_SETRANGE m k off v
  | Ping a => (match a with Some a => BulkString a | None => PONG end, m) | Echo a => (BulkString a, m)
  | Exists' ks | Touch' ks => ref_EXISTS m ks | Del' ks | Unlink ks => ref_DEL m ks
  | Ttl k => ref_TTL T m k 1000 | Pttl k => ref_TTL T m k 1
  | Expiretime k => ref_EXPIRETIME m k 1000 | Pexpiretime k => ref_EXPIRETIME m k 1
  | Type' k => ref_TYPE m k | Persist' k => ref_PERSIST T m k
  | Expire kind k n c => ref_EXPIRE T m k (expire_at T kind n) c
  | Rename src dst => ref_RENAME m src dst false | Renamenx src dst => ref_RENAME m src dst true
  | Delex k c => ref_DELEX m k c | Msetex kvs x nx => ref_MSETEX T m kvs x nx
  | Hset k kvs => ref_HSET m k kvs | Hmset k kvs => ref_HMSET m k kvs | Hsetnx k f v => ref_HSETNX m k f v
  | Hget k f => ref_HGET m k f | Hstrlen k f => ref_HSTRLEN m k f | Hexists k f => ref_HEXISTS m k f | Hlen k => ref_HLEN m k
  | Hdel k fs => ref_HDEL m k fs | Hmget k fs => ref_HMGET m k fs | Hincrby k f d => ref_HINCRBY m k f d
  | Sadd k ms => ref_SADD m k ms | Srem k ms => ref_SREM m k ms
  | Sismember k b => ref_SISMEMBER m k b | Scard k => ref_SCARD m k | Smismember k ms => ref_SMISMEMBER m k ms
  | Sstore op dst keys => ref_STORE m op dst keys | Smove src dst b => ref_SMOVE m src dst b
  | Push front k vals => ref_PUSH m front k vals | Pushx front k vals => ref_PUSHX m front k vals | Pop front k => ref_POP m front k
  | Lrange k i j => ref_LRANGE m k i j | Llen k => ref_LLEN m k | Lindex k i => ref_LINDEX m k i | Lset k i v => ref_LSET m k i v
  | Linsert k after pivot v => ref_LINSERT m k after pivot v | Ltrim k i j => ref_LTRIM m k i j | Lrem k count v => ref_LREM m k count v
  | Lmove src dst from to => ref_LMOVE m src dst from to | Rpoplpush src dst => ref_LMOVE m src dst false true
  | Setbit k off v => ref_SETBIT m k off v | Getbit k off => ref_GETBIT m k off
  | Bitcount k r => ref_BITCOUNT m k r | Bitpos k v r => ref_BITPOS m k v r | Bitop op dst keys => ref_BITOP m op dst keys
  | Copy' src dst replace => ref_COPY m src dst replace
  end.

(** What a handler asks to be propagated in place of the request; [p] when it does not ask. *)
Definition override (m : dataset) (c : cmd) (p : option (option (list bytes))) : option (option (list bytes)) :=
  match c with
  | Set' k _ _ c _ => set_override m k c p
  | Delex k c => delex_override m k c p
  | _ => p
  end.

Section commands.
Variable E : env.

(** The registered command. *)
Definition row_of (c : cmd) : Command :=
  match c with
  | Get _ => reg "get" (getCommand E) 2 (Z.lor FlagFast FlagReadOnly)
  | Strlen _ => reg "strlen" (strlenCommand E) 2 (Z.lor FlagFast FlagReadOnly)
  | Mget _ => reg "mget" (mgetCommand E) (-2) (Z.lor FlagFast FlagReadOnly)
  | Getrange _ _ _ => reg "getrange" (getrangeCommand E) 4 FlagReadOnly
  | Set' _ _ _ _ _ => reg "set" (setCommand E) (-3) FlagWrite
  | Setnx _ _ => reg "setnx" (setnxCommand E) 3 (Z.lor FlagWrite FlagFast)
  | Setex _ _ _ => reg "setex" (setexCommand E) 4 FlagWrite
  | Psetex _ _ _ => reg "psetex" (psetexCommand E) 4 FlagWrite
  | Getset _ _ => reg "getset" (getsetCommand E) 3 (Z.lor FlagWrite FlagFast)
  | Getdel _ => reg "getdel" (getdelCommand E) 2 (Z.lor FlagWrite FlagFast)
  | Getex _ _ => reg "getex" (getexCommand E) (-2) (Z.lor FlagWrite FlagFast)
  | Mset _ => reg "mset" (msetCommand E) (-3) FlagWrite
  | Msetnx _ => reg "msetnx" (msetnxCommand E) (-3) FlagWrite
  | Incr _ => reg "incr" (incrCommand E) 2 (Z.lor FlagFast FlagWrite)
  | Decr _ => reg "decr" (decrCommand E) 2 (Z.lor FlagFast FlagWrite)
  | Incrby _ _ => reg "incrby" (incrbyCommand E) 3 (Z.lor FlagFast FlagWrite)
  | Decrby _ _ => reg "decrby" (decrbyCommand E) 3 (Z.lor FlagFast FlagWrite)
  | Append' _ _ => reg "append" (appendCommand E) 3 FlagWrite
  | Setrange _ _ _ => reg "setrange" (setrangeCommand E) 4 FlagWrite
  | Ping _ => reg "ping" pingCommand (-1) (Z.lor FlagFast FlagReadOnly)
  | Echo _ => reg "echo" echoCommand 2 (Z.lor FlagFast FlagReadOnly)
  | Exists' _ => reg "exists" (existsCommand E) (-2) (Z.lor FlagFast FlagReadOnly)
  | Del' _ => reg "del" (delCommand E) (-2) FlagWrite
  | Unlink _ => reg "unlink" (unlinkCommand E) (-2) (Z.lor FlagWrite FlagFast)
  | Touch' _ => reg "touch" (touchCommand E) (-2) (Z.lor FlagReadOnly FlagFast)
  | Ttl _ => reg "ttl" (ttlCommand E) 2 (Z.lor FlagFast FlagReadOnly)
  | Pttl _ => reg "pttl" (pttlCommand E) 2 (Z.lor FlagReadOnly FlagFast)
  | Expiretime _ => reg "expiretime" (expiretimeCommand E) 2 (Z.lor FlagReadOnly FlagFast)
  | Pexpiretime _ => reg "pexpiretime" (pexpiretimeCommand E) 2 (Z.lor FlagReadOnly FlagFast)
  | Type' _ => reg "type" (typeCommand E) 2 (Z.lor FlagFast FlagReadOnly)
  | Persist' _ => reg "persist" (persistCommand E) 2 (Z.lor FlagWrite FlagFast)
  | Expire KExpire _ _ _ => reg "expire" (expireCommand E) (-3) (Z.lor FlagWrite FlagFast)
  | Expire KPexpire _ _ _ => reg "pexpire" (pexpireCommand E) (-3) (Z.lor FlagWrite FlagFast)
  | Expire KExpireat _ _ _ => reg "expireat" (expireatCommand E) (-3) (Z.lor FlagWrite FlagFast)
  | Expire KPexpireat _ _ _ => reg "pexpireat" (pexpireatCommand E) (-3) (Z.lor FlagWrite FlagFast)
  | Rename _ _ => reg "rename" (renameCommand E) 3 FlagWrite
  | Renamenx _ _ => reg "renamenx" (renamenxCommand E) 3 (Z.lor FlagWrite FlagFast)
  | Delex _ _ => reg "delex" (delexCommand E) (-2) (Z.lor FlagWrite FlagFast)
  | Msetex _ _ _ => reg "msetex" (msetexCommand E) (-4) FlagWrite
  | Hset _ _ => reg "hset" (hsetCommand E) (-4) (Z.lor FlagFast FlagWrite)
  | Hmset _ _ => reg "hmset" (hmsetCommand E) (-4) (Z.lor FlagFast FlagWrite)
  | Hsetnx _ _ _ => reg "hsetnx" (hsetnxCommand E) 4 (Z.lor FlagWrite FlagFast)
  | Hget _ _ => reg "hget" (hgetCommand E) 3 (Z.lor FlagFast FlagReadOnly)
  | Hstrlen _ _ => reg "hstrlen" (hstrlenCommand E) 3 (Z.lor FlagReadOnly FlagFast)
  | Hexists _ _ => reg "hexists" (hexistsCommand E) 3 (Z.lor FlagFast FlagReadOnly)
  | Hlen _ => reg "hlen" (hlenCommand E) 2 (Z.lor FlagFast FlagReadOnly)
  | Hdel _ _ => reg "hdel" (hdelCommand E) (-3) (Z.lor FlagFast FlagWrite)
  | Hmget _ _ => reg "hmget" (hmgetCommand E) (-3) (Z.lor FlagFast FlagReadOnly)
  | Hincrby _ _ _ => reg "hincrby" (hincrbyCommand E) 4 (Z.lor FlagFast FlagWrite)
  | Sadd _ _ => reg "sadd" (saddCommand E) (-3) (Z.lor FlagFast FlagWrite)
  | Srem _ _ => reg "srem" (sremCommand E) (-3) (Z.lor FlagFast FlagWrite)
  | Sismember _ _ => reg "sismember" (sismemberCommand E) 3 (Z.lor FlagFast FlagReadOnly)
  | Scard _ => reg "scard" (scardCommand E) 2 (Z.lor FlagFast FlagReadOnly)
  | Smismember _ _ => reg "smismember" (smismemberCommand E) (-3) (Z.lor FlagReadOnly FlagFast)
  | Sstore OpInter _ _ => reg "sinterstore" (sinterstoreCommand E) (-3) FlagWrite
  | Sstore OpUnion _ _ => reg "sunionstore" (sunionstoreCommand E) (-3) FlagWrite
  | Sstore OpDiff _ _ => reg "sdiffstore" (sdiffstoreCommand E) (-3) FlagWrite
  | Smove _ _ _ => reg "smove" (smoveCommand E) 4 (Z.lor FlagWrite FlagFast)
  | Push true _ _ => reg "lpush" (lpushCommand E) (-3) (Z.lor FlagFast FlagWrite)
  | Push false _ _ => reg "rpush" (rpushCommand E) (-3) (Z.lor FlagFast FlagWrite)
  | Pushx true _ _ => reg "lpushx" (lpushxCommand E) (-3) (Z.lor FlagWrite FlagFast)
  | Pushx false _ _ => reg "rpushx" (rpushxCommand E) (-3) (Z.lor FlagWrite FlagFast)
  | Pop true _ => reg "lpop" (lpopCommand E) 2 (Z.lor FlagFast FlagWrite)
  | Pop false _ => reg "rpop" (rpopCommand E) 2 (Z.lor FlagFast FlagWrite)
  | Lrange _ _ _ => reg "lrange" (lrangeCommand E) 4 FlagReadOnly
  | Llen _ => reg "llen" (llenCommand E) 2 (Z.lor FlagFast FlagReadOnly)
  | Lindex _ _ => reg "lindex" (lindexCommand E) 3 (Z.lor FlagFast FlagReadOnly)
  | Lset _ _ _ => reg "lset" (lsetCommand E) 4 FlagWrite
  | Linsert _ _ _ _ => reg "linsert" (linsertCommand E) 5 FlagWrite
  | Ltrim _ _ _ => reg "ltrim" (ltrimCommand E) 4 FlagWrite
  | Lrem _ _ _ => reg "lrem" (lremCommand E) 4 FlagWrite
  | Lmove _ _ _ _ => reg "lmove" (lmoveCommand E) 5 FlagWrite
  | Rpoplpush _ _ => reg "rpoplpush" (rpoplpushCommand E) 3 FlagWrite
  | Setbit _ _ _ => reg "setbit" (setbitCommand E) 4 (Z.lor FlagWrite FlagFast)
  | Getbit _ _ => reg "getbit" (getbitCommand E) 3 (Z.lor FlagReadOnly FlagFast)
  | Bitcount _ _ => reg "bitcount" (bitcountCommand E) (-2) FlagReadOnly
  | Bitpos _ _ _ => reg "bitpos" (bitposCommand E) (-3) FlagReadOnly
  | Bitop _ _ _ => reg "bitop" (bitopCommand E) (-4) FlagWrite
  | Copy' _ _ _ => reg "copy" (copyCommand E) (-3) FlagWrite
  end.

(** The name, in any mixture of cases. *)
Definition spells (n : bytes) (c : cmd) : Prop := toLowerASCII n = cmd_Name (row_of c).

(** Finds a row by its name, group by group. *)
Local Ltac find_row :=
  repeat lazymatch goal with
  | |- reg ?n _ _ _ ∈ reg ?n _ _ _ :: _ => apply list_elem_of_here
  | |- _ ∈ _ :: _ => apply list_elem_of_further
  end.

Lemma row_in ex c : row_of c ∈ rows E ex.
Proof.
  unfold rows. cmd_cases c; cbn [row_of];
    repeat (apply elem_of_app; first [left; lazymatch goal with |- _ ∈ ?g => let g' := eval red in g in change g with g' end; solve [find_row]|right]);
    lazymatch goal with |- _ ∈ ?g => let g' := eval red in g in change g with g' end; find_row.
Qed.

Lemma zlen_pos {A : Type} (l : list A) : l <> [] -> 1 <= zlen l.
Proof. destruct l; [done|]. intros _. rewrite zlen_cons. zlen_pose. lia. Qed.

Lemma arity_ok T n c : cmd_ok T c -> bad_arity (row_of c) (n :: args_of c) = false.
Proof.
  intros Hc. unfold bad_arity. apply orb_false_iff.
  cmd_cases c; cbn [row_of Arity reg args_of cmd_ok] in *; split; try reflexivity;
    apply andb_false_iff; right; apply Z.ltb_ge;
    repeat match goal with H : _ <> [] /\ _ |- _ => destruct H as [H _] | H : _ <> [] |- _ => apply zlen_pos in H end;
    unfold msetex_args; rewrite ?zlen_cons, ?flat_length, ?zlen_app, ?flat_length; zlen_pose; lia.
Qed.

Variable T : Z.
Hypothesis Hclk : instant E T.
Hypothesis Ho : orders_ok E.

Lemma handler_ok m s n c :
  abs_rel T m s -> cmd_ok T c ->
  does_prop T (Handler (row_of c) (n :: args_of c)) m s (ref_cmd T (c_resp3 s) m c) (override m c (c_prop s)).
Proof using Hclk Ho.
  intros H Hc. cmd_cases c; cbn [row_of Handler reg args_of cmd_ok ref_cmd override] in *;
    try (apply does_does_prop).
  - by apply getCommand_ok.
  - by apply strlenCommand_ok.
  - by apply mgetCommand_ok.
  - destruct Hc. by apply getrangeCommand_ok.
  - by apply setCommand_ok.
  - by apply setnxCommand_ok.
  - destruct Hc. by apply setexCommand_ok.
  - destruct Hc. by apply psetexCommand_ok.
  - by apply getsetCommand_ok.
  - by apply getdelCommand_ok.
  - by apply getexCommand_ok.
  - by apply msetCommand_ok.
  - by apply msetnxCommand_ok.
  - by apply incrCommand_ok.
  - by apply decrCommand_ok.
  - by apply incrbyCommand_ok.
  - by apply decrbyCommand_ok.
  - by apply appendCommand_ok.
  - destruct Hc. by apply setrangeCommand_ok.
  - destruct a; [by apply ping1Command_ok|by apply pingCommand_ok].
  - by apply echoCommand_ok.
  - by apply existsCommand_ok.
  - by apply delCommand_ok.
  - by apply unlinkCommand_ok.
  - by apply touchCommand_ok.
  - by apply ttlCommand_ok.
  - by apply pttlCommand_ok.
  - by apply expiretimeCommand_ok.
  - by apply pexpiretimeCommand_ok.
  - by apply typeCommand_ok.
  - by apply persistCommand_ok.
  - by apply expireGeneric_ok.
  - by apply expireGeneric_ok.
  - by apply expireGeneric_ok.
  - by apply expireGeneric_ok.
  - by apply renameCommand_ok.
  - by apply renamenxCommand_ok.
  - by apply delexCommand_ok.
  - destruct Hc as (? & ? & ?). by apply msetexCommand_ok.
  - by apply hsetCommand_ok.
  - by apply hmsetCommand_ok.
  - by apply hsetnxCommand_ok.
  - by apply hgetCommand_ok.
  - by apply hstrlenCommand_ok.
  - by apply hexistsCommand_ok.
  - by apply hlenCommand_ok.
  - by apply hdelCommand_ok.
  - by apply hmgetCommand_ok.
  - by apply hincrbyCommand_ok.
  - by apply saddCommand_ok.
  - by apply sremCommand_ok.
  - by apply sismemberCommand_ok.
  - by apply scardCommand_ok.
  - by apply smismemberCommand_ok.
  - by apply storeOp_ok.
  - by apply storeOp_ok.
  - by apply storeOp_ok.
  - by apply smoveCommand_ok.
  - exact (pushGeneric_ok E T Hclk m s true n k vals Hc H).
  - exact (pushGeneric_ok E T Hclk m s false n k vals Hc H).
  - exact (pushxGeneric_ok E T Hclk m s true n k vals Hc H).
  - exact (pushxGeneric_ok E T Hclk m s false n k vals Hc H).
  - exact (popGeneric_ok E T Hclk m s true n k H).
  - exact (popGeneric_ok E T Hclk m s false n k H).
  - destruct Hc. by apply lrangeCommand_ok.
  - by apply llenCommand_ok.
  - by apply lindexCommand_ok.
  - by apply lsetCommand_ok.
  - apply linsertCommand_ok; [exact Hclk|by destruct after|exact H].
  - destruct Hc. by apply ltrimCommand_ok.
  - destruct Hc. by apply lremCommand_ok.
  - by apply lmoveCommand_ok.
  - by apply rpoplpushCommand_ok.
  - by apply setbitCommand_ok.
  - destruct Hc. by apply getbitCommand_ok.
  - by apply bitcountCommand_ok.
  - by apply bitposCommand_ok.
  - destruct Hc. by apply bitopCommand_ok.
  - by apply copyCommand_ok.
Qed.

End commands.
