(* ===== verification/ServerSpec.v ===== *)
(** * A server against the dataset

    [Execute] as a whole: a request that names a data command, spelled as the client likes, replies
    and changes the dataset as the command means ([ref_cmd]), and what it feeds to the sinks is
    known ([sent]).  From this follow the refinement of whole histories and the theorems on
    transactions. *)

From S2P Require Import Prelude Strconv Object Value Db DbSpec Reply Acl Cluster Context Strings StringSpec Generic GenericSpec.
From S2P Require Import Hashes HashSpec Sets SetSpec Lists ListSpec Bitmap Bits BitSpec Copy Dispatch Registry CommandSpec.
Local Open Scope Z_scope.

(** ** Sessions *)

(** What a request leaves alone besides the data: everything but the sinks and the pending override. *)
Record session (s s' : St) : Prop := {
  se_lim : s_lim s' = s_lim s;
  se_lazy : s_lazy s' = s_lazy s;
  se_acl : s_acl s' = s_acl s;
  se_cluster : s_cluster s' = s_cluster s;
  se_Tx : c_Tx s' = c_Tx s;
  se_User : c_User s' = c_User s;
  se_resp3 : c_resp3 s' = c_resp3 s;
  se_InTx : c_InTx s' = c_InTx s;
  se_watchers : watchers (s_db s') = watchers (s_db s)
}.

Lemma session_refl s : session s s.
Proof. by split. Qed.

Lemma session_trans s1 s2 s3 : session s1 s2 -> session s2 s3 -> session s1 s3.
Proof. intros [] []. split; congruence. Qed.

Lemma keeps_session m s s' p : keeps m s (set_prop p s') -> session s s'.
Proof. intros [[] _]. by split. Qed.

(** The server answers every command of this connection: no cluster redirects it, and its user may run everything. *)
Record ready (s : St) : Prop := {
  rd_cluster : match s_cluster s with Some cm => ClusterEnabled cm = false | None => True end;
  rd_user name cats : match c_User s with None => True | Some l => exists u, u_heap (s_acl s) !! l = Some u /\ CanExecute u name cats = true end
}.

Definition multi_of (s : St) : bool := match c_Tx s with Some tx => InMulti tx | None => false end.

Lemma ready_session s s' : session s s' -> ready s -> ready s' /\ multi_of s' = multi_of s.
Proof.
  intros HS [Hc Hu]. split; [split|].
  - by rewrite (se_cluster _ _ HS).
  - intros name cats. rewrite (se_User _ _ HS), (se_acl _ _ HS). apply Hu.
  - unfold multi_of. by rewrite (se_Tx _ _ HS).
Qed.

Lemma initial_ready lim sinks : ready (initial lim sinks) /\ multi_of (initial lim sinks) = false.
Proof. split; [|done]. split; [done|]. intros name cats. cbn. eexists. split; [done|]. unfold CanExecute. cbn. by rewrite !Z.land_0_l. Qed.

(** ** Through the dispatcher *)

Lemma wp_execute E ex cmd n rest s (Q : bytes -> St -> Prop) :
  ready s -> cmd ∈ rows E ex -> toLowerASCII n = cmd_Name cmd -> bad_arity cmd (n :: rest) = false ->
  (if multi_of s && negb (is_control (cmd_Name cmd)) then wp (_ ← enqueue (n :: rest); mret Queued) s Q else wp (run_command E cmd (n :: rest)) s Q) ->
  wp (Execute E (DefaultTable E ex) (n :: rest)) s Q.
Proof.
  intros [Hc Hu] Hin Hn Ha HQ. unfold Execute. rewrite (lookup_row E ex cmd n Hin Hn), Ha.
  apply wp_bind. exists None, s. split.
  { unfold acl_check. destruct (c_User s) as [l|]; [|done]. destruct (Hu (cmd_Name cmd) (categories (Flags cmd))) as (u & Eu & Hce). rewrite Eu. cbn.
    by rewrite Hce, andb_false_r. }
  apply wp_bind. exists None, s. split; [unfold cluster_check; destruct (s_cluster s); [by rewrite Hc; destruct rest|done]|].
  apply wp_bind, wp_gets. fold (multi_of s). by destruct (multi_of s && negb (is_control (cmd_Name cmd))).
Qed.

(** ** One command *)

(** Requests appended to a sink. *)
Definition appended (out : list (list bytes)) (sink : option (list (list bytes))) : option (list (list bytes)) := (fun l => l ++ out) <$> sink.

Definition dels (ks : list bytes) : list (list bytes) := (fun k => [str "DEL"; k]) <$> ks.

(** What is sent for a command: its normalised form unless the handler overrides it, and nothing for a read or an error. *)
Definition sent (lazy : bool) (T : Z) (r3 : bool) (m : dataset) (n : bytes) (c : cmd) : list (list bytes) :=
  let reply := (ref_cmd T r3 m c).1 in
  if has_flag (Flags (row_of (frozen 0) c)) FlagWrite && negb (bool_decide (reply = [])) && negb (is_error reply) then
    match normalizeForPropagation lazy T (cmd_Name (row_of (frozen 0) c)) (n :: args_of c) reply with
    | Some out => option_list (default out (override m c None))
    | None => []
    end
  else [].

(** The test of a command's name against a literal. *)
Ltac known_name :=
  repeat match goal with
  | |- context [bool_decide (str ?a = str ?b)] =>
    let v := eval vm_compute in (bool_decide (str a = str b)) in change (bool_decide (str a = str b)) with v
  end; cbn [orb].

Lemma normalize_total lazy T T' E n c reply :
  cmd_ok T c -> exists out, normalizeForPropagation lazy T' (cmd_Name (row_of E c)) (n :: args_of c) reply = Some out.
Proof.
  intros Hc. unfold normalizeForPropagation.
  cmd_cases c; cbn [row_of cmd_Name reg args_of]; cbv zeta; known_name; try by eauto.
  all: try (case_match; [by eauto|]).
  all: repeat match goal with
       | |- context [go_at (?a :: ?b :: ?l) 1] => change (go_at (a :: b :: l) 1) with (Some b)
       | |- context [go_at (?a :: ?b :: ?c :: ?l) 2] => change (go_at (a :: b :: c :: l) 2) with (Some c)
       | |- context [go_at (?a :: ?b :: ?c :: ?d :: ?l) 3] => change (go_at (a :: b :: c :: d :: l) 3) with (Some d)
       end; go_bind; repeat case_match; eauto.
Qed.

Lemma row_frozen E c : Flags (row_of E c) = Flags (row_of (frozen 0) c) /\ cmd_Name (row_of E c) = cmd_Name (row_of (frozen 0) c).
Proof. cmd_cases c; cbn [row_of reg Flags cmd_Name]; (split; reflexivity). Qed.

Lemma abs_rel_sinks T m s a r : abs_rel T m s -> abs_rel T m (set_sinks a r s).
Proof. intros []. by split. Qed.

Section one.
Variables (E : env) (T : Z).
Hypothesis Hclk : instant E T.
Hypothesis Ho : orders_ok E.

Lemma appended_nil sink : appended [] sink = sink.
Proof. destruct sink as [l|]; [|done]. cbn. by rewrite app_nil_r. Qed.

Lemma appended_app a b sink : appended b (appended a sink) = appended (a ++ b) sink.
Proof. destruct sink as [l|]; [|done]. cbn. by rewrite app_assoc. Qed.

(** What a request sends: deletions of keys that had expired, then [out]. *)
Definition emits (m : dataset) (out : list (list bytes)) (s s' : St) : Prop :=
  exists ks, Forall (fun k => m !! k = None) ks /\
    s_aof s' = appended (dels ks ++ out) (s_aof s) /\ s_repl s' = appended (dels ks ++ out) (s_repl s).

Lemma emits_refl m s : emits m [] s s.
Proof. exists []. by rewrite !appended_nil. Qed.

Lemma keeps_emits m s s' p : keeps m s (set_prop p s') -> emits m [] s s'.
Proof. intros [_ (ks & Hks & Ea & Er)]. exists ks. rewrite app_nil_r. done. Qed.

Lemma emits_feed m s s1 out : emits m [] s s1 -> emits m [out] s (feed out s1).
Proof.
  intros (ks & Hks & Ea & Er). exists ks. rewrite app_nil_r in *. split; [done|]. rewrite <- !appended_app, <- Ea, <- Er. done.
Qed.

Lemma emits_quiet m s s1 s2 : emits m [] s s1 -> quiet s1 s2 -> emits m [] s s2.
Proof.
  intros (ks & Hks & Ea & Er) Hq. destruct (k_fed _ _ _ (Hq m)) as (ks' & Hks' & Ea' & Er'). exists (ks ++ ks').
  unfold dels in *. rewrite app_nil_r in *. rewrite fmap_app. split; [by apply Forall_app|]. rewrite Ea', Er', Ea, Er. split; apply appended_app.
Qed.

(** What follows the handler of a writing command. *)
Lemma after_write_rule m m' s s1 cmd n k rest reply out p :
  abs_rel T m' s1 -> session s s1 -> emits m [] s s1 -> c_prop s1 = p ->
  normalizeForPropagation (s_lazy s) T (cmd_Name cmd) (n :: k :: rest) reply = Some out ->
  wp (after_write E cmd (n :: k :: rest) reply) s1 (fun _ s' => abs_rel T m' s' /\ session s s' /\ emits m (option_list (default out p)) s s').
Proof using Hclk.
  intros H HS Hem Hp Hnorm. unfold after_write.
  apply wp_bind. apply (db_Touch_rule E T Hclk m'); [done|]. intros s2 H2 Hq2 _.
  assert (session s1 s2) as HS2 by (destruct (quiet_conn _ _ Hq2); by split).
  assert (session s s2) by by eapply session_trans.
  assert (emits m [] s s2) as Hem2 by by eapply emits_quiet.
  assert (c_prop s2 = p) as Hp2 by (rewrite <- Hp; apply (quiet_conn _ _ Hq2)).
  apply wp_bind, wp_gets. destruct (bool_decide (is_Some (s_aof s2)) || bool_decide (is_Some (s_repl s2))) eqn:Hsinks.
  - apply wp_bind. apply (now_rule E T Hclk m'); [done|]. intros t s3 Ht H3 Hq3 _.
    assert (session s s3) as HS3 by (eapply session_trans; [done|]; destruct (quiet_conn _ _ Hq3); by split).
    apply wp_bind, wp_gets. rewrite Ht, (se_lazy _ _ HS3). apply wp_bind. eapply wp_lift; [exact Hnorm|]. apply wp_bind, wp_gets.
    rewrite (k_prop _ _ (quiet_conn _ _ Hq3)), Hp2. assert (emits m [] s s3) as Hem3 by by eapply emits_quiet.
    destruct (default out p) as [o|].
    + apply wp_modify. split_and!; [by apply abs_rel_sinks|destruct HS3; by split|by apply emits_feed].
    + by apply wp_ret.
  - apply wp_ret. split_and!; [done..|]. destruct Hem2 as (ks & Hks & Ea & Er). exists ks. split; [done|].
    apply orb_false_iff in Hsinks as [Ha%bool_decide_eq_false Hr%bool_decide_eq_false].
    destruct (s_aof s2) eqn:E1; [by destruct Ha|]. destruct (s_repl s2) eqn:E2; [by destruct Hr|].
    split; [by destruct (s_aof s)|by destruct (s_repl s)].
Qed.

Lemma after_write_ok m m' s s1 n c reply out p :
  abs_rel T m' s1 -> session s s1 -> emits m [] s s1 -> c_prop s1 = p -> args_of c <> [] ->
  normalizeForPropagation (s_lazy s) T (cmd_Name (row_of E c)) (n :: args_of c) reply = Some out ->
  wp (after_write E (row_of E c) (n :: args_of c) reply) s1 (fun _ s' =>
    abs_rel T m' s' /\ session s s' /\ emits m (option_list (default out p)) s s').
Proof using Hclk. intros H HS Hem Hp Hargs Hnorm. destruct (args_of c) as [|k rest]; [done|]. by apply after_write_rule. Qed.

Lemma write_args_nonempty c : has_flag (Flags (row_of E c)) FlagWrite = true -> cmd_ok T c -> args_of c <> [].
Proof.
  intros Hf Hc. cmd_cases c; cbn [args_of cmd_ok] in *; try done; try (by vm_compute in Hf);
    destruct kvs as [|[] ?]; done.
Qed.

Lemma run_command_ok m s n c :
  abs_rel T m s -> cmd_ok T c ->
  wp (run_command E (row_of E c) (n :: args_of c)) s (fun r s' =>
    r = (ref_cmd T (c_resp3 s) m c).1 /\ abs_rel T (ref_cmd T (c_resp3 s) m c).2 s' /\ session s s' /\
    emits m (sent (s_lazy s) T (c_resp3 s) m n c) s s').
Proof using Hclk Ho.
  intros H Hc. apply wp_bind, wp_modify. apply wp_bind.
  assert (abs_rel T m (set_prop None s)) as H0 by by apply abs_rel_prop.
  eapply wp_mono; [by apply (handler_ok E T Hclk Ho m)|]. intros r s1 (Hr & H1 & Hk & Hp). cbn [c_prop c_resp3 set_prop] in *.
  assert (session s s1) as HS by (destruct (keeps_session _ _ _ _ Hk); by split).
  assert (emits m [] s s1) as Hem by (by apply (keeps_emits m (set_prop None s) s1 None)).
  unfold sent. destruct (row_frozen E c) as [HF HN]. rewrite <- HF, <- HN, <- Hr.
  destruct (has_flag (Flags (row_of E c)) FlagWrite) eqn:Hw; cbn [andb].
  2: { apply wp_ret. split; [reflexivity|]. split; [exact H1|]. split; [exact HS|exact Hem]. }
  destruct (negb (bool_decide (r = [])) && negb (is_error r)).
  2: { apply wp_ret. split; [reflexivity|]. split; [exact H1|]. split; [exact HS|exact Hem]. }
  destruct (normalize_total (s_lazy s) T T E n c r Hc) as [out Hout]. rewrite Hout.
  apply wp_bind. eapply wp_mono; [eapply (after_write_ok m _ s s1 n c r out (override m c None)); [exact H1|exact HS|exact Hem|exact Hp| |exact Hout]|].
  { by apply write_args_nonempty. }
  intros _ s2 (H2 & HS2 & Hem2). apply wp_ret. split; [reflexivity|]. split; [exact H2|]. split; [exact HS2|exact Hem2].
Qed.

(** A request, outside a transaction. *)
Lemma request_ok ex m s n c :
  ready s -> multi_of s = false -> abs_rel T m s -> cmd_ok T c -> spells E n c ->
  wp (Execute E (DefaultTable E ex) (n :: args_of c)) s (fun r s' =>
    r = (ref_cmd T (c_resp3 s) m c).1 /\ abs_rel T (ref_cmd T (c_resp3 s) m c).2 s' /\ session s s' /\
    emits m (sent (s_lazy s) T (c_resp3 s) m n c) s s').
Proof using Hclk Ho.
  intros Hr Hm H Hc Hn. apply (wp_execute E ex (row_of E c)); [done|apply row_in|done|by eapply arity_ok|]. rewrite Hm. by apply run_command_ok.
Qed.

End one.
