(* ===== verification/HistorySpec.v ===== *)
(** * Whole histories: the server against the dataset, and transactions

    A history is a list of requests, each at its own instant and in its own environment (clock,
    random choices, map orders).  [server_refines_dataset] is the theorem on a server as a whole;
    the theorems on MULTI, EXEC and DISCARD follow from the same lemma on a single request. *)

From S2P Require Import Prelude Strconv Object Value Db DbSpec Reply Acl Cluster Context Strings StringSpec Generic GenericSpec.
From S2P Require Import Hashes HashSpec Sets SetSpec Lists ListSpec Bitmap Bits BitSpec Copy Dispatch Registry CommandSpec ServerSpec.
Local Open Scope Z_scope.

(** ** Histories *)

Lemma frozen_orders T : orders_ok (frozen T).
Proof. split; intros n m; reflexivity. Qed.

Record event := mkEvent { ev_env : env; ev_time : Z; ev_name : bytes; ev_cmd : cmd }.

Definition event_ok (ev : event) : Prop :=
  instant (ev_env ev) (ev_time ev) /\ orders_ok (ev_env ev) /\ spells (ev_env ev) (ev_name ev) (ev_cmd ev) /\ cmd_ok (ev_time ev) (ev_cmd ev).

(** Time does not go back. *)
Fixpoint in_order (T : Z) (evs : list event) : Prop :=
  match evs with
  | [] => True
  | ev :: evs => T <= ev_time ev /\ in_order (ev_time ev) evs
  end.

(** The requests of a history on a server. *)
Fixpoint serve (evs : list event) : M (list bytes) :=
  match evs with
  | [] => mret []
  | ev :: evs =>
    r ← request (ev_env ev) (ev_name ev :: args_of (ev_cmd ev));
    rs ← serve evs;
    mret (r :: rs)
  end.

(** The same history on the dataset: keys whose deadline has come are gone, then the command. *)
Definition ref_event (r3 : bool) (m : dataset) (ev : event) : bytes * dataset :=
  ref_cmd (ev_time ev) r3 (expire_dataset (ev_time ev) m) (ev_cmd ev).

Fixpoint ref_history (r3 : bool) (m : dataset) (evs : list event) : list bytes * dataset :=
  match evs with
  | [] => ([], m)
  | ev :: evs =>
    let x := ref_event r3 m ev in
    let y := ref_history r3 x.2 evs in
    (x.1 :: y.1, y.2)
  end.

Definition end_time (T : Z) (evs : list event) : Z := match last evs with Some ev => ev_time ev | None => T end.

Lemma end_time_cons T ev evs : end_time T (ev :: evs) = end_time (ev_time ev) evs.
Proof. unfold end_time. destruct evs as [|ev' evs]; [done|]. rewrite last_cons_cons. by destruct (last (ev' :: evs)) eqn:E; [|apply last_None in E]. Qed.

Lemma serve_ok evs : forall T m s,
  ready s -> multi_of s = false -> abs_rel T m s -> in_order T evs -> Forall event_ok evs ->
  wp (serve evs) s (fun rs s' =>
    rs = (ref_history (c_resp3 s) m evs).1 /\ abs_rel (end_time T evs) (ref_history (c_resp3 s) m evs).2 s' /\ session s s').
Proof.
  induction evs as [|ev evs IH]; intros T m s Hr Hm H Hord Hev.
  { apply wp_ret. split_and!; [done|done|apply session_refl]. }
  apply Forall_cons in Hev as [(Hi & Ho & Hn & Hc) Hev]. destruct Hord as [HT Hord]. cbn [serve ref_history]. rewrite end_time_cons.
  apply wp_bind. eapply wp_mono; [eapply request_ok; [exact Hi|exact Ho|exact Hr|exact Hm| |exact Hc|exact Hn]|].
  { by eapply abs_rel_later. }
  intros r s1 (Hrep & H1 & HS1 & _). destruct (ready_session _ _ HS1 Hr) as [Hr1 Hm1]. rewrite Hm in Hm1.
  apply wp_bind. eapply wp_mono; [eapply IH; [exact Hr1|exact Hm1|exact H1|exact Hord|exact Hev]|].
  intros rs s2 (Hrs & H2 & HS2). apply wp_ret. rewrite (se_resp3 _ _ HS1) in *. unfold ref_event.
  split_and!; [by rewrite Hrep, Hrs|exact H2|by eapply session_trans].
Qed.

(** C1. The server as a whole is one map. Take any history, at non-decreasing instants, of the commands of [cmd]: strings, bitmaps, keys,
    hashes, lists and sets, but not the commands whose reply lists a map in its own order (HGETALL, HKEYS, SMEMBERS, SINTER and the like).
    The names are spelled in any letter case and the arguments are in the grammar of [cmd_ok]: numbers and deadlines fit, MSETEX does not
    keep deadlines, and two keys that are locked together are equal or in different stripes. Whatever encoding thresholds are configured,
    whatever the random choices and map orders, without a memory limit, every request is answered with the reply that a plain dictionary
    from keys to values with deadlines gives, so none of them panics or hangs; at the end the keyspace, its containers and its deadlines
    represent that dictionary. (Outside of these conditions: [rename_within_a_stripe_hangs], [sintercard_numkeys_panics],
    [msetex_keepttl_inherits_a_past_deadline].) *)
Theorem server_refines_dataset lim sinks T evs :
  limits_ok lim -> in_order T evs -> Forall event_ok evs ->
  exists s', serve evs (initial lim sinks) = Some ((ref_history false ∅ evs).1, s') /\
    abs_rel (end_time T evs) (ref_history false ∅ evs).2 s'.
Proof.
  intros Hl Hord Hev. destruct (initial_ready lim sinks) as [Hr Hm].
  destruct (serve_ok evs T ∅ (initial lim sinks)) as (rs & s' & E & -> & H & _); [done|done|by apply initial_abs|done|done|].
  by exists s'.
Qed.

(** Four instants, all four value types, mixed spelling, a key that expires on the way and thresholds so small
    that the containers change their encoding. *)
Definition sample : list event :=
  [mkEvent (frozen 0) 0 (str "Set") (Set' (str "k") (str "41") (XMillis 5) CAlways false);
   mkEvent (frozen 0) 0 (str "HSET") (Hset (str "h") [(str "f", str "1"); (str "g", str "2")]);
   mkEvent (frozen 1) 1 (str "sadd") (Sadd (str "s") [str "7"; str "x"; str "7"]);
   mkEvent (frozen 4) 4 (str "get") (Get (str "k"));
   mkEvent (frozen 9) 9 (str "incr") (Incr (str "k"));
   mkEvent (frozen 9) 9 (str "hincrby") (Hincrby (str "h") (str "f") 9);
   mkEvent (frozen 9) 9 (str "SMOVE") (Smove (str "s") (str "t") (str "x"));
   mkEvent (frozen 9) 9 (str "get") (Get (str "s"));
   mkEvent (frozen 9) 9 (str "RPush") (Push false (str "l") [str "a"; str "b"; str "c"]);
   mkEvent (frozen 9) 9 (str "lmove") (Lmove (str "l") (str "l") false true);
   mkEvent (frozen 9) 9 (str "LRANGE") (Lrange (str "l") 0 (-2))].

Lemma sample_ok : Forall event_ok sample.
Proof.
  unfold sample. repeat (apply Forall_cons; split); [..|by apply Forall_nil];
    (split; [by apply frozen_instant|split; [apply frozen_orders|split; [reflexivity|]]]); cbn [cmd_ok ev_cmd ev_time];
    try exact I; try discriminate; try (apply (bool_decide_unpack _); vm_compute; exact I).
Qed.

Lemma server_refines_dataset_witness :
  exists s', serve sample (initial (mkLimits 1 64 1 1 64 1 64 1) true) =
    Some ([OK; Integer 2; Integer 2; BulkString (str "41"); Integer 1; Integer 10; Integer 1; wrongtype;
      Integer 3; BulkString (str "c"); Array [BulkString (str "c"); BulkString (str "a")]], s').
Proof.
  destruct (server_refines_dataset (mkLimits 1 64 1 1 64 1 64 1) true 0 sample) as (s' & Hs & _).
  - split; cbn; lia.
  - cbn. lia.
  - exact sample_ok.
  - exists s'. rewrite Hs. vm_compute. reflexivity.
Defined.

(** ** Transactions *)

(** A connection in the state [tx]. *)
Lemma abs_rel_Tx T m s tx : abs_rel T m s -> abs_rel T m (set_Tx tx s).
Proof. intros []. by split. Qed.

Lemma abs_rel_InTx T m s b : abs_rel T m s -> abs_rel T m (set_InTx b s).
Proof. intros []. by split. Qed.

Lemma ready_Tx s tx : ready s -> ready (set_Tx tx s).
Proof. intros []. by split. Qed.

Lemma ready_InTx s b : ready s -> ready (set_InTx b s).
Proof. intros []. by split. Qed.

(** Requests by their arguments, each in an environment of its own. *)
Fixpoint requests (rs : list (env * list bytes)) : M (list bytes) :=
  match rs with
  | [] => mret []
  | (E, argv) :: rs => r ← request E argv; out ← requests rs; mret (r :: out)
  end.

Lemma wp_bind_inv {A B : Type} (x : M A) (f : A -> M B) s (Q : B -> St -> Prop) :
  wp (x ≫= f) s Q -> wp x s (fun a s' => wp (f a) s' Q).
Proof.
  intros (b & s2 & Hb & HQ). unfold mbind, M_bind in Hb. destruct (x s) as [[a s1]|] eqn:Ex; [|done]. exists a, s1. split; [done|]. by exists b, s2.
Qed.

Lemma wp_requests_app l k s (Q : list bytes -> St -> Prop) :
  wp (requests l) s (fun rs s' => wp (requests k) s' (fun rs' s'' => Q (rs ++ rs') s'')) -> wp (requests (l ++ k)) s Q.
Proof.
  revert s Q. induction l as [|[E argv] l IH]; intros s Q H.
  { destruct H as (rs & s' & [= <- <-] & H). exact H. }
  cbn [app requests] in *. apply wp_bind. eapply wp_mono; [exact (wp_bind_inv _ _ _ _ H)|]. intros r s1 H1. apply wp_bind, IH.
  eapply wp_mono; [exact (wp_bind_inv _ _ _ _ H1)|]. intros out s2 (rs & s' & [= <- <-] & H2).
  eapply wp_mono; [exact H2|]. intros rs' s'' HQ. by apply wp_ret.
Qed.

(** A command that only touches the connection. *)
Lemma wp_control E ex name h arity flags n rest s (Q : bytes -> St -> Prop) :
  ready s -> reg name h arity flags ∈ rows E ex -> toLowerASCII n = str name -> has_flag flags FlagWrite = false ->
  bad_arity (reg name h arity flags) (n :: rest) = false -> multi_of s && negb (is_control (str name)) = false ->
  wp (h (n :: rest)) (set_prop None s) Q -> wp (Execute E (DefaultTable E ex) (n :: rest)) s Q.
Proof.
  intros Hr Hin Hn Hf Ha Hm HQ. apply (wp_execute E ex (reg name h arity flags)); [exact Hr|exact Hin|exact Hn|exact Ha|]. cbn [cmd_Name reg]. rewrite Hm.
  apply wp_bind, wp_modify, wp_bind. cbn [Handler reg]. eapply wp_mono; [exact HQ|]. intros r s' Hq. cbn [Flags reg]. rewrite Hf. by apply wp_ret.
Qed.

Lemma tx_row E ex c : c ∈ transaction_rows ex -> c ∈ rows E ex.
Proof. intros H. unfold rows. rewrite !elem_of_app. tauto. Qed.

(** What a connection's own commands leave alone: everything but the transaction and the watchers' count. *)
Record same_client (s s' : St) : Prop := {
  sc_lim : s_lim s' = s_lim s;
  sc_lazy : s_lazy s' = s_lazy s;
  sc_acl : s_acl s' = s_acl s;
  sc_cluster : s_cluster s' = s_cluster s;
  sc_User : c_User s' = c_User s;
  sc_resp3 : c_resp3 s' = c_resp3 s
}.

Lemma same_client_ready s s' : same_client s s' -> ready s -> ready s'.
Proof. intros [] [Hc Hu]. split; [by rewrite sc_cluster0|]. intros name cats. specialize (Hu name cats). by rewrite sc_User0, sc_acl0. Qed.

Lemma Reset_ok T m s tx (Q : unit -> St -> Prop) :
  abs_rel T m s -> c_Tx s = Some tx ->
  (forall s', abs_rel T m s' -> c_Tx s' = Some (mkTx false [] ∅ false) -> c_InTx s' = c_InTx s -> same_client s s' -> Q tt s') -> wp Reset_ s Q.
Proof.
  intros H Htx HQ. apply wp_bind. unfold clearWatch. apply wp_modify. rewrite Htx. case_bool_decide as Hw.
  - apply wp_modify. rewrite Htx, Hw. apply HQ; [by apply abs_rel_Tx|done|done|by split].
  - apply wp_modify. cbn [c_Tx set_Tx InMulti QueuedCmds Watched DirtyCAS]. apply HQ; [|done|done|by split].
    do 2 apply abs_rel_Tx. destruct (ar_db _ _ _ H) as [Hwf Hmx]. destruct (RemoveWatchers_keeps (s_db s) (Z.of_nat (size (Watched tx))) Hwf) as (Hwf' & Hmx' & Hcell).
    assert (forall k, view T (set_db (RemoveWatchers (s_db s) (Z.of_nat (size (Watched tx)))) s) k = view T s k) as Hv.
    { intros k. unfold view. f_equal. cbn [s_db set_db]. unfold abs. specialize (Hcell k).
      destruct (cell (RemoveWatchers (s_db s) _) k) as [c v], (cell (s_db s) k) as [c' v']. cbn in Hcell. by subst c'. }
    eapply abs_rel_same; [exact H|split; [exact Hwf'|cbn; rewrite Hmx'; exact Hmx]|done|done|exact Hv|done].
Qed.

Section transactions.
Variables (E : env) (T : Z).
Hypothesis Hclk : instant E T.
Hypothesis Ho : orders_ok E.

Definition argv_of (nc : bytes * cmd) : list bytes := nc.1 :: args_of nc.2.

(** The queued requests, run one after the other. *)
Fixpoint ref_queue (r3 : bool) (m : dataset) (cs : list (bytes * cmd)) : list bytes * dataset :=
  match cs with
  | [] => ([], m)
  | nc :: cs =>
    let x := ref_cmd T r3 m nc.2 in
    let y := ref_queue r3 x.2 cs in
    (x.1 :: y.1, y.2)
  end.

Definition queue_ok (nc : bytes * cmd) : Prop := spells E nc.1 nc.2 /\ cmd_ok T nc.2.

Lemma run_queue_ok cs : forall m s,
  ready s -> multi_of s = false -> abs_rel T m s -> Forall queue_ok cs ->
  wp (run_queue (queued_request E) (argv_of <$> cs)) s (fun rs s' =>
    rs = (ref_queue (c_resp3 s) m cs).1 /\ abs_rel T (ref_queue (c_resp3 s) m cs).2 s' /\ session s s').
Proof using Hclk Ho.
  induction cs as [|nc cs IH]; intros m s Hr Hm H Hcs.
  { apply wp_ret. split_and!; [done|done|apply session_refl]. }
  apply Forall_cons in Hcs as [[Hn Hc] Hcs]. cbn [fmap list_fmap run_queue ref_queue].
  apply wp_bind. eapply wp_mono; [eapply request_ok; [exact Hclk|exact Ho|exact Hr|exact Hm|exact H|exact Hc|exact Hn]|].
  intros r s1 (Hrep & H1 & HS1 & _). destruct (ready_session _ _ HS1 Hr) as [Hr1 Hm1]. rewrite Hm in Hm1.
  apply wp_bind. eapply wp_mono; [eapply IH; [exact Hr1|exact Hm1|exact H1|exact Hcs]|].
  intros rs s2 (Hrs & H2 & HS2). apply wp_ret. rewrite (se_resp3 _ _ HS1) in *.
  split_and!; [by rewrite Hrep, Hrs|exact H2|by eapply session_trans].
Qed.

(** MULTI *)
Lemma multi_ok m E1 n s tx (Q : bytes -> St -> Prop) :
  ready s -> abs_rel T m s -> c_Tx s = Some tx -> InMulti tx = false -> toLowerASCII n = str "multi" ->
  (forall s', abs_rel T m s' -> c_Tx s' = Some (mkTx true [] (Watched tx) (DirtyCAS tx)) -> s_db s' = s_db s -> same_client s s' -> Q OK s') ->
  wp (request E1 [n]) s Q.
Proof.
  intros Hr H Htx Hm Hn HQ. eapply wp_control; [done|apply tx_row; apply list_elem_of_here|done|done|done|by rewrite andb_comm|].
  apply wp_bind. unfold ensure_tx. exists tx, (set_prop None s). split; [cbn; by rewrite Htx|]. rewrite Hm.
  apply wp_bind, wp_modify, wp_ret. apply HQ; [by apply abs_rel_Tx, abs_rel_prop|done|done|by split].
Qed.

(** Inside MULTI a data command is only noted down. *)
Lemma queue_request_ok m E1 nc s tx (Q : bytes -> St -> Prop) :
  ready s -> abs_rel T m s -> c_Tx s = Some tx -> InMulti tx = true -> queue_ok nc ->
  (forall s', abs_rel T m s' -> c_Tx s' = Some (mkTx true (QueuedCmds tx ++ [argv_of nc]) (Watched tx) (DirtyCAS tx)) ->
     s_db s' = s_db s -> same_client s s' -> Q Queued s') ->
  wp (request E1 (argv_of nc)) s Q.
Proof.
  intros Hr H Htx Hm [Hn Hc] HQ. destruct (row_frozen E nc.2) as [_ HN], (row_frozen E1 nc.2) as [_ HN1].
  apply (wp_execute E1 _ (row_of E1 nc.2)); [done|apply row_in|unfold spells in Hn; congruence|by eapply arity_ok|].
  assert (is_control (cmd_Name (row_of E1 nc.2)) = false) as ->.
  { rewrite HN1. cmd_cases nc.2; reflexivity. }
  unfold multi_of. rewrite Htx, Hm. apply wp_bind. unfold enqueue. apply wp_modify, wp_ret. rewrite Htx, Hm.
  apply HQ; [by apply abs_rel_Tx|done|done|by split].
Qed.

Lemma queue_requests_ok m qs : forall s tx (Q : list bytes -> St -> Prop),
  ready s -> abs_rel T m s -> c_Tx s = Some tx -> InMulti tx = true -> Forall (fun q => queue_ok q.2) qs ->
  (forall s', abs_rel T m s' -> c_Tx s' = Some (mkTx true (QueuedCmds tx ++ (argv_of <$> qs.*2)) (Watched tx) (DirtyCAS tx)) ->
     s_db s' = s_db s -> same_client s s' -> Q ((fun _ => Queued) <$> qs) s') ->
  wp (requests ((fun q => (q.1, argv_of q.2)) <$> qs)) s Q.
Proof.
  induction qs as [|[E1 nc] qs IH]; intros s tx Q Hr H Htx Hm Hqs HQ.
  { apply wp_ret. apply HQ; [done| |done|by split]. rewrite Htx. destruct tx. cbn in *. by rewrite Hm, app_nil_r. }
  apply Forall_cons in Hqs as [Hq Hqs]. cbn [fmap list_fmap requests fst snd]. apply wp_bind. eapply queue_request_ok; [done..|].
  intros s1 H1 Htx1 Hdb1 HS1. apply wp_bind. eapply IH; [by eapply same_client_ready|done|done|done|done|].
  intros s2 H2 Htx2 Hdb2 HS2. apply wp_ret. apply HQ; [done| |congruence|destruct HS1, HS2; split; congruence].
  rewrite Htx2. cbn. by rewrite <- app_assoc.
Qed.

(** EXEC, when no watched key has changed. *)
Lemma exec_ok m n s tx cs (Q : bytes -> St -> Prop) :
  ready s -> abs_rel T m s -> c_Tx s = Some tx -> InMulti tx = true -> DirtyCAS tx = false -> QueuedCmds tx = argv_of <$> cs ->
  map_Forall (fun k v => GetVersion (s_db s) k = v) (Watched tx) -> Forall queue_ok cs -> toLowerASCII n = str "exec" ->
  (forall s', abs_rel T (ref_queue (c_resp3 s) m cs).2 s' -> c_Tx s' = Some (mkTx false [] ∅ false) -> same_client s s' ->
     Q (Array (ref_queue (c_resp3 s) m cs).1) s') ->
  wp (request E [n]) s Q.
Proof using Hclk Ho.
  intros Hr H Htx Hm Hd Hq Hv Hcs Hn HQ.
  eapply wp_control; [done|apply tx_row; do 4 apply list_elem_of_further; apply list_elem_of_here|done|done|done|by rewrite andb_comm|].
  apply wp_bind, wp_gets. cbn [c_Tx set_prop]. rewrite Htx, Hm, Hd. cbn [negb].
  apply wp_bind, wp_gets. cbn [s_db set_prop]. rewrite bool_decide_true by done. cbn [negb].
  assert (abs_rel T m (set_prop None s)) as H0 by by apply abs_rel_prop. case_bool_decide as Hnil.
  - destruct cs as [|nc cs]; [|by rewrite Hq in Hnil]. apply wp_bind. apply (Reset_ok T m _ tx); [done|done|].
    intros s1 H1 Htx1 _ HS1. apply wp_ret. apply HQ; [done|done|destruct HS1; by split].
  - apply wp_bind, wp_modify. apply wp_bind, wp_modify. apply wp_bind. rewrite Hq. set (s1 := set_InTx true _).
    assert (ready s1) as Hr1 by (by destruct Hr; split). assert (abs_rel T m s1) as H1 by by apply abs_rel_InTx, abs_rel_Tx.
    eapply wp_mono; [apply (run_queue_ok cs m s1); [done|done|done|done]|]. intros rs s2 (-> & H2 & HS2).
    apply wp_bind. eapply (Reset_ok T _ s2); [exact H2|rewrite (se_Tx _ _ HS2); done|]. intros s3 H3 Htx3 _ HS3.
    apply wp_bind, wp_modify, wp_ret. apply HQ; [by apply abs_rel_InTx|done|].
    destruct HS2, HS3. split; cbn in *; congruence.
Qed.

(** EXEC after an error while queueing, or after a watched key has changed. *)
Lemma exec_aborted m n s tx (Q : bytes -> St -> Prop) :
  ready s -> abs_rel T m s -> c_Tx s = Some tx -> InMulti tx = true ->
  DirtyCAS tx = true \/ (exists k v, Watched tx !! k = Some v /\ GetVersion (s_db s) k <> v) -> toLowerASCII n = str "exec" ->
  (forall s', abs_rel T m s' -> c_Tx s' = Some (mkTx false [] ∅ false) -> same_client s s' ->
     Q (if DirtyCAS tx then Error (str "EXECABORT Transaction discarded because of previous errors.") else NullArray) s') ->
  wp (request E [n]) s Q.
Proof.
  intros Hr H Htx Hm Hbad Hn HQ.
  eapply wp_control; [done|apply tx_row; do 4 apply list_elem_of_further; apply list_elem_of_here|done|done|done|by rewrite andb_comm|].
  apply wp_bind, wp_gets. cbn [c_Tx set_prop]. rewrite Htx, Hm. cbn [negb].
  assert (abs_rel T m (set_prop None s)) as H0 by by apply abs_rel_prop.
  assert (forall rep : bytes, (forall s', abs_rel T m s' -> c_Tx s' = Some (mkTx false [] ∅ false) -> same_client s s' -> Q rep s') ->
    wp (_ ← Reset_; mret rep) (set_prop None s) Q) as Hreset.
  { intros rep HQ'. apply wp_bind. apply (Reset_ok T m _ tx); [done|done|]. intros s1 H1 Htx1 _ HS1. apply wp_ret.
    apply HQ'; [done|done|destruct HS1; by split]. }
  destruct (DirtyCAS tx) eqn:Hd; [by apply Hreset|]. destruct Hbad as [|(k & v & Hk & Hv)]; [done|].
  apply wp_bind, wp_gets. cbn [s_db set_prop]. rewrite bool_decide_false; [by apply Hreset|]. intros Hall. by apply Hv, (Hall k v).
Qed.

(** A request that cannot be queued. *)
Lemma poison_ok m E1 n rest s tx (Q : bytes -> St -> Prop) :
  abs_rel T m s -> c_Tx s = Some tx -> InMulti tx = true ->
  match Lookup (DefaultTable E1 (queued_request E1)) n with None => True | Some c => bad_arity c (n :: rest) = true end ->
  (forall r s', is_error r = true -> abs_rel T m s' -> c_Tx s' = Some (mkTx true (QueuedCmds tx) (Watched tx) true) -> s_db s' = s_db s -> same_client s s' -> Q r s') ->
  wp (request E1 (n :: rest)) s Q.
Proof.
  intros H Htx Hm Hbad HQ. unfold request, Execute.
  assert (forall msg : bytes, is_error (Error msg) = true) as Herr.
  { intros msg. unfold Error. by destruct (hasErrorCode msg). }
  destruct (Lookup _ n) as [c|]; [rewrite Hbad|]; apply wp_bind; unfold poison; apply wp_modify, wp_ret; rewrite Htx, Hm;
    (apply HQ; [apply Herr|by apply abs_rel_Tx|done|done|by split]).
Qed.

End transactions.

(** ** The theorems on transactions *)


Definition queued_sample : list (env * (bytes * cmd)) :=
  [(frozen 3, (str "SET", Set' (str "k") (str "1") XNone CAlways false)); (frozen 4, (str "incr", Incr (str "k")))].


(** C11. A transaction with a malformed request is not executed. When one of the requests after MULTI is no command or has the wrong number
    of arguments, it is answered with an error, the others are still answered QUEUED, and EXEC answers EXECABORT: none of them runs, the
    dataset is what it was, and the connection is outside a transaction again. (A request that is refused by the access rules or by the
    cluster does not have this effect: [refused_command_does_not_abort_exec].) *)
Theorem queue_error_aborts_exec E T E1 E2 n1 n rest n2 qs qs' m s tx :
  ready s -> abs_rel T m s -> c_Tx s = Some tx -> InMulti tx = false ->
  toLowerASCII n1 = str "multi" -> toLowerASCII n2 = str "exec" ->
  match Lookup (DefaultTable E2 (queued_request E2)) n with None => True | Some c => bad_arity c (n :: rest) = true end ->
  Forall (fun q => queue_ok E T q.2) qs -> Forall (fun q => queue_ok E T q.2) qs' ->
  wp (requests ((E1, [n1]) :: ((fun q => (q.1, argv_of q.2)) <$> qs) ++ (E2, n :: rest) :: ((fun q => (q.1, argv_of q.2)) <$> qs') ++ [(E, [n2])])) s
    (fun rs s' => (exists err, is_error err = true /\
       rs = OK :: ((fun _ => Queued) <$> qs) ++ err :: ((fun _ => Queued) <$> qs') ++
              [Error (str "EXECABORT Transaction discarded because of previous errors.")]) /\
     abs_rel T m s' /\ c_Tx s' = Some (mkTx false [] ∅ false)).
Proof.
  intros Hr H Htx Hm Hn1 Hn2 Hbad Hqs Hqs'. cbn [requests]. apply wp_bind.
  eapply multi_ok; [done|exact H|done..|]. intros s1 H1 Htx1 Hdb1 HS1. apply wp_bind, wp_requests_app.
  eapply (queue_requests_ok E); [by eapply same_client_ready|exact H1|done|done|done|]. intros s2 H2 Htx2 Hdb2 HS2. cbn in Htx2.
  cbn [requests]. apply wp_bind. eapply poison_ok; [exact H2|exact Htx2|done|exact Hbad|]. intros err s3 Herr H3 Htx3 Hdb3 HS3.
  assert (ready s3) as Hr3 by by do 3 (eapply same_client_ready; [done|]).
  apply wp_bind, wp_requests_app. eapply (queue_requests_ok E); [done|exact H3|done|done|done|]. intros s4 H4 Htx4 Hdb4 HS4. cbn in Htx4.
  cbn [requests]. apply wp_bind. eapply (exec_aborted E T m); [by eapply same_client_ready|exact H4|exact Htx4|done|by left|done|].
  intros s5 H5 Htx5 _. apply wp_bind, wp_ret, wp_ret, wp_ret, wp_ret. split; [|exact (conj H5 Htx5)]. exists err. split; [exact Herr|]. reflexivity.
Qed.

Lemma queue_error_aborts_exec_witness :
  wp (requests [(frozen 2, [str "MULTI"]); (frozen 3, argv_of (str "SET", Set' (str "k") (str "1") XNone CAlways false));
                (frozen 4, [str "GET"]); (frozen 5, [str "EXEC"])])
    (initial default_limits true) (fun rs s' => (exists err, rs = [OK; Queued; err;
      Error (str "EXECABORT Transaction discarded because of previous errors.")]) /\ abs_rel 5 ∅ s').
Proof.
  eapply wp_mono; [apply (queue_error_aborts_exec (frozen 5) 5 (frozen 2) (frozen 4) (str "MULTI") (str "GET") [] (str "EXEC")
    [(frozen 3, (str "SET", Set' (str "k") (str "1") XNone CAlways false))] [] ∅ (initial default_limits true) NewTxState)|].
  - apply initial_ready.
  - apply initial_abs, default_limits_ok.
  - reflexivity.
  - reflexivity.
  - reflexivity.
  - reflexivity.
  - rewrite (lookup_row (frozen 4) (queued_request (frozen 4)) (row_of (frozen 4) (Get []))); [reflexivity|apply row_in|reflexivity].
  - apply Forall_cons. split; [by split|by apply Forall_nil].
  - by apply Forall_nil.
  - intros rs s' ((err & _ & ->) & H & _). split; [by exists err|exact H].
Defined.

(** C12. WATCH guards EXEC.  When the version of a watched key is no longer the one WATCH noted down, EXEC answers the
    null array, runs nothing of the queue, and leaves the dataset as it was. *)
Theorem changed_watch_aborts_exec E T E1 n1 n2 qs m s tx k v :
  ready s -> abs_rel T m s -> c_Tx s = Some tx -> InMulti tx = false -> DirtyCAS tx = false ->
  Watched tx !! k = Some v -> GetVersion (s_db s) k <> v ->
  toLowerASCII n1 = str "multi" -> toLowerASCII n2 = str "exec" -> Forall (fun q => queue_ok E T q.2) qs ->
  wp (requests ((E1, [n1]) :: ((fun q => (q.1, argv_of q.2)) <$> qs) ++ [(E, [n2])])) s (fun rs s' =>
    rs = OK :: ((fun _ => Queued) <$> qs) ++ [NullArray] /\ abs_rel T m s' /\ c_Tx s' = Some (mkTx false [] ∅ false)).
Proof.
  intros Hr H Htx Hm Hd Hk Hv Hn1 Hn2 Hqs. cbn [requests]. apply wp_bind.
  eapply multi_ok; [done|exact H|done..|]. intros s1 H1 Htx1 Hdb1 HS1. apply wp_bind, wp_requests_app.
  eapply (queue_requests_ok E); [by eapply same_client_ready|exact H1|done|done|done|]. intros s2 H2 Htx2 Hdb2 HS2. cbn in Htx2.
  cbn [requests]. apply wp_bind.
  eapply (exec_aborted E T m); [by eapply same_client_ready, same_client_ready|exact H2|exact Htx2|done| |done|].
  { right. exists k, v. cbn. by rewrite Hdb2, Hdb1. }
  intros s3 H3 Htx3 _. cbn [DirtyCAS]. rewrite Hd. by apply wp_bind, wp_ret, wp_ret, wp_ret.
Qed.

(** The version of an absent key is zero, so a connection that noted down one is late. *)
Lemma changed_watch_aborts_exec_witness :
  wp (requests ((frozen 2, [str "MULTI"]) :: ((fun q => (q.1, argv_of q.2)) <$> queued_sample) ++ [(frozen 5, [str "EXEC"])]))
    (set_Tx (Some (mkTx false [] {[str "k" := 1]} false)) (initial default_limits true))
    (fun rs s' => rs = [OK; Queued; Queued; NullArray] /\ abs_rel 5 ∅ s').
Proof.
  eapply wp_mono; [apply (changed_watch_aborts_exec (frozen 5) 5 (frozen 2) (str "MULTI") (str "EXEC") queued_sample ∅
    (set_Tx (Some (mkTx false [] {[str "k" := 1]} false)) (initial default_limits true)) (mkTx false [] {[str "k" := 1]} false) (str "k") 1)|].
  - apply ready_Tx, initial_ready.
  - apply abs_rel_Tx, initial_abs, default_limits_ok.
  - reflexivity.
  - reflexivity.
  - reflexivity.
  - reflexivity.
  - vm_compute. discriminate.
  - reflexivity.
  - reflexivity.
  - repeat (apply Forall_cons; split); [by split|by split|by apply Forall_nil].
  - intros rs s' (-> & H & _). split; [reflexivity|exact H].
Defined.
