(* ===== verification/ScanSpec.v ===== *)
(** * Iterations over a live server

    What the handlers of [Scans] answer, in terms of the dataset.  [scan_iteration_is_complete] is what a client relies on: while it
    iterates, any other requests may run between its calls. *)

From S2P Require Import Prelude Strconv Glob Listpack Intset Quicklist Object Dict Value Db DbSpec DbScan Reply Context Strings StringSpec Generic GenericSpec.
From S2P Require Import Hashes HashSpec Sets SetSpec Scans Dispatch Registry CommandSpec ServerSpec HistorySpec.
Local Open Scope Z_scope.

(** ** What they mean *)

Definition type_name (v : rvalue) : bytes :=
  match v with RString _ => str "string" | RList _ => str "list" | RSet _ => str "set" | RHash _ => str "hash" end.

(** A key that a SCAN with this filter can report. *)
Definition visible (m : dataset) (typ : option bytes) (k : bytes) : bool :=
  match m !! k with
  | None => false
  | Some (v, _) => match typ with None => true | Some t => bool_decide (type_name v = ToLower t) end
  end.

Definition scan_args (p : option bytes) (n : option Z) (typ : option bytes) : list bytes :=
  match p with Some p => [str "MATCH"; p] | None => [] end ++ match n with Some n => [str "COUNT"; FormatInt n] | None => [] end ++
  match typ with Some t => [str "TYPE"; t] | None => [] end.

(** A pattern that reads TYPE would be taken for the option. *)
Definition scan_args_ok (p : option bytes) (n : option Z) (typ : option bytes) : Prop :=
  match p with Some p => ToUpper p <> str "TYPE" | None => True end /\ match n with Some n => 1 <= n /\ is_int64 n | None => True end /\
  match typ with Some t => ToLower t <> [] | None => True end.

Lemma scan_options_ok p n typ : scan_args_ok p n typ -> scan_options (scan_args p n typ) [] 10 = inr (default [] p, default 10 n).
Proof.
  intros (_ & Hn & _). unfold scan_args. destruct p as [p|], n as [n|], typ as [t|]; cbn [app scan_options]; cbv zeta; keyword; try match type of Hn with _ /\ _ => destruct Hn as [Hn Hi] end;
    rewrite ?ParseInt_FormatInt by done; rewrite ?(proj2 (Z.ltb_ge n 1)) by done; cbn [scan_options]; cbv zeta; keyword; reflexivity.
Qed.

Lemma digits_not_type n : 1 <= n -> is_int64 n -> bool_decide (ToUpper (FormatInt n) = str "TYPE") = false.
Proof.
  intros Hn [_ Hi]. unfold FormatInt. rewrite (proj2 (Z.ltb_ge n 0)) by lia. pose proof (FormatUint_digits n ltac:(lia)) as Hd. pose proof (FormatUint_not_nil n ltac:(lia)).
  apply bool_decide_eq_false. rewrite ToUpper_ascii by (eapply Forall_impl; [exact Hd|]; unfold is_digit; intros z Hz; cbn in Hz; lia).
  destruct (FormatUint n) as [|c l]; [done|]. apply Forall_cons in Hd as [Hc _]. intros [=Hu _]. revert Hu. unfold upper_byte, is_digit in *. case_match; lia.
Qed.

Lemma scanTypeFilter_ok p n typ : scan_args_ok p n typ -> scanTypeFilter (scan_args p n typ) = default [] (ToLower <$> typ).
Proof.
  intros (Hp & Hn & _). unfold scan_args. destruct p as [p|], n as [n|], typ as [t|]; cbn [app scanTypeFilter fmap option_fmap option_map default]; keyword;
    try rewrite (bool_decide_false (ToUpper p = str "TYPE")) by done; try match type of Hn with _ /\ _ => destruct Hn as [Hn Hi] end; rewrite ?digits_not_type by done; reflexivity.
Qed.

Section commands.
Variables (E : env) (T : Z).
Hypothesis Hclk : instant E T.
Hypothesis Ho : orders_ok E.
Hypothesis Horc : forall n, oracle_ok (orc E n).

Lemma Exists_at m s k : abs_rel T m s -> Exists (clk E (s_tick s)) (s_db s) k = bool_decide (is_Some (m !! k)).
Proof using Hclk.
  intros H. destruct (db_Exists_rule E T Hclk m s k (fun b _ => b = bool_decide (is_Some (m !! k))) H) as (b & s' & Eb & ->); [done|].
  unfold db_Exists, db_call in Eb. cbn in Eb. by injection Eb.
Qed.

(** A call that only looks. *)
Lemma peek_rule {B} (f : oracle payload -> Z -> ShardedDB payload -> B) m s (Q : B -> St -> Prop) :
  abs_rel T m s -> (forall s', abs_rel T m s' -> quiet s s' -> Q (f (orc E (s_tick s)) (clk E (s_tick s)) (s_db s)) s') ->
  wp (db_call E (fun P o t db => Some (f o t db, db))) s Q.
Proof.
  intros H HQ. destruct (after_quiet (s_db s) s eq_refl eq_refl) as (E1 & E2 & E3 & Hk & Hq). eexists _, _. split; [reflexivity|]. apply HQ; [|done].
  eapply abs_rel_same; [exact H|rewrite E1; apply H|apply Hk|by rewrite E3|intros j; unfold view; by rewrite E1|by rewrite E2].
Qed.

(** KEYS lists every matching key once. *)
Lemma keysCommand_ok m s n pattern :
  abs_rel T m s ->
  wp (keysCommand E [n; pattern]) s (fun r s' => exists keys, r = Array (BulkString <$> keys) /\ NoDup keys /\
    (forall k, k ∈ keys <-> is_Some (m !! k) /\ keys_matches pattern k = true) /\ abs_rel T m s' /\ quiet s s').
Proof using Hclk Horc.
  intros H. apply (wp_arg _ _ pattern); [done|]. apply wp_bind. apply (peek_rule (fun o t db => Keys o t db pattern) m); [done|]. intros s' H' Q'. apply wp_ret. eexists. split; [done|].
  destruct (Keys_spec (orc E (s_tick s)) (clk E (s_tick s)) (s_db s) pattern (Horc _) (proj1 (ar_db _ _ _ H))) as [Hnd Hk]. split_and!; [done| |done|done].
  intros k. rewrite Hk, (Exists_at m) by done. by rewrite bool_decide_eq_true.
Qed.

Lemma of_type_ok typ keys m : forall s (Q : list bytes -> St -> Prop),
  abs_rel T m s -> (forall s', abs_rel T m s' -> keeps m s s' -> Q (filter (fun k => visible m (Some typ) k = true) keys) s') -> wp (of_type E (ToLower typ) keys) s Q.
Proof using Hclk.
  induction keys as [|k keys IH]; intros s Q H HQ; cbn [of_type]; [apply wp_ret, HQ; [done|apply keeps_refl]|].
  apply wp_bind. apply (db_Get_rule E T Hclk m); [done|]. intros r s1 H1 K1 _ _ Hr _. apply wp_bind. apply IH; [done|]. intros s2 H2 K2. apply wp_ret.
  assert (match r with Some o => if bool_decide (TypeName o = ToLower typ) then k :: filter (fun k => visible m (Some typ) k = true) keys else filter (fun k => visible m (Some typ) k = true) keys
          | None => filter (fun k => visible m (Some typ) k = true) keys end = filter (fun k => visible m (Some typ) k = true) (k :: keys)) as ->; [|apply HQ; [done|chain]].
  rewrite filter_cons. unfold reads in Hr. destruct (m !! k) as [[v e]|] eqn:Em; [|subst r; rewrite decide_False; [done|unfold visible; by rewrite Em]].
  destruct Hr as (o & -> & Hrep & _). assert (TypeName o = type_name v) as ->.
  { unfold represents, face in Hrep. destruct Hrep as [Ht _]. unfold TypeName. rewrite Ht. by destruct v. }
  assert (visible m (Some typ) k = bool_decide (type_name v = ToLower typ)) as Hv by (unfold visible; by rewrite Em).
  destruct (decide (visible m (Some typ) k = true)) as [Hd|Hd]; rewrite Hv in Hd; [by rewrite Hd|by apply not_true_is_false in Hd as ->].
Qed.

(** One SCAN reports the visible keys of the shards from its cursor to where it stops. *)
Lemma scan_call_ok m s n cursor p count typ :
  abs_rel T m s -> scan_args_ok p count typ -> 0 <= cursor < NumShards ->
  wp (scan_call E (n :: FormatUint cursor :: scan_args p count typ)) s (fun r s' => abs_rel T m s' /\ keeps m s s' /\
    exists next keys, r = inr (if NumShards <=? next then 0 else next, keys) /\ cursor < next <= NumShards /\
      forall k, k ∈ keys <-> cursor <= GetShardIdx k < next /\ visible m typ k = true /\ scan_matches (default [] p) k = true).
Proof using Hclk Horc.
  intros H Hok Hc. apply (wp_arg _ _ (FormatUint cursor)); [done|]. assert (NumShards = 64) as HN by done. rewrite ParseUint_FormatUint by lia.
  change (drop 2 (n :: FormatUint cursor :: scan_args p count typ)) with (scan_args p count typ). rewrite scan_options_ok by done.
  apply wp_bind. apply (peek_rule (fun o t db => Scan o t db cursor (default [] p) (default 10 count)) m); [done|]. intros s1 H1 Q1. pose proof (Q1 m) as K1.
  destruct (Scan_spec (orc E (s_tick s)) (clk E (s_tick s)) (s_db s) cursor (default [] p) (default 10 count) (Horc _) (proj1 (ar_db _ _ _ H)) Hc)
    as (next & keys & -> & Hn & Hk). cbv beta iota zeta. rewrite scanTypeFilter_ok by done.
  assert (forall k, k ∈ keys <-> cursor <= GetShardIdx k < next /\ is_Some (m !! k) /\ scan_matches (default [] p) k = true) as Hk'.
  { intros k. rewrite Hk, (Exists_at m) by done. by rewrite bool_decide_eq_true. }
  apply wp_bind. destruct typ as [t|]; cbn [fmap option_fmap option_map default].
  - rewrite bool_decide_false by apply Hok. apply (of_type_ok t keys m); [done|]. intros s2 H2 K2. apply wp_ret. split_and!; [done|chain|]. eexists _, _. split_and!; [done|lia|lia|].
    intros k. rewrite list_elem_of_filter, Hk'. assert (visible m (Some t) k = true -> is_Some (m !! k)) by (unfold visible; by destruct (m !! k)). tauto.
  - rewrite bool_decide_true by done. apply wp_ret, wp_ret. split_and!; [done|chain|]. eexists _, _. split_and!; [done|lia|lia|].
    intros k. rewrite Hk'. assert (visible m None k = true <-> is_Some (m !! k)) as ->; [|done]. unfold visible. destruct (m !! k) as [[v e]|]; [by split|]. split; [done|]. by intros [? ?].
Qed.

(** HSCAN and SSCAN return the whole collection at once. *)
Definition coll_args (p : option bytes) (n : option Z) (noValues : bool) : list bytes :=
  match p with Some p => [str "MATCH"; p] | None => [] end ++ match n with Some n => [str "COUNT"; FormatInt n] | None => [] end ++ (if noValues then [str "NOVALUES"] else []).

Lemma scan_start_ok {B} n k cursor p c nv (f : bytes + scanOpts -> M B) s Q :
  0 <= cursor < 2 ^ 64 -> match c with Some c => 1 <= c /\ is_int64 c | None => True end ->
  wp (f (inr (mkScanOpts (default [] p) nv))) s Q -> wp (scan_start (n :: k :: FormatUint cursor :: coll_args p c nv) ≫= f) s Q.
Proof.
  intros Hc Hn HQ. apply wp_bind. apply (wp_arg _ _ (FormatUint cursor)); [done|]. rewrite ParseUint_FormatUint by done. apply wp_ret.
  change (drop 3 (n :: k :: FormatUint cursor :: coll_args p c nv)) with (coll_args p c nv).
  assert (parseScanOpts (coll_args p c nv) (mkScanOpts [] false) = inr (mkScanOpts (default [] p) nv)) as ->; [|done].
  unfold coll_args. destruct p as [p|], c as [c|], nv; cbn [app parseScanOpts]; cbv zeta; keyword; try match type of Hn with _ /\ _ => destruct Hn as [Hn Hi] end;
    rewrite ?ParseInt_FormatInt by done; rewrite ?(proj2 (Z.ltb_ge c 1)) by done; cbn [parseScanOpts so_pattern so_noValues]; cbv zeta; keyword; reflexivity.
Qed.

Lemma hscanCommand_ok m s n k cursor p c nv :
  abs_rel T m s -> 0 <= cursor < 2 ^ 64 -> match c with Some c => 1 <= c /\ is_int64 c | None => True end ->
  wp (hscanCommand E (n :: k :: FormatUint cursor :: coll_args p c nv)) s (fun r s' => abs_rel T m s' /\ keeps m s s' /\
    on_hash m k (r = scanReply [])
      (fun hm => exists kvs, NoDup kvs /\ (forall f v, (f, v) ∈ kvs <-> hm !! f = Some v /\ opts_match (mkScanOpts (default [] p) nv) f = true) /\
         r = scanReply (concat ((fun kv => if nv then [BulkString kv.1] else [BulkString kv.1; BulkString kv.2]) <$> kvs)))
      (r = wrongtype)).
Proof using Hclk Ho.
  intros H Hc Hn. apply scan_start_ok; [done|done|]. apply (wp_arg _ _ k); [done|]. apply wp_bind. apply (getHash_rule E T Hclk m); [done|].
  intros r s1 K1 Hr. unfold found_hash, on_hash in *. destruct (m !! k) as [[[b|x|x|hm] e]|]; [destruct Hr as [-> ?]; by apply wp_ret..| |destruct Hr as [-> ?]; by apply wp_ret].
  destruct Hr as (h & -> & Hkey & Hat). apply wp_bind. eapply hv_entries_rule; [done..|]. intros kvs Hp. apply wp_ret. destruct Hat. split_and!; [done..|].
  eexists. split_and!; [| |done].
  - apply NoDup_filter. rewrite Hp. apply NoDup_map_to_list.
  - intros f v. rewrite list_elem_of_filter, Hp, elem_of_map_to_list. cbn. tauto.
Qed.

Lemma sscanCommand_ok m s n k cursor p c nv :
  abs_rel T m s -> 0 <= cursor < 2 ^ 64 -> match c with Some c => 1 <= c /\ is_int64 c | None => True end ->
  wp (sscanCommand E (n :: k :: FormatUint cursor :: coll_args p c nv)) s (fun r s' => abs_rel T m s' /\ keeps m s s' /\
    on_set m k (r = scanReply [])
      (fun sm => exists ms, NoDup ms /\ (forall b, b ∈ ms <-> b ∈ sm /\ opts_match (mkScanOpts (default [] p) nv) b = true) /\ r = scanReply (BulkString <$> ms))
      (r = wrongtype)).
Proof using Hclk Ho.
  intros H Hc Hn. apply scan_start_ok; [done|done|]. apply (wp_arg _ _ k); [done|]. apply wp_bind. apply (getSetView_rule E T Hclk m); [done|].
  intros r s1 K1 _ Hr. unfold found_set, on_set in *. destruct (m !! k) as [[[b|x|sm|x] e]|]; [destruct Hr as [-> ?]; by apply wp_ret..| |destruct Hr as [-> ?]; by apply wp_ret|destruct Hr as [-> ?]; by apply wp_ret].
  destruct Hr as (h & -> & Hkey & Hat). apply wp_bind. eapply sv_Members_rule; [done..|]. intros ms Hp. apply wp_ret. destruct Hat. split_and!; [done..|].
  eexists. split_and!; [| |done].
  - apply NoDup_filter. rewrite Hp. apply NoDup_elements.
  - intros b. rewrite list_elem_of_filter, Hp, elem_of_elements. tauto.
Qed.

End commands.

(** ** Iterations *)

(** Before each SCAN any requests may run; the SCAN has an environment and an instant of its own. *)
Record scan_round := mkRound { rd_events : list event; rd_env : env; rd_time : Z; rd_count : option Z }.

Definition round_ok (p : option bytes) (typ : option bytes) (rd : scan_round) : Prop :=
  Forall event_ok (rd_events rd) /\ instant (rd_env rd) (rd_time rd) /\ (forall n, oracle_ok (orc (rd_env rd) n)) /\ scan_args_ok p (rd_count rd) typ.

Fixpoint rounds_in_order (T : Z) (rds : list scan_round) : Prop :=
  match rds with
  | [] => True
  | rd :: rds => in_order T (rd_events rd) /\ end_time T (rd_events rd) <= rd_time rd /\ rounds_in_order (rd_time rd) rds
  end.

(** The client calls again with the cursor it got until that is 0; [None] when the rounds run out first. *)
Fixpoint scan_iteration (p typ : option bytes) (rds : list scan_round) (cursor : Z) : M (option (list bytes)) :=
  match rds with
  | [] => mret None
  | rd :: rds =>
    _ ← serve (rd_events rd);
    r ← scan_call (rd_env rd) (str "SCAN" :: FormatUint cursor :: scan_args p (rd_count rd) typ);
    match r with
    | inl _ => mret None
    | inr (next, keys) =>
      if next =? 0 then mret (Some keys)
      else rest ← scan_iteration p typ rds next; mret ((fun l => keys ++ l) <$> rest)
    end
  end.

(** The data at each SCAN. *)
Fixpoint scan_states (m : dataset) (rds : list scan_round) : list dataset :=
  match rds with
  | [] => []
  | rd :: rds => let m' := expire_dataset (rd_time rd) (ref_history false m (rd_events rd)).2 in m' :: scan_states m' rds
  end.

Lemma scan_iteration_ok p typ rds : forall T m s cursor,
  ready s -> multi_of s = false -> c_resp3 s = false -> abs_rel T m s -> rounds_in_order T rds -> Forall (round_ok p typ) rds ->
  0 <= cursor < NumShards -> NumShards - cursor <= zlen rds ->
  wp (scan_iteration p typ rds cursor) s (fun r _ => exists out, r = Some out /\
    (forall k, Forall (fun m' => visible m' typ k = true) (scan_states m rds) -> scan_matches (default [] p) k = true -> cursor <= GetShardIdx k -> k ∈ out) /\
    (forall k, k ∈ out -> (exists m', m' ∈ scan_states m rds /\ visible m' typ k = true) /\ scan_matches (default [] p) k = true)).
Proof.
  induction rds as [|rd rds IH]; intros T m s cursor Hr Hm Hr3 H Hord Hok Hc Hl; [rewrite zlen_nil in Hl; lia|].
  apply Forall_cons in Hok as [(Hev & Hi & Horc & Ha) Hok]. destruct Hord as (Ho1 & Ho2 & Hord). rewrite zlen_cons in Hl. cbn [scan_iteration scan_states].
  apply wp_bind. eapply wp_mono; [by eapply (serve_ok (rd_events rd) T m s)|]. intros rs s1 (_ & H1 & HS1). rewrite Hr3 in H1.
  destruct (ready_session _ _ HS1 Hr) as [Hr1 Hm1]. apply (abs_rel_later _ (rd_time rd)) in H1; [|done]. set (m1 := expire_dataset _ _) in *.
  apply wp_bind. eapply wp_mono; [by eapply (scan_call_ok (rd_env rd) (rd_time rd) Hi Horc m1 s1 (str "SCAN") cursor p (rd_count rd) typ)|].
  intros r s2 (H2 & K2 & next & keys & -> & Hn & Hk). cbv beta iota.
  assert (forall k, k ∈ keys -> (exists m', m' ∈ m1 :: scan_states m1 rds /\ visible m' typ k = true) /\ scan_matches (default [] p) k = true) as Hkeys.
  { intros k (_ & Hv & Hmt)%Hk. split; [|done]. exists m1. split; [apply list_elem_of_here|done]. }
  destruct (Z.leb_spec NumShards next).
  - apply wp_ret. exists keys. split_and!; [done| |done]. intros k [Hv _]%Forall_cons Hmt Hidx. apply Hk. pose proof (GetShardIdx_range k). split_and!; [lia|lia|done|done].
  - rewrite (proj2 (Z.eqb_neq next 0)) by lia. pose proof (k_conn _ _ _ K2) as C2. assert (session s1 s2) as HS2 by (destruct C2; by split).
    destruct (ready_session _ _ HS2 Hr1) as [Hr2 Hm2]. apply wp_bind. eapply wp_mono; [apply (IH (rd_time rd) m1 s2 next); try done|].
    + congruence.
    + rewrite (se_resp3 _ _ HS2), (se_resp3 _ _ HS1). done.
    + lia.
    + lia.
    + intros r s3 (out & -> & Hall & Hsome). apply wp_ret. exists (keys ++ out). split_and!; [done| |].
      * intros k Hf Hmt Hidx. apply elem_of_app. apply Forall_cons in Hf as [Hv Hf]. destruct (Z.lt_ge_cases (GetShardIdx k) next); [left; apply Hk; split_and!; [lia|lia|done|done]|right; by apply Hall].
      * intros k [Hin|Hin]%elem_of_app; [by apply Hkeys|]. destruct (Hsome k Hin) as [(m' & Hm' & Hv) Hmt]. split; [|done]. exists m'. split; [by apply list_elem_of_further|done].
Qed.

(** C18. A client that iterates with SCAN over a live server sees every key that is there all the time. Its calls have,
    in this order, MATCH, a positive COUNT and TYPE as it likes; the pattern is not the word TYPE. Whatever commands of [cmd] run between its
    calls, an iteration that starts at cursor 0 and follows the cursors ends within 64 calls, with every key that matched and had the type
    it asks for at each call, and with no key that did not match or was not there, with that type, at one of them. (A pattern that reads
    TYPE hides the keys: [pattern_type_hides_the_keys].) *)
Theorem scan_iteration_is_complete lim sinks T p typ rds :
  limits_ok lim -> rounds_in_order T rds -> Forall (round_ok p typ) rds -> NumShards <= zlen rds ->
  exists out s', scan_iteration p typ rds 0 (initial lim sinks) = Some (Some out, s') /\
    (forall k, Forall (fun m => visible m typ k = true) (scan_states ∅ rds) -> scan_matches (default [] p) k = true -> k ∈ out) /\
    (forall k, k ∈ out -> (exists m, m ∈ scan_states ∅ rds /\ visible m typ k = true) /\ scan_matches (default [] p) k = true).
Proof.
  intros Hl Hord Hok Hn. destruct (initial_ready lim sinks) as [Hr Hm].
  destruct (scan_iteration_ok p typ rds T ∅ (initial lim sinks) 0) as (r & s' & Er & out & -> & Hall & Hsome); [done|done|done|by apply initial_abs|done|done|done|lia|].
  exists out, s'. split_and!; [done| |done]. intros k Hf Hmt. apply Hall; [done|done|apply GetShardIdx_range].
Qed.

(** A key is stored before the first call and others come and go. *)
Definition sample_rounds : list scan_round :=
  mkRound [mkEvent (frozen 1) 1 (str "SADD") (Sadd (str "stay") [str "a"]); mkEvent (frozen 1) 1 (str "SET") (Set' (str "gone") (str "b") XNone CAlways false)] (frozen 1) 1 (Some 1)
  :: replicate 63 (mkRound [mkEvent (frozen 2) 2 (str "del") (Del' [str "gone"]); mkEvent (frozen 2) 2 (str "sadd") (Sadd (str "stay") [str "c"])] (frozen 2) 2 None).

Lemma sample_rounds_ok : Forall (round_ok (Some (str "s*")) (Some (str "SET"))) sample_rounds.
Proof.
  assert (forall t n, oracle_ok (orc (frozen t) n)) as Horc by (intros; by split).
  assert (forall n, match n with Some n => 1 <= n /\ is_int64 n | None => True end -> scan_args_ok (Some (str "s*")) n (Some (str "SET"))) as Ha.
  { intros n Hn. split_and!; [by vm_compute|done|by vm_compute]. }
  assert (forall t n c, 0 <= t -> spells (frozen t) n c -> cmd_ok t c -> event_ok (mkEvent (frozen t) t n c)) as Hev.
  { intros t n c Ht Hn Hc. split_and!; [by apply frozen_instant|apply frozen_orders|done|done]. }
  apply Forall_cons. split; [|apply Forall_replicate]; (split_and!; [repeat (apply Forall_cons; split); [apply Hev..|by apply Forall_nil]|by apply frozen_instant|apply Horc|apply Ha]); done.
Qed.

Lemma scan_iteration_is_complete_witness :
  exists out s', scan_iteration (Some (str "s*")) (Some (str "SET")) sample_rounds 0 (initial default_limits false) = Some (Some out, s') /\ str "stay" ∈ out.
Proof.
  destruct (scan_iteration_is_complete default_limits false 0 (Some (str "s*")) (Some (str "SET")) sample_rounds) as (out & s' & Er & Hall & _).
  - exact default_limits_ok.
  - vm_compute. repeat split; discriminate.
  - exact sample_rounds_ok.
  - vm_compute. discriminate.
  - exists out, s'. split; [exact Er|]. apply Hall; [|vm_compute; reflexivity].
    assert (forallb (fun m => visible m (Some (str "SET")) (str "stay")) (scan_states ∅ sample_rounds) = true) as Hb by (vm_compute; reflexivity).
    rewrite forallb_forall in Hb. apply Forall_forall. intros m Hin. apply Hb, list_elem_of_In, Hin.
Defined.

(** A pattern that reads TYPE is taken for the option, and the option after it for the type: nothing has the type "count". *)
Example pattern_type_hides_the_keys :
  fst <$> (_ ← setCommand (frozen 1) [str "SET"; str "type"; str "v"];
           r ← scanCommand (frozen 1) [str "SCAN"; str "0"; str "MATCH"; str "type"; str "COUNT"; str "100"];
           r' ← scanCommand (frozen 1) [str "SCAN"; str "0"; str "COUNT"; str "100"; str "MATCH"; str "type"];
           mret (r, r')) (initial default_limits false) =
    Some (Array [BulkString (str "0"); Array []], Array [BulkString (str "0"); Array [BulkString (str "type")]]).
Proof. vm_compute. reflexivity. Qed.
