(* ===== verification/HllSpec.v ===== *)
(** * Sketches in the server

    A history of PFADD and PFMERGE requests, through the dispatcher: every key holds the sketch of the elements that reached it. *)

From S2P Require Import Prelude Strconv Hll Object Value Db DbSpec Reply Context Strings StringSpec HllCommands Dispatch Registry CommandSpec ServerSpec HistorySpec.
Local Open Scope Z_scope.

Inductive pf_op := PfAdd (k : bytes) (els : list bytes) | PfMerge (dst : bytes) (srcs : list bytes).

Definition pf_args (op : pf_op) : list bytes := match op with PfAdd k els => k :: els | PfMerge dst srcs => dst :: srcs end.

Definition pf_row (E : env) (op : pf_op) : Command :=
  match op with
  | PfAdd _ _ => reg "pfadd" (pfaddCommand E) (-2) (Z.lor FlagWrite FlagFast)
  | PfMerge _ _ => reg "pfmerge" (pfmergeCommand E) (-2) FlagWrite
  end.

(** The elements that reached each key. *)
Definition elements_at (b : gmap bytes (list bytes)) (k : bytes) : list bytes := default [] (b !! k).

Definition ref_pf (b : gmap bytes (list bytes)) (op : pf_op) : bytes * gmap bytes (list bytes) :=
  match op with
  | PfAdd k els =>
    let l := elements_at b k in
    (Integer (if bool_decide (sketch (l ++ els) = sketch l) then 0 else 1), <[k := l ++ els]> b)
  | PfMerge dst srcs => (OK, <[dst := elements_at b dst ++ concat (elements_at b <$> srcs)]> b)
  end.

(** The dataset that holds their sketches. *)
Definition sketches (b : gmap bytes (list bytes)) : dataset := (fun l => (RString (HllBytes (sketch l)), 0)) <$> b.

Record pf_event := mkPf { pe_env : env; pe_time : Z; pe_name : bytes; pe_op : pf_op }.

Definition pf_event_ok (ev : pf_event) : Prop := instant (pe_env ev) (pe_time ev) /\ toLowerASCII (pe_name ev) = cmd_Name (pf_row (pe_env ev) (pe_op ev)).

Fixpoint pf_serve (evs : list pf_event) : M (list bytes) :=
  match evs with
  | [] => mret []
  | ev :: evs => r ← request (pe_env ev) (pe_name ev :: pf_args (pe_op ev)); rs ← pf_serve evs; mret (r :: rs)
  end.

Fixpoint pf_history (b : gmap bytes (list bytes)) (evs : list pf_event) : list bytes * gmap bytes (list bytes) :=
  match evs with
  | [] => ([], b)
  | ev :: evs => let x := ref_pf b (pe_op ev) in let y := pf_history x.2 evs in (x.1 :: y.1, y.2)
  end.

Fixpoint pf_in_order (T : Z) (evs : list pf_event) : Prop :=
  match evs with [] => True | ev :: evs => T <= pe_time ev /\ pf_in_order (pe_time ev) evs end.

Definition pf_end (T : Z) (evs : list pf_event) : Z := foldl (fun _ ev => pe_time ev) T evs.

Lemma sketches_durable T b : expire_dataset T (sketches b) = sketches b.
Proof. apply map_eq. intros k. rewrite lookup_expire. unfold sketches. rewrite lookup_fmap. by destruct (b !! k). Qed.

Lemma sketches_insert b k l : sketches (<[k := l]> b) = <[k := (RString (HllBytes (sketch l)), 0)]> (sketches b).
Proof. unfold sketches. by rewrite fmap_insert. Qed.

Lemma sketches_hold b k : holds_sketch (sketches b) k (elements_at b k).
Proof. unfold holds_sketch, sketches, elements_at. rewrite lookup_fmap. by destruct (b !! k). Qed.

Lemma pf_row_in E ex op : pf_row E op ∈ rows E ex.
Proof. unfold rows. rewrite !elem_of_app. unfold hll_rows. destruct op; cbn [pf_row]; rewrite !elem_of_cons; tauto. Qed.

(** The handlers, on the elements. *)
Lemma pf_handler_ok E T b s n op : instant E T -> abs_rel T (sketches b) s ->
  does T (Handler (pf_row E op) (n :: pf_args op)) (sketches b) s ((ref_pf b op).1, sketches (ref_pf b op).2).
Proof.
  intros Hclk H. destruct op as [k els|dst srcs]; cbn [pf_row reg Handler pf_args ref_pf fst snd].
  - eapply wp_mono; [apply (pfaddCommand_ok E T Hclk _ _ n k els (elements_at b k) H), sketches_hold|]. cbv zeta. intros r s' (-> & H' & K'). split_and!; [done| |done]. cbn [snd] in H'.
    replace (sketches (<[k := elements_at b k ++ els]> b)) with (if bool_decide (sketches b !! k = None) || negb (bool_decide (sketch (elements_at b k ++ els) = sketch (elements_at b k)))
      then <[k := (RString (HllBytes (sketch (elements_at b k ++ els))), 0)]> (sketches b) else sketches b); [done|].
    rewrite sketches_insert. destruct (_ || _) eqn:Ec; [done|]. apply orb_false_iff in Ec as [Hn%bool_decide_eq_false Hs%negb_false_iff].
    apply bool_decide_eq_true in Hs. rewrite Hs. symmetry. apply insert_id. unfold sketches, elements_at in *. rewrite lookup_fmap in *. by destruct (b !! k).
  - eapply wp_mono; [apply (pfmergeCommand_ok E T Hclk _ _ n (elements_at b) dst srcs H); intros; apply sketches_hold|]. intros r s' (-> & H' & K'). split_and!; [done| |done]. by rewrite sketches_insert.
Qed.

Lemma pf_request_ok E T ex b s n op : instant E T -> ready s -> multi_of s = false -> abs_rel T (sketches b) s -> toLowerASCII n = cmd_Name (pf_row E op) ->
  wp (Execute E (DefaultTable E ex) (n :: pf_args op)) s (fun r s' => r = (ref_pf b op).1 /\ abs_rel T (sketches (ref_pf b op).2) s' /\ session s s').
Proof.
  intros Hclk Hr Hm H Hn. apply (wp_execute E ex (pf_row E op)); [done|apply pf_row_in|done| |rewrite Hm; cbn [andb]].
  { unfold bad_arity. destruct op; cbn [pf_row reg Arity pf_args]; cbn [Z.ltb Z.compare andb orb]; apply Z.ltb_ge; zlen_lia. }
  apply wp_bind, wp_modify. apply wp_bind. eapply wp_mono; [apply (pf_handler_ok E T b (set_prop None s) n op Hclk); by apply abs_rel_prop|]. intros r s1 (-> & H1 & K1).
  assert (session s s1) as HS by (destruct (k_conn _ _ _ K1); by split).
  assert (has_flag (Flags (pf_row E op)) FlagWrite = true) as -> by (by destruct op).
  assert (negb (bool_decide ((ref_pf b op).1 = [])) && negb (is_error (ref_pf b op).1) = true) as Hrep by (destruct op; cbn [ref_pf fst]; [by case_bool_decide|done]).
  cbn [fst snd] in *. rewrite <- andb_assoc, Hrep. cbn [andb]. apply wp_bind.
  assert (exists k rest, pf_args op = k :: rest) as (k & rest & Ek) by (destruct op; by eexists _, _). rewrite Ek.
  eapply wp_mono; [eapply (after_write_rule E T Hclk (sketches b) _ s s1 (pf_row E op) n k rest _ (Some (n :: k :: rest)) (c_prop s1)); [exact H1|exact HS| |done|by destruct op]|].
  - destruct (k_fed _ _ _ K1) as (ks & Hks & Ea & Er). exists ks. rewrite app_nil_r. done.
  - intros _ s2 (H2 & HS2 & _). by apply wp_ret.
Qed.

Lemma pf_serve_ok evs : forall T b s,
  ready s -> multi_of s = false -> abs_rel T (sketches b) s -> pf_in_order T evs -> Forall pf_event_ok evs ->
  wp (pf_serve evs) s (fun rs s' => rs = (pf_history b evs).1 /\ abs_rel (pf_end T evs) (sketches (pf_history b evs).2) s').
Proof.
  induction evs as [|ev evs IH]; intros T b s Hr Hm H Hord Hev; [by apply wp_ret|].
  apply Forall_cons in Hev as [[Hi Hn] Hev]. destruct Hord as [HT Hord]. cbn [pf_serve pf_history pf_end foldl fst snd]. fold (pf_end (pe_time ev) evs).
  apply (abs_rel_later _ (pe_time ev)) in H; [|done]. rewrite sketches_durable in H.
  apply wp_bind. eapply wp_mono; [by apply (pf_request_ok (pe_env ev) (pe_time ev) _ b)|]. intros r s1 (-> & H1 & HS). destruct (ready_session _ _ HS Hr) as [Hr1 Hm1].
  apply wp_bind. eapply wp_mono; [apply (IH (pe_time ev) (ref_pf b (pe_op ev)).2 s1 Hr1); [congruence|exact H1|exact Hord|exact Hev]|]. intros rs s2 (-> & H2). by apply wp_ret.
Qed.

(** C20. Sketches are unions.  Serve any history of PFADD and PFMERGE requests on a new server: every request is answered as the plain lists
    of elements say (PFADD with 1 exactly when the sketch changes), and at the end every key holds the sketch of all elements
    that were added to it or merged into it.  The bytes of a sketch depend only on the set of the elements: neither
    their order nor repetitions nor the way they were merged matters. *)
Theorem sketches_are_unions lim sinks T evs :
  limits_ok lim -> pf_in_order T evs -> Forall pf_event_ok evs ->
  exists s', pf_serve evs (initial lim sinks) = Some ((pf_history ∅ evs).1, s') /\
    abs_rel (pf_end T evs) (sketches (pf_history ∅ evs).2) s' /\
    forall k1 k2 l1 l2, (pf_history ∅ evs).2 !! k1 = Some l1 -> (pf_history ∅ evs).2 !! k2 = Some l2 -> (forall e, e ∈ l1 <-> e ∈ l2) ->
      sketches (pf_history ∅ evs).2 !! k1 = sketches (pf_history ∅ evs).2 !! k2.
Proof.
  intros Hl Hord Hev. destruct (initial_ready lim sinks) as [Hr Hm].
  destruct (pf_serve_ok evs T ∅ (initial lim sinks)) as (rs & s' & E & -> & H); [done|done| |done|done|].
  { replace (sketches ∅) with (∅ : dataset); [by apply initial_abs|]. unfold sketches. by rewrite fmap_empty. }
  exists s'. split_and!; [done|done|]. intros k1 k2 l1 l2 H1 H2 Hs. unfold sketches. rewrite !lookup_fmap, H1, H2. cbn. by rewrite (sketch_ext l1 l2).
Qed.

(** Two keys with an element in common, merged, and one key with all elements. *)
Definition pf_sample : list pf_event :=
  [mkPf (frozen 1) 1 (str "PFADD") (PfAdd (str "a") [str "x"; str "y"]); mkPf (frozen 2) 2 (str "pfadd") (PfAdd (str "b") [str "y"; str "z"; str "z"]);
   mkPf (frozen 3) 3 (str "PFMERGE") (PfMerge (str "u") [str "a"; str "b"]); mkPf (frozen 4) 4 (str "PfAdd") (PfAdd (str "v") [str "z"; str "x"; str "y"])].

Lemma sketches_are_unions_witness :
  exists s', pf_serve pf_sample (initial default_limits true) = Some ((pf_history ∅ pf_sample).1, s') /\
    sketches (pf_history ∅ pf_sample).2 !! str "u" = sketches (pf_history ∅ pf_sample).2 !! str "v".
Proof.
  destruct (sketches_are_unions default_limits true 0 pf_sample) as (s' & E & _ & Hext).
  - exact default_limits_ok.
  - cbn. lia.
  - repeat (apply Forall_cons; split); [..|by apply Forall_nil]; (split; [by apply frozen_instant|reflexivity]).
  - exists s'. split; [exact E|].
    apply (Hext (str "u") (str "v") [str "x"; str "y"; str "y"; str "z"; str "z"] [str "z"; str "x"; str "y"]).
    + reflexivity.
    + reflexivity.
    + intros e. rewrite !elem_of_cons, !elem_of_nil. tauto.
Defined.
