(* ===== verification/Connection.v ===== *)
(** * A client connection ([server/server.go])

    [connection] is the loop of [handleConnection] on the bytes a client sends: it parses a request, runs it and writes the
    reply until the client hangs up, quits, breaks the protocol or turns into a replica.  The arena and the environment
    of each round are arguments, and so is [subs], whether the connection has subscriptions when the round starts
    (the hub of [Pubsub] decides that).  Replies are collected in the order in which they are written; the client
    reads them all. *)

From S2P Require Import Prelude Strconv Request Object Value Db DbSpec Reply Context Strings Generic Dispatch Registry StringSpec CommandSpec ServerSpec HistorySpec.
Local Open Scope Z_scope.

(** How the loop returns. *)
Inductive ending := Hangup | Refused | Quit | Replica (argv : list bytes) (rest : bytes).

(** [err.Error()]. *)
Definition err_text (e : ReqError) : bytes :=
  match e with
  | EOF => str "EOF"
  | ErrInvalidMultiBulkLength => str "protocol error: invalid multibulk length"
  | ErrInvalidBulkLength => str "protocol error: invalid bulk length"
  | ErrUnexpectedEOF => str "protocol error: unexpected EOF"
  end.

Definition writeError (msg : bytes) : bytes := str "-" ++ msg ++ crlf.

Definition parse_failed (e : ReqError) : bytes * ending :=
  match e with EOF => ([], Hangup) | _ => (writeError (str "ERR " ++ err_text e), Refused) end.

(** What a connection with subscriptions may still send. *)
Definition permitted (cmdName : bytes) : bool :=
  bool_decide (cmdName ∈ str <$> ["subscribe"; "unsubscribe"; "psubscribe"; "punsubscribe"; "ping"; "quit"; "reset"]%string).

Definition not_permitted : bytes :=
  writeError (str "ERR only (P)SUBSCRIBE / (P)UNSUBSCRIBE / PING / QUIT are allowed in this context").

(** From the parsed request to its reply; [true] when the server hangs up after it. *)
Definition serve_request (E : env) (subscribed : bool) (argv : list bytes) : M (bytes * bool) :=
  name ← arg argv 0;
  let cmdName := ToLower name in
  if subscribed && negb (permitted cmdName) then mret (not_permitted, false)
  else
    reply ← request E argv;
    mret (reply, bool_decide (cmdName = str "quit")).

Section loop.
Variables (arenas : nat -> option (Z -> option bytes)) (envs : nat -> env) (subs : nat -> bool).

(** Round [i] of the loop, with [r] still to be read. *)
Fixpoint connection (fuel i : nat) (r : bytes) : M (bytes * ending) :=
  match fuel with
  | O => panic
  | S fuel =>
    match ParseRequest (arenas i) r with
    | PErr e => mret (parse_failed e)
    | POk argv r =>
      match argv with
      | [] => connection fuel (S i) r
      | name :: _ =>
        if bool_decide (ToLower name = str "sync") || bool_decide (ToLower name = str "psync") then mret ([], Replica argv r)
        else
          x ← serve_request (envs i) (subs i) argv;
          if x.2 : bool then mret (x.1, Quit)
          else
            y ← connection fuel (S i) r;
            mret (x.1 ++ y.1, y.2)
      end
    end
  end.

(** The fuel is enough: every round reads at least a byte. *)
Lemma connection_fuel fuel : forall fuel' i r, (length r < fuel)%nat -> (length r < fuel')%nat -> forall s, connection fuel i r s = connection fuel' i r s.
Proof.
  induction fuel as [|fuel IH]; intros fuel' i r Hf Hf' s; [lia|]. destruct fuel' as [|fuel']; [lia|]. cbn [connection].
  destruct (ParseRequest (arenas i) r) as [argv rest|e] eqn:Ep; [|done]. apply ParseRequest_progress in Ep. destruct argv as [|name argv]; [apply IH; lia|].
  destruct (_ || _); [done|]. unfold mbind, M_bind. destruct (serve_request (envs i) (subs i) (name :: argv) s) as [[[reply q] s1]|]; [|done]. cbn.
  destruct q; [done|]. by rewrite (IH fuel' (S i) rest) by lia.
Qed.

(** ** Requests on the wire *)

(** A request as a client may write it: in the multi-bulk format, or as a line of words. *)
Inductive wire : list bytes -> bytes -> Prop :=
  | wire_multi argv : sendable argv -> wire argv (encodeCommand argv)
  | wire_inline w ws : Forall (fun w => w <> [] /\ spaceless w) (w :: ws) -> head w <> Some 42 -> wire (w :: ws) (join_spaces (w :: ws) ++ crlf).

Lemma join_spaces_line ws : Forall (fun w => w <> [] /\ spaceless w) ws -> 10 ∉ join_spaces ws.
Proof.
  induction 1 as [|w l [_ Hw] Hl IH]; [by apply not_elem_of_nil|].
  assert (10 ∉ w) by (intros Hin; unfold spaceless in Hw; rewrite Forall_forall in Hw; specialize (Hw _ Hin); lia).
  destruct l as [|w' l]; [done|]. change (10 ∉ w ++ 32 :: join_spaces (w' :: l)). rewrite elem_of_app, elem_of_cons. naive_solver.
Qed.

Lemma ParseRequest_wire a argv b rest : arena_ok a -> wire argv b -> ParseRequest a (b ++ rest) = POk argv rest.
Proof.
  intros Ha [argv' Hs|w ws Hws Hstar]; [by apply ParseRequest_encoded|]. rewrite <- app_assoc.
  transitivity (parseInlineRequest a (join_spaces (w :: ws) ++ crlf ++ rest)).
  - destruct w as [|c w]; [by apply Forall_cons in Hws as [[? _] _]|]. assert (c <> 42) as Hc by (intros ->; by apply Hstar).
    unfold ParseRequest. destruct ws; cbn [join_spaces app]; by rewrite (proj2 (Z.eqb_neq _ _)).
  - unfold parseInlineRequest. rewrite readLine_crlf by (by apply join_spaces_line). rewrite Fields_join by done. f_equal.
    rewrite <- (list_fmap_id (w :: ws)) at 2. apply list_fmap_ext. intros i x _. by apply arena_copy_id.
Qed.

Lemma wire_not_nil argv b : wire argv b -> argv <> [].
Proof. intros [? []|]; done. Qed.

(** ** A pipeline of requests *)

Hypothesis Harena : forall i, arena_ok (arenas i).
Hypothesis Hsubs : forall i, subs i = false.

Lemma ToLower_folded n c : Forall (fun b => 0 <= b < 128) c -> toLowerASCII n = c -> ToLower n = c.
Proof.
  intros Hc <-. unfold toLowerASCII in *. destruct (existsb _ n) eqn:Ex.
  - rewrite ToLower_ascii; [done|]. rewrite Forall_fmap in Hc. eapply Forall_impl; [exact Hc|]. intros b. cbn. unfold lower_byte. case_match; lia.
  - rewrite ToLower_ascii by done. rewrite <- (list_fmap_id n) at 2. apply list_fmap_ext. intros i b Hb.
    unfold lower_byte. destruct ((65 <=? b) && (b <=? 90)) eqn:E; [|done]. apply list_elem_of_lookup_2 in Hb.
    enough (existsb (fun c => (65 <=? c) && (c <=? 90)) n = true) by congruence. apply existsb_exists. exists b. by rewrite <- list_elem_of_In.
Qed.

(** A data command is none of those the loop treats by name. *)
Lemma data_name E n c : spells E n c -> exists l, ToLower n = l /\ l <> str "sync" /\ l <> str "psync" /\ l <> str "quit".
Proof.
  unfold spells. rewrite (proj2 (row_frozen E c)). intros Hn. exists (cmd_Name (row_of (frozen 0) c)).
  split; [apply ToLower_folded; [|done]|]; clear Hn; cmd_cases c; cbn [row_of reg cmd_Name]; try (split_and!; by vm_compute); by apply (bool_decide_unpack _); vm_compute.
Qed.

(** The requests of a history, in whatever format, and the rest of the stream. *)
Definition pipelined (evs : list event) (bs : list bytes) : Prop :=
  Forall2 (fun ev b => wire (ev_name ev :: args_of (ev_cmd ev)) b) evs bs.

Lemma connection_serves evs bs tail : pipelined evs bs -> forall fuel i T m s Q,
  ready s -> multi_of s = false -> abs_rel T m s -> in_order T evs -> Forall event_ok evs ->
  (forall k ev, evs !! k = Some ev -> envs (i + k) = ev_env ev) -> (length (concat bs ++ tail) < fuel)%nat ->
  (forall fuel' s', (length tail < fuel')%nat -> abs_rel (end_time T evs) (ref_history (c_resp3 s) m evs).2 s' -> session s s' ->
     wp (connection fuel' (i + length evs) tail) s' (fun x s'' => Q (concat (ref_history (c_resp3 s) m evs).1 ++ x.1, x.2) s'')) ->
  wp (connection fuel i (concat bs ++ tail)) s Q.
Proof using Harena Hsubs.
  induction 1 as [|ev b evs bs Hw Hbs IH]; intros fuel i T m s Q Hr Hm H Hord Hev He Hf HQ.
  { eapply wp_mono; [rewrite <- (Nat.add_0_r i); apply HQ; [done|done|apply session_refl]|]. by intros [x e] s'. }
  apply Forall_cons in Hev as [(Hi & Ho & Hn & Hc) Hev]. destruct Hord as [HT Hord]. destruct fuel as [|fuel]; [lia|].
  cbn [concat] in Hf |- *. rewrite <- app_assoc in Hf |- *. cbn [connection]. pose proof (ParseRequest_wire (arenas i) _ b (concat bs ++ tail) (Harena i) Hw) as Ep. rewrite Ep.
  apply ParseRequest_progress in Ep. destruct (data_name _ _ _ Hn) as (l & El & Hl1 & Hl2 & Hl3). rewrite El, !bool_decide_false by done. cbn [orb].
  rewrite <- (He 0%nat ev eq_refl), Nat.add_0_r in Hi, Ho, Hn. unfold serve_request. apply wp_bind, (wp_arg _ _ (ev_name ev)); [done|]. cbv zeta. rewrite El, Hsubs, bool_decide_false by done. cbn [andb]. apply wp_bind.
  eapply wp_mono; [eapply request_ok; [exact Hi|exact Ho|exact Hr|exact Hm|by eapply abs_rel_later|exact Hc|exact Hn]|].
  intros r s1 (-> & H1 & HS1 & _). destruct (ready_session _ _ HS1 Hr) as [Hr1 Hm1]. rewrite Hm in Hm1.
  apply wp_ret. cbn [fst snd]. apply wp_bind. eapply IH; [exact Hr1|exact Hm1|exact H1|exact Hord|exact Hev| |lia|].
  - intros k ev' Hk. rewrite <- (He (S k) ev' Hk). f_equal. lia.
  - intros fuel' s2 Hf' H2 HS2. rewrite (se_resp3 _ _ HS1) in *. rewrite end_time_cons in HQ. cbn [ref_history] in HQ. unfold ref_event in HQ. cbv zeta in HQ. cbn [fst snd concat] in HQ.
    replace (S i + length evs)%nat with (i + length (ev :: evs))%nat by (cbn; lia).
    eapply wp_mono; [apply (HQ fuel' s2 Hf' H2); by eapply session_trans|]. intros [x e] s3 Hx. cbn [fst snd] in *. apply wp_ret. cbn [fst snd]. by rewrite <- app_assoc in Hx.
Qed.

(** How a stream can end, and what the client still reads. *)
Inductive closing : bytes -> bytes * ending -> Prop :=
  | closes_broken r e : (forall a, ParseRequest a r = PErr e) -> closing r (parse_failed e)
  | closes_quit n args b rest : wire (n :: args) b -> toLowerASCII n = str "quit" -> closing (b ++ rest) (OK, Quit)
  | closes_replica n args b rest : wire (n :: args) b -> ToLower n = str "sync" \/ ToLower n = str "psync" -> closing (b ++ rest) ([], Replica (n :: args) rest).

Lemma quit_row E ex : reg "quit" quitCommand (-1) FlagFast ∈ rows E ex.
Proof. unfold rows. rewrite !elem_of_app. unfold keyspace_rows. rewrite !elem_of_cons. tauto. Qed.

Lemma connection_closes r x fuel i T m s : closing r x -> (length r < fuel)%nat -> ready s -> multi_of s = false -> abs_rel T m s ->
  wp (connection fuel i r) s (fun x' s' => x' = x /\ abs_rel T m s').
Proof using Harena Hsubs.
  intros Hx Hf Hr Hm H. destruct fuel as [|fuel]; [lia|]. cbn [connection]. destruct Hx as [r e He|n args b rest Hw Hn|n args b rest Hw Hn].
  - rewrite He. by apply wp_ret.
  - rewrite (ParseRequest_wire _ _ b rest (Harena i) Hw). assert (ToLower n = str "quit") as El by (apply ToLower_folded; [by apply (bool_decide_unpack _); vm_compute|done]).
    rewrite El, (bool_decide_false (str "quit" = str "sync")), (bool_decide_false (str "quit" = str "psync")) by by vm_compute. cbn [orb].
    unfold serve_request. apply wp_bind, (wp_arg _ _ n); [done|]. cbv zeta. rewrite El, Hsubs. cbn [andb]. apply wp_bind.
    apply (wp_control (envs i) _ "quit" quitCommand (-1) FlagFast); [done|apply quit_row|done|done| |by rewrite Hm|].
    + unfold bad_arity. cbn [reg Arity]. cbn [Z.ltb Z.compare andb orb]. apply Z.ltb_ge. zlen_lia.
    + apply wp_ret, wp_ret. rewrite bool_decide_true by done. apply wp_ret. split; [done|by apply abs_rel_prop].
  - rewrite (ParseRequest_wire _ _ b rest (Harena i) Hw). assert (bool_decide (ToLower n = str "sync") || bool_decide (ToLower n = str "psync") = true) as ->.
    { apply orb_true_iff. rewrite !bool_decide_eq_true. exact Hn. }
    by apply wp_ret.
Qed.

End loop.



(** A connection with subscriptions is told that GET is not for it; QUIT is. *)
Example subscribed_connection_refuses_data_commands :
  fst <$> connection (fun _ => None) (fun _ => frozen 1) (fun _ => true) 100 0 (str "get k" ++ crlf ++ str "quit" ++ crlf) (initial default_limits false) =
    Some (not_permitted ++ OK, Quit).
Proof. vm_compute. reflexivity. Qed.
