(* ===== verification/LcsSpec.v ===== *)
(** * LCS as a request

    The command through the dispatcher of a server with any history behind it. *)

From S2P Require Import Prelude Strconv Object Value Db DbSpec Reply Acl Cluster Context Strings StringSpec Generic GenericSpec.
From S2P Require Import Hashes HashSpec Sets SetSpec Lists ListSpec Bitmap Bits BitSpec Lcs Dispatch Registry CommandSpec ServerSpec HistorySpec.
Local Open Scope Z_scope.

(** The registered command. *)
Definition lcs_row (E : env) : Command := reg "lcs" (lcsCommand E) (-3) FlagReadOnly.

Lemma lcs_row_in E ex : lcs_row E ∈ rows E ex.
Proof. unfold rows. rewrite !elem_of_app. do 12 right. left. by apply list_elem_of_singleton. Qed.



(** The subsequence of the manual, computed, with its blocks. *)
Example lcs_example :
  lcs_strings false (mkLcsOpts false false false 0) (str "ohmytext") (str "mynewtext") = Some (BulkString (str "mytext")) /\
  lcs_strings false (mkLcsOpts false true true 4) (str "ohmytext") (str "mynewtext") =
    Some (idx_reply false (mkLcsOpts false true true 4) [mkMatch 4 7 5 8 4; mkMatch 2 3 0 1 2] 6).
Proof. split; vm_compute; reflexivity. Qed.
