(* ===== verification/ReplicationSpec.v ===== *)
(** * What a replica or a log makes of the commands it is fed

    A write is not sent as it came: relative deadlines become absolute ones, conditions that were
    already decided are dropped, a failed comparison is not sent at all.  [effect_of] names the command that
    goes out in the syntax of [CommandSpec]; [effect_reproduces] says that it changes the dataset as
    the original did, and [replica_follows] is the theorem on a primary and a replica that
    executes what it is fed. *)

From S2P Require Import Prelude Strconv Object Value Db DbSpec Reply Acl Cluster Context Strings StringSpec Generic GenericSpec.
From S2P Require Import Hashes HashSpec Sets SetSpec Lists ListSpec Bitmap Bits BitSpec Copy Dispatch Registry CommandSpec ServerSpec HistorySpec.
Local Open Scope Z_scope.

(** ** Replies and changes *)

Definition is_write (c : cmd) : bool := has_flag (Flags (row_of (frozen 0) c)) FlagWrite.

(** A command without the write flag changes nothing. *)
Lemma reads_change_nothing T r3 m c : is_write c = false -> (ref_cmd T r3 m c).2 = m.
Proof. cmd_cases c; intros Hw; try (vm_compute in Hw; discriminate Hw); reflexivity. Qed.

Lemma Error_error msg : is_error (Error msg) = true.
Proof. unfold Error. by destruct (hasErrorCode msg). Qed.

(** Either an error that changed nothing, or a proper reply. *)
Definition answers (m : dataset) (x : bytes * dataset) : Prop :=
  (is_error x.1 = true /\ x.2 = m) \/ (is_error x.1 = false /\ x.1 <> []).

Lemma answers_error m msg : answers m (Error msg, m).
Proof. left. split; [apply Error_error|done]. Qed.

Lemma answers_integer m m' n : answers m (Integer n, m').
Proof. by right. Qed.
Lemma answers_bulk m m' b : answers m (BulkString b, m').
Proof. by right. Qed.
Lemma answers_ok m m' : answers m (OK, m').
Proof. by right. Qed.
Lemma answers_null_bulk m m' : answers m (NullBulkString, m').
Proof. by right. Qed.
Lemma answers_null m m' r3 : answers m (Null r3, m').
Proof. right. by destruct r3. Qed.

Ltac answer :=
  lazymatch goal with
  | |- answers _ (Integer _, _) => apply answers_integer
  | |- answers _ (BulkString _, _) => apply answers_bulk
  | |- answers _ (OK, _) => apply answers_ok
  | |- answers _ (NullBulkString, _) => apply answers_null_bulk
  | |- answers _ (Null _, _) => apply answers_null
  | |- answers ?m (Error _, ?m) => apply answers_error
  | |- answers ?m (wrongtype, ?m) => apply answers_error
  | |- answers ?m (not_integer, ?m) => apply answers_error
  | |- answers ?m (no_such_key, ?m) => apply answers_error
  | |- answers ?m (same_object, ?m) => apply answers_error
  | |- _ => exfalso; subst; discriminate
  end.

Lemma write_answers T r3 m c : is_write c = true -> answers m (ref_cmd T r3 m c).
Proof.
  intros Hw. cmd_cases c; try (vm_compute in Hw; discriminate Hw); clear Hw; cbn [ref_cmd];
    unfold ref_SET, ref_SETNX, ref_SETEX, ref_GETSET, ref_GETDEL, ref_GETEX, ref_MSET, ref_MSETNX, ref_APPEND, ref_SETRANGE,
      ref_DEL, ref_PERSIST, ref_EXPIRE, ref_RENAME, ref_DELEX, ref_MSETEX, ref_HSET, ref_HMSET, ref_HSETNX, ref_HDEL, ref_SADD, ref_SREM,
      ref_STORE, ref_SMOVE, ref_LMOVE, ref_LREM; cbv zeta; unfold ref_INCRBY, ref_HINCRBY, ref_PUSH, ref_PUSHX, ref_POP, ref_LSET, ref_LINSERT, ref_LTRIM, ref_SETBIT, ref_BITOP, ref_COPY,
      on_string, on_hash, on_set, on_list;
    cbv zeta; repeat case_match; answer.
Qed.

Lemma ref_cmd_r3 T r3 r3' m c : (ref_cmd T r3 m c).2 = (ref_cmd T r3' m c).2.
Proof. destruct c; try reflexivity. cbn [ref_cmd]. unfold ref_SET. cbv zeta. destruct (get && _); [done|]. by destruct (set_holds m k c) as [[]|]. Qed.

(** ** The command that goes out *)

Definition drop_key (lazy : bool) (k : bytes) : bytes * cmd := if lazy then (str "UNLINK", Unlink [k]) else (str "DEL", Del' [k]).

(** A deadline that has come is sent as a deletion. *)
Definition dated (T : Z) (e : Z) (gone kept : bytes * cmd) : bytes * cmd := if e <=? T then gone else kept.

(** SET is sent without its condition and with an absolute deadline. *)
Definition set_out (lazy : bool) (T : Z) (m : dataset) (n k v : bytes) (x : set_expiry) : bytes * cmd :=
  match x with
  | XNone | XKeep => (n, Set' k v x CAlways false)
  | _ => let e := set_deadline T m k x in dated T e (drop_key lazy k) (n, Set' k v (XAtMillis e) CAlways false)
  end.

Definition expire_out (T : Z) (k : bytes) (e : Z) : bytes * cmd := dated T e (drop_key false k) (str "PEXPIREAT", Expire KPexpireat k e ECAlways).

Definition effect_of (lazy : bool) (T : Z) (r3 : bool) (m : dataset) (n : bytes) (c : cmd) : list (bytes * cmd) :=
  if negb (is_write c) || is_error (ref_cmd T r3 m c).1 then []
  else
    match c with
    | Set' k v x cond _ =>
      match cond, set_holds m k cond with
      | (CIfEq _ | CIfNe _), Some false => []
      | _, _ => [set_out lazy T m n k v x]
      end
    | Setex k v secs => [(str "SET", Set' k v (XAtMillis (T + secs * 1000)) CAlways false)]
    | Psetex k v ms => [(str "SET", Set' k v (XAtMillis (T + ms)) CAlways false)]
    | Getdel k => match m !! k with None => [] | Some _ => [drop_key false k] end
    | Getex k None => [(str "PERSIST", Persist' k)]
    | Getex k (Some XNone) | Getex k (Some XKeep) => []
    | Getex k (Some x) => [expire_out T k (set_deadline T m k x)]
    | Expire kind k num cond =>
      let e := expire_at T kind num in
      if bool_decide ((ref_EXPIRE T m k e cond).1 = Integer 1)
      then [expire_out T k e] else [(n, c)]
    | Delex k cond => match delex_override m k cond None with Some (Some _) => [drop_key false k] | _ => [] end
    | _ => [(n, c)]
    end.

Section effects.
Variables (E : env) (T : Z).
Hypothesis Hclk : instant E T.

Lemma deadline_s64 e : - 2 ^ 60 <= e <= max_deadline -> s64 e = e.
Proof. clear Hclk. replace max_deadline with 9223372036854 by (by vm_compute). intros. apply s64_id. unfold is_int64, min_int64, max_int64. lia. Qed.

(** What is computed for the sinks is that command. *)
Lemma normalize_set_args lazy m n k v x cond get :
  expiry_ok T x ->
  normalizeSet lazy (n :: k :: v :: set_args x cond get) T =
    Some (argv_of (set_out lazy T m n k v x)).
Proof using Hclk.
  intros Hx. unfold normalizeSet. change (go_at (n :: k :: v :: set_args x cond get) 0) with (Some n).
  change (go_at (n :: k :: v :: set_args x cond get) 1) with (Some k). change (go_at (n :: k :: v :: set_args x cond get) 2) with (Some v).
  change (drop 3 (n :: k :: v :: set_args x cond get)) with (set_args x cond get). go_bind. f_equal.
  set (argv := n :: k :: v :: set_args x cond get). clearbody argv.
  assert (forall out, normalize_set_loop lazy argv k T out (cond_args cond ++ (if get then [str "GET"] else [])) = out) as Hrest.
  { intros out. destruct cond, get; cbn [cond_args app normalize_set_loop]; keyword; reflexivity. }
  pose proof (expiry_bounds E T Hclk x Hx) as Hb. unfold set_args, set_out, dated.
  destruct x as [| |num|num|num|num]; cbn [expiry_args app set_deadline expiry_ok] in *.
  - by rewrite Hrest.
  - cbn [normalize_set_loop]. keyword. by rewrite Hrest.
  - destruct Hb as (Hi & _), Hx, Hclk. cbn [normalize_set_loop]. keyword. rewrite (ParseInt_FormatInt _ Hi). cbn [abs_deadline].
    rewrite deadline_s64 by lia. destruct (T + num * 1000 <=? T); [by destruct lazy|]. by rewrite Hrest.
  - destruct Hb as (Hi & _), Hx, Hclk. cbn [normalize_set_loop]. keyword. rewrite (ParseInt_FormatInt _ Hi). cbn [abs_deadline].
    rewrite deadline_s64 by lia. destruct (T + num <=? T); [by destruct lazy|]. by rewrite Hrest.
  - destruct Hb as (Hi & _), Hx. cbn [normalize_set_loop]. keyword. rewrite (ParseInt_FormatInt _ Hi). cbn [abs_deadline].
    rewrite deadline_s64 by lia. destruct (num * 1000 <=? T); [by destruct lazy|]. by rewrite Hrest.
  - destruct Hb as (Hi & _). cbn [normalize_set_loop]. keyword. rewrite (ParseInt_FormatInt _ Hi).
    destruct (num <=? T); [by destruct lazy|]. by rewrite Hrest.
Qed.

Lemma normalize_getex_args m n k x :
  (forall y, x = Some y -> expiry_ok T y) ->
  normalizeGetex (n :: k :: getex_args x) T =
    Some (match x with
          | None => Some (argv_of (str "PERSIST", Persist' k))
          | Some XNone | Some XKeep => None
          | Some x => Some (argv_of (expire_out T k (set_deadline T m k x)))
          end).
Proof using Hclk.
  intros Hx. unfold normalizeGetex. change (go_at (n :: k :: getex_args x) 1) with (Some k). go_bind.
  change (drop 2 (n :: k :: getex_args x)) with (getex_args x). f_equal. destruct x as [x|]; [|reflexivity].
  specialize (Hx x eq_refl). pose proof (expiry_bounds E T Hclk x Hx) as Hb. unfold expire_out, dated.
  destruct x as [| |num|num|num|num]; cbn [getex_args expiry_args set_deadline expiry_ok] in *; [done|done|..]; keyword;
    destruct Hb as (Hi & _), Hx, Hclk; rewrite (ParseInt_FormatInt _ Hi); cbn [abs_deadline]; rewrite ?deadline_s64 by lia;
    match goal with |- context [if ?b then _ else _] => by destruct b end.
Qed.

Lemma abs_deadline_at kind num : expire_arg_ok T kind num -> abs_deadline T num kind = expire_at T kind num.
Proof using Hclk.
  intros [Hn Hd]. destruct Hclk. destruct kind; cbn [abs_deadline expire_at] in *; [apply deadline_s64..|done]; lia.
Qed.

Lemma go_at_1 {A : Type} (a b : A) l : go_at (a :: b :: l) 1 = Some b.
Proof. done. Qed.
Lemma go_at_2 {A : Type} (a b c : A) l : go_at (a :: b :: c :: l) 2 = Some c.
Proof. done. Qed.
Lemma go_at_3 {A : Type} (a b c d : A) l : go_at (a :: b :: c :: d :: l) 3 = Some d.
Proof. done. Qed.

Lemma expire_int64 kind num : expire_arg_ok T kind num -> is_int64 num.
Proof using Hclk.
  unfold expire_arg_ok. replace max_deadline with 9223372036854 by (by vm_compute). unfold is_int64, min_int64, max_int64. intros [H1 H2].
  destruct Hclk, kind; cbn in *; lia.
Qed.

Lemma bulk_not_null b : BulkString b <> NullBulkString /\ BulkString b <> Null true.
Proof.
  clear Hclk. split; [|discriminate]. unfold BulkString, NullBulkString. zlen_pose. rewrite FormatInt_nonneg by apply zlen_nonneg.
  intros Heq. pose proof (FormatUint_digits (zlen b) (zlen_nonneg b)) as Hd.
  destruct (FormatUint (zlen b)) as [|d l] eqn:E2; [by apply FormatUint_not_nil in E2; [|apply zlen_nonneg]|].
  apply Forall_cons in Hd as [Hd _]. injection Heq as -> _. unfold is_digit in Hd. lia.
Qed.

Lemma setex_sent lazy name kind n k v num :
  (name = str "setex" /\ kind = KExpire) \/ (name = str "psetex" /\ kind = KPexpire) -> 0 < num -> expire_at T kind num <= max_deadline ->
  forall reply, normalizeForPropagation lazy T name [n; k; FormatInt num; v] reply =
    Some (Some (argv_of (str "SET", Set' k v (XAtMillis (expire_at T kind num)) CAlways false))).
Proof using Hclk.
  intros Hk Hn Hd reply. assert (expire_arg_ok T kind num) as Ha by (split; [lia|done]). pose proof (abs_deadline_at _ _ Ha) as Hat.
  pose proof (expire_int64 _ _ Ha) as Hi.
  destruct Hk as [[-> ->]|[-> ->]]; unfold normalizeForPropagation; cbv zeta; known_name;
    change (zlen [n; k; FormatInt num; v] <? 4) with false; rewrite go_at_1, go_at_2, go_at_3; go_bind; rewrite (ParseInt_FormatInt _ Hi), Hat; reflexivity.
Qed.

Definition expire_name (kind : expire_kind) : bytes :=
  match kind with KExpire => str "expire" | KPexpire => str "pexpire" | KExpireat => str "expireat" | KPexpireat => str "pexpireat" end.

Lemma expire_sent lazy kind n k num rest reply :
  expire_arg_ok T kind num ->
  normalizeForPropagation lazy T (expire_name kind) (n :: k :: FormatInt num :: rest) reply =
    Some (Some (if bool_decide (reply = Integer 1)
                then argv_of (expire_out T k (expire_at T kind num))
                else n :: k :: FormatInt num :: rest)).
Proof using Hclk.
  intros Ha. pose proof (abs_deadline_at _ _ Ha) as Hat. pose proof (expire_int64 _ _ Ha) as Hi.
  unfold normalizeForPropagation, expire_name; destruct kind; cbv zeta; known_name; rewrite go_at_1, go_at_2; go_bind;
    rewrite (ParseInt_FormatInt _ Hi), Hat, (proj2 (Z.ltb_ge (zlen _) 3)) by (rewrite !zlen_cons; zlen_pose; lia);
    unfold expire_out, dated; destruct (bool_decide (reply = Integer 1)); cbn [negb orb]; try reflexivity;
    match goal with |- context [?a <=? T] => by destruct (a <=? T) end.
Qed.

Lemma sent_effect lazy r3 m n c :
  cmd_ok T c -> sent lazy T r3 m n c = argv_of <$> effect_of lazy T r3 m n c.
Proof using Hclk.
  intros Hc. unfold sent, effect_of. fold (is_write c). destruct (is_write c) eqn:Hw; [|done]. cbn [negb orb andb].
  destruct (write_answers T r3 m c Hw) as [[He _]|[He Hne]]; rewrite He; [by rewrite andb_false_r|].
  rewrite bool_decide_false by done. cbn [negb andb]. clear Hne.
  cmd_cases c; try (vm_compute in Hw; discriminate Hw); clear Hw; cbn [args_of override ref_cmd cmd_ok] in *.
  all: lazymatch goal with
       | |- context [Set'] => idtac | |- context [Getdel] => idtac | |- context [Getex] => idtac | |- context [Expire] => idtac
       | |- context [Delex] => idtac | |- context [Setex] => idtac | |- context [Psetex] => idtac
       | |- _ => cbn [row_of cmd_Name reg]; unfold normalizeForPropagation; cbv zeta; known_name; reflexivity
       end.
  - change (cmd_Name _) with (str "set"). unfold normalizeForPropagation. cbv zeta. known_name. rewrite (normalize_set_args lazy m) by done. go_bind.
    unfold set_override. destruct c as [| | |b|b]; [destruct x; reflexivity..| |]; destruct (set_holds m k _) as [[]|], x; reflexivity.
  - destruct Hc. change (cmd_Name _) with (str "setex"). rewrite (setex_sent lazy _ KExpire) by (first [by left|done]). reflexivity.
  - destruct Hc. change (cmd_Name _) with (str "psetex"). rewrite (setex_sent lazy _ KPexpire) by (first [by right|done]). reflexivity.
  - change (cmd_Name _) with (str "getdel"). unfold normalizeForPropagation. cbv zeta. known_name. unfold ref_GETDEL, on_string in *.
    destruct (m !! k) as [[[b| | |] e]|]; cbn [fst] in *; [|discriminate He..|reflexivity].
    destruct (bulk_not_null b). rewrite !bool_decide_false by done. reflexivity.
  - change (cmd_Name _) with (str "getex"). unfold normalizeForPropagation. cbv zeta. known_name. rewrite (normalize_getex_args m) by done.
    by destruct x as [[]|].
  - change (cmd_Name _) with (expire_name KExpire). rewrite expire_sent by done. case_bool_decide; reflexivity.
  - change (cmd_Name _) with (expire_name KPexpire). rewrite expire_sent by done. case_bool_decide; reflexivity.
  - change (cmd_Name _) with (expire_name KExpireat). rewrite expire_sent by done. case_bool_decide; reflexivity.
  - change (cmd_Name _) with (expire_name KPexpireat). rewrite expire_sent by done. case_bool_decide; reflexivity.
  - change (cmd_Name _) with (str "delex"). unfold normalizeForPropagation. cbv zeta. known_name. unfold ref_DELEX, delex_override in *.
    destruct (m !! k) as [[[b| | |] e]|], c as [[eq b']|]; cbn [fst] in *; try discriminate He; try reflexivity. destruct (Bool.eqb _ _); reflexivity.
Qed.

End effects.

(** ** The command that goes out does what the original did *)

(** No key of the dataset has expired by [T]. *)
Definition durable (T : Z) (m : dataset) : Prop := expire_dataset T m = m.

Lemma durable_alive T m k v e : durable T m -> m !! k = Some (v, e) -> alive T e = true.
Proof.
  intros Hd Hk. assert (expire_dataset T m !! k = m !! k) as Hl by by rewrite Hd. rewrite lookup_expire, Hk in Hl. by destruct (alive T e).
Qed.

Lemma expire_durable T m : durable T (expire_dataset T m).
Proof.
  apply map_eq. intros k. rewrite !lookup_expire. destruct (m !! k) as [[v e]|]; [|done]. destruct (alive T e) eqn:E1; [|done]. by rewrite E1.
Qed.

Lemma alive_dead T T' e : T <= T' -> alive T e = false -> alive T' e = false.
Proof. unfold alive. intros. lia. Qed.

(** Which commands may be repeated later: a condition that was decided in favour, a deadline that was sent as an absolute one. *)
Definition replayable (T T' : Z) (m : dataset) (c : cmd) : Prop :=
  match c with
  | Set' k _ _ CNX _ => m !! k = None
  | Set' k _ _ CXX _ => is_Some (m !! k)
  | Msetex _ x _ => forall k, set_deadline T' m k x = set_deadline T m k x
  | Expire kind k n cond =>
    ((ref_EXPIRE T m k (expire_at T kind n) cond).1 = Integer 1 -> expire_at T kind n <> 0) /\
    ((ref_EXPIRE T m k (expire_at T kind n) cond).1 <> Integer 1 ->
       (ref_EXPIRE T' m k (expire_at T' kind n) cond).1 <> Integer 1 /\ expire_at T' kind n <= max_deadline)
  | _ => True
  end.

Section replay.
Variables (T T' : Z).
Hypothesis HT : 0 <= T <= T'.

Lemma with_deadline_later m k e : durable T' (with_deadline T m k e) -> with_deadline T' m k e = with_deadline T m k e.
Proof using HT.
  intros Hd. unfold with_deadline in *. destruct (m !! k) as [[v e0]|]; [|done]. destruct (alive T e) eqn:Ea.
  - assert (alive T' e = true) as -> by (eapply durable_alive; [exact Hd|apply lookup_insert_eq]). done.
  - by rewrite (alive_dead T T') by (done || lia).
Qed.

Lemma written_later m k v e : durable T' (written T m k v e) -> written T' m k v e = written T m k v e.
Proof using HT.
  intros Hd. unfold written in *. destruct (alive T e) eqn:Ea.
  - assert (alive T' e = true) as -> by (eapply durable_alive; [exact Hd|apply lookup_insert_eq]). done.
  - by rewrite (alive_dead T T') by (done || lia).
Qed.

Lemma ref_DEL_one m k : (ref_DEL m [k]).2 = delete k m.
Proof. done. Qed.

(** The deadline of a batch is the same for all its keys, so the last key shows whether it is still ahead. *)
Lemma put_dated_later m kvs x :
  x <> XKeep -> kvs <> [] -> (forall k, set_deadline T' m k x = set_deadline T m k x) -> durable T' (put_dated T m kvs x) ->
  put_dated T' m kvs x = put_dated T m kvs x.
Proof using HT.
  intros Hx Hne He Hd. assert (exists e, (forall m k, set_deadline T m k x = e) /\ (forall m k, set_deadline T' m k x = e)) as (e & HeT & HeT').
  { exists (set_deadline T m [] x). split; intros m0 k; [|rewrite <- (He [])]; by destruct x. }
  assert (alive T' e = alive T e) as Ha.
  { destruct (alive T e) eqn:Ea; [|by apply (alive_dead T); [lia|]]. destruct kvs as [|[k v] kvs _] using rev_ind; [done|].
    unfold put_dated in Hd. rewrite foldl_app in Hd. cbn [foldl fst snd] in Hd. rewrite HeT in Hd. unfold written at 1 in Hd. rewrite Ea in Hd.
    eapply durable_alive; [exact Hd|apply lookup_insert_eq]. }
  unfold put_dated. clear Hd Hne He. revert m. induction kvs as [|kv kvs IH]; intros m; [done|]. cbn [foldl].
  rewrite HeT, HeT'. unfold written at 2 4. rewrite Ha. apply IH.
Qed.

Lemma set_effect r3 m k v x c get :
  expiry_ok T x -> set_holds m k c = Some true -> is_error (ref_SET T r3 m k v x c get).1 = false -> durable T' (ref_SET T r3 m k v x c get).2 ->
  forall r3' n lazy, (ref_queue T' r3' m [set_out lazy T m n k v x]).2 = (ref_SET T r3 m k v x c get).2.
Proof using HT.
  intros Hx Hh Herr Hd r3' n lazy. unfold ref_SET in *. cbv zeta in *. rewrite Hh in *.
  destruct (get && _); [discriminate Herr|]. cbn [snd] in *. fold (written T m k v (set_deadline T m k x)) in *. rewrite <- (written_later _ _ _ _ Hd).
  assert (forall e, 0 < e -> (ref_queue T' r3' m [dated T e (drop_key lazy k) (n, Set' k v (XAtMillis e) CAlways false)]).2 = written T' m k v e) as He.
  { intros e Hpos. unfold dated. destruct (Z.leb_spec e T) as [Hle|Hgt]; [|reflexivity].
    assert (alive T' e = false) as Ha by (unfold alive; lia).
    destruct lazy; cbn [drop_key ref_queue ref_cmd snd]; rewrite ref_DEL_one; unfold written; by rewrite Ha. }
  unfold set_out. destruct x; [reflexivity|reflexivity|apply He; cbn in *; lia..].
Qed.

Lemma expire_effect r3' m k e : e <> 0 -> durable T' (with_deadline T m k e) -> (ref_queue T' r3' m [expire_out T k e]).2 = with_deadline T m k e.
Proof using HT.
  intros He Hd. rewrite <- (with_deadline_later _ _ _ Hd). unfold expire_out, dated. destruct (Z.leb_spec e T) as [Hle|Hgt].
  - cbn [drop_key ref_queue ref_cmd snd]. rewrite ref_DEL_one. unfold with_deadline. assert (alive T' e = false) as -> by (unfold alive; lia).
    destruct (m !! k) as [[]|] eqn:Ek; [done|]. by rewrite delete_id.
  - cbn [ref_queue ref_cmd snd expire_at]. unfold ref_EXPIRE, with_deadline. by destruct (m !! k) as [[]|].
Qed.

Lemma ref_EXPIRE_refused t m k e c : (ref_EXPIRE t m k e c).1 <> Integer 1 -> (ref_EXPIRE t m k e c).2 = m.
Proof. unfold ref_EXPIRE. destruct (m !! k) as [[v e0]|]; [|done]. cbv zeta. by destruct (match c with ECAlways => _ | _ => _ end). Qed.

Lemma effect_reproduces lazy r3 r3' m n c :
  cmd_ok T c -> durable T' m -> durable T' (ref_cmd T r3 m c).2 -> replayable T T' m c ->
  (ref_queue T' r3' m (effect_of lazy T r3 m n c)).2 = (ref_cmd T r3 m c).2.
Proof using HT.
  intros Hc Hm Hd Hr. unfold effect_of. destruct (is_write c) eqn:Hw; cbn [negb orb]; [|by rewrite reads_change_nothing].
  destruct (write_answers T r3 m c Hw) as [[He Hsame]|[He _]]; rewrite He; [by rewrite Hsame|].
  destruct c; try (cbn [ref_queue snd]; rewrite (ref_cmd_r3 T' r3' r3); reflexivity); clear Hw; cbn [cmd_ok ref_cmd replayable] in *.
  - destruct (set_holds m k c) as [[]|] eqn:Hh.
    + transitivity (ref_queue T' r3' m [set_out lazy T m n k v x]).2; [destruct c; rewrite ?Hh; reflexivity|]. by apply set_effect.
    + unfold ref_SET in *. rewrite Hh in *. destruct (get && _); [discriminate He|]. destruct c; rewrite ?Hh; try reflexivity; cbn in Hh.
      * discriminate Hh.
      * rewrite bool_decide_false in Hh by (rewrite Hr; by intros []). discriminate Hh.
      * rewrite bool_decide_true in Hh by done. discriminate Hh.
    + exfalso. unfold ref_SET in He. rewrite Hh in He. destruct (get && _); discriminate He.
  - destruct Hc as [Hc _]. cbn [ref_queue ref_cmd snd]. assert (T < T + secs * 1000) as Hlt by lia. revert Hd. unfold ref_SETEX, ref_SET. cbn [set_holds andb snd set_deadline].
    intros Hd. by rewrite (durable_alive T' _ k (RString v) _ Hd (lookup_insert_eq _ _ _)).
  - cbn [ref_queue ref_cmd snd]. revert Hd. unfold ref_SETEX, ref_SET. cbn [set_holds andb snd set_deadline].
    intros Hd. by rewrite (durable_alive T' _ k (RString v) _ Hd (lookup_insert_eq _ _ _)).
  - unfold ref_GETDEL, on_string in *. destruct (m !! k) as [[[b| | |] e]|]; [reflexivity|discriminate He..|reflexivity].
  - assert (m !! k = None \/ exists b e, m !! k = Some (RString b, e)) as Hk.
    { unfold ref_GETEX, on_string in He. destruct (m !! k) as [[[b| | |] e]|]; [eauto|discriminate He..|by left]. }
    assert (forall e, e <> 0 -> (ref_GETEX T m k x).2 = with_deadline T m k e -> (ref_queue T' r3' m [expire_out T k e]).2 = (ref_GETEX T m k x).2) as Hx.
    { intros e Hne Heq. rewrite Heq in *. by apply expire_effect. }
    assert (forall y, x = Some y -> y <> XNone -> y <> XKeep -> (ref_GETEX T m k x).2 = with_deadline T m k (set_deadline T m k y)) as Hy.
    { intros y -> Hy1 Hy2. unfold ref_GETEX, on_string, with_deadline. destruct Hk as [->|(b & e & ->)]; [done|]. by destruct y. }
    destruct x as [x|].
    + specialize (Hc x eq_refl). destruct x; cbn [expiry_ok set_deadline] in *;
        [unfold ref_GETEX, on_string; by destruct Hk as [->|(b & e & ->)]|unfold ref_GETEX, on_string; by destruct Hk as [->|(b & e & ->)]| | | |];
        (apply Hx; [lia|]; exact (Hy _ eq_refl ltac:(discriminate) ltac:(discriminate))).
    + cbn [ref_queue ref_cmd snd]. unfold ref_GETEX, ref_PERSIST, on_string, with_deadline. destruct Hk as [->|(b & e & Hk)]; [done|].
      rewrite Hk. destruct (Z.eqb_spec e 0) as [->|]; [|done]. cbn. by rewrite insert_id.
  - case_bool_decide as H1.
    + destruct Hr as [Hr _]. unfold ref_EXPIRE in *. specialize (Hr H1). destruct (m !! k) as [[v e0]|] eqn:Ek; [|discriminate H1]. cbv zeta in *.
      destruct (match c with ECAlways => _ | _ => _ end); [|discriminate H1]. by apply expire_effect.
    + destruct Hr as [_ Hr]. destruct (Hr H1) as [Hr1 _]. rewrite (ref_EXPIRE_refused T m) by done. cbn [ref_queue ref_cmd snd]. by apply ref_EXPIRE_refused.
  - unfold delex_override, ref_DELEX in *. destruct (m !! k) as [[[b| | |] e]|], c as [[eq b']|]; try discriminate He; try reflexivity.
    destruct (Bool.eqb _ _); reflexivity.
  - destruct Hc as (_ & Hx & Hk). cbn [ref_queue ref_cmd snd]. unfold ref_MSETEX in *. cbv zeta in *. destruct (match nx with None => _ | _ => _ end); [done|].
    apply put_dated_later; [done|by intros ->; destruct Hk as [Hk _]|done|done].
Qed.

End replay.

(** What goes out is a command that its receiver accepts. *)
Lemma effect_ok E lazy T T' r3 m n c :
  0 <= T <= T' -> spells E n c -> cmd_ok T c -> replayable T T' m c -> Forall (queue_ok E T') (effect_of lazy T r3 m n c).
Proof.
  intros HT Hn Hc Hr. unfold effect_of. destruct (negb (is_write c) || _); [by apply Forall_nil|].
  assert (forall lz k, queue_ok E T' (drop_key lz k)) as Hdrop by (intros [] k; (split; [reflexivity|discriminate])).
  assert (forall k e, e <= max_deadline -> queue_ok E T' (expire_out T k e)) as Hexp.
  { intros k e He. unfold expire_out, dated. destruct (Z.leb_spec e T); [apply Hdrop|]. split; [reflexivity|]. split; [lia|exact He]. }
  assert (forall n k v e, toLowerASCII n = str "set" -> T < e <= max_deadline -> queue_ok E T' (n, Set' k v (XAtMillis e) CAlways false)) as Hset.
  { intros n0 k v e Hn0 He. split; [exact Hn0|]. cbn. lia. }
  assert (cmd_ok T' c -> Forall (queue_ok E T') [(n, c)]) as Hraw by (intros Hc'; apply Forall_singleton; split; [exact Hn|exact Hc']).
  destruct c; try (apply Hraw; exact Hc); cbn [cmd_ok replayable] in *.
  - assert (queue_ok E T' (set_out lazy T m n k v x)) as Hs.
    { unfold set_out, dated. destruct x; cbn [expiry_ok set_deadline] in *; [by split..| | | |];
        (match goal with |- context [?e <=? T] => destruct (Z.leb_spec e T) end; [apply Hdrop|apply Hset; [exact Hn|lia]]). }
    destruct c; [by apply Forall_singleton..| |]; (destruct (set_holds m k _) as [[]|]; [by apply Forall_singleton|by apply Forall_nil|by apply Forall_singleton]).
  - apply Forall_singleton, Hset; [reflexivity|lia].
  - apply Forall_singleton, Hset; [reflexivity|lia].
  - destruct (m !! k); [apply Forall_singleton, Hdrop|by apply Forall_nil].
  - destruct x as [x|]; [|apply Forall_singleton; split; [reflexivity|exact I]]. specialize (Hc x eq_refl).
    destruct x; cbn [expiry_ok set_deadline] in *; [by apply Forall_nil|by apply Forall_nil|apply Forall_singleton, Hexp; lia..].
  - case_bool_decide as H1; [apply Forall_singleton, Hexp, Hc|]. apply Hraw. destruct Hr as [_ Hr]. split; [apply Hc|by apply Hr].
  - destruct (delex_override m k c None) as [[]|]; [apply Forall_singleton, Hdrop|by apply Forall_nil|by apply Forall_nil].
  - apply Hraw. destruct Hc as (Hx & Hk). split; [|exact Hk]. specialize (Hr []). destruct x; cbn in *; lia.
Qed.

(** ** A primary and its replica *)

(** What the primary has fed so far. *)
Definition outbox (s : St) : list (list bytes) := default [] (s_repl s).

(** Every request of the primary, and after it what the replica is fed for it, in an environment of its own. *)
Fixpoint follow (es : list (event * (env * Z))) (p r : St) : option (St * St) :=
  match es with
  | [] => Some (p, r)
  | (ev, (E', _)) :: es =>
    match request (ev_env ev) (ev_name ev :: args_of (ev_cmd ev)) p with
    | None => None
    | Some (_, p') =>
      match requests ((fun argv => (E', argv)) <$> drop (length (outbox p)) (outbox p')) r with
      | None => None
      | Some (_, r') => follow es p' r'
      end
    end
  end.

(** The replica may be late, but not so late that a key has expired in between. *)
Fixpoint followable (T T' : Z) (m : dataset) (es : list (event * (env * Z))) : Prop :=
  match es with
  | [] => True
  | (ev, (E', T1)) :: es =>
    let m' := (ref_event false m ev).2 in
    event_ok ev /\ instant E' T1 /\ orders_ok E' /\ T <= ev_time ev <= T1 /\ T' <= T1 /\
    expire_dataset T1 m = expire_dataset (ev_time ev) m /\ durable T1 m' /\
    replayable (ev_time ev) T1 (expire_dataset (ev_time ev) m) (ev_cmd ev) /\
    followable (ev_time ev) T1 m' es
  end.

(** A server that executes what it is fed: no user, no transaction, no sinks ([ExecuteReplicaCommand], and [Load] for the log). *)
Definition follower (lim : limits) : St :=
  mkSt (SetExpiredCallback NewShardedDB) ∅ 0 lim false None None NewManager None None None false false None 0.

Lemma requests_ok E T cs : instant E T -> orders_ok E -> forall m s,
  ready s -> multi_of s = false -> abs_rel T m s -> Forall (queue_ok E T) cs ->
  wp (requests ((fun argv => (E, argv)) <$> (argv_of <$> cs))) s (fun rs s' => abs_rel T (ref_queue T (c_resp3 s) m cs).2 s' /\ session s s').
Proof.
  intros Hclk Ho. induction cs as [|nc cs IH]; intros m s Hr Hm H Hcs.
  { apply wp_ret. split; [done|apply session_refl]. }
  apply Forall_cons in Hcs as [[Hn Hc] Hcs]. cbn [fmap list_fmap requests ref_queue snd].
  apply wp_bind. eapply wp_mono; [eapply request_ok; [exact Hclk|exact Ho|exact Hr|exact Hm|exact H|exact Hc|exact Hn]|].
  intros r s1 (_ & H1 & HS1 & _). destruct (ready_session _ _ HS1 Hr) as [Hr1 Hm1]. rewrite Hm in Hm1.
  apply wp_bind. eapply wp_mono; [eapply IH; [exact Hr1|exact Hm1|exact H1|exact Hcs]|].
  intros rs s2 (H2 & HS2). apply wp_ret. rewrite (se_resp3 _ _ HS1) in H2. split; [exact H2|by eapply session_trans].
Qed.

Lemma ref_queue_app T r3 m cs cs' : (ref_queue T r3 m (cs ++ cs')).2 = (ref_queue T r3 (ref_queue T r3 m cs).2 cs').2.
Proof. revert m. induction cs as [|c cs IH]; intros m; [done|]. cbn. apply IH. Qed.

(** Deletions of keys that are not there. *)
Lemma ref_queue_dels T r3 m ks :
  Forall (fun k => m !! k = None) ks -> (ref_queue T r3 m ((fun k => (str "DEL", Del' [k])) <$> ks)).2 = m.
Proof.
  induction 1 as [|k ks Hk _ IH]; [done|]. cbn [fmap list_fmap ref_queue snd ref_cmd]. rewrite ref_DEL_one, delete_id by done. exact IH.
Qed.

Definition late_time (T' : Z) (es : list (event * (env * Z))) : Z := match last es with Some (_, (_, T1)) => T1 | None => T' end.

Lemma late_time_cons T' ev E' T1 es : late_time T' ((ev, (E', T1)) :: es) = late_time T1 es.
Proof. unfold late_time. destruct es as [|e es]; [done|]. rewrite last_cons_cons. by destruct (last (e :: es)) as [[? []]|] eqn:E; [|apply last_None in E]. Qed.

Lemma emits_fed m out s s' l : emits m out s s' -> s_repl s = Some l ->
  exists ks, Forall (fun k => m !! k = None) ks /\ s_repl s' = Some (l ++ dels ks ++ out) /\ drop (length (outbox s)) (outbox s') = dels ks ++ out.
Proof.
  intros (ks & Hks & _ & Hr) Hl. rewrite Hl in Hr. exists ks. split; [exact Hks|]. split; [exact Hr|]. unfold outbox. rewrite Hl, Hr. cbn. apply drop_app_length.
Qed.

(** One request of the primary, and the replica's answer to it. *)
Lemma follow_step T T1 m p r n c E E' l :
  0 <= T <= T1 -> instant E T -> orders_ok E -> instant E' T1 -> orders_ok E' -> spells E n c -> cmd_ok T c ->
  ready p -> multi_of p = false -> abs_rel T m p -> c_resp3 p = false -> s_repl p = Some l ->
  ready r -> multi_of r = false -> abs_rel T1 m r -> durable T1 m -> durable T1 (ref_cmd T false m c).2 -> replayable T T1 m c ->
  wp (request E (n :: args_of c)) p (fun _ p' =>
    abs_rel T (ref_cmd T false m c).2 p' /\ session p p' /\ is_Some (s_repl p') /\
    wp (requests ((fun argv => (E', argv)) <$> drop (length (outbox p)) (outbox p'))) r (fun _ r' => abs_rel T1 (ref_cmd T false m c).2 r' /\ session r r')).
Proof.
  intros HT Hi Ho Hi' Ho' Hn Hc Hrp Hmp Hp H3 Hl Hrr Hmr Hr Hd Hd' Hrep.
  eapply wp_mono; [eapply request_ok; [exact Hi|exact Ho|exact Hrp|exact Hmp|exact Hp|exact Hc|exact Hn]|].
  intros rep p' (_ & Hp' & HS & Hem). rewrite H3 in *. destruct (emits_fed _ _ _ _ _ Hem Hl) as (ks & Hks & Hl' & ->).
  split; [exact Hp'|]. split; [exact HS|]. split; [by rewrite Hl'|]. rewrite (sent_effect E) by done.
  set (ds := (fun k => (str "DEL", Del' [k])) <$> ks).
  assert (dels ks = argv_of <$> ds) as -> by (unfold dels, ds; rewrite <- list_fmap_compose; done).
  rewrite <- fmap_app. eapply wp_mono; [apply (requests_ok E' T1); [exact Hi'|exact Ho'|exact Hrr|exact Hmr|exact Hr|]|].
  - apply Forall_app. split; [|apply (effect_ok E'); [done| |done|done]].
    + apply Forall_fmap, Forall_forall. intros k _. split; [reflexivity|discriminate].
    + unfold spells in *. destruct (row_frozen E c) as [_ H1], (row_frozen E' c) as [_ H2]. congruence.
  - intros _ r' [Hr' HS']. split; [|exact HS']. rewrite ref_queue_app in Hr'. unfold ds in Hr'. rewrite ref_queue_dels in Hr' by exact Hks.
    rewrite effect_reproduces in Hr' by done. exact Hr'.
Qed.

Lemma follow_ok es : forall T T' m p r,
  ready p -> multi_of p = false -> abs_rel T m p -> c_resp3 p = false -> is_Some (s_repl p) ->
  ready r -> multi_of r = false -> abs_rel T' m r -> followable T T' m es ->
  exists p' r', follow es p r = Some (p', r') /\
    abs_rel (end_time T es.*1) (ref_history false m es.*1).2 p' /\ abs_rel (late_time T' es) (ref_history false m es.*1).2 r'.
Proof.
  induction es as [|[ev [E' T1]] es IH]; intros T T' m p r Hrp Hmp Hp H3 [l Hl] Hrr Hmr Hr Hes; [by exists p, r|].
  cbn [followable] in Hes. destruct Hes as ((Hi & Ho & Hn & Hc) & Hi' & Ho' & HT & HT' & Hlag & Hd & Hrep & Hes).
  rewrite late_time_cons. cbn [fmap list_fmap fst]. rewrite end_time_cons. cbn [ref_history snd].
  assert (abs_rel (ev_time ev) (expire_dataset (ev_time ev) m) p) as Hp1 by (by apply (abs_rel_later T); [lia|]).
  assert (abs_rel T1 (expire_dataset (ev_time ev) m) r) as Hr1 by (rewrite <- Hlag; by apply (abs_rel_later T')).
  destruct (follow_step (ev_time ev) T1 (expire_dataset (ev_time ev) m) p r (ev_name ev) (ev_cmd ev) (ev_env ev) E' l)
    as (rep & p' & Ep & Hp' & HSp & Hl' & rs & r' & Er & Hr' & HSr);
    [split; [apply Hi|lia]|exact Hi|exact Ho|exact Hi'|exact Ho'|exact Hn|exact Hc|exact Hrp|exact Hmp|exact Hp1|exact H3|exact Hl
    |exact Hrr|exact Hmr|exact Hr1|rewrite <- Hlag; apply expire_durable|exact Hd|exact Hrep|].
  cbn [follow]. rewrite Ep, Er.
  destruct (ready_session _ _ HSp Hrp) as [Hrp' Hmp'], (ready_session _ _ HSr Hrr) as [Hrr' Hmr'].
  apply IH; [exact Hrp'|congruence|exact Hp'|rewrite (se_resp3 _ _ HSp); exact H3|exact Hl'|exact Hrr'|congruence|exact Hr'|exact Hes].
Qed.

Lemma follower_ok T lim : limits_ok lim -> ready (follower lim) /\ multi_of (follower lim) = false /\ abs_rel T ∅ (follower lim).
Proof. intros Hl. split; [by split|]. split; [done|]. destruct (initial_abs T lim false Hl). by split. Qed.

(** C3. A replica, or a log that is loaded, ends with the primary's data. Take a history of the commands of [cmd] on a primary, and let
    another server, with thresholds of its own, execute what the primary feeds for each of them, at the same instants or later. The
    conditions are those of [followable]: no key expires between the two executions, no conditional SET is refused, no EXPIRE gives the
    deadline zero, and the relative deadlines that go out unchanged (MSETEX, a refused EXPIRE) mean the same when they are repeated. Then
    both servers end with the same dataset, the one that the history means. (Without them they need not: [late_load_loses_a_counter],
    [refused_set_nx_reaches_the_replica], [expireat_zero_deletes_on_the_replica].) *)
Theorem replica_follows lim lim' T T' es :
  limits_ok lim -> limits_ok lim' -> followable T T' ∅ es ->
  exists p r, follow es (initial lim true) (follower lim') = Some (p, r) /\
    abs_rel (end_time T es.*1) (ref_history false ∅ es.*1).2 p /\ abs_rel (late_time T' es) (ref_history false ∅ es.*1).2 r.
Proof.
  intros Hl Hl' Hes. destruct (initial_ready lim true) as [Hr Hm], (follower_ok T' lim' Hl') as (Hr' & Hm' & H').
  apply follow_ok; [exact Hr|exact Hm|by apply initial_abs|done|done|exact Hr'|exact Hm'|exact H'|exact Hes].
Qed.

(** A relative deadline, a condition that holds and a hash, followed three milliseconds late. *)
Definition followed : list (event * (env * Z)) :=
  [(mkEvent (frozen 2) 2 (str "SET") (Set' (str "k") (str "5") (XMillis 50) CNX false), (frozen 5, 5));
   (mkEvent (frozen 4) 4 (str "HINCRBY") (Hincrby (str "h") (str "f") 7), (frozen 7, 7));
   (mkEvent (frozen 6) 6 (str "PEXPIRE") (Expire KPexpire (str "k") 90 ECGT), (frozen 9, 9))].

Lemma replica_follows_witness :
  exists p r, follow followed (initial default_limits true) (follower default_limits) = Some (p, r) /\
    abs_rel 6 (ref_history false ∅ followed.*1).2 p /\ abs_rel 9 (ref_history false ∅ followed.*1).2 r.
Proof.
  apply (replica_follows default_limits default_limits 0 0 followed).
  - exact default_limits_ok.
  - exact default_limits_ok.
  - unfold followed. cbn [followable].
    repeat lazymatch goal with
    | |- _ /\ _ => split
    | |- event_ok _ => split; [by apply frozen_instant|split; [apply frozen_orders|split; [reflexivity|]]]
    | |- instant _ _ => by apply frozen_instant
    | |- orders_ok _ => apply frozen_orders
    | |- _ <= _ => by vm_compute
    | |- expire_dataset _ _ = _ => by vm_compute
    | |- durable _ _ => by vm_compute
    end.
    + split; vm_compute; [reflexivity|discriminate].
    + vm_compute. reflexivity.
    + split; vm_compute; discriminate.
    + exact I.
    + split; vm_compute; discriminate.
    + split; [intros _; discriminate|]. intros Hne. destruct Hne. vm_compute. reflexivity.
    + exact I.
Defined.

(** ** Where the two part *)

(** The value of a key, as a client of either server reads it. *)
Definition read_back (T : Z) (k : bytes) (s : St) : option bytes := fst <$> request (frozen T) [str "GET"; k] s.

(** A refused SET NX goes out without its condition: the primary keeps the old value, the replica takes the new one. *)
Example refused_set_nx_reaches_the_replica :
  (pr ← follow [(mkEvent (frozen 1) 1 (str "SET") (Set' (str "k") (str "a") XNone CAlways false), (frozen 1, 1));
                (mkEvent (frozen 2) 2 (str "SET") (Set' (str "k") (str "b") XNone CNX false), (frozen 2, 2))]
     (initial default_limits true) (follower default_limits);
   Some (read_back 3 (str "k") pr.1, read_back 3 (str "k") pr.2))
  = Some (Some (BulkString (str "a")), Some (BulkString (str "b"))).
Proof. vm_compute. reflexivity. Qed.

(** EXPIREAT with the deadline zero takes the deadline away on the primary and deletes the key on the replica. *)
Example expireat_zero_deletes_on_the_replica :
  (pr ← follow [(mkEvent (frozen 1) 1 (str "SET") (Set' (str "k") (str "a") XNone CAlways false), (frozen 1, 1));
                (mkEvent (frozen 2) 2 (str "EXPIREAT") (Expire KExpireat (str "k") 0 ECAlways), (frozen 2, 2))]
     (initial default_limits true) (follower default_limits);
   Some (read_back 3 (str "k") pr.1, read_back 3 (str "k") pr.2))
  = Some (Some (BulkString (str "a")), Some NullBulkString).
Proof. vm_compute. reflexivity. Qed.

(** A log that is loaded after a deadline: the counter lost its deadline when it was incremented, but the load drops it before it gets there. *)
Example late_load_loses_a_counter :
  (pr ← follow [(mkEvent (frozen 1) 1 (str "SET") (Set' (str "k") (str "5") (XMillis 10) CAlways false), (frozen 100, 100));
                (mkEvent (frozen 2) 2 (str "INCR") (Incr (str "k")), (frozen 100, 100))]
     (initial default_limits true) (follower default_limits);
   Some (read_back 100 (str "k") pr.1, read_back 100 (str "k") pr.2))
  = Some (Some (BulkString (str "6")), Some (BulkString (str "1"))).
Proof. vm_compute. reflexivity. Qed.
