(* ===== verification/ServerLaws.v ===== *)
(** * Laws of the server as a whole

    What follows from the refinement of [HistorySpec] for every history: what is in the keyspace is
    well typed and no collection is empty, an error leaves the data and the sinks alone, and
    counters do not wrap around. *)

From S2P Require Import Prelude Strconv Listpack Intset Quicklist Object Dict Value Db DbSpec Reply Context Strings StringSpec Generic GenericSpec.
From S2P Require Import Hashes HashSpec Sets SetSpec Lists ListSpec Bitmap Bits BitSpec Copy Dispatch Registry CommandSpec ServerSpec HistorySpec ReplicationSpec.
Local Open Scope Z_scope.

(** ** Types *)

(** The type tag, the encoding tag and the Go type behind the pointer agree; an intset is sorted, and a listpack that
    is a hash has a value for every field. *)
Definition container_typed (ty : ObjectType) (e : ObjectEncoding) (c : container) : bool :=
  match ty, e, c with
  | OBJ_LIST, OBJ_ENCODING_LISTPACK, CListpack _ => true
  | OBJ_LIST, OBJ_ENCODING_QUICKLIST, CQuicklist _ => true
  | OBJ_SET, OBJ_ENCODING_INTSET, CIntset st => bool_decide (Forall is_int64 (vals st)) && bool_decide (StronglySorted Z.lt (vals st))
  | OBJ_SET, OBJ_ENCODING_LISTPACK, CListpack _ => true
  | OBJ_SET, OBJ_ENCODING_HT, CSet _ => true
  | OBJ_HASH, OBJ_ENCODING_LISTPACK, CListpack lp => Z.even (Listpack.Len lp)
  | OBJ_HASH, OBJ_ENCODING_HT, CDict _ => true
  | _, _, _ => false
  end.

Definition well_typed (h : gmap nat container) (w : ObjectType * ObjectEncoding * payload) : bool :=
  match w with
  | (OBJ_STRING, OBJ_ENCODING_INT, PInt64 n) => bool_decide (is_int64 n)
  | (OBJ_STRING, OBJ_ENCODING_EMBSTR, PString _) => true
  | (OBJ_STRING, OBJ_ENCODING_RAW, PBytes _) => true
  | (ty, e, PRef l) => match h !! l with Some c => container_typed ty e c | None => false end
  | _ => false
  end.

Lemma flat_fields_even kvs : Z.even (zlen (flat kvs)) = true.
Proof. rewrite flat_length. by rewrite Z.even_mul. Qed.

Lemma represents_typed h w v : represents h w v -> well_typed h w = true.
Proof.
  destruct w as [[ty e] p], v as [b|xs|sm|hm]; intros [-> Hr]; cbn [type_of well_typed].
  { destruct e, p; try done. apply bool_decide_eq_true, Hr. }
  all: destruct Hr as (l & c & -> & -> & Hh); destruct e, c; try done; cbn [container_typed holds] in *.
  - destruct Hh as (Hwf & Hi & _). apply andb_true_iff. split; by apply bool_decide_eq_true.
  - destruct Hh as (kvs & Hrep & _). unfold Listpack.Len. rewrite (Listpack.repr_n _ _ Hrep). apply flat_fields_even.
Qed.

(** ** No collection is empty *)

Definition nonempty (v : rvalue) : bool :=
  match v with
  | RString _ => true
  | RList xs => bool_decide (xs <> [])
  | RSet sm => bool_decide (sm <> ∅)
  | RHash hm => bool_decide (hm <> ∅)
  end.

Definition no_empty (m : dataset) : Prop := map_Forall (fun _ x => nonempty x.1 = true) m.

Lemma no_empty_insert m k v e : no_empty m -> nonempty v = true -> no_empty (<[k := (v, e)]> m).
Proof. intros Hm Hv. by apply map_Forall_insert_2. Qed.

Lemma no_empty_delete m k : no_empty m -> no_empty (delete k m).
Proof. intros Hm. by apply map_Forall_delete. Qed.

Lemma no_empty_expire T m : no_empty m -> no_empty (expire_dataset T m).
Proof. intros Hm k x Hk. apply map_lookup_filter_Some in Hk as [Hk _]. by apply (Hm k). Qed.

Lemma no_empty_with_deadline T m k e : no_empty m -> no_empty (with_deadline T m k e).
Proof.
  intros Hm. unfold with_deadline. destruct (m !! k) as [[v e0]|] eqn:Ek; [|done]. pose proof (Hm k _ Ek) as Hv.
  destruct (alive T e); [by apply no_empty_insert|by apply no_empty_delete].
Qed.

Lemma no_empty_hash (m : dataset) (k : bytes) (hm : gmap bytes bytes) e : no_empty m -> hm <> ∅ -> no_empty (<[k := (RHash hm, e)]> m).
Proof. intros Hm Hh. apply no_empty_insert; [done|]. by apply bool_decide_eq_true. Qed.

Lemma no_empty_set (m : dataset) (k : bytes) (sm : gset bytes) e : no_empty m -> sm <> ∅ -> no_empty (<[k := (RSet sm, e)]> m).
Proof. intros Hm Hs. apply no_empty_insert; [done|]. by apply bool_decide_eq_true. Qed.

Create HintDb nonempty.
#[export] Hint Resolve no_empty_insert no_empty_delete no_empty_with_deadline : nonempty.

Lemma no_empty_foldl {A : Type} (f : dataset -> A -> dataset) l : (forall m a, no_empty m -> no_empty (f m a)) -> forall m, no_empty m -> no_empty (foldl f m l).
Proof. intros Hf. induction l as [|a l IH]; intros m Hm; [done|]. cbn. by apply IH, Hf. Qed.

Lemma no_empty_written T m k v e : no_empty m -> no_empty (written T m k v e).
Proof. intros Hm. unfold written. destruct (alive T e); eauto with nonempty. Qed.

Lemma no_empty_shrink (m : dataset) (k : bytes) (sm : gset bytes) : no_empty m -> no_empty (shrink m k sm).
Proof. intros Hm. unfold shrink. case_bool_decide; [eauto with nonempty|]. apply no_empty_insert; [done|]. by apply bool_decide_eq_true. Qed.

Lemma no_empty_SADD m k ms : ms <> [] -> no_empty m -> no_empty (ref_SADD m k ms).2.
Proof.
  intros Hms Hm. unfold ref_SADD, on_set.
  assert (forall (sm : gset bytes) e, no_empty (<[k := (RSet (list_to_set ms ∪ sm), e)]> m)) as Hput.
  { intros sm e. apply no_empty_insert; [done|]. apply bool_decide_eq_true. destruct ms as [|x ms]; [done|]. cbn [list_to_set]. set_solver. }
  destruct (m !! k) as [[[]]|]; first [apply Hput|done].
Qed.

Lemma put_fields_nonempty hm kvs n : kvs <> [] \/ hm <> ∅ -> (put_fields hm kvs n).2 <> ∅.
Proof.
  unfold put_fields. revert hm n. induction kvs as [|[f v] kvs IH]; intros hm n H; cbn; [by destruct H|].
  apply IH. right. apply insert_non_empty.
Qed.

Lemma no_empty_DEL m ks : no_empty m -> no_empty (ref_DEL m ks).2.
Proof.
  unfold ref_DEL. cbn [snd]. generalize 0. revert m. induction ks as [|k ks IH]; intros m n Hm; [done|]. cbn. by apply IH, no_empty_delete.
Qed.

Lemma no_empty_put_list (m : dataset) (k : bytes) (xs : list bytes) : no_empty m -> no_empty (put_list m k xs).
Proof. intros Hm. destruct xs; cbn [put_list]; [by apply no_empty_delete|]. by apply no_empty_insert. Qed.

Lemma no_empty_PUSH m left k vals : no_empty m -> no_empty (ref_PUSH m left k vals).2.
Proof. intros Hm. unfold ref_PUSH, on_list. destruct (m !! k) as [[[]]|]; first [by apply no_empty_put_list|done]. Qed.

#[export] Hint Resolve no_empty_written no_empty_shrink no_empty_SADD no_empty_DEL no_empty_put_list no_empty_PUSH : nonempty.

Lemma ref_cmd_no_empty T r3 m c : cmd_ok T c -> no_empty m -> no_empty (ref_cmd T r3 m c).2.
Proof.
  intros Hc Hm. assert (forall k b e, no_empty (<[k := (RString b, e)]> m)) as Hstr by (intros; by apply no_empty_insert).
  assert (forall kvs, no_empty (put_pairs m kvs)) as Hpairs.
  { intros kvs. apply no_empty_foldl; [|done]. intros. by apply no_empty_insert. }
  assert (forall T m kvs x, no_empty m -> no_empty (put_dated T m kvs x)) as Hdated.
  { intros. apply no_empty_foldl; [|done]. intros. by apply no_empty_written. }
  destruct c; cbn [ref_cmd cmd_ok] in *; try exact Hm;
    unfold ref_SET, ref_SETNX, ref_SETEX, ref_GETSET, ref_GETDEL, ref_GETEX, ref_MSET, ref_MSETNX, ref_APPEND, ref_SETRANGE,
      ref_PERSIST, ref_EXPIRE, ref_RENAME, ref_DELEX, ref_MSETEX, ref_HSET, ref_HMSET, ref_HSETNX, ref_HDEL, ref_SREM,
      ref_STORE, ref_PUSHX, ref_POP, ref_LSET, ref_LINSERT, ref_LTRIM, ref_LREM, ref_LMOVE, ref_SETBIT, ref_BITOP, ref_COPY; cbv zeta; unfold ref_INCRBY, ref_HINCRBY, on_string, on_hash, on_set, on_list; cbv zeta;
    repeat case_match; cbn [snd]; try exact Hm; try (eauto with nonempty; fail).
  all: lazymatch goal with
       | |- no_empty (<[_ := (RHash (put_fields _ _ _).2, _)]> _) => apply no_empty_hash; [assumption|]; apply put_fields_nonempty; by left
       | |- no_empty (<[_ := (RHash (<[_ := _]> _), _)]> _) => apply no_empty_hash; [assumption|]; apply insert_non_empty
       | H : bool_decide _ = false |- no_empty (<[_ := (RHash _, _)]> _) => apply no_empty_hash; [assumption|]; by apply bool_decide_eq_false in H
       | H : bool_decide _ = false |- no_empty (<[_ := (RSet _, _)]> _) => apply no_empty_set; [assumption|]; by apply bool_decide_eq_false in H
       | H : ?m !! _ = Some ?p, Hm : no_empty ?m |- no_empty (<[_ := ?p]> _) => destruct p; apply no_empty_insert; [first [assumption|by apply no_empty_delete]|exact (Hm _ _ H)]
       | |- no_empty (delete _ _) => by apply no_empty_delete
       | |- no_empty (ref_SMOVE _ _ _ _).2 => unfold ref_SMOVE, on_set; repeat case_match; first [assumption|by apply no_empty_SADD, no_empty_shrink]
       end.
Qed.

Lemma history_no_empty r3 evs : forall m, Forall event_ok evs -> no_empty m -> no_empty (ref_history r3 m evs).2.
Proof.
  induction evs as [|ev evs IH]; intros m Hev Hm; [done|]. apply Forall_cons in Hev as [(_ & _ & _ & Hc) Hev]. cbn [ref_history snd].
  apply IH; [done|]. by apply ref_cmd_no_empty, no_empty_expire.
Qed.

(** C6. The keyspace is well typed. After any history of the commands of [cmd] within their grammar, whatever the thresholds, every live
    object has a type tag, an encoding tag and a Go value behind its pointer that belong together (so no handler's type assertion can fail),
    its container is not shared with another key, and it is not an empty collection. (Streams are not among them, and may be empty:
    [refused_xadd_leaves_a_stream].) *)
Theorem keyspace_well_typed lim sinks T evs :
  limits_ok lim -> in_order T evs -> Forall event_ok evs ->
  exists rs s', serve evs (initial lim sinks) = Some (rs, s') /\
    (forall k w e, view (end_time T evs) s' k = Some (w, e) ->
       well_typed (s_heap s') w = true /\
       (exists v, represents (s_heap s') w v /\ nonempty v = true) /\
       forall k' w' e' l, k' <> k -> view (end_time T evs) s' k' = Some (w', e') -> ref_of w = Some l -> ref_of w' <> Some l).
Proof.
  intros Hl Hord Hev. destruct (initial_ready lim sinks) as [Hr Hm].
  destruct (serve_ok evs T ∅ (initial lim sinks)) as (rs & s' & Es & _ & H & _); [exact Hr|exact Hm|by apply initial_abs|exact Hord|exact Hev|].
  exists rs, s'. split; [exact Es|]. intros k w e Hk.
  assert (no_empty (ref_history (c_resp3 (initial lim sinks)) ∅ evs).2) as Hne by (apply history_no_empty; [exact Hev|apply map_Forall_empty]).
  pose proof (ar_keys _ _ _ H k) as Hv. rewrite Hk in Hv. destruct (_ !! k) as [[v e']|] eqn:Ev; [|done]. destruct Hv as (_ & Hrep & _).
  split; [by eapply represents_typed|]. split; [exists v; split; [exact Hrep|exact (Hne k _ Ev)]|].
  intros k' w' e2 l Hne' Hk' Hw Hw'. apply Hne'. exact (ar_inj _ _ _ H _ _ _ _ _ _ _ Hk' Hk Hw' Hw).
Qed.

Lemma keyspace_well_typed_witness :
  exists rs s', serve sample (initial (mkLimits 1 64 1 1 64 1 64 1) true) = Some (rs, s') /\
    forall k w e, view 9 s' k = Some (w, e) -> well_typed (s_heap s') w = true.
Proof.
  destruct (keyspace_well_typed (mkLimits 1 64 1 1 64 1 64 1) true 0 sample) as (rs & s' & Hs & Hk).
  - split; cbn; lia.
  - cbn. lia.
  - exact sample_ok.
  - exists rs, s'. split; [exact Hs|]. intros k w e Hv. exact (proj1 (Hk k w e Hv)).
Defined.

(** ** Errors *)

(** C14. A command that fails does nothing.  When the reply to one of the commands of [cmd], within its grammar, is an error (a wrong type, a missing
    key, a number out of range), the dataset is the one before it, and nothing is sent to the log or to the replicas but deletions of keys that had
    expired.  (Arguments outside of the grammar are not covered: [getex_error_sets_the_deadline].) *)
Theorem errors_change_nothing E T ex m s n c :
  instant E T -> orders_ok E -> ready s -> multi_of s = false -> abs_rel T m s -> cmd_ok T c -> spells E n c ->
  wp (Execute E (DefaultTable E ex) (n :: args_of c)) s (fun r s' => is_error r = true -> abs_rel T m s' /\ emits m [] s s').
Proof.
  intros Hi Ho Hr Hm H Hc Hn. eapply wp_mono; [eapply request_ok; [exact Hi|exact Ho|exact Hr|exact Hm|exact H|exact Hc|exact Hn]|].
  intros r s' (-> & H' & _ & Hem) Herr. revert Hem. unfold sent. rewrite Herr, !andb_false_r. intros Hem. split; [|exact Hem].
  destruct (is_write c) eqn:Hw; [|by rewrite reads_change_nothing in H'].
  destruct (write_answers T (c_resp3 s) m c Hw) as [[_ Heq]|[Hne _]]; [by rewrite Heq in H'|congruence].
Qed.

Lemma errors_change_nothing_witness :
  exists r s', Execute (frozen 5) (DefaultTable (frozen 5) (queued_request (frozen 5))) [str "rename"; str "a"; str "b"] (initial default_limits true) = Some (r, s') /\
    is_error r = true /\ abs_rel 5 ∅ s' /\ emits ∅ [] (initial default_limits true) s'.
Proof.
  destruct (errors_change_nothing (frozen 5) 5 (queued_request (frozen 5)) ∅ (initial default_limits true) (str "rename") (Rename (str "a") (str "b"))) as (r & s' & E & H).
  - by apply frozen_instant.
  - apply frozen_orders.
  - apply initial_ready.
  - apply initial_ready.
  - apply initial_abs, default_limits_ok.
  - apply (bool_decide_unpack _). vm_compute. exact I.
  - reflexivity.
  - exists r, s'. split; [exact E|]. assert (is_error r = true) as Hr; [|split; [exact Hr|exact (H Hr)]].
    apply (f_equal (fmap fst)) in E. vm_compute in E. injection E as <-. reflexivity.
Defined.

(** ** Counters *)

(** The number that a counter stands at: zero when there is none. *)
Definition counter (m : dataset) (k : bytes) : option Z := on_string m k (Some 0) ParseInt None.

(** C13. Counters do not wrap around.  INCRBY on a key that holds a 64-bit number, or on no key, answers the exact sum and
    stores its decimal text when the sum is a 64-bit number; when it is not, or when the key holds something else, the
    answer is an error and the data stay as they are. *)
Theorem counters_do_not_wrap E T ex m s n k d :
  instant E T -> orders_ok E -> ready s -> multi_of s = false -> abs_rel T m s -> is_int64 d -> toLowerASCII n = str "incrby" ->
  wp (Execute E (DefaultTable E ex) [n; k; FormatInt d]) s (fun r s' =>
    match counter m k with
    | Some old =>
      is_int64 old /\
      if bool_decide (is_int64 (old + d)) then r = Integer (old + d) /\ abs_rel T (<[k := (RString (FormatInt (old + d)), 0)]> m) s'
      else is_error r = true /\ abs_rel T m s'
    | None => is_error r = true /\ abs_rel T m s'
    end).
Proof.
  intros Hi Ho Hr Hm H Hd Hn.
  eapply wp_mono; [eapply (request_ok E T Hi Ho ex m s n (Incrby k d)); [exact Hr|exact Hm|exact H|exact Hd|exact Hn]|].
  intros r s' (-> & H' & _). revert H'. cbn [ref_cmd]. unfold ref_INCRBY, counter, on_string.
  assert (forall old, is_int64 old -> abs_rel T (if bool_decide (is_int64 (old + d)) then (Integer (old + d), <[k := (RString (FormatInt (old + d)), 0)]> m)
      else (Error (str "increment or decrement would overflow"), m)).2 s' ->
    is_int64 old /\ if bool_decide (is_int64 (old + d))
      then (if bool_decide (is_int64 (old + d)) then (Integer (old + d), <[k := (RString (FormatInt (old + d)), 0)]> m)
            else (Error (str "increment or decrement would overflow"), m)).1 = Integer (old + d) /\ abs_rel T (<[k := (RString (FormatInt (old + d)), 0)]> m) s'
      else is_error (if bool_decide (is_int64 (old + d)) then (Integer (old + d), <[k := (RString (FormatInt (old + d)), 0)]> m)
            else (Error (str "increment or decrement would overflow"), m)).1 = true /\ abs_rel T m s') as Hadd.
  { intros old Hold H'. split; [exact Hold|]. case_bool_decide; (split; [|exact H']); [reflexivity|apply Error_error]. }
  destruct (m !! k) as [[[b|x|x|x] e]|]; cbn [fst snd];
    [|intros H'; (split; [apply Error_error|exact H'])..|apply Hadd; split; vm_compute; discriminate].
  destruct (ParseInt b) as [old|] eqn:Eb; [apply Hadd; by eapply ParseInt_bounds|]. intros H'. split; [apply Error_error|exact H'].
Qed.

Lemma counters_do_not_wrap_witness :
  wp (Execute (frozen 5) (DefaultTable (frozen 5) (queued_request (frozen 5))) [str "IncrBy"; str "k"; FormatInt 9223372036854775807]) (initial default_limits true)
    (fun r s' => r = Integer 9223372036854775807 /\ abs_rel 5 {[str "k" := (RString (str "9223372036854775807"), 0)]} s').
Proof.
  eapply wp_mono; [apply (counters_do_not_wrap (frozen 5) 5 (queued_request (frozen 5)) ∅ (initial default_limits true) (str "IncrBy") (str "k") 9223372036854775807)|].
  - by apply frozen_instant.
  - apply frozen_orders.
  - apply initial_ready.
  - apply initial_ready.
  - apply initial_abs, default_limits_ok.
  - split; vm_compute; discriminate.
  - reflexivity.
  - intros r s' [_ H]. exact H.
Defined.

(** ** A request that stops the server *)

(** The sum of the number of keys and two is computed without a check; for the largest number it is negative, and slicing the
    arguments there panics.  Nothing recovers from a panic. *)
Example sintercard_numkeys_panics :
  request (frozen 5) [str "SINTERCARD"; FormatInt 9223372036854775807; str "k"] (initial default_limits true) = None.
Proof. vm_compute. reflexivity. Qed.
