(* ===== verification/Departures.v ===== *)
(** * Requests on which the server departs from its intent

    Concrete dialogues with a fresh server, run to their end.  They mark what the hypotheses of the theorems about the server exclude. *)

From S2P Require Import Prelude Object Value Db Reply Context Dispatch Registry ServerSpec HistorySpec.
Local Open Scope Z_scope.

(** One connection, all requests at the same instant. *)
Definition talk (rs : list (list bytes)) : option (list bytes * St) := requests ((fun argv => (frozen 5, argv)) <$> rs) (initial default_limits true).

(** GETEX sets the deadline before it has read all its options: it answers a syntax error, and the key has a deadline. *)
Example getex_error_sets_the_deadline :
  fst <$> talk [[str "SET"; str "k"; str "v"]; [str "GETEX"; str "k"; str "EX"; str "100"; str "FOO"]; [str "PTTL"; str "k"]] =
  Some [OK; Error (str "syntax error"); Integer 100000].
Proof. vm_compute. reflexivity. Qed.

(** After a successful write the dispatcher touches the first key only.  SMOVE changes the destination in place, LMOVE likewise, so EXEC does not
    notice that the watched key has changed. *)
Example smove_escapes_the_watch :
  fst <$> talk [[str "SADD"; str "s"; str "x"]; [str "SADD"; str "t"; str "y"]; [str "WATCH"; str "t"]; [str "SMOVE"; str "s"; str "t"; str "x"];
    [str "MULTI"]; [str "SCARD"; str "t"]; [str "EXEC"]] =
  Some [Integer 1; Integer 1; OK; Integer 1; OK; Queued; Array [Integer 2]].
Proof. vm_compute. reflexivity. Qed.

(** Only an unknown command and a wrong number of arguments poison a transaction.  A command that is refused by the access rules is answered with an
    error, and EXEC runs the rest. *)
Example refused_command_does_not_abort_exec :
  exists err, fst <$> talk [[str "ACL"; str "SETUSER"; str "default"; str "-del"]; [str "MULTI"]; [str "SET"; str "a"; str "1"]; [str "DEL"; str "a"]; [str "EXEC"]] =
    Some [OK; OK; Queued; err; Array [OK]] /\ is_error err = true.
Proof. eexists. split; vm_compute; reflexivity. Qed.

(** HSET stores an empty container, pays for that, and fills it; DEL gives back the size it has then.  The memory counter is negative with nothing
    stored, and a limit counts from there. *)
Example growing_hash_makes_the_counter_negative :
  (fun x => UsedMemory (s_db x.2)) <$> talk [[str "HSET"; str "h"; str "f"; str "aaaaaaaaaaaaaaaaaaaaaaaaaaaaaaaa"]; [str "DEL"; str "h"]] = Some (-35).
Proof. vm_compute. reflexivity. Qed.

(** The keys have different names and the same stripe: RENAME waits for the lock that it holds. *)
Example rename_within_a_stripe_hangs : talk [[str "RENAME"; str "b"; str "ic"]] = None.
Proof. vm_compute. reflexivity. Qed.
