(* ===== verification/Rewrite.v ===== *)
(** * The rewritten log ([aof/rewrite.go], [aof/aof.go] Rewrite)

    A rewrite replaces the log by commands that build the data anew: [writeEntryToRESP] turns an entry of a
    snapshot into one command for its value and, when it has a deadline, a PEXPIREAT.  The
    entries come from the shard walk of [Db].  What streams and skip lists turn into is a parameter, since
    their containers are not among those of [Value].

    [rewritten_log_restores] runs the commands on an empty server; [oversized_entry_stops_the_load] is about
    collections that do not fit into one command. *)

From S2P Require Import Prelude Strconv Request Listpack Intset Quicklist Object Dict Value Db DbSpec DbScan Aof Reply Acl Cluster Context.
From S2P Require Import Strings StringSpec Generic GenericSpec Hashes HashSpec Sets SetSpec Lists ListSpec Bitmap Bits BitSpec Dispatch Registry CommandSpec ServerSpec.
From S2P Require Import HistorySpec ReplicationSpec ServerLaws.
Local Open Scope Z_scope.

(** ** One entry *)

(** The container behind the pointer. *)
Definition container_of (h : gmap nat container) (obj : robj) : option container :=
  match o_Ptr obj with PRef l => h !! l | _ => None end.

Section entries.
Variable h : gmap nat container.
Variable dict_order : gmap bytes bytes -> list (bytes * bytes).
Variable set_order : gset bytes -> list bytes.
(** The commands for a stream, and for a sorted set that is a skip list. *)
Variable other : bytes -> robj -> list (list bytes).

Definition list_items (obj : robj) : option (list bytes) :=
  match container_of h obj with
  | Some (CListpack lp) => Listpack.All lp
  | Some (CQuicklist ql) => Quicklist.LRange ql 0 (-1)
  | _ => Some []
  end.

Definition hash_items (obj : robj) : option (list bytes) :=
  match container_of h obj with
  | Some (CListpack lp) => if 0 <? Listpack.Len lp then Listpack.All lp else Some []
  | Some (CDict d) => Some (if 0 <? dict_Len d then flat (dict_entries dict_order d) else [])
  | Some (CMap m) => Some (flat (dict_order m))
  | _ => Some []
  end.

Definition set_items (obj : robj) : option (list bytes) :=
  match container_of h obj with
  | Some (CIntset st) => Some (Intset.Members st)
  | Some (CListpack lp) => Listpack.All lp
  | Some (CSet t) => Some (set_Members set_order t)
  | Some (CSetMap m) => Some (set_order m)
  | _ => Some []
  end.

(** A command with its items, none when there are no items. *)
Definition with_items (name key : bytes) (items : list bytes) : list (list bytes) :=
  if bool_decide (items = []) then [] else [name :: key :: items].

(** ZADD takes the score before the member; the listpack holds the reverse. *)
Fixpoint swap_pairs (l : list bytes) : list bytes :=
  match l with
  | a :: b :: l => b :: a :: swap_pairs l
  | _ => []
  end.

Definition zset_commands (key : bytes) (obj : robj) : option (list (list bytes)) :=
  match container_of h obj with
  | Some (CListpack lp) =>
    if 0 <? Listpack.Len lp then all ← Listpack.All lp; Some [str "ZADD" :: key :: swap_pairs all] else Some []
  | _ => Some (other key obj)
  end.

(** The deadline, when the entry has one. *)
Definition expiry_commands (key : bytes) (expireAt : Z) : list (list bytes) :=
  if 0 <? expireAt then [[str "PEXPIREAT"; key; FormatInt expireAt]] else [].

(** [writeEntryToRESP], before the encoding. *)
Definition entry_commands (en : DBEntry (P := payload)) : option (list (list bytes)) :=
  let key := e_Key en in
  let obj := e_Val en in
  cmds ← match o_Type obj with
         | OBJ_STRING => b ← Bytes obj; Some [[str "SET"; key; b]]
         | OBJ_LIST => items ← list_items obj; Some [str "RPUSH" :: key :: items]
         | OBJ_HASH => items ← hash_items obj; Some (with_items (str "HSET") key items)
         | OBJ_SET => items ← set_items obj; Some (with_items (str "SADD") key items)
         | OBJ_ZSET => zset_commands key obj
         | OBJ_STREAM => Some (other key obj)
         | _ => Some []
         end;
  Some (cmds ++ expiry_commands key (e_ExpireAt en)).

(** The writes of an entry, up to the first that fails. *)
Fixpoint write_commands (wr : writer) (f : bytes) (cmds : list (list bytes)) : bytes * option IOError :=
  match cmds with
  | [] => (f, None)
  | argv :: cmds =>
    match wr f (encodeCommand argv) with
    | (f, Some err) => (f, Some err)
    | (f, None) => write_commands wr f cmds
    end
  end.

Definition writeEntryToRESP (wr : writer) (f : bytes) (en : DBEntry (P := payload)) : option (bytes * option IOError) :=
  cmds ← entry_commands en;
  Some (write_commands wr f cmds).

(** The callback of the walk. *)
Fixpoint write_entries (wr : writer) (f : bytes) (es : list (DBEntry (P := payload))) : bytes * option stop :=
  match es with
  | [] => (f, None)
  | en :: es =>
    match writeEntryToRESP wr f en with
    | None => (f, Some Panicked)
    | Some (f, Some err) => (f, Some (Failed err))
    | Some (f, None) => write_entries wr f es
    end
  end.

End entries.

(** The snapshot that [Rewrite] takes under the transaction lock: the bytes of the temporary file, and the error. *)
Definition rewrite_snapshot (E : env) (other : bytes -> robj -> list (list bytes)) (wr : writer) : M (bytes * option IOError) :=
  fun s =>
    let n := s_tick s in
    match ForEachShardSnapshot (orc E n) (clk E n) (s_db s)
            (write_entries (s_heap s) (dict_order E n) (set_order E n) other wr) [] with
    | (_, Some Panicked) => None
    | (f, Some (Failed err)) => Some ((f, Some err), set_tick (S n) s)
    | (f, None) => Some ((f, None), set_tick (S n) s)
    end.

(** ** What an entry turns into *)

(** How many arguments the command of a value has. *)
Definition value_args (v : rvalue) : Z :=
  match v with
  | RString _ => 3
  | RList xs => 2 + zlen xs
  | RSet sm => 2 + Z.of_nat (size sm)
  | RHash hm => 2 + 2 * Z.of_nat (size hm)
  end.

(** The strings in a value. *)
Definition value_bytes (v : rvalue) (b : bytes) : Prop :=
  match v with
  | RString s => b = s
  | RList xs => b ∈ xs
  | RSet sm => b ∈ sm
  | RHash hm => exists f x, hm !! f = Some x /\ (b = f \/ b = x)
  end.

(** The value fits into one command of the protocol. *)
Definition fits (k : bytes) (v : rvalue) : Prop :=
  value_args v <= MaxMultiBulkLength /\ zlen k <= MaxBulkLength /\ forall b, value_bytes v b -> zlen b <= MaxBulkLength.

(** One command that stores [v] at a key that is not there. *)
Record builds (k : bytes) (v : rvalue) (nc : bytes * cmd) : Prop := {
  b_ok E T : queue_ok E T nc;
  b_args : zlen (argv_of nc) = value_args v;
  b_bytes b : b ∈ argv_of nc -> b = k \/ zlen b < 10 \/ value_bytes v b;
  b_run T r3 m : m !! k = None -> (ref_cmd T r3 m nc.2).2 = <[k := (v, 0)]> m
}.

Lemma put_fields_map kvs : forall hm n, NoDup kvs.*1 -> (put_fields hm kvs n).2 = list_to_map kvs ∪ hm.
Proof.
  unfold put_fields. induction kvs as [|[f x] kvs IH]; intros hm n Hnd; [cbn; by rewrite (left_id_L ∅ (∪))|].
  apply NoDup_cons in Hnd as [Hf Hnd]. cbn [foldl fst snd]. rewrite IH by exact Hnd. rewrite list_to_map_cons.
  rewrite <- insert_union_l, insert_union_r by (by apply not_elem_of_list_to_map_1). done.
Qed.

Lemma deadline_none m k : m !! k = None -> deadline_of m k = 0.
Proof. unfold deadline_of. by intros ->. Qed.

Lemma builds_string k b : builds k (RString b) (str "SET", Set' k b XNone CAlways false).
Proof.
  split; [by split|done| |].
  - intros x. unfold argv_of. cbn [args_of fst snd]. change (set_args XNone CAlways false) with (@nil bytes). rewrite !elem_of_cons. intros [->|[->|[->|Hx]]]; [by right; left|by left|by right; right|by apply not_elem_of_nil in Hx].
  - intros T r3 m Hk. reflexivity.
Qed.

Lemma builds_list k xs : xs <> [] -> builds k (RList xs) (str "RPUSH", Push false k xs).
Proof.
  intros Hne. split; [by split| | |].
  - unfold argv_of. cbn [args_of fst snd value_args]. rewrite !zlen_cons. lia.
  - intros x. unfold argv_of. cbn [args_of fst snd]. rewrite !elem_of_cons. intros [->|[->|Hx]]; [by right; left|by left|by right; right].
  - intros T r3 m Hk. cbn [ref_cmd snd]. unfold ref_PUSH, on_list. rewrite Hk. cbn [snd pushed_all app]. unfold put_list. rewrite deadline_none by exact Hk. by destruct xs.
Qed.

Lemma builds_set (k : bytes) (ms : list bytes) (sm : gset bytes) : sm <> ∅ -> ms ≡ₚ elements sm -> builds k (RSet sm) (str "SADD", Sadd k ms).
Proof.
  intros Hne Hp. destruct (perm_to_set _ _ Hp) as [Hnd Hms]. split; [split; [done|]| | |].
  - intros ->. apply Hne. by rewrite <- Hms.
  - unfold argv_of. cbn [args_of fst snd value_args]. rewrite !zlen_cons. unfold zlen. rewrite Hp. change (length (elements sm)) with (size sm). lia.
  - intros x. unfold argv_of. cbn [args_of fst snd value_bytes]. rewrite !elem_of_cons, Hp, elem_of_elements. intros [->|[->|Hx]]; [by right; left|by left|by right; right].
  - intros T r3 m Hk. cbn [ref_cmd snd]. unfold ref_SADD, on_set. rewrite Hk. cbn [snd]. by rewrite deadline_none, Hms, (right_id_L ∅ (∪)) by exact Hk.
Qed.

Lemma elem_of_flat (b : bytes) (kvs : list (bytes * bytes)) : b ∈ flat kvs -> exists f x, (f, x) ∈ kvs /\ (b = f \/ b = x).
Proof.
  unfold flat. induction kvs as [|[f x] kvs IH]; cbn [fmap list_fmap concat app fst snd]; intros Hb; [by apply not_elem_of_nil in Hb|].
  rewrite !elem_of_cons in Hb. destruct Hb as [->|[->|Hb]].
  - exists f, x. split; [by left|by left].
  - exists f, x. split; [by left|by right].
  - destruct (IH Hb) as (f' & x' & Hkv & Hx). exists f', x'. split; [by right|exact Hx].
Qed.

Lemma builds_hash (k : bytes) (kvs : list (bytes * bytes)) (hm : gmap bytes bytes) : hm <> ∅ -> NoDup kvs.*1 -> hm = list_to_map kvs -> builds k (RHash hm) (str "HSET", Hset k kvs).
Proof.
  intros Hne Hnd ->. split; [split; [done|]| | |].
  - intros ->. by apply Hne.
  - unfold argv_of. cbn [args_of fst snd value_args]. rewrite !zlen_cons, flat_length, (map_size_list_to_map _ Hnd). unfold zlen. lia.
  - intros x. unfold argv_of. cbn [args_of fst snd value_bytes]. rewrite !elem_of_cons. intros [->|[->|Hx]]; [by right; left|by left|right; right].
    apply elem_of_flat in Hx as (f & y & Hkv & Hx). exists f, y. split; [by apply elem_of_list_to_map_1|exact Hx].
  - intros T r3 m Hk. cbn [ref_cmd snd]. unfold ref_HSET, on_hash. rewrite Hk. cbn [snd]. by rewrite deadline_none, put_fields_map, (right_id_L ∅ (∪)) by done.
Qed.

(** ** Reading an entry back from its container *)

Section reading.
Variables (E : env) (n : nat) (h : gmap nat container) (other : bytes -> robj -> list (list bytes)).
Hypothesis Ho : orders_ok E.

Local Notation entry_commands := (entry_commands h (dict_order E n) (set_order E n) other).

(** The deadline of the entry. *)
Definition dating (k : bytes) (e : Z) : list (bytes * cmd) := if 0 <? e then [(str "PEXPIREAT", Expire KPexpireat k e ECAlways)] else [].

Lemma with_items_one name key items : items <> [] -> with_items name key items = [name :: key :: items].
Proof. intros Hne. unfold with_items. by rewrite bool_decide_false. Qed.

Lemma hash_command obj hm :
  represents h (face obj) (RHash hm) -> hm <> ∅ ->
  exists kvs, hash_items h (dict_order E n) obj = Some (flat kvs) /\ NoDup kvs.*1 /\ hm = list_to_map kvs.
Proof using Ho.
  intros [_ (l & c & Ep & Hl & Hh)] Hne. unfold face in Ep. cbn in Ep. unfold hash_items, container_of. rewrite Ep, Hl. cbn [holds face] in Hh.
  destruct (o_Encoding obj), c; try done.
  - destruct Hh as [Hwf ->]. exists (dict_entries (dict_order E n) d). pose proof (dict_entries_spec _ _ (oo_dict _ Ho n) Hwf) as Hp.
    assert (NoDup (dict_entries (dict_order E n) d).*1) as Hnd by (rewrite Hp; apply NoDup_fst_map_to_list).
    split; [|split; [exact Hnd|]].
    + rewrite (proj2 (Z.ltb_lt 0 _)); [done|]. rewrite (dict_Len_spec d Hwf). destruct (decide (size (dict_map d) = 0%nat)) as [Hz|Hz]; [|lia].
      by apply map_size_empty_inv in Hz.
    + rewrite (list_to_map_proper _ _ Hnd Hp). by rewrite list_to_map_to_list.
  - destruct Hh as (kvs & Hr & _ & Hnd & ->). exists kvs. split; [|done]. rewrite (All_repr _ _ Hr). unfold Listpack.Len. rewrite (Listpack.repr_n _ _ Hr).
    rewrite (proj2 (Z.ltb_lt 0 _)); [done|]. rewrite flat_length. destruct kvs; [done|]. zlen_lia.
Qed.

Lemma set_command obj sm :
  represents h (face obj) (RSet sm) -> exists ms, set_items h (set_order E n) obj = Some ms /\ ms ≡ₚ elements sm.
Proof using Ho.
  intros [_ (l & c & Ep & Hl & Hh)]. unfold face in Ep. cbn in Ep. unfold set_items, container_of. rewrite Ep, Hl. cbn [holds face] in Hh.
  destruct (o_Encoding obj), c; try done.
  - subst sm. eexists. split; [done|]. apply Ho.
  - destruct Hh as (Hwf & Hf & ->). eexists. split; [done|]. symmetry. apply elements_list_to_set. by apply NoDup_ints; [|apply sorted_NoDup].
  - destruct Hh as (xs & Hr & _ & Hnd & ->). exists xs. split; [by apply All_repr|]. symmetry. by apply elements_list_to_set.
Qed.

Lemma list_command obj xs : represents h (face obj) (RList xs) -> list_items h obj = Some xs.
Proof.
  clear Ho. intros [_ (l & c & Ep & Hl & Hh)]. unfold face in Ep. cbn in Ep. unfold list_items, container_of. rewrite Ep, Hl. cbn [holds face] in Hh.
  destruct (o_Encoding obj), c; try done.
  - destruct Hh as (ch & Hr & <-). rewrite (LRange_repr _ _ _ _ Hr). by rewrite list_range_all.
  - destruct Hh. by apply All_repr.
Qed.

Lemma string_command obj b : represents h (face obj) (RString b) -> Bytes obj = Some b.
Proof. clear Ho other. intros [_ Hs]. unfold face in Hs. cbn in Hs. unfold Bytes. destruct (o_Encoding obj), (o_Ptr obj); naive_solver. Qed.

(** An entry is written as one command that stores its value, and one for its deadline. *)
Lemma entry_commands_ok k obj v e :
  represents h (face obj) v -> nonempty v = true ->
  exists nc, builds k v nc /\ entry_commands (mkEntry k obj e) = Some (argv_of <$> nc :: dating k e).
Proof using Ho.
  intros Hr Hne. assert (o_Type obj = type_of v) as Ht by apply Hr.
  assert (forall nc, builds k v nc -> forall x, x = Some [argv_of nc] ->
    exists nc, builds k v nc /\ (cmds ← x; Some (cmds ++ expiry_commands k e)) = Some (argv_of <$> nc :: dating k e)) as Hdone.
  { intros nc Hb x ->. exists nc. split; [exact Hb|]. go_bind. unfold dating, expiry_commands. by destruct (0 <? e). }
  unfold Rewrite.entry_commands. cbn [e_Key e_Val e_ExpireAt]. rewrite Ht.
  destruct v as [b|xs|sm|hm]; cbn [type_of nonempty] in *; try apply bool_decide_eq_true in Hne.
  - eapply Hdone; [apply builds_string|]. by rewrite (string_command _ _ Hr).
  - eapply Hdone; [by apply builds_list|]. by rewrite (list_command _ _ Hr).
  - destruct (set_command _ _ Hr) as (ms & -> & Hp). eapply Hdone; [by eapply builds_set|]. go_bind. rewrite with_items_one; [done|].
    intros ->. symmetry in Hp. apply Permutation_nil_r in Hp. apply Hne, leibniz_equiv, elements_empty_inv, Hp.
  - destruct (hash_command _ _ Hr Hne) as (kvs & -> & Hnd & ->). eapply Hdone; [by eapply builds_hash|]. go_bind. rewrite with_items_one; [done|].
    destruct kvs as [|[]]; done.
Qed.

End reading.

(** ** The walk *)

Lemma log_bytes_app cs cs' : log_bytes (cs ++ cs') = log_bytes cs ++ log_bytes cs'.
Proof. unfold log_bytes. by rewrite fmap_app, concat_app. Qed.

Lemma write_commands_ok wr f cmds : wr_ok wr -> write_commands wr f cmds = (f ++ log_bytes cmds, None).
Proof.
  intros Hwr. revert f. induction cmds as [|argv cmds IH]; intros f; [by rewrite app_nil_r|]. cbn [write_commands]. rewrite Hwr, IH.
  unfold log_bytes. cbn [fmap list_fmap concat]. by rewrite app_assoc.
Qed.

Section walking.
Variables (E : env) (n : nat) (h : gmap nat container) (other : bytes -> robj -> list (list bytes)) (wr : writer).
Hypothesis Hwr : wr_ok wr.

Local Notation entry_commands := (entry_commands h (dict_order E n) (set_order E n) other).
Local Notation write_entries := (write_entries h (dict_order E n) (set_order E n) other wr).

Definition commands_of (en : DBEntry (P := payload)) : list (list bytes) := default [] (entry_commands en).

Lemma write_entries_ok es f : Forall (fun en => is_Some (entry_commands en)) es -> write_entries f es = (f ++ log_bytes (concat (commands_of <$> es)), None).
Proof using Hwr.
  intros Hes. revert f. induction Hes as [|en es [cs Hcs] _ IH]; intros f; [by rewrite app_nil_r|].
  cbn [Rewrite.write_entries fmap list_fmap concat]. unfold writeEntryToRESP, commands_of at 1. rewrite Hcs. go_bind. rewrite write_commands_ok by done.
  rewrite IH, log_bytes_app. by rewrite app_assoc.
Qed.

Lemma walk_ok o t (db : ShardedDB payload) :
  let es := concat (imap (fun i s => shard_snapshot o (UnixMilli t) i s) (shards db)) in
  Forall (fun en => is_Some (entry_commands en)) es ->
  ForEachShardSnapshot o t db write_entries [] = (log_bytes (concat (commands_of <$> es)), None).
Proof using Hwr.
  intros es Hes. unfold ForEachShardSnapshot.
  rewrite (snapshot_loop_fold o (UnixMilli t) _ (fun f es => f ++ log_bytes (concat (commands_of <$> es))) (fun en => is_Some (entry_commands en))).
  - done.
  - intros a es' Hes'. by apply write_entries_ok.
  - intros a. cbn. apply app_nil_r.
  - intros a es1 es2. by rewrite fmap_app, concat_app, log_bytes_app, app_assoc.
  - exact Hes.
Qed.

End walking.

(** ** Running the log *)

(** An entry of the snapshot and the commands it turns into. *)
Definition written_as (m : dataset) (en : DBEntry (P := payload)) (cs : list (list bytes)) : Prop :=
  exists v nc, m !! e_Key en = Some (v, e_ExpireAt en) /\ builds (e_Key en) v nc /\ cs = argv_of <$> nc :: dating (e_Key en) (e_ExpireAt en).

Section restoring.
Variables (E' : env) (T' : Z) (m : dataset).
Hypothesis Hd : durable T' m.
Hypothesis Hb : map_Forall (fun _ x => 0 <= x.2 <= max_deadline) m.

Lemma dating_ok k v e : m !! k = Some (v, e) -> Forall (queue_ok E' T') (dating k e).
Proof using Hb.
  intros Hk. specialize (Hb k _ Hk). cbn in Hb. unfold dating. destruct (Z.ltb_spec 0 e); [|by apply Forall_nil]. apply Forall_singleton. split; [reflexivity|].
  split; [lia|apply Hb].
Qed.

Lemma restore_one r3 m0 k v e nc :
  m !! k = Some (v, e) -> builds k v nc -> m0 !! k = None -> (ref_queue T' r3 m0 (nc :: dating k e)).2 = <[k := (v, e)]> m0.
Proof using Hd Hb.
  intros Hk Hnc H0. cbn [ref_queue snd]. rewrite (b_run _ _ _ Hnc) by exact H0. specialize (Hb k _ Hk). cbn in Hb. unfold dating.
  destruct (Z.ltb_spec 0 e); [|by replace e with 0 by lia]. cbn [ref_queue ref_cmd snd expire_at]. unfold ref_EXPIRE. rewrite lookup_insert_eq. cbn [snd].
  unfold with_deadline. rewrite lookup_insert_eq, (durable_alive T' m k v e Hd Hk). by rewrite insert_insert_eq.
Qed.

Lemma restore_entries r3 es : forall css m0,
  NoDup (e_Key <$> es) -> Forall2 (written_as m) es css -> (forall k, k ∈ e_Key <$> es -> m0 !! k = None) ->
  exists cs, concat css = argv_of <$> cs /\ Forall (queue_ok E' T') cs /\
    forall k, (ref_queue T' r3 m0 cs).2 !! k = if bool_decide (k ∈ e_Key <$> es) then m !! k else m0 !! k.
Proof using Hd Hb.
  induction es as [|en es IH]; intros css m0 Hnd H2 H0.
  { apply Forall2_nil_inv_l in H2 as ->. exists []. split; [done|]. split; [by apply Forall_nil|]. intros k. by rewrite bool_decide_false by apply not_elem_of_nil. }
  apply Forall2_cons_inv_l in H2 as (c0 & css' & (v & nc & Hk & Hnc & ->) & H2 & ->). cbn [fmap list_fmap] in Hnd, H0. apply NoDup_cons in Hnd as [Hni Hnd].
  destruct (IH css' (<[e_Key en := (v, e_ExpireAt en)]> m0) Hnd H2) as (cs & Hcs & Hq & Hrun).
  { intros k Hin. rewrite lookup_insert_ne by (intros <-; done). apply H0. by right. }
  exists ((nc :: dating (e_Key en) (e_ExpireAt en)) ++ cs). split; [by rewrite fmap_app, <- Hcs|]. split.
  - apply Forall_app. split; [|exact Hq]. apply Forall_cons. split; [apply Hnc|by eapply dating_ok].
  - intros k. rewrite ref_queue_app, (restore_one _ _ _ _ _ _ Hk Hnc) by (apply H0; by left). rewrite Hrun.
    destruct (decide (k = e_Key en)) as [->|Hne].
    + rewrite (bool_decide_false _ Hni), lookup_insert_eq, bool_decide_true by by left. done.
    + rewrite lookup_insert_ne by done. erewrite bool_decide_ext; [reflexivity|]. cbn [fmap list_fmap]. rewrite elem_of_cons. naive_solver.
Qed.

Lemma written_sendable en cs : written_as m en cs -> map_Forall (fun k x => fits k x.1) m -> Forall sendable cs.
Proof using Hb.
  intros (v & nc & Hk & Hnc & ->) Hf. destruct (Hf _ _ Hk) as (Ha & Hkl & Hvb). cbn in Ha, Hvb. specialize (Hb _ _ Hk). cbn in Hb.
  assert (forall b : bytes, zlen b < 40 -> zlen b <= MaxBulkLength) as Hsmall by (unfold MaxBulkLength; lia).
  cbn [fmap list_fmap]. apply Forall_cons. split.
  - split; [done|]. split; [by rewrite (b_args _ _ _ Hnc)|]. apply Forall_forall. intros b [->|[Hs|Hv]]%(b_bytes _ _ _ Hnc); [exact Hkl|apply Hsmall; lia|by apply Hvb].
  - unfold dating. destruct (0 <? e_ExpireAt en); [|by apply Forall_nil]. apply Forall_singleton. split; [done|]. split; [by vm_compute|].
    apply Forall_cons. split; [by apply Hsmall|]. apply Forall_cons. split; [exact Hkl|]. apply Forall_singleton. apply Hsmall.
    assert (is_int64 (e_ExpireAt en)) as Hi by (replace max_deadline with 9223372036854 in Hb by (by vm_compute); unfold is_int64, min_int64, max_int64; lia). pose proof (FormatInt_length _ Hi). lia.
Qed.

End restoring.

(** ** The snapshot of a server *)

Lemma live_entry E T m s k :
  instant E T -> abs_rel T m s ->
  match m !! k with
  | Some (v, e) => exists o, GetWithTTL (clk E (s_tick s)) (s_db s) k = Some (o, e) /\ represents (s_heap s) (face o) v
  | None => GetWithTTL (clk E (s_tick s)) (s_db s) k = None
  end.
Proof.
  intros Hclk H.
  destruct (db_GetWithTTL_rule E T Hclk m s k (fun r s' => s_heap s' = s_heap s /\
    match m !! k with
    | Some (v, e) => exists o, r = Some (o, e) /\ represents (s_heap s') (face o) v /\ view T s' k = Some (face o, e)
    | None => r = None
    end) H) as (r & s' & Er & Hh & Hr); [by intros|].
  injection Er as <- _. rewrite Hh in Hr. destruct (m !! k) as [[v e]|]; [|exact Hr]. destruct Hr as (o & Hr & Hrep & _). by exists o.
Qed.

Lemma abs_rel_bounds T m s : abs_rel T m s -> map_Forall (fun _ x => 0 <= x.2 <= max_deadline) m.
Proof.
  intros H k [v e] Hk. pose proof (ar_keys _ _ _ H k) as Hkk. rewrite Hk in Hkk. destruct (view T s k) as [[]|]; [|done]. cbn. destruct Hkk as (-> & _ & He). exact He.
Qed.

Lemma snapshot_ok E T m s other wr :
  instant E T -> oracle_ok (orc E (s_tick s)) -> orders_ok E -> wr_ok wr -> abs_rel T m s -> no_empty m ->
  exists es css, rewrite_snapshot E other wr s = Some ((log_bytes (concat css), None), set_tick (S (s_tick s)) s) /\
    NoDup (e_Key <$> es) /\ (forall k, k ∈ e_Key <$> es <-> is_Some (m !! k)) /\ Forall2 (written_as m) es css.
Proof.
  intros Hclk Horc Ho Hwr H Hne. destruct (ar_db _ _ _ H) as [Hwf _].
  destruct (snapshot_entries (H := heap_size (s_heap s)) (orc E (s_tick s)) (clk E (s_tick s)) (s_db s) Horc Hwf) as [Hnd Hin].
  set (es := concat _) in *. set (f := commands_of E (s_tick s) (s_heap s) other).
  assert (Forall (fun en => written_as m en (f en) /\ is_Some (entry_commands (s_heap s) (dict_order E (s_tick s)) (set_order E (s_tick s)) other en)) es) as Hes.
  { apply Forall_forall. intros [k o e] Hen. apply Hin in Hen. pose proof (live_entry E T m s k Hclk H) as Hk. destruct (m !! k) as [[v e']|] eqn:Em; [|congruence].
    destruct Hk as (o' & Hk & Hr). rewrite Hen in Hk. injection Hk as -> ->. specialize (Hne k _ Em).
    destruct (entry_commands_ok E (s_tick s) (s_heap s) other Ho k o' v e' Hr Hne) as (nc & Hnc & Hcs). unfold f, commands_of. rewrite Hcs. split; [|done].
    by exists v, nc. }
  apply Forall_and in Hes as [Hw Hs]. exists es, (f <$> es). split_and!.
  - unfold rewrite_snapshot. cbv zeta. rewrite (walk_ok E (s_tick s) (s_heap s) other wr Hwr _ _ _ Hs). reflexivity.
  - exact Hnd.
  - intros k. pose proof (live_entry E T m s k Hclk H) as Hk. rewrite list_elem_of_fmap. split.
    + intros ([k' o e] & -> & Hen). apply Hin in Hen. cbn in *. destruct (m !! k'); [done|congruence].
    + intros [[v e] Em]. rewrite Em in Hk. destruct Hk as (o & Hk & _). exists (mkEntry k o e). split; [done|]. by apply Hin.
  - apply Forall2_fmap_r, Forall_Forall2_diag, Hw.
Qed.

Lemma rewrite_restores E T E' T' m s other wr a cs lim :
  instant E T -> oracle_ok (orc E (s_tick s)) -> orders_ok E -> instant E' T' -> orders_ok E' -> wr_ok wr -> limits_ok lim ->
  abs_rel T m s -> no_empty m -> durable T' m -> map_Forall (fun k x => fits k x.1) m ->
  buf_ok (doubleBuf a) -> Forall (queue_ok E' T') cs -> Forall sendable (argv_of <$> cs) ->
  exists snap s' a1 a2 log,
    rewrite_snapshot E other wr s = Some ((snap, None), s') /\
    feed_all wr (rw_begin a snap).1 (argv_of <$> cs) = Some a1 /\
    rw_swap wr (rw_drain a1 snap).1 (snap ++ concat (rewriteBuf a1)) = Some (a2, Idle) /\
    Load wr a2 = Some (log, None) /\
    wp (requests ((fun argv => (E', argv)) <$> log)) (follower lim) (fun _ r => abs_rel T' (ref_queue T' false m cs).2 r).
Proof.
  intros Hclk Horc Ho Hclk' Ho' Hwr Hlim H Hne Hd Hf Hbuf Hq Hs. pose proof (abs_rel_bounds _ _ _ H) as Hb.
  destruct (snapshot_ok E T m s other wr Hclk Horc Ho Hwr H Hne) as (es & css & Hsnap & Hnd & Hin & Hw).
  destruct (restore_entries E' T' m Hd Hb false es css ∅ Hnd Hw) as (cs0 & Hcs & Hq0 & Hrun); [done|].
  assert (Forall sendable (concat css)) as Hs0.
  { apply Forall_concat. clear -Hw Hb Hf. induction Hw as [|en c es css Hen _ IH]; [by apply Forall_nil|]. apply Forall_cons. split; [by eapply written_sendable|exact IH]. }
  destruct (feed_all_ok wr (rw_begin a (log_bytes (concat css))).1 (argv_of <$> cs) Hwr Hbuf Hs) as (a1 & E1 & Hb1 & _ & _ & Hr1).
  destruct (rw_swap_ok wr (rw_drain a1 (log_bytes (concat css))).1 (log_bytes (concat css) ++ concat (rewriteBuf a1)) Hwr Hb1) as (a2 & E2 & Hb2 & Hl2 & _).
  destruct (Load_log wr a2 (argv_of <$> cs0 ++ cs) [] Hwr Hb2) as (fuel & Hfuel & EL).
  { rewrite fmap_app, <- Hcs. by apply Forall_app. }
  { rewrite Hl2, Hr1, app_nil_r, fmap_app, log_bytes_app, <- Hcs. done. }
  destruct fuel; [cbn in Hfuel; lia|].
  exists (log_bytes (concat css)), (set_tick (S (s_tick s)) s), a1, a2, (argv_of <$> cs0 ++ cs). split_and!; [exact Hsnap|exact E1|exact E2|by rewrite EL|].
  destruct (follower_ok T' lim Hlim) as (Hr & Hm & H0).
  eapply wp_mono; [apply (requests_ok E' T' (cs0 ++ cs) Hclk' Ho' ∅ _ Hr Hm H0); by apply Forall_app|].
  intros _ r [Hr' _]. rewrite ref_queue_app in Hr'. cbn [c_resp3 follower] in Hr'. replace (ref_queue T' false ∅ cs0).2 with m in Hr'; [exact Hr'|].
  apply map_eq. intros k. rewrite Hrun. case_bool_decide as Hk; [done|]. rewrite lookup_empty. destruct (m !! k) eqn:Em; [|done]. destruct Hk. by apply Hin.
Qed.

(** ** Properties *)

(** C8. A rewritten log restores the data. Serve a history of the commands of [cmd] and rewrite the log at some later instant, while further
    commands [cs] are fed to it between the start of the rewrite and the drain of its buffer. Provided that every value fits into one
    command of the protocol ([fits]), the new log loads without an error, and executing it on an empty server whose thresholds may be
    different, at an instant at which no key has expired yet, gives the data at the rewrite followed by the effect of [cs]: every key, value
    and deadline. (What is fed after the drain is lost: [rewrite_window_loses_command]; what does not fit stops the load:
    [oversized_entry_stops_the_load].) *)
Theorem rewritten_log_restores lim sinks T0 evs E T E' T' other wr a cs lim' :
  limits_ok lim -> in_order T0 evs -> Forall event_ok evs ->
  instant E T -> (forall n, oracle_ok (orc E n)) -> orders_ok E -> instant E' T' -> orders_ok E' -> wr_ok wr -> limits_ok lim' ->
  let m := expire_dataset T (ref_history false ∅ evs).2 in
  end_time T0 evs <= T -> durable T' m -> map_Forall (fun k x => fits k x.1) m ->
  buf_ok (doubleBuf a) -> Forall (queue_ok E' T') cs -> Forall sendable (argv_of <$> cs) ->
  exists rs s snap s' a1 a2 log,
    serve evs (initial lim sinks) = Some (rs, s) /\
    rewrite_snapshot E other wr s = Some ((snap, None), s') /\
    feed_all wr (rw_begin a snap).1 (argv_of <$> cs) = Some a1 /\
    rw_swap wr (rw_drain a1 snap).1 (snap ++ concat (rewriteBuf a1)) = Some (a2, Idle) /\
    Load wr a2 = Some (log, None) /\
    wp (requests ((fun argv => (E', argv)) <$> log)) (follower lim') (fun _ r => abs_rel T' (ref_queue T' false m cs).2 r).
Proof.
  intros Hl Hord Hev Hclk Horc Ho Hclk' Ho' Hwr Hl' m HT Hd Hf Hbuf Hq Hs. destruct (initial_ready lim sinks) as [Hr Hm].
  destruct (serve_ok evs T0 ∅ (initial lim sinks)) as (rs & s & Es & _ & H & _); [exact Hr|exact Hm|by apply initial_abs|exact Hord|exact Hev|].
  exists rs, s. destruct (rewrite_restores E T E' T' m s other wr a cs lim') as (snap & s' & a1 & a2 & log & R); [done..| | |exact Hd|exact Hf|exact Hbuf|exact Hq|exact Hs|].
  - by eapply abs_rel_later.
  - apply no_empty_expire, history_no_empty; [exact Hev|apply map_Forall_empty].
  - exists snap, s', a1, a2, log. split; [exact Es|exact R].
Qed.

(** What fits can be seen by listing the dataset. *)
Definition fits_b (k : bytes) (v : rvalue) : bool :=
  (value_args v <=? MaxMultiBulkLength) && (zlen k <=? MaxBulkLength) &&
  match v with
  | RString b => zlen b <=? MaxBulkLength
  | RList xs => forallb (fun b => zlen b <=? MaxBulkLength) xs
  | RSet sm => forallb (fun b => zlen b <=? MaxBulkLength) (elements sm)
  | RHash hm => forallb (fun fx => (zlen fx.1 <=? MaxBulkLength) && (zlen fx.2 <=? MaxBulkLength)) (map_to_list hm)
  end.

Lemma fits_b_spec k v : fits_b k v = true -> fits k v.
Proof.
  unfold fits_b, fits. rewrite !andb_true_iff. intros [[Ha%Z.leb_le Hk%Z.leb_le] Hv]. split; [exact Ha|]. split; [exact Hk|]. intros b. destruct v as [x|xs|sm|hm]; cbn.
  - intros ->. lia.
  - intros Hb. rewrite forallb_forall in Hv. specialize (Hv b (proj1 (list_elem_of_In _ _) Hb)). lia.
  - intros Hb. rewrite forallb_forall in Hv. specialize (Hv b (proj1 (list_elem_of_In _ _) (proj2 (elem_of_elements _ _) Hb))). lia.
  - intros (f & x & Hf & Hb). rewrite forallb_forall in Hv. specialize (Hv (f, x) (proj1 (list_elem_of_In _ _) (proj2 (elem_of_map_to_list _ _ _) Hf))). cbn in Hv.
    apply andb_true_iff in Hv as [? ?]. destruct Hb; subst; lia.
Qed.

Lemma frozen_oracle T n : oracle_ok (orc (frozen T) n).
Proof. split; [intros a b; by vm_compute|intros a b m; reflexivity|intros a b m; reflexivity]. Qed.

Lemma rewritten_log_restores_witness :
  exists rs s snap s' a1 a2 log,
    serve sample (initial (mkLimits 1 64 1 1 64 1 64 1) true) = Some (rs, s) /\
    rewrite_snapshot (frozen 20) (fun _ _ => []) ex_wr s = Some ((snap, None), s') /\
    feed_all ex_wr (rw_begin (OpenAOF [] FsyncNo) snap).1 [[str "INCR"; str "k"]] = Some a1 /\
    rw_swap ex_wr (rw_drain a1 snap).1 (snap ++ concat (rewriteBuf a1)) = Some (a2, Idle) /\
    Load ex_wr a2 = Some (log, None) /\
    wp (requests ((fun argv => (frozen 30, argv)) <$> log)) (follower default_limits) (fun _ r =>
      abs_rel 30 (ref_queue 30 false (expire_dataset 20 (ref_history false ∅ sample).2) [(str "INCR", Incr (str "k"))]).2 r).
Proof.
  apply (rewritten_log_restores (mkLimits 1 64 1 1 64 1 64 1) true 0 sample (frozen 20) 20 (frozen 30) 30 (fun _ _ => []) ex_wr (OpenAOF [] FsyncNo)
    [(str "INCR", Incr (str "k"))] default_limits).
  - split; cbn; lia.
  - cbn. lia.
  - exact sample_ok.
  - by apply frozen_instant.
  - apply frozen_oracle.
  - apply frozen_orders.
  - by apply frozen_instant.
  - apply frozen_orders.
  - intros f d. reflexivity.
  - exact default_limits_ok.
  - vm_compute. discriminate.
  - vm_compute. reflexivity.
  - apply map_Forall_to_list, Forall_forall. intros [k x] Hx. apply fits_b_spec.
    assert (forallb (fun kx => fits_b kx.1 kx.2.1) (map_to_list (expire_dataset 20 (ref_history false ∅ sample).2)) = true) as Hall by (vm_compute; reflexivity).
    rewrite forallb_forall in Hall. exact (Hall (k, x) (proj1 (list_elem_of_In _ _) Hx)).
  - apply NewDoubleBuffer_ok.
  - apply Forall_singleton. split; [reflexivity|exact I].
  - apply Forall_singleton. split; [discriminate|]. split; [vm_compute; discriminate|]. repeat constructor; vm_compute; discriminate.
Defined.

(** ** Values that do not fit *)

Lemma ParseRequest_oversized a argv rest :
  MaxMultiBulkLength < zlen argv -> is_int64 (zlen argv) -> ParseRequest a (encodeCommand argv ++ rest) = PErr ErrInvalidMultiBulkLength.
Proof.
  intros Hn Hi. transitivity (parseMultiBulkRequest a (encodeCommand argv ++ rest)); [done|].
  unfold parseMultiBulkRequest. rewrite encodeCommand_app, readLine_crlf; [|rewrite not_elem_of_cons; split; [done|apply no_newline_FormatInt]].
  pose proof (FormatInt_not_nil (zlen argv)) as Hne. rewrite (proj2 (Z.ltb_ge (zlen (42 :: _)) 2)); [|destruct (FormatInt (zlen argv)); [done|zlen_lia]].
  rewrite bool_decide_eq_true_2 by done. cbn [drop negb orb]. rewrite drop_0, (ParseInt_FormatInt _ Hi), (proj2 (Z.ltb_lt _ _)) by lia. by rewrite orb_true_r.
Qed.

(** A collection of more elements than the protocol allows in a command makes the rewritten log useless: it is written as one
    command all the same, and the load stops there with an error, having executed only the commands before it; the server does not start
    with such a log. *)
Theorem oversized_entry_stops_the_load E n h other wr policy before k obj v e rest :
  orders_ok E -> wr_ok wr -> represents h (face obj) v -> nonempty v = true ->
  MaxMultiBulkLength < value_args v -> is_int64 (value_args v) -> Forall sendable before ->
  exists out, writeEntryToRESP h (dict_order E n) (set_order E n) other wr (log_bytes before) (mkEntry k obj e) = Some (out, None) /\
    Load wr (OpenAOF (out ++ rest) policy) = Some (before, Some ErrInvalidMultiBulkLength).
Proof.
  intros Ho Hwr Hr Hne Hv Hi Hb. destruct (entry_commands_ok E n h other Ho k obj v e Hr Hne) as (nc & Hnc & Hcs).
  unfold writeEntryToRESP. rewrite Hcs. go_bind. rewrite write_commands_ok by exact Hwr. eexists. split; [reflexivity|].
  rewrite <- (b_args _ _ _ Hnc) in Hv, Hi. cbn [fmap list_fmap]. set (more := argv_of <$> _). 
  destruct (Load_log wr (OpenAOF ((log_bytes before ++ log_bytes (argv_of nc :: more)) ++ rest) policy) before (encodeCommand (argv_of nc) ++ log_bytes more ++ rest))
    as (fuel & Hfuel & ->); [exact Hwr|apply NewDoubleBuffer_ok|exact Hb| |].
  - unfold log_of, OpenAOF. cbn [a_file doubleBuf]. rewrite (pending_empty (NewDoubleBuffer DefaultBufferSize)), app_nil_r by done.
    unfold log_bytes at 2. cbn [fmap list_fmap concat]. by rewrite <- !app_assoc.
  - destruct fuel; [lia|]. cbn [load_loop]. by rewrite ParseRequest_oversized.
Qed.

(** A set of a million and more numbers. *)
Lemma big_set : exists sm : gset bytes, value_args (RSet sm) = 1100002.
Proof.
  exists (list_to_set (FormatInt <$> seqZ 0 1100000)). unfold value_args. rewrite size_list_to_set, length_fmap, length_seqZ; [lia|].
  apply NoDup_fmap_2_strong; [|apply NoDup_seqZ]. intros x y Hx Hy Heq. apply elem_of_seqZ in Hx, Hy.
  assert (forall z, 0 <= z < 0 + 1100000 -> is_int64 z) as Hi by (unfold is_int64, min_int64, max_int64; lia).
  pose proof (ParseInt_FormatInt _ (Hi _ Hx)) as Px. rewrite Heq, (ParseInt_FormatInt _ (Hi _ Hy)) in Px. congruence.
Qed.

Lemma oversized_entry_stops_the_load_witness :
  exists (sm : gset bytes) out,
    value_args (RSet sm) = 1100002 /\
    writeEntryToRESP {[0%nat := CSet (mkSet sm)]} (dict_order (frozen 0) 0) (set_order (frozen 0) 0) (fun _ _ => []) ex_wr (log_bytes ex_cmds)
      (mkEntry (str "s") (mkRobj OBJ_SET OBJ_ENCODING_HT 0 (PRef 0)) 0) = Some (out, None) /\
    Load ex_wr (OpenAOF (out ++ []) FsyncNo) = Some (ex_cmds, Some ErrInvalidMultiBulkLength).
Proof.
  destruct big_set as [sm Hsm]. exists sm.
  destruct (oversized_entry_stops_the_load (frozen 0) 0 {[0%nat := CSet (mkSet sm)]} (fun _ _ => []) ex_wr FsyncNo ex_cmds (str "s")
    (mkRobj OBJ_SET OBJ_ENCODING_HT 0 (PRef 0)) (RSet sm) 0 []) as (out & Hout & Hload).
  - apply frozen_orders.
  - intros f d. reflexivity.
  - split; [reflexivity|]. exists 0%nat, (CSet (mkSet sm)). split; [reflexivity|]. split; [apply lookup_singleton_eq|reflexivity].
  - apply bool_decide_eq_true. intros ->. discriminate Hsm.
  - rewrite Hsm. reflexivity.
  - rewrite Hsm. split; vm_compute; discriminate.
  - exact ex_cmds_sendable.
  - exists out. split; [exact Hsm|]. split; [exact Hout|exact Hload].
Defined.
