(* ===== verification/Crc64.v ===== *)
(** * The checksum of snapshots and dumps ([rdb/crc64.go])

    [CRC64] is the table-driven routine of the code.  It is shown to divide the message by the polynomial bit by
    bit ([CRC64_steps]), from which it follows that it detects every change that is confined to eight
    consecutive bytes. *)

From S2P Require Import Prelude.
Local Open Scope Z_scope.

(** ** The code *)

Definition crc64Poly : Z := 0xad93d23594c935a9.

(** One turn of the inner loop of [init]. *)
Definition crc_step (crc : Z) : Z :=
  if Z.land crc 1 =? 1 then Z.lxor (Z.shiftr crc 1) crc64Poly else Z.shiftr crc 1.

Definition crc64Table : list Z := (fun i => Nat.iter 8 crc_step i) <$> seqZ 0 256.

(** The index is a byte, so it is in the table. *)
Definition CRC64 (crc : Z) (data : bytes) : Z :=
  fold_left (fun crc b => Z.lxor (crc64Table !!! Z.to_nat (Z.lxor (u8 crc) (u8 b))) (Z.shiftr crc 8)) data crc.

(** ** Division by the polynomial *)

Lemma crc_step_bit crc : crc_step crc = Z.lxor (Z.shiftr crc 1) (if Z.testbit crc 0 then crc64Poly else 0).
Proof.
  unfold crc_step. rewrite Z.bit0_odd. change 1 with (Z.ones 1) at 1. rewrite Z.land_ones by lia. change (2 ^ 1) with 2.
  rewrite Zmod_odd. destruct (Z.odd crc); [done|]. by rewrite Z.lxor_0_r.
Qed.

Lemma crc_step_lxor a b : crc_step (Z.lxor a b) = Z.lxor (crc_step a) (crc_step b).
Proof.
  rewrite !crc_step_bit, Z.shiftr_lxor, Z.lxor_spec. apply Z.bits_inj'. intros n Hn. rewrite !Z.lxor_spec.
  destruct (Z.testbit a 0), (Z.testbit b 0); cbn [xorb]; rewrite ?Z.bits_0;
    destruct (Z.testbit (Z.shiftr a 1) n), (Z.testbit (Z.shiftr b 1) n), (Z.testbit crc64Poly n); reflexivity.
Qed.

Lemma crc_step_double x : crc_step (2 * x) = x.
Proof. rewrite crc_step_bit, Z.testbit_even_0, Z.lxor_0_r, Z.shiftr_div_pow2 by lia. change (2 ^ 1) with 2. rewrite Z.mul_comm. by apply Z.div_mul. Qed.

Notation steps n := (Nat.iter n crc_step).

Lemma steps_lxor n a b : steps n (Z.lxor a b) = Z.lxor (steps n a) (steps n b).
Proof. induction n as [|n IH]; [done|]. rewrite !Nat.iter_succ, IH. apply crc_step_lxor. Qed.

Lemma steps_shift n x : steps n (Z.shiftl x (Z.of_nat n)) = x.
Proof.
  revert x. induction n as [|n IH]; intros x; [cbn; apply Z.shiftl_0_r|]. rewrite Nat.iter_succ_r.
  replace (Z.shiftl x (Z.of_nat (S n))) with (2 * Z.shiftl x (Z.of_nat n)); [by rewrite crc_step_double|].
  rewrite !Z.shiftl_mul_pow2, Nat2Z.inj_succ, Z.pow_succ_r by lia. lia.
Qed.

Lemma steps_0 n : steps n 0 = 0.
Proof. induction n as [|n IH]; [done|]. by rewrite Nat.iter_succ, IH. Qed.

(** A number is its low byte and the rest. *)
Lemma low_byte x : x = Z.lxor (u8 x) (Z.shiftl (Z.shiftr x 8) 8).
Proof.
  apply Z.bits_inj'. intros n Hn. unfold u8. rewrite <- Z.land_ones by lia. rewrite Z.lxor_spec, Z.land_spec, Z.testbit_ones_nonneg by lia.
  destruct (Z.ltb_spec n 8).
  - rewrite Z.shiftl_spec_low by lia. by rewrite andb_true_r, xorb_false_r.
  - rewrite Z.shiftl_spec, Z.shiftr_spec by lia. rewrite andb_false_r, xorb_false_l. f_equal. lia.
Qed.

Lemma steps8_shift x : steps 8 (Z.shiftl x 8) = x.
Proof. exact (steps_shift 8 x). Qed.

(** A byte is taken in, the rest moves down. *)
Lemma steps_byte crc b : steps 8 (Z.lxor crc b) = Z.lxor (steps 8 (Z.lxor (u8 crc) b)) (Z.shiftr crc 8).
Proof.
  rewrite (low_byte crc) at 1. rewrite Z.lxor_assoc, (Z.lxor_comm _ b), <- Z.lxor_assoc, steps_lxor. f_equal. apply steps8_shift.
Qed.

Lemma table_entry i : is_byte i -> crc64Table !!! Z.to_nat i = steps 8 i.
Proof.
  intros Hi. unfold is_byte in Hi. apply list_lookup_total_correct. unfold crc64Table. rewrite list_lookup_fmap.
  rewrite lookup_seqZ_lt by lia. cbn. by rewrite Z2Nat.id by lia.
Qed.

Lemma lxor_bound a b n : 0 <= n -> 0 <= a < 2 ^ n -> 0 <= b < 2 ^ n -> 0 <= Z.lxor a b < 2 ^ n.
Proof. intros Hn Ha Hb. apply bits_bound; [done|]. intros i Hi. by rewrite Z.lxor_spec, (testbit_small a n), (testbit_small b n). Qed.

(** The message, its first byte being the lowest. *)
Fixpoint le_value (data : bytes) : Z :=
  match data with
  | [] => 0
  | b :: data => Z.lxor b (Z.shiftl (le_value data) 8)
  end.

(** The routine divides the whole message, bit by bit. *)
Lemma CRC64_steps data : forall crc, is_bytes data -> CRC64 crc data = steps (8 * length data) (Z.lxor crc (le_value data)).
Proof.
  induction data as [|b data IH]; intros crc Hd; [cbn; by rewrite Z.lxor_0_r|]. apply Forall_cons in Hd as [Hb Hd].
  unfold CRC64. cbn [fold_left]. rewrite (u8_id b Hb). fold (CRC64 (Z.lxor (crc64Table !!! Z.to_nat (Z.lxor (u8 crc) b)) (Z.shiftr crc 8)) data).
  rewrite IH by exact Hd. cbn [length le_value]. replace (8 * S (length data))%nat with (8 * length data + 8)%nat by lia. rewrite Nat.iter_add. f_equal.
  rewrite table_entry by (apply (lxor_bound _ _ 8); [lia|apply u8_range|exact Hb]).
  rewrite <- steps_byte, <- Z.lxor_assoc, (steps_lxor 8 _ (Z.shiftl _ 8)). f_equal. symmetry. apply steps8_shift.
Qed.

Lemma CRC64_app crc d d' : CRC64 crc (d ++ d') = CRC64 (CRC64 crc d) d'.
Proof. unfold CRC64. apply fold_left_app. Qed.

(** ** Width *)

Definition is_word (x : Z) : Prop := 0 <= x < 2 ^ 64.

Lemma crc_step_word x : is_word x -> is_word (crc_step x).
Proof.
  intros Hx. unfold is_word in *. rewrite crc_step_bit. apply lxor_bound; [lia| |destruct (Z.testbit x 0); [by vm_compute|lia]].
  rewrite Z.shiftr_div_pow2 by lia. change (2 ^ 1) with 2. split; [apply Z.div_pos; lia|]. apply Z.div_lt_upper_bound; lia.
Qed.

Lemma steps_word n x : is_word x -> is_word (steps n x).
Proof. intros Hx. induction n as [|n IH]; [done|]. rewrite Nat.iter_succ. by apply crc_step_word. Qed.

Lemma CRC64_word data : forall crc, is_word crc -> is_word (CRC64 crc data).
Proof.
  induction data as [|b data IH]; intros crc Hc; [done|]. unfold CRC64. cbn [fold_left]. apply IH.
  rewrite table_entry by (apply (lxor_bound _ _ 8); [lia|apply u8_range..]). rewrite <- steps_byte. apply steps_word.
  apply lxor_bound; [lia|exact Hc|]. pose proof (u8_range b) as Hb. unfold is_byte in Hb. lia.
Qed.

(** ** Detection *)

(** Nothing but zero is divided to zero: the polynomial has its highest bit. *)
Lemma crc_step_zero x : is_word x -> crc_step x = 0 -> x = 0.
Proof.
  intros Hx H. unfold is_word in Hx. rewrite crc_step_bit in H. apply Z.lxor_eq in H.
  assert (Z.shiftr x 1 = x / 2) as Hs by (rewrite Z.shiftr_div_pow2 by lia; done). rewrite Hs, Z.bit0_odd in H.
  destruct (Z.odd x) eqn:Ho.
  - assert (x / 2 < 2 ^ 63) by (apply Z.div_lt_upper_bound; lia). assert (2 ^ 63 <= crc64Poly) by (by vm_compute). lia.
  - pose proof (Zmod_odd x) as Hm. rewrite Ho in Hm. pose proof (Z.div_mod x 2). lia.
Qed.

Lemma steps_zero n x : is_word x -> steps n x = 0 -> x = 0.
Proof.
  intros Hx. induction n as [|n IH]; [done|]. rewrite Nat.iter_succ. intros H%crc_step_zero; [auto|by apply steps_word].
Qed.

Lemma le_value_bound data : is_bytes data -> 0 <= le_value data < 2 ^ (8 * zlen data).
Proof.
  induction 1 as [|b data Hb _ IH]; [done|]. cbn [le_value]. unfold is_byte in Hb. rewrite zlen_cons.
  assert (0 <= zlen data) by apply zlen_nonneg.
  apply lxor_bound; [lia| |].
  - split; [lia|]. assert (2 ^ 8 <= 2 ^ (8 * (1 + zlen data))) by (apply Z.pow_le_mono_r; lia). lia.
  - rewrite Z.shiftl_mul_pow2 by lia. replace (2 ^ (8 * (1 + zlen data))) with (2 ^ (8 * zlen data) * 2 ^ 8) by (rewrite <- Z.pow_add_r by lia; f_equal; lia). lia.
Qed.

Lemma le_value_inj d : forall d', is_bytes d -> is_bytes d' -> length d = length d' -> le_value d = le_value d' -> d = d'.
Proof.
  assert (forall b v, is_byte b -> u8 (Z.lxor b (Z.shiftl v 8)) = b /\ Z.shiftr (Z.lxor b (Z.shiftl v 8)) 8 = v) as Hsplit.
  { intros b v Hb. split; apply Z.bits_inj'; intros n Hn.
    - unfold u8. rewrite <- Z.land_ones, Z.land_spec, Z.testbit_ones_nonneg, Z.lxor_spec by lia. destruct (Z.ltb_spec n 8).
      + by rewrite Z.shiftl_spec_low, xorb_false_r, andb_true_r by lia.
      + rewrite andb_false_r. symmetry. by apply (testbit_small b 8).
    - rewrite Z.shiftr_spec, Z.lxor_spec, (testbit_small b 8), Z.shiftl_spec by (done || lia). rewrite xorb_false_l. f_equal. lia. }
  induction d as [|b d IH]; intros [|b' d'] Hd Hd' Hl He; try done. apply Forall_cons in Hd as [Hb Hd], Hd' as [Hb' Hd']. cbn [le_value] in He.
  destruct (Hsplit b (le_value d) Hb) as [H1 H2], (Hsplit b' (le_value d') Hb') as [H1' H2']. rewrite He, H1' in H1. rewrite He, H2' in H2. 
  f_equal; [done|]. apply IH; [done..|by injection Hl|done].
Qed.

(** Different states stay different, whatever follows. *)
Lemma CRC64_inj data c c' : is_word c -> is_word c' -> is_bytes data -> CRC64 c data = CRC64 c' data -> c = c'.
Proof.
  intros Hc Hc' Hd H. rewrite !CRC64_steps in H by exact Hd. rewrite !steps_lxor in H. apply Z.lxor_eq.
  apply (f_equal (fun z => Z.lxor z (steps (8 * length data) (le_value data)))) in H. rewrite !Z.lxor_assoc, Z.lxor_nilpotent, !Z.lxor_0_r in H.
  apply (steps_zero (8 * length data)); [by apply lxor_bound|]. rewrite steps_lxor, H. apply Z.lxor_nilpotent.
Qed.

(** A change that is confined to eight consecutive bytes changes the checksum. *)
Lemma CRC64_detects c p x y q :
  is_word c -> is_bytes p -> is_bytes x -> is_bytes y -> is_bytes q -> length x = length y -> zlen x <= 8 -> x <> y ->
  CRC64 c (p ++ x ++ q) <> CRC64 c (p ++ y ++ q).
Proof.
  intros Hc Hp Hx Hy Hq Hl Hn Hne H. rewrite !CRC64_app in H. set (c1 := CRC64 c p) in *. assert (is_word c1) as Hc1 by by apply CRC64_word.
  apply CRC64_inj in H; [|by apply CRC64_word|by apply CRC64_word|exact Hq]. rewrite !CRC64_steps, !steps_lxor, Hl in H by done. apply Hne, le_value_inj; [done..|].
  apply (f_equal (Z.lxor (steps (8 * length y) c1))) in H. rewrite <- !Z.lxor_assoc, Z.lxor_nilpotent, !Z.lxor_0_l in H.
  assert (forall z, is_bytes z -> zlen z <= 8 -> is_word (le_value z)) as Hw.
  { intros z Hz Hz8. pose proof (le_value_bound z Hz). assert (2 ^ (8 * zlen z) <= 2 ^ 64) by (apply Z.pow_le_mono_r; lia). unfold is_word. lia. }
  apply Z.lxor_eq, (steps_zero (8 * length y)); [apply lxor_bound; [lia|by apply Hw|apply Hw; [done|unfold zlen in *; lia]]|].
  rewrite steps_lxor, H. apply Z.lxor_nilpotent.
Qed.

(** ** Not the checksum of Redis *)

(** A bit-by-bit division, lowest bit first, by any polynomial. *)
Definition divide (poly : Z) (data : bytes) : Z :=
  fold_left (fun crc b => Nat.iter 8 (fun c => if Z.testbit c 0 then Z.lxor (Z.shiftr c 1) poly else Z.shiftr c 1) (Z.lxor crc b)) data 0.

(** The table is built lowest bit first, which calls for the polynomial with its bits reversed; the code has it unreversed.
    Redis documents [0xe9c6d914c4b8d9ca] for the nine digits. *)
Example crc64_differs_from_redis :
  CRC64 0 (str "123456789") = 0xcf228cf2176e85ed /\
  divide crc64Poly (str "123456789") = 0xcf228cf2176e85ed /\
  divide 0x95ac9329ac4bc9b5 (str "123456789") = 0xe9c6d914c4b8d9ca /\
  forallb (fun i => Bool.eqb (Z.testbit crc64Poly i) (Z.testbit 0x95ac9329ac4bc9b5 (63 - i))) (seqZ 0 64) = true.
Proof. vm_compute. done. Qed.
