(* ===== verification/Rdb.v ===== *)
(** * The snapshot format ([rdb/encode.go], [rdb/decode.go], [rdb/rdb.go], [rdb/types.go])

    The encoder writes through a checksum; the decoder reads through one.  Both are small monads over the bytes
    written and the bytes left: an encoder stops at the first failed write, a decoder at the first error, and a
    decoder may panic when it is told to allocate more than the runtime can.

    [puts] and [yields] say what an encoder writes and what a decoder makes of it; lengths, strings (compressed ones
    included) and the bodies of all values are shown to come back as they were written. *)

From S2P Require Import Prelude Strconv Listpack Intset Quicklist Object Dict Value Lzf Aof Crc64.
Local Open Scope Z_scope.

(** ** Bytes of an integer *)

Fixpoint PutLE (n : nat) (z : Z) : bytes :=
  match n with O => [] | S n => u8 z :: PutLE n (Z.shiftr z 8) end.
Definition PutBE (n : nat) (z : Z) : bytes := rev (PutLE n z).
Definition UintLE (b : bytes) : Z := foldr (fun x acc => x + 256 * acc) 0 b.
Definition UintBE (b : bytes) : Z := UintLE (rev b).

Lemma PutLE_length n : forall z, length (PutLE n z) = n.
Proof. induction n as [|n IH]; intros z; [done|]. cbn. by rewrite IH. Qed.

Lemma PutLE_bytes n : forall z, is_bytes (PutLE n z).
Proof. induction n as [|n IH]; intros z; [by apply Forall_nil|]. apply Forall_cons. split; [apply u8_range|apply IH]. Qed.

Lemma UintLE_PutLE n : forall z, 0 <= z < 2 ^ (8 * Z.of_nat n) -> UintLE (PutLE n z) = z.
Proof.
  induction n as [|n IH]; intros z Hz; [cbn in Hz; change (2 ^ 0) with 1 in Hz; cbn; lia|].
  cbn [PutLE UintLE foldr]. fold (UintLE (PutLE n (Z.shiftr z 8))). rewrite Z.shiftr_div_pow2 by lia. change (2 ^ 8) with 256. rewrite IH.
  - unfold u8. change (2 ^ 8) with 256. pose proof (Z.div_mod z 256). lia.
  - replace (8 * Z.of_nat (S n)) with (8 * Z.of_nat n + 8) in Hz by lia. rewrite Z.pow_add_r in Hz by lia. change (2 ^ 8) with 256 in Hz.
    split; [apply Z.div_pos; lia|]. apply Z.div_lt_upper_bound; lia.
Qed.

Lemma PutBE_length n z : length (PutBE n z) = n.
Proof. unfold PutBE. by rewrite length_rev, PutLE_length. Qed.

Lemma PutBE_bytes n z : is_bytes (PutBE n z).
Proof. apply Forall_rev, PutLE_bytes. Qed.

Lemma UintBE_PutBE n z : 0 <= z < 2 ^ (8 * Z.of_nat n) -> UintBE (PutBE n z) = z.
Proof. intros Hz. unfold UintBE, PutBE. rewrite rev_involutive. by apply UintLE_PutLE. Qed.

(** ** Constants *)

Definition RDBVersion : Z := 9.
Definition OpcodeAux : Z := 250.
Definition OpcodeResizeDB : Z := 251.
Definition OpcodeExpireTimeMs : Z := 252.
Definition OpcodeExpireTimeSec : Z := 253.
Definition OpcodeSelectDB : Z := 254.
Definition OpcodeEOF : Z := 255.
Definition TypeString : Z := 0.
Definition TypeList : Z := 1.
Definition TypeSet : Z := 2.
Definition TypeZSet : Z := 3.
Definition TypeHash : Z := 4.
Definition TypeZSet2 : Z := 5.
Definition TypeListQuicklist : Z := 14.
Definition Enc32BitLen : Z := 0x80.
Definition Enc64BitLen : Z := 0x81.
Definition EncVal : Z := 3.
Definition EncInt8 : Z := 0.
Definition EncInt16 : Z := 1.
Definition EncInt32 : Z := 2.
Definition EncLZF : Z := 3.

(** ** Encoder *)

Record Encoder := mkEncoder { enc_w : bytes; enc_crc : Z }.

Definition NewEncoder : Encoder := mkEncoder [] 0.

(** A step of the encoder, and what stopped it. *)
Definition EncM : Type := Encoder -> Encoder * option stop.

Definition enc_skip : EncM := fun e => (e, None).
Definition enc_panic : EncM := fun e => (e, Some Panicked).
Definition enc_seq (a b : EncM) : EncM := fun e =>
  match a e with
  | (e, Some err) => (e, Some err)
  | (e, None) => b e
  end.
(** The error of a step that is dropped. *)
Definition enc_try (a : EncM) : EncM := fun e =>
  match a e with
  | (e, Some Panicked) => (e, Some Panicked)
  | (e, _) => (e, None)
  end.
Declare Scope enc_scope.
Delimit Scope enc_scope with enc.
Notation "a ;; b" := (enc_seq a b) (at level 100, b at level 200, right associativity) : enc_scope.

Section encoder.
Variable wr : writer.
Local Open Scope enc_scope.

Definition writeRaw (b : bytes) : EncM := fun e =>
  let crc := CRC64 (enc_crc e) b in
  match wr (enc_w e) b with
  | (w, Some err) => (mkEncoder w crc, Some (Failed err))
  | (w, None) => (mkEncoder w crc, None)
  end.

Definition writeByte (b : Z) : EncM := writeRaw [b].

Definition WriteHeader : EncM := writeRaw (str "REDIS0009").

Definition WriteLen (length : Z) : EncM :=
  if length <? Z.shiftl 1 6 then writeByte (u8 (Z.land length 0x3F))
  else if length <? Z.shiftl 1 14 then
    writeRaw [u8 (Z.lor (Z.land (Z.shiftr length 8) 0x3F) 0x40); u8 (Z.land length 0xFF)]
  else if length <=? 2 ^ 32 - 1 then writeRaw (Enc32BitLen :: PutBE 4 (u32 length))
  else writeRaw (Enc64BitLen :: PutBE 8 length).

Definition write_plain (data : bytes) : EncM := WriteLen (zlen data);; writeRaw data.

Definition WriteString (data : bytes) : EncM :=
  if 20 <=? zlen data then
    match Lzf.Compress data with
    | None => enc_panic
    | Some (Some compressed) =>
      writeByte (u8 (Z.lor (Z.shiftl EncVal 6) EncLZF));;
      WriteLen (zlen compressed);; WriteLen (zlen data);; writeRaw compressed
    | Some None => write_plain data
    end
  else write_plain data.

Definition WriteAux (key val : bytes) : EncM := writeByte OpcodeAux;; WriteString key;; WriteString val.

Definition WriteSelectDB (dbIndex : Z) : EncM := writeByte OpcodeSelectDB;; WriteLen dbIndex.

Definition WriteResizeDB (dbSize expiresSize : Z) : EncM :=
  writeByte OpcodeResizeDB;; WriteLen dbSize;; WriteLen expiresSize.

Fixpoint write_strings (items : list bytes) : EncM :=
  match items with
  | [] => enc_skip
  | item :: items => WriteString item;; write_strings items
  end.

(** Type, key, length and items of a collection. *)
Definition write_collection (typ : Z) (key : bytes) (n : Z) (items : list bytes) : EncM :=
  writeByte typ;; WriteString key;; WriteLen n;; write_strings items.

Section entries.
Variable h : gmap nat container.
Variable dict_order : gmap bytes bytes -> list (bytes * bytes).
Variable set_order : gset bytes -> list bytes.
(** The members of a skip list, by rank, each with its formatted score; [None] when the pointer is no skip list. *)
Variable zset_pairs : robj -> option (list (bytes * bytes)).

Definition WriteObject (key : bytes) (obj : robj) : EncM :=
  let c := match o_Ptr obj with PRef l => h !! l | _ => None end in
  match o_Type obj with
  | OBJ_STRING =>
    match Value.Bytes obj with
    | None => enc_panic
    | Some b => writeByte TypeString;; WriteString key;; WriteString b
    end
  | OBJ_LIST =>
    match c with
    | Some (CListpack lp) =>
      match Listpack.All lp with Some items => write_collection TypeList key (zlen items) items | None => enc_panic end
    | Some (CQuicklist ql) =>
      match Quicklist.LRange ql 0 (-1) with Some items => write_collection TypeList key (zlen items) items | None => enc_panic end
    | _ => enc_skip
    end
  | OBJ_SET =>
    match c with
    | Some (CIntset st) => let members := Intset.Members st in write_collection TypeSet key (zlen members) members
    | Some (CListpack lp) =>
      match Listpack.All lp with Some members => write_collection TypeSet key (zlen members) members | None => enc_panic end
    | Some (CSet t) => let members := set_Members set_order t in write_collection TypeSet key (zlen members) members
    | Some (CSetMap m) => let members := set_order m in write_collection TypeSet key (zlen members) members
    | _ => enc_skip
    end
  | OBJ_HASH =>
    match c with
    | Some (CListpack lp) =>
      match Listpack.All lp with Some items => write_collection TypeHash key (Z.quot (Listpack.Len lp) 2) items | None => enc_panic end
    | Some (CDict d) => write_collection TypeHash key (dict_Len d) (flat (dict_entries dict_order d))
    | Some (CMap m) => write_collection TypeHash key (Z.of_nat (size m)) (flat (dict_order m))
    | _ => enc_skip
    end
  | OBJ_ZSET =>
    match c with
    | Some (CListpack lp) =>
      match Listpack.All lp with Some items => write_collection TypeZSet key (Z.quot (Listpack.Len lp) 2) items | None => enc_panic end
    | _ =>
      match zset_pairs obj with
      | None => enc_skip
      | Some elements => write_collection TypeZSet key (zlen elements) (flat elements)
      end
    end
  | _ => enc_skip
  end.

Definition WriteEntry (key : bytes) (obj : robj) (expireAt : Z) : EncM :=
  (if 0 <? expireAt then writeByte OpcodeExpireTimeMs;; writeRaw (PutLE 8 (u64 expireAt)) else enc_skip);;
  WriteObject key obj.

End entries.

Definition WriteFooter : EncM :=
  writeByte OpcodeEOF;;
  fun e =>
    match wr (enc_w e) (PutLE 8 (enc_crc e)) with
    | (w, Some err) => (mkEncoder w (enc_crc e), Some (Failed err))
    | (w, None) => (mkEncoder w (enc_crc e), None)
    end.

(** [unix] is the clock in seconds. *)
Definition WriteStandardAuxFields (unix : Z) : EncM :=
  enc_try (WriteAux (str "redis-ver") (str "7.2.0"));;
  enc_try (WriteAux (str "redis-bits") (str "64"));;
  enc_try (WriteAux (str "ctime") (FormatInt unix)).

End encoder.

(** ** Decoder *)

Inductive RdbError :=
  | IoEOF | IoUnexpectedEOF
  | ErrInvalidMagicHeader | ErrUnsupportedVersion | ErrChecksumMismatch | ErrCorruptedRDB
  | ErrLzf.

Record Decoder := mkDecoder { dec_r : bytes; dec_crc : Z }.

Definition NewDecoder (r : bytes) : Decoder := mkDecoder r 0.

(** A step of the decoder: [None] is a panic. *)
Definition DecM (A : Type) : Type := Decoder -> option (Decoder * (A + RdbError)).

#[export] Instance DecM_ret : MRet DecM := fun A a d => Some (d, inl a).
#[export] Instance DecM_bind : MBind DecM := fun A B f m d =>
  '(d, r) ← m d;
  match r with
  | inl a => f a d
  | inr err => Some (d, inr err)
  end.

Definition dec_fail {A} (err : RdbError) : DecM A := fun d => Some (d, inr err).
(** The result of a step that is dropped together with its error. *)
Definition dec_ignore {A} (m : DecM A) : DecM unit := fun d => '(d, _) ← m d; Some (d, inl tt).

(** The largest allocation of the runtime; [make] of [n] elements of [size] bytes panics beyond it. *)
Definition dec_make (size n : Z) : DecM unit := fun d => if maxAlloc <? size * n then None else Some (d, inl tt).

(** [io.ReadFull] takes what there is even when it is too little. *)
Definition readFull (n : Z) : DecM bytes := fun d =>
  let r := dec_r d in
  if n <=? zlen r then
    let buf := take (Z.to_nat n) r in
    Some (mkDecoder (drop (Z.to_nat n) r) (CRC64 (dec_crc d) buf), inl buf)
  else Some (mkDecoder [] (dec_crc d), inr (if zlen r =? 0 then IoEOF else IoUnexpectedEOF)).

Definition readByte : DecM Z := fun d =>
  '(d, r) ← readFull 1 d;
  match r with
  | inl buf => b ← go_at buf 0; Some (d, inl b)
  | inr err => Some (d, inr err)
  end.

Definition ReadHeader : DecM Z :=
  header ← readFull 9;
  if negb (bool_decide (take 5 header = str "REDIS")) then dec_fail ErrInvalidMagicHeader
  else
    match ParseInt (drop 5 header) with
    | None => dec_fail ErrUnsupportedVersion
    | Some ver => if (ver <? 1) || (15 <? ver) then dec_fail ErrUnsupportedVersion else mret ver
    end.

(** The length, or the special encoding. *)
Definition ReadLen : DecM (Z * option Z) :=
  first ← readByte;
  let flag := Z.shiftr (Z.land first 0xC0) 6 in
  if flag =? 0 then mret (Z.land first 0x3F, None)
  else if flag =? 1 then
    second ← readByte;
    mret (Z.lor (Z.shiftl (Z.land first 0x3F) 8) second, None)
  else if flag =? 2 then
    if first =? Enc32BitLen then buf ← readFull 4; mret (UintBE buf, None)
    else if first =? Enc64BitLen then buf ← readFull 8; mret (UintBE buf, None)
    else dec_fail ErrCorruptedRDB
  else mret (0, Some (Z.land first 0x3F)).

(** The signed integer with the bits of an unsigned one. *)
Definition signed (bits z : Z) : Z := if z <? 2 ^ (bits - 1) then z else z - 2 ^ bits.

(** [lzf.Decompress], with the length as an [int]. *)
Definition decompress (cData : bytes) (uLen : Z) : DecM bytes := fun d =>
  r ← Lzf.Decompress cData (s64 uLen);
  Some (d, match r with inl data => inl data | inr _ => inr ErrLzf end).

Definition ReadString : DecM bytes :=
  '(length, enc) ← ReadLen;
  match enc with
  | Some encType =>
    if encType =? EncInt8 then b ← readByte; mret (FormatInt (signed 8 b))
    else if encType =? EncInt16 then buf ← readFull 2; mret (FormatInt (signed 16 (UintLE buf)))
    else if encType =? EncInt32 then buf ← readFull 4; mret (FormatInt (signed 32 (UintLE buf)))
    else if encType =? EncLZF then
      '(cLen, _) ← ReadLen;
      '(uLen, _) ← ReadLen;
      _ ← dec_make 1 cLen;
      cData ← readFull cLen;
      decompress cData uLen
    else dec_fail ErrCorruptedRDB
  | None => _ ← dec_make 1 length; readFull length
  end.

(** [n] strings, one after the other.  Every string takes at least a byte, so the bytes left are fuel enough. *)
Fixpoint read_strings_fuel (fuel : nat) (n : Z) : DecM (list bytes) :=
  if n <=? 0 then mret []
  else
    match fuel with
    | O => dec_fail IoEOF
    | S fuel => item ← ReadString; items ← read_strings_fuel fuel (n - 1); mret (item :: items)
    end.
Definition read_strings (n : Z) : DecM (list bytes) := fun d => read_strings_fuel (S (length (dec_r d))) n d.

(** What is read of an object. *)
Inductive rdb_value :=
  | VString (b : bytes)
  | VList (items : list bytes)
  | VSet (members : list bytes)
  | VHash (entries : list bytes)
  | VZSet (entries : list bytes)   (* member, score, member, score, ... *)
  | VUnknown.

(** A collection: the allocation for its [n] elements of [size] bytes, then [k] strings for each. *)
Definition read_collection (size k : Z) : DecM (list bytes) :=
  '(count, _) ← ReadLen;
  _ ← dec_make size count;
  read_strings (k * count).

Definition ReadValue (valType : Z) : DecM rdb_value :=
  if valType =? TypeString then b ← ReadString; mret (VString b)
  else if (valType =? TypeList) || (valType =? TypeListQuicklist) then
    items ← read_collection 24 1; mret (VList items)
  else if valType =? TypeSet then members ← read_collection 16 1; mret (VSet members)
  else if valType =? TypeHash then
    '(count, _) ← ReadLen;
    _ ← dec_make 24 (u64 (count * 2));
    entries ← read_strings (2 * count); mret (VHash entries)
  else if (valType =? TypeZSet) || (valType =? TypeZSet2) then
    entries ← read_collection 24 2; mret (VZSet entries)
  else _ ← dec_ignore ReadString; mret VUnknown.

(** ** What is written and what is read *)

(** The encoder [a] writes [bs], through the checksum. *)
Definition puts (a : EncM) (bs : bytes) : Prop := forall e, a e = (mkEncoder (enc_w e ++ bs) (CRC64 (enc_crc e) bs), None).

(** The decoder [m] takes [bs] from the front and returns [a]. *)
Definition yields {A} (m : DecM A) (bs : bytes) (a : A) : Prop :=
  forall r crc, m (mkDecoder (bs ++ r) crc) = Some (mkDecoder r (CRC64 crc bs), inl a).

Lemma puts_skip : puts enc_skip [].
Proof. intros [w crc]. cbn. by rewrite app_nil_r. Qed.

Lemma puts_seq a b x y : puts a x -> puts b y -> puts (enc_seq a b) (x ++ y).
Proof. intros Ha Hb e. unfold enc_seq. rewrite Ha, Hb. cbn. by rewrite CRC64_app, app_assoc. Qed.

Lemma puts_try a x : puts a x -> puts (enc_try a) x.
Proof. intros Ha e. unfold enc_try. by rewrite Ha. Qed.

Lemma yields_ret {A} (a : A) : yields (mret a) [] a.
Proof. intros r crc. done. Qed.

Lemma yields_bind {A B} (m : DecM A) (f : A -> DecM B) x y a b :
  yields m x a -> yields (f a) y b -> yields (m ≫= f) (x ++ y) b.
Proof. intros Hm Hf r crc. unfold mbind, DecM_bind. rewrite <- app_assoc, Hm. cbn. rewrite Hf. by rewrite CRC64_app. Qed.

Lemma yields_bind_ret {A B} (m : DecM A) (g : A -> B) x a : yields m x a -> yields (a ← m; mret (g a)) x (g a).
Proof. intros Hm. rewrite <- (app_nil_r x). eapply yields_bind; [exact Hm|]. apply yields_ret. Qed.

Lemma yields_make size n : size * n <= maxAlloc -> yields (dec_make size n) [] tt.
Proof. intros Hn r crc. unfold dec_make. by rewrite (proj2 (Z.ltb_ge _ _)) by lia. Qed.

Lemma yields_make_bind {B} size n (m : unit -> DecM B) x b : size * n <= maxAlloc -> yields (m tt) x b -> yields (u ← dec_make size n; m u) x b.
Proof. intros Hn Hm. exact (yields_bind _ _ [] x tt b (yields_make size n Hn) Hm). Qed.

Lemma yields_readFull bs n : n = zlen bs -> yields (readFull n) bs bs.
Proof.
  intros -> r crc. unfold readFull. cbn [dec_r dec_crc]. rewrite (proj2 (Z.leb_le _ _)) by zlen_lia.
  unfold zlen. by rewrite Nat2Z.id, take_app_length, drop_app_length.
Qed.

Lemma yields_readByte b : yields readByte [b] b.
Proof. intros r crc. unfold readByte. rewrite (yields_readFull [b] 1) by done. done. Qed.

(** *** Lengths *)

Definition len_bytes (n : Z) : bytes :=
  if n <? 2 ^ 6 then [n]
  else if n <? 2 ^ 14 then [n / 256 + 64; n mod 256]
  else if n <? 2 ^ 32 then Enc32BitLen :: PutBE 4 n
  else Enc64BitLen :: PutBE 8 n.

Definition str_bytes (b : bytes) : bytes :=
  match (if 20 <=? zlen b then Lzf.Compress b else Some None) with
  | Some (Some c) => [195] ++ len_bytes (zlen c) ++ len_bytes (zlen b) ++ c
  | _ => len_bytes (zlen b) ++ b
  end.

Definition strs_bytes (items : list bytes) : bytes := concat (str_bytes <$> items).

Section writing.
Variable wr : writer.
Hypothesis Hwr : wr_ok wr.

Lemma puts_writeRaw b : puts (writeRaw wr b) b.
Proof using Hwr. intros e. unfold writeRaw. by rewrite Hwr. Qed.

Lemma puts_writeByte b : puts (writeByte wr b) [b].
Proof using Hwr. apply puts_writeRaw. Qed.

Lemma puts_WriteLen n : 0 <= n < 2 ^ 64 -> puts (WriteLen wr n) (len_bytes n).
Proof using Hwr.
  intros Hn. unfold WriteLen, len_bytes. change (Z.shiftl 1 6) with (2 ^ 6). change (Z.shiftl 1 14) with (2 ^ 14).
  destruct (Z.ltb_spec n (2 ^ 6)) as [H6|H6].
  { replace (u8 (Z.land n 0x3F)) with n; [apply puts_writeByte|]. change 0x3F with (Z.ones 6). rewrite Z.land_ones, Z.mod_small by lia.
    symmetry. apply u8_id. unfold is_byte. lia. }
  destruct (Z.ltb_spec n (2 ^ 14)) as [H14|H14].
  { replace (u8 _) with (n / 256 + 64) at 1; [replace (u8 _) with (n mod 256); [apply puts_writeRaw|]|].
    - change 0xFF with (Z.ones 8). rewrite Z.land_ones by lia. symmetry. apply u8_id. change (2 ^ 8) with 256. unfold is_byte. apply Z.mod_pos_bound. lia.
    - assert (0 <= n / 256 < 64) as Hq by (split; [apply Z.div_pos; lia|apply Z.div_lt_upper_bound; lia]).
      change 0x3F with (Z.ones 6). rewrite Z.shiftr_div_pow2, Z.land_ones by lia. change (2 ^ 8) with 256. rewrite Z.mod_small by (change (2 ^ 6) with 64; lia).
      assert (Z.lor (n / 256) 0x40 = n / 256 + 64) as -> by exact (lor_shiftl_add (n / 256) 1 6 ltac:(lia) Hq).
      symmetry. apply u8_id. unfold is_byte. lia. }
  replace (n <=? 2 ^ 32 - 1) with (n <? 2 ^ 32) by (destruct (Z.ltb_spec n (2 ^ 32)), (Z.leb_spec n (2 ^ 32 - 1)); (done || lia)).
  destruct (Z.ltb_spec n (2 ^ 32)); [|apply puts_writeRaw].
  unfold u32. rewrite Z.mod_small by lia. apply puts_writeRaw.
Qed.

Lemma puts_WriteString b : zlen b < 2 ^ 63 -> puts (WriteString wr b) (str_bytes b).
Proof using Hwr.
  intros Hb. assert (0 <= zlen b) by apply zlen_nonneg. assert (puts (write_plain wr b) (len_bytes (zlen b) ++ b)) as Hplain.
  { apply puts_seq; [apply puts_WriteLen; lia|apply puts_writeRaw]. }
  unfold WriteString, str_bytes. destruct (20 <=? zlen b); [|exact Hplain]. destruct (Compress_ok b) as (r & -> & Hr).
  destruct r as [c|]; [|exact Hplain]. destruct Hr as [_ Hl]. assert (0 <= zlen c) by apply zlen_nonneg.
  apply puts_seq; [apply puts_writeByte|]. apply puts_seq; [apply puts_WriteLen; lia|]. apply puts_seq; [apply puts_WriteLen; lia|apply puts_writeRaw].
Qed.

Lemma puts_strings items : Forall (fun b => zlen b < 2 ^ 63) items -> puts (write_strings wr items) (strs_bytes items).
Proof using Hwr.
  induction 1 as [|b items Hb _ IH]; [apply puts_skip|]. cbn [write_strings]. unfold strs_bytes. cbn [fmap list_fmap concat].
  apply puts_seq; [by apply puts_WriteString|exact IH].
Qed.

End writing.

Lemma len_first n : 0 <= n < 2 ^ 64 -> exists first rest, len_bytes n = first :: rest /\ is_byte first.
Proof.
  intros Hn. unfold len_bytes. destruct (Z.ltb_spec n (2 ^ 6)); [eexists _, _; split; [done|unfold is_byte; lia]|].
  destruct (Z.ltb_spec n (2 ^ 14)).
  - eexists _, _. split; [done|]. unfold is_byte. assert (n / 256 < 64) by (apply Z.div_lt_upper_bound; lia). assert (0 <= n / 256) by (apply Z.div_pos; lia). lia.
  - destruct (n <? 2 ^ 32); eexists _, _; (split; [done|by vm_compute]).
Qed.

Lemma yields_ReadLen n : 0 <= n < 2 ^ 64 -> yields ReadLen (len_bytes n) (n, None).
Proof.
  intros Hn. unfold len_bytes, ReadLen. destruct (Z.ltb_spec n (2 ^ 6)) as [H6|H6].
  { apply (yields_bind _ _ [n] [] n); [apply yields_readByte|]. change 0xC0 with (Z.shiftl 3 6). change 0x3F with (Z.ones 6).
    replace (Z.shiftr (Z.land n (Z.shiftl 3 6)) 6) with 0.
    - cbn [Z.eqb]. rewrite Z.land_ones, Z.mod_small by lia. apply yields_ret.
    - symmetry. rewrite Z.shiftr_land, Z.shiftr_shiftl_l, (Z.shiftr_div_pow2 n), Z.div_small by lia. done. }
  destruct (Z.ltb_spec n (2 ^ 14)) as [H14|H14].
  { assert (0 <= n / 256 < 64) as Hq by (split; [apply Z.div_pos; lia|apply Z.div_lt_upper_bound; lia]). assert (0 <= n mod 256 < 256) as Hm by (apply Z.mod_pos_bound; lia).
    apply (yields_bind _ _ [n / 256 + 64] [n mod 256] (n / 256 + 64)); [apply yields_readByte|]. change 0xC0 with (Z.shiftl 3 6). change 0x3F with (Z.ones 6).
    replace (Z.shiftr (Z.land (n / 256 + 64) (Z.shiftl 3 6)) 6) with 1.
    - cbn [Z.eqb]. change (1 =? 1) with true. cbv iota. apply (yields_bind _ _ [n mod 256] [] (n mod 256)); [apply yields_readByte|].
      replace (Z.lor _ _) with n; [apply yields_ret|]. rewrite Z.land_ones by lia. replace ((n / 256 + 64) mod 2 ^ 6) with (n / 256).
      + rewrite Z.lor_comm, lor_shiftl_add by (change (2 ^ 8) with 256; lia). change (2 ^ 8) with 256. pose proof (Z.div_mod n 256). lia.
      + change (2 ^ 6) with 64. replace (n / 256 + 64) with (n / 256 + 1 * 64) by lia. rewrite Z.mod_add, Z.mod_small by lia. done.
    - symmetry. rewrite Z.shiftr_land, Z.shiftr_shiftl_l, (Z.shiftr_div_pow2 (_ + _)) by lia. change (2 ^ 6) with 64.
      replace ((n / 256 + 64) / 64) with 1; [done|]. replace (n / 256 + 64) with (1 * 64 + n / 256) by lia. rewrite Z.div_add_l, Z.div_small by lia. done. }
  destruct (Z.ltb_spec n (2 ^ 32)) as [H32|H32].
  - change (Enc32BitLen :: PutBE 4 n) with ([Enc32BitLen] ++ PutBE 4 n). eapply yields_bind; [apply yields_readByte|].
    rewrite <- (UintBE_PutBE 4 n) at 2 by (change (2 ^ (8 * Z.of_nat 4)) with (2 ^ 32); lia).
    apply (yields_bind_ret (readFull 4) (fun buf => (UintBE buf, None))). apply yields_readFull. unfold zlen. by rewrite PutBE_length.
  - change (Enc64BitLen :: PutBE 8 n) with ([Enc64BitLen] ++ PutBE 8 n). eapply yields_bind; [apply yields_readByte|].
    rewrite <- (UintBE_PutBE 8 n) at 2 by (change (2 ^ (8 * Z.of_nat 8)) with (2 ^ 64); lia).
    apply (yields_bind_ret (readFull 8) (fun buf => (UintBE buf, None))). apply yields_readFull. unfold zlen. by rewrite PutBE_length.
Qed.

(** *** Strings *)

(** A string that the decoder may allocate. *)
Definition allocable (b : bytes) : Prop := zlen b <= maxAlloc.

Lemma yields_ReadString b : allocable b -> yields ReadString (str_bytes b) b.
Proof.
  unfold allocable, maxAlloc. intros Hb. assert (0 <= zlen b) by apply zlen_nonneg.
  assert (yields ReadString (len_bytes (zlen b) ++ b) b) as Hplain.
  { eapply yields_bind; [apply yields_ReadLen; lia|]. apply yields_make_bind; [unfold maxAlloc; lia|]. by apply yields_readFull. }
  unfold str_bytes. destruct (20 <=? zlen b); [|exact Hplain]. destruct (Compress_ok b) as (r & -> & Hr). destruct r as [c|]; [|exact Hplain].
  destruct Hr as [Hd Hl]. assert (0 <= zlen c) by apply zlen_nonneg.
  apply (yields_bind _ _ [195] _ (0, Some 3)); [exact (yields_bind _ _ [195] [] 195 (0, Some 3) (yields_readByte 195) (yields_ret _))|].
  change (3 =? EncInt8) with false. change (3 =? EncInt16) with false. change (3 =? EncInt32) with false. change (3 =? EncLZF) with true. cbv iota.
  eapply yields_bind; [apply yields_ReadLen; lia|]. eapply yields_bind; [apply yields_ReadLen; lia|]. cbv beta iota.
  apply yields_make_bind; [unfold maxAlloc; lia|]. replace c with (c ++ []) at 2 by apply app_nil_r.
  eapply yields_bind; [by apply yields_readFull|]. intros r crc. unfold decompress. rewrite s64_id by (unfold is_int64, min_int64, max_int64; lia). by rewrite (decodes_Decompress _ _ Hd).
Qed.

Lemma str_bytes_pos b : zlen b < 2 ^ 63 -> (0 < length (str_bytes b))%nat.
Proof.
  intros Hb. assert (0 <= zlen b) by apply zlen_nonneg. unfold str_bytes. destruct (len_first (zlen b) ltac:(lia)) as (x & l & -> & _).
  destruct (if 20 <=? zlen b then _ else _) as [[c|]|]; cbn; lia.
Qed.

Lemma yields_read_strings items : Forall allocable items -> yields (read_strings (zlen items)) (strs_bytes items) items.
Proof.
  intros Hi. assert (forall fuel, (length (strs_bytes items) <= fuel)%nat -> yields (read_strings_fuel (S fuel) (zlen items)) (strs_bytes items) items) as H.
  { induction Hi as [|b items Hb _ IH]; intros fuel Hf; [apply yields_ret|]. cbn [read_strings_fuel].
    rewrite zlen_cons, (proj2 (Z.leb_gt _ 0)) by zlen_lia. unfold strs_bytes in *. cbn [fmap list_fmap concat] in *. rewrite length_app in Hf.
    pose proof (str_bytes_pos b). unfold allocable, maxAlloc in Hb. destruct fuel as [|fuel]; [lia|].
    eapply yields_bind; [by apply yields_ReadString|]. replace (1 + zlen items - 1) with (zlen items) by lia.
    apply (yields_bind_ret _ (cons b)). apply IH. lia. }
  intros r crc. unfold read_strings. cbn [dec_r]. rewrite (H (length (strs_bytes items ++ r))); [done|]. rewrite length_app. lia.
Qed.
