(* ===== verification/Snapshot.v ===== *)
(** * Snapshots of the server ([rdb/rdb.go] Save and Load, [rdb/decode.go] Load)

    [Save] walks the shards and writes every live entry; [Load] reads a file into a database.  The files of the format
    are those of [Rdb]; here they meet the keyspace.  [snapshot_restores] loads what was saved into an
    empty server and finds the same data. *)

From S2P Require Import Prelude Strconv Listpack Intset Quicklist Object Dict Value Db DbSpec DbScan Lzf Aof Crc64 Rdb Request Reply Acl Cluster Context.
From S2P Require Import Strings StringSpec Generic GenericSpec Hashes HashSpec Sets SetSpec Lists ListSpec Bitmap Bits BitSpec Dispatch Registry CommandSpec ServerSpec.
From S2P Require Import HistorySpec ReplicationSpec ServerLaws Rewrite.
Local Open Scope Z_scope.

(** ** Saving *)

Section save.
Variables (E : env) (wr : writer).
Variable zset_pairs : robj -> option (list (bytes * bytes)).

(** The callback of the walk, in the heap [h] and at the clock reading [n]. *)
Fixpoint write_entries_rdb (h : gmap nat container) (n : nat) (e : Encoder) (es : list (DBEntry (P := payload))) : Encoder * option stop :=
  match es with
  | [] => (e, None)
  | en :: es =>
    match WriteEntry wr h (dict_order E n) (set_order E n) zset_pairs (e_Key en) (e_Val en) (e_ExpireAt en) e with
    | (e, Some err) => (e, Some err)
    | (e, None) => write_entries_rdb h n e es
    end
  end.

Definition save_head (unix : Z) : EncM := (WriteHeader wr;; WriteStandardAuxFields wr unix;; enc_try (WriteSelectDB wr 0))%enc.

(** The file that is written from the clock reading [t] on. *)
Definition save_from (t : Z) : M (bytes * option IOError) :=
  fun s =>
    let n := s_tick s in
    let done (e : Encoder) (err : option stop) :=
      match err with
      | Some Panicked => None
      | Some (Failed err) => Some ((enc_w e, Some err), set_tick (S n) s)
      | None => Some ((enc_w e, None), set_tick (S n) s)
      end in
    match save_head (t / 10 ^ 9) NewEncoder with
    | (e, Some err) => done e (Some err)
    | (e, None) =>
      match ForEachShardSnapshot (orc E n) (clk E n) (s_db s) (write_entries_rdb (s_heap s) n) e with
      | (e, Some err) => done e (Some err)
      | (e, None) => let '(e, err) := WriteFooter wr e in done e err
      end
    end.

(** The bytes of the file, and the error; the file replaces the old one when there is none. *)
Definition Save : M (bytes * option IOError) := t ← now E; save_from t.

End save.

(** ** Loading *)

Section load.
Variable E : env.
(** [object.NewZSetFrom] on the parsed and sorted pairs. *)
Variable new_zset : list bytes -> M robj.

(** The object for what was read. *)
Definition build (v : rdb_value) : M (option robj) :=
  L ← gets s_lim;
  match v with
  | VString b => mret (Some (CreateRawStringObject b))
  | VList items => '(e, c) ← lift (NewListFrom L items); l ← alloc c; mret (Some (mkRobj OBJ_LIST e 0 (PRef l)))
  | VSet members => '(e, c) ← lift (NewSetFrom L members); l ← alloc c; mret (Some (mkRobj OBJ_SET e 0 (PRef l)))
  | VHash entries => let '(e, c) := NewHashFrom L entries in l ← alloc c; mret (Some (mkRobj OBJ_HASH e 0 (PRef l)))
  | VZSet entries => o ← new_zset entries; mret (Some o)
  | VUnknown => mret None
  end.

(** The object goes into the database, unless its deadline has passed. *)
Definition put_loaded (key : bytes) (robj : option robj) (expireAt : Z) : M unit :=
  match robj with
  | None => mret tt
  | Some o =>
    if 0 <? expireAt then
      t ← now E;
      let ttlMs := s64 (expireAt - UnixMilli t) in
      if 0 <? ttlMs then _ ← db_SetWithExpire E key o (s64 (ttlMs * 10 ^ 6)); mret tt else mret tt
    else _ ← db_Set E key o; mret tt
  end.

(** A step of the decoder, and what comes after it; its error ends the load. *)
Definition reading {A} (m : DecM A) (d : Decoder) (f : A -> Decoder -> M (option RdbError)) : M (option RdbError) :=
  match m d with
  | None => panic
  | Some (d, inr err) => mret (Some err)
  | Some (d, inl a) => f a d
  end.

(** The end of the file: the checksum, when it is there and is not zero. *)
Definition check_footer (d : Decoder) : option RdbError :=
  if zlen (dec_r d) <? 8 then None
  else
    let expectedCRC := UintLE (take 8 (dec_r d)) in
    if negb (expectedCRC =? 0) && negb (expectedCRC =? dec_crc d) then Some ErrChecksumMismatch else None.

(** What follows the byte [b]; [again] is the rest of the loop. *)
Definition load_op (again : Decoder -> Z -> M (option RdbError)) (b : Z) (d : Decoder) (expireAt : Z) : M (option RdbError) :=
  if b =? OpcodeAux then reading (_ ← dec_ignore ReadString; dec_ignore ReadString) d (fun _ d => again d expireAt)
  else if b =? OpcodeSelectDB then reading (dec_ignore ReadLen) d (fun _ d => again d expireAt)
  else if b =? OpcodeResizeDB then reading (_ ← dec_ignore ReadLen; dec_ignore ReadLen) d (fun _ d => again d expireAt)
  else if b =? OpcodeExpireTimeMs then reading (readFull 8) d (fun buf d => again d (s64 (UintLE buf)))
  else if b =? OpcodeExpireTimeSec then reading (readFull 4) d (fun buf d => again d (UintLE buf * 1000))
  else if b =? OpcodeEOF then mret (check_footer d)
  else
    reading ReadString d (fun key d =>
    reading (ReadValue b) d (fun v d =>
      o ← build v;
      _ ← put_loaded key o expireAt;
      again d 0)).

(** Every turn of the loop takes at least a byte. *)
Fixpoint load_file (fuel : nat) (d : Decoder) (expireAt : Z) : M (option RdbError) :=
  match fuel with
  | O => mret None
  | S fuel =>
    match readByte d with
    | None => panic
    | Some (_, inr IoEOF) => mret None
    | Some (_, inr err) => mret (Some err)
    | Some (d, inl b) => load_op (load_file fuel) b d expireAt
    end
  end.

Definition RdbLoad (file : bytes) : M (option RdbError) :=
  reading ReadHeader (NewDecoder file) (fun _ d => load_file (S (length file)) d 0).

End load.

(** ** What an entry is written as *)

(** What was read stands for the value. *)
Definition stands_for (x : rdb_value) (v : rvalue) : Prop :=
  match x, v with
  | VString b, RString b' => b' = b
  | VList items, RList xs => xs = items
  | VSet members, RSet sm => NoDup members /\ sm = list_to_set members
  | VHash entries, RHash hm => exists kvs, entries = flat kvs /\ NoDup kvs.*1 /\ hm = list_to_map kvs
  | _, _ => False
  end.

(** The decoder can allocate what the value needs. *)
Definition loadable (k : bytes) (v : rvalue) : Prop :=
  allocable k /\ (forall b, value_bytes v b -> allocable b) /\
  match v with
  | RString _ => True
  | RList xs => 24 * zlen xs <= maxAlloc
  | RSet sm => 16 * Z.of_nat (size sm) <= maxAlloc
  | RHash hm => 48 * Z.of_nat (size hm) <= maxAlloc
  end.

(** The bytes of an object: its type, its key, and what [ReadValue] makes [x] of. *)
Definition object_bytes (k : bytes) (bs : bytes) (x : rdb_value) : Prop :=
  exists typ rest, bs = [typ] ++ str_bytes k ++ rest /\ 0 <= typ <= 5 /\ yields (ReadValue typ) rest x.

Section objects.
Variables (E : env) (n : nat) (h : gmap nat container) (wr : writer).
Variable zset_pairs : robj -> option (list (bytes * bytes)).
Hypothesis Ho : orders_ok E.
Hypothesis Hwr : wr_ok wr.

Lemma allocable_small b : allocable b -> zlen b < 2 ^ 63.
Proof. clear. unfold allocable, maxAlloc. lia. Qed.

Lemma puts_collection typ k c items :
  allocable k -> Forall allocable items -> 0 <= c < 2 ^ 64 ->
  puts (write_collection wr typ k c items) ([typ] ++ str_bytes k ++ len_bytes c ++ strs_bytes items).
Proof using Hwr.
  intros Hk Hi Hc. apply puts_seq; [by apply puts_writeByte|]. apply puts_seq; [by apply puts_WriteString, allocable_small|].
  apply puts_seq; [by apply puts_WriteLen|]. apply puts_strings; [done|]. eapply Forall_impl; [exact Hi|]. apply allocable_small.
Qed.

Lemma yields_collection sz items c :
  0 <= c < 2 ^ 64 -> sz * c <= maxAlloc -> zlen items = c -> Forall allocable items ->
  yields (read_collection sz 1) (len_bytes c ++ strs_bytes items) items.
Proof.
  clear. intros Hc Hs Hl Hi. unfold read_collection. eapply yields_bind; [by apply yields_ReadLen|]. cbv beta iota.
  apply yields_make_bind; [exact Hs|]. rewrite Z.mul_1_l, <- Hl. by apply yields_read_strings.
Qed.

Lemma write_object_ok k obj v :
  represents h (face obj) v -> loadable k v ->
  exists bs x, puts (WriteObject wr h (dict_order E n) (set_order E n) zset_pairs k obj) bs /\ object_bytes k bs x /\ stands_for x v.
Proof using Ho Hwr.
  intros Hr (Hk & Hb & Hsz). assert (o_Type obj = type_of v) as Ht by apply Hr. unfold WriteObject. rewrite Ht.
  destruct v as [b|xs|sm|hm]; cbn [type_of value_bytes] in *; cbv zeta.
  - rewrite (string_command h obj b Hr). exists ([TypeString] ++ str_bytes k ++ str_bytes b), (VString b). specialize (Hb b eq_refl). split_and!; [|exists TypeString, (str_bytes b); split_and!; [done|by vm_compute..|]|done].
    + apply puts_seq; [by apply puts_writeByte|]. apply puts_seq; by apply puts_WriteString, allocable_small.
    + apply (yields_bind_ret ReadString VString). by apply yields_ReadString.
  - assert (Forall allocable xs) as Hf by (by apply Forall_forall). assert (0 <= zlen xs < 2 ^ 64) as Hn by (unfold maxAlloc in Hsz; zlen_pose; lia).
    assert (puts (write_collection wr TypeList k (zlen xs) xs) ([TypeList] ++ str_bytes k ++ len_bytes (zlen xs) ++ strs_bytes xs)) as He by by apply puts_collection.
    exists ([TypeList] ++ str_bytes k ++ len_bytes (zlen xs) ++ strs_bytes xs), (VList xs). split_and!.
    + destruct Hr as [_ (l & c & Ep & Hl & Hh)]. unfold face in Ep. cbn in Ep. rewrite Ep, Hl. cbn [holds face] in Hh. destruct (o_Encoding obj), c; try done.
      * destruct Hh as (ch & Hq & <-). rewrite (LRange_repr _ _ _ _ Hq), list_range_all. exact He.
      * destruct Hh as [Hq _]. rewrite (All_repr _ _ Hq). exact He.
    + exists TypeList, (len_bytes (zlen xs) ++ strs_bytes xs). split_and!; [done|by vm_compute..|]. apply (yields_bind_ret (read_collection 24 1) VList). by apply yields_collection.
    + done.
  - assert (forall ms, ms ≡ₚ elements sm -> exists bs x, puts (write_collection wr TypeSet k (zlen ms) ms) bs /\ object_bytes k bs x /\ stands_for x (RSet sm)) as Hset.
    { intros ms Hp. destruct (perm_to_set _ _ Hp) as [Hnd Hms]. assert (zlen ms = Z.of_nat (size sm)) as Hl by (unfold zlen; by rewrite Hp).
      assert (Forall allocable ms) as Hf by (apply Forall_forall; intros b Hin; apply Hb; rewrite Hp in Hin; by apply elem_of_elements).
      assert (0 <= zlen ms < 2 ^ 64) as Hn by (unfold maxAlloc in Hsz; zlen_pose; lia).
      exists ([TypeSet] ++ str_bytes k ++ len_bytes (zlen ms) ++ strs_bytes ms), (VSet ms). split_and!; [by apply puts_collection| |done].
      exists TypeSet, (len_bytes (zlen ms) ++ strs_bytes ms). split_and!; [done|by vm_compute..|]. apply (yields_bind_ret (read_collection 16 1) VSet). apply yields_collection; [done|lia|done..]. }
    destruct Hr as [_ (l & c & Ep & Hl & Hh)]. unfold face in Ep. cbn in Ep. rewrite Ep, Hl. cbn [holds face] in Hh. destruct (o_Encoding obj), c; try done.
    + subst sm. apply Hset, Ho.
    + destruct Hh as (Hwf & Hf & ->). apply Hset. symmetry. apply elements_list_to_set. by apply NoDup_ints; [|apply sorted_NoDup].
    + destruct Hh as (xs & Hq & _ & Hnd & ->). rewrite (All_repr _ _ Hq). apply Hset. symmetry. by apply elements_list_to_set.
  - assert (forall kvs, NoDup kvs.*1 -> hm = list_to_map kvs -> exists bs x,
      puts (write_collection wr TypeHash k (zlen kvs) (flat kvs)) bs /\ object_bytes k bs x /\ stands_for x (RHash hm)) as Hhash.
    { intros kvs Hnd Hm. assert (zlen kvs = Z.of_nat (size hm)) as Hl by (rewrite Hm, (map_size_list_to_map _ Hnd); done).
      assert (Forall allocable (flat kvs)) as Hf.
      { apply Forall_forall. intros b Hin. apply Hb. apply elem_of_flat in Hin as (f & x & Hin & Hx). exists f, x. split; [rewrite Hm; by apply elem_of_list_to_map_1|exact Hx]. }
      assert (0 <= zlen kvs < 2 ^ 48) as Hn by (unfold maxAlloc in Hsz; zlen_pose; lia).
      exists ([TypeHash] ++ str_bytes k ++ len_bytes (zlen kvs) ++ strs_bytes (flat kvs)), (VHash (flat kvs)). split_and!; [apply puts_collection; [done..|lia]| |by exists kvs].
      exists TypeHash, (len_bytes (zlen kvs) ++ strs_bytes (flat kvs)). split_and!; [done|by vm_compute..|].
      eapply yields_bind; [apply yields_ReadLen; lia|]. cbv beta iota. apply yields_make_bind; [rewrite u64_id by lia; lia|].
      apply (yields_bind_ret (read_strings (2 * zlen kvs)) VHash). rewrite <- flat_length. by apply yields_read_strings. }
    destruct Hr as [_ (l & c & Ep & Hl & Hh)]. unfold face in Ep. cbn in Ep. rewrite Ep, Hl. cbn [holds face] in Hh. destruct (o_Encoding obj), c; try done.
    + destruct Hh as [Hwf Hm]. pose proof (dict_entries_spec _ _ (oo_dict _ Ho n) Hwf) as Hp. rewrite (dict_Len_spec d Hwf).
      assert (NoDup (dict_entries (dict_order E n) d).*1) as Hnd by (rewrite Hp; apply NoDup_fst_map_to_list).
      replace (Z.of_nat (size (dict_map d))) with (zlen (dict_entries (dict_order E n) d)) by (unfold zlen; rewrite Hp; by rewrite length_map_to_list).
      apply Hhash; [exact Hnd|]. rewrite (list_to_map_proper _ _ Hnd Hp). by rewrite list_to_map_to_list.
    + destruct Hh as (kvs & Hq & _ & Hnd & Hm). rewrite (All_repr _ _ Hq). unfold Listpack.Len. rewrite (Listpack.repr_n _ _ Hq), flat_length.
      rewrite Z.mul_comm, Z.quot_mul by lia. by apply Hhash.
Qed.

End objects.

(** ** Loading an entry *)

Lemma reading_ok {A : Type} (m : DecM A) bs a r crc (f : A -> Decoder -> M (option RdbError)) :
  yields m bs a -> reading m (mkDecoder (bs ++ r) crc) f = f a (mkDecoder r (CRC64 crc bs)).
Proof. intros Hm. unfold reading. by rewrite Hm. Qed.

Lemma load_next E new_zset fuel b r crc e :
  load_file E new_zset (S fuel) (mkDecoder ([b] ++ r) crc) e = load_op E new_zset (load_file E new_zset fuel) b (mkDecoder r (CRC64 crc [b])) e.
Proof. cbn [load_file]. by rewrite (yields_readByte b). Qed.

Section loading.
Variables (E : env) (T : Z) (new_zset : list bytes -> M robj).
Hypothesis Hclk : instant E T.

(** Containers are only added. *)
Definition extends (s s' : St) : Prop := (s_next s <= s_next s')%nat /\ forall l, (l < s_next s)%nat -> s_heap s' !! l = s_heap s !! l.

(** An object for [v] whose container is new since [s]. *)
Definition fresh_object (s s' : St) (o : robj) (v : rvalue) : Prop :=
  quiet s s' /\ extends s s' /\ storable T s' o v /\ forall l, ref_of (face o) = Some l -> (s_next s <= l)%nat.

Lemma build_container m s ty e c v (Q : option robj -> St -> Prop) :
  abs_rel T m s -> type_of v = ty -> ty <> OBJ_STRING -> holds e c v ->
  (forall o s', abs_rel T m s' -> fresh_object s s' o v -> Q (Some o) s') ->
  wp (l ← alloc c; mret (Some (mkRobj ty e 0 (PRef l)))) s Q.
Proof.
  clear. intros H Ht Hns Hh HQ. apply wp_bind.
  destruct (alloc_rule T m s c (fun l s' => abs_rel T m s' /\ quiet s s' /\ s_heap s' !! l = Some c /\ unshared T s' l) H) as (l & s1 & Ea & H1 & Hq & Hl & Hu); [done|].
  exists l, s1. split; [exact Ea|]. injection Ea as Hle Hse. apply wp_ret. apply HQ; [exact H1|]. split; [exact Hq|]. split; [|split].
  - rewrite <- Hse. split; cbn; [lia|]. intros l' Hl'. apply lookup_insert_ne. lia.
  - split; [|by intros l' [= <-]]. split; [done|]. destruct v; [by destruct Hns|..]; by exists l, c.
  - intros l' [= <-]. lia.
Qed.

Lemma build_rule m s x v (Q : option robj -> St -> Prop) :
  abs_rel T m s -> stands_for x v ->
  (forall o s', abs_rel T m s' -> fresh_object s s' o v -> Q (Some o) s') -> wp (build new_zset x) s Q.
Proof.
  clear Hclk. intros H Hx HQ. pose proof (ar_lim _ _ _ H) as HL. unfold build. apply wp_bind, wp_gets.
  destruct x as [b|items|members|entries| |], v as [b'|xs|sm|hm]; try done; cbn [stands_for] in Hx.
  - subst b'. apply wp_ret, HQ; [exact H|]. split; [apply quiet_refl|]. by split.
  - subst xs. destruct (NewListFrom_holds _ items HL) as (e & c & Ec & Hh). apply wp_bind. eapply wp_lift; [exact Ec|]. by apply (build_container m s _ _ _ (RList items)).
  - destruct Hx as [Hnd ->]. destruct (NewSetFrom_holds _ members HL Hnd) as (e & c & Ec & Hh). apply wp_bind. eapply wp_lift; [exact Ec|].
    by apply (build_container m s _ _ _ (RSet (list_to_set members))).
  - destruct Hx as (kvs & -> & Hnd & ->). pose proof (NewHashFrom_holds _ kvs HL Hnd) as Hh. destruct (NewHashFrom _ _) as [e c]. cbn [fst snd] in Hh.
    by apply (build_container m s _ _ _ (RHash (list_to_map kvs))).
Qed.

Lemma put_loaded_rule m s k o v e (Q : unit -> St -> Prop) :
  abs_rel T m s -> storable T s o v -> 0 <= e <= max_deadline -> alive T e = true ->
  (forall s', abs_rel T (<[k := (v, e)]> m) s' -> quiet s s' -> s_heap s' = s_heap s -> s_next s' = s_next s -> view T s' k = Some (face o, e) -> Q tt s') ->
  wp (put_loaded E k (Some o) e) s Q.
Proof using Hclk.
  intros H Hst He Ha HQ. unfold put_loaded. destruct (Z.ltb_spec 0 e) as [Hpos|Hz].
  - apply wp_bind. exists (clk E (s_tick s)), (set_tick (S (s_tick s)) s). split; [reflexivity|]. cbv zeta. rewrite (proj2 (proj2 Hclk (s_tick s))).
    assert (0 <= T) as HT by apply Hclk. assert (T < e) as HTe by (unfold alive in Ha; bool_prop; lia).
    assert (0 < e - T <= max_deadline) as Hd by lia. replace max_deadline with 9223372036854 in Hd by (by vm_compute).
    rewrite (s64_id (e - T)) by (unfold is_int64, min_int64, max_int64; lia). rewrite (proj2 (Z.ltb_lt _ _)) by lia.
    rewrite s64_id by (unfold is_int64, min_int64, max_int64; lia). apply wp_bind.
    apply (db_SetWithExpire_rule E T Hclk m _ _ _ v); [by destruct H; split|exact Hst|lia|lia|].
    intros s2 H2 Hq2 Hh2 Hn2 Hv2. apply wp_ret. replace (T + (e - T)) with e in H2, Hv2 by lia. apply HQ; [exact H2| |exact Hh2|exact Hn2|exact Hv2].
    eapply quiet_trans; [|exact Hq2]. by apply quiet_intro.
  - apply wp_bind. apply (db_Set_rule E T Hclk m _ _ _ v); [exact H|exact Hst|]. intros s1 H1 Hq1 Hh1 Hn1 Hv1. apply wp_ret. assert (e = 0) as -> by lia. by apply HQ.
Qed.

(** The bytes of an entry. *)
Definition entry_bytes (e : Z) (bs : bytes) : bytes := (if 0 <? e then [OpcodeExpireTimeMs] ++ PutLE 8 e else []) ++ bs.

(** The key [k] was loaded: a new object with the deadline [e]. *)
Definition loaded (s s' : St) (k : bytes) (e : Z) : Prop :=
  quiet s s' /\ extends s s' /\ exists w, view T s' k = Some (w, e) /\ forall l, ref_of w = Some l -> (s_next s <= l < s_next s')%nat.

Lemma load_object m s k bs x v e fuel rest crc (Q : option RdbError -> St -> Prop) :
  abs_rel T m s -> object_bytes k bs x -> stands_for x v -> allocable k -> 0 <= e <= max_deadline -> alive T e = true ->
  (forall s', abs_rel T (<[k := (v, e)]> m) s' -> loaded s s' k e -> wp (load_file E new_zset fuel (mkDecoder rest (CRC64 crc bs)) 0) s' Q) ->
  wp (load_file E new_zset (S fuel) (mkDecoder (bs ++ rest) crc) e) s Q.
Proof using Hclk.
  intros H (typ & body & -> & Htyp & Hy) Hx Hk He Ha HQ. rewrite <- !app_assoc, load_next. unfold load_op.
  assert (forall z, 5 < z -> (typ =? z) = false) as Hop by (intros z Hz; apply Z.eqb_neq; lia). rewrite !Hop by (by vm_compute).
  rewrite (reading_ok _ _ _ _ _ _ (yields_ReadString k Hk)), (reading_ok _ _ _ _ _ _ Hy).
  apply wp_bind. apply (build_rule m s x v); [exact H|exact Hx|]. intros o s1 H1 (Hq1 & [Hn1 Hh1] & Hst & Hfr). apply wp_bind.
  apply (put_loaded_rule m s1 k o v e); [exact H1|exact Hst|exact He|exact Ha|].
  intros s2 H2 Hq2 Hh2 Hn2 Hv2. rewrite <- !CRC64_app. cbn [app] in *. apply HQ; [exact H2|]. split; [by eapply quiet_trans|]. split; [split; [lia|by rewrite Hh2]|].
  exists (face o). split; [exact Hv2|]. intros l Hl. rewrite Hn2. split; [by apply Hfr|]. by apply (proj2 Hst).
Qed.

Lemma load_entry m s k bs x v e fuel rest crc (Q : option RdbError -> St -> Prop) :
  abs_rel T m s -> object_bytes k bs x -> stands_for x v -> allocable k -> 0 <= e <= max_deadline -> alive T e = true ->
  (length (entry_bytes e bs ++ rest) < fuel)%nat ->
  (forall fuel' s', (length rest < fuel')%nat -> abs_rel T (<[k := (v, e)]> m) s' -> loaded s s' k e ->
     wp (load_file E new_zset fuel' (mkDecoder rest (CRC64 crc (entry_bytes e bs))) 0) s' Q) ->
  wp (load_file E new_zset fuel (mkDecoder (entry_bytes e bs ++ rest) crc) 0) s Q.
Proof using Hclk.
  intros H Hb Hx Hk He Ha Hf HQ. pose proof Hb as (typ & body & Hbs & _). unfold entry_bytes in *. rewrite !length_app in Hf.
  assert (0 < length bs)%nat as Hlen by (rewrite Hbs; cbn; lia). destruct (Z.ltb_spec 0 e) as [Hpos|Hz].
  - destruct fuel as [|[|fuel]]; [lia|cbn in Hf; lia|]. rewrite <- !app_assoc, load_next. unfold load_op.
    change (OpcodeExpireTimeMs =? OpcodeAux) with false. change (OpcodeExpireTimeMs =? OpcodeSelectDB) with false.
    change (OpcodeExpireTimeMs =? OpcodeResizeDB) with false. change (OpcodeExpireTimeMs =? OpcodeExpireTimeMs) with true. cbv iota.
    rewrite (reading_ok (readFull 8) (PutLE 8 e) (PutLE 8 e)) by (apply yields_readFull; unfold zlen; by rewrite PutLE_length).
    rewrite UintLE_PutLE, s64_id by (replace max_deadline with 9223372036854 in He by (by vm_compute); unfold is_int64, min_int64, max_int64; cbn; lia).
    apply (load_object m s k bs x v e fuel); [exact H|exact Hb|exact Hx|exact Hk|exact He|exact Ha|]. intros s' H' HL. rewrite <- !CRC64_app. rewrite <- app_assoc in HQ.
    apply HQ; [cbn in Hf; lia|exact H'|exact HL].
  - destruct fuel as [|fuel]; [lia|]. cbn [app] in *. apply (load_object m s k bs x v 0 fuel); [exact H|exact Hb|exact Hx|exact Hk|lia|done|].
    intros s' H' HL. assert (e = 0) as -> by lia. apply HQ; [lia|exact H'|exact HL].
Qed.

End loading.

(** ** Saving and loading all entries *)

(** An entry of the keyspace and its bytes. *)
Definition saved_as (m : dataset) (en : DBEntry (P := payload)) (bs : bytes) : Prop :=
  exists v x body, m !! e_Key en = Some (v, e_ExpireAt en) /\ bs = entry_bytes (e_ExpireAt en) body /\ object_bytes (e_Key en) body x /\ stands_for x v.

Lemma load_entries E T new_zset m : instant E T -> durable T m -> map_Forall (fun k x => 0 <= x.2 <= max_deadline /\ allocable k) m ->
  forall es bss m0 s fuel rest crc (Q : option RdbError -> St -> Prop),
  Forall2 (saved_as m) es bss -> abs_rel T m0 s -> (length (concat bss ++ rest) < fuel)%nat ->
  (forall fuel' s' m1, (length rest < fuel')%nat -> (forall k, m1 !! k = if bool_decide (k ∈ e_Key <$> es) then m !! k else m0 !! k) -> abs_rel T m1 s' -> quiet s s' ->
     wp (load_file E new_zset fuel' (mkDecoder rest (CRC64 crc (concat bss))) 0) s' Q) ->
  wp (load_file E new_zset fuel (mkDecoder (concat bss ++ rest) crc) 0) s Q.
Proof.
  intros Hclk Hd Hm. induction es as [|en es IH]; intros bss m0 s fuel rest crc Q H2 H Hf HQ.
  { apply Forall2_nil_inv_l in H2 as ->. apply (HQ fuel s m0); [exact Hf| |exact H|apply quiet_refl]. intros k. by rewrite bool_decide_false by apply not_elem_of_nil. }
  apply Forall2_cons_inv_l in H2 as (b & bss' & (v & x & body & Hk & -> & Hb & Hx) & H2 & ->). destruct (Hm _ _ Hk) as [He Ha]. cbn in He.
  cbn [concat] in *. rewrite <- app_assoc in *.
  apply (load_entry E T new_zset Hclk m0 s (e_Key en) body x v); [exact H|exact Hb|exact Hx|exact Ha|exact He|exact (durable_alive _ _ _ _ _ Hd Hk)|exact Hf|].
  intros fuel1 s1 Hf1 H1 [Hq1 _]. apply (IH bss' (<[e_Key en := (v, e_ExpireAt en)]> m0)); [exact H2|exact H1|exact Hf1|].
  intros fuel2 s2 m1 Hf2 Hm1 H3 Hq2. rewrite <- CRC64_app. apply (HQ fuel2 s2 m1); [exact Hf2| |exact H3|by eapply quiet_trans].
  intros k. rewrite Hm1. destruct (decide (k = e_Key en)) as [->|Hne].
  - rewrite lookup_insert_eq, (bool_decide_true (_ ∈ e_Key <$> en :: es)) by by left. by case_bool_decide.
  - rewrite lookup_insert_ne by done. erewrite bool_decide_ext; [reflexivity|]. cbn [fmap list_fmap]. rewrite elem_of_cons. naive_solver.
Qed.

Section writing.
Variables (E : env) (n : nat) (h : gmap nat container) (wr : writer).
Variable zset_pairs : robj -> option (list (bytes * bytes)).
Hypothesis Ho : orders_ok E.
Hypothesis Hwr : wr_ok wr.

Local Notation write en := (WriteEntry wr h (dict_order E n) (set_order E n) zset_pairs (e_Key en) (e_Val en) (e_ExpireAt en)).

(** The bytes of an entry, as the encoder writes them into an empty file. *)
Definition saved_bytes (en : DBEntry (P := payload)) : bytes := enc_w (write en NewEncoder).1.

Definition written_ok (en : DBEntry (P := payload)) : Prop := puts (write en) (saved_bytes en).

Lemma puts_saved en bs : puts (write en) bs -> saved_bytes en = bs.
Proof. clear. intros Hp. unfold saved_bytes. by rewrite Hp. Qed.

Definition put_entries (e : Encoder) (es : list (DBEntry (P := payload))) : Encoder :=
  mkEncoder (enc_w e ++ concat (saved_bytes <$> es)) (CRC64 (enc_crc e) (concat (saved_bytes <$> es))).

Lemma write_entries_rdb_ok es : forall e, Forall written_ok es -> write_entries_rdb E wr zset_pairs h n e es = (put_entries e es, None).
Proof.
  clear Ho Hwr. induction es as [|en es IH]; intros e Hes.
  { unfold put_entries. cbn. rewrite app_nil_r. by destruct e. }
  apply Forall_cons in Hes as [Hen Hes]. cbn [write_entries_rdb]. rewrite Hen, (IH _ Hes). unfold put_entries. cbn [enc_w enc_crc fmap list_fmap concat].
  by rewrite CRC64_app, app_assoc.
Qed.

Lemma save_walk_ok o t (db : ShardedDB payload) e :
  let es := concat (imap (fun i s => shard_snapshot o (UnixMilli t) i s) (shards db)) in
  Forall written_ok es ->
  ForEachShardSnapshot o t db (write_entries_rdb E wr zset_pairs h n) e = (put_entries e es, None).
Proof.
  clear Ho Hwr. intros es Hes. unfold ForEachShardSnapshot. rewrite (snapshot_loop_fold o (UnixMilli t) _ put_entries written_ok).
  - done.
  - intros a es' Hes'. by apply write_entries_rdb_ok.
  - intros [w c]. unfold put_entries. cbn. by rewrite app_nil_r.
  - intros a es1 es2. unfold put_entries. cbn [enc_w enc_crc]. by rewrite fmap_app, concat_app, CRC64_app, app_assoc.
  - exact Hes.
Qed.

Lemma write_entry_ok m k obj v e :
  represents h (face obj) v -> m !! k = Some (v, e) -> loadable k v -> 0 <= e <= max_deadline ->
  written_ok (mkEntry k obj e) /\ saved_as m (mkEntry k obj e) (saved_bytes (mkEntry k obj e)).
Proof using Ho Hwr.
  intros Hr Hm Hl He. destruct (write_object_ok E n h wr zset_pairs Ho Hwr k obj v Hr Hl) as (body & x & Hp & Hb & Hx).
  assert (puts (write (mkEntry k obj e)) (entry_bytes e body)) as Hw.
  { unfold WriteEntry, entry_bytes. cbn [e_Key e_Val e_ExpireAt]. apply puts_seq; [|exact Hp]. destruct (0 <? e); [|apply puts_skip].
    apply puts_seq; [by apply puts_writeByte|]. replace max_deadline with 9223372036854 in He by (by vm_compute). rewrite u64_id by lia. by apply puts_writeRaw. }
  unfold written_ok. rewrite (puts_saved _ _ Hw). split; [exact Hw|]. by exists v, x, body.
Qed.

End writing.

(** ** The frame of the file *)

Definition aux_bytes (key val : bytes) : bytes := [OpcodeAux] ++ str_bytes key ++ str_bytes val.
Definition head_bytes (unix : Z) : bytes :=
  str "REDIS0009" ++ (aux_bytes (str "redis-ver") (str "7.2.0") ++ aux_bytes (str "redis-bits") (str "64") ++ aux_bytes (str "ctime") (FormatInt unix))
  ++ ([OpcodeSelectDB] ++ len_bytes 0).

Lemma puts_aux wr key val : wr_ok wr -> zlen key < 2 ^ 63 -> zlen val < 2 ^ 63 -> puts (enc_try (WriteAux wr key val)) (aux_bytes key val).
Proof. intros Hwr Hk Hv. apply puts_try, puts_seq; [by apply puts_writeByte|]. apply puts_seq; by apply puts_WriteString. Qed.

Lemma puts_head wr unix : wr_ok wr -> is_int64 unix -> puts (save_head wr unix) (head_bytes unix).
Proof.
  intros Hwr Hu. pose proof (FormatInt_length _ Hu). apply puts_seq; [by apply puts_writeRaw|]. apply puts_seq; [|apply puts_try, puts_seq; [by apply puts_writeByte|by apply puts_WriteLen]].
  apply puts_seq; [by apply puts_aux|]. apply puts_seq; [by apply puts_aux|]. apply puts_aux; [done|by vm_compute|lia].
Qed.

Lemma yields_ignore {A : Type} (m : DecM A) bs a : yields m bs a -> yields (dec_ignore m) bs tt.
Proof. intros Hm r crc. unfold dec_ignore. by rewrite Hm. Qed.

Lemma yields_header : yields ReadHeader (str "REDIS0009") 9.
Proof. apply (yields_bind _ _ (str "REDIS0009") [] (str "REDIS0009")); [by apply yields_readFull|]. apply yields_ret. Qed.

Lemma load_aux E new_zset fuel key val rest crc e :
  allocable key -> allocable val ->
  load_file E new_zset (S fuel) (mkDecoder (aux_bytes key val ++ rest) crc) e = load_file E new_zset fuel (mkDecoder rest (CRC64 crc (aux_bytes key val))) e.
Proof.
  intros Hk Hv. unfold aux_bytes. rewrite <- app_assoc, load_next. unfold load_op. change (OpcodeAux =? OpcodeAux) with true. cbv iota.
  rewrite (reading_ok _ (str_bytes key ++ str_bytes val) tt); [by rewrite <- CRC64_app|].
  eapply yields_bind; (eapply yields_ignore; by apply yields_ReadString).
Qed.

Lemma load_select E new_zset fuel rest crc e :
  load_file E new_zset (S fuel) (mkDecoder (([OpcodeSelectDB] ++ len_bytes 0) ++ rest) crc) e =
  load_file E new_zset fuel (mkDecoder rest (CRC64 crc ([OpcodeSelectDB] ++ len_bytes 0))) e.
Proof.
  rewrite <- app_assoc, load_next. unfold load_op. change (OpcodeSelectDB =? OpcodeAux) with false. change (OpcodeSelectDB =? OpcodeSelectDB) with true. cbv iota.
  rewrite (reading_ok _ (len_bytes 0) tt); [by rewrite <- CRC64_app|]. eapply yields_ignore. by apply yields_ReadLen.
Qed.

Lemma load_footer E new_zset fuel crc :
  is_word crc -> load_file E new_zset (S fuel) (mkDecoder ([OpcodeEOF] ++ PutLE 8 (CRC64 crc [OpcodeEOF])) crc) 0 = mret None.
Proof.
  intros Hc. rewrite load_next. unfold load_op. repeat (match goal with |- context [OpcodeEOF =? ?z] => let b := eval vm_compute in (OpcodeEOF =? z) in change (OpcodeEOF =? z) with b end). cbv iota.
  f_equal. unfold check_footer. cbn [dec_r dec_crc]. rewrite (proj2 (Z.ltb_ge _ 8)) by (unfold zlen; rewrite PutLE_length; lia).
  rewrite take_ge by by rewrite PutLE_length. rewrite UintLE_PutLE by by apply CRC64_word. by rewrite Z.eqb_refl, andb_false_r.
Qed.

Definition footer_bytes (body : bytes) : bytes := [OpcodeEOF] ++ PutLE 8 (CRC64 (CRC64 0 body) [OpcodeEOF]).

Lemma save_ok E T m s wr zset_pairs :
  instant E T -> T <= max_deadline -> (forall n, oracle_ok (orc E n)) -> orders_ok E -> wr_ok wr -> abs_rel T m s -> map_Forall (fun k x => loadable k x.1) m ->
  exists es bss unix s', is_int64 unix /\ Save E wr zset_pairs s = Some ((head_bytes unix ++ concat bss ++ footer_bytes (head_bytes unix ++ concat bss), None), s') /\
    (forall k, k ∈ e_Key <$> es <-> is_Some (m !! k)) /\ Forall2 (saved_as m) es bss.
Proof.
  intros Hclk HT Horc Ho Hwr H Hl. pose proof (abs_rel_bounds _ _ _ H) as Hb. set (t := clk E (s_tick s)). set (s1 := set_tick (S (s_tick s)) s).
  assert (abs_rel T m s1) as H1 by (by destruct H; split). destruct (ar_db _ _ _ H1) as [Hwf _].
  destruct (snapshot_entries (H := heap_size (s_heap s1)) (orc E (s_tick s1)) (clk E (s_tick s1)) (s_db s1) (Horc _) Hwf) as [_ Hin]. set (es := concat _) in *.
  assert (Forall (fun en => written_ok E (s_tick s1) (s_heap s1) wr zset_pairs en /\ saved_as m en (saved_bytes E (s_tick s1) (s_heap s1) wr zset_pairs en)) es) as Hes.
  { apply Forall_forall. intros [k o e] Hen. apply Hin in Hen. pose proof (live_entry E T m s1 k Hclk H1) as Hk. destruct (m !! k) as [[v e']|] eqn:Em; [|congruence].
    destruct Hk as (o' & Hk & Hr). rewrite Hen in Hk. injection Hk as -> ->. apply (write_entry_ok E (s_tick s1) (s_heap s1) wr zset_pairs Ho Hwr m k o' v); [exact Hr|exact Em|exact (Hl _ _ Em)|exact (Hb _ _ Em)]. }
  apply Forall_and in Hes as [Hw Hs]. assert (is_int64 (t / 10 ^ 9)) as Hu.
  { destruct (proj2 Hclk (s_tick s)) as [H0 HTt]. fold t in H0, HTt. unfold UnixMilli in HTt. replace max_deadline with 9223372036854 in HT by (by vm_compute).
    assert (0 <= t / 10 ^ 9 <= t / 10 ^ 6) by (split; [apply Z.div_pos; lia|apply Z.div_le_compat_l; lia]). unfold is_int64, min_int64, max_int64. lia. }
  exists es, (saved_bytes E (s_tick s1) (s_heap s1) wr zset_pairs <$> es), (t / 10 ^ 9), (set_tick (S (s_tick s1)) s1). split_and!.
  - apply Hu.
  - change (Save E wr zset_pairs s) with (save_from E wr zset_pairs t s1). unfold save_from. cbv zeta. rewrite (puts_head wr _ Hwr Hu), (save_walk_ok E _ _ _ _ _ _ _ _ Hw).
    unfold WriteFooter, enc_seq. rewrite (puts_writeByte wr Hwr OpcodeEOF). cbn [enc_w enc_crc put_entries]. rewrite Hwr. cbn [enc_w enc_crc NewEncoder app].
    unfold footer_bytes. rewrite !CRC64_app, <- !app_assoc. done.
  - intros k. pose proof (live_entry E T m s1 k Hclk H1) as Hk. rewrite list_elem_of_fmap. split.
    + intros ([k' o e] & -> & Hen). apply Hin in Hen. cbn in *. destruct (m !! k'); [done|congruence].
    + intros [[v e] Em]. rewrite Em in Hk. destruct Hk as (o & Hk & _). exists (mkEntry k o e). split; [done|]. by apply Hin.
  - apply Forall2_fmap_r, Forall_Forall2_diag, Hs.
Qed.

Lemma load_head E new_zset unix rest :
  is_int64 unix ->
  exists fuel, (length rest < fuel)%nat /\
    RdbLoad E new_zset (head_bytes unix ++ rest) = load_file E new_zset fuel (mkDecoder rest (CRC64 0 (head_bytes unix))) 0.
Proof.
  intros Hu. pose proof (FormatInt_length _ Hu) as Hul. assert (forall b : bytes, zlen b <= 20 -> allocable b) as Hsmall by (unfold allocable, maxAlloc; lia).
  unfold RdbLoad. assert (13 <= length (head_bytes unix))%nat as Hlen by (unfold head_bytes, aux_bytes; rewrite !length_app; change (length (str "REDIS0009")) with 9%nat; cbn [length]; lia).
  assert (exists fuel, (length rest < fuel)%nat /\ S (length (head_bytes unix ++ rest)) = S (S (S (S fuel)))) as (fuel & Hf & ->).
  { exists (length (head_bytes unix ++ rest) - 3)%nat. rewrite length_app. lia. }
  exists fuel. split; [exact Hf|]. unfold head_bytes, NewDecoder. rewrite <- !app_assoc, (reading_ok _ _ _ _ _ _ yields_header).
  rewrite !load_aux by (apply Hsmall; first [exact Hul|by vm_compute]). pose proof (load_select E new_zset fuel rest) as Hsel. rewrite <- app_assoc in Hsel. rewrite Hsel.
  by rewrite <- !CRC64_app.
Qed.

Lemma load_ok E T m new_zset es bss unix s :
  instant E T -> durable T m -> map_Forall (fun k x => 0 <= x.2 <= max_deadline /\ allocable k) m -> is_int64 unix ->
  (forall k, k ∈ e_Key <$> es <-> is_Some (m !! k)) -> Forall2 (saved_as m) es bss -> abs_rel T ∅ s ->
  wp (RdbLoad E new_zset (head_bytes unix ++ concat bss ++ footer_bytes (head_bytes unix ++ concat bss))) s (fun err s' => err = None /\ abs_rel T m s' /\ quiet s s').
Proof.
  intros Hclk Hd Hm Hu Hin H2 H. destruct (load_head E new_zset unix (concat bss ++ footer_bytes (head_bytes unix ++ concat bss)) Hu) as (fuel & Hf & ->).
  apply (load_entries E T new_zset m Hclk Hd Hm es bss ∅); [exact H2|exact H|exact Hf|]. intros fuel' s' m1 Hf' Hm1 H1 Hq1.
  destruct fuel' as [|fuel']; [lia|]. unfold footer_bytes. rewrite <- (CRC64_app 0 (head_bytes unix) (concat bss)), load_footer by (apply CRC64_word; by vm_compute).
  apply wp_ret. split; [done|]. split; [|exact Hq1]. replace m with m1; [exact H1|]. apply map_eq. intros k. rewrite Hm1, lookup_empty. case_bool_decide as Hk; [done|].
  destruct (m !! k) eqn:Em; [|done]. destruct Hk. by apply Hin.
Qed.

(** ** Properties *)

(** C7. A snapshot restores the data. Serve a history of the commands of [cmd], so that the values are strings, lists, sets and hashes, and
    save the server at a later instant. The save succeeds. Provided that every key and value is small enough to be loaded ([loadable]),
    loading the file into an empty server, with other thresholds and at an instant at which no key has expired yet, reports no error (the
    checksum at its end matches) and gives the same keys, values and deadlines, whatever encodings they had. (With a stream in the keyspace
    it need not: [volatile_stream_dates_the_next_key].) *)
Theorem snapshot_restores lim sinks T0 evs E T E' T' wr zset_pairs new_zset lim' :
  limits_ok lim -> in_order T0 evs -> Forall event_ok evs ->
  instant E T -> T <= max_deadline -> (forall n, oracle_ok (orc E n)) -> orders_ok E -> instant E' T' -> wr_ok wr -> limits_ok lim' ->
  let m := expire_dataset T (ref_history false ∅ evs).2 in
  end_time T0 evs <= T -> durable T' m -> map_Forall (fun k x => loadable k x.1) m ->
  exists rs s file s',
    serve evs (initial lim sinks) = Some (rs, s) /\
    Save E wr zset_pairs s = Some ((file, None), s') /\
    wp (RdbLoad E' new_zset file) (follower lim') (fun err r => err = None /\ abs_rel T' m r).
Proof.
  intros Hl Hord Hev Hclk HT Horc Ho Hclk' Hwr Hl' m Hend Hd Hf. destruct (initial_ready lim sinks) as [Hr Hm].
  destruct (serve_ok evs T0 ∅ (initial lim sinks)) as (rs & s & Es & _ & H & _); [exact Hr|exact Hm|by apply initial_abs|exact Hord|exact Hev|].
  assert (abs_rel T m s) as HTm by (by eapply abs_rel_later).
  destruct (save_ok E T m s wr zset_pairs Hclk HT Horc Ho Hwr HTm Hf) as (es & bss & unix & s' & Hu & Hs & Hin & H2).
  eexists rs, s, _, s'. split; [exact Es|]. split; [exact Hs|]. destruct (follower_ok T' lim' Hl') as (_ & _ & H0).
  eapply wp_mono; [apply (load_ok E' T' m new_zset es bss unix); [exact Hclk'|exact Hd| |exact Hu|exact Hin|exact H2|exact H0]|by intros err r (-> & Hr' & _)].
  intros k x Hk. split; [exact (abs_rel_bounds _ _ _ HTm _ _ Hk)|exact (proj1 (Hf _ _ Hk))].
Qed.

Definition loadable_b (k : bytes) (v : rvalue) : bool :=
  (zlen k <=? maxAlloc) &&
  match v with
  | RString b => zlen b <=? maxAlloc
  | RList xs => forallb (fun b => zlen b <=? maxAlloc) xs && (24 * zlen xs <=? maxAlloc)
  | RSet sm => forallb (fun b => zlen b <=? maxAlloc) (elements sm) && (16 * Z.of_nat (size sm) <=? maxAlloc)
  | RHash hm => forallb (fun fx => (zlen fx.1 <=? maxAlloc) && (zlen fx.2 <=? maxAlloc)) (map_to_list hm) && (48 * Z.of_nat (size hm) <=? maxAlloc)
  end.

Lemma loadable_b_spec k v : loadable_b k v = true -> loadable k v.
Proof.
  unfold loadable_b, loadable. intros [Hk%Z.leb_le Hv]%andb_true_iff. split; [exact Hk|]. destruct v as [x|xs|sm|hm]; cbn [value_bytes] in *.
  - split; [|done]. intros b ->. apply Z.leb_le, Hv.
  - apply andb_true_iff in Hv as [Hv Hn%Z.leb_le]. split; [|exact Hn]. intros b Hb. rewrite forallb_forall in Hv. apply Z.leb_le, (Hv b (proj1 (list_elem_of_In _ _) Hb)).
  - apply andb_true_iff in Hv as [Hv Hn%Z.leb_le]. split; [|exact Hn]. intros b Hb. rewrite forallb_forall in Hv.
    apply Z.leb_le, (Hv b (proj1 (list_elem_of_In _ _) (proj2 (elem_of_elements _ _) Hb))).
  - apply andb_true_iff in Hv as [Hv Hn%Z.leb_le]. split; [|exact Hn]. intros b (f & x & Hf & Hb). rewrite forallb_forall in Hv.
    specialize (Hv (f, x) (proj1 (list_elem_of_In _ _) (proj2 (elem_of_map_to_list _ _ _) Hf))). cbn in Hv. apply andb_true_iff in Hv as [H1%Z.leb_le H2%Z.leb_le].
    destruct Hb as [->| ->]; [exact H1|exact H2].
Qed.

Lemma snapshot_restores_witness :
  exists rs s file s',
    serve sample (initial (mkLimits 1 64 1 1 64 1 64 1) true) = Some (rs, s) /\
    Save (frozen 20) ex_wr (fun _ => None) s = Some ((file, None), s') /\
    wp (RdbLoad (frozen 30) (fun _ => panic) file) (follower default_limits) (fun err r =>
      err = None /\ abs_rel 30 (expire_dataset 20 (ref_history false ∅ sample).2) r).
Proof.
  apply (snapshot_restores (mkLimits 1 64 1 1 64 1 64 1) true 0 sample (frozen 20) 20 (frozen 30) 30 ex_wr (fun _ => None) (fun _ => panic) default_limits).
  - split; cbn; lia.
  - cbn. lia.
  - exact sample_ok.
  - by apply frozen_instant.
  - vm_compute. discriminate.
  - apply frozen_oracle.
  - apply frozen_orders.
  - by apply frozen_instant.
  - intros f d. reflexivity.
  - exact default_limits_ok.
  - vm_compute. discriminate.
  - vm_compute. reflexivity.
  - apply map_Forall_to_list, Forall_forall. intros [k x] Hx. apply loadable_b_spec.
    assert (forallb (fun kx => loadable_b kx.1 kx.2.1) (map_to_list (expire_dataset 20 (ref_history false ∅ sample).2)) = true) as Hall by (vm_compute; reflexivity).
    rewrite forallb_forall in Hall. exact (Hall (k, x) (proj1 (list_elem_of_In _ _) Hx)).
Defined.

(** ** Streams *)

(** A stream with a deadline damages the snapshot.  The encoder has no form for streams but writes the deadline before it finds
    out, and the decoder keeps a deadline until the next object: when the file is loaded, the next key, which had no
    deadline, expires when the stream would have. *)
Theorem volatile_stream_dates_the_next_key E E' T' n h wr zset_pairs new_zset lim unix k1 obj1 e1 k2 obj2 v2 :
  orders_ok E -> wr_ok wr -> limits_ok lim -> instant E' T' -> is_int64 unix ->
  o_Type obj1 = OBJ_STREAM -> T' < e1 <= max_deadline -> represents h (face obj2) v2 -> loadable k2 v2 ->
  exists file crc,
    (save_head wr unix;; WriteEntry wr h (dict_order E n) (set_order E n) zset_pairs k1 obj1 e1;;
     WriteEntry wr h (dict_order E n) (set_order E n) zset_pairs k2 obj2 0;; WriteFooter wr)%enc NewEncoder = (mkEncoder file crc, None) /\
    wp (RdbLoad E' new_zset file) (follower lim) (fun err r => err = None /\ abs_rel T' {[k2 := (v2, e1)]} r).
Proof.
  intros Ho Hwr Hlim Hclk Hu Ht He Hr Hl. destruct (write_object_ok E n h wr zset_pairs Ho Hwr k2 obj2 v2 Hr Hl) as (body & x & Hp & Hb & Hx).
  assert (0 <= T') as HT by apply Hclk.
  assert (puts (WriteEntry wr h (dict_order E n) (set_order E n) zset_pairs k1 obj1 e1) ([OpcodeExpireTimeMs] ++ PutLE 8 e1)) as H1.
  { rewrite <- (app_nil_r (_ ++ _)). unfold WriteEntry, WriteObject. rewrite Ht, (proj2 (Z.ltb_lt 0 e1)) by lia. apply puts_seq; [|apply puts_skip].
    replace max_deadline with 9223372036854 in He by (by vm_compute). rewrite u64_id by lia. apply puts_seq; [by apply puts_writeByte|by apply puts_writeRaw]. }
  assert (puts (WriteEntry wr h (dict_order E n) (set_order E n) zset_pairs k2 obj2 0) body) as H2 by exact (puts_seq _ _ [] body puts_skip Hp).
  assert (entry_bytes e1 body = ([OpcodeExpireTimeMs] ++ PutLE 8 e1) ++ body) as Hent by (unfold entry_bytes; by rewrite (proj2 (Z.ltb_lt 0 e1)) by lia).
  exists (head_bytes unix ++ concat [entry_bytes e1 body] ++ footer_bytes (head_bytes unix ++ concat [entry_bytes e1 body])). eexists. split.
  { unfold enc_seq at 1. rewrite (puts_head wr unix Hwr Hu). unfold enc_seq at 1. rewrite H1. unfold enc_seq at 1. rewrite H2. unfold WriteFooter, enc_seq.
    rewrite (puts_writeByte wr Hwr OpcodeEOF), Hwr. cbn [enc_w enc_crc NewEncoder concat]. f_equal. f_equal.
    unfold footer_bytes. rewrite app_nil_r, Hent, !CRC64_app, <- !app_assoc. reflexivity. }
  assert (alive T' e1 = true) as Ha by (unfold alive; lia).
  apply (wp_mono _ _ (fun err r => err = None /\ abs_rel T' {[k2 := (v2, e1)]} r /\ quiet (follower lim) r)); [|by intros err r (-> & Hr' & _)].
  apply (load_ok E' T' {[k2 := (v2, e1)]} new_zset [mkEntry k2 obj2 e1] [entry_bytes e1 body]); [exact Hclk| | |exact Hu| | |by apply follower_ok].
  - apply map_eq. intros k. rewrite lookup_expire. destruct (decide (k = k2)) as [->|Hne]; [by rewrite lookup_singleton_eq, Ha|by rewrite lookup_singleton_ne].
  - apply map_Forall_singleton. split; [cbn; lia|exact (proj1 Hl)].
  - intros k. cbn. rewrite list_elem_of_singleton. split; [intros ->; by rewrite lookup_singleton_eq|intros [? [<- _]%lookup_singleton_Some]; done].
  - apply Forall2_cons. split; [|by apply Forall2_nil]. exists v2, x, body. cbn. by rewrite lookup_singleton_eq.
Qed.

Lemma volatile_stream_dates_the_next_key_witness :
  exists file crc,
    (save_head ex_wr 7;; WriteEntry ex_wr ∅ (dict_order (frozen 0) 0) (set_order (frozen 0) 0) (fun _ => None) (str "s") (mkRobj OBJ_STREAM OBJ_ENCODING_STREAM 0 (PRef 0)) 90;;
     WriteEntry ex_wr ∅ (dict_order (frozen 0) 0) (set_order (frozen 0) 0) (fun _ => None) (str "k") (CreateRawStringObject (str "v")) 0;; WriteFooter ex_wr)%enc NewEncoder
      = (mkEncoder file crc, None) /\
    wp (RdbLoad (frozen 30) (fun _ => panic) file) (follower default_limits) (fun err r => err = None /\ abs_rel 30 {[str "k" := (RString (str "v"), 90)]} r).
Proof.
  apply (volatile_stream_dates_the_next_key (frozen 0) (frozen 30) 30 0 ∅ ex_wr (fun _ => None) (fun _ => panic) default_limits 7 (str "s") _ 90 (str "k") _ (RString (str "v"))).
  - apply frozen_orders.
  - intros f d. reflexivity.
  - exact default_limits_ok.
  - by apply frozen_instant.
  - split; vm_compute; discriminate.
  - reflexivity.
  - split; [reflexivity|]. vm_compute. discriminate.
  - split; reflexivity.
  - apply loadable_b_spec. vm_compute. reflexivity.
Defined.

(** A file that ends in the middle of the keys loads without an error, as long as the cut is between two of them. *)
Example cut_file_is_accepted :
  (rs ← requests ((fun argv => (frozen 1, argv)) <$> [[str "SET"; str "a"; str "1"]; [str "SET"; str "b"; str "2"]]) (follower default_limits);
   sv ← Save (frozen 2) ex_wr (fun _ => None) rs.2;
   ld ← RdbLoad (frozen 3) (fun _ => panic) (take (length sv.1.1 - 14) sv.1.1) (follower default_limits);
   n ← request (frozen 3) [str "EXISTS"; str "a"; str "b"] ld.2;
   Some (ld.1, n.1)) = Some (None, Integer 1).
Proof. vm_compute. reflexivity. Qed.
