(* ===== verification/Replication.v ===== *)
(** * The replication manager and its client ([replication/manager.go], [replication/client.go], the handshake in [server/server.go])

    The primary keeps the stream of the commands it feeds in the backlog and in one queue per replica; a replica asks for the
    whole data or for the rest of the stream and then executes what it receives.  The sessions of the replicas live on a
    heap, because the goroutine that serves a replica keeps its session after the manager has dropped it.

    [replica_stream_has_no_gaps]: whatever is fed, delivered, connected and dropped in whatever order, a replica
    receives the stream from the point at which it joined without a gap. *)

From S2P Require Import Prelude Strconv Request Acl Object Value Db Aof Crc64 Rdb Context Strings Dispatch Registry Snapshot Backlog.
Local Open Scope Z_scope.

Inductive Role := RoleMaster | RoleReplica.

(** [MsgCh], a buffered channel, and whether [Done] is closed. *)
Record ReplicaSession := mkSession { MsgCh : list bytes; Done : bool }.

Definition msg_cap : Z := 1024.

Record Manager := mkManager {
  mg_role : Role;
  masterHost : bytes;
  masterPort : Z;
  masterReplID : bytes;
  masterReplOffset : Z;
  backlog : Backlog;
  replicas : gset Z;
  nextReplicaID : Z;
  sessions : gmap Z ReplicaSession  (* the heap *)
}.

(** The id is random. *)
Definition NewManager (replID : bytes) : Manager := mkManager RoleMaster [] 0 replID 0 (NewBacklog (1024 * 1024)) ∅ 0 ∅.

Definition with_sessions (m : Manager) (rs : gset Z) (ss : gmap Z ReplicaSession) : Manager :=
  mkManager (mg_role m) (masterHost m) (masterPort m) (masterReplID m) (masterReplOffset m) (backlog m) rs (nextReplicaID m) ss.

(** ** Feeding *)

(** A full queue drops the replica; the others are sent the data. *)
Definition fan_out (data : bytes) (rs : gset Z) (ss : gmap Z ReplicaSession) : gset Z * gmap Z ReplicaSession :=
  let full id := match ss !! id with Some r => msg_cap <=? zlen (MsgCh r) | None => false end in
  (filter (fun id => full id = false) rs,
   map_imap (fun id r => Some (if bool_decide (id ∈ rs) then if full id then mkSession (MsgCh r) true else mkSession (MsgCh r ++ [data]) (Done r) else r)) ss).

Definition FeedCommand (m : Manager) (argv : list bytes) : option Manager :=
  match argv with
  | [] => Some m
  | _ =>
    let data := encodeCommand argv in
    b ← Feed (backlog m) data;
    let '(rs, ss) := fan_out data (replicas m) (sessions m) in
    Some (mkManager (mg_role m) (masterHost m) (masterPort m) (masterReplID m) (s64 (masterReplOffset m + zlen data)) b rs (nextReplicaID m) ss)
  end.

(** ** Sessions *)

Definition selectPreamble : bytes := str "*2" ++ crlf ++ str "$6" ++ crlf ++ str "SELECT" ++ crlf ++ str "$1" ++ crlf ++ str "0" ++ crlf.

Definition newSessionLocked (m : Manager) : Z * Manager :=
  let id := u64 (nextReplicaID m + 1) in
  (id, mkManager (mg_role m) (masterHost m) (masterPort m) (masterReplID m) (masterReplOffset m) (backlog m) ({[id]} ∪ replicas m) id
         (<[id := mkSession [selectPreamble] false]> (sessions m))).

Definition RegisterReplica (m : Manager) : Z * Manager := newSessionLocked m.

Definition UnregisterReplica (m : Manager) (id : Z) : Manager :=
  with_sessions m (replicas m ∖ {[id]}) (alter (fun r => mkSession (MsgCh r) true) id (sessions m)).

(** The goroutine of a replica takes a message from the queue and writes it; [None] when there is none. *)
Definition receive (m : Manager) (id : Z) : option (bytes * Manager) :=
  r ← sessions m !! id;
  match MsgCh r with
  | [] => None
  | msg :: q => Some (msg, with_sessions m (replicas m) (<[id := mkSession q (Done r)]> (sessions m)))
  end.

(** ** The handshake, on the primary *)

Section primary.
Variables (E : env) (zset_pairs : robj -> option (list (bytes * bytes))).

(** [bytes.Buffer] takes every write. *)
Definition buffer : writer := fun w d => (w ++ d, None).

(** The errors of the encoder are dropped. *)
Fixpoint snapshot_entries_of (h : gmap nat container) (n : nat) (e : Encoder) (es : list (DBEntry (P := payload))) : Encoder * option stop :=
  match es with
  | [] => (e, None)
  | en :: es =>
    match enc_try (WriteEntry buffer h (dict_order E n) (set_order E n) zset_pairs (e_Key en) (e_Val en) (e_ExpireAt en)) e with
    | (e, Some err) => (e, Some err)
    | (e, None) => snapshot_entries_of h n e es
    end
  end.

(** The payload that is encoded from the clock reading [t] on. *)
Definition psync_encode (t : Z) : M bytes :=
  fun s =>
    let n := s_tick s in
    let head := (enc_try (WriteHeader buffer);; enc_try (WriteStandardAuxFields buffer (t / 10 ^ 9));; enc_try (WriteSelectDB buffer 0))%enc in
    match head NewEncoder with
    | (_, Some _) => None
    | (e, None) =>
      match ForEachShardSnapshot (orc E n) (clk E n) (s_db s) (snapshot_entries_of (s_heap s) n) e with
      | (_, Some _) => None
      | (e, None) =>
        match enc_try (WriteFooter buffer) e with
        | (_, Some _) => None
        | (e, None) => Some (enc_w e, set_tick (S n) s)
        end
      end
    end.

Definition psync_snapshot : M bytes := t ← now E; psync_encode t.

(** The new session, the reply and what follows it. *)
Definition HandlePSync (m : Manager) (replID : bytes) (offset : Z) : M (Manager * Z * bytes * bytes) :=
  let '(id, m) := newSessionLocked m in
  if negb (bool_decide (replID = [])) && bool_decide (replID = masterReplID m) && CanPartialSync (backlog m) offset then
    diff ← lift (ReadFromOffset (backlog m) offset);
    mret (m, id, str "+CONTINUE " ++ masterReplID m ++ crlf, default [] diff)
  else
    rdb ← psync_snapshot;
    mret (m, id, str "+FULLRESYNC " ++ masterReplID m ++ str " " ++ FormatInt (masterReplOffset m) ++ crlf, str "$" ++ FormatInt (zlen rdb) ++ crlf ++ rdb).

End primary.

(** [strconv.ParseInt] when the error is dropped: 0 for a syntax error, the nearest integer for one out of range. *)
Definition parse_offset (s : bytes) : Z :=
  match ParseInt s with
  | Some n => n
  | None =>
    let '(neg, ds) := match s with c :: s' => if c =? 45 then (true, s') else if c =? 43 then (false, s') else (false, s) | [] => (false, []) end in
    if bool_decide (ds = []) || negb (forallb (fun c => (48 <=? c) && (c <=? 57)) ds) then 0 else if neg : bool then min_int64 else max_int64
  end.

(** The arguments of PSYNC. *)
Definition psync_args (argv : list bytes) : bytes * Z :=
  (match argv with _ :: id :: _ => id | _ => [] end, match argv with _ :: _ :: off :: _ => parse_offset off | _ => -1 end).

(** ** The client *)

Definition SetMasterInfo (m : Manager) (replID : bytes) (offset : Z) : Manager :=
  mkManager (mg_role m) (masterHost m) (masterPort m) (if bool_decide (replID = []) then masterReplID m else replID) offset (backlog m) (replicas m) (nextReplicaID m) (sessions m).

Definition with_role (m : Manager) (role : Role) (host : bytes) (port : Z) : Manager :=
  mkManager role host port (masterReplID m) (masterReplOffset m) (backlog m) (replicas m) (nextReplicaID m) (sessions m).

(** Besides, the loop of the client is started, and stopped. *)
Definition StartReplicationClient (m : Manager) (host : bytes) (port : Z) : Manager := with_role m RoleReplica host port.
Definition StopReplication (m : Manager) : Manager := with_role m RoleMaster [] 0.

(** [strings.Split(s, " ")] *)
Fixpoint split_spaces (cur l : bytes) : list bytes :=
  match l with
  | [] => [cur]
  | c :: l => if c =? 32 then cur :: split_spaces [] l else split_spaces (cur ++ [c]) l
  end.

Section client.
Variables (arenas : nat -> option (Z -> option bytes)) (envs : nat -> env) (new_zset : list bytes -> M robj).

(** The commands of the primary are executed as they come; the loop returns at the end of the stream or at a broken request. *)
Fixpoint stream_loop (fuel i : nat) (r : bytes) : M unit :=
  match fuel with
  | O => panic
  | S fuel =>
    match ParseRequest (arenas i) r with
    | PErr _ => mret tt
    | POk [] r => stream_loop fuel (S i) r
    | POk argv r => _ ← request (envs i) argv; stream_loop fuel (S i) r
    end
  end.

Definition db_FlushAll : M unit := fun s => Some (tt, set_db (FlushAll (s_db s)) s).

(** What comes back for PSYNC, and everything after it; [true] when the stream was reached. *)
Definition after_psync (m : Manager) (r : bytes) : M (Manager * bool) :=
  match ReadBytes 10 r with
  | None => mret (m, false)
  | Some (line, r) =>
    let trimmed := TrimSpace line in
    if HasPrefix trimmed (str "+FULLRESYNC") then
      let m := match split_spaces [] trimmed with _ :: newReplID :: off :: _ => SetMasterInfo m newReplID (parse_offset off) | _ => m end in
      match ReadBytes 10 r with
      | None => mret (m, false)
      | Some (lenLine, r) =>
        if negb (HasPrefix lenLine (str "$")) then mret (m, false)
        else
          match ParseInt (TrimSpace (drop 1 lenLine)) with
          | None => mret (m, false)
          | Some rdbLen =>
            if (rdbLen <? 0) || (maxAlloc <? rdbLen) then panic
            else
              match ReadFull rdbLen r with
              | None => mret (m, false)
              | Some (rdbBytes, r) =>
                _ ← db_FlushAll;
                err ← RdbLoad (envs 0) new_zset rdbBytes;
                match err with
                | Some _ => mret (m, false)
                | None => _ ← stream_loop (S (length r)) 1 r; mret (m, true)
                end
              end
          end
      end
    else if HasPrefix trimmed (str "+CONTINUE") then _ ← stream_loop (S (length r)) 1 r; mret (m, true)
    else mret (m, false)
  end.

(** A line that must start with [p]. *)
Definition expect (p : bytes) (r : bytes) : option bytes :=
  match ReadBytes 10 r with Some (line, r) => if HasPrefix line p then Some r else None | None => None end.

Definition psync_request (m : Manager) : list bytes :=
  let '(id, off) := if bool_decide (masterReplID m = []) then (str "?", -1) else (masterReplID m, masterReplOffset m) in
  [str "PSYNC"; id; FormatInt off].

(** What the client writes, and its end; [r] is everything the primary sends. *)
Definition syncWithMaster (m : Manager) (myPort : Z) (r : bytes) : M (list bytes * Manager * bool) :=
  let w1 := [encodeCommand [str "PING"]] in
  match expect (str "+PONG") r with
  | None => mret (w1, m, false)
  | Some r =>
    let w2 := w1 ++ [encodeCommand [str "REPLCONF"; str "listening-port"; FormatInt myPort]] in
    match expect (str "+OK") r with
    | None => mret (w2, m, false)
    | Some r =>
      let w3 := w2 ++ [encodeCommand [str "REPLCONF"; str "capa"; str "psync2"]] in
      match expect (str "+OK") r with
      | None => mret (w3, m, false)
      | Some r =>
        '(m', ok) ← after_psync m r;
        mret (w3 ++ [encodeCommand (psync_request m)], m', ok)
      end
    end
  end.

End client.

(** ** What a replica is sent *)

(** The bytes of the commands that were fed. *)
Definition stream (fed : list (list bytes)) : bytes := concat (encodeCommand <$> fed).

(** How a replica joined, and what was written to it since: how many commands had been fed, the offset it asked for if it
    resumed, the reply and its payload, and the messages. *)
Record peer := mkPeer { p_from : nat; p_resumed : option Z; p_reply : bytes; p_payload : bytes; p_sent : list bytes }.

Record world := mkWorld { w_mgr : Manager; w_fed : list (list bytes); w_peers : gmap Z peer }.

(** Commands are fed, replicas join (with whatever data the server holds at that time), messages are written, connections go
    away and the server changes its role in any order.  The counter of the sessions does not wrap. *)
Inductive step : world -> world -> Prop :=
  | step_feed m fed ps argv m' : argv <> [] -> FeedCommand m argv = Some m' -> step (mkWorld m fed ps) (mkWorld m' (fed ++ [argv]) ps)
  | step_join m fed ps E zset_pairs replID off s m' id reply payload s' :
      HandlePSync E zset_pairs m replID off s = Some ((m', id, reply, payload), s') -> nextReplicaID m + 1 < 2 ^ 64 ->
      step (mkWorld m fed ps) (mkWorld m' fed (<[id := mkPeer (length fed) (if HasPrefix reply (str "+CONTINUE") then Some off else None) reply payload []]> ps))
  | step_write m fed ps id msg m' p : receive m id = Some (msg, m') -> ps !! id = Some p ->
      step (mkWorld m fed ps) (mkWorld m' fed (<[id := mkPeer (p_from p) (p_resumed p) (p_reply p) (p_payload p) (p_sent p ++ [msg])]> ps))
  | step_close m fed ps id : step (mkWorld m fed ps) (mkWorld (UnregisterReplica m id) fed ps)
  | step_register m fed ps : nextReplicaID m + 1 < 2 ^ 64 -> step (mkWorld m fed ps) (mkWorld (RegisterReplica m).2 fed ps)
  | step_role m fed ps role host port : step (mkWorld m fed ps) (mkWorld (with_role m role host port) fed ps).

Definition start (replID : bytes) : world := mkWorld (NewManager replID) [] ∅.

(** The messages for a replica that joined after [n] commands. *)
Definition messages (n : nat) (fed : list (list bytes)) : list bytes := selectPreamble :: (encodeCommand <$> drop n fed).

Record peer_ok (replID : bytes) (fed : list (list bytes)) (connected : bool) (p : peer) (r : ReplicaSession) : Prop := {
  po_from : (p_from p <= length fed)%nat;
  po_prefix : p_sent p ++ MsgCh r `prefix_of` messages (p_from p) fed;
  po_live : if connected then Done r = false /\ p_sent p ++ MsgCh r = messages (p_from p) fed else Done r = true;
  po_join : match p_resumed p with
            | Some off => 0 <= off <= zlen (stream (take (p_from p) fed)) /\ p_payload p = drop (Z.to_nat off) (stream (take (p_from p) fed))
            | None => p_reply p = str "+FULLRESYNC " ++ replID ++ str " " ++ FormatInt (zlen (stream (take (p_from p) fed))) ++ crlf
            end
}.

Record world_ok (replID : bytes) (w : world) : Prop := {
  wo_id : masterReplID (w_mgr w) = replID;
  wo_offset : masterReplOffset (w_mgr w) = zlen (stream (w_fed w));
  wo_backlog : holds (backlog (w_mgr w)) (stream (w_fed w));
  wo_size : bl_size (backlog (w_mgr w)) = 1024 * 1024;
  wo_next : 0 <= nextReplicaID (w_mgr w) < 2 ^ 64;
  wo_ids id : is_Some (sessions (w_mgr w) !! id) -> id <= nextReplicaID (w_mgr w);
  wo_replicas id : id ∈ replicas (w_mgr w) -> is_Some (sessions (w_mgr w) !! id);
  wo_peers id p : w_peers w !! id = Some p ->
    exists r, sessions (w_mgr w) !! id = Some r /\ peer_ok replID (w_fed w) (bool_decide (id ∈ replicas (w_mgr w))) p r
}.

Lemma stream_app fed fed' : stream (fed ++ fed') = stream fed ++ stream fed'.
Proof. unfold stream. by rewrite fmap_app, concat_app. Qed.

Lemma messages_snoc n fed argv : (n <= length fed)%nat -> messages n (fed ++ [argv]) = messages n fed ++ [encodeCommand argv].
Proof. intros Hn. unfold messages. rewrite drop_app_le by done. by rewrite fmap_app. Qed.

Lemma start_ok replID : world_ok replID (start replID).
Proof.
  pose proof (NewBacklog_holds (1024 * 1024)) as Hb. assert (bl_size (NewBacklog (1024 * 1024)) = 1024 * 1024) as Hs by reflexivity.
  split; cbn [start NewManager w_mgr w_fed w_peers masterReplID masterReplOffset backlog nextReplicaID sessions replicas];
    [reflexivity|reflexivity|exact Hb|exact Hs|lia|by intros i [x Hx]|intros i Hi; by apply elem_of_empty in Hi|done].
Qed.

Lemma feed_ok replID m fed ps argv m' :
  world_ok replID (mkWorld m fed ps) -> argv <> [] -> zlen (stream (fed ++ [argv])) <= max_int64 -> FeedCommand m argv = Some m' ->
  world_ok replID (mkWorld m' (fed ++ [argv]) ps).
Proof.
  intros [Hid Hoff Hb Hs Hn Hids Hrs Hps] Hne Hlen Hf. cbn [w_mgr w_fed w_peers] in *. unfold FeedCommand in Hf.
  assert (stream (fed ++ [argv]) = stream fed ++ encodeCommand argv) as Hst by (rewrite stream_app; unfold stream at 2; cbn; by rewrite app_nil_r). rewrite Hst in *.
  destruct (Feed_holds _ _ (encodeCommand argv) Hb) as (b & Eb & Hb' & Hs'); [exact Hlen|rewrite Hs; unfold max_int64; lia|].
  destruct argv as [|a argv]; [done|]. rewrite Eb in Hf. injection Hf as <-. cbn [fan_out fst snd].
  split; cbn [w_mgr w_fed w_peers masterReplID masterReplOffset backlog nextReplicaID sessions replicas]; [done| | |by rewrite Hs'|done|..].
  - rewrite Hst, Hoff, s64_id, zlen_app; [done|]. rewrite zlen_app in Hlen. unfold is_int64, min_int64. zlen_pose. lia.
  - by rewrite Hst.
  - intros id. rewrite map_lookup_imap. destruct (sessions m !! id) eqn:E; [|by intros [? [=]]]. intros _. apply Hids. by rewrite E.
  - intros id [_ Hin]%elem_of_filter. rewrite map_lookup_imap. destruct (Hrs id Hin) as [r ->]. by eexists.
  - intros id p Hp. destruct (Hps id p Hp) as (r & Er & [Hfrom Hpre Hlive Hjoin]). rewrite map_lookup_imap, Er. cbn [mbind option_bind]. eexists. split; [reflexivity|].
    assert (take (p_from p) (fed ++ [a :: argv]) = take (p_from p) fed) as Ht by by rewrite take_app_le.
    assert (bool_decide (id ∈ filter (fun id => match sessions m !! id with Some r => msg_cap <=? zlen (MsgCh r) | None => false end = false) (replicas m)) =
            bool_decide (id ∈ replicas m) && negb (msg_cap <=? zlen (MsgCh r))) as ->.
    { apply eq_bool_prop_intro. rewrite bool_decide_spec, elem_of_filter, Er, andb_True, negb_True, bool_decide_spec. destruct (msg_cap <=? _); cbn; intuition discriminate. }
    case_bool_decide as Hin; cbn [andb].
    + destruct Hlive as [Hd Hall]. destruct (msg_cap <=? zlen (MsgCh r)); cbn [negb]; split; cbn [MsgCh Done];
        try (rewrite Ht; exact Hjoin); try (rewrite length_app; lia).
      * rewrite messages_snoc by done. by apply prefix_app_r.
      * done.
      * rewrite messages_snoc, app_assoc, Hall by done. done.
      * split; [done|]. by rewrite messages_snoc, app_assoc, Hall.
    + split; [rewrite length_app; lia|rewrite messages_snoc by done; by apply prefix_app_r|done|by rewrite Ht].
Qed.

Lemma join_ok replID m fed ps E zset_pairs rid off s m' id reply payload s' :
  world_ok replID (mkWorld m fed ps) -> HandlePSync E zset_pairs m rid off s = Some ((m', id, reply, payload), s') -> nextReplicaID m + 1 < 2 ^ 64 ->
  world_ok replID (mkWorld m' fed (<[id := mkPeer (length fed) (if HasPrefix reply (str "+CONTINUE") then Some off else None) reply payload []]> ps)).
Proof.
  intros [Hid Hoff Hb Hs Hn Hids Hrs Hps] Hj Hwrap. cbn [w_mgr w_fed w_peers] in *.
  assert (m' = (newSessionLocked m).2 /\ id = nextReplicaID m + 1 /\
          match (if HasPrefix reply (str "+CONTINUE") then Some off else None) with
          | Some off => 0 <= off <= zlen (stream fed) /\ payload = drop (Z.to_nat off) (stream fed)
          | None => reply = str "+FULLRESYNC " ++ replID ++ str " " ++ FormatInt (zlen (stream fed)) ++ crlf
          end) as (-> & -> & Hjoin).
  { unfold HandlePSync, newSessionLocked in Hj |- *. rewrite u64_id in Hj |- * by lia. cbn [masterReplID masterReplOffset backlog] in Hj. destruct (_ && _) eqn:Ec.
    - apply andb_true_iff in Ec as [_ Ec]. unfold CanPartialSync in Ec. rewrite (holds_last _ _ Hb), (holds_first _ _ Hb) in Ec.
      rewrite (ReadFromOffset_holds _ _ off Hb) in Hj. bool_prop. rewrite bool_decide_true in Hj by lia. injection Hj as <- <- <- <- <-.
      split_and!; [done|done|]. split; [lia|done].
    - unfold mbind, M_bind in Hj. destruct (psync_snapshot E zset_pairs s) as [[rdb s1]|]; [|done]. injection Hj as <- <- <- <- <-. rewrite Hid, Hoff. by split_and!. }
  assert (forall i, is_Some (sessions m !! i) -> i <> nextReplicaID m + 1) as Hfresh by (intros i Hi%Hids; lia).
  unfold newSessionLocked. rewrite u64_id by lia. cbn [snd].
  split; cbn [w_mgr w_fed w_peers masterReplID masterReplOffset backlog nextReplicaID sessions replicas]; [done|done|done|done|lia|..].
  - intros i. destruct (decide (i = nextReplicaID m + 1)) as [->|Hne]; [done|]. rewrite lookup_insert_ne by done. intros Hi%Hids. lia.
  - intros i [->%elem_of_singleton|Hi%Hrs]%elem_of_union; [by rewrite lookup_insert_eq|]. rewrite lookup_insert_ne; [done|]. by apply not_eq_sym, Hfresh.
  - intros i p Hp. destruct (decide (i = nextReplicaID m + 1)) as [->|Hne].
    + rewrite lookup_insert_eq in Hp. rewrite lookup_insert_eq. injection Hp as <-. eexists. split; [done|]. rewrite bool_decide_true by set_solver.
      assert (messages (length fed) fed = [selectPreamble]) as Hm by (unfold messages; by rewrite drop_all).
      split; cbn [p_from p_sent p_resumed p_reply p_payload MsgCh Done app]; [done|by rewrite Hm|by rewrite Hm|by rewrite take_ge].
    + rewrite lookup_insert_ne in Hp by done. rewrite lookup_insert_ne by done. destruct (Hps i p Hp) as (r & Er & Hok). exists r. split; [done|].
      rewrite (bool_decide_ext _ (i ∈ replicas m)); [done|]. set_solver.
Qed.

Lemma write_ok replID m fed ps id msg m' p :
  world_ok replID (mkWorld m fed ps) -> receive m id = Some (msg, m') -> ps !! id = Some p ->
  world_ok replID (mkWorld m' fed (<[id := mkPeer (p_from p) (p_resumed p) (p_reply p) (p_payload p) (p_sent p ++ [msg])]> ps)).
Proof.
  intros [Hid Hoff Hb Hs Hn Hids Hrs Hps] Hr Hp. cbn [w_mgr w_fed w_peers] in *. destruct (Hps id p Hp) as (r & Er & [Hfrom Hpre Hlive Hjoin]).
  unfold receive in Hr. rewrite Er in Hr. cbn in Hr. destruct (MsgCh r) as [|msg' q] eqn:Eq; [done|]. injection Hr as -> <-.
  assert (forall i, is_Some (<[id := mkSession q (Done r)]> (sessions m) !! i) <-> is_Some (sessions m !! i)) as Hdom.
  { intros i. destruct (decide (i = id)) as [->|]; [by rewrite lookup_insert_eq, Er|by rewrite lookup_insert_ne]. }
  split; cbn [w_mgr w_fed w_peers with_sessions masterReplID masterReplOffset backlog nextReplicaID sessions replicas]; [done..| | |].
  - intros i Hi. apply Hids, Hdom, Hi.
  - intros i Hi. apply Hdom, Hrs, Hi.
  - intros i p' Hp'. destruct (decide (i = id)) as [->|Hne].
    + rewrite lookup_insert_eq in Hp'. rewrite lookup_insert_eq. injection Hp' as <-. eexists. split; [done|].
      split; cbn [p_from p_sent p_resumed p_reply p_payload MsgCh Done]; [done|by rewrite <- app_assoc|by rewrite <- app_assoc|done].
    + rewrite lookup_insert_ne in Hp' by done. rewrite lookup_insert_ne by done. by apply Hps.
Qed.

Lemma close_ok replID m fed ps id : world_ok replID (mkWorld m fed ps) -> world_ok replID (mkWorld (UnregisterReplica m id) fed ps).
Proof.
  intros [Hid Hoff Hb Hs Hn Hids Hrs Hps]. cbn [w_mgr w_fed w_peers] in *. unfold UnregisterReplica.
  split; cbn [w_mgr w_fed w_peers with_sessions masterReplID masterReplOffset backlog nextReplicaID sessions replicas]; [done..| | |].
  - intros i. rewrite lookup_alter_is_Some. apply Hids.
  - intros i [Hi _]%elem_of_difference. rewrite lookup_alter_is_Some. by apply Hrs.
  - intros i p Hp. destruct (Hps i p Hp) as (r & Er & [Hfrom Hpre Hlive Hjoin]). destruct (decide (i = id)) as [->|Hne].
    + rewrite lookup_alter_eq, Er. eexists. split; [done|]. rewrite bool_decide_false by set_solver. by split.
    + rewrite lookup_alter_ne by done. exists r. split; [done|]. rewrite (bool_decide_ext _ (i ∈ replicas m)) by set_solver. by split.
Qed.

Lemma register_ok replID m fed ps : world_ok replID (mkWorld m fed ps) -> nextReplicaID m + 1 < 2 ^ 64 -> world_ok replID (mkWorld (RegisterReplica m).2 fed ps).
Proof.
  intros [Hid Hoff Hb Hs Hn Hids Hrs Hps] Hwrap. cbn [w_mgr w_fed w_peers] in *. unfold RegisterReplica, newSessionLocked. rewrite u64_id by lia. cbn [snd].
  assert (forall i, is_Some (sessions m !! i) -> i <> nextReplicaID m + 1) as Hfresh by (intros i Hi%Hids; lia).
  split; cbn [w_mgr w_fed w_peers masterReplID masterReplOffset backlog nextReplicaID sessions replicas]; [done|done|done|done|lia|..].
  - intros i [->|[_ Hi%Hids]]%lookup_insert_is_Some; lia.
  - intros i [->%elem_of_singleton|Hi%Hrs]%elem_of_union; apply lookup_insert_is_Some; [by left|right]. split; [by apply not_eq_sym, Hfresh|done].
  - intros i p Hp. destruct (Hps i p Hp) as (r & Er & Hok). assert (i <> nextReplicaID m + 1) as Hne by (apply Hfresh; by rewrite Er).
    exists r. split; [by rewrite lookup_insert_ne|]. rewrite (bool_decide_ext _ (i ∈ replicas m)); [done|]. set_solver.
Qed.

Lemma step_ok replID w w' : step w w' -> zlen (stream (w_fed w')) <= max_int64 -> world_ok replID w -> world_ok replID w'.
Proof.
  intros [m fed ps argv m' Hne Hf|m fed ps E zp rid off s m' id reply payload s' Hj Hw|m fed ps id msg m' p Hr Hp|m fed ps id|m fed ps Hw|m fed ps role host port] Hlen H;
    [by eapply feed_ok|by eapply join_ok|by eapply write_ok|by apply close_ok|by apply register_ok|by destruct H; split].
Qed.

Lemma step_grows w w' : step w w' -> zlen (stream (w_fed w)) <= zlen (stream (w_fed w')).
Proof. intros []; cbn [w_fed]; [|lia..]. rewrite stream_app, zlen_app. zlen_pose. lia. Qed.

Lemma steps_ok replID w : rtc step (start replID) w -> zlen (stream (w_fed w)) <= max_int64 -> world_ok replID w.
Proof.
  revert w. apply (rtc_ind_r (fun w => zlen (stream (w_fed w)) <= max_int64 -> world_ok replID w)); [intros _; apply start_ok|].
  intros y z _ Hs IH Hlen. eapply step_ok; [exact Hs|exact Hlen|]. apply IH. pose proof (step_grows _ _ Hs). lia.
Qed.

(** C30. A replica misses nothing.  Let commands be fed, replicas join, messages be written, connections go away and the role change in any order,
    with any data in the server.  What was written to a replica and what waits in its queue is the SELECT and then every command fed since
    it joined, in order, as long as it is connected; a replica that fell behind is dropped, and has received a prefix of that.  One
    that resumed got exactly the bytes of the stream from its offset to the point at which it joined, so with what
    follows it has the whole rest of the stream; one that asked for the data was told the offset of the next command. *)
Theorem replica_stream_has_no_gaps replID w id p :
  rtc step (start replID) w -> zlen (stream (w_fed w)) <= max_int64 -> w_peers w !! id = Some p ->
  exists r, sessions (w_mgr w) !! id = Some r /\
    p_sent p ++ MsgCh r `prefix_of` messages (p_from p) (w_fed w) /\
    (id ∈ replicas (w_mgr w) -> Done r = false /\ p_sent p ++ MsgCh r = messages (p_from p) (w_fed w)) /\
    (id ∉ replicas (w_mgr w) -> Done r = true) /\
    match p_resumed p with
    | Some off => p_payload p ++ stream (drop (p_from p) (w_fed w)) = drop (Z.to_nat off) (stream (w_fed w))
    | None => p_reply p = str "+FULLRESYNC " ++ replID ++ str " " ++ FormatInt (zlen (stream (take (p_from p) (w_fed w)))) ++ crlf
    end.
Proof.
  intros Hs Hlen Hp. destruct (wo_peers _ _ (steps_ok _ _ Hs Hlen) _ _ Hp) as (r & Er & [Hfrom Hpre Hlive Hjoin]). exists r. split_and!; [done|done| | |].
  - intros Hin. by rewrite bool_decide_true in Hlive.
  - intros Hin. by rewrite bool_decide_false in Hlive.
  - destruct (p_resumed p) as [off|]; [|done]. destruct Hjoin as [Hoff ->]. assert (stream (w_fed w) = stream (take (p_from p) (w_fed w)) ++ stream (drop (p_from p) (w_fed w))) as -> by (by rewrite <- stream_app, take_drop).
    symmetry. apply drop_app_le. unfold zlen in Hoff. lia.
Qed.

(** ** Totality *)

Lemma FeedCommand_total replID w argv :
  world_ok replID w -> zlen (stream (w_fed w ++ [argv])) <= max_int64 -> exists m', FeedCommand (w_mgr w) argv = Some m'.
Proof.
  intros [Hid Hoff Hb Hs _ _ _ _] Hlen. destruct argv as [|a argv]; [by eexists|]. unfold FeedCommand.
  destruct (Feed_holds _ _ (encodeCommand (a :: argv)) Hb) as (b & -> & _).
  - rewrite stream_app in Hlen. unfold stream in Hlen at 2. cbn [fmap list_fmap concat] in Hlen. by rewrite app_nil_r in Hlen.
  - rewrite Hs. unfold max_int64. lia.
  - cbn. by eexists.
Qed.

(** A replica whose offset is still in the backlog is let in without a transfer. *)
Lemma HandlePSync_resumes replID w E zset_pairs off s :
  world_ok replID w -> replID <> [] -> stream (w_fed w) <> [] -> Z.max 0 (zlen (stream (w_fed w)) - 1024 * 1024) <= off <= zlen (stream (w_fed w)) ->
  HandlePSync E zset_pairs (w_mgr w) replID off s =
    Some (((newSessionLocked (w_mgr w)).2, (newSessionLocked (w_mgr w)).1, str "+CONTINUE " ++ replID ++ crlf, drop (Z.to_nat off) (stream (w_fed w))), s).
Proof.
  intros [Hid Hoff Hb Hs _ _ _ _] Hne Hst Hwin. unfold HandlePSync, newSessionLocked. cbn [masterReplID backlog fst snd].
  rewrite Hid, (bool_decide_false (replID = [])), (bool_decide_true (replID = replID)) by done. unfold CanPartialSync. rewrite (holds_last _ _ Hb), (holds_first _ _ Hb), Hs.
  assert (0 < zlen (stream (w_fed w))) by (destruct (stream (w_fed w)); [done|]; rewrite zlen_cons; zlen_pose; lia).
  rewrite (proj2 (Z.ltb_lt 0 _)), (proj2 (Z.leb_le _ off)), (proj2 (Z.leb_le off _)) by lia. cbn [negb andb].
  rewrite (ReadFromOffset_holds _ _ off Hb), Hs, bool_decide_true by lia. done.
Qed.

(** ** A run *)

Definition cmd1 : list bytes := [str "SET"; str "k"; str "1"].
Definition cmd2 : list bytes := [str "INCR"; str "k"].
Definition peer1 : peer := mkPeer 1 (Some 0) (str "+CONTINUE " ++ str "id" ++ crlf) (stream [cmd1]) [].

Lemma run_feed w argv : world_ok (str "id") w -> argv <> [] -> zlen (stream (w_fed w ++ [argv])) <= max_int64 ->
  exists m', step w (mkWorld m' (w_fed w ++ [argv]) (w_peers w)) /\ nextReplicaID m' = nextReplicaID (w_mgr w).
Proof.
  intros Hw Hne Hlen. destruct (FeedCommand_total _ w argv Hw Hlen) as [m' E]. exists m'. split; [destruct w as [m fed ps]; by apply step_feed|].
  unfold FeedCommand in E. destruct argv; [done|]. destruct (Feed _ _); [|discriminate E]. by injection E as <-.
Qed.

(** A replica resumes at the beginning after one command, and another command is fed. *)
Lemma run_resumes : exists w, rtc step (start (str "id")) w /\ w_fed w = [cmd1; cmd2] /\ w_peers w !! 1 = Some peer1.
Proof.
  assert (forall f, f = [cmd1] \/ f = [cmd1; cmd2] -> zlen (stream f) <= max_int64) as Hb by (intros f [->| ->]; vm_compute; discriminate).
  destruct (run_feed (start (str "id")) cmd1 (start_ok _)) as (m1 & S1 & Hn1); [discriminate|apply Hb; by left|]. cbn [start w_fed w_peers w_mgr app NewManager nextReplicaID] in S1, Hn1.
  assert (world_ok (str "id") (mkWorld m1 [cmd1] ∅)) as O1 by (eapply step_ok; [exact S1|apply Hb; by left|apply start_ok]).
  pose proof (HandlePSync_resumes (str "id") _ (frozen 0) (fun _ => None) 0 (initial (mkLimits 1 1 1 1 1 1 1 1) true) O1 ltac:(discriminate) ltac:(vm_compute; discriminate) ltac:(vm_compute; split; discriminate)) as Ej.
  cbn [w_mgr w_fed] in Ej. rewrite drop_0 in Ej. assert ((newSessionLocked m1).1 = 1) as Hid by (unfold newSessionLocked; cbn [fst]; by rewrite Hn1). rewrite Hid in Ej.
  pose proof (step_join _ [cmd1] ∅ _ _ _ _ _ _ _ _ _ _ Ej) as S2. rewrite Hn1 in S2. specialize (S2 ltac:(done)). change (mkPeer _ _ _ _ _) with peer1 in S2.
  assert (world_ok (str "id") (mkWorld (newSessionLocked m1).2 [cmd1] (<[1 := peer1]> ∅))) as O2 by (eapply step_ok; [exact S2|apply Hb; by left|exact O1]).
  destruct (run_feed _ cmd2 O2) as (m3 & S3 & _); [discriminate|apply Hb; by right|]. cbn [w_fed w_peers app] in S3.
  eexists. split; [eapply rtc_l; [exact S1|]; eapply rtc_l; [exact S2|]; by apply rtc_once|]. done.
Qed.

Lemma replica_stream_has_no_gaps_witness :
  exists w r, rtc step (start (str "id")) w /\ w_fed w = [cmd1; cmd2] /\ w_peers w !! 1 = Some peer1 /\ sessions (w_mgr w) !! 1 = Some r /\
    MsgCh r `prefix_of` [selectPreamble; encodeCommand cmd2] /\ p_payload peer1 ++ stream [cmd2] = stream [cmd1; cmd2].
Proof.
  destruct run_resumes as (w & Hw & Hf & Hp).
  destruct (replica_stream_has_no_gaps (str "id") w 1 peer1 Hw ltac:(rewrite Hf; vm_compute; discriminate) Hp) as (r & Er & Hpre & _ & _ & Hres).
  rewrite Hf in Hpre, Hres. exists w, r. split_and!; [exact Hw|exact Hf|exact Hp|exact Er|exact Hpre|exact Hres].
Defined.
