(* ===== verification/SyncSpec.v ===== *)
(** * A replica joins

    The handshake of [Replication] meets the server: the primary's snapshot, the stream of what it feeds afterwards, and the
    client that loads the one and executes the other, from bytes to data.  [full_resync_follows] is the end-to-end statement; two runs show
    where it ends. *)

From S2P Require Import Prelude Strconv Listpack Intset Quicklist Object Dict Value Db DbSpec DbScan Lzf Aof Crc64 Rdb Request Reply Acl Cluster Context.
From S2P Require Import Strings StringSpec Generic GenericSpec Hashes HashSpec Sets SetSpec Lists ListSpec Bitmap Bits BitSpec Dispatch Registry CommandSpec ServerSpec.
From S2P Require Import HistorySpec ReplicationSpec Rewrite Snapshot Backlog Replication.
Local Open Scope Z_scope.

(** ** The snapshot *)

Lemma enc_try_ok (a : EncM) e e' : a e = (e', None) -> enc_try a e = (e', None).
Proof. intros H. unfold enc_try. by rewrite H. Qed.

Lemma enc_seq_ok (a b : EncM) e e' : (a;; b)%enc e = (e', None) -> exists e1, a e = (e1, None) /\ b e1 = (e', None).
Proof. unfold enc_seq. destruct (a e) as [e1 [err|]]; [done|]. intros H. by exists e1. Qed.

Lemma snapshot_entries_save E zset_pairs h n es : forall e e',
  write_entries_rdb E buffer zset_pairs h n e es = (e', None) -> snapshot_entries_of E zset_pairs h n e es = (e', None).
Proof.
  induction es as [|en es IH]; intros e e'; cbn [write_entries_rdb snapshot_entries_of]; [done|].
  destruct (WriteEntry _ _ _ _ _ _ _ _ e) as [e1 [err|]] eqn:Ew; [done|]. rewrite (enc_try_ok _ _ _ Ew). apply IH.
Qed.

Lemma snapshot_loop_mono {A Er} (f g : A -> list (DBEntry (P := payload)) -> A * option Er) o now l :
  (forall a es a', f a es = (a', None) -> g a es = (a', None)) ->
  forall i a a', snapshot_loop o now f i l a = (a', None) -> snapshot_loop o now g i l a = (a', None).
Proof.
  intros Hfg. induction l as [|sh l IH]; intros i a a'; cbn [snapshot_loop]; [done|]. destruct (shard_snapshot o now i sh) as [|en es]; [apply IH|].
  destruct (f a (en :: es)) as [a1 [err|]] eqn:Ef; [done|]. rewrite (Hfg _ _ _ Ef). apply IH.
Qed.

(** Dropping the errors makes no difference when there are none. *)
Lemma psync_snapshot_save E zset_pairs s file s' :
  Save E buffer zset_pairs s = Some ((file, None), s') -> psync_snapshot E zset_pairs s = Some (file, s').
Proof.
  unfold Save, psync_snapshot, mbind, M_bind. destruct (now E s) as [[t s1]|]; [|done]. cbn. unfold save_from, psync_encode.
  destruct (save_head buffer (t / 10 ^ 9) NewEncoder) as [e0 [[]|]] eqn:Eh; [done|done|].
  apply enc_seq_ok in Eh as (e1 & H1 & Eh). apply enc_seq_ok in Eh as (e2 & H2 & H3).
  unfold enc_seq. rewrite (enc_try_ok _ _ _ H1), (enc_try_ok _ _ _ H2), H3.
  destruct (ForEachShardSnapshot _ _ _ _ e0) as [e3 [[]|]] eqn:Ew; [done|done|]. unfold ForEachShardSnapshot in *.
  rewrite (snapshot_loop_mono _ (snapshot_entries_of E zset_pairs (s_heap s1) (s_tick s1)) _ _ _ (fun a es a' => snapshot_entries_save E zset_pairs _ _ es a a') _ _ _ Ew).
  destruct (WriteFooter buffer e3) as [e4 [[]|]] eqn:Ef; [done|done|]. rewrite (enc_try_ok _ _ _ Ef). by intros [= <- <-].
Qed.

(** ** The lines of the handshake *)

Lemma space_width_ascii l : Forall (fun b => 0 <= b < 128) l -> (space_width l <= 1)%nat.
Proof.
  intros Hl. destruct Hl as [|x l Hx Hl]; [cbn; lia|]. unfold space_width. destruct (_ || _); [lia|]. destruct l as [|y [|z l]]; [lia|..];
    rewrite !(proj2 (Z.eqb_neq x _)) by lia; cbn; lia.
Qed.

Lemma trim_right_spaces l sp : Forall (fun b => 0 <= b < 128) l -> last l <> None -> (forall b, last l = Some b -> 33 <= b) -> Forall (fun b => 9 <= b <= 13) sp ->
  forall fuel, (length sp < fuel)%nat -> trim_right fuel (l ++ sp) = l.
Proof.
  intros Hl Hne Hlast. induction sp as [|c sp IH] using rev_ind; intros Hsp fuel Hf.
  - destruct fuel as [|fuel]; [lia|]. rewrite app_nil_r. cbn [trim_right].
    assert (last_space_width l = 0%nat) as ->; [|done].
    destruct l as [|b l _] using rev_ind; [done|]. rewrite last_snoc in Hlast. specialize (Hlast b eq_refl). apply Forall_app in Hl as [Hl Hb]. rewrite Forall_singleton in Hb.
    unfold last_space_width. cbv zeta. rewrite length_app. cbn [length].
    replace (length l + 1 - 1)%nat with (length l) by lia. rewrite drop_app_length, (space_width_plain b []) by lia. cbn [Nat.eqb].
    assert (forall w, (w = 2 \/ w = 3)%nat -> Nat.eqb (space_width (drop (length l + 1 - w) (l ++ [b]))) w = false) as Hw.
    { intros w Hw. apply Nat.eqb_neq. pose proof (space_width_ascii (drop (length l + 1 - w) (l ++ [b]))) as Hs.
      enough (space_width (drop (length l + 1 - w) (l ++ [b])) <= 1)%nat by lia. apply Hs, Forall_drop, Forall_app. by rewrite Forall_singleton. }
    rewrite !Hw by lia. done.
  - apply Forall_app in Hsp as [Hsp Hc]. rewrite Forall_singleton in Hc. rewrite length_app in Hf. cbn [length] in Hf. destruct fuel as [|fuel]; [lia|]. cbn [trim_right].
    assert (last_space_width (l ++ sp ++ [c]) = 1%nat) as ->.
    { unfold last_space_width. cbv zeta. rewrite app_assoc, length_app. cbn [length]. replace (length (l ++ sp) + 1 - 1)%nat with (length (l ++ sp)) by lia.
      rewrite drop_app_length. cbn. rewrite (proj2 (Z.leb_le 9 c)), (proj2 (Z.leb_le c 13)) by lia. done. }
    rewrite app_assoc, length_app. cbn [length]. replace (length (l ++ sp) + 1 - 1)%nat with (length (l ++ sp)) by lia. rewrite take_app_length. apply IH; [done|lia].
Qed.

Lemma TrimSpace_line b l : 33 <= b < 128 -> Forall (fun b => 0 <= b < 128) l -> (forall c, last (b :: l) = Some c -> 33 <= c) -> TrimSpace ((b :: l) ++ crlf) = b :: l.
Proof.
  intros Hb Hl Hlast. unfold TrimSpace. cbn [app length trim_left]. rewrite space_width_plain by done.
  change (b :: l ++ crlf) with ((b :: l) ++ crlf). apply trim_right_spaces; [by apply Forall_cons; split; [lia|]|by rewrite last_cons; destruct (last l)|done| |].
  - by repeat (apply Forall_cons; split; [lia|]).
  - cbn. rewrite length_app. cbn. lia.
Qed.

Lemma split_spaces_token w l cur : 32 ∉ w -> split_spaces cur (w ++ 32 :: l) = (cur ++ w) :: split_spaces [] l.
Proof.
  revert cur. induction w as [|c w IH]; intros cur Hw; cbn [app split_spaces]; [by rewrite app_nil_r|]. apply not_elem_of_cons in Hw as [Hc Hw].
  rewrite (proj2 (Z.eqb_neq c 32)) by congruence. rewrite IH by done. by rewrite <- app_assoc.
Qed.

Lemma split_spaces_last w cur : 32 ∉ w -> split_spaces cur w = [cur ++ w].
Proof.
  revert cur. induction w as [|c w IH]; intros cur Hw; cbn [split_spaces]; [by rewrite app_nil_r|]. apply not_elem_of_cons in Hw as [Hc Hw].
  rewrite (proj2 (Z.eqb_neq c 32)) by congruence. rewrite IH by done. by rewrite <- app_assoc.
Qed.

Lemma ReadBytes_line l rest : 10 ∉ l -> ReadBytes 10 (l ++ crlf ++ rest) = Some (l ++ crlf, rest).
Proof.
  intros Hl. change (crlf ++ rest) with ([13] ++ 10 :: rest). rewrite app_assoc, ReadBytes_app.
  - by rewrite <- app_assoc.
  - rewrite elem_of_app, list_elem_of_singleton. by intros [|].
Qed.

Lemma FormatInt_plain n : Forall (fun b => 33 <= b < 128) (FormatInt n).
Proof. eapply Forall_impl; [apply FormatInt_chars|]. unfold is_digit. intros b. cbn. lia. Qed.

Lemma plain_not_in c l : c <= 32 -> Forall (fun b => 33 <= b < 128) l -> c ∉ l.
Proof. intros Hc Hl Hin. rewrite Forall_forall in Hl. specialize (Hl c Hin). cbn in Hl. lia. Qed.

Lemma plain_last l c : Forall (fun b => 33 <= b < 128) l -> last l = Some c -> 33 <= c.
Proof. intros Hl Hc. apply last_Some_elem_of in Hc. rewrite Forall_forall in Hl. by apply Hl. Qed.

Lemma plain_ascii l : Forall (fun b => 33 <= b < 128) l -> Forall (fun b => 0 <= b < 128) l.
Proof. intros Hl. eapply Forall_impl; [exact Hl|]. cbn. lia. Qed.

(** ** The data *)

Lemma FlushAll_abs T T' m s : abs_rel T m s -> abs_rel T' ∅ (set_db (FlushAll (s_db s)) s).
Proof.
  intros H. destruct (ar_db _ _ _ H) as [Hwf Hm]. assert (forall k, view T' (set_db (FlushAll (s_db s)) s) k = None) as Hv.
  { intros k. unfold view, abs. cbn [s_db set_db]. by rewrite FlushAll_cell. }
  split; cbn [s_db s_lim s_heap s_next set_db]; [split; [by apply wf_FlushAll|done]|by apply H|..].
  - intros k. by rewrite Hv, lookup_empty.
  - intros k w e l. by rewrite Hv.
  - intros k k' w w' e e' l. by rewrite Hv.
Qed.

(** What the primary feeds for a history, each command with the environment in which the replica executes it. *)
Fixpoint feeds (es : list (event * (env * Z))) (p : St) : option (list (env * list bytes) * St) :=
  match es with
  | [] => Some ([], p)
  | (ev, (E', _)) :: es =>
    '(_, p') ← request (ev_env ev) (ev_name ev :: args_of (ev_cmd ev)) p;
    '(l, p2) ← feeds es p';
    Some (((fun argv => (E', argv)) <$> drop (length (outbox p)) (outbox p')) ++ l, p2)
  end.

Lemma requests_app l1 l2 s : requests (l1 ++ l2) s = ('(r1, s1) ← requests l1 s; '(r2, s2) ← requests l2 s1; Some (r1 ++ r2, s2)).
Proof.
  revert s. induction l1 as [|[E argv] l1 IH]; intros s; cbn [app requests].
  - cbn. by destruct (requests l2 s) as [[]|].
  - unfold mbind, M_bind. destruct (request E argv s) as [[r s1]|]; [|done]. cbn. rewrite IH. destruct (requests l1 s1) as [[r1 s2]|]; [|done]. cbn.
    by destruct (requests l2 s2) as [[]|].
Qed.

Lemma follow_feeds es : forall p r p' r', follow es p r = Some (p', r') -> exists l rs, feeds es p = Some (l, p') /\ requests l r = Some (rs, r').
Proof.
  induction es as [|[ev [E' T1]] es IH]; intros p r p' r'; cbn [follow feeds]; [intros [= <- <-]; by exists [], []|].
  destruct (request _ _ p) as [[rep p1]|]; [|done]. destruct (requests _ r) as [[rs r1]|] eqn:Er; [|done]. intros (l & rs' & El & Erl)%IH.
  cbn. rewrite El. cbn. eexists _, _. split; [done|]. rewrite requests_app, Er. cbn. by rewrite Erl.
Qed.

(** ** The client *)

Section client.
Variables (arenas : nat -> option (Z -> option bytes)) (envs : nat -> env) (new_zset : list bytes -> M robj).
Hypothesis Harena : forall i, arena_ok (arenas i).

Lemma stream_loop_ok l : forall fuel i s (Q : list bytes -> St -> Prop),
  Forall (fun x => sendable x.2) l -> (forall k x, l !! k = Some x -> envs (i + k) = x.1) -> (length (stream l.*2) < fuel)%nat ->
  wp (requests l) s Q -> wp (stream_loop arenas envs fuel i (stream l.*2)) s (fun _ s' => exists rs, Q rs s').
Proof using Harena.
  induction l as [|[E argv] l IH]; intros fuel i s Q Hl He Hf HQ; (destruct fuel as [|fuel]; [lia|]); cbn [stream_loop].
  { destruct HQ as (rs & s' & [= <- <-] & HQ). apply wp_ret. by exists []. }
  apply Forall_cons in Hl as [Ha Hl]. change (stream ((E, argv) :: l).*2) with (encodeCommand argv ++ stream l.*2) in *.
  pose proof (ParseRequest_encoded (arenas i) argv (stream l.*2) (Harena i) Ha) as Ep. rewrite Ep. apply ParseRequest_progress in Ep.
  destruct argv as [|a argv]; [by destruct Ha|]. cbn [requests] in HQ. assert (envs i = E) as -> by (rewrite <- (Nat.add_0_r i); exact (He 0%nat _ eq_refl)). apply wp_bind.
  eapply wp_mono; [exact (wp_bind_inv _ _ _ _ HQ)|]. intros r s1 H1. eapply wp_mono; [apply (IH fuel (S i)); [done| |lia|exact (wp_bind_inv _ _ _ _ H1)]|].
  - intros k x Hk. rewrite <- (He (S k) x Hk). f_equal. lia.
  - intros _ s2 (rs & rs' & s3 & [= <- <-] & HQ3). by eexists.
Qed.

Lemma select_row E ex : reg "select" selectCommand 2 FlagFast ∈ rows E ex.
Proof. unfold rows. rewrite !elem_of_app. unfold keyspace_rows. rewrite !elem_of_cons. tauto. Qed.

Lemma messages_stream argvs : concat (messages 0 argvs) = stream ([str "SELECT"; str "0"] :: argvs).
Proof. unfold messages. rewrite drop_0. reflexivity. Qed.

Lemma preamble_ok E s l Q :
  ready s -> multi_of s = false -> wp (requests l) (set_prop None s) (fun rs s' => Q (OK :: rs) s') -> wp (requests ((E, [str "SELECT"; str "0"]) :: l)) s Q.
Proof.
  intros Hr Hm HQ. cbn [requests]. apply wp_bind. apply (wp_control E _ "select" selectCommand 2 FlagFast); [done|apply select_row|done|done|done|by rewrite Hm|].
  apply (wp_arg _ _ (str "0")); [done|]. apply wp_ret. apply wp_bind. eapply wp_mono; [exact HQ|]. intros rs s' H. by apply wp_ret.
Qed.

(** The reply, the length and the payload are read back; the load and the stream are what remains. *)
Lemma after_psync_full mgr replID off rdb rest s Q :
  spaceless replID -> replID <> [] -> is_int64 off -> zlen rdb <= maxAlloc ->
  wp (_ ← db_FlushAll; err ← RdbLoad (envs 0) new_zset rdb;
      match err with
      | Some _ => mret (SetMasterInfo mgr replID off, false)
      | None => _ ← stream_loop arenas envs (S (length rest)) 1 rest; mret (SetMasterInfo mgr replID off, true)
      end) s Q ->
  wp (after_psync arenas envs new_zset mgr ((str "+FULLRESYNC " ++ replID ++ str " " ++ FormatInt off ++ crlf) ++ (str "$" ++ FormatInt (zlen rdb) ++ crlf ++ rdb) ++ rest)) s Q.
Proof.
  intros Hid Hne Hoff Hlen HQ. set (line := str "FULLRESYNC " ++ replID ++ 32 :: FormatInt off). pose proof (FormatInt_plain off) as Hplain.
  assert (last line = last (FormatInt off)) as Hlast by (unfold line; rewrite app_assoc, cons_middle, app_assoc, last_app; destruct (FormatInt off) eqn:E; [by apply FormatInt_not_nil in E|by rewrite last_cons; destruct (last l)]).
  assert (Forall (fun b => 0 <= b < 128) line) as Hascii.
  { unfold line. apply Forall_app. split; [by apply (bool_decide_unpack _); vm_compute|]. apply Forall_app. split; [by apply plain_ascii|]. apply Forall_cons. split; [lia|by apply plain_ascii]. }
  assert (10 ∉ 43 :: line) as Hnl.
  { unfold line. rewrite not_elem_of_cons, !not_elem_of_app, not_elem_of_cons. split_and!; [done|by apply (bool_decide_unpack _); vm_compute|by apply plain_not_in|done|by apply plain_not_in]. }
  assert (TrimSpace ((43 :: line) ++ crlf) = 43 :: line) as Htrim.
  { apply TrimSpace_line; [lia|done|]. intros c. rewrite last_cons, Hlast. destruct (last (FormatInt off)) eqn:E; [|by apply last_None, FormatInt_not_nil in E]. intros [= <-]. by apply (plain_last _ _ Hplain). }
  unfold after_psync.
  replace ((str "+FULLRESYNC " ++ replID ++ str " " ++ FormatInt off ++ crlf) ++ (str "$" ++ FormatInt (zlen rdb) ++ crlf ++ rdb) ++ rest)
    with ((43 :: line) ++ crlf ++ ((36 :: FormatInt (zlen rdb)) ++ crlf ++ rdb ++ rest)) by (unfold line; by rewrite <- ?app_comm_cons, <- !app_assoc).
  rewrite ReadBytes_line by done. cbv zeta. rewrite Htrim.
  assert (HasPrefix (43 :: line) (str "+FULLRESYNC") = true) as -> by (unfold HasPrefix; by rewrite bool_decide_true).
  assert (split_spaces [] (43 :: line) = [str "+FULLRESYNC"; replID; FormatInt off]) as ->.
  { unfold line. change (43 :: str "FULLRESYNC " ++ replID ++ 32 :: FormatInt off) with (str "+FULLRESYNC" ++ 32 :: replID ++ 32 :: FormatInt off).
    rewrite split_spaces_token by (by apply (bool_decide_unpack _); vm_compute). rewrite split_spaces_token by (by apply plain_not_in). by rewrite split_spaces_last by (by apply plain_not_in). }
  assert (parse_offset (FormatInt off) = off) as -> by (unfold parse_offset; by rewrite ParseInt_FormatInt).
  rewrite ReadBytes_line; [|rewrite not_elem_of_cons; split; [done|apply plain_not_in; [lia|apply FormatInt_plain]]].
  assert (HasPrefix ((36 :: FormatInt (zlen rdb)) ++ crlf) (str "$") = true) as -> by (unfold HasPrefix; by rewrite bool_decide_true). cbn [negb].
  assert (TrimSpace (drop 1 ((36 :: FormatInt (zlen rdb)) ++ crlf)) = FormatInt (zlen rdb)) as ->.
  { cbn [app drop]. rewrite drop_0. pose proof (FormatInt_plain (zlen rdb)) as Hp. destruct (FormatInt (zlen rdb)) as [|b l] eqn:E; [by apply FormatInt_not_nil in E|].
    apply TrimSpace_line; [by apply Forall_cons in Hp as [? _]|apply Forall_cons in Hp as [_ ?]; by apply plain_ascii|]. intros c. by apply plain_last. }
  rewrite ParseInt_FormatInt by (unfold is_int64, min_int64, max_int64; unfold maxAlloc in Hlen; zlen_pose; lia).
  rewrite (proj2 (Z.ltb_ge (zlen rdb) 0)), (proj2 (Z.ltb_ge _ _)) by (zlen_pose; lia). cbn [orb].
  rewrite ReadFull_app by done. exact HQ.
Qed.

Lemma expect_line p l rest : 10 ∉ p ++ l -> expect p ((p ++ l ++ crlf) ++ rest) = Some rest.
Proof.
  intros Hl. unfold expect. replace ((p ++ l ++ crlf) ++ rest) with ((p ++ l) ++ crlf ++ rest) by by rewrite <- !app_assoc. rewrite ReadBytes_line by done.
  assert (HasPrefix ((p ++ l) ++ crlf) p = true) as ->; [|done]. unfold HasPrefix. apply bool_decide_true. rewrite <- app_assoc. apply take_app_length.
Qed.

End client.

(** ** From the primary to the replica *)

Lemma psync_snapshot_state E zset_pairs s file s' : psync_snapshot E zset_pairs s = Some (file, s') -> s' = set_tick (S (S (s_tick s))) s.
Proof.
  unfold psync_snapshot, mbind, M_bind. cbn. unfold psync_encode. destruct (enc_seq _ _ _) as [e0 [|]]; [done|].
  destruct (ForEachShardSnapshot _ _ _ _ e0) as [e1 [|]]; [done|]. destruct (enc_try _ e1) as [e2 [|]]; [done|]. by intros [= _ <-].
Qed.

(** The replication manager stays. *)
Lemma serve_feeds evs : forall T m s,
  ready s -> multi_of s = false -> abs_rel T m s -> in_order T evs -> Forall event_ok evs -> is_Some (s_repl s) ->
  wp (serve evs) s (fun _ s' => is_Some (s_repl s')).
Proof.
  induction evs as [|ev evs IH]; intros T m s Hr Hm H Hord Hev Hs; [by apply wp_ret|].
  apply Forall_cons in Hev as [(Hi & Ho & Hn & Hc) Hev]. destruct Hord as [HT Hord]. cbn [serve].
  apply wp_bind. eapply wp_mono; [eapply request_ok; [exact Hi|exact Ho|exact Hr|exact Hm|by eapply abs_rel_later|exact Hc|exact Hn]|].
  intros r s1 (_ & H1 & HS1 & Hem). destruct (ready_session _ _ HS1 Hr) as [Hr1 Hm1]. rewrite Hm in Hm1. destruct Hs as [l Hl].
  destruct (emits_fed _ _ _ _ _ Hem Hl) as (ks & _ & Hl' & _).
  apply wp_bind. eapply wp_mono; [eapply IH; [exact Hr1|exact Hm1|exact H1|exact Hord|exact Hev|by rewrite Hl']|]. intros rs s2 H2. by apply wp_ret.
Qed.

(** What the primary answers before PSYNC. *)
Definition greetings : bytes := (str "+PONG" ++ [] ++ crlf) ++ (str "+OK" ++ [] ++ crlf) ++ (str "+OK" ++ [] ++ crlf).

(** C4. A replica that joins between two commands ends with the primary's data, from bytes to bytes. A primary has served a history of the
    commands of [cmd] when a replica, whatever data it holds, asks for the stream with an id that is not the primary's; the primary then
    serves more commands. The replica reads the reply, the snapshot and the fed commands from the connection, drops its data, loads the one
    and executes the others, later than the primary. The conditions: every value is small enough to be loaded, no key of the snapshot has
    expired when it is loaded, and what is fed afterwards is [followable], as for [replica_follows]. Then the replica reports no error, it
    has taken over the primary's id and offset, and it holds the dataset of both histories, like the primary. (A replica that joins while a
    command is between its execution and its feeding executes it twice: [unfed_write_is_executed_twice].) *)
Theorem full_resync_follows lim T0 evs E T zset_pairs mgr rid off E' T' new_zset r0 T1 m0 es myPort rmgr arenas :
  let m := expire_dataset T (ref_history false ∅ evs).2 in
  limits_ok lim -> in_order T0 evs -> Forall event_ok evs -> end_time T0 evs <= T ->
  instant E T -> T <= max_deadline -> (forall n, oracle_ok (orc E n)) -> orders_ok E -> map_Forall (fun k x => loadable k x.1) m ->
  spaceless (masterReplID mgr) -> masterReplID mgr <> [] -> rid <> masterReplID mgr -> is_int64 (masterReplOffset mgr) ->
  instant E' T' -> ready r0 -> multi_of r0 = false -> abs_rel T1 m0 r0 -> durable T' m -> followable T T' m es -> (forall i, arena_ok (arenas i)) ->
  exists rs p mgr' id reply payload p1 fed p2,
    serve evs (initial lim true) = Some (rs, p) /\
    HandlePSync E zset_pairs mgr rid off p = Some ((mgr', id, reply, payload), p1) /\
    feeds es p1 = Some (fed, p2) /\ abs_rel (end_time T es.*1) (ref_history false m es.*1).2 p2 /\
    (forall envs, envs 0%nat = E' -> (forall k x, fed !! k = Some x -> envs (2 + k)%nat = x.1) -> zlen payload <= maxAlloc -> Forall (fun x => sendable x.2) fed ->
       wp (syncWithMaster arenas envs new_zset rmgr myPort (greetings ++ reply ++ payload ++ concat (messages 0 fed.*2))) r0 (fun x r =>
         x.2 = true /\ x.1.2 = SetMasterInfo rmgr (masterReplID mgr) (masterReplOffset mgr) /\
         abs_rel (late_time T' es) (ref_history false m es.*1).2 r)).
Proof.
  intros m Hl Hord Hev Hend Hclk HT Horc Ho Hload Hid Hne Hrid Hoff Hclk' Hr0 Hm0 H0 Hd Hes Harena. destruct (initial_ready lim true) as [Hr Hm].
  destruct (serve_ok evs T0 ∅ (initial lim true)) as (rs & p & Es & _ & Hp & HS); [exact Hr|exact Hm|by apply initial_abs|exact Hord|exact Hev|].
  assert (abs_rel T m p) as HTm by (by eapply abs_rel_later). destruct (ready_session _ _ HS Hr) as [Hrp Hmp].
  destruct (save_ok E T m p buffer zset_pairs Hclk HT Horc Ho ltac:(done) HTm Hload) as (ents & bss & unix & p1 & Hu & Hs & Hin & H2). set (file := head_bytes unix ++ _) in *.
  apply psync_snapshot_save in Hs. pose proof (psync_snapshot_state _ _ _ _ _ Hs) as Hp1.
  assert (abs_rel T m p1) as HTm1 by (rewrite Hp1; by destruct HTm; split).
  assert (ready p1 /\ multi_of p1 = false /\ c_resp3 p1 = false /\ is_Some (s_repl p1)) as (Hrp1 & Hmp1 & H31 & Hf1).
  { destruct (serve_feeds evs T0 ∅ (initial lim true)) as (rs' & p' & Es' & Hsinks); [exact Hr|exact Hm|by apply initial_abs|exact Hord|exact Hev|done|].
    rewrite Es in Es'. injection Es' as <- <-. rewrite Hp1. cbn [c_resp3 s_repl set_tick]. split_and!; [by destruct Hrp; split|change (multi_of p = false); by rewrite Hmp|by rewrite (se_resp3 _ _ HS)|exact Hsinks]. }
  destruct (load_ok E' T' m new_zset ents bss unix (set_db (FlushAll (s_db r0)) r0) Hclk' Hd) as (err & r1 & Er1 & -> & Hr1 & Hq1); [|exact Hu|exact Hin|exact H2|by eapply FlushAll_abs|].
  { intros k x Hk. split; [exact (abs_rel_bounds _ _ _ HTm _ _ Hk)|exact (proj1 (Hload _ _ Hk))]. }
  assert (ready r1 /\ multi_of r1 = false) as [Hrr1 Hmr1].
  { assert (session (set_db (FlushAll (s_db r0)) r0) r1) as HS1 by (destruct (k_conn _ _ _ (Hq1 ∅)); by split).
    destruct (ready_session _ _ HS1) as [Ha Hb]; [by destruct Hr0; split|]. split; [exact Ha|]. by rewrite Hb. }
  destruct (follow_ok es T T' m p1 (set_prop None r1)) as (p2 & r2 & Ef & Hp2 & Hr2); [exact Hrp1|exact Hmp1|exact HTm1|exact H31|exact Hf1|by destruct Hrr1; split|exact Hmr1|by apply abs_rel_prop|exact Hes|].
  destruct (follow_feeds _ _ _ _ _ Ef) as (fed & out & Efed & Ereq).
  eexists rs, p, _, _, _, _, p1, fed, p2. split_and!; [exact Es| |exact Efed|exact Hp2|].
  { unfold HandlePSync, newSessionLocked. cbn [masterReplID masterReplOffset backlog]. rewrite (bool_decide_false (rid = masterReplID mgr)), andb_false_r by done. cbn [andb].
    unfold mbind, M_bind. rewrite Hs. reflexivity. }
  intros envs He0 He Hpl Hsend. unfold syncWithMaster. cbv zeta. unfold greetings. rewrite <- (app_assoc (str "+PONG" ++ [] ++ crlf)), <- (app_assoc (str "+OK" ++ [] ++ crlf)).
  rewrite !expect_line by (by apply (bool_decide_unpack _); vm_compute). apply wp_bind. rewrite <- He0 in Er1.
  apply after_psync_full; [exact Hid|exact Hne|exact Hoff| |].
  { revert Hpl. rewrite !zlen_app. zlen_pose. lia. }
  apply wp_bind. eexists _, _. split; [reflexivity|]. apply wp_bind. exists None, r1. split; [exact Er1|]. apply wp_bind. rewrite messages_stream.
  pose proof (stream_loop_ok arenas envs Harena ((envs 1%nat, [str "SELECT"; str "0"]) :: fed)) as Hloop. cbn [fmap list_fmap snd] in Hloop. eapply wp_mono; [apply (Hloop _ _ _ (fun _ r => r = r2))|].
  - apply Forall_cons. split; [|exact Hsend]. split_and!; [done|by vm_compute|]. by repeat (apply Forall_cons; split; [by vm_compute|]).
  - intros [|k] x Hk; [by injection Hk as <-|]. by apply He.
  - lia.
  - apply preamble_ok; [exact Hrr1|exact Hmr1|]. exists out, r2. split; [exact Ereq|done].
  - intros _ r (_ & ->). by apply wp_ret, wp_ret.
Qed.

(** A counter is incremented after the replica of an earlier history has joined. *)
Definition after_join : list (event * (env * Z)) := [(mkEvent (frozen 40) 40 (str "INCRBY") (Incrby (str "joined") 7), (frozen 45, 45))].

Lemma full_resync_follows_witness :
  exists rs p mgr' id reply payload p1 fed p2,
    serve sample (initial default_limits true) = Some (rs, p) /\
    HandlePSync (frozen 20) (fun _ => None) (NewManager (str "id")) (str "?") (-1) p = Some ((mgr', id, reply, payload), p1) /\
    feeds after_join p1 = Some (fed, p2) /\
    (forall envs, envs 0%nat = frozen 30 -> (forall k x, fed !! k = Some x -> envs (2 + k)%nat = x.1) -> zlen payload <= maxAlloc -> Forall (fun x => sendable x.2) fed ->
       wp (syncWithMaster (fun _ => None) envs (fun _ => panic) (NewManager (str "mine")) 6380 (greetings ++ reply ++ payload ++ concat (messages 0 fed.*2))) (follower default_limits) (fun x r =>
         x.2 = true /\ abs_rel 45 (ref_history false (expire_dataset 20 (ref_history false ∅ sample).2) after_join.*1).2 r)).
Proof.
  destruct (follower_ok 0 default_limits default_limits_ok) as (Hr & Hm & H0).
  destruct (full_resync_follows default_limits 0 sample (frozen 20) 20 (fun _ => None) (NewManager (str "id")) (str "?") (-1) (frozen 30) 30 (fun _ => panic) (follower default_limits) 0 ∅
              after_join 6380 (NewManager (str "mine")) (fun _ => None)) as (rs & p & mgr' & id & reply & payload & p1 & fed & p2 & Es & Ej & Ef & _ & Hc).
  - exact default_limits_ok.
  - cbn. lia.
  - exact sample_ok.
  - vm_compute. discriminate.
  - by apply frozen_instant.
  - vm_compute. discriminate.
  - apply frozen_oracle.
  - apply frozen_orders.
  - apply map_Forall_to_list, Forall_forall. intros [k x] Hx. apply loadable_b_spec.
    assert (forallb (fun kx => loadable_b kx.1 kx.2.1) (map_to_list (expire_dataset 20 (ref_history false ∅ sample).2)) = true) as Hall by (vm_compute; reflexivity).
    rewrite forallb_forall in Hall. exact (Hall (k, x) (proj1 (list_elem_of_In _ _) Hx)).
  - change (spaceless (str "id")). repeat constructor; by vm_compute.
  - discriminate.
  - discriminate.
  - change (is_int64 0). done.
  - by apply frozen_instant.
  - exact Hr.
  - exact Hm.
  - exact H0.
  - vm_compute. reflexivity.
  - cbn [after_join followable]. split_and!; try (vm_compute; first [reflexivity|discriminate|exact I]).
    all: idtac.
    1: split_and!; [by apply frozen_instant|apply frozen_orders|reflexivity|vm_compute; split; discriminate].
    all: try apply frozen_orders; try (by apply frozen_instant).
  - done.
  - exists rs, p, mgr', id, reply, payload, p1, fed, p2. split_and!; [exact Es|exact Ej|exact Ef|]. intros envs He0 He Hp Hs.
    eapply wp_mono; [apply Hc; [exact He0|exact He|exact Hp|exact Hs]|]. intros x r (Hx & _ & Hr'). split; [exact Hx|exact Hr'].
Defined.

(** ** Where the two part *)

(** A primary with a small backlog. *)
Definition small : Manager := mkManager RoleMaster [] 0 (str "id") 0 (NewBacklog 256) ∅ 0 ∅.

(** A command is executed before it is fed, and the two are not one step: a replica that joins in between finds the effect in the snapshot
    and the command in its queue, and executes it again. *)
Example unfed_write_is_executed_twice :
  (p ← request (frozen 1) [str "INCR"; str "n"] (initial default_limits true);
   j ← HandlePSync (frozen 2) (fun _ => None) small (str "?") (-1) p.2;
   let '(m, id, reply, payload) := j.1 in
   m ← FeedCommand m [str "INCR"; str "n"];
   q ← sessions m !! id;
   r ← syncWithMaster (fun _ => None) (fun _ => frozen 3) (fun _ => panic) small 6380 (greetings ++ reply ++ payload ++ concat (MsgCh q)) (follower default_limits);
   Some (read_back 4 (str "n") p.2, read_back 4 (str "n") r.2)) = Some (Some (BulkString (str "1")), Some (BulkString (str "2"))).
Proof. vm_compute. reflexivity. Qed.

(** The client does not count what it executes: when it reconnects, it asks for the stream from where its last snapshot was taken, gets that
    part of the stream again and executes it again. *)
Example reconnecting_replica_repeats_the_stream :
  (j ← HandlePSync (frozen 1) (fun _ => None) small (str "?") (-1) (initial default_limits true);
   let '(m, id, reply, payload) := j.1 in
   p ← request (frozen 2) [str "INCR"; str "n"] (initial default_limits true);
   m ← FeedCommand m [str "INCR"; str "n"];
   q ← sessions m !! id;
   r ← syncWithMaster (fun _ => None) (fun _ => frozen 3) (fun _ => panic) small 6380 (greetings ++ reply ++ payload ++ concat (MsgCh q)) (follower default_limits);
   let '(rid, off) := psync_args (psync_request r.1.1.2) in
   j ← HandlePSync (frozen 4) (fun _ => None) (UnregisterReplica m id) rid off p.2;
   let '(m, id, reply, payload) := j.1 in
   q ← sessions m !! id;
   r' ← syncWithMaster (fun _ => None) (fun _ => frozen 5) (fun _ => panic) r.1.1.2 6380 (greetings ++ reply ++ payload ++ concat (MsgCh q)) r.2;
   Some (reply, read_back 6 (str "n") p.2, read_back 6 (str "n") r'.2)) = Some (str "+CONTINUE id" ++ crlf, Some (BulkString (str "1")), Some (BulkString (str "2"))).
Proof. vm_compute. reflexivity. Qed.

(** A replica takes over the primary's offset but not its backlog.  When it is promoted and announces that offset to a replica of its own, the
    offset does not fit its backlog: that replica resumes in the middle of a command. *)
Example promoted_replica_resumes_inside_a_command :
  (let m := SetMasterInfo small (str "id") 10 in
   j ← HandlePSync (frozen 1) (fun _ => None) m (str "?") (-1) (initial default_limits true);
   let '(m, id, announced, _) := j.1 in
   m ← FeedCommand m [str "SET"; str "k"; str "v"];
   j ← HandlePSync (frozen 2) (fun _ => None) (UnregisterReplica m id) (str "id") 10 (initial default_limits true);
   let '(_, _, reply, payload) := j.1 in
   Some (announced, reply, ParseRequest None payload)) =
    Some (str "+FULLRESYNC id 10" ++ crlf, str "+CONTINUE id" ++ crlf, POk [str "T"] (drop 13 (encodeCommand [str "SET"; str "k"; str "v"]))).
Proof. vm_compute. reflexivity. Qed.
