(* ===== verification/Dump.v ===== *)
(** * DUMP and RESTORE ([commands/dump.go])

    DUMP wraps one entry of the snapshot format in a version and a checksum; RESTORE checks both, reads the entry into a scratch
    database and moves the value across.  [dump_restore_roundtrip] moves any value between two servers;
    [restore_refuses_damage] shows what the checksum protects against. *)

From S2P Require Import Prelude Strconv Listpack Intset Quicklist Object Dict Value Db DbSpec DbScan Lzf Aof Crc64 Rdb Request Reply Acl Cluster Context.
From S2P Require Import Strings StringSpec Generic GenericSpec Hashes HashSpec Sets SetSpec Lists ListSpec Bitmap Bits BitSpec Dispatch Registry CommandSpec ServerSpec.
From S2P Require Import HistorySpec ReplicationSpec ServerLaws Rewrite Snapshot.
Local Open Scope Z_scope.

(** ** The handlers *)

Definition dumpFooterLen : Z := 10.
Definition dumpVersion : Z := 1.

(** [bytes.Buffer] takes every write. *)
Definition buffer : writer := fun f d => (f ++ d, None).

(** The version and the checksum at the end of a payload. *)
Definition seal (body : bytes) : bytes :=
  let out := body ++ PutLE 2 dumpVersion in
  out ++ PutLE 8 (CRC64 0 out).

Section handlers.
Variable E : env.
Variable zset_pairs : robj -> option (list (bytes * bytes)).
Variable new_zset : list bytes -> M robj.

Definition dump_entry (h : gmap nat container) (n : nat) (key : bytes) (obj : robj) (expireAt : Z) : EncM :=
  (WriteHeader buffer;; WriteEntry buffer h (dict_order E n) (set_order E n) zset_pairs key obj expireAt;; WriteFooter buffer)%enc.

Definition dumpCommand (argv : list bytes) : M bytes :=
  key ← arg argv 1;
  r ← db_GetWithTTL E key;
  match r with
  | None => mret NullBulkString
  | Some (obj, expireAt) =>
    h ← gets s_heap;
    n ← gets s_tick;
    match dump_entry h n key obj expireAt NewEncoder with
    | (_, Some Panicked) => panic
    | (_, Some (Failed _)) => mret (Error (str "failed to serialize value"))
    | (e, None) => mret (BulkString (seal (enc_w e)))
    end
  end.

(** REPLACE and ABSTTL; [inl] is the error reply. *)
Fixpoint restore_opts (replace absTTL : bool) (argv : list bytes) : bytes + (bool * bool) :=
  match argv with
  | [] => inr (replace, absTTL)
  | a :: rest =>
    let eq s := bool_decide (ToUpper a = str s) in
    if eq "REPLACE" then restore_opts true absTTL rest
    else if eq "ABSTTL" then restore_opts replace true rest
    else if eq "IDLETIME" || eq "FREQ" then
      match rest with
      | [] => inl (Error (str "syntax error"))
      | b :: rest => match ParseInt b with None => inl not_integer | Some _ => restore_opts replace absTTL rest end
      end
    else inl (Error (str "syntax error"))
  end.

(** A computation on a database of its own; what it allocates stays. *)
Definition in_scratch {A} (m : M A) : M A := fun s =>
  '(a, s') ← m (set_sinks None None (set_db NewShardedDB s));
  Some (a, set_sinks (s_aof s) (s_repl s) (set_db (s_db s) s')).

Definition db_Keys (pattern : bytes) : M (list bytes) := db_call E (fun P o t db => Some (Keys o t db pattern, db)).

(** The only object of the payload's body, if there is one. *)
Definition restored_object (body : bytes) : M (option robj) :=
  in_scratch (
    err ← RdbLoad E new_zset body;
    match err with
    | Some _ => mret None
    | None =>
      names ← db_Keys (str "*");
      match names with [name] => db_Get E name | _ => mret None end
    end).

Definition wrong_payload : bytes := Error (str "DUMP payload version or checksum are wrong").

(** Version and checksum. *)
Definition payload_ok (payload : bytes) : bool :=
  if zlen payload <? dumpFooterLen then false
  else
    let verOff := Z.to_nat (zlen payload - dumpFooterLen) in
    let version := UintLE (take 2 (drop verOff payload)) in
    let want := UintLE (drop (verOff + 2) payload) in
    (version =? dumpVersion) && (CRC64 0 (take (verOff + 2) payload) =? want).

Definition oom_text : bytes := str "OOM command not allowed when used memory > 'maxmemory'".

Definition restoreCommand (argv : list bytes) : M bytes :=
  key ← arg argv 1;
  a2 ← arg argv 2;
  match ParseInt a2 with
  | None => mret not_integer
  | Some ttlMs =>
    if ttlMs <? 0 then mret (Error (str "Invalid TTL value, must be >= 0"))
    else
      payload ← arg argv 3;
      match restore_opts false false (drop 4 argv) with
      | inl err => mret err
      | inr (replace, absTTL) =>
        if negb (payload_ok payload) then mret wrong_payload
        else
          busy ← (if replace then mret false else db_Exists E key);
          if busy : bool then mret (Error (str "BUSYKEY Target key name already exists."))
          else
            restored ← restored_object (take (Z.to_nat (zlen payload - dumpFooterLen)) payload);
            match restored with
            | None => mret (Error (str "Bad data format"))
            | Some o =>
              err ← db_Set E key o;
              match err with
              | Some _ => mret (Error oom_text)
              | None =>
                _ ← (if 0 <? ttlMs then
                       if absTTL then db_SetExpireAt E key ttlMs else db_SetExpire E key (s64 (ttlMs * 10 ^ 6))
                     else mret true);
                mret OK
              end
            end
      end
  end.

End handlers.

(** ** DUMP *)

Definition magic : bytes := str "REDIS0009".
Definition dump_bytes (e : Z) (body : bytes) : bytes := magic ++ entry_bytes e body ++ footer_bytes (magic ++ entry_bytes e body).

Lemma buffer_ok : wr_ok buffer.
Proof. intros f d. done. Qed.

Lemma dump_ok E T m s zset_pairs n k v e :
  instant E T -> orders_ok E -> abs_rel T m s -> m !! k = Some (v, e) -> loadable k v ->
  wp (dumpCommand E zset_pairs [n; k]) s (fun r s' =>
    abs_rel T m s' /\ exists body x, object_bytes k body x /\ stands_for x v /\ r = BulkString (seal (dump_bytes e body))).
Proof.
  intros Hclk Ho H Hm Hl. apply (wp_arg _ _ k); [done|]. apply wp_bind. apply (db_GetWithTTL_rule E T Hclk m); [exact H|]. intros r s1 H1 _ _ _ Hr. rewrite Hm in Hr.
  destruct Hr as (o & -> & Hrep & _). apply wp_bind, wp_gets, wp_bind, wp_gets.
  destruct (write_object_ok E (s_tick s1) (s_heap s1) buffer zset_pairs Ho buffer_ok k o v Hrep Hl) as (body & x & Hp & Hb & Hx).
  assert (0 <= e <= max_deadline) as He by exact (abs_rel_bounds _ _ _ H _ _ Hm).
  assert (puts (WriteEntry buffer (s_heap s1) (dict_order E (s_tick s1)) (set_order E (s_tick s1)) zset_pairs k o e) (entry_bytes e body)) as Hw.
  { apply puts_seq; [|exact Hp]. destruct (0 <? e); [|apply puts_skip]. apply puts_seq; [apply puts_writeByte, buffer_ok|].
    replace max_deadline with 9223372036854 in He by (by vm_compute). rewrite u64_id by lia. apply puts_writeRaw, buffer_ok. }
  assert (puts (WriteHeader buffer) magic) as Hh by apply puts_writeRaw, buffer_ok. unfold dump_entry. unfold enc_seq at 1. rewrite Hh. unfold enc_seq at 1. rewrite Hw.
  unfold WriteFooter, enc_seq. rewrite (puts_writeByte buffer buffer_ok OpcodeEOF). cbn [enc_w enc_crc NewEncoder]. unfold buffer at 1. apply wp_ret. split; [exact H1|].
  exists body, x. split; [exact Hb|]. split; [exact Hx|]. do 2 f_equal. cbn [enc_w]. unfold dump_bytes, footer_bytes. cbn [app]. rewrite !CRC64_app, <- !app_assoc. done.
Qed.

(** ** RESTORE *)

Lemma payload_ok_seal body : payload_ok (seal body) = true /\ take (Z.to_nat (zlen (seal body) - dumpFooterLen)) (seal body) = body.
Proof.
  set (out := body ++ PutLE 2 dumpVersion). assert (length out = length body + 2)%nat as Hlo by (unfold out; by rewrite length_app, PutLE_length).
  assert (length (seal body) = length body + 10)%nat as Hls by (unfold seal; cbv zeta; fold out; rewrite length_app, Hlo, PutLE_length; lia).
  assert (Z.to_nat (zlen (seal body) - dumpFooterLen) = length body) as Hn by (unfold zlen, dumpFooterLen; lia).
  unfold payload_ok. rewrite Hn, (proj2 (Z.ltb_ge _ _)) by (unfold zlen, dumpFooterLen; lia). unfold seal. cbv zeta. fold out.
  split; [|unfold out; by rewrite <- app_assoc, take_app_length].
  rewrite (take_app_length' out _ (length body + 2)), (drop_app_length' out _ (length body + 2)) by lia. rewrite UintLE_PutLE by (apply CRC64_word; by vm_compute). unfold out.
  rewrite <- app_assoc, drop_app_length, take_app_length'; [|done]. apply andb_true_iff. split; apply Z.eqb_eq; reflexivity.
Qed.

Lemma UintLE_inj x : forall y, is_bytes x -> is_bytes y -> length x = length y -> UintLE x = UintLE y -> x = y.
Proof.
  induction x as [|b x IH]; intros [|c y] Hx Hy Hl He; try done. apply Forall_cons in Hx as [Hb Hx], Hy as [Hc Hy]. unfold is_byte in *.
  cbn [UintLE foldr] in He. fold (UintLE x) (UintLE y) in He. assert (b = c /\ UintLE x = UintLE y) as [-> Hr] by lia. f_equal. apply IH; [done..|by injection Hl|exact Hr].
Qed.

Lemma restore_opts_error : forall opts rp ab err, restore_opts rp ab opts = inl err -> exists b, err = Error b.
Proof.
  fix IH 1. intros [|a opts] rp ab err; cbn [restore_opts]; [discriminate|]. cbv zeta.
  destruct (bool_decide _); [apply IH|]. destruct (bool_decide _); [apply IH|]. destruct (_ || _); [|intros [= <-]; by eexists].
  destruct opts as [|b opts]; [intros [= <-]; by eexists|]. destruct (ParseInt b); [apply IH|]. intros [= <-]. by eexists.
Qed.

(** What fails the check is refused, with nothing changed. *)
Lemma restore_refused E new_zset n k a2 payload opts s :
  payload_ok payload = false -> wp (restoreCommand E new_zset (n :: k :: a2 :: payload :: opts)) s (fun r s' => is_error r = true /\ s' = s).
Proof.
  intros Hp. assert (forall b, wp (mret (Error b)) s (fun r s' => is_error r = true /\ s' = s)) as Herr by (intros b; apply wp_ret; split; [apply Error_error|done]).
  apply (wp_arg _ _ k); [done|]. apply (wp_arg _ _ a2); [done|]. destruct (ParseInt a2) as [ttl|]; [|apply Herr]. destruct (ttl <? 0); [apply Herr|].
  apply (wp_arg _ _ payload); [done|]. change (drop 4 (n :: k :: a2 :: payload :: opts)) with (drop 0 opts). rewrite drop_0.
  destruct (restore_opts false false opts) as [err|[rp ab]] eqn:Eo; [destruct (restore_opts_error _ _ _ _ Eo) as [b ->]; apply Herr|]. rewrite Hp. apply Herr.
Qed.

(** *** The scratch database *)

Definition scratch (s : St) : St := set_sinks None None (set_db NewShardedDB s).

Lemma scratch_abs T m s : abs_rel T m s -> abs_rel T ∅ (scratch s).
Proof.
  intros H. assert (forall k, view T (scratch s) k = None) as Hv.
  { intros k. unfold view, abs. change (cell (s_db (scratch s)) k) with (cell (NewShardedDB (P := payload)) k). by rewrite NewShardedDB_cell. }
  split.
  - exact NewShardedDB_unlimited.
  - exact (ar_lim _ _ _ H).
  - intros k. by rewrite Hv, lookup_empty.
  - intros k w e l. by rewrite Hv.
  - intros k k' w w' e e' l. by rewrite Hv.
Qed.

Section restoring.
Variables (E : env) (T : Z) (new_zset : list bytes -> M robj).
Hypothesis Hclk : instant E T.
Hypothesis Horc : forall n, oracle_ok (orc E n).

Lemma load_dump s k body x v e :
  abs_rel T ∅ s -> object_bytes k body x -> stands_for x v -> allocable k -> 0 <= e <= max_deadline -> alive T e = true ->
  wp (RdbLoad E new_zset (dump_bytes e body)) s (fun err s' => err = None /\ abs_rel T {[k := (v, e)]} s' /\ loaded T s s' k e).
Proof using Hclk.
  intros H Hb Hx Hk He Ha. unfold RdbLoad, dump_bytes, NewDecoder. rewrite (reading_ok _ magic 9 _ _ _ yields_header).
  apply (load_entry E T new_zset Hclk ∅ s k body x v); [exact H|exact Hb|exact Hx|exact Hk|exact He|exact Ha|rewrite !length_app; lia|].
  intros fuel s' Hf H' HL. destruct fuel as [|fuel]; [lia|]. unfold footer_bytes. rewrite <- (CRC64_app 0 magic), load_footer by (apply CRC64_word; by vm_compute).
  apply wp_ret. split; [done|]. split; [by rewrite insert_empty in H'|exact HL].
Qed.

Lemma exists_live m s k : abs_rel T m s -> Exists (clk E (s_tick s)) (s_db s) k = bool_decide (is_Some (m !! k)).
Proof using Hclk.
  intros H. destruct (db_Exists_rule E T Hclk m s k (fun b _ => b = bool_decide (is_Some (m !! k))) H) as (b & s' & Eb & ->); [done|]. by injection Eb as ->.
Qed.

Lemma only_key s k v e : abs_rel T {[k := (v, e)]} s -> Keys (orc E (s_tick s)) (clk E (s_tick s)) (s_db s) (str "*") = [k].
Proof using Hclk Horc.
  intros H. destruct (ar_db _ _ _ H) as [Hwf _].
  destruct (Keys_spec (orc E (s_tick s)) (clk E (s_tick s)) (s_db s) (str "*") (Horc _) Hwf) as [Hnd Hin].
  assert (forall j, j ∈ Keys (orc E (s_tick s)) (clk E (s_tick s)) (s_db s) (str "*") <-> j = k) as Hk.
  { intros j. rewrite Hin, (exists_live _ _ _ H). unfold keys_matches. rewrite bool_decide_eq_true, bool_decide_true by done. cbn [orb].
    rewrite lookup_singleton_is_Some. naive_solver. }
  destruct (Keys _ _ _ _) as [|a l]; [exfalso; apply (not_elem_of_nil k); by apply Hk|]. apply NoDup_cons in Hnd as [Hn _]. assert (a = k) as -> by (apply Hk; by left).
  destruct l as [|b l]; [done|]. destruct Hn. assert (b = k) as -> by (apply Hk; by right; left). by left.
Qed.

Lemma db_Keys_rule m s pattern (Q : list bytes -> St -> Prop) :
  abs_rel T m s ->
  (forall s', abs_rel T m s' -> quiet s s' -> s_heap s' = s_heap s -> s_next s' = s_next s -> (forall j, view T s' j = view T s j) ->
     Q (Keys (orc E (s_tick s)) (clk E (s_tick s)) (s_db s) pattern) s') ->
  wp (db_Keys E pattern) s Q.
Proof.
  clear. intros H HQ. destruct (after_quiet (s_db s) s eq_refl eq_refl) as (E1 & E2 & E3 & Hk & Hq). eexists _, _. split; [reflexivity|].
  assert (forall j, view T (set_tick (S (s_tick s)) (put_db (s_db s) s)) j = view T s j) as Hv by (intros j; unfold view; by rewrite E1).
  apply HQ; [|exact Hq|exact E2|exact E3|exact Hv]. eapply unchanged; [exact H|exact E2|exact E3|exact Hk|rewrite E1; apply H|exact Hv].
Qed.

Lemma restored_object_ok m s k body x v e (Q : option robj -> St -> Prop) :
  abs_rel T m s -> object_bytes k body x -> stands_for x v -> allocable k -> 0 <= e <= max_deadline -> alive T e = true ->
  (forall o s', abs_rel T m s' -> quiet s s' -> storable T s' o v -> Q (Some o) s') ->
  wp (restored_object E new_zset (dump_bytes e body)) s Q.
Proof using Hclk Horc.
  intros H Hb Hx Hk He Ha HQ. pose proof (scratch_abs T m s H) as H0.
  assert (wp (err ← RdbLoad E new_zset (dump_bytes e body);
    match err with
    | Some _ => mret None
    | None => names ← db_Keys E (str "*"); match names with [name] => db_Get E name | _ => mret None end
    end) (scratch s) (fun r s3 => exists o, r = Some o /\ same_conn (scratch s) s3 /\ extends (scratch s) s3 /\
      represents (s_heap s3) (face o) v /\ forall l, ref_of (face o) = Some l -> (s_next s <= l < s_next s3)%nat)) as (r & s3 & Er & o & -> & Hc & [Hn Hh] & Hrep & Hfr).
  { apply wp_bind. eapply wp_mono; [by eapply load_dump|]. intros err s1 (-> & H1 & Hq1 & [Hn1 Hh1] & w & Hw & Hfr).
    apply wp_bind. apply (db_Keys_rule {[k := (v, e)]}); [exact H1|]. rewrite (only_key _ _ _ _ H1). intros s2 H2 Hq2 E2 E3 Hv2.
    apply (db_Get_view_rule E T Hclk {[k := (v, e)]}); [exact H2|]. intros r s3 H3 Hk3%reaps_keeps E2' E3' Hr _ Hv3. unfold reads in Hr. rewrite lookup_singleton_eq in Hr.
    destruct Hr as (o & -> & Hrep & Hvk). rewrite Hv3, Hv2, Hw in Hvk. injection Hvk as Hwo. exists o. split; [done|]. split.
    - eapply same_conn_trans; [exact (quiet_conn _ _ Hq1)|]. eapply same_conn_trans; [exact (quiet_conn _ _ Hq2)|exact (k_conn _ _ _ Hk3)].
    - split; [split; [rewrite E3', E3; exact Hn1|intros l Hl; rewrite E2', E2; by apply Hh1]|]. split; [exact Hrep|].
      intros l Hl. rewrite <- Hwo in Hl. rewrite E3', E3. exact (Hfr l Hl). }
  set (s4 := set_sinks (s_aof s) (s_repl s) (set_db (s_db s) s3)). exists (Some o), s4. split; [unfold restored_object, in_scratch; fold (scratch s); by rewrite Er|].
  assert (forall j, view T s4 j = view T s j) as Hv by done. apply HQ.
  - eapply (abs_rel_same T m s); [exact H|apply H|exact (k_lim _ _ Hc)|exact Hn|exact Hv|]. intros j w e' l Hj Hl. apply Hh. exact (ar_fresh _ _ _ H _ _ _ _ Hj Hl).
  - apply quiet_intro; [|done|done]. destruct Hc. by split.
  - split; [exact Hrep|]. intros l Hl. destruct (Hfr l Hl) as [Hge Hlt]. split; [exact Hlt|]. intros j w e' Hj Hw. rewrite Hv in Hj.
    pose proof (ar_fresh _ _ _ H _ _ _ _ Hj Hw). lia.
Qed.

End restoring.

(** ** Properties *)

(** The deadline that RESTORE gives for a time to live. *)
Definition ttl_deadline (T ttl : Z) : Z := if ttl =? 0 then 0 else T + ttl.

(** C9. DUMP and RESTORE move a value between servers. What DUMP answers for a string, list, set or hash in any encoding, small enough to be
    loaded, can be given to RESTORE on another server, with other thresholds, under a key that is not there: as long as the deadline which
    the key had on the first server, and which DUMP puts into the payload, has not passed when RESTORE runs, it answers OK and the key holds
    the same value, with the time to live that RESTORE was given. (After that deadline it answers an error: [dump_expires_with_its_key].) *)
Theorem dump_restore_roundtrip E T m s zset_pairs n k v e E' T' m' s' new_zset n' k' ttl :
  instant E T -> orders_ok E -> abs_rel T m s -> m !! k = Some (v, e) -> loadable k v ->
  instant E' T' -> (forall i, oracle_ok (orc E' i)) -> abs_rel T' m' s' -> m' !! k' = None -> alive T' e = true ->
  0 <= ttl -> T' + ttl <= max_deadline ->
  exists payload s1, dumpCommand E zset_pairs [n; k] s = Some (BulkString payload, s1) /\ abs_rel T m s1 /\
    wp (restoreCommand E' new_zset [n'; k'; FormatInt ttl; payload]) s' (fun r s2 =>
      r = OK /\ abs_rel T' (<[k' := (v, ttl_deadline T' ttl)]> m') s2).
Proof.
  intros Hclk Ho H Hm Hl Hclk' Horc H' Hk' Ha Ht Hd.
  destruct (dump_ok E T m s zset_pairs n k v e Hclk Ho H Hm Hl) as (r & s1 & Er & H1 & body & x & Hb & Hx & ->).
  exists (seal (dump_bytes e body)), s1. split; [exact Er|]. split; [exact H1|]. destruct (payload_ok_seal (dump_bytes e body)) as [Hok Hbody].
  assert (0 <= T') as HT by apply Hclk'. assert (0 <= ttl <= max_deadline) as Htb by lia. replace max_deadline with 9223372036854 in Htb by (by vm_compute).
  apply (wp_arg _ _ k'); [done|]. apply (wp_arg _ _ (FormatInt ttl)); [done|]. rewrite ParseInt_FormatInt by (unfold is_int64, min_int64, max_int64; lia).
  rewrite (proj2 (Z.ltb_ge ttl 0)) by lia. apply (wp_arg _ _ (seal (dump_bytes e body))); [done|]. change (drop 4 _) with (@nil bytes). cbn [restore_opts]. rewrite Hok. cbn [negb].
  apply wp_bind. apply (db_Exists_rule E' T' Hclk' m'); [exact H'|]. intros s2 H2 _ _ _ _. rewrite bool_decide_false by (rewrite Hk'; by intros [? ?]). rewrite Hbody.
  apply wp_bind. apply (restored_object_ok E' T' new_zset Hclk' Horc m' s2 k body x v e); [exact H2|exact Hb|exact Hx|exact (proj1 Hl)|exact (abs_rel_bounds _ _ _ H _ _ Hm)|exact Ha|].
  intros o s3 H3 _ Hst. apply wp_bind. apply (db_Set_rule E' T' Hclk' m' s3 k' o v); [exact H3|exact Hst|]. intros s4 H4 _ _ _ _. apply wp_bind.
  unfold ttl_deadline. destruct (Z.eqb_spec ttl 0) as [->|Hne]; [by apply wp_ret, wp_ret|]. rewrite (proj2 (Z.ltb_lt 0 ttl)) by lia.
  rewrite s64_id by (unfold is_int64, min_int64, max_int64; lia). apply (db_SetExpire_rule E' T' Hclk' (<[k' := (v, 0)]> m')); [exact H4|lia|lia|].
  intros s5 H5 _ _ _. apply wp_ret. split; [done|]. unfold with_deadline in H5. rewrite lookup_insert_eq, insert_insert_eq in H5.
  by rewrite alive_after in H5 by lia.
Qed.

(** C10. RESTORE refuses damaged payloads.  Take any payload that RESTORE accepts, and change up to eight consecutive bytes of it before
    the checksum, or any bytes of the checksum: RESTORE answers an error, whatever its other arguments, and nothing at all changes. *)
Theorem restore_refuses_damage E new_zset p x q c y c' n k a2 opts s :
  payload_ok (p ++ x ++ q ++ c) = true -> zlen c = 8 -> is_bytes (p ++ x ++ q ++ c) -> is_bytes (y ++ c') -> length y = length x -> length c' = length c ->
  (zlen x <= 8 /\ y <> x /\ c' = c) \/ (y = x /\ c' <> c) ->
  wp (restoreCommand E new_zset (n :: k :: a2 :: (p ++ y ++ q ++ c') :: opts)) s (fun r s' => is_error r = true /\ s' = s).
Proof.
  intros Hok Hc Hb Hb' Hly Hlc Hdam. apply restore_refused. unfold is_bytes in Hb, Hb'. rewrite !Forall_app in Hb. rewrite Forall_app in Hb'. destruct Hb as (Hp & Hx & Hq & Hcb), Hb' as [Hy Hcb'].
  assert (forall x c : bytes, zlen c = 8 -> 10 <= zlen (p ++ x ++ q ++ c) -> payload_ok (p ++ x ++ q ++ c) = true -> CRC64 0 (p ++ x ++ q) = UintLE c) as Hcrc.
  { clear. intros x c Hc Hl Hok. unfold payload_ok in Hok. rewrite (proj2 (Z.ltb_ge _ _)) in Hok by exact Hl. cbv zeta in Hok. apply andb_true_iff in Hok as [_ Hok%Z.eqb_eq].
    assert (Z.to_nat (zlen (p ++ x ++ q ++ c) - dumpFooterLen) + 2 = length (p ++ x ++ q))%nat as Hn by (unfold zlen, dumpFooterLen in *; rewrite !length_app in *; lia).
    rewrite Hn in Hok. replace (p ++ x ++ q ++ c) with ((p ++ x ++ q) ++ c) in Hok by by rewrite <- !app_assoc. by rewrite take_app_length, drop_app_length in Hok. }
  assert (10 <= zlen (p ++ x ++ q ++ c)) as Hl.
  { unfold payload_ok in Hok. destruct (Z.ltb_spec (zlen (p ++ x ++ q ++ c)) dumpFooterLen) as [|Hge]; [discriminate|exact Hge]. }
  assert (zlen (p ++ y ++ q ++ c') = zlen (p ++ x ++ q ++ c)) as Hll by (unfold zlen; rewrite !length_app; lia).
  pose proof (Hcrc x c Hc Hl Hok) as H1. destruct (payload_ok (p ++ y ++ q ++ c')) eqn:Hok'; [|done]. exfalso.
  pose proof (Hcrc y c' ltac:(unfold zlen in *; lia) ltac:(lia) Hok') as H2. destruct Hdam as [(Hx8 & Hne & ->)|[-> Hne]].
  - rewrite <- H1 in H2. revert H2. apply CRC64_detects; [by vm_compute|exact Hp|exact Hy|exact Hx|exact Hq|exact Hly|unfold zlen in *; lia|exact Hne].
  - apply Hne, UintLE_inj; [exact Hcb'|exact Hcb|exact Hlc|congruence].
Qed.

(** A list of three elements moves to a server with the smallest thresholds. *)
Lemma dump_restore_roundtrip_witness :
  exists rs s payload s1,
    requests [(frozen 1, [str "RPUSH"; str "l"; str "a"; str "b"; str "a"])] (follower default_limits) = Some (rs, s) /\
    dumpCommand (frozen 5) (fun _ => None) [str "DUMP"; str "l"] s = Some (BulkString payload, s1) /\
    wp (restoreCommand (frozen 9) (fun _ => panic) [str "RESTORE"; str "m"; FormatInt 7; payload]) (follower (mkLimits 1 64 1 1 64 1 64 1))
      (fun r s2 => r = OK /\ abs_rel 9 {[str "m" := (RList [str "a"; str "b"; str "a"], 16)]} s2).
Proof.
  destruct (follower_ok 1 default_limits default_limits_ok) as (Hr & Hm & H0).
  destruct (requests_ok (frozen 1) 1 [(str "RPUSH", Push false (str "l") [str "a"; str "b"; str "a"])] (frozen_instant 1 ltac:(lia)) (frozen_orders 1) ∅ _ Hr Hm H0) as (rs & s & Es & H & _).
  { apply Forall_singleton. split; [reflexivity|discriminate]. }
  exists rs, s. assert (limits_ok (mkLimits 1 64 1 1 64 1 64 1)) as Hlim by (split; cbn; lia). destruct (follower_ok 9 _ Hlim) as (_ & _ & H9).
  destruct (dump_restore_roundtrip (frozen 5) 5 {[str "l" := (RList [str "a"; str "b"; str "a"], 0)]} s (fun _ => None) (str "DUMP") (str "l") (RList [str "a"; str "b"; str "a"]) 0
    (frozen 9) 9 ∅ (follower (mkLimits 1 64 1 1 64 1 64 1)) (fun _ => panic) (str "RESTORE") (str "m") 7) as (payload & s1 & Ed & _ & Hw).
  - by apply frozen_instant.
  - apply frozen_orders.
  - apply (abs_rel_later 1 5) in H; [|lia]. exact H.
  - apply lookup_singleton_eq.
  - apply loadable_b_spec. vm_compute. reflexivity.
  - by apply frozen_instant.
  - apply frozen_oracle.
  - exact H9.
  - apply lookup_empty.
  - reflexivity.
  - lia.
  - vm_compute. discriminate.
  - exists payload, s1. split; [exact Es|]. split; [exact Ed|exact Hw].
Defined.

Lemma restore_refuses_damage_witness :
  payload_ok (seal (str "abc")) = true /\
  wp (restoreCommand (frozen 5) (fun _ => panic)
    [str "RESTORE"; str "k"; str "0"; str "a" ++ str "x" ++ (str "c" ++ PutLE 2 1) ++ PutLE 8 (CRC64 0 (str "abc" ++ PutLE 2 1))]) (follower default_limits)
    (fun r s' => is_error r = true /\ s' = follower default_limits).
Proof.
  split; [vm_compute; reflexivity|].
  apply (restore_refuses_damage (frozen 5) (fun _ => panic) (str "a") (str "b") (str "c" ++ PutLE 2 1) (PutLE 8 (CRC64 0 (str "abc" ++ PutLE 2 1)))
    (str "x") (PutLE 8 (CRC64 0 (str "abc" ++ PutLE 2 1))) (str "RESTORE") (str "k") (str "0") [] (follower default_limits)).
  - vm_compute. reflexivity.
  - reflexivity.
  - vm_compute. repeat constructor; discriminate.
  - vm_compute. repeat constructor; discriminate.
  - reflexivity.
  - reflexivity.
  - left. split; [vm_compute; discriminate|]. split; [vm_compute; discriminate|reflexivity].
Defined.

(** A payload carries the deadline of the key it was taken from, and RESTORE gives it up for bad data once that has passed, even when
    it is given a time to live of its own. *)
Example dump_expires_with_its_key :
  (rs ← requests [(frozen 1, [str "SET"; str "k"; str "v"; str "PX"; str "10"])] (follower default_limits);
   d ← dumpCommand (frozen 5) (fun _ => None) [str "DUMP"; str "k"] rs.2;
   let payload := take (length d.1 - 7) (drop 5 d.1) in
   r ← restoreCommand (frozen 20) (fun _ => panic) [str "RESTORE"; str "k2"; str "1000"; payload] (follower default_limits);
   r' ← restoreCommand (frozen 8) (fun _ => panic) [str "RESTORE"; str "k2"; str "1000"; payload] (follower default_limits);
   Some (r.1, r'.1)) = Some (Error (str "Bad data format"), OK).
Proof. vm_compute. reflexivity. Qed.
